(* ===== verification/_CoqProject ===== *)
-Q . S2P
Prelude.v
Common.v
PageBitmap.v
PageHeap.v
PageHeapAlloc.v
MemoryBlock.v
MemoryBlockManager.v
MemoryBlockSpec.v
Results.v
AutoObject.v
HandleTable.v
HandleTableSpec.v
ResourceLimit.v
MemoryRegion.v
PageGroup.v
MemoryManager.v
ManagerImpl.v
ManagerPages.v
MemoryManagerSpec.v
PhysicalMemory.v
PriorityQueue.v
PriorityQueueLinks.v
PriorityQueueSpec.v
Thread.v
ThreadLocks.v
ThreadWaiters.v
ThreadInherit.v
ThreadHandover.v
ThreadState.v
ThreadOps.v
ThreadWaits.v
ThreadSpec.v
Scheduler.v
SchedulerState.v
SchedulerUpdate.v
SchedulerMigrate.v
SchedulerYield.v
SchedulerSteps.v
SchedulerDispatch.v
SchedulerSpec.v
GuestMemory.v
ConditionVariable.v
AddressArbiter.v
WaitInvariant.v
SystemState.v
ConditionVariableOps.v
AddressArbiterOps.v
SyncSpec.v
RedBlackTree.v
RedBlackShape.v
RedBlackZip.v
RedBlackRotate.v
RedBlackBalance.v
RedBlackInsert.v
RedBlackRemove.v
RedBlackErase.v
RedBlackSearch.v
RedBlackSpec.v
RedBlackThreads.v
Capabilities.v
CapabilitiesSpec.v
AddressSpace.v
AddressSpaceSpec.v
FlatAllocatorSpec.v
CheatVm.v
CheatVmSpec.v
CheatEncoding.v
