(* ===== verification/Prelude.v ===== *)
(** * The kernel's data structures and the cheat machine of the emulator

    A model of parts of src/src/core and src/src/common, with the theorems that make them
    correct. The emulator
    runs a guest operating system's processes. Its kernel (src/src/core/hle/kernel) is written
    in the host's C++ and keeps the guest's memory, handles, limits and threads in the data
    structures modelled here; the cheat machine (src/src/core/memory) is an interpreter that
    reads and writes the guest's memory between two frames. Functions keep their names.

    ** Parts, files and sources

    - [Prelude] (this file): machine integers as [Z] with their wrap-around written out, the
      checked-computation monad, generic lemmas and the hint databases.
    - [Common]: alignment, bit counting, overflow tests and the TinyMT generator
      (src/src/common/alignment.h, bit_util.h, overflow.h, div_ceil.h, tiny_mt.h).
    - [PageBitmap]: the hierarchical bitmap (k_page_bitmap.h). A state is the list of its
      levels' words. The class [FreeBitmap] says that it is a finite set of block offsets and
      that every operation acts on the set; its instance is the bitmap.
    - [PageHeap], [PageHeapAlloc]: the page allocator (k_page_heap.h, k_page_heap.cpp), one
      bitmap per block size. It uses of the bitmap only the operations and the laws of
      [PageBitmap]. Its theorems speak of the set of free pages.
    - [MemoryBlock], [MemoryBlockManager], [MemoryBlockSpec]: the properties of an address
      space (k_memory_block.h, k_memory_block_manager.h and .cpp). The blocks are the in-order
      list of the red-black tree; the specification is a function from addresses to page
      properties, and every update refines a pointwise update of it.
    - [Results]: bit fields (src/src/common/bit_field.h) and result codes (hle/result.h,
      svc_results.h).
    - [AutoObject]: reference counts, dynamic casts and class tokens (k_auto_object.h,
      k_class_token.h, the object sets of kernel.cpp).
    - [HandleTable], [HandleTableSpec]: the table of a process's handles (k_handle_table.h and
      .cpp), which opens and closes the objects of [AutoObject]; the specification is a finite
      map from handles to objects.
    - [ResourceLimit]: resource limits (k_resource_limit.h and .cpp), as locked passes and a
      step relation over them for the threads that wait.
    - [MemoryRegion]: the regions of a memory layout and their tree (k_memory_region_type.h,
      k_memory_region.h, k_memory_layout.cpp). A tree is the in-order list of its regions, a
      specification the function from addresses to what the tree says of them.
    - [PageGroup]: lists of page blocks (k_page_group.h and .cpp).
    - [MemoryManager]: the physical memory manager over several heaps (k_memory_manager.h and
      .cpp) and the operations of a page group that call it. [ManagerImpl] has the invariant
      [impl_ok] of one manager: its heap, the reference counts of its pages and the bitmap of
      the optimized process. [ManagerPages] has the invariant [mm_ok] of all of them, the state
      of a page in whichever manager owns it ([page_free], [page_count], [page_mark]) and the
      walks over the managers and the blocks of a group; [MemoryManagerSpec] states each
      operation on pages, and [PhysicalMemory] the properties. The client of the heap knows
      its set of free pages only.
    - [PriorityQueue], [PriorityQueueLinks], [PriorityQueueSpec]: the scheduler's queue
      (k_priority_queue.h, src/src/common/bit_set.h, k_affinity_mask.h, the queue entries of
      k_thread.h), with its links kept in the members as the code keeps them. The
      representation is a table of lists, one for each kind, priority and core; the
      specification of an operation is an operation on that table.
    - [Thread]: threads that wait (k_thread.h and .cpp, k_thread_queue.cpp), what the scheduler
      is told of them (k_scheduler.cpp, global_scheduler_context.cpp) and the wait queues of
      condition variables, address arbiters and light locks. Its state holds the queue of
      [PriorityQueue], whose members are the threads. [ThreadLocks] has the invariant
      [locks_ok] of threads and lock infos and its preservation when waiters come and go and a
      lock changes hands; [ThreadWaiters] adds the trees and the scheduler's queue
      ([kernel_ok]); [ThreadInherit] has the priority a thread should have ([inherits]) and
      the loop of [RestorePriority]; [ThreadHandover], [ThreadState], [ThreadOps] and
      [ThreadWaits] have the operations, and [ThreadSpec] the properties.
    - [Scheduler]: the schedulers of the four cores (k_scheduler.h and .cpp,
      global_scheduler_context.cpp, k_scheduler_lock.h, the scheduling fields of k_thread.h and
      k_process.h). Its state, [Machine], joins the kernel of [Thread], whose queue and threads
      the schedulers share, with one [KScheduler] for each core. [SchedulerState] and
      [SchedulerUpdate] have the invariant [machine_ok] and what a migration does to the lists
      of the queue; [SchedulerMigrate] the update of the threads that the cores are to run
      ([settled]), [SchedulerYield] the rotations and the yields, [SchedulerSteps] what every
      operation on threads leaves in place ([steady]) and the invariant [in_order],
      [SchedulerDispatch] the release of the lock and the switch, [SchedulerSpec] the
      properties.
    - [GuestMemory]: the 32-bit accesses to the memory of a process (memory.cpp).
    - [ConditionVariable], [AddressArbiter]: the calls with which guest programs lock, wait and
      signal (k_condition_variable.cpp, k_address_arbiter.cpp, the sleep of k_thread.cpp). Their
      state, [System], joins the threads of [Thread], the memory, the handles of [HandleTable]
      and the objects of [AutoObject]: a lock is a word of memory that holds its owner's handle.
      [WaitInvariant] says where a waiting thread sits ([calm]) and [SystemState] what the whole
      is ([system_ok]) and what every operation on threads leaves in place ([kept]);
      [ConditionVariableOps] and [AddressArbiterOps] have the operations, [SyncSpec] the
      properties.
    - [RedBlackTree]: the intrusive red-black tree (src/src/common/tree.h,
      intrusive_red_black_tree.h). A store is a map from pointers to entries and a root; the
      links are written one by one, as the code writes them. [RedBlackShape] has the tree that
      a store represents at a position in it ([at_zip]: the subtree there, and the way up),
      [RedBlackZip] what is read and painted there, [RedBlackRotate] the rotations,
      [RedBlackBalance] the colours ([rbt], and [cok] for the way up), [RedBlackInsert],
      [RedBlackRemove] and [RedBlackErase] the operations, for the left and the right side at
      once, [RedBlackSearch] the searches and walks, and [RedBlackSpec] the properties, for
      every comparison that is a [Comparator]. [RedBlackThreads] shows that the lists in which
      [Thread] and [ConditionVariable] keep waiting threads are such trees, with the
      comparison of k_thread.h.
    - [Capabilities]: what a program's descriptors let it do (k_capabilities.h and .cpp, the
      virtual cores of src/src/core/hardware_properties.h). A state is the record of the flags
      and masks; the page table is a class of operations over a state of its own.
      [CapabilitiesSpec] says what the capabilities are as a function of the list of
      descriptors ([granted]).
    - [AddressSpace]: the address spaces of the emulated devices and their allocator
      (src/src/common/address_space.h, address_space.inc), for every choice of the template's
      parameters. A space is the sorted vector of its blocks. [AddressSpaceSpec] reads it as a
      function from addresses to physical addresses ([translate]) and states mapping and
      unmapping as pointwise updates of it; [FlatAllocatorSpec] has the invariant [tidy] of an
      allocator and its properties.
    - [CheatVm], [CheatVmSpec], [CheatEncoding]: the cheat machine (dmnt_cheat_vm.h and .cpp,
      dmnt_cheat_types.h), its instruction formats as an assembler, and its properties. The
      memory and the keys of the guest are the operations of the class [Callbacks], as they
      are in the source.

    ** What the theorems show

    - Pages: the operations of the bitmap and of the heap never fail on a well-formed state,
      answer "none" exactly when there is none, and add or take exactly the pages asked for.
      Initialisation fits in the memory that the overhead computation reserves.
    - Address spaces: an update changes the pages of its range as it should and no other
      page, leaves the blocks tiling the space and coalesced, and needs no more blocks than
      its allocator holds. It is undefined in one case ([steps_back] false: the range starts inside
      the first block and that block already has the properties), and the plain update also where a
      page of the range may not change ([changeable]); [Update_correct] states both. Searching for a
      free area is exact.
    - Physical memory: allocation of a page group succeeds exactly when its pool has the pages,
      whatever the fragmentation, provided no two managers of the pool are adjacent; the pages
      of a group are distinct, were free and are counted; the last close frees exactly them;
      the memory of a new process is filled, except for the pages that an optimized process
      had before. A block that is freed in a heap is free again and merged. With adjacent managers
      a failed allocation loses memory (the Example [failed_allocation_leaks]).
    - Regions: an insertion changes exactly the addresses of the new region, splits the region
      it is carved from and keeps the pair addresses in step.
    - Objects and handles: the table is a map; stale handles stay invalid until the linear id
      comes round; looking up several handles is all or nothing; the token test is
      inheritance; an object is destroyed by the close of its last reference.
    - Limits: the invariant of the counters in every interleaving, provided that the callers
      release no more than they hold and give no more back as a hint than they are still to give
      ([may_release]: the code does not check this, and the Example [late_hint] breaks the
      invariant without it); the answers of a reservation ([Reserve_correct]), and that a release
      lets a waiting thread in.
    - Scheduling: every operation of the queue keeps the representation and acts on the lists;
      the front and next queries walk the members of a core in priority order.
    - Cores: every sequence of operations on threads, rotations, preemptions, yields, updates
      and switches returns and leaves each core told to run the front of its queue, unless an
      update is due, when the operations are called as their callers may ([may_run]: a dispatch count
      is not negative, and positive to leave a region; a switch leads to an existing thread that
      is no dummy and has the dispatch disabled once); after an update no core is idle while a thread that may move there waits
      behind another, unless a thread runs that forbids migrations; a thread that yields gives
      way to the next of its priority; a rotation keeps the order of the other threads; the
      time of a thread is charged when it leaves its core.
    - Threads: every sequence of operations on waiters, priorities, states and waits keeps the
      invariant and returns, deadlocked threads or not; after every such sequence a thread has the
      highest of the base priorities of itself and those that wait for it, and its lock owner is the
      thread it waits for ([GetLockOwner_ok]); a released lock goes to its first waiter, whom the caller wakes; a
      cancelled wait leaves everything it waited in; a suspension can be undone.
    - Synchronization: every sequence of the calls of guest programs, time-outs, cancellations
      and thread switches returns and keeps the invariant; a lock that is released goes to the
      thread that waits for it, with its tag in the word; a signal of a condition variable
      sends threads to their locks, the first of them first, and exactly the first one when it is of
      one thread; it clears the word exactly when the walk ends at the end of the key; other threads
      keep their states and waits, though the owners of the locks may inherit priority; a signal of
      the arbiter wakes exactly the first waiters and changes the word by the rule of its type; a
      wait sleeps exactly when the word says so. A broadcast can miss a thread ([broadcast_misses_a_waiter]).
    - Red-black trees: every sequence of insertions and erasures returns and leaves a tree that
      is linked, coloured and ordered as it should be, with the elements of the same operations
      on a list; the result of an insertion and of an erasure; searches find what a search of
      the list finds, in at most [2 lg (n + 1) + 1] turns; the iterator walks the elements in
      order, forwards and backwards ([walks_in_order]); the trees of waiting threads do what
      [Thread] and [ConditionVariable] say. An insertion of an element that is equal to
      another returns an iterator out of the tree ([insert_returns_foreign_node]).
    - Capabilities: reading a program's descriptors always returns; when it succeeds a system
      call is permitted exactly when a mask has it, cores, priorities, handles and flags are
      those of the one descriptor of their type, the reserved bits of the program type and the handle
      table are unused (those of the debug flags are not looked at), and no interrupt is permitted;
      ranges are given as pairs of descriptors; whatever the descriptors, only ranges within 36 bits
      of physical address are mapped. The type of a descriptor is the number of its low ones ([GetCapabilityType_correct]).
    - Device address spaces: mapping changes exactly its range; unmapping does, except that it
      leaves a block when a free range is in front and another mapping behind ([leaves]), and
      fails an assertion when it takes the end of a mapping ([trips]). Allocations never meet
      and stay until they are freed, as long as none is fixed. An allocation takes the linear end
      while there is space behind it, then the first gap from the second block on, and says that
      the space is full when there is none: the free addresses in front of the second block are
      not searched (Example [front_not_searched]). A fixed allocation may be overlapped
      ([AllocateFixed_then_Allocate], [skip_fixed_overlaps]).
    - Cheats: a turn is undefined in exactly the cases listed; conditional blocks nest; a
      program none of whose opcodes ends a loop finishes, whatever its values look like; decoding
      inverts the documented formats, except that a loop loses its register; loading concatenates.

    ** Failure, loops and bounds

    A failed assertion, an access outside an array, a null dereference and a shift by the width
    are [None]; the operations' theorems say when this cannot happen. Assertions are taken to
    be fatal. Structural recursion replaces loops over a container. The other loops take fuel,
    and each has a lemma that the amount given suffices: [SelectRandomBit_loop_fuel] (the
    width halves: seven), [update_loop_spec] (every turn uses up a page), [Coalesce_loop_spec]
    (every turn passes or merges a block), [SkipConditionalBlock_loop_ok] (every turn passes a
    word of the program), [ClassToken_hierarchy] (three classes at most), [walk_fuel] (the
    lists of a pool hold each of the ten managers at most once, and [mm_ok] says so),
    [each_manager] (every part of a range has a page at least) and [while_spec] (every turn
    takes a block off the pages that are left), [RestorePriority_loop_ok] (every turn moves
    one of the priorities, which are between 0 and 65, in one direction), [Signal_loop_ok] and
    [signal_loop_ok] (every turn takes a thread out of the tree), [suggest_fuel_ok] (every
    turn passes a thread of the queue), [few_cores] (every turn clears the bit of an idle
    core), [Convert_loop_ok] (every turn clears the lowest bit of a word), and [zip_fuel] (a position
    of a red-black tree is not deeper than there are nodes: the fuel [fuel_of]). A cheat may loop
    for ever, so [Execute] takes its number of turns from the caller and [Execute_terminates]
    bounds it where there is no loop.

    ** What is a parameter

    Random seeds and host addresses, the clock that the schedulers read, the virtual
    [Destroy] of an object, the mappings of a process's page table, the block information of an
    address space, the guest memory and keys of the cheat machine, the clock of a limit, the
    comparison of a red-black tree, and the number of free blocks of a slab allocator. The guest
    memory of the physical memory manager is a function from offsets to bytes. An
    operation that runs under a lock is one atomic step; compare-and-exchange loops too.

    ** What is not modelled

    Of threads: their creation, start, exit and termination, core masks and pinning, the wait
    queues of other classes, and the host threads and fibers they run on. An operation runs
    with the scheduler's lock held, as its assertions say.

    Of the schedulers: the fiber of a core that saves and restores the contexts of threads and
    retries while a context is locked, single core mode, and the handling of interrupts; the
    cores that are sent an interrupt are a set. [GetPinnedThread] and the choice it makes are
    modelled, but the theorems are about processes without pinned threads ([unpinned]), for
    pinning is not modelled. The lock is taken by a thread that does not hold it.

    Of the calls that synchronize threads: the checks that the system calls make before them,
    light locks, and waiting for several objects at once. What a call does when its thread
    runs again, to close its reference and return its result, is an operation of its own.

    Planned, in this order: the light lock; that [KMemoryManager::Initialize] establishes its invariant, and the properties of
    contiguous allocation; the checks of the page table; that the trees of memory blocks, of regions
    and of the waiters of a lock are red-black trees too; the event queue of the timer; the text format of cheats.

    Not planned: what drives host memory, threads and fibers, the recompiler, the renderer and
    shader compiler, the audio and input drivers, the front ends and the network, whose
    behaviour is that of the host and of third-party code; the request handlers of the
    services, which are many, independent and mostly stubs; file formats over host files; and
    generated or vendored sources. *)
From stdpp Require Export base tactics option list numbers gmap sets.
From Stdlib Require Export ZArith Lia.

Open Scope Z_scope.

(** ** Checked computations

    A C++ expression whose evaluation may violate an [assert] (fatal in a build
    without NDEBUG, see src/src/common/assert.h), read outside an array or shift by at
    least the width is a computation in [option]: [None] is that failure. *)
Definition check (b : bool) : option unit := if b then Some tt else None.

Lemma check_true b : b = true → check b = Some tt.
Proof. by intros ->. Qed.

Lemma check_bind_Some {A} (b : bool) (k : option A) :
  b = true → (check b;; k) = k.
Proof. by intros ->. Qed.

(** The step of a bind, without computing in what follows it. *)
Lemma bind_eq {A B} (x : option A) (f : A → option B) a : x = Some a → x ≫= f = f a.
Proof. by intros ->. Qed.

(** An operation is taken apart into its steps, each of which is a hypothesis. *)
Ltac steps :=
  repeat match goal with
    | H : Some _ = Some _ |- _ => injection H; clear H; intros; subst
    | H : None = Some _ |- _ => discriminate H
    | H : mbind _ _ = Some _ |- _ => apply bind_Some in H as (? & ? & H)
    | H : (match ?x with _ => _ end) = Some _ |- _ => destruct x eqn:?
    end.

Lemma check_bind_inv {A} (b : bool) (k : option A) x :
  (check b;; k) = Some x → b = true ∧ k = Some x.
Proof. by destruct b. Qed.

(** ** Machine integers *)
Definition wrap (w x : Z) : Z := x mod 2 ^ w.
Abbreviation u8 := (wrap 8).
Abbreviation u16 := (wrap 16).
Abbreviation u32 := (wrap 32).
Abbreviation u64 := (wrap 64).
Definition swrap (w x : Z) : Z := (x + 2 ^ (w - 1)) mod 2 ^ w - 2 ^ (w - 1).
Abbreviation s16 := (swrap 16).
Abbreviation s32 := (swrap 32).
Abbreviation s64 := (swrap 64).

Definition in_width (w x : Z) : Prop := 0 ≤ x < 2 ^ w.

Lemma wrap_range w x : 0 ≤ w → in_width w (wrap w x).
Proof. intros Hw. apply Z.mod_pos_bound. lia. Qed.

Lemma wrap_small w x : in_width w x → wrap w x = x.
Proof. apply Z.mod_small. Qed.

Lemma swrap_range w x : 0 < w → - 2 ^ (w - 1) ≤ swrap w x < 2 ^ (w - 1).
Proof.
  intros Hw. unfold swrap.
  assert (2 ^ w = 2 * 2 ^ (w - 1)) as E
    by (rewrite <-Z.pow_succ_r by lia; f_equal; lia).
  pose proof (Z.mod_pos_bound (x + 2 ^ (w - 1)) (2 ^ w)). lia.
Qed.

Lemma swrap_small w x :
  0 < w → - 2 ^ (w - 1) ≤ x < 2 ^ (w - 1) → swrap w x = x.
Proof.
  intros Hw Hx. unfold swrap.
  assert (2 ^ w = 2 * 2 ^ (w - 1)) as E
    by (rewrite <-Z.pow_succ_r by lia; f_equal; lia).
  rewrite Z.mod_small; lia.
Qed.

(** Shifts with the C++ rule: an amount outside [0, w) is undefined behaviour. *)
Definition shl (w x n : Z) : option Z :=
  check ((0 <=? n) && (n <? w));; Some (wrap w (Z.shiftl x n)).
Definition shr (w x n : Z) : option Z :=
  check ((0 <=? n) && (n <? w));; Some (Z.shiftr x n).

(** Bitwise complement at width [w]. *)
Definition lnotw (w x : Z) : Z := 2 ^ w - 1 - x.

(** ** Bits *)
Lemma testbit_ext a b :
  (∀ i, 0 ≤ i → Z.testbit a i = Z.testbit b i) → a = b.
Proof. intros H. apply Z.bits_inj'. intros n Hn. by apply H. Qed.

Lemma testbit_high w x i : in_width w x → w ≤ i → Z.testbit x i = false.
Proof.
  intros [H0 H1] Hi. destruct (Z.le_gt_cases 0 w) as [Hw|Hw].
  - rewrite <-(Z.mod_small x (2 ^ w)) by done. by apply Z.mod_pow2_bits_high.
  - rewrite Z.pow_neg_r in H1 by lia. lia.
Qed.

Lemma in_width_bits w x :
  0 ≤ w → 0 ≤ x → (∀ i, w ≤ i → Z.testbit x i = false) → in_width w x.
Proof.
  intros Hw Hx Hb. split; [done|].
  assert (x = x mod 2 ^ w) as ->.
  { apply testbit_ext. intros i Hi. destruct (Z.lt_ge_cases i w).
    - by rewrite Z.mod_pow2_bits_low.
    - rewrite Z.mod_pow2_bits_high by lia. by apply Hb. }
  apply Z.mod_pos_bound. lia.
Qed.

Lemma eq_0_bits x : (∀ i, 0 ≤ i → Z.testbit x i = false) → x = 0.
Proof. intros H. apply testbit_ext. intros i Hi. by rewrite H, Z.bits_0. Qed.

Lemma ne_0_bit w x :
  in_width w x → x ≠ 0 → ∃ i, 0 ≤ i < w ∧ Z.testbit x i = true.
Proof.
  intros Hx Hne. exists (Z.log2 x). destruct Hx. split_and!.
  - apply Z.log2_nonneg.
  - apply Z.log2_lt_pow2; lia.
  - apply Z.bit_log2; lia.
Qed.

Lemma bit_ne_0 x i : Z.testbit x i = true → x ≠ 0.
Proof. intros H ->. by rewrite Z.bits_0 in H. Qed.

Lemma shiftl_1_testbit n i :
  0 ≤ n → 0 ≤ i → Z.testbit (Z.shiftl 1 n) i = bool_decide (i = n).
Proof.
  intros Hn Hi. rewrite Z.shiftl_1_l. case_bool_decide as H; subst.
  - by apply Z.pow2_bits_true.
  - by apply Z.pow2_bits_false.
Qed.

Lemma lnotw_testbit w x i :
  0 ≤ w → in_width w x → 0 ≤ i < w →
  Z.testbit (lnotw w x) i = negb (Z.testbit x i).
Proof.
  intros Hw Hx Hi. unfold lnotw.
  replace (2 ^ w - 1 - x) with (Z.ldiff (Z.ones w) x).
  - rewrite Z.ldiff_spec, Z.ones_spec_low by lia. done.
  - rewrite <-Z.sub_nocarry_ldiff; [by rewrite Z.ones_equiv, <-Z.sub_1_r|].
    apply testbit_ext. intros j Hj. rewrite Z.ldiff_spec, Z.bits_0.
    destruct (Z.lt_ge_cases j w).
    + rewrite Z.ones_spec_low by lia. by destruct (Z.testbit x j).
    + by rewrite (testbit_high w x j).
Qed.

Lemma lnotw_range w x : in_width w x → in_width w (lnotw w x).
Proof. unfold in_width, lnotw. lia. Qed.

Lemma land_mask_0 v n :
  0 ≤ n → (Z.land v (Z.shiftl 1 n) =? 0) = negb (Z.testbit v n).
Proof.
  intros Hn. destruct (Z.testbit v n) eqn:E; simpl.
  - apply Z.eqb_neq, (bit_ne_0 _ n). by rewrite Z.land_spec, E, Z.shiftl_1_l, Z.pow2_bits_true.
  - apply Z.eqb_eq, eq_0_bits. intros i Hi.
    rewrite Z.land_spec, shiftl_1_testbit by done.
    case_bool_decide; subst; [by rewrite E|]. by rewrite andb_false_r.
Qed.

Lemma lor_bit_testbit v n i :
  0 ≤ n → 0 ≤ i →
  Z.testbit (Z.lor v (Z.shiftl 1 n)) i = bool_decide (i = n) || Z.testbit v i.
Proof. intros. rewrite Z.lor_spec, shiftl_1_testbit by done. apply orb_comm. Qed.

Lemma land_lnotw_testbit w v n i :
  0 ≤ n < w → in_width w v → 0 ≤ i →
  Z.testbit (Z.land v (lnotw w (Z.shiftl 1 n))) i
  = negb (bool_decide (i = n)) && Z.testbit v i.
Proof.
  intros Hn Hv Hi. rewrite Z.land_spec. destruct (Z.lt_ge_cases i w).
  - rewrite lnotw_testbit, shiftl_1_testbit; [apply andb_comm|lia..| |lia].
    rewrite Z.shiftl_1_l. split; [lia|]. apply Z.pow_lt_mono_r; lia.
  - rewrite (testbit_high w v i) by done. by rewrite andb_false_r.
Qed.

Lemma lor_in_width w a b : 0 ≤ w → in_width w a → in_width w b → in_width w (Z.lor a b).
Proof.
  intros Hw Ha Hb. apply in_width_bits; [done| |].
  - apply Z.lor_nonneg. unfold in_width in *; lia.
  - intros i Hi. rewrite Z.lor_spec, (testbit_high w a), (testbit_high w b); done.
Qed.

Lemma land_in_width w a b : 0 ≤ w → in_width w a → in_width w (Z.land a b).
Proof.
  intros Hw Ha. apply in_width_bits; [done| |].
  - apply Z.land_nonneg. unfold in_width in *; lia.
  - intros i Hi. by rewrite Z.land_spec, (testbit_high w a).
Qed.

Lemma lxor_in_width w a b : 0 ≤ w → in_width w a → in_width w b → in_width w (Z.lxor a b).
Proof.
  intros Hw Ha Hb. apply in_width_bits; [done| |].
  - apply Z.lxor_nonneg. unfold in_width in *; lia.
  - intros i Hi. rewrite Z.lxor_spec, (testbit_high w a), (testbit_high w b); done.
Qed.

Lemma shiftr_in_width w x n : 0 ≤ n → in_width w x → in_width w (Z.shiftr x n).
Proof.
  unfold in_width. intros Hn [H0 H1]. rewrite Z.shiftr_div_pow2 by done.
  split; [apply Z.div_pos; lia|].
  apply Z.le_lt_trans with x; [|done]. apply Z.div_le_upper_bound; [lia|].
  assert (0 < 2 ^ n) by lia. nia.
Qed.

Lemma shiftl_1_in_width w n : 0 ≤ n < w → in_width w (Z.shiftl 1 n).
Proof.
  intros. rewrite Z.shiftl_1_l. split; [lia|]. apply Z.pow_lt_mono_r; lia.
Qed.

Create HintDb width.
#[export] Hint Resolve wrap_range lor_in_width land_in_width lxor_in_width
  shiftr_in_width shiftl_1_in_width lnotw_range : width.
#[export] Hint Extern 1 (_ ≤ _) => lia : width.
#[export] Hint Extern 1 (_ ≤ _ < _) => lia : width.

(** ** [std::countr_zero], [std::countl_zero], [std::popcount] on unsigned words *)
Fixpoint pos_ctz (p : positive) : Z :=
  match p with
  | xO q => 1 + pos_ctz q
  | _ => 0
  end.
Definition countr_zero (w v : Z) : Z :=
  match v with Zpos p => pos_ctz p | _ => w end.
Definition countl_zero (w v : Z) : Z :=
  if v =? 0 then w else w - 1 - Z.log2 v.

Lemma pos_ctz_nonneg p : 0 ≤ pos_ctz p.
Proof. induction p; simpl; lia. Qed.

Lemma pos_ctz_spec p :
  Z.testbit (Zpos p) (pos_ctz p) = true
  ∧ ∀ i, 0 ≤ i < pos_ctz p → Z.testbit (Zpos p) i = false.
Proof.
  induction p as [p IH|p [IH1 IH2]|]; simpl pos_ctz; [split; [done|lia]| |split; [done|lia]].
  pose proof (pos_ctz_nonneg p).
  replace (Zpos (xO p)) with (2 * Zpos p) by lia. split.
  - replace (1 + pos_ctz p) with (Z.succ (pos_ctz p)) by lia.
    by rewrite Z.double_bits_succ.
  - intros i Hi. destruct (decide (i = 0)) as [->|]; [apply Z.testbit_even_0|].
    replace i with (Z.succ (i - 1)) by lia. rewrite Z.double_bits_succ. apply IH2. lia.
Qed.

Lemma countr_zero_spec w v :
  in_width w v → v ≠ 0 →
  0 ≤ countr_zero w v < w
  ∧ Z.testbit v (countr_zero w v) = true
  ∧ ∀ i, 0 ≤ i < countr_zero w v → Z.testbit v i = false.
Proof.
  intros Hv Hne. destruct v as [|p|p]; [done| |destruct Hv; lia]. simpl.
  destruct (pos_ctz_spec p) as [H1 H2]. pose proof (pos_ctz_nonneg p).
  split_and!; [done| |done|done].
  destruct (Z.lt_ge_cases (pos_ctz p) w); [done|].
  by rewrite (testbit_high w) in H1.
Qed.

Lemma countr_zero_pow2 w k : 0 ≤ k < w → countr_zero w (2 ^ k) = k.
Proof.
  intros Hk. destruct (countr_zero_spec w (2 ^ k)) as (Hr & Ht & _);
    [split; [lia|apply Z.pow_lt_mono_r; lia]|lia|].
  destruct (Z.eq_dec (countr_zero w (2 ^ k)) k) as [|Hne]; [done|].
  by rewrite Z.pow2_bits_false in Ht.
Qed.

(** ** Division *)
Lemma div_iff x m q : 0 < m → x / m = q ↔ q * m ≤ x < q * m + m.
Proof.
  intros Hm. pose proof (Z.div_mod x m ltac:(lia)). pose proof (Z.mod_pos_bound x m Hm). split.
  - intros <-. lia.
  - intros. symmetry. apply Z.div_unique with (x - m * q); lia.
Qed.

Lemma mod_0_mul x m : 0 < m → x mod m = 0 → x = x / m * m.
Proof. intros Hm H0. pose proof (Z.div_mod x m ltac:(lia)). lia. Qed.

Lemma mul_mod_0 q m : 0 < m → (q * m) mod m = 0.
Proof. intros. apply Z.mod_mul. lia. Qed.

Lemma mod_0_sub a b m : 0 < m → a mod m = 0 → b mod m = 0 → (a - b) mod m = 0.
Proof.
  intros Hm Ha Hb. rewrite (mod_0_mul a m), (mod_0_mul b m) by done.
  rewrite <-Z.mul_sub_distr_r. by apply mul_mod_0.
Qed.

Lemma mod_0_add a b m : 0 < m → a mod m = 0 → b mod m = 0 → (a + b) mod m = 0.
Proof.
  intros Hm Ha Hb. rewrite (mod_0_mul a m), (mod_0_mul b m) by done.
  rewrite <-Z.mul_add_distr_r. by apply mul_mod_0.
Qed.

Lemma pow2_pos k : 0 ≤ k → 0 < 2 ^ k.
Proof. intros. lia. Qed.

Lemma pow2_split a b : 0 ≤ a ≤ b → 2 ^ b = 2 ^ (b - a) * 2 ^ a.
Proof. intros. rewrite <-Z.pow_add_r by lia. f_equal. lia. Qed.

Lemma pow2_mod_le x a b : 0 ≤ a ≤ b → x mod 2 ^ b = 0 → x mod 2 ^ a = 0.
Proof.
  intros Hab Hx. rewrite (mod_0_mul x (2 ^ b)) by (try done; lia).
  rewrite (pow2_split a b) at 2 by lia. rewrite Z.mul_assoc. apply mul_mod_0. lia.
Qed.

(** Two multiples of [m] in strict order are [m] apart. *)
Lemma mod_0_lt a b m : 0 < m → a mod m = 0 → b mod m = 0 → a < b → a + m ≤ b.
Proof.
  intros Hm Ha Hb Hlt. pose proof (mod_0_mul a m Hm Ha). pose proof (mod_0_mul b m Hm Hb).
  assert (a / m < b / m) by nia. nia.
Qed.

#[export] Hint Resolve mod_0_sub mod_0_add mul_mod_0 pow2_pos : divide.

(** ** Sums over lists *)
Definition sumZ (l : list Z) : Z := foldr Z.add 0 l.

Lemma sumZ_app l1 l2 : sumZ (l1 ++ l2) = sumZ l1 + sumZ l2.
Proof. induction l1 as [|x l1 IH]; simpl; [done|]. unfold sumZ in *. simpl. lia. Qed.

Lemma sumZ_insert l i x y :
  l !! i = Some y → sumZ (<[i := x]> l) = sumZ l - y + x.
Proof.
  revert i. induction l as [|z l IH]; intros [|i] H; simpl in *; try done; unfold sumZ in *; simpl.
  - injection H as ->. lia.
  - rewrite (IH i) by done. lia.
Qed.

Lemma sumZ_bounds l b : Forall (λ x, 0 ≤ x ≤ b) l → 0 ≤ sumZ l ≤ b * Z.of_nat (length l).
Proof. induction 1 as [|x l Hx _ IH]; unfold sumZ in *; simpl; lia. Qed.

(** ** [map] with stdpp's lookup and insert *)
Lemma map_lookup {A C} (f : A → C) l i : map f l !! i = f <$> l !! i.
Proof. exact (list_lookup_fmap f l i). Qed.

Lemma map_insert {A C} (f : A → C) l i x : map f (<[i := x]> l) = <[i := f x]> (map f l).
Proof. exact (list_fmap_insert f l i x). Qed.

Lemma insert_same {A} (l : list A) i x : l !! i = Some x → <[i := x]> l = l.
Proof. intros. by apply list_insert_id. Qed.

(** ** The middle of a list *)
Lemma middle_insert {A} (l : list A) x y r : <[length l := y]> (l ++ x :: r) = l ++ y :: r.
Proof. rewrite insert_app_r_alt by lia. by rewrite Nat.sub_diag. Qed.

Lemma middle_lookup {A} (l : list A) x r : (l ++ x :: r) !! length l = Some x.
Proof. by apply list_lookup_middle. Qed.

Lemma middle_lookup_S {A} (l : list A) x r : (l ++ x :: r) !! S (length l) = r !! 0%nat.
Proof. rewrite lookup_app_r by lia. by replace (S (length l) - length l)%nat with 1%nat by lia. Qed.

(** ** Arrays indexed by [Z] *)

(** [array[i]] and [array[i] = x]; an index outside the array fails. *)
Definition at_ {A} (l : list A) (i : Z) : option A := check (0 <=? i);; l !! Z.to_nat i.
Definition set_at {A} (l : list A) (i : Z) (x : A) : option (list A) :=
  check ((0 <=? i) && (i <? Z.of_nat (length l)));; Some (<[Z.to_nat i := x]> l).

Lemma at_lookup {A} (l : list A) (i : nat) : at_ l (Z.of_nat i) = l !! i.
Proof.
  unfold at_. rewrite (proj2 (Z.leb_le 0 _)) by lia. cbn. by rewrite Nat2Z.id.
Qed.

Lemma set_at_insert {A} (l : list A) (i : nat) x :
  (i < length l)%nat → set_at l (Z.of_nat i) x = Some (<[i := x]> l).
Proof.
  intros Hi. unfold set_at.
  rewrite (proj2 (Z.leb_le 0 _)), (proj2 (Z.ltb_lt _ _)) by lia. cbn. by rewrite Nat2Z.id.
Qed.

Lemma at_ok {A} (l : list A) i x : 0 ≤ i → l !! Z.to_nat i = Some x → at_ l i = Some x.
Proof. intros Hi Hx. unfold at_. by rewrite (proj2 (Z.leb_le 0 i)). Qed.

Lemma at_is_Some {A} (l : list A) i : 0 ≤ i < Z.of_nat (length l) → is_Some (at_ l i).
Proof.
  intros Hi. destruct (lookup_lt_is_Some_2 l (Z.to_nat i)) as [x Hx]; [lia|].
  exists x. apply at_ok; [lia|done].
Qed.

Lemma set_at_ok {A} (l : list A) i x :
  0 ≤ i < Z.of_nat (length l) → set_at l i x = Some (<[Z.to_nat i := x]> l).
Proof. intros Hi. unfold set_at. by rewrite (proj2 (Z.leb_le 0 i)), (proj2 (Z.ltb_lt _ _)) by lia. Qed.

Lemma filter_id {A} (P : A → Prop) `{∀ x, Decision (P x)} (l : list A) :
  (∀ x, x ∈ l → P x) → filter P l = l.
Proof.
  intros Hl. induction l as [|x l IH]; [done|].
  rewrite filter_cons_True by (apply Hl; left). rewrite IH; [done|]. intros y Hy. apply Hl. by right.
Qed.
