(* ===== verification/Common.v ===== *)
(** Helpers of src/src/common: alignment.h, bit_util.h, overflow.h, div_ceil.h and the
    TinyMT generator of tiny_mt.h, with the lemmas the kernel components use. *)
From S2P Require Import Prelude.

(** * Alignment (alignment.h) at [T = size_t] *)
Definition PageBits : Z := 12.
Definition PageSize : Z := 4096.

Definition AlignUp (value_ size : Z) : Z :=
  let m := value_ mod size in
  let value := u64 (value_ - m) in
  if m =? 0 then value else u64 (value + size).

Definition AlignDown (value_ size : Z) : Z := u64 (value_ - value_ mod size).

Definition IsAligned (value alignment : Z) : bool :=
  Z.land value (u64 (alignment - 1)) =? 0.

Definition AlignUpLog2 (value align_log2 : Z) : Z :=
  u64 (Z.shiftl (Z.shiftr (u64 (value + (Z.shiftl 1 align_log2 - 1))) align_log2) align_log2).

Definition DivideUp (x y : Z) : Z := u64 (x + (y - 1)) / y.

Definition LeastSignificantOneBit (x : Z) : Z := Z.land x (lnotw 64 (u64 (x - 1))).
Definition ResetLeastSignificantOneBit (x : Z) : Z := Z.land x (u64 (x - 1)).
Definition IsPowerOfTwo (x : Z) : bool := (0 <? x) && (ResetLeastSignificantOneBit x =? 0).

(** bit_util.h *)
Definition MostSignificantBit64 (value : Z) : Z := u32 (63 - countl_zero 64 value).
Definition Log2Floor64 (value : Z) : Z := MostSignificantBit64 value.
Definition Log2Ceil64 (value : Z) : Z :=
  let log2_f := Log2Floor64 value in
  u32 (log2_f + (if Z.lxor value (Z.shiftl 1 log2_f) =? 0 then 0 else 1)).

(** overflow.h, at [s64] *)
Definition WrappingAdd (lhs rhs : Z) : Z := s64 (u64 lhs + u64 rhs).
Definition CanAddWithoutOverflow (lhs rhs : Z) : bool :=
  (- 2 ^ 63 <=? lhs + rhs) && (lhs + rhs <? 2 ^ 63).

(** div_ceil.h *)
Definition DivCeil (number divisor : Z) : Z := u64 (number + divisor - 1) / divisor.

Lemma AlignDown_eq v s : in_width 64 v → 0 < s → AlignDown v s = s * (v / s).
Proof.
  intros Hv Hs. unfold AlignDown.
  pose proof (Z.mod_pos_bound v s Hs). pose proof (Z.mod_le v s).
  rewrite wrap_small by (unfold in_width in *; lia).
  rewrite Z.mod_eq by lia. lia.
Qed.

Lemma AlignUp_eq v s :
  in_width 64 v → 0 < s → s * ((v + s - 1) / s) < 2 ^ 64 →
  AlignUp v s = s * ((v + s - 1) / s).
Proof.
  intros Hv Hs Hb. unfold AlignUp.
  pose proof (Z.mod_pos_bound v s Hs) as Hm. pose proof (Z.mod_le v s).
  pose proof (Z.div_mod v s ltac:(lia)) as Hd.
  rewrite (wrap_small 64 (v - _)) by (unfold in_width in *; lia).
  case Z.eqb_spec; intros Hz.
  - assert ((v + s - 1) / s = v / s) as ->; [|lia].
    rewrite Hz in Hd. rewrite Hd at 1.
    replace (s * (v / s) + 0 + s - 1) with ((s - 1) + (v / s) * s) by lia.
    rewrite Z.div_add by lia. rewrite Z.div_small; lia.
  - assert ((v + s - 1) / s = v / s + 1) as E.
    { rewrite Hd at 1.
      replace (s * (v / s) + v mod s + s - 1) with ((v mod s - 1) + (v / s + 1) * s) by lia.
      rewrite Z.div_add by lia. rewrite Z.div_small; lia. }
    rewrite E in *. rewrite wrap_small; [lia|]. unfold in_width in *. nia.
Qed.

Lemma AlignDown_mult v s :
  in_width 64 v → 0 < s →
  AlignDown v s mod s = 0 ∧ AlignDown v s ≤ v < AlignDown v s + s.
Proof.
  intros Hv Hs. rewrite AlignDown_eq by done.
  rewrite Z.mul_comm, Z.mod_mul by lia.
  pose proof (Z.div_mod v s ltac:(lia)). pose proof (Z.mod_pos_bound v s Hs). lia.
Qed.

Lemma AlignUp_mult v s :
  in_width 64 v → 0 < s → v + s ≤ 2 ^ 64 →
  AlignUp v s mod s = 0 ∧ v ≤ AlignUp v s < v + s.
Proof.
  intros Hv Hs Hb.
  pose proof (Z.div_mod (v + s - 1) s ltac:(lia)).
  pose proof (Z.mod_pos_bound (v + s - 1) s Hs).
  rewrite AlignUp_eq by (try done; lia).
  rewrite (Z.mul_comm s), Z.mod_mul by lia. lia.
Qed.

Lemma IsAligned_pow2 v k :
  0 ≤ k < 64 → in_width 64 v → IsAligned v (2 ^ k) = (v mod 2 ^ k =? 0).
Proof.
  intros Hk Hv. unfold IsAligned.
  assert (2 ^ k < 2 ^ 64) by (apply Z.pow_lt_mono_r; lia).
  rewrite wrap_small by (unfold in_width; lia).
  replace (2 ^ k - 1) with (Z.ones k) by (rewrite Z.ones_equiv; lia).
  by rewrite Z.land_ones by lia.
Qed.

Lemma WrappingAdd_overflow v w :
  0 ≤ v < 2 ^ 63 → 0 ≤ w < 2 ^ 63 → WrappingAdd v w ≤ v ↔ w = 0 ∨ 2 ^ 63 ≤ v + w.
Proof.
  intros Hv Hw. unfold WrappingAdd.
  rewrite !(wrap_small 64) by (unfold in_width; lia).
  destruct (Z.lt_ge_cases (v + w) (2 ^ 63)).
  - rewrite swrap_small by lia. lia.
  - unfold swrap.
    replace (v + w + 2 ^ (64 - 1)) with ((v + w - 2 ^ 63) + 1 * 2 ^ 64) by lia.
    rewrite Z.mod_add by lia. rewrite Z.mod_small by lia. lia.
Qed.

(** * TinyMT (tiny_mt.h) *)
Module TinyMT.
Definition NumStateWords : Z := 4.
Definition ParamMat1 : Z := 0x8F7011EE.
Definition ParamMat2 : Z := 0xFC78FF1F.
Definition ParamTmat : Z := 0x3793FDFF.
Definition ParamMult : Z := 0x6C078965.
Definition ParamPlus : Z := 0x0019660D.
Definition ParamXor : Z := 0x5D588B65.
Definition TopBitmask : Z := 0x7FFFFFFF.
Definition MinimumInitIterations : Z := 8.
Definition NumDiscardedInitOutputs : nat := 8.

(** [State::data], an array of four words. *)
Record State := MkState { data0 : Z; data1 : Z; data2 : Z; data3 : Z }.

Definition get (s : State) (i : Z) : Z :=
  match i with 0 => data0 s | 1 => data1 s | 2 => data2 s | _ => data3 s end.
Definition set (s : State) (i v : Z) : State :=
  match i with
  | 0 => MkState v (data1 s) (data2 s) (data3 s)
  | 1 => MkState (data0 s) v (data2 s) (data3 s)
  | 2 => MkState (data0 s) (data1 s) v (data3 s)
  | _ => MkState (data0 s) (data1 s) (data2 s) v
  end.

Definition XorByShifted27 (value : Z) : Z := Z.lxor value (Z.shiftr value 27).
Definition XorByShifted30 (value : Z) : Z := Z.lxor value (Z.shiftr value 30).

Definition GenerateRandomU32 (s : State) : Z * State :=
  let x0 := Z.lxor (Z.lxor (Z.land (data0 s) TopBitmask) (data1 s)) (data2 s) in
  let y0 := data3 s in
  let x1 := Z.lxor x0 (u32 (Z.shiftl x0 1)) in
  let y1 := Z.lxor (Z.lxor y0 (Z.shiftr y0 1)) x1 in
  let state0 := data1 s in
  let state1 := data2 s in
  let state2 := Z.lxor x1 (u32 (Z.shiftl y1 10)) in
  let state3 := y1 in
  let odd := negb (Z.land y1 1 =? 0) in
  let state1 := if odd then Z.lxor state1 ParamMat1 else state1 in
  let state2 := if odd then Z.lxor state2 ParamMat2 else state2 in
  let t1 := u32 (state0 + Z.shiftr state2 8) in
  let t0 := Z.lxor state3 t1 in
  let t0 := if negb (Z.land t1 1 =? 0) then Z.lxor t0 ParamTmat else t0 in
  (t0, MkState state0 state1 state2 state3).

Fixpoint discard (n : nat) (s : State) : State :=
  match n with O => s | S n => discard n (snd (GenerateRandomU32 s)) end.

Definition is_zero (s : State) : bool :=
  (Z.land (data0 s) TopBitmask =? 0) && (data1 s =? 0) && (data2 s =? 0) && (data3 s =? 0).

Definition FinalizeInitialization (s : State) : State :=
  let s := if is_zero s then MkState 84 73 78 89 (* 'T' 'I' 'N' 'Y' *) else s in
  discard NumDiscardedInitOutputs s.

Definition GenerateInitialValuePlus (s : State) (index value : Z) : State :=
  let i0 := index mod 4 in let i1 := (index + 1) mod 4 in
  let i2 := (index + 2) mod 4 in let i3 := (index + 3) mod 4 in
  let x := u32 (XorByShifted27 (Z.lxor (Z.lxor (get s i0) (get s i1)) (get s i3)) * ParamPlus) in
  let y := u32 (x + index + value) in
  let s := set s i0 y in
  let s := set s i1 (u32 (get s i1 + x)) in
  set s i2 (u32 (get s i2 + y)).

Definition GenerateInitialValueXor (s : State) (index : Z) : State :=
  let i0 := index mod 4 in let i1 := (index + 1) mod 4 in
  let i2 := (index + 2) mod 4 in let i3 := (index + 3) mod 4 in
  let x := u32 (XorByShifted27 (u32 (get s i0 + get s i1 + get s i3)) * ParamXor) in
  let y := u32 (x - index) in
  let s := set s i0 y in
  let s := set s i1 (Z.lxor (get s i1) x) in
  set s i2 (Z.lxor (get s i2) y).

(** The loop [for (int i = 1; i < MinimumInitIterations; i++)] of [Initialize(u32)]. *)
Fixpoint Initialize_loop (n : nat) (i : Z) (s : State) : State :=
  match n with
  | O => s
  | S n =>
      let mixed := XorByShifted30 (get s ((i - 1) mod 4)) in
      let s := set s (i mod 4) (Z.lxor (get s (i mod 4)) (u32 (mixed * ParamMult + i))) in
      Initialize_loop n (i + 1) s
  end.
Definition Initialize (seed : Z) : State :=
  FinalizeInitialization
    (Initialize_loop (Z.to_nat (MinimumInitIterations - 1)) 1
       (MkState seed ParamMat1 ParamMat2 ParamTmat)).

Fixpoint InitializeSeeds_plus (n : nat) (i : Z) (seed : list Z) (s : State) : State :=
  match n with
  | O => s
  | S n =>
      let v := default 0 (seed !! Z.to_nat i) in
      InitializeSeeds_plus n (i + 1) seed (GenerateInitialValuePlus s ((i + 1) mod 4) v)
  end.
Fixpoint InitializeSeeds_xor (n : nat) (i iters : Z) (s : State) : State :=
  match n with
  | O => s
  | S n => InitializeSeeds_xor n (i + 1) iters (GenerateInitialValueXor s ((i + 1 + iters) mod 4))
  end.
Definition InitializeSeeds (seed : list Z) : State :=
  let seed_count := Z.of_nat (length seed) in
  let iters := Z.max (seed_count + 1) MinimumInitIterations - 1 in
  let s := GenerateInitialValuePlus (MkState 0 ParamMat1 ParamMat2 ParamTmat) 0 seed_count in
  let s := InitializeSeeds_plus (Z.to_nat iters) 0 seed s in
  FinalizeInitialization (InitializeSeeds_xor 4 0 iters s).

Definition GenerateRandomU64 (s : State) : Z * State :=
  let (lo, s) := GenerateRandomU32 s in
  let (hi, s) := GenerateRandomU32 s in
  (Z.lor (Z.shiftl hi 32) lo, s).

Definition GenerateRandomU24 (s : State) : Z * State :=
  let (r, s) := GenerateRandomU32 s in (Z.shiftr r 8, s).

(** ** Well-formed states and the non-zero invariant *)
Definition wf (s : State) : Prop :=
  in_width 32 (data0 s) ∧ in_width 32 (data1 s) ∧ in_width 32 (data2 s) ∧ in_width 32 (data3 s).

Lemma GenerateRandomU32_wf s :
  wf s → in_width 32 (fst (GenerateRandomU32 s)) ∧ wf (snd (GenerateRandomU32 s)).
Proof.
  intros (H0 & H1 & H2 & H3). unfold GenerateRandomU32, wf; simpl.
  assert (in_width 32 ParamMat1) by (unfold in_width, ParamMat1; lia).
  assert (in_width 32 ParamMat2) by (unfold in_width, ParamMat2; lia).
  assert (in_width 32 ParamTmat) by (unfold in_width, ParamTmat; lia).
  split_and!; repeat case_match; eauto 15 with width.
Qed.

Lemma xor_shiftl_zero x : in_width 32 x → Z.lxor x (u32 (Z.shiftl x 1)) = 0 → x = 0.
Proof.
  intros Hx E. apply Z.lxor_eq in E. apply eq_0_bits.
  apply (natlike_ind (λ i, Z.testbit x i = false)).
  - rewrite E. unfold wrap. by rewrite Z.mod_pow2_bits_low, Z.shiftl_spec_low by lia.
  - intros i Hi IH. destruct (Z.lt_ge_cases (Z.succ i) 32).
    + rewrite E. unfold wrap. rewrite Z.mod_pow2_bits_low, Z.shiftl_spec by lia.
      by replace (Z.succ i - 1) with i by lia.
    + by apply (testbit_high 32).
Qed.

Lemma xor_shiftr_zero x : in_width 32 x → Z.lxor x (Z.shiftr x 1) = 0 → x = 0.
Proof.
  intros Hx E. apply Z.lxor_eq in E. destruct Hx. rewrite Z.shiftr_div_pow2 in E by lia.
  change (2 ^ 1) with 2 in E. destruct (decide (x = 0)); [done|].
  pose proof (Z.div_lt x 2). lia.
Qed.

(** The all-zero state is a fixed point of the linear recurrence; no other state reaches it. *)
Lemma GenerateRandomU32_nonzero s :
  wf s → is_zero (snd (GenerateRandomU32 s)) = true → is_zero s = true.
Proof.
  intros (H0 & H1 & H2 & H3). unfold is_zero. rewrite !andb_true_iff, !Z.eqb_eq.
  unfold GenerateRandomU32; simpl.
  set (x0 := Z.lxor (Z.lxor (Z.land (data0 s) TopBitmask) (data1 s)) (data2 s)).
  assert (in_width 32 x0) by (unfold x0; auto with width).
  intros (((E0 & E1) & E2) & E3). rewrite E3 in *. simpl in *.
  rewrite Z.shiftl_0_l, (wrap_small 32 0), Z.lxor_0_r in E2 by (unfold in_width; lia).
  rewrite E2, Z.lxor_0_r in E3. apply xor_shiftl_zero in E2; [|done].
  apply xor_shiftr_zero in E3; [|done].
  unfold x0 in E2. rewrite E1, Z.lxor_0_r in E2. apply Z.lxor_eq in E2.
  assert (data1 s = 0) as Z1.
  { rewrite <-E2, <-E0, <-E2, <-Z.land_assoc. done. }
  by rewrite E2, Z1.
Qed.

Lemma discard_inv n s :
  wf s → is_zero s = false → wf (discard n s) ∧ is_zero (discard n s) = false.
Proof.
  revert s. induction n as [|n IH]; intros s Hwf Hz; simpl; [done|].
  apply IH; [by apply GenerateRandomU32_wf|].
  apply not_true_is_false. intros E%GenerateRandomU32_nonzero; [congruence|done].
Qed.

Lemma FinalizeInitialization_inv s :
  wf s → wf (FinalizeInitialization s) ∧ is_zero (FinalizeInitialization s) = false.
Proof.
  intros Hwf. unfold FinalizeInitialization. destruct (is_zero s) eqn:E.
  - apply discard_inv; [|done]. unfold wf, in_width; simpl; lia.
  - by apply discard_inv.
Qed.

Lemma get_wf s i : wf s → in_width 32 (get s i).
Proof. intros (?&?&?&?). unfold get. repeat case_match; done. Qed.

Lemma set_wf s i v : wf s → in_width 32 v → wf (set s i v).
Proof. intros (?&?&?&?) ?. unfold set, wf. repeat case_match; simpl; done. Qed.

Lemma Initialize_loop_wf n i s : wf s → wf (Initialize_loop n i s).
Proof.
  revert i s. induction n as [|n IH]; intros i s Hwf; simpl; [done|].
  apply IH, set_wf; [done|]. apply lxor_in_width; [lia|by apply get_wf|].
  apply wrap_range. lia.
Qed.

Lemma Initialize_inv seed :
  in_width 32 seed → wf (Initialize seed) ∧ is_zero (Initialize seed) = false.
Proof.
  intros Hs. apply FinalizeInitialization_inv, Initialize_loop_wf.
  unfold wf, in_width in *; simpl. unfold ParamMat1, ParamMat2, ParamTmat. lia.
Qed.

(** States reachable from a seeded generator by drawing words. *)
Inductive reachable : State → Prop :=
| reach_init seed : in_width 32 seed → reachable (Initialize seed)
| reach_draw s : reachable s → reachable (snd (GenerateRandomU32 s)).

Lemma reachable_inv s : reachable s → wf s ∧ is_zero s = false.
Proof.
  induction 1 as [seed Hs|s _ [IH1 IH2]]; [by apply Initialize_inv|].
  split; [by apply GenerateRandomU32_wf|].
  apply not_true_is_false. intros E%GenerateRandomU32_nonzero; [congruence|done].
Qed.
End TinyMT.
