(* ===== verification/PageBitmap.v ===== *)
(** [KPageBitmap] (src/src/core/hle/kernel/k_page_bitmap.h): the hierarchical bitmap of free
    blocks, its random bit generator, and the proof that it implements a finite set of offsets. *)
From S2P Require Import Prelude Common.

(** * RandomBitGenerator *)
Record RandomBitGenerator := MkRng {
  m_tinymt : TinyMT.State;
  m_entropy : Z;
  m_bits_available : Z
}.

Definition RandomBitGenerator_new (seed : Z) : RandomBitGenerator :=
  MkRng (TinyMT.Initialize (u32 seed)) 0 0.

Definition RefreshEntropy (g : RandomBitGenerator) : RandomBitGenerator :=
  let (r, mt) := TinyMT.GenerateRandomU32 (m_tinymt g) in MkRng mt r 32.

Definition GenerateRandomBit (g : RandomBitGenerator) : bool * RandomBitGenerator :=
  let g := if m_bits_available g =? 0 then RefreshEntropy g else g in
  let rnd_bit := negb (Z.land (m_entropy g) 1 =? 0) in
  (rnd_bit, MkRng (m_tinymt g) (Z.shiftr (m_entropy g) 1) (u32 (m_bits_available g - 1))).

(** The loop of [SelectRandomBit]; [cur] halves from 32 down to 0, so seven units of fuel are
    enough ([SelectRandomBit_loop_fuel]). *)
Fixpoint SelectRandomBit_loop (fuel : nat) (cur bitmap selected : Z) (g : RandomBitGenerator)
    : option (Z * RandomBitGenerator) :=
  match fuel with
  | O => None
  | S fuel =>
      if cur =? 0 then Some (selected, g)
      else
        let high := Z.shiftr bitmap cur in
        let low := Z.land bitmap (lnotw 64 (u64 (Z.shiftl (2 ^ 64 - 1) cur))) in
        let (choose_high, g) :=
          if negb (high =? 0)
          then (if low =? 0 then (true, g) else GenerateRandomBit g)
          else (false, g) in
        if choose_high then SelectRandomBit_loop fuel (cur / 2) high (selected + cur) g
        else SelectRandomBit_loop fuel (cur / 2) low selected g
  end.
Definition SelectRandomBit (bitmap : Z) (g : RandomBitGenerator)
    : option (Z * RandomBitGenerator) :=
  SelectRandomBit_loop 7 32 bitmap 0 g.

(** [m_entropy >>= cur_bits] shifts a [u32]: a full-width shift is undefined. *)
Fixpoint GenerateRandomBits_loop (fuel : nat) (num_bits result : Z) (g : RandomBitGenerator)
    : option (Z * RandomBitGenerator) :=
  match fuel with
  | O => None
  | S fuel =>
      if num_bits <=? 0 then Some (result, g)
      else
        let g := if m_bits_available g =? 0 then RefreshEntropy g else g in
        let cur_bits := Z.min num_bits (m_bits_available g) in
        let mask := Z.shiftl 1 cur_bits - 1 in
        let result := Z.lor (u64 (Z.shiftl result cur_bits)) (Z.land (m_entropy g) mask) in
        entropy ← shr 32 (m_entropy g) cur_bits;
        GenerateRandomBits_loop fuel (num_bits - cur_bits) result
          (MkRng (m_tinymt g) entropy (m_bits_available g - cur_bits))
  end.
Definition GenerateRandomBits (num_bits : Z) (g : RandomBitGenerator)
    : option (Z * RandomBitGenerator) :=
  GenerateRandomBits_loop (S (Z.to_nat num_bits)) num_bits 0 g.

Definition GenerateRandom (max : Z) (g : RandomBitGenerator)
    : option (Z * RandomBitGenerator) :=
  let bits_needed := u32 (1 + (64 - countl_zero 64 max)) in
  '(rnd, g) ← GenerateRandomBits bits_needed g;
  check (negb (max =? 0));;
  Some (rnd - (rnd / max) * max, g).

(** * The bitmap

    [m_bit_storages] holds, for each used depth (0 is the root), the words between
    [m_bit_storages[depth]] and [m_end_storages[depth]]; the constructor of the segments
    ([Initialize]) hands each depth its own segment of the management array. *)
Definition MaxDepth : Z := 4.

Record KPageBitmap := MkBitmap {
  m_bit_storages : list (list Z);
  m_rng : RandomBitGenerator;
  m_num_bits : Z
}.

Definition m_used_depths (b : KPageBitmap) : nat := length (m_bit_storages b).
Definition GetNumBits (b : KPageBitmap) : Z := m_num_bits b.

(** [region_size] is a [size_t]: eleven divisions by 64 reach zero. *)
Fixpoint GetRequiredDepth_loop (fuel : nat) (depth region_size : Z) : option Z :=
  match fuel with
  | O => None
  | S fuel =>
      let region_size := region_size / 64 in
      let depth := depth + 1 in
      if region_size =? 0 then Some depth else GetRequiredDepth_loop fuel depth region_size
  end.
Definition GetRequiredDepth (region_size : Z) : option Z :=
  GetRequiredDepth_loop 11 0 region_size.

(** [Initialize] walks the depths from the deepest to the root; the segments come from the
    value-initialised management array, so every word is zero. The second component is the
    number of words handed out, that is, by how much the returned [storage] pointer moved. *)
Fixpoint Initialize_loop (depth : nat) (size : Z) (lower : list (list Z)) (words : Z)
    : list (list Z) * Z :=
  match depth with
  | O => (lower, words)
  | S depth =>
      let size := AlignUp size 64 / 64 in
      Initialize_loop depth size (replicate (Z.to_nat size) 0 :: lower) (words + size)
  end.
Definition Initialize (b : KPageBitmap) (size : Z) : option (KPageBitmap * Z) :=
  depths ← GetRequiredDepth size;
  check (depths <=? MaxDepth);;
  let (storages, words) := Initialize_loop (Z.to_nat depths) size [] 0 in
  Some (MkBitmap storages (m_rng b) 0, words).

Fixpoint CalculateManagementOverheadSize_loop (depth : nat) (region_size overhead_bits : Z) : Z :=
  match depth with
  | O => overhead_bits
  | S depth =>
      let region_size := AlignUp region_size 64 / 64 in
      CalculateManagementOverheadSize_loop depth region_size (overhead_bits + region_size)
  end.
Definition CalculateManagementOverheadSize (region_size : Z) : option Z :=
  depths ← GetRequiredDepth region_size;
  Some (CalculateManagementOverheadSize_loop (Z.to_nat depths) region_size 0 * 8).

(** The [do ... while] of [FindFreeBlock], over the storages from depth 0 on. *)
Fixpoint FindFreeBlock_loop (random : bool) (storages : list (list Z)) (depth offset : Z)
    (g : RandomBitGenerator) : option (Z * RandomBitGenerator) :=
  match storages with
  | [] => Some (offset, g)
  | storage :: deeper =>
      v ← storage !! Z.to_nat offset;
      if v =? 0 then check (depth =? 0);; Some (-1, g)
      else
        '(sel, g) ← (if random then SelectRandomBit v g else Some (countr_zero 64 v, g));
        FindFreeBlock_loop random deeper (depth + 1) (offset * 64 + sel) g
  end.
Definition FindFreeBlock (b : KPageBitmap) (random : bool) : option (Z * KPageBitmap) :=
  '(offset, g) ← FindFreeBlock_loop random (m_bit_storages b) 0 0 (m_rng b);
  Some (offset, MkBitmap (m_bit_storages b) g (m_num_bits b)).

(** The private [SetBit(depth, offset)]; the first argument is [depth + 1]. *)
Fixpoint SetBit_loop (n : nat) (storages : list (list Z)) (offset : Z)
    : option (list (list Z)) :=
  match n with
  | O => Some storages
  | S depth =>
      let ind := offset / 64 in
      let which := offset mod 64 in
      let mask := Z.shiftl 1 which in
      storage ← storages !! depth;
      v ← storage !! Z.to_nat ind;
      check (Z.land v mask =? 0);;
      let storages := <[depth := <[Z.to_nat ind := Z.lor v mask]> storage]> storages in
      if negb (v =? 0) then Some storages else SetBit_loop depth storages ind
  end.
Definition SetBit (b : KPageBitmap) (offset : Z) : option KPageBitmap :=
  storages ← SetBit_loop (m_used_depths b) (m_bit_storages b) offset;
  Some (MkBitmap storages (m_rng b) (u64 (m_num_bits b + 1))).

Fixpoint ClearBit_loop (n : nat) (storages : list (list Z)) (offset : Z)
    : option (list (list Z)) :=
  match n with
  | O => Some storages
  | S depth =>
      let ind := offset / 64 in
      let which := offset mod 64 in
      let mask := Z.shiftl 1 which in
      storage ← storages !! depth;
      v ← storage !! Z.to_nat ind;
      check (negb (Z.land v mask =? 0));;
      let v := Z.land v (lnotw 64 mask) in
      let storages := <[depth := <[Z.to_nat ind := v]> storage]> storages in
      if negb (v =? 0) then Some storages else ClearBit_loop depth storages ind
  end.
Definition ClearBit (b : KPageBitmap) (offset : Z) : option KPageBitmap :=
  storages ← ClearBit_loop (m_used_depths b) (m_bit_storages b) offset;
  Some (MkBitmap storages (m_rng b) (u64 (m_num_bits b - 1))).

(** [ClearRange], the branch for [count < 64]: [Some None] is [return false]. *)
Definition ClearRange_small (n : nat) (storages : list (list Z)) (offset count : Z)
    : option (option (list (list Z))) :=
  match n with
  | O => None
  | S depth =>
      let bit_ind := offset / 64 in
      let shift := offset mod 64 in
      check (shift + count <=? 64);;
      let mask := u64 (Z.shiftl (Z.shiftl 1 count - 1) shift) in
      bits ← storages !! depth;
      v ← bits !! Z.to_nat bit_ind;
      if negb (Z.land v mask =? mask) then Some None
      else
        let v := Z.land v (lnotw 64 mask) in
        let storages := <[depth := <[Z.to_nat bit_ind := v]> bits]> storages in
        if v =? 0 then s ← ClearBit_loop depth storages bit_ind; Some (Some s)
        else Some (Some storages)
  end.

(** The two [do ... while (remaining > 0)] loops of the other branch; [k] is the number of
    words left. *)
Fixpoint ClearRange_check (k : nat) (bits : list Z) (bit_ind : Z) : option bool :=
  match k with
  | O => Some true
  | S k =>
      v ← bits !! Z.to_nat bit_ind;
      if negb (v =? 2 ^ 64 - 1) then Some false else ClearRange_check k bits (bit_ind + 1)
  end.
Fixpoint ClearRange_clear (k depth : nat) (storages : list (list Z)) (bit_ind : Z)
    : option (list (list Z)) :=
  match k with
  | O => Some storages
  | S k =>
      bits ← storages !! depth;
      check (bit_ind <? Z.of_nat (length bits));;
      let storages := <[depth := <[Z.to_nat bit_ind := 0]> bits]> storages in
      storages ← ClearBit_loop depth storages bit_ind;
      ClearRange_clear k depth storages (bit_ind + 1)
  end.
Definition ClearRange_big (n : nat) (storages : list (list Z)) (offset count : Z)
    : option (option (list (list Z))) :=
  match n with
  | O => None
  | S depth =>
      let bit_ind := offset / 64 in
      check (offset mod 64 =? 0);; check (count mod 64 =? 0);;
      bits ← storages !! depth;
      full ← ClearRange_check (Z.to_nat (count / 64)) bits bit_ind;
      if negb full then Some None
      else s ← ClearRange_clear (Z.to_nat (count / 64)) depth storages bit_ind; Some (Some s)
  end.

Definition ClearRange (b : KPageBitmap) (offset count : Z) : option (bool * KPageBitmap) :=
  r ← (if count <? 64 then ClearRange_small else ClearRange_big)
        (m_used_depths b) (m_bit_storages b) offset count;
  match r with
  | None => Some (false, b)
  | Some storages => Some (true, MkBitmap storages (m_rng b) (u64 (m_num_bits b - count)))
  end.

(** [FindFreeRange]: the inner loop over the options of one word, then the loop over words.
    The scan state is (num_valid_options, chosen_offset, rng). *)
Fixpoint FindFreeRange_word (options : nat) (option_ count base free_mask storage : Z)
    (acc : Z * Z * RandomBitGenerator) : option (Z * Z * RandomBitGenerator) :=
  match options with
  | O => Some acc
  | S options =>
      let '(num_valid, chosen, g) := acc in
      acc ← (if Z.land storage free_mask =? free_mask then
               let num_valid := num_valid + 1 in
               if num_valid =? 1 then Some (num_valid, base + option_ * count, g)
               else
                 '(r, g) ← GenerateRandom num_valid g;
                 Some (num_valid, (if r =? 0 then base + option_ * count else chosen), g)
             else Some acc);
      storage ← shr 64 storage count;
      FindFreeRange_word options (option_ + 1) count base free_mask storage acc
  end.
Fixpoint FindFreeRange_words (words : list Z) (index options_per_storage count free_mask : Z)
    (acc : Z * Z * RandomBitGenerator) : option (Z * Z * RandomBitGenerator) :=
  match words with
  | [] => Some acc
  | storage :: words =>
      acc ← FindFreeRange_word (Z.to_nat options_per_storage) 0 count (index * 64) free_mask
              storage acc;
      FindFreeRange_words words (index + 1) options_per_storage count free_mask acc
  end.
Definition FindFreeRange (b : KPageBitmap) (count : Z) : option (Z * KPageBitmap) :=
  storage ← last (m_bit_storages b);
  if negb ((0 <? Z.of_nat (length storage)) && (count <=? 64)) then Some (-1, b)
  else
    check (negb (count =? 0));;
    let options_per_storage := Z.max (64 / count) 1 in
    one ← shl 64 1 count;
    let free_mask := one - 1 in
    '(_, chosen, g) ← FindFreeRange_words storage 0 options_per_storage count free_mask
                        (0, -1, m_rng b);
    Some (chosen, MkBitmap (m_bit_storages b) g (m_num_bits b)).

(** * Levels as bit sequences *)
Definition word_at (lv : list Z) (i : Z) : Z := default 0 (lv !! Z.to_nat i).
Definition bit_at (lv : list Z) (o : Z) : bool := Z.testbit (word_at lv (o / 64)) (o mod 64).
Definition level (st : list (list Z)) (d : nat) : list Z := default [] (st !! d).

Lemma word_at_lookup lv i :
  0 ≤ i < Z.of_nat (length lv) → lv !! Z.to_nat i = Some (word_at lv i).
Proof.
  intros Hi. unfold word_at. destruct (lookup_lt_is_Some_2 lv (Z.to_nat i)) as [w ->]; [lia|done].
Qed.

Lemma word_at_ge lv i : Z.of_nat (length lv) ≤ i → word_at lv i = 0.
Proof. intros Hi. unfold word_at. by rewrite lookup_ge_None_2 by lia. Qed.

Lemma word_at_insert lv k w i :
  0 ≤ k < Z.of_nat (length lv) → 0 ≤ i →
  word_at (<[Z.to_nat k := w]> lv) i = if decide (i = k) then w else word_at lv i.
Proof.
  intros Hk Hi. unfold word_at. case_decide; subst.
  - by rewrite list_lookup_insert_eq by lia.
  - by rewrite list_lookup_insert_ne by lia.
Qed.

Lemma word_at_width lv i : Forall (in_width 64) lv → in_width 64 (word_at lv i).
Proof.
  intros H. unfold word_at. destruct (lv !! Z.to_nat i) eqn:E; simpl.
  - by eapply Forall_lookup_1 in H.
  - by unfold in_width.
Qed.

Lemma div_mod_64_eq i o : i / 64 = o / 64 → i mod 64 = o mod 64 → i = o.
Proof. intros. rewrite (Z.div_mod i 64), (Z.div_mod o 64) by lia. congruence. Qed.

Lemma div_64_range o n : 0 ≤ o < 64 * n → 0 ≤ o / 64 < n ∧ 0 ≤ o mod 64 < 64.
Proof.
  intros. split; [split; [apply Z.div_pos; lia|apply Z.div_lt_upper_bound; lia]|].
  apply Z.mod_pos_bound. lia.
Qed.

Lemma bit_at_ge lv o : 64 * Z.of_nat (length lv) ≤ o → bit_at lv o = false.
Proof.
  intros Ho. unfold bit_at. rewrite word_at_ge; [apply Z.bits_0|].
  apply Z.div_le_lower_bound; lia.
Qed.

Lemma bit_at_insert lv k w i :
  0 ≤ k < Z.of_nat (length lv) → 0 ≤ i →
  bit_at (<[Z.to_nat k := w]> lv) i
  = if decide (i / 64 = k) then Z.testbit w (i mod 64) else bit_at lv i.
Proof.
  intros Hk Hi. unfold bit_at. rewrite word_at_insert; [by case_decide|done|].
  apply Z.div_pos; lia.
Qed.

Lemma bit_at_set lv o i :
  0 ≤ o < 64 * Z.of_nat (length lv) → 0 ≤ i →
  bit_at (<[Z.to_nat (o / 64) := Z.lor (word_at lv (o / 64)) (Z.shiftl 1 (o mod 64))]> lv) i
  = bool_decide (i = o) || bit_at lv i.
Proof.
  intros Ho Hi. destruct (div_64_range _ _ Ho).
  rewrite bit_at_insert by lia. case_decide as E.
  - rewrite lor_bit_testbit by (try lia; apply Z.mod_pos_bound; lia).
    unfold bit_at. rewrite E. f_equal. apply bool_decide_ext. split; [|by intros ->].
    intros. by apply div_mod_64_eq.
  - rewrite bool_decide_eq_false_2; [done|]. by intros ->.
Qed.

Lemma bit_at_clear lv o i :
  Forall (in_width 64) lv → 0 ≤ o < 64 * Z.of_nat (length lv) → 0 ≤ i →
  bit_at (<[Z.to_nat (o / 64) :=
             Z.land (word_at lv (o / 64)) (lnotw 64 (Z.shiftl 1 (o mod 64)))]> lv) i
  = negb (bool_decide (i = o)) && bit_at lv i.
Proof.
  intros Hlv Ho Hi. destruct (div_64_range _ _ Ho).
  rewrite bit_at_insert by lia. case_decide as E.
  - rewrite land_lnotw_testbit by (try lia; try (by apply word_at_width); apply Z.mod_pos_bound; lia).
    unfold bit_at. rewrite E. do 2 f_equal. apply bool_decide_ext. split; [|by intros ->].
    intros. by apply div_mod_64_eq.
  - rewrite bool_decide_eq_false_2; [done|]. by intros ->.
Qed.

Lemma word_at_nonzero lv i :
  Forall (in_width 64) lv → 0 ≤ i →
  word_at lv i ≠ 0 ↔ ∃ o, 0 ≤ o ∧ o / 64 = i ∧ bit_at lv o = true.
Proof.
  intros Hlv Hi. split.
  - intros Hne. destruct (ne_0_bit 64 (word_at lv i)) as (j & Hj & Hb); [by apply word_at_width|done|].
    assert ((i * 64 + j) / 64 = i) as E by (rewrite Z.add_comm, Z.div_add, Z.div_small; lia).
    exists (i * 64 + j). split_and!; [lia|done|]. unfold bit_at. rewrite E.
    rewrite Z.add_comm, Z.mod_add, Z.mod_small by lia. done.
  - intros (o & Ho & <- & Hb). by eapply bit_ne_0.
Qed.

Lemma level_insert st d lv d' :
  (d < length st)%nat → level (<[d := lv]> st) d' = if decide (d' = d) then lv else level st d'.
Proof.
  intros Hd. unfold level. case_decide; subst.
  - by rewrite list_lookup_insert_eq.
  - by rewrite list_lookup_insert_ne.
Qed.

Lemma level_lookup st d : (d < length st)%nat → st !! d = Some (level st d).
Proof.
  intros Hd. unfold level. destruct (lookup_lt_is_Some_2 st d Hd) as [w ->]. done.
Qed.

(** * The hierarchy invariant *)

(** A bit of an upper level summarises a word of the level below. *)
Definition linked (up lo : list Z) : Prop :=
  ∀ i, 0 ≤ i → bit_at up i = negb (word_at lo i =? 0).

Record shape (st : list (list Z)) : Prop := {
  shape_width d : Forall (in_width 64) (level st d);
  shape_root : length (level st 0) = 1%nat;
  shape_fits d : (S d < length st)%nat → (length (level st (S d)) ≤ 64 * length (level st d))%nat
}.

Definition links (st : list (list Z)) (n : nat) : Prop :=
  ∀ d, (S d < n)%nat → linked (level st d) (level st (S d)).

Lemma linked_update up lo up' k w :
  linked up lo → 0 ≤ k < Z.of_nat (length lo) →
  (∀ i, 0 ≤ i → bit_at up' i = if decide (i = k) then negb (w =? 0) else bit_at up i) →
  linked up' (<[Z.to_nat k := w]> lo).
Proof.
  intros Hl Hk Hup i Hi. rewrite Hup, word_at_insert by done. case_decide; [done|by apply Hl].
Qed.

Lemma shape_insert st d lv :
  shape st → (d < length st)%nat → Forall (in_width 64) lv →
  length lv = length (level st d) → shape (<[d := lv]> st).
Proof.
  intros [H1 H2 H3] Hd Hw Hlen. split.
  - intros d'. rewrite level_insert by done. by case_decide.
  - rewrite level_insert by done. case_decide; subst; congruence.
  - intros d'. rewrite length_insert, !level_insert by done. intros Hd'.
    specialize (H3 d' Hd'). repeat case_decide; subst; lia.
Qed.

(** [st'] is [st] after a walk that started at level [n - 1] and kept the sizes. *)
Definition walk_frame (n : nat) (st st' : list (list Z)) : Prop :=
  shape st' ∧ links st' n ∧ length st' = length st
  ∧ (∀ d, (n ≤ d)%nat → level st' d = level st d)
  ∧ (∀ d, length (level st' d) = length (level st d)).

Lemma walk_frame_refl n st : shape st → links st n → walk_frame n st st.
Proof. intros. by split_and!. Qed.

(** [st'] is the result of a walk after which the bits of level [n - 1] are [f]. *)
Definition walked (n : nat) (f : Z → bool) (st st' : list (list Z)) : Prop :=
  walk_frame n st st'
  ∧ ((0 < n)%nat → ∀ i, 0 ≤ i → bit_at (level st' (n - 1)) i = f i).

Section walk_level.
  Context (depth : nat) (st : list (list Z)) (k w : Z) (f : Z → bool).
  Context (Hsh : shape st) (Hd : (depth < length st)%nat) (Hli : links st (S depth)).
  Context (Hw : in_width 64 w) (Hk : 0 ≤ k < Z.of_nat (length (level st depth))).
  Context (Hf : ∀ i, 0 ≤ i → f i = if decide (i / 64 = k) then Z.testbit w (i mod 64)
                                    else bit_at (level st depth) i).

  (** The storages after word [k] of level [depth] became [w]. *)
Definition walk_store : list (list Z) :=
    <[depth := <[Z.to_nat k := w]> (level st depth)]> st.

Lemma walk_store_ne d : d ≠ depth → level walk_store d = level st d.
Proof using Hd. intros. unfold walk_store. rewrite level_insert by done. by case_decide. Qed.

Lemma walk_store_eq : level walk_store depth = <[Z.to_nat k := w]> (level st depth).
Proof using Hd. unfold walk_store. rewrite level_insert by done. by case_decide. Qed.

Lemma walk_store_ok :
  shape walk_store ∧ links walk_store depth ∧ (depth ≤ length walk_store)%nat.
Proof using Hd Hli Hsh Hw.
  split_and!.
  - apply shape_insert; [done|done| |by rewrite length_insert].
    apply Forall_insert; [apply Hsh|done].
  - intros d Hd'. rewrite !walk_store_ne by lia. apply Hli. lia.
  - unfold walk_store. rewrite length_insert. lia.
Qed.

(** The rest of the walk fixed the summary bit of [k]. *)
Lemma walk_level st' :
  walked depth (λ i, if decide (i = k) then negb (w =? 0)
                     else bit_at (level st (depth - 1)) i) walk_store st' →
  walked (S depth) f st st'.
Proof using All.
  intros [(Hsh' & Hli' & Hlen & Hge & Hsz) Hup]. split; [split_and!; [done| | | |]|].
  - intros d HSd. destruct (decide (S d = depth)) as [E|Hn]; [|apply Hli'; lia].
    rewrite (Hge (S d)), E, walk_store_eq by lia.
    apply (linked_update (level st d)); [rewrite <-E; apply Hli; lia|done|].
    replace d with (depth - 1)%nat by lia. apply Hup. lia.
  - rewrite Hlen. apply length_insert.
  - intros d HSd. by rewrite Hge, walk_store_ne by lia.
  - intros d. rewrite Hsz. destruct (decide (d = depth)) as [->|]; [|by rewrite walk_store_ne].
    by rewrite walk_store_eq, length_insert.
  - intros _ i Hi. replace (S depth - 1)%nat with depth by lia.
    rewrite Hge, walk_store_eq, Hf, bit_at_insert by (try done; lia). done.
Qed.

(** The summary bit of [k] does not change: the walk may stop. *)
Lemma walk_stop :
  (w =? 0) = (word_at (level st depth) k =? 0) → walked (S depth) f st walk_store.
Proof using All.
  intros E. apply walk_level. destruct walk_store_ok as (?&?&?).
  split; [by apply walk_frame_refl|].
  intros Hpos i Hi. rewrite walk_store_ne by lia. case_decide; [subst|done].
  rewrite (Hli (depth - 1)%nat) by lia. replace (S (depth - 1)) with depth by lia.
  by rewrite E.
Qed.
End walk_level.

(** The precondition both walks start from: an in-range offset at level [n - 1]. *)
Definition in_level (n : nat) (st : list (list Z)) (o : Z) : Prop :=
  (0 < n)%nat → 0 ≤ o < 64 * Z.of_nat (length (level st (n - 1))).

Lemma in_level_up depth st k w o :
  shape st → (depth < length st)%nat → in_level (S depth) st o →
  in_level depth (walk_store depth st k w) (o / 64).
Proof.
  intros [_ _ Hf] Hd Ho Hpos. destruct (div_64_range _ _ (Ho ltac:(lia))) as [H1 _].
  rewrite walk_store_ne by lia.
  replace (S depth - 1)%nat with depth in H1 by lia.
  specialize (Hf (depth - 1)%nat). replace (S (depth - 1)) with depth in Hf by lia.
  specialize (Hf Hd). lia.
Qed.

(** [upd_bit b o old] is the bit function [old] with bit [o] set to [b]. *)
Definition upd_bit (b : bool) (o : Z) (old : Z → bool) (i : Z) : bool :=
  if decide (i = o) then b else old i.

Lemma upd_bit_word b lv o w :
  (∀ j, 0 ≤ j < 64 → Z.testbit w j = if decide (j = o mod 64) then b
                                      else Z.testbit (word_at lv (o / 64)) j) →
  ∀ i, 0 ≤ i → upd_bit b o (bit_at lv) i
    = if decide (i / 64 = o / 64) then Z.testbit w (i mod 64) else bit_at lv i.
Proof.
  intros Hw i Hi. unfold upd_bit. pose proof (Z.mod_pos_bound i 64).
  repeat case_decide; subst; try done.
  - rewrite Hw by lia. by rewrite decide_True.
  - rewrite Hw by lia. rewrite decide_False; [unfold bit_at; congruence|].
    intros ?. by assert (i = o) by by apply div_mod_64_eq.
Qed.

(** The hypotheses of a walk's step, from those of the walk. *)
Ltac walk_start Hin :=
  let H := fresh in
  pose proof (Hin ltac:(lia)) as H; simpl in H; rewrite ?Nat.sub_0_r in *;
  destruct (div_64_range _ _ H);
  simpl; rewrite ?Nat.sub_0_r, level_lookup by lia; simpl; rewrite word_at_lookup by done; simpl;
  rewrite land_mask_0 by lia.

Lemma SetBit_loop_spec n st o :
  shape st → (n ≤ length st)%nat → links st n → in_level n st o →
  ((0 < n)%nat → bit_at (level st (n - 1)) o = false) →
  ∃ st', SetBit_loop n st o = Some st' ∧ walked n (upd_bit true o (bit_at (level st (n - 1)))) st st'.
Proof.
  revert st o. induction n as [|depth IH]; intros st o Hsh Hn Hli Hin Hb.
  { exists st. split; [done|]. split; [by apply walk_frame_refl|lia]. }
  simpl in Hb. rewrite Nat.sub_0_r in Hb. specialize (Hb ltac:(lia)). walk_start Hin.
  unfold bit_at in Hb. rewrite Hb. simpl.
  set (v := word_at _ _) in *. set (w := Z.lor v _).
  assert (in_width 64 w) as Hw.
  { apply lor_in_width; [lia|by apply word_at_width, Hsh|apply shiftl_1_in_width; lia]. }
  assert (∀ j, 0 ≤ j → Z.testbit w j = bool_decide (j = o mod 64) || Z.testbit v j) as Hwb.
  { intros j Hj. apply lor_bit_testbit; lia. }
  assert ((w =? 0) = false) as Hw0.
  { apply Z.eqb_neq, (bit_ne_0 _ (o mod 64)). rewrite Hwb by lia. by rewrite bool_decide_eq_true_2. }
  assert (∀ i, 0 ≤ i → upd_bit true o (bit_at (level st depth)) i = if decide (i / 64 = o / 64)
            then Z.testbit w (i mod 64) else bit_at (level st depth) i) as Hf.
  { apply upd_bit_word. intros j Hj. rewrite Hwb by lia. by repeat case_decide; case_bool_decide. }
  fold (walk_store depth st (o / 64) w).
  destruct (v =? 0) eqn:Hv; simpl.
  - destruct (walk_store_ok depth st (o / 64) w) as (?&?&?); [done..|].
    destruct (IH (walk_store depth st (o / 64) w) (o / 64)) as (st' & -> & Hst'); [done..| | |].
    + by apply in_level_up.
    + intros Hpos. rewrite walk_store_ne by lia. rewrite (Hli (depth - 1)%nat) by lia.
      replace (S (depth - 1)) with depth by lia. fold v. by rewrite Hv.
    + exists st'. split; [done|]. apply (walk_level depth st (o / 64) w); [done..|].
      split; [apply Hst'|]. intros Hpos i Hi. rewrite (proj2 Hst') by done.
      unfold upd_bit. rewrite walk_store_ne by lia. by rewrite Hw0.
  - exists (walk_store depth st (o / 64) w). split; [done|].
    apply walk_stop; [done..|]. fold v. by rewrite Hv.
Qed.

Lemma ClearBit_loop_spec n st o :
  shape st → (n ≤ length st)%nat → links st n → in_level n st o →
  ((0 < n)%nat → bit_at (level st (n - 1)) o = true) →
  ∃ st', ClearBit_loop n st o = Some st' ∧ walked n (upd_bit false o (bit_at (level st (n - 1)))) st st'.
Proof.
  revert st o. induction n as [|depth IH]; intros st o Hsh Hn Hli Hin Hb.
  { exists st. split; [done|]. split; [by apply walk_frame_refl|lia]. }
  simpl in Hb. rewrite Nat.sub_0_r in Hb. specialize (Hb ltac:(lia)). walk_start Hin.
  unfold bit_at in Hb. rewrite Hb. simpl.
  set (v := word_at _ _) in *. set (w := Z.land v _).
  assert (in_width 64 w) as Hw by (apply land_in_width; [lia|by apply word_at_width, Hsh]).
  assert (∀ j, 0 ≤ j → Z.testbit w j = negb (bool_decide (j = o mod 64)) && Z.testbit v j) as Hwb.
  { intros j Hj. apply land_lnotw_testbit; [lia|by apply word_at_width, Hsh|done]. }
  assert ((v =? 0) = false) as Hv by by apply Z.eqb_neq, (bit_ne_0 _ (o mod 64)).
  assert (∀ i, 0 ≤ i → upd_bit false o (bit_at (level st depth)) i = if decide (i / 64 = o / 64)
            then Z.testbit w (i mod 64) else bit_at (level st depth) i) as Hf.
  { apply upd_bit_word. intros j Hj. rewrite Hwb by lia. by repeat case_decide; case_bool_decide. }
  fold (walk_store depth st (o / 64) w).
  destruct (w =? 0) eqn:Hw0; simpl.
  - destruct (walk_store_ok depth st (o / 64) w) as (?&?&?); [done..|].
    destruct (IH (walk_store depth st (o / 64) w) (o / 64)) as (st' & -> & Hst'); [done..| | |].
    + by apply in_level_up.
    + intros Hpos. rewrite walk_store_ne by lia. rewrite (Hli (depth - 1)%nat) by lia.
      replace (S (depth - 1)) with depth by lia. fold v. by rewrite Hv.
    + exists st'. split; [done|]. apply (walk_level depth st (o / 64) w); [done..|].
      split; [apply Hst'|]. intros Hpos i Hi. rewrite (proj2 Hst') by done.
      unfold upd_bit. rewrite walk_store_ne by lia. by rewrite Hw0.
  - exists (walk_store depth st (o / 64) w). split; [done|].
    apply walk_stop; [done..|]. fold v. by rewrite Hv.
Qed.

(** * Random selection of a set bit *)
Lemma low_half_bits bitmap cur i :
  0 ≤ cur < 64 → 0 ≤ i →
  Z.testbit (Z.land bitmap (lnotw 64 (u64 (Z.shiftl (2 ^ 64 - 1) cur)))) i
  = bool_decide (i < cur) && Z.testbit bitmap i.
Proof.
  intros Hc Hi. rewrite Z.land_spec, andb_comm. f_equal.
  destruct (Z.lt_ge_cases i 64).
  - rewrite lnotw_testbit by (try lia; apply wrap_range; lia).
    unfold wrap. rewrite Z.mod_pow2_bits_low by lia. rewrite Z.shiftl_spec by lia.
    case_bool_decide.
    + by rewrite Z.testbit_neg_r by lia.
    + change (2 ^ 64 - 1) with (Z.ones 64). by rewrite Z.ones_spec_low by lia.
  - rewrite bool_decide_eq_false_2 by lia.
    apply (testbit_high 64); [|done]. apply lnotw_range, wrap_range. lia.
Qed.

Lemma halves_spec bitmap cur :
  1 ≤ cur ≤ 32 → in_width (2 * cur) bitmap → bitmap ≠ 0 →
  let high := Z.shiftr bitmap cur in
  let low := Z.land bitmap (lnotw 64 (u64 (Z.shiftl (2 ^ 64 - 1) cur))) in
  in_width cur high ∧ in_width cur low ∧ (high = 0 → low ≠ 0).
Proof.
  intros Hc Hw Hne high low. split_and!.
  - unfold high. apply in_width_bits; [lia|apply Z.shiftr_nonneg, Hw|].
    intros i Hi. rewrite Z.shiftr_spec by lia. apply (testbit_high _ _ _ Hw). lia.
  - unfold low. apply in_width_bits; [lia|apply Z.land_nonneg; left; apply Hw|].
    intros i Hi. rewrite low_half_bits by lia. by rewrite bool_decide_eq_false_2 by lia.
  - intros Hz Hz'. apply Hne, eq_0_bits. intros i Hi.
    destruct (Z.lt_ge_cases i cur) as [Hlt|Hge].
    + pose proof (low_half_bits bitmap cur i ltac:(lia) Hi) as E. fold low in E.
      rewrite Hz', Z.bits_0, bool_decide_eq_true_2 in E by lia. done.
    + replace i with ((i - cur) + cur) by lia. rewrite <-Z.shiftr_spec by lia.
      fold high. by rewrite Hz, Z.bits_0.
Qed.

Lemma SelectRandomBit_loop_spec k bitmap selected g :
  (k ≤ 6)%nat → in_width (2 ^ Z.of_nat k) bitmap → bitmap ≠ 0 →
  ∃ r g', SelectRandomBit_loop (S k) (2 ^ Z.of_nat k / 2) bitmap selected g = Some (selected + r, g')
    ∧ 0 ≤ r < 2 ^ Z.of_nat k ∧ Z.testbit bitmap r = true.
Proof.
  revert bitmap selected g. induction k as [|k IH]; intros bitmap selected g Hk Hw Hne.
  { exists 0, g. simpl. rewrite Z.add_0_r. split_and!; [done|done|done|].
    change (2 ^ Z.of_nat 0) with 1 in Hw. destruct Hw. assert (bitmap = 1) as -> by lia. done. }
  rewrite Nat2Z.inj_succ, Z.pow_succ_r in Hw |- * by lia.
  assert (1 ≤ 2 ^ Z.of_nat k ≤ 2 ^ 5) as Hc.
  { split; [|apply Z.pow_le_mono_r; lia]. change 1 with (2 ^ 0). apply Z.pow_le_mono_r; lia. }
  rewrite (Z.mul_comm 2), Z.div_mul by lia.
  destruct (halves_spec bitmap (2 ^ Z.of_nat k)) as (Hhigh & Hlow & Hor); [lia|done..|].
  remember (S k) as fuel eqn:Hfuel. simpl. set (cur := 2 ^ Z.of_nat k) in *.
  rewrite (proj2 (Z.eqb_neq cur 0)) by lia.
  set (high := Z.shiftr bitmap cur) in *. set (low := Z.land bitmap _) in *.
  assert (∀ choose g1, (if (choose : bool) then high else low) ≠ 0 →
    ∃ r g', (if choose then SelectRandomBit_loop fuel (cur / 2) high (selected + cur) g1
             else SelectRandomBit_loop fuel (cur / 2) low selected g1) = Some (selected + r, g')
      ∧ 0 ≤ r < cur * 2 ∧ Z.testbit bitmap r = true) as Hrec.
  { intros [] g1 Hz.
    - destruct (IH high (selected + cur) g1) as (r & g' & -> & Hr & Hb); [lia|done..|].
      exists (r + cur), g'. split_and!; [do 2 f_equal; lia|lia|lia|].
      unfold high in Hb. by rewrite Z.shiftr_spec in Hb by lia.
    - destruct (IH low selected g1) as (r & g' & -> & Hr & Hb); [lia|done..|].
      exists r, g'. split_and!; [done|lia|lia|].
      unfold low in Hb. rewrite low_half_bits in Hb by lia. by apply andb_true_iff in Hb as [_ ?]. }
  case Z.eqb_spec; intros Hz; simpl; [by apply (Hrec false), Hor|].
  case Z.eqb_spec; intros Hz'; [by apply (Hrec true)|].
  destruct (GenerateRandomBit g) as [[] g1]; [by apply (Hrec true)|by apply (Hrec false)].
Qed.

Lemma SelectRandomBit_spec v g :
  in_width 64 v → v ≠ 0 →
  ∃ r g', SelectRandomBit v g = Some (r, g') ∧ 0 ≤ r < 64 ∧ Z.testbit v r = true.
Proof.
  intros. destruct (SelectRandomBit_loop_spec 6 v 0 g) as (r & g' & E & Hr & Hb); [lia|done..|].
  change (2 ^ Z.of_nat 6) with 64 in *. exists r, g'. split_and!; [exact E|lia|lia|done].
Qed.

(** * The set a bitmap stands for *)
Definition bits_set (lv : list Z) : gset Z :=
  list_to_set (filter (λ o, bit_at lv o = true) (seqZ 0 (64 * Z.of_nat (length lv)))).

Lemma elem_of_bits_set lv o : o ∈ bits_set lv ↔ 0 ≤ o ∧ bit_at lv o = true.
Proof.
  unfold bits_set. rewrite elem_of_list_to_set, list_elem_of_filter, elem_of_seqZ.
  split; [naive_solver lia|]. intros [? Hb]. split; [done|]. split; [done|].
  destruct (Z.lt_ge_cases o (64 * Z.of_nat (length lv))); [lia|]. by rewrite bit_at_ge in Hb.
Qed.

Lemma bits_set_ext lv f (X : gset Z) :
  (∀ i, 0 ≤ i → bit_at lv i = f i) → (∀ o, o ∈ X ↔ 0 ≤ o ∧ f o = true) → bits_set lv = X.
Proof.
  intros Hb HX. apply set_eq. intros o. rewrite elem_of_bits_set, HX.
  split; intros [Ho Hbit]; (split; [done|]); [by rewrite <-Hb|by rewrite Hb].
Qed.

Lemma size_bits_set lv : Z.of_nat (size (bits_set lv)) ≤ 64 * Z.of_nat (length lv).
Proof.
  unfold bits_set. rewrite size_list_to_set.
  - pose proof (length_filter (λ o, bit_at lv o = true) (seqZ 0 (64 * Z.of_nat (length lv)))) as H.
    rewrite length_seqZ in H. lia.
  - apply NoDup_filter, NoDup_seqZ.
Qed.

Definition deepest (b : KPageBitmap) : list Z := level (m_bit_storages b) (m_used_depths b - 1).
Definition capacity (b : KPageBitmap) : Z := 64 * Z.of_nat (length (deepest b)).
Definition free_set (b : KPageBitmap) : gset Z := bits_set (deepest b).

Record wf (b : KPageBitmap) : Prop := {
  wf_nonempty : (0 < m_used_depths b)%nat;
  wf_shape : shape (m_bit_storages b);
  wf_links : links (m_bit_storages b) (m_used_depths b);
  wf_capacity : capacity b < 2 ^ 64;
  wf_count : m_num_bits b = Z.of_nat (size (free_set b))
}.

Lemma free_set_range b o : o ∈ free_set b → 0 ≤ o < capacity b.
Proof.
  unfold free_set. rewrite elem_of_bits_set. intros [? Hb]. split; [done|].
  destruct (Z.lt_ge_cases o (capacity b)) as [|Hge]; [done|].
  by rewrite bit_at_ge in Hb by (unfold capacity in Hge; lia).
Qed.

(** The public operations from a walk over all depths. *)
Lemma walked_wf b st' f (X : gset Z) :
  wf b → walked (m_used_depths b) f (m_bit_storages b) st' →
  (∀ o, o ∈ X ↔ 0 ≤ o ∧ f o = true) →
  let b' := MkBitmap st' (m_rng b) (u64 (Z.of_nat (size X))) in
  wf b' ∧ free_set b' = X ∧ capacity b' = capacity b.
Proof.
  intros [Hne Hsh Hli Hcap _] [(Hsh' & Hli' & Hlen & Hge & Hsz) Hbits] HX b'.
  assert (m_used_depths b' = m_used_depths b) as Hd by (unfold m_used_depths; simpl; done).
  assert (capacity b' = capacity b) as Hc.
  { unfold capacity, deepest. rewrite Hd. simpl. by rewrite Hsz. }
  assert (free_set b' = X) as HX'.
  { unfold free_set, deepest. rewrite Hd. simpl. by apply (bits_set_ext _ f); [intros; apply Hbits|]. }
  split_and!; [|done|done]. split; simpl; [by rewrite Hd|done|by rewrite Hd|by rewrite Hc|].
  rewrite HX'. apply wrap_small. split; [lia|].
  apply Z.le_lt_trans with (capacity b'); [|by rewrite Hc]. rewrite <-HX'. apply size_bits_set.
Qed.

(** * Ranges of offsets *)
Definition range_set (o n : Z) : gset Z := list_to_set (seqZ o n).

Lemma elem_of_range_set o n x : x ∈ range_set o n ↔ o ≤ x < o + n.
Proof. unfold range_set. by rewrite elem_of_list_to_set, elem_of_seqZ. Qed.

Lemma size_range_set o n : 0 ≤ n → Z.of_nat (size (range_set o n)) = n.
Proof.
  intros. unfold range_set. rewrite size_list_to_set by apply NoDup_seqZ.
  rewrite length_seqZ. lia.
Qed.

Lemma range_mask_bits count shift j :
  0 ≤ count < 64 → 0 ≤ shift → shift + count ≤ 64 → 0 ≤ j →
  Z.testbit (u64 (Z.shiftl (Z.shiftl 1 count - 1) shift)) j
  = bool_decide (shift ≤ j < shift + count).
Proof.
  intros Hc Hs Hsc Hj.
  replace (Z.shiftl 1 count - 1) with (Z.ones count)
    by (rewrite Z.shiftl_1_l, Z.ones_equiv; lia).
  unfold wrap. destruct (Z.lt_ge_cases j 64).
  - rewrite Z.mod_pow2_bits_low, Z.shiftl_spec by lia.
    destruct (Z.lt_ge_cases j shift).
    + rewrite Z.testbit_neg_r by lia. by rewrite bool_decide_eq_false_2 by lia.
    + destruct (Z.lt_ge_cases (j - shift) count).
      * rewrite Z.ones_spec_low by lia. by rewrite bool_decide_eq_true_2 by lia.
      * rewrite Z.ones_spec_high by lia. by rewrite bool_decide_eq_false_2 by lia.
  - rewrite Z.mod_pow2_bits_high by lia. by rewrite bool_decide_eq_false_2 by lia.
Qed.

Lemma land_mask_full v mask :
  Z.land v mask =? mask = true
  ↔ ∀ j, 0 ≤ j → Z.testbit mask j = true → Z.testbit v j = true.
Proof.
  rewrite Z.eqb_eq. split.
  - intros E j Hj Hm. rewrite <-E, Z.land_spec in Hm. by apply andb_true_iff in Hm as [? _].
  - intros Hall. apply testbit_ext. intros j Hj. rewrite Z.land_spec.
    destruct (Z.testbit mask j) eqn:Hm; [by rewrite Hall|by rewrite andb_false_r].
Qed.

(** Offsets of one word: [o], of which the range starts, and its neighbours. *)
Lemma same_word o count j :
  0 ≤ o → o mod 64 + count ≤ 64 → o mod 64 ≤ j < o mod 64 + count →
  (o + (j - o mod 64)) / 64 = o / 64 ∧ (o + (j - o mod 64)) mod 64 = j.
Proof.
  intros Ho Hc Hj. pose proof (Z.mod_pos_bound o 64 ltac:(lia)).
  assert (o + (j - o mod 64) = j + (o / 64) * 64) as ->
    by (pose proof (Z.div_mod o 64 ltac:(lia)); lia).
  rewrite Z.div_add, Z.mod_add, Z.div_small, Z.mod_small by lia. done.
Qed.

Lemma in_same_word o count i :
  0 ≤ o → o mod 64 + count ≤ 64 → o ≤ i < o + count →
  i / 64 = o / 64 ∧ i mod 64 = o mod 64 + (i - o).
Proof.
  intros Ho Hc Hi. pose proof (Z.mod_pos_bound o 64 ltac:(lia)).
  destruct (same_word o count (o mod 64 + (i - o))) as [H1 H2]; [done|done|lia|].
  replace (o + (o mod 64 + (i - o) - o mod 64)) with i in * by lia. done.
Qed.

Section clear_range_small.
  Context (st : list (list Z)) (depth : nat) (o count : Z).
  Context (Hsh : shape st) (Hd : (depth < length st)%nat) (Hli : links st (S depth)).
  Context (Ho : 0 ≤ o) (Hcount : 0 < count < 64) (Hfit : o mod 64 + count ≤ 64).
  Context (Hcap : o + count ≤ 64 * Z.of_nat (length (level st depth))).

Local Notation lv := (level st depth).
Let v := word_at lv (o / 64).
Let mask := u64 (Z.shiftl (Z.shiftl 1 count - 1) (o mod 64)).
Let w := Z.land v (lnotw 64 mask).

Lemma small_full :
  Z.land v mask =? mask = true ↔ ∀ x, o ≤ x < o + count → bit_at lv x = true.
Proof using All.
  unfold mask. rewrite land_mask_full.
  pose proof (Z.mod_pos_bound o 64 ltac:(lia)). split.
  - intros Hall x Hx. destruct (in_same_word o count x) as [E1 E2]; [done..|].
    unfold bit_at. rewrite E1. apply Hall; [lia|].
    rewrite range_mask_bits by lia. apply bool_decide_eq_true. lia.
  - intros Hall j Hj. rewrite range_mask_bits by lia. rewrite bool_decide_eq_true. intros Hjr.
    destruct (same_word o count j) as [E1 E2]; [done..|].
    specialize (Hall (o + (j - o mod 64)) ltac:(lia)). unfold bit_at in Hall.
    by rewrite E1, E2 in Hall.
Qed.

(** The bits left after the range is cleared. *)
Definition clear_bits (old : Z → bool) (o count i : Z) : bool :=
    if decide (o ≤ i < o + count) then false else old i.

Lemma small_bits i :
  0 ≤ i → clear_bits (bit_at lv) o count i
  = if decide (i / 64 = o / 64) then Z.testbit w (i mod 64) else bit_at lv i.
Proof using All.
  intros Hi. unfold clear_bits. pose proof (Z.mod_pos_bound i 64 ltac:(lia)).
  pose proof (Z.mod_pos_bound o 64 ltac:(lia)).
  assert (Z.testbit w (i mod 64)
    = negb (bool_decide (o mod 64 ≤ i mod 64 < o mod 64 + count)) && Z.testbit v (i mod 64)) as Hwb.
  { unfold w. rewrite Z.land_spec, lnotw_testbit, andb_comm by (try lia; apply wrap_range; lia).
    unfold mask. by rewrite range_mask_bits by lia. }
  destruct (decide (o ≤ i < o + count)) as [Hr|Hr].
  - destruct (in_same_word o count i) as [E1 E2]; [done..|].
    rewrite decide_True by done. rewrite Hwb, bool_decide_eq_true_2 by lia. done.
  - destruct (decide (i / 64 = o / 64)) as [E|E]; [|done]. rewrite Hwb, bool_decide_eq_false_2.
    + simpl. unfold bit_at, v. by rewrite E.
    + intros ?. apply Hr. pose proof (Z.div_mod i 64 ltac:(lia)).
      pose proof (Z.div_mod o 64 ltac:(lia)). lia.
Qed.

Lemma ClearRange_small_spec :
  ∃ r, ClearRange_small (S depth) st o count = Some r ∧
    ((∀ x, o ≤ x < o + count → bit_at lv x = true) →
      ∃ st', r = Some st' ∧ walked (S depth) (clear_bits (bit_at lv) o count) st st')
    ∧ (¬ (∀ x, o ≤ x < o + count → bit_at lv x = true) → r = None).
Proof using All.
  pose proof (Z.mod_pos_bound o 64 ltac:(lia)).
  destruct (div_64_range o (Z.of_nat (length lv))) as [Hk _]; [lia|].
  unfold ClearRange_small. rewrite (check_bind_Some (_ <=? _)) by (apply Z.leb_le; lia).
  rewrite level_lookup by done. simpl. rewrite word_at_lookup by done. simpl.
  fold v mask. destruct (Z.land v mask =? mask) eqn:E; simpl; last first.
  { exists None. split; [done|]. split; [|done]. intros Hall. apply (proj2 small_full) in Hall. congruence. }
  fold w. fold (walk_store depth st (o / 64) w). pose proof (proj1 small_full E) as Hall.
  assert (in_width 64 w) as Hw by (apply land_in_width; [lia|by apply word_at_width, Hsh]).
  assert ((v =? 0) = false) as Hv.
  { apply Z.eqb_neq, (bit_ne_0 _ (o mod 64)). apply (Hall o). lia. }
  destruct (w =? 0) eqn:Hw0.
  - destruct (walk_store_ok depth st (o / 64) w) as (?&?&?); [done..|].
    destruct (ClearBit_loop_spec depth (walk_store depth st (o / 64) w) (o / 64))
      as (st' & -> & Hst'); [done..| | |].
    + apply in_level_up; [done|done|]. intros _. replace (S depth - 1)%nat with depth by lia. lia.
    + intros Hpos. rewrite walk_store_ne by lia. rewrite (Hli (depth - 1)%nat) by lia.
      replace (S (depth - 1)) with depth by lia. fold v. by rewrite Hv.
    + exists (Some st'). split; [done|]. split; [intros _|done]. exists st'. split; [done|].
      apply (walk_level depth st (o / 64) w); [done..|apply small_bits|].
      split; [apply Hst'|]. intros Hpos i Hi. rewrite (proj2 Hst') by done.
      unfold upd_bit. rewrite walk_store_ne by lia. by rewrite Hw0.
  - exists (Some (walk_store depth st (o / 64) w)). split; [done|].
    split; [intros _|done]. eexists. split; [done|].
    apply walk_stop; [done..|apply small_bits|]. fold v. by rewrite Hv.
Qed.
End clear_range_small.

Lemma walked_trans n f g st st1 st2 :
  walked n f st st1 → walked n g st1 st2 → walked n g st st2.
Proof.
  intros [(?&?&Hl&Hg&Hs) _] [(?&?&Hl'&Hg'&Hs') ?]. split; [|done].
  split_and!; [done|done|congruence| |].
  - intros d Hd. by rewrite Hg', Hg.
  - intros d. by rewrite Hs', Hs.
Qed.

Lemma walked_ext n f g st st' :
  (∀ i, 0 ≤ i → f i = g i) → walked n f st st' → walked n g st st'.
Proof. intros E [? Hb]. split; [done|]. intros ? i Hi. rewrite Hb by done. by apply E. Qed.

(** ** Whole words *)
Lemma ClearRange_check_spec k lv i :
  0 ≤ i → i + Z.of_nat k ≤ Z.of_nat (length lv) →
  ∃ r, ClearRange_check k lv i = Some r
    ∧ (r = true ↔ ∀ j, i ≤ j < i + Z.of_nat k → word_at lv j = 2 ^ 64 - 1).
Proof.
  revert i. induction k as [|k IH]; intros i Hi Hk.
  { exists true. split; [done|]. split; [lia|done]. }
  cbn [ClearRange_check]. rewrite word_at_lookup by lia. cbn [mbind option_bind].
  case Z.eqb_spec; intros E; cbn [negb].
  - destruct (IH (i + 1)) as (r & -> & Hr); [lia|lia|]. exists r. split; [done|].
    rewrite Hr. split; intros Hall j Hj; [|apply Hall; lia].
    destruct (decide (j = i)) as [->|]; [done|]. apply Hall. lia.
  - exists false. split; [done|]. split; [done|]. intros Hall. destruct E. apply Hall. lia.
Qed.

Lemma full_word lv i :
  Forall (in_width 64) lv → 0 ≤ i →
  word_at lv i = 2 ^ 64 - 1 ↔ ∀ x, 64 * i ≤ x < 64 * i + 64 → bit_at lv x = true.
Proof.
  intros Hw Hi. change (2 ^ 64 - 1) with (Z.ones 64). split.
  - intros E x Hx. unfold bit_at.
    assert (x / 64 = i) as -> by (symmetry; apply Z.div_unique with (x - 64 * i); lia).
    rewrite E. apply Z.ones_spec_low. apply Z.mod_pos_bound. lia.
  - intros Hall. apply testbit_ext. intros j Hj. destruct (Z.lt_ge_cases j 64).
    + rewrite Z.ones_spec_low by lia. specialize (Hall (64 * i + j) ltac:(lia)).
      unfold bit_at in Hall. rewrite (Z.add_comm (64 * i)), (Z.mul_comm 64) in Hall.
      by rewrite Z.div_add, Z.mod_add, Z.div_small, Z.mod_small in Hall by lia.
    + rewrite Z.ones_spec_high by lia. by apply (testbit_high 64); [apply word_at_width|].
Qed.

Lemma clear_word_bits lv k i :
  0 ≤ i → clear_bits (bit_at lv) (64 * k) 64 i
  = if decide (i / 64 = k) then Z.testbit 0 (i mod 64) else bit_at lv i.
Proof.
  intros Hi. unfold clear_bits. pose proof (Z.div_mod i 64 ltac:(lia)).
  pose proof (Z.mod_pos_bound i 64 ltac:(lia)). rewrite Z.bits_0.
  destruct (decide (i / 64 = k)), (decide (64 * k ≤ i < 64 * k + 64)); try done; lia.
Qed.

(** One iteration of the clearing loop. *)
Lemma ClearRange_clear_word depth st i :
  shape st → (depth < length st)%nat → links st (S depth) →
  0 ≤ i < Z.of_nat (length (level st depth)) → word_at (level st depth) i ≠ 0 →
  ∃ st', ClearBit_loop depth (walk_store depth st i 0) i = Some st'
    ∧ walked (S depth) (clear_bits (bit_at (level st depth)) (64 * i) 64) st st'.
Proof.
  intros Hsh Hd Hli Hi Hne. assert (in_width 64 0) by by unfold in_width.
  destruct (walk_store_ok depth st i 0) as (?&?&?); [done..|].
  destruct (ClearBit_loop_spec depth (walk_store depth st i 0) i) as (st' & -> & Hst'); [done..| | |].
  - intros Hpos. rewrite walk_store_ne by lia. destruct Hsh as [_ _ Hf].
    specialize (Hf (depth - 1)%nat). replace (S (depth - 1)) with depth in Hf by lia.
    specialize (Hf Hd). lia.
  - intros Hpos. rewrite walk_store_ne by lia. rewrite (Hli (depth - 1)%nat) by lia.
    replace (S (depth - 1)) with depth by lia. by rewrite (proj2 (Z.eqb_neq _ 0)).
  - exists st'. split; [done|]. apply (walk_level depth st i 0); [done..|apply clear_word_bits|].
    split; [apply Hst'|]. intros Hpos j Hj. rewrite (proj2 Hst') by done.
    unfold upd_bit. by rewrite walk_store_ne by lia.
Qed.

Lemma ClearRange_clear_spec k depth st i :
  shape st → (depth < length st)%nat → links st (S depth) → 0 ≤ i →
  i + Z.of_nat k ≤ Z.of_nat (length (level st depth)) →
  (∀ j, i ≤ j < i + Z.of_nat k → word_at (level st depth) j ≠ 0) →
  ∃ st', ClearRange_clear k depth st i = Some st'
    ∧ walked (S depth) (clear_bits (bit_at (level st depth)) (64 * i) (64 * Z.of_nat k)) st st'.
Proof.
  revert st i. induction k as [|k IH]; intros st i Hsh Hd Hli Hi Hk Hne.
  { exists st. split; [done|]. split; [by apply walk_frame_refl|].
    intros _ j Hj. unfold clear_bits. rewrite decide_False by lia.
    by replace (S depth - 1)%nat with depth by lia. }
  cbn [ClearRange_clear]. rewrite level_lookup by done. cbn [mbind option_bind].
  rewrite check_bind_Some by (apply Z.ltb_lt; lia).
  fold (walk_store depth st i 0).
  destruct (ClearRange_clear_word depth st i) as (st1 & -> & Hst1); [done..|lia|apply Hne; lia|].
  cbn [mbind option_bind]. pose proof Hst1 as [(Hsh1 & Hli1 & Hlen1 & _ & Hsz1) Hb1].
  replace (S depth - 1)%nat with depth in Hb1 by lia. specialize (Hb1 ltac:(lia)).
  destruct (IH st1 (i + 1)) as (st2 & -> & Hst2); [done|lia|done|lia|rewrite Hsz1; lia| |].
  - intros j Hj. apply word_at_nonzero; [apply Hsh1|lia|].
    destruct (proj1 (word_at_nonzero (level st depth) j (shape_width _ Hsh _) ltac:(lia)))
      as (x & Hx & Hxj & Hbx); [apply Hne; lia|].
    exists x. split_and!; [done|done|]. rewrite Hb1, clear_word_bits by done.
    by rewrite decide_False by lia.
  - exists st2. split; [done|]. eapply walked_ext; [|by eapply walked_trans].
    intros x Hx. unfold clear_bits at 1 2. destruct (decide (64 * (i + 1) ≤ x < _)).
    + by rewrite decide_True by lia.
    + rewrite Hb1 by done. unfold clear_bits.
      destruct (decide (64 * i ≤ x < 64 * i + 64)), (decide (64 * i ≤ x < _)); try done; lia.
Qed.

Lemma ClearRange_big_spec depth st o count :
  shape st → (depth < length st)%nat → links st (S depth) →
  0 ≤ o → 0 < count → o mod 64 = 0 → count mod 64 = 0 →
  o + count ≤ 64 * Z.of_nat (length (level st depth)) →
  ∃ r, ClearRange_big (S depth) st o count = Some r ∧
    ((∀ x, o ≤ x < o + count → bit_at (level st depth) x = true) →
      ∃ st', r = Some st' ∧ walked (S depth) (clear_bits (bit_at (level st depth)) o count) st st')
    ∧ (¬ (∀ x, o ≤ x < o + count → bit_at (level st depth) x = true) → r = None).
Proof.
  intros Hsh Hd Hli Ho Hc Hom Hcm Hcap.
  assert (o = 64 * (o / 64)) as Eo by (pose proof (Z.div_mod o 64 ltac:(lia)); lia).
  assert (count = 64 * (count / 64)) as Ec by (pose proof (Z.div_mod count 64 ltac:(lia)); lia).
  assert (0 ≤ o / 64 ∧ 0 < count / 64) as [Hi Hk] by lia.
  unfold ClearRange_big. rewrite Hom, Hcm, level_lookup by done. simpl.
  destruct (ClearRange_check_spec (Z.to_nat (count / 64)) (level st depth) (o / 64))
    as (full & -> & Hfull); [lia|lia|]. simpl.
  assert (full = true ↔ ∀ x, o ≤ x < o + count → bit_at (level st depth) x = true) as Hiff.
  { rewrite Hfull. split.
    - intros Hall x Hx. pose proof (Z.div_mod x 64 ltac:(lia)). pose proof (Z.mod_pos_bound x 64 ltac:(lia)).
      apply (full_word _ (x / 64)); [apply Hsh|lia| |lia]. apply Hall. lia.
    - intros Hall j Hj. apply full_word; [apply Hsh|lia|]. intros x Hx. apply Hall. lia. }
  destruct full; simpl.
  - destruct (ClearRange_clear_spec (Z.to_nat (count / 64)) depth st (o / 64))
      as (st' & -> & Hst'); [done..|lia| |].
    { intros j Hj. by rewrite (proj1 Hfull). }
    rewrite Z2Nat.id, <-Eo, <-Ec in Hst' by lia. eexists. split; [done|].
    split; [|intros []; by apply Hiff]. intros _. by eexists.
  - exists None. split; [done|]. split; [|done]. intros Hall%Hiff. done.
Qed.

(** * The operations of the bitmap, as operations on its free set *)

Lemma in_level_capacity b o :
  0 ≤ o < capacity b → in_level (m_used_depths b) (m_bit_storages b) o.
Proof. intros Ho _. apply Ho. Qed.

Lemma SetBit_free_set b o :
  wf b → 0 ≤ o < capacity b → o ∉ free_set b →
  ∃ b', SetBit b o = Some b' ∧ wf b' ∧ free_set b' = {[o]} ∪ free_set b
    ∧ capacity b' = capacity b.
Proof.
  intros Hwf Ho Hfree. pose proof Hwf as [Hne Hsh Hli Hcap Hcnt].
  unfold SetBit. destruct (SetBit_loop_spec (m_used_depths b) (m_bit_storages b) o)
    as (st' & -> & Hst'); [done|done|done|by apply in_level_capacity| |].
  { intros _. apply not_true_is_false. intros Hb. apply Hfree, elem_of_bits_set. split; [lia|done]. }
  destruct (walked_wf b st' _ ({[o]} ∪ free_set b) Hwf Hst') as (? & ? & ?).
  { intros x. unfold free_set. rewrite elem_of_union, elem_of_singleton, elem_of_bits_set.
    unfold upd_bit, deepest. case_decide; naive_solver lia. }
  simpl. assert (m_num_bits b + 1 = Z.of_nat (size ({[o]} ∪ free_set b))) as ->; [|eauto].
  rewrite Hcnt, size_union by set_solver. rewrite size_singleton. lia.
Qed.

Lemma ClearBit_free_set b o :
  wf b → o ∈ free_set b →
  ∃ b', ClearBit b o = Some b' ∧ wf b' ∧ free_set b' = free_set b ∖ {[o]}
    ∧ capacity b' = capacity b.
Proof.
  intros Hwf Hfree. pose proof Hwf as [Hne Hsh Hli Hcap Hcnt].
  pose proof (free_set_range _ _ Hfree).
  unfold ClearBit. destruct (ClearBit_loop_spec (m_used_depths b) (m_bit_storages b) o)
    as (st' & -> & Hst'); [done|done|done|by apply in_level_capacity| |].
  { intros _. by apply elem_of_bits_set in Hfree as [_ ?]. }
  destruct (walked_wf b st' _ (free_set b ∖ {[o]}) Hwf Hst') as (? & ? & ?).
  { intros x. unfold free_set. rewrite elem_of_difference, elem_of_singleton, elem_of_bits_set.
    unfold upd_bit, deepest. case_decide; naive_solver. }
  simpl. assert (m_num_bits b - 1 = Z.of_nat (size (free_set b ∖ {[o]}))) as ->; [|eauto].
  rewrite Hcnt, size_difference by set_solver. rewrite size_singleton.
  assert (size ({[o]} : gset Z) ≤ size (free_set b))%nat as Hle by (apply subseteq_size; set_solver).
  rewrite size_singleton in Hle. lia.
Qed.

(** What [ClearRange] asserts of its arguments. *)
Definition range_ok (b : KPageBitmap) (o count : Z) : Prop :=
  0 ≤ o ∧ 0 < count ∧ o + count ≤ capacity b
  ∧ (if count <? 64 then o mod 64 + count ≤ 64 else o mod 64 = 0 ∧ count mod 64 = 0).

Lemma ClearRange_free_set b o count :
  wf b → range_ok b o count →
  (range_set o count ⊆ free_set b ∧ ∃ b', ClearRange b o count = Some (true, b') ∧ wf b'
     ∧ free_set b' = free_set b ∖ range_set o count ∧ capacity b' = capacity b)
  ∨ (¬ range_set o count ⊆ free_set b ∧ ClearRange b o count = Some (false, b)).
Proof.
  intros Hwf (Ho & Hc & Hcap' & Hal). pose proof Hwf as [Hne Hsh Hli Hcap Hcnt].
  destruct (m_used_depths b) as [|depth] eqn:Hdep; [lia|].
  assert (deepest b = level (m_bit_storages b) depth) as Hdeep.
  { unfold deepest. rewrite Hdep. by rewrite Nat.sub_succ, Nat.sub_0_r. }
  assert (range_set o count ⊆ free_set b
    ↔ ∀ x, o ≤ x < o + count → bit_at (level (m_bit_storages b) depth) x = true) as Hsub.
  { unfold free_set. rewrite Hdeep. split.
    - intros Hs x Hx. by apply elem_of_bits_set, Hs, elem_of_range_set.
    - intros Hall x Hx%elem_of_range_set. apply elem_of_bits_set. split; [lia|by apply Hall]. }
  unfold capacity in Hcap'. rewrite Hdeep in Hcap'.
  set (lv := level (m_bit_storages b) depth) in *.
  assert (∃ r, (if count <? 64 then ClearRange_small else ClearRange_big)
      (S depth) (m_bit_storages b) o count = Some r ∧
    ((∀ x, o ≤ x < o + count → bit_at lv x = true) →
      ∃ st', r = Some st' ∧ walked (S depth) (clear_bits (bit_at lv) o count) (m_bit_storages b) st')
    ∧ (¬ (∀ x, o ≤ x < o + count → bit_at lv x = true) → r = None)) as (r & Hr & Hyes & Hno).
  { unfold m_used_depths in Hdep. revert Hal. case Z.ltb_spec; intros H64 Hal.
    - apply ClearRange_small_spec; try done; lia.
    - destruct Hal. apply ClearRange_big_spec; try done; lia. }
  unfold ClearRange. rewrite Hdep, Hr. simpl.
  destruct (decide (range_set o count ⊆ free_set b)) as [Hin|Hin]; [left|right]; (split; [done|]).
  - destruct Hyes as (st' & -> & Hst'); [by apply Hsub|]. rewrite <-Hdep in Hst'.
    destruct (walked_wf b st' _ (free_set b ∖ range_set o count) Hwf Hst') as (? & ? & ?).
    { intros x. unfold free_set. rewrite elem_of_difference, elem_of_range_set, elem_of_bits_set.
      unfold clear_bits. rewrite Hdeep. case_decide; naive_solver. }
    assert (m_num_bits b - count = Z.of_nat (size (free_set b ∖ range_set o count))) as ->; [|eauto].
    rewrite Hcnt, size_difference by done. pose proof (size_range_set o count ltac:(lia)).
    pose proof (subseteq_size _ _ Hin). lia.
  - rewrite Hno; [done|]. by rewrite <-Hsub.
Qed.

(** ** Finding a free block *)
Lemma level_cons lv st d : level (lv :: st) (S d) = level st d.
Proof. done. Qed.

Lemma links_tail lv st : links (lv :: st) (S (length st)) → links st (length st).
Proof. intros H d Hd. apply (H (S d)). lia. Qed.

(** Storages without the requirement that the root is one word. *)
Definition fits (st : list (list Z)) : Prop :=
  (∀ d, Forall (in_width 64) (level st d))
  ∧ ∀ d, (S d < length st)%nat → (length (level st (S d)) ≤ 64 * length (level st d))%nat.

Lemma fits_tail lv st : fits (lv :: st) → fits st.
Proof. intros [H1 H2]. split; [intros d; apply (H1 (S d))|]. intros d Hd. apply (H2 (S d)). simpl. lia. Qed.

(** The child chosen at one level: a set bit, the lowest one when not random. *)
Lemma select_spec (random : bool) v g :
  in_width 64 v → v ≠ 0 →
  ∃ sel g', (if random then SelectRandomBit v g else Some (countr_zero 64 v, g)) = Some (sel, g')
    ∧ 0 ≤ sel < 64 ∧ Z.testbit v sel = true
    ∧ (random = false → ∀ i, 0 ≤ i < sel → Z.testbit v i = false).
Proof.
  intros Hv Hne. destruct random.
  - destruct (SelectRandomBit_spec v g Hv Hne) as (r & g' & ? & ? & ?).
    by exists r, g'.
  - destruct (countr_zero_spec 64 v Hv Hne) as (? & ? & ?). by exists (countr_zero 64 v), g.
Qed.

Lemma child_div_mod offset sel :
  0 ≤ sel < 64 → (offset * 64 + sel) / 64 = offset ∧ (offset * 64 + sel) mod 64 = sel.
Proof.
  intros. rewrite Z.add_comm. by rewrite Z.div_add, Z.mod_add, Z.div_small, Z.mod_small by lia.
Qed.

(** One iteration of the search. *)
Lemma FindFreeBlock_step random lv st depth offset g :
  Forall (in_width 64) lv → 0 ≤ offset < Z.of_nat (length lv) → word_at lv offset ≠ 0 →
  ∃ next g', FindFreeBlock_loop random (lv :: st) depth offset g
      = FindFreeBlock_loop random st (depth + 1) next g'
    ∧ 0 ≤ next ∧ bit_at lv next = true
    ∧ (random = false → (∀ i, 0 ≤ i → word_at lv i ≠ 0 → offset ≤ i) →
       ∀ o, 0 ≤ o → bit_at lv o = true → next ≤ o).
Proof.
  intros Hw Ho Hne. cbn [FindFreeBlock_loop]. rewrite word_at_lookup by done.
  cbn [mbind option_bind]. rewrite (proj2 (Z.eqb_neq _ 0)) by done.
  destruct (select_spec random (word_at lv offset) g) as (sel & g1 & -> & Hsel & Hbit & Hmin);
    [by apply word_at_width|done|].
  destruct (child_div_mod offset sel Hsel) as [Ed Em].
  exists (offset * 64 + sel), g1. split_and!; [done|lia|unfold bit_at; by rewrite Ed, Em|].
  intros Hr Hlow o Ho' Hb.
  pose proof (Hlow (o / 64) ltac:(apply Z.div_pos; lia) (bit_ne_0 _ _ Hb)).
  pose proof (Z.div_mod o 64 ltac:(lia)). pose proof (Z.mod_pos_bound o 64 ltac:(lia)).
  destruct (Z.lt_ge_cases o (offset * 64 + sel)); [|lia].
  assert (o / 64 = offset) as Eq by lia. unfold bit_at in Hb. rewrite Eq in Hb.
  rewrite (Hmin Hr) in Hb; [done|lia].
Qed.

Lemma FindFreeBlock_loop_spec random lv st depth offset g :
  fits (lv :: st) → links (lv :: st) (S (length st)) →
  0 ≤ offset < Z.of_nat (length lv) → word_at lv offset ≠ 0 →
  ∃ o g', FindFreeBlock_loop random (lv :: st) depth offset g = Some (o, g')
    ∧ 0 ≤ o ∧ bit_at (level (lv :: st) (length st)) o = true
    ∧ (random = false → (∀ i, 0 ≤ i → word_at lv i ≠ 0 → offset ≤ i) →
       ∀ o', 0 ≤ o' → bit_at (level (lv :: st) (length st)) o' = true → o ≤ o').
Proof.
  revert lv depth offset g. induction st as [|lo st IH]; intros lv depth offset g Hfit Hli Ho Hne.
  { destruct (FindFreeBlock_step random lv [] depth offset g (proj1 Hfit 0%nat) Ho Hne)
      as (next & g1 & -> & Hnext & Hb & Hmin). by exists next, g1. }
  destruct (FindFreeBlock_step random lv (lo :: st) depth offset g (proj1 Hfit 0%nat) Ho Hne)
    as (next & g1 & -> & Hnext & Hb & Hmin).
  assert (linked lv lo) as Hl by (apply (Hli 0%nat); simpl; lia).
  rewrite (Hl next) in Hb by done. apply negb_true_iff, Z.eqb_neq in Hb.
  destruct (IH lo (depth + 1) next g1) as (o & g2 & -> & Hfound & Hbo & Hmin2).
  - by apply fits_tail in Hfit.
  - by apply links_tail in Hli.
  - split; [lia|]. destruct (Z.lt_ge_cases next (Z.of_nat (length lo))) as [|Hge]; [done|].
    by rewrite word_at_ge in Hb.
  - done.
  - exists o, g2. split_and!; [done|done|done|]. intros Hr Hlow. apply Hmin2; [done|].
    intros i Hi Hwi. apply Hmin; [done..|]. rewrite (Hl i) by done. by apply negb_true_iff, Z.eqb_neq.
Qed.

(** A zero root word means no free block anywhere. *)
Lemma zero_root root st :
  length root = 1%nat → links (root :: st) (S (length st)) → word_at root 0 = 0 →
  ∀ d, (d ≤ length st)%nat → ∀ i, 0 ≤ i → bit_at (level (root :: st) d) i = false.
Proof.
  intros Hroot Hli Hz. induction d as [|d IHd]; intros Hd i Hi;
    pose proof (Z.div_pos i 64 ltac:(lia) ltac:(lia)) as Hdiv; unfold bit_at.
  - unfold level. simpl. destruct (decide (i / 64 = 0)) as [->|]; [by rewrite Hz, Z.bits_0|].
    rewrite word_at_ge; [apply Z.bits_0|]. rewrite Hroot. lia.
  - specialize (IHd ltac:(lia) (i / 64) Hdiv). rewrite (Hli d) in IHd by lia.
    apply negb_false_iff, Z.eqb_eq in IHd. rewrite IHd. apply Z.bits_0.
Qed.

Lemma FindFreeBlock_free_set b random :
  wf b →
  ∃ o b', FindFreeBlock b random = Some (o, b') ∧ wf b' ∧ free_set b' = free_set b
    ∧ capacity b' = capacity b
    ∧ (o = -1 ∧ free_set b = ∅
       ∨ o ∈ free_set b ∧ (random = false → ∀ o', o' ∈ free_set b → o ≤ o')).
Proof.
  intros Hwf. pose proof Hwf as [Hne Hsh Hli _ _]. unfold FindFreeBlock.
  assert (∀ g, let b' := MkBitmap (m_bit_storages b) g (m_num_bits b) in
    wf b' ∧ free_set b' = free_set b ∧ capacity b' = capacity b) as Hg by (intros; by destruct Hwf).
  assert (free_set b = bits_set (level (m_bit_storages b) (m_used_depths b - 1))) as Hfree by done.
  unfold m_used_depths in *. destruct (m_bit_storages b) as [|root st] eqn:Hst; [simpl in Hne; lia|].
  simpl length in *. rewrite Nat.sub_succ, Nat.sub_0_r in Hfree.
  assert (length root = 1%nat) as Hroot by apply Hsh.
  destruct (decide (word_at root 0 = 0)) as [Hz|Hz].
  - exists (-1). eexists. cbn [FindFreeBlock_loop]. rewrite word_at_lookup by lia.
    cbn [mbind option_bind]. rewrite Hz. simpl. split; [done|].
    destruct (Hg (m_rng b)) as (?&?&?). split_and!; [done..|]. left. split; [done|].
    apply set_eq. intros o. rewrite Hfree, elem_of_bits_set.
    split; [|by intros ?%not_elem_of_empty]. intros [Ho Hbo].
    by rewrite (zero_root root st Hroot Hli Hz) in Hbo.
  - destruct (FindFreeBlock_loop_spec random root st 0 0 (m_rng b)) as (o & g' & -> & Ho & Hb & Hmin);
      [split; apply Hsh|done|lia|done|]. simpl. exists o. eexists. split; [done|].
    destruct (Hg g') as (?&?&?). split_and!; [done..|]. right.
    rewrite Hfree, elem_of_bits_set. split; [done|]. intros Hr o' [Ho' Hb']%elem_of_bits_set.
    apply Hmin; [done| |done|done]. intros. lia.
Qed.

(** ** Initialisation *)
Lemma GetRequiredDepth_loop_spec fuel depth r :
  0 ≤ r < 64 ^ Z.of_nat fuel → (0 < fuel)%nat →
  ∃ k, GetRequiredDepth_loop fuel depth r = Some (depth + k)
    ∧ 1 ≤ k ∧ r < 64 ^ k ∧ (k = 1 ∨ 64 ^ (k - 1) ≤ r).
Proof.
  revert depth r. induction fuel as [|fuel IH]; intros depth r Hr Hf; [lia|]. simpl.
  pose proof (Z.div_mod r 64 ltac:(lia)). pose proof (Z.mod_pos_bound r 64 ltac:(lia)).
  case Z.eqb_spec; intros Hz.
  - exists 1. split_and!; [done|lia| |by left]. change (64 ^ 1) with 64. lia.
  - rewrite Nat2Z.inj_succ, Z.pow_succ_r in Hr by lia.
    destruct (decide (fuel = 0%nat)) as [->|Hf0]; [simpl in Hr; lia|].
    assert (0 ≤ r / 64) by (apply Z.div_pos; lia).
    destruct (IH (depth + 1) (r / 64)) as (k & -> & Hk & Hlt & Hge); [lia|lia|].
    exists (k + 1). rewrite Z.pow_add_r by lia. split_and!; [f_equal; lia|lia|lia|right].
    replace (k + 1 - 1) with k by lia. destruct Hge as [->|Hge]; [change (64 ^ 1) with 64; lia|].
    replace k with ((k - 1) + 1) by lia. rewrite Z.pow_add_r by lia. lia.
Qed.

Lemma GetRequiredDepth_spec r :
  in_width 64 r →
  ∃ k, GetRequiredDepth r = Some k ∧ 1 ≤ k ∧ r < 64 ^ k ∧ (k = 1 ∨ 64 ^ (k - 1) ≤ r).
Proof.
  intros [H0 H1]. unfold GetRequiredDepth. apply (GetRequiredDepth_loop_spec 11 0 r); [|lia].
  split; [done|]. apply Z.lt_le_trans with (1 := H1). by vm_compute.
Qed.

Definition ceil64 (s : Z) : Z := (s + 63) / 64.

Lemma ceil64_bounds s : 0 ≤ s → s ≤ 64 * ceil64 s < s + 64 ∧ 0 ≤ ceil64 s.
Proof.
  intros. unfold ceil64. pose proof (Z.div_mod (s + 63) 64 ltac:(lia)).
  pose proof (Z.mod_pos_bound (s + 63) 64 ltac:(lia)). lia.
Qed.

Lemma AlignUp_div_64 s : 0 ≤ s ≤ 2 ^ 32 → AlignUp s 64 / 64 = ceil64 s.
Proof.
  intros Hs. pose proof (ceil64_bounds s). unfold ceil64 in *.
  rewrite AlignUp_eq by (unfold in_width; replace (s + 64 - 1) with (s + 63) by lia; lia).
  replace (s + 64 - 1) with (s + 63) by lia. rewrite Z.mul_comm. by rewrite Z.div_mul by lia.
Qed.

(** The words handed out are exactly the ones the overhead computation counts. *)
Lemma Initialize_loop_words n size lower words :
  snd (Initialize_loop n size lower words) = CalculateManagementOverheadSize_loop n size words.
Proof. revert size lower words. induction n as [|n IH]; intros; simpl; [done|apply IH]. Qed.

(** The overhead is monotone in the size of the region. *)
Lemma overhead_loop_acc n s acc :
  CalculateManagementOverheadSize_loop n s acc = acc + CalculateManagementOverheadSize_loop n s 0.
Proof.
  revert s acc. induction n as [|n IH]; intros s acc; simpl; [lia|].
  rewrite IH, (IH _ (AlignUp s 64 / 64)). lia.
Qed.

Lemma overhead_loop_mono n s s' :
  0 ≤ s ≤ s' → s' ≤ 2 ^ 32 →
  0 ≤ CalculateManagementOverheadSize_loop n s 0 ≤ CalculateManagementOverheadSize_loop n s' 0.
Proof.
  revert s s'. induction n as [|n IH]; intros s s' Hs Hb; simpl; [lia|].
  rewrite !AlignUp_div_64 by lia. rewrite (overhead_loop_acc n _ (ceil64 s)), (overhead_loop_acc n _ (ceil64 s')).
  pose proof (ceil64_bounds s ltac:(lia)). pose proof (ceil64_bounds s' ltac:(lia)).
  assert (ceil64 s ≤ ceil64 s') by (apply Z.div_le_mono; lia).
  specialize (IH (ceil64 s) (ceil64 s')). lia.
Qed.

Lemma overhead_loop_depth n n' s :
  (n ≤ n')%nat → 0 ≤ s ≤ 2 ^ 32 →
  CalculateManagementOverheadSize_loop n s 0 ≤ CalculateManagementOverheadSize_loop n' s 0.
Proof.
  revert n' s. induction n as [|n IH]; intros n' s Hn Hs; [by apply (overhead_loop_mono n' s s); lia|].
  destruct n' as [|n']; [lia|]. simpl. rewrite !AlignUp_div_64 by lia.
  rewrite (overhead_loop_acc n), (overhead_loop_acc n').
  pose proof (ceil64_bounds s ltac:(lia)). specialize (IH n' (ceil64 s)). lia.
Qed.

Lemma overhead_loop_le n s :
  0 ≤ s ≤ 2 ^ 32 → CalculateManagementOverheadSize_loop n s 0 ≤ Z.of_nat n * s.
Proof.
  revert s. induction n as [|n IH]; intros s Hs; simpl; [lia|]. rewrite AlignUp_div_64 by lia.
  rewrite overhead_loop_acc. pose proof (ceil64_bounds s ltac:(lia)).
  assert (ceil64 s ≤ s) by lia. specialize (IH (ceil64 s)). nia.
Qed.

Lemma CalculateManagementOverheadSize_le r s :
  0 ≤ r ≤ 2 ^ 32 → CalculateManagementOverheadSize r = Some s → s ≤ 2 ^ 38.
Proof.
  intros Hr. unfold CalculateManagementOverheadSize.
  destruct (GetRequiredDepth_spec r) as (k & -> & Hk & _ & Hge); [unfold in_width; lia|].
  simpl. intros [= <-]. assert (k ≤ 7).
  { destruct Hge as [->|Hge]; [lia|]. destruct (Z.le_gt_cases k 7); [done|].
    assert (64 ^ 7 ≤ 64 ^ (k - 1)) by (apply Z.pow_le_mono_r; lia). lia. }
  pose proof (overhead_loop_le (Z.to_nat k) r Hr). nia.
Qed.

Lemma CalculateManagementOverheadSize_mono r r' :
  0 ≤ r ≤ r' → r' ≤ 2 ^ 32 →
  ∃ s s', CalculateManagementOverheadSize r = Some s ∧ CalculateManagementOverheadSize r' = Some s'
    ∧ 0 ≤ s ≤ s'.
Proof.
  intros Hr Hb. unfold CalculateManagementOverheadSize.
  destruct (GetRequiredDepth_spec r) as (k & -> & Hk & _ & Hge); [unfold in_width; lia|].
  destruct (GetRequiredDepth_spec r') as (k' & -> & Hk' & Hlt & _); [unfold in_width; lia|].
  eexists _, _. split_and!; [done|done|..].
  - pose proof (overhead_loop_mono (Z.to_nat k) r r). lia.
  - assert (k ≤ k').
    { destruct Hge as [->|Hge]; [lia|]. assert (64 ^ (k - 1) < 64 ^ k') as H by lia.
      apply Z.pow_lt_mono_r_iff in H; lia. }
    pose proof (overhead_loop_mono (Z.to_nat k) r r').
    pose proof (overhead_loop_depth (Z.to_nat k) (Z.to_nat k') r'). lia.
Qed.

(** Zeroed storages whose first segment covers [size] bits' worth of words. *)
Record zeroed (st : list (list Z)) : Prop := {
  zeroed_words d : Forall (λ w, w = 0) (level st d);
  zeroed_fits d : (S d < length st)%nat → (length (level st (S d)) ≤ 64 * length (level st d))%nat
}.

Lemma Initialize_loop_zeroed n size lower words :
  zeroed lower → lower ≠ [] → 1 ≤ size ≤ 2 ^ 32 → length (level lower 0) = Z.to_nat size →
  size ≤ 64 ^ Z.of_nat n →
  let st := fst (Initialize_loop n size lower words) in
  zeroed st ∧ length st = (n + length lower)%nat ∧ length (level st 0) = 1%nat
  ∧ level st (length st - 1) = level lower (length lower - 1).
Proof.
  revert size lower words. induction n as [|n IH]; intros size lower words Hz Hne Hs Hl Hn; simpl.
  { split_and!; [done|done| |done]. simpl in Hn. rewrite Hl. lia. }
  rewrite AlignUp_div_64 by lia. destruct (ceil64_bounds size ltac:(lia)) as [Hc Hc0].
  rewrite Nat2Z.inj_succ, Z.pow_succ_r in Hn by lia.
  destruct (IH (ceil64 size) (replicate (Z.to_nat (ceil64 size)) 0 :: lower) (words + ceil64 size))
    as (H1 & H2 & H3 & H4); [|done|lia|apply length_replicate|unfold ceil64 in *; lia|].
  - destruct Hz as [Hw Hf]. split.
    + intros [|d]; [by apply Forall_replicate|apply Hw].
    + intros [|d]; [|simpl; intros; apply Hf; lia].
      intros _. rewrite level_cons, Hl. unfold level. simpl. rewrite length_replicate. lia.
  - split_and!; [done|rewrite H2; simpl; lia|done|]. rewrite H4. simpl.
    rewrite Nat.sub_0_r. destruct lower; [done|]. simpl. by rewrite Nat.sub_0_r.
Qed.

Lemma zeroed_word_at lv i : Forall (λ w, w = 0) lv → word_at lv i = 0.
Proof.
  intros H. unfold word_at. destruct (lv !! Z.to_nat i) eqn:E; [|done].
  by eapply Forall_lookup_1 in H.
Qed.

Lemma zeroed_bit_at lv i : Forall (λ w, w = 0) lv → bit_at lv i = false.
Proof. intros H. unfold bit_at. rewrite zeroed_word_at by done. apply Z.bits_0. Qed.

Lemma zeroed_wf st g :
  zeroed st → st ≠ [] → length (level st 0) = 1%nat →
  64 * Z.of_nat (length (level st (length st - 1))) < 2 ^ 64 →
  wf (MkBitmap st g 0) ∧ free_set (MkBitmap st g 0) = ∅.
Proof.
  intros [Hw Hf] Hne Hr Hc. set (b := MkBitmap st g 0).
  assert (free_set b = ∅) as He.
  { apply set_eq. intros o. unfold free_set. rewrite elem_of_bits_set.
    split; [|by intros ?%not_elem_of_empty]. intros [_ H].
    by rewrite zeroed_bit_at in H by apply Hw. }
  split; [|done]. split; simpl.
  - unfold m_used_depths. simpl. destruct st; [done|simpl; lia].
  - split; [|done|done]. intros d. eapply Forall_impl; [apply Hw|]. intros ? ->. by unfold in_width.
  - intros d _ i _. by rewrite zeroed_bit_at, zeroed_word_at.
  - done.
  - by rewrite He.
Qed.

Lemma Initialize_free_set b size :
  1 ≤ size < 2 ^ 24 →
  ∃ b' words, Initialize b size = Some (b', words) ∧ wf b' ∧ free_set b' = ∅
    ∧ size ≤ capacity b' < size + 64
    ∧ CalculateManagementOverheadSize size = Some (words * 8).
Proof.
  intros Hs. destruct (GetRequiredDepth_spec size) as (k & E & Hk & Hlt & Hge); [unfold in_width; lia|].
  assert (k ≤ 4) as Hk4.
  { destruct Hge as [|Hge]; [lia|]. destruct (Z.le_gt_cases k 4); [done|].
    assert (64 ^ 4 ≤ 64 ^ (k - 1)) by (apply Z.pow_le_mono_r; lia).
    change (64 ^ 4) with (2 ^ 24) in *. lia. }
  unfold Initialize, CalculateManagementOverheadSize, MaxDepth. rewrite E. simpl.
  rewrite check_bind_Some by (by apply Z.leb_le).
  destruct (Z.to_nat k) as [|n] eqn:Hn; [lia|]. assert (k = Z.succ (Z.of_nat n)) as Hkn by lia.
  rewrite <-(Initialize_loop_words (S n) size []). simpl. rewrite AlignUp_div_64 by lia.
  destruct (ceil64_bounds size ltac:(lia)) as [Hc Hc0].
  set (seg := replicate (Z.to_nat (ceil64 size)) 0).
  destruct (Initialize_loop_zeroed n (ceil64 size) [seg] (0 + ceil64 size)) as (H1 & H2 & H3 & H4);
    [|done|lia|by apply length_replicate| |].
  { split; [|intros d Hd; simpl in Hd; lia].
    intros [|[|d]]; [by apply Forall_replicate|done|done]. }
  { rewrite Hkn, Z.pow_succ_r in Hlt by lia. unfold ceil64 in *. lia. }
  destruct (Initialize_loop n _ [seg] _) as [st words]. simpl in *.
  assert (length (level st (length st - 1)) = Z.to_nat (ceil64 size)) as Hlen.
  { rewrite H4. apply length_replicate. }
  destruct (zeroed_wf st (m_rng b)) as [Hwf He]; [done|by destruct st|done|lia|].
  exists (MkBitmap st (m_rng b) 0), words. split_and!; try done;
    unfold capacity, deepest, m_used_depths; simpl; rewrite Hlen; lia.
Qed.

(** ** Random numbers *)
Definition rng_ok (g : RandomBitGenerator) : Prop := 0 ≤ m_bits_available g ≤ 32.

Lemma GenerateRandomBits_loop_spec fuel num_bits result g :
  0 ≤ num_bits < 32 → num_bits < Z.of_nat fuel → rng_ok g →
  ∃ r g', GenerateRandomBits_loop fuel num_bits result g = Some (r, g') ∧ rng_ok g'.
Proof.
  unfold rng_ok. revert num_bits result g.
  induction fuel as [|fuel IH]; intros num_bits result g Hn Hf Hg.
  { lia. }
  cbn [GenerateRandomBits_loop]. case Z.leb_spec; intros Hle; [by exists result, g|].
  set (g1 := if m_bits_available g =? 0 then RefreshEntropy g else g).
  assert (0 < m_bits_available g1 ≤ 32) as Hg1.
  { unfold g1. case Z.eqb_spec; intros Hz; [|lia]. unfold RefreshEntropy.
    destruct (TinyMT.GenerateRandomU32 _). simpl. lia. }
  unfold shr. rewrite check_bind_Some by (apply andb_true_iff; split; [apply Z.leb_le|apply Z.ltb_lt]; lia).
  cbn [mbind option_bind]. apply IH; simpl; lia.
Qed.

Lemma GenerateRandom_spec max g :
  1 ≤ max < 2 ^ 30 → rng_ok g →
  ∃ r g', GenerateRandom max g = Some (r, g') ∧ 0 ≤ r < max ∧ rng_ok g'.
Proof.
  intros Hm Hg. unfold GenerateRandom, countl_zero.
  rewrite (proj2 (Z.eqb_neq max 0)) by lia.
  assert (0 ≤ Z.log2 max < 30) by (split; [apply Z.log2_nonneg|apply Z.log2_lt_pow2; lia]).
  rewrite wrap_small by (unfold in_width; lia).
  destruct (GenerateRandomBits_loop_spec (S (Z.to_nat (1 + (64 - (64 - 1 - Z.log2 max)))))
    (1 + (64 - (64 - 1 - Z.log2 max))) 0 g) as (rnd & g' & E & Hg'); [lia|lia|done|].
  unfold GenerateRandomBits. rewrite E. simpl.
  exists (rnd - rnd / max * max), g'. split_and!; [done| | |done];
    pose proof (Z.div_mod rnd max ltac:(lia)); pose proof (Z.mod_pos_bound rnd max ltac:(lia)); lia.
Qed.

(** ** Finding a free range *)

(** What a scan has established once it has seen the options in [S]. *)
Definition scan_inv (S : Z → Prop) (bound : Z) (acc : Z * Z * RandomBitGenerator) : Prop :=
  let '(num_valid, chosen, g) := acc in
  0 ≤ num_valid ≤ bound ∧ rng_ok g
  ∧ (num_valid = 0 → chosen = -1 ∧ ∀ x, ¬ S x) ∧ (num_valid ≠ 0 → S chosen).

Lemma scan_inv_ext S S' n acc : (∀ x, S x ↔ S' x) → scan_inv S n acc → scan_inv S' n acc.
Proof.
  destruct acc as [[nv ch] g]. intros E (? & ? & H1 & H2). split_and!; [lia|lia|done| |].
  - intros Hz. destruct (H1 Hz) as [? Hno]. split; [done|]. intros x Hx%E. by eapply Hno.
  - intros Hz. by apply E, H2.
Qed.

(** The body of the loop over the options. *)
Lemma scan_option (valid : bool) (S : Z → Prop) n x acc :
  scan_inv S n acc → n + 1 < 2 ^ 30 →
  let '(num_valid, chosen, g) := acc in
  ∃ acc', (if valid then
             let num_valid := num_valid + 1 in
             if num_valid =? 1 then Some (num_valid, x, g)
             else '(r, g) ← GenerateRandom num_valid g;
                  Some (num_valid, (if r =? 0 then x else chosen), g)
           else Some acc) = Some acc'
    ∧ scan_inv (λ y, S y ∨ (y = x ∧ valid = true)) (n + 1) acc'.
Proof.
  destruct acc as [[nv ch] g]. intros (Hnv & Hg & H1 & H2) Hn. destruct valid; cbv zeta.
  - case Z.eqb_spec; intros Hone.
    + eexists. split; [done|]. split_and!; [lia|lia|done|lia|]. intros _. by right.
    + destruct (GenerateRandom_spec (nv + 1) g) as (r & g' & -> & _ & Hg'); [lia|done|].
      eexists. split; [done|]. split_and!; [lia|lia|done|lia|]. intros _.
      case_match; [by right|left; apply H2; lia].
  - eexists. split; [done|]. split_and!; [lia|lia|done| |].
    + intros Hz. destruct (H1 Hz) as [? Hno]. split; [done|]. intros y [Hy|[_ ?]]; [by eapply Hno|done].
    + intros Hz. left. by apply H2.
Qed.

(** Option [j] of word [v] is free. *)
Definition option_free (v count j : Z) : Prop :=
  ∀ i, j * count ≤ i < j * count + count → Z.testbit v i = true.

Lemma option_test v count j :
  0 < count < 64 → 0 ≤ j →
  Z.land (Z.shiftr v (j * count)) (Z.shiftl 1 count - 1) =? Z.shiftl 1 count - 1 = true
  ↔ option_free v count j.
Proof.
  intros Hc Hj. rewrite land_mask_full.
  replace (Z.shiftl 1 count - 1) with (Z.ones count) by (rewrite Z.shiftl_1_l, Z.ones_equiv; lia).
  split.
  - intros Hall i Hi. specialize (Hall (i - j * count) ltac:(lia)).
    rewrite Z.ones_spec_low, Z.shiftr_spec in Hall by lia.
    replace (i - j * count + j * count) with i in Hall by lia. by apply Hall.
  - intros Hall i Hi. destruct (Z.lt_ge_cases i count).
    + intros _. rewrite Z.shiftr_spec by lia. apply Hall. lia.
    + by rewrite Z.ones_spec_high by lia.
Qed.

Lemma FindFreeRange_word_spec options j count base v (S : Z → Prop) n acc :
  0 < count < 64 → 0 ≤ j → n + Z.of_nat options < 2 ^ 30 → scan_inv S n acc →
  ∃ acc', FindFreeRange_word options j count base (Z.shiftl 1 count - 1)
            (Z.shiftr v (j * count)) acc = Some acc'
    ∧ scan_inv (λ y, S y ∨ ∃ j', j ≤ j' < j + Z.of_nat options ∧ y = base + j' * count
                                 ∧ option_free v count j') (n + Z.of_nat options) acc'.
Proof.
  intros Hc. revert j S n acc. induction options as [|options IH]; intros j S n acc Hj Hn Hacc.
  { exists acc. split; [done|]. replace (n + Z.of_nat 0) with n by lia. eapply scan_inv_ext; [|done].
    intros x. split; [by left|]. intros [?|(j' & ? & _)]; [done|lia]. }
  destruct acc as [[nv ch] g]. cbn [FindFreeRange_word].
  pose proof (scan_option (Z.land (Z.shiftr v (j * count)) (Z.shiftl 1 count - 1)
    =? Z.shiftl 1 count - 1) S n (base + j * count) (nv, ch, g) Hacc ltac:(lia)) as (acc1 & E & Hacc1).
  cbv zeta in E |- *. rewrite E. cbn [mbind option_bind].
  unfold shr. rewrite check_bind_Some by (apply andb_true_iff; split; [apply Z.leb_le|apply Z.ltb_lt]; lia).
  cbn [mbind option_bind]. rewrite Z.shiftr_shiftr by lia.
  replace (j * count + count) with ((j + 1) * count) by lia.
  destruct (IH (j + 1) _ (n + 1) acc1 ltac:(lia) ltac:(lia) Hacc1) as (acc2 & -> & Hacc2).
  exists acc2. split; [done|]. replace (n + Z.of_nat (Datatypes.S options))
    with (n + 1 + Z.of_nat options) by lia.
  eapply scan_inv_ext; [|exact Hacc2]. intros x. cbv beta. rewrite option_test by lia. split.
  - intros [[?|[-> ?]]|(j' & ? & ?)]; [by left|right; exists j; split; [lia|done]|].
    right. exists j'. split; [lia|done].
  - intros [?|(j' & ? & -> & ?)]; [by do 2 left|].
    destruct (decide (j' = j)) as [->|]; [by left; right|]. right. exists j'. split; [lia|done].
Qed.

Lemma FindFreeRange_words_spec words index options count (S : Z → Prop) n acc :
  0 < count < 64 → 0 ≤ options → n + options * Z.of_nat (length words) < 2 ^ 30 → scan_inv S n acc →
  ∃ acc', FindFreeRange_words words index options count (Z.shiftl 1 count - 1) acc = Some acc'
    ∧ scan_inv (λ y, S y ∨ ∃ (i : nat) j v, words !! i = Some v ∧ 0 ≤ j < options
        ∧ y = (index + Z.of_nat i) * 64 + j * count ∧ option_free v count j)
        (n + options * Z.of_nat (length words)) acc'.
Proof.
  intros Hc Ho. revert index S n acc. induction words as [|v words IH]; intros index S n acc Hn Hacc.
  { exists acc. split; [done|]. simpl length. replace (n + options * Z.of_nat 0) with n by lia.
    eapply scan_inv_ext; [|done]. intros x. split; [by left|].
    intros [?|(i & j & w & Hw & _)]; [done|by rewrite lookup_nil in Hw]. }
  cbn [FindFreeRange_words length] in *.
  destruct (FindFreeRange_word_spec (Z.to_nat options) 0 count (index * 64) v S n acc)
    as (acc1 & E & Hacc1); [done|lia|lia|done|]. rewrite Z.mul_0_l, Z.shiftr_0_r in E. rewrite E.
  cbn [mbind option_bind]. rewrite Z2Nat.id in Hacc1 by lia.
  destruct (IH (index + 1) _ (n + options) acc1 ltac:(lia) Hacc1) as (acc2 & -> & Hacc2).
  exists acc2. split; [done|]. replace (n + options * Z.of_nat (Datatypes.S (length words)))
    with (n + options + options * Z.of_nat (length words)) by lia.
  eapply scan_inv_ext; [|exact Hacc2]. intros x. split.
  - intros [[?|(j & ? & -> & ?)]|(i & j & w & Hw & ? & -> & ?)]; [by left|right|right].
    + exists 0%nat, j, v. split_and!; [done|lia|lia|lia|done].
    + exists (Datatypes.S i), j, w. split_and!; [done|lia|lia|lia|done].
  - intros [?|([|i] & j & w & Hw & ? & -> & ?)]; [by do 2 left| |].
    + simpl in Hw. simplify_eq. left. right. exists j. split_and!; [lia|lia|lia|done].
    + right. exists i, j, w. split_and!; [done|lia|lia|lia|done].
Qed.

(** The aligned options [FindFreeRange] considers. *)
Definition option_offset (b : KPageBitmap) (count x : Z) : Prop :=
  ∃ i j, 0 ≤ i < Z.of_nat (length (deepest b)) ∧ 0 ≤ j < Z.max (64 / count) 1
         ∧ x = i * 64 + j * count.

Lemma option_fits count j : 0 < count < 64 → 0 ≤ j < Z.max (64 / count) 1 → 0 ≤ j * count ∧ j * count + count ≤ 64.
Proof.
  intros Hc Hj. assert (1 ≤ 64 / count) by (apply Z.div_le_lower_bound; lia).
  pose proof (Z.mul_div_le 64 count ltac:(lia)). split; nia.
Qed.

Lemma option_free_range b count i j :
  0 < count < 64 → 0 ≤ i → 0 ≤ j < Z.max (64 / count) 1 →
  option_free (word_at (deepest b) i) count j
  ↔ range_set (i * 64 + j * count) count ⊆ free_set b.
Proof.
  intros Hc Hi Hj. destruct (option_fits count j Hc Hj) as [Hj0 Hj64]. split.
  - intros Hf x [Hx1 Hx2]%elem_of_range_set. apply elem_of_bits_set. split; [lia|].
    unfold bit_at. assert (x / 64 = i) as -> by (symmetry; apply Z.div_unique with (x - 64 * i); lia).
    assert (x mod 64 = x - 64 * i) as -> by (symmetry; apply Z.mod_unique with i; lia).
    apply Hf. lia.
  - intros Hs k Hk. specialize (Hs (i * 64 + k)).
    rewrite elem_of_range_set in Hs. specialize (Hs ltac:(lia)).
    apply elem_of_bits_set in Hs as [_ Hb]. unfold bit_at in Hb.
    destruct (child_div_mod i k ltac:(lia)) as [E1 E2]. by rewrite E1, E2 in Hb.
Qed.

Lemma FindFreeRange_free_set b count :
  wf b → rng_ok (m_rng b) → 0 < count < 64 → capacity b < 2 ^ 24 →
  ∃ o b', FindFreeRange b count = Some (o, b') ∧ wf b' ∧ free_set b' = free_set b
    ∧ capacity b' = capacity b
    ∧ (o = -1 ∧ (∀ x, option_offset b count x → ¬ range_set x count ⊆ free_set b)
       ∨ option_offset b count o ∧ range_ok b o count ∧ range_set o count ⊆ free_set b).
Proof.
  intros Hwf Hg Hc Hcap. pose proof Hwf as [Hne Hsh _ _ _].
  assert (last (m_bit_storages b) = Some (deepest b)) as Hlast.
  { rewrite last_lookup. unfold deepest, m_used_depths in *.
    rewrite <-level_lookup by lia. f_equal. lia. }
  unfold FindFreeRange. rewrite Hlast. cbn [mbind option_bind].
  assert (0 < Z.of_nat (length (deepest b)) ∨ length (deepest b) = 0%nat) as [Hlen|Hlen] by lia; last first.
  { rewrite Hlen. simpl. exists (-1), b. split_and!; try done. left. split; [done|].
    intros x (i & j & Hi & _). lia. }
  rewrite (proj2 (Z.ltb_lt _ _)) by lia. rewrite (proj2 (Z.leb_le count 64)) by lia. cbn [negb andb].
  rewrite (check_bind_Some (negb _)) by (apply negb_true_iff, Z.eqb_neq; lia).
  unfold shl. rewrite check_bind_Some by (apply andb_true_iff; split; [apply Z.leb_le|apply Z.ltb_lt]; lia).
  cbn [mbind option_bind]. rewrite wrap_small by (apply shiftl_1_in_width; lia).
  assert (64 / count ≤ 64) by (apply Z.div_le_upper_bound; nia).
  destruct (FindFreeRange_words_spec (deepest b) 0 (Z.max (64 / count) 1) count (λ _, False) 0 (0, -1, m_rng b))
    as ([[nv ch] g] & -> & (_ & _ & Hnone & Hsome)); [done|lia| | |].
  { unfold capacity in Hcap. nia. }
  { split; [lia|]. split; [exact Hg|]. split; [naive_solver|done]. }
  cbn [mbind option_bind]. exists ch. eexists. split; [done|].
  split; [by destruct Hwf|]. split; [done|]. split; [done|].
  destruct (decide (nv = 0)) as [Hz|Hz]; [left|right].
  - destruct (Hnone Hz) as [? Hno]. split; [done|]. intros x (i & j & Hi & Hj & ->) Hs.
    apply (Hno (i * 64 + j * count)). right.
    exists (Z.to_nat i), j, (word_at (deepest b) i). split_and!; [by apply word_at_lookup|lia|lia|lia|].
    apply option_free_range; [lia|lia|lia|done].
  - destruct (Hsome Hz) as [[]|(i & j & v & Hv & Hj & -> & Hf)].
    pose proof (lookup_lt_Some _ _ _ Hv).
    assert (v = word_at (deepest b) (Z.of_nat i)) as -> by (unfold word_at; by rewrite Nat2Z.id, Hv).
    destruct (option_fits count j Hc Hj). rewrite Z.add_0_l.
    split; [exists (Z.of_nat i), j; split_and!; lia|]. split; [|apply option_free_range; [lia|lia|lia|done]].
    unfold range_ok, capacity. rewrite (proj2 (Z.ltb_lt _ _)) by lia.
    rewrite Z.add_comm. split_and!; [lia|lia|lia|].
    destruct (decide (j * count = 64)); [lia|].
    rewrite Z.mod_add, Z.mod_small by lia. lia.
Qed.

(** * The interface the page heap uses

    A bitmap is used only through these operations and laws; [KPageBitmap] is an instance. *)
Class FreeBitmap (B : Type) := {
  fb_Initialize : B → Z → option (B * Z);
  fb_FindFreeBlock : B → bool → option (Z * B);
  fb_SetBit : B → Z → option B;
  fb_ClearBit : B → Z → option B;
  fb_ClearRange : B → Z → Z → option (bool * B);
  fb_GetNumBits : B → Z;
  fb_wf : B → Prop;
  fb_set : B → gset Z;
  fb_capacity : B → Z;
  fb_set_range b o : fb_wf b → o ∈ fb_set b → 0 ≤ o < fb_capacity b;
  fb_GetNumBits_size b : fb_wf b → fb_GetNumBits b = Z.of_nat (size (fb_set b));
  fb_Initialize_spec b n : 1 ≤ n < 2 ^ 24 →
    ∃ b' words, fb_Initialize b n = Some (b', words) ∧ fb_wf b' ∧ fb_set b' = ∅
      ∧ n ≤ fb_capacity b' ∧ CalculateManagementOverheadSize n = Some (words * 8);
  fb_FindFreeBlock_spec b random : fb_wf b →
    ∃ o b', fb_FindFreeBlock b random = Some (o, b') ∧ fb_wf b' ∧ fb_set b' = fb_set b
      ∧ fb_capacity b' = fb_capacity b ∧ (o = -1 ∧ fb_set b = ∅ ∨ o ∈ fb_set b);
  fb_SetBit_spec b o : fb_wf b → 0 ≤ o < fb_capacity b → o ∉ fb_set b →
    ∃ b', fb_SetBit b o = Some b' ∧ fb_wf b' ∧ fb_set b' = {[o]} ∪ fb_set b
      ∧ fb_capacity b' = fb_capacity b;
  fb_ClearBit_spec b o : fb_wf b → o ∈ fb_set b →
    ∃ b', fb_ClearBit b o = Some b' ∧ fb_wf b' ∧ fb_set b' = fb_set b ∖ {[o]}
      ∧ fb_capacity b' = fb_capacity b;
  fb_ClearRange_spec b o n : fb_wf b → 0 ≤ o → 0 < n → o + n ≤ fb_capacity b →
    (if n <? 64 then o mod 64 + n ≤ 64 else o mod 64 = 0 ∧ n mod 64 = 0) →
    (range_set o n ⊆ fb_set b ∧ ∃ b', fb_ClearRange b o n = Some (true, b') ∧ fb_wf b'
       ∧ fb_set b' = fb_set b ∖ range_set o n ∧ fb_capacity b' = fb_capacity b)
    ∨ (¬ range_set o n ⊆ fb_set b ∧ fb_ClearRange b o n = Some (false, b))
}.

#[export] Program Instance KPageBitmap_FreeBitmap : FreeBitmap KPageBitmap := {|
  fb_Initialize := Initialize;
  fb_FindFreeBlock := FindFreeBlock;
  fb_SetBit := SetBit;
  fb_ClearBit := ClearBit;
  fb_ClearRange := ClearRange;
  fb_GetNumBits := GetNumBits;
  fb_wf := wf;
  fb_set := free_set;
  fb_capacity := capacity
|}.
Next Obligation. intros. by apply free_set_range. Qed.
Next Obligation. intros b H. apply H. Qed.
Next Obligation.
  intros b n Hn. destruct (Initialize_free_set b n Hn) as (b' & w & ? & ? & ? & ? & ?).
  exists b', w. split_and!; try done; lia.
Qed.
Next Obligation.
  intros b random Hb. destruct (FindFreeBlock_free_set b random Hb)
    as (o & b' & ? & ? & ? & ? & Ho). exists o, b'. naive_solver.
Qed.
Next Obligation. exact SetBit_free_set. Qed.
Next Obligation. exact ClearBit_free_set. Qed.
Next Obligation.
  intros b o n Hwf H1 H2 H3 H4. exact (ClearRange_free_set b o n Hwf (conj H1 (conj H2 (conj H3 H4)))).
Qed.

(** * Properties *)

(** A search in the multi-level bitmap never fails on a well-formed bitmap: it answers -1
    exactly when no bit is set, else the offset of a set bit, the smallest one when the search
    is not random; it changes nothing but the random generator. *)
Theorem FindFreeBlock_correct (b : KPageBitmap) (random : bool) :
  wf b →
  ∃ o b', FindFreeBlock b random = Some (o, b') ∧ wf b' ∧ free_set b' = free_set b
    ∧ capacity b' = capacity b ∧ GetNumBits b' = GetNumBits b
    ∧ (o = -1 ↔ free_set b = ∅)
    ∧ (o ≠ -1 → o ∈ free_set b ∧ (random = false → ∀ o', o' ∈ free_set b → o ≤ o')).
Proof.
  intros Hwf. destruct (FindFreeBlock_free_set b random Hwf) as (o & b' & E & Hwf' & Hs & Hc & Ho).
  exists o, b'. split_and!; try done.
  - unfold GetNumBits. by rewrite (wf_count b' Hwf'), (wf_count b Hwf), Hs.
  - destruct Ho as [[-> Ho]|[Ho _]]; [done|]. pose proof (free_set_range b o Ho). set_solver by lia.
  - destruct Ho as [[-> _]|Ho]; done.
Qed.

(** Setting a clear bit and clearing it again are total, keep the summary levels consistent
    with the deepest level, and give back the set of free blocks and the counter. *)
Theorem SetBit_ClearBit_roundtrip (b : KPageBitmap) (o : Z) :
  wf b → 0 ≤ o < capacity b → o ∉ free_set b →
  ∃ b1 b2, SetBit b o = Some b1 ∧ wf b1 ∧ free_set b1 = {[o]} ∪ free_set b
    ∧ GetNumBits b1 = GetNumBits b + 1
    ∧ ClearBit b1 o = Some b2 ∧ wf b2 ∧ free_set b2 = free_set b ∧ GetNumBits b2 = GetNumBits b.
Proof.
  intros Hwf Ho Hfree. destruct (SetBit_free_set b o Hwf Ho Hfree) as (b1 & E1 & Hwf1 & Hs1 & Hc1).
  destruct (ClearBit_free_set b1 o Hwf1) as (b2 & E2 & Hwf2 & Hs2 & Hc2); [set_solver|].
  assert (free_set b2 = free_set b) as Hs by (rewrite Hs2, Hs1; set_solver).
  exists b1, b2. unfold GetNumBits. rewrite (wf_count _ Hwf), (wf_count _ Hwf1), (wf_count _ Hwf2), Hs.
  split_and!; try done. rewrite Hs1, size_union, size_singleton by set_solver. lia.
Qed.

(** Clearing a range is all or nothing: it succeeds exactly when the whole range is free,
    then it removes exactly the range, and otherwise the bitmap is unchanged. *)
Theorem ClearRange_correct (b : KPageBitmap) (o count : Z) :
  wf b → range_ok b o count →
  ∃ r b', ClearRange b o count = Some (r, b') ∧ wf b'
    ∧ (r = true ↔ range_set o count ⊆ free_set b)
    ∧ free_set b' = (if r then free_set b ∖ range_set o count else free_set b)
    ∧ GetNumBits b' = GetNumBits b - (if r then count else 0).
Proof.
  intros Hwf Hr.
  destruct (ClearRange_free_set b o count Hwf Hr) as [(Hin & b' & E & Hwf' & Hs & _)|[Hn E]].
  - exists true, b'. split_and!; try done. unfold GetNumBits.
    rewrite (wf_count _ Hwf), (wf_count _ Hwf'), Hs, size_difference by done.
    pose proof (size_range_set o count ltac:(destruct Hr; lia)). apply subseteq_size in Hin. lia.
  - exists false, b. split_and!; try done. lia.
Qed.

(** The search for a run of free bits (fewer than a word) terminates; it answers a run of
    set bits inside one word, and -1 only when no run at a candidate position is free. *)
Theorem FindFreeRange_correct (b : KPageBitmap) (count : Z) :
  wf b → rng_ok (m_rng b) → 0 < count < 64 → capacity b < 2 ^ 24 →
  ∃ o b', FindFreeRange b count = Some (o, b') ∧ wf b' ∧ free_set b' = free_set b
    ∧ (o = -1 → ∀ x, option_offset b count x → ¬ range_set x count ⊆ free_set b)
    ∧ (o ≠ -1 → range_ok b o count ∧ range_set o count ⊆ free_set b).
Proof.
  intros Hwf Hg Hc Hcap.
  destruct (FindFreeRange_free_set b count Hwf Hg Hc Hcap) as (o & b' & E & Hwf' & Hs & _ & Ho).
  exists o, b'. split_and!; try done.
  - destruct Ho as [[_ Ho]|(_ & [? _] & _)]; [done|lia].
  - destruct Ho as [[-> _]|(_ & ? & ?)]; done.
Qed.

(** The depth computed for a region lets the root be a single word; initialisation takes
    exactly the number of words the overhead computation reserves, and yields an empty
    well-formed bitmap that covers the region. *)
Theorem Initialize_correct (b : KPageBitmap) (size : Z) :
  1 ≤ size < 2 ^ 24 →
  ∃ b' words, Initialize b size = Some (b', words) ∧ wf b' ∧ free_set b' = ∅
    ∧ size ≤ capacity b' < size + 64
    ∧ CalculateManagementOverheadSize size = Some (words * 8).
Proof. apply Initialize_free_set. Qed.

(** [GenerateRandomBits] is undefined for 32 bits from a full entropy word: the shift
    [m_entropy >>= cur_bits] then has the width of the word as its amount. Every smaller
    request is served, so [GenerateRandom] is defined below [2 ^ 30]. *)
Theorem GenerateRandomBits_full_word (g : RandomBitGenerator) :
  m_bits_available g = 0 →
  GenerateRandomBits 32 g = None
  ∧ ∀ n, 0 ≤ n < 32 → ∃ r g', GenerateRandomBits n g = Some (r, g') ∧ rng_ok g'.
Proof.
  intros Hz. split.
  - unfold GenerateRandomBits. generalize (Z.to_nat 32) as fuel. intros fuel.
    cbn [GenerateRandomBits_loop]. rewrite Hz. cbn [Z.eqb Z.leb Z.compare].
    unfold RefreshEntropy. by destruct (TinyMT.GenerateRandomU32 _).
  - intros n Hn. apply GenerateRandomBits_loop_spec; [done|lia|unfold rng_ok; lia].
Qed.

(** ** Witnesses *)
Definition example_rng : RandomBitGenerator := RandomBitGenerator_new 7.
Definition no_bitmap : KPageBitmap := MkBitmap [] example_rng 0.

Lemma example_rng_ok : rng_ok example_rng.
Proof. vm_compute. split; congruence. Qed.

(** Bit 70 of a region of 5000 blocks, in a bitmap of three levels. *)
Lemma example_bitmap :
  ∃ b, wf b ∧ free_set b = {[70]} ∧ capacity b = 5056 ∧ m_rng b = example_rng.
Proof.
  destruct (Initialize_free_set no_bitmap 5000 ltac:(lia)) as (b0 & w & E & Hwf & Hs & Hc & _).
  assert (capacity b0 = 5056 ∧ m_rng b0 = example_rng) as [Hcap Hrng].
  { assert ((λ x, (capacity (fst x), m_rng (fst x))) <$> Initialize no_bitmap 5000
            = Some (5056, example_rng)) as H by (vm_compute; reflexivity).
    rewrite E in H. cbn [fmap option_fmap option_map fst] in H. by injection H. }
  destruct (SetBit_free_set b0 70 Hwf) as (b1 & E1 & Hwf1 & Hs1 & Hc1); [lia|rewrite Hs; set_solver|].
  exists b1. split_and!; [done|rewrite Hs1, Hs; set_solver|congruence|].
  unfold SetBit in E1. destruct (SetBit_loop _ _ _); [|done]. simpl in E1. injection E1 as <-. done.
Qed.

Lemma FindFreeBlock_correct_witness :
  ∃ b o b', FindFreeBlock b false = Some (o, b') ∧ o ≠ -1.
Proof.
  destruct example_bitmap as (b & Hwf & Hs & _).
  destruct (FindFreeBlock_correct b false Hwf) as (o & b' & E & _ & _ & _ & _ & Ho & _).
  exists b, o, b'. split; [exact E|]. rewrite Ho, Hs. apply non_empty_singleton_L.
Defined.

Lemma SetBit_ClearBit_roundtrip_witness :
  ∃ b b1 b2, SetBit b 71 = Some b1 ∧ ClearBit b1 71 = Some b2 ∧ free_set b2 = {[70]}.
Proof.
  destruct example_bitmap as (b & Hwf & Hs & Hc & _).
  destruct (SetBit_ClearBit_roundtrip b 71 Hwf) as (b1 & b2 & E1 & _ & _ & _ & E2 & _ & E3 & _);
    [lia|rewrite Hs; set_solver|].
  exists b, b1, b2. split_and!; congruence.
Defined.

Lemma ClearRange_correct_witness :
  ∃ b b', ClearRange b 70 2 = Some (false, b') ∧ free_set b' = {[70]}.
Proof.
  destruct example_bitmap as (b & Hwf & Hs & Hc & _).
  destruct (ClearRange_correct b 70 2 Hwf) as (r & b' & E & _ & Hr & Hs' & _).
  { unfold range_ok. rewrite Hc. vm_compute. split_and!; congruence. }
  exists b, b'. destruct r.
  - exfalso. assert (71 ∈ free_set b) as H by (apply Hr; [done|by apply elem_of_range_set]).
    rewrite Hs in H. set_solver.
  - split; congruence.
Defined.

Lemma FindFreeRange_correct_witness :
  ∃ b o b', free_set b = {[70]} ∧ FindFreeRange b 3 = Some (o, b') ∧ free_set b' = free_set b.
Proof.
  destruct example_bitmap as (b & Hwf & Hs & Hc & Hr).
  destruct (FindFreeRange_correct b 3 Hwf) as (o & b' & E & _ & Hs' & _);
    [rewrite Hr; apply example_rng_ok|lia|lia|].
  exists b, o, b'. done.
Defined.

Lemma Initialize_correct_witness : ∃ b' w, Initialize no_bitmap 5000 = Some (b', w) ∧ wf b'.
Proof.
  destruct (Initialize_correct no_bitmap 5000) as (b' & w & E & H & _); [lia|]. exists b', w. done.
Defined.

Lemma GenerateRandomBits_full_word_witness : GenerateRandomBits 32 example_rng = None.
Proof. apply (GenerateRandomBits_full_word example_rng). reflexivity. Defined.
