(* ===== verification/PageHeap.v ===== *)
(** [KPageHeap] (src/src/core/hle/kernel/k_page_heap.h, k_page_heap.cpp): the buddy-style
    allocator of physical pages over one bitmap per block size, and the proof that it
    implements a set of free pages. *)
From S2P Require Import Prelude Common PageBitmap.

Definition NumMemoryBlockPageShifts : Z := 7.
Definition MemoryBlockPageShifts : list Z := [0xC; 0x10; 0x15; 0x16; 0x19; 0x1D; 0x1E].

(** The loop of [GetAlignedBlockIndex], over the shifts from index [i] on. *)
Fixpoint GetAlignedBlockIndex_loop (shifts : list Z) (i target_pages : Z) : Z :=
  match shifts with
  | [] => -1
  | s :: shifts =>
      if target_pages <=? Z.shiftl 1 s / PageSize then i
      else GetAlignedBlockIndex_loop shifts (i + 1) target_pages
  end.
Definition GetAlignedBlockIndex (num_pages align_pages : Z) : Z :=
  GetAlignedBlockIndex_loop MemoryBlockPageShifts 0 (Z.max num_pages align_pages).

(** [GetBlockIndex] runs from the largest index down: the list is reversed. *)
Fixpoint GetBlockIndex_loop (shifts : list Z) (i num_pages : Z) : Z :=
  match shifts with
  | [] => -1
  | s :: shifts =>
      if Z.shiftl 1 s / PageSize <=? num_pages then i
      else GetBlockIndex_loop shifts (i - 1) num_pages
  end.
Definition GetBlockIndex (num_pages : Z) : Z :=
  GetBlockIndex_loop (rev MemoryBlockPageShifts) (NumMemoryBlockPageShifts - 1) num_pages.

Definition GetBlockSize (index : Z) : option Z :=
  s ← MemoryBlockPageShifts !! Z.to_nat index; Some (Z.shiftl 1 s).
Definition GetBlockNumPages (index : Z) : option Z :=
  s ← GetBlockSize index; Some (s / PageSize).

Section PageHeap.
Context {B : Type} `{FB : FreeBitmap B}.

(** * [KPageHeap::Block] *)
Record Block := MkBlock {
  m_bitmap : B;
  blk_heap_address : Z;
  m_end_offset : Z;
  m_block_shift : Z;
  m_next_block_shift : Z
}.

Definition set_bitmap (k : Block) (b : B) : Block :=
  MkBlock b (blk_heap_address k) (m_end_offset k) (m_block_shift k) (m_next_block_shift k).

Definition blk_GetSize (k : Block) : Z := Z.shiftl 1 (m_block_shift k).
Definition blk_GetNumPages (k : Block) : Z := blk_GetSize k / PageSize.
Definition blk_GetNumFreeBlocks (k : Block) : Z := fb_GetNumBits (m_bitmap k).
Definition blk_GetNumFreePages (k : Block) : Z :=
  u64 (blk_GetNumFreeBlocks k * blk_GetNumPages k).

(** The second component counts the words the bitmap took from the storage. *)
Definition blk_Initialize (b : B) (addr size bs nbs : Z) : option (Block * Z) :=
  let end_ := u64 (addr + size) in
  let align := if negb (nbs =? 0) then Z.shiftl 1 nbs else Z.shiftl 1 bs in
  let addr := AlignDown addr align in
  let end_ := AlignUp end_ align in
  let end_offset := u64 (end_ - addr) / Z.shiftl 1 bs in
  '(b, words) ← fb_Initialize b end_offset;
  Some (MkBlock b addr end_offset bs nbs, words).

(** The returned address is 0 when no larger block was completed. *)
Definition PushBlock (k : Block) (address : Z) : option (Z * Block) :=
  let offset := Z.shiftr (u64 (address - blk_heap_address k)) (m_block_shift k) in
  bm ← fb_SetBit (m_bitmap k) offset;
  if negb (m_next_block_shift k =? 0) then
    let diff := Z.shiftl 1 (m_next_block_shift k - m_block_shift k) in
    let offset := AlignDown offset diff in
    r ← fb_ClearRange bm offset diff;
    let (cleared, bm) := (r : bool * B) in
    Some (if cleared then u64 (blk_heap_address k + Z.shiftl offset (m_block_shift k)) else 0,
          set_bitmap k bm)
  else Some (0, set_bitmap k bm).

Definition PopBlock (k : Block) (random : bool) : option (Z * Block) :=
  '(soffset, bm) ← fb_FindFreeBlock (m_bitmap k) random;
  if soffset <? 0 then Some (0, set_bitmap k bm)
  else
    bm ← fb_ClearBit bm soffset;
    Some (u64 (blk_heap_address k + Z.shiftl soffset (m_block_shift k)), set_bitmap k bm).

(** * [KPageHeap] *)
Record KPageHeap := MkHeap {
  m_heap_address : Z;
  m_heap_size : Z;
  m_initial_used_size : Z;
  m_blocks : list Block;
  m_heap_rng : RandomBitGenerator;
  m_management_words : Z
}.

Definition m_num_blocks (h : KPageHeap) : Z := Z.of_nat (length (m_blocks h)).
Definition set_blocks (h : KPageHeap) (bs : list Block) : KPageHeap :=
  MkHeap (m_heap_address h) (m_heap_size h) (m_initial_used_size h) bs (m_heap_rng h)
    (m_management_words h).
Definition set_rng (h : KPageHeap) (g : RandomBitGenerator) : KPageHeap :=
  MkHeap (m_heap_address h) (m_heap_size h) (m_initial_used_size h) (m_blocks h) g
    (m_management_words h).

(** Indexing [m_blocks] with an [s32]. *)
Definition get_block (h : KPageHeap) (index : Z) : option Block :=
  check (0 <=? index);; m_blocks h !! Z.to_nat index.
Definition put_block (h : KPageHeap) (index : Z) (k : Block) : KPageHeap :=
  set_blocks h (<[Z.to_nat index := k]> (m_blocks h)).

Definition GetAddress (h : KPageHeap) : Z := m_heap_address h.
Definition GetSize (h : KPageHeap) : Z := m_heap_size h.
Definition GetEndAddress (h : KPageHeap) : Z := u64 (GetAddress h + GetSize h).
Definition GetPageOffset (h : KPageHeap) (block : Z) : Z := u64 (block - GetAddress h) / PageSize.
Definition GetPageOffsetToEnd (h : KPageHeap) (block : Z) : Z :=
  u64 (GetEndAddress h - block) / PageSize.

Definition GetNumFreePages (h : KPageHeap) : Z :=
  foldl (λ num_free k, u64 (num_free + blk_GetNumFreePages k)) 0 (m_blocks h).
Definition GetFreeSize (h : KPageHeap) : Z := u64 (GetNumFreePages h * PageSize).

Definition SetInitialUsedSize (h : KPageHeap) (reserved_size : Z) : option KPageHeap :=
  let free_size := u64 (GetNumFreePages h * PageSize) in
  check (u64 (free_size + reserved_size) <=? m_heap_size h);;
  Some (MkHeap (m_heap_address h) (m_heap_size h) (u64 (m_heap_size h - free_size - reserved_size))
          (m_blocks h) (m_heap_rng h) (m_management_words h)).

(** The loop of [Initialize]: [blocks] are the (not yet initialised) entries of [m_blocks]. *)
Fixpoint Initialize_blocks (bms : list B) (shifts : list Z) (addr size words : Z)
    : option (list Block * Z) :=
  match shifts, bms with
  | [], _ => Some ([], words)
  | bs :: shifts, bm :: bms =>
      let nbs := match shifts with [] => 0 | nbs :: _ => nbs end in
      '(k, w) ← blk_Initialize bm addr size bs nbs;
      '(ks, words) ← Initialize_blocks bms shifts addr size (words + w);
      Some (k :: ks, words)
  | _ :: _, [] => None
  end.

(** [host_base] is the address of [m_management_data.data()]: the last assertion compares the
    host pointer into it with the end of the guest management region. *)
Definition Initialize (h : KPageHeap) (bms : list B) (host_base : Z)
    (address size management_address management_size : Z) (block_shifts : list Z)
    : option KPageHeap :=
  check (IsAligned address PageSize);;
  check (IsAligned size PageSize);;
  check ((0 <? Z.of_nat (length block_shifts))
         && (Z.of_nat (length block_shifts) <=? NumMemoryBlockPageShifts));;
  let management_end := u64 (management_address + management_size) in
  '(ks, words) ← Initialize_blocks bms block_shifts address size 0;
  check (u64 (host_base + 8 * words) <=? management_end);;
  Some (MkHeap address size (m_initial_used_size h) ks (m_heap_rng h) (management_size / 8)).

(** [FreeBlock]: [m_blocks[index++].PushBlock(block)] until it returns 0; the index grows, so the
    number of levels bounds the iterations. *)
Fixpoint FreeBlock_loop (fuel : nat) (h : KPageHeap) (block index : Z) : option KPageHeap :=
  match fuel with
  | O => None
  | S fuel =>
      k ← get_block h index;
      '(block, k) ← PushBlock k block;
      let h := put_block h index k in
      if negb (block =? 0) then FreeBlock_loop fuel h block (index + 1) else Some h
  end.
Definition FreeBlock (h : KPageHeap) (block index : Z) : option KPageHeap :=
  FreeBlock_loop (S (length (m_blocks h))) h block index.

(** [Free]: the search for the largest block size; [n] is [big_index + 1]. The result is
    (big_index, big_start, big_end), with [big_index = -1] when no size fits. *)
Fixpoint Free_find (n : nat) (h : KPageHeap) (start end_ : Z) : option (Z * Z * Z) :=
  match n with
  | O => Some (-1, start, end_)
  | S i =>
      k ← m_blocks h !! i;
      let block_size := blk_GetSize k in
      let big_start := AlignUp start block_size in
      let big_end := AlignDown end_ block_size in
      if big_start <? big_end then Some (Z.of_nat i, big_start, big_end) else Free_find i h start end_
  end.

(** [for (block = big_start; block < big_end; block += block_size) FreeBlock(block, index)]. *)
Fixpoint Free_big (fuel : nat) (h : KPageHeap) (block big_end block_size index : Z)
    : option KPageHeap :=
  match fuel with
  | O => None
  | S fuel =>
      if block <? big_end then
        h ← FreeBlock h block index;
        Free_big fuel h (u64 (block + block_size)) big_end block_size index
      else Some h
  end.

(** [while (before_start + block_size <= before_end)]. *)
Fixpoint Free_before_level (fuel : nat) (h : KPageHeap) (before_start before_end block_size index : Z)
    : option (KPageHeap * Z) :=
  match fuel with
  | O => None
  | S fuel =>
      if u64 (before_start + block_size) <=? before_end then
        let before_end := u64 (before_end - block_size) in
        h ← FreeBlock h before_end index;
        Free_before_level fuel h before_start before_end block_size index
      else Some (h, before_end)
  end.
Fixpoint Free_before (n : nat) (h : KPageHeap) (before_start before_end : Z) : option KPageHeap :=
  match n with
  | O => Some h
  | S i =>
      k ← m_blocks h !! i;
      let block_size := blk_GetSize k in
      '(h, before_end) ← Free_before_level (S (Z.to_nat ((before_end - before_start) / block_size)))
                           h before_start before_end block_size (Z.of_nat i);
      Free_before i h before_start before_end
  end.

Fixpoint Free_after_level (fuel : nat) (h : KPageHeap) (after_start after_end block_size index : Z)
    : option (KPageHeap * Z) :=
  match fuel with
  | O => None
  | S fuel =>
      if u64 (after_start + block_size) <=? after_end then
        h ← FreeBlock h after_start index;
        Free_after_level fuel h (u64 (after_start + block_size)) after_end block_size index
      else Some (h, after_start)
  end.
Fixpoint Free_after (n : nat) (h : KPageHeap) (after_start after_end : Z) : option KPageHeap :=
  match n with
  | O => Some h
  | S i =>
      k ← m_blocks h !! i;
      let block_size := blk_GetSize k in
      '(h, after_start) ← Free_after_level (S (Z.to_nat ((after_end - after_start) / block_size)))
                           h after_start after_end block_size (Z.of_nat i);
      Free_after i h after_start after_end
  end.

Definition Free (h : KPageHeap) (addr num_pages : Z) : option KPageHeap :=
  if num_pages =? 0 then Some h
  else
    let start := addr in
    let end_ := u64 (addr + num_pages * PageSize) in
    '(big_index, big_start, big_end) ← Free_find (length (m_blocks h)) h start end_;
    check (0 <=? big_index);;
    k ← get_block h big_index;
    let block_size := blk_GetSize k in
    h ← Free_big (S (Z.to_nat ((big_end - big_start) / block_size))) h big_start big_end
          block_size big_index;
    h ← Free_before (Z.to_nat big_index) h start big_start;
    Free_after (Z.to_nat big_index) h big_end end_.

(** [AllocateByLinearSearch]; [n] levels remain from index [i] on. *)
Fixpoint AllocateByLinearSearch_loop (n : nat) (h : KPageHeap) (i needed_size : Z)
    : option (Z * KPageHeap) :=
  match n with
  | O => Some (0, h)
  | S n =>
      k ← get_block h i;
      '(addr, k) ← PopBlock k false;
      let h := put_block h i k in
      if negb (addr =? 0) then
        let allocated_size := blk_GetSize k in
        if needed_size <? allocated_size then
          h ← Free h (u64 (addr + needed_size)) ((allocated_size - needed_size) / PageSize);
          Some (addr, h)
        else Some (addr, h)
      else AllocateByLinearSearch_loop n h (i + 1) needed_size
  end.
Definition AllocateByLinearSearch (h : KPageHeap) (index : Z) : option (Z * KPageHeap) :=
  k ← get_block h index;
  AllocateByLinearSearch_loop (Z.to_nat (m_num_blocks h - index)) h index (blk_GetSize k).

(** The possible alignments a level offers. *)
Definition level_alignments (k : Block) (needed_size align_shift : Z) : Z :=
  u64 (u64 (1 + Z.shiftr (u64 (blk_GetSize k - needed_size)) align_shift) * blk_GetNumFreeBlocks k).

Definition MinimumPossibleAlignmentsForRandomAllocation : Z := 4.

(** First loop: (possible_alignments, max_blocks). *)
Fixpoint Random_count (n : nat) (h : KPageHeap) (i possible needed_size align_shift : Z)
    : option (Z * Z) :=
  match n with
  | O => Some (possible, m_num_blocks h)
  | S n =>
      k ← get_block h i;
      let possible := u64 (possible + level_alignments k needed_size align_shift) in
      if MinimumPossibleAlignmentsForRandomAllocation <=? possible then Some (possible, i + 1)
      else Random_count n h (i + 1) possible needed_size align_shift
  end.

(** Second loop: the level the random alignment falls in, [index] if none does. *)
Fixpoint Random_select (n : nat) (h : KPageHeap) (i index possible rnd needed_size align_shift : Z)
    : option Z :=
  match n with
  | O => Some index
  | S n =>
      k ← get_block h i;
      let possible := u64 (possible + level_alignments k needed_size align_shift) in
      if rnd <? possible then Some i
      else Random_select n h (i + 1) index possible rnd needed_size align_shift
  end.

Definition Random_index (h : KPageHeap) (index needed_size align_shift : Z)
    : option (Z * KPageHeap) :=
  '(possible, max_blocks) ←
    Random_count (Z.to_nat (m_num_blocks h - index)) h index 0 needed_size align_shift;
  if (0 <? possible) && (index + 1 <? max_blocks) then
    '(rnd, g) ← GenerateRandom possible (m_heap_rng h);
    let h := set_rng h g in
    index ← Random_select (Z.to_nat (max_blocks - index)) h index index 0 rnd needed_size align_shift;
    Some (index, h)
  else Some (index, h).

(** The check is the C++ rule for the shifts by [align_shift] (no alignment given). *)
Definition AllocateByRandom (h : KPageHeap) (index num_pages align_pages : Z)
    : option (Z * KPageHeap) :=
  let needed_size := u64 (num_pages * PageSize) in
  let align_size := u64 (align_pages * PageSize) in
  let align_shift := countr_zero 64 align_size in
  check (align_shift <? 64);;
  '(index, h) ← Random_index h index needed_size align_shift;
  k ← get_block h index;
  '(addr, k) ← PopBlock k true;
  let h := put_block h index k in
  if negb (addr =? 0) then
    let leftover_size := u64 (blk_GetSize k - needed_size) in
    if 0 <? leftover_size then
      let possible_alignments := u64 (1 + Z.shiftr leftover_size align_shift) in
      '(rnd, g) ← GenerateRandom possible_alignments (m_heap_rng h);
      let h := set_rng h g in
      let random_offset := u64 (Z.shiftl rnd align_shift) in
      h ← (if negb (random_offset =? 0) then Free h addr (random_offset / PageSize) else Some h);
      let addr := u64 (addr + random_offset) in
      h ← (if negb (random_offset =? leftover_size)
           then Free h (u64 (addr + needed_size)) (u64 (leftover_size - random_offset) / PageSize)
           else Some h);
      Some (addr, h)
    else Some (addr, h)
  else Some (0, h).

Definition AllocateBlock (h : KPageHeap) (index : Z) (random : bool) : option (Z * KPageHeap) :=
  if random then
    k ← get_block h index;
    let block_pages := blk_GetNumPages k in
    AllocateByRandom h index block_pages block_pages
  else AllocateByLinearSearch h index.

Definition AllocateAligned (h : KPageHeap) (index num_pages align_pages : Z)
    : option (Z * KPageHeap) :=
  AllocateByRandom h index num_pages align_pages.

(** * Size of the management data *)
Definition Block_CalculateManagementOverheadSize (region_size cur_block_shift next_block_shift : Z)
    : option Z :=
  let cur_block_size := Z.shiftl 1 cur_block_shift in
  let next_block_size := Z.shiftl 1 next_block_shift in
  let align := if negb (next_block_shift =? 0) then next_block_size else cur_block_size in
  CalculateManagementOverheadSize (u64 (u64 (align * 2) + AlignUp region_size align) / cur_block_size).

(** The loop over [block_shifts]. *)
Fixpoint KPageHeap_CalculateManagementOverheadSize_loop (region_size : Z) (shifts : list Z)
    (overhead_size : Z) : option Z :=
  match shifts with
  | [] => Some overhead_size
  | cur :: shifts =>
      let next := match shifts with [] => 0 | next :: _ => next end in
      s ← Block_CalculateManagementOverheadSize region_size cur next;
      KPageHeap_CalculateManagementOverheadSize_loop region_size shifts (u64 (overhead_size + s))
  end.
Definition KPageHeap_CalculateManagementOverheadSize (region_size : Z) (shifts : list Z) : option Z :=
  overhead_size ← KPageHeap_CalculateManagementOverheadSize_loop region_size shifts 0;
  Some (AlignUp overhead_size PageSize).

(** * Layouts: the static part of a heap *)
Record Layout := MkLayout { l_addr : Z; l_end : Z; l_shift : Z; l_next : Z }.

Definition layout (k : Block) : Layout :=
  MkLayout (blk_heap_address k) (m_end_offset k) (m_block_shift k) (m_next_block_shift k).

(** Size of a block of the level, and the end of the level's region. *)
Definition l_size (l : Layout) : Z := 2 ^ l_shift l.
Definition l_last (l : Layout) : Z := l_addr l + l_end l * l_size l.
Definition l_align (l : Layout) : Z := 2 ^ (if l_next l =? 0 then l_shift l else l_next l).

Record layout_ok (l : Layout) : Prop := {
  lo_shift : 12 ≤ l_shift l ≤ 40;
  lo_next : l_next l = 0 ∨ l_shift l < l_next l ≤ 40;
  lo_addr : 0 < l_addr l ∧ l_addr l mod l_align l = 0;
  lo_last : 0 ≤ l_end l ∧ l_last l ≤ 2 ^ 62 ∧ l_last l mod l_align l = 0
}.

Record layouts_ok (ls : list Layout) : Prop := {
  los_first l : ls !! 0%nat = Some l → l_shift l = 12;
  los_nonempty : (0 < length ls ≤ 7)%nat;
  los_ok i l : ls !! i = Some l → layout_ok l;
  los_step i l l' : ls !! i = Some l → ls !! S i = Some l' →
    l_next l = l_shift l' ∧ l_addr l' ≤ l_addr l ∧ l_last l ≤ l_last l';
  los_last i l : ls !! i = Some l → S i = length ls → l_next l = 0
}.

Lemma l_size_pos l : layout_ok l → 4096 ≤ l_size l ≤ 2 ^ 40.
Proof.
  intros [H _ _ _]. unfold l_size. split; [change 4096 with (2 ^ 12)|]; apply Z.pow_le_mono_r; lia.
Qed.

Lemma l_align_size l x : layout_ok l → x mod l_align l = 0 → x mod l_size l = 0.
Proof.
  intros [Hs Hn _ _]. unfold l_align, l_size. case Z.eqb_spec; intros; [done|].
  apply (pow2_mod_le _ _ (l_next l)); [lia|done].
Qed.

(** * Pages *)
Definition page_in (addr size p : Z) : Prop := addr ≤ p * PageSize < addr + size.

(** The block offset of page [p], and whether that block is free. *)
Definition page_offset (k : Block) (p : Z) : Z :=
  (p * PageSize - blk_heap_address k) / l_size (layout k).
Definition blk_page (k : Block) (p : Z) : Prop := page_offset k p ∈ fb_set (m_bitmap k).

#[export] Instance page_in_dec addr size p : Decision (page_in addr size p).
Proof. unfold page_in. apply _. Defined.
#[export] Instance blk_page_dec k p : Decision (blk_page k p).
Proof. unfold blk_page. apply _. Defined.

Record blk_ok (k : Block) : Prop := {
  bo_layout : layout_ok (layout k);
  bo_wf : fb_wf (m_bitmap k);
  bo_set o : o ∈ fb_set (m_bitmap k) → 0 ≤ o < m_end_offset k;
  bo_capacity : m_end_offset k ≤ fb_capacity (m_bitmap k)
}.

(** A block address of the level. *)
Record in_blk (l : Layout) (b : Z) : Prop := {
  ib_align : b mod l_size l = 0;
  ib_range : l_addr l ≤ b ∧ b + l_size l ≤ l_last l
}.

(** Pages counted by a level. *)
Definition blk_count (k : Block) : Z :=
  Z.of_nat (size (fb_set (m_bitmap k))) * 2 ^ (m_block_shift k - 12).

Definition offset_of (k : Block) (b : Z) : Z := (b - blk_heap_address k) / l_size (layout k).

Lemma blk_addr_aligned k : blk_ok k → blk_heap_address k mod l_size (layout k) = 0.
Proof. intros [Hl _ _ _]. apply l_align_size; [done|]. apply Hl. Qed.

Lemma offset_of_spec k b :
  blk_ok k → in_blk (layout k) b →
  0 ≤ offset_of k b < m_end_offset k
  ∧ b = blk_heap_address k + offset_of k b * l_size (layout k)
  ∧ ∀ p, page_offset k p = offset_of k b ↔ page_in b (l_size (layout k)) p.
Proof.
  intros Hk [Ha [Hr1 Hr2]]. pose proof (blk_addr_aligned k Hk) as Hka.
  pose proof (l_size_pos _ (bo_layout _ Hk)) as Hs.
  assert (b - blk_heap_address k = offset_of k b * l_size (layout k)) as E.
  { apply mod_0_mul; [lia|]. apply mod_0_sub; [lia|done..]. }
  unfold l_last in Hr2. simpl in *. split_and!; [nia|nia|nia|].
  intros p. unfold page_offset, page_in. rewrite div_iff by lia. lia.
Qed.

Lemma blk_page_in_blk k b p :
  blk_ok k → in_blk (layout k) b → page_in b (l_size (layout k)) p →
  blk_page k p ↔ offset_of k b ∈ fb_set (m_bitmap k).
Proof.
  intros Hk Hb Hp. destruct (offset_of_spec k b Hk Hb) as (_ & _ & Hiff).
  unfold blk_page. by rewrite (proj2 (Hiff p) Hp).
Qed.

(** The first page of a block. *)
Lemma first_page l b : layout_ok l → in_blk l b → page_in b (l_size l) (b / PageSize).
Proof.
  intros Hl [Ha _]. pose proof (l_size_pos l Hl).
  assert (b mod 2 ^ 12 = 0) as H0 by (eapply pow2_mod_le; [|exact Ha]; pose proof (lo_shift l Hl); lia).
  unfold page_in. change PageSize with (2 ^ 12). rewrite <-mod_0_mul by (try done; lia). lia.
Qed.

(** The pages of [k] after its bitmap became [bm]. *)
Lemma blk_page_set k bm p :
  blk_page (set_bitmap k bm) p ↔ page_offset k p ∈ fb_set bm.
Proof. done. Qed.

Lemma blk_ok_set k bm :
  blk_ok k → fb_wf bm → fb_capacity bm = fb_capacity (m_bitmap k) →
  (∀ o, o ∈ fb_set bm → 0 ≤ o < m_end_offset k) → blk_ok (set_bitmap k bm).
Proof. intros [Hl Hw Hs Hc] Hwf Hcap Hset. split; simpl; [done..|lia]. Qed.

Lemma PushBlock_offset k b :
  blk_ok k → in_blk (layout k) b →
  Z.shiftr (u64 (b - blk_heap_address k)) (m_block_shift k) = offset_of k b.
Proof.
  intros Hk Hb. pose proof (bo_layout _ Hk) as [Hs _ Ha Hla].
  destruct Hb as [_ [Hb1 Hb2]]. pose proof (l_size_pos _ (bo_layout _ Hk)).
  rewrite wrap_small by (unfold in_width; simpl in *; lia).
  rewrite Z.shiftr_div_pow2 by (simpl in *; lia). done.
Qed.

(** The aligned group of blocks around block offset [o]. *)
Lemma group_spec k o :
  blk_ok k → m_next_block_shift k ≠ 0 → 0 ≤ o < m_end_offset k →
  let diff := 2 ^ (m_next_block_shift k - m_block_shift k) in
  let g := AlignDown o diff in
  0 < diff ∧ g mod diff = 0 ∧ 0 ≤ g ≤ o ∧ o < g + diff ∧ g + diff ≤ m_end_offset k
  ∧ (if diff <? 64 then g mod 64 + diff ≤ 64 else g mod 64 = 0 ∧ diff mod 64 = 0).
Proof.
  intros Hk Hn Ho diff g. destruct (bo_layout _ Hk) as [Hs Hnx [Ha0 Ha] [He [Hl Hlm]]].
  pose proof (l_size_pos _ (bo_layout _ Hk)) as Hsz. unfold l_last in Hl.
  simpl in Hs, Hnx, Ha0, He, Hl. destruct Hnx as [?|Hnx]; [done|].
  assert (0 < diff) as Hd by (apply pow2_pos; lia).
  destruct (AlignDown_mult o diff) as [Hg1 Hg2]; [unfold in_width; nia|lia|]. fold g in Hg1, Hg2.
  assert (0 ≤ g) by (subst g; unfold AlignDown; apply Z.mod_pos_bound; lia).
  assert (m_end_offset k mod diff = 0) as Hend.
  { unfold l_align, l_last in Ha, Hlm. simpl in Ha, Hlm. rewrite (proj2 (Z.eqb_neq _ _) Hn) in *.
    pose proof (mod_0_sub _ _ (2 ^ m_next_block_shift k) ltac:(lia) Hlm Ha) as Hm.
    replace (blk_heap_address k + m_end_offset k * l_size (layout k) - blk_heap_address k)
      with (m_end_offset k * l_size (layout k)) in Hm by lia.
    rewrite (pow2_split (m_block_shift k) (m_next_block_shift k)) in Hm by lia.
    unfold l_size in Hm. simpl in Hm. rewrite Z.mul_mod_distr_r in Hm by lia.
    fold diff in Hm. assert (0 < 2 ^ m_block_shift k) by (apply pow2_pos; lia). nia. }
  split_and!; try lia.
  - apply mod_0_lt; [done..|lia].
  - case Z.ltb_spec; intros Hlt.
    + assert (∃ c, 0 ≤ c ∧ 64 = diff * 2 ^ c) as (c & Hc & E).
      { exists (6 - (m_next_block_shift k - m_block_shift k)).
        assert (m_next_block_shift k - m_block_shift k < 6).
        { apply (Z.pow_lt_mono_r_iff 2); [lia|lia|]. exact Hlt. }
        split; [lia|]. unfold diff. rewrite <-Z.pow_add_r by lia.
        replace (_ + _) with 6 by lia. done. }
      pose proof (Z.mod_pos_bound g 64 ltac:(lia)).
      assert ((g mod 64) mod diff = 0) as Hgm.
      { rewrite Z.mod_mod_divide; [done|]. exists (2 ^ c). lia. }
      apply mod_0_lt; [done|done| |lia]. rewrite E, Z.mul_comm. by apply mul_mod_0.
    + assert (6 ≤ m_next_block_shift k - m_block_shift k).
      { apply (Z.pow_le_mono_r_iff 2); [lia|lia|]. exact Hlt. }
      assert (diff mod 64 = 0).
      { change 64 with (2 ^ 6). unfold diff. rewrite (pow2_split 6 (_ - _)) by lia.
        apply mul_mod_0. lia. }
      split; [|done]. change 64 with (2 ^ 6).
      by apply (pow2_mod_le _ _ (m_next_block_shift k - m_block_shift k)).
Qed.

Lemma range_pages k o n p :
  blk_ok k →
  page_offset k p ∈ range_set o n
  ↔ page_in (blk_heap_address k + o * l_size (layout k)) (n * l_size (layout k)) p.
Proof.
  intros Hk. pose proof (l_size_pos _ (bo_layout _ Hk)).
  rewrite elem_of_range_set. unfold page_offset, page_in.
  set (x := p * PageSize - blk_heap_address k). set (s := l_size (layout k)) in *.
  pose proof (Z.div_mod x s ltac:(lia)). pose proof (Z.mod_pos_bound x s ltac:(lia)). nia.
Qed.

(** A block of the level above, as seen from a level. *)
Record in_group (l : Layout) (r : Z) : Prop := {
  ig_next : l_next l ≠ 0;
  ig_align : r mod 2 ^ l_next l = 0;
  ig_range : l_addr l ≤ r ∧ r + 2 ^ l_next l ≤ l_last l
}.

Lemma group_address k g :
  blk_ok k → m_next_block_shift k ≠ 0 → 0 ≤ g →
  let diff := 2 ^ (m_next_block_shift k - m_block_shift k) in
  g mod diff = 0 → g + diff ≤ m_end_offset k →
  let r := blk_heap_address k + g * l_size (layout k) in
  in_group (layout k) r ∧ diff * l_size (layout k) = 2 ^ m_next_block_shift k
  ∧ u64 (blk_heap_address k + Z.shiftl g (m_block_shift k)) = r ∧ r ≠ 0.
Proof.
  intros Hk Hn Hg diff Hgm Hge r. destruct (bo_layout _ Hk) as [Hs Hnx [Ha0 Ha] [He [Hl Hlm]]].
  pose proof (l_size_pos _ (bo_layout _ Hk)) as Hsz.
  simpl in Hs, Hnx, Ha0, He. destruct Hnx as [?|Hnx]; [done|].
  assert (diff * l_size (layout k) = 2 ^ m_next_block_shift k) as E.
  { unfold diff, l_size. simpl. rewrite <-pow2_split; [done|lia]. }
  assert (0 < diff) by (apply pow2_pos; lia).
  unfold l_last in Hl. simpl in Hl.
  assert (r + diff * l_size (layout k) ≤ l_last (layout k)) by (unfold r, l_last; simpl; nia).
  split_and!; [|done| |unfold r; nia].
  - split; [done| |unfold r; simpl; rewrite <-E; split; [nia|done]]. simpl. unfold r.
    unfold l_align in Ha. simpl in Ha. rewrite (proj2 (Z.eqb_neq _ _) Hn) in Ha.
    apply mod_0_add; [lia|done|]. rewrite (mod_0_mul g diff), <-Z.mul_assoc, E by done.
    apply mul_mod_0. lia.
  - rewrite Z.shiftl_mul_pow2 by lia. apply wrap_small. fold (l_size (layout k)).
    unfold in_width, l_last in *. simpl in *. fold r. change (2 ^ m_block_shift k) with (l_size (layout k)).
    fold r. nia.
Qed.

Lemma blk_count_set k bm n :
  Z.of_nat (size (fb_set bm)) = Z.of_nat (size (fb_set (m_bitmap k))) + n →
  blk_count (set_bitmap k bm) = blk_count k + n * 2 ^ (m_block_shift k - 12).
Proof. intros H. unfold blk_count. simpl. rewrite H. lia. Qed.

(** Pages of a block of shift [s]. *)
Definition pages_of (s : Z) : Z := 2 ^ (s - 12).

(** What [PushBlock] does: it adds a block, and takes the completed block of the next size out
    again, returning its address. *)
Lemma PushBlock_spec k b :
  blk_ok k → in_blk (layout k) b → (∀ p, page_in b (l_size (layout k)) p → ¬ blk_page k p) →
  ∃ r k', PushBlock k b = Some (r, k') ∧ layout k' = layout k ∧ blk_ok k' ∧
  (r = 0 ∧ (∀ p, blk_page k' p ↔ blk_page k p ∨ page_in b (l_size (layout k)) p)
     ∧ blk_count k' = blk_count k + pages_of (m_block_shift k)
   ∨ in_group (layout k) r ∧ r ≠ 0
     ∧ (∀ p, page_in r (2 ^ m_next_block_shift k) p →
          blk_page k p ∨ page_in b (l_size (layout k)) p)
     ∧ (∀ p, page_in b (l_size (layout k)) p → page_in r (2 ^ m_next_block_shift k) p)
     ∧ (∀ p, blk_page k' p ↔ blk_page k p ∧ ¬ page_in r (2 ^ m_next_block_shift k) p)
     ∧ blk_count k' = blk_count k + pages_of (m_block_shift k)
                      - pages_of (m_next_block_shift k)).
Proof.
  intros Hk Hb Hfree. destruct (offset_of_spec k b Hk Hb) as (Ho & Eb & Hpo).
  pose proof (first_page _ b (bo_layout _ Hk) Hb) as Hfp.
  assert (offset_of k b ∉ fb_set (m_bitmap k)) as Hout.
  { rewrite <-(blk_page_in_blk k b (b / PageSize)) by done. by apply Hfree. }
  assert (∀ p, page_offset k p = offset_of k b ↔ page_in b (l_size (layout k)) p) as Hpo' by apply Hpo.
  unfold PushBlock. rewrite PushBlock_offset by done.
  destruct (fb_SetBit_spec (m_bitmap k) (offset_of k b)) as (bm & -> & Hwf & Hset & Hcap);
    [apply Hk|destruct Hk; lia|done|]. simpl.
  assert (∀ o, o ∈ fb_set bm → 0 ≤ o < m_end_offset k) as Hrange.
  { intros o. rewrite Hset. intros [->%elem_of_singleton|?%(bo_set k Hk)]%elem_of_union; done. }
  assert (Z.of_nat (size (fb_set bm)) = Z.of_nat (size (fb_set (m_bitmap k))) + 1) as Hsize.
  { rewrite Hset, size_union, size_singleton by set_solver. lia. }
  assert (∀ p, blk_page (set_bitmap k bm) p ↔ blk_page k p ∨ page_in b (l_size (layout k)) p) as Hpages.
  { intros p. rewrite blk_page_set, Hset, elem_of_union, elem_of_singleton, Hpo'.
    unfold blk_page. tauto. }
  assert (blk_ok (set_bitmap k bm)) as Hk1 by by apply blk_ok_set.
  assert (blk_count (set_bitmap k bm) = blk_count k + pages_of (m_block_shift k)) as Hcount.
  { rewrite (blk_count_set k bm 1) by done. unfold pages_of. lia. }
  case Z.eqb_spec; intros Hn; simpl; [by eexists _, _; split_and!; eauto|].
  destruct (group_spec k (offset_of k b) Hk Hn Ho) as (Hd & Hgm & Hg & Hgo & Hge & Hcr).
  destruct (bo_layout _ Hk) as [Hs [?|Hnx] _ _]; [done|]. simpl in Hs, Hnx.
  rewrite Z.shiftl_1_l. set (diff := 2 ^ (m_next_block_shift k - m_block_shift k)) in *.
  set (g := AlignDown (offset_of k b) diff) in *.
  destruct (group_address k g Hk Hn) as (Hgr & Esz & Er & Hr0); [lia|done|done|].
  fold diff in Esz.
  destruct (fb_ClearRange_spec bm g diff Hwf) as [(Hsub & bm' & -> & Hwf' & Hset' & Hcap')|[Hsub ->]];
    [lia|lia|destruct Hk; lia|done| |].
  - simpl. rewrite Er. set (r := blk_heap_address k + g * l_size (layout k)) in *.
    assert (∀ p, page_offset k p ∈ range_set g diff ↔ page_in r (2 ^ m_next_block_shift k) p) as Hrp.
    { intros p. rewrite range_pages by done. by rewrite Esz. }
    assert (∀ p, page_in b (l_size (layout k)) p → page_in r (2 ^ m_next_block_shift k) p) as Hbr.
    { intros p Hp. rewrite <-Hrp, elem_of_range_set, (proj2 (Hpo' p) Hp). lia. }
    exists r, (set_bitmap k bm'). split_and!; [done|done| |right].
    + apply blk_ok_set; [done|done|by rewrite Hcap'|]. intros o. rewrite Hset'. set_solver.
    + split_and!; [done..| |done| |].
      * intros p. rewrite <-Hrp. intros Hp%Hsub. by apply Hpages.
      * intros p. rewrite blk_page_set, Hset', elem_of_difference, Hrp.
        rewrite <-(blk_page_set k bm), Hpages. naive_solver.
      * rewrite (blk_count_set k bm' (1 - diff)).
        { unfold pages_of, diff. rewrite (pow2_split (m_block_shift k - 12) (m_next_block_shift k - 12)) by lia.
          replace (m_next_block_shift k - 12 - (m_block_shift k - 12))
            with (m_next_block_shift k - m_block_shift k) by lia. lia. }
        rewrite Hset', size_difference by done.
        pose proof (size_range_set g diff ltac:(lia)). pose proof (subseteq_size _ _ Hsub). lia.
  - simpl. exists 0, (set_bitmap k bm). split_and!; [done|done|done|left; done].
Qed.

Lemma block_address k o :
  blk_ok k → 0 ≤ o < m_end_offset k →
  let a := blk_heap_address k + o * l_size (layout k) in
  u64 (blk_heap_address k + Z.shiftl o (m_block_shift k)) = a
  ∧ in_blk (layout k) a ∧ a ≠ 0 ∧ offset_of k a = o.
Proof.
  intros Hk Ho a. destruct (bo_layout _ Hk) as [Hs _ [Ha0 _] [He [Hl _]]].
  pose proof (l_size_pos _ (bo_layout _ Hk)). unfold l_last in Hl. simpl in *.
  split_and!.
  - rewrite Z.shiftl_mul_pow2 by lia. change (2 ^ m_block_shift k) with (l_size (layout k)).
    apply wrap_small. unfold in_width. nia.
  - split; [|unfold a, l_last; simpl; nia]. unfold a.
    apply mod_0_add; [lia|by apply blk_addr_aligned|apply mul_mod_0; lia].
  - unfold a. nia.
  - unfold offset_of, a. rewrite Z.add_simpl_l, Z.div_mul; lia.
Qed.

(** What [PopBlock] does: it takes one block out, and returns 0 only when there is none. *)
Lemma PopBlock_spec k random :
  blk_ok k →
  ∃ a k', PopBlock k random = Some (a, k') ∧ layout k' = layout k ∧ blk_ok k' ∧
  (a = 0 ∧ fb_set (m_bitmap k) = ∅ ∧ fb_set (m_bitmap k') = ∅ ∧ blk_count k' = blk_count k
   ∨ in_blk (layout k) a ∧ a ≠ 0 ∧ offset_of k a ∈ fb_set (m_bitmap k)
     ∧ (∀ p, page_in a (l_size (layout k)) p → blk_page k p)
     ∧ (∀ p, blk_page k' p ↔ blk_page k p ∧ ¬ page_in a (l_size (layout k)) p)
     ∧ blk_count k' = blk_count k - pages_of (m_block_shift k)).
Proof.
  intros Hk. unfold PopBlock.
  destruct (fb_FindFreeBlock_spec (m_bitmap k) random (bo_wf k Hk))
    as (o & bm & -> & Hwf & Hset & Hcap & Ho); simpl.
  assert (blk_ok (set_bitmap k bm)) as Hk1.
  { apply blk_ok_set; try done. rewrite Hset. apply Hk. }
  destruct Ho as [[-> Hem]|Ho].
  - simpl. exists 0, (set_bitmap k bm). split_and!; [done..|left].
    split_and!; [done|done|simpl; congruence|]. unfold blk_count. simpl. by rewrite Hset.
  - pose proof (bo_set k Hk o Ho) as Hor.
    rewrite (proj2 (Z.ltb_ge o 0)) by lia.
    destruct (fb_ClearBit_spec bm o Hwf) as (bm' & -> & Hwf' & Hset' & Hcap'); [congruence|]. simpl.
    destruct (block_address k o Hk Hor) as (-> & Hib & Hne & Hoff).
    set (a := blk_heap_address k + o * l_size (layout k)) in *.
    destruct (offset_of_spec k a Hk Hib) as (_ & _ & Hpo). rewrite Hoff in Hpo.
    exists a, (set_bitmap k bm'). split_and!; [done|done| |right].
    + apply blk_ok_set; [done..|congruence|]. intros x. rewrite Hset', Hset.
      intros [Hx _]%elem_of_difference. by apply (bo_set k).
    + split_and!; [done|done|by rewrite Hoff| | |].
      * intros p Hp%Hpo. unfold blk_page. by rewrite Hp.
      * intros p. rewrite blk_page_set, Hset', Hset, elem_of_difference, elem_of_singleton, Hpo.
        done.
      * rewrite (blk_count_set k bm' (-1)); [unfold pages_of; lia|].
        rewrite Hset', Hset, size_difference, size_singleton by set_solver.
        assert (0 < size (fb_set (m_bitmap k)))%nat; [|lia].
        apply Nat.neq_0_lt_0. intros Hz%size_empty_inv. set_solver.
Qed.

(** * Heaps *)
Definition free_page (h : KPageHeap) (p : Z) : Prop :=
  ∃ i k, m_blocks h !! i = Some k ∧ blk_page k p.

(** The range lies in the region of the smallest blocks. *)
Definition in_region (h : KPageHeap) (a s : Z) : Prop :=
  ∃ l, map layout (m_blocks h) !! 0%nat = Some l ∧ l_addr l ≤ a ∧ a + s ≤ l_last l.

Definition page_region (h : KPageHeap) (p : Z) : Prop := in_region h (p * PageSize) PageSize.

Record heap_ok (h : KPageHeap) : Prop := {
  ho_layouts : layouts_ok (map layout (m_blocks h));
  ho_blocks i k : m_blocks h !! i = Some k → blk_ok k;
  ho_disjoint i j ki kj p : m_blocks h !! i = Some ki → m_blocks h !! j = Some kj →
    blk_page ki p → blk_page kj p → i = j;
  ho_region p : free_page h p → page_region h p;
  ho_rng : rng_ok (m_heap_rng h)
}.

(** The number of pages in the free blocks. *)
Definition free_pages (h : KPageHeap) : Z := sumZ (map blk_count (m_blocks h)).

(** Everything but the bitmaps and the generator. *)
Definition same_frame (h h' : KPageHeap) : Prop :=
  map layout (m_blocks h') = map layout (m_blocks h)
  ∧ m_heap_address h' = m_heap_address h ∧ m_heap_size h' = m_heap_size h
  ∧ m_initial_used_size h' = m_initial_used_size h
  ∧ m_management_words h' = m_management_words h.

Lemma same_frame_refl h : same_frame h h.
Proof. done. Qed.

Lemma same_frame_trans h1 h2 h3 : same_frame h1 h2 → same_frame h2 h3 → same_frame h1 h3.
Proof. unfold same_frame. intuition congruence. Qed.

Lemma same_frame_length h h' : same_frame h h' → length (m_blocks h') = length (m_blocks h).
Proof. intros [E _]. apply (f_equal length) in E. by rewrite !length_map in E. Qed.

Lemma same_frame_lookup h h' i k :
  same_frame h h' → m_blocks h !! i = Some k →
  ∃ k', m_blocks h' !! i = Some k' ∧ layout k' = layout k.
Proof.
  intros [E _] Hk.
  assert (map layout (m_blocks h) !! i = Some (layout k)) as Hl by by rewrite map_lookup, Hk.
  rewrite <-E, map_lookup in Hl. destruct (m_blocks h' !! i) as [k'|]; [|done].
  exists k'. split; [done|]. cbn in Hl. congruence.
Qed.

(** Replacing the block of a level. *)
Lemma put_block_ok h i k k' :
  heap_ok h → m_blocks h !! i = Some k → layout k' = layout k → blk_ok k' →
  (∀ p, blk_page k' p → blk_page k p ∨ ¬ free_page h p ∧ page_region h p) →
  let h' := put_block h (Z.of_nat i) k' in
  heap_ok h' ∧ same_frame h h' ∧ m_blocks h' !! i = Some k'
  ∧ (∀ p, free_page h' p ↔ blk_page k' p ∨ free_page h p ∧ ¬ blk_page k p)
  ∧ free_pages h' = free_pages h - blk_count k + blk_count k'.
Proof.
  intros Hh Hk Hl Hok Hsub h'.
  assert (i < length (m_blocks h))%nat as Hi by by eapply lookup_lt_Some.
  assert (m_blocks h' = <[i := k']> (m_blocks h)) as Eb by (unfold h'; simpl; by rewrite Nat2Z.id).
  assert (∀ j kj, m_blocks h' !! j = Some kj →
    (j = i ∧ kj = k') ∨ (j ≠ i ∧ m_blocks h !! j = Some kj)) as Hlk.
  { intros j kj. rewrite Eb. intros [(<- & <- & _)|[? ?]]%list_lookup_insert_Some; naive_solver. }
  assert (map layout (m_blocks h') = map layout (m_blocks h)) as El.
  { rewrite Eb, map_insert. apply insert_same. by rewrite map_lookup, Hk, Hl. }
  assert (same_frame h h') as Hf by by split_and!.
  assert (∀ p, free_page h' p ↔ blk_page k' p ∨ free_page h p ∧ ¬ blk_page k p) as Hp.
  { intros p. split.
    + intros (j & kj & [[-> ->]|[? Hj]]%Hlk & Hp); [by left|right].
      split; [by exists j, kj|]. intros Hp'. pose proof (ho_disjoint h Hh j i kj k p Hj Hk Hp Hp'). done.
    + intros [Hp|[(j & kj & Hj & Hp) Hnp]].
      * exists i, k'. rewrite Eb, list_lookup_insert_eq; done.
      * exists j, kj. rewrite Eb, list_lookup_insert_ne; [done|]. intros <-. by simplify_eq. }
  split_and!; [|done| |done|].
  - split; [rewrite El; apply Hh| | | |apply Hh].
    + intros j kj [[-> ->]|[? ?]]%Hlk; [done|]. by eapply ho_blocks.
    + assert (∀ j kj p, j ≠ i → m_blocks h !! j = Some kj → blk_page k' p → blk_page kj p → False) as Hx.
      { intros j kj p Hne Hj Hp1 Hp2. destruct (Hsub p Hp1) as [?|[Hn _]].
        - apply Hne. by eapply (ho_disjoint h Hh j i).
        - apply Hn. by exists j, kj. }
      intros j1 j2 k1 k2 p [[-> ->]|[? H1]]%Hlk [[-> ->]|[? H2]]%Hlk Hp1 Hp2; [done| | |].
      * exfalso. by eapply (Hx j2 k2 p).
      * exfalso. by eapply (Hx j1 k1 p).
      * by eapply (ho_disjoint h Hh j1 j2).
    + intros p Hpf%Hp. unfold page_region, in_region. rewrite El.
      destruct Hpf as [[Hk'p|[_ Hr]]%Hsub|[Hf' _]]; [|done|by apply Hh].
      apply Hh. by exists i, k.
  - rewrite Eb. by apply list_lookup_insert_eq.
  - unfold free_pages. rewrite Eb, map_insert.
    rewrite (sumZ_insert _ _ _ (blk_count k)); [done|]. by rewrite map_lookup, Hk.
Qed.

Lemma get_block_lookup h i k :
  m_blocks h !! i = Some k → get_block h (Z.of_nat i) = Some k.
Proof.
  intros Hk. unfold get_block. rewrite check_bind_Some by (apply Z.leb_le; lia).
  by rewrite Nat2Z.id.
Qed.

Lemma group_in_next h i k r :
  heap_ok h → m_blocks h !! i = Some k → in_group (layout k) r →
  ∃ k', m_blocks h !! S i = Some k' ∧ m_next_block_shift k = m_block_shift k'
    ∧ in_blk (layout k') r.
Proof.
  intros Hh Hk [Hn Ha Hr]. pose proof (ho_layouts h Hh) as Hls.
  assert (map layout (m_blocks h) !! i = Some (layout k)) as Hl by by rewrite map_lookup, Hk.
  destruct (m_blocks h !! S i) as [k'|] eqn:Hk'.
  - assert (map layout (m_blocks h) !! S i = Some (layout k')) as Hl' by by rewrite map_lookup, Hk'.
    destruct (los_step _ Hls i _ _ Hl Hl') as (E & H1 & H2). exists k'. split_and!; [done|done|].
    simpl in E. split; unfold l_size; simpl; rewrite <-E; [done|]. simpl in *. lia.
  - exfalso. apply Hn. apply (los_last _ Hls i _ Hl). rewrite length_map.
    apply lookup_lt_Some in Hk as ?. apply lookup_ge_None in Hk'. lia.
Qed.

(** [h'] is [h] after the pages of [addr, addr + size) were freed. *)
Record freed (h h' : KPageHeap) (addr size : Z) : Prop := {
  fr_ok : heap_ok h';
  fr_frame : same_frame h h';
  fr_pages p : free_page h' p ↔ free_page h p ∨ page_in addr size p;
  fr_count : free_pages h' = free_pages h + size / PageSize
}.

Lemma pages_of_size k : blk_ok k → pages_of (m_block_shift k) = l_size (layout k) / PageSize.
Proof.
  intros Hk. pose proof (lo_shift _ (bo_layout k Hk)) as Hs. simpl in Hs.
  unfold pages_of, l_size. change PageSize with (2 ^ 12). simpl.
  rewrite <-Z.pow_sub_r by lia. done.
Qed.

Lemma FreeBlock_loop_spec fuel h i k b :
  heap_ok h → m_blocks h !! i = Some k → (length (m_blocks h) < fuel + i)%nat →
  in_blk (layout k) b →
  (∀ p, page_in b (l_size (layout k)) p → ¬ free_page h p ∧ page_region h p) →
  ∃ h', FreeBlock_loop fuel h b (Z.of_nat i) = Some h' ∧ freed h h' b (l_size (layout k)).
Proof.
  revert h i k b. induction fuel as [|fuel IH]; intros h i k b Hh Hk Hf Hb Hfree.
  { apply lookup_lt_Some in Hk. lia. }
  pose proof (ho_blocks h Hh i k Hk) as Hok. simpl. rewrite (get_block_lookup h i k) by done. simpl.
  destruct (PushBlock_spec k b Hok Hb) as (r & k1 & -> & Hl1 & Hok1 & Hr).
  { intros p Hp Hkp. apply (Hfree p Hp). by exists i, k. }
  simpl. destruct (put_block_ok h i k k1 Hh Hk Hl1 Hok1) as (Hh1 & Hf1 & Hk1 & Hp1 & Hc1).
  { intros p Hp. destruct Hr as [(_ & Hpg & _)|(_ & _ & _ & _ & Hpg & _)]; apply Hpg in Hp; naive_solver. }
  set (h1 := put_block h (Z.of_nat i) k1) in *.
  assert (∀ p, blk_page k p → free_page h p) as Hkp by (intros p ?; by exists i, k).
  pose proof (pages_of_size k Hok) as Epg.
  destruct Hr as [(-> & Hpg & Hct)|(Hg & Hr0 & Hin & Hbr & Hpg & Hct)].
  - simpl. exists h1. split; [done|]. split; [done..| |lia].
    intros p. rewrite Hp1, Hpg. specialize (Hkp p). destruct (decide (blk_page k p)); tauto.
  - rewrite (proj2 (Z.eqb_neq r 0)) by done. simpl.
    destruct (group_in_next h i k r Hh Hk Hg) as (k2 & Hk2 & En & Hb2).
    destruct (same_frame_lookup h h1 _ _ Hf1 Hk2) as (k2' & Hk2' & El2).
    assert (l_size (layout k2') = 2 ^ m_next_block_shift k) as Es2 by (rewrite El2, En; done).
    replace (Z.of_nat i + 1) with (Z.of_nat (S i)) by lia.
    destruct (IH h1 (S i) k2' r Hh1 Hk2') as (h' & -> & [Hok' Hf' Hp' Hc']).
    + rewrite (same_frame_length h h1) by done. lia.
    + by rewrite El2.
    + intros p. rewrite Es2. intros Hp.
      { split.
        - rewrite Hp1, Hpg. intros [[_ ?]|[Hx Hy]]; [done|].
          destruct (Hin p Hp) as [?|Hq]; [done|]. by apply (Hfree p Hq).
        - unfold page_region, in_region. rewrite (proj1 Hf1).
          destruct (Hin p Hp) as [Hq|Hq]; [by apply Hh, Hkp|by apply Hfree]. }
    + exists h'. split; [done|]. split; [done|by eapply same_frame_trans| |].
      * intros p. rewrite Hp', Hp1, Hpg, Es2. specialize (Hkp p). specialize (Hin p). specialize (Hbr p).
        destruct (decide (blk_page k p)), (decide (page_in r (2 ^ m_next_block_shift k) p)); tauto.
      * assert (m_next_block_shift k = m_block_shift k2') as En2
          by (apply (f_equal l_shift) in El2; simpl in El2; congruence).
        rewrite Hc', Hc1, Hct, Epg, En2, pages_of_size; [lia|exact (ho_blocks h1 Hh1 _ _ Hk2')].
Qed.

Lemma FreeBlock_spec h i k b :
  heap_ok h → m_blocks h !! i = Some k → in_blk (layout k) b →
  (∀ p, page_in b (l_size (layout k)) p → ¬ free_page h p ∧ page_region h p) →
  ∃ h', FreeBlock h b (Z.of_nat i) = Some h' ∧ freed h h' b (l_size (layout k)).
Proof. intros. unfold FreeBlock. apply FreeBlock_loop_spec; [done..|lia|done|done]. Qed.

(** ** Freeing a range *)
Lemma freed_refl h a : heap_ok h → freed h h a 0.
Proof.
  intros. split; [done..| |change (0 / PageSize) with 0; lia].
  intros p. unfold page_in. split; [by left|]. intros [?|?]; [done|lia].
Qed.

Lemma freed_join h h1 h2 a1 s1 a2 s2 a s :
  freed h h1 a1 s1 → freed h1 h2 a2 s2 →
  (∀ p, page_in a s p ↔ page_in a1 s1 p ∨ page_in a2 s2 p) →
  s / PageSize = s1 / PageSize + s2 / PageSize → freed h h2 a s.
Proof.
  intros [H1 F1 P1 C1] [H2 F2 P2 C2] Hp Hs.
  split; [done|by eapply same_frame_trans| |lia]. intros p. rewrite P2, P1, Hp. tauto.
Qed.

Lemma page_div_add a b : a mod PageSize = 0 → (a + b) / PageSize = a / PageSize + b / PageSize.
Proof.
  intros Ha. rewrite (mod_0_mul a PageSize) at 1 by done.
  rewrite Z.add_comm, Z.div_add by done. lia.
Qed.

Lemma freed_app h h1 h2 a s1 s2 :
  freed h h1 a s1 → freed h1 h2 (a + s1) s2 → s1 mod PageSize = 0 → 0 ≤ s1 → 0 ≤ s2 →
  freed h h2 a (s1 + s2).
Proof.
  intros F1 F2 Hs ? ?. apply (freed_join _ _ _ _ _ _ _ _ _ F1 F2); [|by apply page_div_add].
  intros p. unfold page_in. lia.
Qed.

Lemma freed_app_before h h1 h2 a s1 s2 :
  freed h h1 (a + s1) s2 → freed h1 h2 a s1 → s1 mod PageSize = 0 → 0 ≤ s1 → 0 ≤ s2 →
  freed h h2 a (s1 + s2).
Proof.
  intros F1 F2 Hs ? ?. apply (freed_join _ _ _ _ _ _ _ _ _ F1 F2).
  - intros p. unfold page_in. lia.
  - rewrite page_div_add by done. lia.
Qed.

(** No page of the range is free. *)
Definition taken (h : KPageHeap) (a s : Z) : Prop := ∀ p, page_in a s p → ¬ free_page h p.

Lemma taken_freed h h1 a s a' s' :
  freed h h1 a s → taken h a' s' → a' + s' ≤ a ∨ a + s ≤ a' → taken h1 a' s'.
Proof.
  intros F Ht Hd p Hp. rewrite (fr_pages _ _ _ _ F). intros [Hf|Hf]; [by apply (Ht p)|].
  unfold page_in in *. lia.
Qed.

Lemma taken_sub h a s a' s' : taken h a s → a ≤ a' → a' + s' ≤ a + s → taken h a' s'.
Proof. intros Ht ? ? p Hp. apply Ht. unfold page_in in *. lia. Qed.

Lemma in_region_frame h h' a s : same_frame h h' → in_region h a s → in_region h' a s.
Proof. intros [E _]. unfold in_region. by rewrite E. Qed.

Lemma in_region_sub h a s a' s' : in_region h a s → a ≤ a' → a' + s' ≤ a + s → in_region h a' s'.
Proof. intros (l & ? & ? & ?) ? ?. exists l. split_and!; [done|lia..]. Qed.

Lemma layouts_le ls i l0 l :
  layouts_ok ls → ls !! 0%nat = Some l0 → ls !! i = Some l → l_addr l ≤ l_addr l0 ∧ l_last l0 ≤ l_last l.
Proof.
  intros Hls H0. revert l. induction i as [|i IH]; intros l Hl; [simplify_eq; lia|].
  destruct (ls !! i) as [l1|] eqn:E1.
  - destruct (los_step ls Hls i l1 l E1 Hl) as (_ & ? & ?). specialize (IH l1 eq_refl). lia.
  - apply lookup_lt_Some in Hl. apply lookup_ge_None in E1. lia.
Qed.

Lemma heap_layout h i k :
  m_blocks h !! i = Some k → map layout (m_blocks h) !! i = Some (layout k).
Proof. intros Hk. by rewrite map_lookup, Hk. Qed.

Lemma region_blk h i k a :
  heap_ok h → m_blocks h !! i = Some k → in_region h a (l_size (layout k)) →
  a mod l_size (layout k) = 0 → in_blk (layout k) a.
Proof.
  intros Hh Hk (l0 & Hl0 & H1 & H2) Ha. split; [done|].
  pose proof (layouts_le _ i l0 _ (ho_layouts h Hh) Hl0 (heap_layout h i k Hk)). lia.
Qed.

Lemma region_bounds h a s : heap_ok h → in_region h a s → 0 < a ∧ a + s ≤ 2 ^ 62.
Proof.
  intros Hh (l & Hl & ? & ?). destruct (los_ok _ (ho_layouts h Hh) _ _ Hl) as [_ _ [? _] (_ & ? & _)]. lia.
Qed.

Lemma layouts_shift_le ls i j li lj :
  layouts_ok ls → (i ≤ j)%nat → ls !! i = Some li → ls !! j = Some lj → l_shift li ≤ l_shift lj.
Proof.
  intros Hls Hij Hi. revert lj. induction Hij as [|j Hij IH]; intros lj Hj; [simplify_eq; lia|].
  destruct (ls !! j) as [l1|] eqn:E1.
  - destruct (los_step ls Hls j l1 lj E1 Hj) as (En & _).
    specialize (IH l1 eq_refl). pose proof (los_ok _ Hls _ _ E1) as [? [Hn|Hn] _ _]; [|lia].
    pose proof (los_ok _ Hls _ _ Hj) as [? _ _ _]. lia.
  - apply lookup_lt_Some in Hj. apply lookup_ge_None in E1. lia.
Qed.

Lemma level0_size h k : heap_ok h → m_blocks h !! 0%nat = Some k → l_size (layout k) = PageSize.
Proof.
  intros Hh Hk. unfold l_size. rewrite (los_first _ (ho_layouts h Hh) _ (heap_layout h 0 k Hk)). done.
Qed.

Lemma blk_size_mod h i k : heap_ok h → m_blocks h !! i = Some k →
  l_size (layout k) mod PageSize = 0 ∧ blk_GetSize k = l_size (layout k).
Proof.
  intros Hh Hk. pose proof (lo_shift _ (bo_layout _ (ho_blocks h Hh i k Hk))) as Hs. simpl in Hs. split.
  - change PageSize with (2 ^ 12). unfold l_size. simpl.
    rewrite (pow2_split 12 (m_block_shift k)) by lia. by apply mul_mod_0.
  - unfold blk_GetSize, l_size. simpl. by rewrite Z.shiftl_1_l.
Qed.

Lemma size_mod_le h i j ki kj x :
  heap_ok h → (i ≤ j)%nat → m_blocks h !! i = Some ki → m_blocks h !! j = Some kj →
  x mod l_size (layout kj) = 0 → x mod l_size (layout ki) = 0.
Proof.
  intros Hh Hij Hi Hj. unfold l_size. apply pow2_mod_le.
  pose proof (layouts_shift_le _ i j _ _ (ho_layouts h Hh) Hij (heap_layout h i ki Hi) (heap_layout h j kj Hj)).
  pose proof (lo_shift _ (bo_layout _ (ho_blocks h Hh i ki Hi))). lia.
Qed.

Lemma size_mod_page h i k x :
  heap_ok h → m_blocks h !! i = Some k → x mod l_size (layout k) = 0 → x mod PageSize = 0.
Proof.
  intros Hh Hk Hx. destruct (blk_size_mod h i k Hh Hk) as [Hm _].
  pose proof (l_size_pos _ (bo_layout _ (ho_blocks h Hh i k Hk))).
  rewrite (mod_0_mul x (l_size (layout k))) by (try done; lia).
  rewrite (mod_0_mul (l_size (layout k)) PageSize), Z.mul_assoc by done. by apply mul_mod_0.
Qed.

(** A range of the region and its pages. *)
Lemma region_page h a s p :
  in_region h a s → page_in a s p → a mod PageSize = 0 → s mod PageSize = 0 → page_region h p.
Proof.
  intros Hr Hp Ha Hs. eapply in_region_sub; [done|apply Hp|]. destruct Hp as [_ Hp].
  apply mod_0_lt; [done|by apply mul_mod_0|by apply mod_0_add|done].
Qed.

Lemma pages_region h a s :
  a mod PageSize = 0 → s mod PageSize = 0 → 0 < s →
  (∀ p, page_in a s p → page_region h p) → in_region h a s.
Proof.
  intros Ha Hs Hpos Hp. pose proof (mod_0_mul a PageSize ltac:(done) Ha).
  pose proof (mod_0_mul s PageSize ltac:(done) Hs).
  destruct (Hp (a / PageSize)) as (l & Hl & H1 & _); [unfold page_in; lia|].
  destruct (Hp ((a + s) / PageSize - 1)) as (l' & Hl' & _ & H2).
  - rewrite page_div_add by done. unfold page_in, PageSize in *. lia.
  - simplify_eq. exists l. split_and!; [done|lia|]. rewrite page_div_add in H2 by done. lia.
Qed.

(** One [FreeBlock] on a block of the range. *)
Lemma FreeBlock_region h i k a :
  heap_ok h → m_blocks h !! i = Some k → a mod l_size (layout k) = 0 →
  in_region h a (l_size (layout k)) → taken h a (l_size (layout k)) →
  ∃ h', FreeBlock h a (Z.of_nat i) = Some h' ∧ freed h h' a (l_size (layout k)).
Proof.
  intros Hh Hk Ha Hr Ht. apply FreeBlock_spec; [done..|by eapply region_blk|].
  intros p Hp. split; [by apply Ht|]. eapply region_page; [done..|by eapply size_mod_page|by eapply blk_size_mod].
Qed.

Lemma freed_level h h' i k a s :
  freed h h' a s → m_blocks h !! i = Some k →
  ∃ k', m_blocks h' !! i = Some k' ∧ layout k' = layout k.
Proof. intros F. apply same_frame_lookup, F. Qed.

Lemma div_fuel n s fuel :
  0 < s → 0 ≤ n → n / s < Z.of_nat (S fuel) → s ≤ n → 0 ≤ n - s ∧ (n - s) / s < Z.of_nat fuel.
Proof.
  intros Hs Hn Hf Hle. split; [lia|]. replace n with (n - s + 1 * s) in Hf by lia.
  rewrite Z.div_add in Hf by lia. lia.
Qed.

Lemma Free_big_spec fuel h i k b e :
  heap_ok h → m_blocks h !! i = Some k →
  b mod l_size (layout k) = 0 → e mod l_size (layout k) = 0 → b ≤ e →
  (e - b) / l_size (layout k) < Z.of_nat fuel →
  in_region h b (e - b) → taken h b (e - b) →
  ∃ h', Free_big fuel h b e (l_size (layout k)) (Z.of_nat i) = Some h' ∧ freed h h' b (e - b).
Proof.
  revert h k b. induction fuel as [|fuel IH]; intros h k b Hh Hk Hb He Hbe Hf Hr Ht.
  { pose proof (l_size_pos _ (bo_layout _ (ho_blocks h Hh i k Hk))).
    assert (0 ≤ (e - b) / l_size (layout k)) by (apply Z.div_pos; lia). lia. }
  pose proof (l_size_pos _ (bo_layout _ (ho_blocks h Hh i k Hk))) as Hs.
  pose proof (region_bounds h b _ Hh Hr) as Hrb. simpl.
  case Z.ltb_spec; intros Hlt.
  2: { replace e with b by lia. rewrite Z.sub_diag. exists h. split; [done|by apply freed_refl]. }
  pose proof (mod_0_lt b e (l_size (layout k)) ltac:(lia) Hb He Hlt) as Hstep.
  destruct (FreeBlock_region h i k b Hh Hk Hb) as (h1 & -> & F1);
    [eapply in_region_sub; [done|lia..]|eapply taken_sub; [done|lia..]|]. simpl.
  destruct (freed_level _ _ i k _ _ F1 Hk) as (k1 & Hk1 & El).
  rewrite wrap_small by (unfold in_width; lia). rewrite <-El.
  destruct (IH h1 k1 (b + l_size (layout k))) as (h' & E' & F'); rewrite ?El; try done.
  - apply F1.
  - apply mod_0_add; [lia|done|]. apply Z.mod_same. lia.
  - replace (e - (b + _)) with (e - b - l_size (layout k)) by lia. apply div_fuel; lia.
  - eapply in_region_frame; [apply F1|]. eapply in_region_sub; [done|lia..].
  - eapply taken_freed; [done| |lia]. eapply taken_sub; [done|lia..].
  - exists h'. rewrite El in E'. split; [done|].
    replace (e - b) with (l_size (layout k) + (e - (b + l_size (layout k)))) by lia.
    eapply freed_app; [done..| |lia|lia]. by eapply blk_size_mod.
Qed.

(** The remaining range is shorter than a block of the level. *)
Lemma Free_before_level_spec fuel h i k s e :
  heap_ok h → m_blocks h !! i = Some k → e mod l_size (layout k) = 0 → s ≤ e →
  s mod PageSize = 0 → (e - s) / l_size (layout k) < Z.of_nat fuel →
  in_region h s (e - s) → taken h s (e - s) →
  ∃ h' e', Free_before_level fuel h s e (l_size (layout k)) (Z.of_nat i) = Some (h', e')
    ∧ s ≤ e' ≤ e ∧ e' < s + l_size (layout k) ∧ e' mod l_size (layout k) = 0
    ∧ freed h h' e' (e - e').
Proof.
  revert h k e. induction fuel as [|fuel IH]; intros h k e Hh Hk He Hse Hs0 Hf Hr Ht.
  { pose proof (l_size_pos _ (bo_layout _ (ho_blocks h Hh i k Hk))).
    assert (0 ≤ (e - s) / l_size (layout k)) by (apply Z.div_pos; lia). lia. }
  pose proof (l_size_pos _ (bo_layout _ (ho_blocks h Hh i k Hk))) as Hs.
  pose proof (region_bounds h s _ Hh Hr) as Hrb. simpl.
  rewrite (wrap_small 64 (s + _)) by (unfold in_width; lia).
  case Z.leb_spec; intros Hlt.
  2: { exists h, e. rewrite Z.sub_diag. split_and!; [done|lia..|done|by apply freed_refl]. }
  rewrite (wrap_small 64 (e - _)) by (unfold in_width; lia).
  set (a := e - l_size (layout k)).
  assert (a mod l_size (layout k) = 0) as Ha.
  { apply mod_0_sub; [lia|done|]. apply Z.mod_same. lia. }
  destruct (FreeBlock_region h i k a Hh Hk Ha) as (h1 & -> & F1);
    [eapply in_region_sub; [done|lia..]|eapply taken_sub; [done|lia..]|]. simpl.
  destruct (freed_level _ _ i k _ _ F1 Hk) as (k1 & Hk1 & El). rewrite <-El.
  destruct (IH h1 k1 a) as (h' & e' & E' & H1 & H2 & H3 & F'); rewrite ?El; try done.
  - apply F1.
  - lia.
  - replace (a - s) with (e - s - l_size (layout k)) by lia. apply div_fuel; lia.
  - eapply in_region_frame; [apply F1|]. eapply in_region_sub; [done|lia..].
  - eapply taken_freed; [done| |lia]. eapply taken_sub; [done|lia..].
  - rewrite El in *. exists h', e'. split_and!; [done|lia..|done|].
    replace (e - e') with ((a - e') + l_size (layout k)) by lia.
    eapply (freed_app_before _ h1); [by replace (e' + (a - e')) with a by lia|done| |lia|lia].
    destruct (blk_size_mod h i k Hh Hk) as [Hm _].
    assert (PageSize = 2 ^ 12) as Ep by done.
    pose proof (lo_shift _ (bo_layout _ (ho_blocks h Hh i k Hk))).
    rewrite Ep. apply (pow2_mod_le _ _ (l_shift (layout k))); [lia|]. by apply mod_0_sub; [lia|..].
Qed.

Lemma Free_after_level_spec fuel h i k s e :
  heap_ok h → m_blocks h !! i = Some k → s mod l_size (layout k) = 0 → s ≤ e →
  (e - s) / l_size (layout k) < Z.of_nat fuel →
  in_region h s (e - s) → taken h s (e - s) →
  ∃ h' s', Free_after_level fuel h s e (l_size (layout k)) (Z.of_nat i) = Some (h', s')
    ∧ s ≤ s' ≤ e ∧ e < s' + l_size (layout k) ∧ s' mod l_size (layout k) = 0
    ∧ freed h h' s (s' - s).
Proof.
  revert h k s. induction fuel as [|fuel IH]; intros h k s Hh Hk He Hse Hf Hr Ht.
  { pose proof (l_size_pos _ (bo_layout _ (ho_blocks h Hh i k Hk))).
    assert (0 ≤ (e - s) / l_size (layout k)) by (apply Z.div_pos; lia). lia. }
  pose proof (l_size_pos _ (bo_layout _ (ho_blocks h Hh i k Hk))) as Hs.
  pose proof (region_bounds h s _ Hh Hr) as Hrb. simpl.
  rewrite !(wrap_small 64 (s + _)) by (unfold in_width; lia).
  case Z.leb_spec; intros Hlt.
  2: { exists h, s. rewrite Z.sub_diag. split_and!; [done|lia..|done|by apply freed_refl]. }
  destruct (FreeBlock_region h i k s Hh Hk He) as (h1 & -> & F1);
    [eapply in_region_sub; [done|lia..]|eapply taken_sub; [done|lia..]|]. simpl.
  destruct (freed_level _ _ i k _ _ F1 Hk) as (k1 & Hk1 & El). rewrite <-El.
  destruct (IH h1 k1 (s + l_size (layout k))) as (h' & s' & E' & H1 & H2 & H3 & F');
    rewrite ?El; try done.
  - apply F1.
  - apply mod_0_add; [lia|done|]. apply Z.mod_same. lia.
  - replace (e - (s + _)) with (e - s - l_size (layout k)) by lia. apply div_fuel; lia.
  - eapply in_region_frame; [apply F1|]. eapply in_region_sub; [done|lia..].
  - eapply taken_freed; [done| |lia]. eapply taken_sub; [done|lia..].
  - rewrite El in *. exists h', s'. split_and!; [done|lia..|done|].
    replace (s' - s) with (l_size (layout k) + (s' - (s + l_size (layout k)))) by lia.
    eapply freed_app; [done..| |lia|lia]. by eapply blk_size_mod.
Qed.

(** A multiple of a block size is one of the smaller block sizes. *)
Lemma freed_mod h h1 a s i k x :
  heap_ok h → freed h h1 a s → m_blocks h !! i = Some k → x mod l_size (layout k) = 0 →
  ∀ j kj, (j < i)%nat → m_blocks h1 !! j = Some kj → x mod l_size (layout kj) = 0.
Proof.
  intros Hh F Hk Hx j kj Hj Hkj.
  destruct (lookup_lt_is_Some_2 (m_blocks h) j) as [k0 Hk0]; [apply lookup_lt_Some in Hk; lia|].
  destruct (freed_level _ _ j k0 _ _ F Hk0) as (kj' & Hkj' & El).
  assert (kj' = kj) as -> by congruence. rewrite El.
  eapply (size_mod_le h j i); [done|lia|done..].
Qed.

Lemma Free_before_spec n h s e :
  heap_ok h → (n ≤ length (m_blocks h))%nat → s ≤ e → s mod PageSize = 0 →
  (∀ j k, (j < n)%nat → m_blocks h !! j = Some k → e mod l_size (layout k) = 0) →
  (n = 0%nat → s = e) → in_region h s (e - s) → taken h s (e - s) →
  ∃ h', Free_before n h s e = Some h' ∧ freed h h' s (e - s).
Proof.
  revert h e. induction n as [|i IH]; intros h e Hh Hn Hse Hs Hal H0 Hr Ht; cbn [Free_before].
  { rewrite <-(H0 eq_refl), Z.sub_diag. exists h. split; [done|by apply freed_refl]. }
  destruct (lookup_lt_is_Some_2 (m_blocks h) i) as [k Hk]; [lia|]. rewrite Hk. cbn [mbind option_bind].
  destruct (blk_size_mod h i k Hh Hk) as [Hm ->].
  pose proof (l_size_pos _ (bo_layout _ (ho_blocks h Hh i k Hk))) as Hsz.
  assert (0 ≤ (e - s) / l_size (layout k)) by (apply Z.div_pos; lia).
  destruct (Free_before_level_spec (S (Z.to_nat ((e - s) / l_size (layout k)))) h i k s e)
    as (h1 & e' & -> & He' & Hlt & Hem & F1); [done|done| |done|done|lia|done|done|].
  { apply (Hal i k); [lia|done]. }
  cbn [mbind option_bind]. destruct (IH h1 e') as (h' & -> & F').
  - apply F1.
  - rewrite (same_frame_length h h1); [lia|apply F1].
  - lia.
  - done.
  - by eapply freed_mod.
  - intros ->. rewrite (level0_size h k Hh Hk) in *.
    destruct (Z.lt_ge_cases s e') as [Hx|]; [|lia].
    pose proof (mod_0_lt s e' PageSize ltac:(done) Hs Hem Hx). lia.
  - eapply in_region_frame; [apply F1|]. eapply in_region_sub; [done|lia..].
  - eapply taken_freed; [done| |lia]. eapply taken_sub; [done|lia..].
  - exists h'. split; [done|]. replace (e - s) with ((e' - s) + (e - e')) by lia.
    eapply (freed_app_before _ h1); [by replace (s + (e' - s)) with e' by lia|done| |lia|lia].
    apply mod_0_sub; [done| |done]. by eapply size_mod_page.
Qed.

Lemma Free_after_spec n h s e :
  heap_ok h → (n ≤ length (m_blocks h))%nat → s ≤ e → e mod PageSize = 0 →
  (∀ j k, (j < n)%nat → m_blocks h !! j = Some k → s mod l_size (layout k) = 0) →
  (n = 0%nat → s = e) → s mod PageSize = 0 → in_region h s (e - s) → taken h s (e - s) →
  ∃ h', Free_after n h s e = Some h' ∧ freed h h' s (e - s).
Proof.
  revert h s. induction n as [|i IH]; intros h s Hh Hn Hse He Hal H0 Hs Hr Ht; cbn [Free_after].
  { rewrite <-(H0 eq_refl), Z.sub_diag. exists h. split; [done|by apply freed_refl]. }
  destruct (lookup_lt_is_Some_2 (m_blocks h) i) as [k Hk]; [lia|]. rewrite Hk. cbn [mbind option_bind].
  destruct (blk_size_mod h i k Hh Hk) as [Hm ->].
  pose proof (l_size_pos _ (bo_layout _ (ho_blocks h Hh i k Hk))) as Hsz.
  assert (0 ≤ (e - s) / l_size (layout k)) by (apply Z.div_pos; lia).
  destruct (Free_after_level_spec (S (Z.to_nat ((e - s) / l_size (layout k)))) h i k s e)
    as (h1 & s' & -> & Hs' & Hlt & Hem & F1); [done|done| |done|lia|done|done|].
  { apply (Hal i k); [lia|done]. }
  assert (s' mod PageSize = 0) as Hsp.
  { by eapply size_mod_page. }
  cbn [mbind option_bind]. destruct (IH h1 s') as (h' & -> & F').
  - apply F1.
  - rewrite (same_frame_length h h1); [lia|apply F1].
  - lia.
  - done.
  - by eapply freed_mod.
  - intros ->. rewrite (level0_size h k Hh Hk) in *.
    destruct (Z.lt_ge_cases s' e) as [Hx|]; [|lia].
    pose proof (mod_0_lt s' e PageSize ltac:(done) Hem He Hx). lia.
  - done.
  - eapply in_region_frame; [apply F1|]. eapply in_region_sub; [done|lia..].
  - eapply taken_freed; [done| |lia]. eapply taken_sub; [done|lia..].
  - exists h'. split; [done|]. replace (e - s) with ((s' - s) + (e - s')) by lia.
    eapply (freed_app _ h1); [done|by replace (s + (s' - s)) with s' by lia| |lia|lia].
    by apply mod_0_sub.
Qed.

Lemma Free_find_spec n h s e :
  heap_ok h → (0 < n ≤ length (m_blocks h))%nat → s mod PageSize = 0 → e mod PageSize = 0 →
  0 < s < e → e ≤ 2 ^ 62 →
  ∃ i k bs be, Free_find n h s e = Some (Z.of_nat i, bs, be) ∧ (i < n)%nat
    ∧ m_blocks h !! i = Some k ∧ s ≤ bs < be ∧ be ≤ e
    ∧ bs mod l_size (layout k) = 0 ∧ be mod l_size (layout k) = 0
    ∧ (i = 0%nat → bs = s ∧ be = e).
Proof.
  intros Hh Hn Hs He Hse Hle. induction n as [|i IH]; [lia|]. simpl.
  destruct (lookup_lt_is_Some_2 (m_blocks h) i) as [k Hk]; [lia|]. rewrite Hk. simpl.
  destruct (blk_size_mod h i k Hh Hk) as [Hm ->].
  pose proof (l_size_pos _ (bo_layout _ (ho_blocks h Hh i k Hk))) as Hsz.
  destruct (AlignUp_mult s (l_size (layout k))) as [Hu1 Hu2]; [unfold in_width; lia|lia|lia|].
  destruct (AlignDown_mult e (l_size (layout k))) as [Hd1 Hd2]; [unfold in_width; lia|lia|].
  assert (i = 0%nat → AlignUp s (l_size (layout k)) = s ∧ AlignDown e (l_size (layout k)) = e) as H0.
  { intros ->. rewrite (level0_size h k Hh Hk) in *. split.
    - destruct (Z.lt_ge_cases s (AlignUp s PageSize)) as [Hx|]; [|lia].
      pose proof (mod_0_lt s _ PageSize ltac:(done) Hs Hu1 Hx). lia.
    - destruct (Z.lt_ge_cases (AlignDown e PageSize) e) as [Hx|]; [|lia].
      pose proof (mod_0_lt _ e PageSize ltac:(done) Hd1 He Hx). lia. }
  case Z.ltb_spec; intros Hlt.
  - exists i, k. do 2 eexists. split_and!; try done; lia.
  - destruct i as [|i]; [destruct (H0 eq_refl); lia|].
    destruct IH as (j & kj & bs & be & E & ?); [lia|]. exists j, kj, bs, be.
    split; [done|]. naive_solver lia.
Qed.

(** [Free] of a range of pages that are in use makes exactly these pages free. *)
Lemma Free_spec h addr n :
  heap_ok h → addr mod PageSize = 0 → 0 ≤ n → in_region h addr (n * PageSize) →
  taken h addr (n * PageSize) →
  ∃ h', Free h addr n = Some h' ∧ freed h h' addr (n * PageSize).
Proof.
  intros Hh Ha Hn Hr Ht. unfold Free. case Z.eqb_spec; intros Hz.
  { subst n. exists h. split; [done|by apply freed_refl]. }
  pose proof (region_bounds h addr _ Hh Hr) as Hb. unfold PageSize in Hb.
  rewrite wrap_small by (unfold in_width, PageSize; lia).
  set (e := addr + n * PageSize).
  assert (e mod PageSize = 0) as He by (apply mod_0_add; [done|done|by apply mul_mod_0]).
  pose proof (los_nonempty _ (ho_layouts h Hh)) as Hlen. rewrite length_map in Hlen.
  destruct (Free_find_spec (length (m_blocks h)) h addr e)
    as (i & k & bs & be & -> & Hi & Hk & H1 & H2 & H3 & H4 & H0); [done|lia|done|done|unfold e, PageSize; lia..|].
  cbn [mbind option_bind]. rewrite check_bind_Some by (apply Z.leb_le; lia).
  rewrite (get_block_lookup h i k) by done. cbn [mbind option_bind].
  destruct (blk_size_mod h i k Hh Hk) as [Hm ->].
  pose proof (l_size_pos _ (bo_layout _ (ho_blocks h Hh i k Hk))) as Hsz.
  assert (0 ≤ (be - bs) / l_size (layout k)) by (apply Z.div_pos; lia).
  replace (n * PageSize) with (e - addr) in * by (unfold e; lia).
  destruct (Free_big_spec (S (Z.to_nat ((be - bs) / l_size (layout k)))) h i k bs be)
    as (h1 & -> & F1); [done..|lia|lia| | |].
  { eapply in_region_sub; [done|lia..]. }
  { eapply taken_sub; [done|lia..]. }
  assert (∀ x, x mod l_size (layout k) = 0 → x mod PageSize = 0) as Hpg
    by (intros x; by eapply size_mod_page).
  rewrite Nat2Z.id. cbn [mbind option_bind].
  destruct (Free_before_spec i h1 addr bs) as (h2 & E2 & F2);
    [apply F1|rewrite (same_frame_length h h1); [lia|apply F1]|lia|done|by eapply freed_mod| | | |].
  { intros ->. symmetry. by apply H0. }
  { eapply in_region_frame; [apply F1|]. eapply in_region_sub; [done|lia..]. }
  { eapply taken_freed; [done| |lia]. eapply taken_sub; [done|lia..]. }
  rewrite E2. cbn [mbind option_bind].
  assert (freed h h2 addr (be - addr)) as F12.
  { replace (be - addr) with ((bs - addr) + (be - bs)) by lia.
    eapply (freed_app_before _ h1); [by replace (addr + (bs - addr)) with bs by lia|done| |lia|lia].
    apply mod_0_sub; auto. done. }
  destruct (Free_after_spec i h2 be e) as (h3 & E3 & F3);
    [apply F12|rewrite (same_frame_length h h2); [lia|apply F12]|lia|done|by eapply freed_mod| |auto| | |].
  { intros ->. by apply H0. }
  { eapply in_region_frame; [apply F12|]. eapply in_region_sub; [done|lia..]. }
  { eapply taken_freed; [done| |lia]. eapply taken_sub; [done|lia..]. }
  exists h3. split; [done|]. replace (e - addr) with ((be - addr) + (e - be)) by lia.
  eapply (freed_app _ h2); [done|by replace (addr + (be - addr)) with be by lia| |lia|lia].
  apply mod_0_sub; auto. done.
Qed.

End PageHeap.
