(* ===== verification/PageHeapAlloc.v ===== *)
(** Allocation from a [KPageHeap] (definitions in PageHeap.v): the linear search, the random
    allocation, and the initial heap; then the properties of the heap as a set of free pages. *)
From S2P Require Import Prelude Common PageBitmap PageHeap.

Section PageHeapAlloc.
Context {B : Type} `{FB : FreeBitmap B}.
Implicit Types h : KPageHeap (B := B).

(** * Counting *)
Lemma blk_count_bounds (k : Block (B := B)) : blk_ok k → 0 ≤ blk_count k ≤ 2 ^ 50.
Proof.
  intros Hk. pose proof (bo_layout k Hk) as [Hs _ Ha [He [Hl _]]]. simpl in Hs, Ha, He.
  assert (fb_set (m_bitmap k) ⊆ range_set 0 (m_end_offset k)) as Hsub.
  { intros o Ho%(bo_set k Hk). rewrite elem_of_range_set. lia. }
  apply subseteq_size in Hsub. pose proof (size_range_set 0 (m_end_offset k) ltac:(lia)).
  unfold blk_count. assert (0 < 2 ^ (m_block_shift k - 12)) by (apply pow2_pos; lia).
  unfold l_last, l_size in Hl. simpl in Hl. rewrite (pow2_split 12 (m_block_shift k)) in Hl by lia. nia.
Qed.

Lemma blk_GetNumFreePages_eq h i k :
  heap_ok h → m_blocks h !! i = Some k → blk_GetNumFreePages k = blk_count k.
Proof.
  intros Hh Hk. pose proof (ho_blocks h Hh i k Hk) as Hok.
  pose proof (blk_count_bounds k Hok) as Hb. unfold blk_GetNumFreePages, blk_GetNumFreeBlocks, blk_GetNumPages.
  destruct (blk_size_mod h i k Hh Hk) as [_ ->]. rewrite <-(pages_of_size k Hok).
  rewrite (fb_GetNumBits_size _ (bo_wf k Hok)). unfold blk_count, pages_of in *.
  apply wrap_small. unfold in_width. lia.
Qed.

Lemma foldl_count (l : list (Block (B := B))) acc :
  0 ≤ acc → Forall (λ k, blk_GetNumFreePages k = blk_count k ∧ 0 ≤ blk_count k) l →
  acc + sumZ (map blk_count l) < 2 ^ 64 →
  foldl (λ num_free k, u64 (num_free + blk_GetNumFreePages k)) acc l = acc + sumZ (map blk_count l).
Proof.
  intros Hacc Hl. revert acc Hacc. induction Hl as [|k l [E Hk] Hl IH]; intros acc Hacc Hb; cbn in *; [lia|].
  assert (0 ≤ sumZ (map blk_count l)).
  { clear -Hl. induction Hl as [|? ? [? ?]]; unfold sumZ in *; cbn; lia. }
  unfold sumZ in *. cbn in *. rewrite E, wrap_small by (unfold in_width; lia).
  rewrite IH by lia. lia.
Qed.

(** The counter kept by the bitmaps is the number of pages in free blocks. *)
Lemma GetNumFreePages_eq h : heap_ok h → GetNumFreePages h = free_pages h ∧ 0 ≤ free_pages h ≤ 7 * 2 ^ 50.
Proof.
  intros Hh. unfold GetNumFreePages, free_pages.
  assert (Forall (λ x, 0 ≤ x ≤ 2 ^ 50) (map blk_count (m_blocks h))) as HF.
  { apply Forall_map, Forall_lookup. intros i k Hk. apply blk_count_bounds. by eapply ho_blocks. }
  apply sumZ_bounds in HF. pose proof (los_nonempty _ (ho_layouts h Hh)) as Hlen.
  rewrite length_map in *. split; [|lia]. rewrite foldl_count; [lia|lia| |lia].
  apply Forall_lookup. intros i k Hk. split; [by eapply blk_GetNumFreePages_eq|].
  apply blk_count_bounds. by eapply ho_blocks.
Qed.

(** * Taking pages out *)
Record allocated h h' (a s : Z) : Prop := {
  al_ok : heap_ok h';
  al_frame : same_frame h h';
  al_free p : page_in a s p → free_page h p;
  al_pages p : free_page h' p ↔ free_page h p ∧ ¬ page_in a s p;
  al_count : free_pages h' = free_pages h - s / PageSize
}.

(** The heap changed at most in its generator and in bitmaps with the same free blocks. *)
Record kept h h' : Prop := {
  kp_ok : heap_ok h';
  kp_frame : same_frame h h';
  kp_set i k' : m_blocks h' !! i = Some k' → ∃ k, m_blocks h !! i = Some k
    ∧ layout k' = layout k ∧ fb_set (m_bitmap k') = fb_set (m_bitmap k);
  kp_count : free_pages h' = free_pages h
}.

Lemma kept_refl h : heap_ok h → kept h h.
Proof. intros. split; [done|done|by eauto|done]. Qed.

Lemma kept_trans h1 h2 h3 : kept h1 h2 → kept h2 h3 → kept h1 h3.
Proof.
  intros [H1 F1 S1 C1] [H2 F2 S2 C2].
  split; [done|by eapply same_frame_trans| |lia].
  intros i k (k2 & Hk2 & ? & ?)%S2. destruct (S1 i k2 Hk2) as (k1 & ? & ? & ?).
  exists k1. split_and!; congruence.
Qed.

Lemma page_offset_layout (k k' : Block (B := B)) p :
  layout k' = layout k → page_offset k' p = page_offset k p.
Proof.
  intros E. unfold page_offset. change (blk_heap_address k') with (l_addr (layout k')). by rewrite E.
Qed.

Lemma kept_free h h' p : kept h h' → free_page h' p ↔ free_page h p.
Proof.
  intros [_ F S _]. split.
  - intros (i & k' & Hk' & Hp). destruct (S i k' Hk') as (k & Hk & El & Es). exists i, k. split; [done|].
    unfold blk_page in *. rewrite <-Es, <-(page_offset_layout k k'); done.
  - intros (i & k & Hk & Hp). destruct (same_frame_lookup h h' i k F Hk) as (k' & Hk' & El).
    destruct (S i k' Hk') as (k0 & Hk0 & _ & Es).
    assert (k0 = k) as -> by congruence. exists i, k'. split; [done|].
    unfold blk_page in *. rewrite Es, (page_offset_layout k k'); done.
Qed.

Lemma kept_allocated h h1 h2 a s : kept h h1 → allocated h1 h2 a s → allocated h h2 a s.
Proof.
  intros K [H F A P C]. split; [done| | | |].
  - by eapply same_frame_trans; [apply K|].
  - intros p Hp%A. by rewrite <-(kept_free h h1).
  - intros p. by rewrite P, (kept_free h h1).
  - rewrite C. f_equal. apply K.
Qed.

Lemma set_rng_kept h g : heap_ok h → rng_ok g → kept h (set_rng h g).
Proof.
  intros [H1 H2 H3 H4 H5] Hg. split; [by split|done| |done]. intros i k Hk. by exists k.
Qed.

Lemma allocated_free h h1 a s a' s' :
  allocated h h1 a s → a ≤ a' → a' + s' ≤ a + s → taken h1 a' s'.
Proof. intros A ? ? p Hp. rewrite (al_pages _ _ _ _ A). intros [_ Hn]. apply Hn. unfold page_in in *. lia. Qed.

(** Giving back the end or the beginning of what was taken. *)
Lemma allocated_give h h1 h2 a s b t a' s' :
  allocated h h1 a s → freed h1 h2 b t →
  (∀ p, page_in a s p ↔ page_in b t p ∨ page_in a' s' p) →
  (∀ p, page_in b t p → ¬ page_in a' s' p) →
  s / PageSize = t / PageSize + s' / PageSize → allocated h h2 a' s'.
Proof.
  intros [H1 F1 A1 P1 C1] [H2 F2 P2 C2] Hu Hd Hs.
  split; [done|by eapply same_frame_trans| | |lia].
  - intros p Hp. apply A1, Hu. by right.
  - intros p. rewrite P2, P1, Hu. specialize (A1 p). rewrite Hu in A1. specialize (Hd p).
    destruct (decide (page_in b t p)), (decide (page_in a' s' p)); tauto.
Qed.

Lemma give_suffix h h1 h2 a s n :
  allocated h h1 a s → freed h1 h2 (a + n) (s - n) → n mod PageSize = 0 → 0 ≤ n ≤ s →
  allocated h h2 a n.
Proof.
  intros A F Hn Hle. apply (allocated_give h h1 h2 a s _ _ a n A F).
  - intros p. unfold page_in. lia.
  - intros p. unfold page_in. lia.
  - replace s with (n + (s - n)) at 1 by lia. rewrite page_div_add by done. lia.
Qed.

Lemma give_prefix h h1 h2 a s n :
  allocated h h1 a s → freed h1 h2 a n → n mod PageSize = 0 → 0 ≤ n ≤ s →
  allocated h h2 (a + n) (s - n).
Proof.
  intros A F Hn Hle. apply (allocated_give h h1 h2 a s _ _ _ _ A F).
  - intros p. unfold page_in. lia.
  - intros p. unfold page_in. lia.
  - replace s with (n + (s - n)) at 1 by lia. by rewrite page_div_add.
Qed.

Lemma allocated_region h h1 a s :
  heap_ok h → allocated h h1 a s → a mod PageSize = 0 → s mod PageSize = 0 → 0 < s →
  in_region h1 a s.
Proof.
  intros Hh A Ha Hs Hpos. eapply in_region_frame; [apply A|].
  apply pages_region; [done..|]. intros p Hp. apply Hh. by apply (al_free _ _ _ _ A).
Qed.

Lemma PopBlock_heap h i k random :
  heap_ok h → m_blocks h !! i = Some k →
  ∃ a k', PopBlock k random = Some (a, k') ∧ layout k' = layout k ∧
  (a = 0 ∧ fb_set (m_bitmap k) = ∅ ∧ kept h (put_block h (Z.of_nat i) k')
   ∨ a ≠ 0 ∧ fb_set (m_bitmap k) ≠ ∅ ∧ in_blk (layout k) a
     ∧ allocated h (put_block h (Z.of_nat i) k') a (l_size (layout k))).
Proof.
  intros Hh Hk. pose proof (ho_blocks h Hh i k Hk) as Hok.
  destruct (PopBlock_spec k random Hok) as (a & k' & -> & El & Hok' & Hd).
  assert (∀ p, blk_page k p → free_page h p) as Hkp by (intros p ?; by exists i, k).
  destruct (put_block_ok h i k k' Hh Hk El Hok') as (Hh' & F & Hk' & Hp & Hc).
  { intros p Hp. left. destruct Hd as [(_ & _ & He & _)|(_ & _ & _ & _ & Hpg & _)].
    - unfold blk_page in Hp. set_solver.
    - by apply Hpg. }
  exists a, k'. split; [done|split; [done|]].
  destruct Hd as [(-> & He & He' & Hct)|(Hb & Ha & Ho & Hin & Hpg & Hct)]; [left|right].
  - split_and!; [done..|]. split; [done|done| |lia]. intros j kj.
    simpl. rewrite Nat2Z.id. intros [(<- & <- & _)|[Hne Hj]]%list_lookup_insert_Some.
    + exists k. split_and!; [done..|congruence].
    + by exists kj.
  - split_and!; [done|set_solver|done|]. split; [done|done| | |].
    + intros p Hpa. by apply Hkp, Hin.
    + intros p. rewrite Hp, Hpg. specialize (Hkp p). specialize (Hin p).
      destruct (decide (blk_page k p)); tauto.
    + rewrite Hc, Hct, (pages_of_size k Hok). lia.
Qed.

(** No level from [i] on has a free block. *)
Definition empty_from h (i : nat) : Prop :=
  ∀ j k, (i ≤ j)%nat → m_blocks h !! j = Some k → fb_set (m_bitmap k) = ∅.

Lemma kept_empty_from h h' i : kept h h' → empty_from h' i → empty_from h i.
Proof.
  intros K He j k Hj Hk. destruct (same_frame_lookup h h' j k (kp_frame _ _ K) Hk) as (k' & Hk' & _).
  destruct (kp_set _ _ K j k' Hk') as (k0 & Hk0 & _ & Es). assert (k0 = k) as -> by congruence.
  rewrite <-Es. by eapply He.
Qed.

Lemma empty_from_step h i k :
  m_blocks h !! i = Some k → fb_set (m_bitmap k) = ∅ → empty_from h (S i) → empty_from h i.
Proof.
  intros Hk He Hs j kj Hj Hkj. destruct (decide (j = i)) as [->|]; [congruence|].
  apply (Hs j kj); [lia|done].
Qed.

(** After [s] bytes were taken at [a], what lies behind or before [n] bytes is freed again. *)
Lemma give_back h h1 a s n :
  heap_ok h → allocated h h1 a s → a mod PageSize = 0 → s mod PageSize = 0 →
  n mod PageSize = 0 → 0 < n ≤ s →
  u64 (a + n) = a + n ∧
  ∃ h2, Free h1 (a + n) ((s - n) / PageSize) = Some h2 ∧ allocated h h2 a n.
Proof.
  intros Hh A Ha Hs Hn Hle. pose proof (allocated_region h h1 a _ Hh A Ha Hs ltac:(lia)) as Hr.
  pose proof (region_bounds h1 a _ (al_ok _ _ _ _ A) Hr) as Hbd.
  split; [apply wrap_small; unfold in_width; lia|].
  assert ((s - n) / PageSize * PageSize = s - n) as E.
  { symmetry. apply mod_0_mul; [done|]. by apply mod_0_sub. }
  destruct (Free_spec h1 (a + n) ((s - n) / PageSize)) as (h2 & -> & F).
  - apply A.
  - by apply mod_0_add.
  - apply Z.div_pos; [lia|done].
  - rewrite E. eapply in_region_sub; [done|lia..].
  - rewrite E. eapply allocated_free; [done|lia..].
  - exists h2. split; [done|]. rewrite E in F. eapply give_suffix; [done..|lia].
Qed.

Lemma give_front h h1 a s n :
  heap_ok h → allocated h h1 a s → a mod PageSize = 0 → s mod PageSize = 0 →
  n mod PageSize = 0 → 0 ≤ n < s →
  u64 (a + n) = a + n ∧
  ∃ h2, Free h1 a (n / PageSize) = Some h2 ∧ allocated h h2 (a + n) (s - n).
Proof.
  intros Hh A Ha Hs Hn Hle. pose proof (allocated_region h h1 a _ Hh A Ha Hs ltac:(lia)) as Hr.
  pose proof (region_bounds h1 a _ (al_ok _ _ _ _ A) Hr) as Hbd.
  split; [apply wrap_small; unfold in_width; lia|].
  pose proof (mod_0_mul n PageSize ltac:(done) Hn) as E.
  destruct (Free_spec h1 a (n / PageSize)) as (h2 & -> & F).
  - apply A.
  - done.
  - apply Z.div_pos; [lia|done].
  - rewrite <-E. eapply in_region_sub; [done|lia..].
  - rewrite <-E. eapply allocated_free; [done|lia..].
  - exists h2. split; [done|]. rewrite <-E in F. eapply give_prefix; [done..|lia].
Qed.

Lemma allocated_kept h h1 h2 a s : allocated h h1 a s → kept h1 h2 → allocated h h2 a s.
Proof.
  intros [H F A P C] K. split; [apply K|by eapply same_frame_trans, K|done| |].
  - intros p. by rewrite (kept_free h1 h2), P.
  - by rewrite (kp_count _ _ K).
Qed.

(** What an allocation promises: 0 when there is no block, else a range that was free. *)
Definition alloc_result h (i : nat) (needed : Z) (a : Z) h' : Prop :=
  a = 0 ∧ empty_from h i ∧ kept h h' ∨ a ≠ 0 ∧ ¬ empty_from h i ∧ allocated h h' a needed.

Lemma kept_result h h1 i n a h' : kept h h1 → alloc_result h1 i n a h' → alloc_result h i n a h'.
Proof.
  intros K [(-> & He & K')|(Ha & Hne & A)].
  - left. split_and!; [done|by eapply kept_empty_from|by eapply kept_trans].
  - right. split_and!; [done| |by eapply kept_allocated].
    intros He. apply Hne. intros j k Hj Hk. destruct (kp_set _ _ K j k Hk) as (k0 & ? & _ & ->). by eapply He.
Qed.

Lemma not_empty_from h i j k :
  m_blocks h !! j = Some k → (i ≤ j)%nat → fb_set (m_bitmap k) ≠ ∅ → ¬ empty_from h i.
Proof. intros Hk Hj Hne He. by apply Hne, (He j k). Qed.

Lemma AllocateByLinearSearch_loop_spec n h i needed :
  heap_ok h → (i + n = length (m_blocks h))%nat → needed mod PageSize = 0 → 0 < needed →
  (∀ j k, (i ≤ j)%nat → m_blocks h !! j = Some k → needed ≤ l_size (layout k)) →
  ∃ a h', AllocateByLinearSearch_loop n h (Z.of_nat i) needed = Some (a, h')
    ∧ alloc_result h i needed a h'
    ∧ (a ≠ 0 → ∃ k, m_blocks h !! i = Some k ∧ a mod l_size (layout k) = 0).
Proof.
  revert h i. induction n as [|n IH]; intros h i Hh Hlen Hn Hpos Hsz; cbn [AllocateByLinearSearch_loop].
  { exists 0, h. split; [done|split; [|done]]. left. split_and!; [done| |by apply kept_refl].
    intros j k Hj Hk%lookup_lt_Some. lia. }
  destruct (lookup_lt_is_Some_2 (m_blocks h) i) as [k Hk]; [lia|].
  rewrite (get_block_lookup h i k) by done. cbn [mbind option_bind].
  destruct (PopBlock_heap h i k false Hh Hk) as (a & k' & -> & El & Hd). cbn [mbind option_bind].
  set (h1 := put_block h (Z.of_nat i) k') in *. destruct (blk_size_mod h i k Hh Hk) as [Hm Esz].
  assert (blk_GetSize k' = l_size (layout k)) as ->.
  { unfold blk_GetSize. change (m_block_shift k') with (l_shift (layout k')). by rewrite El, <-Esz. }
  destruct Hd as [(-> & He & K)|(Ha & Hne & Hb & A)].
  - simpl. replace (Z.of_nat i + 1) with (Z.of_nat (S i)) by lia.
    destruct (IH h1 (S i)) as (a & h' & -> & R & Hal);
      [apply K|rewrite (same_frame_length h h1); [lia|apply K]|done|done| |].
    { intros j kj Hj Hkj. destruct (kp_set _ _ K j kj Hkj) as (k0 & Hk0 & -> & _).
      apply (Hsz j k0); [lia|done]. }
    exists a, h'. split; [done|]. apply (kept_result h h1) in R; [|done]. split.
    + destruct R as [(-> & Hem & K')|(Ha & Hem & A)]; [left|right].
      * split_and!; [done|by eapply empty_from_step|done].
      * split_and!; [done| |done]. intros Hem'. apply Hem. intros j kj Hj Hkj. apply (Hem' j kj); [lia|done].
    + intros Ha. destruct (Hal Ha) as (k2 & Hk2 & Ham).
      destruct (kp_set _ _ K _ _ Hk2) as (k0 & Hk0 & E0 & _). rewrite E0 in Ham.
      exists k. split; [done|]. by eapply (size_mod_le h i (S i)); [|lia|..].
  - rewrite (proj2 (Z.eqb_neq a 0)) by done. cbn [negb].
    assert (¬ empty_from h i) as Hnem by by eapply not_empty_from.
    assert (∃ k0, m_blocks h !! i = Some k0 ∧ a mod l_size (layout k0) = 0) as Hal.
    { exists k. split; [done|apply Hb]. }
    pose proof (Hsz i k (Nat.le_refl i) Hk) as Hle.
    case Z.ltb_spec; intros Hlt.
    + destruct (give_back h h1 a (l_size (layout k)) needed Hh A) as (-> & h2 & -> & A2);
        [eapply size_mod_page; [done..|apply Hb]|done|done|lia|].
      exists a, h2. split_and!; [done|by right|done].
    + replace (l_size (layout k)) with needed in A by lia.
      exists a, h1. split_and!; [done|by right|done].
Qed.

Lemma AllocateByLinearSearch_spec h i k :
  heap_ok h → m_blocks h !! i = Some k →
  ∃ a h', AllocateByLinearSearch h (Z.of_nat i) = Some (a, h')
    ∧ alloc_result h i (l_size (layout k)) a h' ∧ a mod l_size (layout k) = 0.
Proof.
  intros Hh Hk. unfold AllocateByLinearSearch. rewrite (get_block_lookup h i k) by done.
  cbn [mbind option_bind]. destruct (blk_size_mod h i k Hh Hk) as [Hm ->].
  pose proof (l_size_pos _ (bo_layout _ (ho_blocks h Hh i k Hk))).
  pose proof (lookup_lt_Some _ _ _ Hk) as Hi.
  destruct (AllocateByLinearSearch_loop_spec (Z.to_nat (m_num_blocks h - Z.of_nat i)) h i (l_size (layout k)))
    as (a & h' & -> & R & Hal); [done|unfold m_num_blocks; lia|done|lia| |].
  - intros j kj Hj Hkj. unfold l_size. apply Z.pow_le_mono_r; [lia|].
    eapply (layouts_shift_le _ i j); [apply Hh|done|by apply heap_layout..].
  - exists a, h'. split_and!; [done..|]. destruct (decide (a = 0)) as [->|Ha]; [by apply Z.mod_0_l; lia|].
    destruct (Hal Ha) as (k0 & Hk0 & Hm0). assert (k0 = k) as -> by congruence. done.
Qed.

(** * The random level *)
Section Random.
Context (needed shift : Z).
Hypothesis Hshift : 12 ≤ shift < 64.
Hypothesis Hneeded : 0 < needed.

Local Abbreviation la := (λ k : Block (B := B), level_alignments k needed shift).

Definition levels_ok (l : list (Block (B := B))) : Prop :=
  Forall (λ k, blk_ok k ∧ needed ≤ l_size (layout k)) l.

Lemma la_spec (k : Block (B := B)) :
  blk_ok k → needed ≤ l_size (layout k) →
  0 ≤ la k ≤ 2 * blk_count k ∧ (la k = 0 ↔ fb_set (m_bitmap k) = ∅).
Proof.
  intros Hk Hle. pose proof (blk_count_bounds k Hk) as Hb. pose proof (pages_of_size k Hk) as Ep.
  pose proof (l_size_pos _ (bo_layout k Hk)) as Hs.
  assert (blk_GetSize k = l_size (layout k)) as Esz.
  { unfold blk_GetSize. rewrite Z.shiftl_1_l. done. }
  unfold level_alignments, blk_GetNumFreeBlocks. rewrite Esz, (fb_GetNumBits_size _ (bo_wf k Hk)).
  rewrite (wrap_small 64 (l_size (layout k) - needed)) by (unfold in_width; lia).
  rewrite Z.shiftr_div_pow2 by lia.
  set (q := (l_size (layout k) - needed) / 2 ^ shift).
  assert (0 ≤ q ≤ pages_of (m_block_shift k)) as Hq.
  { split; [apply Z.div_pos; [lia|apply pow2_pos; lia]|]. rewrite Ep. unfold q.
    etrans; [apply (Z.div_le_mono _ (l_size (layout k))); [apply pow2_pos; lia|lia]|].
    apply Z.div_le_compat_l; [lia|]. split; [done|]. change PageSize with (2 ^ 12).
    apply Z.pow_le_mono_r; lia. }
  assert (1 ≤ pages_of (m_block_shift k) ≤ 2 ^ 28) as Hp.
  { rewrite Ep. split.
    - apply Z.div_le_lower_bound; [done|]. unfold PageSize. lia.
    - apply Z.div_le_upper_bound; [done|]. unfold PageSize. lia. }
  unfold blk_count in *. fold (pages_of (m_block_shift k)) in *.
  set (n := Z.of_nat (size (fb_set (m_bitmap k)))) in *. assert (0 ≤ n) by (unfold n; lia).
  assert (n ≤ 2 ^ 50) by nia.
  rewrite (wrap_small 64 (1 + q)) by (unfold in_width; lia).
  rewrite wrap_small by (unfold in_width; nia).
  split; [nia|]. split.
  - intros Hz. assert (n = 0) as Hn0 by nia. apply leibniz_equiv, size_empty_inv. unfold n in Hn0. lia.
  - intros He. assert (n = 0) as -> by (unfold n; by rewrite He). lia.
Qed.

Definition la_sum (l : list (Block (B := B))) : Z := sumZ (map la l).

Lemma la_sum_bounds l :
  levels_ok l → 0 ≤ la_sum l ≤ 2 * sumZ (map blk_count l) ∧ 0 ≤ sumZ (map blk_count l).
Proof.
  induction 1 as [|k l [Hk Hle] _ IH]; unfold la_sum, sumZ in *; cbn in *; [lia|].
  pose proof (la_spec k Hk Hle) as [? _]. cbn in *. pose proof (blk_count_bounds k Hk). lia.
Qed.

Lemma la_sum_0 l : levels_ok l → la_sum l = 0 → Forall (λ k, fb_set (m_bitmap k) = ∅) l.
Proof.
  induction 1 as [|k l [Hk Hle] Hl IH]; intros Hz; [done|].
  pose proof (la_sum_bounds l Hl) as [? _]. destruct (la_spec k Hk Hle) as [? Hiff].
  unfold la_sum, sumZ in *. cbn in *. constructor; [apply Hiff; lia|apply IH; lia].
Qed.

Lemma Random_count_spec n h i p :
  levels_ok (drop i (m_blocks h)) → (i + n = length (m_blocks h))%nat → 0 ≤ p →
  p + la_sum (drop i (m_blocks h)) < 2 ^ 64 →
  ∃ m, Random_count n h (Z.of_nat i) p needed shift
         = Some (p + la_sum (take m (drop i (m_blocks h))), Z.of_nat (i + m))
    ∧ (m ≤ n)%nat ∧ (m = n ∨ 0 < p + la_sum (take m (drop i (m_blocks h))) ∧ (0 < m)%nat).
Proof.
  revert i p. induction n as [|n IH]; intros i p Hl Hlen Hp Hb; cbn [Random_count].
  { exists 0%nat. change (la_sum (take 0 _)) with 0. rewrite Z.add_0_r, Nat.add_0_r.
    unfold m_num_blocks. split_and!; [|lia|by left]. by replace (length (m_blocks h)) with i by lia. }
  destruct (lookup_lt_is_Some_2 (m_blocks h) i) as [k Hk]; [lia|].
  rewrite (get_block_lookup h i k) by done. cbn [mbind option_bind].
  rewrite (drop_S _ _ _ Hk) in *. apply Forall_cons in Hl as [[Hok Hle] Hl].
  destruct (la_spec k Hok Hle) as [Hla _]. destruct (la_sum_bounds _ Hl) as [Hls _].
  change (la_sum (k :: drop (S i) (m_blocks h))) with (la k + la_sum (drop (S i) (m_blocks h))) in Hb.
  cbn in Hla, Hb. rewrite wrap_small by (unfold in_width; lia).
  unfold MinimumPossibleAlignmentsForRandomAllocation. case Z.leb_spec; intros H4.
  - exists 1%nat. change (take 1 (k :: drop (S i) (m_blocks h))) with [k].
    replace (la_sum [k]) with (level_alignments k needed shift) by (unfold la_sum, sumZ; cbn; lia).
    replace (Z.of_nat i + 1) with (Z.of_nat (i + 1)) by lia. split_and!; [done|lia|right; lia].
  - replace (Z.of_nat i + 1) with (Z.of_nat (S i)) by lia.
    destruct (IH (S i) (p + level_alignments k needed shift)) as (m & -> & Hm & Hd); [done|lia|lia|lia|].
    exists (S m). cbn [take].
    change (la_sum (k :: take m (drop (S i) (m_blocks h))))
      with (la k + la_sum (take m (drop (S i) (m_blocks h)))). rewrite Z.add_assoc.
    replace (i + S m)%nat with (S i + m)%nat by lia. split_and!; [done|lia|]. destruct Hd as [->|[? ?]]; [by left|right; lia].
Qed.

Lemma Random_select_spec n h i idx p rnd :
  levels_ok (drop i (m_blocks h)) → 0 ≤ p ≤ rnd →
  rnd < p + la_sum (take n (drop i (m_blocks h))) < 2 ^ 64 →
  ∃ j k, Random_select n h (Z.of_nat i) idx p rnd needed shift = Some (Z.of_nat j)
    ∧ (i ≤ j)%nat ∧ m_blocks h !! j = Some k ∧ fb_set (m_bitmap k) ≠ ∅.
Proof.
  revert i p. induction n as [|n IH]; intros i p Hl Hp Hr; cbn [Random_select].
  { change (la_sum (take 0 _)) with 0 in Hr. lia. }
  destruct (m_blocks h !! i) as [k|] eqn:Hk.
  2: { rewrite drop_ge in Hr by by apply lookup_ge_None.
       change (la_sum (take (S n) [])) with 0 in Hr. lia. }
  rewrite (get_block_lookup h i k) by done. cbn [mbind option_bind].
  rewrite (drop_S _ _ _ Hk) in *. apply Forall_cons in Hl as [[Hok Hle] Hl]. cbn [take] in Hr.
  destruct (la_spec k Hok Hle) as [Hla Hiff].
  assert (levels_ok (take n (drop (S i) (m_blocks h)))) as Hlt by by apply Forall_take.
  destruct (la_sum_bounds _ Hlt) as [Hls _].
  change (la_sum (k :: take n (drop (S i) (m_blocks h))))
    with (la k + la_sum (take n (drop (S i) (m_blocks h)))) in Hr.
  cbn in Hla, Hr, Hiff. rewrite wrap_small by (unfold in_width; lia).
  case Z.ltb_spec; intros Hlt'.
  - exists i, k. split_and!; [done|lia|done|]. intros He%Hiff. lia.
  - replace (Z.of_nat i + 1) with (Z.of_nat (S i)) by lia.
    destruct (IH (S i) (p + level_alignments k needed shift)) as (j & kj & -> & Hj & ? & ?); [done|lia|lia|].
    exists j, kj. split_and!; [done|lia|done..].
Qed.

Lemma levels_drop h i k0 :
  heap_ok h → m_blocks h !! i = Some k0 → needed ≤ l_size (layout k0) →
  levels_ok (drop i (m_blocks h)).
Proof.
  intros Hh Hk0 Hle. apply Forall_lookup. intros j k Hk. rewrite lookup_drop in Hk.
  split; [by eapply ho_blocks|]. etrans; [exact Hle|]. unfold l_size. apply Z.pow_le_mono_r; [lia|].
  eapply (layouts_shift_le _ i (i + j)); [apply Hh|lia|by apply heap_layout..].
Qed.

Lemma drop_count h i : heap_ok h → sumZ (map blk_count (drop i (m_blocks h))) ≤ free_pages h.
Proof.
  intros Hh. unfold free_pages. rewrite <-(take_drop i (m_blocks h)) at 2.
  rewrite map_app, sumZ_app.
  assert (0 ≤ sumZ (map blk_count (take i (m_blocks h)))); [|lia].
  assert (Forall (λ k, 0 ≤ blk_count k) (take i (m_blocks h))) as HF.
  { apply Forall_take, Forall_lookup. intros j k Hk. apply blk_count_bounds. by eapply ho_blocks. }
  induction HF; unfold sumZ in *; cbn; lia.
Qed.

(** The level the random allocation chooses has a free block unless no level has one. *)
Lemma Random_index_spec h i k0 :
  heap_ok h → m_blocks h !! i = Some k0 → needed ≤ l_size (layout k0) → free_pages h < 2 ^ 29 →
  ∃ j k h1, Random_index h (Z.of_nat i) needed shift = Some (Z.of_nat j, h1) ∧ kept h h1
    ∧ (i ≤ j)%nat ∧ m_blocks h1 !! j = Some k ∧ (fb_set (m_bitmap k) = ∅ → empty_from h i).
Proof.
  intros Hh Hk0 Hle Hfp. unfold Random_index. pose proof (lookup_lt_Some _ _ _ Hk0) as Hi.
  pose proof (levels_drop h i k0 Hh Hk0 Hle) as Hl.
  pose proof (la_sum_bounds _ Hl) as [Hb _]. pose proof (drop_count h i Hh) as Hc.
  destruct (Random_count_spec (Z.to_nat (m_num_blocks h - Z.of_nat i)) h i 0 Hl)
    as (m & -> & Hm & Hd); [unfold m_num_blocks; lia|lia|lia|]. cbn [mbind option_bind].
  rewrite Z.add_0_l in *. unfold m_num_blocks in *.
  set (S := la_sum (take m (drop i (m_blocks h)))) in *.
  assert (levels_ok (take m (drop i (m_blocks h)))) as Hlt by by apply Forall_take.
  pose proof (la_sum_bounds _ Hlt) as [HS _]. fold S in HS.
  assert (S ≤ la_sum (drop i (m_blocks h))) as HSle.
  { unfold S, la_sum. rewrite <-(take_drop m (drop i (m_blocks h))) at 2. rewrite map_app, sumZ_app.
    assert (levels_ok (drop m (drop i (m_blocks h)))) as Hld by by apply Forall_drop.
    pose proof (la_sum_bounds _ Hld) as [? _]. unfold la_sum in *. lia. }
  assert (m = Z.to_nat (Z.of_nat (length (m_blocks h)) - Z.of_nat i) →
    drop i (m_blocks h) = take m (drop i (m_blocks h))) as Hall.
  { intros ->. rewrite take_ge; [done|]. rewrite length_drop. lia. }
  assert (S = 0 → empty_from h i) as Hempty.
  { intros HS0. destruct Hd as [Hm0|[? _]]; [|lia]. pose proof (la_sum_0 _ Hlt HS0) as He.
    rewrite <-(Hall Hm0) in He. intros j k Hj Hk. rewrite Forall_lookup in He.
    apply (He (j - i)%nat k). rewrite lookup_drop. by replace (i + (j - i))%nat with j by lia. }
  case Z.ltb_spec; intros HS1; cbn [andb].
  2: { exists i, k0, h. split_and!; [done|by apply kept_refl|lia|done|]. intros _. apply Hempty. lia. }
  case Z.ltb_spec; intros Hmi.
  - destruct (GenerateRandom_spec S (m_heap_rng h)) as (r & g & -> & Hr & Hg); [lia|apply Hh|].
    cbn [mbind option_bind].
    replace (Z.to_nat (Z.of_nat (i + m) - Z.of_nat i)) with m by lia.
    pose proof (set_rng_kept h g Hh Hg) as K.
    destruct (Random_select_spec m (set_rng h g) i (Z.of_nat i) 0 r) as (j & k & -> & Hj & Hk & Hne);
      [done|lia|simpl; fold S; lia|]. cbn [mbind option_bind].
    exists j, k, (set_rng h g). split_and!; [done..|]. intros ?. done.
  - assert (m = 1%nat) as ->.
    { destruct m as [|m]; [|lia]. unfold S, la_sum, sumZ in HS1. cbn in HS1. lia. }
    exists i, k0, h. split_and!; [done|by apply kept_refl|lia|done|]. intros He. exfalso.
    destruct (la_spec k0 (ho_blocks h Hh i k0 Hk0) Hle) as [_ [_ Hz]].
    assert (S = level_alignments k0 needed shift) as E; [|cbn in Hz; rewrite (Hz He) in E; lia].
    unfold S. rewrite (drop_S _ _ _ Hk0). change (take 1 (k0 :: _)) with [k0].
    unfold la_sum, sumZ. cbn. lia.
Qed.
End Random.

(** ** The random allocation *)
Lemma align_shift_spec al :
  0 < al → al * PageSize ≤ 2 ^ 40 →
  12 ≤ countr_zero 64 (al * PageSize) < 64 ∧ 2 ^ countr_zero 64 (al * PageSize) ≤ al * PageSize.
Proof.
  intros Hal Hle.
  destruct (countr_zero_spec 64 (al * PageSize)) as (Hr & Ht & _);
    [unfold in_width, PageSize in *; lia|unfold PageSize; lia|].
  set (c := countr_zero 64 (al * PageSize)) in *. split.
  - split; [|lia]. destruct (Z.lt_ge_cases c 12); [|done].
    change PageSize with (2 ^ 12) in Ht. rewrite Z.mul_pow2_bits_low in Ht by lia. done.
  - assert (0 < al * PageSize) as Hpos by (unfold PageSize; lia).
    apply Z.log2_le_pow2; [done|]. destruct (Z.lt_ge_cases (Z.log2 (al * PageSize)) c); [|done].
    rewrite Z.bits_above_log2 in Ht by lia. done.
Qed.

Lemma AllocateByRandom_spec h i k0 n al :
  heap_ok h → m_blocks h !! i = Some k0 → 0 < n → n * PageSize ≤ l_size (layout k0) →
  0 < al → al * PageSize ≤ l_size (layout k0) → free_pages h < 2 ^ 29 →
  ∃ a h', AllocateByRandom h (Z.of_nat i) n al = Some (a, h')
    ∧ alloc_result h i (n * PageSize) a h' ∧ a mod 2 ^ countr_zero 64 (al * PageSize) = 0.
Proof.
  intros Hh Hk0 Hn Hnle Hal Halle Hfp. unfold AllocateByRandom.
  pose proof (l_size_pos _ (bo_layout _ (ho_blocks h Hh i k0 Hk0))) as Hs0.
  destruct (align_shift_spec al Hal) as [Hsh Hshle]; [lia|].
  rewrite (wrap_small 64 (al * PageSize)), (wrap_small 64 (n * PageSize))
    by (unfold in_width, PageSize in *; lia).
  set (shift := countr_zero 64 (al * PageSize)) in *. set (needed := n * PageSize) in *.
  assert (0 < needed) as Hnpos by (unfold needed, PageSize; lia).
  assert (needed mod PageSize = 0) as Hnm by by apply mul_mod_0.
  rewrite check_bind_Some by (apply Z.ltb_lt; lia).
  destruct (Random_index_spec needed shift Hsh Hnpos h i k0) as (j & k & h1 & -> & K & Hj & Hk & He); [done..|].
  cbn [mbind option_bind]. pose proof (kp_ok _ _ K) as Hh1.
  rewrite (get_block_lookup h1 j k) by done. cbn [mbind option_bind].
  destruct (PopBlock_heap h1 j k true Hh1 Hk) as (a & k' & -> & El & Hd). cbn [mbind option_bind].
  set (h2 := put_block h1 (Z.of_nat j) k') in *. destruct (blk_size_mod h1 j k Hh1 Hk) as [Hm Esz].
  assert (blk_GetSize k' = l_size (layout k)) as ->.
  { unfold blk_GetSize. change (m_block_shift k') with (l_shift (layout k')). by rewrite El, <-Esz. }
  destruct Hd as [(-> & Hem & K2)|(Ha & Hne & Hb & A)].
  { simpl. exists 0, h2. split_and!; [done| |apply Z.mod_0_l; lia].
    left. split_and!; [done|by apply He|by eapply kept_trans]. }
  rewrite (proj2 (Z.eqb_neq a 0)) by done. cbn [negb].
  pose proof (l_size_pos _ (bo_layout _ (ho_blocks h1 Hh1 j k Hk))) as Hs.
  assert (l_shift (layout k0) ≤ l_shift (layout k)) as Hshk.
  { destruct (kp_set _ _ K j k Hk) as (kj & Hkj & -> & _).
    by eapply (layouts_shift_le _ i j); [apply Hh| |apply heap_layout..]. }
  assert (l_size (layout k0) ≤ l_size (layout k)) as Hsle by (apply Z.pow_le_mono_r; lia).
  assert (a mod 2 ^ shift = 0) as Ham.
  { apply (pow2_mod_le _ _ (l_shift (layout k))); [|apply Hb]. split; [lia|].
    apply (Z.pow_le_mono_r_iff 2); [lia| |fold (l_size (layout k)); lia].
    pose proof (lo_shift _ (bo_layout _ (ho_blocks h1 Hh1 j k Hk))). lia. }
  assert (¬ empty_from h i) as Hnem.
  { destruct (kp_set _ _ K j k Hk) as (kj & Hkj & _ & Es). rewrite Es in Hne. by eapply not_empty_from. }
  assert (a mod PageSize = 0) as Hap by (eapply size_mod_page; [done..|apply Hb]).
  rewrite (wrap_small 64 (l_size (layout k) - needed)) by (unfold in_width; lia).
  case Z.ltb_spec; intros Hlo.
  2: { exists a, h2. split_and!; [done| |done]. right. split_and!; [done..|].
       eapply kept_allocated; [done|]. by replace needed with (l_size (layout k)) by lia. }
  rewrite Z.shiftr_div_pow2 by lia. set (lo := l_size (layout k) - needed) in *.
  assert (0 ≤ lo / 2 ^ shift ≤ 2 ^ 28) as Hq.
  { split; [apply Z.div_pos; lia|]. apply Z.div_le_upper_bound; [lia|].
    assert (2 ^ 12 ≤ 2 ^ shift) by (apply Z.pow_le_mono_r; lia). lia. }
  rewrite (wrap_small 64 (1 + _)) by (unfold in_width; lia).
  destruct (GenerateRandom_spec (1 + lo / 2 ^ shift) (m_heap_rng h2)) as (r & g & -> & Hr & Hg);
    [lia|apply A|]. cbn [mbind option_bind].
  assert (r * 2 ^ shift ≤ lo) as Hoff.
  { pose proof (Z.mul_div_le lo (2 ^ shift) ltac:(lia)). nia. }
  rewrite Z.shiftl_mul_pow2, (wrap_small 64 (r * _)) by (unfold in_width; nia || lia).
  set (off := r * 2 ^ shift) in *.
  assert (off mod 2 ^ shift = 0) as Hom by (apply mul_mod_0; lia).
  assert (off mod PageSize = 0) as Hop.
  { change PageSize with (2 ^ 12). apply (pow2_mod_le _ _ shift); [lia|done]. }
  assert (0 ≤ off) by (unfold off; nia).
  pose proof (set_rng_kept h2 g (al_ok _ _ _ _ A) Hg) as K2. set (h3 := set_rng h2 g) in *.
  pose proof (allocated_kept _ _ _ _ _ A K2) as A3.
  destruct (give_front h1 h3 a (l_size (layout k)) off Hh1 A3 Hap Hm Hop) as (Eo & h4 & E4 & A4); [lia|].
  assert (∃ h4', (if negb (off =? 0) then Free h3 a (off / PageSize) else Some h3) = Some h4'
    ∧ allocated h1 h4' (a + off) (l_size (layout k) - off)) as (h4' & -> & A4').
  { case Z.eqb_spec; intros Hz; [|by exists h4]. exists h3. rewrite Hz, Z.add_0_r, Z.sub_0_r. done. }
  cbn [mbind option_bind]. rewrite Eo.
  destruct (give_back h1 h4' (a + off) (l_size (layout k) - off) needed Hh1 A4') as (En & h5 & E5 & A5);
    [by apply mod_0_add|by apply mod_0_sub|done|lia|].
  rewrite En, (wrap_small 64 (lo - off)) by (unfold in_width; lia).
  replace (l_size (layout k) - off - needed) with (lo - off) in E5 by (unfold lo; lia).
  assert (∃ h5', (if negb (off =? lo) then Free h4' (a + off + needed) ((lo - off) / PageSize)
    else Some h4') = Some h5' ∧ allocated h1 h5' (a + off) needed) as (h5' & -> & A5').
  { case Z.eqb_spec; intros Hz; [|by exists h5]. exists h4'. split; [done|].
    replace needed with (l_size (layout k) - off) by lia. done. }
  cbn [mbind option_bind]. exists (a + off), h5'. split_and!; [done| |by apply mod_0_add; [lia|..]].
  right. assert (0 < a).
  { pose proof (ib_range _ _ Hb). pose proof (lo_addr _ (bo_layout _ (ho_blocks h1 Hh1 j k Hk))). lia. }
  split_and!; [lia|done|by eapply kept_allocated].
Qed.

Lemma AllocateBlock_spec h i k random :
  heap_ok h → m_blocks h !! i = Some k → free_pages h < 2 ^ 29 →
  ∃ a h', AllocateBlock h (Z.of_nat i) random = Some (a, h')
    ∧ alloc_result h i (l_size (layout k)) a h' ∧ a mod l_size (layout k) = 0.
Proof.
  intros Hh Hk Hfp. unfold AllocateBlock. destruct random; [|by apply AllocateByLinearSearch_spec].
  rewrite (get_block_lookup h i k) by done. cbn [mbind option_bind].
  destruct (blk_size_mod h i k Hh Hk) as [Hm Esz]. unfold blk_GetNumPages. rewrite Esz.
  pose proof (l_size_pos _ (bo_layout _ (ho_blocks h Hh i k Hk))) as Hs.
  pose proof (mod_0_mul (l_size (layout k)) PageSize ltac:(done) Hm) as E.
  assert (0 < l_size (layout k) / PageSize) by (apply Z.div_str_pos; unfold PageSize; lia).
  destruct (AllocateByRandom_spec h i k (l_size (layout k) / PageSize) (l_size (layout k) / PageSize))
    as (a & h' & -> & R & Ha); [done..|lia|done|lia|done|].
  rewrite <-E in R, Ha. exists a, h'. split_and!; [done..|].
  pose proof (lo_shift _ (bo_layout _ (ho_blocks h Hh i k Hk))) as Hsh.
  unfold l_size in Ha. rewrite countr_zero_pow2 in Ha by (simpl in *; lia). done.
Qed.

(** * The initial heap *)

(** Block shifts [Initialize] can be given: pages first, increasing. *)
Record shifts_ok (shifts : list Z) : Prop := {
  so_first s : shifts !! 0%nat = Some s → s = 12;
  so_length : (0 < length shifts ≤ 7)%nat;
  so_range i s : shifts !! i = Some s → 12 ≤ s ≤ 30;
  so_step i s s' : shifts !! i = Some s → shifts !! S i = Some s' → s < s'
}.

Lemma MemoryBlockPageShifts_ok : shifts_ok MemoryBlockPageShifts.
Proof.
  split; [intros s; cbn; congruence|cbn; lia| |];
    do 7 (destruct i as [|i]; [cbn; intros; simplify_eq; lia|]); done.
Qed.

Definition next_shift (shifts : list Z) : Z := match shifts with [] => 0 | s :: _ => s end.

Lemma span_bounds addr size align :
  2 ^ 30 ≤ addr → 0 < size ≤ 2 ^ 35 → addr + size ≤ 2 ^ 61 → 4096 ≤ align ≤ 2 ^ 30 →
  let a := AlignDown addr align in let e := AlignUp (addr + size) align in
  0 < a ≤ addr ∧ a mod align = 0 ∧ e mod align = 0 ∧ addr + size ≤ e ≤ 2 ^ 62
  ∧ e - a ≤ AlignUp size align + align ∧ AlignUp size align < size + align
  ∧ 0 ≤ AlignUp size align ∧ e - a < 2 ^ 64.
Proof.
  intros Ha Hs Hb Hal a e.
  destruct (AlignDown_mult addr align) as [Ha1 Ha2]; [unfold in_width; lia|lia|]. fold a in Ha1, Ha2.
  destruct (AlignUp_mult (addr + size) align) as [He1 He2]; [unfold in_width; lia|lia|lia|]. fold e in He1, He2.
  destruct (AlignUp_mult size align) as [Hz1 Hz2]; [unfold in_width; lia|lia|lia|].
  assert (e - a ≤ AlignUp size align + align).
  { destruct (Z.le_gt_cases (e - a) (AlignUp size align + align)) as [|Hgt]; [done|].
    assert ((AlignUp size align + align) mod align = 0).
    { apply mod_0_add; [lia|done|]. apply Z_mod_same_full. }
    pose proof (mod_0_lt _ (e - a) align ltac:(lia) H (mod_0_sub e a align ltac:(lia) He1 Ha1)
      ltac:(lia)). lia. }
  split_and!; lia.
Qed.

(** One level: the words its bitmap takes are within the share of the overhead. *)
Lemma blk_Initialize_spec (b : B) addr size bs nbs :
  2 ^ 30 ≤ addr → 0 < size ≤ 2 ^ 35 → addr + size ≤ 2 ^ 61 →
  12 ≤ bs ≤ 30 → nbs = 0 ∨ bs < nbs ≤ 30 →
  ∃ k words o, blk_Initialize b addr size bs nbs = Some (k, words)
    ∧ Block_CalculateManagementOverheadSize size bs nbs = Some o ∧ 0 ≤ words ∧ words * 8 ≤ o ≤ 2 ^ 40
    ∧ blk_ok k ∧ fb_set (m_bitmap k) = ∅ ∧ m_block_shift k = bs ∧ m_next_block_shift k = nbs
    ∧ let align := l_align (layout k) in
      l_addr (layout k) = AlignDown addr align ∧ l_last (layout k) = AlignUp (addr + size) align.
Proof.
  intros Ha Hs Hb Hbs Hn.
  unfold blk_Initialize, Block_CalculateManagementOverheadSize. rewrite !Z.shiftl_1_l.
  set (al := if negb (nbs =? 0) then 2 ^ nbs else 2 ^ bs).
  assert (∃ x, al = 2 ^ x ∧ bs ≤ x ≤ 30 ∧ x = if nbs =? 0 then bs else nbs) as (x & Eal & Hx & Ex).
  { unfold al. case Z.eqb_spec; intros; cbn [negb]; eexists; (split_and!; [done|lia..|done]). }
  assert (4096 ≤ al ≤ 2 ^ 30) as Hal.
  { rewrite Eal. change 4096 with (2 ^ 12). split; apply Z.pow_le_mono_r; lia. }
  rewrite (wrap_small 64 (addr + size)) by (unfold in_width; lia).
  destruct (span_bounds addr size al Ha Hs Hb Hal) as (Hd & Hdm & Hem & He & Hspan & Hau & Hau0 & Hw).
  set (a := AlignDown addr al) in *. set (e := AlignUp (addr + size) al) in *.
  rewrite (wrap_small 64 (e - a)), (wrap_small 64 (al * 2)), (wrap_small 64 (al * 2 + _))
    by (unfold in_width; lia).
  assert (0 < 2 ^ bs) as Hpos by (apply pow2_pos; lia).
  assert (4096 ≤ 2 ^ bs) as Hbig by (change 4096 with (2 ^ 12); apply Z.pow_le_mono_r; lia).
  set (eo := (e - a) / 2 ^ bs).
  assert ((e - a) mod 2 ^ bs = 0) as Hdiff.
  { apply (pow2_mod_le _ _ x); [lia|]. rewrite <-Eal. by apply mod_0_sub; [lia|..]. }
  assert (e - a = eo * 2 ^ bs) as Eeo by by apply mod_0_mul.
  assert (1 ≤ eo < 2 ^ 24) as Heo by nia.
  set (X := (al * 2 + AlignUp size al) / 2 ^ bs).
  assert (eo ≤ X ≤ 2 ^ 32) as HX.
  { split; [apply Z.div_le_mono; lia|]. apply Z.div_le_upper_bound; nia. }
  destruct (fb_Initialize_spec b eo Heo) as (b' & words & -> & Hwf & Hset & Hcap & Hov).
  destruct (CalculateManagementOverheadSize_mono eo X) as (s & s' & E1 & E2 & Hss); [lia|lia|].
  pose proof (CalculateManagementOverheadSize_le X s' ltac:(lia) E2).
  rewrite E1 in Hov. injection Hov as ->. cbn [mbind option_bind].
  eexists (MkBlock b' a eo bs nbs), words, s'.
  assert (l_align (layout (MkBlock b' a eo bs nbs)) = al) as El.
  { unfold l_align. simpl. by rewrite <-Ex, Eal. }
  assert (l_last (layout (MkBlock b' a eo bs nbs)) = e) as Elast.
  { unfold l_last, l_size. simpl. lia. }
  split_and!; try done; try lia; [|by rewrite El|by rewrite El].
  split; [|done|cbn [m_bitmap]; rewrite Hset; set_solver|done].
  split; rewrite ?El, ?Elast; simpl; [lia|destruct Hn; lia|lia|lia].
Qed.

(** All levels. *)
Lemma Initialize_blocks_spec (bms : list B) shifts addr size words ov :
  2 ^ 30 ≤ addr → 0 < size ≤ 2 ^ 35 → addr + size ≤ 2 ^ 61 →
  (length shifts ≤ length bms)%nat → Z.of_nat (length shifts) * 2 ^ 40 + ov ≤ 2 ^ 60 → 0 ≤ ov →
  (∀ i s, shifts !! i = Some s → 12 ≤ s ≤ 30) →
  (∀ i s s', shifts !! i = Some s → shifts !! S i = Some s' → s < s') →
  ∃ ks w o, Initialize_blocks bms shifts addr size words = Some (ks, words + w)
    ∧ KPageHeap_CalculateManagementOverheadSize_loop size shifts ov = Some (ov + o)
    ∧ 0 ≤ w ∧ w * 8 ≤ o ∧ ov + o ≤ 2 ^ 60 ∧ length ks = length shifts
    ∧ ∀ i k, ks !! i = Some k → blk_ok k ∧ fb_set (m_bitmap k) = ∅
        ∧ shifts !! i = Some (m_block_shift k)
        ∧ m_next_block_shift k = next_shift (drop (S i) shifts)
        ∧ l_addr (layout k) = AlignDown addr (l_align (layout k))
        ∧ l_last (layout k) = AlignUp (addr + size) (l_align (layout k)).
Proof.
  intros Ha Hs Hb. revert bms words ov. induction shifts as [|bs shifts IH];
    intros bms words ov Hlen Hov Hov0 Hr Hst.
  { assert (Initialize_blocks bms [] addr size words = Some ([], words)) as -> by by destruct bms.
    exists [], 0, 0. rewrite !Z.add_0_r. change (length []) with 0%nat in Hov.
    split_and!; [done|done|lia|lia|lia|done|done]. }
  destruct bms as [|bm bms]; [simpl in Hlen; lia|].
  cbn [Initialize_blocks KPageHeap_CalculateManagementOverheadSize_loop]. fold (next_shift shifts).
  assert (next_shift shifts = 0 ∨ bs < next_shift shifts ≤ 30) as Hn.
  { destruct shifts as [|s' shifts]; [by left|right]. simpl.
    pose proof (Hst 0%nat bs s' eq_refl eq_refl). pose proof (Hr 1%nat s' eq_refl). lia. }
  destruct (blk_Initialize_spec bm addr size bs (next_shift shifts) Ha Hs Hb (Hr 0%nat bs eq_refl) Hn)
    as (k & w & o & -> & -> & Hw & Hwo & Hk & Hset & Ebs & En & El1 & El2).
  cbn [mbind option_bind]. cbn [length] in Hlen, Hov.
  rewrite (wrap_small 64 (ov + o)) by (unfold in_width; lia).
  destruct (IH bms (words + w) (ov + o)) as (ks & w' & o' & -> & -> & Hw' & Hwo' & Hb' & Hl & Hks);
    [lia|lia|lia|intros i s; apply (Hr (S i))|intros i s s'; apply (Hst (S i))|].
  cbn [mbind option_bind]. exists (k :: ks), (w + w'), (o + o').
  split_and!; [f_equal; f_equal; lia|f_equal; lia|lia|lia|lia|cbn; lia|].
  intros [|i] k'; cbn [lookup list_lookup]; [|apply Hks].
  intros [= <-]. split_and!; try done. cbn. congruence.
Qed.

Lemma align_nested addr size x y :
  2 ^ 30 ≤ addr → 0 < size ≤ 2 ^ 35 → addr + size ≤ 2 ^ 61 → 12 ≤ x ≤ y → y ≤ 30 →
  AlignDown addr (2 ^ y) ≤ AlignDown addr (2 ^ x)
  ∧ AlignUp (addr + size) (2 ^ x) ≤ AlignUp (addr + size) (2 ^ y).
Proof.
  intros Ha Hs Hb Hx Hy.
  assert (0 < 2 ^ x ≤ 2 ^ y) as Hp by (split; [apply pow2_pos; lia|apply Z.pow_le_mono_r; lia]).
  assert (2 ^ y ≤ 2 ^ 30) by (apply Z.pow_le_mono_r; lia).
  destruct (AlignDown_mult addr (2 ^ x)) as [D1 D2]; [unfold in_width; lia|lia|].
  destruct (AlignDown_mult addr (2 ^ y)) as [D3 D4]; [unfold in_width; lia|lia|].
  destruct (AlignUp_mult (addr + size) (2 ^ x)) as [U1 U2]; [unfold in_width; lia|lia|lia|].
  destruct (AlignUp_mult (addr + size) (2 ^ y)) as [U3 U4]; [unfold in_width; lia|lia|lia|].
  apply (pow2_mod_le _ x) in D3, U3; [|lia..]. split.
  - destruct (Z.le_gt_cases (AlignDown addr (2 ^ y)) (AlignDown addr (2 ^ x))) as [|Hgt]; [done|].
    pose proof (mod_0_lt _ _ (2 ^ x) ltac:(lia) D1 D3 ltac:(lia)). lia.
  - destruct (Z.le_gt_cases (AlignUp (addr + size) (2 ^ x)) (AlignUp (addr + size) (2 ^ y))) as [|Hgt]; [done|].
    pose proof (mod_0_lt _ _ (2 ^ x) ltac:(lia) U3 U1 ltac:(lia)). lia.
Qed.

Lemma lookup_next_shift shifts i : next_shift (drop i shifts) = default 0 (shifts !! i).
Proof.
  revert i. induction shifts as [|s shifts IH]; intros [|i]; cbn; try done; apply IH.
Qed.

Lemma initial_layouts shifts addr size (ks : list (Block (B := B))) :
  shifts_ok shifts → 2 ^ 30 ≤ addr → 0 < size ≤ 2 ^ 35 → addr + size ≤ 2 ^ 61 →
  length ks = length shifts →
  (∀ i k, ks !! i = Some k → blk_ok k ∧ fb_set (m_bitmap k) = ∅
        ∧ shifts !! i = Some (m_block_shift k)
        ∧ m_next_block_shift k = next_shift (drop (S i) shifts)
        ∧ l_addr (layout k) = AlignDown addr (l_align (layout k))
        ∧ l_last (layout k) = AlignUp (addr + size) (l_align (layout k))) →
  layouts_ok (map layout ks).
Proof.
  intros Hso Ha Hs Hb Hlen Hks.
  assert (∀ i l, map layout ks !! i = Some l → ∃ k, ks !! i = Some k ∧ l = layout k) as Hlk.
  { intros i l. rewrite map_lookup. destruct (ks !! i) as [k|]; [|done]. intros [= <-]. by exists k. }
  split.
  - intros l (k & Hk & ->)%Hlk. destruct (Hks _ _ Hk) as (_ & _ & E & _). apply (so_first _ Hso _ E).
  - rewrite length_map, Hlen. apply Hso.
  - intros i l (k & Hk & ->)%Hlk. apply (Hks _ _ Hk).
  - intros i l l' (k & Hk & ->)%Hlk (k' & Hk' & ->)%Hlk.
    destruct (Hks _ _ Hk) as (Hok & _ & E & En & A1 & A2).
    destruct (Hks _ _ Hk') as (Hok' & _ & E' & En' & A1' & A2').
    rewrite lookup_next_shift, E' in En. simpl in En.
    pose proof (so_step _ Hso _ _ _ E E'). pose proof (so_range _ Hso _ _ E). pose proof (so_range _ Hso _ _ E').
    assert (l_align (layout k) = 2 ^ m_block_shift k') as El.
    { unfold l_align. simpl. rewrite En. case Z.eqb_spec; [lia|done]. }
    assert (∃ y, l_align (layout k') = 2 ^ y ∧ m_block_shift k' ≤ y ≤ 30) as (y & El' & Hy).
    { unfold l_align. simpl. case Z.eqb_spec; intros Hz;
        [by exists (m_block_shift k'); split; [done|lia]|exists (m_next_block_shift k'); split; [done|]].
      rewrite lookup_next_shift in En'. destruct (shifts !! S (S i)) as [s2|] eqn:E2; [|done].
      pose proof (so_step _ Hso _ _ _ E' E2). pose proof (so_range _ Hso _ _ E2). simpl in En'. lia. }
    rewrite A1, A2, A1', A2', El, El'. split; [done|]. apply align_nested; lia.
  - intros i l (k & Hk & ->)%Hlk Hi. destruct (Hks _ _ Hk) as (_ & _ & _ & En & _). simpl.
    rewrite En, lookup_next_shift. rewrite length_map in Hi. by rewrite lookup_ge_None_2 by lia.
Qed.

(** A fresh heap is well formed, has no free page and its bitmaps fit the management area of
    [CalculateManagementOverheadSize] bytes. *)
Lemma Initialize_heap_spec h (bms : list B) host_base addr size maddr msize shifts ov :
  shifts_ok shifts → (length shifts ≤ length bms)%nat → rng_ok (m_heap_rng h) →
  addr mod PageSize = 0 → size mod PageSize = 0 →
  2 ^ 30 ≤ addr → 0 < size ≤ 2 ^ 35 → addr + size ≤ 2 ^ 61 →
  KPageHeap_CalculateManagementOverheadSize size shifts = Some ov →
  0 ≤ host_base → host_base + ov ≤ maddr + msize < 2 ^ 64 → 0 ≤ maddr →
  ∃ h', Initialize h bms host_base addr size maddr msize shifts = Some h' ∧ heap_ok h'
    ∧ (∀ p, ¬ free_page h' p) ∧ free_pages h' = 0 ∧ in_region h' addr size
    ∧ m_heap_address h' = addr ∧ m_heap_size h' = size ∧ length (m_blocks h') = length shifts
    ∧ ∀ i k, m_blocks h' !! i = Some k → shifts !! i = Some (m_block_shift k).
Proof.
  intros Hso Hlen Hrng Ha0 Hs0 Ha Hs Hb Hov Hhb Hme Hma. unfold Initialize.
  change PageSize with (2 ^ 12) in Ha0, Hs0 |- *.
  rewrite !IsAligned_pow2 by (unfold in_width; lia). rewrite Ha0, Hs0.
  pose proof (so_length _ Hso). cbn [Z.eqb check mbind option_bind].
  rewrite check_bind_Some
    by (unfold NumMemoryBlockPageShifts; apply andb_true_iff; split; [apply Z.ltb_lt|apply Z.leb_le]; lia).
  unfold KPageHeap_CalculateManagementOverheadSize in Hov.
  destruct (Initialize_blocks_spec bms shifts addr size 0 0) as (ks & w & o & -> & E2 & Hw & Hwo & Hob & Hl & Hks);
    [done..|lia|lia|apply Hso|apply Hso|]. rewrite E2 in Hov. cbn [mbind option_bind] in *.
  injection Hov as Hov. rewrite !Z.add_0_l in *.
  destruct (AlignUp_mult o PageSize) as [_ Hup]; [unfold in_width; lia|done|unfold PageSize; lia|].
  rewrite check_bind_Some by (rewrite !wrap_small by (unfold in_width; lia); apply Z.leb_le; lia).
  set (h' := MkHeap addr size (m_initial_used_size h) ks (m_heap_rng h) (msize / 8)).
  pose proof (initial_layouts shifts addr size ks Hso Ha Hs Hb Hl Hks) as Hlay.
  assert (∀ p, ¬ free_page h' p) as Hnf.
  { intros p (i & k & Hk & Hp). destruct (Hks _ _ Hk) as (_ & Hset & _).
    unfold blk_page in Hp. set_solver. }
  exists h'. split_and!; [done| |done| | |done..|].
  - split; [done| | | |done].
    + intros i k Hk. apply (Hks _ _ Hk).
    + intros i j ki kj p Hi _ Hp _. destruct (Hnf p). by exists i, ki.
    + intros p Hp. by destruct (Hnf p).
  - unfold free_pages. simpl. clear -Hks. assert (Forall (λ k, blk_count k = 0) ks) as HF.
    { apply Forall_lookup. intros i k Hk. destruct (Hks i k Hk) as (_ & Hset & _).
      unfold blk_count. by rewrite Hset, size_empty. }
    clear Hks. induction HF as [|k ks E _ IH]; unfold sumZ in *; cbn; [done|lia].
  - destruct (lookup_lt_is_Some_2 ks 0) as [k Hk]; [lia|]. exists (layout k).
    destruct (Hks _ _ Hk) as (Hok & _ & E & _ & -> & ->). simpl. rewrite map_lookup, Hk.
    assert (4096 ≤ l_align (layout k) ≤ 2 ^ 40).
    { pose proof (lo_shift _ (bo_layout _ Hok)). pose proof (lo_next _ (bo_layout _ Hok)).
      unfold l_align. change 4096 with (2 ^ 12). case Z.eqb_spec; intros; split; apply Z.pow_le_mono_r; lia. }
    destruct (AlignDown_mult addr (l_align (layout k))) as [_ ?]; [unfold in_width; lia|lia|].
    destruct (AlignUp_mult (addr + size) (l_align (layout k))) as [_ ?]; [unfold in_width; lia|lia|lia|].
    split_and!; [done|lia|lia].
  - intros i k Hk. by apply (Hks i k Hk).
Qed.

(** * Properties *)

(** C34: freeing a page range that is in use never fails, whatever its alignment: afterwards the
    free pages are exactly the old ones and the range, the heap is in order (the bitmaps agree
    with their summaries and counts, and no page lies in two free blocks), and the number of
    free pages has grown by the length of the range. *)
Theorem Free_correct h (addr num_pages : Z) :
  heap_ok h → addr mod PageSize = 0 → 0 ≤ num_pages →
  in_region h addr (num_pages * PageSize) →
  (∀ p, page_in addr (num_pages * PageSize) p → ¬ free_page h p) →
  ∃ h', Free h addr num_pages = Some h' ∧ heap_ok h' ∧ same_frame h h'
    ∧ (∀ p, free_page h' p ↔ free_page h p ∨ page_in addr (num_pages * PageSize) p)
    ∧ GetNumFreePages h' = GetNumFreePages h + num_pages.
Proof.
  intros Hh Ha Hn Hr Ht. destruct (Free_spec h addr num_pages Hh Ha Hn Hr Ht) as (h' & E & [H1 H2 H3 H4]).
  rewrite Z.div_mul in H4 by done. exists h'. split_and!; try done.
  rewrite (proj1 (GetNumFreePages_eq h Hh)), (proj1 (GetNumFreePages_eq h' H1)). lia.
Qed.

(** The linear allocation of a block answers 0 exactly when no level of that size or larger
    has a free block; otherwise it takes one block's worth of pages that were all free, aligned
    to the block size, and gives back the rest of a larger block it split. *)
Theorem AllocateByLinearSearch_correct h (i : nat) k :
  heap_ok h → m_blocks h !! i = Some k →
  ∃ a h', AllocateByLinearSearch h (Z.of_nat i) = Some (a, h') ∧ heap_ok h'
    ∧ (a = 0 ↔ empty_from h i) ∧ a mod blk_GetSize k = 0
    ∧ (a = 0 → ∀ p, free_page h' p ↔ free_page h p)
    ∧ (a ≠ 0 → (∀ p, page_in a (blk_GetSize k) p → free_page h p)
         ∧ (∀ p, free_page h' p ↔ free_page h p ∧ ¬ page_in a (blk_GetSize k) p)
         ∧ GetNumFreePages h' = GetNumFreePages h - blk_GetNumPages k).
Proof.
  intros Hh Hk. destruct (AllocateByLinearSearch_spec h i k Hh Hk) as (a & h' & E & R & Ha).
  unfold blk_GetNumPages. destruct (blk_size_mod h i k Hh Hk) as [_ ->]. exists a, h'.
  destruct R as [(-> & Hem & K)|(Hne & Hem & [H1 H2 H3 H4 H5])].
  - split_and!; [done|apply K|done|done| |done]. intros _ p. by apply kept_free.
  - split_and!; [done..|by split|done|done|]. intros _. split_and!; [done..|].
    rewrite (proj1 (GetNumFreePages_eq h Hh)), (proj1 (GetNumFreePages_eq h' H1)). lia.
Qed.

(** The random allocation of [num_pages] aligned pages answers 0 exactly when no level that
    can serve the request has a free block; the level it draws has one, and the range it carves
    out of the block was free, has the requested length and alignment, and everything else of
    the block is free again. *)
Theorem AllocateByRandom_correct h (i : nat) k (num_pages align_pages : Z) :
  heap_ok h → m_blocks h !! i = Some k →
  0 < num_pages ≤ blk_GetNumPages k → 0 < align_pages ≤ blk_GetNumPages k →
  GetNumFreePages h < 2 ^ 29 →
  ∃ a h', AllocateByRandom h (Z.of_nat i) num_pages align_pages = Some (a, h') ∧ heap_ok h'
    ∧ (a = 0 ↔ empty_from h i) ∧ a mod 2 ^ countr_zero 64 (align_pages * PageSize) = 0
    ∧ (a = 0 → ∀ p, free_page h' p ↔ free_page h p)
    ∧ (a ≠ 0 → (∀ p, page_in a (num_pages * PageSize) p → free_page h p)
         ∧ (∀ p, free_page h' p ↔ free_page h p ∧ ¬ page_in a (num_pages * PageSize) p)
         ∧ GetNumFreePages h' = GetNumFreePages h - num_pages).
Proof.
  intros Hh Hk Hn Hal Hfp. destruct (blk_size_mod h i k Hh Hk) as [Hm Esz].
  unfold blk_GetNumPages in Hn, Hal. rewrite Esz in Hn, Hal.
  pose proof (mod_0_mul _ PageSize ltac:(done) Hm) as E0.
  rewrite (proj1 (GetNumFreePages_eq h Hh)) in *.
  destruct (AllocateByRandom_spec h i k num_pages align_pages) as (a & h' & E & R & Ha);
    [done|done|lia|unfold PageSize in *; lia|lia|unfold PageSize in *; lia|done|].
  exists a, h'. destruct R as [(-> & Hem & K)|(Hne & Hem & [H1 H2 H3 H4 H5])].
  - split_and!; [done|apply K|done|done| |done]. intros _ p. by apply kept_free.
  - split_and!; [done..|by split|done|done|]. intros _. split_and!; [done..|].
    rewrite (proj1 (GetNumFreePages_eq h' H1)). rewrite Z.div_mul in H5 by done. lia.
Qed.

(** Initialising a heap over a page-aligned region, with a management area of the computed
    overhead size, succeeds: the heap is well formed, has no free page, and every page of the
    region belongs to it, so that all of it can be freed afterwards. *)
Theorem Initialize_fits h (bms : list B) (host_base addr size maddr msize ov : Z) :
  length bms = 7%nat → rng_ok (m_heap_rng h) →
  addr mod PageSize = 0 → size mod PageSize = 0 →
  2 ^ 30 ≤ addr → 0 < size ≤ 2 ^ 35 → addr + size ≤ 2 ^ 61 →
  KPageHeap_CalculateManagementOverheadSize size MemoryBlockPageShifts = Some ov →
  0 ≤ host_base → host_base + ov ≤ maddr + msize < 2 ^ 64 → 0 ≤ maddr →
  ∃ h' h2, Initialize h bms host_base addr size maddr msize MemoryBlockPageShifts = Some h'
    ∧ heap_ok h' ∧ GetNumFreePages h' = 0 ∧ (∀ p, ¬ free_page h' p)
    ∧ Free h' addr (size / PageSize) = Some h2
    ∧ (∀ p, free_page h2 p ↔ page_in addr size p) ∧ GetFreeSize h2 = size.
Proof.
  intros Hlen Hg Ha0 Hs0 Ha Hs Hb Hov H1 H2 H3.
  destruct (Initialize_heap_spec h bms host_base addr size maddr msize MemoryBlockPageShifts ov)
    as (h' & E & Hh & Hnf & Hc & Hr & _); try done.
  { apply MemoryBlockPageShifts_ok. }
  { rewrite Hlen. cbn. lia. }
  pose proof (mod_0_mul size PageSize ltac:(done) Hs0) as Es.
  assert (0 < size / PageSize) by (unfold PageSize in *; lia).
  destruct (Free_spec h' addr (size / PageSize)) as (h2 & E2 & F); [done..|lia|by rewrite <-Es|by intros p _|].
  rewrite <-Es in F. destruct (GetNumFreePages_eq h' Hh) as [C1 _].
  destruct (GetNumFreePages_eq h2 (fr_ok _ _ _ _ F)) as [C2 _].
  exists h', h2. split_and!; try done.
  - by rewrite C1.
  - intros p. rewrite (fr_pages _ _ _ _ F). specialize (Hnf p). tauto.
  - unfold GetFreeSize. rewrite C2, (fr_count _ _ _ _ F), Hc, Z.add_0_l, <-Es.
    apply wrap_small. unfold in_width. lia.
Qed.

End PageHeapAlloc.

(** ** Witnesses: 1 MiB of memory at 2 GiB *)
Definition example_bitmaps : list KPageBitmap := replicate 7 no_bitmap.
Definition no_heap : KPageHeap (B := KPageBitmap) := MkHeap 0 0 0 [] example_rng 0.

Lemma example_overhead :
  KPageHeap_CalculateManagementOverheadSize (2 ^ 20) MemoryBlockPageShifts = Some 4096.
Proof. vm_compute. reflexivity. Qed.

Ltac example_side :=
  first [exact example_overhead | exact example_rng_ok | exact MemoryBlockPageShifts_ok | lia | done].

Lemma example_heap :
  ∃ h k, heap_ok h ∧ (∀ p, ¬ free_page h p) ∧ free_pages h = 0 ∧ in_region h (2 ^ 31) (2 ^ 20)
    ∧ m_blocks h !! 0%nat = Some k ∧ blk_GetSize k = PageSize.
Proof.
  destruct (Initialize_heap_spec no_heap example_bitmaps 0 (2 ^ 31) (2 ^ 20) 0 (2 ^ 20) MemoryBlockPageShifts 4096)
    as (h & _ & Hh & Hnf & Hc & Hr & _ & _ & Hlen & Hks); try example_side.
  destruct (lookup_lt_is_Some_2 (m_blocks h) 0) as [k Hk]; [rewrite Hlen; cbn; lia|].
  exists h, k. split_and!; try done. unfold blk_GetSize. specialize (Hks 0%nat k Hk). by injection Hks as <-.
Qed.

Lemma Free_correct_witness :
  ∃ (h h' : KPageHeap (B := KPageBitmap)), heap_ok h' ∧ Free h (2 ^ 31) 20 = Some h'
    ∧ GetNumFreePages h' = GetNumFreePages h + 20.
Proof.
  destruct example_heap as (h & k & Hh & Hnf & _ & Hr & _).
  destruct (Free_correct h (2 ^ 31) 20) as (h' & E & H & _ & _ & Hn);
    [done|done|lia|eapply in_region_sub; [done|lia|unfold PageSize; lia]|by intros p _|].
  exists h, h'. done.
Defined.

Lemma example_freed_heap :
  ∃ (h : KPageHeap (B := KPageBitmap)) k, heap_ok h ∧ free_pages h = 20 ∧ free_page h (2 ^ 19)
    ∧ m_blocks h !! 0%nat = Some k ∧ blk_GetSize k = PageSize ∧ ¬ empty_from h 0.
Proof.
  destruct example_heap as (h & k & Hh & Hnf & Hc & Hr & Hk & Esz).
  destruct (Free_spec h (2 ^ 31) 20) as (h' & E & F);
    [done|done|lia|eapply in_region_sub; [done|lia|unfold PageSize; lia]|by intros p _|].
  destruct (freed_level _ _ _ _ _ _ F Hk) as (k' & Hk' & El).
  assert (free_page h' (2 ^ 19)) as Hp.
  { apply (fr_pages _ _ _ _ F). right. unfold page_in, PageSize. lia. }
  exists h', k'. split_and!; [apply F|rewrite (fr_count _ _ _ _ F), Hc; done|done|done| |].
  - rewrite <-Esz. unfold blk_GetSize. change (m_block_shift k') with (l_shift (layout k')). by rewrite El.
  - intros He. destruct Hp as (j & kj & Hj & Hp). unfold blk_page in Hp.
    rewrite (He j kj) in Hp by (done || lia). set_solver.
Qed.

Lemma AllocateByLinearSearch_correct_witness :
  ∃ (h h' : KPageHeap (B := KPageBitmap)) a, AllocateByLinearSearch h 0 = Some (a, h') ∧ a ≠ 0.
Proof.
  destruct example_freed_heap as (h & k & Hh & _ & _ & Hk & _ & Hne).
  destruct (AllocateByLinearSearch_correct h 0 k Hh Hk) as (a & h' & E & _ & Ha & _).
  exists h, h', a. split; [exact E|]. by rewrite Ha.
Defined.

Lemma AllocateByRandom_correct_witness :
  ∃ (h h' : KPageHeap (B := KPageBitmap)) a, AllocateByRandom h 0 1 1 = Some (a, h') ∧ a ≠ 0.
Proof.
  destruct example_freed_heap as (h & k & Hh & Hc & _ & Hk & Esz & Hne).
  destruct (AllocateByRandom_correct h 0 k 1 1 Hh Hk) as (a & h' & E & _ & Ha & _).
  - unfold blk_GetNumPages. rewrite Esz. done.
  - unfold blk_GetNumPages. rewrite Esz. done.
  - rewrite (proj1 (GetNumFreePages_eq h Hh)), Hc. lia.
  - exists h, h', a. split; [exact E|]. by rewrite Ha.
Defined.

Lemma Initialize_fits_witness :
  ∃ h' h2, Initialize no_heap example_bitmaps 0 (2 ^ 31) (2 ^ 20) 0 (2 ^ 20) MemoryBlockPageShifts = Some h'
    ∧ Free h' (2 ^ 31) 256 = Some h2 ∧ GetFreeSize h2 = 2 ^ 20.
Proof.
  destruct (Initialize_fits no_heap example_bitmaps 0 (2 ^ 31) (2 ^ 20) 0 (2 ^ 20) 4096)
    as (h' & h2 & E & _ & _ & _ & E2 & _ & E3);
    [reflexivity|exact example_rng_ok|reflexivity|reflexivity|lia|lia|lia|exact example_overhead|lia|lia|lia|].
  exists h', h2. split; [exact E|split; [exact E2|exact E3]].
Defined.
