(* ===== verification/MemoryBlock.v ===== *)
(** [KMemoryBlock] (src/src/core/hle/kernel/k_memory_block.h): memory states, permissions and
    attributes, a block of consecutive pages with the same properties, and every operation on
    one block, with its counters at 16 bits. *)
From S2P Require Import Prelude Common.

(** * Memory states *)
Module Svc.
Module MemoryState.
Definition Free : Z := 0x00.
Definition Io : Z := 0x01.
Definition Static : Z := 0x02.
Definition Code : Z := 0x03.
Definition CodeData : Z := 0x04.
Definition Normal : Z := 0x05.
Definition Shared : Z := 0x06.
Definition AliasCode : Z := 0x08.
Definition AliasCodeData : Z := 0x09.
Definition Ipc : Z := 0x0A.
Definition Stack : Z := 0x0B.
Definition ThreadLocal : Z := 0x0C.
Definition Transferred : Z := 0x0D.
Definition SharedTransferred : Z := 0x0E.
Definition SharedCode : Z := 0x0F.
Definition Inaccessible : Z := 0x10.
Definition NonSecureIpc : Z := 0x11.
Definition NonDeviceIpc : Z := 0x12.
Definition Kernel : Z := 0x13.
Definition GeneratedCode : Z := 0x14.
Definition CodeOut : Z := 0x15.
Definition Coverage : Z := 0x16.
Definition Insecure : Z := 0x17.
End MemoryState.

Module MemoryPermission.
Definition None_ : Z := 0.
Definition Read : Z := 1.
Definition Write : Z := 2.
Definition Execute : Z := 4.
Definition DontCare : Z := Z.shiftl 1 28.
End MemoryPermission.

Module MemoryAttribute.
Definition Locked : Z := 1.
Definition IpcLocked : Z := 2.
Definition DeviceShared : Z := 4.
Definition Uncached : Z := 8.
Definition PermissionLocked : Z := 16.
End MemoryAttribute.
End Svc.

Module KMemoryState.
Definition Mask : Z := 0xFF.
Definition FlagCanReprotect : Z := Z.shiftl 1 8.
Definition FlagCanDebug : Z := Z.shiftl 1 9.
Definition FlagCanUseIpc : Z := Z.shiftl 1 10.
Definition FlagCanUseNonDeviceIpc : Z := Z.shiftl 1 11.
Definition FlagCanUseNonSecureIpc : Z := Z.shiftl 1 12.
Definition FlagMapped : Z := Z.shiftl 1 13.
Definition FlagCode : Z := Z.shiftl 1 14.
Definition FlagCanAlias : Z := Z.shiftl 1 15.
Definition FlagCanCodeAlias : Z := Z.shiftl 1 16.
Definition FlagCanTransfer : Z := Z.shiftl 1 17.
Definition FlagCanQueryPhysical : Z := Z.shiftl 1 18.
Definition FlagCanDeviceMap : Z := Z.shiftl 1 19.
Definition FlagCanAlignedDeviceMap : Z := Z.shiftl 1 20.
Definition FlagCanIpcUserBuffer : Z := Z.shiftl 1 21.
Definition FlagReferenceCounted : Z := Z.shiftl 1 22.
Definition FlagCanMapProcess : Z := Z.shiftl 1 23.
Definition FlagCanChangeAttribute : Z := Z.shiftl 1 24.
Definition FlagCanCodeMemory : Z := Z.shiftl 1 25.
Definition FlagLinearMapped : Z := Z.shiftl 1 26.
Definition FlagCanPermissionLock : Z := Z.shiftl 1 27.

Definition flags (l : list Z) : Z := foldr Z.lor 0 l.

Definition FlagsData : Z :=
  flags [FlagCanReprotect; FlagCanUseIpc; FlagCanUseNonDeviceIpc; FlagCanUseNonSecureIpc;
         FlagMapped; FlagCanAlias; FlagCanTransfer; FlagCanQueryPhysical;
         FlagCanDeviceMap; FlagCanAlignedDeviceMap; FlagCanIpcUserBuffer;
         FlagReferenceCounted; FlagCanChangeAttribute; FlagLinearMapped].
Definition FlagsCode : Z :=
  flags [FlagCanDebug; FlagCanUseIpc; FlagCanUseNonDeviceIpc; FlagCanUseNonSecureIpc;
         FlagMapped; FlagCode; FlagCanQueryPhysical; FlagCanDeviceMap;
         FlagCanAlignedDeviceMap; FlagReferenceCounted; FlagLinearMapped].
Definition FlagsMisc : Z :=
  flags [FlagMapped; FlagReferenceCounted; FlagCanQueryPhysical; FlagCanDeviceMap; FlagLinearMapped].

(** The enumerators, in the order of the source. *)
Definition Free : Z := Svc.MemoryState.Free.
Definition IoMemory : Z :=
  flags [Svc.MemoryState.Io; FlagMapped; FlagCanDeviceMap; FlagCanAlignedDeviceMap].
Definition IoRegister : Z := flags [Svc.MemoryState.Io; FlagCanDeviceMap; FlagCanAlignedDeviceMap].
Definition Static : Z := flags [Svc.MemoryState.Static; FlagMapped; FlagCanQueryPhysical].
Definition Code : Z := flags [Svc.MemoryState.Code; FlagsCode; FlagCanMapProcess].
Definition CodeData : Z :=
  flags [Svc.MemoryState.CodeData; FlagsData; FlagCanMapProcess; FlagCanCodeMemory;
         FlagCanPermissionLock].
Definition Normal : Z := flags [Svc.MemoryState.Normal; FlagsData; FlagCanCodeMemory].
Definition Shared : Z :=
  flags [Svc.MemoryState.Shared; FlagMapped; FlagReferenceCounted; FlagLinearMapped].
Definition AliasCode : Z :=
  flags [Svc.MemoryState.AliasCode; FlagsCode; FlagCanMapProcess; FlagCanCodeAlias].
Definition AliasCodeData : Z :=
  flags [Svc.MemoryState.AliasCodeData; FlagsData; FlagCanMapProcess; FlagCanCodeAlias;
         FlagCanCodeMemory; FlagCanPermissionLock].
Definition Ipc : Z :=
  flags [Svc.MemoryState.Ipc; FlagsMisc; FlagCanAlignedDeviceMap; FlagCanUseIpc;
         FlagCanUseNonSecureIpc; FlagCanUseNonDeviceIpc].
Definition Stack : Z :=
  flags [Svc.MemoryState.Stack; FlagsMisc; FlagCanAlignedDeviceMap; FlagCanUseIpc;
         FlagCanUseNonSecureIpc; FlagCanUseNonDeviceIpc].
Definition ThreadLocal : Z := flags [Svc.MemoryState.ThreadLocal; FlagLinearMapped].
Definition Transferred : Z :=
  flags [Svc.MemoryState.Transferred; FlagsMisc; FlagCanAlignedDeviceMap; FlagCanChangeAttribute;
         FlagCanUseIpc; FlagCanUseNonSecureIpc; FlagCanUseNonDeviceIpc].
Definition SharedTransferred : Z :=
  flags [Svc.MemoryState.SharedTransferred; FlagsMisc; FlagCanAlignedDeviceMap;
         FlagCanUseNonSecureIpc; FlagCanUseNonDeviceIpc].
Definition SharedCode : Z :=
  flags [Svc.MemoryState.SharedCode; FlagMapped; FlagReferenceCounted; FlagLinearMapped;
         FlagCanUseNonSecureIpc; FlagCanUseNonDeviceIpc].
Definition Inaccessible : Z := Svc.MemoryState.Inaccessible.
Definition NonSecureIpc : Z :=
  flags [Svc.MemoryState.NonSecureIpc; FlagsMisc; FlagCanAlignedDeviceMap; FlagCanUseNonSecureIpc;
         FlagCanUseNonDeviceIpc].
Definition NonDeviceIpc : Z :=
  flags [Svc.MemoryState.NonDeviceIpc; FlagsMisc; FlagCanUseNonDeviceIpc].
Definition Kernel : Z := Svc.MemoryState.Kernel.
Definition GeneratedCode : Z :=
  flags [Svc.MemoryState.GeneratedCode; FlagMapped; FlagReferenceCounted; FlagCanDebug;
         FlagLinearMapped].
Definition CodeOut : Z :=
  flags [Svc.MemoryState.CodeOut; FlagMapped; FlagReferenceCounted; FlagLinearMapped].
Definition Coverage : Z := flags [Svc.MemoryState.Coverage; FlagMapped].
Definition Insecure : Z :=
  flags [Svc.MemoryState.Insecure; FlagMapped; FlagReferenceCounted; FlagLinearMapped;
         FlagCanChangeAttribute; FlagCanDeviceMap; FlagCanAlignedDeviceMap; FlagCanQueryPhysical;
         FlagCanUseNonSecureIpc; FlagCanUseNonDeviceIpc].

(** The values the source asserts statically. *)
Example states :
  [Free; IoMemory; IoRegister; Static; Code; CodeData; Normal; Shared; AliasCode; AliasCodeData;
   Ipc; Stack; ThreadLocal; Transferred; SharedTransferred; SharedCode; Inaccessible; NonSecureIpc;
   NonDeviceIpc; Kernel; GeneratedCode; CodeOut; Coverage; Insecure]
  = [0x00000000; 0x00182001; 0x00180001; 0x00042002; 0x04DC7E03; 0x0FFEBD04; 0x077EBD05; 0x04402006;
     0x04DD7E08; 0x0FFFBD09; 0x045C3C0A; 0x045C3C0B; 0x0400000C; 0x055C3C0D; 0x045C380E; 0x0440380F;
     0x00000010; 0x045C3811; 0x044C2812; 0x00000013; 0x04402214; 0x04402015; 0x00002016; 0x055C3817].
Proof. vm_compute. reflexivity. Qed.
End KMemoryState.

(** * Permissions and attributes *)
Module KMemoryPermission.
Definition None_ : Z := 0.
Definition KernelShift : Z := 3.
Definition KernelRead : Z := u8 (Z.shiftl Svc.MemoryPermission.Read KernelShift).
Definition KernelWrite : Z := u8 (Z.shiftl Svc.MemoryPermission.Write KernelShift).
Definition KernelExecute : Z := u8 (Z.shiftl Svc.MemoryPermission.Execute KernelShift).
Definition NotMapped : Z := Z.shiftl 1 (2 * KernelShift).
Definition KernelReadWrite : Z := Z.lor KernelRead KernelWrite.
Definition KernelReadExecute : Z := Z.lor KernelRead KernelExecute.
Definition UserRead : Z := Z.lor Svc.MemoryPermission.Read KernelRead.
Definition UserWrite : Z := Z.lor Svc.MemoryPermission.Write KernelWrite.
Definition UserExecute : Z := Svc.MemoryPermission.Execute.
Definition UserReadWrite : Z := Z.lor UserRead UserWrite.
Definition UserReadExecute : Z := Z.lor UserRead UserExecute.
Definition UserMask : Z :=
  Z.lor Svc.MemoryPermission.Read (Z.lor Svc.MemoryPermission.Write Svc.MemoryPermission.Execute).
Definition IpcLockChangeMask : Z := Z.lor NotMapped UserReadWrite.
End KMemoryPermission.

Definition ConvertToKMemoryPermission (perm : Z) : Z :=
  Z.lor (Z.lor (Z.lor (Z.land (u8 perm) KMemoryPermission.UserMask) KMemoryPermission.KernelRead)
               (u8 (Z.shiftl (Z.land (u8 perm) KMemoryPermission.UserWrite) KMemoryPermission.KernelShift)))
        (if perm =? Svc.MemoryPermission.None_ then KMemoryPermission.NotMapped
         else KMemoryPermission.None_).

Module KMemoryAttribute.
Definition None_ : Z := 0x00.
Definition All : Z := 0xFF.
Definition UserMask : Z := All.
Definition Locked : Z := Svc.MemoryAttribute.Locked.
Definition IpcLocked : Z := Svc.MemoryAttribute.IpcLocked.
Definition DeviceShared : Z := Svc.MemoryAttribute.DeviceShared.
Definition Uncached : Z := Svc.MemoryAttribute.Uncached.
Definition PermissionLocked : Z := Svc.MemoryAttribute.PermissionLocked.
Definition SetMask : Z := Z.lor Uncached PermissionLocked.
End KMemoryAttribute.

Module DisableMerge.
Definition None_ : Z := 0.
Definition Normal : Z := Z.shiftl 1 0.
Definition DeviceLeft : Z := Z.shiftl 1 1.
Definition IpcLeft : Z := Z.shiftl 1 2.
Definition Locked : Z := Z.shiftl 1 3.
Definition DeviceRight : Z := Z.shiftl 1 4.
Definition AllLeft : Z := Z.lor (Z.lor (Z.lor Normal DeviceLeft) IpcLeft) Locked.
Definition AllRight : Z := DeviceRight.
End DisableMerge.

(** [~x] on the 8-bit enumerations. *)
Definition not8 (x : Z) : Z := lnotw 8 x.

(** * [KMemoryInfo] *)
Record KMemoryInfo := MkInfo {
  i_address : Z;
  i_size : Z;
  i_state : Z;
  i_device_disable_merge_left_count : Z;
  i_device_disable_merge_right_count : Z;
  i_ipc_lock_count : Z;
  i_device_use_count : Z;
  i_ipc_disable_merge_count : Z;
  i_permission : Z;
  i_attribute : Z;
  i_original_permission : Z;
  i_disable_merge_attribute : Z
}.
Definition info_GetEndAddress (i : KMemoryInfo) : Z := u64 (i_address i + i_size i).
Definition info_GetLastAddress (i : KMemoryInfo) : Z := u64 (info_GetEndAddress i - 1).
Definition info_GetNumPages (i : KMemoryInfo) : Z := i_size i / PageSize.
Definition info_GetSvcState (i : KMemoryInfo) : Z := Z.land (i_state i) KMemoryState.Mask.

(** * [KMemoryBlock] *)
Record KMemoryBlock := MkBlock {
  m_device_disable_merge_left_count : Z;
  m_device_disable_merge_right_count : Z;
  m_address : Z;
  m_num_pages : Z;
  m_memory_state : Z;
  m_ipc_lock_count : Z;
  m_device_use_count : Z;
  m_ipc_disable_merge_count : Z;
  m_permission : Z;
  m_original_permission : Z;
  m_attribute : Z;
  m_disable_merge_attribute : Z
}.

Definition GetSize (b : KMemoryBlock) : Z := u64 (m_num_pages b * PageSize).
Definition GetEndAddress (b : KMemoryBlock) : Z := u64 (m_address b + GetSize b).
Definition GetLastAddress (b : KMemoryBlock) : Z := u64 (GetEndAddress b - 1).

Definition Compare (lhs rhs : KMemoryBlock) : Z :=
  if m_address lhs <? m_address rhs then -1
  else if m_address lhs <=? GetLastAddress rhs then 0
  else 1.

Definition GetMemoryInfo (b : KMemoryBlock) : KMemoryInfo :=
  MkInfo (m_address b) (GetSize b) (m_memory_state b) (m_device_disable_merge_left_count b)
    (m_device_disable_merge_right_count b) (m_ipc_lock_count b) (m_device_use_count b)
    (m_ipc_disable_merge_count b) (m_permission b) (m_attribute b) (m_original_permission b)
    (m_disable_merge_attribute b).

(** The constructor, and [Initialize], which keeps [m_ipc_disable_merge_count]. *)
Definition KMemoryBlock_new (addr np ms p attr : Z) : KMemoryBlock :=
  MkBlock 0 0 addr np ms 0 0 0 p KMemoryPermission.None_ attr DisableMerge.None_.
Definition Initialize (b : KMemoryBlock) (addr np ms p attr : Z) : KMemoryBlock :=
  MkBlock 0 0 addr np ms 0 0 (m_ipc_disable_merge_count b) p KMemoryPermission.None_ attr
    DisableMerge.None_.

Definition AttributeIgnoreMask : Z := Z.lor KMemoryAttribute.IpcLocked KMemoryAttribute.DeviceShared.
Definition HasProperties (b : KMemoryBlock) (s p a : Z) : bool :=
  (m_memory_state b =? s) && (m_permission b =? p)
  && (Z.lor (m_attribute b) AttributeIgnoreMask =? Z.lor a AttributeIgnoreMask).

Definition HasSameProperties (b rhs : KMemoryBlock) : bool :=
  (m_memory_state b =? m_memory_state rhs) && (m_permission b =? m_permission rhs)
  && (m_original_permission b =? m_original_permission rhs)
  && (m_attribute b =? m_attribute rhs) && (m_ipc_lock_count b =? m_ipc_lock_count rhs)
  && (m_device_use_count b =? m_device_use_count rhs).

Definition CanMergeWith (b rhs : KMemoryBlock) : bool :=
  HasSameProperties b rhs
  && (Z.land (m_disable_merge_attribute b) DisableMerge.AllRight =? DisableMerge.None_)
  && (Z.land (m_disable_merge_attribute rhs) DisableMerge.AllLeft =? DisableMerge.None_).

Definition Contains (b : KMemoryBlock) (addr : Z) : bool :=
  (m_address b <=? addr) && (addr <=? GetEndAddress b).

(** ** Field updates *)
Definition set_range (b : KMemoryBlock) (addr np : Z) : KMemoryBlock :=
  MkBlock (m_device_disable_merge_left_count b) (m_device_disable_merge_right_count b) addr np
    (m_memory_state b) (m_ipc_lock_count b) (m_device_use_count b) (m_ipc_disable_merge_count b)
    (m_permission b) (m_original_permission b) (m_attribute b) (m_disable_merge_attribute b).
Definition set_merge (b : KMemoryBlock) (left right ipc attr : Z) : KMemoryBlock :=
  MkBlock left right (m_address b) (m_num_pages b)
    (m_memory_state b) (m_ipc_lock_count b) (m_device_use_count b) ipc
    (m_permission b) (m_original_permission b) (m_attribute b) attr.
Definition set_props (b : KMemoryBlock) (state lock use perm orig attr : Z) : KMemoryBlock :=
  MkBlock (m_device_disable_merge_left_count b) (m_device_disable_merge_right_count b)
    (m_address b) (m_num_pages b) state lock use (m_ipc_disable_merge_count b) perm orig attr
    (m_disable_merge_attribute b).
Definition set_disable_merge (b : KMemoryBlock) (attr : Z) : KMemoryBlock :=
  set_merge b (m_device_disable_merge_left_count b) (m_device_disable_merge_right_count b)
    (m_ipc_disable_merge_count b) attr.

Definition has_flag (x flag : Z) : bool := Z.land x flag =? flag.

(** ** Operations *)
Definition Add (b added : KMemoryBlock) : option KMemoryBlock :=
  check (0 <? m_num_pages added);;
  check (u64 (u64 (m_address b + GetSize added) - 1) <? u64 (u64 (GetEndAddress b + GetSize added) - 1));;
  Some (set_merge (set_range b (m_address b) (u64 (m_num_pages b + m_num_pages added)))
          (m_device_disable_merge_left_count b) (m_device_disable_merge_right_count added)
          (m_ipc_disable_merge_count b)
          (Z.lor (m_disable_merge_attribute b) (m_disable_merge_attribute added))).

Definition Update (b : KMemoryBlock) (s p a : Z) (set_disable_merge_attr : bool)
    (set_mask clear_mask : Z) : option KMemoryBlock :=
  check (m_original_permission b =? KMemoryPermission.None_);;
  check (Z.land (m_attribute b) KMemoryAttribute.IpcLocked =? KMemoryAttribute.None_);;
  let b := set_props b s (m_ipc_lock_count b) (m_device_use_count b) p (m_original_permission b)
             (Z.lor a (Z.land (m_attribute b)
                              (Z.lor KMemoryAttribute.IpcLocked KMemoryAttribute.DeviceShared))) in
  let b := if set_disable_merge_attr && negb (set_mask =? 0)
           then set_disable_merge b (Z.lor (m_disable_merge_attribute b) set_mask) else b in
  let b := if negb (clear_mask =? 0)
           then set_disable_merge b (Z.land (m_disable_merge_attribute b) (not8 clear_mask)) else b in
  Some b.

Definition UpdateAttribute (b : KMemoryBlock) (mask attr : Z) : option KMemoryBlock :=
  check (Z.land mask KMemoryAttribute.IpcLocked =? 0);;
  check (Z.land mask KMemoryAttribute.DeviceShared =? 0);;
  Some (set_props b (m_memory_state b) (m_ipc_lock_count b) (m_device_use_count b) (m_permission b)
          (m_original_permission b) (Z.lor (Z.land (m_attribute b) (not8 mask)) attr)).

(** [Split] writes the pages before [addr] to the new block, of which it assigns every field:
    the first component is the new block, the second the rest of [b]. *)
Definition Split (b : KMemoryBlock) (addr : Z) : option (KMemoryBlock * KMemoryBlock) :=
  check (m_address b <? addr);;
  check (Contains b addr);;
  check (IsAligned addr PageSize);;
  let np := u64 (addr - m_address b) / PageSize in
  let block :=
    MkBlock (m_device_disable_merge_left_count b) 0 (m_address b) np (m_memory_state b)
      (m_ipc_lock_count b) (m_device_use_count b) (m_ipc_disable_merge_count b) (m_permission b)
      (m_original_permission b) (m_attribute b)
      (Z.land (m_disable_merge_attribute b) DisableMerge.AllLeft) in
  let b := set_range b addr (u64 (m_num_pages b - np)) in
  let b := set_merge b 0 (m_device_disable_merge_right_count b) 0
             (Z.land (m_disable_merge_attribute b) DisableMerge.AllRight) in
  Some (block, b).

(** ** Device sharing *)
Definition UpdateDeviceDisableMergeStateForShareLeft (b : KMemoryBlock) (left : bool)
    : option KMemoryBlock :=
  if left then
    let count := u16 (m_device_disable_merge_left_count b + 1) in
    check (0 <? count);;
    Some (set_merge b count (m_device_disable_merge_right_count b) (m_ipc_disable_merge_count b)
            (Z.lor (m_disable_merge_attribute b) DisableMerge.DeviceLeft))
  else Some b.

Definition UpdateDeviceDisableMergeStateForShareRight (b : KMemoryBlock) (right : bool)
    : option KMemoryBlock :=
  if right then
    let count := u16 (m_device_disable_merge_right_count b + 1) in
    check (0 <? count);;
    Some (set_merge b (m_device_disable_merge_left_count b) count (m_ipc_disable_merge_count b)
            (Z.lor (m_disable_merge_attribute b) DisableMerge.DeviceRight))
  else Some b.

Definition UpdateDeviceDisableMergeStateForShare (b : KMemoryBlock) (left right : bool)
    : option KMemoryBlock :=
  b ← UpdateDeviceDisableMergeStateForShareLeft b left;
  UpdateDeviceDisableMergeStateForShareRight b right.

Definition ShareToDevice (b : KMemoryBlock) (new_perm : Z) (left right : bool) : option KMemoryBlock :=
  check (has_flag (m_attribute b) KMemoryAttribute.DeviceShared || (m_device_use_count b =? 0));;
  let new_count := u16 (m_device_use_count b + 1) in
  check (0 <? new_count);;
  let b := set_props b (m_memory_state b) (m_ipc_lock_count b) new_count (m_permission b)
             (m_original_permission b) (Z.lor (m_attribute b) KMemoryAttribute.DeviceShared) in
  UpdateDeviceDisableMergeStateForShare b left right.

Definition UpdateDeviceDisableMergeStateForUnshareLeft (b : KMemoryBlock) (left : bool)
    : KMemoryBlock :=
  if left && (m_device_disable_merge_left_count b =? 0) then b
  else
    let count := if left then u16 (m_device_disable_merge_left_count b - 1)
                 else m_device_disable_merge_left_count b in
    let count := Z.min count (m_device_use_count b) in
    set_merge b count (m_device_disable_merge_right_count b) (m_ipc_disable_merge_count b)
      (if count =? 0 then Z.land (m_disable_merge_attribute b) (not8 DisableMerge.DeviceLeft)
       else m_disable_merge_attribute b).

Definition UpdateDeviceDisableMergeStateForUnshareRight (b : KMemoryBlock) (right : bool)
    : option KMemoryBlock :=
  if right then
    let old_count := m_device_disable_merge_right_count b in
    check (0 <? old_count);;
    Some (set_merge b (m_device_disable_merge_left_count b) (u16 (old_count - 1))
            (m_ipc_disable_merge_count b)
            (if old_count =? 1 then Z.land (m_disable_merge_attribute b) (not8 DisableMerge.DeviceRight)
             else m_disable_merge_attribute b))
  else Some b.

Definition UpdateDeviceDisableMergeStateForUnshare (b : KMemoryBlock) (left right : bool)
    : option KMemoryBlock :=
  UpdateDeviceDisableMergeStateForUnshareRight
    (UpdateDeviceDisableMergeStateForUnshareLeft b left) right.

(** The part [UnshareToDevice] and [UnshareToDeviceRight] have in common. *)
Definition drop_device_use (b : KMemoryBlock) : option KMemoryBlock :=
  check (has_flag (m_attribute b) KMemoryAttribute.DeviceShared);;
  let old_count := m_device_use_count b in
  check (0 <? old_count);;
  Some (set_props b (m_memory_state b) (m_ipc_lock_count b) (u16 (old_count - 1)) (m_permission b)
          (m_original_permission b)
          (if old_count =? 1 then Z.land (m_attribute b) (not8 KMemoryAttribute.DeviceShared)
           else m_attribute b)).

Definition UnshareToDevice (b : KMemoryBlock) (new_perm : Z) (left right : bool) : option KMemoryBlock :=
  b ← drop_device_use b;
  UpdateDeviceDisableMergeStateForUnshare b left right.

Definition UnshareToDeviceRight (b : KMemoryBlock) (new_perm : Z) (left right : bool)
    : option KMemoryBlock :=
  b ← drop_device_use b;
  UpdateDeviceDisableMergeStateForUnshareRight b right.

(** ** Ipc locking *)
Definition LockForIpc (b : KMemoryBlock) (new_perm : Z) (left right : bool) : option KMemoryBlock :=
  check (has_flag (m_attribute b) KMemoryAttribute.IpcLocked || (m_ipc_lock_count b =? 0));;
  let new_lock_count := u16 (m_ipc_lock_count b + 1) in
  check (0 <? new_lock_count);;
  '(perm, orig) ←
    (if new_lock_count =? 1 then
       check (m_original_permission b =? KMemoryPermission.None_);;
       check (Z.lor (Z.lor (m_permission b) new_perm) KMemoryPermission.NotMapped
              =? Z.lor (m_permission b) KMemoryPermission.NotMapped);;
       check (negb (has_flag (m_permission b) KMemoryPermission.UserExecute)
              || (new_perm =? KMemoryPermission.UserRead));;
       Some (Z.lor (Z.land new_perm KMemoryPermission.IpcLockChangeMask)
                   (Z.land (m_permission b) (not8 KMemoryPermission.IpcLockChangeMask)),
             m_permission b)
     else Some (m_permission b, m_original_permission b));
  let b := set_props b (m_memory_state b) new_lock_count (m_device_use_count b) perm orig
             (Z.lor (m_attribute b) KMemoryAttribute.IpcLocked) in
  if left then
    let count := u16 (m_ipc_disable_merge_count b + 1) in
    check (0 <? count);;
    Some (set_merge b (m_device_disable_merge_left_count b) (m_device_disable_merge_right_count b)
            count (Z.lor (m_disable_merge_attribute b) DisableMerge.IpcLeft))
  else Some b.

Definition UnlockForIpc (b : KMemoryBlock) (new_perm : Z) (left right : bool) : option KMemoryBlock :=
  check (has_flag (m_attribute b) KMemoryAttribute.IpcLocked);;
  let old_lock_count := m_ipc_lock_count b in
  check (0 <? old_lock_count);;
  '(perm, orig, attr) ←
    (if old_lock_count =? 1 then
       check (negb (m_original_permission b =? KMemoryPermission.None_));;
       Some (m_original_permission b, KMemoryPermission.None_,
             Z.land (m_attribute b) (not8 KMemoryAttribute.IpcLocked))
     else Some (m_permission b, m_original_permission b, m_attribute b));
  let b := set_props b (m_memory_state b) (u16 (old_lock_count - 1)) (m_device_use_count b) perm orig attr in
  if left then
    let old_count := m_ipc_disable_merge_count b in
    check (0 <? old_count);;
    Some (set_merge b (m_device_disable_merge_left_count b) (m_device_disable_merge_right_count b)
            (u16 (old_count - 1))
            (if old_count =? 1 then Z.land (m_disable_merge_attribute b) (not8 DisableMerge.IpcLeft)
             else m_disable_merge_attribute b))
  else Some b.
