(* ===== verification/MemoryBlockManager.v ===== *)
(** [KMemoryBlockManager] and its update allocator (src/src/core/hle/kernel/k_memory_block_manager.h,
    k_memory_block_manager.cpp): the map of an address space as an ordered tree of blocks.

    The intrusive red-black tree is modelled by its in-order list; an iterator is a position in
    the list, [length] being [end()]; dereferencing [end()] is a failure. [tree_find] and
    [tree_insert] are the searches by [Compare] that [find] and [insert] perform. *)
From S2P Require Import Prelude Common MemoryBlock.

(** * The tree *)
Abbreviation tree := (list KMemoryBlock).

Fixpoint tree_find (key : KMemoryBlock) (t : tree) : nat :=
  match t with
  | [] => 0
  | b :: t => if Compare key b =? 0 then 0 else S (tree_find key t)
  end.

(** The position at which the block was inserted; a block that compares equal to the inserted
    one would be left out of the tree, which is a failure here. *)
Fixpoint tree_insert (b : KMemoryBlock) (t : tree) : option (nat * tree) :=
  match t with
  | [] => Some (0%nat, [b])
  | x :: t' =>
      if Compare b x =? 0 then None
      else if Compare b x <? 0 then Some (0%nat, b :: t)
      else '(i, t') ← tree_insert b t'; Some (S i, x :: t')
  end.

Definition tree_erase (i : nat) (t : tree) : tree := delete i t.

(** * The update allocator

    [m_blocks] records which of the [MaxBlocks] slots hold a block, [slab] the number of blocks
    the slab manager has left; the contents of a free block are never read. *)
Definition MaxBlocks : nat := 2.
Record UpdateAllocator := MkAllocator {
  m_blocks : list bool;
  m_index : nat;
  m_slab : nat
}.

(** [ResultOutOfResource] is [false]. *)
Fixpoint Allocator_Initialize_loop (n i : nat) (a : UpdateAllocator) : bool * UpdateAllocator :=
  match n with
  | O => (true, a)
  | S n =>
      match m_slab a with
      | O => (false, a)
      | S slab =>
          Allocator_Initialize_loop n (S i)
            (MkAllocator (<[(m_index a + i)%nat := true]> (m_blocks a)) (m_index a) slab)
      end
  end.
Definition Allocator_Initialize (slab num_blocks : nat) : option (bool * UpdateAllocator) :=
  check (bool_decide (num_blocks ≤ MaxBlocks)%nat);;
  Some (Allocator_Initialize_loop num_blocks 0
          (MkAllocator [false; false] (MaxBlocks - num_blocks) slab)).

(** The destructor gives the remaining blocks back to the slab manager. *)
Definition Allocator_Finalize (a : UpdateAllocator) : nat :=
  (m_slab a + length (filter (λ b : bool, b = true) (m_blocks a)))%nat.

Definition Allocate (a : UpdateAllocator) : option UpdateAllocator :=
  check (bool_decide (m_index a < MaxBlocks)%nat);;
  check (default false (m_blocks a !! m_index a));;
  Some (MkAllocator (<[m_index a := false]> (m_blocks a)) (S (m_index a)) (m_slab a)).

Definition Free (a : UpdateAllocator) : option UpdateAllocator :=
  check (bool_decide (m_index a ≤ MaxBlocks)%nat);;
  match m_index a with
  | O => Some (MkAllocator (m_blocks a) 0 (S (m_slab a)))
  | S i => Some (MkAllocator (<[i := true]> (m_blocks a)) i (m_slab a))
  end.

(** * The manager *)
Record KMemoryBlockManager := MkManager {
  m_memory_block_tree : tree;
  m_start_address : Z;
  m_end_address : Z
}.
Definition set_tree (m : KMemoryBlockManager) (t : tree) : KMemoryBlockManager :=
  MkManager t (m_start_address m) (m_end_address m).

(** [start_block] is the block the slab manager returned, [None] when it has none. *)
Definition Initialize (st nd : Z) (start_block : option KMemoryBlock)
    : option (option KMemoryBlockManager) :=
  match start_block with
  | None => Some None
  | Some b =>
      check (IsAligned st PageSize);;
      check (IsAligned nd PageSize);;
      let b := MemoryBlock.Initialize b st (u64 (nd - st) / PageSize) KMemoryState.Free
                 KMemoryPermission.None_ KMemoryAttribute.None_ in
      '(_, t) ← tree_insert b [];
      Some (Some (MkManager t st nd))
  end.

(** [Finalize]: the callback arguments in order, and the number of blocks freed. *)
Fixpoint Finalize (t : tree) : list (Z * Z) * nat :=
  match t with
  | [] => ([], 0%nat)
  | b :: t => let (calls, n) := Finalize t in ((m_address b, GetSize b) :: calls, S n)
  end.

Definition FindIterator (m : KMemoryBlockManager) (address : Z) : nat :=
  tree_find (KMemoryBlock_new address 1 KMemoryState.Free KMemoryPermission.None_
               KMemoryAttribute.None_) (m_memory_block_tree m).
Definition FindBlock (m : KMemoryBlockManager) (address : Z) : option KMemoryBlock :=
  m_memory_block_tree m !! FindIterator m address.

(** ** [FindFreeArea]: the loop over the blocks from the iterator on *)
Definition free_area_candidate (region_start alignment offset guard_pages : Z) (b : KMemoryBlock) : Z :=
  let area := if m_address b <=? region_start then region_start else m_address b in
  let area := u64 (area + guard_pages * PageSize) in
  let offset_area := u64 (AlignDown area alignment + offset) in
  if area <=? offset_area then offset_area else u64 (offset_area + alignment).

Fixpoint FindFreeArea_loop (t : tree) (region_start region_last num_pages alignment offset guard_pages : Z) : Z :=
  match t with
  | [] => 0
  | b :: t =>
      let info := GetMemoryInfo b in
      if region_last <? i_address info then 0
      else if negb (i_state info =? KMemoryState.Free) then
        FindFreeArea_loop t region_start region_last num_pages alignment offset guard_pages
      else
        let area := free_area_candidate region_start alignment offset guard_pages b in
        let area_end := u64 (area + num_pages * PageSize + guard_pages * PageSize) in
        let area_last := u64 (area_end - 1) in
        if (i_address info <=? area) && (area <? area_last) && (area_last <=? region_last)
           && (area_last <=? info_GetLastAddress info) then area
        else FindFreeArea_loop t region_start region_last num_pages alignment offset guard_pages
  end.

Definition FindFreeArea (m : KMemoryBlockManager)
    (region_start region_num_pages num_pages alignment offset guard_pages : Z) : Z :=
  if 0 <? num_pages then
    let region_end := u64 (region_start + region_num_pages * PageSize) in
    let region_last := u64 (region_end - 1) in
    FindFreeArea_loop (drop (FindIterator m region_start) (m_memory_block_tree m))
      region_start region_last num_pages alignment offset guard_pages
  else 0.

(** ** Updates *)

(** [CoalesceForUpdate]: [it] is the iterator at the top of the loop; each round moves on by a
    block or removes one, so the number of blocks bounds the rounds. *)
Fixpoint Coalesce_loop (fuel : nat) (al : UpdateAllocator) (t : tree) (it : nat) (end_ : Z)
    : option (UpdateAllocator * tree) :=
  match fuel with
  | O => None
  | S fuel =>
      prev ← t !! it;
      match t !! S it with
      | None => Some (al, t)
      | Some b =>
          if CanMergeWith prev b then
            let t := tree_erase (S it) t in
            prev ← Add prev b;
            let t := <[it := prev]> t in
            al ← Free al;
            if end_ <? info_GetEndAddress (GetMemoryInfo prev) then Some (al, t)
            else Coalesce_loop fuel al t it end_
          else
            if end_ <? info_GetEndAddress (GetMemoryInfo b) then Some (al, t)
            else Coalesce_loop fuel al t (S it) end_
      end
  end.

Definition CoalesceForUpdate (m : KMemoryBlockManager) (al : UpdateAllocator) (address num_pages : Z)
    : option (UpdateAllocator * KMemoryBlockManager) :=
  let it := FindIterator m address in
  it ← (if negb (address =? m_start_address m) then check (bool_decide (0 < it)%nat);; Some (pred it)
        else Some it);
  '(al, t) ← Coalesce_loop (length (m_memory_block_tree m)) al (m_memory_block_tree m) it
               (u64 (address + num_pages * PageSize));
  Some (al, set_tree m t).

(** Advancing over a block that is left as it is. *)
Definition advance (cur_address remaining_size : Z) (cur_info : KMemoryInfo) : Z * Z :=
  if u64 (cur_address + remaining_size) <? info_GetEndAddress cur_info then
    (u64 (cur_address + remaining_size), 0)
  else (info_GetEndAddress cur_info,
        u64 (u64 (cur_address + remaining_size) - info_GetEndAddress cur_info) / PageSize).

(** The two splits that isolate the pages to change: the result is the allocator, the tree and
    the iterator. *)
Definition split_before (al : UpdateAllocator) (t : tree) (it : nat) (cur_address : Z)
    : option (UpdateAllocator * tree * nat * Z) :=
  b ← t !! it;
  if negb (m_address b =? cur_address) then
    al ← Allocate al;
    '(new_block, b) ← Split b cur_address;
    '(it, t) ← tree_insert new_block (<[it := b]> t);
    b ← t !! S it;
    Some (al, t, S it, m_address b)
  else Some (al, t, it, cur_address).

Definition split_after (al : UpdateAllocator) (t : tree) (it : nat) (cur_address remaining_size : Z)
    : option (UpdateAllocator * tree * nat) :=
  b ← t !! it;
  if remaining_size <? GetSize b then
    al ← Allocate al;
    '(new_block, b) ← Split b (u64 (cur_address + remaining_size));
    '(it, t) ← tree_insert new_block (<[it := b]> t);
    Some (al, t, it)
  else Some (al, t, it).

(** The loop of the four updates: [skip] is the condition under which a block is passed over,
    [act] the change of an isolated block. Every round consumes a page. *)
Fixpoint update_loop (fuel : nat) (skip : KMemoryBlock → bool) (act : KMemoryBlock → option KMemoryBlock)
    (al : UpdateAllocator) (t : tree) (it : nat) (cur_address remaining_pages : Z)
    : option (UpdateAllocator * tree) :=
  match fuel with
  | O => None
  | S fuel =>
      if 0 <? remaining_pages then
        let remaining_size := u64 (remaining_pages * PageSize) in
        b ← t !! it;
        if skip b then
          let (cur_address, remaining_pages) := advance cur_address remaining_size (GetMemoryInfo b) in
          update_loop fuel skip act al t (S it) cur_address remaining_pages
        else
          '(al, t, it, cur_address) ← split_before al t it cur_address;
          '(al, t, it) ← split_after al t it cur_address remaining_size;
          b ← t !! it;
          b' ← act b;
          update_loop fuel skip act al (<[it := b']> t) (S it) (u64 (cur_address + GetSize b))
            (u64 (remaining_pages - info_GetNumPages (GetMemoryInfo b)))
      else Some (al, t)
  end.

Definition run_update (m : KMemoryBlockManager) (skip : KMemoryBlock → bool)
    (act : KMemoryBlock → option KMemoryBlock) (al : UpdateAllocator) (address num_pages : Z)
    : option (UpdateAllocator * KMemoryBlockManager) :=
  '(al, t) ← update_loop (S (Z.to_nat num_pages)) skip act al (m_memory_block_tree m)
               (FindIterator m address) address num_pages;
  CoalesceForUpdate (set_tree m t) al address num_pages.

Definition Update (m : KMemoryBlockManager) (al : UpdateAllocator)
    (address num_pages state perm attr set_disable_attr clear_disable_attr : Z)
    : option (UpdateAllocator * KMemoryBlockManager) :=
  check (IsAligned address PageSize);;
  check (Z.land attr AttributeIgnoreMask =? KMemoryAttribute.None_);;
  run_update m (λ b, HasProperties b state perm attr)
    (λ b, MemoryBlock.Update b state perm attr (m_address b =? address) set_disable_attr
            clear_disable_attr)
    al address num_pages.

Definition UpdateIfMatch (m : KMemoryBlockManager) (al : UpdateAllocator)
    (address num_pages test_state test_perm test_attr state perm attr set_disable_attr
     clear_disable_attr : Z) : option (UpdateAllocator * KMemoryBlockManager) :=
  check (IsAligned address PageSize);;
  check (Z.land attr AttributeIgnoreMask =? KMemoryAttribute.None_);;
  run_update m
    (λ b, negb (HasProperties b test_state test_perm test_attr
                && negb (HasProperties b state perm attr)))
    (λ b, MemoryBlock.Update b state perm attr false set_disable_attr clear_disable_attr)
    al address num_pages.

(** [lock_func] is one of the operations of [KMemoryBlock] with its two side flags. *)
Definition UpdateLock (m : KMemoryBlockManager) (al : UpdateAllocator) (address num_pages : Z)
    (lock_func : KMemoryBlock → Z → bool → bool → option KMemoryBlock) (perm : Z)
    : option (UpdateAllocator * KMemoryBlockManager) :=
  check (IsAligned address PageSize);;
  let end_address := u64 (address + num_pages * PageSize) in
  run_update m (λ _, false)
    (λ b, lock_func b perm (m_address b =? address) (GetEndAddress b =? end_address))
    al address num_pages.

Definition UpdateAttribute (m : KMemoryBlockManager) (al : UpdateAllocator)
    (address num_pages mask attr : Z) : option (UpdateAllocator * KMemoryBlockManager) :=
  check (IsAligned address PageSize);;
  run_update m (λ b, Z.land (m_attribute b) mask =? attr)
    (λ b, MemoryBlock.UpdateAttribute b mask attr) al address num_pages.

(** ** [CheckState] *)
Definition counts_ok (b : KMemoryBlock) : bool :=
  negb (negb (Z.land (m_attribute b) KMemoryAttribute.IpcLocked =? KMemoryAttribute.None_)
        && (m_ipc_lock_count b =? 0))
  && negb (negb (Z.land (m_attribute b) KMemoryAttribute.DeviceShared =? KMemoryAttribute.None_)
           && (m_device_use_count b =? 0)).

(** [prev] is the previous block; each block after the first one is compared with it, and the
    block the loop ends on is checked once more. An empty tree has no iterator to advance. *)
Fixpoint CheckState_loop (prev : KMemoryBlock) (t : tree) : bool :=
  match t with
  | [] => counts_ok prev
  | cur :: t =>
      negb (CanMergeWith prev cur)
      && (GetEndAddress prev =? m_address cur)
      && counts_ok cur
      && CheckState_loop cur t
  end.
Definition CheckState (m : KMemoryBlockManager) : option bool :=
  match m_memory_block_tree m with
  | [] => None
  | b :: t => Some (CheckState_loop b t)
  end.

(** * Blocks as ranges of pages with properties *)

(** What [HasSameProperties] compares. *)
Record Props := MkProps {
  p_state : Z; p_perm : Z; p_orig : Z; p_attr : Z; p_lock : Z; p_use : Z
}.
Definition props_of (b : KMemoryBlock) : Props :=
  MkProps (m_memory_state b) (m_permission b) (m_original_permission b) (m_attribute b)
    (m_ipc_lock_count b) (m_device_use_count b).
Definition left_part (b : KMemoryBlock) : Z := Z.land (m_disable_merge_attribute b) DisableMerge.AllLeft.
Definition right_part (b : KMemoryBlock) : Z := Z.land (m_disable_merge_attribute b) DisableMerge.AllRight.

Definition b_end (b : KMemoryBlock) : Z := m_address b + m_num_pages b * PageSize.

Record block_wf (b : KMemoryBlock) : Prop := {
  bw_addr : 0 ≤ m_address b ∧ m_address b mod PageSize = 0;
  bw_pages : 0 < m_num_pages b;
  bw_end : b_end b ≤ 2 ^ 63
}.

Lemma block_sizes b : block_wf b →
  GetSize b = m_num_pages b * PageSize ∧ GetEndAddress b = b_end b ∧ GetLastAddress b = b_end b - 1
  ∧ info_GetEndAddress (GetMemoryInfo b) = b_end b
  ∧ info_GetNumPages (GetMemoryInfo b) = m_num_pages b ∧ m_address b < b_end b.
Proof.
  intros [[Ha _] Hp He]. unfold b_end, PageSize in *.
  assert (GetSize b = m_num_pages b * PageSize) as Es.
  { unfold GetSize, PageSize. apply wrap_small. unfold in_width. lia. }
  assert (GetEndAddress b = b_end b) as Ee.
  { unfold GetEndAddress, b_end. rewrite Es. unfold PageSize. apply wrap_small. unfold in_width. lia. }
  unfold GetLastAddress, info_GetEndAddress, info_GetNumPages. simpl. rewrite Ee, Es.
  unfold b_end, PageSize. rewrite Z.div_mul by done.
  rewrite !wrap_small by (unfold in_width; lia). split_and!; try done; lia.
Qed.

Lemma HasSameProperties_iff b b' : HasSameProperties b b' = true ↔ props_of b = props_of b'.
Proof.
  unfold HasSameProperties, props_of. rewrite !andb_true_iff, !Z.eqb_eq. split.
  - intros [[[[[-> ->] ->] ->] ->] ->]. done.
  - intros [= -> -> -> -> -> ->]. done.
Qed.

Lemma CanMergeWith_iff b b' :
  CanMergeWith b b' = true ↔ props_of b = props_of b' ∧ right_part b = 0 ∧ left_part b' = 0.
Proof. unfold CanMergeWith. rewrite !andb_true_iff, HasSameProperties_iff, !Z.eqb_eq. tauto. Qed.

Lemma CanMergeWith_ext b1 b2 b1' b2' :
  props_of b1 = props_of b1' → right_part b1 = right_part b1' →
  props_of b2 = props_of b2' → left_part b2 = left_part b2' →
  CanMergeWith b1 b2 = CanMergeWith b1' b2'.
Proof.
  intros H1 H2 H3 H4. apply eq_iff_eq_true. by rewrite !CanMergeWith_iff, H1, H2, H3, H4.
Qed.

(** ** The two halves of a split *)
Lemma land_idem x m : Z.land (Z.land x m) m = Z.land x m.
Proof. by rewrite <-Z.land_assoc, Z.land_diag. Qed.

Lemma land_left_right x : Z.land (Z.land x DisableMerge.AllLeft) DisableMerge.AllRight = 0.
Proof. rewrite <-Z.land_assoc. apply Z.land_0_r. Qed.

Lemma land_right_left x : Z.land (Z.land x DisableMerge.AllRight) DisableMerge.AllLeft = 0.
Proof. rewrite <-Z.land_assoc. apply Z.land_0_r. Qed.

Lemma Split_spec b addr :
  block_wf b → m_address b < addr < b_end b → addr mod PageSize = 0 →
  ∃ l r, Split b addr = Some (l, r) ∧ block_wf l ∧ block_wf r
    ∧ m_address l = m_address b ∧ b_end l = addr ∧ m_address r = addr ∧ b_end r = b_end b
    ∧ props_of l = props_of b ∧ props_of r = props_of b
    ∧ left_part l = left_part b ∧ right_part l = 0 ∧ left_part r = 0 ∧ right_part r = right_part b.
Proof.
  intros Hb Ha Hal. pose proof (block_sizes b Hb) as (_ & Ee & _).
  destruct Hb as [[H0 Hmod] Hp He]. unfold Split, Contains. rewrite Ee.
  rewrite check_bind_Some by (apply Z.ltb_lt; lia).
  rewrite check_bind_Some by (apply andb_true_iff; split; apply Z.leb_le; lia).
  rewrite check_bind_Some by (change PageSize with (2 ^ 12); rewrite IsAligned_pow2 by (unfold in_width; lia); by apply Z.eqb_eq).
  rewrite (wrap_small 64 (addr - m_address b)) by (unfold in_width; lia).
  set (np := (addr - m_address b) / PageSize).
  assert (addr - m_address b = np * PageSize) as E by (apply mod_0_mul; [done|by apply mod_0_sub]).
  unfold b_end, PageSize in *.
  rewrite wrap_small by (unfold in_width; lia).
  eexists _, _. split; [done|]. unfold left_part, right_part, b_end, PageSize. simpl.
  split_and!; try done; try lia; [split; unfold b_end, PageSize; simpl; lia..| | | | ].
  - apply land_idem.
  - apply land_left_right.
  - apply land_right_left.
  - apply land_idem.
Qed.

(** * Tiled address spaces *)
Fixpoint tiles (a : Z) (t : tree) (e : Z) : Prop :=
  match t with
  | [] => a = e
  | b :: t => m_address b = a ∧ 0 < m_num_pages b ∧ tiles (b_end b) t e
  end.

Record space_ok (a : Z) (t : tree) (e : Z) : Prop := {
  so_start : 0 ≤ a ∧ a mod PageSize = 0;
  so_end : e ≤ 2 ^ 63;
  so_tiles : tiles a t e
}.

Lemma tiles_le a t e : tiles a t e → a ≤ e.
Proof.
  revert a. induction t as [|b t IH]; intros a H; simpl in H; [lia|].
  destruct H as (<- & Hp & H%IH). unfold b_end, PageSize in *. lia.
Qed.

Lemma tiles_app a t1 t2 e : tiles a (t1 ++ t2) e ↔ ∃ m, tiles a t1 m ∧ tiles m t2 e.
Proof.
  revert a. induction t1 as [|b t1 IH]; intros a; simpl; [naive_solver|]. rewrite IH. naive_solver.
Qed.

Lemma space_app a t1 t2 e :
  space_ok a (t1 ++ t2) e ↔ ∃ m, space_ok a t1 m ∧ space_ok m t2 e.
Proof.
  split.
  - intros [H1 H2 (m & T1 & T2)%tiles_app]. exists m. pose proof (tiles_le _ _ _ T1).
    pose proof (tiles_le _ _ _ T2). split; split; try done; try lia. split; [lia|].
    clear -H1 T1. revert a H1 T1. induction t1 as [|b t1 IH]; intros a [Ha Hm] T; simpl in T; [by subst|].
    destruct T as (<- & Hp & T). apply (IH _) in T; [done|]. split; [unfold b_end, PageSize in *; lia|].
    apply mod_0_add; [done|done|]. by apply mul_mod_0.
  - intros (m & [H1 H2 H3] & [H4 H5 H6]). split; [done|done|]. apply tiles_app. eauto.
Qed.

Lemma space_cons a b t e :
  space_ok a (b :: t) e ↔ m_address b = a ∧ block_wf b ∧ space_ok (b_end b) t e.
Proof.
  change (b :: t) with ([b] ++ t). rewrite space_app. simpl. split.
  - intros (m & [[H1 H1'] H2 (E & Hp & Hm)] & H3). rewrite <-Hm in *. simpl in *. subst a. split_and!; [done| |done].
    by split.
  - intros (<- & [[H1 H2] H3 H4] & H5). exists (b_end b). split; [|done]. by split.
Qed.

Lemma space_nil a : 0 ≤ a ∧ a mod PageSize = 0 → a ≤ 2 ^ 63 → space_ok a [] a.
Proof. by split. Qed.

Lemma space_le a t e : space_ok a t e → a ≤ e.
Proof. intros [_ _ H]. by eapply tiles_le. Qed.

(** ** The properties of an address *)
Fixpoint block_at (t : tree) (x : Z) : option KMemoryBlock :=
  match t with
  | [] => None
  | b :: t => if (m_address b <=? x) && (x <? b_end b) then Some b else block_at t x
  end.
Definition props_at (t : tree) (x : Z) : option Props := props_of <$> block_at t x.

Lemma props_at_cons b t x :
  props_at (b :: t) x = if (m_address b <=? x) && (x <? b_end b) then Some (props_of b) else props_at t x.
Proof. unfold props_at. simpl. by destruct (_ && _). Qed.

Lemma props_at_out a t e x : space_ok a t e → x < a ∨ e ≤ x → props_at t x = None.
Proof.
  revert a. induction t as [|b t IH]; intros a Ht Hx; [done|].
  apply space_cons in Ht as (<- & Hb & Ht). pose proof (block_sizes b Hb) as (_&_&_&_&_&Hlt).
  pose proof (space_le _ _ _ Ht). rewrite props_at_cons.
  destruct (Z.leb_spec (m_address b) x), (Z.ltb_spec x (b_end b)); simpl; try lia;
    apply (IH _ Ht); lia.
Qed.

Lemma props_at_app a m e t1 t2 x :
  space_ok a t1 m → space_ok m t2 e →
  props_at (t1 ++ t2) x = if x <? m then props_at t1 x else props_at t2 x.
Proof.
  revert a. induction t1 as [|b t1 IH]; intros a H1 H2.
  - destruct H1 as [_ _ H1]. simpl in H1. subst a. simpl.
    case Z.ltb_spec; intros; [|done]. by eapply props_at_out; [|left].
  - apply space_cons in H1 as (<- & Hb & H1). simpl app. rewrite !props_at_cons.
    pose proof (space_le _ _ _ H1). destruct (Z.leb_spec (m_address b) x), (Z.ltb_spec x (b_end b)); simpl;
      [destruct (Z.ltb_spec x m); [done|lia]|by apply (IH _ H1)..].
Qed.

Lemma props_at_pre pre t1 t2 x : props_at t1 x = props_at t2 x → props_at (pre ++ t1) x = props_at (pre ++ t2) x.
Proof. intros H. induction pre as [|b pre IH]; [done|]. simpl app. by rewrite !props_at_cons, IH. Qed.

Lemma props_at_split l r b post x :
  m_address l = m_address b → b_end l = m_address r → b_end r = b_end b →
  m_address b ≤ m_address r ≤ b_end b → props_of l = props_of b → props_of r = props_of b →
  props_at (l :: r :: post) x = props_at (b :: post) x.
Proof.
  intros E1 E2 E3 Hle P1 P2. rewrite !props_at_cons, E1, E2, E3, P1, P2.
  destruct (Z.leb_spec (m_address b) x), (Z.ltb_spec x (m_address r)), (Z.leb_spec (m_address r) x),
    (Z.ltb_spec x (b_end b)); simpl; try done; lia.
Qed.

(** ** Searching *)
Lemma Compare_key x b :
  block_wf b → Compare (KMemoryBlock_new x 1 KMemoryState.Free KMemoryPermission.None_ KMemoryAttribute.None_) b
    = if x <? m_address b then -1 else if x <? b_end b then 0 else 1.
Proof.
  intros Hb. unfold Compare. destruct (block_sizes b Hb) as (_ & _ & -> & _). simpl.
  case Z.ltb_spec; intros; [done|]. destruct (Z.leb_spec x (b_end b - 1)), (Z.ltb_spec x (b_end b)); lia.
Qed.

Lemma tree_find_spec a t e x :
  space_ok a t e → a ≤ x < e →
  ∃ pre b post, t = pre ++ b :: post ∧ m_address b ≤ x < b_end b
    ∧ tree_find (KMemoryBlock_new x 1 KMemoryState.Free KMemoryPermission.None_ KMemoryAttribute.None_) t
      = length pre.
Proof.
  revert a. induction t as [|b t IH]; intros a Ht Hx.
  { destruct Ht as [_ _ Ht]. simpl in Ht. lia. }
  apply space_cons in Ht as (<- & Hb & Ht). simpl. rewrite Compare_key by done.
  rewrite (proj2 (Z.ltb_ge x (m_address b))) by lia. case Z.ltb_spec; intros Hlt.
  - exists [], b, t. split_and!; try done; lia.
  - destruct (IH _ Ht) as (pre & b' & post & -> & Hb' & E); [lia|].
    exists (b :: pre), b', post. simpl. rewrite E. done.
Qed.

Lemma Compare_after l x : block_wf x → b_end x ≤ m_address l → Compare l x = 1.
Proof.
  intros Hx Hle. unfold Compare. destruct (block_sizes x Hx) as (_ & _ & -> & _ & _ & ?).
  rewrite (proj2 (Z.ltb_ge _ _)) by lia. by rewrite (proj2 (Z.leb_gt _ _)) by lia.
Qed.

Lemma tree_insert_spec a m pre l b post :
  space_ok a pre m → m_address l = m → m < m_address b →
  tree_insert l (pre ++ b :: post) = Some (length pre, pre ++ l :: b :: post).
Proof.
  revert a. induction pre as [|x pre IH]; intros a Hpre Hl Hlt; simpl.
  - unfold Compare. rewrite (proj2 (Z.ltb_lt _ _)) by lia. done.
  - apply space_cons in Hpre as (_ & Hx & Hpre). pose proof (space_le _ _ _ Hpre).
    rewrite Compare_after by (try done; lia). simpl. by rewrite (IH _ Hpre).
Qed.

(** ** Neighbouring blocks *)
Fixpoint adj (R : KMemoryBlock → KMemoryBlock → Prop) (t : tree) : Prop :=
  match t with
  | x :: (y :: _) as t => R x y ∧ adj R t
  | _ => True
  end.

Lemma adj_cons R x y t : adj R (x :: y :: t) ↔ R x y ∧ adj R (y :: t).
Proof. done. Qed.

Lemma adj_app R t1 x t2 : adj R (t1 ++ x :: t2) ↔ adj R (t1 ++ [x]) ∧ adj R (x :: t2).
Proof.
  induction t1 as [|y t1 IH]; [simpl; tauto|]. destruct t1 as [|z t1]; simpl app in *.
  - rewrite !adj_cons. simpl. tauto.
  - rewrite !(adj_cons R y z), IH. tauto.
Qed.

Lemma adj_snoc R t x y : adj R (t ++ [x; y]) ↔ adj R (t ++ [x]) ∧ R x y.
Proof. rewrite adj_app, adj_cons. simpl. tauto. Qed.

Lemma adj_replace_last R t x y : (∀ z, R z x → R z y) → adj R (t ++ [x]) → adj R (t ++ [y]).
Proof.
  intros Hxy. induction t as [|z t IH]; [done|]. destruct t as [|u t]; simpl app.
  - rewrite !adj_cons. naive_solver.
  - rewrite !(adj_cons R z u). naive_solver.
Qed.

Lemma adj_replace_head R t x y : (∀ z, R x z → R y z) → adj R (x :: t) → adj R (y :: t).
Proof. destruct t as [|z t]; [done|]. rewrite !adj_cons. naive_solver. Qed.

Lemma adj_tail R x t : adj R (x :: t) → adj R t.
Proof. destruct t; [done|]. by intros [_ ?]. Qed.

Lemma adj_impl (R S : KMemoryBlock → KMemoryBlock → Prop) t : (∀ x y, R x y → S x y) → adj R t → adj S t.
Proof.
  intros HRS. induction t as [|x t IH]; [done|]. destruct t as [|y t]; [done|].
  rewrite !adj_cons. naive_solver.
Qed.

(** Coalesced neighbours, everywhere or at the boundaries outside a range. *)
Definition unmergeable (x y : KMemoryBlock) : Prop := CanMergeWith x y = false.
Definition unmergeable_out (lo hi : Z) (x y : KMemoryBlock) : Prop :=
  lo ≤ m_address y ≤ hi ∨ unmergeable x y.
Definition coalesced (t : tree) : Prop := adj unmergeable t.

(** * The update allocator *)
Record allocator_ok (al : UpdateAllocator) (n : nat) : Prop := {
  ao_le : (n ≤ 2)%nat;
  ao_index : m_index al = (2 - n)%nat;
  ao_blocks : m_blocks al = replicate (2 - n) false ++ replicate n true
}.

Lemma Allocate_spec al n : allocator_ok al (S n) →
  ∃ al', Allocate al = Some al' ∧ allocator_ok al' n ∧ m_slab al' = m_slab al.
Proof.
  intros [Hn Hi Hb]. unfold Allocate. rewrite Hb, Hi.
  destruct n as [|[|n]]; [| |lia]; simpl; eexists; (split_and!; [done| |done]); by split; try lia.
Qed.

(** [Free] keeps the block, in the allocator or in the slab. *)
Lemma allocator_Free_spec al n : allocator_ok al n →
  ∃ al' n', Free al = Some al' ∧ allocator_ok al' n' ∧ (m_slab al' + n' = S (m_slab al + n))%nat
    ∧ (n ≤ n')%nat.
Proof.
  intros [Hn Hi Hb]. unfold Free. rewrite Hi, Hb.
  destruct n as [|[|[|n]]]; [| | |lia]; simpl.
  - eexists _, 1%nat. split_and!; [done|by split; simpl; try lia|simpl; lia|lia].
  - eexists _, 2%nat. split_and!; [done|by split; simpl; try lia|simpl; lia|lia].
  - eexists _, 2%nat. split_and!; [done|by split; simpl; try lia|simpl; lia|lia].
Qed.

Lemma Allocator_Initialize_spec slab n : (n ≤ 2)%nat → (n ≤ slab)%nat →
  ∃ al, Allocator_Initialize slab n = Some (true, al) ∧ allocator_ok al n ∧ (m_slab al + n = slab)%nat.
Proof.
  intros Hn Hs. unfold Allocator_Initialize.
  destruct n as [|[|[|n]]]; [| | |lia]; destruct slab as [|[|slab]]; try lia; simpl;
    eexists; (split_and!; [done|by split; simpl; try lia|simpl; lia]).
Qed.

Lemma Allocator_Finalize_spec al n : allocator_ok al n → Allocator_Finalize al = (m_slab al + n)%nat.
Proof.
  intros [Hn Hi Hb]. unfold Allocator_Finalize. rewrite Hb.
  destruct n as [|[|[|n]]]; [| | |lia]; done.
Qed.

(** * Isolating pages *)
Section Split.
Context (st nd : Z).

(** The block a split in front of [cur] takes. *)
Definition extra (mid cur : Z) : nat := if mid =? cur then 0%nat else 1%nat.

(** A tree is [mid]-split: blocks before and from [mid]. *)
Lemma split_before_spec al n pre b post mid cur :
  space_ok st pre mid → space_ok mid (b :: post) nd → mid ≤ cur < b_end b → cur mod PageSize = 0 →
  allocator_ok al n → (extra mid cur ≤ n)%nat →
  ∃ al' n' pre' b',
    split_before al (pre ++ b :: post) (length pre) cur
      = Some (al', pre' ++ b' :: post, length pre', cur)
    ∧ allocator_ok al' n' ∧ (n' = n - extra mid cur)%nat ∧ m_slab al' = m_slab al
    ∧ (length pre' = length pre + extra mid cur)%nat
    ∧ space_ok st pre' cur ∧ space_ok cur (b' :: post) nd ∧ b_end b' = b_end b
    ∧ props_of b' = props_of b ∧ right_part b' = right_part b
    ∧ (∀ x, props_at (pre' ++ b' :: post) x = props_at (pre ++ b :: post) x)
    ∧ (pre' = pre ∧ b' = b ∧ mid = cur
       ∨ ∃ l, Split b cur = Some (l, b') ∧ pre' = pre ++ [l] ∧ mid < cur ∧ m_address l = mid
           ∧ b_end l = cur ∧ props_of l = props_of b ∧ left_part l = left_part b).
Proof.
  intros Hpre Hpost Hcur Hal Hao Hn. pose proof Hpost as (Hb0 & Hb & Hrest)%space_cons.
  unfold extra in *. unfold split_before. rewrite middle_lookup. cbn [mbind option_bind]. rewrite Hb0.
  destruct (Z.eqb_spec mid cur) as [<-|Hne]; cbn [negb].
  - exists al, n, pre, b. split_and!; try done; try lia. by left.
  - destruct n as [|n]; [lia|]. destruct (Allocate_spec al n Hao) as (al' & -> & Hao' & Hsl).
    cbn [mbind option_bind].
    destruct (Split_spec b cur Hb) as (l & r & E & Hl & Hr & A1 & A2 & A3 & A4 & P1 & P2 & L1 & R1 & L2 & R2);
      [lia|done|].
    rewrite E. cbn [mbind option_bind]. rewrite middle_insert.
    rewrite (tree_insert_spec st mid pre l r post Hpre) by lia. cbn [mbind option_bind].
    rewrite middle_lookup_S. cbn [lookup list_lookup mbind option_bind]. rewrite A3.
    exists al', n, (pre ++ [l]), r. rewrite length_app, <-app_assoc, Nat.add_comm. simpl length. simpl app.
    assert (space_ok mid [l] cur) as Hspl.
    { apply space_cons. split_and!; [lia|done|]. rewrite A2. apply space_nil; [|destruct Hb; lia].
      split; [destruct Hl as [[? ?] _ _]; lia|done]. }
    split_and!; try done; try lia.
    + apply space_app. by exists mid.
    + apply space_cons. by rewrite A4.
    + intros x. apply props_at_pre, props_at_split; congruence || lia.
    + right. exists l. split_and!; try done; lia.
Qed.

Lemma split_after_spec al n pre b post cur size :
  space_ok st pre cur → space_ok cur (b :: post) nd → 0 < size → cur + size ≤ nd →
  (cur + size) mod PageSize = 0 →
  allocator_ok al n → (1 ≤ n)%nat →
  ∃ al' n' m post', split_after al (pre ++ b :: post) (length pre) cur size
      = Some (al', pre ++ m :: post', length pre)
    ∧ allocator_ok al' n' ∧ m_slab al' = m_slab al
    ∧ (n' + length post' = n + length post)%nat ∧ (n - 1 ≤ n')%nat
    ∧ (b_end b < cur + size → n' = n ∧ post' = post)
    ∧ space_ok cur (m :: post') nd ∧ b_end m = Z.min (b_end b) (cur + size)
    ∧ props_of m = props_of b
    ∧ (∀ x, props_at (pre ++ m :: post') x = props_at (pre ++ b :: post) x)
    ∧ (m = b ∧ post' = post
       ∨ ∃ r, Split b (cur + size) = Some (m, r) ∧ post' = r :: post
           ∧ props_of r = props_of b ∧ right_part r = right_part b).
Proof.
  intros Hpre Hpost Hsz Hle Hal Hao Hn. pose proof Hpost as (Hb0 & Hb & Hrest)%space_cons.
  pose proof (block_sizes b Hb) as (Es & _ & _ & _ & _ & Hbe).
  assert (cur + size ≤ 2 ^ 63) as Hmax by (pose proof (so_end _ _ _ Hpost); lia).
  assert (0 ≤ cur) as Hc0 by (destruct Hb as [[? _] _ _]; lia).
  unfold split_after. rewrite middle_lookup. cbn [mbind option_bind].
  assert (GetSize b = b_end b - cur) as -> by (unfold b_end; lia).
  case Z.ltb_spec; intros Hlt.
  - destruct n as [|n]; [lia|]. destruct (Allocate_spec al n Hao) as (al' & -> & Hao' & Hsl).
    cbn [mbind option_bind]. rewrite wrap_small by (unfold in_width; lia).
    destruct (Split_spec b (cur + size) Hb) as (l & r & E & Hl & Hr & A1 & A2 & A3 & A4 & P1 & P2 & L1 & R1 & L2 & R2);
      [lia|done|].
    rewrite E. cbn [mbind option_bind]. rewrite middle_insert.
    rewrite (tree_insert_spec st cur pre l r post Hpre) by lia. cbn [mbind option_bind].
    exists al', n, l, (r :: post). split_and!; try done; try (simpl; lia).
    + apply space_cons. split_and!; [lia|done|]. rewrite A2. apply space_cons. by rewrite A4.
    + intros x. apply props_at_pre, props_at_split; congruence || lia.
    + right. exists r. done.
  - exists al, n, b, post. split_and!; try done; try lia. by left.
Qed.
End Split.

(** * The loop of the updates *)
Section Loop.
Context (st nd lo hi : Z) (skip : KMemoryBlock → bool) (act : KMemoryBlock → option KMemoryBlock)
  (upd : Props → Props) (ok : KMemoryBlock → Prop).
Hypothesis Hhi : hi ≤ nd.
Hypothesis Hskip : ∀ b, skip b = true → upd (props_of b) = props_of b.
Hypothesis Hact : ∀ b, ok b → block_wf b → lo ≤ m_address b → b_end b ≤ hi →
  ∃ b', act b = Some b' ∧ m_address b' = m_address b ∧ m_num_pages b' = m_num_pages b
    ∧ props_of b' = upd (props_of b).
Hypothesis Hok : ∀ b x l r, ok b → Split b x = Some (l, r) → ok l ∧ ok r.

Local Abbreviation R := (unmergeable_out lo hi).

(** Two trees agree, up to [upd], on the addresses from [cur]. *)
Definition updated (t t' : tree) (cur : Z) : Prop :=
  ∀ x, props_at t' x = if (cur <=? x) && (x <? hi) then upd <$> props_at t x else props_at t x.

(** The blocks between the splits, before the action. *)
Lemma isolate_spec al n pre b post mid cur rem :
  space_ok st pre mid → space_ok mid (b :: post) nd → mid ≤ cur < b_end b → cur mod PageSize = 0 →
  lo ≤ cur → 0 < rem → cur + rem * PageSize = hi → allocator_ok al n → (extra mid cur + 1 ≤ n)%nat →
  ok b → adj R (pre ++ b :: post) →
  ∃ al1 pre1 b1 al2 n2 m post2,
    split_before al (pre ++ b :: post) (length pre) cur = Some (al1, pre1 ++ b1 :: post, length pre1, cur)
    ∧ split_after al1 (pre1 ++ b1 :: post) (length pre1) cur (rem * PageSize)
        = Some (al2, pre1 ++ m :: post2, length pre1)
    ∧ allocator_ok al2 n2 ∧ m_slab al2 = m_slab al
    ∧ (n2 + length pre1 + length post2 = n + length pre + length post)%nat
    ∧ (b_end b < hi → (1 ≤ n2)%nat ∧ post2 = post)
    ∧ space_ok st pre1 cur ∧ space_ok cur (m :: post2) nd
    ∧ b_end m = Z.min (b_end b) hi ∧ props_of m = props_of b ∧ ok m
    ∧ (∀ m', m_address m' = cur → adj R (pre1 ++ [m'])) ∧ (∀ m', adj R (m' :: post2))
    ∧ (∀ x, props_at (pre1 ++ m :: post2) x = props_at (pre ++ b :: post) x)
    ∧ (∃ l, pre1 = pre ++ l ∧ (mid < cur → ∃ y, l = [y] ∧ b_end y = cur)).
Proof.
  intros Hpre Hpost Hcur Hal Hlo Hrem Hhi' Hao Hn Hokb Hadj.
  pose proof Hpost as (Hb0 & Hb & Hrest)%space_cons.
  destruct (split_before_spec st nd al n pre b post mid cur Hpre Hpost Hcur Hal Hao)
    as (al1 & n1 & pre1 & b1 & E1 & Hao1 & Hn1 & Hsl1 & Hlen1 & Hpre1 & Hpost1 & Hend1 & Hpr1 & Hrp1 & Hpa1 & Hcase1); [lia|].
  pose proof Hpost1 as (Hb10 & Hb1 & Hrest1)%space_cons.
  destruct (split_after_spec st nd al1 n1 pre1 b1 post cur (rem * PageSize) Hpre1 Hpost1)
    as (al2 & n2 & m & post2 & E2 & Hao2 & Hsl2 & Hct2 & Hnn2 & Hlt2 & Hpost2 & Hend2 & Hpr2 & Hpa2 & Hcase2);
    [unfold PageSize; lia|lia|by apply mod_0_add; [|done|apply mul_mod_0]|done|lia|].
  pose proof Hpost2 as (Hm0 & Hm & Hrest2)%space_cons. rewrite Hend1, Hhi' in Hend2.
  assert (ok b1) as Hokb1.
  { destruct Hcase1 as [(_ & -> & _)|(l & E & _)]; [done|]. by destruct (Hok _ _ _ _ Hokb E). }
  assert (ok m) as Hokm.
  { destruct Hcase2 as [(-> & _)|(r & E & _)]; [done|]. by destruct (Hok _ _ _ _ Hokb1 E). }
  assert (cur < hi) as Hch by (rewrite <-Hhi'; unfold PageSize; lia).
  exists al1, pre1, b1, al2, n2, m, post2.
  split_and!; [done|done|done|congruence|lia| |done|done|done|congruence|done| | | |].
  - intros Hlt. rewrite Hend1, Hhi' in Hlt2. destruct (Hlt2 Hlt). split; [lia|done].
  - intros m' Hm'. apply adj_app in Hadj as [Hadj _].
    assert (∀ z, R z m') as Hz by (intros z; left; lia).
    destruct Hcase1 as [(-> & _ & _)|(l & _ & -> & Hlt & Hl0 & _ & Hpl & Hll)].
    + by eapply adj_replace_last.
    + rewrite <-app_assoc. simpl app. apply adj_snoc. split; [|done].
      eapply adj_replace_last; [|exact Hadj]. intros z [Hz'|Hz']; [left; lia|].
      right. unfold unmergeable in *. by rewrite (CanMergeWith_ext z l z b).
  - intros m'. apply adj_app in Hadj as [_ Hadj].
    destruct Hcase2 as [(_ & ->)|(r & _ & -> & Hpr & Hrr)].
    + destruct post as [|y post]; [done|]. apply adj_tail in Hadj. apply adj_cons.
      split; [|done]. left. apply space_cons in Hrest2 as (Hy & _). lia.
    + apply adj_cons. split.
      * left. apply space_cons in Hrest2 as (Hy & _). lia.
      * eapply adj_replace_head; [|exact Hadj]. intros z [?|Hz]; [by left|right].
        unfold unmergeable in *. by rewrite (CanMergeWith_ext r z b z) by congruence.
  - intros x. by rewrite Hpa2, Hpa1.
  - destruct Hcase1 as [(-> & _ & ->)|(l & _ & -> & Hlt & _ & Hl & _)].
    + exists []. rewrite app_nil_r. split; [done|lia].
    + exists [l]. split; [done|]. intros _. by exists l.
Qed.

Lemma props_at_replace pre m m' post cur x :
  space_ok st pre cur → space_ok cur (m :: post) nd →
  m_address m' = m_address m → m_num_pages m' = m_num_pages m → props_of m' = upd (props_of m) →
  props_at (pre ++ m' :: post) x
    = if (cur <=? x) && (x <? b_end m) then upd <$> props_at (pre ++ m :: post) x
      else props_at (pre ++ m :: post) x.
Proof.
  intros Hpre Hpost Ea Ep Eu. pose proof Hpost as (Hm0 & Hm & Hrest)%space_cons.
  assert (b_end m' = b_end m) as Ee by (unfold b_end; congruence).
  assert (space_ok cur (m' :: post) nd) as Hpost'.
  { apply space_cons. split_and!; [congruence| |congruence]. destruct Hm as [? ? ?]. split; congruence. }
  rewrite (props_at_app st cur nd pre (m' :: post)), (props_at_app st cur nd pre (m :: post)) by done.
  rewrite !props_at_cons, Ea, Ee, Hm0, Eu.
  destruct (Z.ltb_spec x cur), (Z.leb_spec cur x), (Z.ltb_spec x (b_end m)); simpl; try done; lia.
Qed.

Lemma wf_replace m m' : m_address m' = m_address m → m_num_pages m' = m_num_pages m → block_wf m → block_wf m'.
Proof.
  intros Ea Ep [? ? ?]. assert (b_end m' = b_end m) by (unfold b_end; congruence). split; congruence.
Qed.

Lemma update_loop_spec fuel al n pre post mid cur rem :
  space_ok st pre mid → space_ok mid post nd → mid ≤ cur → cur mod PageSize = 0 →
  lo ≤ cur → 0 ≤ rem → cur + rem * PageSize = hi → rem < Z.of_nat fuel →
  (0 < rem → ∃ b post', post = b :: post' ∧ cur < b_end b) →
  allocator_ok al n → (0 < rem → (extra mid cur + 1 ≤ n)%nat) →
  (∀ b, b ∈ post → m_address b < hi → skip b = true ∨ ok b) → adj R (pre ++ post) →
  ∃ al' n' t', update_loop fuel skip act al (pre ++ post) (length pre) cur rem = Some (al', t')
    ∧ allocator_ok al' n' ∧ (m_slab al' + n' + length t' = m_slab al + n + length (pre ++ post))%nat
    ∧ space_ok st t' nd ∧ updated (pre ++ post) t' cur ∧ adj R t'
    ∧ ∃ t2, t' = pre ++ t2
        ∧ (∀ b post', post = b :: post' → skip b = false → 0 < rem → mid < cur →
             ∃ y t3, t2 = y :: t3 ∧ b_end y = cur).
Proof.
  revert al n pre post mid cur rem. induction fuel as [|fuel IH];
    intros al n pre post mid cur rem Hpre Hpost Hmc Hal Hlo Hrem Hhi' Hf Hhd Hao Hn Hoks Hadj; [lia|].
  assert (space_ok st (pre ++ post) nd) as Hsp by (apply space_app; by exists mid).
  cbn [update_loop]. case Z.ltb_spec; intros H0.
  2: { exists al, n, (pre ++ post). split_and!; try done.
       - intros x. assert (cur = hi) as -> by (rewrite <-Hhi'; unfold PageSize; lia).
         destruct (Z.leb_spec hi x), (Z.ltb_spec x hi); simpl; try done; lia.
       - exists post. split; [done|]. lia. }
  destruct (Hhd H0) as (b & post' & -> & Hcb). specialize (Hn H0).
  pose proof Hpost as (Hb0 & Hb & Hrest)%space_cons.
  destruct (block_sizes b Hb) as (_ & _ & _ & Eie & _ & _).
  pose proof (so_end _ _ _ Hpost) as Hnd. pose proof (space_le _ _ _ Hrest) as Hbn.
  assert (0 ≤ cur) by (destruct (so_start _ _ _ Hpost); lia).
  assert (cur + rem * PageSize ≤ 2 ^ 63) as Hmax by lia.
  assert (cur < hi) as Hch by (rewrite <-Hhi'; unfold PageSize; lia).
  rewrite wrap_small by (unfold in_width, PageSize in *; lia).
  rewrite middle_lookup. cbn [mbind option_bind].
  destruct (skip b) eqn:Hsk.
  - unfold advance. rewrite Eie, Hhi', wrap_small by (unfold in_width; lia).
    assert (∀ x, mid ≤ x < b_end b → upd <$> props_at (pre ++ b :: post') x = props_at (pre ++ b :: post') x) as Hsame.
    { intros x Hx. rewrite (props_at_app st mid nd) by done. rewrite (proj2 (Z.ltb_ge _ _)) by lia.
      rewrite props_at_cons, Hb0, (proj2 (Z.leb_le _ _)), (proj2 (Z.ltb_lt _ _)) by lia.
      simpl. by rewrite Hskip. }
    assert (pre ++ b :: post' = (pre ++ [b]) ++ post') as Eapp by by rewrite <-app_assoc.
    case Z.ltb_spec; intros Hlt.
    + destruct fuel as [|fuel]; [lia|]. cbn [update_loop]. rewrite (proj2 (Z.ltb_ge 0 0)) by lia.
      exists al, n, (pre ++ b :: post'). split_and!; try done.
      * intros x. destruct (Z.leb_spec cur x), (Z.ltb_spec x hi); simpl; try done.
        symmetry. apply Hsame. lia.
      * exists (b :: post'). split; [done|]. intros ? ? [= <- <-]. congruence.
    + rewrite wrap_small by (unfold in_width; lia).
      assert ((hi - b_end b) mod PageSize = 0) as Hm.
      { apply mod_0_sub; [done| |].
        - rewrite <-Hhi'. apply mod_0_add; [done|done|by apply mul_mod_0].
        - destruct (so_start _ _ _ Hrest); done. }
      pose proof (mod_0_mul _ PageSize ltac:(done) Hm) as Em.
      set (rem' := (hi - b_end b) / PageSize) in *.
      assert (0 ≤ rem') by (apply Z.div_pos; [lia|done]).
      replace (S (length pre)) with (length (pre ++ [b])) by (rewrite length_app; simpl; lia).
      rewrite Eapp in *.
      destruct (IH al n (pre ++ [b]) post' (b_end b) (b_end b) rem')
        as (al' & n' & t' & -> & Hao' & Hct & Hsp' & Hup & Hadj' & t2 & -> & _); try done; try lia.
      * apply space_app. exists mid. split; [done|]. apply space_cons. split_and!; [done|done|].
        apply space_nil; [apply Hrest|lia].
      * apply Hrest.
      * unfold PageSize in *. nia.
      * intros Hr'. destruct post' as [|b2 post']; [|].
        { destruct Hrest as [_ _ Hrest]. simpl in Hrest. unfold PageSize in *. lia. }
        apply space_cons in Hrest as (E2 & Hb2 & _). exists b2, post'. split; [done|].
        pose proof (block_sizes b2 Hb2). lia.
      * intros _. unfold extra. rewrite Z.eqb_refl. lia.
      * intros b2 Hb2 ?. apply Hoks; [set_solver|done].
      * exists al', n', ((pre ++ [b]) ++ t2). split_and!; try done.
        -- intros x. rewrite Hup.
           destruct (Z.leb_spec cur x), (Z.leb_spec (b_end b) x), (Z.ltb_spec x hi); simpl; try done; try lia.
           symmetry. apply Hsame. lia.
        -- exists (b :: t2). split; [by rewrite <-app_assoc|]. intros ? ? [= <- <-]. congruence.
  - destruct (Hoks b) as [?|Hokb]; [set_solver|unfold PageSize in *; lia|congruence|].
    destruct (isolate_spec al n pre b post' mid cur rem)
      as (al1 & pre1 & b1 & al2 & n2 & m & post2 & -> & E2 & Hao2 & Hsl & Hct & Hlt2 & Hpre1 & Hpost2
          & Hem & Hpm & Hokm & Hadj1 & Hadj2 & Hpa & l & El & Hl); try done.
    cbn [mbind option_bind]. rewrite E2. cbn [mbind option_bind]. rewrite middle_lookup.
    cbn [mbind option_bind]. pose proof Hpost2 as (Hm0 & Hm & Hrest2)%space_cons.
    destruct (Hact m Hokm Hm) as (m' & -> & Ea & Ep & Eu); [lia|lia|]. cbn [mbind option_bind].
    rewrite middle_insert. destruct (block_sizes m Hm) as (-> & _ & _ & _ & -> & Hme).
    assert (cur + m_num_pages m * PageSize = b_end m) as Ecur by (unfold b_end; lia).
    rewrite Ecur, (wrap_small 64 (b_end m)) by (unfold in_width; lia).
    assert (0 < m_num_pages m ≤ rem) as Hmp by (pose proof (bw_pages _ Hm); unfold PageSize in *; lia).
    rewrite wrap_small by (unfold in_width, PageSize in *; lia).
    assert (wf_m' : block_wf m') by by apply (wf_replace m).
    assert (b_end m' = b_end m) as Eem by (unfold b_end; congruence).
    assert (space_ok st (pre1 ++ [m']) (b_end m)) as Hpre2.
    { apply space_app. exists cur. split; [done|]. apply space_cons. split_and!; [congruence|done|].
      rewrite Eem. apply space_nil; [apply Hrest2|lia]. }
    assert (pre1 ++ m' :: post2 = (pre1 ++ [m']) ++ post2) as Eapp by by rewrite <-app_assoc.
    replace (S (length pre1)) with (length (pre1 ++ [m'])) by (rewrite length_app; simpl; lia).
    rewrite Eapp.
    destruct (IH al2 n2 (pre1 ++ [m']) post2 (b_end m) (b_end m) (rem - m_num_pages m))
      as (al' & n' & t' & -> & Hao' & Hct' & Hsp' & Hup & Hadj' & t2 & -> & _); try done; try lia.
    + apply Hrest2.
    + intros Hr'. destruct post2 as [|b2 post2].
      { destruct Hrest2 as [_ _ Hrest2]. simpl in Hrest2. unfold PageSize in *. lia. }
      apply space_cons in Hrest2 as (E3 & Hb2 & _). exists b2, post2. split; [done|].
      pose proof (block_sizes b2 Hb2). lia.
    + intros Hr'. unfold extra. rewrite Z.eqb_refl. destruct Hlt2; [unfold PageSize in *; lia|lia].
    + intros b2 Hb2 Hlt. assert (b_end m < hi) as Hmh.
      { destruct (list_elem_of_split _ _ Hb2) as (p1 & p2 & ->).
        apply space_app in Hrest2 as (q & Hq & (Eq & _)%space_cons). pose proof (space_le _ _ _ Hq). lia. }
      destruct Hlt2 as [_ ->]; [lia|]. apply Hoks; [set_solver|done].
    + rewrite <-Eapp. apply adj_app. split; [apply Hadj1; congruence|apply Hadj2].
    + exists al', n', ((pre1 ++ [m']) ++ t2). split_and!; try done.
      * rewrite Hct'. rewrite <-Eapp. rewrite !length_app in *. simpl. lia.
      * intros x. rewrite Hup, <-Eapp, (props_at_replace pre1 m m' post2 cur x), !Hpa by done.
        destruct (Z.leb_spec cur x), (Z.leb_spec (b_end m) x), (Z.ltb_spec x (b_end m)), (Z.ltb_spec x hi);
          simpl; try done; lia.
      * exists (l ++ m' :: t2). split; [by rewrite El, <-!app_assoc|].
        intros ? ? [= <- <-] _ _ Hlt. destruct (Hl Hlt) as (y & -> & Hy). by exists y, (m' :: t2).
Qed.
End Loop.

(** The loop ends at a block the action refuses. *)
Lemma update_loop_refused (st nd lo hi : Z) (skip : KMemoryBlock → bool) (act : KMemoryBlock → option KMemoryBlock)
    fuel al n pre post mid cur rem bad :
  hi ≤ nd → (∀ b b', act b = Some b' → m_address b' = m_address b ∧ m_num_pages b' = m_num_pages b) →
  space_ok st pre mid → space_ok mid post nd → mid ≤ cur → cur mod PageSize = 0 →
  lo ≤ cur → 0 < rem → cur + rem * PageSize = hi → rem < Z.of_nat fuel →
  (∃ b post', post = b :: post' ∧ cur < b_end b) →
  allocator_ok al n → (extra mid cur + 1 ≤ n)%nat → adj (unmergeable_out lo hi) (pre ++ post) →
  bad ∈ post → m_address bad < hi → skip bad = false →
  (∀ b, props_of b = props_of bad → act b = None) →
  update_loop fuel skip act al (pre ++ post) (length pre) cur rem = None.
Proof.
  intros Hhi Hact. revert al n pre post mid cur rem.
  induction fuel as [|fuel IH]; intros al n pre post mid cur rem Hpre Hpost Hmc Hal Hlo Hrem Hhi' Hf
    (b & post' & -> & Hcb) Hao Hn Hadj Hin Hbad Hsb Hno; [lia|].
  pose proof Hpost as (Hb0 & Hb & Hrest)%space_cons. pose proof (so_end _ _ _ Hpost) as Hnd.
  destruct (block_sizes b Hb) as (_ & _ & _ & Eie & _ & _). pose proof (space_le _ _ _ Hrest) as Hbn.
  assert (0 ≤ cur) by (destruct (so_start _ _ _ Hpost); lia).
  cbn [update_loop]. rewrite (proj2 (Z.ltb_lt 0 rem)) by done.
  rewrite wrap_small by (unfold in_width, PageSize in *; lia).
  rewrite middle_lookup. cbn [mbind option_bind].
  assert (∀ t e, bad ∈ t → space_ok e t nd → e < hi ∧ ∃ b2 t', t = b2 :: t' ∧ e < b_end b2) as Hfirst.
  { intros t e Ht Hsp. destruct t as [|b2 t']; [by apply not_elem_of_nil in Ht|].
    destruct (list_elem_of_split _ _ Ht) as (p1 & p2 & E). pose proof Hsp as (E2 & Hb2 & _)%space_cons.
    rewrite E in Hsp. apply space_app in Hsp as (q & Hq & (Eq & _)%space_cons). pose proof (space_le _ _ _ Hq).
    split; [lia|]. exists b2, t'. split; [done|]. pose proof (block_sizes b2 Hb2). lia. }
  destruct (skip b) eqn:Hsk.
  - apply elem_of_cons in Hin as [->|Hin]; [congruence|]. destruct (Hfirst _ _ Hin Hrest) as [Hbh Hhd].
    unfold advance. rewrite Eie, Hhi', wrap_small by (unfold in_width; lia).
    rewrite (proj2 (Z.ltb_ge _ _)) by lia. rewrite wrap_small by (unfold in_width; lia).
    assert ((hi - b_end b) mod PageSize = 0) as Hm.
    { apply mod_0_sub; [done| |].
      - rewrite <-Hhi'. apply mod_0_add; [done|done|by apply mul_mod_0].
      - destruct (so_start _ _ _ Hrest); done. }
    pose proof (mod_0_mul _ PageSize ltac:(done) Hm) as Em. set (rem' := (hi - b_end b) / PageSize) in *.
    replace (S (length pre)) with (length (pre ++ [b])) by (rewrite length_app; simpl; lia).
    replace (pre ++ b :: post') with ((pre ++ [b]) ++ post') in * by by rewrite <-app_assoc.
    apply (IH al n (pre ++ [b]) post' (b_end b) (b_end b) rem'); try done; try (unfold PageSize in *; lia).
    + apply space_app. exists mid. split; [done|]. apply space_cons. split_and!; [done|done|].
      apply space_nil; [apply Hrest|lia].
    + apply Hrest.
    + unfold extra. rewrite Z.eqb_refl. lia.
  - destruct (isolate_spec st nd lo hi (λ _, True) Hhi ltac:(done) al n pre b post' mid cur rem)
      as (al1 & pre1 & b1 & al2 & n2 & m & post2 & -> & E2 & Hao2 & Hsl & Hct & Hlt2 & Hpre1 & Hpost2
          & Hem & Hpm & _ & Hadj1 & Hadj2 & _); try done.
    cbn [mbind option_bind]. rewrite E2. cbn [mbind option_bind]. rewrite middle_lookup.
    cbn [mbind option_bind]. apply elem_of_cons in Hin as [->|Hin]; [by rewrite (Hno m Hpm)|].
    destruct (Hfirst _ _ Hin Hrest) as [Hbh Hhd]. destruct (Hlt2 Hbh) as [Hn2 ->].
    destruct (act m) as [m'|] eqn:Em; [|done]. destruct (Hact _ _ Em) as [Ea Ep]. cbn [mbind option_bind].
    pose proof Hpost2 as (Hm0 & Hm & Hrest2)%space_cons.
    rewrite middle_insert. destruct (block_sizes m Hm) as (-> & _ & _ & _ & -> & Hme).
    assert (cur + m_num_pages m * PageSize = b_end m) as Ecur by (unfold b_end; lia).
    rewrite Ecur, (wrap_small 64 (b_end m)) by (unfold in_width; lia).
    assert (0 < m_num_pages m ≤ rem) as Hmp by (pose proof (bw_pages _ Hm); unfold PageSize in *; lia).
    rewrite wrap_small by (unfold in_width, PageSize in *; lia).
    replace (S (length pre1)) with (length (pre1 ++ [m'])) by (rewrite length_app; simpl; lia).
    replace (pre1 ++ m' :: post') with ((pre1 ++ [m']) ++ post') by by rewrite <-app_assoc.
    destruct (Hfirst _ _ Hin Hrest2) as [_ Hhd2].
    apply (IH al2 n2 (pre1 ++ [m']) post' (b_end m) (b_end m) (rem - m_num_pages m)); try done;
      try (unfold PageSize in *; lia).
    + apply space_app. exists cur. split; [done|]. apply space_cons.
      split_and!; [congruence|by apply (wf_replace m)|].
      replace (b_end m') with (b_end m) by (unfold b_end; congruence). apply space_nil; [apply Hrest2|lia].
    + apply Hrest2.
    + unfold extra. rewrite Z.eqb_refl. lia.
    + rewrite <-app_assoc. apply adj_app. split; [apply Hadj1; congruence|apply Hadj2].
Qed.

(** * Coalescing *)
Lemma Add_spec x y e :
  block_wf x → block_wf y → b_end x = m_address y → b_end y ≤ e ≤ 2 ^ 63 → CanMergeWith x y = true →
  ∃ z, Add x y = Some z ∧ block_wf z ∧ m_address z = m_address x ∧ b_end z = b_end y
    ∧ props_of z = props_of x ∧ left_part z = left_part x ∧ right_part z = right_part y.
Proof.
  intros Hx Hy E He Hm. apply CanMergeWith_iff in Hm as (Hp & Hr & Hl).
  destruct (block_sizes x Hx) as (_ & Ex & _ & _ & _ & Hxe). destruct (block_sizes y Hy) as (Sy & _ & _ & _ & _ & Hye).
  destruct Hx as [[Hx0 Hxm] Hxp Hxb], Hy as [[Hy0 Hym] Hyp Hyb].
  unfold Add. rewrite check_bind_Some by by apply Z.ltb_lt. rewrite Ex, Sy.
  assert (b_end y = b_end x + m_num_pages y * PageSize) as Ey by (unfold b_end at 1; lia).
  assert (0 < m_num_pages y * PageSize) by (unfold PageSize; lia).
  rewrite check_bind_Some.
  2: { apply Z.ltb_lt. rewrite (wrap_small 64 (m_address x + _)), (wrap_small 64 (b_end x + _)) by (unfold in_width; lia).
       rewrite !wrap_small by (unfold in_width; lia). lia. }
  eexists. split; [done|]. unfold left_part, right_part, b_end, PageSize in *. simpl.
  rewrite wrap_small by (unfold in_width; lia). rewrite !Z.land_lor_distr_l, Hr, Hl.
  split_and!; try done; try lia; [|by rewrite Z.lor_0_r]. split; unfold b_end, PageSize; simpl; lia.
Qed.

Section Coalesce.
Context (st nd lo hi : Z).
Local Abbreviation R := (unmergeable_out lo hi).

(** Behind the range nothing is mergeable. *)
Lemma adj_behind x t e : space_ok (m_address x) (x :: t) e → hi < b_end x → adj R (x :: t) → coalesced (x :: t).
Proof.
  unfold coalesced. revert x. induction t as [|y t IH]; intros x Hsp Hx Hadj; [done|].
  apply space_cons in Hsp as (_ & _ & Hsp). pose proof Hsp as (Ey & Hy & _)%space_cons.
  rewrite adj_cons in *. destruct Hadj as [[Hr|Hr] Hadj]; [lia|]. split; [done|].
  apply IH; [by rewrite Ey|pose proof (block_sizes y Hy); lia|done].
Qed.

Lemma Coalesce_loop_spec fuel al n pre b post m :
  space_ok st pre m → space_ok m (b :: post) nd → allocator_ok al n → (length post < fuel)%nat →
  coalesced (pre ++ [b]) → adj R (b :: post) →
  ∃ al' n' t', Coalesce_loop fuel al (pre ++ b :: post) (length pre) hi = Some (al', t')
    ∧ allocator_ok al' n'
    ∧ (m_slab al' + n' + length t' = m_slab al + n + length (pre ++ b :: post))%nat
    ∧ space_ok st t' nd ∧ coalesced t' ∧ ∀ x, props_at t' x = props_at (pre ++ b :: post) x.
Proof.
  revert al n pre b post m. induction fuel as [|fuel IH];
    intros al n pre b post m Hpre Hpost Hao Hf Hco Hadj; [lia|].
  pose proof Hpost as (Eb & Hb & Hrest)%space_cons. pose proof (so_end _ _ _ Hpost) as Hnd.
  assert (space_ok st (pre ++ b :: post) nd) as Hsp by (apply space_app; by exists m).
  cbn [Coalesce_loop]. rewrite middle_lookup, middle_lookup_S. cbn [mbind option_bind].
  destruct post as [|y post]; cbn [lookup list_lookup].
  { exists al, n, (pre ++ [b]). done. }
  pose proof Hrest as (Ey & Hy & Hrest')%space_cons. pose proof (space_le _ _ _ Hrest').
  apply adj_cons in Hadj as [HR Hadj].
  destruct (CanMergeWith b y) eqn:Ec.
  - unfold tree_erase.
    assert (delete (S (length pre)) (pre ++ b :: y :: post) = pre ++ b :: post) as ->.
    { replace (S (length pre)) with (length (pre ++ [b])) by (rewrite length_app; simpl; lia).
      replace (pre ++ b :: y :: post) with ((pre ++ [b]) ++ y :: post) by by rewrite <-app_assoc.
      rewrite delete_middle, <-app_assoc. done. }
    destruct (Add_spec b y nd Hb Hy) as (z & -> & Hz & Az & Ez & Pz & Lz & Rz); [done|lia|done|].
    cbn [mbind option_bind]. rewrite middle_insert.
    destruct (allocator_Free_spec al n Hao) as (al1 & n1 & -> & Hao1 & Hct1 & _). cbn [mbind option_bind].
    destruct (block_sizes z Hz) as (_ & _ & _ & -> & _ & _).
    assert (space_ok m (z :: post) nd) as Hpost'.
    { apply space_cons. split_and!; [congruence|done|by rewrite Ez]. }
    assert (coalesced (pre ++ [z])) as Hco'.
    { unfold coalesced in *. eapply adj_replace_last; [|exact Hco]. intros w Hw.
      unfold unmergeable in *. by rewrite (CanMergeWith_ext w z w b). }
    assert (adj R (z :: post)) as Hadj'.
    { eapply adj_replace_head; [|exact Hadj]. intros w [?|Hw]; [by left|right].
      unfold unmergeable in *. apply CanMergeWith_iff in Ec as (Ep & _).
      by rewrite (CanMergeWith_ext z w y w) by congruence. }
    assert (∀ x, props_at (pre ++ z :: post) x = props_at (pre ++ b :: y :: post) x) as Hpa.
    { intros x. symmetry. pose proof (block_sizes y Hy). pose proof (block_sizes b Hb).
      apply CanMergeWith_iff in Ec as (Ep & _). apply props_at_pre, props_at_split; try congruence; lia. }
    assert (space_ok st (pre ++ z :: post) nd) as Hsp' by (apply space_app; by exists m).
    case Z.ltb_spec; intros Hlt.
    + exists al1, n1, (pre ++ z :: post). split_and!; try done.
      * rewrite !length_app in *. simpl. lia.
      * apply adj_app. split; [done|]. apply (adj_behind _ _ nd); [by rewrite Az, Eb|done|done].
    + destruct (IH al1 n1 pre z post m) as (al' & n' & t' & -> & Hao' & Hct' & ? & ? & Hpa'); try done.
      { simpl in Hf. lia. }
      exists al', n', t'. split_and!; try done.
      * rewrite !length_app in *. simpl in *. lia.
      * intros x. by rewrite Hpa', Hpa.
  - destruct (block_sizes y Hy) as (_ & _ & _ & -> & _ & _).
    assert (pre ++ b :: y :: post = (pre ++ [b]) ++ y :: post) as Eapp by by rewrite <-app_assoc.
    assert (coalesced ((pre ++ [b]) ++ [y])) as Hco'.
    { rewrite <-app_assoc. simpl. by apply adj_snoc. }
    case Z.ltb_spec; intros Hlt.
    + exists al, n, (pre ++ b :: y :: post). split_and!; try done. rewrite Eapp.
      apply adj_app. split; [done|]. apply (adj_behind _ _ nd); [by rewrite Ey|done|done].
    + replace (S (length pre)) with (length (pre ++ [b])) by (rewrite length_app; simpl; lia).
      rewrite Eapp. apply (IH al n (pre ++ [b]) y post (b_end b)); try done.
      * apply space_app. exists m. split; [done|]. apply space_cons. split_and!; [done|done|].
        apply space_nil; [apply Hrest|apply Hb].
      * simpl in Hf. lia.
Qed.

(** A tree whose block boundary at or before [lo] lets the iterator step back. *)
Definition can_step_back (t : tree) : Prop :=
  lo = st ∨ ∃ y t', t = y :: t' ∧ b_end y ≤ lo.

Lemma CoalesceForUpdate_spec t al n num_pages :
  space_ok st t nd → allocator_ok al n → adj R t → st ≤ lo < nd →
  0 ≤ num_pages → lo + num_pages * PageSize = hi → hi ≤ nd → can_step_back t →
  ∃ al' n' t', CoalesceForUpdate (MkManager t st nd) al lo num_pages = Some (al', MkManager t' st nd)
    ∧ allocator_ok al' n' ∧ (m_slab al' + n' + length t' = m_slab al + n + length t)%nat
    ∧ space_ok st t' nd ∧ coalesced t' ∧ ∀ x, props_at t' x = props_at t x.
Proof.
  intros Hsp Hao Hadj Hlo Hn Ehi Hhi Hback. unfold CoalesceForUpdate, FindIterator. simpl.
  pose proof (so_end _ _ _ Hsp). pose proof (proj1 (so_start _ _ _ Hsp)).
  assert (0 ≤ hi) by (rewrite <-Ehi; unfold PageSize; lia).
  rewrite Ehi, wrap_small by (unfold in_width; lia).
  destruct (tree_find_spec st t nd lo Hsp Hlo) as (pre & b & post & -> & Hb & ->).
  pose proof Hsp as (m & Hpre & Hpost)%space_app.
  remember (length (pre ++ b :: post)) as F eqn:HF.
  destruct (Z.eqb_spec lo st) as [Els|Hne]; cbn [negb mbind option_bind].
  - assert (pre = [] ∧ m = st) as [-> ->].
    { pose proof Hpost as (Eb & _)%space_cons. pose proof (space_le _ _ _ Hpre). destruct pre as [|y pre].
      - destruct Hpre as [_ _ Hpre]. simpl in Hpre. split; [done|lia].
      - apply space_cons in Hpre as (Ey & Hy & Hpre). pose proof (space_le _ _ _ Hpre).
        pose proof (block_sizes y Hy). lia. }
    destruct (Coalesce_loop_spec F al n [] b post st)
      as (al' & n' & t' & E & ?); [done|done|done|simpl in HF; lia|done|done|].
    cbn [length app] in E, HF |- *. rewrite E, HF. cbn [mbind option_bind]. by exists al', n', t'.
  - destruct Hback as [?|(y & t' & Ey & Hy)]; [done|].
    destruct pre as [|z pre _] using rev_ind.
    { simpl in Ey. injection Ey as <- _. lia. }
    assert (length (pre ++ [z]) = S (length pre)) as -> by (rewrite length_app; simpl; lia).
    rewrite check_bind_Some by (apply bool_decide_eq_true; lia). cbn [mbind option_bind pred].
    rewrite <-app_assoc in *. simpl app in *.
    pose proof Hsp as (m' & Hpre' & Hpost')%space_app.
    apply adj_app in Hadj as [Hadj1 Hadj2].
    destruct (Coalesce_loop_spec F al n pre z (b :: post) m')
      as (al' & n' & t'' & E & ?); try done.
    { rewrite HF, length_app. simpl. lia. }
    { (* every boundary before the block that contains [lo] lies before [lo] *)
      assert (m' < lo) as Hm'.
      { apply space_cons in Hpost' as (Ez & Hz & Hpost'). apply space_cons in Hpost' as (Eb & _).
        pose proof (block_sizes z Hz). lia. }
      clear -Hpre' Hpost' Hadj1 Hm'. apply space_cons in Hpost' as (Ez & _).
      assert (∀ x, x ∈ pre ++ [z] → m_address x < lo) as Hall.
      { intros x [Hx|Hx]%elem_of_app; [|set_unfold in Hx; destruct Hx as [->|[]]; lia].
        destruct (list_elem_of_split _ _ Hx) as (p1 & p2 & ->).
        apply space_app in Hpre' as (q & _ & Hq). pose proof Hq as (Ex & Hbx & Hq')%space_cons.
        pose proof (space_le _ _ _ Hq'). pose proof (block_sizes x Hbx). lia. }
      revert Hadj1 Hall. generalize (pre ++ [z]). unfold coalesced.
      induction l as [|x l IHl]; intros Hadj1 Hall; [done|]. destruct l as [|x' l]; [done|].
      rewrite adj_cons in *. destruct Hadj1 as [[Hr|Hr] Hadj1]; [specialize (Hall x'); set_solver by lia|].
      split; [done|]. apply IHl; [done|]. intros w Hw. apply Hall. set_solver. }
    rewrite E, HF. cbn [mbind option_bind]. by exists al', n', t''.
Qed.
End Coalesce.
