(* ===== verification/MemoryBlockSpec.v ===== *)
(** The abstract view of a [KMemoryBlockManager]: a function from addresses to the properties of
    their page. Every update of the manager refines a pointwise update of that function, keeps
    the blocks tiling the address space and coalesced, and never runs out of the two blocks its
    allocator holds. *)
From S2P Require Import Prelude Common MemoryBlock MemoryBlockManager.

(** * The abstraction *)
Record mgr_ok (m : KMemoryBlockManager) : Prop := {
  mo_space : space_ok (m_start_address m) (m_memory_block_tree m) (m_end_address m);
  mo_nonempty : m_start_address m < m_end_address m;
  mo_coalesced : coalesced (m_memory_block_tree m)
}.

Definition abs (m : KMemoryBlockManager) (x : Z) : option Props := props_at (m_memory_block_tree m) x.

(** [m'] is [m] with [f] applied to the properties of the addresses in the range. *)
Record refines_update (m m' : KMemoryBlockManager) (lo hi : Z) (f : Props → Props) : Prop := {
  ru_ok : mgr_ok m';
  ru_start : m_start_address m' = m_start_address m;
  ru_end : m_end_address m' = m_end_address m;
  ru_abs x : abs m' x = if (lo <=? x) && (x <? hi) then f <$> abs m x else abs m x
}.

(** Blocks are neither lost nor duplicated. *)
Definition conserved (m m' : KMemoryBlockManager) (al al' : UpdateAllocator) : Prop :=
  (Allocator_Finalize al' + length (m_memory_block_tree m')
   = Allocator_Finalize al + length (m_memory_block_tree m))%nat.

(** The ranges the manager's updates accept: whole pages inside the address space. *)
Record range_in (m : KMemoryBlockManager) (lo num_pages : Z) : Prop := {
  ri_lo : m_start_address m ≤ lo;
  ri_align : lo mod PageSize = 0;
  ri_pages : 0 < num_pages;
  ri_hi : lo + num_pages * PageSize ≤ m_end_address m
}.

Definition overlaps (b : KMemoryBlock) (lo hi : Z) : Prop := m_address b < hi ∧ lo < b_end b.

(** Unless the range starts where the address space does, the first block must end before it or
    be changed by the update: [CoalesceForUpdate] steps back from the block at the range. *)
Definition steps_back (m : KMemoryBlockManager) (lo : Z) (skip : KMemoryBlock → bool) : Prop :=
  lo = m_start_address m
  ∨ ∃ b t, m_memory_block_tree m = b :: t ∧ (b_end b ≤ lo ∨ skip b = false).

Lemma first_block_of m lo np skip :
  mgr_ok m → range_in m lo np → ¬ steps_back m lo skip →
  ∃ b t, m_memory_block_tree m = b :: t ∧ m_start_address m < lo < b_end b ∧ skip b = true.
Proof.
  intros [Hsp Hne _] [Hlo _ _ _] Hback. unfold steps_back in Hback. destruct (m_memory_block_tree m) as [|b t].
  - destruct Hsp as [_ _ Hsp]. simpl in Hsp. lia.
  - exists b, t. split; [done|]. assert (lo ≠ m_start_address m) by (intros ->; apply Hback; by left).
    assert (¬ b_end b ≤ lo) by (intros ?; apply Hback; right; exists b, t; by split; [|left]).
    split; [lia|]. destruct (skip b) eqn:E; [done|]. destruct Hback. right. exists b, t. by split; [|right].
Qed.

Lemma run_update_spec m al lo np skip act (f : Props → Props) (ok : KMemoryBlock → Prop) :
  mgr_ok m → range_in m lo np → allocator_ok al 2 →
  (∀ b, skip b = true → f (props_of b) = props_of b) →
  (∀ b, ok b → block_wf b → lo ≤ m_address b → b_end b ≤ lo + np * PageSize →
     ∃ b', act b = Some b' ∧ m_address b' = m_address b ∧ m_num_pages b' = m_num_pages b
       ∧ props_of b' = f (props_of b)) →
  (∀ b x l r, ok b → Split b x = Some (l, r) → ok l ∧ ok r) →
  (∀ b, b ∈ m_memory_block_tree m → overlaps b lo (lo + np * PageSize) → skip b = true ∨ ok b) →
  steps_back m lo skip →
  ∃ al' m', run_update m skip act al lo np = Some (al', m')
    ∧ refines_update m m' lo (lo + np * PageSize) f ∧ conserved m m' al al'.
Proof.
  intros [Hsp Hne Hco] [Hlo Hal Hnp Hhi] Hao Hskip Hact Hok Hoks Hback.
  destruct m as [t st nd]. simpl in *. set (hi := lo + np * PageSize) in *.
  assert (lo < hi) as Hlh by (unfold hi, PageSize; lia).
  unfold run_update, FindIterator. cbn [m_memory_block_tree].
  destruct (tree_find_spec st t nd lo Hsp ltac:(lia)) as (pre & b & post & -> & Hb & ->).
  pose proof Hsp as (mid & Hpre & Hpost)%space_app. pose proof Hpost as (Eb & Hwf & Hrest)%space_cons.
  assert (adj (unmergeable_out lo hi) (pre ++ b :: post)) as Hadj
    by (eapply adj_impl; [|exact Hco]; by right).
  destruct (update_loop_spec st nd lo hi skip act f ok Hhi Hskip Hact Hok (S (Z.to_nat np)) al 2
              pre (b :: post) mid lo np)
    as (al1 & n1 & t1 & -> & Hao1 & Hct1 & Hsp1 & Hup1 & Hadj1 & t2 & -> & Hhead); try done; try lia.
  { intros _. exists b, post. split; [done|lia]. }
  { intros _. unfold extra. case_match; lia. }
  { intros b' Hb' Hlt. apply Hoks; [set_solver|]. split; [done|].
    destruct (list_elem_of_split _ _ Hb') as (p1 & p2 & Ep). rewrite Ep in Hpost.
    destruct p1 as [|z p1]; simpl in Ep; [injection Ep as <- _; lia|]. injection Ep as <- ->.
    apply space_app in Hrest as (q & Hq & (Eq & Hwq & _)%space_cons).
    pose proof (space_le _ _ _ Hq). pose proof (block_sizes b' Hwq). lia. }
  cbn [mbind option_bind]. unfold set_tree. cbn [m_start_address m_end_address].
  destruct (CoalesceForUpdate_spec st nd lo hi (pre ++ t2) al1 n1 np)
    as (al2 & n2 & t3 & -> & Hao2 & Hct2 & Hsp2 & Hco2 & Hpa2); try done; try lia.
  { destruct (Z.eq_dec lo st) as [|Hls]; [by left|]. right.
    destruct Hback as [?|(y & t' & Ey & Hy)]; [done|]. destruct pre as [|z pre].
    - assert (mid = st) as -> by (destruct Hpre as [_ _ Hpre]; by simpl in Hpre).
      simpl in Ey. injection Ey as <- <-. destruct Hy as [Hy|Hy]; [lia|].
      destruct (Hhead b post eq_refl Hy) as (y & t3 & -> & Ey); [lia|lia|]. exists y, t3. split; [done|lia].
    - simpl in Ey. injection Ey as <- _. exists z, (pre ++ t2). split; [done|].
      apply space_cons in Hpre as (_ & _ & Hpre). pose proof (space_le _ _ _ Hpre). lia. }
  exists al2, (MkManager t3 st nd). split; [done|]. split.
  - split; [by split|done..|]. intros x. unfold abs. simpl. rewrite Hpa2. apply Hup1.
  - unfold conserved. simpl. rewrite (Allocator_Finalize_spec al2 n2), (Allocator_Finalize_spec al 2) by done. lia.
Qed.

(** A block of the range that the action refuses stops the update. *)
Lemma run_update_refused m al lo np skip act bad :
  mgr_ok m → range_in m lo np → allocator_ok al 2 →
  (∀ b b', act b = Some b' → m_address b' = m_address b ∧ m_num_pages b' = m_num_pages b) →
  bad ∈ m_memory_block_tree m → overlaps bad lo (lo + np * PageSize) → skip bad = false →
  (∀ b, props_of b = props_of bad → act b = None) →
  run_update m skip act al lo np = None.
Proof.
  intros [Hsp Hne Hco] [Hlo Hal Hnp Hhi] Hao Hact Hin [Ho1 Ho2] Hsb Hno.
  destruct m as [t st nd]. simpl in *. set (hi := lo + np * PageSize) in *.
  assert (lo < hi) as Hlh by (unfold hi, PageSize; lia).
  unfold run_update, FindIterator. cbn [m_memory_block_tree].
  destruct (tree_find_spec st t nd lo Hsp ltac:(lia)) as (pre & b & post & -> & Hb & ->).
  pose proof Hsp as (mid & Hpre & Hpost)%space_app. pose proof Hpost as (Eb & Hwf & Hrest)%space_cons.
  rewrite (update_loop_refused st nd lo hi skip act _ al 2 pre (b :: post) mid lo np bad); try done; try lia.
  - by exists b, post; split; [|lia].
  - unfold extra. case_match; lia.
  - eapply adj_impl; [|exact Hco]. by right.
  - apply elem_of_app in Hin as [Hin|]; [|done]. exfalso.
    destruct (list_elem_of_split _ _ Hin) as (p1 & p2 & ->).
    apply space_app in Hpre as (q & _ & (_ & _ & Hq)%space_cons). pose proof (space_le _ _ _ Hq). lia.
Qed.

(** So does a range that starts inside the first block, when that block is skipped: there is
    nothing in front of it. *)
Lemma run_update_first_block m al lo np skip act (f : Props → Props) (ok : KMemoryBlock → Prop) b t :
  mgr_ok m → range_in m lo np → allocator_ok al 2 →
  (∀ b, skip b = true → f (props_of b) = props_of b) →
  (∀ b, ok b → block_wf b → lo ≤ m_address b → b_end b ≤ lo + np * PageSize →
     ∃ b', act b = Some b' ∧ m_address b' = m_address b ∧ m_num_pages b' = m_num_pages b
       ∧ props_of b' = f (props_of b)) →
  (∀ b x l r, ok b → Split b x = Some (l, r) → ok l ∧ ok r) →
  (∀ b, b ∈ m_memory_block_tree m → overlaps b lo (lo + np * PageSize) → skip b = true ∨ ok b) →
  m_memory_block_tree m = b :: t → m_start_address m < lo < b_end b → skip b = true →
  run_update m skip act al lo np = None.
Proof.
  intros [Hsp Hne Hco] [Hlo Hal Hnp Hhi] Hao Hskip Hact Hok Hoks Et Hin Hsb.
  destruct m as [t0 st nd]. simpl in *. subst t0. set (hi := lo + np * PageSize) in *.
  assert (lo < hi) as Hlh by (unfold hi, PageSize; lia).
  pose proof Hsp as (Eb & Hb & Hrest)%space_cons. pose proof (space_le _ _ _ Hrest). pose proof (so_end _ _ _ Hsp).
  pose proof (proj1 (so_start _ _ _ Hsp)). destruct (block_sizes b Hb) as (_ & _ & _ & Eie & _ & _).
  assert (∀ t', tree_find (KMemoryBlock_new lo 1 KMemoryState.Free KMemoryPermission.None_ KMemoryAttribute.None_)
            (b :: t') = 0%nat) as Ef.
  { intros t'. cbn [tree_find]. rewrite Compare_key by done. rewrite (proj2 (Z.ltb_ge _ _)) by lia.
    by rewrite (proj2 (Z.ltb_lt lo (b_end b))) by lia. }
  assert (∀ al' t', CoalesceForUpdate (set_tree (MkManager (b :: t) st nd) (b :: t')) al' lo np = None) as Hnone.
  { intros al' t'. unfold CoalesceForUpdate, FindIterator, set_tree. cbn [m_memory_block_tree m_start_address].
    by rewrite Ef, (proj2 (Z.eqb_neq lo st)) by lia. }
  unfold run_update, FindIterator. cbn [m_memory_block_tree]. rewrite Ef.
  cbn [update_loop]. rewrite (proj2 (Z.ltb_lt 0 np)) by done.
  cbn [lookup list_lookup mbind option_bind]. rewrite Hsb. unfold advance. rewrite Eie.
  rewrite (wrap_small 64 (np * PageSize)) by (unfold in_width, hi, PageSize in *; lia).
  fold hi. rewrite (wrap_small 64 hi) by (unfold in_width; lia).
  case Z.ltb_spec; intros Hlt; [destruct (Z.to_nat np) eqn:Ek; [lia|cbn [update_loop Z.ltb Z.compare mbind option_bind]; apply Hnone]|].
  rewrite wrap_small by (unfold in_width; lia).
  assert ((hi - b_end b) mod PageSize = 0) as Hm.
  { apply mod_0_sub; [done| |destruct (so_start _ _ _ Hrest); done].
    unfold hi. apply mod_0_add; [done|done|by apply mul_mod_0]. }
  pose proof (mod_0_mul _ PageSize ltac:(done) Hm) as Em. set (rem' := (hi - b_end b) / PageSize) in *.
  assert (0 ≤ rem') by (apply Z.div_pos; [lia|done]).
  assert (rem' < np) by (unfold hi, PageSize in *; lia).
  destruct (update_loop_spec st nd lo hi skip act f ok Hhi Hskip Hact Hok (Z.to_nat np) al 2 [b] t (b_end b) (b_end b) rem')
    as (al' & n' & t' & E & _ & _ & _ & _ & _ & t2 & -> & _); try done; try lia.
  - apply space_cons. split_and!; [done|done|]. apply space_nil; [apply Hrest|lia].
  - apply Hrest.
  - intros Hr'. destruct t as [|b2 t]; [destruct Hrest as [_ _ Hrest]; simpl in Hrest; unfold PageSize in *; lia|].
    apply space_cons in Hrest as (E2 & Hb2 & _). exists b2, t. split; [done|]. pose proof (block_sizes b2 Hb2). lia.
  - intros _. unfold extra. rewrite Z.eqb_refl. lia.
  - intros b' Hb' Hlt'. apply Hoks; [set_solver|]. split; [done|].
    destruct (list_elem_of_split _ _ Hb') as (p1 & p2 & ->).
    apply space_app in Hrest as (q & Hq & (Eq & Hwq & _)%space_cons).
    pose proof (space_le _ _ _ Hq). pose proof (block_sizes b' Hwq). lia.
  - eapply adj_impl; [|exact Hco]. by right.
  - simpl in E. rewrite E. apply Hnone.
Qed.

(** * The updates as functions on properties *)
Definition upd_set (s p a : Z) (q : Props) : Props :=
  MkProps s p (p_orig q) (Z.lor a (Z.land (p_attr q) AttributeIgnoreMask)) (p_lock q) (p_use q).

(** [Update] may change a block: not locked for ipc. *)
Definition changeable (b : KMemoryBlock) : Prop :=
  m_original_permission b = KMemoryPermission.None_
  ∧ Z.land (m_attribute b) KMemoryAttribute.IpcLocked = KMemoryAttribute.None_.

Lemma attr_ignore attr a ign :
  Z.land a ign = 0 → Z.lor attr ign = Z.lor a ign → attr = Z.lor a (Z.land attr ign).
Proof.
  intros Ha E. apply testbit_ext. intros i Hi.
  assert (Z.testbit (Z.land a ign) i = false) as Hz by (rewrite Ha; apply Z.bits_0).
  assert (Z.testbit (Z.lor attr ign) i = Z.testbit (Z.lor a ign) i) as Hb by by rewrite E.
  rewrite Z.lor_spec, Z.land_spec in *. rewrite Z.lor_spec in Hb.
  by destruct (Z.testbit attr i), (Z.testbit a i), (Z.testbit ign i).
Qed.

Lemma HasProperties_upd b s p a :
  Z.land a AttributeIgnoreMask = 0 →
  HasProperties b s p a = true → upd_set s p a (props_of b) = props_of b.
Proof.
  intros Ha. unfold HasProperties. rewrite !andb_true_iff, !Z.eqb_eq. intros [[<- <-] E].
  assert (m_attribute b = Z.lor a (Z.land (m_attribute b) AttributeIgnoreMask)) as Ea by by apply attr_ignore.
  unfold upd_set. cbn [p_orig p_attr p_lock p_use props_of]. by rewrite <-Ea.
Qed.

Lemma Update_block b s p a flag set clear :
  changeable b →
  ∃ b', MemoryBlock.Update b s p a flag set clear = Some b' ∧ m_address b' = m_address b
    ∧ m_num_pages b' = m_num_pages b ∧ props_of b' = upd_set s p a (props_of b).
Proof.
  intros [H1 H2]. unfold MemoryBlock.Update. rewrite !check_bind_Some by by apply Z.eqb_eq.
  eexists. split; [done|]. by destruct (flag && negb (set =? 0)), (negb (clear =? 0)).
Qed.

Lemma Update_block_shape b b' s p a flag set clear :
  MemoryBlock.Update b s p a flag set clear = Some b' →
  m_address b' = m_address b ∧ m_num_pages b' = m_num_pages b.
Proof.
  unfold MemoryBlock.Update. intros H. apply check_bind_inv in H as [_ H]. apply check_bind_inv in H as [_ H].
  injection H as <-. by destruct (flag && negb (set =? 0)), (negb (clear =? 0)).
Qed.

Lemma Update_block_refused b s p a flag set clear :
  ¬ changeable b → MemoryBlock.Update b s p a flag set clear = None.
Proof.
  intros Hb. unfold MemoryBlock.Update.
  destruct (Z.eqb_spec (m_original_permission b) KMemoryPermission.None_); [|done].
  destruct (Z.eqb_spec (Z.land (m_attribute b) KMemoryAttribute.IpcLocked) KMemoryAttribute.None_); [|done].
  by destruct Hb.
Qed.

#[export] Instance changeable_dec b : Decision (changeable b).
Proof. unfold changeable. apply _. Defined.
#[export] Instance overlaps_dec b lo hi : Decision (overlaps b lo hi).
Proof. unfold overlaps. apply _. Defined.

Lemma Split_props b x l r : Split b x = Some (l, r) →
  props_of l = props_of b ∧ props_of r = props_of b.
Proof.
  unfold Split. intros H. apply check_bind_inv in H as [_ H]. apply check_bind_inv in H as [_ H].
  apply check_bind_inv in H as [_ H]. by injection H as <- <-.
Qed.

(** A condition on the properties of a block passes to the halves of a split. *)
Lemma ok_of_props (P : Props → Prop) b x l r :
  P (props_of b) → Split b x = Some (l, r) → P (props_of l) ∧ P (props_of r).
Proof. intros HP [-> ->]%Split_props. done. Qed.

(** * Free areas *)
Lemma align_candidate area alignment offset :
  0 ≤ area ≤ 2 ^ 62 → 0 < alignment ≤ 2 ^ 40 → 0 ≤ offset < alignment →
  let offset_area := u64 (AlignDown area alignment + offset) in
  let c := if area <=? offset_area then offset_area else u64 (offset_area + alignment) in
  area ≤ c < 2 ^ 63 ∧ (c - offset) mod alignment = 0
  ∧ ∀ c', area ≤ c' → (c' - offset) mod alignment = 0 → c ≤ c'.
Proof.
  intros Ha Hal Hof. destruct (AlignDown_mult area alignment) as [D1 D2]; [unfold in_width; lia|lia|].
  assert (0 ≤ AlignDown area alignment) by (unfold AlignDown; apply Z.mod_pos_bound; lia).
  rewrite (wrap_small 64 (AlignDown area alignment + offset)) by (unfold in_width; lia).
  cbn zeta. set (d := AlignDown area alignment) in *.
  assert (∀ c', (c' - offset) mod alignment = 0 → d < c' - offset → d + alignment ≤ c' - offset) as Hstep.
  { intros c' Hc'. apply mod_0_lt; [lia|done|done]. }
  assert (∀ c', (c' - offset) mod alignment = 0 → c' - offset < d → c' - offset + alignment ≤ d) as Hstep'.
  { intros c' Hc'. apply mod_0_lt; [lia|done|done]. }
  case Z.leb_spec; intros Hle.
  - split_and!; [lia|lia|by rewrite Z.add_simpl_r|]. intros c' Hc Hm.
    destruct (Z.lt_ge_cases (c' - offset) d) as [Hlt|]; [|lia]. specialize (Hstep' c' Hm Hlt). lia.
  - rewrite wrap_small by (unfold in_width; lia). split_and!; [lia|lia| |].
    + replace (d + offset + alignment - offset) with (d + alignment) by lia.
      apply mod_0_add; [lia|done|]. apply Z_mod_same_full.
    + intros c' Hc Hm. destruct (Z.lt_ge_cases d (c' - offset)) as [Hlt|]; [|lia].
      specialize (Hstep c' Hm Hlt). lia.
Qed.

(** A place of [num_pages] pages with [guard_pages] on both sides inside the free block [b] and
    the region, at the given offset from a multiple of the alignment. *)
Record placed (b : KMemoryBlock) (region_start region_end num_pages alignment offset guard_pages c : Z)
    : Prop := {
  pl_free : m_memory_state b = KMemoryState.Free;
  pl_lo : Z.max (m_address b) region_start + guard_pages * PageSize ≤ c;
  pl_hi : c + num_pages * PageSize + guard_pages * PageSize ≤ Z.min (b_end b) region_end;
  pl_align : (c - offset) mod alignment = 0
}.

Lemma FindFreeArea_loop_spec t mid nd rs re np al off gp :
  space_ok mid t nd → 0 < rs → rs < re ≤ 2 ^ 61 → 0 < np ≤ 2 ^ 40 → 0 ≤ gp ≤ 2 ^ 40 →
  0 < al ≤ 2 ^ 40 → 0 ≤ off < al → nd ≤ 2 ^ 61 →
  let a := FindFreeArea_loop t rs (re - 1) np al off gp in
  (a = 0 ∧ ∀ b c, b ∈ t → ¬ placed b rs re np al off gp c)
  ∨ (a ≠ 0 ∧ ∃ b, b ∈ t ∧ placed b rs re np al off gp a).
Proof.
  intros Hsp Hrs Hre Hnp Hgp Hal Hoff Hnd.
  revert mid Hsp. induction t as [|b t IH]; intros mid Hsp; cbn [FindFreeArea_loop].
  { left. split; [done|]. intros b c Hb. set_solver. }
  pose proof Hsp as (Eb & Hb & Hrest)%space_cons. pose proof (space_le _ _ _ Hrest) as Hbn.
  destruct (block_sizes b Hb) as (_ & _ & _ & Eie & _ & Hbe).
  assert (info_GetLastAddress (GetMemoryInfo b) = b_end b - 1) as Eil.
  { unfold info_GetLastAddress. rewrite Eie. apply wrap_small. destruct Hb as [[? _] _ _]. unfold in_width. lia. }
  rewrite Eil. cbn [GetMemoryInfo i_address i_state].
  assert (∀ b', b' ∈ t → b_end b ≤ m_address b') as Hlater.
  { intros b' Hb'. destruct (list_elem_of_split _ _ Hb') as (p1 & p2 & ->).
    apply space_app in Hrest as (q & Hq & (Eq & Hwq & _)%space_cons). pose proof (space_le _ _ _ Hq). lia. }
  assert (∀ b' c, placed b' rs re np al off gp c → m_address b' < re) as Hpl_lt.
  { intros b' c [_ H1 H2 _]. unfold PageSize in *. lia. }
  case Z.ltb_spec; intros Hlt.
  { left. split; [done|]. intros b' c [->|Hb']%elem_of_cons Hpl; apply Hpl_lt in Hpl; [lia|].
    specialize (Hlater b' Hb'). lia. }
  assert ((∀ c, ¬ placed b rs re np al off gp c) →
    let a := FindFreeArea_loop t rs (re - 1) np al off gp in
    (a = 0 ∧ ∀ b' c, b' ∈ b :: t → ¬ placed b' rs re np al off gp c)
    ∨ (a ≠ 0 ∧ ∃ b', b' ∈ b :: t ∧ placed b' rs re np al off gp a)) as Hskip.
  { intros Hn a. destruct (IH (b_end b) Hrest) as [[E Hnone]|[Hne (b' & Hb' & Hpl)]]; [left|right].
    - split; [done|]. intros b' c [->|Hb']%elem_of_cons; [apply Hn|by apply Hnone].
    - split; [done|]. exists b'. split; [set_solver|done]. }
  case Z.eqb_spec; intros Hst; cbn [negb]; [|apply Hskip; by intros c [? _ _ _]].
  set (area := Z.max (m_address b) rs + gp * PageSize).
  assert (0 < area ≤ 2 ^ 62) as Harea.
  { unfold area, PageSize. destruct Hb as [[? _] _ _]. lia. }
  assert ((if m_address b <=? rs then rs else m_address b) = Z.max (m_address b) rs) as Emax.
  { case Z.leb_spec; lia. }
  unfold free_area_candidate. rewrite Emax. fold area.
  rewrite (wrap_small 64 area) by (unfold in_width; lia).
  destruct (align_candidate area al off) as (Hc & Hcm & Hcmin); [lia|done|done|].
  set (c := if area <=? u64 (AlignDown area al + off) then _ else _) in *.
  rewrite (wrap_small 64 (c + _ + _)) by (unfold in_width, PageSize in *; lia).
  rewrite (wrap_small 64 (c + _ + _ - 1)) by (unfold in_width, PageSize in *; lia).
  assert (m_address b ≤ c ∧ c < c + np * PageSize + gp * PageSize - 1) as [Hbc Hcl]
    by (unfold area, PageSize in *; lia).
  rewrite (proj2 (Z.leb_le (m_address b) c)), (proj2 (Z.ltb_lt c _)) by done. cbn [andb].
  destruct (Z.leb_spec (c + np * PageSize + gp * PageSize - 1) (re - 1)) as [H1|H1]; cbn [andb];
    [destruct (Z.leb_spec (c + np * PageSize + gp * PageSize - 1) (b_end b - 1)) as [H2|H2]|].
  - right. split; [lia|]. exists b. split; [set_solver|]. split; [done|lia|lia|done].
  - apply Hskip. intros c' [_ G1 G2 G3]. specialize (Hcmin c' G1 G3). lia.
  - apply Hskip. intros c' [_ G1 G2 G3]. specialize (Hcmin c' G1 G3). lia.
Qed.

Lemma FindFreeArea_spec m rs rnp np al off gp :
  mgr_ok m → 0 < rs → m_start_address m ≤ rs → 0 < rnp →
  rs + rnp * PageSize ≤ m_end_address m → m_end_address m ≤ 2 ^ 61 →
  0 < np ≤ 2 ^ 40 → 0 ≤ gp ≤ 2 ^ 40 → 0 < al ≤ 2 ^ 40 → 0 ≤ off < al →
  let a := FindFreeArea m rs rnp np al off gp in
  (a = 0 ∧ ∀ b c, b ∈ m_memory_block_tree m → ¬ placed b rs (rs + rnp * PageSize) np al off gp c)
  ∨ (a ≠ 0 ∧ ∃ b, b ∈ m_memory_block_tree m ∧ placed b rs (rs + rnp * PageSize) np al off gp a).
Proof.
  intros [Hsp Hne Hco] Hrs0 Hrs Hrnp Hre Hnd Hnp Hgp Hal Hoff. destruct m as [t st nd]. simpl in *.
  set (re := rs + rnp * PageSize) in *. assert (rs < re) by (unfold re, PageSize; lia).
  unfold FindFreeArea. rewrite (proj2 (Z.ltb_lt 0 np)) by lia. fold re.
  rewrite (wrap_small 64 re), (wrap_small 64 (re - 1)) by (unfold in_width; lia).
  unfold FindIterator. cbn [m_memory_block_tree].
  destruct (tree_find_spec st t nd rs Hsp ltac:(lia)) as (pre & b & post & -> & Hb & ->).
  rewrite drop_app_length. pose proof Hsp as (mid & Hpre & Hpost)%space_app.
  destruct (FindFreeArea_loop_spec (b :: post) mid nd rs re np al off gp Hpost)
    as [[E Hn]|[Hn (b' & Hb' & Hpl)]]; try done; try lia; [left|right].
  - split; [done|]. intros b' c [Hb'|Hb']%elem_of_app; [|by apply Hn].
    intros [_ G1 G2 _]. destruct (list_elem_of_split _ _ Hb') as (p1 & p2 & ->).
    apply space_app in Hpre as (q & _ & (_ & Hwq & Hq)%space_cons). pose proof (space_le _ _ _ Hq).
    apply space_cons in Hpost as (Eb & _). unfold PageSize in *. lia.
  - split; [done|]. exists b'. split; [set_solver|done].
Qed.

(** * The checks of [CheckState] *)
Definition counts_prop (q : Props) : Prop :=
  (Z.land (p_attr q) KMemoryAttribute.IpcLocked = 0 ∨ p_lock q ≠ 0)
  ∧ (Z.land (p_attr q) KMemoryAttribute.DeviceShared = 0 ∨ p_use q ≠ 0).

Lemma counts_ok_iff b : counts_ok b = true ↔ counts_prop (props_of b).
Proof.
  unfold counts_ok, counts_prop. simpl.
  destruct (Z.eqb_spec (Z.land (m_attribute b) KMemoryAttribute.IpcLocked) KMemoryAttribute.None_) as [->|H1],
    (Z.eqb_spec (m_ipc_lock_count b) 0) as [->|H2],
    (Z.eqb_spec (Z.land (m_attribute b) KMemoryAttribute.DeviceShared) KMemoryAttribute.None_) as [->|H3],
    (Z.eqb_spec (m_device_use_count b) 0) as [->|H4]; simpl;
    unfold KMemoryAttribute.None_ in *; intuition (lia || done).
Qed.

Lemma CheckState_loop_spec prev t e :
  block_wf prev → space_ok (b_end prev) t e →
  CheckState_loop prev t = true
  ↔ coalesced (prev :: t) ∧ (∀ b, b ∈ t → counts_prop (props_of b)) ∧ (t = [] → counts_prop (props_of prev)).
Proof.
  revert prev. induction t as [|b t IH]; intros prev Hp Hsp; cbn [CheckState_loop].
  - rewrite counts_ok_iff. split; [intros ?|by intros (_ & _ & H); apply H].
    split_and!; [done|set_solver|done].
  - apply space_cons in Hsp as (Eb & Hb & Hsp). destruct (block_sizes prev Hp) as (_ & -> & _).
    rewrite Eb, Z.eqb_refl, andb_true_r, !andb_true_iff, negb_true_iff, counts_ok_iff, (IH b Hb Hsp).
    unfold coalesced. rewrite adj_cons. unfold unmergeable at 2. split.
    + intros [[H1 H2] (H3 & H4 & _)]. split_and!; [done|done| |done].
      intros b' [->|?]%elem_of_cons; [done|by apply H4].
    + intros ([H1 H2] & H3 & _). split_and!; [done|apply H3; set_solver|done| |].
      * intros b' Hb'. apply H3. set_solver.
      * intros _. apply H3. set_solver.
Qed.

(** * Ipc locks *)
Definition upd_lock (np : Z) (q : Props) : Props :=
  MkProps (p_state q)
    (if p_lock q =? 0 then Z.lor (Z.land np KMemoryPermission.IpcLockChangeMask)
                                 (Z.land (p_perm q) (not8 KMemoryPermission.IpcLockChangeMask))
     else p_perm q)
    (if p_lock q =? 0 then p_perm q else p_orig q)
    (Z.lor (p_attr q) KMemoryAttribute.IpcLocked) (p_lock q + 1) (p_use q).

(** A block [LockForIpc] accepts: the flag agrees with the count, the counters do not
    overflow, and a first lock narrows the permission. *)
Record lockable (np : Z) (b : KMemoryBlock) : Prop := {
  lk_flag : has_flag (m_attribute b) KMemoryAttribute.IpcLocked = true ∨ m_ipc_lock_count b = 0;
  lk_count : 0 ≤ m_ipc_lock_count b < 2 ^ 16 - 1;
  lk_merge : 0 ≤ m_ipc_disable_merge_count b < 2 ^ 16 - 1;
  lk_orig : m_ipc_lock_count b = 0 → m_original_permission b = KMemoryPermission.None_;
  lk_perm : m_ipc_lock_count b = 0 →
    Z.lor (Z.lor (m_permission b) np) KMemoryPermission.NotMapped
    = Z.lor (m_permission b) KMemoryPermission.NotMapped;
  lk_exec : m_ipc_lock_count b = 0 →
    has_flag (m_permission b) KMemoryPermission.UserExecute = false ∨ np = KMemoryPermission.UserRead
}.

Lemma LockForIpc_spec b np left right :
  lockable np b →
  ∃ b', LockForIpc b np left right = Some b' ∧ m_address b' = m_address b
    ∧ m_num_pages b' = m_num_pages b ∧ props_of b' = upd_lock np (props_of b)
    ∧ m_ipc_disable_merge_count b' = m_ipc_disable_merge_count b + (if left then 1 else 0)
    ∧ m_disable_merge_attribute b'
      = (if left then Z.lor (m_disable_merge_attribute b) DisableMerge.IpcLeft
         else m_disable_merge_attribute b)
    ∧ m_device_disable_merge_left_count b' = m_device_disable_merge_left_count b
    ∧ m_device_disable_merge_right_count b' = m_device_disable_merge_right_count b.
Proof.
  intros [Hf Hc Hm Ho Hp He]. unfold LockForIpc.
  rewrite (wrap_small 16 (m_ipc_lock_count b + 1)) by (unfold in_width; lia).
  assert (u16 (m_ipc_disable_merge_count b + 1) = m_ipc_disable_merge_count b + 1) as Em
    by (apply wrap_small; unfold in_width; lia).
  rewrite check_bind_Some by (apply orb_true_iff; rewrite Z.eqb_eq; exact Hf).
  rewrite check_bind_Some by (apply Z.ltb_lt; lia).
  assert ((m_ipc_lock_count b + 1 =? 1) = (m_ipc_lock_count b =? 0)) as ->.
  { destruct (Z.eqb_spec (m_ipc_lock_count b + 1) 1), (Z.eqb_spec (m_ipc_lock_count b) 0); lia || done. }
  unfold upd_lock. cbn [p_lock props_of p_perm p_state p_attr p_orig p_use].
  case Z.eqb_spec; intros Hz.
  - rewrite check_bind_Some by (apply Z.eqb_eq, Ho, Hz).
    rewrite check_bind_Some by (apply Z.eqb_eq, Hp, Hz).
    rewrite check_bind_Some by (apply orb_true_iff; rewrite negb_true_iff, Z.eqb_eq; exact (He Hz)).
    cbn [mbind option_bind]. destruct left; [rewrite check_bind_Some by (apply Z.ltb_lt; simpl; lia)|];
      simpl; rewrite ?Em;
      (eexists; split; [done|]; unfold props_of; simpl; split_and!; try done; lia).
  - cbn [mbind option_bind]. destruct left; [rewrite check_bind_Some by (apply Z.ltb_lt; simpl; lia)|];
      simpl; rewrite ?Em;
      (eexists; split; [done|]; unfold props_of; simpl; split_and!; try done; lia).
Qed.

Lemma Split_counts b x l r : Split b x = Some (l, r) →
  m_ipc_disable_merge_count l = m_ipc_disable_merge_count b ∧ m_ipc_disable_merge_count r = 0.
Proof.
  unfold Split. intros H. apply check_bind_inv in H as [_ H]. apply check_bind_inv in H as [_ H].
  apply check_bind_inv in H as [_ H]. by injection H as <- <-.
Qed.

Lemma lockable_split np b x l r :
  lockable np b → Split b x = Some (l, r) → lockable np l ∧ lockable np r.
Proof.
  intros [H1 H2 H3 H4 H5 H6] E. destruct (Split_props b x l r E) as [El Er].
  destruct (Split_counts b x l r E) as [Cl Cr].
  injection El as L1 L2 L3 L4 L5 L6. injection Er as R1 R2 R3 R4 R5 R6.
  split; split; rewrite ?L2, ?L3, ?L4, ?L5, ?R2, ?R3, ?R4, ?R5, ?Cl, ?Cr; try done; lia.
Qed.

(** A block whose ipc flags and counts agree. *)
Record ipc_wf (b : KMemoryBlock) : Prop := {
  iw_attr : in_width 8 (m_attribute b);
  iw_merge : in_width 8 (m_disable_merge_attribute b);
  iw_unlocked : m_ipc_lock_count b = 0 →
    Z.land (m_attribute b) KMemoryAttribute.IpcLocked = 0
    ∧ m_original_permission b = KMemoryPermission.None_;
  iw_locked : m_ipc_lock_count b ≠ 0 →
    has_flag (m_attribute b) KMemoryAttribute.IpcLocked = true;
  iw_left0 : m_ipc_disable_merge_count b = 0 →
    Z.land (m_disable_merge_attribute b) DisableMerge.IpcLeft = 0;
  iw_left : m_ipc_disable_merge_count b ≠ 0 →
    has_flag (m_disable_merge_attribute b) DisableMerge.IpcLeft = true
}.

Lemma flag_set_clear x f :
  in_width 8 x → in_width 8 f → Z.land x f = 0 → Z.land (Z.lor x f) (not8 f) = x.
Proof.
  intros Hx Hf Hz. apply testbit_ext. intros i Hi. rewrite Z.land_spec, Z.lor_spec.
  destruct (Z.lt_ge_cases i 8).
  - unfold not8. rewrite lnotw_testbit by (done || lia).
    assert (Z.testbit (Z.land x f) i = false) as Hb by (rewrite Hz; apply Z.bits_0).
    rewrite Z.land_spec in Hb. by destruct (Z.testbit x i), (Z.testbit f i).
  - rewrite (testbit_high 8 x i), (testbit_high 8 f i) by done. done.
Qed.

Lemma flag_set x f : has_flag x f = true → Z.lor x f = x.
Proof.
  unfold has_flag. intros E%Z.eqb_eq. apply testbit_ext. intros i Hi. rewrite <-E, Z.lor_spec, Z.land_spec.
  by destruct (Z.testbit x i), (Z.testbit f i).
Qed.

Lemma flag_after_set x f : has_flag (Z.lor x f) f = true.
Proof.
  unfold has_flag. apply Z.eqb_eq, testbit_ext. intros i Hi.
  rewrite Z.land_spec, Z.lor_spec. by destruct (Z.testbit x i), (Z.testbit f i).
Qed.

Lemma range_aligned m lo np : mgr_ok m → range_in m lo np → IsAligned lo PageSize = true.
Proof.
  intros [Hsp _ _] [H1 H2 H3 H4]. pose proof (so_end _ _ _ Hsp). destruct (so_start _ _ _ Hsp).
  change PageSize with (2 ^ 12) in *. rewrite IsAligned_pow2 by (unfold in_width; lia). by apply Z.eqb_eq.
Qed.

(** [HasProperties] on the properties. *)
Definition matches (s p a : Z) (q : Props) : bool :=
  (p_state q =? s) && (p_perm q =? p)
  && (Z.lor (p_attr q) AttributeIgnoreMask =? Z.lor a AttributeIgnoreMask).

Lemma matches_props s p a b : matches s p a (props_of b) = HasProperties b s p a.
Proof. done. Qed.

Definition upd_attr (mask attr : Z) (q : Props) : Props :=
  if Z.land (p_attr q) mask =? attr then q
  else MkProps (p_state q) (p_perm q) (p_orig q) (Z.lor (Z.land (p_attr q) (not8 mask)) attr)
         (p_lock q) (p_use q).

(** * Properties *)

(** Initialisation yields a tiled, coalesced manager whose whole address space is free. *)
Theorem Initialize_free (st nd : Z) (b : KMemoryBlock) :
  0 ≤ st < nd → nd ≤ 2 ^ 63 → st mod PageSize = 0 → nd mod PageSize = 0 →
  ∃ m, Initialize st nd (Some b) = Some (Some m) ∧ mgr_ok m
    ∧ m_start_address m = st ∧ m_end_address m = nd
    ∧ ∀ x, abs m x = if (st <=? x) && (x <? nd) then Some (MkProps KMemoryState.Free 0 0 0 0 0) else None.
Proof.
  intros Hst Hnd Hs He. unfold Initialize. change PageSize with (2 ^ 12) in Hs, He |- *.
  rewrite !IsAligned_pow2, Hs, He by (unfold in_width; lia). cbn [Z.eqb check mbind option_bind tree_insert].
  rewrite wrap_small by (unfold in_width; lia).
  set (b0 := MemoryBlock.Initialize b st ((nd - st) / 2 ^ 12) KMemoryState.Free KMemoryPermission.None_
               KMemoryAttribute.None_).
  assert (b_end b0 = nd) as Ee.
  { unfold b_end. simpl. change PageSize with (2 ^ 12). rewrite <-(mod_0_mul (nd - st)); [lia|lia|].
    by apply mod_0_sub. }
  exists (MkManager [b0] st nd). split; [done|]. split_and!; try done.
  - split; [|simpl; lia|done]. apply space_cons. split_and!; [done| |].
    + split; [simpl; split; [lia|done]| |by rewrite Ee]. unfold b_end, PageSize in Ee.
      change (m_address b0) with st in Ee. revert Ee. generalize (m_num_pages b0). lia.
    + rewrite Ee. simpl. apply space_nil; [split; [lia|done]|done].
  - intros x. unfold abs, m_memory_block_tree. rewrite props_at_cons, Ee. done.
Qed.

(** C1: for whole pages inside the address space, an attribute without the ipc and device flags
    and an allocator with two blocks, exactly one of three things happens. When every block of
    the range has the properties already or may change (it is not locked for ipc), and the
    range starts at the start of the address space, behind the first block, or in a first
    block that changes, [Update] refines the pointwise assignment of state, permission and
    attribute: inside the range every page gets them (keeping its ipc and device flags),
    outside nothing changes, the tree stays tiled and coalesced, the two blocks suffice and no
    block leaks. When a block of the range is locked for ipc and lacks the properties, an
    assertion fails. When the range starts inside the first block and that block has the
    properties already, [CoalesceForUpdate] steps back from the first block and the
    iteration is undefined. *)
Theorem Update_correct (m : KMemoryBlockManager) (al : UpdateAllocator)
    (lo np s p a set clear : Z) :
  mgr_ok m → range_in m lo np → allocator_ok al 2 → Z.land a AttributeIgnoreMask = 0 →
  let hi := lo + np * PageSize in
  ((∀ b, b ∈ m_memory_block_tree m → overlaps b lo hi → HasProperties b s p a = true ∨ changeable b) →
   steps_back m lo (λ b, HasProperties b s p a) →
   ∃ al' m', Update m al lo np s p a set clear = Some (al', m')
     ∧ refines_update m m' lo hi (upd_set s p a) ∧ conserved m m' al al')
  ∧ ((∃ b, b ∈ m_memory_block_tree m ∧ overlaps b lo hi ∧ HasProperties b s p a = false ∧ ¬ changeable b)
     ∨ ¬ steps_back m lo (λ b, HasProperties b s p a) →
     Update m al lo np s p a set clear = None).
Proof.
  intros Hm Hr Hal Ha hi. unfold Update. rewrite check_bind_Some by by eapply range_aligned.
  rewrite check_bind_Some by by apply Z.eqb_eq.
  assert (∀ b x l r, changeable b → Split b x = Some (l, r) → changeable l ∧ changeable r) as Hsplit.
  { intros b x l r. apply (ok_of_props (λ q, p_orig q = 0 ∧ Z.land (p_attr q) _ = 0) b x). }
  assert (∀ b, HasProperties b s p a = true → upd_set s p a (props_of b) = props_of b) as Hid
    by (intros b; by apply HasProperties_upd).
  assert (∀ b, b ∈ m_memory_block_tree m → overlaps b lo hi → HasProperties b s p a = false → ¬ changeable b →
    run_update m (λ b, HasProperties b s p a)
      (λ b, MemoryBlock.Update b s p a (m_address b =? lo) set clear) al lo np = None) as Hbad.
  { intros b Hb Ho Hp Hc. apply (run_update_refused m al lo np _ _ b); try done.
    - intros b1 b2. apply Update_block_shape.
    - intros b' E. apply Update_block_refused. injection E as _ _ E1 E2 _ _. unfold changeable in *. by rewrite E1, E2. }
  split.
  - intros Hch Hback. apply (run_update_spec _ _ _ _ _ _ _ changeable); try done.
    intros b Hb _ _ _. by apply Update_block.
  - intros [(b & Hb & Ho & Hp & Hc)|Hback]; [by eapply Hbad|].
    destruct (first_block_of m lo np _ Hm Hr Hback) as (b & t & Et & Hlo & Hp).
    destruct (decide (Exists (λ b, overlaps b lo hi ∧ HasProperties b s p a = false ∧ ¬ changeable b)
                        (m_memory_block_tree m))) as [(b' & Hb' & Ho & Hp' & Hc)%Exists_exists|Hall];
      [by eapply Hbad|].
    apply (run_update_first_block m al lo np _ _ (upd_set s p a) changeable b t); try done.
    + intros b' Hb _ _ _. by apply Update_block.
    + intros b' Hb' Ho. destruct (HasProperties b' s p a) eqn:E; [by left|right].
      destruct (decide (changeable b')) as [|Hc]; [done|]. destruct Hall. apply Exists_exists. by exists b'.
Qed.

(** [UpdateIfMatch] does the same for exactly the pages that have the tested properties. *)
Theorem UpdateIfMatch_correct (m : KMemoryBlockManager) (al : UpdateAllocator)
    (lo np ts tp ta s p a set clear : Z) :
  mgr_ok m → range_in m lo np → allocator_ok al 2 → Z.land a AttributeIgnoreMask = 0 →
  (∀ b, b ∈ m_memory_block_tree m → overlaps b lo (lo + np * PageSize) →
     HasProperties b ts tp ta = true → HasProperties b s p a = true ∨ changeable b) →
  steps_back m lo (λ b, negb (HasProperties b ts tp ta && negb (HasProperties b s p a))) →
  ∃ al' m', UpdateIfMatch m al lo np ts tp ta s p a set clear = Some (al', m')
    ∧ refines_update m m' lo (lo + np * PageSize)
        (λ q, if matches ts tp ta q then upd_set s p a q else q)
    ∧ conserved m m' al al'.
Proof.
  intros Hm Hr Hal Ha Hch Hback. unfold UpdateIfMatch.
  rewrite check_bind_Some by by eapply range_aligned.
  rewrite check_bind_Some by by apply Z.eqb_eq.
  apply (run_update_spec _ _ _ _ _ _ _ (λ b, HasProperties b ts tp ta = true ∧ changeable b)); try done.
  - intros b. rewrite matches_props. destruct (HasProperties b ts tp ta); [|done].
    rewrite andb_true_l, negb_involutive. by apply HasProperties_upd.
  - intros b [Ht Hb] _ _ _. rewrite matches_props, Ht. by apply Update_block.
  - intros b x l r Hb E. unfold changeable in *. rewrite <-!matches_props in *.
    by apply (ok_of_props (λ q, matches ts tp ta q = true ∧ p_orig q = 0 ∧ Z.land (p_attr q) _ = 0) b x).
  - intros b Hb Ho. destruct (HasProperties b ts tp ta) eqn:Ht; [|by left].
    destruct (Hch b Hb Ho Ht) as [->|?]; [by left|by right].
Qed.

(** [UpdateAttribute] changes the masked attributes of the range and nothing else. *)
Theorem UpdateAttribute_correct (m : KMemoryBlockManager) (al : UpdateAllocator)
    (lo np mask attr : Z) :
  mgr_ok m → range_in m lo np → allocator_ok al 2 →
  Z.land mask KMemoryAttribute.IpcLocked = 0 → Z.land mask KMemoryAttribute.DeviceShared = 0 →
  steps_back m lo (λ b, Z.land (m_attribute b) mask =? attr) →
  ∃ al' m', UpdateAttribute m al lo np mask attr = Some (al', m')
    ∧ refines_update m m' lo (lo + np * PageSize) (upd_attr mask attr) ∧ conserved m m' al al'.
Proof.
  intros Hm Hr Hal H1 H2 Hback. unfold UpdateAttribute.
  rewrite check_bind_Some by by eapply range_aligned.
  apply (run_update_spec _ _ _ _ _ _ _ (λ b, Z.land (m_attribute b) mask ≠ attr)); try done.
  - intros b Hb. unfold upd_attr. simpl. by rewrite Hb.
  - intros b Hb _ _ _. unfold MemoryBlock.UpdateAttribute.
    rewrite !check_bind_Some by by apply Z.eqb_eq. eexists. split; [done|].
    unfold upd_attr. simpl. by rewrite (proj2 (Z.eqb_neq _ _) Hb).
  - intros b x l r Hb E. by apply (ok_of_props (λ q, Z.land (p_attr q) mask ≠ attr) b x).
  - intros b _ _. destruct (Z.eqb_spec (Z.land (m_attribute b) mask) attr); [by left|by right].
Qed.

(** Locking a range for ipc narrows the permission of its pages at the first lock, counts
    every further one, and leaves the pages outside alone. *)
Theorem UpdateLock_LockForIpc_correct (m : KMemoryBlockManager) (al : UpdateAllocator) (lo np perm : Z) :
  mgr_ok m → range_in m lo np → allocator_ok al 2 →
  (∀ b, b ∈ m_memory_block_tree m → overlaps b lo (lo + np * PageSize) → lockable perm b) →
  ∃ al' m', UpdateLock m al lo np LockForIpc perm = Some (al', m')
    ∧ refines_update m m' lo (lo + np * PageSize) (upd_lock perm) ∧ conserved m m' al al'.
Proof.
  intros Hm Hr Hal Hl. unfold UpdateLock.
  rewrite check_bind_Some by by eapply range_aligned.
  apply (run_update_spec _ _ _ _ _ _ _ (lockable perm)); try done.
  - intros b Hb _ _ _.
    destruct (LockForIpc_spec b perm (m_address b =? lo) (GetEndAddress b =? u64 (lo + np * PageSize)) Hb)
      as (b' & E & H1 & H2 & H3 & _). by exists b'.
  - intros. by eapply lockable_split.
  - intros. right. by apply Hl.
  - right. destruct Hm as [Hsp Hne _]. destruct (m_memory_block_tree m) as [|b t].
    + destruct Hsp as [_ _ Hsp]. simpl in Hsp. lia.
    + exists b, t. split; [done|by right].
Qed.

(** Unlocking a block that was locked for ipc gives back the very block, on whichever
    count the lock was taken. *)
Theorem LockForIpc_UnlockForIpc (b : KMemoryBlock) (np np' : Z) (left right right' : bool) :
  ipc_wf b → lockable np b → m_permission b ≠ KMemoryPermission.None_ →
  ∃ b', LockForIpc b np left right = Some b' ∧ UnlockForIpc b' np' left right' = Some b.
Proof.
  intros [Ha Hm Hu Hl Hl0 Hl1] Hk Hp.
  destruct (LockForIpc_spec b np left right Hk) as (b' & E & E1 & E2 & E3 & E4 & E5 & E6 & E7).
  exists b'. split; [done|]. destruct Hk as [_ Hc Hmc _ _ _].
  injection E3 as P1 P2 P3 P4 P5 P6. cbn [props_of p_lock p_perm p_orig p_attr p_state p_use] in *.
  unfold UnlockForIpc, set_props, set_merge.
  cbn [m_ipc_disable_merge_count m_disable_merge_attribute m_device_disable_merge_left_count
       m_device_disable_merge_right_count m_address m_num_pages m_memory_state m_ipc_lock_count
       m_device_use_count m_permission m_original_permission m_attribute].
  rewrite P4, P5, P2, P3, P1, P6, E1, E2, E4, E5, E6, E7.
  rewrite check_bind_Some by apply flag_after_set.
  rewrite check_bind_Some by (apply Z.ltb_lt; lia).
  rewrite Z.add_simpl_r, (wrap_small 16 (m_ipc_lock_count b)) by (unfold in_width; lia).
  assert ((m_ipc_lock_count b + 1 =? 1) = (m_ipc_lock_count b =? 0)) as ->.
  { destruct (Z.eqb_spec (m_ipc_lock_count b + 1) 1), (Z.eqb_spec (m_ipc_lock_count b) 0); lia || done. }
  assert (left = true → (if m_ipc_disable_merge_count b =? 0 then
      Z.land (Z.lor (m_disable_merge_attribute b) DisableMerge.IpcLeft) (not8 DisableMerge.IpcLeft)
    else Z.lor (m_disable_merge_attribute b) DisableMerge.IpcLeft) = m_disable_merge_attribute b) as Hleft.
  { intros _. case Z.eqb_spec; intros Hz; [apply flag_set_clear; [done|done|by apply Hl0]|by apply flag_set, Hl1]. }
  assert (∀ x, x = (if left then
      check (0 <? m_ipc_disable_merge_count b + 1);;
      Some (MkBlock (m_device_disable_merge_left_count b) (m_device_disable_merge_right_count b)
              (m_address b) (m_num_pages b) (m_memory_state b) (m_ipc_lock_count b) (m_device_use_count b)
              (u16 (m_ipc_disable_merge_count b + 1 - 1)) (m_permission b) (m_original_permission b)
              (m_attribute b)
              (if m_ipc_disable_merge_count b + 1 =? 1 then
                 Z.land (Z.lor (m_disable_merge_attribute b) DisableMerge.IpcLeft) (not8 DisableMerge.IpcLeft)
               else Z.lor (m_disable_merge_attribute b) DisableMerge.IpcLeft))
    else Some b) → x = Some b) as Hfin.
  { intros x ->. destruct left; [|done]. rewrite check_bind_Some by (apply Z.ltb_lt; lia).
    rewrite Z.add_simpl_r, wrap_small by (unfold in_width; lia).
    assert ((m_ipc_disable_merge_count b + 1 =? 1) = (m_ipc_disable_merge_count b =? 0)) as ->.
    { destruct (Z.eqb_spec (m_ipc_disable_merge_count b + 1) 1), (Z.eqb_spec (m_ipc_disable_merge_count b) 0); lia || done. }
    rewrite Hleft by done. by destruct b. }
  apply Hfin. destruct (Z.eqb_spec (m_ipc_lock_count b) 0) as [Hz|Hz].
  - destruct (Hu Hz) as [Hu1 Hu2].
    rewrite check_bind_Some by (apply negb_true_iff, Z.eqb_neq; done).
    cbn [mbind option_bind]. rewrite flag_set_clear by done. rewrite <-Hu2.
    destruct left; [done|]. by rewrite Z.add_0_r; destruct b.
  - cbn [mbind option_bind]. rewrite (flag_set (m_attribute b)) by by apply Hl.
    destruct left; [done|]. by rewrite Z.add_0_r; destruct b.
Qed.

(** [FindFreeArea] answers 0 only when no free block has room for the pages and their guards
    at the requested offset from the alignment inside the region, and otherwise such a place. *)
Theorem FindFreeArea_correct (m : KMemoryBlockManager) (rs rnp np al off gp : Z) :
  mgr_ok m → 0 < rs → m_start_address m ≤ rs → 0 < rnp →
  rs + rnp * PageSize ≤ m_end_address m → m_end_address m ≤ 2 ^ 61 →
  0 < np ≤ 2 ^ 40 → 0 ≤ gp ≤ 2 ^ 40 → 0 < al ≤ 2 ^ 40 → 0 ≤ off < al →
  let a := FindFreeArea m rs rnp np al off gp in
  (a = 0 ↔ ∀ b c, b ∈ m_memory_block_tree m → ¬ placed b rs (rs + rnp * PageSize) np al off gp c)
  ∧ (a ≠ 0 → ∃ b, b ∈ m_memory_block_tree m ∧ placed b rs (rs + rnp * PageSize) np al off gp a).
Proof.
  intros Hm H1 H2 H3 H4 H5 H6 H7 H8 H9 a.
  destruct (FindFreeArea_spec m rs rnp np al off gp Hm H1 H2 H3 H4 H5 H6 H7 H8 H9)
    as [[E Hn]|[Hn (b & Hb & Hpl)]].
  - split; [done|]. intros Hne. by destruct Hne.
  - split; [|intros _; by exists b]. split; [done|]. intros Hall. by destruct (Hall b a Hb).
Qed.

(** On a well-formed manager [CheckState] decides that the lock and share flags have counts,
    for every block but the first of several: the loop starts with the second block, and the
    final check repeats the last one. *)
Theorem CheckState_correct (m : KMemoryBlockManager) :
  mgr_ok m →
  ∃ b t r, m_memory_block_tree m = b :: t ∧ CheckState m = Some r
    ∧ (r = true ↔ (∀ b', b' ∈ t → counts_prop (props_of b')) ∧ (t = [] → counts_prop (props_of b))).
Proof.
  intros [Hsp Hne Hco]. destruct (m_memory_block_tree m) as [|b t] eqn:Et.
  { destruct Hsp as [_ _ Hsp]. simpl in Hsp. lia. }
  exists b, t, (CheckState_loop b t). unfold CheckState. rewrite Et. split_and!; [done..|].
  apply space_cons in Hsp as (_ & Hb & Hsp). rewrite (CheckState_loop_spec b t _ Hb Hsp).
  unfold coalesced in Hco. tauto.
Qed.

(** ** Witnesses: an address space of 2 MiB at 2 MiB *)
Definition no_block : KMemoryBlock := KMemoryBlock_new 0 0 0 0 0.
Definition ex_lo : Z := 0x200000.
Definition ex_hi : Z := 0x400000.
Definition ex_block : KMemoryBlock := MkBlock 0 0 ex_lo 512 0 0 0 0 0 0 0 0.
Definition ex_manager : KMemoryBlockManager := MkManager [ex_block] ex_lo ex_hi.
Definition ex_allocator : UpdateAllocator := MkAllocator [true; true] 0 5.

Lemma ex_manager_ok : mgr_ok ex_manager.
Proof.
  destruct (Initialize_free ex_lo ex_hi no_block) as (m & E & Hm & _);
    [unfold ex_lo, ex_hi; lia|unfold ex_hi; lia|done|done|].
  vm_compute in E. injection E as <-. exact Hm.
Qed.

Lemma ex_allocator_ok : allocator_ok ex_allocator 2.
Proof. by split; [lia|..]. Qed.

Lemma ex_range : range_in ex_manager (ex_lo + 0x10000) 4.
Proof. split; vm_compute; congruence. Qed.

Lemma ex_perm_block b : b ∈ m_memory_block_tree ex_manager → b = ex_block.
Proof. simpl. set_solver. Qed.

Lemma Initialize_free_witness :
  ∃ m, Initialize ex_lo ex_hi (Some no_block) = Some (Some m) ∧ mgr_ok m.
Proof.
  destruct (Initialize_free ex_lo ex_hi no_block) as (m & E & Hm & _);
    [unfold ex_lo, ex_hi; lia|unfold ex_hi; lia|reflexivity|reflexivity|].
  exists m. split; [exact E|exact Hm].
Defined.

(** Four pages inside the only block: they are cut out of it when they change, and the step
    back is undefined when they are free already. *)
Lemma Update_correct_witness :
  (∃ al' m', Update ex_manager ex_allocator (ex_lo + 0x10000) 4 KMemoryState.Normal
      KMemoryPermission.UserReadWrite 0 0 0 = Some (al', m')
    ∧ length (m_memory_block_tree m') = 3%nat)
  ∧ Update ex_manager ex_allocator (ex_lo + 0x10000) 4 KMemoryState.Free 0 0 0 0 = None.
Proof.
  split.
  - destruct (proj1 (Update_correct ex_manager ex_allocator (ex_lo + 0x10000) 4 KMemoryState.Normal
        KMemoryPermission.UserReadWrite 0 0 0 ex_manager_ok ex_range ex_allocator_ok eq_refl)) as (al' & m' & E & _).
    + intros b ->%ex_perm_block _. right. split; reflexivity.
    + right. exists ex_block, []. split; [reflexivity|]. right. reflexivity.
    + exists al', m'. split; [exact E|]. vm_compute in E. injection E as _ <-. reflexivity.
  - apply (proj2 (Update_correct ex_manager ex_allocator (ex_lo + 0x10000) 4 KMemoryState.Free 0 0 0 0
        ex_manager_ok ex_range ex_allocator_ok eq_refl)). right.
    intros [E|(b & t & E & [H|H])]; [discriminate E|..]; injection E as <- <-.
    + exact (H eq_refl).
    + discriminate H.
Defined.

Lemma UpdateIfMatch_correct_witness :
  ∃ al' m', UpdateIfMatch ex_manager ex_allocator (ex_lo + 0x10000) 4 KMemoryState.Free 0 0
      KMemoryState.Normal KMemoryPermission.UserReadWrite 0 0 0 = Some (al', m')
    ∧ length (m_memory_block_tree m') = 3%nat.
Proof.
  destruct (UpdateIfMatch_correct ex_manager ex_allocator (ex_lo + 0x10000) 4 KMemoryState.Free 0 0
      KMemoryState.Normal KMemoryPermission.UserReadWrite 0 0 0) as (al' & m' & E & _).
  - exact ex_manager_ok.
  - exact ex_range.
  - exact ex_allocator_ok.
  - reflexivity.
  - intros b ->%ex_perm_block _ _. right. split; reflexivity.
  - right. exists ex_block, []. split; [reflexivity|]. right. reflexivity.
  - exists al', m'. split; [exact E|]. vm_compute in E. injection E as _ <-. reflexivity.
Defined.

Lemma UpdateAttribute_correct_witness :
  ∃ al' m', UpdateAttribute ex_manager ex_allocator (ex_lo + 0x10000) 4 KMemoryAttribute.Uncached
      KMemoryAttribute.Uncached = Some (al', m') ∧ length (m_memory_block_tree m') = 3%nat.
Proof.
  destruct (UpdateAttribute_correct ex_manager ex_allocator (ex_lo + 0x10000) 4
      KMemoryAttribute.Uncached KMemoryAttribute.Uncached) as (al' & m' & E & _).
  - exact ex_manager_ok.
  - exact ex_range.
  - exact ex_allocator_ok.
  - reflexivity.
  - reflexivity.
  - right. exists ex_block, []. split; [reflexivity|]. right. reflexivity.
  - exists al', m'. split; [exact E|]. vm_compute in E. injection E as _ <-. reflexivity.
Defined.

Lemma ex_lockable : lockable 0 ex_block.
Proof. by split; vm_compute; auto; try (split; congruence); intros; left. Qed.

Lemma UpdateLock_LockForIpc_correct_witness :
  ∃ al' m', UpdateLock ex_manager ex_allocator (ex_lo + 0x10000) 4 LockForIpc 0 = Some (al', m')
    ∧ length (m_memory_block_tree m') = 3%nat.
Proof.
  destruct (UpdateLock_LockForIpc_correct ex_manager ex_allocator (ex_lo + 0x10000) 4 0)
    as (al' & m' & E & _).
  - exact ex_manager_ok.
  - exact ex_range.
  - exact ex_allocator_ok.
  - intros b ->%ex_perm_block _. exact ex_lockable.
  - exists al', m'. split; [exact E|]. vm_compute in E. injection E as _ <-. reflexivity.
Defined.

(** A readable and writable block. *)
Definition ex_rw_block : KMemoryBlock :=
  MkBlock 0 0 ex_lo 4 KMemoryState.Normal 0 0 0 KMemoryPermission.UserReadWrite 0 0 0.

Lemma ex_rw_ipc : ipc_wf ex_rw_block ∧ lockable KMemoryPermission.UserRead ex_rw_block.
Proof.
  split; split; simpl; try done; try lia; intros; try done; try (by left); try (by right).
Qed.

Lemma LockForIpc_UnlockForIpc_witness :
  ∃ b', LockForIpc ex_rw_block KMemoryPermission.UserRead true false = Some b'
    ∧ UnlockForIpc b' 0 true false = Some ex_rw_block ∧ m_permission b' ≠ m_permission ex_rw_block.
Proof.
  destruct (LockForIpc_UnlockForIpc ex_rw_block KMemoryPermission.UserRead 0 true false false)
    as (b' & E1 & E2).
  - exact (proj1 ex_rw_ipc).
  - exact (proj2 ex_rw_ipc).
  - discriminate.
  - exists b'. split; [exact E1|]. split; [exact E2|]. vm_compute in E1. injection E1 as <-. discriminate.
Defined.

Lemma FindFreeArea_correct_witness :
  FindFreeArea ex_manager ex_lo 512 4 0x10000 0 1 = ex_lo + 0x10000
  ∧ ∃ b, b ∈ m_memory_block_tree ex_manager
      ∧ placed b ex_lo (ex_lo + 512 * PageSize) 4 0x10000 0 1 (ex_lo + 0x10000).
Proof.
  split; [vm_compute; reflexivity|].
  apply (FindFreeArea_correct ex_manager ex_lo 512 4 0x10000 0 1).
  - exact ex_manager_ok.
  - unfold ex_lo. lia.
  - vm_compute. discriminate.
  - lia.
  - vm_compute. discriminate.
  - vm_compute. discriminate.
  - lia.
  - lia.
  - lia.
  - lia.
  - vm_compute. discriminate.
Defined.

Lemma CheckState_correct_witness : ∃ r, CheckState ex_manager = Some r.
Proof.
  destruct (CheckState_correct ex_manager ex_manager_ok) as (b & t & r & _ & E & _). exists r. exact E.
Defined.
