(* ===== verification/Results.v ===== *)
(** Bit fields of src/src/common/bit_field.h (unsigned little-endian storage of a width
    [w]) and the result codes of src/src/core/hle/result.h and
    src/src/core/hle/kernel/svc_results.h. *)
From S2P Require Import Prelude.

(** * [BitField<Position, Bits, T>] *)
Module BitField.
Section bit_field.
Context (w position bits : Z).

Definition mask : Z := wrap w (Z.shiftl (Z.shiftr (2 ^ w - 1) (w - bits)) position).
Definition FormatValue (value : Z) : Z := Z.land (wrap w (Z.shiftl (wrap w value) position)) mask.
Definition ExtractValue (storage : Z) : Z := Z.shiftr (Z.land storage mask) position.
Definition Assign (storage value : Z) : Z :=
  Z.lor (Z.land storage (lnotw w mask)) (FormatValue value).

Context (Hp : 0 ≤ position) (Hb : 0 < bits) (Hw : position + bits ≤ w).

Lemma mask_testbit i :
  0 ≤ i → Z.testbit mask i = bool_decide (position ≤ i < position + bits).
Proof using Hp Hb Hw.
  intros Hi. unfold mask, wrap. rewrite Z.testbit_mod_pow2 by lia.
  rewrite Z.shiftl_spec by lia.
  destruct (decide (i < position)) as [Hlt|Hge].
  { rewrite Z.testbit_neg_r, andb_false_r by lia. symmetry. apply bool_decide_eq_false. lia. }
  rewrite Z.shiftr_spec by lia.
  replace (2 ^ w - 1) with (Z.ones w) by (rewrite Z.ones_equiv; lia).
  rewrite Z.testbit_ones_nonneg by lia.
  apply eq_true_iff_eq. rewrite andb_true_iff, !Z.ltb_lt, bool_decide_eq_true. lia.
Qed.

Lemma mask_range : in_width w mask.
Proof using Hp Hb Hw. apply wrap_range. lia. Qed.

Lemma ExtractValue_testbit s i :
  0 ≤ i → Z.testbit (ExtractValue s) i = bool_decide (i < bits) && Z.testbit s (i + position).
Proof using Hp Hb Hw.
  intros Hi. unfold ExtractValue.
  rewrite Z.shiftr_spec, Z.land_spec, mask_testbit, andb_comm by lia. f_equal.
  apply bool_decide_ext. lia.
Qed.

Lemma ExtractValue_range s : 0 ≤ s → in_width bits (ExtractValue s).
Proof using Hp Hb Hw.
  intros Hs. apply in_width_bits; [lia| |].
  - unfold ExtractValue. apply Z.shiftr_nonneg, Z.land_nonneg. by left.
  - intros i Hi. rewrite ExtractValue_testbit by lia. by rewrite bool_decide_false by lia.
Qed.

Lemma FormatValue_testbit v i :
  0 ≤ i →
  Z.testbit (FormatValue v) i
  = bool_decide (position ≤ i < position + bits) && Z.testbit v (i - position).
Proof using Hp Hb Hw.
  intros Hi. unfold FormatValue, wrap.
  rewrite Z.land_spec, mask_testbit, andb_comm by lia.
  case_bool_decide; [|done]. simpl.
  rewrite Z.testbit_mod_pow2, Z.shiftl_spec, Z.testbit_mod_pow2 by lia.
  by rewrite !(proj2 (Z.ltb_lt _ _)) by lia.
Qed.

Lemma Assign_testbit s v i :
  in_width w s → 0 ≤ i →
  Z.testbit (Assign s v) i
  = if bool_decide (position ≤ i < position + bits) then Z.testbit v (i - position)
    else Z.testbit s i.
Proof using Hp Hb Hw.
  intros Hs Hi. unfold Assign. rewrite Z.lor_spec, Z.land_spec, FormatValue_testbit by lia.
  destruct (decide (i < w)).
  - rewrite lnotw_testbit, mask_testbit by (try apply mask_range; lia).
    case_bool_decide; simpl; [by rewrite andb_false_r|]. by rewrite andb_true_r, orb_false_r.
  - rewrite (testbit_high w s) by (try done; lia). by rewrite bool_decide_false by lia.
Qed.

Lemma FormatValue_range v : in_width w (FormatValue v).
Proof using Hp Hb Hw. apply land_in_width; [lia|]. apply wrap_range. lia. Qed.

Lemma Assign_range s v : in_width w s → in_width w (Assign s v).
Proof using Hp Hb Hw.
  intros Hs. apply lor_in_width; [lia| |apply FormatValue_range].
  apply land_in_width; [lia|done].
Qed.

Lemma ExtractValue_Assign s v :
  in_width w s → in_width bits v → ExtractValue (Assign s v) = v.
Proof using Hp Hb Hw.
  intros Hs Hv. apply testbit_ext. intros i Hi.
  rewrite ExtractValue_testbit, Assign_testbit by (done || lia).
  destruct (decide (i < bits)).
  - rewrite !bool_decide_true by lia. simpl. f_equal. lia.
  - rewrite bool_decide_false by lia. symmetry. apply (testbit_high bits); [done|lia].
Qed.
End bit_field.

(** Assigning one field leaves a disjoint one alone. *)
Lemma ExtractValue_Assign_ne w p b p' b' s v :
  0 ≤ p → 0 < b → p + b ≤ w → 0 ≤ p' → 0 < b' → p' + b' ≤ w →
  p + b ≤ p' ∨ p' + b' ≤ p → in_width w s →
  ExtractValue w p' b' (Assign w p b s v) = ExtractValue w p' b' s.
Proof.
  intros ?????? Hd Hs. apply testbit_ext. intros i Hi.
  rewrite !ExtractValue_testbit, Assign_testbit by (done || lia).
  destruct (decide (i < b')); [|by rewrite bool_decide_false by lia].
  rewrite (bool_decide_true (i < b')) by lia. by rewrite bool_decide_false by lia.
Qed.
End BitField.

(** * Results *)
Module Result.
Definition Module_ : Z → Z := BitField.ExtractValue 32 0 9.
Definition Description : Z → Z := BitField.ExtractValue 32 9 13.

(** [Result(module, description)]; a [Result] is its [raw] word. *)
Definition make (module_ description_ : Z) : Z :=
  Z.lor (BitField.FormatValue 32 0 9 module_) (BitField.FormatValue 32 9 13 description_).

Definition IsSuccess (raw : Z) : bool := raw =? 0.
Definition IsError (raw : Z) : bool := negb (IsSuccess raw).
Definition GetModule (raw : Z) : Z := Module_ raw.
Definition GetDescription (raw : Z) : Z := Description raw.

(** [ErrorModule::Kernel] *)
Definition Kernel : Z := 1.

Lemma make_fields m d :
  in_width 9 m → in_width 13 d →
  GetModule (make m d) = m ∧ GetDescription (make m d) = d.
Proof.
  intros Hm Hd. unfold GetModule, GetDescription, Module_, Description, make.
  split; apply testbit_ext; intros i Hi.
  - rewrite BitField.ExtractValue_testbit, Z.lor_spec, !BitField.FormatValue_testbit by lia.
    destruct (decide (i < 9)).
    + rewrite !bool_decide_true by lia. rewrite bool_decide_false by lia. simpl.
      rewrite orb_false_r. f_equal. lia.
    + rewrite bool_decide_false by lia. symmetry. apply (testbit_high 9); [done|lia].
  - rewrite BitField.ExtractValue_testbit, Z.lor_spec, !BitField.FormatValue_testbit by lia.
    destruct (decide (i < 13)).
    + rewrite (bool_decide_true (i < 13)) by lia.
      rewrite bool_decide_false by lia. rewrite bool_decide_true by lia. simpl. f_equal. lia.
    + rewrite bool_decide_false by lia. symmetry. apply (testbit_high 13); [done|lia].
Qed.
End Result.

Definition ResultSuccess : Z := 0.
Definition ResultOutOfMemory : Z := Result.make Result.Kernel 104.
Definition ResultOutOfHandles : Z := Result.make Result.Kernel 105.
Definition ResultInvalidState : Z := Result.make Result.Kernel 125.
