(* ===== verification/AutoObject.v ===== *)
(** Reference-counted kernel objects: KAutoObject, KScopedAutoObject and the class tokens
    of src/src/core/hle/kernel/k_auto_object.h and k_class_token.h, with the object sets of
    KernelCore (kernel.cpp). A pointer is a [Z], 0 is [nullptr]. The compare-and-exchange
    loops are one atomic step each. *)
From S2P Require Import Prelude.

(** * Class tokens (k_class_token.h) *)
Module KClassTokenGenerator.
Inductive ObjectType :=
  | KAutoObject
  | KSynchronizationObject | KReadableEvent
  | KInterruptEvent | KDebug | KThread | KServerPort | KServerSession | KClientPort
  | KClientSession | KProcess | KResourceLimit | KLightSession | KPort | KSession
  | KSharedMemory | KEvent | KLightClientSession | KLightServerSession | KTransferMemory
  | KDeviceAddressSpace | KSessionRequest | KCodeMemory | KSystemResource.

#[global] Instance ObjectType_eq_dec : EqDecision ObjectType.
Proof. solve_decision. Defined.

Definition BaseClassBits : Z := 8.
Definition FinalClassBits : nat := 8.
Definition BaseClassesStart : Z := 1.
Definition FinalClassesStart : Z := 3.

(** The value of the enumerator. *)
Definition value (t : ObjectType) : Z :=
  match t with
  | KAutoObject => 0
  | KSynchronizationObject => BaseClassesStart | KReadableEvent => 2
  | KInterruptEvent => FinalClassesStart | KDebug => 4 | KThread => 5 | KServerPort => 6
  | KServerSession => 7 | KClientPort => 8 | KClientSession => 9 | KProcess => 10
  | KResourceLimit => 11 | KLightSession => 12 | KPort => 13 | KSession => 14
  | KSharedMemory => 15 | KEvent => 16 | KLightClientSession => 17
  | KLightServerSession => 18 | KTransferMemory => 19 | KDeviceAddressSpace => 20
  | KSessionRequest => 21 | KCodeMemory => 22 | KSystemResource => 23
  end.

(** [T::BaseClass], the second argument of KERNEL_AUTOOBJECT_TRAITS in the class's header.
    No class KInterruptEvent is defined; its base is the one k_class_token.cpp names. *)
Definition BaseClass (t : ObjectType) : ObjectType :=
  match t with
  | KReadableEvent | KThread | KServerPort | KServerSession | KClientPort | KProcess =>
      KSynchronizationObject
  | KInterruptEvent => KReadableEvent
  | _ => KAutoObject
  end.

Definition is_final (t : ObjectType) : bool :=
  match t with
  | KAutoObject | KSynchronizationObject | KReadableEvent | KSystemResource => false
  | _ => true
  end.

Definition BaseClassToken (Index : Z) : Z := u16 (Z.shiftl 1 Index).

(** The three nested loops, as the list of [(i, j, k)] they visit in order. *)
Definition triples : list (nat * nat * nat) :=
  i ← seq 0 FinalClassBits;
  j ← seq (i + 1) (FinalClassBits - (i + 1));
  k ← seq (j + 1) (FinalClassBits - (j + 1));
  [(i, j, k)].

Definition NumFinalClasses : Z := Z.of_nat (length triples).

Definition FinalClassToken (Index : Z) : option Z :=
  '(i, j, k) ← triples !! Z.to_nat Index;
  Some (u16 (Z.shiftl (Z.lor (Z.lor (Z.shiftl 1 (Z.of_nat i)) (Z.shiftl 1 (Z.of_nat j)))
                          (Z.shiftl 1 (Z.of_nat k))) BaseClassBits)).

(** The chain of base classes is at most two long ([KInterruptEvent] to
    [KSynchronizationObject]), so three unfoldings reach [KAutoObject]. *)
Fixpoint GetClassToken (fuel : nat) (T : ObjectType) : option Z :=
  if decide (T = KAutoObject) then Some 0 else
  match fuel with
  | O => None
  | S fuel =>
      if negb (is_final T) && negb (bool_decide (T = KSystemResource)) then
        let ClassIndex := u16 (u16 (value T) - u16 BaseClassesStart) in
        base ← GetClassToken fuel (BaseClass T);
        Some (Z.lor (BaseClassToken ClassIndex) base)
      else
        let ClassIndex := u16 (u16 (value T) - u16 FinalClassesStart) in
        final ← FinalClassToken ClassIndex;
        base ← GetClassToken fuel (BaseClass T);
        Some (Z.lor final base)
  end.

Definition ClassToken (T : ObjectType) : Z := default 0 (GetClassToken 3 T).

(** [TypeObj::IsDerivedFrom] on class tokens. *)
Definition IsDerivedFrom (token rhs : Z) : bool := Z.lor token rhs =? token.

(** The inheritance the tokens encode: [b] is [a] or one of its base classes. *)
Inductive derives : ObjectType → ObjectType → Prop :=
  | derives_refl a : derives a a
  | derives_base a b : derives (BaseClass a) b → derives a b.

Definition ancestors (a : ObjectType) : list ObjectType :=
  [a; BaseClass a; BaseClass (BaseClass a); BaseClass (BaseClass (BaseClass a))].

Lemma derives_ancestors a b : derives a b ↔ b ∈ ancestors a.
Proof.
  split.
  - induction 1 as [a|a b _ IH]; [left|].
    destruct a; simpl in *; set_solver.
  - unfold ancestors. rewrite !elem_of_cons, elem_of_nil.
    intros [->|[->|[->|[->|[]]]]]; repeat first [apply derives_refl | apply derives_base].
Qed.

#[global] Instance derives_dec a b : Decision (derives a b).
Proof.
  refine (cast_if (decide (b ∈ ancestors a))); by rewrite derives_ancestors.
Defined.

Definition all_types : list ObjectType :=
  [KAutoObject; KSynchronizationObject; KReadableEvent; KInterruptEvent; KDebug; KThread;
   KServerPort; KServerSession; KClientPort; KClientSession; KProcess; KResourceLimit;
   KLightSession; KPort; KSession; KSharedMemory; KEvent; KLightClientSession;
   KLightServerSession; KTransferMemory; KDeviceAddressSpace; KSessionRequest; KCodeMemory;
   KSystemResource].

Lemma all_types_complete t : t ∈ all_types.
Proof. destruct t; unfold all_types; set_solver. Qed.

Lemma check_all (P : ObjectType → ObjectType → bool) a b :
  forallb (λ a, forallb (P a) all_types) all_types = true → P a b = true.
Proof.
  intros H. rewrite forallb_forall in H. specialize (H a).
  rewrite <-list_elem_of_In, forallb_forall in H. specialize (H (all_types_complete a) b).
  rewrite <-list_elem_of_In in H. apply H, all_types_complete.
Qed.
End KClassTokenGenerator.
Import KClassTokenGenerator (ClassToken).

(** * KAutoObject *)
Record KAutoObject := { m_ref_count : Z; class_token : Z }.

(** The objects in memory and the two sets of KernelCore. *)
Record World := {
  objects : gmap Z KAutoObject;
  registered_objects : gset Z;
  registered_in_use_objects : gset Z;
}.

(** [Destroy] is virtual: what a class does when its last reference goes is a parameter. *)
Class AutoObjectMethods := { Destroy : Z → World → option World }.

Definition RegisterKernelObject (object : Z) (w : World) : World :=
  {| objects := objects w; registered_objects := {[object]} ∪ registered_objects w;
     registered_in_use_objects := registered_in_use_objects w |}.
Definition UnregisterKernelObject (object : Z) (w : World) : World :=
  {| objects := objects w; registered_objects := registered_objects w ∖ {[object]};
     registered_in_use_objects := registered_in_use_objects w |}.
Definition RegisterInUseObject (object : Z) (w : World) : World :=
  {| objects := objects w; registered_objects := registered_objects w;
     registered_in_use_objects := {[object]} ∪ registered_in_use_objects w |}.
Definition UnregisterInUseObject (object : Z) (w : World) : World :=
  {| objects := objects w; registered_objects := registered_objects w;
     registered_in_use_objects := registered_in_use_objects w ∖ {[object]} |}.

Definition set_ref (obj n : Z) (w : World) : World :=
  {| objects := alter (λ o, {| m_ref_count := n; class_token := class_token o |}) obj (objects w);
     registered_objects := registered_objects w;
     registered_in_use_objects := registered_in_use_objects w |}.

(** The constructor registers the object with a zero count; [Create] sets it to one. *)
Definition construct (obj token : Z) (w : World) : World :=
  RegisterKernelObject obj
    {| objects := <[obj := {| m_ref_count := 0; class_token := token |}]> (objects w);
       registered_objects := registered_objects w;
       registered_in_use_objects := registered_in_use_objects w |}.
Definition Create (obj : Z) (w : World) : World := set_ref obj 1 w.

Definition GetReferenceCount (obj : Z) (w : World) : option Z :=
  m_ref_count <$> objects w !! obj.

Definition IsDerivedFrom (obj rhs_token : Z) (w : World) : option bool :=
  o ← objects w !! obj;
  Some (KClassTokenGenerator.IsDerivedFrom (class_token o) rhs_token).

(** [DynamicCast<Derived>]: the object or [nullptr]. *)
Definition DynamicCast (derived obj : Z) (w : World) : option Z :=
  b ← IsDerivedFrom obj derived w;
  Some (if (b : bool) then obj else 0).

Definition Open (obj : Z) (w : World) : option (bool * World) :=
  cur_ref_count ← GetReferenceCount obj w;
  if cur_ref_count =? 0 then Some (false, w)
  else
    check (cur_ref_count <? u32 (cur_ref_count + 1));;
    Some (true, set_ref obj (u32 (cur_ref_count + 1)) w).

Section methods.
Context `{AutoObjectMethods}.

Definition Close (obj : Z) (w : World) : option World :=
  cur_ref_count ← GetReferenceCount obj w;
  check (0 <? cur_ref_count);;
  let w := set_ref obj (cur_ref_count - 1) w in
  if cur_ref_count - 1 =? 0 then
    w ← Destroy obj w;
    Some (UnregisterKernelObject obj w)
  else Some w.

(** * KScopedAutoObject: the held pointer *)
Definition Scoped (o : Z) (w : World) : option (Z * World) :=
  if negb (o =? 0) then '(_, w) ← Open o w; Some (o, w) else Some (o, w).

Definition Scoped_destroy (m_obj : Z) (w : World) : option World :=
  if negb (m_obj =? 0) then Close m_obj w else Some w.

(** The converting constructor: an upcast takes the pointer over, a downcast closes an
    object of another class. *)
Definition Scoped_upcast (m_obj : Z) (w : World) : option (Z * World) := Some (m_obj, w).
Definition Scoped_downcast (derived m_obj : Z) (w : World) : option (Z * World) :=
  if negb (m_obj =? 0) then
    d ← DynamicCast derived m_obj w;
    if d =? 0 then w ← Close m_obj w; Some (d, w) else Some (d, w)
  else Some (0, w).
End methods.

(** * Counting lemmas *)

(** An object whose count is positive and leaves room for [n] more references. *)
Definition live (n : Z) (w : World) (obj : Z) : Prop :=
  ∃ o, objects w !! obj = Some o ∧ 0 < m_ref_count o ∧ m_ref_count o + n < 2 ^ 32.

Lemma live_weaken n m w obj : live n w obj → m ≤ n → live m w obj.
Proof. intros (o & ? & ? & ?) ?. exists o. split_and!; [done|done|lia]. Qed.

Lemma set_ref_set_ref obj a b w : set_ref obj a (set_ref obj b w) = set_ref obj a w.
Proof.
  unfold set_ref; simpl. f_equal. apply map_eq. intros k.
  destruct (decide (k = obj)) as [->|]; [|by rewrite !lookup_alter_ne].
  rewrite !lookup_alter_eq. by destruct (_ !! _).
Qed.

Lemma set_ref_comm i j a b w :
  i ≠ j → set_ref i a (set_ref j b w) = set_ref j b (set_ref i a w).
Proof.
  intros. unfold set_ref; simpl. f_equal. apply map_eq. intros k.
  rewrite !lookup_alter. by repeat case_decide; subst.
Qed.

Lemma set_ref_same obj o w :
  objects w !! obj = Some o → set_ref obj (m_ref_count o) w = w.
Proof.
  intros Ho. destruct w as [m r u]. unfold set_ref; simpl in *. f_equal.
  apply map_eq. intros k. destruct (decide (k = obj)) as [->|Hne].
  - rewrite lookup_alter_eq, Ho. simpl. by destruct o.
  - by rewrite lookup_alter_ne.
Qed.

Lemma set_ref_lookup obj n w o :
  objects w !! obj = Some o →
  objects (set_ref obj n w) !! obj = Some {| m_ref_count := n; class_token := class_token o |}.
Proof. intros Ho. simpl. by rewrite lookup_alter_eq, Ho. Qed.

Lemma set_ref_lookup_ne obj obj' n w :
  obj' ≠ obj → objects (set_ref obj n w) !! obj' = objects w !! obj'.
Proof. intros. simpl. by apply lookup_alter_ne. Qed.

Lemma Open_live n w obj :
  live n w obj → 1 ≤ n →
  ∃ o, objects w !! obj = Some o ∧ Open obj w = Some (true, set_ref obj (m_ref_count o + 1) w).
Proof.
  intros (o & Ho & Hp & Hb) Hn. exists o. split; [done|].
  unfold Open, GetReferenceCount. rewrite Ho; simpl.
  destruct (Z.eqb_spec (m_ref_count o) 0); [lia|].
  rewrite wrap_small by (unfold in_width; lia). by rewrite (proj2 (Z.ltb_lt _ _)) by lia.
Qed.

Lemma Open_live_other n m w w' obj obj' :
  live n w obj → 1 ≤ n → Open obj w = Some (true, w') →
  live m w obj' → (obj' = obj → m ≤ n) → live (m - 1) w' obj'.
Proof.
  intros Hl Hn HO (o' & Ho' & Hp & Hb) _.
  destruct (Open_live n w obj Hl Hn) as (o & Ho & E). rewrite E in HO. injection HO as <-.
  destruct (decide (obj' = obj)) as [->|Hne].
  - rewrite Ho in Ho'. injection Ho' as ->. eexists. split; [by apply set_ref_lookup|].
    simpl. lia.
  - exists o'. rewrite set_ref_lookup_ne by done. split_and!; [done|done|lia].
Qed.

Section close.
Context `{AutoObjectMethods}.

(** A [Close] undoes an [Open]: the count was positive, so nothing is destroyed. *)
Lemma Close_Open n w w' obj :
  live n w obj → 1 ≤ n → Open obj w = Some (true, w') → Close obj w' = Some w.
Proof.
  intros Hl Hn HO. destruct (Open_live n w obj Hl Hn) as (o & Ho & E).
  rewrite E in HO. injection HO as <-. destruct Hl as (o' & Ho' & Hp & _).
  rewrite Ho in Ho'. injection Ho' as <-.
  unfold Close, GetReferenceCount. rewrite (set_ref_lookup _ _ _ o) by done. simpl.
  rewrite (proj2 (Z.ltb_lt 0 _)) by lia. simpl.
  replace (m_ref_count o + 1 - 1) with (m_ref_count o) by lia.
  destruct (Z.eqb_spec (m_ref_count o) 0); [lia|].
  by rewrite set_ref_set_ref, set_ref_same.
Qed.
End close.

(** * Opening several objects *)
Definition inc (obj : Z) (w : World) : World :=
  {| objects := alter (λ o, {| m_ref_count := m_ref_count o + 1; class_token := class_token o |})
                  obj (objects w);
     registered_objects := registered_objects w;
     registered_in_use_objects := registered_in_use_objects w |}.

Lemma inc_comm a b w : inc a (inc b w) = inc b (inc a w).
Proof.
  unfold inc; simpl. f_equal. apply map_eq. intros k. rewrite !lookup_alter.
  repeat case_decide; subst; try done.
Qed.

Lemma inc_set_ref obj o w :
  objects w !! obj = Some o → set_ref obj (m_ref_count o + 1) w = inc obj w.
Proof.
  intros Ho. unfold set_ref, inc. f_equal. apply map_eq. intros k. rewrite !lookup_alter.
  case_decide; subst; [|done]. by rewrite Ho.
Qed.

Lemma Open_inc n w obj : live n w obj → 1 ≤ n → Open obj w = Some (true, inc obj w).
Proof.
  intros Hl Hn. destruct (Open_live n w obj) as (o & Ho & E); [done..|].
  by rewrite E, (inc_set_ref _ o).
Qed.

Lemma live_inc n w obj obj' : live n w obj' → live (n - 1) (inc obj w) obj'.
Proof.
  intros (o & Ho & Hp & Hb). unfold live, inc; simpl. setoid_rewrite lookup_alter.
  destruct (decide (obj = obj')) as [->|]; rewrite ?Ho; simpl; eexists; (split; [done|]); simpl; lia.
Qed.

Definition inc_all (objs : list Z) (w : World) : World := fold_right inc w objs.

Lemma inc_all_inc objs o w : inc_all objs (inc o w) = inc o (inc_all objs w).
Proof. induction objs as [|a objs IH]; simpl; [done|]. by rewrite IH, inc_comm. Qed.

Lemma live_inc_all n objs w o :
  live n w o → live (n - Z.of_nat (length objs)) (inc_all objs w) o.
Proof.
  intros Hl. induction objs as [|a objs IH]; simpl; [by rewrite Z.sub_0_r|].
  apply (live_inc _ _ a) in IH. eapply live_weaken; [done|lia].
Qed.

Lemma inc_all_class objs w o :
  class_token <$> objects (inc_all objs w) !! o = class_token <$> objects w !! o.
Proof.
  induction objs as [|a objs IH]; simpl; [done|]. rewrite <-IH, lookup_alter.
  case_decide; subst; [|done]. by destruct (_ !! _).
Qed.

(** The count of an object grows by the number of times it is opened. *)
Lemma inc_all_count objs w o :
  GetReferenceCount o (inc_all objs w)
  = (λ r, r + Z.of_nat (length (filter (λ x, x = o) objs))) <$> GetReferenceCount o w.
Proof.
  unfold GetReferenceCount. induction objs as [|a objs IH]; simpl.
  - destruct (objects w !! o); simpl; [|done]. f_equal. lia.
  - rewrite lookup_alter, filter_cons.
    destruct (decide (a = o)) as [->|]; [|exact IH].
    destruct (objects (inc_all objs w) !! o), (objects w !! o); simpl in *; try done.
    injection IH as ->. f_equal. lia.
Qed.

Lemma Close_inc `{AutoObjectMethods} w o : live 1 w o → Close o (inc o w) = Some w.
Proof.
  intros Hl. apply (Close_Open 1 w); [done|lia|]. by apply (Open_inc 1).
Qed.

(** * Properties *)

(** A class token is computed for every class (three unfoldings are enough) and the
    test on tokens is inheritance: the token of [a] contains the token of [b] exactly when
    [b] is [a] or one of its base classes. *)
Theorem ClassToken_hierarchy a b :
  KClassTokenGenerator.GetClassToken 3 a = Some (ClassToken a)
  ∧ KClassTokenGenerator.IsDerivedFrom (ClassToken a) (ClassToken b)
    = bool_decide (KClassTokenGenerator.derives a b).
Proof.
  split; [by destruct a|].
  apply Bool.eqb_true_iff.
  apply (KClassTokenGenerator.check_all (λ x y, Bool.eqb
    (KClassTokenGenerator.IsDerivedFrom (ClassToken x) (ClassToken y))
    (bool_decide (KClassTokenGenerator.derives x y))) a b).
  by vm_compute.
Qed.

Fixpoint Open_n (k : nat) (obj : Z) (w : World) : option World :=
  match k with
  | O => Some w
  | S k => '(ok, w) ← Open obj w; check ok;; Open_n k obj w
  end.
Fixpoint Close_n `{AutoObjectMethods} (k : nat) (obj : Z) (w : World) : option World :=
  match k with
  | O => Some w
  | S k => w ← Close obj w; Close_n k obj w
  end.

Lemma Open_n_inc k obj w :
  live (Z.of_nat k) w obj → Open_n k obj w = Some (inc_all (repeat obj k) w).
Proof.
  revert w. induction k as [|k IH]; intros w Hl; [done|]. cbn [Open_n repeat inc_all fold_right].
  rewrite (Open_inc (Z.of_nat (S k))) by (done || lia). cbn [mbind option_bind check].
  rewrite IH, inc_all_inc; [done|].
  eapply live_weaken; [by apply live_inc|lia].
Qed.

Lemma Close_n_inc `{AutoObjectMethods} k obj w :
  live (Z.of_nat k) w obj → Close_n k obj (inc_all (repeat obj k) w) = Some w.
Proof.
  induction k as [|k IH]; intros Hl; [done|]. cbn [Close_n repeat inc_all fold_right].
  rewrite Close_inc.
  - cbn [mbind option_bind]. apply IH. eapply live_weaken; [done|lia].
  - eapply live_weaken; [by apply live_inc_all|]. rewrite repeat_length. lia.
Qed.

(** The life of an object with one reference. [k] further references can be opened (up
    to the 32-bit count) and closed again without its being destroyed; the close of the last
    reference runs [Destroy] on it, with a zero count, and unregisters it; from then on
    [Open] refuses. *)
Theorem reference_count_lifecycle `{AutoObjectMethods} w obj o k :
  objects w !! obj = Some o → m_ref_count o = 1 → Z.of_nat k < 2 ^ 32 - 1 →
  ∃ wk, Open_n k obj w = Some wk ∧ GetReferenceCount obj wk = Some (1 + Z.of_nat k)
    ∧ Close_n k obj wk = Some w
    ∧ Close obj w = (w' ← Destroy obj (set_ref obj 0 w); Some (UnregisterKernelObject obj w'))
    ∧ Open obj (set_ref obj 0 w) = Some (false, set_ref obj 0 w).
Proof.
  intros Ho Hr Hk.
  assert (live (Z.of_nat k) w obj) as Hl by (exists o; split_and!; [done|lia|lia]).
  eexists. split_and!.
  - by apply Open_n_inc.
  - rewrite inc_all_count. unfold GetReferenceCount. rewrite Ho. simpl. rewrite Hr. f_equal.
    assert (filter (λ x, x = obj) (repeat obj k) = repeat obj k) as ->.
    { clear. induction k as [|k IH]; [done|]. cbn [repeat].
      by rewrite filter_cons_True, IH. }
    rewrite repeat_length. lia.
  - by apply Close_n_inc.
  - unfold Close, GetReferenceCount. rewrite Ho. simpl. by rewrite Hr.
  - unfold Open, GetReferenceCount. by rewrite (set_ref_lookup _ _ _ o).
Qed.

Lemma reference_count_lifecycle_witness :
  let w := {| objects := {[16 := {| m_ref_count := 1; class_token := 0 |}]};
              registered_objects := {[16]}; registered_in_use_objects := ∅ |} in
  let methods := {| Destroy := λ _ w, Some w |} in
  ∃ wk, Open_n 3 16 w = Some wk ∧ Close_n (H := methods) 3 16 wk = Some w.
Proof.
  intros w methods.
  destruct (reference_count_lifecycle (H := methods) w 16 {| m_ref_count := 1; class_token := 0 |} 3)
    as (wk & E & _ & E' & _); [reflexivity|reflexivity|lia|].
  exists wk. split; [exact E|exact E'].
Defined.
