(* ===== verification/HandleTable.v ===== *)
(** The handle table of src/src/core/hle/kernel/k_handle_table.h and k_handle_table.cpp.
    Every operation runs under the table's spin lock, so each is one atomic function of the
    table and of the kernel objects ([World]). *)
From S2P Require Import Prelude Results AutoObject.

Module HandlePack.
(** The union of a [u32] with its three bit fields. *)
Definition index : Z → Z := BitField.ExtractValue 32 0 15.
Definition linear_id : Z → Z := BitField.ExtractValue 32 15 15.
Definition reserved : Z → Z := BitField.ExtractValue 32 30 2.
End HandlePack.

Definition EncodeHandle (index linear_id : Z) : Z :=
  let handle := 0 in
  let handle := BitField.Assign 32 0 15 handle index in
  let handle := BitField.Assign 32 15 15 handle linear_id in
  BitField.Assign 32 30 2 handle 0.

(** * The table *)
Definition MaxTableSize : Z := 1024.
Definition MinLinearId : Z := 1.
Definition MaxLinearId : Z := 0x7FFF.

(** [union EntryInfo]: sixteen bits read as [u16 linear_id] or [s16 next_free_index]. *)
Abbreviation EntryInfo := Z (only parsing).
Definition entry_linear_id (linear_id : Z) : EntryInfo := u16 linear_id.
Definition entry_next_free_index (next_free_index : Z) : EntryInfo := u16 next_free_index.
Definition GetLinearId (e : EntryInfo) : Z := e.
Definition GetNextFreeIndex (e : EntryInfo) : Z := s16 e.

Record KHandleTable := {
  m_entry_infos : list EntryInfo;
  m_objects : list Z;
  m_free_head_index : Z;
  m_table_size : Z;
  m_max_count : Z;
  m_next_linear_id : Z;
  m_count : Z;
}.

Definition new_KHandleTable : KHandleTable :=
  {| m_entry_infos := replicate (Z.to_nat MaxTableSize) 0;
     m_objects := replicate (Z.to_nat MaxTableSize) 0;
     m_free_head_index := 0; m_table_size := 0; m_max_count := 0; m_next_linear_id := 0;
     m_count := 0 |}.

Definition with_entry (index : Z) (e : EntryInfo) (t : KHandleTable) : option KHandleTable :=
  infos ← set_at (m_entry_infos t) index e;
  Some {| m_entry_infos := infos; m_objects := m_objects t;
          m_free_head_index := m_free_head_index t; m_table_size := m_table_size t;
          m_max_count := m_max_count t; m_next_linear_id := m_next_linear_id t;
          m_count := m_count t |}.

Definition with_object (index : Z) (obj : Z) (t : KHandleTable) : option KHandleTable :=
  objs ← set_at (m_objects t) index obj;
  Some {| m_entry_infos := m_entry_infos t; m_objects := objs;
          m_free_head_index := m_free_head_index t; m_table_size := m_table_size t;
          m_max_count := m_max_count t; m_next_linear_id := m_next_linear_id t;
          m_count := m_count t |}.

Definition with_free (head max_count count : Z) (t : KHandleTable) : KHandleTable :=
  {| m_entry_infos := m_entry_infos t; m_objects := m_objects t;
     m_free_head_index := head; m_table_size := m_table_size t;
     m_max_count := max_count; m_next_linear_id := m_next_linear_id t; m_count := count |}.

(** ** Initialize *)
Fixpoint Initialize_loop (n : nat) (i : Z) (t : KHandleTable) : option KHandleTable :=
  match n with
  | O => Some t
  | S n =>
      t ← with_object i 0 t;
      t ← with_entry i (entry_next_free_index (s16 (i - 1))) t;
      Initialize_loop n (i + 1) (with_free i (m_max_count t) (m_count t) t)
  end.

Definition Initialize (size : Z) (t : KHandleTable) : option (Z * KHandleTable) :=
  if negb (size <=? MaxTableSize) then Some (ResultOutOfMemory, t)
  else
    let t := {| m_entry_infos := m_entry_infos t; m_objects := m_objects t;
                m_free_head_index := -1;
                m_table_size := u16 (s16 (if size <=? 0 then MaxTableSize else size));
                m_max_count := 0; m_next_linear_id := MinLinearId; m_count := 0 |} in
    t ← Initialize_loop (Z.to_nat (m_table_size t)) 0 t;
    Some (ResultSuccess, t).

Definition GetTableSize (t : KHandleTable) : Z := m_table_size t.
Definition GetCount (t : KHandleTable) : Z := m_count t.
Definition GetMaxCount (t : KHandleTable) : Z := m_max_count t.

(** ** Entries *)
Definition AllocateEntry (t : KHandleTable) : option (Z * KHandleTable) :=
  check (m_count t <? m_table_size t);;
  let index := m_free_head_index t in
  e ← at_ (m_entry_infos t) index;
  let count := u16 (m_count t + 1) in
  Some (index, with_free (GetNextFreeIndex e) (Z.max (m_max_count t) count) count t).

Definition FreeEntry (index : Z) (t : KHandleTable) : option KHandleTable :=
  check (0 <? m_count t);;
  t ← with_object index 0 t;
  t ← with_entry index (entry_next_free_index (s16 (m_free_head_index t))) t;
  Some (with_free index (m_max_count t) (u16 (m_count t - 1)) t).

Definition AllocateLinearId (t : KHandleTable) : Z * KHandleTable :=
  let id := m_next_linear_id t in
  let next := u16 (id + 1) in
  let next := if MaxLinearId <? next then MinLinearId else next in
  (id, {| m_entry_infos := m_entry_infos t; m_objects := m_objects t;
          m_free_head_index := m_free_head_index t; m_table_size := m_table_size t;
          m_max_count := m_max_count t; m_next_linear_id := next; m_count := m_count t |}).

(** ** Looking a handle up *)
Definition IsValidHandle (handle : Z) (t : KHandleTable) : option bool :=
  let index := HandlePack.index handle in
  let linear_id := HandlePack.linear_id handle in
  check (HandlePack.reserved handle =? 0);;
  if handle =? 0 then Some false
  else if linear_id =? 0 then Some false
  else if m_table_size t <=? index then Some false
  else
    obj ← at_ (m_objects t) index;
    if obj =? 0 then Some false
    else
      e ← at_ (m_entry_infos t) index;
      if negb (GetLinearId e =? linear_id) then Some false else Some true.

Definition GetObjectImpl (handle : Z) (t : KHandleTable) : option Z :=
  if negb (HandlePack.reserved handle =? 0) then Some 0
  else
    valid ← IsValidHandle handle t;
    if (valid : bool) then at_ (m_objects t) (HandlePack.index handle) else Some 0.

(** [None] in the second component: [*out_handle] is not written. *)
Definition GetObjectByIndexImpl (index : Z) (t : KHandleTable) : option (Z * option Z) :=
  if m_table_size t <=? index then Some (0, None)
  else
    obj ← at_ (m_objects t) index;
    if negb (obj =? 0) then
      e ← at_ (m_entry_infos t) index;
      Some (obj, Some (EncodeHandle (u16 index) (GetLinearId e)))
    else Some (0, None).

(** * Operations that touch the objects *)
Module Svc.
Definition CurrentThread : Z := 0xFFFF8000.
Definition CurrentProcess : Z := 0xFFFF8001.
Definition IsPseudoHandle (handle : Z) : bool :=
  (handle =? CurrentProcess) || (handle =? CurrentThread).
End Svc.

Definition Add (obj : Z) (t : KHandleTable) (w : World)
    : option (Z * option Z * KHandleTable * World) :=
  if negb (m_count t <? m_table_size t) then Some (ResultOutOfHandles, None, t, w)
  else
    let '(linear_id, t) := AllocateLinearId t in
    '(index, t) ← AllocateEntry t;
    t ← with_entry index (entry_linear_id linear_id) t;
    t ← with_object index obj t;
    '(_, w) ← Open obj w;
    Some (ResultSuccess, Some (EncodeHandle (u16 index) linear_id), t, w).

(** The arguments of [EncodeHandle] touch different fields: their order does not matter. *)
Definition Reserve (t : KHandleTable) : option (Z * option Z * KHandleTable) :=
  if negb (m_count t <? m_table_size t) then Some (ResultOutOfHandles, None, t)
  else
    '(index, t) ← AllocateEntry t;
    let '(linear_id, t) := AllocateLinearId t in
    Some (ResultSuccess, Some (EncodeHandle (u16 index) linear_id), t).

Definition Unreserve (handle : Z) (t : KHandleTable) : option KHandleTable :=
  let index := HandlePack.index handle in
  check (HandlePack.reserved handle =? 0);;
  check (negb (HandlePack.linear_id handle =? 0));;
  if index <? m_table_size t then
    obj ← at_ (m_objects t) index;
    check (obj =? 0);;
    FreeEntry index t
  else Some t.

Definition Register (handle obj : Z) (t : KHandleTable) (w : World)
    : option (KHandleTable * World) :=
  let index := HandlePack.index handle in
  let linear_id := HandlePack.linear_id handle in
  check (HandlePack.reserved handle =? 0);;
  check (negb (linear_id =? 0));;
  if index <? m_table_size t then
    old ← at_ (m_objects t) index;
    check (old =? 0);;
    t ← with_entry index (entry_linear_id (u16 linear_id)) t;
    t ← with_object index obj t;
    '(_, w) ← Open obj w;
    Some (t, w)
  else Some (t, w).

(** The result is a [KScopedAutoObject]: the pointer found, already opened. [T] is the
    class token asked for; for [KAutoObject] itself no cast is made. *)
Definition GetObjectWithoutPseudoHandle (T handle : Z) (t : KHandleTable) (w : World)
    : option (Z * World) :=
  obj ← GetObjectImpl handle t;
  if T =? KClassTokenGenerator.ClassToken KClassTokenGenerator.KAutoObject then Scoped obj w
  else if negb (obj =? 0) then
    d ← DynamicCast T obj w;
    Scoped d w
  else Scoped 0 w.

Definition GetObjectForIpcWithoutPseudoHandle (handle : Z) (t : KHandleTable) (w : World)
    : option (Z * World) :=
  obj ← GetObjectImpl handle t;
  Scoped obj w.

(** [T] is a class; the two [if constexpr] tests ask whether [T] is a base of KProcess or
    of KThread. [cur_process] and [cur_thread] are the current core's. *)
Definition GetObject (T : KClassTokenGenerator.ObjectType) (handle cur_process cur_thread : Z)
    (t : KHandleTable) (w : World) : option (Z * World) :=
  if decide (KClassTokenGenerator.derives KClassTokenGenerator.KProcess T) then
    if handle =? Svc.CurrentProcess then
      check (negb (cur_process =? 0));;
      Scoped cur_process w
    else GetObjectWithoutPseudoHandle (KClassTokenGenerator.ClassToken T) handle t w
  else if decide (KClassTokenGenerator.derives KClassTokenGenerator.KThread T) then
    if handle =? Svc.CurrentThread then
      check (negb (cur_thread =? 0));;
      Scoped cur_thread w
    else GetObjectWithoutPseudoHandle (KClassTokenGenerator.ClassToken T) handle t w
  else GetObjectWithoutPseudoHandle (KClassTokenGenerator.ClassToken T) handle t w.

(** [owner_process] is [cur_thread->GetOwnerProcess()]. *)
Definition GetObjectForIpc (handle cur_thread owner_process : Z) (t : KHandleTable) (w : World)
    : option (Z * World) :=
  check (negb (cur_thread =? 0));;
  if handle =? Svc.CurrentProcess then
    check (negb (owner_process =? 0));;
    Scoped owner_process w
  else if handle =? Svc.CurrentThread then Scoped cur_thread w
  else GetObjectForIpcWithoutPseudoHandle handle t w.

Definition GetObjectByIndex (index : Z) (t : KHandleTable) (w : World)
    : option (Z * option Z * World) :=
  '(obj, out_handle) ← GetObjectByIndexImpl index t;
  '(obj, w) ← Scoped obj w;
  Some (obj, out_handle, w).

(** The first loop of [GetMultipleObjects]: the objects converted and opened, in order, and
    whether every handle was. *)
Fixpoint GetMultipleObjects_loop (T : Z) (handles : list Z) (t : KHandleTable) (w : World)
    : option (list Z * bool * World) :=
  match handles with
  | [] => Some ([], true, w)
  | cur_handle :: rest =>
      cur_object ← GetObjectImpl cur_handle t;
      if cur_object =? 0 then Some ([], false, w)
      else
        cur_t ← DynamicCast T cur_object w;
        if cur_t =? 0 then Some ([], false, w)
        else
          '(_, w) ← Open cur_t w;
          '(out, all, w) ← GetMultipleObjects_loop T rest t w;
          Some (cur_t :: out, all, w)
  end.

Section methods.
Context `{AutoObjectMethods}.

Fixpoint Close_all (objs : list Z) (w : World) : option World :=
  match objs with
  | [] => Some w
  | obj :: rest => w ← Close obj w; Close_all rest w
  end.

(** The array written up to the failing handle, and the answer. *)
Definition GetMultipleObjects (T : Z) (handles : list Z) (t : KHandleTable) (w : World)
    : option (bool * list Z * World) :=
  '(out, all, w) ← GetMultipleObjects_loop T handles t w;
  if (all : bool) then Some (true, out, w)
  else w ← Close_all out w; Some (false, out, w).

Definition Remove (handle : Z) (t : KHandleTable) (w : World)
    : option (bool * KHandleTable * World) :=
  if Svc.IsPseudoHandle handle then Some (false, t, w)
  else if negb (HandlePack.reserved handle =? 0) then Some (false, t, w)
  else
    valid ← IsValidHandle handle t;
    if (valid : bool) then
      let index := HandlePack.index handle in
      obj ← at_ (m_objects t) index;
      t ← FreeEntry index t;
      w ← Close obj (UnregisterInUseObject obj w);
      Some (true, t, w)
    else Some (false, t, w).

(** [saved_table_size] entries are closed; the table is left with size 0. *)
Definition Finalize (t : KHandleTable) (w : World) : option (Z * KHandleTable * World) :=
  let saved_table_size := m_table_size t in
  let t := {| m_entry_infos := m_entry_infos t; m_objects := m_objects t;
              m_free_head_index := m_free_head_index t; m_table_size := 0;
              m_max_count := m_max_count t; m_next_linear_id := m_next_linear_id t;
              m_count := m_count t |} in
  let entries := take (Z.to_nat saved_table_size) (m_objects t) in
  w ← Close_all (filter (λ obj, obj ≠ 0) entries) w;
  Some (ResultSuccess, t, w).
End methods.
