(* ===== verification/HandleTableSpec.v ===== *)
(** The handle table as a finite map from handles to objects: the invariant of the table's
    free list, the map a table represents, and the theorems that every operation keeps the
    invariant and acts on the map as it should. *)
From S2P Require Import Prelude Results AutoObject HandleTable.

(** * Handles *)
Lemma index_range h : 0 ≤ h → in_width 15 (HandlePack.index h).
Proof. intros. by apply BitField.ExtractValue_range; lia. Qed.

Lemma linear_id_range h : 0 ≤ h → in_width 15 (HandlePack.linear_id h).
Proof. intros. by apply BitField.ExtractValue_range; lia. Qed.

Lemma EncodeHandle_range i l : in_width 32 (EncodeHandle i l).
Proof.
  unfold EncodeHandle. repeat apply BitField.Assign_range; try lia. unfold in_width; lia.
Qed.

Lemma EncodeHandle_fields i l :
  in_width 15 i → in_width 15 l →
  HandlePack.index (EncodeHandle i l) = i ∧ HandlePack.linear_id (EncodeHandle i l) = l
  ∧ HandlePack.reserved (EncodeHandle i l) = 0.
Proof.
  intros Hi Hl. unfold EncodeHandle, HandlePack.index, HandlePack.linear_id, HandlePack.reserved.
  assert (in_width 32 0) by (unfold in_width; lia).
  assert (in_width 2 0) by (unfold in_width; lia).
  assert (in_width 32 (BitField.Assign 32 0 15 0 i)) by (apply BitField.Assign_range; done || lia).
  assert (in_width 32 (BitField.Assign 32 15 15 (BitField.Assign 32 0 15 0 i) l))
    by (apply BitField.Assign_range; done || lia).
  split_and!.
  - rewrite !BitField.ExtractValue_Assign_ne by (done || lia).
    by apply BitField.ExtractValue_Assign; (done || lia).
  - rewrite BitField.ExtractValue_Assign_ne by (done || lia).
    by apply BitField.ExtractValue_Assign; (done || lia).
  - by apply BitField.ExtractValue_Assign; (done || lia).
Qed.

Lemma EncodeHandle_decode h :
  in_width 32 h → HandlePack.reserved h = 0 →
  EncodeHandle (HandlePack.index h) (HandlePack.linear_id h) = h.
Proof.
  intros Hh Hr. unfold EncodeHandle, HandlePack.index, HandlePack.linear_id in *.
  assert (in_width 32 0) by (unfold in_width; lia).
  set (i := BitField.ExtractValue 32 0 15 h). set (l := BitField.ExtractValue 32 15 15 h).
  assert (in_width 32 (BitField.Assign 32 0 15 0 i)) by (apply BitField.Assign_range; done || lia).
  assert (in_width 32 (BitField.Assign 32 15 15 (BitField.Assign 32 0 15 0 i) l))
    by (apply BitField.Assign_range; done || lia).
  apply testbit_ext. intros k Hk. rewrite !BitField.Assign_testbit by (done || lia).
  unfold i, l. rewrite !Z.bits_0.
  destruct (decide (k < 15)); [|destruct (decide (k < 30)); [|destruct (decide (k < 32))]].
  - rewrite !(bool_decide_false (_ ≤ k < _)) by lia. rewrite bool_decide_true by lia.
    rewrite BitField.ExtractValue_testbit by lia. rewrite bool_decide_true by lia.
    simpl. f_equal. lia.
  - rewrite (bool_decide_false (30 ≤ k < _)) by lia. rewrite (bool_decide_true (15 ≤ k < _)) by lia.
    rewrite BitField.ExtractValue_testbit by lia. rewrite bool_decide_true by lia.
    simpl. f_equal. lia.
  - rewrite bool_decide_true by lia. rewrite ?Z.bits_0.
    unfold HandlePack.reserved in Hr. apply (f_equal (λ v, Z.testbit v (k - 30))) in Hr.
    rewrite BitField.ExtractValue_testbit, Z.bits_0, bool_decide_true in Hr by lia.
    simpl in Hr. rewrite <-Hr. f_equal. lia.
  - rewrite !bool_decide_false by lia. symmetry. apply (testbit_high 32); [done|lia].
Qed.

Lemma linear_id_0 : HandlePack.linear_id 0 = 0.
Proof. done. Qed.

(** * The invariant *)

(** The free list from [head] visits the indices [l] and ends in [-1]. *)
Fixpoint free_chain (infos : list EntryInfo) (head : Z) (l : list nat) : Prop :=
  match l with
  | [] => head = -1
  | i :: l => head = Z.of_nat i
              ∧ ∃ e, infos !! i = Some e ∧ free_chain infos (GetNextFreeIndex e) l
  end.

Record table_ok_free (t : KHandleTable) (free : list nat) : Prop := {
  ok_infos : Z.of_nat (length (m_entry_infos t)) = MaxTableSize;
  ok_objects : Z.of_nat (length (m_objects t)) = MaxTableSize;
  ok_size : 0 ≤ m_table_size t ≤ MaxTableSize;
  ok_chain : free_chain (m_entry_infos t) (m_free_head_index t) free;
  ok_nodup : NoDup free;
  ok_bound : Forall (λ i, Z.of_nat i < m_table_size t) free;
  ok_null : Forall (λ i, m_objects t !! i = Some 0) free;
  ok_count : m_count t + Z.of_nat (length free) = m_table_size t;
  ok_max : 0 ≤ m_count t ≤ m_max_count t;
  ok_max_size : m_max_count t ≤ m_table_size t;
  ok_linear : MinLinearId ≤ m_next_linear_id t ≤ MaxLinearId;
}.
Definition table_ok (t : KHandleTable) : Prop := ∃ free, table_ok_free t free.

Lemma free_chain_insert infos head l i e :
  free_chain infos head l → i ∉ l → free_chain (<[i := e]> infos) head l.
Proof.
  revert head. induction l as [|j l IH]; intros head; simpl; [done|].
  intros (-> & e' & He & Hc) Hn. split; [done|]. exists e'.
  rewrite list_lookup_insert_ne by set_solver. split; [done|]. apply IH; [done|set_solver].
Qed.

(** * The map *)

(** Handle [h] names object [o]. *)
Definition valid_at (t : KHandleTable) (h o : Z) : Prop :=
  HandlePack.reserved h = 0 ∧ HandlePack.linear_id h ≠ 0
  ∧ HandlePack.index h < m_table_size t
  ∧ m_objects t !! Z.to_nat (HandlePack.index h) = Some o ∧ o ≠ 0
  ∧ m_entry_infos t !! Z.to_nat (HandlePack.index h) = Some (HandlePack.linear_id h).

Lemma valid_at_fun t h o o' : valid_at t h o → valid_at t h o' → o = o'.
Proof. intros (_&_&_&H&_) (_&_&_&H'&_). congruence. Qed.

Lemma IsValidHandle_spec t h :
  table_ok t → in_width 32 h → HandlePack.reserved h = 0 →
  ∃ b, IsValidHandle h t = Some b ∧ (b = true ↔ ∃ o, valid_at t h o).
Proof.
  intros [free Hok] Hh Hr. destruct (index_range h) as [Hi0 Hi1]; [apply Hh|].
  unfold IsValidHandle. rewrite Hr. cbn [Z.eqb check mbind option_bind].
  destruct (Z.eqb_spec h 0) as [->|Hne].
  { exists false. split; [done|]. split; [done|]. intros (o & _ & Hl & _). by destruct Hl. }
  destruct (Z.eqb_spec (HandlePack.linear_id h) 0) as [Hl|Hl].
  { exists false. split; [done|]. split; [done|]. by intros (o & _ & ? & _). }
  destruct (Z.leb_spec (m_table_size t) (HandlePack.index h)) as [Hsz|Hsz].
  { exists false. split; [done|]. split; [done|]. intros (o & _ & _ & ? & _). lia. }
  pose proof (ok_infos _ _ Hok). pose proof (ok_objects _ _ Hok). pose proof (ok_size _ _ Hok).
  rewrite <-(Z2Nat.id (HandlePack.index h)) by lia. rewrite !at_lookup.
  set (n := Z.to_nat (HandlePack.index h)).
  destruct (lookup_lt_is_Some_2 (m_objects t) n) as [o Ho]; [lia|].
  destruct (lookup_lt_is_Some_2 (m_entry_infos t) n) as [e He]; [lia|].
  rewrite Ho, He. cbn [mbind option_bind]. unfold GetLinearId, valid_at. fold n. rewrite Ho, He.
  destruct (Z.eqb_spec o 0) as [->|Hne0].
  { exists false. split; [done|]. split; [done|]. intros (o & _ & _ & _ & E & ? & _). congruence. }
  destruct (Z.eqb_spec e (HandlePack.linear_id h)) as [->|Hne1]; cbn [negb].
  - exists true. split; [done|]. split; [|done]. intros _. by exists o.
  - exists false. split; [done|]. split; [done|]. intros (o' & _ & _ & _ & _ & _ & E). congruence.
Qed.

Lemma GetObjectImpl_valid t h o :
  table_ok t → in_width 32 h → valid_at t h o → GetObjectImpl h t = Some o.
Proof.
  intros Hok Hh Hv. pose proof Hv as (Hr & _ & _ & Ho & _).
  destruct (IsValidHandle_spec t h) as (b & E & Hb); [done..|].
  unfold GetObjectImpl. rewrite Hr. cbn [Z.eqb negb]. rewrite E. cbn [mbind option_bind].
  rewrite (proj2 Hb) by (by exists o).
  rewrite <-(Z2Nat.id (HandlePack.index h)) by (apply index_range, Hh). by rewrite at_lookup.
Qed.

Lemma GetObjectImpl_invalid t h :
  table_ok t → in_width 32 h → (∀ o, ¬ valid_at t h o) → GetObjectImpl h t = Some 0.
Proof.
  intros Hok Hh Hv. unfold GetObjectImpl.
  destruct (Z.eqb_spec (HandlePack.reserved h) 0) as [Hr|Hr]; [|done]. cbn [negb].
  destruct (IsValidHandle_spec t h) as (b & E & Hb); [done..|]. rewrite E. cbn [mbind option_bind].
  destruct b; [|done]. destruct (proj1 Hb eq_refl) as [o Ho]. by destruct (Hv o).
Qed.

Lemma GetObjectImpl_inv t h o :
  table_ok t → in_width 32 h → GetObjectImpl h t = Some o → o ≠ 0 → valid_at t h o.
Proof.
  intros Hok Hh E Ho. unfold GetObjectImpl in E.
  destruct (Z.eqb_spec (HandlePack.reserved h) 0) as [Hr|Hr]; [|by injection E].
  cbn [negb] in E.
  destruct (IsValidHandle_spec t h) as (b & E' & Hb); [done..|].
  rewrite E' in E. cbn [mbind option_bind] in E. destruct b; [|by injection E].
  destruct (proj1 Hb eq_refl) as [o' Hv]. pose proof Hv as (_ & _ & _ & Ho' & _).
  rewrite <-(Z2Nat.id (HandlePack.index h)) in E by (apply index_range, Hh).
  rewrite at_lookup, Ho' in E. by injection E as ->.
Qed.

(** The table [t] is the map [m] from the 32-bit handles in use to their objects. *)
Definition represents (t : KHandleTable) (m : gmap Z Z) : Prop :=
  (∀ h, in_width 32 h → GetObjectImpl h t = Some (default 0 (m !! h)))
  ∧ map_Forall (λ h o, in_width 32 h ∧ o ≠ 0) m.

Lemma represents_iff t m :
  table_ok t →
  represents t m ↔ ∀ h o, m !! h = Some o ↔ in_width 32 h ∧ valid_at t h o.
Proof.
  intros Hok. split.
  - intros [Hg Hm] h o. split.
    + intros E. destruct (Hm h o E) as [Hh Ho]. split; [done|].
      specialize (Hg h Hh). rewrite E in Hg. by apply GetObjectImpl_inv.
    + intros [Hh Hv]. specialize (Hg h Hh).
      rewrite (GetObjectImpl_valid t h o) in Hg by done. injection Hg as E.
      destruct (m !! h) as [o'|]; simpl in E; [by subst|]. destruct Hv as (_&_&_&_&?&_). done.
  - intros Hm. split.
    + intros h Hh. destruct (m !! h) as [o|] eqn:E; simpl.
      * apply Hm in E as [_ Hv]. by apply GetObjectImpl_valid.
      * apply GetObjectImpl_invalid; [done|done|]. intros o Hv.
        assert (m !! h = Some o) by (by apply Hm). congruence.
    + intros h o E. apply Hm in E as [Hh Hv]. split; [done|]. apply Hv.
Qed.

(** * The entry operations *)
Lemma GetNextFreeIndex_entry x :
  -1 ≤ x < MaxTableSize → GetNextFreeIndex (entry_next_free_index (s16 x)) = x.
Proof.
  intros Hx. unfold GetNextFreeIndex, entry_next_free_index, MaxTableSize in *.
  rewrite (swrap_small 16 x) by lia. unfold swrap, wrap.
  rewrite Zplus_mod_idemp_l, Z.mod_small by lia. lia.
Qed.

Lemma free_chain_head t free :
  table_ok_free t free → -1 ≤ m_free_head_index t < MaxTableSize.
Proof.
  intros Hok. pose proof (ok_chain _ _ Hok) as Hc. pose proof (ok_bound _ _ Hok) as Hb.
  pose proof (ok_size _ _ Hok). destruct free as [|i free]; simpl in Hc.
  - rewrite Hc. unfold MaxTableSize. lia.
  - destruct Hc as [-> _]. apply Forall_cons in Hb as [Hb _]. lia.
Qed.

Lemma AllocateEntry_ok t free :
  table_ok_free t free → m_count t < m_table_size t →
  ∃ i free' t', free = i :: free' ∧ AllocateEntry t = Some (Z.of_nat i, t')
    ∧ table_ok_free t' free' ∧ i ∉ free' ∧ Z.of_nat i < m_table_size t
    ∧ m_objects t !! i = Some 0
    ∧ m_entry_infos t' = m_entry_infos t ∧ m_objects t' = m_objects t
    ∧ m_table_size t' = m_table_size t ∧ m_next_linear_id t' = m_next_linear_id t
    ∧ m_count t' = m_count t + 1 ∧ m_max_count t' = Z.max (m_max_count t) (m_count t + 1).
Proof.
  intros Hok Hlt. destruct Hok as [Hi Ho Hs Hc Hn Hb Hz Hct Hm Hms Hl].
  destruct free as [|i free']; [simpl in Hct; lia|].
  simpl in Hc. destruct Hc as (Hh & e & He & Hc).
  apply NoDup_cons in Hn as [Hni Hn]. apply Forall_cons in Hb as [Hbi Hb].
  apply Forall_cons in Hz as [Hzi Hz]. simpl in Hct. unfold MaxTableSize in Hs.
  exists i, free'. unfold AllocateEntry. rewrite (proj2 (Z.ltb_lt _ _)) by done. cbn [check mbind option_bind].
  rewrite Hh, at_lookup, He. cbn [mbind option_bind].
  rewrite (wrap_small 16) by (unfold in_width; lia).
  eexists. split_and!; try done. constructor; simpl; try done; try lia.
Qed.

Lemma AllocateLinearId_ok t free id t' :
  table_ok_free t free → AllocateLinearId t = (id, t') →
  table_ok_free t' free ∧ MinLinearId ≤ id ≤ MaxLinearId
  ∧ id = m_next_linear_id t
  ∧ m_entry_infos t' = m_entry_infos t ∧ m_objects t' = m_objects t
  ∧ m_table_size t' = m_table_size t ∧ m_count t' = m_count t.
Proof.
  intros [Hi Ho Hs Hc Hn Hb Hz Hct Hm Hms Hl] E. unfold AllocateLinearId in E.
  injection E as <- <-. simpl. split_and!; try done; try lia.
  constructor; simpl; try done; try lia.
  unfold MinLinearId, MaxLinearId in *. rewrite (wrap_small 16) by (unfold in_width; lia).
  case_match; lia.
Qed.

Lemma with_entry_ok t free i e :
  table_ok_free t free → i ∉ free → Z.of_nat i < m_table_size t →
  ∃ t', with_entry (Z.of_nat i) e t = Some t' ∧ table_ok_free t' free
    ∧ m_entry_infos t' = <[i := e]> (m_entry_infos t) ∧ m_objects t' = m_objects t
    ∧ m_table_size t' = m_table_size t ∧ m_count t' = m_count t
    ∧ m_next_linear_id t' = m_next_linear_id t ∧ m_max_count t' = m_max_count t
    ∧ m_free_head_index t' = m_free_head_index t.
Proof.
  intros [Hi Ho Hs Hc Hn Hb Hz Hct Hm Hms Hl] Hni Hlt. unfold with_entry.
  rewrite set_at_insert by lia. cbn [mbind option_bind].
  eexists. split_and!; try done. constructor; simpl; try done; try lia.
  - by rewrite length_insert.
  - by apply free_chain_insert.
Qed.

Lemma with_object_ok t free i o :
  table_ok_free t free → i ∉ free → Z.of_nat i < m_table_size t →
  ∃ t', with_object (Z.of_nat i) o t = Some t' ∧ table_ok_free t' free
    ∧ m_objects t' = <[i := o]> (m_objects t) ∧ m_entry_infos t' = m_entry_infos t
    ∧ m_table_size t' = m_table_size t ∧ m_count t' = m_count t
    ∧ m_next_linear_id t' = m_next_linear_id t ∧ m_max_count t' = m_max_count t
    ∧ m_free_head_index t' = m_free_head_index t.
Proof.
  intros [Hi Ho Hs Hc Hn Hb Hz Hct Hm Hms Hl] Hni Hlt. unfold with_object.
  rewrite set_at_insert by lia. cbn [mbind option_bind].
  eexists. split_and!; try done. constructor; simpl; try done; try lia.
  - by rewrite length_insert.
  - apply Forall_forall. intros j Hj. rewrite Forall_forall in Hz.
    rewrite list_lookup_insert_ne by set_solver. by apply Hz.
Qed.

Lemma FreeEntry_ok t free i :
  table_ok_free t free → i ∉ free → Z.of_nat i < m_table_size t →
  ∃ t', FreeEntry (Z.of_nat i) t = Some t' ∧ table_ok_free t' (i :: free)
    ∧ m_objects t' = <[i := 0]> (m_objects t)
    ∧ (∀ j, j ≠ i → m_entry_infos t' !! j = m_entry_infos t !! j)
    ∧ m_table_size t' = m_table_size t ∧ m_count t' = m_count t - 1
    ∧ m_next_linear_id t' = m_next_linear_id t.
Proof.
  intros Hok Hni Hlt. pose proof (free_chain_head _ _ Hok) as Hh.
  assert (0 < m_count t) as Hpos.
  { pose proof (ok_count _ _ Hok).
    assert (length (i :: free) ≤ Z.to_nat (m_table_size t))%nat; [|simpl in *; lia].
    transitivity (length (seq 0 (Z.to_nat (m_table_size t)))); [|by rewrite length_seq].
    apply submseteq_length, NoDup_submseteq.
    - apply NoDup_cons. split; [done|]. apply (ok_nodup _ _ Hok).
    - pose proof (ok_bound _ _ Hok) as Hb. rewrite Forall_forall in Hb.
      intros j [->|Hj%Hb]%elem_of_cons; apply elem_of_seq; lia. }
  destruct (with_object_ok t free i 0) as (t1 & E1 & Hok1 & Ho1 & Hi1 & Hs1 & Hc1 & Hl1 & Hm1 & Hf1); [done..|].
  destruct (with_entry_ok t1 free i (entry_next_free_index (s16 (m_free_head_index t1))))
    as (t2 & E2 & Hok2 & Hi2 & Ho2 & Hs2 & Hc2 & Hl2 & Hm2 & Hf2); [done|done|lia|].
  unfold FreeEntry. rewrite (proj2 (Z.ltb_lt _ _)) by done. cbn [check mbind option_bind].
  rewrite E1. cbn [mbind option_bind]. rewrite E2. cbn [mbind option_bind].
  eexists. split; [done|].
  destruct Hok2 as [Hi Ho Hs Hc Hn Hb Hz Hct Hm Hms Hl]. unfold MaxTableSize in Hs.
  rewrite (wrap_small 16) by (unfold in_width; lia).
  split_and!; simpl; try congruence; try lia.
  - constructor; simpl; try done; try lia.
    + split; [done|]. exists (entry_next_free_index (s16 (m_free_head_index t1))). split.
      * rewrite Hi2, list_lookup_insert_eq; [done|]. rewrite Hi1.
        pose proof (ok_infos _ _ Hok). pose proof (ok_size _ _ Hok). lia.
      * rewrite GetNextFreeIndex_entry by (rewrite Hf1; done). by rewrite <-Hf2.
    + by apply NoDup_cons.
    + apply Forall_cons. split; [lia|done].
    + apply Forall_cons. split; [|done]. rewrite Ho2, Ho1.
      apply list_lookup_insert_eq. pose proof (ok_objects _ _ Hok). pose proof (ok_size _ _ Hok). lia.
  - intros j Hj. rewrite Hi2, list_lookup_insert_ne by done. by rewrite Hi1.
Qed.

(** * The operations on the represented map *)
Lemma u16_small x : 0 ≤ x < 2 ^ 16 → u16 x = x.
Proof. apply wrap_small. Qed.

Lemma valid_at_ext t t' h o :
  m_table_size t' = m_table_size t →
  m_objects t' !! Z.to_nat (HandlePack.index h) = m_objects t !! Z.to_nat (HandlePack.index h) →
  (m_objects t !! Z.to_nat (HandlePack.index h) = Some 0
   ∨ m_entry_infos t' !! Z.to_nat (HandlePack.index h)
     = m_entry_infos t !! Z.to_nat (HandlePack.index h)) →
  valid_at t' h o ↔ valid_at t h o.
Proof.
  intros Hs Ho Hi. unfold valid_at. rewrite Hs, Ho.
  split; intros (? & ? & ? & E & ? & ?); (destruct Hi as [Hi|Hi]; [congruence|]).
  - rewrite <-Hi. done.
  - rewrite Hi. done.
Qed.

(** A table that binds [obj] at the free index [i] under the id [l] and changes nothing else
    is the map with one more handle. *)
Lemma represents_bind t t' m i l obj :
  table_ok t → table_ok t' → represents t m →
  m_table_size t' = m_table_size t → Z.of_nat i < m_table_size t →
  MinLinearId ≤ l ≤ MaxLinearId → obj ≠ 0 →
  m_objects t !! i = Some 0 →
  m_objects t' = <[i := obj]> (m_objects t) →
  m_entry_infos t' = <[i := l]> (m_entry_infos t) →
  m !! EncodeHandle (Z.of_nat i) l = None
  ∧ represents t' (<[EncodeHandle (Z.of_nat i) l := obj]> m).
Proof.
  intros Hok Hok' Hrep Hs Hi Hl Hobj Hnull Ho Hinf. set (h0 := EncodeHandle (Z.of_nat i) l).
  assert (Z.of_nat i < MaxTableSize ∧ (i < length (m_entry_infos t))%nat
          ∧ (i < length (m_objects t))%nat) as (Hib & Hib1 & Hib2).
  { destruct Hok as [free Hok]. pose proof (ok_size _ _ Hok). pose proof (ok_infos _ _ Hok).
    pose proof (ok_objects _ _ Hok). lia. }
  unfold MinLinearId, MaxLinearId, MaxTableSize in *.
  destruct (EncodeHandle_fields (Z.of_nat i) l) as (Ei & El & Er);
    [unfold in_width; lia..|]. fold h0 in Ei, El, Er.
  assert (∀ h, HandlePack.reserved h = 0 → in_width 32 h →
    Z.to_nat (HandlePack.index h) = i → HandlePack.linear_id h = l → h = h0) as Huniq.
  { intros h Hr Hh Hx <-. rewrite <-(EncodeHandle_decode h) by done. unfold h0. f_equal.
    rewrite <-Hx, Z2Nat.id; [done|]. apply index_range, Hh. }
  rewrite represents_iff in Hrep by done. split.
  { destruct (m !! h0) as [o|] eqn:E; [|done]. apply Hrep in E as [_ (_ & _ & _ & E & Hne & _)].
    rewrite Ei, Nat2Z.id in E. congruence. }
  rewrite represents_iff by done. intros h o.
  destruct (decide (Z.to_nat (HandlePack.index h) = i)) as [Hx|Hx].
  - rewrite lookup_insert_Some, Hrep. split.
    + intros [[<- <-]|(_ & _ & _ & _ & _ & E & Hne & _)]; [|rewrite Hx in E; congruence].
      split; [apply EncodeHandle_range|]. unfold valid_at. rewrite Er, El, Ei, Hs, Ho, Hinf.
      rewrite Nat2Z.id, !list_lookup_insert_eq by done. split_and!; try done; lia.
    + intros [Hh (Hr & _ & _ & E & _ & El')]. left.
      rewrite Hx, Ho, list_lookup_insert_eq in E by done.
      rewrite Hx, Hinf, list_lookup_insert_eq in El' by done.
      injection E as <-. injection El' as El'. split; [|done]. symmetry. by apply Huniq.
  - rewrite lookup_insert_ne.
    2: { intros <-. apply Hx. by rewrite Ei, Nat2Z.id. }
    rewrite Hrep, (valid_at_ext t t'); [done|done|..].
    + rewrite Ho, list_lookup_insert_ne by done. done.
    + right. rewrite Hinf, list_lookup_insert_ne by done. done.
Qed.

(** The id handed out after [id]. *)
Definition next_linear_id (id : Z) : Z := if MaxLinearId <? id + 1 then MinLinearId else id + 1.

Lemma AllocateLinearId_next t free :
  table_ok_free t free →
  m_next_linear_id (snd (AllocateLinearId t)) = next_linear_id (m_next_linear_id t).
Proof.
  intros Hok. pose proof (ok_linear _ _ Hok). unfold AllocateLinearId, next_linear_id; simpl.
  unfold MinLinearId, MaxLinearId in *. by rewrite (wrap_small 16) by (unfold in_width; lia).
Qed.

(** The successful path of [Add]: entry [i] is bound under the next linear id. *)
Lemma Add_ok t w m obj :
  table_ok t → represents t m → obj ≠ 0 → live 1 w obj → m_count t < m_table_size t →
  ∃ h t' w', Add obj t w = Some (ResultSuccess, Some h, t', w')
    ∧ table_ok t' ∧ in_width 32 h ∧ m !! h = None ∧ represents t' (<[h := obj]> m)
    ∧ m_count t' = m_count t + 1 ∧ Open obj w = Some (true, w')
    ∧ HandlePack.linear_id h = m_next_linear_id t
    ∧ m_next_linear_id t' = next_linear_id (m_next_linear_id t).
Proof.
  intros [free Hok] Hrep Hobj Hlive Hc. unfold Add.
  rewrite (proj2 (Z.ltb_lt _ _)) by done. cbn [negb].
  destruct (AllocateLinearId t) as [id t1] eqn:E1.
  destruct (AllocateLinearId_ok t free id t1) as (Hok1 & Hid & Hidn & Hi1 & Ho1 & Hs1 & Hc1); [done..|].
  pose proof (AllocateLinearId_next t free Hok) as Hn1. rewrite E1 in Hn1. simpl in Hn1.
  destruct (AllocateEntry_ok t1 free) as (i & free' & t2 & -> & E2 & Hok2 & Hni & Hlt & Hnull & Hi2 & Ho2 & Hs2 & Hn2 & Hc2 & _);
    [done|congruence|]. rewrite E2. cbn [mbind option_bind].
  destruct (with_entry_ok t2 free' i (entry_linear_id id)) as (t3 & E3 & Hok3 & Hi3 & Ho3 & Hs3 & Hc3 & Hn3 & _);
    [done|done|congruence|]. rewrite E3. cbn [mbind option_bind].
  destruct (with_object_ok t3 free' i obj) as (t4 & E4 & Hok4 & Ho4 & Hi4 & Hs4 & Hc4 & Hn4 & _);
    [done|done|congruence|]. rewrite E4. cbn [mbind option_bind].
  destruct (Open_live 1 w obj) as (o & Ho & E5); [done|lia|]. rewrite E5. cbn [mbind option_bind].
  assert (0 ≤ Z.of_nat i < MaxTableSize) as Hib.
  { pose proof (ok_size _ _ Hok). rewrite Hs1 in Hlt. lia. }
  unfold MinLinearId, MaxLinearId, MaxTableSize in *. rewrite u16_small by lia.
  destruct (represents_bind t t4 m i id obj) as [Hfresh Hrep']; try done; try congruence.
  { by exists (i :: free'). } { by exists free'. }
  { rewrite Hi4, Hi3, Hi2, Hi1. unfold entry_linear_id. by rewrite u16_small by lia. }
  exists (EncodeHandle (Z.of_nat i) id), t4. eexists. split; [done|].
  split_and!; [by exists free'|apply EncodeHandle_range|done|done|lia|done| |congruence].
  destruct (EncodeHandle_fields (Z.of_nat i) id) as (_ & El & _); [unfold in_width; lia..|].
  by rewrite El.
Qed.

(** C35: with a free entry, [Add] succeeds: it returns a handle that named nothing, the
    table becomes the old map with that handle bound to the object, one entry more is in
    use, the object has one more reference and the invariant is kept; with no free entry it
    reports [ResultOutOfHandles] and changes nothing. *)
Theorem Add_correct t w m obj :
  table_ok t → represents t m → obj ≠ 0 → live 1 w obj →
  (m_count t < m_table_size t →
     ∃ h t' w', Add obj t w = Some (ResultSuccess, Some h, t', w')
       ∧ table_ok t' ∧ in_width 32 h ∧ m !! h = None ∧ represents t' (<[h := obj]> m)
       ∧ m_count t' = m_count t + 1
       ∧ GetReferenceCount obj w' = Z.succ <$> GetReferenceCount obj w)
  ∧ (m_count t = m_table_size t → Add obj t w = Some (ResultOutOfHandles, None, t, w)).
Proof.
  intros Hok Hrep Hobj Hlive. split; intros Hc.
  - destruct (Add_ok t w m obj) as (h & t' & w' & E & ? & ? & ? & ? & ? & Hop & _); [done..|].
    exists h, t', w'. split_and!; try done.
    destruct (Open_live 1 w obj) as (o & Ho & E5); [done|lia|]. rewrite E5 in Hop.
    injection Hop as <-. unfold GetReferenceCount. by rewrite Ho, (set_ref_lookup _ _ _ o).
  - unfold Add. by rewrite (proj2 (Z.ltb_ge _ _)) by lia.
Qed.

(** The two paths of [Remove]. *)
Lemma Remove_invalid `{AutoObjectMethods} t w h :
  table_ok t → in_width 32 h → (∀ o, ¬ valid_at t h o) → Remove h t w = Some (false, t, w).
Proof.
  intros Hok Hh Hv. unfold Remove. case_match; [done|].
  destruct (Z.eqb_spec (HandlePack.reserved h) 0) as [Hr|]; [|done]. cbn [negb].
  destruct (IsValidHandle_spec t h) as (b & Eb & Hb); [done..|]. rewrite Eb. cbn [mbind option_bind].
  destruct b; [|done]. destruct (proj1 Hb eq_refl) as [o Ho]. by destruct (Hv o).
Qed.

Lemma Remove_ok `{AutoObjectMethods} t h obj :
  table_ok t → in_width 32 h → valid_at t h obj →
  ∃ t', (∀ w, Remove h t w = w' ← Close obj (UnregisterInUseObject obj w); Some (true, t', w'))
    ∧ table_ok t' ∧ m_count t' = m_count t - 1 ∧ m_next_linear_id t' = m_next_linear_id t
    ∧ ∀ h' o, in_width 32 h' → valid_at t' h' o ↔ h' ≠ h ∧ valid_at t h' o.
Proof.
  intros Hok Hh Hv. pose proof Hv as (Hr & Hl & Hsz & Ho & Hobj & He).
  set (i := Z.to_nat (HandlePack.index h)) in *.
  assert (HandlePack.index h = Z.of_nat i) as Ei by (unfold i; rewrite Z2Nat.id; [done|apply index_range, Hh]).
  pose proof Hok as [free Hokf].
  assert (i ∉ free) as Hni.
  { intros Hin. pose proof (ok_null _ _ Hokf) as Hz. rewrite Forall_forall in Hz.
    rewrite (Hz i Hin) in Ho. congruence. }
  destruct (FreeEntry_ok t free i) as (t' & E' & Hok' & Ho' & Hi' & Hs' & Hc' & Hn'); [done|done|lia|].
  exists t'. split_and!; [|by exists (i :: free)|done|done|].
  - intros w. unfold Remove. destruct (Svc.IsPseudoHandle h) eqn:Ep.
    { unfold Svc.IsPseudoHandle in Ep. apply orb_true_iff in Ep as [Ep|Ep];
        apply Z.eqb_eq in Ep as ->; vm_compute in Hr; done. }
    rewrite Hr. cbn [Z.eqb negb].
    destruct (IsValidHandle_spec t h) as (b & Eb & Hb); [done..|]. rewrite Eb. cbn [mbind option_bind].
    rewrite (proj2 Hb) by (by exists obj).
    rewrite Ei, at_lookup, Ho. cbn [mbind option_bind]. by rewrite E'.
  - intros h' o Hh'. destruct (decide (Z.to_nat (HandlePack.index h') = i)) as [Hx|Hx].
    + split.
      * intros (_ & _ & _ & Ho2 & Hne & _). rewrite Hx, Ho', list_lookup_insert_eq in Ho2; [congruence|].
        by apply lookup_lt_Some in Ho.
      * intros [Hne (Hr' & _ & _ & _ & _ & He')]. destruct Hne.
        rewrite <-(EncodeHandle_decode h), <-(EncodeHandle_decode h') by done.
        fold i in He. rewrite Hx, He in He'. injection He' as ->. f_equal.
        rewrite Ei, <-Hx, Z2Nat.id; [done|apply index_range, Hh'].
    + rewrite (valid_at_ext t t'); [|done| |].
      * split; [|tauto]. intros ?. split; [|done]. intros ->. by destruct Hx.
      * rewrite Ho', list_lookup_insert_ne by done. done.
      * right. by apply Hi'.
Qed.

(** [Remove] of a handle in use takes exactly that handle out of the map, closes its
    object after dropping it from the in-use set, and keeps the invariant; of any other
    32-bit value (a stale handle, a pseudo-handle, one with reserved bits) it answers
    [false] and changes nothing. *)
Theorem Remove_correct `{AutoObjectMethods} t w m h :
  table_ok t → represents t m → in_width 32 h →
  match m !! h with
  | Some obj => ∀ w', Close obj (UnregisterInUseObject obj w) = Some w' →
      ∃ t', Remove h t w = Some (true, t', w') ∧ table_ok t'
            ∧ represents t' (delete h m) ∧ m_count t' = m_count t - 1
  | None => Remove h t w = Some (false, t, w)
  end.
Proof.
  intros Hok Hrep Hh. rewrite represents_iff in Hrep by done.
  destruct (m !! h) as [obj|] eqn:E.
  - intros w' Hw. apply Hrep in E as [_ Hv].
    destruct (Remove_ok t h obj) as (t' & E' & Hok' & Hc' & _ & Hv'); [done..|].
    exists t'. rewrite E', Hw. split_and!; [done|done| |done].
    rewrite represents_iff by done. intros h' o. rewrite lookup_delete_Some, Hrep.
    split; [intros [? [??]]|intros [? [??]%Hv']]; rewrite ?Hv' by done; done.
  - apply Remove_invalid; [done..|]. intros o Hv.
    assert (m !! h = Some o) by (by apply Hrep). congruence.
Qed.

(** [Reserve]: entry [i] leaves the free list under the next linear id, still null. *)
Lemma Reserve_ok t m :
  table_ok t → represents t m → m_count t < m_table_size t →
  ∃ free i id t1, Reserve t = Some (ResultSuccess, Some (EncodeHandle (Z.of_nat i) id), t1)
    ∧ table_ok_free t1 free ∧ i ∉ free ∧ Z.of_nat i < m_table_size t1
    ∧ m_objects t1 !! i = Some 0 ∧ represents t1 m ∧ m_count t1 = m_count t + 1
    ∧ MinLinearId ≤ id ≤ MaxLinearId
    ∧ m_next_linear_id t1 = next_linear_id (m_next_linear_id t).
Proof.
  intros [free Hok] Hrep Hc. unfold Reserve. rewrite (proj2 (Z.ltb_lt _ _)) by done. cbn [negb].
  destruct (AllocateEntry_ok t free) as (i & free' & t0 & -> & E0 & Hok0 & Hni & Hlt & Hnull & Hi0 & Ho0 & Hs0 & Hn0 & Hc0 & _);
    [done|done|]. rewrite E0. cbn [mbind option_bind].
  destruct (AllocateLinearId t0) as [id t1] eqn:E1.
  destruct (AllocateLinearId_ok t0 free' id t1) as (Hok1 & Hid & _ & Hi1 & Ho1 & Hs1 & Hc1); [done..|].
  pose proof (AllocateLinearId_next t0 free' Hok0) as Hn1. rewrite E1 in Hn1. simpl in Hn1.
  pose proof (ok_size _ _ Hok). unfold MaxTableSize in *. rewrite u16_small by lia.
  exists free', i, id, t1. split_and!; try done; try congruence; try lia.
  assert (table_ok t) by (by exists (i :: free')). assert (table_ok t1) by (by exists free').
  rewrite represents_iff in * by done. intros h o. rewrite Hrep.
  rewrite (valid_at_ext t t1); [done|congruence|congruence|]. right. congruence.
Qed.

(** A reserved entry is empty, so no handle at its index is in the map. *)
Lemma null_unbound t m i l :
  table_ok t → represents t m → m_objects t !! i = Some 0 →
  HandlePack.index (EncodeHandle (Z.of_nat i) l) = Z.of_nat i →
  m !! EncodeHandle (Z.of_nat i) l = None.
Proof.
  intros Hok Hrep Hnull Ei. rewrite represents_iff in Hrep by done.
  destruct (m !! _) as [o|] eqn:E; [|done].
  apply Hrep in E as [_ (_ & _ & _ & E & Hne & _)]. rewrite Ei, Nat2Z.id in E. congruence.
Qed.

Lemma Register_ok t free i l obj w m :
  table_ok_free t free → i ∉ free → Z.of_nat i < m_table_size t →
  m_objects t !! i = Some 0 → MinLinearId ≤ l ≤ MaxLinearId →
  represents t m → obj ≠ 0 → live 1 w obj →
  let h := EncodeHandle (Z.of_nat i) l in
  ∃ t' w', Register h obj t w = Some (t', w')
    ∧ table_ok t' ∧ represents t' (<[h := obj]> m) ∧ m_count t' = m_count t.
Proof.
  intros Hok Hni Hlt Hnull Hl Hrep Hobj Hlive h. pose proof (ok_size _ _ Hok).
  assert (table_ok t) as Hokt by (by exists free).
  destruct (EncodeHandle_fields (Z.of_nat i) l) as (Ei & El & Er);
    [unfold in_width, MinLinearId, MaxLinearId, MaxTableSize in *; lia..|].
  unfold Register, h. rewrite Er, Ei, El. cbn [Z.eqb check mbind option_bind].
  destruct (Z.eqb_spec l 0); [unfold MinLinearId in *; lia|]. cbn [negb check mbind option_bind].
  rewrite (proj2 (Z.ltb_lt _ _)) by done. rewrite at_lookup, Hnull. cbn [Z.eqb check mbind option_bind].
  destruct (with_entry_ok t free i (entry_linear_id (u16 l))) as (t3 & E3 & Hok3 & Hi3 & Ho3 & Hs3 & Hc3 & _);
    [done..|]. rewrite E3. cbn [mbind option_bind].
  destruct (with_object_ok t3 free i obj) as (t4 & E4 & Hok4 & Ho4 & Hi4 & Hs4 & Hc4 & _);
    [done|done|congruence|]. rewrite E4. cbn [mbind option_bind].
  destruct (Open_live 1 w obj) as (o & Ho & E5); [done|lia|]. rewrite E5. cbn [mbind option_bind].
  assert (table_ok t4) as Hokt4 by (by exists free).
  destruct (represents_bind t t4 m i l obj) as [_ Hrep4]; try done; try congruence.
  { rewrite Hi4, Hi3. unfold entry_linear_id, MinLinearId, MaxLinearId in *.
    rewrite (u16_small l), u16_small by lia. done. }
  exists t4. eexists. split_and!; [done|done|done|congruence].
Qed.

Lemma Unreserve_ok t free i l m :
  table_ok_free t free → i ∉ free → Z.of_nat i < m_table_size t →
  m_objects t !! i = Some 0 → MinLinearId ≤ l ≤ MaxLinearId → represents t m →
  ∃ t', Unreserve (EncodeHandle (Z.of_nat i) l) t = Some t'
    ∧ table_ok t' ∧ represents t' m ∧ m_count t' = m_count t - 1.
Proof.
  intros Hok Hni Hlt Hnull Hl Hrep. pose proof (ok_size _ _ Hok).
  assert (table_ok t) as Hokt by (by exists free).
  destruct (EncodeHandle_fields (Z.of_nat i) l) as (Ei & El & Er);
    [unfold in_width, MinLinearId, MaxLinearId, MaxTableSize in *; lia..|].
  unfold Unreserve. rewrite Er, Ei, El. cbn [Z.eqb check mbind option_bind].
  destruct (Z.eqb_spec l 0); [unfold MinLinearId in *; lia|]. cbn [negb check mbind option_bind].
  rewrite (proj2 (Z.ltb_lt _ _)) by done. rewrite at_lookup, Hnull. cbn [Z.eqb check mbind option_bind].
  destruct (FreeEntry_ok t free i) as (t2 & E2 & Hok2 & Ho2 & Hi2 & Hs2 & Hc2 & _); [done..|].
  assert (table_ok t2) as Hokt2 by (by exists (i :: free)).
  exists t2. split_and!; [done|done| |lia].
  rewrite represents_iff in * by done. intros h' o. rewrite Hrep.
  assert (i < length (m_objects t))%nat by (by apply lookup_lt_Some in Hnull).
  destruct (decide (Z.to_nat (HandlePack.index h') = i)) as [Hx|Hx];
    rewrite (valid_at_ext t t2); try done; rewrite ?Hx, ?Ho2.
  + by rewrite list_lookup_insert_eq.
  + by left.
  + by rewrite list_lookup_insert_ne.
  + right. by apply Hi2.
Qed.

(** [Reserve] takes a free entry without naming anything: the map is unchanged and the
    returned handle is not in it. [Register] then binds the handle to the object, and
    [Unreserve] instead gives the entry back. *)
Theorem Reserve_Register_correct t m :
  table_ok t → represents t m → m_count t < m_table_size t →
  ∃ h t1, Reserve t = Some (ResultSuccess, Some h, t1)
    ∧ table_ok t1 ∧ represents t1 m ∧ m !! h = None ∧ m_count t1 = m_count t + 1
    ∧ (∀ obj w, obj ≠ 0 → live 1 w obj →
         ∃ t2 w', Register h obj t1 w = Some (t2, w')
           ∧ table_ok t2 ∧ represents t2 (<[h := obj]> m) ∧ m_count t2 = m_count t + 1)
    ∧ (∃ t2, Unreserve h t1 = Some t2
           ∧ table_ok t2 ∧ represents t2 m ∧ m_count t2 = m_count t).
Proof.
  intros Hok Hrep Hc.
  destruct (Reserve_ok t m) as (free & i & id & t1 & E & Hok1 & Hni & Hlt & Hnull & Hrep1 & Hc1 & Hid & _);
    [done..|].
  assert (table_ok t1) as Hokt1 by (by exists free). pose proof (ok_size _ _ Hok1).
  exists (EncodeHandle (Z.of_nat i) id), t1. split_and!; try done.
  - apply (null_unbound t1); [done..|].
    destruct (EncodeHandle_fields (Z.of_nat i) id) as (Ei & _ & _); [ | |exact Ei].
    all: unfold in_width, MinLinearId, MaxLinearId, MaxTableSize in *; lia.
  - intros obj w Hobj Hlive.
    destruct (Register_ok t1 free i id obj w m) as (t2 & w' & ? & ? & ? & ?); [done..|].
    exists t2, w'. split_and!; try done. lia.
  - destruct (Unreserve_ok t1 free i id m) as (t2 & ? & ? & ? & ?); [done..|].
    exists t2. split_and!; try done. lia.
Qed.

(** ** Initialize *)
Lemma Initialize_loop_ok n k t :
  Z.of_nat (length (m_entry_infos t)) = MaxTableSize →
  Z.of_nat (length (m_objects t)) = MaxTableSize →
  (k + n ≤ Z.to_nat MaxTableSize)%nat →
  free_chain (m_entry_infos t) (m_free_head_index t) (rev (seq 0 k)) →
  m_free_head_index t = Z.of_nat k - 1 →
  (∀ j, (j < k)%nat → m_objects t !! j = Some 0) →
  ∃ t', Initialize_loop n (Z.of_nat k) t = Some t'
    ∧ Z.of_nat (length (m_entry_infos t')) = MaxTableSize
    ∧ Z.of_nat (length (m_objects t')) = MaxTableSize
    ∧ free_chain (m_entry_infos t') (m_free_head_index t') (rev (seq 0 (k + n)))
    ∧ (∀ j, (j < k + n)%nat → m_objects t' !! j = Some 0)
    ∧ m_table_size t' = m_table_size t ∧ m_max_count t' = m_max_count t
    ∧ m_count t' = m_count t ∧ m_next_linear_id t' = m_next_linear_id t.
Proof.
  revert k t. induction n as [|n IH]; intros k t Hi Ho Hk Hc Hh Hz; cbn [Initialize_loop].
  { exists t. rewrite Nat.add_0_r. split_and!; done. }
  unfold with_object. rewrite set_at_insert by lia. cbn [mbind option_bind].
  unfold with_entry; cbn [m_entry_infos]. rewrite set_at_insert by (simpl; lia). cbn [mbind option_bind].
  replace (Z.of_nat k + 1) with (Z.of_nat (S k)) by lia.
  edestruct (IH (S k)) as (t' & E & H1 & H2 & H3 & H4 & H5 & H6 & H7 & H8).
  7: { rewrite E. exists t'. split; [done|]. replace (k + S n)%nat with (S k + n)%nat by lia.
       split_and!; done. }
  - simpl. by rewrite length_insert.
  - simpl. by rewrite length_insert.
  - lia.
  - cbn [with_free m_entry_infos m_free_head_index m_objects m_table_size m_count m_max_count]. rewrite seq_S, rev_app_distr. cbn [rev app free_chain Nat.add].
    split; [done|]. eexists. rewrite list_lookup_insert_eq by lia. split; [done|].
    unfold MaxTableSize in *. rewrite GetNextFreeIndex_entry by (unfold MaxTableSize; lia).
    rewrite <-Hh. apply free_chain_insert; [done|].
    intros Hin%list_elem_of_In%in_rev%in_seq. lia.
  - simpl. lia.
  - intros j Hj. simpl. destruct (decide (j = k)) as [->|].
    + apply list_lookup_insert_eq. lia.
    + rewrite list_lookup_insert_ne by done. apply Hz. lia.
Qed.

(** The loop builds the empty map over [n] free entries. *)
Lemma Initialize_ok n t :
  Z.of_nat (length (m_entry_infos t)) = MaxTableSize →
  Z.of_nat (length (m_objects t)) = MaxTableSize →
  m_table_size t = Z.of_nat n → Z.of_nat n ≤ MaxTableSize →
  m_free_head_index t = -1 → m_max_count t = 0 → m_count t = 0 →
  m_next_linear_id t = MinLinearId →
  ∃ t', Initialize_loop n 0 t = Some t' ∧ table_ok t' ∧ represents t' ∅
    ∧ m_count t' = 0 ∧ m_table_size t' = Z.of_nat n ∧ m_next_linear_id t' = MinLinearId.
Proof.
  intros Hi Ho Hs Hn Hf Hm Hc Hl.
  destruct (Initialize_loop_ok n 0 t) as (t' & E & H1 & H2 & H3 & H4 & H5 & H6 & H7 & H8);
    [done|done|lia|done|done|lia|].
  exists t'. change (Z.of_nat 0) with 0 in E. rewrite E. cbn [Nat.add] in *.
  assert (table_ok t') as Hok.
  { exists (rev (seq 0 n)). constructor; try done; try lia.
    - rewrite NoDup_ListNoDup. apply NoDup_rev, seq_NoDup.
    - apply Forall_forall. intros j Hj%list_elem_of_In%in_rev%in_seq. lia.
    - apply Forall_forall. intros j Hj%list_elem_of_In%in_rev%in_seq. apply H4. lia.
    - rewrite length_rev, length_seq. lia.
    - rewrite H8, Hl. unfold MinLinearId, MaxLinearId. lia. }
  split_and!; try done; try congruence. rewrite represents_iff by done. intros h o.
  rewrite lookup_empty. split; [done|]. intros [Hh (_ & _ & Hlt & E2 & Hne & _)].
  pose proof (index_range h ltac:(apply Hh)) as [? _]. rewrite H4 in E2; [congruence|]. lia.
Qed.

(** [Initialize] rejects a size above [MaxTableSize] and otherwise builds the empty map
    in a table that satisfies the invariant, with every one of its entries free; a size of
    zero or less asks for the largest table. *)
Theorem Initialize_table size t :
  Z.of_nat (length (m_entry_infos t)) = MaxTableSize →
  Z.of_nat (length (m_objects t)) = MaxTableSize →
  if size <=? MaxTableSize then
    ∃ t', Initialize size t = Some (ResultSuccess, t') ∧ table_ok t' ∧ represents t' ∅
      ∧ m_count t' = 0 ∧ m_table_size t' = (if size <=? 0 then MaxTableSize else size)
  else Initialize size t = Some (ResultOutOfMemory, t).
Proof.
  intros Hi Ho. unfold Initialize.
  destruct (Z.leb_spec size MaxTableSize) as [Hsz|Hsz]; [|done]. cbn [negb].
  set (sz := if size <=? 0 then MaxTableSize else size).
  assert (1 ≤ sz ≤ MaxTableSize) as Hr by (unfold sz, MaxTableSize in *; case_match; lia).
  unfold MaxTableSize in Hr.
  rewrite (swrap_small 16 sz), (wrap_small 16 sz) by (unfold in_width; lia).
  cbn [m_table_size].
  edestruct (Initialize_ok (Z.to_nat sz)) as (t' & E & Hok & Hrep & Hc & Hs & _);
    [..|rewrite E]; try done.
  - simpl. lia.
  - unfold MaxTableSize. lia.
  - cbn [mbind option_bind]. exists t'. split_and!; try done. rewrite Hs. lia.
Qed.

(** * Stale handles *)

(** Runs of a table; the number counts the linear ids handed out. *)
Inductive history `{AutoObjectMethods} : KHandleTable → Z → KHandleTable → Prop :=
  | history_refl t : history t 0 t
  | history_add t n t1 t2 obj w h w' :
      history t n t1 → obj ≠ 0 → live 1 w obj →
      Add obj t1 w = Some (ResultSuccess, Some h, t2, w') → history t (n + 1) t2
  | history_reserve t n t1 t2 h :
      history t n t1 → Reserve t1 = Some (ResultSuccess, Some h, t2) → history t (n + 1) t2
  | history_remove t n t1 t2 h w b w' :
      history t n t1 → in_width 32 h → Remove h t1 w = Some (b, t2, w') → history t n t2.

Lemma next_linear_id_mod id :
  MinLinearId ≤ id ≤ MaxLinearId →
  (next_linear_id id - 1) mod MaxLinearId = (id - 1 + 1) mod MaxLinearId.
Proof.
  unfold next_linear_id, MinLinearId, MaxLinearId. intros. case_match; [|f_equal; lia].
  assert (id = 32767) as -> by lia. done.
Qed.

(** What a run keeps: the invariant, the position of the id counter, and that [h] names
    nothing as long as its id has not come round. *)
Lemma history_inv `{AutoObjectMethods} t m n t' h :
  table_ok t → represents t m → in_width 32 h → m !! h = None → history t n t' →
  n ≤ (HandlePack.linear_id h - m_next_linear_id t) mod MaxLinearId →
  0 ≤ n ∧ table_ok t'
  ∧ (m_next_linear_id t' - 1) mod MaxLinearId = (m_next_linear_id t - 1 + n) mod MaxLinearId
  ∧ ∃ m', represents t' m' ∧ m' !! h = None.
Proof.
  intros Hok Hrep Hh Hnone Hist.
  assert (∀ k, 0 ≤ k → k + 1 ≤ (HandlePack.linear_id h - m_next_linear_id t) mod MaxLinearId →
    ∀ t1, (m_next_linear_id t1 - 1) mod MaxLinearId = (m_next_linear_id t - 1 + k) mod MaxLinearId →
    HandlePack.linear_id h ≠ m_next_linear_id t1) as Hfresh.
  { intros k Hk0 Hk t1 Ht1 Heq. rewrite <-Heq in Ht1.
    pose proof (Z.mod_pos_bound (HandlePack.linear_id h - m_next_linear_id t) MaxLinearId ltac:(done)).
    assert ((HandlePack.linear_id h - m_next_linear_id t) mod MaxLinearId = k mod MaxLinearId) as E.
    { replace (HandlePack.linear_id h - m_next_linear_id t)
        with ((HandlePack.linear_id h - 1) - (m_next_linear_id t - 1)) by lia.
      rewrite Zminus_mod, Ht1, <-Zminus_mod. f_equal. lia. }
    rewrite (Z.mod_small k) in E by lia. lia. }
  induction Hist as [t|t n t1 t2 obj w h1 w' Hist IH Hobj Hlive E|t n t1 t2 h1 Hist IH E
                     |t n t1 t2 h1 w b w' Hist IH Hh1 E]; intros Hn.
  - split_and!; [lia|done|f_equal; lia|by exists m].
  - destruct IH as (Hn0 & Hok1 & Hnext & m1 & Hrep1 & Hm1); [done|done|done|lia|].
    destruct (decide (m_count t1 < m_table_size t1)) as [Hc|Hc].
    2: { unfold Add in E. rewrite (proj2 (Z.ltb_ge _ _)) in E by lia. done. }
    destruct (Add_ok t1 w m1 obj) as (h2 & t3 & w3 & E' & Hok2 & Hh2 & _ & Hrep2 & _ & _ & Hl & Hnx); [done..|].
    rewrite E' in E. injection E as <- <- <-.
    pose proof Hok1 as [free Hf]. pose proof (ok_linear _ _ Hf).
    split_and!; [lia|done| |].
    + rewrite Hnx, next_linear_id_mod by done.
      rewrite <-Zplus_mod_idemp_l, Hnext, Zplus_mod_idemp_l. f_equal. lia.
    + exists (<[h2 := obj]> m1). split; [done|]. rewrite lookup_insert_ne; [done|].
      intros ->. by apply (Hfresh n ltac:(lia) Hn t1 Hnext).
  - destruct IH as (Hn0 & Hok1 & Hnext & m1 & Hrep1 & Hm1); [done|done|done|lia|].
    destruct (decide (m_count t1 < m_table_size t1)) as [Hc|Hc].
    2: { unfold Reserve in E. rewrite (proj2 (Z.ltb_ge _ _)) in E by lia. done. }
    destruct (Reserve_ok t1 m1) as (free & i & id & t3 & E' & Hok2 & _ & _ & _ & Hrep2 & _ & _ & Hnx); [done..|].
    rewrite E' in E. injection E as <- <-.
    pose proof Hok1 as [free1 Hf]. pose proof (ok_linear _ _ Hf).
    split_and!; [lia|by exists free| |by exists m1].
    rewrite Hnx, next_linear_id_mod by done.
    rewrite <-Zplus_mod_idemp_l, Hnext, Zplus_mod_idemp_l. f_equal. lia.
  - destruct IH as (Hn0 & Hok1 & Hnext & m1 & Hrep1 & Hm1); [done|done|done|lia|].
    destruct (m1 !! h1) as [o|] eqn:Eo.
    + pose proof Hrep1 as Hr1. rewrite represents_iff in Hr1 by done. apply Hr1 in Eo as [_ Hv].
      destruct (Remove_ok t1 h1 o) as (t3 & E' & Hok2 & _ & Hnx & Hv2); [done..|].
      rewrite E' in E. destruct (Close o _) as [w2|]; [|done]. injection E as <- <- <-.
      split_and!; [lia|done|by rewrite Hnx|]. exists (delete h1 m1).
      rewrite lookup_delete_None. split; [|by right].
      rewrite represents_iff by done. intros h' o'. rewrite lookup_delete_Some, Hr1.
      split; [intros [? [??]]|intros [? [??]%Hv2]]; rewrite ?Hv2 by done; done.
    + rewrite Remove_invalid in E; [|done|done|].
      * injection E as <- <- <-. split_and!; [lia|done|done|by exists m1].
      * intros o' Hv. rewrite represents_iff in Hrep1 by done.
        assert (m1 !! h1 = Some o') by (by apply Hrep1). congruence.
Qed.

(** C36: a handle that names nothing (one just removed, say) is not given to another object
    before its linear id comes round again: over any run of [Add], [Reserve] and [Remove]
    that hands out fewer ids than separate the counter from it, looking it up finds
    nothing. *)
Theorem stale_handle_stays_invalid `{AutoObjectMethods} t m n t' h :
  table_ok t → represents t m → in_width 32 h → GetObjectImpl h t = Some 0 → history t n t' →
  n ≤ (HandlePack.linear_id h - m_next_linear_id t) mod MaxLinearId →
  GetObjectImpl h t' = Some 0.
Proof.
  intros Hok Hrep Hh Hg Hist Hn.
  assert (m !! h = None) as Hnone.
  { destruct (m !! h) as [o|] eqn:E; [|done]. destruct Hrep as [Hget Hm].
    rewrite Hget, E in Hg by done. simpl in Hg. destruct (Hm h o E). congruence. }
  destruct (history_inv t m n t' h) as (_ & _ & _ & m' & [Hget _] & Hm'); [done..|].
  by rewrite Hget, Hm'.
Qed.

(** * Several handles at once *)
Definition is_a (T : Z) (w : World) (o : Z) : bool := default false (IsDerivedFrom o T w).

(** The handle names an object of class [T]. *)
Definition names_a (T : Z) (w : World) (m : gmap Z Z) (h : Z) : bool :=
  match m !! h with Some o => is_a T w o | None => false end.

Fixpoint take_while {A} (f : A → bool) (l : list A) : list A :=
  match l with [] => [] | x :: l => if f x then x :: take_while f l else [] end.

Lemma take_while_length {A} (f : A → bool) l : (length (take_while f l) ≤ length l)%nat.
Proof. induction l as [|x l IH]; simpl; [done|]. case_match; simpl; lia. Qed.

Lemma take_while_all {A} (f : A → bool) l : forallb f l = true → take_while f l = l.
Proof. induction l as [|x l IH]; simpl; [done|]. intros [-> H]%andb_prop. by rewrite IH. Qed.

Lemma GetMultipleObjects_loop_ok T handles t w m :
  represents t m → Forall (in_width 32) handles →
  (∀ h o, m !! h = Some o → live (Z.of_nat (length handles)) w o) →
  let out := (λ h, default 0 (m !! h)) <$> take_while (names_a T w m) handles in
  GetMultipleObjects_loop T handles t w
  = Some (out, forallb (names_a T w m) handles, inc_all out w).
Proof.
  intros Hrep. revert w. induction handles as [|h handles IH]; intros w Hw Hl; [done|].
  apply Forall_cons in Hw as [Hh Hw]. pose proof Hrep as [Hget Hm].
  cbn [GetMultipleObjects_loop take_while forallb]. rewrite Hget by done.
  cbn [mbind option_bind].
  assert (names_a T w m h = match m !! h with Some o => is_a T w o | None => false end) as -> by done.
  destruct (m !! h) as [o|] eqn:E; cbn [default from_option id]; [|done].
  destruct (Hm h o E) as [_ Ho]. rewrite (proj2 (Z.eqb_neq o 0)) by done.
  pose proof (Hl h o E) as (ob & Hob & Hlo).
  unfold DynamicCast, is_a. unfold IsDerivedFrom. rewrite Hob. cbn [mbind option_bind default from_option id].
  destruct (KClassTokenGenerator.IsDerivedFrom _ _) eqn:Ed; cbn [mbind option_bind Z.eqb andb]; [|done].
  rewrite (proj2 (Z.eqb_neq o 0)) by done. cbn [length] in Hl.
  rewrite (Open_inc (Z.of_nat (S (length handles)))); [|by apply (Hl h)|lia]. cbn [mbind option_bind].
  rewrite IH; [|done|].
  2: { intros h' o' E'. eapply live_weaken; [by apply live_inc, (Hl h')|lia]. }
  assert (∀ h', names_a T (inc o w) m h' = names_a T w m h') as Hna.
  { intros h'. unfold names_a, is_a, IsDerivedFrom. destruct (m !! h') as [o'|]; [|done].
    pose proof (inc_all_class [o] w o') as Hc. simpl in Hc.
    destruct (alter _ _ _ !! o') as [x|] eqn:Ex, (objects w !! o') as [y|] eqn:Ey; simpl in *;
      rewrite ?Ex, ?Ey; simpl; try done. injection Hc as ->. done. }
  assert (take_while (names_a T (inc o w) m) handles = take_while (names_a T w m) handles) as ->.
  { clear -Hna. induction handles as [|x l IH]; simpl; [done|]. by rewrite Hna, IH. }
  assert (forallb (names_a T (inc o w) m) handles = forallb (names_a T w m) handles) as ->.
  { clear -Hna. induction handles as [|x l IH]; simpl; [done|]. by rewrite Hna, IH. }
  cbn [mbind option_bind fmap list_fmap]. rewrite E. cbn [default from_option id]. f_equal. f_equal.
  apply inc_all_inc.
Qed.

Lemma Close_all_inc `{AutoObjectMethods} objs w :
  (∀ o, o ∈ objs → live (Z.of_nat (length objs)) w o) → Close_all objs (inc_all objs w) = Some w.
Proof.
  induction objs as [|o objs IH]; intros Hl; [done|]. cbn [Close_all inc_all fold_right].
  rewrite Close_inc.
  - cbn [mbind option_bind]. apply IH. intros o' Ho'.
    eapply live_weaken; [by apply Hl; right|simpl; lia].
  - eapply live_weaken; [apply live_inc_all, Hl; left|simpl; lia].
Qed.

(** [GetMultipleObjects] is all or nothing. When every handle names an object of the
    class asked for, it answers [true] with the objects in order, each opened once per
    handle that names it; otherwise it answers [false] and every reference it took is given
    back, so the kernel objects are as they were. *)
Theorem GetMultipleObjects_correct `{AutoObjectMethods} T handles t w m :
  represents t m → Forall (in_width 32) handles →
  (∀ h o, m !! h = Some o → live (Z.of_nat (length handles)) w o) →
  ∃ b out w', GetMultipleObjects T handles t w = Some (b, out, w')
    ∧ b = forallb (names_a T w m) handles
    ∧ if b then
        map Some out = map (λ h, m !! h) handles
        ∧ ∀ o, GetReferenceCount o w'
               = (λ r, r + Z.of_nat (length (filter (λ x, x = o) out))) <$> GetReferenceCount o w
      else w' = w.
Proof.
  intros Hrep Hw Hl. unfold GetMultipleObjects.
  rewrite (GetMultipleObjects_loop_ok _ _ _ _ m) by done. cbn [mbind option_bind].
  destruct (forallb _ _) eqn:E.
  - exists true. do 2 eexists. split_and!; [done|done| |intros o; apply inc_all_count].
    rewrite take_while_all by done. clear -E. induction handles as [|h l IH]; simpl in *; [done|].
    apply andb_prop in E as [E1 E2]. f_equal; [|exact (IH E2)].
    unfold names_a in E1. by destruct (m !! h).
  - rewrite Close_all_inc.
    { exists false. do 2 eexists. by split_and!. }
    intros o Ho. apply list_elem_of_fmap in Ho as (h & -> & Hh).
    assert (names_a T w m h = true) as Hn.
    { clear -Hh. induction handles as [|x l IH]; simpl in *; [by apply elem_of_nil in Hh|].
      destruct (names_a T w m x) eqn:Ex; [|by apply elem_of_nil in Hh].
      apply elem_of_cons in Hh as [->|]; auto. }
    unfold names_a in Hn. destruct (m !! h) as [o|] eqn:Eo; [|done]. simpl.
    eapply live_weaken; [by eapply Hl|]. rewrite length_fmap.
    pose proof (take_while_length (names_a T w m) handles). lia.
Qed.

(** * Witnesses *)
Definition ex_methods : AutoObjectMethods := {| Destroy := λ _ w, Some w |}.

(** Object 16 is an event with one reference, object 32 a thread with two. *)
Definition ex_world : World :=
  {| objects := {[16 := {| m_ref_count := 1; class_token := KClassTokenGenerator.ClassToken KClassTokenGenerator.KEvent |};
                  32 := {| m_ref_count := 2; class_token := KClassTokenGenerator.ClassToken KClassTokenGenerator.KThread |}]};
     registered_objects := {[16; 32]}; registered_in_use_objects := ∅ |}.

Definition ex_table : KHandleTable :=
  default (new_KHandleTable) (snd <$> Initialize 2 new_KHandleTable).

Lemma ex_table_ok :
  table_ok ex_table ∧ represents ex_table ∅ ∧ m_count ex_table = 0
  ∧ m_table_size ex_table = 2 ∧ m_next_linear_id ex_table = 1.
Proof.
  destruct (Initialize_ok 2 {| m_entry_infos := m_entry_infos new_KHandleTable;
    m_objects := m_objects new_KHandleTable; m_free_head_index := -1; m_table_size := 2;
    m_max_count := 0; m_next_linear_id := MinLinearId; m_count := 0 |})
    as (t' & E & Hok & Hrep & Hc & Hs & Hl); [done..|].
  assert (ex_table = t') as ->; [|done]. vm_compute in E. injection E as <-. reflexivity.
Qed.

Lemma ex_live : live 8 ex_world 16 ∧ live 8 ex_world 32.
Proof. split; eexists; (split; [reflexivity|]); simpl; lia. Qed.

(** The table with object 16 added, and the object's count at two. *)
Lemma ex_added :
  ∃ h t w, in_width 32 h ∧ table_ok t ∧ represents t {[h := 16]} ∧ m_count t = 1
    ∧ m_table_size t = 2 ∧ HandlePack.linear_id h = 1 ∧ m_next_linear_id t = 2
    ∧ Open 16 ex_world = Some (true, w).
Proof.
  destruct ex_table_ok as (Hok & Hrep & Hc & Hs & Hl).
  destruct (Add_ok ex_table ex_world ∅ 16) as (h & t & w & E & Hok' & Hh & _ & Hrep' & Hc' & Hop & Hl' & Hn');
    [done|done|done| |lia|].
  { eapply live_weaken; [apply ex_live|lia]. }
  exists h, t, w. split_and!; try done; try lia.
  - apply (f_equal (fmap (λ x, m_table_size x.1.2))) in E. vm_compute in E. by injection E.
Qed.

Lemma Add_correct_witness :
  ∃ h t' w', Add 16 ex_table ex_world = Some (ResultSuccess, Some h, t', w')
    ∧ represents t' (<[h := 16]> ∅).
Proof.
  destruct ex_table_ok as (Hok & Hrep & Hc & Hs & Hl).
  destruct (Add_correct ex_table ex_world ∅ 16 Hok Hrep ltac:(done)
    ltac:(eapply live_weaken; [apply ex_live|lia])) as [HA _].
  destruct (HA ltac:(lia)) as (h & t' & w' & E & _ & _ & _ & Hrep' & _).
  exists h, t', w'. split; [exact E|exact Hrep'].
Defined.

Lemma Remove_correct_witness :
  ∃ h t t' w w', GetObjectImpl h t = Some 16
    ∧ Remove (H := ex_methods) h t w = Some (true, t', w') ∧ represents t' ∅
    ∧ Remove (H := ex_methods) 0xFFFF8001 t w = Some (false, t, w).
Proof.
  destruct ex_added as (h & t & w & Hh & Hok & Hrep & _ & _ & _ & _ & Hop).
  pose proof (Remove_correct (H := ex_methods) t w {[h := 16]} h Hok Hrep Hh) as HR.
  rewrite lookup_singleton_eq in HR.
  vm_compute in Hop. injection Hop as Ew.
  destruct (HR ex_world) as (t' & E & _ & Hrep' & _).
  { rewrite <-Ew. vm_compute. reflexivity. }
  exists h, t, t', w, ex_world. split_and!.
  - destruct Hrep as [Hget _]. by rewrite Hget, lookup_singleton_eq.
  - exact E.
  - by rewrite delete_singleton_eq in Hrep'.
  - pose proof (Remove_correct (H := ex_methods) t w {[h := 16]} 0xFFFF8001 Hok Hrep ltac:(done)) as HP.
    rewrite lookup_singleton_ne in HP; [exact HP|]. intros ->.
    rewrite represents_iff in Hrep by done.
    destruct (Hrep 0xFFFF8001 16) as [Hv _]. rewrite lookup_singleton_eq in Hv.
    destruct (Hv eq_refl) as [_ [Hr _]]. vm_compute in Hr. done.
Defined.

Lemma Reserve_Register_correct_witness :
  ∃ h t1 t2, Reserve ex_table = Some (ResultSuccess, Some h, t1)
    ∧ Unreserve h t1 = Some t2 ∧ represents t2 ∅.
Proof.
  destruct ex_table_ok as (Hok & Hrep & Hc & Hs & Hl).
  destruct (Reserve_Register_correct ex_table ∅ Hok Hrep ltac:(lia))
    as (h & t1 & E & _ & _ & _ & _ & _ & t2 & Eu & _ & Hrep2 & _).
  exists h, t1, t2. split_and!; [exact E|exact Eu|exact Hrep2].
Defined.

Lemma Initialize_table_witness :
  (∃ t', Initialize 0 new_KHandleTable = Some (ResultSuccess, t') ∧ m_table_size t' = 1024)
  ∧ Initialize 1025 new_KHandleTable = Some (ResultOutOfMemory, new_KHandleTable).
Proof.
  split.
  - destruct (Initialize_table 0 new_KHandleTable eq_refl eq_refl) as (t' & E & _ & _ & _ & Hs).
    exists t'. split; [exact E|exact Hs].
  - apply (Initialize_table 1025 new_KHandleTable eq_refl eq_refl).
Defined.

Lemma stale_handle_stays_invalid_witness :
  ∃ h t t' w w' obj', history (H := ex_methods) t 1 t' ∧ GetObjectImpl h t = Some 0
    ∧ Add obj' t w = Some (ResultSuccess, Some (EncodeHandle 1 1), t', w')
    ∧ GetObjectImpl h t' = Some 0.
Proof.
  destruct ex_table_ok as (Hok & Hrep & Hc & Hs & Hl).
  set (t' := match Add 16 ex_table ex_world with Some (_, _, t', _) => t' | None => ex_table end).
  set (w' := match Add 16 ex_table ex_world with Some (_, _, _, w') => w' | None => ex_world end).
  assert (Add 16 ex_table ex_world = Some (ResultSuccess, Some (EncodeHandle 1 1), t', w')) as E
    by (vm_compute; reflexivity).
  assert (history (H := ex_methods) ex_table 1 t') as Hist.
  { apply (history_add _ 0 ex_table t' 16 ex_world (EncodeHandle 1 1) w' (history_refl _)); [done| |exact E].
    eapply live_weaken; [apply ex_live|lia]. }
  exists (EncodeHandle 1 7), ex_table, t', ex_world, w', 16. split_and!; [exact Hist|done|exact E|].
  apply (stale_handle_stays_invalid (H := ex_methods) ex_table ∅ 1 t' (EncodeHandle 1 7) Hok Hrep);
    [apply EncodeHandle_range|done|exact Hist|].
  rewrite Hl. vm_compute. discriminate.
Defined.

Lemma GetMultipleObjects_correct_witness :
  ∃ h t w out w' out2, represents t {[h := 16]}
    ∧ GetMultipleObjects (H := ex_methods) (KClassTokenGenerator.ClassToken KClassTokenGenerator.KEvent)
        [h; h] t w = Some (true, out, w')
    ∧ map Some out = [Some 16; Some 16]
    ∧ GetMultipleObjects (H := ex_methods) (KClassTokenGenerator.ClassToken KClassTokenGenerator.KThread)
        [h; h] t w = Some (false, out2, w).
Proof.
  destruct ex_added as (h & t & w & Hh & Hok & Hrep & _ & _ & _ & _ & Hop).
  assert (∀ T, _) as HG by exact (λ T, GetMultipleObjects_correct (H := ex_methods) T [h; h] t ex_world
    {[h := 16]} Hrep ltac:(repeat constructor; apply Hh)
    ltac:(intros h' o Eo; apply lookup_singleton_Some in Eo as [_ <-];
          eapply live_weaken; [apply ex_live|simpl; lia])).
  exists h, t, ex_world.
  destruct (HG (KClassTokenGenerator.ClassToken KClassTokenGenerator.KEvent)) as (b & out & w' & E & Hb & Hout).
  destruct (HG (KClassTokenGenerator.ClassToken KClassTokenGenerator.KThread)) as (b2 & out2 & w2 & E2 & Hb2 & Hout2).
  exists out, w', out2. unfold names_a in Hb, Hb2. cbn [forallb] in Hb, Hb2.
  rewrite lookup_singleton_eq in Hb, Hb2.
  vm_compute in Hb. vm_compute in Hb2. subst b b2 w2. split_and!; [done|exact E| |exact E2].
  destruct Hout as [-> _]. simpl. by rewrite lookup_singleton_eq.
Defined.
