(* ===== verification/ResourceLimit.v ===== *)
(** The resource limits of src/src/core/hle/kernel/k_resource_limit.h and
    k_resource_limit.cpp. Every operation holds the limit's lock except while [Reserve]
    waits on the condition variable, so a reservation is a sequence of locked passes and the
    concurrent system is a step relation over them. *)
From S2P Require Import Prelude Common Results.

Inductive LimitableResource :=
  | PhysicalMemoryMax | ThreadCountMax | EventCountMax | TransferMemoryCountMax
  | SessionCountMax.

#[global] Instance LimitableResource_eq_dec : EqDecision LimitableResource.
Proof. solve_decision. Defined.

Definition index (which : LimitableResource) : nat :=
  match which with
  | PhysicalMemoryMax => 0 | ThreadCountMax => 1 | EventCountMax => 2
  | TransferMemoryCountMax => 3 | SessionCountMax => 4
  end.
Definition Count : nat := 5.

Record KResourceLimit := {
  m_limit_values : list Z;
  m_current_values : list Z;
  m_current_hints : list Z;
  m_peak_values : list Z;
  m_waiter_count : Z;
}.

Definition new_KResourceLimit : KResourceLimit :=
  {| m_limit_values := replicate Count 0; m_current_values := replicate Count 0;
     m_current_hints := replicate Count 0; m_peak_values := replicate Count 0;
     m_waiter_count := 0 |}.

(** The four values at one resource; [std::array] has one entry for each. *)
Definition limit (r : KResourceLimit) (which : LimitableResource) : Z :=
  nth (index which) (m_limit_values r) 0.
Definition current (r : KResourceLimit) (which : LimitableResource) : Z :=
  nth (index which) (m_current_values r) 0.
Definition hint (r : KResourceLimit) (which : LimitableResource) : Z :=
  nth (index which) (m_current_hints r) 0.
Definition peak (r : KResourceLimit) (which : LimitableResource) : Z :=
  nth (index which) (m_peak_values r) 0.

(** Signed addition and subtraction of [s64]: overflow is undefined. *)
Definition s64_checked (x : Z) : option Z :=
  check ((- 2 ^ 63 <=? x) && (x <? 2 ^ 63));; Some x.

Definition assert_ordered (r : KResourceLimit) (which : LimitableResource) : option unit :=
  check (current r which <=? limit r which);;
  check (hint r which <=? current r which).

Definition GetLimitValue (r : KResourceLimit) (which : LimitableResource) : option Z :=
  check (0 <=? limit r which);;
  assert_ordered r which;;
  Some (limit r which).

Definition GetCurrentValue (r : KResourceLimit) (which : LimitableResource) : option Z :=
  check (0 <=? current r which);;
  assert_ordered r which;;
  Some (current r which).

Definition GetPeakValue (r : KResourceLimit) (which : LimitableResource) : option Z :=
  check (0 <=? peak r which);;
  assert_ordered r which;;
  Some (peak r which).

Definition GetFreeValue (r : KResourceLimit) (which : LimitableResource) : option Z :=
  check (0 <=? current r which);;
  assert_ordered r which;;
  s64_checked (limit r which - current r which).

Definition SetLimitValue (which : LimitableResource) (value : Z) (r : KResourceLimit)
    : Z * KResourceLimit :=
  if negb (current r which <=? value) then (ResultInvalidState, r)
  else
    (ResultSuccess,
     {| m_limit_values := <[index which := value]> (m_limit_values r);
        m_current_values := m_current_values r; m_current_hints := m_current_hints r;
        m_peak_values := <[index which := current r which]> (m_peak_values r);
        m_waiter_count := m_waiter_count r |}).

(** ** Reserve *)

(** How a locked pass ends: the call returns, or waits on the condition variable. *)
Inductive Outcome := Returns (result : bool) | Waits.

#[global] Instance Outcome_eq_dec : EqDecision Outcome.
Proof. solve_decision. Defined.

Definition grant (which : LimitableResource) (current' hint' : Z) (r : KResourceLimit) : KResourceLimit :=
  {| m_limit_values := m_limit_values r;
     m_current_values := <[index which := current']> (m_current_values r);
     m_current_hints := <[index which := hint']> (m_current_hints r);
     m_peak_values := <[index which := Z.max (peak r which) current']> (m_peak_values r);
     m_waiter_count := m_waiter_count r |}.

Definition with_waiters (n : Z) (r : KResourceLimit) : KResourceLimit :=
  {| m_limit_values := m_limit_values r; m_current_values := m_current_values r;
     m_current_hints := m_current_hints r; m_peak_values := m_peak_values r;
     m_waiter_count := n |}.

(** One pass of the [while (true)] loop; [tick] is the hardware timer's reading. *)
Definition Reserve_pass (which : LimitableResource) (value timeout tick : Z) (r : KResourceLimit)
    : option (Outcome * KResourceLimit) :=
  check (current r which <=? limit r which);;
  check (hint r which <=? current r which);;
  if WrappingAdd (current r which) value <=? current r which then Some (Returns false, r)
  else
    sum ← s64_checked (current r which + value);
    if sum <=? limit r which then
      hint' ← s64_checked (hint r which + value);
      Some (Returns true, grant which sum hint' r)
    else
      hinted ← s64_checked (hint r which + value);
      if (hinted <=? limit r which) && ((timeout <? 0) || (tick <? timeout)) then
        Some (Waits, with_waiters (s32 (m_waiter_count r + 1)) r)
      else Some (Returns false, r).

(** From the call to its return or its first wait. *)
Definition Reserve (which : LimitableResource) (value timeout tick : Z) (r : KResourceLimit)
    : option (Outcome * KResourceLimit) :=
  check (0 <=? value);;
  check (hint r which <=? current r which);;
  if limit r which <=? hint r which then Some (Returns false, r)
  else Reserve_pass which value timeout tick r.

(** [m_cond_var.Wait] returned, on a broadcast or at the timeout. *)
Definition Reserve_wake (which : LimitableResource) (value timeout tick : Z) (r : KResourceLimit)
    : option (Outcome * KResourceLimit) :=
  Reserve_pass which value timeout tick (with_waiters (s32 (m_waiter_count r - 1)) r).

Definition DefaultTimeout : Z := 10000000000.
Definition Reserve_default (which : LimitableResource) (value tick tick' : Z) (r : KResourceLimit)
    : option (Outcome * KResourceLimit) :=
  timeout ← s64_checked (tick + DefaultTimeout);
  Reserve which value timeout tick' r.

(** ** Release; the last component says whether the waiters are woken. *)
Definition Release (which : LimitableResource) (value hint_ : Z) (r : KResourceLimit)
    : option (KResourceLimit * bool) :=
  check (0 <=? value);;
  check (0 <=? hint_);;
  check (current r which <=? limit r which);;
  check (hint r which <=? current r which);;
  check (value <=? current r which);;
  check (hint_ <=? hint r which);;
  Some ({| m_limit_values := m_limit_values r;
           m_current_values := <[index which := current r which - value]> (m_current_values r);
           m_current_hints := <[index which := hint r which - hint_]> (m_current_hints r);
           m_peak_values := m_peak_values r; m_waiter_count := m_waiter_count r |},
        negb (m_waiter_count r =? 0)).

Definition Release_value (which : LimitableResource) (value : Z) (r : KResourceLimit)
    : option (KResourceLimit * bool) := Release which value value r.

(** ** CreateResourceLimitForProcess *)
Definition set_limit_or_fail (which : LimitableResource) (value : Z) (r : KResourceLimit)
    : option KResourceLimit :=
  let '(result, r) := SetLimitValue which value r in
  check (Result.IsSuccess result);;
  Some r.

Definition CreateResourceLimitForProcess (physical_memory_size : Z) : option KResourceLimit :=
  r ← set_limit_or_fail PhysicalMemoryMax physical_memory_size new_KResourceLimit;
  r ← set_limit_or_fail ThreadCountMax 800 r;
  r ← set_limit_or_fail EventCountMax 900 r;
  r ← set_limit_or_fail TransferMemoryCountMax 200 r;
  set_limit_or_fail SessionCountMax 1133 r.

(** * The concurrent system *)

(** A limit with the threads inside [Reserve] and, for each resource, the total that the
    completed calls granted, and what they gave back of the values and of the hints. *)
Record System := {
  the_limit : KResourceLimit;
  waiting : gmap Z (LimitableResource * Z * Z);
  granted : LimitableResource → Z;
  released : LimitableResource → Z;
  hinted : LimitableResource → Z;
}.

Definition add_at (f : LimitableResource → Z) (which : LimitableResource) (value : Z)
    : LimitableResource → Z :=
  λ w, if decide (w = which) then f w + value else f w.

(** What the end of a pass of thread [tid] does to the system. *)
Definition settle (tid : Z) (which : LimitableResource) (value timeout : Z) (o : Outcome)
    (r : KResourceLimit) (s : System) : System :=
  match o with
  | Returns true =>
      {| the_limit := r; waiting := delete tid (waiting s);
         granted := add_at (granted s) which value; released := released s;
         hinted := hinted s |}
  | Returns false =>
      {| the_limit := r; waiting := delete tid (waiting s); granted := granted s;
         released := released s; hinted := hinted s |}
  | Waits =>
      {| the_limit := r; waiting := <[tid := (which, value, timeout)]> (waiting s);
         granted := granted s; released := released s; hinted := hinted s |}
  end.

(** The callers' part of a release, which [Release] does not check as a whole: no more is given
    back than was granted, and the hint of what was reserved is given back with its value or
    before it, as the thread (k_thread.cpp:1190 before :330) and the process
    (k_process.cpp:505 before :181) do. *)
Definition may_release (s : System) (which : LimitableResource) (value hint_ : Z) : Prop :=
  0 ≤ value ∧ 0 ≤ hint_
  ∧ released s which + value ≤ hinted s which + hint_ ∧ hinted s which + hint_ ≤ granted s which.

(** A wait may end for any reason. *)
Inductive step : System → System → Prop :=
  | step_reserve s tid which value timeout tick o r :
      waiting s !! tid = None → value < 2 ^ 63 →
      Reserve which value timeout tick (the_limit s) = Some (o, r) →
      step s (settle tid which value timeout o r s)
  | step_wake s tid which value timeout tick o r :
      waiting s !! tid = Some (which, value, timeout) →
      Reserve_wake which value timeout tick (the_limit s) = Some (o, r) →
      step s (settle tid which value timeout o r s)
  | step_release s which value hint_ r wake :
      may_release s which value hint_ →
      Release which value hint_ (the_limit s) = Some (r, wake) →
      step s {| the_limit := r; waiting := waiting s; granted := granted s;
                released := add_at (released s) which value;
                hinted := add_at (hinted s) which hint_ |}
  | step_set_limit s which value result r :
      value < 2 ^ 63 → SetLimitValue which value (the_limit s) = (result, r) →
      step s {| the_limit := r; waiting := waiting s; granted := granted s;
                released := released s; hinted := hinted s |}.

Inductive reachable : System → Prop :=
  | reachable_init :
      reachable {| the_limit := new_KResourceLimit; waiting := ∅; granted := λ _, 0;
                   released := λ _, 0; hinted := λ _, 0 |}
  | reachable_step s s' : reachable s → step s s' → reachable s'.

(** * The invariant *)
Record limit_ok (r : KResourceLimit) : Prop := {
  ok_length : length (m_limit_values r) = Count ∧ length (m_current_values r) = Count
              ∧ length (m_current_hints r) = Count ∧ length (m_peak_values r) = Count;
  ok_values which :
    0 ≤ hint r which ≤ current r which ∧ current r which ≤ peak r which ≤ limit r which
    ∧ limit r which < 2 ^ 63;
}.

Lemma index_lt which : (index which < Count)%nat.
Proof. destruct which; unfold Count; simpl; lia. Qed.

Lemma index_inj a b : index a = index b → a = b.
Proof. by destruct a, b. Qed.

Lemma nth_insert (l : list Z) a b x :
  length l = Count →
  nth (index a) (<[index b := x]> l) 0 = if decide (a = b) then x else nth (index a) l 0.
Proof.
  intros Hl. pose proof (index_lt b). rewrite !nth_lookup.
  destruct (decide (a = b)) as [->|Hne].
  - by rewrite list_lookup_insert_eq by lia.
  - rewrite list_lookup_insert_ne; [done|]. by intros ?%index_inj.
Qed.

(** [ok] of the values a change at one resource leaves behind. *)
Ltac limit_values :=
  unfold grant, with_waiters, limit, current, hint, peak in *; simpl in *;
  rewrite ?nth_insert by (rewrite ?length_insert; done).

Lemma with_waiters_ok n r : limit_ok r → limit_ok (with_waiters n r).
Proof. intros [Hl Hv]. by constructor. Qed.

Lemma SetLimitValue_ok which value r result r' :
  limit_ok r → value < 2 ^ 63 → SetLimitValue which value r = (result, r') → limit_ok r'.
Proof.
  intros Hok Hv E. unfold SetLimitValue in E. pose proof Hok as [Hl Hvals].
  destruct (Z.leb_spec (current r which) value); simpl in E; injection E as <- <-; [|done].
  destruct Hl as (H1 & H2 & H3 & H4).
  constructor; [simpl; rewrite !length_insert; done|]. intros w.
  pose proof (Hvals w) as Hw. pose proof (Hvals which) as Hw'. limit_values.
  destruct (decide (w = which)) as [->|]; lia.
Qed.

Lemma Reserve_pass_spec which value timeout tick r :
  limit_ok r → 0 ≤ value < 2 ^ 63 →
  Reserve_pass which value timeout tick r
  = Some (
      if decide (value = 0 ∨ 2 ^ 63 ≤ current r which + value) then (Returns false, r)
      else if decide (current r which + value ≤ limit r which) then
        (Returns true, grant which (current r which + value) (hint r which + value) r)
      else if decide (hint r which + value ≤ limit r which ∧ (timeout < 0 ∨ tick < timeout)) then
        (Waits, with_waiters (s32 (m_waiter_count r + 1)) r)
      else (Returns false, r)).
Proof.
  intros Hok Hv. destruct (ok_values _ Hok which) as ([H0 H1] & [H2 H3] & H4).
  unfold Reserve_pass.
  rewrite (proj2 (Z.leb_le (current r which) (limit r which))) by lia.
  rewrite (proj2 (Z.leb_le (hint r which) (current r which))) by lia. cbn [check mbind option_bind].
  pose proof (WrappingAdd_overflow (current r which) value ltac:(lia) ltac:(lia)) as HW.
  destruct (Z.leb_spec (WrappingAdd (current r which) value) (current r which)) as [Hle|Hgt].
  { by rewrite decide_True by tauto. }
  rewrite decide_False by (intros ?%HW; lia).
  assert (value ≠ 0 ∧ current r which + value < 2 ^ 63) as [Hnz Hfit].
  { destruct (decide (value = 0)), (Z.lt_ge_cases (current r which + value) (2 ^ 63));
      try done; exfalso;
      assert (WrappingAdd (current r which) value ≤ current r which) by tauto; lia. }
  assert (∀ x, 0 ≤ x < 2 ^ 63 → s64_checked x = Some x) as Hs.
  { intros x Hx. unfold s64_checked.
    by rewrite (proj2 (Z.leb_le _ _)), (proj2 (Z.ltb_lt _ _)) by lia. }
  rewrite (Hs (current r which + value)), (Hs (hint r which + value)) by lia. cbn [mbind option_bind].
  destruct (Z.leb_spec (current r which + value) (limit r which)).
  { by rewrite decide_True by done. }
  rewrite decide_False by lia.
  destruct (Z.leb_spec (hint r which + value) (limit r which)),
    (Z.ltb_spec timeout 0), (Z.ltb_spec tick timeout); simpl;
    first [rewrite decide_True by lia; done | rewrite decide_False by lia; done].
Qed.

Lemma grant_ok which value r :
  limit_ok r → 0 ≤ value → current r which + value ≤ limit r which →
  limit_ok (grant which (current r which + value) (hint r which + value) r).
Proof.
  intros Hok Hv Hle. pose proof Hok as [(H1 & H2 & H3 & H4) Hvals].
  constructor; [simpl; rewrite !length_insert; done|]. intros w.
  pose proof (Hvals w) as Hw. pose proof (Hvals which) as Hw'. limit_values.
  destruct (decide (w = which)) as [->|]; lia.
Qed.

Lemma Release_ok which value hint_ r r' wake :
  limit_ok r → Release which value hint_ r = Some (r', wake) →
  hint r which - hint_ ≤ current r which - value → limit_ok r'.
Proof.
  intros Hok E Hh. unfold Release in E. destruct Hok as [(H1 & H2 & H3 & H4) Hvals].
  repeat apply check_bind_inv in E as [?%Z.leb_le E]. injection E as <- <-.
  constructor; [simpl; rewrite !length_insert; done|]. intros w.
  pose proof (Hvals w) as Hw. pose proof (Hvals which) as Hw'. limit_values.
  destruct (decide (w = which)) as [->|]; lia.
Qed.

(** * Properties *)
Lemma add_at_eq f which v : add_at f which v which = f which + v.
Proof. unfold add_at. by rewrite decide_True. Qed.

Lemma current_with_waiters n r w : current (with_waiters n r) w = current r w.
Proof. done. Qed.

Lemma current_grant r which value w :
  length (m_current_values r) = Count →
  current (grant which (current r which + value) (hint r which + value) r) w
  = current r w + (if decide (w = which) then value else 0).
Proof.
  intros. unfold grant, current; simpl. rewrite nth_insert by done.
  case_decide; subst; lia.
Qed.

Lemma hint_grant r which value w :
  length (m_current_hints r) = Count →
  hint (grant which (current r which + value) (hint r which + value) r) w
  = hint r w + (if decide (w = which) then value else 0).
Proof.
  intros. unfold grant, hint; simpl. rewrite nth_insert by done.
  case_decide; subst; lia.
Qed.

(** What a reachable system satisfies. *)
Record system_ok (s : System) : Prop := {
  sys_limit : limit_ok (the_limit s);
  sys_hints which : hint (the_limit s) which = granted s which - hinted s which;
  sys_account which : current (the_limit s) which = granted s which - released s which;
  sys_waiters : m_waiter_count (the_limit s) = s32 (Z.of_nat (size (waiting s)));
  sys_waiting : map_Forall (λ _ '(_, value, _), 0 ≤ value < 2 ^ 63) (waiting s);
}.

Lemma s32_add a b : s32 (s32 a + b) = s32 (a + b).
Proof.
  unfold swrap. f_equal.
  replace ((a + 2 ^ (32 - 1)) mod 2 ^ 32 - 2 ^ (32 - 1) + b + 2 ^ (32 - 1))
    with ((a + 2 ^ (32 - 1)) mod 2 ^ 32 + b) by lia.
  rewrite Zplus_mod_idemp_l. f_equal. lia.
Qed.

(** A pass keeps the limit's invariant and changes no counter on [Returns false]. *)
Lemma Reserve_pass_ok which value timeout tick r o r' :
  limit_ok r → 0 ≤ value < 2 ^ 63 →
  Reserve_pass which value timeout tick r = Some (o, r') →
  limit_ok r'
  ∧ (∀ w, current r' w = current r w + (if decide (o = Returns true ∧ w = which) then value else 0)
        ∧ hint r' w = hint r w + (if decide (o = Returns true ∧ w = which) then value else 0))
  ∧ m_waiter_count r' = match o with Waits => s32 (m_waiter_count r + 1) | _ => m_waiter_count r end.
Proof.
  intros Hok Hv E. rewrite Reserve_pass_spec in E by done.
  assert (∀ o w x, o ≠ Returns true → x = x + (if decide (o = Returns true ∧ w = which) then value else 0)) as Hsame.
  { intros o1 w x Ho. rewrite decide_False by (by intros [? _]). lia. }
  destruct (decide (value = 0 ∨ _)); [injection E as <- <-; split_and!; [done| |done]; intros w; split; by apply Hsame|].
  destruct (decide (current r which + value ≤ _)).
  - injection E as <- <-. split_and!; [by apply grant_ok; [|lia|]| |done].
    intros w. rewrite current_grant, hint_grant by apply Hok. split; f_equal; by repeat case_decide; naive_solver.
  - destruct (decide (_ ∧ _)); injection E as <- <-; (split_and!; [by try apply with_waiters_ok| |done]); intros w;
      split; by apply Hsame.
Qed.

Lemma Reserve_pass_total which value timeout tick r :
  limit_ok r → 0 ≤ value < 2 ^ 63 → is_Some (Reserve_pass which value timeout tick r).
Proof. intros. rewrite Reserve_pass_spec by done. by eexists. Qed.

Lemma Reserve_unfold which value timeout tick r :
  limit_ok r → 0 ≤ value →
  Reserve which value timeout tick r
  = if decide (limit r which ≤ hint r which) then Some (Returns false, r)
    else Reserve_pass which value timeout tick r.
Proof.
  intros Hok Hv. pose proof (ok_values _ Hok which). unfold Reserve.
  rewrite !(proj2 (Z.leb_le 0 value)), (proj2 (Z.leb_le (hint r which) (current r which))) by lia.
  cbn [check mbind option_bind].
  destruct (Z.leb_spec (limit r which) (hint r which)); [by rewrite decide_True|by rewrite decide_False by lia].
Qed.

Lemma settle_ok tid which value timeout tick o r r' s :
  limit_ok r → 0 ≤ value < 2 ^ 63 →
  (∀ w, current r w = granted s w - released s w ∧ hint r w = granted s w - hinted s w) →
  m_waiter_count r = s32 (Z.of_nat (size (delete tid (waiting s)))) →
  map_Forall (λ _ '(_, value, _), 0 ≤ value < 2 ^ 63) (waiting s) →
  Reserve_pass which value timeout tick r = Some (o, r') →
  system_ok (settle tid which value timeout o r' s).
Proof.
  intros Hok Hv Hacc Hw Hwait E.
  destruct (Reserve_pass_ok which value timeout tick r o r') as (Hok' & Hcur & Hcount); [done..|].
  assert (map_Forall (λ _ '(_, value, _), 0 ≤ value < 2 ^ 63) (delete tid (waiting s))) as Hdel
    by (by apply map_Forall_delete).
  assert (∀ w, current r' w = granted (settle tid which value timeout o r' s) w - released (settle tid which value timeout o r' s) w
    ∧ hint r' w = granted (settle tid which value timeout o r' s) w - hinted (settle tid which value timeout o r' s) w) as Hnew.
  { intros w. destruct (Hcur w) as [-> ->]. destruct (Hacc w) as [-> ->].
    destruct o as [[]|]; cbn [settle granted released hinted]; unfold add_at;
      [destruct (decide (w = which)); [rewrite decide_True by done|rewrite decide_False by naive_solver]; lia|
       rewrite decide_False by naive_solver; lia..]. }
  split; [by destruct o as [[]|]|intros w; destruct o as [[]|]; apply Hnew|intros w; destruct o as [[]|]; apply Hnew| |].
  - destruct o as [[]|]; cbn [settle the_limit waiting]; [by rewrite Hcount..|].
    rewrite Hcount, Hw, s32_add, <-(insert_delete_eq (waiting s) tid).
    rewrite map_size_insert_None by apply lookup_delete_eq. f_equal. lia.
  - destruct o as [[]|]; [done..|]. by apply map_Forall_insert_2.
Qed.

Lemma settle_false tid which value timeout s :
  waiting s !! tid = None → settle tid which value timeout (Returns false) (the_limit s) s = s.
Proof. intros. destruct s; simpl in *. by rewrite delete_id. Qed.

Lemma step_ok s s' : system_ok s → step s s' → system_ok s'.
Proof.
  intros [Hok Hhint Hacc Hw Hwait] Hstep.
  destruct Hstep as [s tid which value timeout tick o r Htid Hv E|s tid which value timeout tick o r Htid E
    |s which value hint_ r wake Hh E|s which value result r Hv E].
  - assert (0 ≤ value) as Hv0 by (unfold Reserve in E; by apply check_bind_inv in E as [?%Z.leb_le _]).
    rewrite Reserve_unfold in E by done. destruct (decide _).
    + injection E as <- <-. rewrite settle_false by done. by constructor.
    + by apply (settle_ok tid which value timeout tick o (the_limit s)); rewrite ?delete_id.
  - pose proof (map_Forall_lookup_1 _ _ _ _ Hwait Htid) as Hv. simpl in Hv.
    apply (settle_ok tid which value timeout tick o
             (with_waiters (s32 (m_waiter_count (the_limit s) - 1)) (the_limit s))); try done.
    + by apply with_waiters_ok.
    + intros w. split; [apply Hacc|apply Hhint].
    + simpl. rewrite Hw, <-Z.add_opp_r, s32_add. f_equal.
      rewrite map_size_delete_Some by done.
      assert (size (waiting s) ≠ 0%nat) by (intros E0%map_size_empty_inv; by rewrite E0, lookup_empty in Htid).
      lia.
  - destruct Hh as (_ & _ & Hh & _). pose proof (Hacc which) as Hcw. pose proof (Hhint which) as Hhw.
    pose proof (Release_ok _ _ _ _ _ _ Hok E ltac:(lia)) as Hok'. unfold Release in E.
    repeat apply check_bind_inv in E as [_ E]. injection E as <- <-.
    constructor; simpl; try done; intros w; unfold add_at; [unfold hint|unfold current]; simpl;
      rewrite nth_insert by apply Hok; pose proof (Hacc w); pose proof (Hhint w);
      unfold current, hint in *; case_decide; subst; lia.
  - pose proof (SetLimitValue_ok _ _ _ _ _ Hok Hv E) as Hok'. unfold SetLimitValue in E.
    destruct (negb _); injection E as <- <-; (constructor; [exact Hok'|exact Hhint|exact Hacc|exact Hw|exact Hwait]).
Qed.

Lemma limit_ok_new : limit_ok new_KResourceLimit.
Proof.
  constructor; [done|]. intros []; unfold limit, current, hint, peak; simpl; lia.
Qed.

Lemma reachable_ok s : reachable s → system_ok s.
Proof.
  induction 1 as [|s s' _ IH Hstep]; [|by eapply step_ok].
  constructor; simpl; [apply limit_ok_new|by intros []|by intros []|done|]. apply map_Forall_empty.
Qed.

(** The getters' assertions hold under the invariant. *)
Lemma getters_total r which :
  limit_ok r →
  GetLimitValue r which = Some (limit r which)
  ∧ GetCurrentValue r which = Some (current r which)
  ∧ GetPeakValue r which = Some (peak r which)
  ∧ GetFreeValue r which = Some (limit r which - current r which).
Proof.
  intros Hok. pose proof (ok_values _ Hok which) as ([? ?] & [? ?] & ?).
  unfold GetLimitValue, GetCurrentValue, GetPeakValue, GetFreeValue, assert_ordered, s64_checked.
  rewrite !(proj2 (Z.leb_le _ _)) by lia. rewrite (proj2 (Z.ltb_lt _ _)) by lia. done.
Qed.

(** C37: in every state reached by any interleaving of reservations (waiting and woken),
    limit changes and releases of callers that give back no more than they were granted, and
    the hint of a reservation no later than its value, every resource satisfies
    [0 <= hint <= current <= peak <= limit], the current value is what was granted less what
    was released and the hint likewise, the waiter count is the number of waiting threads, and
    no assertion fails: each of the four getters answers with its value, every reservation, new
    or woken, completes its pass, and so does every such release. The code does not check
    that the hint goes first: it is the callers' contract. *)
Theorem resource_limit_invariant s which :
  reachable s →
  (0 ≤ hint (the_limit s) which ≤ current (the_limit s) which
   ∧ current (the_limit s) which ≤ peak (the_limit s) which ≤ limit (the_limit s) which)
  ∧ current (the_limit s) which = granted s which - released s which
  ∧ hint (the_limit s) which = granted s which - hinted s which
  ∧ m_waiter_count (the_limit s) = s32 (Z.of_nat (size (waiting s)))
  ∧ GetLimitValue (the_limit s) which = Some (limit (the_limit s) which)
  ∧ GetCurrentValue (the_limit s) which = Some (current (the_limit s) which)
  ∧ GetPeakValue (the_limit s) which = Some (peak (the_limit s) which)
  ∧ GetFreeValue (the_limit s) which = Some (limit (the_limit s) which - current (the_limit s) which)
  ∧ (∀ value timeout tick, 0 ≤ value < 2 ^ 63 →
       is_Some (Reserve which value timeout tick (the_limit s)))
  ∧ (∀ tid value timeout tick, waiting s !! tid = Some (which, value, timeout) →
       is_Some (Reserve_wake which value timeout tick (the_limit s)))
  ∧ (∀ value hint_, may_release s which value hint_ → is_Some (Release which value hint_ (the_limit s))).
Proof.
  intros Hr. destruct (reachable_ok s Hr) as [Hok Hhint Hacc Hw Hwait].
  pose proof (ok_values _ Hok which) as (? & ? & _). destruct (getters_total _ which Hok) as (? & ? & ? & ?).
  split_and!; try done; try lia.
  - intros value timeout tick Hv. rewrite Reserve_unfold by (done || lia).
    case_decide; [by eexists|]. by apply Reserve_pass_total.
  - intros tid value timeout tick Htid. apply Reserve_pass_total; [by apply with_waiters_ok|].
    by apply (map_Forall_lookup_1 _ _ _ _ Hwait Htid).
  - intros value hint_ (? & ? & ? & ?). specialize (Hacc which). specialize (Hhint which).
    unfold Release. rewrite !(proj2 (Z.leb_le _ _)) by lia. by eexists.
Qed.

(** A release outside of the contract passes the assertions and leaves a hint above its value: the
    next reservation then finds its assertion false. *)
Example late_hint :
  ('(_, r) ← Reserve ThreadCountMax 1 (-1) 0 (default new_KResourceLimit (CreateResourceLimitForProcess 0x10000));
  '(r, _) ← Release ThreadCountMax 1 0 r;
  Some (current r ThreadCountMax, hint r ThreadCountMax, Reserve ThreadCountMax 1 (-1) 0 r))
  = Some (0, 1, None).
Proof. reflexivity. Qed.

(** What [Reserve] answers. It grants exactly the positive amounts that fit under the
    limit, adding the amount to the current value and the hint of that resource and to no
    other; it waits exactly when the amount does not fit but would fit beside the hint and
    the timeout has not passed; otherwise (in particular for an amount of zero) it refuses
    and changes nothing. *)
Theorem Reserve_correct which value timeout tick r :
  limit_ok r → 0 ≤ value < 2 ^ 63 →
  let fits := 0 < value ∧ current r which + value ≤ limit r which in
  let may_wait := ¬ fits ∧ 0 < value ∧ current r which + value < 2 ^ 63
                  ∧ hint r which + value ≤ limit r which ∧ (timeout < 0 ∨ tick < timeout) in
  ∃ o r', Reserve which value timeout tick r = Some (o, r') ∧ limit_ok r'
    ∧ match o with
      | Returns true => fits
          ∧ ∀ w, current r' w = current r w + (if decide (w = which) then value else 0)
                 ∧ hint r' w = hint r w + (if decide (w = which) then value else 0)
                 ∧ limit r' w = limit r w
      | Waits => may_wait ∧ r' = with_waiters (s32 (m_waiter_count r + 1)) r
      | Returns false => ¬ fits ∧ ¬ may_wait ∧ r' = r
      end.
Proof.
  intros Hok Hv fits may_wait. pose proof (ok_values _ Hok which) as (? & ? & ?).
  rewrite Reserve_unfold by (done || lia). subst fits may_wait.
  destruct (decide (limit r which ≤ hint r which)).
  { do 2 eexists. split; [done|]. split_and!; [done|lia|lia|done]. }
  rewrite Reserve_pass_spec by done.
  destruct (decide (value = 0 ∨ _)).
  { do 2 eexists. split; [done|]. split_and!; [done|lia|lia|done]. }
  destruct (decide (current r which + value ≤ _)).
  - do 2 eexists. split; [done|]. split_and!; [by apply grant_ok; [|lia|]|lia|lia|].
    intros w. pose proof Hok as [(H2 & H3 & H4 & H5) _]. rewrite current_grant by done.
    split_and!; [done| |done]. unfold grant, hint; simpl. rewrite nth_insert by done.
    case_decide; subst; lia.
  - destruct (decide (_ ∧ _)); do 2 eexists; (split; [done|]).
    + split_and!; try done; try lia. by apply with_waiters_ok.
    + split_and!; try done; lia.
Qed.

(** a granted reservation is undone by releasing it: the current value and the hint come
    back and only the peak remembers it. If threads wait the release wakes them, and a
    woken thread whose amount now fits is granted it, whatever its timeout. *)
Theorem Release_correct which value timeout tick r r1 :
  limit_ok r → 0 ≤ value < 2 ^ 63 →
  Reserve which value timeout tick r = Some (Returns true, r1) →
  ∃ r2, Release_value which value r1 = Some (r2, negb (m_waiter_count r =? 0))
    ∧ limit_ok r2
    ∧ (∀ w, current r2 w = current r w ∧ hint r2 w = hint r w ∧ limit r2 w = limit r w
            ∧ peak r2 w = if decide (w = which) then Z.max (peak r w) (current r w + value)
                          else peak r w)
    ∧ ∀ value' timeout' tick', 0 < value' < 2 ^ 63 →
        current r which + value' ≤ limit r which →
        ∃ r3, Reserve_wake which value' timeout' tick' r2 = Some (Returns true, r3)
              ∧ current r3 which = current r which + value'.
Proof.
  intros Hok Hv E. pose proof (ok_values _ Hok which) as (? & ? & ?).
  rewrite Reserve_unfold in E by (done || lia). destruct (decide _); [done|].
  rewrite Reserve_pass_spec in E by done. destruct (decide (value = 0 ∨ _)); [done|].
  destruct (decide (current r which + value ≤ _)) as [Hfit|]; [|by destruct (decide (_ ∧ _))].
  injection E as <-. pose proof Hok as [(HA & HB & HC & HD) _].
  set (r1 := grant _ _ _ _).
  assert (limit_ok r1) as Hok1 by (by apply grant_ok; [|lia|]).
  assert (current r1 which = current r which + value ∧ hint r1 which = hint r which + value) as [Hc1 Hh1].
  { unfold r1, grant, current, hint; simpl. rewrite !nth_insert by done.
    by rewrite !decide_True by done. }
  assert (limit r1 which = limit r which) as Hl1 by done.
  eexists. split.
  { unfold Release_value, Release. rewrite !(proj2 (Z.leb_le _ _)) by lia.
    cbn [check mbind option_bind]. rewrite Hc1, Hh1.
    replace (current r which + value - value) with (current r which) by lia.
    replace (hint r which + value - value) with (hint r which) by lia. reflexivity. }
  set (r2 := {| m_limit_values := _ |}).
  assert (∀ w, current r2 w = current r w ∧ hint r2 w = hint r w ∧ limit r2 w = limit r w
            ∧ peak r2 w = if decide (w = which) then Z.max (peak r w) (current r w + value)
                          else peak r w) as Hvals.
  { intros w. unfold r2, r1, grant, current, hint, limit, peak; simpl.
    rewrite !nth_insert by (rewrite ?length_insert; done).
    destruct (decide (w = which)) as [->|]; split_and!; done. }
  assert (limit_ok r2) as Hok2.
  { constructor; [simpl; by rewrite !length_insert|]. intros w. destruct (Hvals w) as (-> & -> & -> & ->).
    pose proof (ok_values _ Hok w). destruct (decide (w = which)) as [->|]; lia. }
  split_and!; [done|done|]. intros value' timeout' tick' Hv' Hfit'.
  destruct (Hvals which) as (Hc2 & Hh2 & Hl2 & _). unfold Reserve_wake.
  rewrite Reserve_pass_spec by (by apply with_waiters_ok || lia).
  rewrite decide_False by (rewrite current_with_waiters; lia).
  rewrite decide_True by (rewrite current_with_waiters, Hc2; exact (eq_ind_r _ Hfit' Hl2)).
  eexists. split; [reflexivity|]. rewrite current_grant by apply Hok2.
  rewrite decide_True, current_with_waiters by done. lia.
Qed.

(** The limit of a new process: for any memory size that a process can have the five
    limits are the ones asked for, nothing is in use and the invariant holds; the
    assertions on [SetLimitValue]'s result fail only on a negative size. *)
Theorem CreateResourceLimitForProcess_correct physical_memory_size :
  - 2 ^ 63 ≤ physical_memory_size < 2 ^ 63 →
  if physical_memory_size <? 0 then CreateResourceLimitForProcess physical_memory_size = None
  else ∃ r, CreateResourceLimitForProcess physical_memory_size = Some r ∧ limit_ok r
    ∧ map (limit r) [PhysicalMemoryMax; ThreadCountMax; EventCountMax; TransferMemoryCountMax;
                     SessionCountMax] = [physical_memory_size; 800; 900; 200; 1133]
    ∧ ∀ which, current r which = 0.
Proof.
  intros Hs.
  assert (set_limit_or_fail PhysicalMemoryMax physical_memory_size new_KResourceLimit
          = if physical_memory_size <? 0 then None
            else Some {| m_limit_values := [physical_memory_size; 0; 0; 0; 0];
                         m_current_values := replicate Count 0;
                         m_current_hints := replicate Count 0;
                         m_peak_values := replicate Count 0; m_waiter_count := 0 |}) as E.
  { unfold set_limit_or_fail, SetLimitValue.
    change (current new_KResourceLimit PhysicalMemoryMax) with 0.
    destruct (Z.ltb_spec physical_memory_size 0).
    - by rewrite (proj2 (Z.leb_gt _ _)) by lia.
    - by rewrite (proj2 (Z.leb_le _ _)) by lia. }
  unfold CreateResourceLimitForProcess. rewrite E.
  destruct (Z.ltb_spec physical_memory_size 0); [done|].
  eexists. split; [reflexivity|]. split_and!.
  - constructor; [done|]. intros []; unfold limit, current, hint, peak; simpl; lia.
  - reflexivity.
  - by intros [].
Qed.

(** * Witnesses *)
Definition ex_limit : KResourceLimit :=
  default new_KResourceLimit (CreateResourceLimitForProcess 0x10000).

Lemma ex_limit_ok : limit_ok ex_limit.
Proof. constructor; [done|]. intros []; vm_compute; intuition congruence. Qed.

Lemma CreateResourceLimitForProcess_correct_witness :
  (∃ r, CreateResourceLimitForProcess 0x10000 = Some r ∧ limit_ok r)
  ∧ CreateResourceLimitForProcess (-1) = None.
Proof.
  split.
  - destruct (CreateResourceLimitForProcess_correct 0x10000 ltac:(lia)) as (r & E & Hok & _).
    exists r. split; [exact E|exact Hok].
  - exact (CreateResourceLimitForProcess_correct (-1) ltac:(lia)).
Defined.

Lemma Reserve_correct_witness :
  (∃ r', Reserve ThreadCountMax 800 (-1) 0 ex_limit = Some (Returns true, r'))
  ∧ Reserve ThreadCountMax 0 (-1) 0 ex_limit = Some (Returns false, ex_limit).
Proof.
  split.
  - destruct (Reserve_correct ThreadCountMax 800 (-1) 0 ex_limit ex_limit_ok ltac:(lia))
      as (o & r' & E & _ & Ho). exists r'. rewrite E. do 2 f_equal.
    destruct o as [[]|]; [reflexivity|destruct Ho as [[] _]; vm_compute; split; congruence|].
    destruct Ho as [([] & _) _]; vm_compute; split; congruence.
  - destruct (Reserve_correct ThreadCountMax 0 (-1) 0 ex_limit ex_limit_ok ltac:(lia))
      as (o & r' & E & _ & Ho). rewrite E.
    destruct o as [[]|]; [destruct Ho as [[] _]; lia|by destruct Ho as (_ & _ & ->)|].
    destruct Ho as [(_ & ? & _) _]; lia.
Defined.

Lemma Release_correct_witness :
  ∃ r1 r2 r3, Reserve ThreadCountMax 800 (-1) 0 ex_limit = Some (Returns true, r1)
    ∧ Release_value ThreadCountMax 800 r1 = Some (r2, false)
    ∧ Reserve_wake ThreadCountMax 3 5 10 r2 = Some (Returns true, r3).
Proof.
  eexists. destruct (Release_correct ThreadCountMax 800 (-1) 0 ex_limit _ ex_limit_ok ltac:(lia) eq_refl)
    as (r2 & E & _ & _ & Hw).
  destruct (Hw 3 5 10 ltac:(lia) ltac:(vm_compute; discriminate)) as (r3 & E3 & _).
  exists r2, r3. split_and!; [reflexivity|exact E|exact E3].
Defined.

(** A thread that waits for its event while another holds the only one and has given back the
    hint of it. *)
Lemma resource_limit_invariant_witness :
  ∃ s, reachable s ∧ waiting s !! 2 = Some (EventCountMax, 1, 100)
    ∧ m_waiter_count (the_limit s) = s32 (Z.of_nat (size (waiting s)))
    ∧ is_Some (Reserve_wake EventCountMax 1 100 200 (the_limit s))
    ∧ is_Some (Release EventCountMax 1 0 (the_limit s)).
Proof.
  pose proof reachable_init as R0.
  eapply reachable_step in R0; [|eapply (step_set_limit _ EventCountMax 1); [lia|reflexivity]].
  eapply reachable_step in R0; [|eapply (step_reserve _ 1 EventCountMax 1 100 0); [reflexivity|lia|reflexivity]].
  eapply reachable_step in R0;
    [|eapply (step_release _ EventCountMax 0 1); [vm_compute; repeat split; discriminate|reflexivity]].
  eapply reachable_step in R0; [|eapply (step_reserve _ 2 EventCountMax 1 100 0); [reflexivity|lia|reflexivity]].
  eexists. destruct (resource_limit_invariant _ EventCountMax R0) as (_ & _ & _ & Hw & _ & _ & _ & _ & _ & Hwake & Hrel).
  split_and!; [exact R0|reflexivity|exact Hw|by apply (Hwake 2)|].
  apply Hrel. vm_compute. repeat split; discriminate.
Defined.
