(* ===== verification/MemoryRegion.v ===== *)
(** The regions of the kernel's memory layout: the type ids of
    src/src/core/hle/kernel/k_memory_region_type.h (for the regions the memory manager reads),
    the regions and region trees of k_memory_region.h, and the insertion of k_memory_layout.cpp.
    A tree is its in-order list, the region allocator a count of the regions handed out. *)
From S2P Require Import Prelude Common.

(** * Type ids *)
Definition KMemoryRegionAttr_CarveoutProtected : Z := 0x02000000.
Definition KMemoryRegionAttr_NoUserMap : Z := 0x40000000.
Definition KMemoryRegionAttr_LinearMapped : Z := 0x80000000.

(** The pair [low], [high] after [n] steps of the loop in [BitsForDeriveDense] and [Derive]. *)
Fixpoint dense_pair (n : nat) (low high : Z) : Z * Z :=
  match n with
  | O => (low, high)
  | S n => if low + 1 =? high then dense_pair n 0 (high + 1) else dense_pair n (low + 1) high
  end.

Definition BitsForDeriveDense (n : nat) : Z := snd (dense_pair (n - 1) 0 1) + 1.

Record KMemoryRegionTypeValue := MkType { m_value : Z; m_next_bit : Z }.

Definition KMemoryRegionType_None : KMemoryRegionTypeValue := MkType 0 0.
Definition SetAttribute (t : KMemoryRegionTypeValue) (attr : Z) : KMemoryRegionTypeValue :=
  MkType (Z.lor (m_value t) attr) (m_next_bit t).
Definition DeriveInitial (i next : Z) : KMemoryRegionTypeValue := MkType (Z.shiftl 1 i) next.
Definition DeriveAttribute (t : KMemoryRegionTypeValue) (attr : Z) : KMemoryRegionTypeValue :=
  MkType (Z.lor (m_value t) attr) (m_next_bit t).
Definition DeriveSparse (t : KMemoryRegionTypeValue) (ofs n i : Z) : KMemoryRegionTypeValue :=
  MkType (Z.lor (Z.lor (m_value t) (Z.shiftl 1 (m_next_bit t + ofs)))
            (Z.shiftl 1 (m_next_bit t + ofs + 1 + i)))
    (m_next_bit t + (ofs + n + 1)).
Definition DeriveTransition (t : KMemoryRegionTypeValue) (ofs adv : Z) : KMemoryRegionTypeValue :=
  MkType (Z.lor (m_value t) (Z.shiftl 1 (m_next_bit t + ofs))) (m_next_bit t + adv).
Definition Advance (t : KMemoryRegionTypeValue) (n : Z) : KMemoryRegionTypeValue :=
  MkType (m_value t) (m_next_bit t + n).
Definition IsAncestorOf (t : KMemoryRegionTypeValue) (v : Z) : bool := Z.lor (m_value t) v =? v.
Definition Derive (t : KMemoryRegionTypeValue) (n i : nat) : KMemoryRegionTypeValue :=
  let (low, high) := dense_pair i 0 1 in
  MkType (Z.lor (Z.lor (m_value t) (Z.shiftl 1 (m_next_bit t + low)))
            (Z.shiftl 1 (m_next_bit t + high)))
    (m_next_bit t + BitsForDeriveDense n).

Definition KMemoryRegionType_Dram : KMemoryRegionTypeValue := DeriveInitial 1 2.
Definition KMemoryRegionType_DramHeapBase : KMemoryRegionTypeValue :=
  SetAttribute (DeriveSparse KMemoryRegionType_Dram 0 3 2) KMemoryRegionAttr_LinearMapped.
Definition KMemoryRegionType_DramPoolPartition : KMemoryRegionTypeValue :=
  DeriveAttribute KMemoryRegionType_DramHeapBase KMemoryRegionAttr_NoUserMap.
Definition KMemoryRegionType_DramPoolManagement : KMemoryRegionTypeValue :=
  SetAttribute (Derive KMemoryRegionType_DramPoolPartition 4 0) KMemoryRegionAttr_CarveoutProtected.
Definition KMemoryRegionType_DramUserPool : KMemoryRegionTypeValue :=
  Derive KMemoryRegionType_DramPoolPartition 4 3.
Definition KMemoryRegionType_DramApplicationPool : KMemoryRegionTypeValue :=
  Derive KMemoryRegionType_DramUserPool 4 0.
Definition KMemoryRegionType_DramAppletPool : KMemoryRegionTypeValue :=
  Derive KMemoryRegionType_DramUserPool 4 1.
Definition KMemoryRegionType_DramSystemNonSecurePool : KMemoryRegionTypeValue :=
  Derive KMemoryRegionType_DramUserPool 4 2.
Definition KMemoryRegionType_DramSystemPool : KMemoryRegionTypeValue :=
  SetAttribute (Derive KMemoryRegionType_DramUserPool 4 3) KMemoryRegionAttr_CarveoutProtected.

(** The static assertions of the source. *)
Example DramUserPool_value : m_value KMemoryRegionType_DramUserPool
  = Z.lor 0x266 (Z.lor KMemoryRegionAttr_LinearMapped KMemoryRegionAttr_NoUserMap).
Proof. reflexivity. Qed.
Example DramPoolManagement_value : m_value KMemoryRegionType_DramPoolManagement
  = Z.lor 0xE6 (Z.lor KMemoryRegionAttr_LinearMapped
      (Z.lor KMemoryRegionAttr_NoUserMap KMemoryRegionAttr_CarveoutProtected)).
Proof. reflexivity. Qed.
Example pool_values :
  map (λ t, Z.land (m_value t) 0xFFFF)
    [KMemoryRegionType_DramApplicationPool; KMemoryRegionType_DramAppletPool;
     KMemoryRegionType_DramSystemNonSecurePool; KMemoryRegionType_DramSystemPool]
  = [0xE66; 0x1666; 0x1A66; 0x2666].
Proof. reflexivity. Qed.

(** * Regions *)
Record KMemoryRegion := MkRegion {
  m_address : Z;
  m_last_address : Z;
  m_pair_address : Z;
  m_attributes : Z;
  m_type_id : Z
}.

Definition no_pair : Z := 2 ^ 64 - 1.
Definition KMemoryRegion_new (address last_address attributes type_id : Z) : KMemoryRegion :=
  MkRegion address last_address no_pair attributes type_id.

Definition GetAddress (r : KMemoryRegion) : Z := m_address r.
Definition GetLastAddress (r : KMemoryRegion) : Z := m_last_address r.
Definition GetEndAddress (r : KMemoryRegion) : Z := u64 (GetLastAddress r + 1).
Definition GetSize (r : KMemoryRegion) : Z := u64 (GetEndAddress r - GetAddress r).
Definition GetAttributes (r : KMemoryRegion) : Z := m_attributes r.
Definition GetType (r : KMemoryRegion) : Z := m_type_id r.
Definition Contains (r : KMemoryRegion) (addr : Z) : option bool :=
  check (negb (GetEndAddress r =? 0));;
  Some ((GetAddress r <=? addr) && (addr <=? GetLastAddress r)).
Definition IsDerivedFrom (r : KMemoryRegion) (type : Z) : bool :=
  Z.lor (GetType r) type =? GetType r.
Definition HasTypeAttribute (r : KMemoryRegion) (attr : Z) : bool :=
  Z.lor (GetType r) attr =? GetType r.
Definition CanDerive (r : KMemoryRegion) (type : Z) : bool := Z.lor (GetType r) type =? type.

Definition SetType (r : KMemoryRegion) (type : Z) : option KMemoryRegion :=
  check (CanDerive r type);;
  Some (MkRegion (m_address r) (m_last_address r) (m_pair_address r) (m_attributes r) type).
Definition SetPairAddress (r : KMemoryRegion) (a : Z) : KMemoryRegion :=
  MkRegion (m_address r) (m_last_address r) a (m_attributes r) (m_type_id r).
Definition SetTypeAttribute (r : KMemoryRegion) (attr : Z) : KMemoryRegion :=
  MkRegion (m_address r) (m_last_address r) (m_pair_address r) (m_attributes r)
    (Z.lor (m_type_id r) attr).

Definition Compare (lhs rhs : KMemoryRegion) : Z :=
  if GetAddress lhs <? GetAddress rhs then -1
  else if GetAddress lhs <=? GetLastAddress rhs then 0
  else 1.

(** * Region trees *)
Abbreviation region_tree := (list KMemoryRegion).

Definition MaxMemoryRegions : nat := 200.

(** [find] and [insert] search by [Compare]; inserting a region that compares equal to one of
    the tree is a failure. *)
Fixpoint tree_find (key : KMemoryRegion) (t : region_tree) : option nat :=
  match t with
  | [] => None
  | r :: t => if Compare key r =? 0 then Some 0%nat else S <$> tree_find key t
  end.
Fixpoint insert_region (r : KMemoryRegion) (t : region_tree) : option region_tree :=
  match t with
  | [] => Some [r]
  | x :: t' =>
      if Compare r x =? 0 then None
      else if Compare r x <? 0 then Some (r :: t)
      else t' ← insert_region r t'; Some (x :: t')
  end.

Definition Find_index (t : region_tree) (address : Z) : option nat :=
  tree_find (KMemoryRegion_new address address 0 0) t.
(** The outer [None] of a use of the result is the null dereference. *)
Definition Find (t : region_tree) (address : Z) : option KMemoryRegion :=
  i ← Find_index t address; t !! i.

Definition FindByType (t : region_tree) (type_id : Z) : option KMemoryRegion :=
  snd <$> list_find (λ r, GetType r = type_id) t.
Definition FindByTypeAndAttribute (t : region_tree) (type_id attr : Z) : option KMemoryRegion :=
  snd <$> list_find (λ r, GetType r = type_id ∧ GetAttributes r = attr) t.
Definition FindFirstDerived (t : region_tree) (type_id : Z) : option KMemoryRegion :=
  snd <$> list_find (λ r, IsDerivedFrom r type_id = true) t.
Definition FindLastDerived (t : region_tree) (type_id : Z) : option KMemoryRegion :=
  foldl (λ region r, if IsDerivedFrom r type_id then Some r else region) None t.
(** The first and the last region of the extents. *)
Definition GetDerivedRegionExtents (t : region_tree) (type_id : Z)
    : option (KMemoryRegion * KMemoryRegion) :=
  first ← FindFirstDerived t type_id;
  last ← FindLastDerived t type_id;
  Some (first, last).

(** [KMemoryRegionAllocator::Allocate] *)
Definition Allocate (num_regions : nat) : option nat :=
  check (bool_decide (num_regions < MaxMemoryRegions)%nat);; Some (S num_regions).

Definition InsertDirectly (t : region_tree) (n : nat) (address last_address attr type_id : Z)
    : option (region_tree * nat) :=
  n ← Allocate n;
  t ← insert_region (KMemoryRegion_new address last_address attr type_id) t;
  Some (t, n).

Definition shifted_pair (old_pair distance : Z) : Z :=
  if negb (old_pair =? no_pair) then u64 (old_pair + distance) else old_pair.

Definition Insert (t : region_tree) (n : nat) (address size type_id new_attr old_attr : Z)
    : option (bool * region_tree * nat) :=
  i ← Find_index t address;
  found ← t !! i;
  if negb (GetAttributes found =? old_attr) then Some (false, t, n)
  else
    let inserted_region_end := u64 (address + size) in
    let inserted_region_last := u64 (inserted_region_end - 1) in
    if GetLastAddress found <? inserted_region_last then Some (false, t, n)
    else if negb (CanDerive found type_id) then Some (false, t, n)
    else
      let old_address := GetAddress found in
      let old_last := GetLastAddress found in
      let old_pair := m_pair_address found in
      let old_type := GetType found in
      let t := delete i t in
      '(t, n) ←
        (if old_address =? address then
           t ← insert_region (MkRegion address inserted_region_last old_pair new_attr type_id) t;
           Some (t, n)
         else
           t ← insert_region (MkRegion old_address (u64 (address - 1)) old_pair old_attr old_type) t;
           n ← Allocate n;
           t ← insert_region (MkRegion address inserted_region_last
                 (shifted_pair old_pair (u64 (address - old_address))) new_attr type_id) t;
           Some (t, n));
      '(t, n) ←
        (if negb (old_last =? inserted_region_last) then
           n ← Allocate n;
           t ← insert_region (MkRegion inserted_region_end old_last
                 (shifted_pair old_pair (u64 (inserted_region_end - old_address))) old_attr old_type) t;
           Some (t, n)
         else Some (t, n));
      Some (true, t, n).

(** [draws] are the successive results of [KSystemControl::GenerateRandomRange]; [None] when they
    run out or an assertion fails. *)
Fixpoint GetRandomAlignedRegion_loop (draws : list Z) (t : region_tree)
    (last_address size alignment type_id : Z) : option Z :=
  match draws with
  | [] => None
  | r :: draws =>
      let candidate := u64 (r * alignment) in
      if negb (candidate <? u64 (candidate + size)) then
        GetRandomAlignedRegion_loop draws t last_address size alignment type_id
      else
        let candidate_last := u64 (candidate + size - 1) in
        if last_address <? candidate_last then
          GetRandomAlignedRegion_loop draws t last_address size alignment type_id
        else
          candidate_region ← Find t candidate;
          if negb ((candidate_last <=? GetLastAddress candidate_region)
                   && (GetType candidate_region =? type_id)) then
            GetRandomAlignedRegion_loop draws t last_address size alignment type_id
          else Some candidate
  end.
Definition GetRandomAlignedRegion (draws : list Z) (t : region_tree) (size alignment type_id : Z)
    : option Z :=
  '(first_region, last_region) ← GetDerivedRegionExtents t type_id;
  check (IsAligned (GetAddress first_region) alignment);;
  GetRandomAlignedRegion_loop draws t (GetLastAddress last_region) size alignment type_id.
Definition GetRandomAlignedRegionWithGuard (draws : list Z) (t : region_tree)
    (size alignment type_id guard_size : Z) : option Z :=
  a ← GetRandomAlignedRegion draws t (u64 (size + 2 * guard_size)) alignment type_id;
  Some (u64 (a + guard_size)).

(** [KMemoryLayout::InitializeLinearMemoryRegionTrees]: the regions that satisfy [P] are copied. *)
Fixpoint InitializeLinear_loop (P : KMemoryRegion → bool) (regions linear : region_tree) (n : nat)
    : option (region_tree * nat) :=
  match regions with
  | [] => Some (linear, n)
  | region :: regions =>
      '(linear, n) ←
        (if P region then
           InsertDirectly linear n (GetAddress region) (GetLastAddress region)
             (GetAttributes region) (GetType region)
         else Some (linear, n));
      InitializeLinear_loop P regions linear n
  end.
(** The two differences and the two linear trees. *)
Definition InitializeLinearMemoryRegionTrees (physical virtual physical_linear virtual_linear : region_tree)
    (n : nat) (aligned_linear_phys_start linear_virtual_start : Z)
    : option (Z * Z * region_tree * region_tree * nat) :=
  let phys_to_virt := u64 (linear_virtual_start - aligned_linear_phys_start) in
  let virt_to_phys := u64 (aligned_linear_phys_start - linear_virtual_start) in
  '(physical_linear, n) ←
    InitializeLinear_loop (λ r, HasTypeAttribute r KMemoryRegionAttr_LinearMapped) physical physical_linear n;
  '(virtual_linear, n) ←
    InitializeLinear_loop (λ r, IsDerivedFrom r (m_value KMemoryRegionType_Dram)) virtual virtual_linear n;
  Some (phys_to_virt, virt_to_phys, physical_linear, virtual_linear, n).

(** * What a tree says of an address *)
Definition hit (r : KMemoryRegion) (a : Z) : bool := (m_address r <=? a) && (a <=? m_last_address r).

Lemma hit_true r a : hit r a = true ↔ m_address r ≤ a ≤ m_last_address r.
Proof. unfold hit. rewrite andb_true_iff, !Z.leb_le. done. Qed.

Lemma hit_false r a : hit r a = false ↔ ¬ m_address r ≤ a ≤ m_last_address r.
Proof. rewrite <-hit_true. destruct (hit r a); split; congruence. Qed.

Lemma Compare_region r a : (Compare (KMemoryRegion_new a a 0 0) r =? 0) = hit r a.
Proof.
  unfold Compare, hit, GetAddress, GetLastAddress, KMemoryRegion_new; simpl.
  destruct (Z.ltb_spec a (m_address r)), (Z.leb_spec a (m_last_address r)), (Z.leb_spec (m_address r) a);
    first [done|lia].
Qed.

Lemma Find_cons r t a : Find (r :: t) a = if hit r a then Some r else Find t a.
Proof.
  unfold Find, Find_index. cbn [tree_find]. rewrite Compare_region. destruct (hit r a); [done|].
  by destruct (tree_find _ t).
Qed.

Lemma Find_app l1 l2 a :
  Find (l1 ++ l2) a = match Find l1 a with Some r => Some r | None => Find l2 a end.
Proof.
  induction l1 as [|r l1 IH]; [done|]. rewrite <-app_comm_cons, !Find_cons.
  by destruct (hit r a).
Qed.

Lemma Find_None t a : Forall (λ r, hit r a = false) t → Find t a = None.
Proof. induction 1 as [|r t H _ IH]; [done|]. by rewrite Find_cons, H. Qed.

Lemma Find_index_split t a i found :
  Find_index t a = Some i → t !! i = Some found →
  hit found a = true ∧ ∃ l1 l2, t = l1 ++ found :: l2 ∧ length l1 = i.
Proof.
  revert i. induction t as [|r t IH]; intros i; [done|].
  unfold Find_index. cbn [tree_find]. rewrite Compare_region. destruct (hit r a) eqn:E.
  - intros [= <-] [= <-]. split; [done|]. by exists [], t.
  - intros (j & Hj & ->)%fmap_Some Hl. destruct (IH j Hj Hl) as (Hh & l1 & l2 & -> & <-).
    split; [done|]. by exists (r :: l1), l2.
Qed.

(** The regions are in order, apart, and start at [lo] or later. *)
Fixpoint tree_from (lo : Z) (t : region_tree) : Prop :=
  match t with
  | [] => True
  | r :: t =>
      lo ≤ m_address r ∧ m_address r ≤ m_last_address r < 2 ^ 64 ∧ tree_from (m_last_address r + 1) t
  end.
Definition tree_ok (t : region_tree) : Prop := tree_from 0 t.

Lemma tree_from_app lo l1 l2 :
  tree_from lo (l1 ++ l2) ↔ tree_from lo l1
    ∧ tree_from (foldl (λ _ r, m_last_address r + 1) lo l1) l2.
Proof. revert lo. induction l1 as [|r l1 IH]; intros lo; simpl; [tauto|]. rewrite IH. tauto. Qed.

(** The end of the regions of [l], [lo] when there is none. *)
Abbreviation tree_end lo l := (foldl (λ _ r, m_last_address r + 1) lo l).

Lemma tree_from_le lo lo' t : tree_from lo t → lo' ≤ lo → tree_from lo' t.
Proof. destruct t; simpl; [done|]. intuition lia. Qed.

Lemma tree_end_le lo t : tree_from lo t → lo ≤ tree_end lo t.
Proof.
  revert lo. induction t as [|y l IH]; intros lo H; simpl; [lia|]. destruct H as (? & ? & H%IH). lia.
Qed.

Lemma tree_from_bounds lo t r :
  tree_from lo t → r ∈ t → lo ≤ m_address r ∧ m_address r ≤ m_last_address r < tree_end lo t.
Proof.
  revert lo. induction t as [|x t IH]; intros lo H Hr; [set_solver|].
  destruct H as (H1 & H2 & H3). simpl.
  apply elem_of_cons in Hr as [->|Hr]; [pose proof (tree_end_le _ _ H3); lia|].
  destruct (IH _ H3 Hr). lia.
Qed.

Lemma insert_region_app lo r l1 l2 :
  tree_from lo l1 → tree_end lo l1 ≤ m_address r → tree_from (m_address r + 1) l2 →
  insert_region r (l1 ++ l2) = Some (l1 ++ r :: l2).
Proof.
  intros H1 H2 H3. assert (∀ x, x ∈ l1 → m_address x ≤ m_last_address x < m_address r) as Hl.
  { intros x Hx. destruct (tree_from_bounds _ _ _ H1 Hx). lia. }
  clear H1 H2. induction l1 as [|x l1 IH].
  - destruct l2 as [|y l2]; [done|]. destruct H3 as (H3 & _). cbn [app insert_region].
    unfold Compare, GetAddress. by rewrite (proj2 (Z.ltb_lt _ _)) by lia.
  - cbn [app insert_region]. destruct (Hl x); [set_solver|]. unfold Compare, GetAddress, GetLastAddress.
    rewrite (proj2 (Z.ltb_ge _ _)), (proj2 (Z.leb_gt _ _)) by lia. cbn [Z.eqb Z.ltb Z.compare].
    rewrite IH by set_solver. done.
Qed.

Definition pair_at (r : KMemoryRegion) (a : Z) : Z :=
  if m_pair_address r =? no_pair then no_pair else m_pair_address r + (a - m_address r).
Definition view (t : region_tree) (a : Z) : option (Z * Z * Z) :=
  r ← Find t a; Some (m_attributes r, m_type_id r, pair_at r a).

(** The paired range of a region, when it has one, does not wrap around. *)
Definition pair_ok (r : KMemoryRegion) : Prop :=
  m_pair_address r = no_pair
  ∨ 0 ≤ m_pair_address r ∧ m_pair_address r + (m_last_address r - m_address r) < no_pair.

Lemma view_replace lo l1 mid found l2 a :
  tree_from lo (l1 ++ found :: l2) →
  Forall (λ r, m_address found ≤ m_address r ∧ m_last_address r ≤ m_last_address found) mid →
  view (l1 ++ mid ++ l2) a
  = if hit found a then match view mid a with Some v => Some v | None => view l2 a end
    else view (l1 ++ found :: l2) a.
Proof.
  intros (H1 & H2)%tree_from_app Hm. unfold view. rewrite !Find_app, Find_cons.
  destruct (hit found a) eqn:Hh.
  - assert (Find l1 a = None) as ->.
    { apply Find_None, Forall_forall. intros r Hr. apply hit_false.
      destruct (tree_from_bounds _ _ _ H1 Hr). apply hit_true in Hh. destruct H2 as (? & _). lia. }
    by destruct (Find mid a).
  - destruct (Find l1 a); [done|]. assert (Find mid a = None) as ->; [|done].
    apply Find_None. eapply Forall_impl; [done|]. intros r Hr. apply hit_false.
    apply hit_false in Hh. simpl in Hr. lia.
Qed.

(** The regions that replace [found] when [address, address + size) is inserted into it. *)
Definition carved (found : KMemoryRegion) (address size type_id new_attr old_attr : Z) : region_tree :=
  (if m_address found =? address then []
   else [MkRegion (m_address found) (address - 1) (m_pair_address found) old_attr (m_type_id found)])
  ++ [MkRegion address (address + size - 1) (pair_at found address) new_attr type_id]
  ++ (if m_last_address found =? address + size - 1 then []
      else [MkRegion (address + size) (m_last_address found) (pair_at found (address + size)) old_attr
              (m_type_id found)]).

Lemma shifted_pair_at found a :
  pair_ok found → 0 ≤ m_address found → m_address found ≤ a ≤ m_last_address found →
  m_last_address found < 2 ^ 64 →
  shifted_pair (m_pair_address found) (u64 (a - m_address found)) = pair_at found a.
Proof.
  intros Hp H0 Ha Hl. unfold shifted_pair, pair_at. case Z.eqb_spec; intros; [done|]. simpl.
  unfold pair_ok, no_pair in *. rewrite (wrap_small 64 (a - _)) by (unfold in_width; lia).
  apply wrap_small. unfold in_width. lia.
Qed.

Lemma wrap_last x : 0 < x ≤ 2 ^ 64 → u64 (u64 x - 1) = x - 1.
Proof.
  intros Hx. destruct (Z.eq_dec x (2 ^ 64)) as [->|]; [done|].
  rewrite (wrap_small 64 x), wrap_small by (unfold in_width; lia). done.
Qed.

Lemma insert_between lo l1 l2 r m_end :
  tree_from lo l1 → tree_from m_end l2 → tree_end lo l1 ≤ m_address r → m_address r < m_end →
  insert_region r (l1 ++ l2) = Some ((l1 ++ [r]) ++ l2).
Proof.
  intros H1 H2 ? ?. rewrite <-app_assoc. eapply insert_region_app; [done..|].
  eapply tree_from_le; [done|lia].
Qed.

Lemma tree_from_snoc lo l r :
  tree_from lo l → tree_end lo l ≤ m_address r → m_address r ≤ m_last_address r < 2 ^ 64 →
  tree_from lo (l ++ [r]) ∧ tree_end lo (l ++ [r]) = m_last_address r + 1.
Proof. intros. rewrite tree_from_app, foldl_app. simpl. split_and!; try done; lia. Qed.

Lemma Allocate_ok n : (n < MaxMemoryRegions)%nat → Allocate n = Some (S n).
Proof. intros. unfold Allocate. by rewrite bool_decide_true. Qed.

(** Insertion into a region replaces it by the two or three pieces. *)
Lemma Insert_carved l1 l2 found n address size type_id new_attr :
  tree_ok (l1 ++ found :: l2) → pair_ok found → (n + 2 ≤ MaxMemoryRegions)%nat →
  Find_index (l1 ++ found :: l2) address = Some (length l1) → 0 < size →
  m_address found ≤ address → address + size - 1 ≤ m_last_address found →
  CanDerive found type_id = true →
  ∃ n', Insert (l1 ++ found :: l2) n address size type_id new_attr (m_attributes found)
    = Some (true, l1 ++ carved found address size type_id new_attr (m_attributes found) ++ l2, n')
    ∧ (n ≤ n' ≤ n + 2)%nat
    ∧ tree_ok (l1 ++ carved found address size type_id new_attr (m_attributes found) ++ l2).
Proof.
  intros (T1 & T0 & T2 & T3)%tree_from_app Hp Hn Hi Hsz Ha Hlast Hcd. unfold Insert. rewrite Hi.
  cbn [mbind option_bind]. rewrite list_lookup_middle by done. cbn [mbind option_bind].
  pose proof (tree_end_le _ _ T1) as Hlo. set (nd := m_last_address found + 1) in *.
  unfold GetAttributes, GetLastAddress, GetAddress, GetType. rewrite Z.eqb_refl, wrap_last by lia. cbn [negb].
  rewrite (proj2 (Z.ltb_ge _ _)), Hcd, delete_middle by lia. cbn [negb]. unfold carved.
  set (r1 := MkRegion (m_address found) (address - 1) (m_pair_address found) (m_attributes found) (m_type_id found)).
  set (r2 := MkRegion address (address + size - 1) (pair_at found address) new_attr type_id).
  set (r3 := MkRegion (address + size) (m_last_address found) (pair_at found (address + size))
               (m_attributes found) (m_type_id found)).
  set (ls := if m_address found =? address then [] else [r1]).
  set (rs := if m_last_address found =? address + size - 1 then [] else [r3]).
  assert (∃ n1, (if m_address found =? address
     then t ← insert_region (MkRegion address (address + size - 1) (m_pair_address found) new_attr type_id) (l1 ++ l2);
          Some (t, n)
     else t ← insert_region (MkRegion (m_address found) (u64 (address - 1)) (m_pair_address found)
                 (m_attributes found) (m_type_id found)) (l1 ++ l2);
          n ← Allocate n;
          t ← insert_region (MkRegion address (address + size - 1)
                (shifted_pair (m_pair_address found) (u64 (address - m_address found))) new_attr type_id) t;
          Some (t, n)) = Some ((l1 ++ ls ++ [r2]) ++ l2, n1) ∧ (n ≤ n1 ≤ n + 1)%nat
     ∧ tree_from 0 (l1 ++ ls ++ [r2]) ∧ tree_end 0 (l1 ++ ls ++ [r2]) = address + size) as (n1 & -> & Hn1 & U1 & U2).
  { subst ls. case Z.eqb_spec; intros E.
    - assert (m_pair_address found = pair_at found address) as ->.
      { unfold pair_at. case Z.eqb_spec; intros; [done|lia]. }
      fold r2. rewrite (insert_between 0 l1 l2 r2 nd) by (done || (simpl; lia)).
      destruct (tree_from_snoc 0 l1 r2) as [V1 V2]; [done|simpl; lia..|].
      cbn [app]. exists n. split_and!; [done|lia|lia|done|]. rewrite V2. simpl. lia.
    - rewrite (wrap_small 64 (address - 1)), shifted_pair_at by (done || (unfold in_width; lia)). fold r1 r2.
      rewrite (insert_between 0 l1 l2 r1 nd) by (done || (simpl; lia)). cbn [mbind option_bind].
      destruct (tree_from_snoc 0 l1 r1) as [V1 V2]; [done|simpl; lia..|].
      rewrite Allocate_ok by lia. cbn [mbind option_bind].
      rewrite (insert_between 0 (l1 ++ [r1]) l2 r2 nd) by (done || (rewrite ?V2; simpl; lia)).
      destruct (tree_from_snoc 0 (l1 ++ [r1]) r2) as [W1 W2]; [done|rewrite ?V2; simpl; lia..|].
      cbn [mbind option_bind]. rewrite <-(app_assoc l1) in *. exists (S n). split_and!; [done|lia|lia|done|].
      rewrite W2. simpl. lia. }
  cbn [mbind option_bind]. unfold rs. case Z.eqb_spec; intros E; cbn [negb].
  - exists n1. rewrite app_nil_r, <-!app_assoc in *. split_and!; [done|lia|lia|].
    unfold tree_ok. rewrite (app_assoc ls), (app_assoc l1), tree_from_app.
    split; [done|]. rewrite U2. eapply tree_from_le; [done|lia].
  - rewrite (wrap_small 64 (address + size)), shifted_pair_at, Allocate_ok
      by (done || lia || (unfold in_width; lia)). cbn [mbind option_bind]. fold r3.
    rewrite (insert_between 0 _ l2 r3 nd) by (done || (rewrite ?U2; simpl; lia)). cbn [mbind option_bind].
    destruct (tree_from_snoc 0 (l1 ++ ls ++ [r2]) r3) as [V1 V2]; [done|rewrite ?U2; simpl; lia..|].
    exists (S n1). rewrite <-!app_assoc in *. split_and!; [done|lia|lia|]. unfold tree_ok.
    replace (l1 ++ ls ++ [r2] ++ [r3] ++ l2) with ((l1 ++ ls ++ [r2] ++ [r3]) ++ l2)
      by (by rewrite <-!app_assoc).
    rewrite tree_from_app. split; [done|]. by rewrite V2.
Qed.

Lemma carved_inside found address size type_id new_attr old_attr :
  m_address found ≤ address → 0 < size → address + size - 1 ≤ m_last_address found →
  Forall (λ r, m_address found ≤ m_address r ∧ m_last_address r ≤ m_last_address found)
    (carved found address size type_id new_attr old_attr).
Proof.
  intros. unfold carved. destruct (_ =? _), (_ =? _);
    repeat constructor; simpl; lia.
Qed.

Lemma pair_at_shift found a r x :
  pair_ok found → m_address found ≤ a ≤ m_last_address found → m_address r = a →
  m_pair_address r = pair_at found a → pair_at r x = pair_at found x.
Proof.
  intros Hp Ha E1 E2. unfold pair_at in *. rewrite E2. destruct (Z.eqb_spec (m_pair_address found) no_pair); [done|].
  case Z.eqb_spec; intros; unfold pair_ok, no_pair in *; lia.
Qed.

Lemma view_carved found address size type_id new_attr old_attr a :
  pair_ok found → m_address found ≤ address → 0 < size → address + size - 1 ≤ m_last_address found →
  hit found a = true →
  view (carved found address size type_id new_attr old_attr) a
  = if decide (address ≤ a < address + size) then Some (new_attr, type_id, pair_at found a)
    else Some (old_attr, m_type_id found, pair_at found a).
Proof.
  intros Hp Ha Hs Hl Hh%hit_true. unfold view, carved.
  set (r1 := MkRegion (m_address found) _ _ _ _). set (r2 := MkRegion address _ _ _ _).
  set (r3 := MkRegion (address + size) _ _ _ _).
  assert (hit r2 a = bool_decide (address ≤ a < address + size)) as H2.
  { unfold hit; simpl. case_bool_decide; destruct (Z.leb_spec address a), (Z.leb_spec a (address + size - 1));
      simpl; try done; lia. }
  assert (pair_at r1 a = pair_at found a) as P1 by done.
  assert (pair_at r2 a = pair_at found a) as P2 by (apply (pair_at_shift found address); [done|lia|done..]).
  rewrite !Find_app, Find_cons, H2.
  destruct (decide (address ≤ a < address + size)) as [Hin|Hout].
  - rewrite bool_decide_true by done.
    assert (Find (if m_address found =? address then [] else [r1]) a = None) as ->; [|by rewrite <-P2].
    apply Find_None. case Z.eqb_spec; intros; repeat constructor. apply hit_false. simpl. lia.
  - rewrite bool_decide_false by done. destruct (Z.lt_ge_cases a address).
    + rewrite (proj2 (Z.eqb_neq _ _)), Find_cons by lia.
      assert (hit r1 a = true) as -> by (apply hit_true; simpl; lia). by rewrite <-P1.
    + assert (Find (if m_address found =? address then [] else [r1]) a = None) as ->.
      { apply Find_None. case Z.eqb_spec; intros; repeat constructor. apply hit_false. simpl. lia. }
      rewrite (proj2 (Z.eqb_neq _ _)), Find_cons by lia. cbn [Find app].
      assert (hit r3 a = true) as -> by (apply hit_true; simpl; lia).
      assert (pair_at r3 a = pair_at found a) as <- by (apply (pair_at_shift found (address + size)); [done|lia|done..]).
      done.
Qed.

(** C33: inserting a range into a tree of regions. It is refused, and the tree left alone, when
    the region of the address has other attributes, ends before the range or cannot become the
    new type. Otherwise every address of the range gets the new attributes and type, with the
    address it was paired with before, and no other address changes; the regions stay in order
    and apart, and at most two more are allocated. *)
Theorem Insert_correct t n address size type_id new_attr old_attr found :
  tree_ok t → Find t address = Some found → pair_ok found → (n + 2 ≤ MaxMemoryRegions)%nat →
  0 < size → address + size ≤ 2 ^ 64 →
  ∃ b t' n', Insert t n address size type_id new_attr old_attr = Some (b, t', n')
    ∧ tree_ok t' ∧ (n ≤ n' ≤ n + 2)%nat
    ∧ (b = true ↔ m_attributes found = old_attr ∧ address + size - 1 ≤ m_last_address found
         ∧ CanDerive found type_id = true)
    ∧ (b = false → t' = t ∧ n' = n)
    ∧ (b = true → ∀ a, view t' a
         = if decide (address ≤ a < address + size) then Some (new_attr, type_id, pair_at found a)
           else view t a).
Proof.
  intros Ht Hf Hp Hn Hs Htop. unfold Find in Hf.
  destruct (Find_index t address) as [i|] eqn:Hi; [|done]. cbn [mbind option_bind] in Hf.
  destruct (Find_index_split t address i found Hi Hf) as (Hh%hit_true & l1 & l2 & -> & <-).
  assert (0 ≤ m_address found) as H0.
  { apply tree_from_app in Ht as [H1 (H2 & _)]. pose proof (tree_end_le _ _ H1). lia. }
  destruct (decide (m_attributes found = old_attr ∧ address + size - 1 ≤ m_last_address found
         ∧ CanDerive found type_id = true)) as [(<- & Hl & Hc)|Hno].
  - destruct (Insert_carved l1 l2 found n address size type_id new_attr) as (n' & -> & Hn' & Ht');
      [done..|lia|done|done|]. eexists true, _, n'. split_and!; [done|done|lia|lia|done|done|].
    intros _ a. rewrite (view_replace 0 l1 _ found l2); [|exact Ht|apply carved_inside; lia].
    destruct (hit found a) eqn:E.
    + rewrite view_carved by (done || lia). destruct (decide _); [done|].
      apply tree_from_app in Ht as [H1 H2]. unfold view. rewrite Find_app, Find_cons, E.
      assert (Find l1 a = None) as ->; [|done]. apply Find_None, Forall_forall. intros r Hr.
      apply hit_false. destruct (tree_from_bounds _ _ _ H1 Hr). apply hit_true in E. destruct H2 as (? & _). lia.
    + apply hit_false in E. rewrite decide_False by lia. done.
  - exists false, (l1 ++ found :: l2), n. split_and!; [|done|lia|lia|split; [done|by intros ?%Hno]|done|done].
    unfold Insert. rewrite Hi. cbn [mbind option_bind]. rewrite Hf. cbn [mbind option_bind].
    unfold GetAttributes, GetLastAddress. rewrite wrap_last by lia.
    case Z.eqb_spec; intros E1; [|done]. cbn [negb]. case Z.ltb_spec; intros E2; [done|].
    destruct (CanDerive found type_id) eqn:E3; [|done]. destruct Hno. split_and!; [done|lia|done].
Qed.

(** The kernel's DRAM as one region, from which the user pool is carved. *)
Definition example_tree : region_tree :=
  [MkRegion (2 ^ 31) (2 ^ 32 - 1) no_pair 0 (m_value KMemoryRegionType_DramPoolPartition)].

Lemma Insert_correct_witness :
  ∃ t' n', Insert example_tree 1 (2 ^ 31 + 2 ^ 20) (2 ^ 21) (m_value KMemoryRegionType_DramUserPool) 3 0
    = Some (true, t', n') ∧ view t' (2 ^ 31 + 2 ^ 20) = Some (3, m_value KMemoryRegionType_DramUserPool, no_pair).
Proof.
  destruct (Insert_correct example_tree 1 (2 ^ 31 + 2 ^ 20) (2 ^ 21)
              (m_value KMemoryRegionType_DramUserPool) 3 0
              (MkRegion (2 ^ 31) (2 ^ 32 - 1) no_pair 0 (m_value KMemoryRegionType_DramPoolPartition)))
    as (b & t' & n' & E & _ & _ & Hb & _ & Hv);
    [vm_compute; intuition congruence|reflexivity|by left|vm_compute; lia|lia|lia|].
  destruct (proj2 Hb) as []; [split; [reflexivity|split; [simpl; lia|reflexivity]]|].
  exists t', n'. split; [exact E|]. by rewrite Hv.
Defined.
