(* ===== verification/PageGroup.v ===== *)
(** Page groups: [KBlockInfo] and [KPageGroup] of src/src/core/hle/kernel/k_page_group.h and
    k_page_group.cpp, without the operations that call the memory manager (those are in
    MemoryManager.v). The singly linked list that a group owns is the list of its blocks from
    [m_first_block] on; the block-info manager is the number of blocks it can still hand out. *)
From S2P Require Import Prelude Common PageBitmap Results.

Definition ResultOutOfResource : Z := Result.make Result.Kernel 103.

(** * [KBlockInfo] *)
Module KBlockInfo.
Record t := Mk { m_page_index : Z; m_num_pages : Z }.

Definition Initialize (addr np : Z) : option t :=
  check (IsAligned addr PageSize);;
  check (u32 np =? np);;
  Some (Mk (u32 (addr / PageSize)) (u32 np)).

Definition GetAddress (b : t) : Z := u64 (m_page_index b * PageSize).
Definition GetNumPages (b : t) : Z := m_num_pages b.
Definition GetSize (b : t) : Z := u64 (GetNumPages b * PageSize).
Definition GetEndAddress (b : t) : Z := u64 (u32 (m_page_index b + m_num_pages b) * PageSize).
Definition GetLastAddress (b : t) : Z := u64 (GetEndAddress b - 1).

Definition IsEquivalentTo (b rhs : t) : bool :=
  (m_page_index b =? m_page_index rhs) && (m_num_pages b =? m_num_pages rhs).

Definition IsStrictlyBefore (b : t) (addr : Z) : bool :=
  let end_ := GetEndAddress b in
  if negb (m_page_index b =? 0) && (end_ =? 0) then false else end_ <? addr.

Definition TryConcatenate (b : t) (addr np : Z) : option t :=
  if negb (addr =? 0) && (addr =? GetEndAddress b) then
    Some (Mk (m_page_index b) (u32 (m_num_pages b + u32 np)))
  else None.
End KBlockInfo.

(** * [KPageGroup] *)
Module KPageGroup.
Abbreviation group := (list KBlockInfo.t).

Definition GetNumPages (g : group) : Z :=
  foldl (λ num_pages it, u64 (num_pages + KBlockInfo.GetNumPages it)) 0 g.

(** The group is empty afterwards; the result is the number of free blocks. *)
Definition Finalize (g : group) (slab : nat) : group * nat := ([], (length g + slab)%nat).

Definition AddBlock (g : group) (slab : nat) (addr num_pages : Z) : option (Z * group * nat) :=
  if num_pages =? 0 then Some (ResultSuccess, g, slab)
  else
    check (addr <? u64 (addr + u64 (num_pages * PageSize)));;
    match (l ← last g; KBlockInfo.TryConcatenate l addr num_pages) with
    | Some l => Some (ResultSuccess, <[pred (length g) := l]> g, slab)
    | None =>
        match slab with
        | O => Some (ResultOutOfResource, g, slab)
        | S slab =>
            new_block ← KBlockInfo.Initialize addr num_pages;
            Some (ResultSuccess, g ++ [new_block], slab)
        end
    end.

Fixpoint IsEquivalentTo (g rhs : group) : bool :=
  match g, rhs with
  | l :: g, r :: rhs => if negb (KBlockInfo.IsEquivalentTo l r) then false else IsEquivalentTo g rhs
  | [], [] => true
  | _, _ => false
  end.
End KPageGroup.

(** * What a group stands for: the list of its pages *)
Definition block_pages (b : KBlockInfo.t) : list Z :=
  seqZ (KBlockInfo.m_page_index b) (KBlockInfo.m_num_pages b).
Definition group_pages (g : KPageGroup.group) : list Z := g ≫= block_pages.

(** The pages lie below [2 ^ 32], and no block is empty. *)
Definition block_ok (b : KBlockInfo.t) : Prop :=
  0 < KBlockInfo.m_page_index b ∧ 0 < KBlockInfo.m_num_pages b
  ∧ KBlockInfo.m_page_index b + KBlockInfo.m_num_pages b < 2 ^ 32.
Definition group_ok (g : KPageGroup.group) : Prop := Forall block_ok g.

Lemma IsEquivalentTo_eq g rhs : KPageGroup.IsEquivalentTo g rhs = true ↔ g = rhs.
Proof.
  revert rhs. induction g as [|l g IH]; intros [|r rhs]; simpl; try done.
  unfold KBlockInfo.IsEquivalentTo. destruct l as [i n], r as [i' n']; simpl.
  destruct (Z.eqb_spec i i') as [<-|]; [|simpl; split; [done|congruence]].
  destruct (Z.eqb_spec n n') as [<-|]; simpl; [|split; [done|congruence]].
  rewrite IH. split; [by intros ->|congruence].
Qed.

Lemma block_info_address b : block_ok b → KBlockInfo.GetAddress b = KBlockInfo.m_page_index b * PageSize.
Proof. intros (? & ? & ?). apply wrap_small. unfold in_width, PageSize. lia. Qed.

Lemma block_info_end b : block_ok b →
  KBlockInfo.GetEndAddress b = (KBlockInfo.m_page_index b + KBlockInfo.m_num_pages b) * PageSize.
Proof.
  intros (? & ? & ?). unfold KBlockInfo.GetEndAddress.
  rewrite (wrap_small 32) by (unfold in_width; lia). apply wrap_small. unfold in_width, PageSize. lia.
Qed.

Lemma group_pages_app g1 g2 : group_pages (g1 ++ g2) = group_pages g1 ++ group_pages g2.
Proof. apply bind_app. Qed.

Lemma group_pages_cons b g : group_pages (b :: g) = block_pages b ++ group_pages g.
Proof. done. Qed.

Lemma length_group_pages g : group_ok g →
  Z.of_nat (length (group_pages g)) = sumZ (map KBlockInfo.m_num_pages g).
Proof.
  induction 1 as [|b g (? & ? & ?) _ IH]; [done|].
  rewrite group_pages_cons, length_app. unfold block_pages at 1. rewrite length_seqZ.
  unfold sumZ in *; simpl. lia.
Qed.

Lemma GetNumPages_foldl g z : group_ok g → 0 ≤ z → z + Z.of_nat (length (group_pages g)) < 2 ^ 64 →
  foldl (λ num_pages it, u64 (num_pages + KBlockInfo.GetNumPages it)) z g
  = z + Z.of_nat (length (group_pages g)).
Proof.
  intros Hg. revert z. induction Hg as [|b g (? & ? & ?) Hg IH]; intros z Hz Hlt; [simpl; lia|].
  rewrite group_pages_cons, length_app in *. unfold block_pages at 1 in Hlt.
  unfold block_pages at 1. rewrite length_seqZ in *. cbn [foldl]. unfold KBlockInfo.GetNumPages at 2.
  rewrite (wrap_small 64) by (unfold in_width; lia). rewrite IH by lia. lia.
Qed.

Lemma GetNumPages_length g : group_ok g → Z.of_nat (length (group_pages g)) < 2 ^ 64 →
  KPageGroup.GetNumPages g = Z.of_nat (length (group_pages g)).
Proof. intros. unfold KPageGroup.GetNumPages. by rewrite GetNumPages_foldl. Qed.

(** Adding a block appends its pages, or fails for want of a block and changes nothing. *)
Lemma AddBlock_spec g slab p n :
  group_ok g → 0 < p → 0 < n → p + n < 2 ^ 32 →
  Z.of_nat (length (group_pages g)) + n < 2 ^ 32 →
  ∃ rc g' slab', KPageGroup.AddBlock g slab (p * PageSize) n = Some (rc, g', slab')
    ∧ (rc = ResultSuccess ∧ group_ok g' ∧ group_pages g' = group_pages g ++ seqZ p n
         ∧ (length g' + slab' = length g + slab)%nat
       ∨ rc = ResultOutOfResource ∧ slab = 0%nat ∧ g' = g ∧ slab' = slab).
Proof.
  intros Hg Hp Hn Hlt Hlen. unfold KPageGroup.AddBlock. rewrite (proj2 (Z.eqb_neq n 0)) by lia.
  rewrite (wrap_small 64 (n * _)), (wrap_small 64 (_ + _)) by (unfold in_width, PageSize; lia).
  rewrite check_bind_Some by (apply Z.ltb_lt; unfold PageSize; lia).
  destruct (l ← last g; KBlockInfo.TryConcatenate l (p * PageSize) n) as [l'|] eqn:E.
  - apply bind_Some in E as (l & Hl & E). apply last_Some in Hl as [g0 ->].
    unfold KBlockInfo.TryConcatenate in E. apply Forall_app in Hg as [Hg0 [Hl _]%Forall_cons].
    rewrite (block_info_end l Hl) in E. destruct (negb _ && _) eqn:E2; [|done].
    apply andb_true_iff in E2 as [_ E2%Z.eqb_eq]. injection E as <-.
    assert (p = KBlockInfo.m_page_index l + KBlockInfo.m_num_pages l) as -> by (unfold PageSize in E2; lia).
    destruct Hl as (L1 & L2 & L3). rewrite (wrap_small 32 n), (wrap_small 32) by (unfold in_width; lia).
    eexists _, _, _. split; [done|]. left. rewrite length_app; simpl.
    replace (pred (length g0 + 1)) with (length g0 + 0)%nat by lia.
    rewrite insert_app_r. simpl. split_and!; [done| | |rewrite length_app; simpl; lia].
    + apply Forall_app. split; [done|]. repeat constructor; simpl; lia.
    + rewrite !group_pages_app, <-app_assoc. f_equal. unfold group_pages; simpl. rewrite !app_nil_r.
      unfold block_pages; simpl. by rewrite seqZ_app by lia.
  - destruct slab as [|slab].
    { eexists _, _, _. split; [done|]. by right. }
    unfold KBlockInfo.Initialize. change PageSize with (2 ^ 12).
    rewrite IsAligned_pow2 by (unfold in_width; lia). rewrite Z.mod_mul, Z.div_mul by done.
    cbn [Z.eqb check mbind option_bind]. rewrite (wrap_small 32 n), (wrap_small 32 p) by (unfold in_width; lia).
    rewrite Z.eqb_refl. cbn [check mbind option_bind]. eexists _, _, _. split; [done|]. left.
    split_and!; [done| | |rewrite length_app; simpl; lia].
    + apply Forall_app. split; [done|]. repeat constructor; simpl; lia.
    + rewrite group_pages_app. f_equal. unfold group_pages; simpl. by rewrite app_nil_r.
Qed.
