(* ===== verification/MemoryManager.v ===== *)
(** The physical memory manager: [KMemoryManager] of src/src/core/hle/kernel/k_memory_manager.h
    and k_memory_manager.cpp, with the operations of [KPageGroup] that call it.

    A pointer to a manager is its index in [m_managers], [None] the null pointer; [m_next] and
    [m_prev] keep the links of the pool lists. The optimized-process bitmap of a manager, which
    the source keeps in guest memory at [m_management_region], is the list [optimize_map] of its
    words: no heap contains the management regions. The rest of the guest memory is a function
    from offsets in the backing buffer to bytes. Each operation is one sequential function: the
    locks of the pools only order operations of different threads. *)
From S2P Require Import Prelude Common PageBitmap MemoryRegion Results PageGroup PageHeap.

Definition ResultBusy : Z := Result.make Result.Kernel 122.

(** * Pools and options *)
Module Pool.
Definition Application : Z := 0.
Definition Applet : Z := 1.
Definition System : Z := 2.
Definition SystemNonSecure : Z := 3.
Definition Count : Z := 4.
Definition Shift : Z := 4.
Definition Mask : Z := Z.shiftl 0xF Shift.
End Pool.

Module Direction.
Definition FromFront : Z := 0.
Definition FromBack : Z := 1.
Definition Shift : Z := 0.
Definition Mask : Z := Z.shiftl 0xF Shift.
End Direction.

Definition MaxManagerCount : Z := 10.

Definition EncodeOption (pool dir : Z) : Z :=
  Z.lor (u32 (Z.shiftl pool Pool.Shift)) (u32 (Z.shiftl dir Direction.Shift)).
Definition GetPool (option_ : Z) : Z := Z.shiftr (Z.land option_ Pool.Mask) Pool.Shift.
Definition GetDirection (option_ : Z) : Z :=
  Z.shiftr (Z.land option_ Direction.Mask) Direction.Shift.
Definition DecodeOption (option_ : Z) : Z * Z := (GetPool option_, GetDirection option_).

Definition GetPoolFromMemoryRegionType (type : Z) : option Z :=
  if Z.lor type (m_value KMemoryRegionType_DramApplicationPool) =? type then Some Pool.Application
  else if Z.lor type (m_value KMemoryRegionType_DramAppletPool) =? type then Some Pool.Applet
  else if Z.lor type (m_value KMemoryRegionType_DramSystemPool) =? type then Some Pool.System
  else if Z.lor type (m_value KMemoryRegionType_DramSystemNonSecurePool) =? type
       then Some Pool.SystemNonSecure
  else None.

(** * Guest memory (src/src/core/device_memory.h, [HostMemory::ClearBackingRegion]) *)
Definition DramMemoryMap_Base : Z := 0x80000000.
Abbreviation backing := (Z → Z).
(** [std::memset] on the backing buffer. *)
Definition fill (mem : backing) (physical_offset length fill_value : Z) : backing :=
  λ a, if (physical_offset <=? a) && (a <? physical_offset + length) then u8 fill_value else mem a.

Section manager.
Context {B : Type} `{FB : FreeBitmap B}.

(** * [KMemoryManager::Impl] *)
Record Impl := MkImpl {
  m_heap : KPageHeap (B := B);
  m_page_reference_counts : list Z;
  optimize_map : list Z;
  m_management_region : Z;
  m_pool : Z;
  m_next : option nat;
  m_prev : option nat
}.

Definition with_heap (h : KPageHeap) (im : Impl) : Impl :=
  MkImpl h (m_page_reference_counts im) (optimize_map im) (m_management_region im) (m_pool im)
    (m_next im) (m_prev im).
Definition with_counts (l : list Z) (im : Impl) : Impl :=
  MkImpl (m_heap im) l (optimize_map im) (m_management_region im) (m_pool im) (m_next im) (m_prev im).
Definition with_map (l : list Z) (im : Impl) : Impl :=
  MkImpl (m_heap im) (m_page_reference_counts im) l (m_management_region im) (m_pool im)
    (m_next im) (m_prev im).
Definition SetNext (n : option nat) (im : Impl) : Impl :=
  MkImpl (m_heap im) (m_page_reference_counts im) (optimize_map im) (m_management_region im)
    (m_pool im) n (m_prev im).
Definition SetPrev (n : option nat) (im : Impl) : Impl :=
  MkImpl (m_heap im) (m_page_reference_counts im) (optimize_map im) (m_management_region im)
    (m_pool im) (m_next im) n.

(** In bytes. *)
Definition CalculateOptimizedProcessOverheadSize (region_size : Z) : Z :=
  u64 (AlignUp (region_size / PageSize) 64 / 64 * 8).

Definition Impl_CalculateManagementOverheadSize (region_size : Z) : option Z :=
  let ref_count_size := u64 (region_size / PageSize * 2) in
  let optimize_map_size := CalculateOptimizedProcessOverheadSize region_size in
  let manager_meta_size := AlignUp (u64 (optimize_map_size + ref_count_size)) PageSize in
  page_heap_size ← KPageHeap_CalculateManagementOverheadSize region_size MemoryBlockPageShifts;
  Some (u64 (manager_meta_size + page_heap_size)).

(** [bms] and [host_base] are the blank bitmaps and the host address the heap is given. *)
Definition Impl_Initialize (im : Impl) (bms : list B) (host_base : Z)
    (address size management management_end p : Z) : option (Z * Impl) :=
  let ref_count_size := u64 (size / PageSize * 2) in
  let optimize_map_size := CalculateOptimizedProcessOverheadSize size in
  let manager_size := AlignUp (u64 (optimize_map_size + ref_count_size)) PageSize in
  page_heap_size ← KPageHeap_CalculateManagementOverheadSize size MemoryBlockPageShifts;
  let total_management_size := u64 (manager_size + page_heap_size) in
  check (manager_size <=? total_management_size);;
  check (u64 (management + total_management_size) <=? management_end);;
  check (IsAligned total_management_size PageSize);;
  check (IsAligned management PageSize);;
  h ← PageHeap.Initialize (m_heap im) bms host_base address size (u64 (management + manager_size))
        page_heap_size MemoryBlockPageShifts;
  Some (total_management_size,
        MkImpl h (resize (Z.to_nat (size / PageSize)) 0 (m_page_reference_counts im))
          (resize (Z.to_nat (optimize_map_size / 8)) 0 (optimize_map im)) management p
          (m_next im) (m_prev im)).

Definition Impl_AllocateBlock (im : Impl) (index : Z) (random : bool) : option (Z * Impl) :=
  '(block, h) ← AllocateBlock (m_heap im) index random; Some (block, with_heap h im).
Definition Impl_AllocateAligned (im : Impl) (index num_pages align_pages : Z) : option (Z * Impl) :=
  '(block, h) ← AllocateAligned (m_heap im) index num_pages align_pages; Some (block, with_heap h im).
Definition Impl_Free (im : Impl) (addr num_pages : Z) : option Impl :=
  h ← Free (m_heap im) addr num_pages; Some (with_heap h im).
Definition SetInitialUsedHeapSize (im : Impl) (reserved_size : Z) : option Impl :=
  h ← SetInitialUsedSize (m_heap im) reserved_size; Some (with_heap h im).

(** The heap's functions of the same names. *)
Definition Impl_GetSize (im : Impl) : Z := PageHeap.GetSize (m_heap im).
Definition Impl_GetFreeSize (im : Impl) : Z := PageHeap.GetFreeSize (m_heap im).
Definition Impl_GetEndAddress (im : Impl) : Z := PageHeap.GetEndAddress (m_heap im).
Definition Impl_GetPageOffset (im : Impl) (address : Z) : Z := GetPageOffset (m_heap im) address.
Definition Impl_GetPageOffsetToEnd (im : Impl) (address : Z) : Z :=
  GetPageOffsetToEnd (m_heap im) address.

(** ** The optimized-process bitmap *)
Definition Impl_InitializeOptimizedMemory (im : Impl) : option Impl :=
  let words := Z.to_nat (CalculateOptimizedProcessOverheadSize (Impl_GetSize im) / 8) in
  check (bool_decide (words ≤ length (optimize_map im))%nat);;
  Some (with_map (replicate words 0 ++ drop words (optimize_map im)) im).

(** [while (offset <= last)]; [n] rounds are left. *)
Fixpoint TrackUnoptimized_loop (n : nat) (map : list Z) (offset last : Z) : option (list Z) :=
  if offset <=? last then
    match n with
    | O => None
    | S n =>
        word ← at_ map (offset / 64);
        map ← set_at map (offset / 64) (Z.land word (lnotw 64 (Z.shiftl 1 (offset mod 64))));
        TrackUnoptimized_loop n map (u64 (offset + 1)) last
    end
  else Some map.
Definition TrackUnoptimizedAllocation (im : Impl) (block num_pages : Z) : option Impl :=
  let offset := Impl_GetPageOffset im block in
  let last := u64 (offset + num_pages - 1) in
  map ← TrackUnoptimized_loop (Z.to_nat num_pages) (optimize_map im) offset last;
  Some (with_map map im).

Fixpoint TrackOptimized_loop (n : nat) (map : list Z) (offset last : Z) : option (list Z) :=
  if offset <=? last then
    match n with
    | O => None
    | S n =>
        word ← at_ map (offset / 64);
        map ← set_at map (offset / 64) (Z.lor word (Z.shiftl 1 (offset mod 64)));
        TrackOptimized_loop n map (u64 (offset + 1)) last
    end
  else Some map.
Definition TrackOptimizedAllocation (im : Impl) (block num_pages : Z) : option Impl :=
  let offset := Impl_GetPageOffset im block in
  let last := u64 (offset + num_pages - 1) in
  map ← TrackOptimized_loop (Z.to_nat num_pages) (optimize_map im) offset last;
  Some (with_map map im).

(** The result: whether a page was new, and the memory with the new pages filled. *)
Fixpoint ProcessOptimized_loop (n : nat) (map : list Z) (heap_offset fill_pattern : Z)
    (mem : backing) (any_new : bool) (offset last : Z) : option (bool * backing) :=
  if offset <=? last then
    match n with
    | O => None
    | S n =>
        word ← at_ map (offset / 64);
        if Z.land word (Z.shiftl 1 (offset mod 64)) =? 0 then
          ProcessOptimized_loop n map heap_offset fill_pattern
            (fill mem (heap_offset + offset * PageSize) PageSize fill_pattern) true
            (u64 (offset + 1)) last
        else
          ProcessOptimized_loop n map heap_offset fill_pattern mem any_new (u64 (offset + 1)) last
    end
  else Some (any_new, mem).
Definition ProcessOptimizedAllocation (im : Impl) (mem : backing) (block num_pages fill_pattern : Z)
    : option (bool * backing) :=
  let offset := Impl_GetPageOffset im block in
  let last := u64 (offset + num_pages - 1) in
  ProcessOptimized_loop (Z.to_nat num_pages) (optimize_map im)
    (PageHeap.GetAddress (m_heap im) - DramMemoryMap_Base) fill_pattern mem false offset last.

(** ** Reference counts: [while (index < end)] *)
Fixpoint OpenFirst_loop (n : nat) (counts : list Z) (index end_ : Z) : option (list Z) :=
  if index <? end_ then
    match n with
    | O => None
    | S n =>
        c ← at_ counts index;
        let ref_count := u16 (c + 1) in
        counts ← set_at counts index ref_count;
        check (ref_count =? 1);;
        OpenFirst_loop n counts (u64 (index + 1)) end_
    end
  else Some counts.
Definition Impl_OpenFirst (im : Impl) (address num_pages : Z) : option Impl :=
  let index := Impl_GetPageOffset im address in
  counts ← OpenFirst_loop (Z.to_nat num_pages) (m_page_reference_counts im) index (u64 (index + num_pages));
  Some (with_counts counts im).

Fixpoint Open_loop (n : nat) (counts : list Z) (index end_ : Z) : option (list Z) :=
  if index <? end_ then
    match n with
    | O => None
    | S n =>
        c ← at_ counts index;
        let ref_count := u16 (c + 1) in
        counts ← set_at counts index ref_count;
        check (1 <? ref_count);;
        Open_loop n counts (u64 (index + 1)) end_
    end
  else Some counts.
Definition Impl_Open (im : Impl) (address num_pages : Z) : option Impl :=
  let index := Impl_GetPageOffset im address in
  counts ← Open_loop (Z.to_nat num_pages) (m_page_reference_counts im) index (u64 (index + num_pages));
  Some (with_counts counts im).

(** The pages whose count reached zero in a row are freed together. *)
Definition Close_flush (im : Impl) (free_start free_count : Z) : option Impl :=
  if 0 <? free_count then
    Impl_Free im (u64 (PageHeap.GetAddress (m_heap im) + free_start * PageSize)) free_count
  else Some im.
Fixpoint Close_loop (n : nat) (im : Impl) (free_start free_count index end_ : Z) : option Impl :=
  if index <? end_ then
    match n with
    | O => None
    | S n =>
        c ← at_ (m_page_reference_counts im) index;
        check (0 <? c);;
        let ref_count := u16 (c - 1) in
        counts ← set_at (m_page_reference_counts im) index ref_count;
        let im := with_counts counts im in
        if ref_count =? 0 then
          if 0 <? free_count then
            Close_loop n im free_start (u64 (free_count + 1)) (u64 (index + 1)) end_
          else Close_loop n im index 1 (u64 (index + 1)) end_
        else
          im ← Close_flush im free_start free_count;
          Close_loop n im free_start 0 (u64 (index + 1)) end_
    end
  else Close_flush im free_start free_count.
Definition Impl_Close (im : Impl) (address num_pages : Z) : option Impl :=
  let index := Impl_GetPageOffset im address in
  Close_loop (Z.to_nat num_pages) im 0 0 index (u64 (index + num_pages)).

(** * [KMemoryManager] *)
Record KMemoryManager := MkManager {
  m_linear_tree : region_tree;
  m_pool_managers_head : list (option nat);
  m_pool_managers_tail : list (option nat);
  m_managers : list Impl;
  m_num_managers : Z;
  m_optimized_process_ids : list Z;
  m_has_optimized_process : list bool;
  m_memory : backing
}.

Definition with_managers (l : list Impl) (mm : KMemoryManager) : KMemoryManager :=
  MkManager (m_linear_tree mm) (m_pool_managers_head mm) (m_pool_managers_tail mm) l
    (m_num_managers mm) (m_optimized_process_ids mm) (m_has_optimized_process mm) (m_memory mm).
Definition with_pools (head tail : list (option nat)) (n : Z) (mm : KMemoryManager) : KMemoryManager :=
  MkManager (m_linear_tree mm) head tail (m_managers mm) n (m_optimized_process_ids mm)
    (m_has_optimized_process mm) (m_memory mm).
Definition with_optimized (ids : list Z) (has : list bool) (mm : KMemoryManager) : KMemoryManager :=
  MkManager (m_linear_tree mm) (m_pool_managers_head mm) (m_pool_managers_tail mm) (m_managers mm)
    (m_num_managers mm) ids has (m_memory mm).
Definition with_memory (mem : backing) (mm : KMemoryManager) : KMemoryManager :=
  MkManager (m_linear_tree mm) (m_pool_managers_head mm) (m_pool_managers_tail mm) (m_managers mm)
    (m_num_managers mm) (m_optimized_process_ids mm) (m_has_optimized_process mm) mem.

Definition put_manager (i : nat) (im : Impl) (mm : KMemoryManager) : KMemoryManager :=
  with_managers (<[i := im]> (m_managers mm)) mm.
(** A member call on the manager [i]. *)
Definition on_manager (i : nat) (f : Impl → option Impl) (mm : KMemoryManager) : option KMemoryManager :=
  im ← m_managers mm !! i; im ← f im; Some (put_manager i im mm).

(** The index of the manager of an address. *)
Definition GetManager (mm : KMemoryManager) (address : Z) : option nat :=
  r ← Find (m_linear_tree mm) address;
  check (GetAttributes r <? MaxManagerCount);;
  Some (Z.to_nat (GetAttributes r)).

Definition GetFirstManager (mm : KMemoryManager) (pool dir : Z) : option (option nat) :=
  if dir =? Direction.FromBack then at_ (m_pool_managers_tail mm) pool
  else at_ (m_pool_managers_head mm) pool.
Definition GetNextManager (mm : KMemoryManager) (cur : nat) (dir : Z) : option (option nat) :=
  im ← m_managers mm !! cur;
  Some (if dir =? Direction.FromBack then m_prev im else m_next im).

(** A walk visits at most every manager; one more round finds the null pointer. *)
Definition walk_fuel : nat := S (Z.to_nat MaxManagerCount).

(** [m_pool_locks[pool]]: the index of a lock has to exist. *)
Definition lock_pool (pool : Z) : option unit := check (pool <? Pool.Count).

(** The loop over the managers that a range of pages spans: [f] is what is done with the part of
    the range in a manager. A part has a page at least, or the loop would not end. *)
Fixpoint each_manager (fuel : nat) (f : nat → Z → Z → KMemoryManager → option KMemoryManager)
    (mm : KMemoryManager) (address num_pages : Z) : option KMemoryManager :=
  if num_pages =? 0 then Some mm
  else
    match fuel with
    | O => None
    | S fuel =>
        i ← GetManager mm address;
        im ← m_managers mm !! i;
        let cur_pages := Z.min num_pages (Impl_GetPageOffsetToEnd im address) in
        mm ← f i address cur_pages mm;
        each_manager fuel f mm (u64 (address + cur_pages * PageSize)) (num_pages - cur_pages)
    end.

Definition Open (mm : KMemoryManager) (address num_pages : Z) : option KMemoryManager :=
  each_manager (Z.to_nat num_pages)
    (λ i a n, on_manager i (λ im, lock_pool (m_pool im);; Impl_Open im a n)) mm address num_pages.
Definition OpenFirst (mm : KMemoryManager) (address num_pages : Z) : option KMemoryManager :=
  each_manager (Z.to_nat num_pages)
    (λ i a n, on_manager i (λ im, lock_pool (m_pool im);; Impl_OpenFirst im a n)) mm address num_pages.
Definition Close (mm : KMemoryManager) (address num_pages : Z) : option KMemoryManager :=
  each_manager (Z.to_nat num_pages)
    (λ i a n, on_manager i (λ im, lock_pool (m_pool im);; Impl_Close im a n)) mm address num_pages.
Definition ReleaseContinuous (mm : KMemoryManager) (address num_pages : Z) : option KMemoryManager :=
  each_manager (Z.to_nat num_pages)
    (λ i a n, on_manager i (λ im, lock_pool (m_pool im);; Impl_Free im a n)) mm address num_pages.

(** ** Sizes *)
Definition GetSize_all (mm : KMemoryManager) : option Z :=
  foldl (λ total i, total ← total; im ← m_managers mm !! i; Some (u64 (total + Impl_GetSize im)))
    (Some 0) (seq 0 (Z.to_nat (m_num_managers mm))).
Definition GetFreeSize_all (mm : KMemoryManager) : option Z :=
  foldl (λ total i, total ← total; im ← m_managers mm !! i; lock_pool (m_pool im);;
           Some (u64 (total + Impl_GetFreeSize im)))
    (Some 0) (seq 0 (Z.to_nat (m_num_managers mm))).
Fixpoint sum_pool (fuel : nat) (f : Impl → Z) (mm : KMemoryManager) (manager : option nat) (total : Z)
    : option Z :=
  match manager with
  | None => Some total
  | Some i =>
      match fuel with
      | O => None
      | S fuel =>
          im ← m_managers mm !! i;
          next ← GetNextManager mm i Direction.FromFront;
          sum_pool fuel f mm next (u64 (total + f im))
      end
  end.
Definition GetSize (mm : KMemoryManager) (pool : Z) : option Z :=
  first ← GetFirstManager mm pool Direction.FromFront;
  sum_pool walk_fuel Impl_GetSize mm first 0.
Definition GetFreeSize (mm : KMemoryManager) (pool : Z) : option Z :=
  lock_pool pool;;
  first ← GetFirstManager mm pool Direction.FromFront;
  sum_pool walk_fuel Impl_GetFreeSize mm first 0.

(** ** Optimized processes *)
Fixpoint InitializeOptimized_loop (fuel : nat) (mm : KMemoryManager) (manager : option nat)
    : option KMemoryManager :=
  match manager with
  | None => Some mm
  | Some i =>
      match fuel with
      | O => None
      | S fuel =>
          mm ← on_manager i Impl_InitializeOptimizedMemory mm;
          next ← GetNextManager mm i Direction.FromFront;
          InitializeOptimized_loop fuel mm next
      end
  end.
Definition InitializeOptimizedMemory (mm : KMemoryManager) (process_id pool : Z)
    : option (Z * KMemoryManager) :=
  lock_pool pool;;
  has ← at_ (m_has_optimized_process mm) pool;
  if (has : bool) then Some (ResultBusy, mm)
  else
    ids ← set_at (m_optimized_process_ids mm) pool process_id;
    has ← set_at (m_has_optimized_process mm) pool true;
    let mm := with_optimized ids has mm in
    first ← GetFirstManager mm pool Direction.FromFront;
    mm ← InitializeOptimized_loop walk_fuel mm first;
    Some (ResultSuccess, mm).
Definition FinalizeOptimizedMemory (mm : KMemoryManager) (process_id pool : Z) : option KMemoryManager :=
  lock_pool pool;;
  has ← at_ (m_has_optimized_process mm) pool;
  id ← at_ (m_optimized_process_ids mm) pool;
  if has && (id =? process_id) then
    l ← set_at (m_has_optimized_process mm) pool false;
    Some (with_optimized (m_optimized_process_ids mm) l mm)
  else Some mm.

(** ** Contiguous allocation *)

(** The walk of [AllocateAndOpenContinuous]: the chosen manager and the block, 0 if there is none. *)
Fixpoint AllocateAligned_loop (fuel : nat) (mm : KMemoryManager) (manager : option nat)
    (dir heap_index num_pages align_pages : Z) : option (option nat * Z * KMemoryManager) :=
  match manager with
  | None => Some (None, 0, mm)
  | Some i =>
      match fuel with
      | O => None
      | S fuel =>
          im ← m_managers mm !! i;
          '(block, im) ← Impl_AllocateAligned im heap_index num_pages align_pages;
          let mm := put_manager i im mm in
          if negb (block =? 0) then Some (Some i, block, mm)
          else
            next ← GetNextManager mm i dir;
            AllocateAligned_loop fuel mm next dir heap_index num_pages align_pages
      end
  end.

Definition AllocateAndOpenContinuous (mm : KMemoryManager) (num_pages align_pages option_ : Z)
    : option (Z * KMemoryManager) :=
  if num_pages =? 0 then Some (0, mm)
  else
    let '(pool, dir) := DecodeOption option_ in
    lock_pool pool;;
    let heap_index := GetAlignedBlockIndex num_pages align_pages in
    first ← GetFirstManager mm pool dir;
    '(chosen, block, mm) ← AllocateAligned_loop walk_fuel mm first dir heap_index num_pages align_pages;
    if block =? 0 then Some (0, mm)
    else
      chosen ← chosen;
      has ← at_ (m_has_optimized_process mm) pool;
      mm ← (if (has : bool) then on_manager chosen (λ im, TrackUnoptimizedAllocation im block num_pages) mm
            else Some mm);
      mm ← on_manager chosen (λ im, Impl_OpenFirst im block num_pages) mm;
      Some (block, mm).

(** ** Allocation of page groups *)
Record AllocState := MkAlloc {
  al_mm : KMemoryManager;
  al_out : KPageGroup.group;
  al_slab : nat;
  al_left : Z
}.

(** [while (num_pages >= pages_per_alloc)] *)
Fixpoint AllocatePageGroup_while (fuel : nat) (i : nat) (index pages_per_alloc : Z)
    (unoptimized random : bool) (s : AllocState) : option (Z * AllocState) :=
  if pages_per_alloc <=? al_left s then
    match fuel with
    | O => None
    | S fuel =>
        im ← m_managers (al_mm s) !! i;
        '(allocated_block, im) ← Impl_AllocateBlock im index random;
        let mm := put_manager i im (al_mm s) in
        if allocated_block =? 0 then
          Some (ResultSuccess, MkAlloc mm (al_out s) (al_slab s) (al_left s))
        else
          '(rc, out, slab) ← KPageGroup.AddBlock (al_out s) (al_slab s) allocated_block pages_per_alloc;
          if Result.IsError rc then
            mm ← on_manager i (λ im, Impl_Free im allocated_block pages_per_alloc) mm;
            Some (rc, MkAlloc mm out slab (al_left s))
          else
            mm ← (if unoptimized
                  then on_manager i (λ im, TrackUnoptimizedAllocation im allocated_block pages_per_alloc) mm
                  else Some mm);
            AllocatePageGroup_while fuel i index pages_per_alloc unoptimized random
              (MkAlloc mm out slab (al_left s - pages_per_alloc))
    end
  else Some (ResultSuccess, s).

(** The walk over the managers at one block size. *)
Fixpoint AllocatePageGroup_managers (fuel : nat) (cur : option nat) (dir index pages_per_alloc : Z)
    (unoptimized random : bool) (s : AllocState) : option (Z * AllocState) :=
  match cur with
  | None => Some (ResultSuccess, s)
  | Some i =>
      match fuel with
      | O => None
      | S fuel =>
          '(rc, s) ← AllocatePageGroup_while (S (Z.to_nat (al_left s / pages_per_alloc))) i index
                       pages_per_alloc unoptimized random s;
          if Result.IsError rc then Some (rc, s)
          else
            next ← GetNextManager (al_mm s) i dir;
            AllocatePageGroup_managers fuel next dir index pages_per_alloc unoptimized random s
      end
  end.

(** [for (index = heap_index; index >= 0 && num_pages > 0; index--)]; [n] is [index + 1]. *)
Fixpoint AllocatePageGroup_levels (n : nat) (pool dir : Z) (unoptimized random : bool) (s : AllocState)
    : option (Z * AllocState) :=
  match n with
  | O => Some (ResultSuccess, s)
  | S i =>
      if 0 <? al_left s then
        let index := Z.of_nat i in
        pages_per_alloc ← GetBlockNumPages index;
        first ← GetFirstManager (al_mm s) pool dir;
        '(rc, s) ← AllocatePageGroup_managers walk_fuel first dir index pages_per_alloc unoptimized random s;
        if Result.IsError rc then Some (rc, s)
        else AllocatePageGroup_levels i pool dir unoptimized random s
      else Some (ResultSuccess, s)
  end.

(** [ON_RESULT_FAILURE]: every block is freed in its manager, up to the manager's end. *)
Fixpoint free_group (mm : KMemoryManager) (out : KPageGroup.group) : option KMemoryManager :=
  match out with
  | [] => Some mm
  | it :: out =>
      i ← GetManager mm (KBlockInfo.GetAddress it);
      im ← m_managers mm !! i;
      let node_num_pages := Z.min (KBlockInfo.GetNumPages it)
        (u64 (Impl_GetEndAddress im - KBlockInfo.GetAddress it) / PageSize) in
      im ← Impl_Free im (KBlockInfo.GetAddress it) node_num_pages;
      free_group (put_manager i im mm) out
  end.

Definition AllocatePageGroupImpl (mm : KMemoryManager) (out : KPageGroup.group) (slab : nat)
    (num_pages pool dir : Z) (unoptimized random : bool)
    : option (Z * KMemoryManager * KPageGroup.group * nat) :=
  let heap_index := GetBlockIndex num_pages in
  if negb (0 <=? heap_index) then Some (ResultOutOfMemory, mm, out, slab)
  else
    '(rc, s) ← AllocatePageGroup_levels (Z.to_nat (heap_index + 1)) pool dir unoptimized random
                 (MkAlloc mm out slab num_pages);
    let rc := if Result.IsError rc then rc
              else if al_left s =? 0 then ResultSuccess else ResultOutOfMemory in
    if Result.IsError rc then
      mm ← free_group (al_mm s) (al_out s);
      let (out, slab) := KPageGroup.Finalize (al_out s) (al_slab s) in
      Some (rc, mm, out, slab)
    else Some (rc, al_mm s, al_out s, al_slab s).

(** The loop over the blocks of a group, with what is done for each. *)
Fixpoint each_block (f : KMemoryManager → Z → Z → option KMemoryManager) (mm : KMemoryManager)
    (g : KPageGroup.group) : option KMemoryManager :=
  match g with
  | [] => Some mm
  | it :: g => mm ← f mm (KBlockInfo.GetAddress it) (KBlockInfo.GetNumPages it); each_block f mm g
  end.

(** The loop of [AllocateAndOpen] over the managers of a block; it holds the pool's lock. *)
Definition OpenFirst_block (mm : KMemoryManager) (address num_pages : Z) : option KMemoryManager :=
  each_manager (Z.to_nat num_pages) (λ i a n, on_manager i (λ im, Impl_OpenFirst im a n)) mm address num_pages.

Definition AllocateAndOpen (mm : KMemoryManager) (out : KPageGroup.group) (slab : nat)
    (num_pages option_ : Z) : option (Z * KMemoryManager * KPageGroup.group * nat) :=
  check (KPageGroup.GetNumPages out =? 0);;
  if num_pages =? 0 then Some (ResultSuccess, mm, out, slab)
  else
    let '(pool, dir) := DecodeOption option_ in
    lock_pool pool;;
    has ← at_ (m_has_optimized_process mm) pool;
    '(rc, mm, out, slab) ← AllocatePageGroupImpl mm out slab num_pages pool dir has true;
    if Result.IsError rc then Some (rc, mm, out, slab)
    else
      mm ← each_block OpenFirst_block mm out;
      Some (ResultSuccess, mm, out, slab).

(** ** Allocation for a process *)

(** The first loop over the managers of a block: [any_new] is overwritten by each part. *)
Fixpoint Process_loop (fuel : nat) (fill_pattern : Z) (mm : KMemoryManager) (any_new : bool)
    (address num_pages : Z) : option (bool * KMemoryManager) :=
  if num_pages =? 0 then Some (any_new, mm)
  else
    match fuel with
    | O => None
    | S fuel =>
        i ← GetManager mm address;
        im ← m_managers mm !! i;
        let cur_pages := Z.min num_pages (Impl_GetPageOffsetToEnd im address) in
        '(any_new, mem) ← ProcessOptimizedAllocation im (m_memory mm) address cur_pages fill_pattern;
        Process_loop fuel fill_pattern (with_memory mem mm) any_new
          (u64 (address + cur_pages * PageSize)) (num_pages - cur_pages)
    end.
Definition Track_block (mm : KMemoryManager) (address num_pages : Z) : option KMemoryManager :=
  each_manager (Z.to_nat num_pages)
    (λ i a n, on_manager i (λ im, lock_pool (m_pool im);; TrackOptimizedAllocation im a n)) mm address num_pages.
Definition Process_block (fill_pattern : Z) (mm : KMemoryManager) (block_address block_pages : Z)
    : option KMemoryManager :=
  if block_pages =? 0 then Some mm
  else
    '(any_new, mm) ← Process_loop (Z.to_nat block_pages) fill_pattern mm false block_address block_pages;
    if (any_new : bool) then Track_block mm block_address block_pages else Some mm.
Definition Clear_block (fill_pattern : Z) (mm : KMemoryManager) (address num_pages : Z)
    : option KMemoryManager :=
  Some (with_memory (fill (m_memory mm) (address - DramMemoryMap_Base) (u64 (num_pages * PageSize))
          fill_pattern) mm).

Definition AllocateForProcess (mm : KMemoryManager) (out : KPageGroup.group) (slab : nat)
    (num_pages option_ process_id fill_pattern : Z)
    : option (Z * KMemoryManager * KPageGroup.group * nat) :=
  check (KPageGroup.GetNumPages out =? 0);;
  let '(pool, dir) := DecodeOption option_ in
  lock_pool pool;;
  has_optimized ← at_ (m_has_optimized_process mm) pool;
  id ← at_ (m_optimized_process_ids mm) pool;
  let is_optimized := id =? process_id in
  '(rc, mm, out, slab) ← AllocatePageGroupImpl mm out slab num_pages pool dir
                           (has_optimized && negb is_optimized) false;
  if Result.IsError rc then Some (rc, mm, out, slab)
  else
    mm ← each_block (if has_optimized && is_optimized then Process_block fill_pattern
                     else Clear_block fill_pattern) mm out;
    Some (ResultSuccess, mm, out, slab).

(** The part of a range in one manager. *)
Definition Prepare_part (optimized has_optimized_process : bool) (pool fill_pattern : Z)
    (i : nat) (address cur_pages : Z) (mm : KMemoryManager) : option KMemoryManager :=
  if optimized then
    im ← m_managers mm !! i;
    '(any_new, mem) ← ProcessOptimizedAllocation im (m_memory mm) address cur_pages fill_pattern;
    let mm := with_memory mem mm in
    if (any_new : bool)
    then on_manager i (λ im, lock_pool (m_pool im);; TrackOptimizedAllocation im address cur_pages) mm
    else Some mm
  else
    mm ← (if has_optimized_process
          then on_manager i (λ im, TrackUnoptimizedAllocation im address cur_pages) mm else Some mm);
    Clear_block fill_pattern mm address cur_pages.
Definition PrepareForProcess (mm : KMemoryManager) (address num_pages pool process_id fill_pattern : Z)
    : option KMemoryManager :=
  lock_pool pool;;
  has ← at_ (m_has_optimized_process mm) pool;
  id ← at_ (m_optimized_process_ids mm) pool;
  each_manager (Z.to_nat num_pages) (Prepare_part (has && (id =? process_id)) has pool fill_pattern)
    mm address num_pages.

(** The results after the code: [out_tail_address] and [out_tail_pages]. *)
Definition AllocateForProcessContinuous (mm : KMemoryManager) (out : KPageGroup.group) (slab : nat)
    (num_pages reserve_pages option_ process_id fill_pattern : Z)
    : option (Z * Z * Z * KMemoryManager * KPageGroup.group * nat) :=
  check (KPageGroup.GetNumPages out =? 0);;
  check ((0 <? num_pages) && (num_pages <=? reserve_pages));;
  let '(pool, dir) := DecodeOption option_ in
  lock_pool pool;;
  let heap_index := GetAlignedBlockIndex reserve_pages 1 in
  first ← GetFirstManager mm pool dir;
  '(_, block, mm) ← AllocateAligned_loop walk_fuel mm first dir heap_index reserve_pages 1;
  if block =? 0 then Some (ResultOutOfMemory, 0, 0, mm, out, slab)
  else
    '(add_result, out, slab) ← KPageGroup.AddBlock out slab block num_pages;
    if Result.IsError add_result then
      mm ← ReleaseContinuous mm block reserve_pages;
      Some (add_result, 0, 0, mm, out, slab)
    else
      mm ← PrepareForProcess mm block num_pages pool process_id fill_pattern;
      Some (ResultSuccess, u64 (block + num_pages * PageSize), reserve_pages - num_pages, mm, out, slab).

Definition ConsumeForProcess (mm : KMemoryManager) (out : KPageGroup.group) (slab : nat)
    (address num_pages option_ process_id fill_pattern : Z)
    : option (Z * KMemoryManager * KPageGroup.group * nat) :=
  check (KPageGroup.GetNumPages out =? 0);;
  let '(pool, _) := DecodeOption option_ in
  '(rc, out, slab) ← KPageGroup.AddBlock out slab address num_pages;
  if Result.IsError rc then Some (rc, mm, out, slab)
  else
    mm ← PrepareForProcess mm address num_pages pool process_id fill_pattern;
    Some (ResultSuccess, mm, out, slab).

(** ** The operations of a page group (k_page_group.cpp) *)
Definition group_Open (mm : KMemoryManager) (g : KPageGroup.group) : option KMemoryManager :=
  each_block Open mm g.
Definition group_OpenFirst (mm : KMemoryManager) (g : KPageGroup.group) : option KMemoryManager :=
  each_block OpenFirst mm g.
Definition group_Close (mm : KMemoryManager) (g : KPageGroup.group) : option KMemoryManager :=
  each_block Close mm g.
Fixpoint CloseAndReset (mm : KMemoryManager) (g : KPageGroup.group) (slab : nat)
    : option (KMemoryManager * KPageGroup.group * nat) :=
  match g with
  | [] => Some (mm, [], slab)
  | cur :: g =>
      mm ← Close mm (KBlockInfo.GetAddress cur) (KBlockInfo.GetNumPages cur);
      CloseAndReset mm g (S slab)
  end.

(** ** Initialization *)

(** The extents of the regions of manager [n]: (region_address, region_size, region_pool). *)
Fixpoint region_extents (regions : region_tree) (n : Z) (region_address region_size region_pool : Z)
    : option (Z * Z * Z) :=
  match regions with
  | [] => Some (region_address, region_size, region_pool)
  | it :: regions =>
      if negb (IsDerivedFrom it (m_value KMemoryRegionType_DramUserPool))
         || negb (GetAttributes it =? n)
      then region_extents regions n region_address region_size region_pool
      else
        let cur_start := MemoryRegion.GetAddress it in
        let cur_end := MemoryRegion.GetEndAddress it in
        check (negb (cur_end =? 0));;
        check (negb (cur_start =? 0));;
        check (0 <? MemoryRegion.GetSize it);;
        pool ← GetPoolFromMemoryRegionType (GetType it);
        if region_address =? 0 then
          region_extents regions n cur_start (MemoryRegion.GetSize it) pool
        else
          check (cur_start =? u64 (region_address + region_size));;
          check (pool =? region_pool);;
          region_extents regions n region_address (u64 (cur_end - region_address)) region_pool
  end.

(** One manager appended to the list of its pool. *)
Definition link_manager (mm : KMemoryManager) (i : nat) (pool : Z) : option KMemoryManager :=
  tail ← at_ (m_pool_managers_tail mm) pool;
  '(mm, head) ←
    match tail with
    | None =>
        head ← set_at (m_pool_managers_head mm) pool (Some i);
        Some (mm, head)
    | Some t =>
        mm ← on_manager t (λ im, Some (SetNext (Some i) im)) mm;
        mm ← on_manager i (λ im, Some (SetPrev (Some t) im)) mm;
        Some (mm, m_pool_managers_head mm)
    end;
  tail ← set_at (m_pool_managers_tail mm) pool (Some i);
  Some (with_pools head tail (m_num_managers mm) mm).

(** [while (m_num_managers != MaxManagerCount)]; [fuel] managers are left. *)
Fixpoint Initialize_managers (fuel : nat) (regions : region_tree) (bms : nat → list B)
    (host_base : nat → Z) (mm : KMemoryManager) (management_region management_region_end : Z)
    : option KMemoryManager :=
  if m_num_managers mm =? MaxManagerCount then Some mm
  else
    match fuel with
    | O => None
    | S fuel =>
        '(region_address, region_size, region_pool) ←
          region_extents regions (m_num_managers mm) 0 0 Pool.Count;
        if region_size =? 0 then Some mm
        else
          let i := Z.to_nat (m_num_managers mm) in
          im ← m_managers mm !! i;
          '(cur_size, im) ← Impl_Initialize im (bms i) (host_base i) region_address region_size
                              management_region management_region_end region_pool;
          let management_region := u64 (management_region + cur_size) in
          check (management_region <=? management_region_end);;
          let mm := with_pools (m_pool_managers_head mm) (m_pool_managers_tail mm)
                      (m_num_managers mm + 1) (put_manager i im mm) in
          mm ← link_manager mm i region_pool;
          Initialize_managers fuel regions bms host_base mm management_region management_region_end
    end.

(** The regions are freed to the heaps, but for the initial process binary. *)
Fixpoint Initialize_free (regions : region_tree) (ini_start ini_size : Z) (mm : KMemoryManager)
    (reserved_sizes : list Z) : option (KMemoryManager * list Z) :=
  match regions with
  | [] => Some (mm, reserved_sizes)
  | it :: regions =>
      if IsDerivedFrom it (m_value KMemoryRegionType_DramUserPool) then
        check (GetAttributes it <? MaxManagerCount);;
        let i := Z.to_nat (GetAttributes it) in
        let ini_end := u64 (ini_start + ini_size) in
        let ini_last := u64 (ini_end - 1) in
        let cur_start := MemoryRegion.GetAddress it in
        let cur_last := GetLastAddress it in
        let cur_end := MemoryRegion.GetEndAddress it in
        if (cur_start <=? ini_start) && (ini_last <=? cur_last) then
          mm ← (if negb (cur_start =? ini_start)
                then on_manager i (λ im, Impl_Free im cur_start (u64 (ini_start - cur_start) / PageSize)) mm
                else Some mm);
          mm ← on_manager i (λ im, Impl_OpenFirst im ini_start (ini_size / PageSize)) mm;
          r ← at_ reserved_sizes (GetAttributes it);
          reserved_sizes ← set_at reserved_sizes (GetAttributes it) (u64 (r + ini_size));
          mm ← (if negb (ini_last =? cur_last)
                then check (negb (cur_end =? 0));;
                     on_manager i (λ im, Impl_Free im ini_end (u64 (cur_end - ini_end) / PageSize)) mm
                else Some mm);
          Initialize_free regions ini_start ini_size mm reserved_sizes
        else
          check (if cur_start <=? ini_last then cur_last <? ini_start else negb (cur_end =? 0));;
          mm ← on_manager i (λ im, Impl_Free im cur_start (MemoryRegion.GetSize it / PageSize)) mm;
          Initialize_free regions ini_start ini_size mm reserved_sizes
      else Initialize_free regions ini_start ini_size mm reserved_sizes
  end.

Definition Initialize_used (mm : KMemoryManager) (reserved_sizes : list Z) : option KMemoryManager :=
  foldl (λ mm i, mm ← mm; r ← reserved_sizes !! i; on_manager i (λ im, SetInitialUsedHeapSize im r) mm)
    (Some mm) (seq 0 (Z.to_nat (m_num_managers mm))).

Definition InitialProcessBinarySizeMax : Z := 12 * 2 ^ 20.

(** [regions] is the physical region tree, [ini_start] what
    [GetInitialProcessBinaryPhysicalAddress] answers. *)
Definition Initialize (mm : KMemoryManager) (regions : region_tree) (bms : nat → list B)
    (host_base : nat → Z) (ini_start management_region management_region_size : Z)
    : option KMemoryManager :=
  let management_region_end := u64 (management_region + management_region_size) in
  let mm := with_pools (m_pool_managers_head mm) (m_pool_managers_tail mm) 0 mm in
  mm ← Initialize_managers (Z.to_nat MaxManagerCount) regions bms host_base mm management_region
         management_region_end;
  '(mm, reserved_sizes) ← Initialize_free regions ini_start InitialProcessBinarySizeMax mm
                            (replicate (Z.to_nat MaxManagerCount) 0);
  Initialize_used mm reserved_sizes.
End manager.
