(* ===== verification/ManagerImpl.v ===== *)
(** One manager of the physical memory ([KMemoryManager::Impl], definitions in
    MemoryManager.v): its invariant, and what its operations do to the free pages, the reference
    counts and the optimized-process bits of its pages. *)
From S2P Require Import Prelude Common PageBitmap MemoryRegion Results PageGroup PageHeap PageHeapAlloc MemoryManager.

(** * The loops over the reference counts *)
Lemma at_word (l : list Z) i : 0 ≤ i < Z.of_nat (length l) → at_ l i = Some (word_at l i).
Proof. intros. apply at_ok; [lia|]. by apply word_at_lookup. Qed.

Lemma OpenFirst_loop_spec n l i :
  0 ≤ i → i + Z.of_nat n ≤ Z.of_nat (length l) → Z.of_nat (length l) < 2 ^ 63 →
  (∀ j, i ≤ j < i + Z.of_nat n → word_at l j = 0) →
  ∃ l', OpenFirst_loop n l i (i + Z.of_nat n) = Some l' ∧ length l' = length l
    ∧ ∀ j, 0 ≤ j → word_at l' j = if decide (i ≤ j < i + Z.of_nat n) then 1 else word_at l j.
Proof.
  revert l i. induction n as [|n IH]; intros l i H0 Hle Hb Hz.
  - exists l. cbn [OpenFirst_loop Open_loop]. rewrite (proj2 (Z.ltb_ge i _)) by lia. split_and!; [done..|].
    intros j _. by rewrite decide_False by lia.
  - cbn [OpenFirst_loop]. rewrite (proj2 (Z.ltb_lt i _)), at_word by lia. cbn [mbind option_bind].
    rewrite Hz by lia. rewrite set_at_ok by lia. cbn. change (u16 1) with 1. cbn [Z.eqb Pos.eqb].
    rewrite (wrap_small 64) by (unfold in_width; lia).
    replace (i + Z.of_nat (S n)) with ((i + 1) + Z.of_nat n) by lia.
    destruct (IH (<[Z.to_nat i := 1]> l) (i + 1)) as (l' & E & El & Hl');
      [lia|rewrite length_insert; lia|rewrite length_insert; lia| |].
    { intros j Hj. rewrite word_at_insert by lia. rewrite decide_False by lia. apply Hz. lia. }
    exists l'. split_and!; [exact E|by rewrite El, length_insert|].
    intros j Hj. rewrite Hl', word_at_insert by lia. repeat case_decide; try done; lia.
Qed.

Lemma Open_loop_spec n l i :
  0 ≤ i → i + Z.of_nat n ≤ Z.of_nat (length l) → Z.of_nat (length l) < 2 ^ 63 →
  (∀ j, i ≤ j < i + Z.of_nat n → 0 < word_at l j < 65535) →
  ∃ l', Open_loop n l i (i + Z.of_nat n) = Some l' ∧ length l' = length l
    ∧ ∀ j, 0 ≤ j →
      word_at l' j = if decide (i ≤ j < i + Z.of_nat n) then word_at l j + 1 else word_at l j.
Proof.
  revert l i. induction n as [|n IH]; intros l i H0 Hle Hb Hz.
  - exists l. cbn [OpenFirst_loop Open_loop]. rewrite (proj2 (Z.ltb_ge i _)) by lia. split_and!; [done..|].
    intros j _. by rewrite decide_False by lia.
  - cbn [Open_loop]. rewrite (proj2 (Z.ltb_lt i _)), at_word by lia. cbn [mbind option_bind].
    pose proof (Hz i ltac:(lia)). rewrite (wrap_small 16), set_at_ok by (unfold in_width; lia).
    cbn [mbind option_bind]. rewrite check_bind_Some by (apply Z.ltb_lt; lia).
    rewrite (wrap_small 64) by (unfold in_width; lia).
    replace (i + Z.of_nat (S n)) with ((i + 1) + Z.of_nat n) by lia.
    destruct (IH (<[Z.to_nat i := word_at l i + 1]> l) (i + 1)) as (l' & E & El & Hl');
      [lia|rewrite length_insert; lia|rewrite length_insert; lia| |].
    { intros j Hj. rewrite word_at_insert by lia. rewrite decide_False by lia. apply Hz. lia. }
    exists l'. split_and!; [exact E|by rewrite El, length_insert|].
    intros j Hj. rewrite Hl', word_at_insert by lia. repeat case_decide; subst; try done; lia.
Qed.

(** * The loops over the optimized-process bits *)
Lemma TrackOptimized_loop_spec n l i :
  0 ≤ i → i + Z.of_nat n ≤ 64 * Z.of_nat (length l) → 64 * Z.of_nat (length l) < 2 ^ 63 →
  Forall (in_width 64) l →
  ∃ l', TrackOptimized_loop n l i (i + Z.of_nat n - 1) = Some l' ∧ length l' = length l
    ∧ Forall (in_width 64) l'
    ∧ ∀ j, 0 ≤ j → bit_at l' j = bool_decide (i ≤ j < i + Z.of_nat n) || bit_at l j.
Proof.
  revert l i. induction n as [|n IH]; intros l i H0 Hle Hb Hw.
  - exists l. cbn [TrackOptimized_loop TrackUnoptimized_loop]. rewrite (proj2 (Z.leb_gt i _)) by lia. split_and!; [done..|].
    intros j _. by rewrite bool_decide_false by lia.
  - cbn [TrackOptimized_loop]. rewrite (proj2 (Z.leb_le i _)) by lia.
    destruct (div_64_range i (Z.of_nat (length l))) as [Hd Hm]; [lia|].
    rewrite at_word by lia. cbn [mbind option_bind]. rewrite set_at_ok by lia. cbn [mbind option_bind].
    rewrite (wrap_small 64) by (unfold in_width; lia).
    replace (i + Z.of_nat (S n) - 1) with ((i + 1) + Z.of_nat n - 1) by lia.
    set (l1 := <[Z.to_nat (i / 64) := _]> l).
    destruct (IH l1 (i + 1)) as (l' & E & El & Hw' & Hl').
    { lia. } { subst l1. rewrite length_insert. lia. } { subst l1. rewrite length_insert. lia. }
    { apply Forall_insert; [done|]. apply lor_in_width; [lia|by apply word_at_width|].
      apply shiftl_1_in_width. lia. }
    exists l'. split_and!; [exact E|subst l1; by rewrite El, length_insert|done|].
    intros j Hj. rewrite Hl' by done. subst l1. rewrite bit_at_set by lia.
    destruct (bit_at l j); rewrite ?orb_true_r; [done|]. rewrite !orb_false_r.
    repeat case_bool_decide; try done; lia.
Qed.

Lemma TrackUnoptimized_loop_spec n l i :
  0 ≤ i → i + Z.of_nat n ≤ 64 * Z.of_nat (length l) → 64 * Z.of_nat (length l) < 2 ^ 63 →
  Forall (in_width 64) l →
  ∃ l', TrackUnoptimized_loop n l i (i + Z.of_nat n - 1) = Some l' ∧ length l' = length l
    ∧ Forall (in_width 64) l'
    ∧ ∀ j, 0 ≤ j → bit_at l' j = negb (bool_decide (i ≤ j < i + Z.of_nat n)) && bit_at l j.
Proof.
  revert l i. induction n as [|n IH]; intros l i H0 Hle Hb Hw.
  - exists l. cbn [TrackOptimized_loop TrackUnoptimized_loop]. rewrite (proj2 (Z.leb_gt i _)) by lia. split_and!; [done..|].
    intros j _. by rewrite bool_decide_false by lia.
  - cbn [TrackUnoptimized_loop]. rewrite (proj2 (Z.leb_le i _)) by lia.
    destruct (div_64_range i (Z.of_nat (length l))) as [Hd Hm]; [lia|].
    rewrite at_word by lia. cbn [mbind option_bind]. rewrite set_at_ok by lia. cbn [mbind option_bind].
    rewrite (wrap_small 64) by (unfold in_width; lia).
    replace (i + Z.of_nat (S n) - 1) with ((i + 1) + Z.of_nat n - 1) by lia.
    set (l1 := <[Z.to_nat (i / 64) := _]> l).
    destruct (IH l1 (i + 1)) as (l' & E & El & Hw' & Hl').
    { lia. } { subst l1. rewrite length_insert. lia. } { subst l1. rewrite length_insert. lia. }
    { apply Forall_insert; [done|]. apply land_in_width; [lia|by apply word_at_width]. }
    exists l'. split_and!; [exact E|subst l1; by rewrite El, length_insert|done|].
    intros j Hj. rewrite Hl' by done. subst l1. rewrite bit_at_clear by (done || lia).
    destruct (bit_at l j); rewrite ?andb_false_r; [|done]. rewrite !andb_true_r.
    repeat case_bool_decide; simpl; try done; lia.
Qed.

(** The page of a byte of the backing buffer. *)
Definition page_of (a : Z) : Z := (a + DramMemoryMap_Base) / PageSize.

Lemma fill_pages mem p n v a : 0 ≤ n →
  fill mem (p * PageSize - DramMemoryMap_Base) (n * PageSize) v a
  = if decide (p ≤ page_of a < p + n) then u8 v else mem a.
Proof.
  intros Hn. unfold fill, page_of. set (x := a + DramMemoryMap_Base).
  pose proof (Z.div_mod x PageSize ltac:(done)). pose proof (Z.mod_pos_bound x PageSize ltac:(done)).
  unfold PageSize in *.
  case_decide; destruct (Z.leb_spec (p * 4096 - DramMemoryMap_Base) a),
    (Z.ltb_spec a (p * 4096 - DramMemoryMap_Base + n * 4096)); simpl; try done; lia.
Qed.

Lemma ProcessOptimized_loop_spec n l p v mem any i :
  0 ≤ i → i + Z.of_nat n ≤ 64 * Z.of_nat (length l) → 64 * Z.of_nat (length l) < 2 ^ 63 →
  ∃ any' mem', ProcessOptimized_loop n l (p * PageSize - DramMemoryMap_Base) v mem any i
                 (i + Z.of_nat n - 1) = Some (any', mem')
    ∧ (any' = true ↔ any = true ∨ ∃ j, i ≤ j < i + Z.of_nat n ∧ bit_at l j = false)
    ∧ ∀ a, mem' a = if decide (i ≤ page_of a - p < i + Z.of_nat n ∧ bit_at l (page_of a - p) = false)
                    then u8 v else mem a.
Proof.
  revert mem any i. induction n as [|n IH]; intros mem any i H0 Hle Hb.
  - exists any, mem. cbn [ProcessOptimized_loop]. rewrite (proj2 (Z.leb_gt i _)) by lia. split_and!; [done| |].
    + split; [by left|]. intros [|(j & ? & _)]; [done|lia].
    + intros a. by rewrite decide_False by lia.
  - cbn [ProcessOptimized_loop]. rewrite (proj2 (Z.leb_le i _)) by lia.
    destruct (div_64_range i (Z.of_nat (length l))) as [Hd Hm]; [lia|].
    rewrite at_word by lia. cbn [mbind option_bind]. rewrite land_mask_0 by lia.
    change (Z.testbit (word_at l (i / 64)) (i mod 64)) with (bit_at l i).
    rewrite (wrap_small 64) by (unfold in_width; lia).
    replace (i + Z.of_nat (S n) - 1) with ((i + 1) + Z.of_nat n - 1) by lia.
    destruct (bit_at l i) eqn:E; cbn [negb].
    + destruct (IH mem any (i + 1)) as (any' & mem' & -> & Hany & Hmem); [lia..|].
      exists any', mem'. split_and!; [done| |].
      * rewrite Hany. split; (intros [?|(j & ? & ?)]; [by left|]); right; exists j; (split; [|done]); [lia|].
        assert (j ≠ i) by congruence. lia.
      * intros a. rewrite Hmem. destruct (decide (page_of a - p = i)) as [Ea|].
        -- rewrite Ea, !decide_False; [done|intros [_ ?]; congruence|lia].
        -- apply decide_ext. intuition lia.
    + change (fill mem ?o PageSize v) with (fill mem o (1 * PageSize) v).
      replace (p * PageSize - DramMemoryMap_Base + i * PageSize) with ((p + i) * PageSize - DramMemoryMap_Base) by lia.
        destruct (IH (fill mem ((p + i) * PageSize - DramMemoryMap_Base) (1 * PageSize) v) true (i + 1))
        as (any' & mem' & -> & Hany & Hmem); [lia..|].
      exists any', mem'. split_and!; [done| |].
      * rewrite Hany. split; [|by left]. intros _. right. exists i. split; [lia|done].
      * intros a. rewrite Hmem, fill_pages by lia.
        destruct (decide (page_of a - p = i)) as [Ea|].
        -- rewrite Ea, (decide_False (P := i + 1 ≤ _ < _ ∧ _)) by lia.
           rewrite (decide_True (P := i ≤ _ < _ ∧ _)) by (split; [lia|done]). by rewrite decide_True by lia.
        -- rewrite (decide_False (P := p + i ≤ _ < _)) by lia. apply decide_ext. intuition lia.
Qed.

(** * The invariant of a manager *)
Section impl.
Context {B : Type} `{FB : FreeBitmap B}.
Implicit Types im : Impl (B := B).
Implicit Types h : KPageHeap (B := B).

Definition base_page im : Z := m_heap_address (m_heap im) / PageSize.
Definition im_pages im : Z := m_heap_size (m_heap im) / PageSize.
Definition im_page im (p : Z) : Prop := base_page im ≤ p < base_page im + im_pages im.
Definition im_free im (p : Z) : Prop := free_page (m_heap im) p.
Definition count_at im (p : Z) : Z := word_at (m_page_reference_counts im) (p - base_page im).
Definition marked im (p : Z) : bool := bit_at (optimize_map im) (p - base_page im).

(** What no operation after the initialization changes. *)
Definition shape im : Z * Z * Z * Z * option nat * option nat :=
  (m_heap_address (m_heap im), m_heap_size (m_heap im), m_management_region im, m_pool im,
   m_next im, m_prev im).

Record impl_ok im : Prop := {
  io_heap : heap_ok (m_heap im);
  io_levels i k : m_blocks (m_heap im) !! i = Some k → MemoryBlockPageShifts !! i = Some (m_block_shift k);
  io_length : length (m_blocks (m_heap im)) = 7%nat;
  io_address : m_heap_address (m_heap im) mod PageSize = 0
    ∧ 0 < m_heap_address (m_heap im)
    ∧ m_heap_address (m_heap im) + m_heap_size (m_heap im) ≤ 2 ^ 43;
  io_size : m_heap_size (m_heap im) mod PageSize = 0 ∧ 0 < m_heap_size (m_heap im) ≤ 2 ^ 40;
  io_region : in_region (m_heap im) (m_heap_address (m_heap im)) (m_heap_size (m_heap im));
  io_free p : im_free im p → im_page im p ∧ count_at im p = 0;
  io_free_set : ∃ X : gset Z, (∀ p, p ∈ X ↔ im_free im p)
    ∧ free_pages (m_heap im) = Z.of_nat (size X);
  io_counts : Z.of_nat (length (m_page_reference_counts im)) = im_pages im;
  io_range : Forall (in_width 16) (m_page_reference_counts im);
  io_map : im_pages im ≤ 64 * Z.of_nat (length (optimize_map im)) ≤ 2 ^ 40
    ∧ Forall (in_width 64) (optimize_map im);
  io_pool : 0 ≤ m_pool im < Pool.Count
}.

Lemma page_in_pages p n q : page_in (p * PageSize) (n * PageSize) q ↔ p ≤ q < p + n.
Proof. unfold page_in, PageSize. lia. Qed.

Lemma page_in_pages_1 p n q : page_in (p * PageSize) (n * PageSize) q → p ≤ q < p + n.
Proof. apply page_in_pages. Qed.

Lemma impl_extent im : impl_ok im →
  m_heap_address (m_heap im) = base_page im * PageSize ∧ m_heap_size (m_heap im) = im_pages im * PageSize
  ∧ 0 < base_page im ∧ 0 < im_pages im ≤ 2 ^ 28 ∧ base_page im + im_pages im ≤ 2 ^ 31.
Proof.
  intros H. destruct (io_address _ H) as (A1 & A2 & A3), (io_size _ H) as (S1 & S2).
  apply mod_0_mul in A1; [|done]. apply mod_0_mul in S1; [|done]. fold (base_page im) in A1. fold (im_pages im) in S1.
  unfold PageSize in *. split_and!; try done; lia.
Qed.

Lemma shape_pages im im' : shape im' = shape im → base_page im' = base_page im ∧ im_pages im' = im_pages im.
Proof. unfold shape, base_page, im_pages. by intros [= -> -> _ _ _ _]. Qed.

Lemma shape_im_page im im' p : shape im' = shape im → im_page im' p ↔ im_page im p.
Proof. intros [E1 E2]%shape_pages. unfold im_page. by rewrite E1, E2. Qed.

Lemma im_free_pages im : impl_ok im → 0 ≤ free_pages (m_heap im) ≤ im_pages im.
Proof.
  intros H. destruct (io_free_set _ H) as (X & HX & ->). split; [lia|].
  destruct (impl_extent im H) as (_ & _ & _ & ? & _).
  assert (X ⊆ range_set (base_page im) (im_pages im)) as Hs.
  { intros p Hp%HX. apply elem_of_range_set. by apply (io_free _ H). }
  apply subseteq_size in Hs. pose proof (size_range_set (base_page im) (im_pages im) ltac:(lia)). lia.
Qed.

Lemma page_region im p n :
  impl_ok im → im_page im p → 0 ≤ n → p + n ≤ base_page im + im_pages im →
  in_region (m_heap im) (p * PageSize) (n * PageSize).
Proof.
  intros H Hp Hn Hle. destruct (impl_extent im H) as (Ea & Es & _). unfold im_page in Hp.
  eapply in_region_sub; [apply (io_region _ H)|rewrite Ea; unfold PageSize; lia|rewrite Ea, Es; unfold PageSize; lia].
Qed.

Lemma same_frame_levels h h' : same_frame h h' →
  (∀ i k, m_blocks h !! i = Some k → MemoryBlockPageShifts !! i = Some (m_block_shift k)) →
  ∀ i k, m_blocks h' !! i = Some k → MemoryBlockPageShifts !! i = Some (m_block_shift k).
Proof.
  intros F Hl i k Hk. destruct (same_frame_lookup h' h i k) as (k0 & Hk0 & El); [|done|].
  - destruct F as (? & ? & ? & ? & ?). by split_and!.
  - rewrite (Hl i k0 Hk0). f_equal. change (m_block_shift ?x) with (l_shift (layout x)). by rewrite El.
Qed.

(** Replacing the heap by one of the same frame. *)
Lemma with_heap_ok im h' :
  impl_ok im → heap_ok h' → same_frame (m_heap im) h' →
  (∀ p, free_page h' p → im_page im p ∧ count_at im p = 0) →
  (∃ X : gset Z, (∀ p, p ∈ X ↔ free_page h' p) ∧ free_pages h' = Z.of_nat (size X)) →
  impl_ok (with_heap h' im) ∧ shape (with_heap h' im) = shape im.
Proof.
  intros H Hh F Hf Hs. assert (shape (with_heap h' im) = shape im) as E.
  { destruct F as (_ & E1 & E2 & _). unfold shape; simpl. by rewrite E1, E2. }
  split; [|done]. destruct (shape_pages _ _ E) as [Eb Ep]. injection E as Ea Esz.
  split; rewrite ?Eb, ?Ep; simpl; rewrite ?Ea, ?Esz; try apply H; try done.
  - intros i k. eapply same_frame_levels; [done|]. apply H.
  - rewrite (same_frame_length _ _ F). apply H.
  - eapply in_region_frame; [done|]. apply H.
  - intros p Hp. destruct (Hf p Hp) as [H1 H2]. split.
    + unfold im_page in *. by rewrite Eb, Ep.
    + unfold count_at in *. by rewrite Eb.
Qed.

Lemma impl_freed im h' p n :
  impl_ok im → freed (m_heap im) h' (p * PageSize) (n * PageSize) → 0 ≤ n →
  base_page im ≤ p → p + n ≤ base_page im + im_pages im →
  (∀ q, p ≤ q < p + n → ¬ im_free im q ∧ count_at im q = 0) →
  impl_ok (with_heap h' im) ∧ shape (with_heap h' im) = shape im.
Proof.
  intros H [H1 H2 H3 H4] Hn Hlo Hhi Hq. apply with_heap_ok; [done..| |].
  - intros q [Hf|Hin%page_in_pages_1]%H3; [by apply (io_free _ H)|]. split; [unfold im_page; lia|by apply Hq].
  - destruct (io_free_set _ H) as (X & HX & E). exists (X ∪ range_set p n). split.
    + intros q. rewrite elem_of_union, HX, elem_of_range_set, H3, page_in_pages. done.
    + rewrite H4, E, Z.div_mul by done. rewrite size_union, Nat2Z.inj_add, size_range_set; [done|done|].
      intros q Hx Hr%elem_of_range_set. by apply (Hq q), HX.
Qed.

Lemma impl_allocated im h' p n :
  impl_ok im → allocated (m_heap im) h' (p * PageSize) (n * PageSize) → 0 ≤ n →
  impl_ok (with_heap h' im) ∧ shape (with_heap h' im) = shape im.
Proof.
  intros H [H1 H2 H3 H4 H5] Hn. apply with_heap_ok; [done..| |].
  - intros q [Hf _]%H4. by apply (io_free _ H).
  - destruct (io_free_set _ H) as (X & HX & E). exists (X ∖ range_set p n).
    assert (range_set p n ⊆ X) as Hsub.
    { intros q Hq%elem_of_range_set. apply HX, H3. by apply page_in_pages. }
    split.
    + intros q. rewrite elem_of_difference, HX, elem_of_range_set, H4, page_in_pages. done.
    + rewrite H5, E, Z.div_mul by done. rewrite size_difference by done.
      pose proof (subseteq_size _ _ Hsub). pose proof (size_range_set p n Hn). lia.
Qed.

Lemma impl_kept im h' :
  impl_ok im → kept (m_heap im) h' → impl_ok (with_heap h' im) ∧ shape (with_heap h' im) = shape im.
Proof.
  intros H K. apply with_heap_ok; [done|apply K|apply K| |].
  - intros p Hp. apply (io_free _ H). unfold im_free. by rewrite <-(kept_free _ _ p K).
  - destruct (io_free_set _ H) as (X & HX & E). exists X. split.
    + intros q. rewrite HX. symmetry. by apply kept_free.
    + rewrite (kp_count _ _ K). done.
Qed.

(** * The operations of a manager *)
Lemma shape_fields im im' : shape im' = shape im →
  m_heap_address (m_heap im') = m_heap_address (m_heap im) ∧ m_heap_size (m_heap im') = m_heap_size (m_heap im)
  ∧ m_pool im' = m_pool im ∧ m_next im' = m_next im ∧ m_prev im' = m_prev im.
Proof. unfold shape. by intros [= -> -> _ -> -> ->]. Qed.

Lemma page_offset_eq im p : impl_ok im → im_page im p →
  Impl_GetPageOffset im (p * PageSize) = p - base_page im.
Proof.
  intros H Hp. destruct (impl_extent im H) as (Ea & _ & ? & ? & ?). unfold im_page in Hp.
  unfold Impl_GetPageOffset, GetPageOffset, GetAddress. rewrite Ea, <-Z.mul_sub_distr_r.
  rewrite wrap_small by (unfold in_width, PageSize; lia). by apply Z.div_mul.
Qed.

Lemma page_offset_to_end im p : impl_ok im → im_page im p →
  Impl_GetPageOffsetToEnd im (p * PageSize) = base_page im + im_pages im - p.
Proof.
  intros H Hp. destruct (impl_extent im H) as (Ea & Es & ? & ? & ?). unfold im_page in Hp.
  unfold Impl_GetPageOffsetToEnd, GetPageOffsetToEnd, GetEndAddress, PageHeap.GetAddress, PageHeap.GetSize.
  rewrite Ea, Es, <-Z.mul_add_distr_r.
  rewrite (wrap_small 64 (_ * _)), <-Z.mul_sub_distr_r, wrap_small by (unfold in_width, PageSize; lia).
  by apply Z.div_mul.
Qed.

(** A block of level [i]. *)
Definition level_pages (i : nat) : Z := 2 ^ (default 12 (MemoryBlockPageShifts !! i) - 12).

Lemma level_pages_bounds i : 1 ≤ level_pages i ≤ 2 ^ 18.
Proof.
  unfold level_pages. do 7 (destruct i as [|i]; [split; by vm_compute|]). split; by vm_compute.
Qed.

Lemma GetBlockNumPages_eq i : (i < 7)%nat → GetBlockNumPages (Z.of_nat i) = Some (level_pages i).
Proof. intros Hi. do 7 (destruct i as [|i]; [reflexivity|]). lia. Qed.

Lemma level_block im i : impl_ok im → (i < 7)%nat →
  ∃ k, m_blocks (m_heap im) !! i = Some k ∧ l_size (layout k) = level_pages i * PageSize.
Proof.
  intros H Hi. destruct (lookup_lt_is_Some_2 (m_blocks (m_heap im)) i) as [k Hk]; [rewrite (io_length _ H); lia|].
  exists k. split; [done|]. unfold level_pages. rewrite (io_levels _ H i k Hk). simpl.
  pose proof (lo_shift _ (bo_layout _ (ho_blocks _ (io_heap _ H) i k Hk))). simpl in *.
  unfold l_size. simpl. change PageSize with (2 ^ 12). rewrite <-Z.pow_add_r by lia. f_equal. lia.
Qed.

(** Nothing but the free pages changes. *)
Definition same_counts im im' : Prop :=
  m_page_reference_counts im' = m_page_reference_counts im ∧ optimize_map im' = optimize_map im.

(** What an allocation of [n] pages gives: a range that was free, or 0. *)
Record block_taken im im' (p n : Z) : Prop := {
  bt_ok : impl_ok im';
  bt_shape : shape im' = shape im;
  bt_same : same_counts im im';
  bt_pos : 0 < p;
  bt_free q : p ≤ q < p + n → im_free im q;
  bt_rest q : im_free im' q ↔ im_free im q ∧ ¬ p ≤ q < p + n
}.
Record none_taken im im' : Prop := {
  nt_ok : impl_ok im';
  nt_shape : shape im' = shape im;
  nt_same : same_counts im im';
  nt_free q : im_free im' q ↔ im_free im q
}.

Lemma alloc_result_taken im i n a h' :
  impl_ok im → 0 < n → a mod PageSize = 0 → alloc_result (m_heap im) i (n * PageSize) a h' →
  (a = 0 ∧ empty_from (m_heap im) i ∧ none_taken im (with_heap h' im))
  ∨ ∃ p, a = p * PageSize ∧ block_taken im (with_heap h' im) p n.
Proof.
  intros H Hn Ha [(-> & He & K)|(Ha0 & _ & A)].
  - left. split_and!; [done..|]. destruct (impl_kept im h' H K). split; [done|done|done|].
    intros q. by apply kept_free.
  - right. apply mod_0_mul in Ha; [|done]. exists (a / PageSize). split; [done|]. rewrite Ha in A.
    set (p := a / PageSize) in *. destruct (impl_allocated im h' p n H A) as [H1 H2]; [lia|].
    assert (∀ q, p ≤ q < p + n → im_free im q) as Hf.
    { intros q Hq. apply (al_free _ _ _ _ A). by apply page_in_pages. }
    split; [done|done|done| |done|].
    + destruct (io_free _ H p) as [Hp _]; [apply Hf; lia|]. unfold im_page in Hp.
      destruct (impl_extent im H). lia.
    + intros q. unfold im_free; simpl. by rewrite (al_pages _ _ _ _ A), page_in_pages.
Qed.

Lemma Impl_AllocateBlock_spec im i random : impl_ok im → (i < 7)%nat →
  ∃ a im', Impl_AllocateBlock im (Z.of_nat i) random = Some (a, im')
    ∧ ((a = 0 ∧ empty_from (m_heap im) i ∧ none_taken im im')
       ∨ ∃ p, a = p * PageSize ∧ block_taken im im' p (level_pages i)).
Proof.
  intros H Hi. destruct (level_block im i H Hi) as (k & Hk & Es).
  pose proof (im_free_pages im H). destruct (impl_extent im H) as (_ & _ & _ & ? & _).
  destruct (AllocateBlock_spec (m_heap im) i k random) as (a & h' & E & R & Ha); [apply H|done|lia|].
  unfold Impl_AllocateBlock. rewrite E. cbn [mbind option_bind]. exists a, (with_heap h' im). split; [done|].
  rewrite Es in R, Ha. pose proof (level_pages_bounds i). eapply alloc_result_taken; [done|lia| |done].
  destruct (blk_size_mod _ i k (io_heap _ H) Hk) as [Hm _]. eapply (size_mod_page _ i k); [apply H|done|].
  by rewrite Es.
Qed.

(** No level from 0 has a block: no page is free. *)
Lemma empty_no_page im p : empty_from (m_heap im) 0 → ¬ im_free im p.
Proof.
  intros He (i & k & Hk & Hp). unfold blk_page in Hp. rewrite (He i k) in Hp by (done || lia). set_solver.
Qed.

Lemma Impl_Free_spec im p n : impl_ok im → 0 ≤ n →
  im_page im p → p + n ≤ base_page im + im_pages im →
  (∀ q, p ≤ q < p + n → ¬ im_free im q ∧ count_at im q = 0) →
  ∃ im', Impl_Free im (p * PageSize) n = Some im' ∧ impl_ok im' ∧ shape im' = shape im
    ∧ same_counts im im' ∧ ∀ q, im_free im' q ↔ im_free im q ∨ p ≤ q < p + n.
Proof.
  intros H Hn Hp Hle Hq. destruct (Free_spec (m_heap im) (p * PageSize) n) as (h' & E & F);
    [apply H|by apply mul_mod_0|done|by apply page_region| |].
  { intros q Hin%page_in_pages_1. by apply Hq. }
  unfold Impl_Free. rewrite E. cbn [mbind option_bind]. exists (with_heap h' im).
  destruct (impl_freed im h' p n H F) as [H1 H2]; [done|unfold im_page in Hp; lia|done|done|].
  split_and!; try done. intros q. unfold im_free; simpl. by rewrite (fr_pages _ _ _ _ F), page_in_pages.
Qed.

Lemma word_at_Forall w (l : list Z) :
  (∀ j, 0 ≤ j → in_width w (word_at l j)) → Forall (in_width w) l.
Proof.
  intros H. apply Forall_lookup. intros i x Hx. specialize (H (Z.of_nat i) ltac:(lia)).
  unfold word_at in H. by rewrite Nat2Z.id, Hx in H.
Qed.

Lemma count_range im p : impl_ok im → im_page im p → 0 ≤ count_at im p < 65536.
Proof.
  intros H Hp. unfold count_at, word_at.
  destruct (m_page_reference_counts im !! Z.to_nat (p - base_page im)) as [c|] eqn:E; simpl; [|lia].
  exact (Forall_lookup_1 _ _ _ _ (io_range _ H) E).
Qed.

Lemma with_counts_ok im l : impl_ok im → length l = length (m_page_reference_counts im) →
  (∀ p, im_free im p → word_at l (p - base_page im) = 0) →
  (∀ j, 0 ≤ j → in_width 16 (word_at l j)) →
  impl_ok (with_counts l im) ∧ shape (with_counts l im) = shape im.
Proof.
  intros H El Hz Hw. split; [|done].
  split; try apply H; [|by simpl; rewrite El; apply (io_counts _ H)|by apply word_at_Forall].
  intros p Hp. split; [by apply (io_free _ H)|]. by apply Hz.
Qed.

Lemma with_map_ok im l : impl_ok im → length l = length (optimize_map im) → Forall (in_width 64) l →
  impl_ok (with_map l im) ∧ shape (with_map l im) = shape im.
Proof.
  intros H El Hw. split; [|done]. split; try apply H. simpl. rewrite El. by split; [apply (io_map _ H)|].
Qed.

(** Nothing but the counts of the pages [p, p + n) changes; they become [f] of what they were. *)
Record recounted im im' (p n : Z) (f : Z → Z) : Prop := {
  rc_ok : impl_ok im';
  rc_shape : shape im' = shape im;
  rc_map : optimize_map im' = optimize_map im;
  rc_free q : im_free im' q ↔ im_free im q;
  rc_count q : im_page im q →
    count_at im' q = if decide (p ≤ q < p + n) then f (count_at im q) else count_at im q
}.

Lemma recount im l p n f :
  impl_ok im → base_page im ≤ p → 0 ≤ n → p + n ≤ base_page im + im_pages im →
  length l = length (m_page_reference_counts im) →
  (∀ j, 0 ≤ j → word_at l j = if decide (p - base_page im ≤ j < p - base_page im + n)
                              then f (word_at (m_page_reference_counts im) j)
                              else word_at (m_page_reference_counts im) j) →
  (∀ q, p ≤ q < p + n → ¬ im_free im q ∧ 0 ≤ f (count_at im q) < 65536) →
  recounted im (with_counts l im) p n f.
Proof.
  intros H Hp Hn Hle El Hl Hq. destruct (with_counts_ok im l) as [H1 H2]; [done..| | |].
  - intros q Hf. destruct (io_free _ H q Hf) as [Hpg Hc]. unfold im_page in Hpg.
    rewrite Hl by lia. rewrite decide_False; [done|]. intros ?. destruct (Hq q) as [Hnf _]; [lia|by apply Hnf].
  - intros j Hj. rewrite Hl by done. case_decide.
    + specialize (Hq (base_page im + j) ltac:(lia)) as [_ Hq].
      unfold count_at in Hq. by rewrite Z.add_simpl_l in Hq.
    + unfold word_at. destruct (_ !! _) eqn:E; simpl; [|by unfold in_width].
      exact (Forall_lookup_1 _ _ _ _ (io_range _ H) E).
  - split; [done..|]. intros q Hpg. unfold im_page in Hpg. unfold count_at at 1. simpl.
    change (base_page (with_counts l im)) with (base_page im). rewrite Hl by lia. apply decide_ext. lia.
Qed.

Lemma Impl_OpenFirst_spec im p n : impl_ok im → 0 ≤ n →
  im_page im p → p + n ≤ base_page im + im_pages im →
  (∀ q, p ≤ q < p + n → ¬ im_free im q ∧ count_at im q = 0) →
  ∃ im', Impl_OpenFirst im (p * PageSize) n = Some im' ∧ recounted im im' p n (λ _, 1).
Proof.
  intros H Hn Hp Hle Hq. unfold Impl_OpenFirst. rewrite page_offset_eq by done.
  destruct (impl_extent im H) as (_ & _ & ? & ? & ?). pose proof (io_counts _ H) as El.
  unfold im_page in Hp. rewrite wrap_small by (unfold in_width; lia). 
  replace (p - base_page im + n) with (p - base_page im + Z.of_nat (Z.to_nat n)) by lia.
  destruct (OpenFirst_loop_spec (Z.to_nat n) (m_page_reference_counts im) (p - base_page im))
    as (l & -> & Ell & Hl); [lia..| |].
  { intros j Hj. destruct (Hq (base_page im + j)) as [_ Hc]; [lia|]. unfold count_at in Hc.
    by rewrite Z.add_simpl_l in Hc. }
  cbn [mbind option_bind]. eexists. split; [done|]. apply recount; [done|lia..|done| |].
  - intros j Hj. rewrite Hl by done. apply decide_ext. lia.
  - intros q Hin. split; [by apply Hq|lia].
Qed.

Lemma Impl_Open_spec im p n : impl_ok im → 0 ≤ n →
  im_page im p → p + n ≤ base_page im + im_pages im →
  (∀ q, p ≤ q < p + n → 0 < count_at im q < 65535) →
  ∃ im', Impl_Open im (p * PageSize) n = Some im' ∧ recounted im im' p n (λ c, c + 1).
Proof.
  intros H Hn Hp Hle Hq. unfold Impl_Open. rewrite page_offset_eq by done.
  destruct (impl_extent im H) as (_ & _ & ? & ? & ?). pose proof (io_counts _ H) as El.
  unfold im_page in Hp. rewrite wrap_small by (unfold in_width; lia). 
  replace (p - base_page im + n) with (p - base_page im + Z.of_nat (Z.to_nat n)) by lia.
  destruct (Open_loop_spec (Z.to_nat n) (m_page_reference_counts im) (p - base_page im))
    as (l & -> & Ell & Hl); [lia..| |].
  { intros j Hj. specialize (Hq (base_page im + j) ltac:(lia)). unfold count_at in Hq.
    by rewrite Z.add_simpl_l in Hq. }
  cbn [mbind option_bind]. eexists. split; [done|]. apply recount; [done|lia..|done| |].
  - intros j Hj. rewrite Hl by done. apply decide_ext. lia.
  - intros q Hin. specialize (Hq q Hin). split; [|lia]. intros [_ Hc]%(io_free _ H). lia.
Qed.

(** ** [Close] *)

(** The pending pages are freed; [fc] is 0 when there are none. *)
Lemma Close_flush_spec im fs fc : impl_ok im → 0 ≤ fs → 0 ≤ fc → fs + fc ≤ im_pages im →
  (∀ q, base_page im + fs ≤ q < base_page im + fs + fc → ¬ im_free im q ∧ count_at im q = 0) →
  ∃ im', Close_flush im fs fc = Some im' ∧ impl_ok im' ∧ shape im' = shape im ∧ same_counts im im'
    ∧ ∀ q, im_free im' q ↔ im_free im q ∨ base_page im + fs ≤ q < base_page im + fs + fc.
Proof.
  intros H Hfs Hfc Hle Hq. unfold Close_flush. case Z.ltb_spec; intros Hpos.
  - destruct (impl_extent im H) as (Ea & _ & ? & ? & ?).
    unfold PageHeap.GetAddress. rewrite Ea, <-Z.mul_add_distr_r, wrap_small by (unfold in_width, PageSize; lia).
    destruct (Impl_Free_spec im (base_page im + fs) fc) as (im' & -> & K1 & K2 & K3 & K4);
      [done|done|unfold im_page; lia|lia|done|]. by exists im'.
  - exists im. split_and!; try done. intros q. split; [by left|]. intros [|]; [done|lia].
Qed.

Lemma same_counts_at im im' q : shape im' = shape im → same_counts im im' → count_at im' q = count_at im q.
Proof. intros [Eb _]%shape_pages [Ec _]. unfold count_at. by rewrite Eb, Ec. Qed.

(** A decrement at [idx]. *)
Lemma decrement_spec im idx : impl_ok im → 0 ≤ idx < im_pages im → 0 < count_at im (base_page im + idx) →
  let im1 := with_counts (<[Z.to_nat idx := count_at im (base_page im + idx) - 1]>
                            (m_page_reference_counts im)) im in
  recounted im im1 (base_page im + idx) 1 (λ c, c - 1).
Proof.
  intros H Hi Hc. pose proof (io_counts _ H). cbv zeta.
  apply recount; [done|lia..|by rewrite length_insert| |].
  - intros j Hj. rewrite word_at_insert by lia. unfold count_at. rewrite !Z.add_simpl_l.
    repeat case_decide; subst; try done; lia.
  - intros q Hq. assert (q = base_page im + idx) as -> by lia.
    pose proof (count_range im (base_page im + idx) H ltac:(unfold im_page; lia)). split; [|lia].
    intros [_ E]%(io_free _ H). lia.
Qed.

(** What is left after [Close] of [base_page + idx, + n) with the pending pages [fs, fs + fc). *)
Record closed im im' (p n ps pn : Z) : Prop := {
  cl_ok : impl_ok im';
  cl_shape : shape im' = shape im;
  cl_map : optimize_map im' = optimize_map im;
  cl_count q : im_page im q →
    count_at im' q = if decide (p ≤ q < p + n) then count_at im q - 1 else count_at im q;
  cl_free q : im_free im' q ↔
    im_free im q ∨ ps ≤ q < ps + pn ∨ p ≤ q < p + n ∧ count_at im q = 1
}.

(** One page is closed, then the rest. *)
Lemma closed_step im im1 im2 im' p n ps pn ps' pn' :
  impl_ok im → recounted im im1 p 1 (λ c, c - 1) →
  impl_ok im2 → shape im2 = shape im1 → same_counts im1 im2 →
  closed im2 im' (p + 1) n ps' pn' → 0 ≤ n → im_page im p → p + 1 + n ≤ base_page im + im_pages im →
  (∀ q, im_free im2 q ∨ ps' ≤ q < ps' + pn' ↔
        im_free im q ∨ ps ≤ q < ps + pn ∨ q = p ∧ count_at im q = 1) →
  closed im im' p (n + 1) ps pn.
Proof.
  intros H R K2 E2 S2 C Hn Hp Hle Hf.
  assert (shape im2 = shape im) as E by (rewrite E2; apply R).
  assert (∀ q, im_page im q → count_at im2 q = if decide (q = p) then count_at im q - 1 else count_at im q) as Hc.
  { intros q Hq. rewrite (same_counts_at im1 im2) by done. rewrite (rc_count _ _ _ _ _ R) by done.
    apply decide_ext. lia. }
  split; [apply C|rewrite (cl_shape _ _ _ _ _ _ C); done| | |].
  - rewrite (cl_map _ _ _ _ _ _ C). destruct S2 as [_ ->]. apply R.
  - intros q Hq. rewrite (cl_count _ _ _ _ _ _ C), Hc by (done || by apply (shape_im_page im)).
    repeat case_decide; try done; lia.
  - intros q. rewrite (cl_free _ _ _ _ _ _ C q).
    assert (p + 1 ≤ q < p + 1 + n → count_at im2 q = count_at im q) as Hcq.
    { intros Hq. rewrite Hc by (unfold im_page in *; lia). by rewrite decide_False by lia. }
    assert (q = p ∧ count_at im q = 1 → p ≤ q < p + (n + 1) ∧ count_at im q = 1) as Hqp by lia.
    specialize (Hf q). split.
    + intros [?|[?|[Hq1 Hq2]]]; [tauto..|]. rewrite Hcq in Hq2 by done. right; right. split; [lia|done].
    + intros [?|[?|[Hq1 Hq2]]]; [tauto..|]. destruct (decide (q = p)); [tauto|].
      right; right. split; [lia|]. rewrite Hcq by lia. done.
Qed.

Lemma Close_loop_spec n im fs fc idx :
  impl_ok im → 0 ≤ idx → idx + Z.of_nat n ≤ im_pages im → 0 ≤ fs → 0 ≤ fc → (0 < fc → fs + fc = idx) →
  (fc = 0 → fs ≤ idx) →
  (∀ q, base_page im + fs ≤ q < base_page im + fs + fc → ¬ im_free im q ∧ count_at im q = 0) →
  (∀ q, base_page im + idx ≤ q < base_page im + idx + Z.of_nat n → 0 < count_at im q) →
  ∃ im', Close_loop n im fs fc idx (idx + Z.of_nat n) = Some im'
    ∧ closed im im' (base_page im + idx) (Z.of_nat n) (base_page im + fs) fc.
Proof.
  revert im fs fc idx. induction n as [|n IH]; intros im fs fc idx H Hi Hle Hfs Hfc Hrun Hfs0 Hq Hc.
  - cbn [Close_loop]. rewrite (proj2 (Z.ltb_ge _ _)) by lia.
    destruct (Close_flush_spec im fs fc) as (im' & -> & K1 & K2 & K3 & K4); [done|lia..|done|].
    exists im'. split; [done|]. split; [done|done|apply K3| |].
    + intros q _. rewrite decide_False by lia. by apply same_counts_at.
    + intros q. rewrite K4. intuition lia.
  - cbn [Close_loop]. rewrite (proj2 (Z.ltb_lt _ _)), at_word by (pose proof (io_counts _ H); lia).
    cbn [mbind option_bind].
    assert (word_at (m_page_reference_counts im) idx = count_at im (base_page im + idx)) as ->
      by (unfold count_at; by rewrite Z.add_simpl_l).
    pose proof (Hc (base_page im + idx) ltac:(lia)) as Hpos.
    pose proof (count_range im (base_page im + idx) H ltac:(unfold im_page; lia)).
    pose proof (io_counts _ H) as Hlen. rewrite check_bind_Some by (apply Z.ltb_lt; lia).
    rewrite (wrap_small 16), set_at_ok by (unfold in_width; lia).
    cbn [mbind option_bind]. pose proof (decrement_spec im idx H ltac:(lia) Hpos) as R.
    set (im1 := with_counts _ im) in *. cbv zeta in R.
    destruct (shape_pages _ _ (rc_shape _ _ _ _ _ R)) as [Eb Ep].
    assert (∀ q, im_page im q → count_at im1 q = if decide (q = base_page im + idx)
       then count_at im q - 1 else count_at im q) as Hc1.
    { intros q Hqp. rewrite (rc_count _ _ _ _ _ R) by done. apply decide_ext. lia. }
    replace (idx + Z.of_nat (S n)) with ((idx + 1) + Z.of_nat n) by lia.
    destruct (impl_extent im H) as (_ & _ & ? & ? & ?).
    rewrite !(wrap_small 64 (idx + 1)) by (unfold in_width; lia).
    replace (Z.of_nat (S n)) with (Z.of_nat n + 1) in * by lia.
    assert (∀ q, base_page im + (idx + 1) ≤ q < base_page im + (idx + 1) + Z.of_nat n →
      0 < count_at im1 q) as Hrest.
    { intros q Hqr. rewrite Hc1, decide_False by (unfold im_page; lia). apply Hc. lia. }
    case Z.eqb_spec; intros Ez.
    + assert (∃ fs', (if 0 <? fc then Close_loop n im1 fs (u64 (fc + 1)) (idx + 1) (idx + 1 + Z.of_nat n)
          else Close_loop n im1 idx 1 (idx + 1) (idx + 1 + Z.of_nat n))
        = Close_loop n im1 fs' (fc + 1) (idx + 1) (idx + 1 + Z.of_nat n)
        ∧ fs' + fc = idx ∧ (0 < fc → fs' = fs)) as (fs' & -> & Hrun' & Hfs').
      { case Z.ltb_spec; intros.
        - rewrite wrap_small by (unfold in_width; lia). exists fs. split_and!; [done|auto|done].
        - exists idx. assert (fc = 0) as -> by lia. split_and!; [done|lia|lia]. }
      destruct (IH im1 fs' (fc + 1) (idx + 1)) as (im' & -> & C).
      { apply R. } { lia. } { lia. } { destruct (decide (0 < fc)); [rewrite Hfs'|]; lia. } { lia. } { lia. } { lia. }
      { intros q. rewrite Eb. intros Hqr. rewrite Hc1 by (unfold im_page; lia).
        rewrite (rc_free _ _ _ _ _ R q). case_decide as Eq.
        - subst q. split; [|done]. intros [_ ?]%(io_free _ H). lia.
        - apply Hq. lia. }
      { intros q. rewrite Eb. apply Hrest. }
      exists im'. split; [done|]. rewrite Eb in C.
      replace (base_page im + (idx + 1)) with (base_page im + idx + 1) in C by lia.
      eapply (closed_step im im1 im1); [done|exact R|apply R|done|done|exact C|lia|unfold im_page; lia|lia|].
      intros q. rewrite (rc_free _ _ _ _ _ R q). destruct (decide (q = base_page im + idx)) as [->|].
      * split; [intros _; right; right; split; [done|lia]|]. intros _. right. lia.
      * intuition lia.
    + destruct (Close_flush_spec im1 fs fc) as (im2 & -> & K1 & K2 & K3 & K4); [apply R|lia..| |].
      { intros q. rewrite Eb. intros Hqr. rewrite Hc1 by (unfold im_page; lia).
        rewrite (rc_free _ _ _ _ _ R q), decide_False by lia. by apply Hq. }
      cbn [mbind option_bind]. destruct (shape_pages _ _ K2) as [Eb2 Ep2]. rewrite Eb in Eb2.
      destruct (IH im2 fs 0 (idx + 1)) as (im' & -> & C).
      { done. } { lia. } { lia. } { lia. } { lia. } { lia. } { lia. } { intros q Hqr. lia. }
      { intros q. rewrite Eb2. intros Hqr. rewrite (same_counts_at im1) by done. by apply Hrest. }
      exists im'. split; [done|]. rewrite Eb2 in C.
      replace (base_page im + (idx + 1)) with (base_page im + idx + 1) in C by lia.
      eapply (closed_step im im1 im2); [done|exact R|done|done|done|exact C|lia|unfold im_page; lia|lia|].
      intros q. rewrite K4, (rc_free _ _ _ _ _ R q), Eb. intuition (subst; lia).
Qed.

Lemma Impl_Close_spec im p n : impl_ok im → 0 ≤ n →
  im_page im p → p + n ≤ base_page im + im_pages im →
  (∀ q, p ≤ q < p + n → 0 < count_at im q) →
  ∃ im', Impl_Close im (p * PageSize) n = Some im' ∧ closed im im' p n 0 0.
Proof.
  intros H Hn Hp Hle Hq. unfold Impl_Close. rewrite page_offset_eq by done.
  destruct (impl_extent im H) as (_ & _ & ? & ? & ?). unfold im_page in Hp.
  rewrite wrap_small by (unfold in_width; lia).
  replace (p - base_page im + n) with (p - base_page im + Z.of_nat (Z.to_nat n)) by lia.
  destruct (Close_loop_spec (Z.to_nat n) im 0 0 (p - base_page im)) as (im' & -> & C); [done|lia..| |].
  { intros q Hr. apply Hq. lia. }
  exists im'. split; [done|]. rewrite Zplus_minus, Z2Nat.id in C by done.
  destruct C as [C1 C2 C3 C4 C5]. split; try done. intros q. rewrite C5. intuition lia.
Qed.

(** ** The optimized-process bits *)

(** Nothing but the marks of the pages [p, p + n) changes; they become [v]. *)
Record remarked im im' (p n : Z) (v : bool) : Prop := {
  rm_ok : impl_ok im';
  rm_shape : shape im' = shape im;
  rm_counts : m_page_reference_counts im' = m_page_reference_counts im;
  rm_free q : im_free im' q ↔ im_free im q;
  rm_marked q : im_page im q →
    marked im' q = if decide (p ≤ q < p + n) then v else marked im q
}.

Lemma mark_range im p n : impl_ok im → 0 < n → im_page im p → p + n ≤ base_page im + im_pages im →
  Impl_GetPageOffset im (p * PageSize) = p - base_page im
  ∧ u64 (p - base_page im + n - 1) = p - base_page im + Z.of_nat (Z.to_nat n) - 1
  ∧ 0 ≤ p - base_page im
  ∧ p - base_page im + Z.of_nat (Z.to_nat n) ≤ 64 * Z.of_nat (length (optimize_map im))
  ∧ 64 * Z.of_nat (length (optimize_map im)) < 2 ^ 63.
Proof.
  intros H Hn Hp Hle. destruct (impl_extent im H) as (_ & _ & ? & ? & ?). rewrite page_offset_eq by done.
  destruct (io_map _ H) as [? _]. unfold im_page in Hp.
  rewrite wrap_small by (unfold in_width; lia). rewrite Z2Nat.id by lia. lia.
Qed.

Lemma TrackOptimizedAllocation_spec im p n : impl_ok im → 0 < n →
  im_page im p → p + n ≤ base_page im + im_pages im →
  ∃ im', TrackOptimizedAllocation im (p * PageSize) n = Some im' ∧ remarked im im' p n true.
Proof.
  intros H Hn Hp Hle. destruct (mark_range im p n) as (E1 & E2 & E3 & E4 & E5); [done..|].
  unfold TrackOptimizedAllocation. rewrite E1, E2.
  destruct (TrackOptimized_loop_spec (Z.to_nat n) (optimize_map im) (p - base_page im))
    as (l & -> & El & Hw & Hl); [done|done|done|apply (io_map _ H)|].
  cbn [mbind option_bind]. eexists. split; [done|].
  destruct (with_map_ok im l H El Hw) as [K1 K2]. split; [done..|]. intros q Hq. unfold im_page in Hq.
  unfold marked. simpl. change (base_page (with_map l im)) with (base_page im). rewrite Hl by lia.
  case_decide; [by rewrite bool_decide_true by lia|by rewrite bool_decide_false by lia].
Qed.

Lemma TrackUnoptimizedAllocation_spec im p n : impl_ok im → 0 < n →
  im_page im p → p + n ≤ base_page im + im_pages im →
  ∃ im', TrackUnoptimizedAllocation im (p * PageSize) n = Some im' ∧ remarked im im' p n false.
Proof.
  intros H Hn Hp Hle. destruct (mark_range im p n) as (E1 & E2 & E3 & E4 & E5); [done..|].
  unfold TrackUnoptimizedAllocation. rewrite E1, E2.
  destruct (TrackUnoptimized_loop_spec (Z.to_nat n) (optimize_map im) (p - base_page im))
    as (l & -> & El & Hw & Hl); [done|done|done|apply (io_map _ H)|].
  cbn [mbind option_bind]. eexists. split; [done|].
  destruct (with_map_ok im l H El Hw) as [K1 K2]. split; [done..|]. intros q Hq. unfold im_page in Hq.
  unfold marked. simpl. change (base_page (with_map l im)) with (base_page im). rewrite Hl by lia.
  case_decide; [by rewrite bool_decide_true by lia|by rewrite bool_decide_false by lia].
Qed.

(** The new pages of a range are filled, the others keep their contents. *)
Lemma ProcessOptimizedAllocation_spec im mem p n v : impl_ok im → 0 < n →
  im_page im p → p + n ≤ base_page im + im_pages im →
  ∃ any mem', ProcessOptimizedAllocation im mem (p * PageSize) n v = Some (any, mem')
    ∧ (any = true ↔ ∃ q, p ≤ q < p + n ∧ marked im q = false)
    ∧ ∀ a, mem' a = if decide (p ≤ page_of a < p + n ∧ marked im (page_of a) = false)
                    then u8 v else mem a.
Proof.
  intros H Hn Hp Hle. destruct (mark_range im p n) as (E1 & E2 & E3 & E4 & E5); [done..|].
  unfold ProcessOptimizedAllocation, PageHeap.GetAddress. rewrite E1, E2.
  destruct (impl_extent im H) as (-> & _).
  destruct (ProcessOptimized_loop_spec (Z.to_nat n) (optimize_map im) (base_page im) v mem false
              (p - base_page im)) as (any & mem' & -> & Hany & Hmem); [done..|].
  exists any, mem'. split_and!; [done| |].
  - rewrite Hany. split.
    + intros [|(j & ? & ?)]; [done|]. exists (base_page im + j). split; [lia|].
      unfold marked. by rewrite Z.add_simpl_l.
    + intros (q & ? & ?). right. exists (q - base_page im). split; [lia|done].
  - intros a. rewrite Hmem. apply decide_ext. unfold marked. intuition lia.
Qed.

Lemma Impl_InitializeOptimizedMemory_spec im : impl_ok im →
  Z.of_nat (length (optimize_map im)) * 8 = CalculateOptimizedProcessOverheadSize (Impl_GetSize im) →
  ∃ im', Impl_InitializeOptimizedMemory im = Some im'
    ∧ remarked im im' (base_page im) (im_pages im) false.
Proof.
  intros H E. unfold Impl_InitializeOptimizedMemory. rewrite <-E, Z.div_mul, Nat2Z.id by done.
  rewrite check_bind_Some by by apply bool_decide_eq_true. eexists. split; [done|].
  rewrite drop_ge, app_nil_r by lia.
  destruct (with_map_ok im (replicate (length (optimize_map im)) 0)) as [K1 K2];
    [done|by rewrite length_replicate|by apply Forall_replicate|].
  split; [done..|]. intros q Hq. unfold im_page in Hq. rewrite decide_True by lia.
  unfold marked, bit_at. simpl. unfold word_at.
  destruct (replicate _ _ !! _) as [w|] eqn:Ew; [|apply Z.bits_0].
  apply lookup_replicate in Ew as [-> _]. apply Z.bits_0.
Qed.

(** ** Aligned allocation *)

Lemma GetAlignedBlockIndex_spec n al : 0 < n → 0 < al → Z.max n al ≤ 2 ^ 18 →
  ∃ i, GetAlignedBlockIndex n al = Z.of_nat i ∧ (i < 7)%nat ∧ Z.max n al ≤ level_pages i.
Proof.
  intros Hn Hal Hle. unfold GetAlignedBlockIndex. generalize dependent (Z.max n al). intros t Ht.
  unfold MemoryBlockPageShifts. cbn [GetAlignedBlockIndex_loop].
  repeat match goal with
  | |- context [?t <=? ?x] => destruct (Z.leb_spec t x)
  end; [exists 0%nat|exists 1%nat|exists 2%nat|exists 3%nat|exists 4%nat|exists 5%nat|exists 6%nat|];
    try (split; [reflexivity|split; [lia|assumption]]).
  exfalso. change (Z.shiftl 1 30 / PageSize) with (2 ^ 18) in *. lia.
Qed.

Lemma Impl_AllocateAligned_spec im n al i : impl_ok im → 0 < n → 0 < al →
  (i < 7)%nat → Z.max n al ≤ level_pages i →
  ∃ a im', Impl_AllocateAligned im (Z.of_nat i) n al = Some (a, im')
    ∧ a mod 2 ^ countr_zero 64 (al * PageSize) = 0
    ∧ ((a = 0 ∧ empty_from (m_heap im) i ∧ none_taken im im')
       ∨ ∃ p, a = p * PageSize ∧ block_taken im im' p n).
Proof.
  intros H Hn Hal Hi Hle. destruct (level_block im i H Hi) as (k & Hk & Es).
  pose proof (im_free_pages im H). destruct (impl_extent im H) as (_ & _ & _ & ? & _).
  pose proof (level_pages_bounds i).
  destruct (AllocateByRandom_spec (m_heap im) i k n al) as (a & h' & E & R & Ha);
    [apply H|done|done|rewrite Es; unfold PageSize; lia|done|rewrite Es; unfold PageSize; lia|lia|].
  unfold Impl_AllocateAligned, AllocateAligned. rewrite E. cbn [mbind option_bind].
  exists a, (with_heap h' im). split_and!; [done|done|]. eapply alloc_result_taken; [done|lia| |done].
  destruct (align_shift_spec al) as [Hs _]; [lia|unfold PageSize; lia|].
  change PageSize with (2 ^ 12). eapply pow2_mod_le; [|exact Ha]. lia.
Qed.
End impl.
