(* ===== verification/ManagerPages.v ===== *)
(** The physical memory as a set of pages: what a [KMemoryManager] (definitions in
    MemoryManager.v) says of each page (whether it is free, its reference count, its
    optimized-process mark, its contents), the invariant of the managers, and the loops over the
    managers and the blocks of a group as changes of the pages they visit. *)
From S2P Require Import Prelude Common PageBitmap MemoryRegion Results PageGroup PageHeap PageHeapAlloc MemoryManager ManagerImpl.

Section pages.
Context {B : Type} `{FB : FreeBitmap B}.
Implicit Types mm : KMemoryManager (B := B).
Implicit Types im : Impl (B := B).

(** * The owner of a page *)
#[export] Instance im_page_dec im p : Decision (im_page im p).
Proof. unfold im_page. apply _. Defined.

Definition managed mm (i : nat) im : Prop :=
  m_managers mm !! i = Some im ∧ Z.of_nat i < m_num_managers mm.

Definition owner mm (p : Z) : option Impl :=
  i ← GetManager mm (p * PageSize);
  im ← m_managers mm !! i;
  if decide (Z.of_nat i < m_num_managers mm ∧ im_page im p) then Some im else None.

Definition page_pool mm (p : Z) : option Z := m_pool <$> owner mm p.
Definition page_free mm (p : Z) : Prop :=
  match owner mm p with Some im => im_free im p | None => False end.
Definition page_count mm (p : Z) : Z :=
  match owner mm p with Some im => count_at im p | None => 0 end.
Definition page_mark mm (p : Z) : bool :=
  match owner mm p with Some im => marked im p | None => false end.

(** A walk over a list of managers. *)
Fixpoint walks mm (dir : Z) (cur : option nat) (l : list nat) : Prop :=
  match l with
  | [] => cur = None
  | i :: l => cur = Some i ∧ ∃ next, GetNextManager mm i dir = Some next ∧ walks mm dir next l
  end.

(** * The invariant *)
Record mm_ok mm : Prop := {
  mo_impl i im : managed mm i im → impl_ok im;
  mo_num : m_num_managers mm ≤ MaxManagerCount;
  mo_owner i im p : managed mm i im → im_page im p → GetManager mm (p * PageSize) = Some i;
  mo_walk pool dir : 0 ≤ pool < Pool.Count → ∃ first l,
    GetFirstManager mm pool dir = Some first ∧ walks mm dir first l
    ∧ (length l ≤ Z.to_nat MaxManagerCount)%nat
    ∧ ∀ i, i ∈ l ↔ ∃ im, managed mm i im ∧ m_pool im = pool;
  mo_ids : length (m_optimized_process_ids mm) = Z.to_nat Pool.Count
    ∧ length (m_has_optimized_process mm) = Z.to_nat Pool.Count
}.

(** What the operations on pages keep. *)
Definition skel mm :=
  (m_linear_tree mm, m_pool_managers_head mm, m_pool_managers_tail mm, m_num_managers mm,
   m_optimized_process_ids mm, m_has_optimized_process mm, map shape (m_managers mm)).

Lemma owner_managed mm i im p : mm_ok mm → managed mm i im → im_page im p → owner mm p = Some im.
Proof.
  intros H Hi Hp. unfold owner. rewrite (mo_owner _ H i im p Hi Hp). destruct Hi as [Hi Hn].
  cbn [mbind option_bind]. rewrite Hi. cbn [mbind option_bind]. by rewrite decide_True.
Qed.

Lemma owner_Some mm im p : owner mm p = Some im →
  ∃ i, managed mm i im ∧ im_page im p ∧ GetManager mm (p * PageSize) = Some i.
Proof.
  unfold owner. intros (i & Hg & (im' & Hi & Hd)%bind_Some)%bind_Some.
  case_decide as Hc; [|done]. injection Hd as <-. exists i. by destruct Hc.
Qed.

(** ** States with the same skeleton *)
Lemma skel_lookup mm mm' i im : skel mm' = skel mm → m_managers mm !! i = Some im →
  ∃ im', m_managers mm' !! i = Some im' ∧ shape im' = shape im.
Proof.
  intros E Hi. assert (map shape (m_managers mm') = map shape (m_managers mm)) as Em by (by injection E).
  apply (f_equal (.!! i)) in Em. rewrite !map_lookup, Hi in Em. simpl in Em.
  destruct (m_managers mm' !! i) as [im'|]; [|done]. exists im'. split; [done|]. simpl in Em. congruence.
Qed.

Lemma skel_managed mm mm' i im : skel mm' = skel mm → managed mm i im →
  ∃ im', managed mm' i im' ∧ shape im' = shape im.
Proof.
  intros E [Hi Hn]. destruct (skel_lookup _ _ _ _ E Hi) as (im' & ? & ?). exists im'. split; [|done].
  split; [done|]. assert (m_num_managers mm' = m_num_managers mm) as -> by (by injection E). done.
Qed.

Lemma skel_GetManager mm mm' a : skel mm' = skel mm → GetManager mm' a = GetManager mm a.
Proof. unfold skel, GetManager. by intros [= -> _ _ _ _ _ _]. Qed.

Lemma skel_walks mm mm' dir cur l : skel mm' = skel mm → walks mm dir cur l → walks mm' dir cur l.
Proof.
  intros E. revert cur. induction l as [|i l IH]; intros cur; simpl; [done|].
  intros (-> & next & Hn & Hw). split; [done|]. exists next. split; [|by apply IH].
  unfold GetNextManager in *. apply bind_Some in Hn as (im & Hi & Hn).
  destruct (skel_lookup _ _ _ _ E Hi) as (im' & -> & Es). cbn [mbind option_bind].
  by destruct (shape_fields _ _ Es) as (_ & _ & _ & -> & ->).
Qed.

Lemma skel_owner mm mm' p : skel mm' = skel mm →
  (∀ im, owner mm p = Some im → ∃ im', owner mm' p = Some im' ∧ shape im' = shape im)
  ∧ (owner mm p = None → owner mm' p = None).
Proof.
  intros E. unfold owner. rewrite (skel_GetManager mm mm') by done.
  assert (m_num_managers mm' = m_num_managers mm) as -> by (by injection E).
  destruct (GetManager mm (p * PageSize)) as [i|]; cbn [mbind option_bind]; [|done].
  destruct (m_managers mm !! i) as [im|] eqn:Hi; cbn [mbind option_bind].
  - destruct (skel_lookup _ _ _ _ E Hi) as (im' & -> & Es). cbn [mbind option_bind].
    pose proof (shape_im_page im im' p Es) as Hp. split.
    + intros im0. case_decide as Hc; [|done]. intros [= <-]. exists im'. split; [|done].
      rewrite decide_True; [done|]. split; [apply Hc|]. apply Hp, Hc.
    + case_decide as Hc; [done|]. intros _. rewrite decide_False; [done|]. by rewrite Hp.
  - split; [done|]. intros _. destruct (m_managers mm' !! i) eqn:Hi'; [|done].
    destruct (skel_lookup mm' mm i _ (eq_sym E) Hi') as (? & ? & _). congruence.
Qed.

Lemma skel_pool mm mm' p : skel mm' = skel mm → page_pool mm' p = page_pool mm p.
Proof.
  intros E. destruct (skel_owner mm mm' p E) as [H1 H2]. unfold page_pool.
  destruct (owner mm p) as [im|]; [|by rewrite H2].
  destruct (H1 im eq_refl) as (im' & -> & Es). simpl. f_equal. by apply shape_fields.
Qed.

(** ** Replacing one manager *)
Lemma put_manager_spec mm i im im' :
  mm_ok mm → managed mm i im → impl_ok im' → shape im' = shape im →
  mm_ok (put_manager i im' mm) ∧ skel (put_manager i im' mm) = skel mm
  ∧ ∀ p, owner (put_manager i im' mm) p = if decide (im_page im p) then Some im' else owner mm p.
Proof.
  intros H Hi Hok Es. set (mm' := put_manager i im' mm).
  assert (skel mm' = skel mm) as Esk.
  { unfold skel; simpl. f_equal. rewrite list_fmap_insert, Es. apply list_insert_id.
    rewrite map_lookup. by destruct Hi as [-> _]. }
  assert (∀ j jm, managed mm' j jm → j = i ∧ jm = im' ∨ j ≠ i ∧ managed mm j jm) as Hm.
  { intros j jm [Hj Hn]. simpl in Hj, Hn. apply list_lookup_insert_Some in Hj as [(-> & -> & _)|(? & ?)].
    - by left. - right. by repeat split. }
  assert (mm_ok mm') as Hmm.
  { split.
    - intros j jm [(-> & ->)|(_ & ?)]%Hm; [done|by eapply mo_impl].
    - apply (mo_num _ H).
    - intros j jm p [(-> & ->)|(_ & Hj)]%Hm Hp.
      + apply (mo_owner _ H i im p Hi). by apply (shape_im_page im im').
      + by apply (mo_owner _ H j jm p Hj).
    - intros pool dir Hpool. destruct (mo_walk _ H pool dir Hpool) as (first & l & Hf & Hw & Hl & Hin).
      exists first, l. split_and!; [done|by eapply skel_walks|done|]. intros j. rewrite Hin. split.
      + intros (jm & Hj & <-). destruct (skel_managed _ _ _ _ Esk Hj) as (jm' & ? & Ej).
        exists jm'. split; [done|]. by apply shape_fields.
      + intros (jm & Hj & <-). destruct (skel_managed mm' mm j jm (eq_sym Esk) Hj) as (jm' & ? & Ej).
        exists jm'. split; [done|]. by apply shape_fields.
    - apply (mo_ids _ H). }
  split_and!; [done|done|]. intros p. case_decide as Hp.
  - apply (owner_managed mm' i im'); [done| |by apply (shape_im_page im im')].
    split; [|apply Hi]. apply list_lookup_insert_eq. destruct Hi as [Hi _]. by eapply lookup_lt_Some.
  - unfold owner. change (GetManager mm' (p * PageSize)) with (GetManager mm (p * PageSize)).
    destruct (GetManager mm (p * PageSize)) as [j|] eqn:Eg; [|done]. cbn [mbind option_bind].
    destruct (decide (j = i)) as [->|].
    + destruct Hi as [Hi Hn]. simpl. rewrite list_lookup_insert_eq by (by eapply lookup_lt_Some).
      rewrite Hi. cbn [mbind option_bind]. rewrite !decide_False; [done|tauto|].
      rewrite (shape_im_page im im') by done. tauto.
    + simpl. by rewrite list_lookup_insert_ne.
Qed.

(** * Changes of pages *)

(** The pages of [l] change: they become free if [Fr] holds of their counts, their counts,
    marks and contents become what [Cn], [Mk] and [Mem] say; no other page changes. *)
Record changed (Fr : Z → Prop) (Cn : Z → Z) (Mk : bool → bool) (Mem : bool → Z → Z)
    mm mm' (l : list Z) : Prop := {
  ch_ok : mm_ok mm';
  ch_skel : skel mm' = skel mm;
  ch_free q : page_free mm' q ↔ page_free mm q ∨ q ∈ l ∧ Fr (page_count mm q);
  ch_count q : page_count mm' q = if decide (q ∈ l) then Cn (page_count mm q) else page_count mm q;
  ch_mark q : page_mark mm' q = if decide (q ∈ l) then Mk (page_mark mm q) else page_mark mm q;
  ch_mem a : m_memory mm' a = if decide (page_of a ∈ l)
    then Mem (page_mark mm (page_of a)) (m_memory mm a) else m_memory mm a
}.

(** The pages of [l] are managed, in use, and their counts satisfy [cp]. *)
Definition ready (cp : Z → Prop) mm (l : list Z) : Prop :=
  ∀ q, q ∈ l → is_Some (owner mm q) ∧ ¬ page_free mm q ∧ cp (page_count mm q).

Lemma changed_nil Fr Cn Mk Mem mm : mm_ok mm → changed Fr Cn Mk Mem mm mm [].
Proof.
  intros H. split; [done|done| | | |]; intros.
  - split; [by left|]. by intros [|[?%elem_of_nil _]].
  - by rewrite decide_False by (by intros ?%elem_of_nil).
  - by rewrite decide_False by (by intros ?%elem_of_nil).
  - by rewrite decide_False by (by intros ?%elem_of_nil).
Qed.

Lemma changed_app Fr Cn Mk Mem mm mm1 mm2 l1 l2 :
  (∀ q, q ∈ l1 → q ∉ l2) → changed Fr Cn Mk Mem mm mm1 l1 → changed Fr Cn Mk Mem mm1 mm2 l2 →
  changed Fr Cn Mk Mem mm mm2 (l1 ++ l2).
Proof.
  intros Hd C1 C2. split.
  - apply C2.
  - rewrite (ch_skel _ _ _ _ _ _ _ C2). apply C1.
  - intros q. rewrite (ch_free _ _ _ _ _ _ _ C2), (ch_free _ _ _ _ _ _ _ C1), (ch_count _ _ _ _ _ _ _ C1), elem_of_app.
    specialize (Hd q). case_decide; tauto.
  - intros q. rewrite (ch_count _ _ _ _ _ _ _ C2), (ch_count _ _ _ _ _ _ _ C1).
    specialize (Hd q). repeat case_decide; rewrite elem_of_app in *; tauto.
  - intros q. rewrite (ch_mark _ _ _ _ _ _ _ C2), (ch_mark _ _ _ _ _ _ _ C1).
    specialize (Hd q). repeat case_decide; rewrite elem_of_app in *; tauto.
  - intros a. rewrite (ch_mem _ _ _ _ _ _ _ C2), (ch_mem _ _ _ _ _ _ _ C1), (ch_mark _ _ _ _ _ _ _ C1).
    specialize (Hd (page_of a)). repeat case_decide; rewrite elem_of_app in *; tauto.
Qed.

Lemma ready_app_l cp mm l1 l2 : ready cp mm (l1 ++ l2) → ready cp mm l1.
Proof. intros H q Hq. apply H, elem_of_app. by left. Qed.

Lemma changed_ready Fr Cn Mk Mem cp mm mm1 l1 l2 :
  (∀ q, q ∈ l1 → q ∉ l2) → changed Fr Cn Mk Mem mm mm1 l1 → ready cp mm (l1 ++ l2) → ready cp mm1 l2.
Proof.
  intros Hd C Hr q Hq. destruct (Hr q) as (Ho & Hf & Hc); [apply elem_of_app; by right|].
  assert (q ∉ l1) as Hn by (intros ?; by eapply Hd). split_and!.
  - destruct Ho as [im Ho]. destruct (skel_owner mm mm1 q (ch_skel _ _ _ _ _ _ _ C)) as [H1 _].
    destruct (H1 im Ho) as (im' & -> & _). done.
  - rewrite (ch_free _ _ _ _ _ _ _ C). tauto.
  - rewrite (ch_count _ _ _ _ _ _ _ C). by rewrite decide_False.
Qed.

(** ** From a manager to the pages *)
Lemma ready_manager cp mm i im p n q :
  mm_ok mm → managed mm i im → ready cp mm (seqZ p n) → p ≤ q < p + n → im_page im q →
  ¬ im_free im q ∧ cp (count_at im q).
Proof.
  intros H Hi Hr Hq Hp. destruct (Hr q) as (_ & Hf & Hc); [by apply elem_of_seqZ|].
  unfold page_free, page_count in *. rewrite (owner_managed mm i im) in Hf, Hc by done. done.
Qed.

Lemma lift_changed Fr Cn Mk mm i im im' l :
  mm_ok mm → managed mm i im → impl_ok im' → shape im' = shape im → (∀ q, q ∈ l → im_page im q) →
  (∀ q, im_page im q → im_free im' q ↔ im_free im q ∨ q ∈ l ∧ Fr (count_at im q)) →
  (∀ q, im_page im q → count_at im' q = if decide (q ∈ l) then Cn (count_at im q) else count_at im q) →
  (∀ q, im_page im q → marked im' q = if decide (q ∈ l) then Mk (marked im q) else marked im q) →
  changed Fr Cn Mk (λ _ b, b) mm (put_manager i im' mm) l.
Proof.
  intros H Hi Hok Es Hl Hf Hc Hm. destruct (put_manager_spec mm i im im' H Hi Hok Es) as (H1 & H2 & Ho).
  split; [done|done| | | |].
  - intros q. unfold page_free, page_count. rewrite Ho. case_decide as Hq.
    + rewrite (owner_managed mm i im) by done. by apply Hf.
    + split; [by left|]. intros [?|[?%Hl _]]; done.
  - intros q. unfold page_count. rewrite Ho. case_decide as Hq.
    + rewrite (owner_managed mm i im) by done. by apply Hc.
    + by rewrite decide_False by (intros ?%Hl; done).
  - intros q. unfold page_mark. rewrite Ho. case_decide as Hq.
    + rewrite (owner_managed mm i im) by done. by apply Hm.
    + by rewrite decide_False by (intros ?%Hl; done).
  - intros a. simpl. by case_decide.
Qed.

(** The part [p, p + n) of a range lies in the manager [i]. *)
Record part mm (i : nat) im (p n : Z) : Prop := {
  pt_ok : mm_ok mm;
  pt_managed : managed mm i im;
  pt_pos : 0 < n;
  pt_page : im_page im p;
  pt_end : p + n ≤ base_page im + im_pages im
}.

Lemma part_pages mm i im p n q : part mm i im p n → q ∈ seqZ p n → im_page im q.
Proof. intros [_ _ ? Hp ?] Hq%elem_of_seqZ. unfold im_page in *. lia. Qed.

Lemma on_manager_Some mm i im f im' : managed mm i im → f im = Some im' →
  on_manager i f mm = Some (put_manager i im' mm).
Proof.
  intros [Hi _] Hf. unfold on_manager. rewrite Hi. cbn [mbind option_bind]. rewrite Hf. done.
Qed.

Lemma lock_pool_ok im : impl_ok im → lock_pool (m_pool im) = Some tt.
Proof. intros H. apply check_true, Z.ltb_lt. apply (io_pool _ H). Qed.

Lemma recounted_changed mm i im im' p n f :
  part mm i im p n → recounted im im' p n f →
  changed (λ _, False) f (λ m, m) (λ _ b, b) mm (put_manager i im' mm) (seqZ p n).
Proof.
  intros P R. pose proof P as [H Hi _ _ _].
  apply (lift_changed _ _ _ mm i im im'); [done|done|apply R|apply R| | | |].
  - intros q. by eapply part_pages.
  - intros q _. rewrite (rc_free _ _ _ _ _ R). tauto.
  - intros q Hq. rewrite (rc_count _ _ _ _ _ R) by done. apply decide_ext. by rewrite elem_of_seqZ.
  - intros q _. unfold marked. rewrite (rc_map _ _ _ _ _ R).
    destruct (shape_pages _ _ (rc_shape _ _ _ _ _ R)) as [-> _]. by case_decide.
Qed.

Lemma part_OpenFirst mm i im p n : part mm i im p n → ready (λ c, c = 0) mm (seqZ p n) →
  ∃ im', Impl_OpenFirst im (p * PageSize) n = Some im'
    ∧ changed (λ _, False) (λ _, 1) (λ m, m) (λ _ b, b) mm (put_manager i im' mm) (seqZ p n).
Proof.
  intros P Hr. pose proof P as [H Hi ? ? ?].
  destruct (Impl_OpenFirst_spec im p n) as (im' & E & R); [by eapply mo_impl|lia|done|done| |].
  { intros q Hq. eapply (ready_manager (λ c, c = 0)); [done..|].
    eapply part_pages; [done|by apply elem_of_seqZ]. }
  exists im'. split; [done|]. by eapply recounted_changed.
Qed.

Lemma part_Open mm i im p n : part mm i im p n → ready (λ c, 0 < c < 65535) mm (seqZ p n) →
  ∃ im', Impl_Open im (p * PageSize) n = Some im'
    ∧ changed (λ _, False) (λ c, c + 1) (λ m, m) (λ _ b, b) mm (put_manager i im' mm) (seqZ p n).
Proof.
  intros P Hr. pose proof P as [H Hi ? ? ?].
  destruct (Impl_Open_spec im p n) as (im' & E & R); [by eapply mo_impl|lia|done|done| |].
  { intros q Hq. apply (ready_manager (λ c, 0 < c < 65535) mm i im p n); [done..|].
    eapply part_pages; [done|by apply elem_of_seqZ]. }
  exists im'. split; [done|]. by eapply recounted_changed.
Qed.

Lemma part_Close mm i im p n : part mm i im p n → ready (λ c, 0 < c) mm (seqZ p n) →
  ∃ im', Impl_Close im (p * PageSize) n = Some im'
    ∧ changed (λ c, c = 1) (λ c, c - 1) (λ m, m) (λ _ b, b) mm (put_manager i im' mm) (seqZ p n).
Proof.
  intros P Hr. pose proof P as [H Hi ? ? ?].
  destruct (Impl_Close_spec im p n) as (im' & E & C); [by eapply mo_impl|lia|done|done| |].
  { intros q Hq. apply (ready_manager (λ c, 0 < c) mm i im p n); [done..|].
    eapply part_pages; [done|by apply elem_of_seqZ]. }
  exists im'. split; [done|].
  apply (lift_changed _ _ _ mm i im im'); [done|done|apply C|apply C| | | |].
  - intros q. by eapply part_pages.
  - intros q _. rewrite (cl_free _ _ _ _ _ _ C), elem_of_seqZ. intuition lia.
  - intros q Hq. rewrite (cl_count _ _ _ _ _ _ C) by done. apply decide_ext. by rewrite elem_of_seqZ.
  - intros q _. unfold marked. rewrite (cl_map _ _ _ _ _ _ C).
    destruct (shape_pages _ _ (cl_shape _ _ _ _ _ _ C)) as [-> _]. by case_decide.
Qed.

Lemma part_Free mm i im p n : part mm i im p n → ready (λ c, c = 0) mm (seqZ p n) →
  ∃ im', Impl_Free im (p * PageSize) n = Some im'
    ∧ changed (λ _, True) (λ c, c) (λ m, m) (λ _ b, b) mm (put_manager i im' mm) (seqZ p n).
Proof.
  intros P Hr. pose proof P as [H Hi ? ? ?].
  destruct (Impl_Free_spec im p n) as (im' & E & K1 & K2 & K3 & K4); [by eapply mo_impl|lia|done|done| |].
  { intros q Hq. eapply (ready_manager (λ c, c = 0)); [done..|].
    eapply part_pages; [done|by apply elem_of_seqZ]. }
  exists im'. split; [done|].
  apply (lift_changed _ _ _ mm i im im'); [done..| | | |].
  - intros q. by eapply part_pages.
  - intros q _. rewrite K4, elem_of_seqZ. tauto.
  - intros q _. rewrite (same_counts_at im im') by done. by case_decide.
  - intros q _. unfold marked. destruct K3 as [_ ->]. destruct (shape_pages _ _ K2) as [-> _]. by case_decide.
Qed.

Lemma remarked_changed mm i im im' p n v :
  part mm i im p n → remarked im im' p n v →
  changed (λ _, False) (λ c, c) (λ _, v) (λ _ b, b) mm (put_manager i im' mm) (seqZ p n).
Proof.
  intros P R. pose proof P as [H Hi _ _ _].
  apply (lift_changed _ _ _ mm i im im'); [done|done|apply R|apply R| | | |].
  - intros q. by eapply part_pages.
  - intros q _. rewrite (rm_free _ _ _ _ _ R). tauto.
  - intros q Hq. unfold count_at. rewrite (rm_counts _ _ _ _ _ R).
    destruct (shape_pages _ _ (rm_shape _ _ _ _ _ R)) as [-> _]. by case_decide.
  - intros q Hq. rewrite (rm_marked _ _ _ _ _ R) by done. apply decide_ext. by rewrite elem_of_seqZ.
Qed.

(** * The loop over the managers of a range *)
Section each_manager.
Context (cp : Z → Prop) (Fr : Z → Prop) (Cn : Z → Z) (Mk : bool → bool) (Mem : bool → Z → Z).
Context (f : nat → Z → Z → KMemoryManager (B := B) → option (KMemoryManager (B := B))).
Hypothesis Hf : ∀ mm i im p n, part mm i im p n → ready cp mm (seqZ p n) →
  ∃ mm', f i (p * PageSize) n mm = Some mm' ∧ changed Fr Cn Mk Mem mm mm' (seqZ p n).

Lemma each_manager_spec fuel mm p n :
  mm_ok mm → 0 ≤ n ≤ Z.of_nat fuel → ready cp mm (seqZ p n) →
  ∃ mm', each_manager fuel f mm (p * PageSize) n = Some mm' ∧ changed Fr Cn Mk Mem mm mm' (seqZ p n).
Proof.
  revert mm p n. induction fuel as [|fuel IH]; intros mm p n H Hn Hr.
  { assert (n = 0) as -> by lia. exists mm. split; [done|]. by apply changed_nil. }
  cbn [each_manager]. case Z.eqb_spec; intros Hz.
  { subst n. exists mm. split; [done|]. by apply changed_nil. }
  destruct (Hr p) as ([im Ho] & _); [apply elem_of_seqZ; lia|].
  destruct (owner_Some _ _ _ Ho) as (i & Hi & Hp & ->). cbn [mbind option_bind].
  rewrite (proj1 Hi). cbn [mbind option_bind]. pose proof (mo_impl _ H _ _ Hi) as Hok.
  rewrite page_offset_to_end by done. set (k := Z.min n _).
  destruct (impl_extent im Hok) as (_ & _ & ? & ? & ?). unfold im_page in Hp.
  assert (0 < k ≤ n) as Hk by lia.
  assert (seqZ p n = seqZ p k ++ seqZ (p + k) (n - k)) as Es.
  { rewrite <-seqZ_app by lia. f_equal. lia. }
  assert (∀ q, q ∈ seqZ p k → q ∉ seqZ (p + k) (n - k)) as Hd.
  { intros q. rewrite !elem_of_seqZ. lia. }
  rewrite Es in Hr |- *.
  destruct (Hf mm i im p k) as (mm1 & -> & C1); [|by eapply ready_app_l|].
  { split; [done|done|lia|unfold im_page; lia|lia]. }
  cbn [mbind option_bind]. rewrite <-Z.mul_add_distr_r, wrap_small by (unfold in_width, PageSize; lia).
  destruct (IH mm1 (p + k) (n - k)) as (mm2 & -> & C2); [apply C1|lia|by eapply changed_ready|].
  exists mm2. split; [done|]. by eapply changed_app.
Qed.
End each_manager.

(** ** The loop over the blocks of a group *)
Section each_block.
Context (cp : Z → Prop) (Fr : Z → Prop) (Cn : Z → Z) (Mk : bool → bool) (Mem : bool → Z → Z).
Context (inside : KMemoryManager (B := B) → Z → Z → Prop).
Context (f : KMemoryManager (B := B) → Z → Z → option (KMemoryManager (B := B))).
Hypothesis Hf : ∀ mm p n, mm_ok mm → 0 < n → ready cp mm (seqZ p n) → inside mm p n →
  ∃ mm', f mm (p * PageSize) n = Some mm' ∧ changed Fr Cn Mk Mem mm mm' (seqZ p n).
Hypothesis Hinside : ∀ mm mm' p n, skel mm' = skel mm → inside mm p n → inside mm' p n.

Lemma each_block_spec mm g :
  mm_ok mm → group_ok g → NoDup (group_pages g) → ready cp mm (group_pages g) →
  (∀ b, b ∈ g → inside mm (KBlockInfo.m_page_index b) (KBlockInfo.m_num_pages b)) →
  ∃ mm', each_block f mm g = Some mm' ∧ changed Fr Cn Mk Mem mm mm' (group_pages g).
Proof.
  intros H Hg. revert mm H. induction Hg as [|b g Hb Hg IH]; intros mm H Hnd Hr Hin.
  { exists mm. split; [done|]. by apply changed_nil. }
  rewrite group_pages_cons in *. apply NoDup_app in Hnd as (_ & Hd & Hnd).
  cbn [each_block]. rewrite block_info_address by done. unfold block_pages in *.
  destruct (Hf mm (KBlockInfo.m_page_index b) (KBlockInfo.m_num_pages b)) as (mm1 & E1 & C1);
    [done|apply Hb|by eapply ready_app_l|apply Hin; by left|].
  unfold KBlockInfo.GetNumPages. rewrite E1. cbn [mbind option_bind].
  destruct (IH mm1) as (mm2 & E2 & C2); [apply C1|done|by eapply changed_ready| |].
  { intros b' Hb'. eapply Hinside; [apply C1|]. apply Hin. by right. }
  exists mm2. split; [done|]. by eapply changed_app.
Qed.
End each_block.
End pages.
