(* ===== verification/MemoryManagerSpec.v ===== *)
(** The operations of the physical memory manager and of page groups, as operations on the pages
    of the memory: references, releases, and the allocation of page groups. *)
From S2P Require Import Prelude Common PageBitmap MemoryRegion Results PageGroup PageHeap PageHeapAlloc MemoryManager ManagerImpl ManagerPages.

Section operations.
Context {B : Type} `{FB : FreeBitmap B}.
Implicit Types mm : KMemoryManager (B := B).
Implicit Types im : Impl (B := B).

(** * References and releases *)
Lemma locked_part (g : Impl → Z → Z → option Impl) mm i im im' a n :
  mm_ok mm → managed mm i im → g im a n = Some im' →
  on_manager i (λ im, lock_pool (m_pool im);; g im a n) mm = Some (put_manager i im' mm).
Proof.
  intros H Hi E. eapply on_manager_Some; [done|]. rewrite lock_pool_ok by (by eapply mo_impl). done.
Qed.

Lemma Open_pages mm p n : mm_ok mm → 0 ≤ n → ready (λ c, 0 < c < 65535) mm (seqZ p n) →
  ∃ mm', Open mm (p * PageSize) n = Some mm'
    ∧ changed (λ _, False) (λ c, c + 1) (λ m, m) (λ _ b, b) mm mm' (seqZ p n).
Proof.
  intros H Hn. apply each_manager_spec; [|done|lia]. intros mm1 i im q k P Hr.
  destruct (part_Open _ _ _ _ _ P Hr) as (im' & E & C). eexists. split; [|exact C].
  eapply (locked_part Impl_Open); [apply P|apply P|done].
Qed.

Lemma OpenFirst_pages mm p n : mm_ok mm → 0 ≤ n → ready (λ c, c = 0) mm (seqZ p n) →
  ∃ mm', OpenFirst mm (p * PageSize) n = Some mm'
    ∧ changed (λ _, False) (λ _, 1) (λ m, m) (λ _ b, b) mm mm' (seqZ p n).
Proof.
  intros H Hn. apply (each_manager_spec (λ c, c = 0)); [|done|lia]. intros mm1 i im q k P Hr.
  destruct (part_OpenFirst _ _ _ _ _ P Hr) as (im' & E & C). eexists. split; [|exact C].
  eapply (locked_part Impl_OpenFirst); [apply P|apply P|done].
Qed.

Lemma OpenFirst_block_pages mm p n : mm_ok mm → 0 ≤ n → ready (λ c, c = 0) mm (seqZ p n) →
  ∃ mm', OpenFirst_block mm (p * PageSize) n = Some mm'
    ∧ changed (λ _, False) (λ _, 1) (λ m, m) (λ _ b, b) mm mm' (seqZ p n).
Proof.
  intros H Hn. apply (each_manager_spec (λ c, c = 0)); [|done|lia]. intros mm1 i im q k P Hr.
  destruct (part_OpenFirst _ _ _ _ _ P Hr) as (im' & E & C). eexists. split; [|exact C].
  eapply on_manager_Some; [apply P|done].
Qed.

Lemma Close_pages mm p n : mm_ok mm → 0 ≤ n → ready (λ c, 0 < c) mm (seqZ p n) →
  ∃ mm', Close mm (p * PageSize) n = Some mm'
    ∧ changed (λ c, c = 1) (λ c, c - 1) (λ m, m) (λ _ b, b) mm mm' (seqZ p n).
Proof.
  intros H Hn. apply (each_manager_spec (λ c, 0 < c)); [|done|lia]. intros mm1 i im q k P Hr.
  destruct (part_Close _ _ _ _ _ P Hr) as (im' & E & C). eexists. split; [|exact C].
  eapply (locked_part Impl_Close); [apply P|apply P|done].
Qed.

Lemma Release_pages mm p n : mm_ok mm → 0 ≤ n → ready (λ c, c = 0) mm (seqZ p n) →
  ∃ mm', ReleaseContinuous mm (p * PageSize) n = Some mm'
    ∧ changed (λ _, True) (λ c, c) (λ m, m) (λ _ b, b) mm mm' (seqZ p n).
Proof.
  intros H Hn. apply (each_manager_spec (λ c, c = 0)); [|done|lia]. intros mm1 i im q k P Hr.
  destruct (part_Free _ _ _ _ _ P Hr) as (im' & E & C). eexists. split; [|exact C].
  eapply (locked_part Impl_Free); [apply P|apply P|done].
Qed.

(** * Allocation: taking pages out *)

(** The pages of [l] were free and are taken; with [u] their marks are cleared. *)
Record took (u : bool) mm mm' (l : list Z) : Prop := {
  tk_ok : mm_ok mm';
  tk_skel : skel mm' = skel mm;
  tk_was q : q ∈ l → page_free mm q;
  tk_free q : page_free mm' q ↔ page_free mm q ∧ q ∉ l;
  tk_count q : page_count mm' q = page_count mm q;
  tk_mark q : page_mark mm' q = if decide (u = true ∧ q ∈ l) then false else page_mark mm q;
  tk_mem a : m_memory mm' a = m_memory mm a
}.

Lemma took_refl u mm : mm_ok mm → took u mm mm [].
Proof.
  intros H. split; try done.
  - by intros q ?%elem_of_nil.
  - intros q. split; [|tauto]. intros. split; [done|by intros ?%elem_of_nil].
  - intros q. by rewrite decide_False by (intros [_ ?%elem_of_nil]; done).
Qed.

Lemma took_app u mm mm1 mm2 l1 l2 :
  took u mm mm1 l1 → took u mm1 mm2 l2 → took u mm mm2 (l1 ++ l2).
Proof.
  intros T1 T2. split.
  - apply T2.
  - rewrite (tk_skel _ _ _ _ T2). apply T1.
  - intros q [Hq|Hq]%elem_of_app; [by eapply tk_was|]. apply (tk_was _ _ _ _ T2) in Hq.
    apply (tk_free _ _ _ _ T1) in Hq. tauto.
  - intros q. rewrite (tk_free _ _ _ _ T2), (tk_free _ _ _ _ T1), elem_of_app. tauto.
  - intros q. by rewrite (tk_count _ _ _ _ T2), (tk_count _ _ _ _ T1).
  - intros q. rewrite (tk_mark _ _ _ _ T2), (tk_mark _ _ _ _ T1).
    repeat case_decide; rewrite elem_of_app in *; tauto.
  - intros a. by rewrite (tk_mem _ _ _ _ T2), (tk_mem _ _ _ _ T1).
Qed.

Lemma took_disjoint u mm mm1 mm2 l1 l2 q :
  took u mm mm1 l1 → took u mm1 mm2 l2 → q ∈ l1 → q ∉ l2.
Proof. intros T1 T2 H1 H2%(tk_was _ _ _ _ T2). apply (tk_free _ _ _ _ T1) in H2. tauto. Qed.

Lemma lift_same mm i im im' :
  mm_ok mm → managed mm i im → impl_ok im' → shape im' = shape im → same_counts im im' →
  mm_ok (put_manager i im' mm) ∧ skel (put_manager i im' mm) = skel mm
  ∧ (∀ q, page_count (put_manager i im' mm) q = page_count mm q)
  ∧ (∀ q, page_mark (put_manager i im' mm) q = page_mark mm q)
  ∧ (∀ q, page_free (put_manager i im' mm) q ↔
       if decide (im_page im q) then im_free im' q else page_free mm q).
Proof.
  intros H Hi Hok Es Hs. destruct (put_manager_spec mm i im im' H Hi Hok Es) as (H1 & H2 & Ho).
  split_and!; [done|done| | |]; intros q.
  - unfold page_count. rewrite Ho. case_decide; [|done]. rewrite (owner_managed mm i im) by done.
    by apply same_counts_at.
  - unfold page_mark. rewrite Ho. case_decide; [|done]. rewrite (owner_managed mm i im) by done.
    unfold marked. destruct Hs as [_ ->]. by destruct (shape_pages _ _ Es) as [-> _].
  - unfold page_free. rewrite Ho. by case_decide.
Qed.

Lemma block_taken_took mm i im im' p n :
  mm_ok mm → managed mm i im → 0 < n → block_taken im im' p n →
  took false mm (put_manager i im' mm) (seqZ p n) ∧ part (put_manager i im' mm) i im' p n
  ∧ (∀ q, q ∈ seqZ p n → im_page im q).
Proof.
  intros H Hi Hn T. pose proof (mo_impl _ H _ _ Hi) as Hok.
  assert (∀ q, q ∈ seqZ p n → im_page im q) as Hpg.
  { intros q Hq%elem_of_seqZ. apply (io_free _ Hok). by apply (bt_free _ _ _ _ T). }
  destruct (lift_same mm i im im') as (H1 & H2 & H3 & H4 & H5); [done|done|apply T..|].
  split_and!; [split|split|done]; try done.
  - intros q Hq. unfold page_free. rewrite (owner_managed mm i im) by auto.
    apply (bt_free _ _ _ _ T). by apply elem_of_seqZ.
  - intros q. rewrite H5. case_decide as Hq.
    + unfold page_free. rewrite (owner_managed mm i im) by done. rewrite (bt_rest _ _ _ _ T), elem_of_seqZ. done.
    + split; [|tauto]. intros ?. split; [done|]. by intros ?%Hpg.
  - split; [|apply Hi]. simpl. apply list_lookup_insert_eq. destruct Hi. by eapply lookup_lt_Some.
  - apply (shape_im_page im im'); [apply T|]. apply Hpg, elem_of_seqZ. lia.
  - destruct (shape_pages _ _ (bt_shape _ _ _ _ T)) as [-> ->].
    specialize (Hpg (p + n - 1)). rewrite elem_of_seqZ in Hpg. unfold im_page in Hpg. lia.
Qed.

Lemma none_taken_took mm i im im' u :
  mm_ok mm → managed mm i im → none_taken im im' → took u mm (put_manager i im' mm) [].
Proof.
  intros H Hi T. destruct (lift_same mm i im im') as (H1 & H2 & H3 & H4 & H5); [done|done|apply T..|].
  split; try done.
  - by intros q ?%elem_of_nil.
  - intros q. rewrite H5. assert (q ∉ ([] : list Z)) by by intros ?%elem_of_nil.
    case_decide; [|tauto]. unfold page_free. rewrite (owner_managed mm i im) by done.
    rewrite (nt_free _ _ T). tauto.
  - intros q. rewrite decide_False; [done|]. by intros [_ ?%elem_of_nil].
Qed.

(** Taking pages and clearing their marks. *)
Lemma took_unoptimized mm mm1 mm2 l :
  took false mm mm1 l → changed (λ _, False) (λ c, c) (λ _, false) (λ _ b, b) mm1 mm2 l →
  took true mm mm2 l.
Proof.
  intros T C. split.
  - apply C.
  - rewrite (ch_skel _ _ _ _ _ _ _ C). apply T.
  - apply T.
  - intros q. rewrite (ch_free _ _ _ _ _ _ _ C), (tk_free _ _ _ _ T). tauto.
  - intros q. rewrite (ch_count _ _ _ _ _ _ _ C), (tk_count _ _ _ _ T). by case_decide.
  - intros q. rewrite (ch_mark _ _ _ _ _ _ _ C), (tk_mark _ _ _ _ T).
    rewrite (decide_False (P := false = true ∧ _)) by (by intros [? _]).
    repeat case_decide; tauto.
  - intros a. rewrite (ch_mem _ _ _ _ _ _ _ C), (tk_mem _ _ _ _ T). by case_decide.
Qed.

(** Taking pages and giving them back. *)
Lemma took_freed u mm mm1 mm2 l :
  took u mm mm1 l → changed (λ _, True) (λ c, c) (λ m, m) (λ _ b, b) mm1 mm2 l →
  mm_ok mm2 ∧ skel mm2 = skel mm ∧ (∀ q, page_free mm2 q ↔ page_free mm q)
  ∧ (∀ q, page_count mm2 q = page_count mm q)
  ∧ (∀ q, page_mark mm2 q = if decide (u = true ∧ q ∈ l) then false else page_mark mm q)
  ∧ (∀ a, m_memory mm2 a = m_memory mm a).
Proof.
  intros T C. split_and!.
  - apply C.
  - rewrite (ch_skel _ _ _ _ _ _ _ C). apply T.
  - intros q. rewrite (ch_free _ _ _ _ _ _ _ C), (tk_free _ _ _ _ T).
    pose proof (tk_was _ _ _ _ T q). destruct (decide (q ∈ l)); tauto.
  - intros q. rewrite (ch_count _ _ _ _ _ _ _ C), (tk_count _ _ _ _ T). by case_decide.
  - intros q. rewrite (ch_mark _ _ _ _ _ _ _ C), (tk_mark _ _ _ _ T). by repeat case_decide.
  - intros a. rewrite (ch_mem _ _ _ _ _ _ _ C), (tk_mem _ _ _ _ T). by case_decide.
Qed.

(** Free pages have no reference. *)
Lemma free_count_0 mm q : mm_ok mm → page_free mm q → page_count mm q = 0.
Proof.
  intros H. unfold page_free, page_count. destruct (owner mm q) as [im|] eqn:Ho; [|done].
  destruct (owner_Some _ _ _ Ho) as (i & Hi & _). intros Hf. by apply (io_free _ (mo_impl _ H _ _ Hi)).
Qed.

Lemma free_owned mm q : page_free mm q → is_Some (owner mm q).
Proof. unfold page_free. by destruct (owner mm q). Qed.

Lemma took_ready u mm mm1 l : mm_ok mm → took u mm mm1 l → ready (λ c, c = 0) mm1 l.
Proof.
  intros H T q Hq. pose proof (tk_was _ _ _ _ T q Hq) as Hf. split_and!.
  - destruct (free_owned mm q Hf) as [im Ho].
    destruct (skel_owner mm mm1 q (tk_skel _ _ _ _ T)) as [H1 _]. by destruct (H1 im Ho) as (im' & -> & _).
  - rewrite (tk_free _ _ _ _ T). tauto.
  - rewrite (tk_count _ _ _ _ T). by apply free_count_0.
Qed.

(** ** The loops of [AllocatePageGroupImpl] *)
Section page_group.
Context (mm0 : KMemoryManager (B := B)) (pool n : Z) (slab0 : nat) (u random : bool).
Hypothesis Hmm0 : mm_ok mm0.
Hypothesis Hn : n < 2 ^ 32.

(** The group holds pages that were taken from the pool, as many as are not left to take. *)
Record alloc_inv (s : AllocState (B := B)) : Prop := {
  ai_took : took u mm0 (al_mm s) (group_pages (al_out s));
  ai_group : group_ok (al_out s);
  ai_nodup : NoDup (group_pages (al_out s));
  ai_pool q : q ∈ group_pages (al_out s) → page_pool mm0 q = Some pool;
  ai_left : 0 ≤ al_left s ∧ al_left s + Z.of_nat (length (group_pages (al_out s))) = n;
  ai_slab : (length (al_out s) + al_slab s)%nat = slab0
}.

Definition fewer (s s' : AllocState (B := B)) : Prop :=
  al_left s' ≤ al_left s ∧ ∀ q, page_free (al_mm s') q → page_free (al_mm s) q.

Lemma fewer_refl s : fewer s s.
Proof. by split. Qed.

Lemma fewer_trans s1 s2 s3 : fewer s1 s2 → fewer s2 s3 → fewer s1 s3.
Proof. intros [? H1] [? H2]. split; [lia|]. auto. Qed.

(** No page of the manager [i] is free. *)
Definition exhausted mm (i : nat) : Prop :=
  ∀ im q, managed mm i im → im_page im q → ¬ page_free mm q.

Lemma exhausted_mono mm mm' i : skel mm' = skel mm →
  (∀ q, page_free mm' q → page_free mm q) → exhausted mm i → exhausted mm' i.
Proof.
  intros E Hs He im q Hi Hq Hf%Hs. destruct (skel_managed mm' mm i im (eq_sym E) Hi) as (im0 & Hi0 & Es).
  eapply (He im0); [done| |done]. by apply (shape_im_page im im0).
Qed.

Lemma inv_skel s : alloc_inv s → skel (al_mm s) = skel mm0.
Proof. intros I. apply (ai_took _ I). Qed.

(** The outcome of a loop: success with [P] of the final state, or no block-info left. *)
Definition outcome (P : AllocState (B := B) → Prop) (s : AllocState (B := B))
    (r : option (Z * AllocState (B := B))) : Prop :=
  ∃ rc s', r = Some (rc, s') ∧ alloc_inv s' ∧ fewer s s'
    ∧ (rc = ResultSuccess ∧ P s' ∨ rc = ResultOutOfResource ∧ al_slab s' = 0%nat ∧ 0 < al_left s').

Lemma outcome_step P s s1 r : fewer s s1 → outcome P s1 r → outcome P s r.
Proof.
  intros F (rc & s' & E & I & F' & O). exists rc, s'. split_and!; try done. by eapply fewer_trans.
Qed.

(** One block: the state with the block taken, marked and added to the group. *)
Lemma add_block_step s i im im1 p k out slab :
  alloc_inv s → managed (al_mm s) i im → m_pool im = pool → 0 < k ≤ al_left s →
  block_taken im im1 p k →
  KPageGroup.AddBlock (al_out s) (al_slab s) (p * PageSize) k = Some (ResultSuccess, out, slab) →
  group_ok out → group_pages out = group_pages (al_out s) ++ seqZ p k →
  (length out + slab = length (al_out s) + al_slab s)%nat →
  ∃ mm2, (if u then on_manager i (λ im, TrackUnoptimizedAllocation im (p * PageSize) k)
                      (put_manager i im1 (al_mm s))
          else Some (put_manager i im1 (al_mm s))) = Some mm2
    ∧ alloc_inv (MkAlloc mm2 out slab (al_left s - k))
    ∧ fewer s (MkAlloc mm2 out slab (al_left s - k)).
Proof.
  intros I Hi Hpool Hk T E Hg Hp Hsl. pose proof (ai_took _ I) as T0.
  destruct (block_taken_took (al_mm s) i im im1 p k) as (T1 & P & Hpg); [apply T0|done|lia|done|].
  assert (∃ mm2, (if u then on_manager i (λ im, TrackUnoptimizedAllocation im (p * PageSize) k)
                      (put_manager i im1 (al_mm s))
          else Some (put_manager i im1 (al_mm s))) = Some mm2 ∧ took u (al_mm s) mm2 (seqZ p k))
    as (mm2 & -> & T2).
  { destruct u; [|by eexists].
    destruct (TrackUnoptimizedAllocation_spec im1 p k) as (im2 & E2 & R);
      [apply T|lia|apply P|apply P|].
    eexists. split; [eapply on_manager_Some; [apply P|done]|].
    eapply took_unoptimized; [done|]. eapply remarked_changed; [done|done]. }
  exists mm2. split; [done|]. split.
  - split; simpl; [rewrite Hp; by eapply took_app|done| | | |].
    + rewrite Hp. apply NoDup_app. split_and!; [apply I| |apply NoDup_seqZ].
      intros q Hq. exact (took_disjoint u mm0 (al_mm s) mm2 _ _ q T0 T2 Hq).
    + intros q. rewrite Hp. intros [Hq|Hq]%elem_of_app; [by apply I|].
      rewrite <-(skel_pool mm0 (al_mm s)) by apply T0. unfold page_pool.
      rewrite (owner_managed _ i im) by (apply T0 || auto). simpl. by rewrite Hpool.
    + destruct (ai_left _ I). rewrite Hp, length_app, length_seqZ. lia.
    + rewrite Hsl. apply I.
  - split; simpl; [lia|]. intros q Hq. by apply (tk_free _ _ _ _ T2) in Hq as [? _].
Qed.

Lemma while_spec fuel i idx s im :
  (idx < 7)%nat → managed (al_mm s) i im → m_pool im = pool → alloc_inv s →
  al_left s / level_pages idx < Z.of_nat fuel →
  outcome (λ s', idx = 0%nat → al_left s' = 0 ∨ exhausted (al_mm s') i) s
    (AllocatePageGroup_while fuel i (Z.of_nat idx) (level_pages idx) u random s).
Proof.
  intros Hidx. revert s im. induction fuel as [|fuel IH]; intros s im Hi Hpool I Hf.
  { destruct (ai_left _ I). assert (0 ≤ al_left s / level_pages idx); [|lia].
    pose proof (level_pages_bounds idx). apply Z.div_pos; lia. }
  pose proof (level_pages_bounds idx) as Hlp. cbn [AllocatePageGroup_while]. case Z.leb_spec; intros Hle.
  2: { exists ResultSuccess, s. split_and!; [done|done|apply fewer_refl|]. left. split; [done|]. intros ->.
       left. destruct (ai_left _ I). change (level_pages 0) with 1 in Hle. lia. }
  pose proof (ai_took _ I) as T0. pose proof (mo_impl _ (tk_ok _ _ _ _ T0) _ _ Hi) as Hok.
  rewrite (proj1 Hi). cbn [mbind option_bind].
  destruct (Impl_AllocateBlock_spec im idx random Hok Hidx) as (a & im1 & -> & Ha). cbn [mbind option_bind].
  destruct Ha as [(-> & He & Tn)|(p & -> & T)].
  - pose proof (none_taken_took (al_mm s) i im im1 u (tk_ok _ _ _ _ T0) Hi Tn) as T1. cbn [Z.eqb].
    eexists _, _. split; [done|]. split_and!.
    + split; try apply I. simpl. rewrite <-(app_nil_r (group_pages _)). by eapply took_app.
    + split; simpl; [lia|]. intros q Hq. by apply (tk_free _ _ _ _ T1) in Hq as [? _].
    + left. split; [done|]. intros ->. right. simpl. intros im' q Hi' Hq. unfold page_free.
      rewrite (owner_managed _ i im') by (apply T1 || done). simpl in Hi'.
      destruct Hi' as [Hi' _]. simpl in Hi'. rewrite list_lookup_insert_eq in Hi'
        by (destruct Hi; by eapply lookup_lt_Some). injection Hi' as <-.
      rewrite (nt_free _ _ Tn). by apply empty_no_page.
  - assert (p * PageSize ≠ 0) as Hne by (pose proof (bt_pos _ _ _ _ T); unfold PageSize; lia).
    rewrite (proj2 (Z.eqb_neq _ _) Hne).
    destruct (block_taken_took (al_mm s) i im im1 p (level_pages idx)) as (T1 & P & Hpg);
      [apply T0|done|lia|done|].
    destruct (ai_left _ I) as [Hl0 Hl]. destruct (impl_extent im1 (bt_ok _ _ _ _ T)) as (_ & _ & ? & ? & ?).
    pose proof (pt_end _ _ _ _ _ P).
    destruct (AddBlock_spec (al_out s) (al_slab s) p (level_pages idx)) as (rc & out & slab & E & Hrc);
      [apply I|apply T|lia|lia|lia|]. rewrite E. cbn [mbind option_bind].
    destruct Hrc as [(-> & Hg & Hp & Hsl)|(-> & Hsl & -> & ->)].
    + change (Result.IsError ResultSuccess) with false. cbn match.
      destruct (add_block_step s i im im1 p (level_pages idx) out slab) as (mm2 & -> & I2 & F2); try done.
      { lia. }
      cbn [mbind option_bind]. eapply outcome_step; [exact F2|].
      destruct (skel_managed (al_mm s) mm2 i im) as (im2 & Hi2 & Es2); [|done|].
      { pose proof (inv_skel _ I2) as Ek. simpl in Ek. rewrite Ek. symmetry. by apply inv_skel. }
      apply (IH _ im2); [done| |done|].
      { rewrite <-Hpool. by apply shape_fields. }
      simpl. apply Z.div_lt_upper_bound; [lia|].
      pose proof (Z.div_mod (al_left s) (level_pages idx) ltac:(lia)).
      pose proof (Z.mod_pos_bound (al_left s) (level_pages idx) ltac:(lia)). nia.
    + change (Result.IsError ResultOutOfResource) with true. cbn match.
      destruct (part_Free (put_manager i im1 (al_mm s)) i im1 p (level_pages idx)) as (im2 & E2 & C2);
        [done|apply (took_ready false (al_mm s)); [apply T0|done]|].
      rewrite (on_manager_Some _ i im1 _ im2); [|apply P|done]. cbn [mbind option_bind].
      destruct (took_freed false (al_mm s) _ _ _ T1 C2) as (K1 & K2 & K3 & K4 & K5 & K6).
      eexists _, _. split; [done|]. split_and!.
      * split; try apply I. simpl. rewrite <-(app_nil_r (group_pages _)). eapply took_app; [done|].
        split; [done|done| | |done| |done].
        -- by intros q ?%elem_of_nil.
        -- intros q. rewrite K3. split; [|tauto]. intros. split; [done|by intros ?%elem_of_nil].
        -- intros q. rewrite K5, !decide_False; [done|by intros [_ ?%elem_of_nil]|by intros [? _]].
      * split; simpl; [lia|]. intros q. by rewrite K3.
      * right. split_and!; [done|done|simpl; lia].
Qed.

Lemma managers_spec fuel l dir cur idx s :
  (idx < 7)%nat → (length l ≤ fuel)%nat → walks (al_mm s) dir cur l →
  (∀ i, i ∈ l → ∃ im, managed (al_mm s) i im ∧ m_pool im = pool) → alloc_inv s →
  outcome (λ s', idx = 0%nat → al_left s' = 0 ∨ ∀ i, i ∈ l → exhausted (al_mm s') i) s
    (AllocatePageGroup_managers fuel cur dir (Z.of_nat idx) (level_pages idx) u random s).
Proof.
  intros Hidx. revert l cur s. induction fuel as [|fuel IH]; intros l cur s Hl Hw Hin I.
  { destruct l; [|simpl in Hl; lia]. simpl in Hw. subst cur.
    exists ResultSuccess, s. split_and!; [done|done|apply fewer_refl|]. left. split; [done|].
    intros _. right. by intros i ?%elem_of_nil. }
  destruct l as [|i l]; simpl in Hw.
  { subst cur. exists ResultSuccess, s. split_and!; [done|done|apply fewer_refl|]. left. split; [done|].
    intros _. right. by intros i ?%elem_of_nil. }
  destruct Hw as (-> & next & Hnext & Hw). cbn [AllocatePageGroup_managers].
  destruct (Hin i) as (im & Hi & Hpool); [by left|].
  destruct (while_spec (S (Z.to_nat (al_left s / level_pages idx))) i idx s im)
    as (rc & s1 & -> & I1 & F1 & O1); [done..| |].
  { pose proof (level_pages_bounds idx). destruct (ai_left _ I).
    assert (0 ≤ al_left s / level_pages idx) by (apply Z.div_pos; lia). lia. }
  cbn [mbind option_bind]. destruct O1 as [(-> & HP)|(-> & Hs)].
  2: { change (Result.IsError ResultOutOfResource) with true. cbn match.
       eexists _, s1. split_and!; [done|done|done|by right]. }
  change (Result.IsError ResultSuccess) with false. cbn match.
  assert (skel (al_mm s1) = skel (al_mm s)) as Ek by (rewrite (inv_skel _ I1); symmetry; by apply inv_skel).
  assert (GetNextManager (al_mm s1) i dir = Some next) as ->.
  { pose proof (skel_walks (al_mm s) (al_mm s1) dir (Some i) [i] Ek) as Hwk. simpl in Hwk.
    unfold GetNextManager in *. apply bind_Some in Hnext as (im0 & Hi0 & [= <-]).
    destruct (skel_lookup _ _ _ _ Ek Hi0) as (im1 & -> & Es). cbn [mbind option_bind].
    by destruct (shape_fields _ _ Es) as (_ & _ & _ & -> & ->). }
  cbn [mbind option_bind].
  destruct (IH l next s1) as (rc & s2 & E2 & I2 & F2 & O2);
    [simpl in Hl; lia|by eapply skel_walks| |done|].
  { intros j Hj. destruct (Hin j) as (jm & Hjm & Hp); [by right|].
    destruct (skel_managed _ _ _ _ Ek Hjm) as (jm' & ? & Es). exists jm'. split; [done|].
    rewrite <-Hp. by apply shape_fields. }
  exists rc, s2. split_and!; [done|done|by eapply fewer_trans|].
  destruct O2 as [(-> & HP2)|?]; [left|by right]. split; [done|]. intros H0.
  destruct (HP2 H0) as [?|Hex]; [by left|]. destruct (HP H0) as [Hz|Hi1].
  - left. destruct (ai_left _ I2), F2. lia.
  - right. intros j [->|Hj]%elem_of_cons; [|by apply Hex].
    eapply (exhausted_mono (al_mm s1)); [|apply F2|done].
    rewrite (inv_skel _ I2). symmetry. by apply inv_skel.
Qed.

(** The pool has no free page. *)
Definition pool_exhausted mm : Prop := ∀ q, page_pool mm q = Some pool → ¬ page_free mm q.

Lemma levels_spec k dir s :
  (k ≤ 7)%nat → 0 ≤ pool < Pool.Count → alloc_inv s →
  outcome (λ s', al_left s' = 0 ∨ ((0 < k)%nat → pool_exhausted (al_mm s'))) s
    (AllocatePageGroup_levels k pool dir u random s).
Proof.
  intros Hk Hpool. revert s. induction k as [|k IH]; intros s I.
  { exists ResultSuccess, s. split_and!; [done|done|apply fewer_refl|]. left. split; [done|]. right. lia. }
  cbn [AllocatePageGroup_levels]. destruct (ai_left _ I) as [Hl0 Hl]. case Z.ltb_spec; intros Hleft.
  2: { exists ResultSuccess, s. split_and!; [done|done|apply fewer_refl|]. left. split; [done|]. left. lia. }
  rewrite GetBlockNumPages_eq by lia. cbn [mbind option_bind].
  destruct (mo_walk _ (tk_ok _ _ _ _ (ai_took _ I)) pool dir Hpool) as (first & l & -> & Hw & Hlen & Hin).
  cbn [mbind option_bind].
  destruct (managers_spec walk_fuel l dir first k s) as (rc & s1 & -> & I1 & F1 & O1);
    [lia|unfold walk_fuel; lia|done|by intros i ?%Hin|done|].
  cbn [mbind option_bind]. destruct O1 as [(-> & HP)|(-> & Hs)].
  2: { change (Result.IsError ResultOutOfResource) with true. cbn match.
       eexists _, s1. split_and!; [done|done|done|by right]. }
  change (Result.IsError ResultSuccess) with false. cbn match. eapply outcome_step; [exact F1|].
  destruct (IH ltac:(lia) s1 I1) as (rc & s2 & E2 & I2 & F2 & O2).
  exists rc, s2. split_and!; [done|done|done|]. destruct O2 as [(-> & HP2)|?]; [left|by right].
  split; [done|]. destruct HP2 as [?|HP2]; [by left|].
  destruct (decide (k = 0%nat)) as [->|]; [|right; intros _; apply HP2; lia].
  injection E2 as <-. destruct (HP eq_refl) as [?|Hex]; [by left|]. right. intros _ q Hq Hf.
  unfold page_pool in Hq. apply fmap_Some in Hq as (im & Ho & Hp).
  destruct (owner_Some _ _ _ Ho) as (i & Hi & Hqp & _).
  destruct (skel_managed (al_mm s1) (al_mm s) i im) as (im0 & Hi0 & Es0); [|done|].
  { rewrite (inv_skel _ I1). by apply inv_skel. }
  apply (Hex i) with im q; [|done..]. apply Hin. exists im0. split; [done|].
  rewrite Hp. by apply shape_fields.
Qed.
End page_group.

(** * Freeing a group that could not be completed *)

(** No two managers of the pool are adjacent: a block of a group lies in one manager. *)
Definition apart mm (pool : Z) : Prop := ∀ i j im jm, managed mm i im → managed mm j jm →
  m_pool im = pool → m_pool jm = pool → base_page jm ≠ base_page im + im_pages im.

Definition in_one_manager mm (p n : Z) : Prop :=
  ∃ im, owner mm p = Some im ∧ p + n ≤ base_page im + im_pages im.

Lemma skel_in_one mm mm' p n : skel mm' = skel mm → in_one_manager mm p n → in_one_manager mm' p n.
Proof.
  intros E (im & Ho & Hle). destruct (skel_owner mm mm' p E) as [H1 _].
  destruct (H1 im Ho) as (im' & Ho' & Es). exists im'. split; [done|].
  by destruct (shape_pages _ _ Es) as [-> ->].
Qed.

Lemma apart_in_one mm pool p n : mm_ok mm → apart mm pool → 0 < n →
  (∀ q, p ≤ q < p + n → page_pool mm q = Some pool) → in_one_manager mm p n.
Proof.
  intros H Ha Hn Hq. pose proof (Hq p ltac:(lia)) as Hp. unfold page_pool in Hp.
  apply fmap_Some in Hp as (im & Ho & Hpool). exists im. split; [done|].
  destruct (decide (p + n ≤ base_page im + im_pages im)) as [|Hgt]; [done|exfalso].
  destruct (owner_Some _ _ _ Ho) as (i & Hi & Hpi & _). unfold im_page in Hpi.
  set (q := base_page im + im_pages im) in *. pose proof (Hq q ltac:(lia)) as Hqp. unfold page_pool in Hqp.
  apply fmap_Some in Hqp as (jm & Hoj & Hpoolj).
  destruct (owner_Some _ _ _ Hoj) as (j & Hj & Hqj & _).
  apply (Ha i j im jm Hi Hj (eq_sym Hpool) (eq_sym Hpoolj)). unfold im_page in Hqj.
  destruct (decide (base_page jm = q)) as [|Hne]; [done|exfalso].
  assert (owner mm (q - 1) = Some im) as O1.
  { apply (owner_managed mm i im _ H Hi). unfold im_page. lia. }
  assert (owner mm (q - 1) = Some jm) as O2.
  { apply (owner_managed mm j jm _ H Hj). unfold im_page. lia. }
  rewrite O1 in O2. injection O2 as <-. lia.
Qed.

Definition free_block mm (address num_pages : Z) : option KMemoryManager :=
  i ← GetManager mm address;
  im ← m_managers mm !! i;
  im ← Impl_Free im address (Z.min num_pages (u64 (Impl_GetEndAddress im - address) / PageSize));
  Some (put_manager i im mm).

Lemma free_group_each mm g : free_group mm g = each_block free_block mm g.
Proof.
  revert mm. induction g as [|b g IH]; intros mm; [done|]. cbn [free_group each_block].
  set (rhs := each_block free_block) in *. unfold free_block.
  destruct (GetManager mm _) as [i|]; cbn [mbind option_bind]; [|done].
  destruct (m_managers mm !! i) as [im|]; cbn [mbind option_bind]; [|done].
  by destruct (Impl_Free im _ _) as [im'|]; cbn [mbind option_bind].
Qed.

Lemma free_block_pages mm p n : mm_ok mm → 0 < n → ready (λ c, c = 0) mm (seqZ p n) →
  in_one_manager mm p n →
  ∃ mm', free_block mm (p * PageSize) n = Some mm'
    ∧ changed (λ _, True) (λ c, c) (λ m, m) (λ _ b, b) mm mm' (seqZ p n).
Proof.
  intros H Hn Hr (im & Ho & Hle). destruct (owner_Some _ _ _ Ho) as (i & Hi & Hp & Hg).
  unfold free_block. rewrite Hg. cbn [mbind option_bind]. rewrite (proj1 Hi). cbn [mbind option_bind].
  change (u64 (Impl_GetEndAddress im - p * PageSize) / PageSize) with (Impl_GetPageOffsetToEnd im (p * PageSize)).
  rewrite page_offset_to_end, Z.min_l by (done || lia || by eapply mo_impl).
  destruct (part_Free mm i im p n) as (im' & -> & C); [by split|done|]. by eexists.
Qed.

Lemma free_group_pages mm g : mm_ok mm → group_ok g → NoDup (group_pages g) →
  ready (λ c, c = 0) mm (group_pages g) →
  (∀ b, b ∈ g → in_one_manager mm (KBlockInfo.m_page_index b) (KBlockInfo.m_num_pages b)) →
  ∃ mm', free_group mm g = Some mm'
    ∧ changed (λ _, True) (λ c, c) (λ m, m) (λ _ b, b) mm mm' (group_pages g).
Proof.
  intros. rewrite free_group_each. apply (each_block_spec (λ c, c = 0) _ _ _ _ in_one_manager); try done.
  - apply free_block_pages.
  - apply skel_in_one.
Qed.

Lemma group_block_page g b q : b ∈ g → q ∈ block_pages b → q ∈ group_pages g.
Proof. intros Hb Hq. unfold group_pages. apply list_elem_of_bind. by exists b. Qed.

(** * [AllocatePageGroupImpl] *)
Lemma GetBlockIndex_spec n : 0 < n → ∃ k, GetBlockIndex n = Z.of_nat k ∧ (k < 7)%nat.
Proof.
  intros Hn. unfold GetBlockIndex, MemoryBlockPageShifts, NumMemoryBlockPageShifts. cbn [rev app GetBlockIndex_loop].
  repeat match goal with
  | |- context [?x <=? n] => destruct (Z.leb_spec x n)
  end; [exists 6%nat|exists 5%nat|exists 4%nat|exists 3%nat|exists 2%nat|exists 1%nat|exists 0%nat|];
    try (split; [reflexivity|lia]).
  exfalso. change (Z.shiftl 1 12 / PageSize) with 1 in *. lia.
Qed.

Lemma length_group g : group_ok g → (length g ≤ length (group_pages g))%nat.
Proof.
  induction 1 as [|b g (? & ? & ?) _ IH]; [done|]. rewrite group_pages_cons, length_app.
  unfold block_pages. rewrite length_seqZ. simpl. lia.
Qed.

(** What a successful allocation of [n] pages gives. *)
Record allocated_group (u : bool) mm mm' (pool n : Z) (g : KPageGroup.group) (slab slab' : nat) : Prop := {
  ag_took : took u mm mm' (group_pages g);
  ag_ok : group_ok g;
  ag_nodup : NoDup (group_pages g);
  ag_length : Z.of_nat (length (group_pages g)) = n;
  ag_pool q : q ∈ group_pages g → page_pool mm q = Some pool;
  ag_slab : (length g + slab')%nat = slab
}.

(** A failed one leaves the pages as they were; marks of free pages may be gone. *)
Record restored mm mm' : Prop := {
  rs_ok : mm_ok mm';
  rs_skel : skel mm' = skel mm;
  rs_free q : page_free mm' q ↔ page_free mm q;
  rs_count q : page_count mm' q = page_count mm q;
  rs_mark q : ¬ page_free mm q → page_mark mm' q = page_mark mm q;
  rs_mem a : m_memory mm' a = m_memory mm a
}.

(** Why it failed: the pool has fewer free pages, or there are fewer block infos. *)
Definition failure (rc : Z) mm (pool n : Z) (slab : nat) : Prop :=
  rc = ResultOutOfMemory ∧ (∀ l, NoDup l →
    (∀ q, q ∈ l → page_free mm q ∧ page_pool mm q = Some pool) → Z.of_nat (length l) < n)
  ∨ rc = ResultOutOfResource ∧ Z.of_nat slab < n.

Lemma failure_error rc mm pool n slab : failure rc mm pool n slab → Result.IsError rc = true.
Proof. by intros [[-> _]|[-> _]]. Qed.

Lemma inv_in_one mm pool n slab u s :
  mm_ok mm → apart mm pool → alloc_inv mm pool n slab u s →
  ∀ b, b ∈ al_out s → in_one_manager (al_mm s) (KBlockInfo.m_page_index b) (KBlockInfo.m_num_pages b).
Proof.
  intros H Ha I b Hb. eapply skel_in_one; [apply (ai_took _ _ _ _ _ _ I)|].
  assert (block_ok b) as (? & ? & ?) by (by eapply Forall_forall; [apply (ai_group _ _ _ _ _ _ I)|]).
  eapply apart_in_one; [done..|]. intros q Hq. apply (ai_pool _ _ _ _ _ _ I).
  eapply group_block_page; [done|]. by apply elem_of_seqZ.
Qed.

Lemma AllocatePageGroupImpl_spec mm slab n pool dir u random :
  mm_ok mm → 0 ≤ pool < Pool.Count → 0 < n < 2 ^ 32 → apart mm pool →
  ∃ rc mm' g slab', AllocatePageGroupImpl mm [] slab n pool dir u random = Some (rc, mm', g, slab')
    ∧ (rc = ResultSuccess ∧ allocated_group u mm mm' pool n g slab slab'
       ∨ failure rc mm pool n slab ∧ g = [] ∧ slab' = slab ∧ restored mm mm').
Proof.
  intros H Hpool Hn Ha. unfold AllocatePageGroupImpl.
  destruct (GetBlockIndex_spec n) as (k & -> & Hk); [lia|].
  rewrite (proj2 (Z.leb_le 0 _)) by lia. cbn [negb]. replace (Z.to_nat (Z.of_nat k + 1)) with (S k) by lia.
  assert (alloc_inv mm pool n slab u (MkAlloc mm [] slab n)) as I0.
  { split; simpl; [by apply took_refl|constructor|constructor| |lia|done]. by intros q ?%elem_of_nil. }
  destruct (levels_spec mm pool n slab u random ltac:(lia) (S k) dir _ ltac:(lia) Hpool I0)
    as (rc & s & -> & I & _ & O). cbn [mbind option_bind].
  set (rc' := if Result.IsError rc then rc else if al_left s =? 0 then ResultSuccess else ResultOutOfMemory).
  destruct (ai_left _ _ _ _ _ _ I) as [Hl0 Hl]. pose proof (ai_slab _ _ _ _ _ _ I) as Hsl.
  pose proof (length_group _ (ai_group _ _ _ _ _ _ I)) as Hlg.
  assert (rc' = ResultSuccess ∧ al_left s = 0 ∨ failure rc' mm pool n slab) as [[-> Hz]|Hfail].
  { subst rc'. destruct O as [(-> & O)|(-> & Hs)].
    - change (Result.IsError ResultSuccess) with false. cbn match. case Z.eqb_spec; intros Hz; [by left|].
      right. left. split; [done|]. destruct O as [?|Hex]; [lia|]. specialize (Hex ltac:(lia)).
      intros l Hnd Hl'. assert (length l ≤ length (group_pages (al_out s)))%nat; [|lia].
      apply submseteq_length, NoDup_submseteq; [done|]. intros q Hq. destruct (Hl' q Hq) as [Hf Hp].
      destruct (decide (q ∈ group_pages (al_out s))) as [|Hnin]; [done|exfalso].
      apply (Hex q); [by rewrite (skel_pool mm) by apply (ai_took _ _ _ _ _ _ I)|].
      apply (tk_free _ _ _ _ (ai_took _ _ _ _ _ _ I)). done.
    - change (Result.IsError ResultOutOfResource) with true. cbn match. right. right. split; [done|].
      destruct Hs as [Hs ?]. lia. }
  - change (Result.IsError ResultSuccess) with false. cbn match.
    eexists _, _, _, _. split; [done|]. left. split; [done|]. split; try apply I. lia.
  - rewrite (failure_error _ _ _ _ _ Hfail).
    destruct (free_group_pages (al_mm s) (al_out s)) as (mm' & -> & C);
      [apply I|apply I|apply I|eapply took_ready; [done|apply I]|by eapply inv_in_one|].
    cbn [mbind option_bind KPageGroup.Finalize].
    destruct (took_freed _ _ _ _ _ (ai_took _ _ _ _ _ _ I) C) as (K1 & K2 & K3 & K4 & K5 & K6).
    eexists _, _, _, _. split; [done|]. right. split_and!; [done|done|done|]. split; try done.
    intros q Hq. rewrite K5. rewrite decide_False; [done|].
    intros [_ Hin]. by apply Hq, (tk_was _ _ _ _ (ai_took _ _ _ _ _ _ I)).
Qed.

(** * [AllocateAndOpen] *)
Lemma pool_flags mm pool : mm_ok mm → 0 ≤ pool < Pool.Count →
  ∃ has id, at_ (m_has_optimized_process mm) pool = Some has
    ∧ at_ (m_optimized_process_ids mm) pool = Some id.
Proof.
  intros H Hp. destruct (mo_ids _ H) as [E1 E2].
  destruct (at_is_Some (m_has_optimized_process mm) pool) as [has ?]; [unfold Pool.Count in *; lia|].
  destruct (at_is_Some (m_optimized_process_ids mm) pool) as [id ?]; [unfold Pool.Count in *; lia|].
  by exists has, id.
Qed.

(** What [AllocateAndOpen] does to the pages when it succeeds. *)
Record opened_group mm mm' (pool n : Z) (g : KPageGroup.group) (slab slab' : nat) : Prop := {
  og_ok : mm_ok mm';
  og_skel : skel mm' = skel mm;
  og_group : group_ok g;
  og_nodup : NoDup (group_pages g);
  og_length : Z.of_nat (length (group_pages g)) = n;
  og_was q : q ∈ group_pages g → page_free mm q ∧ page_pool mm q = Some pool;
  og_free q : page_free mm' q ↔ page_free mm q ∧ q ∉ group_pages g;
  og_count q : page_count mm' q = if decide (q ∈ group_pages g) then 1 else page_count mm q;
  og_mem a : m_memory mm' a = m_memory mm a;
  og_slab : (length g + slab')%nat = slab
}.

Lemma AllocateAndOpen_pages mm slab n option_ :
  mm_ok mm → 0 ≤ GetPool option_ < Pool.Count → 0 < n < 2 ^ 32 → apart mm (GetPool option_) →
  ∃ rc mm' g slab', AllocateAndOpen mm [] slab n option_ = Some (rc, mm', g, slab')
    ∧ (rc = ResultSuccess ∧ opened_group mm mm' (GetPool option_) n g slab slab'
       ∨ failure rc mm (GetPool option_) n slab ∧ g = [] ∧ slab' = slab ∧ restored mm mm').
Proof.
  intros H Hpool Hn Ha. unfold AllocateAndOpen. rewrite check_bind_Some by done.
  rewrite (proj2 (Z.eqb_neq n 0)) by lia. unfold DecodeOption. set (pool := GetPool option_) in *.
  unfold lock_pool. rewrite check_bind_Some by (apply Z.ltb_lt; lia).
  destruct (pool_flags mm pool H Hpool) as (has & _ & -> & _). cbn [mbind option_bind].
  destruct (AllocatePageGroupImpl_spec mm slab n pool (GetDirection option_) has true)
    as (rc & mm1 & g & slab' & -> & O); [done..|]. cbn [mbind option_bind].
  destruct O as [(-> & A)|(Hfail & -> & -> & R)].
  - change (Result.IsError ResultSuccess) with false. cbn match. pose proof (ag_took _ _ _ _ _ _ _ _ A) as T.
    destruct (each_block_spec (λ c, c = 0) (λ _, False) (λ _, 1) (λ m, m) (λ _ b, b) (λ _ _ _, True)
                OpenFirst_block) with (mm := mm1) (g := g) as (mm2 & -> & C); try done.
    { intros mm' p k Hmm' Hk Hr _. apply OpenFirst_block_pages; [done|lia|done]. }
    { apply T. } { apply A. } { apply A. } { by eapply took_ready. }
    cbn [mbind option_bind]. eexists _, _, _, _. split; [done|]. left. split; [done|].
    split; try apply A; [apply C|by rewrite (ch_skel _ _ _ _ _ _ _ C); apply T| | | |].
    + intros q Hq. split; [by apply (tk_was _ _ _ _ T)|by apply A].
    + intros q. rewrite (ch_free _ _ _ _ _ _ _ C), (tk_free _ _ _ _ T). tauto.
    + intros q. rewrite (ch_count _ _ _ _ _ _ _ C), (tk_count _ _ _ _ T). done.
    + intros a. rewrite (ch_mem _ _ _ _ _ _ _ C), (tk_mem _ _ _ _ T). by case_decide.
  - rewrite (failure_error _ _ _ _ _ Hfail). eexists _, _, _, _. split; [done|]. by right.
Qed.

(** * The operations of a group *)
Lemma group_OpenFirst_pages mm g : mm_ok mm → group_ok g → NoDup (group_pages g) →
  ready (λ c, c = 0) mm (group_pages g) →
  ∃ mm', group_OpenFirst mm g = Some mm'
    ∧ changed (λ _, False) (λ _, 1) (λ m, m) (λ _ b, b) mm mm' (group_pages g).
Proof.
  intros. apply (each_block_spec (λ c, c = 0) _ _ _ _ (λ _ _ _, True)); try done.
  intros mm1 p k ? ? Hr _. apply OpenFirst_pages; [done|lia|done].
Qed.

Lemma group_Open_pages mm g : mm_ok mm → group_ok g → NoDup (group_pages g) →
  ready (λ c, 0 < c < 65535) mm (group_pages g) →
  ∃ mm', group_Open mm g = Some mm'
    ∧ changed (λ _, False) (λ c, c + 1) (λ m, m) (λ _ b, b) mm mm' (group_pages g).
Proof.
  intros. apply (each_block_spec (λ c, 0 < c < 65535) _ _ _ _ (λ _ _ _, True)); try done.
  intros mm1 p k ? ? Hr _. apply Open_pages; [done|lia|done].
Qed.

Lemma group_Close_pages mm g : mm_ok mm → group_ok g → NoDup (group_pages g) →
  ready (λ c, 0 < c) mm (group_pages g) →
  ∃ mm', group_Close mm g = Some mm'
    ∧ changed (λ c, c = 1) (λ c, c - 1) (λ m, m) (λ _ b, b) mm mm' (group_pages g).
Proof.
  intros. apply (each_block_spec (λ c, 0 < c) _ _ _ _ (λ _ _ _, True)); try done.
  intros mm1 p k ? ? Hr _. apply Close_pages; [done|lia|done].
Qed.

Lemma CloseAndReset_group mm g slab :
  CloseAndReset mm g slab = (mm' ← group_Close mm g; Some (mm', [], (length g + slab)%nat)).
Proof.
  revert mm slab. induction g as [|b g IH]; intros mm slab; [done|].
  unfold group_Close in *. cbn [CloseAndReset each_block].
  destruct (Close mm _ _) as [mm1|]; cbn [mbind option_bind]; [|done]. rewrite IH.
  destruct (each_block _ mm1 g); cbn [mbind option_bind]; [|done]. simpl. by rewrite Nat.add_succ_r.
Qed.

Lemma count_owned mm q : page_count mm q ≠ 0 → is_Some (owner mm q).
Proof. unfold page_count. by destruct (owner mm q). Qed.

Lemma counted_ready mm l (cp : Z → Prop) : mm_ok mm → (∀ c, cp c → 0 < c) →
  (∀ q, q ∈ l → cp (page_count mm q)) → ready cp mm l.
Proof.
  intros H Hcp Hl q Hq. pose proof (Hcp _ (Hl q Hq)). split_and!; [|intros Hf|by apply Hl].
  - apply count_owned. lia.
  - rewrite free_count_0 in * by done. lia.
Qed.

(** * Allocation for a process *)
Lemma with_memory_ok mm mem : mm_ok mm → mm_ok (with_memory mem mm).
Proof.
  intros H. split; try apply H. intros pool dir Hp.
  destruct (mo_walk _ H pool dir Hp) as (first & l & Hf & Hw & Hl & Hin).
  exists first, l. split_and!; [done|by apply (skel_walks mm)|done|done].
Qed.

Lemma memory_changed mm mem l (Mem : bool → Z → Z) : mm_ok mm →
  (∀ a, mem a = if decide (page_of a ∈ l) then Mem (page_mark mm (page_of a)) (m_memory mm a)
                else m_memory mm a) →
  changed (λ _, False) (λ c, c) (λ m, m) Mem mm (with_memory mem mm) l.
Proof.
  intros H Hmem. split; [by apply with_memory_ok|done| | | |done].
  - intros q. change (page_free (with_memory mem mm) q) with (page_free mm q). tauto.
  - intros q. change (page_count (with_memory mem mm) q) with (page_count mm q). by case_decide.
  - intros q. change (page_mark (with_memory mem mm) q) with (page_mark mm q). by case_decide.
Qed.

Lemma Clear_block_pages mm p n v : mm_ok mm → 0 < n → p + n < 2 ^ 32 → 0 < p →
  ∃ mm', Clear_block v mm (p * PageSize) n = Some mm'
    ∧ changed (λ _, False) (λ c, c) (λ m, m) (λ _ _, u8 v) mm mm' (seqZ p n).
Proof.
  intros H Hn Hle Hp. eexists. split; [done|]. apply memory_changed; [done|]. intros a.
  rewrite wrap_small by (unfold in_width, PageSize; lia). rewrite fill_pages by lia.
  apply decide_ext. by rewrite elem_of_seqZ.
Qed.

(** Marked pages keep their contents, the others are filled; then all are marked. *)
Definition process_mem (v : Z) (m : bool) (b : Z) : Z := if m then b else u8 v.

Lemma Track_block_pages mm p n : mm_ok mm → 0 ≤ n → ready (λ c, c = 0) mm (seqZ p n) →
  ∃ mm', Track_block mm (p * PageSize) n = Some mm'
    ∧ changed (λ _, False) (λ c, c) (λ _, true) (λ _ b, b) mm mm' (seqZ p n).
Proof.
  intros H Hn. apply (each_manager_spec (λ c, c = 0)); [|done|lia]. intros mm1 i im q k P Hr.
  destruct (TrackOptimizedAllocation_spec im q k) as (im' & E & R);
    [eapply mo_impl; apply P|apply P|apply P|apply P|].
  eexists. split; [|eapply remarked_changed; [exact P|exact R]].
  eapply (locked_part TrackOptimizedAllocation); [apply P|apply P|done].
Qed.

Lemma changed_marks v mm mm1 mm2 l :
  changed (λ _, False) (λ c, c) (λ m, m) (process_mem v) mm mm1 l →
  changed (λ _, False) (λ c, c) (λ _, true) (λ _ b, b) mm1 mm2 l →
  changed (λ _, False) (λ c, c) (λ _, true) (process_mem v) mm mm2 l.
Proof.
  intros C1 C2. split.
  - apply C2.
  - rewrite (ch_skel _ _ _ _ _ _ _ C2). apply C1.
  - intros q. rewrite (ch_free _ _ _ _ _ _ _ C2), (ch_free _ _ _ _ _ _ _ C1). tauto.
  - intros q. rewrite (ch_count _ _ _ _ _ _ _ C2), (ch_count _ _ _ _ _ _ _ C1). by case_decide.
  - intros q. rewrite (ch_mark _ _ _ _ _ _ _ C2), (ch_mark _ _ _ _ _ _ _ C1). by case_decide.
  - intros a. rewrite (ch_mem _ _ _ _ _ _ _ C2), (ch_mem _ _ _ _ _ _ _ C1). by case_decide.
Qed.

Lemma Process_block_pages v mm p n : mm_ok mm → 0 < n → ready (λ c, c = 0) mm (seqZ p n) →
  in_one_manager mm p n →
  ∃ mm', Process_block v mm (p * PageSize) n = Some mm'
    ∧ changed (λ _, False) (λ c, c) (λ _, true) (process_mem v) mm mm' (seqZ p n).
Proof.
  intros H Hn Hr (im & Ho & Hle). destruct (owner_Some _ _ _ Ho) as (i & Hi & Hp & Hg).
  unfold Process_block. rewrite (proj2 (Z.eqb_neq n 0)) by lia.
  destruct (Z.to_nat n) as [|fuel] eqn:Ef; [lia|]. cbn [Process_loop].
  rewrite (proj2 (Z.eqb_neq n 0)) by lia. rewrite Hg. cbn [mbind option_bind].
  rewrite (proj1 Hi). cbn [mbind option_bind]. pose proof (mo_impl _ H _ _ Hi) as Hok.
  rewrite page_offset_to_end, Z.min_l by (done || lia).
  destruct (ProcessOptimizedAllocation_spec im (m_memory mm) p n v Hok Hn Hp Hle) as (any & mem & -> & Hany & Hmem).
  cbn [mbind option_bind]. rewrite Z.sub_diag.
  assert (∀ b mm' a, Process_loop fuel v mm' b a 0 = Some (b, mm')) as E0 by by destruct fuel.
  rewrite E0. cbn [mbind option_bind].
  assert (∀ q, p ≤ q < p + n → page_mark mm q = marked im q) as Hmk.
  { intros q Hq. unfold page_mark. by rewrite (owner_managed mm i im) by (done || (unfold im_page in *; lia)). }
  assert (changed (λ _, False) (λ c, c) (λ m, m) (process_mem v) mm (with_memory mem mm) (seqZ p n)) as C1.
  { apply memory_changed; [done|]. intros a. rewrite Hmem. destruct (decide (page_of a ∈ seqZ p n)) as [Hin|Hout].
    - apply elem_of_seqZ in Hin. rewrite Hmk by done. unfold process_mem.
      destruct (marked im (page_of a)); [by rewrite decide_False by (by intros [_ ?])|by rewrite decide_True].
    - rewrite decide_False; [done|]. intros [? _]. by apply Hout, elem_of_seqZ. }
  destruct any eqn:Eany.
  - destruct (Track_block_pages (with_memory mem mm) p n) as (mm2 & -> & C2);
      [by apply with_memory_ok|lia|exact Hr|]. exists mm2. split; [done|]. by eapply changed_marks.
  - eexists. split; [done|]. eapply changed_marks; [done|].
    assert (∀ q, q ∈ seqZ p n → page_mark (with_memory mem mm) q = true) as Hall.
    { intros q Hq%elem_of_seqZ. change (page_mark (with_memory mem mm) q) with (page_mark mm q).
      rewrite Hmk by done. destruct (marked im q) eqn:Em; [done|].
      assert (false = true) by (apply Hany; by exists q). done. }
    split; [by apply with_memory_ok|done| | | |].
    + intros q. tauto.
    + intros q. by case_decide.
    + intros q. case_decide; [by rewrite Hall|done].
    + intros a. by case_decide.
Qed.

(** What [AllocateForProcess] does to the pages: nothing is opened; [opt] tells whether the
    process is the optimized one, [has] whether the pool has one. *)
Record process_group (has opt : bool) (v : Z) mm mm' (pool n : Z) (g : KPageGroup.group)
    (slab slab' : nat) : Prop := {
  pg_ok : mm_ok mm';
  pg_skel : skel mm' = skel mm;
  pg_group : group_ok g;
  pg_nodup : NoDup (group_pages g);
  pg_length : Z.of_nat (length (group_pages g)) = n;
  pg_was q : q ∈ group_pages g → page_free mm q ∧ page_pool mm q = Some pool;
  pg_free q : page_free mm' q ↔ page_free mm q ∧ q ∉ group_pages g;
  pg_count q : page_count mm' q = page_count mm q;
  pg_mem a : m_memory mm' a =
    if decide (page_of a ∈ group_pages g)
    then if has && opt && page_mark mm (page_of a) then m_memory mm a else u8 v
    else m_memory mm a;
  pg_mark q : page_mark mm' q =
    if decide (q ∈ group_pages g)
    then if has then opt else page_mark mm q
    else page_mark mm q;
  pg_slab : (length g + slab')%nat = slab
}.

Lemma AllocateForProcess_pages mm slab n option_ process_id v has id :
  mm_ok mm → 0 ≤ GetPool option_ < Pool.Count → 0 < n < 2 ^ 32 → apart mm (GetPool option_) →
  at_ (m_has_optimized_process mm) (GetPool option_) = Some has →
  at_ (m_optimized_process_ids mm) (GetPool option_) = Some id →
  ∃ rc mm' g slab', AllocateForProcess mm [] slab n option_ process_id v = Some (rc, mm', g, slab')
    ∧ (rc = ResultSuccess
         ∧ process_group has (id =? process_id) v mm mm' (GetPool option_) n g slab slab'
       ∨ failure rc mm (GetPool option_) n slab ∧ g = [] ∧ slab' = slab ∧ restored mm mm').
Proof.
  intros H Hpool Hn Ha Hhas Hid. unfold AllocateForProcess. rewrite check_bind_Some by done.
  unfold DecodeOption. set (pool := GetPool option_) in *. set (opt := id =? process_id).
  unfold lock_pool. rewrite check_bind_Some by (apply Z.ltb_lt; lia).
  rewrite Hhas, Hid. cbn [mbind option_bind]. fold opt.
  destruct (AllocatePageGroupImpl_spec mm slab n pool (GetDirection option_) (has && negb opt) false)
    as (rc & mm1 & g & slab' & -> & O); [done..|]. cbn [mbind option_bind].
  destruct O as [(-> & A)|(Hfail & -> & -> & R)].
  2: { rewrite (failure_error _ _ _ _ _ Hfail). eexists _, _, _, _. split; [done|]. by right. }
  change (Result.IsError ResultSuccess) with false. cbn match. pose proof (ag_took _ _ _ _ _ _ _ _ A) as T.
  assert (∃ mm2, each_block (if has && opt then Process_block v else Clear_block v) mm1 g = Some mm2
    ∧ changed (λ _, False) (λ c, c) (λ m, if has && opt then true else m)
        (λ m b, if has && opt then process_mem v m b else u8 v) mm1 mm2 (group_pages g)) as (mm2 & -> & C).
  { apply (each_block_spec (λ c, c = 0) _ _ _ _
             (λ mm p k, in_one_manager mm p k ∧ 0 < p ∧ p + k < 2 ^ 32)).
    - intros mm' p k H' Hk Hr (Hin & Hp & Hpk). destruct (has && opt).
      + by apply Process_block_pages.
      + by apply Clear_block_pages.
    - intros ? ? ? ? ? [? ?]. split; [by eapply skel_in_one|done].
    - apply T.
    - apply A.
    - apply A.
    - by eapply took_ready.
    - intros b Hb. assert (block_ok b) as (? & ? & ?) by (by eapply Forall_forall; [apply (ag_ok _ _ _ _ _ _ _ _ A)|]).
      split; [|done]. eapply skel_in_one; [apply T|]. eapply apart_in_one; [done..|].
      intros q Hq. apply (ag_pool _ _ _ _ _ _ _ _ A). eapply group_block_page; [done|]. by apply elem_of_seqZ. }
  cbn [mbind option_bind]. eexists _, _, _, _. split; [done|]. left. split; [done|].
  split; try apply A; [apply C|by rewrite (ch_skel _ _ _ _ _ _ _ C); apply T| | | | |].
  - intros q Hq. split; [by apply (tk_was _ _ _ _ T)|by apply A].
  - intros q. rewrite (ch_free _ _ _ _ _ _ _ C), (tk_free _ _ _ _ T). tauto.
  - intros q. rewrite (ch_count _ _ _ _ _ _ _ C), (tk_count _ _ _ _ T). by case_decide.
  - intros a. rewrite (ch_mem _ _ _ _ _ _ _ C), (tk_mem _ _ _ _ T), (tk_mark _ _ _ _ T).
    case_decide; [|done]. destruct has, opt; simpl; try done.
  - intros q. rewrite (ch_mark _ _ _ _ _ _ _ C), (tk_mark _ _ _ _ T).
    destruct (decide (q ∈ group_pages g)); destruct has, opt; simpl; try done;
      repeat case_decide; try done; tauto.
Qed.
End operations.
