(* ===== verification/PhysicalMemory.v ===== *)
(** Properties of the physical memory manager: allocation of page groups, their references, and
    the memory of a process; with an example memory on which they are used. *)
From S2P Require Import Prelude Common PageBitmap MemoryRegion Results PageGroup PageHeap PageHeapAlloc MemoryManager ManagerImpl ManagerPages MemoryManagerSpec.

Section properties.
Context {B : Type} `{FB : FreeBitmap B}.
Implicit Types mm : KMemoryManager (B := B).

(** C2: [AllocateAndOpen] of [n] pages from a pool without adjacent managers. It succeeds
    exactly when the pool has [n] free pages and the block-info manager does not run out:
    fragmentation never makes it fail. The group then holds [n] distinct pages of the pool that
    were free; each has one reference and is free no longer, and no other page becomes free, is taken
    or changes its count. When it fails the group is empty, every block info is given back, and the
    free pages and the counts are what they were. *)
Theorem AllocateAndOpen_correct mm slab n option_ :
  mm_ok mm → 0 ≤ GetPool option_ < Pool.Count → 0 < n < 2 ^ 32 → apart mm (GetPool option_) →
  ∃ rc mm' g slab', AllocateAndOpen mm [] slab n option_ = Some (rc, mm', g, slab')
    ∧ mm_ok mm' ∧ skel mm' = skel mm
    ∧ (rc = ResultSuccess
         ∧ NoDup (group_pages g) ∧ Z.of_nat (length (group_pages g)) = n
         ∧ (∀ q, q ∈ group_pages g → page_free mm q ∧ page_pool mm q = Some (GetPool option_))
         ∧ (∀ q, page_free mm' q ↔ page_free mm q ∧ q ∉ group_pages g)
         ∧ (∀ q, page_count mm' q = if decide (q ∈ group_pages g) then 1 else page_count mm q)
         ∧ (length g + slab')%nat = slab
       ∨ (rc = ResultOutOfMemory ∧ (∀ l, NoDup l →
             (∀ q, q ∈ l → page_free mm q ∧ page_pool mm q = Some (GetPool option_)) →
             Z.of_nat (length l) < n)
          ∨ rc = ResultOutOfResource ∧ Z.of_nat slab < n)
         ∧ g = [] ∧ slab' = slab
         ∧ (∀ q, page_free mm' q ↔ page_free mm q) ∧ (∀ q, page_count mm' q = page_count mm q)).
Proof.
  intros H Hpool Hn Ha.
  destruct (AllocateAndOpen_pages mm slab n option_ H Hpool Hn Ha) as (rc & mm' & g & slab' & E & O).
  exists rc, mm', g, slab'. split; [done|]. destruct O as [(-> & G)|(Hfail & -> & -> & R)].
  - split_and!; [apply G|apply G|]. left. split_and!; try done; apply G.
  - split_and!; [apply R|apply R|]. right. split_and!; try done; apply R.
Qed.

(** C3: the life of a page group. Its pages are allocated with one reference; [Open] adds one to
    each, [Close] takes it back and frees nothing, and the [Close] of the last reference (here by
    [CloseAndReset]) frees exactly these pages: the free pages, the counts and the block infos
    are then what they were before the allocation. *)
Theorem group_lifecycle mm slab n option_ mm1 g slab1 :
  mm_ok mm → 0 ≤ GetPool option_ < Pool.Count → 0 < n < 2 ^ 32 → apart mm (GetPool option_) →
  AllocateAndOpen mm [] slab n option_ = Some (ResultSuccess, mm1, g, slab1) →
  ∃ mm2 mm3 mm4,
    group_Open mm1 g = Some mm2
    ∧ (∀ q, q ∈ group_pages g → page_count mm2 q = 2 ∧ ¬ page_free mm2 q)
    ∧ group_Close mm2 g = Some mm3
    ∧ (∀ q, q ∈ group_pages g → page_count mm3 q = 1 ∧ ¬ page_free mm3 q)
    ∧ CloseAndReset mm3 g slab1 = Some (mm4, [], slab)
    ∧ mm_ok mm4 ∧ (∀ q, page_free mm4 q ↔ page_free mm q) ∧ (∀ q, page_count mm4 q = page_count mm q).
Proof.
  intros H Hpool Hn Ha E.
  destruct (AllocateAndOpen_pages mm slab n option_ H Hpool Hn Ha) as (rc & mm1' & g' & slab' & E' & O).
  rewrite E in E'. injection E' as <- <- <- <-.
  destruct O as [(_ & G)|(Hfail & _)]; [|by apply failure_error in Hfail].
  assert (∀ q, q ∈ group_pages g → page_count mm1 q = 1 ∧ ¬ page_free mm1 q) as H1.
  { intros q Hq. rewrite (og_count _ _ _ _ _ _ _ G), decide_True, (og_free _ _ _ _ _ _ _ G) by done. tauto. }
  destruct (group_Open_pages mm1 g) as (mm2 & E2 & C2); [apply G|apply G|apply G| |].
  { apply counted_ready; [apply G|lia|]. intros q Hq. destruct (H1 q Hq). lia. }
  assert (∀ q, q ∈ group_pages g → page_count mm2 q = 2 ∧ ¬ page_free mm2 q) as H2.
  { intros q Hq. destruct (H1 q Hq) as [Hc Hf].
    rewrite (ch_count _ _ _ _ _ _ _ C2), decide_True, Hc, (ch_free _ _ _ _ _ _ _ C2) by done. tauto. }
  destruct (group_Close_pages mm2 g) as (mm3 & E3 & C3); [apply C2|apply G|apply G| |].
  { apply counted_ready; [apply C2|done|]. intros q Hq. destruct (H2 q Hq). lia. }
  assert (∀ q, q ∈ group_pages g → page_count mm3 q = 1 ∧ ¬ page_free mm3 q) as H3.
  { intros q Hq. destruct (H2 q Hq) as [Hc Hf].
    rewrite (ch_count _ _ _ _ _ _ _ C3), decide_True, (ch_free _ _ _ _ _ _ _ C3), Hc by done. intuition lia. }
  destruct (group_Close_pages mm3 g) as (mm4 & E4 & C4); [apply C3|apply G|apply G| |].
  { apply counted_ready; [apply C3|done|]. intros q Hq. destruct (H3 q Hq). lia. }
  exists mm2, mm3, mm4. rewrite CloseAndReset_group, E4. cbn [mbind option_bind].
  rewrite (og_slab _ _ _ _ _ _ _ G). split_and!; try done; [apply C4| |].
  - intros q. rewrite (ch_free _ _ _ _ _ _ _ C4), (ch_free _ _ _ _ _ _ _ C3), (ch_free _ _ _ _ _ _ _ C2),
      (og_free _ _ _ _ _ _ _ G). pose proof (og_was _ _ _ _ _ _ _ G q). pose proof (H2 q). pose proof (H3 q).
    destruct (decide (q ∈ group_pages g)) as [Hq|]; [|tauto]. split.
    + intros _. tauto.
    + intros _. right. split; [done|]. apply H3, Hq.
  - intros q. rewrite (ch_count _ _ _ _ _ _ _ C4), (ch_count _ _ _ _ _ _ _ C3), (ch_count _ _ _ _ _ _ _ C2),
      (og_count _ _ _ _ _ _ _ G). case_decide as Hq; [|done].
    rewrite (free_count_0 mm q H); [done|]. by apply (og_was _ _ _ _ _ _ _ G).
Qed.

(** C4: [AllocateForProcess] of [n] pages. On success the group holds [n] distinct pages of the
    pool that were free, with no reference yet; every byte of them is the fill pattern, except
    that the optimized process of the pool keeps the contents of the pages marked as its own.
    Its pages are marked then, and those of another process are unmarked while the pool has an
    optimized one. A failure, for want of memory or of block infos, changes no page in use. *)
Theorem AllocateForProcess_correct mm slab n option_ process_id v has id :
  mm_ok mm → 0 ≤ GetPool option_ < Pool.Count → 0 < n < 2 ^ 32 → apart mm (GetPool option_) →
  at_ (m_has_optimized_process mm) (GetPool option_) = Some has →
  at_ (m_optimized_process_ids mm) (GetPool option_) = Some id →
  ∃ rc mm' g slab', AllocateForProcess mm [] slab n option_ process_id v = Some (rc, mm', g, slab')
    ∧ mm_ok mm'
    ∧ (rc = ResultSuccess
         ∧ NoDup (group_pages g) ∧ Z.of_nat (length (group_pages g)) = n
         ∧ (∀ q, q ∈ group_pages g → page_free mm q ∧ page_pool mm q = Some (GetPool option_))
         ∧ (∀ q, page_free mm' q ↔ page_free mm q ∧ q ∉ group_pages g)
         ∧ (∀ q, page_count mm' q = page_count mm q)
         ∧ (∀ a, m_memory mm' a =
              if decide (page_of a ∈ group_pages g)
              then if has && (id =? process_id) && page_mark mm (page_of a) then m_memory mm a else u8 v
              else m_memory mm a)
         ∧ (∀ q, page_mark mm' q =
              if decide (q ∈ group_pages g)
              then if has then id =? process_id else page_mark mm q
              else page_mark mm q)
       ∨ failure rc mm (GetPool option_) n slab ∧ g = [] ∧ slab' = slab
         ∧ (∀ q, page_free mm' q ↔ page_free mm q) ∧ (∀ q, page_count mm' q = page_count mm q)
         ∧ (∀ q, ¬ page_free mm q → page_mark mm' q = page_mark mm q)
         ∧ (∀ a, m_memory mm' a = m_memory mm a)).
Proof.
  intros H Hpool Hn Ha Hhas Hid.
  destruct (AllocateForProcess_pages mm slab n option_ process_id v has id) as (rc & mm' & g & slab' & E & O);
    [done..|]. exists rc, mm', g, slab'. split; [done|].
  destruct O as [(-> & G)|(Hfail & -> & -> & R)].
  - split; [apply G|]. left. split_and!; try done; apply G.
  - split; [apply R|]. right. split_and!; try done; apply R.
Qed.
End properties.

(** * An example memory: 1 MiB of the application pool at 2 GiB *)
Definition example_region : KMemoryRegion :=
  MkRegion (2 ^ 31) (2 ^ 31 + 2 ^ 20 - 1) no_pair 0 (m_value KMemoryRegionType_DramApplicationPool).
Definition example_manager (h : KPageHeap (B := KPageBitmap)) : Impl :=
  MkImpl h (replicate 256 0) (replicate 4 0) 0 Pool.Application None None.
Definition example_mm (h : KPageHeap) : KMemoryManager :=
  MkManager [example_region] [Some 0%nat; None; None; None] [Some 0%nat; None; None; None]
    [example_manager h] 1 [0; 0; 0; 0] [true; false; false; false] (λ _, 0).

Lemma example_full_heap :
  ∃ h : KPageHeap (B := KPageBitmap), heap_ok h
    ∧ (∀ p, free_page h p ↔ 2 ^ 19 ≤ p < 2 ^ 19 + 256) ∧ free_pages h = 256
    ∧ in_region h (2 ^ 31) (2 ^ 20) ∧ m_heap_address h = 2 ^ 31 ∧ m_heap_size h = 2 ^ 20
    ∧ length (m_blocks h) = 7%nat
    ∧ ∀ i k, m_blocks h !! i = Some k → MemoryBlockPageShifts !! i = Some (m_block_shift k).
Proof.
  destruct (Initialize_heap_spec no_heap example_bitmaps 0 (2 ^ 31) (2 ^ 20) 0 (2 ^ 20) MemoryBlockPageShifts 4096)
    as (h & _ & Hh & Hnf & Hc & Hr & Ea & Es & Hlen & Hks); try example_side.
  destruct (Free_spec h (2 ^ 31) 256) as (h' & _ & F);
    [done|done|lia|exact Hr|by intros p _|].
  exists h'. pose proof (fr_frame _ _ _ _ F) as Fr. pose proof Fr as (_ & E1 & E2 & _). split_and!.
  - apply F.
  - intros p. rewrite (fr_pages _ _ _ _ F). unfold page_in, PageSize. specialize (Hnf p).
    split; [intros [|]; [done|lia]|]. right. lia.
  - rewrite (fr_count _ _ _ _ F), Hc. done.
  - by eapply in_region_frame.
  - congruence.
  - congruence.
  - by rewrite (same_frame_length _ _ Fr), Hlen.
  - by eapply same_frame_levels.
Qed.

Lemma example_manager_ok h :
  heap_ok h → (∀ p, free_page h p ↔ 2 ^ 19 ≤ p < 2 ^ 19 + 256) → free_pages h = 256 →
  in_region h (2 ^ 31) (2 ^ 20) → m_heap_address h = 2 ^ 31 → m_heap_size h = 2 ^ 20 →
  length (m_blocks h) = 7%nat →
  (∀ i k, m_blocks h !! i = Some k → MemoryBlockPageShifts !! i = Some (m_block_shift k)) →
  impl_ok (example_manager h).
Proof.
  intros Hh Hf Hc Hr Ea Es Hl Hk.
  assert (base_page (example_manager h) = 2 ^ 19) as Eb by (unfold base_page; simpl; by rewrite Ea).
  assert (im_pages (example_manager h) = 256) as Ep by (unfold im_pages; simpl; by rewrite Es).
  assert (∀ n j, word_at (replicate n 0) j = 0) as Hz.
  { intros n j. unfold word_at. destruct (_ !! _) as [w|] eqn:E; [|done]. by apply lookup_replicate in E as [-> _]. }
  split; rewrite ?Ep; simpl; rewrite ?Ea, ?Es; try done.
  - intros p Hp%Hf. split; [unfold im_page; rewrite Eb, Ep; lia|apply Hz].
  - exists (range_set (2 ^ 19) 256). split.
    + intros p. rewrite elem_of_range_set. symmetry. apply Hf.
    + rewrite size_range_set, Hc by lia. done.
  - repeat constructor; unfold in_width; lia.
  - split; [lia|]. repeat constructor; unfold in_width; lia.
Qed.

Lemma example_memory : ∃ mm : KMemoryManager (B := KPageBitmap),
  mm_ok mm ∧ (∀ pool, apart mm pool) ∧ (∀ q, 2 ^ 19 ≤ q < 2 ^ 19 + 256 →
    page_free mm q ∧ page_pool mm q = Some Pool.Application)
  ∧ at_ (m_has_optimized_process mm) 0 = Some true ∧ at_ (m_optimized_process_ids mm) 0 = Some 0.
Proof.
  destruct example_full_heap as (h & Hh & Hf & Hc & Hr & Ea & Es & Hl & Hk).
  pose proof (example_manager_ok h Hh Hf Hc Hr Ea Es Hl Hk) as Hok. set (im := example_manager h) in *.
  assert (base_page im = 2 ^ 19) as Eb by (unfold base_page; simpl; by rewrite Ea).
  assert (im_pages im = 256) as Ep by (unfold im_pages; simpl; by rewrite Es).
  assert (∀ i jm, managed (example_mm h) i jm → i = 0%nat ∧ jm = im) as Hm.
  { intros i jm [Hi Hn]. simpl in *. destruct i; [injection Hi as <-; done|lia]. }
  assert (managed (example_mm h) 0 im) as Hm0 by by split.
  assert (mm_ok (example_mm h)) as Hmm.
  { split.
    - by intros i jm (-> & ->)%Hm.
    - done.
    - intros i jm p (-> & ->)%Hm Hp. unfold im_page in Hp. rewrite Eb, Ep in Hp. unfold GetManager.
      simpl m_linear_tree. rewrite Find_cons. rewrite (proj2 (hit_true _ _)); [done|]. simpl. unfold PageSize. lia.
    - intros pool dir Hp.
      assert (pool = 0 ∨ pool = 1 ∨ pool = 2 ∨ pool = 3) as Hp4 by (unfold Pool.Count in Hp; lia).
      exists (if pool =? 0 then Some 0%nat else None), (if pool =? 0 then [0%nat] else []).
      unfold GetFirstManager. split_and!.
      + destruct (dir =? _), Hp4 as [E|[E|[E|E]]]; subst pool; done.
      + case Z.eqb_spec; intros; [|done]. split; [done|]. exists None. split; [|done].
        unfold GetNextManager. simpl. by destruct (dir =? _).
      + unfold MaxManagerCount. case Z.eqb_spec; intros; simpl; lia.
      + intros i. split.
        * case Z.eqb_spec; intros E; [|by intros ?%elem_of_nil].
          intros ->%list_elem_of_singleton. exists im. split; [done|]. by rewrite E.
        * intros (jm & (-> & ->)%Hm & <-). simpl. by apply list_elem_of_singleton.
    - done. }
  exists (example_mm h). split_and!; [done| | |done|done].
  - intros pool i j im1 jm (-> & ->)%Hm (-> & ->)%Hm _ _. rewrite Eb, Ep. lia.
  - intros q Hq. assert (owner (example_mm h) q = Some im) as Ho.
    { eapply owner_managed; [done..|]. unfold im_page. rewrite Eb, Ep. lia. }
    unfold page_free, page_pool. rewrite Ho. split; [by apply Hf|done].
Qed.

Lemma AllocateAndOpen_correct_witness :
  ∃ (mm mm' : KMemoryManager (B := KPageBitmap)) rc g slab',
    mm_ok mm ∧ AllocateAndOpen mm [] 100 37 0 = Some (rc, mm', g, slab') ∧ mm_ok mm'.
Proof.
  destruct example_memory as (mm & H & Ha & _).
  destruct (AllocateAndOpen_correct mm 100 37 0 H) as (rc & mm' & g & slab' & E & H' & _);
    [split; [done|reflexivity]|lia|apply Ha|].
  exists mm, mm', rc, g, slab'. split; [exact H|split; [exact E|exact H']].
Defined.

Lemma example_allocation : ∃ (mm mm' : KMemoryManager (B := KPageBitmap)) g slab',
  mm_ok mm ∧ apart mm 0 ∧ AllocateAndOpen mm [] 100 37 0 = Some (ResultSuccess, mm', g, slab').
Proof.
  destruct example_memory as (mm & H & Ha & Hf & _).
  destruct (AllocateAndOpen_pages mm 100 37 0 H) as (rc & mm' & g & slab' & E & O);
    [split; [done|reflexivity]|lia|apply Ha|].
  destruct O as [(-> & _)|([[_ Hno]|[_ Hno]] & _)]; [|exfalso|lia].
  - exists mm, mm', g, slab'. split_and!; [done|apply Ha|done].
  - specialize (Hno (seqZ (2 ^ 19) 256) (NoDup_seqZ _ _)). rewrite length_seqZ in Hno.
    enough (256 < 37) by lia. apply Hno. intros q Hq%elem_of_seqZ. by apply Hf.
Qed.

Lemma group_lifecycle_witness :
  ∃ (mm mm1 mm4 : KMemoryManager (B := KPageBitmap)) g slab1 mm3,
    AllocateAndOpen mm [] 100 37 0 = Some (ResultSuccess, mm1, g, slab1)
    ∧ CloseAndReset mm3 g slab1 = Some (mm4, [], 100%nat)
    ∧ ∀ q, page_free mm4 q ↔ page_free mm q.
Proof.
  destruct example_allocation as (mm & mm1 & g & slab1 & H & Ha & E).
  destruct (group_lifecycle mm 100 37 0 mm1 g slab1 H) as (mm2 & mm3 & mm4 & _ & _ & _ & _ & E4 & _ & Hf & _);
    [split; [done|reflexivity]|lia|exact Ha|exact E|].
  exists mm, mm1, mm4, g, slab1, mm3. split; [exact E|split; [exact E4|exact Hf]].
Defined.

Lemma AllocateForProcess_correct_witness :
  ∃ (mm mm' : KMemoryManager (B := KPageBitmap)) rc g slab',
    AllocateForProcess mm [] 100 37 0 7 0xCC = Some (rc, mm', g, slab') ∧ mm_ok mm'.
Proof.
  destruct example_memory as (mm & H & Ha & _ & Hhas & Hid).
  destruct (AllocateForProcess_correct mm 100 37 0 7 0xCC true 0 H) as (rc & mm' & g & slab' & E & H' & _);
    [split; [done|reflexivity]|lia|apply Ha|exact Hhas|exact Hid|].
  exists mm, mm', rc, g, slab'. split; [exact E|exact H'].
Defined.

(** * A failed allocation over two adjacent managers

    The application pool is split in two regions, one after the other, as
    [SetupPoolPartitionMemoryRegions] (src/src/core/hle/kernel/board/nintendo/nx/k_memory_layout.cpp)
    does when the middle of the memory lies in it: 1 MiB each. *)
Definition split_regions : region_tree :=
  [MkRegion 0x90000000 0x900FFFFF no_pair 0 (m_value KMemoryRegionType_DramApplicationPool);
   MkRegion 0x90100000 0x901FFFFF no_pair 1 (m_value KMemoryRegionType_DramApplicationPool)].
Definition blank_manager : Impl (B := KPageBitmap) := MkImpl no_heap [] [] 0 0 None None.
Definition blank_memory : KMemoryManager (B := KPageBitmap) :=
  MkManager split_regions (replicate 10 None) (replicate 10 None) (replicate 10 blank_manager) 0
    (replicate 4 0) (replicate 4 false) (λ _, 0).

(** The free bytes of the pool before and after an allocation of 600 pages, of 512. *)
Definition failed_allocation : option (Z * Z * KPageGroup.group * nat * Z) :=
  mm ← Initialize blank_memory split_regions (λ _, example_bitmaps) (λ _, 0) 0x80000000 0x70000000 0x1000000;
  before ← GetFreeSize mm Pool.Application;
  '(rc, mm, g, slab) ← AllocateForProcess mm [] 100 600 (EncodeOption Pool.Application Direction.FromFront) 7 0;
  after ← GetFreeSize mm Pool.Application;
  Some (before, rc, g, slab, after).

(** Without the hypothesis of the allocation theorems that no two managers of the pool are
    adjacent, a failure loses memory. The pool is 2 MiB in two managers of 1 MiB; the allocation
    of 600 pages takes all 512, which merge into one block; when it fails, that block is freed
    only up to the end of the first manager, and 1 MiB is never given back. *)
Example failed_allocation_leaks :
  failed_allocation = Some (2 ^ 21, ResultOutOfMemory, [], 100%nat, 2 ^ 20).
Proof. vm_compute. reflexivity. Qed.
