(* ===== verification/PriorityQueue.v ===== *)
(** The scheduler's priority queue: src/src/core/hle/kernel/k_priority_queue.h with the bit
    set of src/src/common/bit_set.h, the affinity mask of k_affinity_mask.h and the queue
    entries of k_thread.h, at the instance of global_scheduler_context.h (four cores, priorities
    0 to 63). The doubly linked lists are kept as the code has them: links in the members, and
    roots in the queues. *)
From S2P Require Import Prelude.

(** * BitSet64 (bit_set.h): flag [i] is bit [63 - i mod 64] of word [i / 64] *)
Module BitSet.
Definition FlagsPerWord : Z := 64.

Definition GetBitMask (bit : Z) : Z := Z.shiftl 1 (FlagsPerWord - 1 - bit).

Definition SetBit (i : Z) (words : list Z) : option (list Z) :=
  word ← at_ words (i / FlagsPerWord);
  set_at words (i / FlagsPerWord) (Z.lor word (GetBitMask (i mod FlagsPerWord))).

Definition ClearBit (i : Z) (words : list Z) : option (list Z) :=
  word ← at_ words (i / FlagsPerWord);
  set_at words (i / FlagsPerWord) (Z.land word (lnotw 64 (GetBitMask (i mod FlagsPerWord)))).

Definition CountLeadingZeroImpl (word : Z) : Z := countl_zero 64 word - (64 - FlagsPerWord).

(** The loop from word [i] on. *)
Fixpoint CountLeadingZero_loop (i : Z) (words : list Z) : Z :=
  match words with
  | [] => FlagsPerWord * i
  | word :: words =>
      if negb (word =? 0) then FlagsPerWord * i + CountLeadingZeroImpl word
      else CountLeadingZero_loop (i + 1) words
  end.
Definition CountLeadingZero (words : list Z) : Z := CountLeadingZero_loop 0 words.

Fixpoint GetNextSet_loop (n i total : Z) (words : list Z) : Z :=
  match words with
  | [] => FlagsPerWord * total
  | word :: words =>
      let word := if negb ((n + 1) mod FlagsPerWord =? 0)
                  then Z.land word (GetBitMask (n mod FlagsPerWord) - 1) else word in
      if negb (word =? 0) then FlagsPerWord * i + CountLeadingZeroImpl word
      else GetNextSet_loop n (i + 1) total words
  end.
Definition GetNextSet (n : Z) (words : list Z) : Z :=
  let i := (n + 1) / FlagsPerWord in
  GetNextSet_loop n i (Z.of_nat (length words)) (drop (Z.to_nat i) words).
End BitSet.

Definition NumCores : Z := 4.
Definition LowestPriority : Z := 63.
Definition HighestPriority : Z := 0.
Definition NumPriority : Z := LowestPriority - HighestPriority + 1.

(** * KAffinityMask *)
Module AffinityMask.
Definition AllowedAffinityMask : Z := Z.shiftl 1 NumCores - 1.

Definition GetCoreBit (core : Z) : option Z :=
  check ((0 <=? core) && (core <? NumCores));; Some (Z.shiftl 1 core).

Definition SetAffinityMask (new_mask : Z) : option Z :=
  check (Z.land new_mask (lnotw 64 AllowedAffinityMask) =? 0);; Some new_mask.

Definition GetAffinity (core mask : Z) : option bool :=
  bit ← GetCoreBit core; Some (negb (Z.land mask bit =? 0)).

Definition SetAffinity (core : Z) (set : bool) (mask : Z) : option Z :=
  bit ← GetCoreBit core;
  Some (if set then Z.lor mask bit else Z.land mask (lnotw 64 bit)).

Definition SetAll : Z := AllowedAffinityMask.
End AffinityMask.

(** * Members *)

(** A pointer to a member is a number, 0 for the null pointer. *)
Record QueueEntry := { m_prev : Z; m_next : Z }.
Definition QueueEntry_new : QueueEntry := {| m_prev := 0; m_next := 0 |}.

(** What the queue uses of a thread: its getters and its entry for each core. *)
Record Member := {
  GetAffinityMask : Z;
  GetActiveCore : Z;
  GetPriority : Z;
  IsDummyThread : bool;
  m_per_core_priority_queue_entry : list QueueEntry;
}.

(** * The queue *)
Inductive Kind := Scheduled | Suggested.
#[global] Instance Kind_eq_dec : EqDecision Kind.
Proof. solve_decision. Defined.

(** [m_queues]: for each priority a [KPerCoreQueue], which is its array of roots. *)
Record KPriorityQueueImpl := {
  m_queues : list (list QueueEntry);
  m_available_priorities : list (list Z);
}.

(** The two queues and the objects they point to. *)
Record State := {
  m_scheduled_queue : KPriorityQueueImpl;
  m_suggested_queue : KPriorityQueueImpl;
  members : gmap Z Member;
}.

Definition KPriorityQueueImpl_new : KPriorityQueueImpl :=
  {| m_queues := replicate (Z.to_nat NumPriority) (replicate (Z.to_nat NumCores) QueueEntry_new);
     m_available_priorities := replicate (Z.to_nat NumCores) [0] |}.

Definition KPriorityQueue_new (threads : gmap Z Member) : State :=
  {| m_scheduled_queue := KPriorityQueueImpl_new; m_suggested_queue := KPriorityQueueImpl_new;
     members := threads |}.

Definition impl (kind : Kind) (st : State) : KPriorityQueueImpl :=
  match kind with Scheduled => m_scheduled_queue st | Suggested => m_suggested_queue st end.
Definition with_impl (kind : Kind) (q : KPriorityQueueImpl) (st : State) : State :=
  match kind with
  | Scheduled => {| m_scheduled_queue := q; m_suggested_queue := m_suggested_queue st;
                    members := members st |}
  | Suggested => {| m_scheduled_queue := m_scheduled_queue st; m_suggested_queue := q;
                    members := members st |}
  end.

Definition with_entries (entries : list QueueEntry) (m : Member) : Member :=
  {| GetAffinityMask := GetAffinityMask m; GetActiveCore := GetActiveCore m;
     GetPriority := GetPriority m; IsDummyThread := IsDummyThread m;
     m_per_core_priority_queue_entry := entries |}.

(** A reference to an entry: the root of the queue of a kind and a priority, or a member's. *)
Inductive Ref := Root (kind : Kind) (priority : Z) | Entry (member : Z).
#[global] Instance Ref_eq_dec : EqDecision Ref.
Proof. solve_decision. Defined.

Definition get_entry (core : Z) (r : Ref) (st : State) : option QueueEntry :=
  match r with
  | Root kind priority => root ← at_ (m_queues (impl kind st)) priority; at_ root core
  | Entry p => m ← members st !! p; at_ (m_per_core_priority_queue_entry m) core
  end.

Definition set_entry (core : Z) (r : Ref) (e : QueueEntry) (st : State) : option State :=
  match r with
  | Root kind priority =>
      root ← at_ (m_queues (impl kind st)) priority;
      root ← set_at root core e;
      queues ← set_at (m_queues (impl kind st)) priority root;
      Some (with_impl kind {| m_queues := queues;
                              m_available_priorities := m_available_priorities (impl kind st) |} st)
  | Entry p =>
      m ← members st !! p;
      entries ← set_at (m_per_core_priority_queue_entry m) core e;
      Some {| m_scheduled_queue := m_scheduled_queue st; m_suggested_queue := m_suggested_queue st;
              members := <[p := with_entries entries m]> (members st) |}
  end.

Definition SetPrev (core : Z) (r : Ref) (p : Z) (st : State) : option State :=
  e ← get_entry core r st; set_entry core r {| m_prev := p; m_next := m_next e |} st.
Definition SetNext (core : Z) (r : Ref) (p : Z) (st : State) : option State :=
  e ← get_entry core r st; set_entry core r {| m_prev := m_prev e; m_next := p |} st.

(** [(p != nullptr) ? p->GetPriorityQueueEntry(core) : m_root[core]] *)
Definition entry_or_root (root : Ref) (p : Z) : Ref := if negb (p =? 0) then Entry p else root.

(** ** KPerCoreQueue: [root] says which of the queues is [this] *)
Module KPerCoreQueue.
Definition GetFront (root : Ref) (core : Z) (st : State) : option Z :=
  e ← get_entry core root st; Some (m_next e).

Definition PushBack (root : Ref) (core member : Z) (st : State) : option (bool * State) :=
  root_entry ← get_entry core root st;
  let tail := m_prev root_entry in
  st ← SetPrev core (Entry member) tail st;
  st ← SetNext core (Entry member) 0 st;
  st ← SetNext core (entry_or_root root tail) member st;
  st ← SetPrev core root member st;
  Some (tail =? 0, st).

Definition PushFront (root : Ref) (core member : Z) (st : State) : option (bool * State) :=
  root_entry ← get_entry core root st;
  let head := m_next root_entry in
  st ← SetPrev core (Entry member) 0 st;
  st ← SetNext core (Entry member) head st;
  st ← SetPrev core (entry_or_root root head) member st;
  st ← SetNext core root member st;
  Some (head =? 0, st).

Definition Remove (root : Ref) (core member : Z) (st : State) : option (bool * State) :=
  member_entry ← get_entry core (Entry member) st;
  let prev := m_prev member_entry in
  let next := m_next member_entry in
  st ← SetNext core (entry_or_root root prev) next st;
  st ← SetPrev core (entry_or_root root next) prev st;
  front ← GetFront root core st;
  Some (front =? 0, st).
End KPerCoreQueue.

Definition IsValidCore (core : Z) : bool := (0 <=? core) && (core <? NumCores).
Definition IsValidPriority (priority : Z) : bool :=
  (HighestPriority <=? priority) && (priority <=? LowestPriority + 1).

Definition with_available (kind : Kind) (core : Z) (words : list Z) (st : State) : option State :=
  available ← set_at (m_available_priorities (impl kind st)) core words;
  Some (with_impl kind {| m_queues := m_queues (impl kind st); m_available_priorities := available |} st).

(** ** KPriorityQueueImpl: [kind] says which of the two is [this] *)
Module KPriorityQueueImpl.
Definition PushBack (kind : Kind) (priority core member : Z) (st : State) : option State :=
  check (IsValidCore core);;
  check (IsValidPriority priority);;
  if LowestPriority <? priority then Some st
  else
    '(first, st) ← KPerCoreQueue.PushBack (Root kind priority) core member st;
    if (first : bool) then
      words ← at_ (m_available_priorities (impl kind st)) core;
      words ← BitSet.SetBit priority words;
      with_available kind core words st
    else Some st.

Definition PushFront (kind : Kind) (priority core member : Z) (st : State) : option State :=
  check (IsValidCore core);;
  check (IsValidPriority priority);;
  if LowestPriority <? priority then Some st
  else
    '(first, st) ← KPerCoreQueue.PushFront (Root kind priority) core member st;
    if (first : bool) then
      words ← at_ (m_available_priorities (impl kind st)) core;
      words ← BitSet.SetBit priority words;
      with_available kind core words st
    else Some st.

Definition Remove (kind : Kind) (priority core member : Z) (st : State) : option State :=
  check (IsValidCore core);;
  check (IsValidPriority priority);;
  if LowestPriority <? priority then Some st
  else
    '(empty, st) ← KPerCoreQueue.Remove (Root kind priority) core member st;
    if (empty : bool) then
      words ← at_ (m_available_priorities (impl kind st)) core;
      words ← BitSet.ClearBit priority words;
      with_available kind core words st
    else Some st.

Definition GetFront (kind : Kind) (core : Z) (st : State) : option Z :=
  check (IsValidCore core);;
  words ← at_ (m_available_priorities (impl kind st)) core;
  let priority := s32 (BitSet.CountLeadingZero words) in
  if priority <=? LowestPriority then KPerCoreQueue.GetFront (Root kind priority) core st
  else Some 0.

Definition GetFront_priority (kind : Kind) (priority core : Z) (st : State) : option Z :=
  check (IsValidCore core);;
  check (IsValidPriority priority);;
  if priority <=? LowestPriority then KPerCoreQueue.GetFront (Root kind priority) core st
  else Some 0.

Definition GetNext (kind : Kind) (core member : Z) (st : State) : option Z :=
  check (IsValidCore core);;
  e ← get_entry core (Entry member) st;
  let next := m_next e in
  if next =? 0 then
    m ← members st !! member;
    words ← at_ (m_available_priorities (impl kind st)) core;
    let priority := s32 (BitSet.GetNextSet (u64 (GetPriority m)) words) in
    if priority <=? LowestPriority then KPerCoreQueue.GetFront (Root kind priority) core st
    else Some next
  else Some next.

Definition MoveToFront (kind : Kind) (priority core member : Z) (st : State) : option State :=
  check (IsValidCore core);;
  check (IsValidPriority priority);;
  if priority <=? LowestPriority then
    '(_, st) ← KPerCoreQueue.Remove (Root kind priority) core member st;
    '(_, st) ← KPerCoreQueue.PushFront (Root kind priority) core member st;
    Some st
  else Some st.

Definition MoveToBack (kind : Kind) (priority core member : Z) (st : State) : option (Z * State) :=
  check (IsValidCore core);;
  check (IsValidPriority priority);;
  if priority <=? LowestPriority then
    '(_, st) ← KPerCoreQueue.Remove (Root kind priority) core member st;
    '(_, st) ← KPerCoreQueue.PushBack (Root kind priority) core member st;
    front ← KPerCoreQueue.GetFront (Root kind priority) core st;
    Some (front, st)
  else Some (0, st).
End KPriorityQueueImpl.

(** ** KPriorityQueue *)
Definition ClearAffinityBit (affinity core : Z) : Z := Z.land affinity (lnotw 64 (Z.shiftl 1 core)).

(** [GetNextCore] answers the core and clears its bit. *)
Definition GetNextCore (affinity : Z) : Z * Z :=
  let core := countr_zero 64 affinity in (core, ClearAffinityBit affinity core).

(** [while (affinity) { f(GetNextCore(affinity)); }]: every round clears one of 64 bits. *)
Fixpoint affinity_loop (fuel : nat) (f : Z → State → option State) (affinity : Z) (st : State)
    : option State :=
  match fuel with
  | O => None
  | S fuel =>
      if affinity =? 0 then Some st
      else
        let '(core, affinity) := GetNextCore affinity in
        st ← f core st;
        affinity_loop fuel f affinity st
  end.

Definition PushBack_at (priority member : Z) (st : State) : option State :=
  check (IsValidPriority priority);;
  m ← members st !! member;
  let affinity := GetAffinityMask m in
  let core := GetActiveCore m in
  '(affinity, st) ←
    (if 0 <=? core then
       st ← KPriorityQueueImpl.PushBack Scheduled priority core member st;
       Some (ClearAffinityBit affinity core, st)
     else Some (affinity, st));
  affinity_loop 65 (λ core, KPriorityQueueImpl.PushBack Suggested priority core member) affinity st.

(** Only the scheduled queue gets the member at its front. *)
Definition PushFront_at (priority member : Z) (st : State) : option State :=
  check (IsValidPriority priority);;
  m ← members st !! member;
  let affinity := GetAffinityMask m in
  let core := GetActiveCore m in
  '(affinity, st) ←
    (if 0 <=? core then
       st ← KPriorityQueueImpl.PushFront Scheduled priority core member st;
       Some (ClearAffinityBit affinity core, st)
     else Some (affinity, st));
  affinity_loop 65 (λ core, KPriorityQueueImpl.PushBack Suggested priority core member) affinity st.

Definition Remove_at (priority member : Z) (st : State) : option State :=
  check (IsValidPriority priority);;
  m ← members st !! member;
  let affinity := GetAffinityMask m in
  let core := GetActiveCore m in
  '(affinity, st) ←
    (if 0 <=? core then
       st ← KPriorityQueueImpl.Remove Scheduled priority core member st;
       Some (ClearAffinityBit affinity core, st)
     else Some (affinity, st));
  affinity_loop 65 (λ core, KPriorityQueueImpl.Remove Suggested priority core member) affinity st.

Definition GetScheduledFront (core : Z) (st : State) : option Z :=
  KPriorityQueueImpl.GetFront Scheduled core st.
Definition GetScheduledFront_priority (core priority : Z) (st : State) : option Z :=
  KPriorityQueueImpl.GetFront_priority Scheduled priority core st.
Definition GetSuggestedFront (core : Z) (st : State) : option Z :=
  KPriorityQueueImpl.GetFront Suggested core st.
Definition GetSuggestedFront_priority (core priority : Z) (st : State) : option Z :=
  KPriorityQueueImpl.GetFront_priority Suggested priority core st.
Definition GetScheduledNext (core member : Z) (st : State) : option Z :=
  KPriorityQueueImpl.GetNext Scheduled core member st.
Definition GetSuggestedNext (core member : Z) (st : State) : option Z :=
  KPriorityQueueImpl.GetNext Suggested core member st.
Definition GetSamePriorityNext (core member : Z) (st : State) : option Z :=
  e ← get_entry core (Entry member) st; Some (m_next e).

Definition PushBack (member : Z) (st : State) : option State :=
  m ← members st !! member;
  if IsDummyThread m then Some st else PushBack_at (GetPriority m) member st.

Definition Remove (member : Z) (st : State) : option State :=
  m ← members st !! member;
  if IsDummyThread m then Some st else Remove_at (GetPriority m) member st.

Definition MoveToScheduledFront (member : Z) (st : State) : option State :=
  m ← members st !! member;
  if IsDummyThread m then Some st
  else KPriorityQueueImpl.MoveToFront Scheduled (GetPriority m) (GetActiveCore m) member st.

Definition MoveToScheduledBack (member : Z) (st : State) : option (Z * State) :=
  m ← members st !! member;
  if IsDummyThread m then Some (0, st)
  else KPriorityQueueImpl.MoveToBack Scheduled (GetPriority m) (GetActiveCore m) member st.

Definition ChangePriority (prev_priority : Z) (is_running : bool) (member : Z) (st : State)
    : option State :=
  m ← members st !! member;
  if IsDummyThread m then Some st
  else
    check (IsValidPriority prev_priority);;
    let new_priority := GetPriority m in
    st ← Remove_at prev_priority member st;
    if is_running then PushFront_at new_priority member st
    else PushBack_at new_priority member st.

(** The two loops of [ChangeAffinityMask], over the cores from [core] on. *)
Fixpoint affinity_remove_loop (count : nat) (core prev_core prev_affinity priority member : Z)
    (st : State) : option State :=
  match count with
  | O => Some st
  | S count =>
      has ← AffinityMask.GetAffinity core prev_affinity;
      st ← (if (has : bool) then
              if core =? prev_core then KPriorityQueueImpl.Remove Scheduled priority core member st
              else KPriorityQueueImpl.Remove Suggested priority core member st
            else Some st);
      affinity_remove_loop count (core + 1) prev_core prev_affinity priority member st
  end.
Fixpoint affinity_push_loop (count : nat) (core new_core new_affinity priority member : Z)
    (st : State) : option State :=
  match count with
  | O => Some st
  | S count =>
      has ← AffinityMask.GetAffinity core new_affinity;
      st ← (if (has : bool) then
              if core =? new_core then KPriorityQueueImpl.PushBack Scheduled priority core member st
              else KPriorityQueueImpl.PushBack Suggested priority core member st
            else Some st);
      affinity_push_loop count (core + 1) new_core new_affinity priority member st
  end.

Definition ChangeAffinityMask (prev_core prev_affinity member : Z) (st : State) : option State :=
  m ← members st !! member;
  if IsDummyThread m then Some st
  else
    let priority := GetPriority m in
    let new_affinity := GetAffinityMask m in
    let new_core := GetActiveCore m in
    st ← affinity_remove_loop (Z.to_nat NumCores) 0 prev_core prev_affinity priority member st;
    affinity_push_loop (Z.to_nat NumCores) 0 new_core new_affinity priority member st.

Definition ChangeCore (prev_core member : Z) (to_front : bool) (st : State) : option State :=
  m ← members st !! member;
  if IsDummyThread m then Some st
  else
    let new_core := GetActiveCore m in
    let priority := GetPriority m in
    if negb (prev_core =? new_core) then
      st ← (if 0 <=? prev_core then
              KPriorityQueueImpl.Remove Scheduled priority prev_core member st
            else Some st);
      st ← (if 0 <=? new_core then
              st ← KPriorityQueueImpl.Remove Suggested priority new_core member st;
              if to_front then KPriorityQueueImpl.PushFront Scheduled priority new_core member st
              else KPriorityQueueImpl.PushBack Scheduled priority new_core member st
            else Some st);
      if 0 <=? prev_core then KPriorityQueueImpl.PushBack Suggested priority prev_core member st
      else Some st
    else Some st.
