(* ===== verification/PriorityQueueLinks.v ===== *)
(** The links and bits of the priority queue represent a table of lists, one for each kind,
    priority and core: the representation, and the list operation that each operation of a
    queue is. *)
From stdpp Require Import functions.
From S2P Require Import Prelude PriorityQueue.

Definition core_ok (c : Z) : Prop := 0 ≤ c < 4.
Definition prio_ok (p : Z) : Prop := 0 ≤ p < 64.

(** * Shape of the arrays, and entries as a total function *)
Record shape (st : State) : Prop := {
  sh_queues : ∀ k, length (m_queues (impl k st)) = 64%nat
                   ∧ Forall (λ root, length root = 4%nat) (m_queues (impl k st));
  sh_available : ∀ k, length (m_available_priorities (impl k st)) = 4%nat
                      ∧ Forall (λ ws, ∃ w, ws = [w] ∧ in_width 64 w) (m_available_priorities (impl k st));
  sh_members : ∀ p m, members st !! p = Some m →
                      length (m_per_core_priority_queue_entry m) = 4%nat;
}.

Definition valid_ref (st : State) (r : Ref) : Prop :=
  match r with Root _ p => prio_ok p | Entry x => is_Some (members st !! x) end.

Definition ent (st : State) (c : Z) (r : Ref) : QueueEntry := default QueueEntry_new (get_entry c r st).

(** What does not change while members are linked and unlinked. *)
Definition static (m : Member) : Z * Z * Z * bool :=
  (GetAffinityMask m, GetActiveCore m, GetPriority m, IsDummyThread m).
Definition same_members (st st' : State) : Prop :=
  ∀ x, static <$> members st' !! x = static <$> members st !! x.
Definition same_available (st st' : State) : Prop :=
  ∀ k, m_available_priorities (impl k st') = m_available_priorities (impl k st).

Lemma same_members_trans st1 st2 st3 :
  same_members st1 st2 → same_members st2 st3 → same_members st1 st3.
Proof. intros H1 H2 x. by rewrite H2. Qed.

Lemma same_members_Some st st' x :
  same_members st st' → is_Some (members st !! x) ↔ is_Some (members st' !! x).
Proof. intros H. specialize (H x). rewrite <-!(fmap_is_Some static). by rewrite H. Qed.

Lemma same_members_lookup st st' x m :
  same_members st st' → members st !! x = Some m →
  ∃ m', members st' !! x = Some m' ∧ static m' = static m.
Proof.
  intros H E. specialize (H x). rewrite E in H. apply fmap_Some in H as (m' & E' & ->). by exists m'.
Qed.

Lemma valid_same st st' r : same_members st st' → valid_ref st r ↔ valid_ref st' r.
Proof. intros H. destruct r; simpl; [done|by apply same_members_Some]. Qed.

Lemma at_total {A} (l : list A) (i : Z) n :
  length l = n → 0 ≤ i < Z.of_nat n → ∃ x, at_ l i = Some x ∧ l !! Z.to_nat i = Some x.
Proof.
  intros Hl Hi. destruct (lookup_lt_is_Some_2 l (Z.to_nat i)) as [x Hx]; [lia|].
  exists x. split; [apply at_ok; [lia|done]|done].
Qed.

Lemma get_entry_ok st c r :
  shape st → valid_ref st r → core_ok c → get_entry c r st = Some (ent st c r).
Proof.
  intros [Hq _ Hm] Hr Hc. unfold ent.
  assert (is_Some (get_entry c r st)) as [e ->]; [|done].
  destruct r as [k p|x]; simpl.
  - destruct (Hq k) as [Hl Hf]. destruct (at_total _ p 64%nat Hl ltac:(exact Hr)) as (root & E & E').
    rewrite E. cbn [mbind option_bind]. apply at_is_Some.
    rewrite Forall_lookup in Hf. rewrite (Hf _ _ E'). exact Hc.
  - destruct Hr as [m E]. rewrite E. cbn [mbind option_bind]. apply at_is_Some.
    rewrite (Hm _ _ E). exact Hc.
Qed.

Definition set_at_view (st st' : State) (c : Z) (r : Ref) (e : QueueEntry) : Prop :=
  shape st' ∧ same_members st st' ∧ same_available st st'
  ∧ ∀ c' r', valid_ref st r' → core_ok c' →
      ent st' c' r' = if decide (c' = c ∧ r' = r) then e else ent st c' r'.

Lemma at_insert {A} (l : list A) (i j : Z) (x : A) :
  0 ≤ i → 0 ≤ j → j < Z.of_nat (length l) →
  at_ (<[Z.to_nat i := x]> l) j = if decide (j = i) then Some x else at_ l j.
Proof.
  intros Hi Hj Hl. unfold at_. rewrite (proj2 (Z.leb_le 0 j)) by done. cbn [check mbind option_bind].
  destruct (decide (j = i)) as [->|Hne].
  - apply list_lookup_insert_eq. lia.
  - apply list_lookup_insert_ne. lia.
Qed.

Lemma impl_with_impl k k' q st :
  impl k (with_impl k' q st) = if decide (k = k') then q else impl k st.
Proof. by destruct k, k'. Qed.

Lemma members_with_impl k q st : members (with_impl k q st) = members st.
Proof. by destruct k. Qed.

Lemma set_entry_ok st c r e :
  shape st → valid_ref st r → core_ok c →
  ∃ st', set_entry c r e st = Some st' ∧ set_at_view st st' c r e.
Proof.
  intros Hsh Hr Hc. pose proof Hsh as [Hq Ha Hm]. destruct r as [k p|x]; simpl; simpl in Hr.
  - destruct (Hq k) as [Hl Hf]. destruct (at_total _ p 64%nat Hl ltac:(exact Hr)) as (root & E & E').
    rewrite E. cbn [mbind option_bind].
    assert (length root = 4%nat) as Hlr by by (rewrite Forall_lookup in Hf; apply (Hf _ _ E')).
    rewrite set_at_ok by (rewrite Hlr; exact Hc). cbn [mbind option_bind].
    rewrite set_at_ok by (rewrite Hl; exact Hr). cbn [mbind option_bind].
    eexists. split; [done|]. unfold prio_ok, core_ok in *. split_and!.
    + constructor.
      * intros k'. rewrite impl_with_impl. destruct (decide (k' = k)) as [->|]; [|apply Hq]. simpl.
        rewrite length_insert. split; [done|]. apply Forall_insert; [done|by rewrite length_insert].
      * intros k'. rewrite impl_with_impl. destruct (decide (k' = k)) as [->|]; apply Ha.
      * rewrite members_with_impl. done.
    + intros x. by rewrite members_with_impl.
    + intros k'. rewrite impl_with_impl. by destruct (decide (k' = k)) as [->|].
    + intros c' r' Hr' Hc'. unfold ent. destruct r' as [k' p'|x']; simpl; simpl in Hr'; unfold prio_ok, core_ok in *.
      * rewrite impl_with_impl. destruct (decide (k' = k)) as [->|Hk].
        -- simpl. rewrite at_insert by lia.
           destruct (decide (p' = p)) as [->|Hp].
           ++ cbn [mbind option_bind]. rewrite at_insert by lia. rewrite E. cbn [mbind option_bind].
              destruct (decide (c' = c)) as [->|]; [by rewrite decide_True|]. rewrite decide_False; [done|]. tauto.
           ++ rewrite decide_False; [done|]. by intros [_ [= ]].
        -- rewrite decide_False; [done|]. by intros [_ [= ]].
      * rewrite members_with_impl, decide_False; [done|]. by intros [_ ?].
  - destruct Hr as [m E]. rewrite E. cbn [mbind option_bind]. pose proof (Hm _ _ E) as Hlm.
    rewrite set_at_ok by (rewrite Hlm; exact Hc). cbn [mbind option_bind].
    eexists. split; [done|]. unfold prio_ok, core_ok in *. split_and!.
    + constructor; [intros []; apply (Hq Scheduled) || apply (Hq Suggested)
                   |intros []; apply (Ha Scheduled) || apply (Ha Suggested)|].
      intros y my. simpl. intros [[-> <-]|[_ Hy]]%lookup_insert_Some; [|by eapply Hm].
      simpl. by rewrite length_insert.
    + intros y. simpl. destruct (decide (y = x)) as [->|].
      * rewrite lookup_insert_eq, E. done.
      * by rewrite lookup_insert_ne.
    + by intros [].
    + intros c' r' Hr' Hc'. unfold ent. destruct r' as [k' p'|x']; simpl; simpl in Hr'; unfold prio_ok, core_ok in *.
      * rewrite decide_False; [by destruct k'|]. by intros [_ ?].
      * destruct (decide (x' = x)) as [->|Hx].
        -- rewrite lookup_insert_eq, E. cbn [mbind option_bind]. simpl. rewrite at_insert by lia.
           destruct (decide (c' = c)) as [->|]; [by rewrite decide_True|]. rewrite decide_False; [done|]. tauto.
        -- rewrite lookup_insert_ne by done. rewrite decide_False; [done|]. by intros [_ [= ]].
Qed.

(** * Sequences of link updates at one core *)
Definition nxt (st : State) (c : Z) (r : Ref) : Z := m_next (ent st c r).
Definition prv (st : State) (c : Z) (r : Ref) : Z := m_prev (ent st c r).

(** From [st] to [st'] only links at core [c] changed, and they are now [N] and [P]. *)
Record stepped (st st' : State) (c : Z) (N P : Ref → Z) : Prop := {
  sp_shape : shape st';
  sp_members : same_members st st';
  sp_available : same_available st st';
  sp_other : ∀ c' r, c' ≠ c → core_ok c' → valid_ref st r → ent st' c' r = ent st c' r;
  sp_next : ∀ r, valid_ref st r → nxt st' c r = N r;
  sp_prev : ∀ r, valid_ref st r → prv st' c r = P r;
}.

Lemma stepped_refl st c : shape st → stepped st st c (nxt st c) (prv st c).
Proof. by constructor. Qed.

Lemma set_entry_step st st1 c N P r e :
  stepped st st1 c N P → valid_ref st r → core_ok c →
  ∃ st2, set_entry c r e st1 = Some st2 ∧ stepped st st2 c (<[r := m_next e]> N) (<[r := m_prev e]> P).
Proof.
  intros [Hs Hm Ha Ho HN HP] Hr Hc. pose proof (proj1 (valid_same _ _ r Hm) Hr) as Hr1.
  destruct (set_entry_ok st1 c r e Hs Hr1 Hc) as (st2 & E & Hs2 & Hm2 & Ha2 & Hv).
  exists st2. split; [done|].
  assert (∀ r', valid_ref st r' → valid_ref st1 r') as Hval
    by (intros r' Hr'; exact (proj1 (valid_same _ _ r' Hm) Hr')).
  constructor.
  - done.
  - by eapply same_members_trans.
  - intros k. by rewrite Ha2.
  - intros c' r' Hne Hc' Hr'. rewrite Hv by auto. rewrite decide_False by tauto. by apply Ho.
  - intros r' Hr'. unfold nxt. rewrite Hv by auto. destruct (decide (r' = r)) as [->|Hne].
    + rewrite decide_True by done. by rewrite fn_lookup_insert.
    + rewrite decide_False by tauto. rewrite fn_lookup_insert_ne by done. by apply HN.
  - intros r' Hr'. unfold prv. rewrite Hv by auto. destruct (decide (r' = r)) as [->|Hne].
    + rewrite decide_True by done. by rewrite fn_lookup_insert.
    + rewrite decide_False by tauto. rewrite fn_lookup_insert_ne by done. by apply HP.
Qed.

Lemma stepped_get st st1 c N P r :
  stepped st st1 c N P → valid_ref st r → core_ok c →
  get_entry c r st1 = Some {| m_prev := P r; m_next := N r |}.
Proof.
  intros [Hs Hm Ha Ho HN HP] Hr Hc. rewrite (get_entry_ok _ _ _ Hs (proj1 (valid_same _ _ r Hm) Hr) Hc).
  rewrite <-HN, <-HP by done. unfold nxt, prv. by destruct (ent st1 c r).
Qed.

Lemma stepped_ext st st1 c N P N' P' :
  stepped st st1 c N P → (∀ r, N r = N' r) → (∀ r, P r = P' r) → stepped st st1 c N' P'.
Proof. intros [Hs Hm Ha Ho HN HP] H1 H2. constructor; try done; intros; rewrite <-?H1, <-?H2; auto. Qed.

Lemma fn_insert_same (f : Ref → Z) r r' : <[r := f r]> f r' = f r'.
Proof. destruct (decide (r' = r)) as [->|]; [by rewrite fn_lookup_insert|by rewrite fn_lookup_insert_ne]. Qed.

Lemma SetNext_step st st1 c N P r p :
  stepped st st1 c N P → valid_ref st r → core_ok c →
  ∃ st2, SetNext c r p st1 = Some st2 ∧ stepped st st2 c (<[r := p]> N) P.
Proof.
  intros Hst Hr Hc. unfold SetNext. rewrite (stepped_get _ _ _ _ _ _ Hst Hr Hc). cbn [mbind option_bind].
  destruct (set_entry_step _ _ _ _ _ r {| m_prev := P r; m_next := p |} Hst Hr Hc) as (st2 & E & H2).
  exists st2. split; [exact E|]. eapply stepped_ext; [exact H2|done|]. simpl. apply fn_insert_same.
Qed.

Lemma SetPrev_step st st1 c N P r p :
  stepped st st1 c N P → valid_ref st r → core_ok c →
  ∃ st2, SetPrev c r p st1 = Some st2 ∧ stepped st st2 c N (<[r := p]> P).
Proof.
  intros Hst Hr Hc. unfold SetPrev. rewrite (stepped_get _ _ _ _ _ _ Hst Hr Hc). cbn [mbind option_bind].
  destruct (set_entry_step _ _ _ _ _ r {| m_prev := p; m_next := N r |} Hst Hr Hc) as (st2 & E & H2).
  exists st2. split; [exact E|]. eapply stepped_ext; [exact H2| |done]. simpl. apply fn_insert_same.
Qed.

(** * Circular lists of links *)
Definition ptr (r : Ref) : Z := match r with Root _ _ => 0 | Entry x => x end.

Fixpoint path (N P : Ref → Z) (l : list Ref) : Prop :=
  match l with
  | a :: ((b :: _) as l') => (N a = ptr b ∧ P b = ptr a) ∧ path N P l'
  | _ => True
  end.

Lemma path_app N P l1 a l2 : path N P (l1 ++ a :: l2) ↔ path N P (l1 ++ [a]) ∧ path N P (a :: l2).
Proof.
  induction l1 as [|b l1 IH]; [simpl; tauto|].
  destruct l1 as [|b' l1]; [simpl; tauto|].
  change ((b :: b' :: l1) ++ a :: l2) with (b :: (b' :: l1) ++ a :: l2).
  change ((b :: b' :: l1) ++ [a]) with (b :: (b' :: l1) ++ [a]).
  simpl path at 1 2. simpl app in IH. rewrite IH. tauto.
Qed.

Lemma path_ext N P N' P' l :
  (∀ x, x ∈ removelast l → N' x = N x) → (∀ x, x ∈ tail l → P' x = P x) →
  path N P l → path N' P' l.
Proof.
  induction l as [|a [|b l] IH]; [done|done|]. intros HN HP [[H1 H2] H3].
  split; [split|].
  - rewrite HN; [done|]. simpl. left.
  - rewrite HP; [done|]. simpl. left.
  - apply IH; [| |done].
    + intros x Hx. apply HN. simpl. by right.
    + intros x Hx. apply HP. simpl in *. by right.
Qed.

(** The references of a queue: its root, its members, and its root again. *)
Definition ring (root : Ref) (l : list Z) : list Ref := root :: map Entry l ++ [root].

Definition is_root (r : Ref) : Prop := match r with Root _ _ => True | Entry _ => False end.

Lemma elem_Entry x (l : list Z) : Entry x ∈ map Entry l ↔ x ∈ l.
Proof. rewrite list_elem_of_fmap. split; [by intros (y & [= ->] & ?)|by eexists]. Qed.

Lemma root_not_Entry r l : is_root r → r ∉ map Entry l.
Proof. intros Hr (y & -> & _)%list_elem_of_fmap. done. Qed.

Lemma elem_ring r root l : r ∈ ring root l ↔ r = root ∨ ∃ x, r = Entry x ∧ x ∈ l.
Proof.
  unfold ring. rewrite elem_of_cons, elem_of_app, list_elem_of_singleton. split.
  - intros [H|[(x & -> & Hx)%list_elem_of_fmap|H]]; [by left|right; by exists x|by left].
  - intros [->|(x & -> & Hx)]; [by left|right; left]. by apply elem_Entry.
Qed.

Lemma ptr_or_root root r : is_root root → r = root ∨ (∃ x, r = Entry x ∧ x ≠ 0) → entry_or_root root (ptr r) = r.
Proof.
  intros Hroot [->|(x & -> & Hx)]; unfold entry_or_root.
  - by destruct root.
  - simpl. by rewrite (proj2 (Z.eqb_neq x 0)).
Qed.

(** Around any place of a ring there are two references [a] and [b]; what lies between them
    may be replaced by changing only the next link of [a], the previous link of [b], and the
    links of one more member. *)
Lemma ring_splice N P root l1 B l2 m :
  is_root root → NoDup (l1 ++ l2) → m ∉ l1 → m ∉ l2 → path N P (ring root (l1 ++ B ++ l2)) →
  ∃ a b, (a = root ∧ l1 = [] ∨ ∃ x, a = Entry x ∧ x ∈ l1)
    ∧ (b = root ∧ l2 = [] ∨ ∃ x, b = Entry x ∧ x ∈ l2)
    ∧ path N P (a :: map Entry B ++ [b])
    ∧ ∀ N' P' B', (∀ r, r ≠ a → r ≠ Entry m → N' r = N r) → (∀ r, r ≠ b → r ≠ Entry m → P' r = P r) →
        path N' P' (a :: map Entry B' ++ [b]) → path N' P' (ring root (l1 ++ B' ++ l2)).
Proof.
  intros Hroot Hnd Hm1 Hm2 Hp. apply NoDup_app in Hnd as (Hnd1 & Hdisj & Hnd2).
  assert (∃ A a, root :: map Entry l1 = A ++ [a] ∧ a ∉ A
    ∧ (a = root ∧ l1 = [] ∨ ∃ x, a = Entry x ∧ x ∈ l1)) as (A & a & EA & HaA & Ha).
  { destruct l1 as [|y l1 _] using rev_ind.
    - exists [], root. split_and!; [done|apply not_elem_of_nil|by left].
    - apply NoDup_app in Hnd1 as (_ & Hy & _). exists (root :: map Entry l1), (Entry y).
      rewrite map_app. split_and!; [done| |right; exists y; split; [done|set_solver]].
      rewrite not_elem_of_cons, elem_Entry. split; [by destruct root|]. set_solver. }
  assert (∃ b C, map Entry l2 ++ [root] = b :: C ∧ b ∉ C
    ∧ (b = root ∧ l2 = [] ∨ ∃ x, b = Entry x ∧ x ∈ l2)) as (b & C & EC & HbC & Hb).
  { destruct l2 as [|y l2].
    - exists root, []. split_and!; [done|apply not_elem_of_nil|by left].
    - apply NoDup_cons in Hnd2 as [Hy _]. exists (Entry y), (map Entry l2 ++ [root]).
      split_and!; [done| |right; exists y; split; [done|set_solver]].
      rewrite not_elem_of_app, elem_Entry, list_elem_of_singleton. split; [done|by destruct root]. }
  assert (∀ M, ring root (l1 ++ M ++ l2) = A ++ a :: map Entry M ++ b :: C) as Ering.
  { intros M. unfold ring. rewrite !map_app, <-!(assoc (++)), EC.
    change (root :: map Entry l1 ++ map Entry M ++ b :: C)
      with ((root :: map Entry l1) ++ map Entry M ++ b :: C).
    rewrite EA. by rewrite <-(assoc (++)). }
  assert (∀ N P M, path N P (A ++ a :: map Entry M ++ b :: C)
    ↔ path N P (A ++ [a]) ∧ path N P (a :: map Entry M ++ [b]) ∧ path N P (b :: C)) as Hsplit.
  { intros N0 P0 M. rewrite path_app. change (a :: map Entry M ++ b :: C) with ((a :: map Entry M) ++ b :: C).
    by rewrite (path_app N0 P0 (a :: map Entry M) b C). }
  rewrite Ering, Hsplit in Hp. destruct Hp as (Hp1 & Hp2 & Hp3).
  exists a, b. split_and!; [done|done|done|]. intros N' P' B' HN HP Hmid.
  rewrite Ering, Hsplit. split_and!; [|done|].
  - apply (path_ext N P); [| |done].
    + rewrite removelast_last. intros r Hr. assert (r ∈ root :: map Entry l1) as Hr' by (rewrite EA; set_solver).
      apply HN; [by intros ->|]. intros ->. apply elem_of_cons in Hr' as [Hr'|Hr']; [by destruct root|].
      by apply elem_Entry in Hr'.
    + rewrite <-EA. simpl. intros r (x & -> & Hx)%list_elem_of_fmap. apply HP; [|by intros [= ->]].
      intros Ex. destruct Hb as [[-> _]|(y & -> & Hy)]; [by destruct root|].
      injection Ex as ->. by apply (Hdisj y).
  - apply (path_ext N P); [| |done].
    + rewrite <-EC, removelast_last. intros r (x & -> & Hx)%list_elem_of_fmap.
      apply HN; [|by intros [= ->]].
      intros Ex. destruct Ha as [[-> _]|(y & -> & Hy)]; [by destruct root|].
      injection Ex as ->. by apply (Hdisj y).
    + simpl. intros r Hr. assert (r ∈ map Entry l2 ++ [root]) as Hr' by (rewrite EC; set_solver).
      apply HP; [by intros ->|]. intros ->.
      apply elem_of_app in Hr' as [Hr'%elem_Entry|Hr'%list_elem_of_singleton]; [done|by destruct root].
Qed.

(** * The table of lists that the links represent *)
Definition table := Kind → Z → Z → list Z.

Definition upd (k : Kind) (p c : Z) (l : list Z) (t : table) : table := λ k' p' c',
  if decide (k' = k ∧ p' = p ∧ c' = c) then l else t k' p' c'.

Record links (st : State) (t : table) : Prop := {
  ln_shape : shape st;
  ln_ring : ∀ k p c, prio_ok p → core_ok c →
    path (nxt st c) (prv st c) (ring (Root k p) (t k p c));
  ln_valid : ∀ k p c x, prio_ok p → core_ok c → x ∈ t k p c → x ≠ 0 ∧ is_Some (members st !! x);
  ln_nodup : ∀ k p c, prio_ok p → core_ok c → NoDup (t k p c);
  ln_unique : ∀ c x k p k' p', core_ok c → prio_ok p → prio_ok p' →
    x ∈ t k p c → x ∈ t k' p' c → k = k' ∧ p = p';
}.

Lemma links_update st st' t k p c l' N P m :
  links st t → stepped st st' c N P → prio_ok p → core_ok c →
  (∀ r, r ∉ ring (Root k p) (t k p c) → r ≠ Entry m → N r = nxt st c r ∧ P r = prv st c r) →
  path N P (ring (Root k p) l') → NoDup l' →
  (∀ x, x ∈ l' → x ∈ t k p c ∨ x = m ∧ m ≠ 0 ∧ is_Some (members st !! m)) →
  (∀ k' p', prio_ok p' → m ∈ t k' p' c → k' = k ∧ p' = p) →
  links st' (upd k p c l' t).
Proof.
  intros [Hsh Hring Hval Hnd Hun] [Hs Hm Ha Ho HN HP] Hp Hc Hout Hpath Hnd' Hl' Hmu.
  assert (∀ k' p' c' x, prio_ok p' → core_ok c' → x ∈ upd k p c l' t k' p' c' →
    x ≠ 0 ∧ is_Some (members st !! x)) as Hval'.
  { intros k' p' c' x Hp' Hc'. unfold upd. case_decide as E.
    - destruct E as (-> & -> & ->). intros [Hx|(-> & ? & ?)]%Hl'; [by apply (Hval k p c)|done].
    - by apply Hval. }
  assert (∀ k' p' c' r, prio_ok p' → core_ok c' → r ∈ ring (Root k' p') (upd k p c l' t k' p' c') →
    valid_ref st r) as Href.
  { intros k' p' c' r Hp' Hc' [->|(x & -> & Hx)]%elem_ring; [done|]. by destruct (Hval' k' p' c' x Hp' Hc' Hx). }
  constructor.
  - done.
  - intros k' p' c' Hp' Hc'. pose proof (Href k' p' c') as Href'. revert Href'.
    unfold upd. case_decide as E; intros Href'.
    + destruct E as (-> & -> & ->). apply (path_ext N P); [| |done].
      * intros r Hr. apply HN, Href'; [done..|]. unfold ring in *.
        rewrite (app_comm_cons _ _ (Root k p)), removelast_last in Hr. rewrite app_comm_cons. set_solver.
      * intros r Hr. apply HP, Href'; [done..|]. unfold ring in *. simpl in Hr. set_solver.
    + assert (∀ r, r ∈ ring (Root k' p') (t k' p' c') →
        nxt st' c' r = nxt st c' r ∧ prv st' c' r = prv st c' r) as Hsame.
      { intros r Hr. specialize (Href' r Hp' Hc' Hr). destruct (decide (c' = c)) as [->|Hne].
        - rewrite HN, HP by done. apply Hout.
          + intros Hr'. apply elem_ring in Hr as [->|(x & -> & Hx)];
              apply elem_ring in Hr' as [Hr'|(y & Hr' & Hy)]; try done.
            * injection Hr' as -> ->. tauto.
            * injection Hr' as <-. destruct (Hun c x k' p' k p Hc Hp' Hp Hx Hy) as [-> ->]. tauto.
          + intros ->. apply elem_ring in Hr as [Hr|(x & [= <-] & Hx)]; [done|].
            destruct (Hmu k' p' Hp' Hx) as [-> ->]. tauto.
        - unfold nxt, prv. by rewrite Ho. }
      apply (path_ext (nxt st c') (prv st c')); [| |by apply Hring].
      * intros r Hr. apply Hsame. unfold ring in *.
        rewrite (app_comm_cons _ _ (Root k' p')), removelast_last in Hr. rewrite app_comm_cons. set_solver.
      * intros r Hr. apply Hsame. unfold ring in *. simpl in Hr. set_solver.
  - intros k' p' c' x Hp' Hc' Hx. destruct (Hval' k' p' c' x Hp' Hc' Hx) as [Hx0 Hxs].
    split; [done|]. by apply (same_members_Some st st').
  - intros k' p' c' Hp' Hc'. unfold upd. case_decide; [done|by apply Hnd].
  - assert (∀ x k' p', prio_ok p' → x ∈ l' → x ∈ t k' p' c → k' = k ∧ p' = p) as Hnew.
    { intros x k' p' Hp' [Hx|(-> & _)]%Hl' Hx'; [|by apply Hmu].
      destruct (Hun c x k p k' p' Hc Hp Hp' Hx Hx') as [-> ->]. done. }
    intros c' x k1 p1 k2 p2 Hc' H1 H2. unfold upd. case_decide as E1; case_decide as E2.
    + destruct E1 as (-> & -> & _), E2 as (-> & -> & _). done.
    + destruct E1 as (-> & -> & ->). intros Hx1 Hx2. by destruct (Hnew x k2 p2) as [-> ->].
    + destruct E2 as (-> & -> & ->). intros Hx1 Hx2. by destruct (Hnew x k1 p1) as [-> ->].
    + by apply Hun.
Qed.

(** What an operation of [KPerCoreQueue] does: the list of its queue becomes [l]. *)
Definition core_result (st : State) (t : table) (k : Kind) (p c : Z) (l : list Z)
    (r : option (bool * State)) (flag : bool) : Prop :=
  ∃ st', r = Some (flag, st') ∧ links st' (upd k p c l t) ∧ same_members st st' ∧ same_available st st'.

(** Takes the next [SetPrev] or [SetNext] of the goal from the state [H] is about. *)
Ltac link_step H H' :=
  let st2 := fresh "st" in let E := fresh "E" in
  match goal with
  | |- context [SetPrev ?c ?r ?p ?s] =>
      destruct (SetPrev_step _ s c _ _ r p H) as (st2 & E & H'); [ | |rewrite E; cbn [mbind option_bind]; clear E]
  | |- context [SetNext ?c ?r ?p ?s] =>
      destruct (SetNext_step _ s c _ _ r p H) as (st2 & E & H'); [ | |rewrite E; cbn [mbind option_bind]; clear E]
  end.

Lemma at_ends (root a : Ref) (l : list Z) st t k p c :
  links st t → prio_ok p → core_ok c → root = Root k p → (∀ x, x ∈ l → x ∈ t k p c) →
  (a = root ∧ l = [] ∨ ∃ x, a = Entry x ∧ x ∈ l) →
  entry_or_root root (ptr a) = a ∧ valid_ref st a ∧ (ptr a = 0 ↔ l = []).
Proof.
  intros Hl Hp Hc -> Hsub [[-> ->]|(x & -> & Hx)].
  - split_and!; done.
  - destruct (ln_valid _ _ Hl k p c x Hp Hc (Hsub x Hx)) as [Hx0 Hxs].
    split_and!; [|done|].
    + unfold entry_or_root. simpl. by rewrite (proj2 (Z.eqb_neq x 0)).
    + simpl. split; [done|]. intros ->. by apply not_elem_of_nil in Hx.
Qed.

Ltac insert_simpl :=
  repeat first [rewrite fn_lookup_insert | rewrite fn_lookup_insert_ne by (done || congruence)].

Lemma not_in_ring root a l r :
  r ∉ ring root l → a = root ∨ (∃ x, a = Entry x ∧ x ∈ l) → r ≠ root ∧ r ≠ a.
Proof.
  intros Hr Ha. split; intros ->; apply Hr, elem_ring; [by left|].
  destruct Ha as [->|?]; [by left|by right].
Qed.

Lemma PerCore_PushBack_ok st t k p c m :
  links st t → prio_ok p → core_ok c → m ≠ 0 → is_Some (members st !! m) →
  (∀ k' p', prio_ok p' → m ∉ t k' p' c) →
  core_result st t k p c (t k p c ++ [m]) (KPerCoreQueue.PushBack (Root k p) c m st)
    (bool_decide (t k p c = [])).
Proof.
  intros Hl Hp Hc Hm0 Hms Hm. pose proof (ln_nodup _ _ Hl k p c Hp Hc) as Hnd.
  pose proof (ln_ring _ _ Hl k p c Hp Hc) as Hring.
  destruct (ring_splice (nxt st c) (prv st c) (Root k p) (t k p c) [] [] m)
    as (a & b & Ha & Hb & [[HNa HPb] _] & Hnew); [done|by rewrite app_nil_r|by apply Hm|apply not_elem_of_nil|by rewrite !app_nil_r|].
  destruct Hb as [[-> _]|(x & _ & Hx)]; [|by apply not_elem_of_nil in Hx].
  destruct (at_ends (Root k p) a (t k p c) st t k p c) as (Ea & Hva & Hpa); [done..|].
  assert (a ≠ Entry m) as Ham by (intros ->; destruct Ha as [[? _]|(x & [= <-] & Hx)]; [done|by apply (Hm k p)]).
  unfold KPerCoreQueue.PushBack. pose proof (stepped_refl st c (ln_shape _ _ Hl)) as H0.
  rewrite (stepped_get _ _ _ _ _ _ H0) by done. cbn [mbind option_bind m_prev]. rewrite HPb, Ea.
  link_step H0 H1; [done..|]. link_step H1 H2; [done..|]. link_step H2 H3; [done..|].
  link_step H3 H4; [done..|].
  eexists. split; [|split; [|split; [by destruct H4|by destruct H4]]].
  { do 2 f_equal. apply eq_bool_prop_intro. rewrite bool_decide_spec, Is_true_true, Z.eqb_eq. done. }
  eapply (links_update _ _ _ _ _ _ _ _ _ m); [done|exact H4|done|done| | | | |].
  - intros r Hr Hrm. destruct (not_in_ring (Root k p) a (t k p c) r Hr) as [Hr1 Hr2]; [tauto|].
    split; by insert_simpl.
  - change (t k p c ++ [m]) with (t k p c ++ [m] ++ []). apply Hnew.
    + intros r Hr1 Hr2. by insert_simpl.
    + intros r Hr1 Hr2. by insert_simpl.
    + simpl. by insert_simpl.
  - apply NoDup_app. split_and!; [done|set_solver|apply NoDup_singleton].
  - intros x [Hx|Hx]%elem_of_app; [by left|right]. set_solver.
  - intros k' p' Hp' Hx. by destruct (Hm k' p').
Qed.

Lemma PerCore_PushFront_ok st t k p c m :
  links st t → prio_ok p → core_ok c → m ≠ 0 → is_Some (members st !! m) →
  (∀ k' p', prio_ok p' → m ∉ t k' p' c) →
  core_result st t k p c (m :: t k p c) (KPerCoreQueue.PushFront (Root k p) c m st)
    (bool_decide (t k p c = [])).
Proof.
  intros Hl Hp Hc Hm0 Hms Hm. pose proof (ln_nodup _ _ Hl k p c Hp Hc) as Hnd.
  pose proof (ln_ring _ _ Hl k p c Hp Hc) as Hring.
  destruct (ring_splice (nxt st c) (prv st c) (Root k p) [] [] (t k p c) m)
    as (a & b & Ha & Hb & [[HNa HPb] _] & Hnew); [done|done|apply not_elem_of_nil|by apply Hm|done|].
  destruct Ha as [[-> _]|(x & _ & Hx)]; [|by apply not_elem_of_nil in Hx].
  destruct (at_ends (Root k p) b (t k p c) st t k p c) as (Eb & Hvb & Hpb); [done..|].
  assert (b ≠ Entry m) as Hbm by (intros ->; destruct Hb as [[? _]|(x & [= <-] & Hx)]; [done|by apply (Hm k p)]).
  unfold KPerCoreQueue.PushFront. pose proof (stepped_refl st c (ln_shape _ _ Hl)) as H0.
  rewrite (stepped_get _ _ _ _ _ _ H0) by done. cbn [mbind option_bind m_next]. rewrite HNa, Eb.
  link_step H0 H1; [done..|]. link_step H1 H2; [done..|]. link_step H2 H3; [done..|].
  link_step H3 H4; [done..|].
  eexists. split; [|split; [|split; [by destruct H4|by destruct H4]]].
  { do 2 f_equal. apply eq_bool_prop_intro. rewrite bool_decide_spec, Is_true_true, Z.eqb_eq. done. }
  eapply (links_update _ _ _ _ _ _ _ _ _ m); [done|exact H4|done|done| | | | |].
  - intros r Hr Hrm. destruct (not_in_ring (Root k p) b (t k p c) r Hr) as [Hr1 Hr2]; [tauto|].
    split; by insert_simpl.
  - apply (Hnew _ _ [m]).
    + intros r Hr1 Hr2. by insert_simpl.
    + intros r Hr1 Hr2. by insert_simpl.
    + simpl. by insert_simpl.
  - apply NoDup_cons. split; [by apply Hm|done].
  - intros x [->|Hx]%elem_of_cons; [by right|by left].
  - intros k' p' Hp' Hx. by destruct (Hm k' p').
Qed.

Lemma PerCore_GetFront_ok st t k p c :
  links st t → prio_ok p → core_ok c →
  KPerCoreQueue.GetFront (Root k p) c st = Some (default 0 (head (t k p c))).
Proof.
  intros Hl Hp Hc. unfold KPerCoreQueue.GetFront.
  rewrite (stepped_get _ _ _ _ _ _ (stepped_refl st c (ln_shape _ _ Hl))) by done.
  cbn [mbind option_bind m_next]. f_equal.
  pose proof (ln_ring _ _ Hl k p c Hp Hc) as Hring. destruct (t k p c) as [|x l]; by destruct Hring as [[H _] _].
Qed.

Lemma PerCore_Remove_ok st t k p c l1 m l2 :
  links st t → prio_ok p → core_ok c → t k p c = l1 ++ m :: l2 →
  core_result st t k p c (l1 ++ l2) (KPerCoreQueue.Remove (Root k p) c m st)
    (bool_decide (l1 ++ l2 = [])).
Proof.
  intros Hl Hp Hc Et. pose proof (ln_nodup _ _ Hl k p c Hp Hc) as Hnd. rewrite Et in Hnd.
  pose proof (ln_ring _ _ Hl k p c Hp Hc) as Hring. rewrite Et in Hring.
  destruct (ln_valid _ _ Hl k p c m Hp Hc) as [Hm0 Hms]; [rewrite Et; set_solver|].
  assert (m ∉ l1 ∧ m ∉ l2 ∧ NoDup (l1 ++ l2)) as (Hm1 & Hm2 & Hnd').
  { rewrite <-Permutation_middle, NoDup_cons in Hnd. set_solver. }
  destruct (ring_splice (nxt st c) (prv st c) (Root k p) l1 [m] l2 m)
    as (a & b & Ha & Hb & Hmid & Hnew); [done..|]. simpl in Hmid.
  destruct Hmid as ([HNa HPm] & [HNm HPb] & _).
  destruct (at_ends (Root k p) a l1 st t k p c) as (Ea & Hva & Hpa); [done..|rewrite Et; set_solver|done|].
  destruct (at_ends (Root k p) b l2 st t k p c) as (Eb & Hvb & Hpb); [done..|rewrite Et; set_solver|done|].
  assert (a ≠ Entry m) as Ham by (intros ->; destruct Ha as [[? _]|(x & [= <-] & Hx)]; done).
  assert (b ≠ Entry m) as Hbm by (intros ->; destruct Hb as [[? _]|(x & [= <-] & Hx)]; done).
  unfold KPerCoreQueue.Remove. pose proof (stepped_refl st c (ln_shape _ _ Hl)) as H0.
  rewrite (stepped_get _ _ _ _ _ _ H0) by done. cbn [mbind option_bind m_next m_prev].
  rewrite HNm, HPm, Ea, Eb.
  link_step H0 H1; [done..|]. link_step H1 H2; [done..|].
  assert (links st1 (upd k p c (l1 ++ l2) t)) as Hl'.
  { eapply (links_update _ _ _ _ _ _ _ _ _ m); [done|exact H2|done|done| |apply (Hnew _ _ [])|done| |].
    - intros r Hr Hrm. rewrite Et in Hr.
      destruct (not_in_ring (Root k p) a (l1 ++ m :: l2) r Hr) as [_ Hr1]; [set_solver|].
      destruct (not_in_ring (Root k p) b (l1 ++ m :: l2) r Hr) as [_ Hr2]; [set_solver|].
      split; by insert_simpl.
    - intros r Hr1 Hr2. by insert_simpl.
    - intros r Hr1 Hr2. by insert_simpl.
    - simpl. by insert_simpl.
    - intros x Hx. left. rewrite Et. set_solver.
    - intros k' p' Hp' Hx.
      destruct (ln_unique _ _ Hl c m k p k' p') as [-> ->]; [done..|rewrite Et; set_solver|done|done]. }
  rewrite (PerCore_GetFront_ok _ _ _ _ _ Hl' Hp Hc). cbn [mbind option_bind].
  unfold upd at 1. rewrite decide_True by done.
  eexists. split; [|split; [exact Hl'|split; [by destruct H2|by destruct H2]]].
  do 2 f_equal. apply eq_bool_prop_intro. rewrite bool_decide_spec, Is_true_true, Z.eqb_eq.
  pose proof (ln_valid _ _ Hl k p c) as Hval. rewrite Et in Hval.
  destruct (l1 ++ l2) as [|y l] eqn:El; [done|]. simpl. split; [|done]. intros ->.
  destruct (Hval 0 Hp Hc) as [? _]; [|done]. assert (0 ∈ l1 ++ l2) by (rewrite El; set_solver). set_solver.
Qed.

(** * The bits of the priorities in use *)
Definition word (st : State) (k : Kind) (c : Z) : Z :=
  default 0 (ws ← m_available_priorities (impl k st) !! Z.to_nat c; head ws).

Lemma word_ok st k c :
  shape st → core_ok c →
  at_ (m_available_priorities (impl k st)) c = Some [word st k c] ∧ in_width 64 (word st k c).
Proof.
  intros [_ Ha _] Hc. destruct (Ha k) as [Hl Hf].
  destruct (at_total _ c 4%nat Hl ltac:(exact Hc)) as (ws & E & E').
  rewrite Forall_lookup in Hf. destruct (Hf _ _ E') as (w & -> & Hw).
  unfold word. rewrite E'. by split.
Qed.

Lemma word_same st st' k c : same_available st st' → word st' k c = word st k c.
Proof. intros H. unfold word. by rewrite H. Qed.

(** The table is right about bit [p] of word [w] of kind [k] and core [c]. *)
Definition bit_ok (t : table) (k : Kind) (p c w : Z) : Prop :=
  Z.testbit w (63 - p) = bool_decide (t k p c ≠ []).

Record rep (st : State) (t : table) : Prop := {
  rep_links : links st t;
  rep_bits : ∀ k p c, prio_ok p → core_ok c → bit_ok t k p c (word st k c);
}.

Lemma with_available_ok st t k c w :
  links st t → core_ok c → in_width 64 w →
  ∃ st', with_available k c [w] st = Some st' ∧ links st' t ∧ same_members st st'
    ∧ ∀ k' c', core_ok c' → word st' k' c' = if decide (k' = k ∧ c' = c) then w else word st k' c'.
Proof.
  intros [Hsh Hring Hval Hnd Hun] Hc Hw. pose proof Hsh as [Hq Ha Hm].
  destruct (Ha k) as [Hl Hf]. unfold with_available.
  rewrite set_at_ok by (rewrite Hl; exact Hc). cbn [mbind option_bind].
  eexists. split; [done|].
  set (st' := with_impl k _ st).
  assert (∀ c' r, ent st' c' r = ent st c' r) as Hent.
  { intros c' [k' p'|x]; unfold ent, st'; simpl; rewrite ?members_with_impl, ?impl_with_impl; [|done].
    by destruct (decide (k' = k)) as [->|]. }
  split_and!.
  - constructor; [|intros k' p' c' Hp' Hc'|intros k' p' c' x Hp' Hc'|done|done].
    + constructor; intros k'; unfold st'; rewrite ?members_with_impl, ?impl_with_impl; [| |apply Hm].
      * destruct (decide (k' = k)) as [->|]; apply Hq.
      * destruct (decide (k' = k)) as [->|]; [|apply Ha]. simpl. rewrite length_insert. split; [done|].
        apply Forall_insert; [done|]. by exists w.
    + apply (path_ext (nxt st c') (prv st c')); [| |by apply Hring];
        intros r _; unfold nxt, prv; by rewrite Hent.
    + unfold st'. rewrite members_with_impl. by apply Hval.
  - intros x. unfold st'. by rewrite members_with_impl.
  - intros k' c' Hc'. unfold word, st'. rewrite impl_with_impl. unfold core_ok in *.
    destruct (decide (k' = k)) as [->|Hk]; [|rewrite decide_False by tauto; done]. simpl.
    destruct (decide (c' = c)) as [->|Hne].
    + rewrite decide_True by done. by rewrite list_lookup_insert_eq by lia.
    + rewrite decide_False by tauto. by rewrite list_lookup_insert_ne by lia.
Qed.

Lemma SetBit_ok p w : prio_ok p → BitSet.SetBit p [w] = Some [Z.lor w (Z.shiftl 1 (63 - p))].
Proof.
  unfold prio_ok, BitSet.SetBit, BitSet.FlagsPerWord, BitSet.GetBitMask, BitSet.FlagsPerWord. intros Hp.
  rewrite Z.div_small, Z.mod_small by lia. done.
Qed.

Lemma ClearBit_ok p w :
  prio_ok p → BitSet.ClearBit p [w] = Some [Z.land w (lnotw 64 (Z.shiftl 1 (63 - p)))].
Proof.
  unfold prio_ok, BitSet.ClearBit, BitSet.FlagsPerWord, BitSet.GetBitMask, BitSet.FlagsPerWord. intros Hp.
  rewrite Z.div_small, Z.mod_small by lia. done.
Qed.

(** What an operation of [KPriorityQueueImpl] does. *)
Definition impl_result (st : State) (t : table) (r : option State) : Prop :=
  ∃ st', r = Some st' ∧ rep st' t ∧ same_members st st'.

(** The end of a push or a removal: bit [p] is set or cleared when [flag] says so, and
    becomes right; the other bits were. *)
Lemma finish_bits st0 st t k p c (flag : bool) (upd_bit : Z → list Z → option (list Z)) (g : Z → Z) :
  links st t → prio_ok p → core_ok c →
  (∀ k' p' c', prio_ok p' → core_ok c' → (k', p', c') ≠ (k, p, c) → bit_ok t k' p' c' (word st k' c')) →
  (∀ w, upd_bit p [w] = Some [g w]) → (∀ w, in_width 64 w → in_width 64 (g w)) →
  (∀ w q, in_width 64 w → prio_ok q → q ≠ p → Z.testbit (g w) (63 - q) = Z.testbit w (63 - q)) →
  bit_ok t k p c (if flag then g (word st k c) else word st k c) →
  same_members st0 st →
  impl_result st0 t
    (if flag then words ← at_ (m_available_priorities (impl k st)) c;
                  words ← upd_bit p words; with_available k c words st
     else Some st).
Proof.
  intros Hl Hp Hc Hothers Hupd Hgw Hg Hbit Hm0.
  destruct (word_ok st k c (ln_shape _ _ Hl) Hc) as [E Hw]. destruct flag.
  - rewrite E. cbn [mbind option_bind]. rewrite Hupd. cbn [mbind option_bind].
    destruct (with_available_ok st t k c (g (word st k c)) Hl Hc (Hgw _ Hw)) as (st' & E' & Hl' & Hm' & Hw').
    exists st'. split; [done|]. split; [|by eapply same_members_trans].
    constructor; [done|]. intros k' p' c' Hp' Hc'. rewrite Hw' by done. case_decide as Ek.
    + destruct Ek as [-> ->]. destruct (decide (p' = p)) as [->|Hne]; [done|].
      unfold bit_ok. rewrite Hg by done. apply (Hothers k p' c); [done..|congruence].
    + apply Hothers; [done..|]. intros [= -> -> ->]. tauto.
  - exists st. split; [done|]. split; [|done]. constructor; [done|]. intros k' p' c' Hp' Hc'.
    destruct (decide ((k', p', c') = (k, p, c))) as [[= -> -> ->]|Hne]; [done|by apply Hothers].
Qed.

Lemma upd_eq k p c l t : upd k p c l t k p c = l.
Proof. unfold upd. by rewrite decide_True. Qed.

Lemma upd_ne k p c l t k' p' c' : (k', p', c') ≠ (k, p, c) → upd k p c l t k' p' c' = t k' p' c'.
Proof. intros H. unfold upd. rewrite decide_False; [done|]. by intros (-> & -> & ->). Qed.

Lemma bits_others st st' t k p c l :
  rep st t → same_available st st' →
  ∀ k' p' c', prio_ok p' → core_ok c' → (k', p', c') ≠ (k, p, c) →
    bit_ok (upd k p c l t) k' p' c' (word st' k' c').
Proof.
  intros Hr Ha k' p' c' Hp' Hc' Hne. unfold bit_ok. rewrite upd_ne, (word_same st st') by done.
  by apply (rep_bits _ _ Hr).
Qed.

(** Changing the list of one queue, unless the priority is the one below the lowest. *)
Definition change (k : Kind) (p c : Z) (f : list Z → list Z) (t : table) : table :=
  if p <=? 63 then upd k p c (f (t k p c)) t else t.

Definition priority_ok (p : Z) : Prop := 0 ≤ p ≤ 64.

Lemma impl_checks {A} (p c : Z) (f : option A) :
  core_ok c → priority_ok p → (check (IsValidCore c);; check (IsValidPriority p);; f) = f.
Proof.
  unfold core_ok, priority_ok, IsValidCore, IsValidPriority, NumCores, HighestPriority, LowestPriority.
  intros Hc Hp. rewrite !check_bind_Some by lia. done.
Qed.

Lemma set_bit_other w p q :
  in_width 64 w → prio_ok p → prio_ok q → q ≠ p →
  Z.testbit (Z.lor w (Z.shiftl 1 (63 - p))) (63 - q) = Z.testbit w (63 - q).
Proof.
  unfold prio_ok. intros Hw Hp Hq Hne. rewrite lor_bit_testbit by lia.
  by rewrite bool_decide_eq_false_2 by lia.
Qed.

Lemma clear_bit_other w p q :
  in_width 64 w → prio_ok p → prio_ok q → q ≠ p →
  Z.testbit (Z.land w (lnotw 64 (Z.shiftl 1 (63 - p)))) (63 - q) = Z.testbit w (63 - q).
Proof.
  unfold prio_ok. intros Hw Hp Hq Hne. rewrite land_lnotw_testbit by (done || lia).
  by rewrite bool_decide_eq_false_2 by lia.
Qed.

Lemma prio_mask_width p : prio_ok p → in_width 64 (Z.shiftl 1 (63 - p)).
Proof. unfold prio_ok. intros. apply shiftl_1_in_width. lia. Qed.

(** The common part of the two pushes. *)
Lemma Impl_push_finish st t k p c l r :
  rep st t → prio_ok p → core_ok c → l ≠ [] →
  core_result st t k p c l r (bool_decide (t k p c = [])) →
  impl_result st (upd k p c l t)
    ('(first, st) ← r;
     if (first : bool) then
       words ← at_ (m_available_priorities (impl k st)) c;
       words ← BitSet.SetBit p words;
       with_available k c words st
     else Some st).
Proof.
  intros Hr Hp Hc Hne (st' & -> & Hl & Hm & Ha). cbn [mbind option_bind].
  apply (finish_bits st st' _ k p c _ BitSet.SetBit (λ w, Z.lor w (Z.shiftl 1 (63 - p)))); try done.
  - by apply (bits_others st).
  - intros w. by apply SetBit_ok.
  - intros w Hw. apply lor_in_width; [lia|done|by apply prio_mask_width].
  - intros w q Hw Hq Hqp. by apply set_bit_other.
  - unfold bit_ok. rewrite upd_eq, (bool_decide_eq_true_2 (l ≠ [])) by done. case_bool_decide as E.
    + unfold prio_ok in Hp. rewrite lor_bit_testbit by lia. by rewrite bool_decide_eq_true_2 by lia.
    + rewrite (word_same st st') by done. rewrite (rep_bits _ _ Hr k p c) by done. by case_bool_decide.
Qed.

Lemma Impl_PushBack_ok st t k p c m :
  rep st t → core_ok c → priority_ok p → m ≠ 0 → is_Some (members st !! m) →
  (∀ k' p', prio_ok p' → m ∉ t k' p' c) →
  impl_result st (change k p c (λ l, l ++ [m]) t) (KPriorityQueueImpl.PushBack k p c m st).
Proof.
  intros Hr Hc Hp Hm0 Hms Hm. unfold KPriorityQueueImpl.PushBack, change, LowestPriority.
  rewrite impl_checks by done. rewrite Z.ltb_antisym. destruct (Z.leb_spec p 63); cbn [negb].
  - apply Impl_push_finish; [done|split; [apply Hp|lia]|done| |].
    + by destruct (t k p c).
    + apply PerCore_PushBack_ok; try done; [apply Hr|]. split; [apply Hp|lia].
  - by exists st.
Qed.

Lemma Impl_PushFront_ok st t k p c m :
  rep st t → core_ok c → priority_ok p → m ≠ 0 → is_Some (members st !! m) →
  (∀ k' p', prio_ok p' → m ∉ t k' p' c) →
  impl_result st (change k p c (λ l, m :: l) t) (KPriorityQueueImpl.PushFront k p c m st).
Proof.
  intros Hr Hc Hp Hm0 Hms Hm. unfold KPriorityQueueImpl.PushFront, change, LowestPriority.
  rewrite impl_checks by done. rewrite Z.ltb_antisym. destruct (Z.leb_spec p 63); cbn [negb].
  - apply Impl_push_finish; [done|split; [apply Hp|lia]|done|done|].
    apply PerCore_PushFront_ok; try done; [apply Hr|]. split; [apply Hp|lia].
  - by exists st.
Qed.

Definition without (m : Z) (l : list Z) : list Z := filter (λ x, x ≠ m) l.

Lemma without_split m l :
  NoDup l → m ∈ l → ∃ l1 l2, l = l1 ++ m :: l2 ∧ without m l = l1 ++ l2.
Proof.
  intros Hnd (l1 & l2 & ->)%list_elem_of_split. exists l1, l2. split; [done|].
  rewrite <-Permutation_middle, NoDup_cons in Hnd. destruct Hnd as [Hm _].
  unfold without. rewrite filter_app, filter_cons_False by tauto.
  rewrite !filter_id; [done|set_solver|set_solver].
Qed.

Lemma PerCore_Remove_without st t k p c m :
  links st t → prio_ok p → core_ok c → m ∈ t k p c →
  core_result st t k p c (without m (t k p c)) (KPerCoreQueue.Remove (Root k p) c m st)
    (bool_decide (without m (t k p c) = [])).
Proof.
  intros Hl Hp Hc Hm. destruct (without_split m (t k p c)) as (l1 & l2 & E & ->);
    [by apply (ln_nodup _ _ Hl)|done|]. by apply PerCore_Remove_ok.
Qed.

Lemma Impl_Remove_ok st t k p c m :
  rep st t → core_ok c → priority_ok p → (p ≤ 63 → m ∈ t k p c) →
  impl_result st (change k p c (without m) t) (KPriorityQueueImpl.Remove k p c m st).
Proof.
  intros Hr Hc Hp Hm. unfold KPriorityQueueImpl.Remove, change, LowestPriority.
  rewrite impl_checks by done. rewrite Z.ltb_antisym. destruct (Z.leb_spec p 63); cbn [negb]; [|by exists st].
  assert (prio_ok p) as Hp' by (split; [apply Hp|lia]).
  destruct (PerCore_Remove_without st t k p c m (rep_links _ _ Hr) Hp' Hc ltac:(auto))
    as (st' & E & Hl & Hms & Ha).
  rewrite E. cbn [mbind option_bind].
  apply (finish_bits st st' _ k p c _ BitSet.ClearBit (λ w, Z.land w (lnotw 64 (Z.shiftl 1 (63 - p))))); try done.
  - by apply (bits_others st).
  - intros w. by apply ClearBit_ok.
  - intros w Hw. apply land_in_width; [lia|done].
  - intros w q Hw Hq Hqp. by apply clear_bit_other.
  - unfold bit_ok. rewrite upd_eq. destruct (word_ok st' k c (ln_shape _ _ Hl) Hc) as [_ Hw].
    case_bool_decide as E'.
    + rewrite E'. unfold prio_ok in Hp'. rewrite land_lnotw_testbit by (done || lia).
      rewrite (bool_decide_eq_true_2 (63 - p = _)) by lia. done.
    + rewrite (word_same st st') by done. rewrite (rep_bits _ _ Hr k p c) by done.
      rewrite (bool_decide_eq_true_2 (without m (t k p c) ≠ [])) by done.
      apply bool_decide_eq_true_2. intros E2. specialize (Hm H). rewrite E2 in Hm.
      by apply not_elem_of_nil in Hm.
Qed.

(** * Tables up to the entries that exist *)
Definition table_eq (t t' : table) : Prop :=
  ∀ k p c, prio_ok p → core_ok c → t k p c = t' k p c.

#[global] Instance table_eq_equiv : Equivalence table_eq.
Proof.
  split; [by intros t k p c|intros t t' H k p c Hp Hc; by rewrite H|].
  intros t1 t2 t3 H1 H2 k p c Hp Hc. by rewrite H1, H2.
Qed.

Lemma links_ext st t t' : table_eq t t' → links st t → links st t'.
Proof.
  intros Heq [Hsh Hring Hval Hnd Hun]. constructor.
  - done.
  - intros k p c Hp Hc. rewrite <-Heq by done. by apply Hring.
  - intros k p c x Hp Hc. rewrite <-Heq by done. by apply Hval.
  - intros k p c Hp Hc. rewrite <-Heq by done. by apply Hnd.
  - intros c x k p k' p' Hc Hp Hp'. rewrite <-!Heq by done. by apply Hun.
Qed.

#[global] Instance links_proper st : Proper (table_eq ==> iff) (links st).
Proof. intros t t' H. split; apply links_ext; [done|by symmetry]. Qed.

#[global] Instance rep_proper st : Proper (table_eq ==> iff) (rep st).
Proof.
  intros t t' H. split; intros [Hl Hb]; constructor; [by rewrite <-H| |by rewrite H|];
    intros k p c Hp Hc; unfold bit_ok; [rewrite <-H by done|rewrite H by done]; by apply Hb.
Qed.

#[global] Instance impl_result_proper st : Proper (table_eq ==> eq ==> iff) (impl_result st).
Proof.
  intros t t' H r ? <-. unfold impl_result.
  split; intros (st' & ? & ? & ?); exists st'; split_and!; try done; [by rewrite <-H|by rewrite H].
Qed.

Lemma upd_upd k p c l l' t : table_eq (upd k p c l (upd k p c l' t)) (upd k p c l t).
Proof. intros k' p' c' _ _. unfold upd. by case_decide. Qed.

Lemma elem_without x m l : x ∈ without m l ↔ x ∈ l ∧ x ≠ m.
Proof. unfold without. rewrite list_elem_of_filter. tauto. Qed.

(** A member that was taken out of its queue is in none of the core. *)
Lemma without_unique st t k p c m :
  links st t → prio_ok p → core_ok c → m ∈ t k p c →
  ∀ k' p', prio_ok p' → m ∉ upd k p c (without m (t k p c)) t k' p' c.
Proof.
  intros Hl Hp Hc Hm k' p' Hp'. unfold upd. case_decide as E; [by rewrite elem_without; intros [_ ?]|].
  intros Hm'. destruct (ln_unique _ _ Hl c m k p k' p') as [-> ->]; [done..|]. tauto.
Qed.

(** Moving within a queue changes no bit. *)
Lemma moved st st' t k p c m l :
  rep st t → prio_ok p → core_ok c → m ∈ t k p c → l ≠ [] →
  links st' (upd k p c l t) → same_members st st' → same_available st st' →
  impl_result st (upd k p c l t) (Some st').
Proof.
  intros Hr Hp Hc Hm Hne Hl Hms Ha. exists st'. split; [done|]. split; [|done].
  constructor; [done|]. intros k' p' c' Hp' Hc'. unfold bit_ok. rewrite (word_same st st') by done.
  rewrite (rep_bits _ _ Hr k' p' c') by done. unfold upd. case_decide as E; [|done].
  destruct E as (-> & -> & ->). apply bool_decide_ext. split; [done|].
  intros _ E. rewrite E in Hm. by apply not_elem_of_nil in Hm.
Qed.

Lemma Impl_MoveToFront_ok st t k p c m :
  rep st t → core_ok c → priority_ok p → (p ≤ 63 → m ∈ t k p c) →
  impl_result st (change k p c (λ l, m :: without m l) t) (KPriorityQueueImpl.MoveToFront k p c m st).
Proof.
  intros Hr Hc Hp Hm. unfold KPriorityQueueImpl.MoveToFront, change, LowestPriority.
  rewrite impl_checks by done. destruct (Z.leb_spec p 63); [|by exists st].
  assert (prio_ok p) as Hp' by (split; [apply Hp|lia]). specialize (Hm H).
  pose proof (rep_links _ _ Hr) as Hl. destruct (ln_valid _ _ Hl k p c m Hp' Hc Hm) as [Hm0 Hms].
  destruct (PerCore_Remove_without st t k p c m Hl Hp' Hc Hm) as (st1 & -> & Hl1 & Hms1 & Ha1).
  cbn [mbind option_bind].
  destruct (PerCore_PushFront_ok st1 _ k p c m Hl1 Hp' Hc Hm0) as (st2 & -> & Hl2 & Hms2 & Ha2);
    [by apply (same_members_Some st st1)|by apply (without_unique st)|].
  cbn [mbind option_bind]. rewrite upd_eq, upd_upd in Hl2.
  apply (moved st st2 t k p c m); try done; [by eapply same_members_trans|].
  intros k'. by rewrite Ha2.
Qed.

Lemma Impl_MoveToBack_ok st t k p c m :
  rep st t → core_ok c → priority_ok p → (p ≤ 63 → m ∈ t k p c) →
  ∃ front, impl_result st (change k p c (λ l, without m l ++ [m]) t)
      (snd <$> KPriorityQueueImpl.MoveToBack k p c m st)
    ∧ fst <$> KPriorityQueueImpl.MoveToBack k p c m st = Some front
    ∧ (if p <=? 63 then head (without m (t k p c) ++ [m]) = Some front else front = 0).
Proof.
  intros Hr Hc Hp Hm. unfold KPriorityQueueImpl.MoveToBack, change, LowestPriority.
  rewrite impl_checks by done. destruct (Z.leb_spec p 63); [|exists 0; split_and!; [by exists st|done|done]].
  assert (prio_ok p) as Hp' by (split; [apply Hp|lia]). specialize (Hm H).
  pose proof (rep_links _ _ Hr) as Hl. destruct (ln_valid _ _ Hl k p c m Hp' Hc Hm) as [Hm0 Hms].
  destruct (PerCore_Remove_without st t k p c m Hl Hp' Hc Hm) as (st1 & -> & Hl1 & Hms1 & Ha1).
  cbn [mbind option_bind].
  destruct (PerCore_PushBack_ok st1 _ k p c m Hl1 Hp' Hc Hm0) as (st2 & -> & Hl2 & Hms2 & Ha2);
    [by apply (same_members_Some st st1)|by apply (without_unique st)|].
  cbn [mbind option_bind]. rewrite upd_eq, upd_upd in Hl2.
  rewrite (PerCore_GetFront_ok _ _ _ _ _ Hl2 Hp' Hc), upd_eq. cbn [mbind option_bind fmap option_fmap option_map].
  eexists. split_and!; [|done|by destruct (without m (t k p c))].
  apply (moved st st2 t k p c m); try done;
    [by destruct (without m (t k p c))|by eapply same_members_trans|].
  intros k'. by rewrite Ha2.
Qed.
