(* ===== verification/PriorityQueueSpec.v ===== *)
(** The operations of the priority queue as operations on its table of lists, the place of
    every member in it, and the order in which the front and next queries walk a core. *)
From S2P Require Import Prelude PriorityQueue PriorityQueueLinks.

(** * Where a member belongs *)

(** The priority, active core and affinity with which a member is queued. *)
Record Info := { i_priority : Z; i_core : Z; i_affinity : Z }.

Definition info_of (m : Member) : Info :=
  {| i_priority := GetPriority m; i_core := GetActiveCore m; i_affinity := GetAffinityMask m |}.

(** An active core is one the member may run on; a negative one means none. *)
Definition info_ok (i : Info) : Prop :=
  priority_ok (i_priority i) ∧ i_core i < 4 ∧ in_width 4 (i_affinity i)
  ∧ (0 ≤ i_core i → Z.testbit (i_affinity i) (i_core i) = true).

(** The queues of a member: scheduled on its core, suggested on the others it may run on. *)
Definition in_slot (i : Info) (k : Kind) (p c : Z) : bool :=
  (p =? i_priority i)
  && match k with
     | Scheduled => c =? i_core i
     | Suggested => Z.testbit (i_affinity i) c && negb (c =? i_core i)
     end.

Definition on_slots (i : Info) (g : Kind → list Z → list Z) (t : table) : table := λ k p c,
  if in_slot i k p c then g k (t k p c) else t k p c.

(** * The loop over an affinity mask *)
Definition cores (affinity : Z) : list Z := filter (λ c, Z.testbit affinity c = true) [0; 1; 2; 3].

Fixpoint fold_cores (f : Z → State → option State) (cs : list Z) (st : State) : option State :=
  match cs with [] => Some st | c :: cs => st ← f c st; fold_cores f cs st end.

Lemma small_cases a :
  in_width 4 a → a = 0 ∨ a = 1 ∨ a = 2 ∨ a = 3 ∨ a = 4 ∨ a = 5 ∨ a = 6 ∨ a = 7 ∨ a = 8 ∨ a = 9
    ∨ a = 10 ∨ a = 11 ∨ a = 12 ∨ a = 13 ∨ a = 14 ∨ a = 15.
Proof. unfold in_width. lia. Qed.

Lemma core_cases c : core_ok c → c = 0 ∨ c = 1 ∨ c = 2 ∨ c = 3.
Proof. unfold core_ok. lia. Qed.

Ltac all_cases H := repeat destruct H as [->|H]; try subst.

Lemma affinity_loop_cores f a st :
  in_width 4 a → affinity_loop 65 f a st = fold_cores f (cores a) st.
Proof. intros H%small_cases. all_cases H; reflexivity. Qed.

Lemma ClearAffinityBit_cores a c :
  in_width 4 a → core_ok c →
  in_width 4 (ClearAffinityBit a c) ∧ cores (ClearAffinityBit a c) = filter (λ x, x ≠ c) (cores a).
Proof.
  intros H%small_cases Hc%core_cases.
  all_cases H; all_cases Hc; (split; [split; [discriminate|reflexivity]|reflexivity]).
Qed.

Lemma elem_cores a c : c ∈ cores a ↔ core_ok c ∧ Z.testbit a c = true.
Proof.
  unfold cores. rewrite list_elem_of_filter, !elem_of_cons. pose proof (not_elem_of_nil c).
  unfold core_ok. split; [intros [? Hc]; split; [|done]|intros [Hc ?]; split; [done|]].
  - destruct Hc as [->|[->|[->|[->|Hc]]]]; [lia..|done].
  - lia.
Qed.

Lemma NoDup_cores a : NoDup (cores a).
Proof. apply NoDup_filter. apply (bool_decide_unpack _). reflexivity. Qed.

(** * The two-part operations *)
Lemma impl_result_ext st t t' r : table_eq t t' → impl_result st t r → impl_result st t' r.
Proof. intros H. by rewrite H. Qed.

Definition suggested_cores (i : Info) : list Z := filter (λ c, c ≠ i_core i) (cores (i_affinity i)).

(** What [PushBack_at], [PushFront_at] and [Remove_at] have in common. *)
Definition at_both (fs fg : Z → State → option State) (core affinity : Z) (st : State) : option State :=
  '(affinity, st) ← (if 0 <=? core then
                       st ← fs core st; Some (ClearAffinityBit affinity core, st)
                     else Some (affinity, st));
  affinity_loop 65 fg affinity st.

Lemma change_other k p c f t k' p' c' : c' ≠ c → change k p c f t k' p' c' = t k' p' c'.
Proof. intros H. unfold change. destruct (p <=? 63); [|done]. apply upd_ne. congruence. Qed.

Lemma change_at k p c f t k' p' c' :
  prio_ok p' →
  change k p c f t k' p' c' = if decide (k' = k ∧ p' = p ∧ c' = c) then f (t k' p' c') else t k' p' c'.
Proof.
  intros Hp. unfold change. destruct (Z.leb_spec p 63); unfold upd; case_decide as E; try done.
  - by destruct E as (-> & -> & ->).
  - unfold prio_ok in *. lia.
Qed.

(** The same with booleans. *)
Definition same_kind (k k' : Kind) : bool :=
  match k, k' with Scheduled, Scheduled | Suggested, Suggested => true | _, _ => false end.

Lemma change_kind k p c f t k' p' c' :
  prio_ok p' →
  change k p c f t k' p' c'
  = if same_kind k' k && (p' =? p) && (c' =? c) then f (t k' p' c') else t k' p' c'.
Proof.
  intros Hp. rewrite change_at by done.
  destruct k, k', (Z.eqb_spec p' p), (Z.eqb_spec c' c); cbn [same_kind andb];
    first [by rewrite decide_True by done|rewrite decide_False; [done|by intros (? & ? & ?)]].
Qed.

(** A loop that changes one queue of each core of a list. *)
Section fold.
Context (prio : Z) (kd : Z → Kind) (g : Kind → list Z → list Z) (st0 : State)
        (f : Z → State → option State) (Pre : Kind → table → Z → Prop).
(** [Pre] looks at one core only, and is what the operation at this core needs. *)
Context (Hpre : ∀ k t t' c, (∀ k' p', prio_ok p' → t k' p' c = t' k' p' c) → Pre k t c → Pre k t' c)
        (Hf : ∀ st t c, core_ok c → rep st t → same_members st0 st → Pre (kd c) t c →
           impl_result st (change (kd c) prio c (g (kd c)) t) (f c st)).

Definition on_cores (cs : list Z) (t : table) : table := λ k p c,
  if decide (k = kd c ∧ p = prio ∧ c ∈ cs) then g k (t k p c) else t k p c.

Lemma fold_cores_ok cs st t :
  NoDup cs → Forall core_ok cs → rep st t → same_members st0 st → Forall (λ c, Pre (kd c) t c) cs →
  impl_result st (on_cores cs t) (fold_cores f cs st).
Proof using All.
  intros Hnd. revert st t. induction Hnd as [|c cs Hc Hnd IH]; intros st t Hcs Hr Hm Hp.
  - exists st. split_and!; [done| |done]. eapply rep_proper; [|exact Hr].
    intros k p c Hpp Hcc. unfold on_cores. rewrite decide_False; [done|].
    intros (_ & _ & H). by apply not_elem_of_nil in H.
  - apply Forall_cons in Hcs as [Hc0 Hcs]. apply Forall_cons in Hp as [Hp0 Hp]. cbn [fold_cores].
    destruct (Hf st t c Hc0 Hr Hm Hp0) as (st1 & -> & Hr1 & Hm1). cbn [mbind option_bind].
    destruct (IH st1 _ Hcs Hr1) as (st2 & E2 & Hr2 & Hm2).
    + by eapply same_members_trans.
    + rewrite Forall_forall in Hp |- *. intros x Hx. eapply Hpre; [|by apply Hp].
      intros k' p' _. rewrite change_other; [done|]. by intros ->.
    + exists st2. split_and!; [done| |by eapply same_members_trans].
      eapply rep_proper; [|exact Hr2]. intros k p c' Hpp Hcc. unfold on_cores.
      rewrite change_at by done. destruct (decide (c' = c)) as [->|Hne].
      * rewrite (decide_False (P := _ ∧ _ ∧ c ∈ cs)) by tauto.
        destruct (decide (k = kd c ∧ p = prio)) as [[-> ->]|Hk].
        -- by rewrite !decide_True by set_solver.
        -- rewrite !decide_False; [done|tauto|tauto].
      * rewrite (decide_False (P := _ ∧ _ ∧ c' = c)) by tauto.
        destruct (decide (k = kd c' ∧ p = prio ∧ c' ∈ c :: cs)) as [(? & ? & Hin)|Hn].
        -- rewrite decide_True; [done|]. set_solver.
        -- rewrite decide_False; [done|]. set_solver.
Qed.
End fold.

Section both.
Context (i : Info) (Hi : info_ok i) (g : Kind → list Z → list Z) (st0 : State)
        (fs fg : Z → State → option State) (Pre : Kind → table → Z → Prop).
Context (Hpre : ∀ k t t' c, (∀ k' p', prio_ok p' → t k' p' c = t' k' p' c) → Pre k t c → Pre k t' c)
        (Hfs : ∀ st t c, core_ok c → rep st t → same_members st0 st → Pre Scheduled t c →
           impl_result st (change Scheduled (i_priority i) c (g Scheduled) t) (fs c st))
        (Hfg : ∀ st t c, core_ok c → rep st t → same_members st0 st → Pre Suggested t c →
           impl_result st (change Suggested (i_priority i) c (g Suggested) t) (fg c st)).

(** What [Pre] must hold for: the slots of [i]. *)
Definition pre_slots (t : table) : Prop := ∀ k c, core_ok c →
  match k with
  | Scheduled => c = i_core i
  | Suggested => Z.testbit (i_affinity i) c = true ∧ c ≠ i_core i
  end → Pre k t c.

Lemma at_both_ok st t :
  rep st t → same_members st0 st → pre_slots t →
  impl_result st (on_slots i g t) (at_both fs fg (i_core i) (i_affinity i) st).
Proof using All.
  intros Hr Hm HP. destruct Hi as (Hpr & Hc4 & Ha & Hca). unfold at_both.
  assert (∀ st t', rep st t' → same_members st0 st →
    (∀ k p c, prio_ok p → core_ok c → c ≠ i_core i → t' k p c = t k p c) →
    impl_result st (on_cores (i_priority i) (λ _, Suggested) g (suggested_cores i) t') (fold_cores fg (suggested_cores i) st)) as Hsug.
  { intros st1 t' Hr1 Hm1 Ht'. apply (fold_cores_ok _ _ _ st0 _ Pre); [done..|apply NoDup_filter, NoDup_cores| |done|done|].
    - apply Forall_forall. intros c [_ Hc]%list_elem_of_filter. by apply elem_cores in Hc as [? _].
    - apply Forall_forall. intros c [Hne Hc]%list_elem_of_filter. apply elem_cores in Hc as [Hc Hb].
      eapply Hpre; [|by apply (HP Suggested c)]. intros k' p' Hp'. by rewrite Ht'. }
  assert (∀ c, c ∈ suggested_cores i ↔ core_ok c ∧ Z.testbit (i_affinity i) c = true ∧ c ≠ i_core i) as Hel.
  { intros c. unfold suggested_cores. rewrite list_elem_of_filter, elem_cores. tauto. }
  assert (∀ t', (∀ k p c, prio_ok p → core_ok c →
       t' k p c = if decide (k = Scheduled ∧ p = i_priority i ∧ c = i_core i) then g k (t k p c) else t k p c) →
    table_eq (on_cores (i_priority i) (λ _, Suggested) g (suggested_cores i) t') (on_slots i g t)) as Hfin.
  { intros t' Ht' k p c Hp Hc. unfold on_cores, on_slots, in_slot. rewrite !Ht' by done.
    destruct (Z.eqb_spec p (i_priority i)) as [->|Hpne]; cbn [andb].
    - destruct k.
      + rewrite (decide_False (P := Scheduled = Suggested ∧ _)) by (by intros [? _]).
        destruct (Z.eqb_spec c (i_core i)) as [->|]; [by rewrite decide_True|rewrite decide_False; [done|tauto]].
      + rewrite (decide_False (P := Suggested = Scheduled ∧ _)) by (by intros [? _]).
        destruct (Z.testbit (i_affinity i) c) eqn:Eb; destruct (Z.eqb_spec c (i_core i)) as [->|]; cbn [andb negb].
        * rewrite decide_False; [done|]. rewrite Hel. tauto.
        * rewrite decide_True; [done|]. rewrite Hel. tauto.
        * rewrite decide_False; [done|]. rewrite Hel. tauto.
        * rewrite decide_False; [done|]. rewrite Hel. intros (_ & _ & _ & ? & _). congruence.
    - rewrite !decide_False; [done|tauto|tauto]. }
  destruct (Z.leb_spec 0 (i_core i)) as [Hc0|Hc0].
  - assert (core_ok (i_core i)) as Hc by done.
    destruct (Hfs st t (i_core i) Hc Hr Hm) as (st1 & -> & Hr1 & Hm1); [by apply HP|].
    cbn [mbind option_bind]. destruct (ClearAffinityBit_cores _ _ Ha Hc) as [Ha' Ecs].
    rewrite affinity_loop_cores, Ecs by done.
    destruct (Hsug st1 _ Hr1) as (st2 & E2 & Hr2 & Hm2);
      [by eapply same_members_trans|intros; by rewrite change_other|].
    exists st2. split_and!; [done| |by eapply same_members_trans].
    eapply rep_proper; [|exact Hr2]. symmetry. apply Hfin. intros k p c Hp Hcc. unfold change.
    destruct (Z.leb_spec (i_priority i) 63); unfold upd.
    + case_decide as E; [|done]. by destruct E as (-> & -> & ->).
    + rewrite decide_False; [done|]. unfold prio_ok in *. lia.
  - cbn [mbind option_bind]. rewrite affinity_loop_cores by done.
    replace (cores (i_affinity i)) with (suggested_cores i).
    + rewrite <-(Hfin t); [by apply Hsug|]. intros k p c Hp Hcc. rewrite decide_False; [done|].
      unfold core_ok in *. lia.
    + unfold suggested_cores. apply filter_id. intros c [Hc _]%elem_cores. unfold core_ok in *. lia.
Qed.

(** The loops of [ChangeAffinityMask] visit the cores in order, the active one among them. *)
Definition slot_kind (c : Z) : Kind := if c =? i_core i then Scheduled else Suggested.

Lemma mixed_loop_ok st t :
  rep st t → same_members st0 st → pre_slots t →
  impl_result st (on_slots i g t)
    (fold_cores (λ c, if c =? i_core i then fs c else fg c) (cores (i_affinity i)) st).
Proof using All.
  intros Hr Hm HP. destruct Hi as (Hpr & Hc4 & Ha & Hca).
  apply (impl_result_ext st (on_cores (i_priority i) slot_kind g (cores (i_affinity i)) t));
    [|apply (fold_cores_ok (i_priority i) slot_kind g st0 _ Pre); try done].
  - intros k p c Hp Hc. unfold on_slots, on_cores, in_slot, slot_kind. pose proof (elem_cores (i_affinity i) c) as Hel.
    destruct (Z.eqb_spec p (i_priority i)) as [->|Hne]; cbn [andb]; [|by rewrite decide_False by tauto].
    destruct (Z.eqb_spec c (i_core i)) as [->|Hne], k; cbn [negb]; rewrite ?andb_false_r, ?andb_true_r.
    + rewrite decide_True; [done|]. split_and!; [done|done|]. apply Hel. split; [done|]. apply Hca, Hc.
    + by rewrite decide_False by (by intros [? _]).
    + by rewrite decide_False by (by intros [? _]).
    + destruct (Z.testbit (i_affinity i) c); [by rewrite decide_True by tauto|].
      rewrite decide_False; [done|]. intros (_ & _ & H). by apply Hel in H as [_ ?].
  - intros st1 t1 c Hc Hr1 Hm1. unfold slot_kind. destruct (c =? i_core i); [by apply Hfs|by apply Hfg].
  - apply NoDup_cores.
  - apply Forall_forall. intros c Hc. by apply elem_cores in Hc as [? _].
  - apply Forall_forall. intros c [Hc Hb]%elem_cores. unfold slot_kind.
    destruct (Z.eqb_spec c (i_core i)); by apply HP.
Qed.
End both.

(** The push and the removal of a member, in the queues of its slots. *)
Definition pushed (front : bool) (i : Info) (m : Z) : table → table :=
  on_slots i (λ k l, if front && bool_decide (k = Scheduled) then m :: l else l ++ [m]).

Definition member_at (m : Z) (mm : Member) (i : Info) (st : State) : Prop :=
  members st !! m = Some mm ∧ i_core i = GetActiveCore mm ∧ i_affinity i = GetAffinityMask mm
  ∧ m ≠ 0 ∧ info_ok i.

Lemma member_lookup st0 st m mm : same_members st0 st → members st0 !! m = Some mm → is_Some (members st !! m).
Proof. intros Hm E. apply (same_members_Some st0 st); [done|by exists mm]. Qed.

Lemma at_check {A} (i : Info) (f : option A) :
  info_ok i → (check (IsValidPriority (i_priority i));; f) = f.
Proof.
  intros ([Hp0 Hp1] & _). unfold IsValidPriority, HighestPriority, LowestPriority.
  by rewrite check_bind_Some by lia.
Qed.

Definition absent (m : Z) (k : Kind) (t : table) (c : Z) : Prop := ∀ k' p', prio_ok p' → m ∉ t k' p' c.
Definition present (m p : Z) (k : Kind) (t : table) (c : Z) : Prop := p ≤ 63 → m ∈ t k p c.

Lemma absent_ext m k t t' c :
  (∀ k' p', prio_ok p' → t k' p' c = t' k' p' c) → absent m k t c → absent m k t' c.
Proof. intros H Ha k' p' Hp. rewrite <-H by done. by apply Ha. Qed.

Lemma present_ext m p k t t' c : 0 ≤ p →
  (∀ k' p', prio_ok p' → t k' p' c = t' k' p' c) → present m p k t c → present m p k t' c.
Proof. intros Hp0 H Ha Hp. rewrite <-H by (unfold prio_ok; lia). by apply Ha. Qed.

Lemma push_at_ok (running : bool) st t m mm i :
  rep st t → member_at m mm i st → (∀ k p c, prio_ok p → core_ok c → m ∉ t k p c) →
  impl_result st (pushed running i m t)
    (if running then PushFront_at (i_priority i) m st else PushBack_at (i_priority i) m st).
Proof.
  intros Hr (E & Ec & Ea & Hm0 & Hi) Hm. pose proof Hi as ([Hp0 Hp1] & _).
  assert (impl_result st (pushed running i m t)
    (at_both (λ c, (if running then KPriorityQueueImpl.PushFront else KPriorityQueueImpl.PushBack)
                     Scheduled (i_priority i) c m)
             (λ c, KPriorityQueueImpl.PushBack Suggested (i_priority i) c m) (i_core i) (i_affinity i) st)) as H.
  { apply (at_both_ok i Hi _ st _ _ (absent m)); [apply absent_ext| | |done|done|].
    - intros st1 t1 c Hc Hr1 Hm1 Hab. pose proof (member_lookup _ _ _ _ Hm1 E) as Hs.
      destruct running; [by apply Impl_PushFront_ok|by apply Impl_PushBack_ok].
    - intros st1 t1 c Hc Hr1 Hm1 Hab. rewrite (bool_decide_eq_false_2 (Suggested = Scheduled)) by done.
      rewrite andb_false_r. apply Impl_PushBack_ok; try done. by eapply member_lookup.
    - intros k c Hc _ k' p' Hp'. by apply Hm. }
  rewrite Ec, Ea in H.
  destruct running; unfold PushFront_at, PushBack_at; rewrite at_check, E by done; exact H.
Qed.

Lemma Remove_at_ok st t m mm i :
  rep st t → member_at m mm i st →
  (∀ k p c, prio_ok p → core_ok c → in_slot i k p c = true → m ∈ t k p c) →
  impl_result st (on_slots i (λ _, without m) t) (Remove_at (i_priority i) m st).
Proof.
  intros Hr (E & Ec & Ea & Hm0 & Hi) Hm. pose proof Hi as ([Hp0 Hp1] & _).
  unfold Remove_at. rewrite at_check, E by done. cbn [mbind option_bind]. rewrite <-Ec, <-Ea.
  apply (at_both_ok i Hi _ st (λ c, KPriorityQueueImpl.Remove Scheduled (i_priority i) c m)
    (λ c, KPriorityQueueImpl.Remove Suggested (i_priority i) c m) (present m (i_priority i)));
    [intros; by eapply present_ext| | |done|done|].
  - intros st1 t1 c Hc Hr1 Hm1 Hp. by apply Impl_Remove_ok.
  - intros st1 t1 c Hc Hr1 Hm1 Hp. by apply Impl_Remove_ok.
  - intros k c Hc Hk Hp. apply Hm; [unfold prio_ok; lia|done|]. unfold in_slot. rewrite Z.eqb_refl. cbn [andb].
    destruct k; [by apply Z.eqb_eq|]. destruct Hk as [-> Hne]. by rewrite (proj2 (Z.eqb_neq _ _)).
Qed.

(** * The members that are queued *)

(** [M] gives, for each queued member, the data it was queued with. *)
Definition placed (t : table) (M : gmap Z Info) : Prop := ∀ k p c x, prio_ok p → core_ok c →
  x ∈ t k p c ↔ ∃ i, M !! x = Some i ∧ in_slot i k p c = true.

Definition taken (m : Z) (t : table) : table := λ k p c, without m (t k p c).

Lemma without_absent m l : m ∉ l → without m l = l.
Proof. intros Hm. apply filter_id. set_solver. Qed.

Lemma on_slots_taken t M m i :
  placed t M → M !! m = Some i → table_eq (on_slots i (λ _, without m) t) (taken m t).
Proof.
  intros HM Em k p c Hp Hc. unfold on_slots, taken. destruct (in_slot i k p c) eqn:Es; [done|].
  rewrite without_absent; [done|]. intros (i' & E' & Hs)%HM; [|done..]. congruence.
Qed.

Lemma placed_absent t M m : placed t M → M !! m = None → ∀ k p c, prio_ok p → core_ok c → m ∉ t k p c.
Proof. intros HM Em k p c Hp Hc (i & E & _)%HM; [|done..]. congruence. Qed.

Lemma placed_taken t M m : placed t M → placed (taken m t) (delete m M).
Proof.
  intros HM k p c x Hp Hc. unfold taken. rewrite elem_without, (HM k p c x Hp Hc).
  split; [intros [(i & E & Hs) Hne]|intros (i & [Hne E]%lookup_delete_Some & Hs)].
  - exists i. rewrite lookup_delete_ne by done. done.
  - split; [by exists i|done].
Qed.

Lemma placed_pushed t M m i front :
  placed t M → M !! m = None → placed (pushed front i m t) (<[m := i]> M).
Proof.
  intros HM Em k p c x Hp Hc. unfold pushed, on_slots.
  assert (x ∈ (if in_slot i k p c then (if front && bool_decide (k = Scheduled) then m :: t k p c
                                       else t k p c ++ [m]) else t k p c)
          ↔ x ∈ t k p c ∨ x = m ∧ in_slot i k p c = true) as ->.
  { destruct (in_slot i k p c); [destruct (front && _)|]; set_solver. }
  rewrite (HM k p c x Hp Hc). destruct (decide (x = m)) as [->|Hne].
  - rewrite Em, lookup_insert_eq. naive_solver.
  - rewrite lookup_insert_ne by done. naive_solver.
Qed.

(** * The public operations *)
Inductive Op :=
  | OpPushBack
  | OpRemove
  | OpMoveToScheduledFront
  | OpMoveToScheduledBack
  | OpChangePriority (prev_priority : Z) (is_running : bool)
  | OpChangeAffinityMask (prev_core prev_affinity : Z)
  | OpChangeCore (prev_core : Z) (to_front : bool).

Definition run (op : Op) (m : Z) (st : State) : option State :=
  match op with
  | OpPushBack => PushBack m st
  | OpRemove => Remove m st
  | OpMoveToScheduledFront => MoveToScheduledFront m st
  | OpMoveToScheduledBack => snd <$> MoveToScheduledBack m st
  | OpChangePriority prev running => ChangePriority prev running m st
  | OpChangeAffinityMask prev_core prev_affinity => ChangeAffinityMask prev_core prev_affinity m st
  | OpChangeCore prev_core to_front => ChangeCore prev_core m to_front st
  end.

(** When an operation may be called on a member whose current data are [i]: [None] stands for
    a member that is not queued, and the change operations are told the old value of what has
    changed since the member was queued. *)
Definition called_with (op : Op) (i : Info) (queued : option Info) : Prop :=
  match op with
  | OpPushBack => queued = None
  | OpRemove => queued = Some i
  | OpMoveToScheduledFront | OpMoveToScheduledBack => queued = Some i ∧ 0 ≤ i_core i
  | OpChangePriority prev _ =>
      queued = Some {| i_priority := prev; i_core := i_core i; i_affinity := i_affinity i |}
  | OpChangeAffinityMask prev_core prev_affinity =>
      queued = Some {| i_priority := i_priority i; i_core := prev_core; i_affinity := prev_affinity |}
  | OpChangeCore prev_core _ =>
      queued = Some {| i_priority := i_priority i; i_core := prev_core; i_affinity := i_affinity i |}
  end.

(** The effect on the table. *)
Definition effect (op : Op) (i : Info) (m : Z) (t : table) : table :=
  match op with
  | OpPushBack => pushed false i m t
  | OpRemove => taken m t
  | OpMoveToScheduledFront => change Scheduled (i_priority i) (i_core i) (λ l, m :: without m l) t
  | OpMoveToScheduledBack => change Scheduled (i_priority i) (i_core i) (λ l, without m l ++ [m]) t
  | OpChangePriority _ running => pushed running i m (taken m t)
  | OpChangeAffinityMask _ _ => pushed false i m (taken m t)
  | OpChangeCore prev_core to_front =>
      if prev_core =? i_core i then t
      else λ k p c, if (c =? prev_core) || (c =? i_core i) then pushed to_front i m (taken m t) k p c
                    else t k p c
  end.

Definition queued_after (op : Op) (i : Info) (m : Z) (M : gmap Z Info) : gmap Z Info :=
  match op with OpRemove => delete m M | _ => <[m := i]> M end.

(** ** ChangeAffinityMask *)
Lemma GetAffinity_ok c a : core_ok c → AffinityMask.GetAffinity c a = Some (Z.testbit a c).
Proof.
  unfold core_ok, AffinityMask.GetAffinity, AffinityMask.GetCoreBit, NumCores. intros Hc.
  rewrite check_bind_Some by lia. cbn [mbind option_bind]. by rewrite land_mask_0, negb_involutive by lia.
Qed.

Lemma affinity_remove_cores core a p m st :
  in_width 4 a →
  affinity_remove_loop (Z.to_nat NumCores) 0 core a p m st
  = fold_cores (λ c, if c =? core then KPriorityQueueImpl.Remove Scheduled p c m
                     else KPriorityQueueImpl.Remove Suggested p c m) (cores a) st.
Proof. intros H%small_cases. all_cases H; destruct core as [|[[]|[]|]|]; reflexivity. Qed.

Lemma affinity_push_cores core a p m st :
  in_width 4 a →
  affinity_push_loop (Z.to_nat NumCores) 0 core a p m st
  = fold_cores (λ c, if c =? core then KPriorityQueueImpl.PushBack Scheduled p c m
                     else KPriorityQueueImpl.PushBack Suggested p c m) (cores a) st.
Proof. intros H%small_cases. all_cases H; destruct core as [|[[]|[]|]|]; reflexivity. Qed.

(** * Each operation *)
Section operation.
Context (st : State) (t : table) (M : gmap Z Info) (m : Z) (mm : Member).
Context (Hr : rep st t) (HM : placed t M) (E : members st !! m = Some mm) (Hm0 : m ≠ 0)
        (Hi : info_ok (info_of mm)).

Lemma queued_slots i : M !! m = Some i → ∀ k p c, prio_ok p → core_ok c →
  m ∈ t k p c ↔ in_slot i k p c = true.
Proof using HM. intros Em k p c Hp Hc. rewrite (HM k p c m Hp Hc), Em. naive_solver. Qed.

Lemma take_out i :
  M !! m = Some i → i_core i = GetActiveCore mm → i_affinity i = GetAffinityMask mm → info_ok i →
  impl_result st (taken m t) (Remove_at (i_priority i) m st).
Proof using Hr HM E Hm0.
  intros Em Ec Ea Hio. apply (impl_result_ext _ (on_slots i (λ _, without m) t)); [by eapply on_slots_taken|].
  apply (Remove_at_ok st t m mm); [done|by split_and!|]. intros k p c Hp Hc Hs. by apply (queued_slots i).
Qed.

(** The state between the two halves of a change. *)
Lemma push_again st1 running :
  rep st1 (taken m t) → same_members st st1 →
  impl_result st (pushed running (info_of mm) m (taken m t))
    (if running then PushFront_at (GetPriority mm) m st1 else PushBack_at (GetPriority mm) m st1).
Proof using E Hm0 Hi.
  intros Hr1 Hm1. destruct (same_members_lookup st st1 m mm Hm1 E) as (mm1 & E1 & Es).
  injection Es as Ea Ec Ep Ed.
  destruct (push_at_ok running st1 (taken m t) m mm1 (info_of mm)) as (st2 & E2 & Hr2 & Hm2); [done| | |].
  - split_and!; done.
  - intros k p c Hp Hc. unfold taken. rewrite elem_without. tauto.
  - exists st2. split_and!; [done|done|by eapply same_members_trans].
Qed.

Lemma ChangePriority_ok prev running :
  M !! m = Some {| i_priority := prev; i_core := GetActiveCore mm; i_affinity := GetAffinityMask mm |} →
  info_ok {| i_priority := prev; i_core := GetActiveCore mm; i_affinity := GetAffinityMask mm |} →
  IsDummyThread mm = false →
  impl_result st (pushed running (info_of mm) m (taken m t)) (ChangePriority prev running m st).
Proof using All.
  intros Em Hio Ed. unfold ChangePriority. rewrite E. cbn [mbind option_bind]. rewrite Ed.
  rewrite (at_check _ _ Hio : (check (IsValidPriority prev);; _) = _).
  destruct (take_out _ Em eq_refl eq_refl Hio) as (st1 & E1 & Hr1 & Hm1).
  cbn [i_priority] in E1. rewrite E1. cbn [mbind option_bind]. by apply push_again.
Qed.

Lemma ChangeAffinityMask_ok core a :
  M !! m = Some {| i_priority := GetPriority mm; i_core := core; i_affinity := a |} →
  info_ok {| i_priority := GetPriority mm; i_core := core; i_affinity := a |} →
  IsDummyThread mm = false →
  impl_result st (pushed false (info_of mm) m (taken m t)) (ChangeAffinityMask core a m st).
Proof using All.
  intros Em Hio Ed. unfold ChangeAffinityMask. rewrite E. cbn [mbind option_bind]. rewrite Ed.
  set (i := {| i_priority := _ |}) in *. pose proof Hio as ([Hp0 Hp1] & _ & Ha & _).
  rewrite affinity_remove_cores by exact Ha.
  destruct (mixed_loop_ok i Hio (λ _, without m) st
    (λ c, KPriorityQueueImpl.Remove Scheduled (GetPriority mm) c m)
    (λ c, KPriorityQueueImpl.Remove Suggested (GetPriority mm) c m) (present m (GetPriority mm)))
    with (st := st) (t := t) as (st1 & E1 & Hr1 & Hm1); try done.
  { intros. by eapply present_ext. }
  { intros st1 t1 c Hc Hr1 Hm1 Hp. by apply Impl_Remove_ok. }
  { intros st1 t1 c Hc Hr1 Hm1 Hp. by apply Impl_Remove_ok. }
  { intros k c Hc Hk Hp. apply (queued_slots i Em); [unfold prio_ok; simpl in *; lia|done|]. unfold in_slot.
    rewrite Z.eqb_refl. cbn [andb]. destruct k; [by apply Z.eqb_eq|]. destruct Hk as [-> Hne].
    by rewrite (proj2 (Z.eqb_neq _ _)). }
  unfold i in E1. cbn [i_core i_affinity] in E1. rewrite E1. cbn [mbind option_bind].
  rewrite (on_slots_taken t M m i HM Em) in Hr1.
  pose proof Hi as (_ & _ & Ha' & _). rewrite affinity_push_cores by exact Ha'.
  destruct (mixed_loop_ok (info_of mm) Hi (λ _ l, l ++ [m]) st1
    (λ c, KPriorityQueueImpl.PushBack Scheduled (GetPriority mm) c m)
    (λ c, KPriorityQueueImpl.PushBack Suggested (GetPriority mm) c m) (absent m))
    with (st := st1) (t := taken m t) as (st2 & E2 & Hr2 & Hm2); try done.
  { apply absent_ext. }
  1,2: intros st2 t2 c Hc Hr2 Hm2 Hab; apply Impl_PushBack_ok; try done;
    apply (same_members_Some st1 st2); [done|]; by apply (member_lookup st st1 m mm).
  { intros k c Hc _ k' p' Hp'. unfold taken. rewrite elem_without. tauto. }
  exists st2. split_and!; [exact E2|exact Hr2|by eapply same_members_trans].
Qed.

Lemma without_push_back l : m ∉ l → without m l ++ [m] = l ++ [m].
Proof. intros H. by rewrite without_absent. Qed.

(** The four table changes of [ChangeCore], together. *)
Lemma ChangeCore_table prev front :
  let i0 := {| i_priority := GetPriority mm; i_core := prev; i_affinity := GetAffinityMask mm |} in
  let i := info_of mm in
  M !! m = Some i0 → info_ok i0 → prev ≠ GetActiveCore mm →
  table_eq (effect (OpChangeCore prev front) i m t)
    (let t1 := if 0 <=? prev then change Scheduled (GetPriority mm) prev (without m) t else t in
     let t2 := if 0 <=? GetActiveCore mm then
                 change Scheduled (GetPriority mm) (GetActiveCore mm)
                   (λ l, if front : bool then m :: l else l ++ [m])
                   (change Suggested (GetPriority mm) (GetActiveCore mm) (without m) t1)
               else t1 in
     if 0 <=? prev then change Suggested (GetPriority mm) prev (λ l, l ++ [m]) t2 else t2).
Proof using Hr HM E Hi.
  intros i0 i Em Hio Hne k p c Hp Hc. cbv zeta. unfold effect.
  rewrite (proj2 (Z.eqb_neq prev (i_core i))) by done.
  pose proof Hio as (_ & _ & _ & Hb0). pose proof Hi as (_ & _ & _ & Hb). simpl in Hb0, Hb.
  pose proof (queued_slots i0 Em k p c Hp Hc) as Hq. unfold in_slot in Hq. cbn [i0 i_priority i_core i_affinity] in Hq.
  unfold pushed, on_slots, in_slot, taken. cbn [i info_of i_priority i_core i_affinity].
  destruct (p =? GetPriority mm) eqn:Ep; [|].
  2: { assert (m ∉ t k p c) as Hm by (rewrite Hq; by intros ?).
    destruct (0 <=? prev), (0 <=? GetActiveCore mm); rewrite ?change_kind, ?Ep by done;
      cbn [andb]; rewrite ?andb_false_r, ?without_absent by done; by destruct (_ || _). }
  destruct (Z.eqb_spec c prev) as [->|Hcp]; [|destruct (Z.eqb_spec c (GetActiveCore mm)) as [Hcn|Hcn]].
  - rewrite (proj2 (Z.leb_le 0 prev)), (proj2 (Z.eqb_neq prev (GetActiveCore mm))) in * by (done || apply Hc).
    destruct k, (0 <=? GetActiveCore mm); rewrite ?change_kind, ?Ep, ?Z.eqb_refl, ?(proj2 (Z.eqb_neq prev (GetActiveCore mm)) Hne) by done;
      cbn [andb orb negb same_kind]; rewrite ?Hb0 by apply Hc; cbn [andb orb negb].
    1,2: done.
    all: rewrite (bool_decide_eq_false_2 (Suggested = Scheduled)), andb_false_r by done;
      apply without_push_back; rewrite Hq, ?Z.eqb_refl; cbn [negb]; rewrite ?andb_false_r; done.
  - rewrite (proj2 (Z.leb_le 0 (GetActiveCore mm))) by (rewrite <-Hcn; apply Hc).
    assert (m ∉ t Scheduled p c) as Hms.
    { rewrite (queued_slots i0 Em Scheduled p c Hp Hc). unfold in_slot. simpl.
      rewrite (proj2 (Z.eqb_neq c prev)), andb_false_r by done. done. }
    destruct k, (0 <=? prev); rewrite ?change_kind, ?Ep, <-?Hcn, ?Z.eqb_refl, ?(proj2 (Z.eqb_neq c prev) Hcp) by done;
      cbn [andb orb negb same_kind]; rewrite ?andb_false_r, ?(without_absent m (t Scheduled p c)) by done;
      rewrite ?(bool_decide_eq_true_2 (Scheduled = Scheduled)), ?andb_true_r by done; done.
  - destruct k, (0 <=? prev), (0 <=? GetActiveCore mm); rewrite ?change_kind, ?(proj2 (Z.eqb_neq c prev) Hcp), ?(proj2 (Z.eqb_neq c (GetActiveCore mm)) Hcn), ?andb_false_r by done; done.
Qed.

Lemma impl_result_trans st1 st2 t2 r :
  same_members st1 st2 → impl_result st2 t2 r → impl_result st1 t2 r.
Proof using. intros Hm (st3 & ? & ? & ?). exists st3. split_and!; [done..|by eapply same_members_trans]. Qed.

Lemma ChangeCore_ok prev front :
  M !! m = Some {| i_priority := GetPriority mm; i_core := prev; i_affinity := GetAffinityMask mm |} →
  info_ok {| i_priority := GetPriority mm; i_core := prev; i_affinity := GetAffinityMask mm |} →
  IsDummyThread mm = false →
  impl_result st (effect (OpChangeCore prev front) (info_of mm) m t) (ChangeCore prev m front st).
Proof using All.
  intros Em Hio Ed. unfold ChangeCore. rewrite E. cbn [mbind option_bind]. rewrite Ed.
  destruct (Z.eqb_spec prev (GetActiveCore mm)) as [Heq|Hne]; cbn [negb].
  { exists st. split_and!; [done| |done]. unfold effect. simpl. by rewrite Heq, Z.eqb_refl. }
  eapply impl_result_ext; [symmetry; by apply ChangeCore_table|]. cbv zeta.
  set (i0 := {| i_priority := _ |}) in *. pose proof Hio as (Hp0 & Hc0 & _ & Hb0). simpl in Hp0, Hc0, Hb0.
  pose proof Hi as (_ & Hc1 & _ & Hb1). simpl in Hc1, Hb1.
  pose proof (λ k p c, queued_slots i0 Em k p c) as Hq.
  assert (∀ st1, same_members st st1 → is_Some (members st1 !! m)) as Hsome
    by (intros st1 Hm1; by apply (member_lookup st st1 m mm)).
  set (t1 := if 0 <=? prev then _ else t).
  assert (impl_result st t1 (if 0 <=? prev then
      KPriorityQueueImpl.Remove Scheduled (GetPriority mm) prev m st else Some st)) as (st1 & -> & Hr1 & Hm1).
  { unfold t1. destruct (Z.leb_spec 0 prev); [|by exists st]. apply Impl_Remove_ok; [done|done|done|].
    intros Hp. apply Hq; [by destruct Hp0; split; lia|done|]. unfold in_slot. simpl. by rewrite !Z.eqb_refl. }
  cbn [mbind option_bind].
  set (t2 := if 0 <=? GetActiveCore mm then _ else t1).
  assert (∀ k c u, core_ok c → (∀ k' p', prio_ok p' → u k' p' c = t k' p' c) →
    (∀ k' p', in_slot i0 k' p' c = true → k' = k) →
    ∀ k' p', prio_ok p' → m ∉ change k (GetPriority mm) c (without m) u k' p' c) as Hgone.
  { intros k c u Hc Hu Hk k' p' Hp'. rewrite change_at by done. case_decide as Es.
    - rewrite elem_without. tauto.
    - rewrite Hu, Hq by done. intros Hs. apply Es. rewrite (Hk _ _ Hs). unfold in_slot in Hs.
      apply andb_prop in Hs as [Hs%Z.eqb_eq _]. done. }
  assert (impl_result st t2 (if 0 <=? GetActiveCore mm then
      st' ← KPriorityQueueImpl.Remove Suggested (GetPriority mm) (GetActiveCore mm) m st1;
      if front then KPriorityQueueImpl.PushFront Scheduled (GetPriority mm) (GetActiveCore mm) m st'
      else KPriorityQueueImpl.PushBack Scheduled (GetPriority mm) (GetActiveCore mm) m st'
    else Some st1)) as (st2 & -> & Hr2 & Hm2).
  { unfold t2. destruct (Z.leb_spec 0 (GetActiveCore mm)); [|by exists st1].
    assert (∀ k' p', prio_ok p' → t1 k' p' (GetActiveCore mm) = t k' p' (GetActiveCore mm)) as Ht1.
    { intros k' p' _. unfold t1. destruct (0 <=? prev); [|done]. by rewrite change_other. }
    destruct (Impl_Remove_ok st1 t1 Suggested (GetPriority mm) (GetActiveCore mm) m) as (st' & -> & Hr' & Hm');
      [done|done|done| |].
    { intros Hp. rewrite Ht1 by (destruct Hp0; split; lia). apply Hq; [by destruct Hp0; split; lia|done|].
      unfold in_slot. simpl. rewrite Z.eqb_refl, Hb1, (proj2 (Z.eqb_neq _ _)) by done. done. }
    cbn [mbind option_bind].
    assert (same_members st st') as Hms by by eapply same_members_trans.
    apply (impl_result_trans st st'); [done|].
    assert (∀ k' p', prio_ok p' →
      m ∉ change Suggested (GetPriority mm) (GetActiveCore mm) (without m) t1 k' p' (GetActiveCore mm)) as Habs.
    { apply Hgone; [done|done|]. intros [] p'; [|done]. unfold in_slot. simpl.
      rewrite (proj2 (Z.eqb_neq _ prev)) by done. by rewrite andb_false_r. }
    destruct front; [apply Impl_PushFront_ok|apply Impl_PushBack_ok]; try done; by apply Hsome. }
  cbn [mbind option_bind]. destruct (Z.leb_spec 0 prev); [|by exists st2].
  apply (impl_result_trans st st2); [done|]. apply Impl_PushBack_ok; try done; [by apply Hsome|].
  intros k' p' Hp'. assert (t2 k' p' prev = t1 k' p' prev) as ->.
  { unfold t2. destruct (0 <=? GetActiveCore mm); [|done]. by rewrite !change_other by done. }
  unfold t1. apply Hgone; [done|done| |done].
  intros [] p''; [done|]. unfold in_slot. simpl. rewrite Z.eqb_refl. by rewrite !andb_false_r.
Qed.

Lemma scheduled_there :
  M !! m = Some (info_of mm) → 0 ≤ GetActiveCore mm → GetPriority mm ≤ 63 →
  m ∈ t Scheduled (GetPriority mm) (GetActiveCore mm).
Proof using HM Hi.
  intros Em Hc0 Hp. pose proof Hi as ([Hp0 _] & Hc4 & _). simpl in Hp0, Hc4.
  apply (queued_slots _ Em); [split; lia|by split|]. unfold in_slot. simpl. by rewrite !Z.eqb_refl.
Qed.

Lemma run_ok op :
  (∀ i, M !! m = Some i → info_ok i) → IsDummyThread mm = false →
  called_with op (info_of mm) (M !! m) → impl_result st (effect op (info_of mm) m t) (run op m st).
Proof using All.
  intros HiM Ed Hcall. pose proof Hi as (Hp & Hc4 & _ & _). destruct op; cbn [run called_with] in *.
  - unfold PushBack. rewrite E. cbn [mbind option_bind]. rewrite Ed.
    apply (push_at_ok false st t m mm (info_of mm)); [done|by split_and!|]. intros. by eapply placed_absent.
  - unfold Remove. rewrite E. cbn [mbind option_bind]. rewrite Ed. by apply (take_out (info_of mm)).
  - destruct Hcall as [Em Hc0]. unfold MoveToScheduledFront. rewrite E. cbn [mbind option_bind]. rewrite Ed.
    apply Impl_MoveToFront_ok; [done|by split|done|]. by apply scheduled_there.
  - destruct Hcall as [Em Hc0]. unfold MoveToScheduledBack. rewrite E. cbn [mbind option_bind]. rewrite Ed.
    destruct (Impl_MoveToBack_ok st t Scheduled (GetPriority mm) (GetActiveCore mm) m) as (front & H & _);
      [done|by split|done|by apply scheduled_there|exact H].
  - apply ChangePriority_ok; auto.
  - apply ChangeAffinityMask_ok; auto.
  - apply ChangeCore_ok; auto.
Qed.
End operation.

Lemma placed_ext t t' M : table_eq t t' → placed t M → placed t' M.
Proof. intros H HM k p c x Hp Hc. rewrite <-H by done. by apply HM. Qed.

(** Reordering a queue a member is in does not change who is where. *)
Lemma placed_moved t M m i l k p c :
  placed t M → M !! m = Some i → prio_ok p → core_ok c → in_slot i k p c = true →
  (∀ x, x ∈ l ↔ x ∈ t k p c ∨ x = m) → placed (upd k p c l t) (<[m := i]> M).
Proof.
  intros HM Em Hp Hc Hs Hl k' p' c' x Hp' Hc'. rewrite insert_id by done. unfold upd.
  case_decide as Ek; [|by apply HM]. destruct Ek as (-> & -> & ->). rewrite Hl, (HM k p c x Hp Hc). split.
  - intros [?| ->]; [done|by exists i].
  - by left.
Qed.

Lemma placed_move t M m i (l' : list Z → list Z) :
  placed t M → M !! m = Some i → 0 ≤ i_core i < 4 → priority_ok (i_priority i) →
  (∀ l x, m ∈ l → x ∈ l' l ↔ x ∈ l) →
  placed (change Scheduled (i_priority i) (i_core i) l' t) (<[m := i]> M).
Proof.
  intros HM Em Hc [Hp0 Hp1] Hl. unfold change. destruct (Z.leb_spec (i_priority i) 63); [|by rewrite insert_id].
  assert (prio_ok (i_priority i)) as Hp by (unfold prio_ok; lia).
  assert (in_slot i Scheduled (i_priority i) (i_core i) = true) as Hs
    by (unfold in_slot; by rewrite !Z.eqb_refl).
  assert (m ∈ t Scheduled (i_priority i) (i_core i)) as Hm by (apply (HM _ _ _ m Hp Hc); by exists i).
  apply placed_moved; try done. intros x. rewrite Hl by done. split; [by left|]. by intros [?| ->].
Qed.

Lemma placed_change t M m i0 i front :
  placed t M → M !! m = Some i0 → placed (pushed front i m (taken m t)) (<[m := i]> M).
Proof.
  intros HM Em. rewrite <-insert_delete_eq.
  apply placed_pushed; [by apply placed_taken|apply lookup_delete_eq].
Qed.

Lemma effect_placed t M m op i :
  placed t M → info_ok i → (∀ i, M !! m = Some i → info_ok i) → called_with op i (M !! m) →
  placed (effect op i m t) (queued_after op i m M).
Proof.
  intros HM Hi HiM Hcall. pose proof Hi as (Hp & Hc4 & _). destruct op; simpl in Hcall |- *.
  - by apply placed_pushed.
  - by apply placed_taken.
  - destruct Hcall as [Em Hc0]. apply placed_move; try done.
    intros l x Hm. rewrite elem_of_cons, elem_without. destruct (decide (x = m)); naive_solver.
  - destruct Hcall as [Em Hc0]. apply placed_move; try done.
    intros l x Hm. rewrite elem_of_app, elem_without, list_elem_of_singleton.
    destruct (decide (x = m)); naive_solver.
  - by eapply placed_change.
  - by eapply placed_change.
  - destruct (Z.eqb_spec prev_core (i_core i)) as [->|Hne]; [by rewrite insert_id by (by destruct i)|].
    pose proof (placed_change t M m _ i to_front HM Hcall) as HM'.
    intros k p c x Hpp Hc. destruct (Z.eqb_spec c prev_core), (Z.eqb_spec c (i_core i)); cbn [orb];
      try by apply HM'.
    rewrite (HM k p c x Hpp Hc). destruct (decide (x = m)) as [->|Hx].
    + rewrite Hcall, lookup_insert_eq.
      assert (∀ i', (∃ j, Some i' = Some j ∧ in_slot j k p c = true) ↔ in_slot i' k p c = true) as Hex
        by naive_solver.
      rewrite !Hex. unfold in_slot. simpl.
      by rewrite (proj2 (Z.eqb_neq c prev_core)), (proj2 (Z.eqb_neq c (i_core i))) by done.
    + by rewrite lookup_insert_ne.
Qed.

(** * The order of a core's members *)

(** The members of a kind at a core from priority [p] down to the lowest. *)
Definition from (k : Kind) (c : Z) (t : table) (p : Z) : list Z :=
  seqZ p (64 - p) ≫= λ q, t k q c.
Definition order (k : Kind) (c : Z) (t : table) : list Z := from k c t 0.

Lemma from_cons k c t p : 0 ≤ p < 64 → from k c t p = t k p c ++ from k c t (p + 1).
Proof.
  intros Hp. unfold from. rewrite seqZ_cons by lia.
  replace (Z.pred (64 - p)) with (64 - (p + 1)) by lia. by replace (Z.succ p) with (p + 1) by lia.
Qed.

Lemma from_end k c t : from k c t 64 = [].
Proof. done. Qed.

Lemma from_skip k c t p q :
  0 ≤ p ≤ q → q ≤ 64 → (∀ r, p ≤ r < q → t k r c = []) → from k c t p = from k c t q.
Proof.
  intros Hpq Hq. remember (Z.to_nat (q - p)) as n eqn:En. revert p Hpq En.
  induction n as [|n IH]; intros p Hpq En He; [by replace q with p by lia|].
  rewrite from_cons, He by lia. simpl. apply IH; [lia|lia|]. intros r Hr. apply He. lia.
Qed.

Lemma log2_top w : in_width 64 w → w ≠ 0 →
  0 ≤ Z.log2 w < 64 ∧ Z.testbit w (Z.log2 w) = true ∧ ∀ j, Z.log2 w < j → Z.testbit w j = false.
Proof.
  intros [H0 H1] Hne. split_and!.
  - apply Z.log2_nonneg.
  - apply Z.log2_lt_pow2; lia.
  - apply Z.bit_log2. lia.
  - intros j Hj. apply Z.bits_above_log2; lia.
Qed.

Lemma CountLeadingZero_ok w :
  in_width 64 w →
  let q := BitSet.CountLeadingZero [w] in
  0 ≤ q ≤ 64 ∧ (q < 64 → Z.testbit w (63 - q) = true) ∧ ∀ r, 0 ≤ r < q → Z.testbit w (63 - r) = false.
Proof.
  intros Hw. unfold BitSet.CountLeadingZero, BitSet.CountLeadingZero_loop, BitSet.CountLeadingZeroImpl,
    countl_zero, BitSet.FlagsPerWord. destruct (Z.eqb_spec w 0) as [->|Hne]; cbn [negb].
  - split_and!; try lia. intros. apply Z.bits_0.
  - destruct (log2_top w Hw Hne) as (Hr & Hb & Ha). cbv zeta. split_and!; [lia|lia| |].
    + intros _. by replace (63 - _) with (Z.log2 w) by lia.
    + intros r Hr'. apply Ha. lia.
Qed.

Lemma GetNextSet_ok w n :
  in_width 64 w → 0 ≤ n < 64 →
  let q := BitSet.GetNextSet n [w] in
  n < q ≤ 64 ∧ (q < 64 → Z.testbit w (63 - q) = true) ∧ ∀ r, n < r < q → Z.testbit w (63 - r) = false.
Proof.
  intros Hw Hn. destruct (decide (n = 63)) as [->|Hne].
  { change (BitSet.GetNextSet 63 [w]) with 64. cbv zeta. split_and!; intros; lia. }
  unfold BitSet.GetNextSet, BitSet.FlagsPerWord. rewrite Z.div_small by lia. change (drop (Z.to_nat 0) [w]) with [w]. cbn [BitSet.GetNextSet_loop].
  unfold BitSet.GetBitMask, BitSet.CountLeadingZeroImpl, BitSet.FlagsPerWord.
  rewrite !Z.mod_small by lia. rewrite (proj2 (Z.eqb_neq (n + 1) 0)) by lia. cbn [negb].
  rewrite Z.shiftl_1_l, Z.sub_1_r, <-Z.ones_equiv. replace (64 - 1 - n) with (63 - n) by lia.
  set (v := Z.land w (Z.ones (63 - n))).
  assert (∀ j, 0 ≤ j → Z.testbit v j = Z.testbit w j && (j <? 63 - n)) as Hv.
  { intros j Hj. unfold v. rewrite Z.land_spec, Z.testbit_ones_nonneg by lia. done. }
  assert (in_width 64 v) as Hvw by (apply land_in_width; [lia|done]).
  unfold countl_zero. destruct (Z.eqb_spec v 0) as [Hv0|Hvne]; cbn [negb].
  - split_and!; [simpl; lia|simpl; lia|simpl; lia|]. intros r Hr. simpl in Hr.
    specialize (Hv (63 - r) ltac:(lia)). rewrite Hv0, Z.bits_0 in Hv.
    rewrite (proj2 (Z.ltb_lt (63 - r) _)), andb_true_r in Hv by lia. done.
  - destruct (log2_top v Hvw Hvne) as (Hr & Hb & Ha). rewrite Hv in Hb by lia.
    apply andb_prop in Hb as [Hb Hlt%Z.ltb_lt]. split_and!; [lia|lia| |].
    + intros _. by replace (63 - _) with (Z.log2 v) by lia.
    + intros r Hr'. specialize (Hv (63 - r) ltac:(lia)). rewrite Ha in Hv by lia.
      rewrite (proj2 (Z.ltb_lt (63 - r) _)), andb_true_r in Hv by lia. done.
Qed.

(** The first non-empty list from priority [p] on is at the first set bit. *)
Lemma from_first st t k c p q :
  rep st t → core_ok c → 0 ≤ p ≤ q → q ≤ 64 →
  (q < 64 → Z.testbit (word st k c) (63 - q) = true) →
  (∀ r, p ≤ r < q → Z.testbit (word st k c) (63 - r) = false) →
  head (from k c t p) = if q <=? 63 then head (t k q c) else None.
Proof.
  intros Hr Hc Hpq Hq Hset Hclear. pose proof (λ r, rep_bits _ _ Hr k r c) as Hbits. unfold bit_ok in Hbits.
  rewrite (from_skip k c t p q); [|done|done|].
  - destruct (Z.leb_spec q 63); [|by replace q with 64 by lia].
    rewrite from_cons by lia. specialize (Hset ltac:(lia)). rewrite Hbits in Hset by (done || (unfold prio_ok; lia)).
    apply bool_decide_eq_true in Hset. by destruct (t k q c).
  - intros r Hrr. specialize (Hclear r Hrr). rewrite Hbits in Hclear by (done || (unfold prio_ok; lia)).
    apply bool_decide_eq_false in Hclear. destruct (t k r c); [done|]. by destruct Hclear.
Qed.

Lemma front_at st t k c q o :
  rep st t → core_ok c → 0 ≤ q ≤ 64 → o = (if q <=? 63 then head (t k q c) else None) →
  (if s32 q <=? LowestPriority then KPerCoreQueue.GetFront (Root k (s32 q)) c st else Some 0)
  = Some (default 0 o).
Proof.
  intros Hr Hc Hq ->. rewrite swrap_small by lia. unfold LowestPriority.
  destruct (Z.leb_spec q 63); [|done].
  rewrite (PerCore_GetFront_ok _ _ _ _ _ (rep_links _ _ Hr)); [done|unfold prio_ok; lia|done].
Qed.

Lemma core_check {A} c (f : option A) : core_ok c → (check (IsValidCore c);; f) = f.
Proof. unfold core_ok, IsValidCore, NumCores. intros Hc. by rewrite check_bind_Some by lia. Qed.

Lemma GetFront_ok st t k c :
  rep st t → core_ok c →
  KPriorityQueueImpl.GetFront k c st = Some (default 0 (head (order k c t))).
Proof.
  intros Hr Hc. unfold KPriorityQueueImpl.GetFront. rewrite core_check by done.
  destruct (word_ok st k c (ln_shape _ _ (rep_links _ _ Hr)) Hc) as [E Hw]. rewrite E.
  cbn [mbind option_bind]. destruct (CountLeadingZero_ok _ Hw) as (H1 & H2 & H3).
  apply (front_at st t); [done..|]. apply (from_first st); [done|done|lia|lia|done|done].
Qed.

Lemma GetNext_ok st t k p c x mm a b :
  rep st t → core_ok c → prio_ok p → t k p c = a ++ x :: b →
  members st !! x = Some mm → GetPriority mm = p →
  KPriorityQueueImpl.GetNext k c x st = Some (default 0 (head (b ++ from k c t (p + 1)))).
Proof.
  intros Hr Hc Hp Et E Ep. pose proof (rep_links _ _ Hr) as Hl.
  pose proof (ln_ring _ _ Hl k p c Hp Hc) as Hring. rewrite Et in Hring.
  assert (ring (Root k p) (a ++ x :: b)
          = (Root k p :: map Entry a) ++ Entry x :: (map Entry b ++ [Root k p])) as Ering
    by (unfold ring; rewrite map_app; simpl; by rewrite <-(assoc (++))).
  rewrite Ering, path_app in Hring. destruct Hring as [_ Hring].
  unfold KPriorityQueueImpl.GetNext. rewrite core_check by done.
  assert (valid_ref st (Entry x)) as Hv by by exists mm.
  rewrite (stepped_get _ _ _ _ _ _ (stepped_refl st c (ln_shape _ _ Hl)) Hv Hc).
  cbn [mbind option_bind m_next]. destruct b as [|y b]; destruct Hring as [[HN _] _]; rewrite HN.
  - simpl ptr. cbn [Z.eqb]. rewrite E. cbn [mbind option_bind app].
    destruct (word_ok st k c (ln_shape _ _ Hl) Hc) as [Ew Hw]. rewrite Ew. cbn [mbind option_bind].
    rewrite Ep. unfold prio_ok in Hp. rewrite wrap_small by (unfold in_width; lia).
    destruct (GetNextSet_ok _ p Hw Hp) as (H1 & H2 & H3).
    apply (front_at st t); [done|done|lia|]. apply (from_first st); [done|done|lia|lia|done|].
    intros r Hrr. apply H3. lia.
  - destruct (ln_valid _ _ Hl k p c y Hp Hc) as [Hy0 _]; [rewrite Et; set_solver|].
    simpl ptr. by rewrite (proj2 (Z.eqb_neq y 0)).
Qed.

Lemma GetSamePriorityNext_ok st t k p c x a b :
  rep st t → core_ok c → prio_ok p → t k p c = a ++ x :: b →
  GetSamePriorityNext c x st = Some (default 0 (head b)).
Proof.
  intros Hr Hc Hp Et. pose proof (rep_links _ _ Hr) as Hl.
  destruct (ln_valid _ _ Hl k p c x Hp Hc) as [_ [mm E]]; [rewrite Et; set_solver|].
  pose proof (ln_ring _ _ Hl k p c Hp Hc) as Hring. rewrite Et in Hring.
  assert (ring (Root k p) (a ++ x :: b)
          = (Root k p :: map Entry a) ++ Entry x :: (map Entry b ++ [Root k p])) as Ering
    by (unfold ring; rewrite map_app; simpl; by rewrite <-(assoc (++))).
  rewrite Ering, path_app in Hring. destruct Hring as [_ Hring].
  unfold GetSamePriorityNext. assert (valid_ref st (Entry x)) as Hv by by exists mm.
  rewrite (stepped_get _ _ _ _ _ _ (stepped_refl st c (ln_shape _ _ Hl)) Hv Hc).
  cbn [mbind option_bind m_next]. destruct b as [|y b]; destruct Hring as [[HN _] _]; by rewrite HN.
Qed.

Lemma GetFront_priority_ok st t k p c :
  rep st t → core_ok c → prio_ok p →
  KPriorityQueueImpl.GetFront_priority k p c st = Some (default 0 (head (t k p c))).
Proof.
  intros Hr Hc Hp. unfold KPriorityQueueImpl.GetFront_priority, LowestPriority. unfold prio_ok in Hp.
  rewrite impl_checks by (done || split; lia). rewrite (proj2 (Z.leb_le p 63)) by lia.
  by apply (PerCore_GetFront_ok _ _ _ _ _ (rep_links _ _ Hr)).
Qed.

Lemma elem_from k c t p x : 0 ≤ p → x ∈ from k c t p ↔ ∃ q, p ≤ q < 64 ∧ x ∈ t k q c.
Proof.
  intros Hp. unfold from. rewrite list_elem_of_bind.
  split; intros (q & H1 & H2); exists q; rewrite elem_of_seqZ in *; split; done || lia.
Qed.

Lemma NoDup_from st t k c p : links st t → core_ok c → 0 ≤ p → NoDup (from k c t p).
Proof.
  intros Hl Hc Hp. destruct (Z.le_gt_cases 64 p) as [Hge|Hlt].
  { unfold from. rewrite seqZ_nil by lia. constructor. }
  remember (Z.to_nat (64 - p)) as n eqn:En. revert p Hp Hlt En. induction n as [|n IH]; intros p Hp Hlt En; [lia|].
  rewrite from_cons by lia. apply NoDup_app. split_and!.
  - apply (ln_nodup _ _ Hl); [split; lia|done].
  - intros x Hx (q & Hq & Hx')%elem_from; [|lia].
    destruct (ln_unique _ _ Hl c x k p k q) as [_ ->]; try done; unfold prio_ok; lia.
  - destruct (decide (p = 63)) as [->|]; [constructor|]. apply IH; lia.
Qed.

Lemma split_unique {A} (x : A) l1 l2 l1' l2' :
  NoDup (l1 ++ x :: l2) → l1 ++ x :: l2 = l1' ++ x :: l2' → l1 = l1' ∧ l2 = l2'.
Proof.
  revert l1'. induction l1 as [|y l1 IH]; intros [|y' l1'] Hnd Heq; simpl in *.
  - by injection Heq as ->.
  - injection Heq as <- ->. apply NoDup_cons in Hnd as [Hx _]. set_solver.
  - injection Heq as -> <-. apply NoDup_cons in Hnd as [Hx _]. set_solver.
  - injection Heq as <- Heq. apply NoDup_cons in Hnd as [_ Hnd]. destruct (IH l1' Hnd Heq) as [-> ->]. done.
Qed.

Lemma order_split st t k c p x a b :
  links st t → core_ok c → prio_ok p → t k p c = a ++ x :: b →
  ∃ pre, order k c t = pre ++ x :: b ++ from k c t (p + 1).
Proof.
  intros Hl Hc Hp Et. unfold order.
  assert (∀ n q, 0 ≤ q ≤ p → n = Z.to_nat (p - q) → ∃ pre, from k c t q = pre ++ from k c t p) as Hpre.
  { induction n as [|n IH]; intros q Hq En; [exists []; by replace q with p by lia|].
    destruct (IH (q + 1)) as [pre E]; [lia|lia|]. exists (t k q c ++ pre).
    unfold prio_ok in Hp. rewrite from_cons by lia. by rewrite E, (assoc (++)). }
  unfold prio_ok in Hp. destruct (Hpre (Z.to_nat p) 0) as [pre ->]; [lia|lia|].
  exists (pre ++ a). rewrite (from_cons k c t p), Et by lia. by rewrite <-!(assoc (++)).
Qed.

(** The next of a member is the one after it, provided the priorities are those that the
    members were queued with. *)
Lemma next_in_order st t k c l1 x l2 :
  rep st t → core_ok c →
  (∀ p x mm, prio_ok p → x ∈ t k p c → members st !! x = Some mm → GetPriority mm = p) →
  order k c t = l1 ++ x :: l2 → KPriorityQueueImpl.GetNext k c x st = Some (default 0 (head l2)).
Proof.
  intros Hr Hc Hcur Eo. pose proof (rep_links _ _ Hr) as Hl.
  assert (NoDup (order k c t)) as Hnd by (apply (NoDup_from st); [done|done|lia]).
  assert (x ∈ order k c t) as (p & Hp & Hx)%elem_from by (rewrite ?Eo; set_solver || lia); [|lia].
  destruct (ln_valid _ _ Hl k p c x Hp Hc Hx) as [_ [mm E]].
  pose proof Hx as (a & b & Et)%list_elem_of_split.
  destruct (order_split st t k c p x a b Hl Hc Hp Et) as [pre Eo'].
  rewrite Eo' in Hnd, Eo. destruct (split_unique x _ _ _ _ Hnd Eo) as [_ <-].
  apply (GetNext_ok st t k p c x mm a); try done. by apply Hcur with x.
Qed.

(** * Properties *)

(** C5: every public operation of the queue, on a member that is queued as its caller believes,
    runs without a failed assertion and refines a list operation: the links and bits then
    represent the table with the member pushed, taken out, moved or re-queued, the order of
    the others untouched; and every queued member is exactly in the scheduled list of its core
    and priority and in the suggested lists of the other cores of its affinity. A dummy
    thread changes nothing. *)
Theorem operation_refines st t M m mm op :
  rep st t → placed t M → members st !! m = Some mm → m ≠ 0 → info_ok (info_of mm) →
  (∀ i, M !! m = Some i → info_ok i) →
  if IsDummyThread mm then run op m st = Some st
  else called_with op (info_of mm) (M !! m) →
    ∃ st', run op m st = Some st' ∧ same_members st st'
      ∧ rep st' (effect op (info_of mm) m t)
      ∧ placed (effect op (info_of mm) m t) (queued_after op (info_of mm) m M).
Proof.
  intros Hr HM E Hm0 Hi HiM. destruct (IsDummyThread mm) eqn:Ed.
  { destruct op; cbn [run]; unfold PushBack, Remove, MoveToScheduledFront, MoveToScheduledBack,
      ChangePriority, ChangeAffinityMask, ChangeCore; rewrite E; cbn [mbind option_bind]; by rewrite Ed. }
  intros Hcall. assert (impl_result st (effect op (info_of mm) m t) (run op m st)) as (st' & E' & Hr' & Hm').
  { by apply (run_ok st t M). }
  exists st'. split_and!; [done|done|done|by apply effect_placed].
Qed.

(** C6: the front of a kind at a core and the next of each member walk all its members in the
    order of their priorities, first queued first within a priority, each once, and then end
    with the null pointer; provided no member's priority was changed without telling the
    queue. *)
Theorem walk_in_priority_order st t k c :
  rep st t → core_ok c →
  (∀ p x mm, prio_ok p → x ∈ t k p c → members st !! x = Some mm → GetPriority mm = p) →
  NoDup (order k c t) ∧ KPriorityQueueImpl.GetFront k c st = Some (default 0 (head (order k c t)))
  ∧ ∀ l1 x l2, order k c t = l1 ++ x :: l2 →
      KPriorityQueueImpl.GetNext k c x st = Some (default 0 (head l2)).
Proof.
  intros Hr Hc Hcur. pose proof (rep_links _ _ Hr) as Hl.
  assert (NoDup (order k c t)) as Hnd by (apply (NoDup_from st); [done|done|lia]).
  split_and!; [done|by apply GetFront_ok|]. intros l1 x l2. by apply next_in_order.
Qed.

(** * Witnesses *)
Definition empty_table : table := λ _ _ _, [].

Lemma new_rep threads :
  (∀ x m, threads !! x = Some m → length (m_per_core_priority_queue_entry m) = 4%nat) →
  rep (KPriorityQueue_new threads) empty_table ∧ placed empty_table ∅.
Proof.
  intros Ht. split.
  2: { intros k p c x _ _. split; [by intros ?%not_elem_of_nil|]. by intros (i & ? & _). }
  assert (∀ k c p, core_ok c → prio_ok p → ent (KPriorityQueue_new threads) c (Root k p) = QueueEntry_new) as He.
  { intros k c p Hc Hp. unfold ent, get_entry.
    replace (m_queues (impl k (KPriorityQueue_new threads)))
      with (replicate 64 (replicate 4 QueueEntry_new)) by by destruct k.
    unfold core_ok, prio_ok in *.
    rewrite (at_ok _ p (replicate 4 QueueEntry_new)) by (lia || (rewrite lookup_replicate; lia || (split; [done|lia]))).
    cbn [mbind option_bind].
    by rewrite (at_ok _ c QueueEntry_new) by (lia || (rewrite lookup_replicate; split; [done|lia])). }
  constructor; [constructor|].
  - constructor; [| |done].
    + intros k. replace (m_queues (impl k (KPriorityQueue_new threads)))
        with (replicate 64 (replicate 4 QueueEntry_new)) by by destruct k.
      split; [done|]. by apply Forall_replicate.
    + intros k. replace (m_available_priorities (impl k (KPriorityQueue_new threads)))
        with (replicate 4 [0]) by by destruct k.
      split; [done|]. apply Forall_replicate. by exists 0.
  - intros k p c Hp Hc. unfold ring, empty_table. simpl. unfold nxt, prv. rewrite !He by done. done.
  - intros k p c x _ _ Hx. by apply not_elem_of_nil in Hx.
  - intros k p c _ _. constructor.
  - intros c x k p k' p' _ _ _ Hx. by apply not_elem_of_nil in Hx.
  - intros k p c Hp Hc. unfold bit_ok, empty_table.
    replace (word (KPriorityQueue_new threads) k c) with 0; [by rewrite Z.bits_0|].
    destruct (core_cases c Hc) as [->|[->|[->| ->]]]; by destruct k.
Qed.

Definition thread (priority core affinity : Z) : Member :=
  {| GetAffinityMask := affinity; GetActiveCore := core; GetPriority := priority;
     IsDummyThread := false; m_per_core_priority_queue_entry := replicate 4 QueueEntry_new |}.
Definition threads : gmap Z Member := {[1 := thread 44 0 3; 2 := thread 20 0 1]}.
Definition queue0 : State := KPriorityQueue_new threads.

Lemma threads_ok x m : threads !! x = Some m → length (m_per_core_priority_queue_entry m) = 4%nat.
Proof.
  unfold threads. intros [[_ <-]|[_ [_ <-]%lookup_singleton_Some]]%lookup_insert_Some; done.
Qed.

Lemma thread_info_ok p c a :
  priority_ok p → core_ok c → in_width 4 a → Z.testbit a c = true → info_ok (info_of (thread p c a)).
Proof. intros Hp Hc Ha Hb. split_and!; try done. apply Hc. Qed.

Lemma operation_refines_witness :
  ∃ st', run OpPushBack 1 queue0 = Some st' ∧ same_members queue0 st'
    ∧ rep st' (effect OpPushBack (info_of (thread 44 0 3)) 1 empty_table)
    ∧ placed (effect OpPushBack (info_of (thread 44 0 3)) 1 empty_table) {[1 := info_of (thread 44 0 3)]}.
Proof.
  apply (operation_refines queue0 empty_table ∅ 1 (thread 44 0 3) OpPushBack).
  - apply new_rep, threads_ok.
  - apply (new_rep threads), threads_ok.
  - reflexivity.
  - discriminate.
  - apply thread_info_ok; done.
  - intros i Hi. discriminate.
  - reflexivity.
Defined.

(** Two threads on core 0; the second has the higher priority. *)
Definition two_threads : table :=
  pushed false (info_of (thread 20 0 1)) 2 (pushed false (info_of (thread 44 0 3)) 1 empty_table).

Lemma two_threads_rep : ∃ st, rep st two_threads ∧ same_members queue0 st.
Proof.
  destruct (new_rep threads threads_ok) as [Hr HM].
  destruct (push_at_ok false queue0 empty_table 1 (thread 44 0 3) (info_of (thread 44 0 3)))
    as (st1 & _ & Hr1 & Hm1); [done|split_and!; try done; by apply thread_info_ok|intros; apply not_elem_of_nil|].
  destruct (same_members_lookup _ _ 2 (thread 20 0 1) Hm1 eq_refl) as (mm & E2 & Es).
  injection Es as Ea Ec Ep Ed.
  destruct (push_at_ok false st1 _ 2 mm (info_of (thread 20 0 1)) Hr1) as (st2 & _ & Hr2 & Hm2).
  - split_and!; try done; by apply thread_info_ok.
  - intros k p c Hp Hc. unfold pushed, on_slots. destruct (in_slot _ k p c); set_solver.
  - exists st2. split; [exact Hr2|by eapply same_members_trans].
Qed.

Lemma walk_in_priority_order_witness :
  ∃ st, KPriorityQueueImpl.GetFront Scheduled 0 st = Some 2
    ∧ KPriorityQueueImpl.GetNext Scheduled 0 2 st = Some 1
    ∧ KPriorityQueueImpl.GetNext Scheduled 0 1 st = Some 0.
Proof.
  destruct two_threads_rep as (st & Hr & Hm). exists st.
  destruct (walk_in_priority_order st two_threads Scheduled 0 Hr) as (_ & Hf & Hn); [done| |].
  - intros p x mm Hp Hx E. destruct (same_members_Some queue0 st x Hm) as [_ Hs].
    destruct (Hs (ex_intro _ mm E)) as [m0 E0].
    destruct (same_members_lookup _ _ x m0 Hm E0) as (m1 & E1 & Es). rewrite E in E1.
    injection E1 as <-. injection Es as _ _ -> _. revert Hx. unfold two_threads, pushed, on_slots, in_slot, empty_table. simpl.
    change (threads !! x = Some m0) in E0. unfold threads in E0.
    apply lookup_insert_Some in E0 as [[<- <-]|[Hx1 [<- <-]%lookup_singleton_Some]]; simpl.
    + destruct (Z.eqb_spec p 20), (Z.eqb_spec p 44); simpl; set_solver.
    + destruct (Z.eqb_spec p 20), (Z.eqb_spec p 44); simpl; set_solver.
  - split_and!.
    + exact Hf.
    + exact (Hn [] 2 [1] eq_refl).
    + exact (Hn [2] 1 [] eq_refl).
Defined.
