(* ===== verification/Thread.v ===== *)
(** Threads that wait: the states of a [KThread], the locks it holds and waits for and the
    inheritance of priority (src/src/core/hle/kernel/k_thread.h and k_thread.cpp), the wait
    queues (k_thread_queue.cpp) and what the scheduler is told of a change (k_scheduler.cpp).

    A pointer to a thread, a lock info, a tree or a process is a number. What the scheduler's
    queue uses of a thread, its priority among it, is the [Member] of the same number in
    PriorityQueue.v: it is the same object. A red-black tree is the list of its elements in
    order. Every operation runs with the scheduler's lock held and is one function. *)
From S2P Require Import Prelude Common Results PriorityQueue.

Definition ResultTerminationRequested : Z := Result.make Result.Kernel 59.
Definition ResultTimedOut : Z := Result.make Result.Kernel 117.
Definition ResultCancelled : Z := Result.make Result.Kernel 118.

(** [ThreadState], 16 bits wide. *)
Module ThreadState.
Definition Initialized : Z := 0.
Definition Waiting : Z := 1.
Definition Runnable : Z := 2.
Definition Terminated : Z := 3.
Definition SuspendShift : Z := 4.
Definition Mask : Z := Z.shiftl 1 SuspendShift - 1.
End ThreadState.

Module Svc.
Definition HighestThreadPriority : Z := 0.
Definition LowestThreadPriority : Z := 63.
End Svc.
Definition TerminatingThreadPriority : Z := 15.

(** * Data *)

(** The classes of wait queues, with the tree that an object of the class keeps. *)
Inductive QueueClass :=
  | ThreadSleep
  | WaitForAddress
  | WaitConditionVariable (m_tree : Z)
  | AddressArbiter (m_tree : Z)
  | LightLock.
Record KThreadQueue := MkQueue { q_class : QueueClass; m_hardware_timer : bool }.

Record KThread := MkThread {
  m_base_priority : Z;
  m_thread_state : Z;
  m_suspend_request_flags : Z;
  m_suspend_allowed_flags : Z;
  m_termination_requested : bool;
  m_wait_cancelled : bool;
  m_cancellable : bool;
  m_wait_result : Z;
  m_wait_queue : option KThreadQueue;
  m_address_key : Z;
  m_address_key_value : Z;
  m_is_kernel_address_key : bool;
  m_condvar_tree : option Z;
  m_condvar_key : Z;
  m_held_lock_info_list : list Z;
  m_waiting_lock_info : option Z;
  m_num_kernel_waiters : Z;
  m_parent : Z
}.

(** [LockWithPriorityInheritanceInfo] *)
Record LockInfo := MkLock {
  li_tree : list Z;
  li_address_key : Z;
  li_owner : Z;
  li_waiter_count : Z;
  li_is_kernel_address_key : bool
}.

(** [lock_slab] is the free list of the slab heap of lock infos; [timer_tasks] the tasks of the
    hardware timer; [schedule_counts] the counter of each process. *)
Record Kernel := MkKernel {
  priority_queue : PriorityQueue.State;
  threads : gmap Z KThread;
  lock_infos : gmap Z LockInfo;
  lock_slab : list Z;
  thread_trees : gmap Z (list Z);
  cur_thread : Z;
  m_scheduler_update_needed : bool;
  m_woken_dummy_threads : gset Z;
  timer_tasks : gmap Z Z;
  schedule_counts : gmap Z Z
}.

Definition with_queue (q : PriorityQueue.State) (k : Kernel) : Kernel :=
  MkKernel q (threads k) (lock_infos k) (lock_slab k) (thread_trees k) (cur_thread k)
    (m_scheduler_update_needed k) (m_woken_dummy_threads k) (timer_tasks k) (schedule_counts k).
Definition with_threads (ts : gmap Z KThread) (k : Kernel) : Kernel :=
  MkKernel (priority_queue k) ts (lock_infos k) (lock_slab k) (thread_trees k) (cur_thread k)
    (m_scheduler_update_needed k) (m_woken_dummy_threads k) (timer_tasks k) (schedule_counts k).
Definition with_locks (ls : gmap Z LockInfo) (slab : list Z) (k : Kernel) : Kernel :=
  MkKernel (priority_queue k) (threads k) ls slab (thread_trees k) (cur_thread k)
    (m_scheduler_update_needed k) (m_woken_dummy_threads k) (timer_tasks k) (schedule_counts k).
Definition with_trees (ts : gmap Z (list Z)) (k : Kernel) : Kernel :=
  MkKernel (priority_queue k) (threads k) (lock_infos k) (lock_slab k) ts (cur_thread k)
    (m_scheduler_update_needed k) (m_woken_dummy_threads k) (timer_tasks k) (schedule_counts k).
Definition with_timer (ts : gmap Z Z) (k : Kernel) : Kernel :=
  MkKernel (priority_queue k) (threads k) (lock_infos k) (lock_slab k) (thread_trees k) (cur_thread k)
    (m_scheduler_update_needed k) (m_woken_dummy_threads k) ts (schedule_counts k).
(** What only concerns the scheduler. *)
Definition with_scheduler (update : bool) (woken : gset Z) (counts : gmap Z Z) (k : Kernel) : Kernel :=
  MkKernel (priority_queue k) (threads k) (lock_infos k) (lock_slab k) (thread_trees k) (cur_thread k)
    update woken (timer_tasks k) counts.

Definition on_thread (x : Z) (f : KThread → KThread) (k : Kernel) : option Kernel :=
  t ← threads k !! x; Some (with_threads (<[x := f t]> (threads k)) k).
Definition on_lock (l : Z) (f : LockInfo → LockInfo) (k : Kernel) : option Kernel :=
  li ← lock_infos k !! l; Some (with_locks (<[l := f li]> (lock_infos k)) (lock_slab k) k).

Definition set_base_priority (v : Z) (t : KThread) : KThread :=
  MkThread v (m_thread_state t) (m_suspend_request_flags t) (m_suspend_allowed_flags t)
    (m_termination_requested t) (m_wait_cancelled t) (m_cancellable t) (m_wait_result t)
    (m_wait_queue t) (m_address_key t) (m_address_key_value t) (m_is_kernel_address_key t)
    (m_condvar_tree t) (m_condvar_key t) (m_held_lock_info_list t) (m_waiting_lock_info t)
    (m_num_kernel_waiters t) (m_parent t).
(** The state and the suspend flags. *)
Definition set_state (state request allowed : Z) (t : KThread) : KThread :=
  MkThread (m_base_priority t) state request allowed
    (m_termination_requested t) (m_wait_cancelled t) (m_cancellable t) (m_wait_result t)
    (m_wait_queue t) (m_address_key t) (m_address_key_value t) (m_is_kernel_address_key t)
    (m_condvar_tree t) (m_condvar_key t) (m_held_lock_info_list t) (m_waiting_lock_info t)
    (m_num_kernel_waiters t) (m_parent t).
Definition set_termination_requested (b : bool) (t : KThread) : KThread :=
  MkThread (m_base_priority t) (m_thread_state t) (m_suspend_request_flags t)
    (m_suspend_allowed_flags t) b (m_wait_cancelled t) (m_cancellable t) (m_wait_result t)
    (m_wait_queue t) (m_address_key t) (m_address_key_value t) (m_is_kernel_address_key t)
    (m_condvar_tree t) (m_condvar_key t) (m_held_lock_info_list t) (m_waiting_lock_info t)
    (m_num_kernel_waiters t) (m_parent t).
(** The wait: whether it was cancelled, its result and its queue. *)
Definition set_wait (cancelled : bool) (result : Z) (queue : option KThreadQueue) (t : KThread) : KThread :=
  MkThread (m_base_priority t) (m_thread_state t) (m_suspend_request_flags t)
    (m_suspend_allowed_flags t) (m_termination_requested t) cancelled (m_cancellable t) result
    queue (m_address_key t) (m_address_key_value t) (m_is_kernel_address_key t)
    (m_condvar_tree t) (m_condvar_key t) (m_held_lock_info_list t) (m_waiting_lock_info t)
    (m_num_kernel_waiters t) (m_parent t).
Definition set_address_key (key value : Z) (is_kernel : bool) (t : KThread) : KThread :=
  MkThread (m_base_priority t) (m_thread_state t) (m_suspend_request_flags t)
    (m_suspend_allowed_flags t) (m_termination_requested t) (m_wait_cancelled t) (m_cancellable t)
    (m_wait_result t) (m_wait_queue t) key value is_kernel
    (m_condvar_tree t) (m_condvar_key t) (m_held_lock_info_list t) (m_waiting_lock_info t)
    (m_num_kernel_waiters t) (m_parent t).
Definition set_condvar (tree : option Z) (key : Z) (t : KThread) : KThread :=
  MkThread (m_base_priority t) (m_thread_state t) (m_suspend_request_flags t)
    (m_suspend_allowed_flags t) (m_termination_requested t) (m_wait_cancelled t) (m_cancellable t)
    (m_wait_result t) (m_wait_queue t) (m_address_key t) (m_address_key_value t)
    (m_is_kernel_address_key t) tree key (m_held_lock_info_list t) (m_waiting_lock_info t)
    (m_num_kernel_waiters t) (m_parent t).
Definition set_held (held : list Z) (t : KThread) : KThread :=
  MkThread (m_base_priority t) (m_thread_state t) (m_suspend_request_flags t)
    (m_suspend_allowed_flags t) (m_termination_requested t) (m_wait_cancelled t) (m_cancellable t)
    (m_wait_result t) (m_wait_queue t) (m_address_key t) (m_address_key_value t)
    (m_is_kernel_address_key t) (m_condvar_tree t) (m_condvar_key t) held (m_waiting_lock_info t)
    (m_num_kernel_waiters t) (m_parent t).
Definition SetWaitingLockInfo (lock : option Z) (t : KThread) : KThread :=
  MkThread (m_base_priority t) (m_thread_state t) (m_suspend_request_flags t)
    (m_suspend_allowed_flags t) (m_termination_requested t) (m_wait_cancelled t) (m_cancellable t)
    (m_wait_result t) (m_wait_queue t) (m_address_key t) (m_address_key_value t)
    (m_is_kernel_address_key t) (m_condvar_tree t) (m_condvar_key t) (m_held_lock_info_list t) lock
    (m_num_kernel_waiters t) (m_parent t).
Definition set_num_kernel_waiters (n : Z) (t : KThread) : KThread :=
  MkThread (m_base_priority t) (m_thread_state t) (m_suspend_request_flags t)
    (m_suspend_allowed_flags t) (m_termination_requested t) (m_wait_cancelled t) (m_cancellable t)
    (m_wait_result t) (m_wait_queue t) (m_address_key t) (m_address_key_value t)
    (m_is_kernel_address_key t) (m_condvar_tree t) (m_condvar_key t) (m_held_lock_info_list t)
    (m_waiting_lock_info t) n (m_parent t).

(** * Ordered trees *)

(** [RB_INSERT]: the new element goes before the first that it compares less than. *)
Fixpoint tree_insert (less : Z → option bool) (w : Z) (tree : list Z) : option (list Z) :=
  match tree with
  | [] => Some [w]
  | e :: rest =>
      b ← less e;
      if (b : bool) then Some (w :: tree) else rest ← tree_insert less w rest; Some (e :: rest)
  end.
(** [erase(iterator_to(w))], and the same on an intrusive list: [w] has to be there. *)
Definition list_erase (w : Z) (l : list Z) : option (list Z) :=
  check (bool_decide (w ∈ l));; Some (filter (λ e, e ≠ w) l).

(** * The scheduler's side *)
Definition GetPriority (x : Z) (k : Kernel) : option Z :=
  m ← members (priority_queue k) !! x; Some (PriorityQueue.GetPriority m).
Definition SetPriority (x value : Z) (k : Kernel) : option Kernel :=
  let q := priority_queue k in
  m ← members q !! x;
  let m := {| GetAffinityMask := GetAffinityMask m; GetActiveCore := GetActiveCore m;
              PriorityQueue.GetPriority := value; IsDummyThread := IsDummyThread m;
              m_per_core_priority_queue_entry := m_per_core_priority_queue_entry m |} in
  Some (with_queue {| m_scheduled_queue := m_scheduled_queue q; m_suggested_queue := m_suggested_queue q;
                      members := <[x := m]> (members q) |} k).

Definition SetSchedulerUpdateNeeded (k : Kernel) : Kernel :=
  with_scheduler true (m_woken_dummy_threads k) (schedule_counts k) k.
Definition RegisterDummyThreadForWakeup (x : Z) (k : Kernel) : Kernel :=
  with_scheduler (m_scheduler_update_needed k) ({[x]} ∪ m_woken_dummy_threads k) (schedule_counts k) k.
Definition UnregisterDummyThreadForWakeup (x : Z) (k : Kernel) : Kernel :=
  with_scheduler (m_scheduler_update_needed k) (m_woken_dummy_threads k ∖ {[x]}) (schedule_counts k) k.

Definition IncrementScheduledCount (x : Z) (k : Kernel) : option Kernel :=
  t ← threads k !! x;
  if m_parent t =? 0 then Some k
  else
    c ← schedule_counts k !! m_parent t;
    Some (with_scheduler (m_scheduler_update_needed k) (m_woken_dummy_threads k)
            (<[m_parent t := s64 (c + 1)]> (schedule_counts k)) k).

Definition OnThreadStateChanged (x old_state : Z) (k : Kernel) : option Kernel :=
  t ← threads k !! x;
  m ← members (priority_queue k) !! x;
  let cur_state := m_thread_state t in
  if cur_state =? old_state then Some k
  else if old_state =? ThreadState.Runnable then
    q ← PriorityQueue.Remove x (priority_queue k);
    k ← IncrementScheduledCount x (with_queue q k);
    let k := SetSchedulerUpdateNeeded k in
    Some (if IsDummyThread m then UnregisterDummyThreadForWakeup x k else k)
  else if cur_state =? ThreadState.Runnable then
    q ← PriorityQueue.PushBack x (priority_queue k);
    k ← IncrementScheduledCount x (with_queue q k);
    let k := SetSchedulerUpdateNeeded k in
    Some (if IsDummyThread m then RegisterDummyThreadForWakeup x k else k)
  else Some k.

Definition OnThreadPriorityChanged (x old_priority : Z) (k : Kernel) : option Kernel :=
  t ← threads k !! x;
  if m_thread_state t =? ThreadState.Runnable then
    q ← ChangePriority old_priority (x =? cur_thread k) x (priority_queue k);
    k ← IncrementScheduledCount x (with_queue q k);
    Some (SetSchedulerUpdateNeeded k)
  else Some k.

(** * The state of a thread *)
Definition GetState (t : KThread) : Z := Z.land (m_thread_state t) ThreadState.Mask.
Definition GetSuspendFlags (t : KThread) : Z :=
  Z.land (m_suspend_allowed_flags t) (m_suspend_request_flags t).
Definition IsSuspended (t : KThread) : bool := negb (GetSuspendFlags t =? 0).
Definition IsSuspendRequested (t : KThread) : bool := negb (m_suspend_request_flags t =? 0).
Definition IsTerminationRequested (t : KThread) : bool :=
  m_termination_requested t || (m_thread_state t =? ThreadState.Terminated).

(** The state is stored and the scheduler told of the change. *)
Definition store_state (x state : Z) (k : Kernel) : option Kernel :=
  on_thread x (λ t, set_state state (m_suspend_request_flags t) (m_suspend_allowed_flags t) t) k.

Definition SetState (x state : Z) (k : Kernel) : option Kernel :=
  t ← threads k !! x;
  let old_state := m_thread_state t in
  let new_state := Z.lor (Z.land old_state (lnotw 16 ThreadState.Mask)) (Z.land state ThreadState.Mask) in
  k ← store_state x new_state k;
  if negb (new_state =? old_state) then OnThreadStateChanged x old_state k else Some k.

Definition UpdateState (x : Z) (k : Kernel) : option Kernel :=
  t ← threads k !! x;
  let old_state := m_thread_state t in
  let new_state := Z.lor (u16 (GetSuspendFlags t)) (Z.land old_state ThreadState.Mask) in
  k ← store_state x new_state k;
  if negb (new_state =? old_state) then OnThreadStateChanged x old_state k else Some k.

Definition Continue (x : Z) (k : Kernel) : option Kernel :=
  t ← threads k !! x;
  let old_state := m_thread_state t in
  k ← store_state x (Z.land old_state ThreadState.Mask) k;
  OnThreadStateChanged x old_state k.

Definition TrySuspend (x : Z) (k : Kernel) : option Kernel :=
  t ← threads k !! x;
  check (IsSuspendRequested t);;
  if 0 <? m_num_kernel_waiters t then Some k
  else
    check (m_num_kernel_waiters t =? 0);;
    UpdateState x k.

Definition RequestSuspend (x type : Z) (k : Kernel) : option Kernel :=
  k ← on_thread x (λ t, set_state (m_thread_state t)
        (Z.lor (m_suspend_request_flags t) (Z.shiftl 1 (ThreadState.SuspendShift + type)))
        (m_suspend_allowed_flags t) t) k;
  TrySuspend x k.

Definition Resume (x type : Z) (k : Kernel) : option Kernel :=
  k ← on_thread x (λ t, set_state (m_thread_state t)
        (Z.land (m_suspend_request_flags t) (lnotw 32 (Z.shiftl 1 (ThreadState.SuspendShift + type))))
        (m_suspend_allowed_flags t) t) k;
  UpdateState x k.

Definition ContinueIfHasKernelWaiters (x : Z) (k : Kernel) : option Kernel :=
  t ← threads k !! x;
  if 0 <? m_num_kernel_waiters t then Continue x k else Some k.

(** * Locks with priority inheritance *)

Definition GetLockOwner (x : Z) (k : Kernel) : option (option Z) :=
  t ← threads k !! x;
  match m_waiting_lock_info t with
  | Some l => li ← lock_infos k !! l; Some (Some (li_owner li))
  | None => Some None
  end.

(** [LockWithPriorityInheritanceInfo::Create] and [Free] *)
Definition lock_Create (address_key : Z) (is_kernel_address_key : bool) (k : Kernel) : option (Z * Kernel) :=
  match lock_slab k with
  | [] => None
  | l :: slab =>
      Some (l, with_locks (<[l := MkLock [] address_key 0 0 is_kernel_address_key]> (lock_infos k)) slab k)
  end.
Definition lock_Free (l : Z) (k : Kernel) : Kernel :=
  with_locks (delete l (lock_infos k)) (l :: lock_slab k) k.

Definition set_owner (x : Z) (li : LockInfo) : LockInfo :=
  MkLock (li_tree li) (li_address_key li) x (li_waiter_count li) (li_is_kernel_address_key li).
Definition set_waiters (tree : list Z) (count : Z) (li : LockInfo) : LockInfo :=
  MkLock tree (li_address_key li) (li_owner li) count (li_is_kernel_address_key li).

(** [LockWithPriorityInheritanceComparator] of [w] and [e] is negative. *)
Definition lock_less (k : Kernel) (w e : Z) : option bool :=
  p ← GetPriority w k; q ← GetPriority e k; Some (p <? q).

Definition lock_AddWaiter (l waiter : Z) (k : Kernel) : option Kernel :=
  li ← lock_infos k !! l;
  tree ← tree_insert (lock_less k waiter) waiter (li_tree li);
  k ← on_lock l (set_waiters tree (u32 (li_waiter_count li + 1))) k;
  on_thread waiter (SetWaitingLockInfo (Some l)) k.
(** The result: whether there is no waiter left. *)
Definition lock_RemoveWaiter (l waiter : Z) (k : Kernel) : option (bool * Kernel) :=
  li ← lock_infos k !! l;
  tree ← list_erase waiter (li_tree li);
  let count := u32 (li_waiter_count li - 1) in
  k ← on_lock l (set_waiters tree count) k;
  k ← on_thread waiter (SetWaitingLockInfo None) k;
  Some (count =? 0, k).
Definition GetHighestPriorityWaiter (l : Z) (k : Kernel) : option Z :=
  li ← lock_infos k !! l; head (li_tree li).

Definition AddHeldLock (x l : Z) (k : Kernel) : option Kernel :=
  k ← on_lock l (set_owner x) k;
  on_thread x (λ t, set_held (l :: m_held_lock_info_list t) t) k.
Definition erase_held (x l : Z) (k : Kernel) : option Kernel :=
  t ← threads k !! x;
  held ← list_erase l (m_held_lock_info_list t);
  on_thread x (set_held held) k.

(** [None] in the result is the null pointer. *)
Fixpoint find_lock (key : Z) (is_kernel : bool) (held : list Z) (locks : gmap Z LockInfo)
    : option (option Z) :=
  match held with
  | [] => Some None
  | l :: held =>
      li ← locks !! l;
      if (li_address_key li =? key) && Bool.eqb (li_is_kernel_address_key li) is_kernel then Some (Some l)
      else find_lock key is_kernel held locks
  end.
Definition FindHeldLock (x key : Z) (is_kernel : bool) (k : Kernel) : option (option Z) :=
  t ← threads k !! x; find_lock key is_kernel (m_held_lock_info_list t) (lock_infos k).

Definition AddWaiterImpl (x thread : Z) (k : Kernel) : option Kernel :=
  w ← threads k !! thread;
  check (bool_decide (m_condvar_tree w = None));;
  let address_key := m_address_key w in
  let is_kernel_address_key := m_is_kernel_address_key w in
  k ← (if is_kernel_address_key then
         t ← threads k !! x;
         let old_num_kernel_waiters := m_num_kernel_waiters t in
         k ← on_thread x (set_num_kernel_waiters (s32 (old_num_kernel_waiters + 1))) k;
         check (0 <=? old_num_kernel_waiters);;
         Some (SetSchedulerUpdateNeeded k)
       else Some k);
  lock_info ← FindHeldLock x address_key is_kernel_address_key k;
  '(l, k) ← match lock_info with
            | Some l => Some (l, k)
            | None =>
                '(l, k) ← lock_Create address_key is_kernel_address_key k;
                k ← AddHeldLock x l k;
                Some (l, k)
            end;
  lock_AddWaiter l thread k.

Definition RemoveWaiterImpl (x thread : Z) (k : Kernel) : option Kernel :=
  w ← threads k !! thread;
  k ← (if m_is_kernel_address_key w then
         t ← threads k !! x;
         let old_num_kernel_waiters := m_num_kernel_waiters t in
         k ← on_thread x (set_num_kernel_waiters (s32 (old_num_kernel_waiters - 1))) k;
         check (0 <? old_num_kernel_waiters);;
         Some (SetSchedulerUpdateNeeded k)
       else Some k);
  l ← m_waiting_lock_info w;
  li ← lock_infos k !! l;
  check (li_owner li =? x);;
  '(last, k) ← lock_RemoveWaiter l thread k;
  if (last : bool) then k ← erase_held x l k; Some (lock_Free l k) else Some k.

(** ** Trees of condition variables and address arbiters *)

(** [ConditionVariableComparator] of a key and a priority with [e] is negative. *)
Definition condvar_less (k : Kernel) (cv_key priority e : Z) : option bool :=
  t ← threads k !! e;
  p ← GetPriority e k;
  Some ((cv_key <? m_condvar_key t) || ((cv_key =? m_condvar_key t) && (priority <? p))).

Definition insert_in_tree (c x : Z) (k : Kernel) : option Kernel :=
  tree ← thread_trees k !! c;
  t ← threads k !! x;
  p ← GetPriority x k;
  tree ← tree_insert (condvar_less k (m_condvar_key t) p) x tree;
  Some (with_trees (<[c := tree]> (thread_trees k)) k).
Definition erase_from_tree (c x : Z) (k : Kernel) : option Kernel :=
  tree ← thread_trees k !! c;
  tree ← list_erase x tree;
  Some (with_trees (<[c := tree]> (thread_trees k)) k).

(** [BeforeUpdatePriority], the change of priority and [AfterUpdatePriority]. *)
Definition change_priority (x value : Z) (k : Kernel) : option Kernel :=
  t ← threads k !! x;
  match m_condvar_tree t with
  | Some cv_tree =>
      k ← erase_from_tree cv_tree x k; k ← SetPriority x value k; insert_in_tree cv_tree x k
  | None => SetPriority x value k
  end.

(** ** Inheritance *)

(** The priority a thread should have: the loop over its held locks. *)
Fixpoint inherit (new_priority : Z) (held : list Z) (k : Kernel) : option Z :=
  match held with
  | [] => Some new_priority
  | l :: held =>
      w ← GetHighestPriorityWaiter l k;
      p ← GetPriority w k;
      inherit (Z.min new_priority p) held k
  end.

(** One turn of the loop, for a thread whose priority changes; the result is the lock owner. *)
Definition restore_step (x new_priority : Z) (k : Kernel) : option (option Z * Kernel) :=
  lock_owner ← GetLockOwner x k;
  k ← match lock_owner with Some o => RemoveWaiterImpl o x k | None => Some k end;
  old_priority ← GetPriority x k;
  k ← change_priority x new_priority k;
  k ← match lock_owner with Some o => AddWaiterImpl o x k | None => Some k end;
  k ← OnThreadPriorityChanged x old_priority k;
  Some (lock_owner, k).

(** [while (thread != nullptr)]; [fuel] turns are left. *)
Fixpoint RestorePriority_loop (fuel : nat) (thread : option Z) (k : Kernel) : option Kernel :=
  match thread with
  | None => Some k
  | Some x =>
      match fuel with
      | O => None
      | S fuel =>
          t ← threads k !! x;
          new_priority ← inherit (m_base_priority t) (m_held_lock_info_list t) k;
          p ← GetPriority x k;
          if new_priority =? p then Some k
          else
            '(lock_owner, k) ← restore_step x new_priority k;
            RestorePriority_loop fuel lock_owner k
      end
  end.
(** A turn lowers or raises one of the priorities, which lie between 0 and 65. *)
Definition RestorePriority (x : Z) (k : Kernel) : option Kernel :=
  RestorePriority_loop (66 * size (threads k) + 2) (Some x) k.

Definition AddWaiter (x thread : Z) (k : Kernel) : option Kernel :=
  k ← AddWaiterImpl x thread k;
  p ← GetPriority thread k;
  q ← GetPriority x k;
  if p <? q then RestorePriority x k else Some k.

Definition RemoveWaiter (x thread : Z) (k : Kernel) : option Kernel :=
  k ← RemoveWaiterImpl x thread k;
  p ← GetPriority thread k;
  q ← GetPriority x k;
  t ← threads k !! x;
  if (q =? p) && (q <? m_base_priority t) then RestorePriority x k else Some k.

(** The part of [RemoveWaiterByKey] that hands the lock [l] over; the result: the next owner
    and whether it was the last waiter. *)
Definition hand_over (x l : Z) (k : Kernel) : option (Z * bool * Kernel) :=
  k ← erase_held x l k;
  li ← lock_infos k !! l;
  let count := li_waiter_count li in
  k ← (if li_is_kernel_address_key li then
         t ← threads k !! x;
         let n := s32 (m_num_kernel_waiters t - count) in
         k ← on_thread x (set_num_kernel_waiters n) k;
         check (0 <=? n);;
         Some (SetSchedulerUpdateNeeded k)
       else Some k);
  check (0 <? count);;
  next_lock_owner ← GetHighestPriorityWaiter l k;
  '(last, k) ← lock_RemoveWaiter l next_lock_owner k;
  k ← (if (last : bool) then Some (lock_Free l k)
       else
         k ← AddHeldLock next_lock_owner l k;
         if li_is_kernel_address_key li then
           o ← threads k !! next_lock_owner;
           li ← lock_infos k !! l;
           let n := s32 (m_num_kernel_waiters o + li_waiter_count li) in
           k ← on_thread next_lock_owner (set_num_kernel_waiters n) k;
           check (0 <? n);;
           Some k
         else Some k);
  Some (next_lock_owner, last, k).

(** The result: the next owner, if any, and whether there are waiters left. *)
Definition RemoveWaiterByKey (x key : Z) (is_kernel_address_key_ : bool) (k : Kernel)
    : option (option Z * bool * Kernel) :=
  lock_info ← FindHeldLock x key is_kernel_address_key_ k;
  match lock_info with
  | None => Some (None, false, k)
  | Some l =>
      '(next_lock_owner, last, k) ← hand_over x l k;
      p ← GetPriority x k;
      q ← GetPriority next_lock_owner k;
      t ← threads k !! x;
      k ← (if (p =? q) && (p <? m_base_priority t) then RestorePriority x k else Some k);
      Some (Some next_lock_owner, negb last, k)
  end.
Definition RemoveUserWaiterByKey (x key : Z) : Kernel → option (option Z * bool * Kernel) :=
  RemoveWaiterByKey x key false.
Definition RemoveKernelWaiterByKey (x key : Z) : Kernel → option (option Z * bool * Kernel) :=
  RemoveWaiterByKey x key true.

Definition SetBasePriority (x value : Z) (k : Kernel) : option Kernel :=
  check ((Svc.HighestThreadPriority <=? value) && (value <=? Svc.LowestThreadPriority));;
  k ← on_thread x (set_base_priority value) k;
  RestorePriority x k.

(** That the thread is not pinned is for the caller to know. *)
Definition IncreaseBasePriority (x priority : Z) (k : Kernel) : option Kernel :=
  check ((Svc.HighestThreadPriority <=? priority) && (priority <=? Svc.LowestThreadPriority));;
  t ← threads k !! x;
  if priority <? m_base_priority t then
    k ← on_thread x (set_base_priority priority) k;
    RestorePriority x k
  else Some k.

(** * Waiting *)
Definition SetWaitResult (x result : Z) : Kernel → option Kernel :=
  on_thread x (λ t, set_wait (m_wait_cancelled t) result (m_wait_queue t) t).
Definition ClearWaitQueue (x : Z) : Kernel → option Kernel :=
  on_thread x (λ t, set_wait (m_wait_cancelled t) (m_wait_result t) None t).
Definition CancelTask (x : Z) (k : Kernel) : Kernel := with_timer (delete x (timer_tasks k)) k.

(** [KThreadQueue::EndWait] and [CancelWait], the handlers of the base class. *)
Definition queue_EndWait (q : KThreadQueue) (x wait_result : Z) (k : Kernel) : option Kernel :=
  k ← SetWaitResult x wait_result k;
  k ← SetState x ThreadState.Runnable k;
  k ← ClearWaitQueue x k;
  Some (if m_hardware_timer q then CancelTask x k else k).
Definition queue_CancelWait (q : KThreadQueue) (x wait_result : Z) (cancel_timer_task : bool) (k : Kernel)
    : option Kernel :=
  k ← SetWaitResult x wait_result k;
  k ← SetState x ThreadState.Runnable k;
  k ← ClearWaitQueue x k;
  Some (if cancel_timer_task && m_hardware_timer q then CancelTask x k else k).

(** The thread is taken out of its owner's waiters, if there is an owner. *)
Definition leave_owner (x : Z) (k : Kernel) : option Kernel :=
  owner ← GetLockOwner x k;
  match owner with Some o => RemoveWaiter o x k | None => Some k end.
(** [ClearConditionVariable], [ClearAddressArbiter] *)
Definition ClearConditionVariable (x : Z) : Kernel → option Kernel :=
  on_thread x (λ t, set_condvar None (m_condvar_key t) t).
(** The thread is taken out of the queue's tree, if it waits in a tree. *)
Definition leave_tree (m_tree x : Z) (k : Kernel) : option Kernel :=
  t ← threads k !! x;
  match m_condvar_tree t with
  | Some _ => k ← erase_from_tree m_tree x k; ClearConditionVariable x k
  | None => Some k
  end.

(** The virtual [EndWait] and [CancelWait]. *)
Definition dispatch_EndWait (q : KThreadQueue) (x wait_result : Z) (k : Kernel) : option Kernel :=
  match q_class q with ThreadSleep => None | _ => queue_EndWait q x wait_result k end.
Definition dispatch_CancelWait (q : KThreadQueue) (x wait_result : Z) (cancel_timer_task : bool) (k : Kernel)
    : option Kernel :=
  k ← match q_class q with
      | ThreadSleep => Some k
      | WaitForAddress =>
          owner ← GetLockOwner x k;
          o ← owner;
          RemoveWaiter o x k
      | WaitConditionVariable m_tree => k ← leave_owner x k; leave_tree m_tree x k
      | AddressArbiter m_tree => leave_tree m_tree x k
      | LightLock => leave_owner x k
      end;
  queue_CancelWait q x wait_result cancel_timer_task k.

Definition BeginWait (x : Z) (queue : KThreadQueue) (k : Kernel) : option Kernel :=
  k ← SetState x ThreadState.Waiting k;
  on_thread x (λ t, set_wait (m_wait_cancelled t) (m_wait_result t) (Some queue) t) k.

Definition EndWait (x wait_result : Z) (k : Kernel) : option Kernel :=
  t ← threads k !! x;
  if GetState t =? ThreadState.Waiting then
    match m_wait_queue t with
    | Some q => dispatch_EndWait q x wait_result k
    | None => k ← SetWaitResult x wait_result k; SetState x ThreadState.Runnable k
    end
  else Some k.

Definition CancelWait (x wait_result : Z) (cancel_timer_task : bool) (k : Kernel) : option Kernel :=
  t ← threads k !! x;
  if GetState t =? ThreadState.Waiting then
    q ← m_wait_queue t;
    dispatch_CancelWait q x wait_result cancel_timer_task k
  else Some k.

Definition OnTimer (x : Z) (k : Kernel) : option Kernel := CancelWait x ResultTimedOut false k.

Definition WaitCancel (x : Z) (k : Kernel) : option Kernel :=
  t ← threads k !! x;
  if (GetState t =? ThreadState.Waiting) && m_cancellable t then
    k ← on_thread x (λ t, set_wait false (m_wait_result t) (m_wait_queue t) t) k;
    q ← m_wait_queue t;
    dispatch_CancelWait q x ResultCancelled true k
  else on_thread x (λ t, set_wait true (m_wait_result t) (m_wait_queue t) t) k.
