(* ===== verification/ThreadLocks.v ===== *)
(** The lists and trees of the locks with priority inheritance: what links threads and lock
    infos, and how the waiters of a lock come and go. *)
From stdpp Require Import sorting.
From S2P Require Import Prelude Common Results PriorityQueue Thread.

(** * Ordered trees *)
Lemma tree_insert_ok less f w tree :
  (∀ e, e ∈ tree → less e = Some (f e)) →
  ∃ l1 l2, tree = l1 ++ l2 ∧ tree_insert less w tree = Some (l1 ++ w :: l2)
    ∧ Forall (λ e, f e = false) l1 ∧ (∀ e, head l2 = Some e → f e = true).
Proof.
  induction tree as [|e tree IH]; intros Hf.
  { by exists [], []. }
  cbn [tree_insert]. rewrite Hf by set_solver. cbn [mbind option_bind].
  destruct (f e) eqn:Ef.
  { exists [], (e :: tree). split_and!; try done. by intros ? [= <-]. }
  destruct IH as (l1 & l2 & -> & E & H1 & H2); [set_solver|]. rewrite E.
  exists (e :: l1), l2. split_and!; try done. by constructor.
Qed.

Lemma StronglySorted_insert {A} (R : A → A → Prop) l1 w l2 :
  (∀ a b c, R a b → R b c → R a c) → StronglySorted R (l1 ++ l2) → Forall (λ e, R e w) l1 →
  (∀ e, head l2 = Some e → R w e) → StronglySorted R (l1 ++ w :: l2).
Proof.
  intros Htr (H3 & H1 & H2)%StronglySorted_app Hl1 Hl2. rewrite Forall_forall in Hl1.
  assert (∀ b, b ∈ l2 → R w b) as Hw.
  { destruct l2 as [|e l2]; [set_solver|]. specialize (Hl2 e eq_refl).
    apply StronglySorted_inv in H2 as [_ H2]. rewrite Forall_forall in H2.
    intros b [->|Hb]%elem_of_cons; eauto. }
  induction H1 as [|x l1 H1 IH Hx]; simpl.
  - constructor; [done|]. by apply Forall_forall.
  - constructor; [apply IH; set_solver|]. rewrite Forall_forall in Hx. apply Forall_forall.
    intros b [?|[->|?]%elem_of_cons]%elem_of_app; [by apply Hx|apply Hl1; set_solver|].
    apply H3; set_solver.
Qed.

Lemma StronglySorted_filter {A} (R : A → A → Prop) (P : A → Prop) `{∀ x, Decision (P x)} l :
  StronglySorted R l → StronglySorted R (filter P l).
Proof.
  induction 1 as [|x l H1 IH Hx]; [constructor|]. rewrite filter_cons. case_decide; [|done].
  constructor; [done|]. rewrite Forall_forall in *. intros b [_ Hb]%list_elem_of_filter. by apply Hx.
Qed.

Lemma StronglySorted_ext {A} (R R' : A → A → Prop) l :
  (∀ a b, a ∈ l → b ∈ l → R a b → R' a b) → StronglySorted R l → StronglySorted R' l.
Proof.
  intros HR. induction 1 as [|x l H1 IH Hx]; [constructor|]. rewrite Forall_forall in *.
  constructor; [apply IH; intros; apply HR; set_solver|]. apply Forall_forall. intros b Hb.
  apply HR; [set_solver..|by apply Hx].
Qed.

Lemma erase_perm (w : Z) l : NoDup l → w ∈ l → l ≡ₚ w :: filter (λ e, e ≠ w) l.
Proof.
  intros Hnd (a & b & ->)%list_elem_of_split. apply NoDup_app in Hnd as (_ & Hab & [Hb _]%NoDup_cons).
  assert (w ∉ a) as Ha by (intros Hw; apply (Hab w Hw); set_solver).
  rewrite filter_app, filter_cons_False by tauto.
  rewrite !filter_id by (intros ? ? ->; tauto). symmetry. apply Permutation_middle.
Qed.

Lemma list_erase_ok w l : w ∈ l → list_erase w l = Some (filter (λ e, e ≠ w) l).
Proof. intros H. unfold list_erase. by rewrite bool_decide_eq_true_2. Qed.

(** * Threads and lock infos *)

Definition prio (k : Kernel) (x : Z) : Z :=
  match members (priority_queue k) !! x with Some m => PriorityQueue.GetPriority m | None => 0 end.

(** The thread that [w] waits for. *)
Definition waits_on (ts : gmap Z KThread) (ls : gmap Z LockInfo) (w : Z) : option Z :=
  t ← ts !! w; l ← m_waiting_lock_info t; li ← ls !! l; Some (li_owner li).

(** [w] is a kernel waiter of [x]. *)
Definition kernel_waiter (ts : gmap Z KThread) (ls : gmap Z LockInfo) (x w : Z) : Prop :=
  waits_on ts ls w = Some x ∧ ∃ t, ts !! w = Some t ∧ m_is_kernel_address_key t = true.

(** The waiters of a lock info, in the order of their priorities. *)
Record lock_ok (pr : Z → Z) (li : LockInfo) : Prop := {
  lo_nodup : NoDup (li_tree li);
  lo_some : li_tree li ≠ [];
  lo_count : li_waiter_count li = Z.of_nat (length (li_tree li));
  lo_sorted : StronglySorted (λ a b, pr a ≤ pr b) (li_tree li);
}.

(** Threads and lock infos point at each other as they should; the slab has a lock info for
    every thread. *)
Record locks_ok (pr : Z → Z) (ts : gmap Z KThread) (ls : gmap Z LockInfo) (slab : list Z) : Prop := {
  lk_held : ∀ x t l, ts !! x = Some t →
    l ∈ m_held_lock_info_list t ↔ ∃ li, ls !! l = Some li ∧ li_owner li = x;
  lk_held_nodup : ∀ x t, ts !! x = Some t → NoDup (m_held_lock_info_list t);
  lk_tree : ∀ l li w, ls !! l = Some li →
    w ∈ li_tree li ↔ ∃ t, ts !! w = Some t ∧ m_waiting_lock_info t = Some l;
  lk_waiting : ∀ w t l, ts !! w = Some t → m_waiting_lock_info t = Some l →
    ∃ li, ls !! l = Some li ∧ m_address_key t = li_address_key li
      ∧ m_is_kernel_address_key t = li_is_kernel_address_key li ∧ m_condvar_tree t = None;
  lk_owner : ∀ l li, ls !! l = Some li → is_Some (ts !! li_owner li);
  lk_info : ∀ l li, ls !! l = Some li → lock_ok pr li;
  lk_kernel : ∀ x t, ts !! x = Some t → ∃ S : gset Z,
    (∀ w, w ∈ S ↔ kernel_waiter ts ls x w) ∧ m_num_kernel_waiters t = Z.of_nat (size S);
  lk_slab : NoDup slab ∧ ∀ l, l ∈ slab → ls !! l = None;
  lk_room : (size ts ≤ length slab + size ls)%nat;
  lk_small : Z.of_nat (size ts) < 2 ^ 31;
}.

(** Only the priorities of the threads that wait matter. *)
Lemma locks_ok_prio pr pr' ts ls slab :
  (∀ w, is_Some (waits_on ts ls w) → pr' w = pr w) → locks_ok pr ts ls slab → locks_ok pr' ts ls slab.
Proof.
  intros Hpr [? ? Ht ? ? Hi ? ? ? ?]. split; try done. intros l li El.
  destruct (Hi l li El) as [? ? ? Hs]. split; try done.
  assert (∀ w, w ∈ li_tree li → pr' w = pr w) as Heq.
  { intros w (t & Et & Ew)%(Ht l li w El). apply Hpr. unfold waits_on. rewrite Et. cbn [mbind option_bind].
    rewrite Ew. cbn [mbind option_bind]. by rewrite El. }
  eapply StronglySorted_ext; [|done]. simpl. intros a b Ha Hb. by rewrite !Heq.
Qed.

(** ** Threads with other links *)

(** A thread after [w] has begun or ended to wait and [x] has got or lost a held lock. *)
Definition relink (w : Z) (lock : option Z) (x : Z) (held : list Z) (n : Z) (y : Z) (t : KThread) : KThread :=
  let t := if decide (y = x) then set_held held (set_num_kernel_waiters n t) else t in
  if decide (y = w) then SetWaitingLockInfo lock t else t.

(** What no operation on locks changes. *)
Definition core (t : KThread) : KThread := set_held [] (SetWaitingLockInfo None (set_num_kernel_waiters 0 t)).

Lemma relink_core w lock x held n y t : core (relink w lock x held n y t) = core t.
Proof. unfold relink. by repeat case_decide. Qed.
Lemma relink_waiting w lock x held n y t :
  m_waiting_lock_info (relink w lock x held n y t) = if decide (y = w) then lock else m_waiting_lock_info t.
Proof. unfold relink. by repeat case_decide. Qed.
Lemma relink_held w lock x held n y t :
  m_held_lock_info_list (relink w lock x held n y t) = if decide (y = x) then held else m_held_lock_info_list t.
Proof. unfold relink. by repeat case_decide. Qed.
Lemma relink_kernel w lock x held n y t :
  m_num_kernel_waiters (relink w lock x held n y t) = if decide (y = x) then n else m_num_kernel_waiters t.
Proof. unfold relink. by repeat case_decide. Qed.

Lemma relink_is_kernel w lock x held n y t :
  m_is_kernel_address_key (relink w lock x held n y t) = m_is_kernel_address_key t.
Proof. unfold relink. by repeat case_decide. Qed.
Lemma relink_address_key w lock x held n y t :
  m_address_key (relink w lock x held n y t) = m_address_key t.
Proof. unfold relink. by repeat case_decide. Qed.
Lemma relink_condvar w lock x held n y t :
  m_condvar_tree (relink w lock x held n y t) = m_condvar_tree t.
Proof. unfold relink. by repeat case_decide. Qed.

Lemma core_fields t t' : core t' = core t →
  m_base_priority t' = m_base_priority t ∧ m_thread_state t' = m_thread_state t
  ∧ m_address_key t' = m_address_key t ∧ m_is_kernel_address_key t' = m_is_kernel_address_key t
  ∧ m_condvar_tree t' = m_condvar_tree t ∧ m_condvar_key t' = m_condvar_key t ∧ m_parent t' = m_parent t.
Proof. intros E. injection E. intros. by split_and!. Qed.

Section relinked.
Context (ts ts' : gmap Z KThread) (w x : Z) (lock : option Z) (held : list Z) (n : Z).
Context (Hts : ∀ y, ts' !! y = relink w lock x held n y <$> ts !! y).

Lemma relinked_inv y t' : ts' !! y = Some t' → ∃ t, ts !! y = Some t ∧ t' = relink w lock x held n y t.
Proof using Hts. rewrite Hts. intros (t & E & ->)%fmap_Some. by exists t. Qed.
Lemma relinked_lookup y t : ts !! y = Some t → ts' !! y = Some (relink w lock x held n y t).
Proof using Hts. intros E. by rewrite Hts, E. Qed.
Lemma relinked_dom y : is_Some (ts' !! y) ↔ is_Some (ts !! y).
Proof using Hts. by rewrite Hts, fmap_is_Some. Qed.
Lemma relinked_size : size ts' = size ts.
Proof using Hts.
  rewrite <-!size_dom. f_equal. apply set_eq. intros y. by rewrite !elem_of_dom, relinked_dom.
Qed.

(** Who waits where, when the lock infos other than [l] stay and [l] keeps its owner [x]. *)
Lemma relinked_waits ls ls' l :
  (∀ l', l' ≠ l → ls' !! l' = ls !! l') → (∀ li', ls' !! l = Some li' → li_owner li' = x) →
  (∀ y t, ts !! y = Some t → m_waiting_lock_info t = Some l → y = w ∨ is_Some (ls' !! l)) →
  (∀ li, ls !! l = Some li → li_owner li = x) →
  (∀ y t l', ts !! y = Some t → m_waiting_lock_info t = Some l' → is_Some (ls !! l')) →
  lock = None ∨ lock = Some l ∧ is_Some (ls' !! l) → is_Some (ts !! w) →
  ∀ y, waits_on ts' ls' y = if decide (y = w) then match lock with Some _ => Some x | None => None end
                             else waits_on ts ls y.
Proof using Hts.
  intros Ho Hx Hw Hlx Hsome Hlock [tw Etw] y. unfold waits_on. rewrite Hts. case_decide as Ey.
  - subst y. rewrite Etw. simpl. rewrite relink_waiting, decide_True by done.
    destruct Hlock as [->|[-> [li' E]]]; [done|]. simpl. rewrite E. simpl. by rewrite (Hx _ E).
  - destruct (ts !! y) as [t|] eqn:Ety; [|done]. simpl. rewrite relink_waiting, decide_False by done.
    destruct (m_waiting_lock_info t) as [l'|] eqn:El'; [|done]. simpl. destruct (decide (l' = l)) as [->|].
    + destruct (Hw y t Ety El') as [|[li' E]]; [done|]. destruct (Hsome y t l Ety El') as [li E'].
      rewrite E, E'. simpl. by rewrite (Hx _ E), (Hlx _ E').
    + by rewrite Ho.
Qed.
End relinked.

(** * A waiter leaves *)
Section removed.
Context (pr : Z → Z) (ts : gmap Z KThread) (ls : gmap Z LockInfo) (slab : list Z).
Context (L : locks_ok pr ts ls slab).
Context (w l x : Z) (tw tx : KThread) (li : LockInfo).
Context (Etw : ts !! w = Some tw) (Ewl : m_waiting_lock_info tw = Some l) (El : ls !! l = Some li)
        (Ex : li_owner li = x) (Etx : ts !! x = Some tx).
Let rest : list Z := filter (λ e, e ≠ w) (li_tree li).
Context (ts' : gmap Z KThread) (ls' : gmap Z LockInfo) (slab' : list Z).
Context (Hts : ∀ y, ts' !! y =
  relink w None x (if decide (rest = []) then filter (λ e, e ≠ l) (m_held_lock_info_list tx)
                   else m_held_lock_info_list tx)
    (m_num_kernel_waiters tx - if li_is_kernel_address_key li then 1 else 0) y <$> ts !! y).
Context (Hls : ∀ l', ls' !! l' =
  if decide (l' = l) then
    if decide (rest = []) then None else Some (set_waiters rest (Z.of_nat (length rest)) li)
  else ls !! l').
Context (Hslab : slab' = if decide (rest = []) then l :: slab else slab).

Lemma removed_in_tree : w ∈ li_tree li.
Proof using L Etw Ewl El. apply (lk_tree _ _ _ _ L l li w El). by exists tw. Qed.

Lemma removed_perm : li_tree li ≡ₚ w :: rest.
Proof using L Etw Ewl El.
  destruct (lk_info _ _ _ _ L l li El) as [Hnd _ _ _]. apply erase_perm; [done|apply removed_in_tree].
Qed.

Lemma removed_waits y : waits_on ts' ls' y = if decide (y = w) then None else waits_on ts ls y.
Proof using All.
  refine (relinked_waits ts ts' w x None _ _ Hts ls ls' l _ _ _ _ _ _ _ y).
  - intros l' Hne. by rewrite Hls, decide_False.
  - intros li'. rewrite Hls, decide_True by done. destruct (decide (rest = [])); [done|]. by intros [= <-].
  - intros y' t Ey Ew. destruct (decide (y' = w)) as [|Hne]; [by left|]. right.
    rewrite Hls, decide_True by done. rewrite decide_False; [done|]. intros Hr.
    assert (y' ∈ rest) as Hy; [|rewrite Hr in Hy; by apply elem_of_nil in Hy].
    apply list_elem_of_filter. split; [done|]. apply (lk_tree _ _ _ _ L l li y' El). by exists t.
  - intros li'. rewrite El. by intros [= <-].
  - intros y' t l' Ey Ew. destruct (lk_waiting _ _ _ _ L y' t l' Ey Ew) as (li' & E & _). by exists li'.
  - by left.
  - by exists tw.
Qed.

Lemma removed_own_kernel : m_is_kernel_address_key tw = li_is_kernel_address_key li.
Proof using L Etw Ewl El.
  destruct (lk_waiting _ _ _ _ L w tw l Etw Ewl) as (li' & E & _ & Hk & _). congruence.
Qed.

Lemma removed_kernel y t : ts !! y = Some t → ∃ S : gset Z,
  (∀ v, v ∈ S ↔ kernel_waiter ts' ls' y v)
  ∧ (if decide (y = x) then m_num_kernel_waiters tx - (if li_is_kernel_address_key li then 1 else 0)
     else m_num_kernel_waiters t) = Z.of_nat (size S).
Proof using All.
  intros Ey. destruct (lk_kernel _ _ _ _ L y t Ey) as (S & HS & Hn).
  assert (∀ v, kernel_waiter ts' ls' y v ↔ v ≠ w ∧ v ∈ S) as Hv.
  { intros v. rewrite HS. unfold kernel_waiter. rewrite removed_waits, Hts.
    destruct (decide (v = w)) as [->|Hne]; [split; [by intros [? _]|tauto]|].
    destruct (ts !! v) as [tv|]; simpl; [|naive_solver].
    split.
    - intros [? (? & [= <-] & Hk)]. rewrite relink_is_kernel in Hk. naive_solver.
    - intros (_ & ? & ? & [= <-] & ?). split; [done|]. eexists. split; [done|]. by rewrite relink_is_kernel. }
  exists (S ∖ {[w]}). split; [intros v; rewrite Hv; set_solver|].
  assert (waits_on ts ls w = Some x) as Hwx.
  { unfold waits_on. rewrite Etw. simpl. rewrite Ewl. simpl. rewrite El. simpl. by rewrite Ex. }
  destruct (decide (w ∈ S)) as [Hw|Hw].
  - pose proof (proj1 (HS w) Hw) as (Hwy & tw' & Etw' & Hk). simplify_eq.
    rewrite decide_True by done. rewrite <-removed_own_kernel, Hk.
    rewrite size_difference by set_solver. rewrite size_singleton.
    assert (size S ≠ 0%nat) as ?; [|lia]. intros H0%size_empty_inv. set_solver.
  - replace (S ∖ {[w]}) with S by set_solver. destruct (decide (y = x)) as [->|]; [|done]. simplify_eq.
    destruct (li_is_kernel_address_key li) eqn:Ek; [|lia]. destruct Hw. apply HS. split; [done|].
    exists tw. split; [done|]. by rewrite removed_own_kernel.
Qed.

Lemma locks_ok_removed : locks_ok pr ts' ls' slab'.
Proof using All.
  pose proof removed_perm as Hperm. pose proof (lk_info _ _ _ _ L l li El) as [Hnd Hne Hcount Hsort].
  split.
  - intros y t' j (t & Ey & ->)%(relinked_inv _ _ _ _ _ _ _ Hts). rewrite relink_held, Hls.
    pose proof (lk_held _ _ _ _ L y t j Ey) as Hh. destruct (decide (j = l)) as [->|Hj].
    + destruct (decide (rest = [])) as [Hr|Hr].
      * destruct (decide (y = x)) as [->|Hyx]; [rewrite list_elem_of_filter; naive_solver|].
        rewrite Hh. split; [|naive_solver]. intros (li' & E & E'). simplify_eq.
      * transitivity (l ∈ m_held_lock_info_list t); [destruct (decide (y = x)); by simplify_eq|].
        rewrite Hh. split; intros (li' & E & E'); simplify_eq; eauto.
    + rewrite <-Hh. destruct (decide (y = x)) as [->|]; [|done]. simplify_eq.
      destruct (decide (rest = [])); [|done].
      rewrite list_elem_of_filter. tauto.
  - intros y t' (t & Ey & ->)%(relinked_inv _ _ _ _ _ _ _ Hts). rewrite relink_held.
    destruct (decide (y = x)); [|by apply (lk_held_nodup _ _ _ _ L y)].
    destruct (decide (rest = [])); [apply NoDup_filter|]; by apply (lk_held_nodup _ _ _ _ L x).
  - intros j li' v. rewrite Hls. intros Ej. destruct (decide (j = l)) as [->|Hj].
    + destruct (decide (rest = [])); [done|]. injection Ej as <-. simpl. unfold rest.
      rewrite list_elem_of_filter, (lk_tree _ _ _ _ L l li v El). split.
      * intros (Hv & t & Ev & Hw). eexists. split; [by apply (relinked_lookup _ _ _ _ _ _ _ Hts)|].
        by rewrite relink_waiting, decide_False.
      * intros (t' & (t & Ev & ->)%(relinked_inv _ _ _ _ _ _ _ Hts) & Hw).
        rewrite relink_waiting in Hw. destruct (decide (v = w)); [done|]. eauto.
    + rewrite (lk_tree _ _ _ _ L j li' v Ej). split.
      * intros (t & Ev & Hw). eexists. split; [by apply (relinked_lookup _ _ _ _ _ _ _ Hts)|].
        rewrite relink_waiting, decide_False; [done|]. intros ->. simplify_eq.
      * intros (t' & (t & Ev & ->)%(relinked_inv _ _ _ _ _ _ _ Hts) & Hw).
        rewrite relink_waiting in Hw. destruct (decide (v = w)); [done|]. eauto.
  - intros v t' j (t & Ev & ->)%(relinked_inv _ _ _ _ _ _ _ Hts) Hw. rewrite relink_waiting in Hw.
    destruct (decide (v = w)) as [|Hvw]; [done|]. destruct (lk_waiting _ _ _ _ L v t j Ev Hw) as (lj & Ej & Ha & Hk & Hc).
    rewrite relink_address_key, relink_is_kernel, relink_condvar, Hls.
    destruct (decide (j = l)) as [Hj|Hj]; [|eauto]. simplify_eq. rewrite decide_False; [by eexists|].
    intros Hr. assert (v ∈ rest) as Hy; [|rewrite Hr in Hy; by apply elem_of_nil in Hy].
    apply list_elem_of_filter. split; [done|]. apply (lk_tree _ _ _ _ L l li v El). by exists t.
  - intros j lj. rewrite Hls. intros Ej. apply (relinked_dom _ _ _ _ _ _ _ Hts).
    destruct (decide (j = l)); [|by eapply (lk_owner _ _ _ _ L)].
    destruct (decide (rest = [])); [done|]. injection Ej as <-. simpl. rewrite Ex. by exists tx.
  - intros j lj. rewrite Hls. intros Ej. destruct (decide (j = l)); [|by eapply (lk_info _ _ _ _ L)].
    destruct (decide (rest = [])) as [|Hr]; [done|]. injection Ej as <-. split; simpl; try done.
    + by apply NoDup_filter.
    + by apply StronglySorted_filter.
  - intros y t' (t & Ey & ->)%(relinked_inv _ _ _ _ _ _ _ Hts). rewrite relink_kernel.
    by apply removed_kernel.
  - destruct (lk_slab _ _ _ _ L) as [Hs1 Hs2]. subst slab'. destruct (decide (rest = [])) as [Hr|Hr].
    + split; [constructor; [|done]; intros Hl; specialize (Hs2 l Hl); congruence|].
      intros j [->|Hj]%elem_of_cons; rewrite Hls; [by rewrite decide_True|].
      destruct (decide (j = l)); [done|auto].
    + split; [done|]. intros j Hj. rewrite Hls. destruct (decide (j = l)); [|auto]. subst. specialize (Hs2 l Hj). congruence.
  - rewrite (relinked_size _ _ _ _ _ _ _ Hts). pose proof (lk_room _ _ _ _ L) as Hroom. subst slab'.
    destruct (decide (rest = [])) as [Hr|Hr].
    + replace ls' with (delete l ls); [rewrite map_size_delete, El; simpl|].
      * assert (size ls ≠ 0%nat); [|lia]. intros H0%map_size_empty_inv. by rewrite H0 in El.
      * apply map_eq. intros j. rewrite Hls, lookup_delete.
        destruct (decide (j = l)), (decide (l = j)); by subst.
    + replace ls' with (<[l := set_waiters rest (Z.of_nat (length rest)) li]> ls); [by rewrite map_size_insert, El|].
      apply map_eq. intros j. rewrite Hls, lookup_insert.
      destruct (decide (j = l)), (decide (l = j)); by subst.
  - rewrite (relinked_size _ _ _ _ _ _ _ Hts). apply (lk_small _ _ _ _ L).
Qed.
End removed.

(** * A waiter joins: a lock info of the owner, or one that is created for it *)
Section added.
Context (pr : Z → Z) (ts : gmap Z KThread) (ls : gmap Z LockInfo) (slab : list Z).
Context (L : locks_ok pr ts ls slab).
Context (w l x : Z) (tw tx : KThread) (li : LockInfo) (l1 l2 : list Z) (held slab' : list Z).
Context (Etw : ts !! w = Some tw) (Ewl : m_waiting_lock_info tw = None)
        (Ecv : m_condvar_tree tw = None) (Etx : ts !! x = Some tx).
Context (Eo : li_owner li = x) (Et : li_tree li = l1 ++ w :: l2)
        (Ec : li_waiter_count li = Z.of_nat (length (li_tree li)))
        (Ek : li_address_key li = m_address_key tw)
        (Ei : li_is_kernel_address_key li = m_is_kernel_address_key tw)
        (Hsort : StronglySorted (λ a b, pr a ≤ pr b) (li_tree li)).
Context (Hcase :
  (∃ li0, ls !! l = Some li0 ∧ li_owner li0 = x ∧ li_tree li0 = l1 ++ l2
     ∧ li_address_key li0 = li_address_key li
     ∧ li_is_kernel_address_key li0 = li_is_kernel_address_key li)
    ∧ held = m_held_lock_info_list tx ∧ slab' = slab
  ∨ ls !! l = None ∧ l1 ++ l2 = [] ∧ held = l :: m_held_lock_info_list tx ∧ slab = l :: slab').
Context (ts' : gmap Z KThread) (ls' : gmap Z LockInfo).
Context (Hts : ∀ y, ts' !! y =
  relink w (Some l) x held
    (m_num_kernel_waiters tx + if m_is_kernel_address_key tw then 1 else 0) y <$> ts !! y).
Context (Hls : ∀ l', ls' !! l' = if decide (l' = l) then Some li else ls !! l').

Lemma added_new y t : ts !! y = Some t → m_waiting_lock_info t = Some l → ∃ li0, ls !! l = Some li0.
Proof using L.
  intros Ey Ew. destruct (lk_waiting _ _ _ _ L y t l Ey Ew) as (li0 & E & _). by exists li0.
Qed.

Lemma added_other y : y ∈ l1 ++ l2 ↔ ∃ t, ts !! y = Some t ∧ m_waiting_lock_info t = Some l.
Proof using All.
  destruct Hcase as [((li0 & E & _ & <- & _) & _)|(E & -> & _)]; [by apply (lk_tree _ _ _ _ L)|].
  split; [by intros ?%elem_of_nil|]. intros (t & Ey & Ew). destruct (added_new y t Ey Ew). congruence.
Qed.

Lemma added_absent : w ∉ l1 ++ l2.
Proof using All. intros (t & E & Ew)%added_other. congruence. Qed.

Lemma added_waits y : waits_on ts' ls' y = if decide (y = w) then Some x else waits_on ts ls y.
Proof using All.
  refine (relinked_waits ts ts' w x (Some l) _ _ Hts ls ls' l _ _ _ _ _ _ _ y).
  - intros l' Hne. by rewrite Hls, decide_False.
  - intros li'. rewrite Hls, decide_True by done. by intros [= <-].
  - intros y' t Ey Ew. right. rewrite Hls, decide_True by done. by exists li.
  - intros li' E. destruct Hcase as [((li0 & E' & ? & _) & _)|(E' & _)]; congruence.
  - intros y' t l' Ey Ew. destruct (lk_waiting _ _ _ _ L y' t l' Ey Ew) as (li' & E & _). by exists li'.
  - right. split; [done|]. rewrite Hls, decide_True by done. by exists li.
  - by exists tw.
Qed.

Lemma added_kernel y t : ts !! y = Some t → ∃ S : gset Z,
  (∀ v, v ∈ S ↔ kernel_waiter ts' ls' y v)
  ∧ (if decide (y = x) then m_num_kernel_waiters tx + (if m_is_kernel_address_key tw then 1 else 0)
     else m_num_kernel_waiters t) = Z.of_nat (size S).
Proof using All.
  intros Ey. destruct (lk_kernel _ _ _ _ L y t Ey) as (S & HS & Hn).
  assert (w ∉ S) as HwS.
  { intros (Hw & _)%HS. unfold waits_on in Hw. rewrite Etw in Hw. simpl in Hw. by rewrite Ewl in Hw. }
  assert (∀ v, kernel_waiter ts' ls' y v ↔ v ∈ S ∨ v = w ∧ x = y ∧ m_is_kernel_address_key tw = true) as Hv.
  { intros v. rewrite HS. unfold kernel_waiter. rewrite added_waits, Hts.
    destruct (decide (v = w)) as [->|Hne].
    - rewrite Etw. simpl. assert (waits_on ts ls w = None) as ->.
      { unfold waits_on. rewrite Etw. simpl. by rewrite Ewl. }
      split.
      + intros ([= <-] & ? & [= <-] & Hk). rewrite relink_is_kernel in Hk. by right.
      + intros [[? _]|(_ & <- & Hk)]; [done|]. split; [done|]. eexists. split; [done|]. by rewrite relink_is_kernel.
    - destruct (ts !! v) as [tv|]; simpl; [|naive_solver]. split.
      + intros [? (? & [= <-] & Hk)]. rewrite relink_is_kernel in Hk. naive_solver.
      + intros [[? (? & [= <-] & Hk)]|[]]; [|done]. split; [done|]. eexists. split; [done|]. by rewrite relink_is_kernel. }
  destruct (decide (y = x)) as [->|Hyx].
  - simplify_eq. destruct (m_is_kernel_address_key tw).
    + exists ({[w]} ∪ S). split; [intros v; rewrite Hv; set_solver|].
      rewrite size_union by set_solver. rewrite size_singleton. lia.
    + exists S. split; [intros v; rewrite Hv; naive_solver|lia].
  - exists S. split; [intros v; rewrite Hv; naive_solver|done].
Qed.

Lemma locks_ok_added : locks_ok pr ts' ls' slab'.
Proof using All.
  pose proof added_absent as Hwl. split.
  - intros y t' j (t & Ey & ->)%(relinked_inv _ _ _ _ _ _ _ Hts). rewrite relink_held, Hls.
    pose proof (lk_held _ _ _ _ L y t j Ey) as Hh. destruct (decide (y = x)) as [->|Hyx].
    + simplify_eq. destruct Hcase as [((li0 & E & ? & _) & -> & _)|(E & _ & -> & _)].
      * rewrite Hh. destruct (decide (j = l)) as [->|]; [|done]. naive_solver.
      * rewrite elem_of_cons, Hh. destruct (decide (j = l)) as [->|]; naive_solver.
    + rewrite Hh. destruct (decide (j = l)) as [->|]; [|done].
      destruct Hcase as [((li0 & E & ? & _) & _)|(E & _)]; naive_solver.
  - intros y t' (t & Ey & ->)%(relinked_inv _ _ _ _ _ _ _ Hts). rewrite relink_held.
    pose proof (lk_held_nodup _ _ _ _ L y t Ey). destruct (decide (y = x)) as [->|]; [|done]. simplify_eq.
    destruct Hcase as [(_ & -> & _)|(E & _ & -> & _)]; [done|]. constructor; [|done].
    rewrite (lk_held _ _ _ _ L _ _ l Etx). naive_solver.
  - intros j lj v. rewrite Hls. intros Ej. destruct (decide (j = l)) as [->|Hj].
    + injection Ej as <-. rewrite Et. transitivity (v = w ∨ v ∈ l1 ++ l2); [set_solver|]. rewrite added_other.
      split.
      * intros [->|(t & Ev & Hw)]; (eexists; split; [by apply (relinked_lookup _ _ _ _ _ _ _ Hts)|]);
          rewrite relink_waiting; [by rewrite decide_True|by destruct (decide (v = w))].
      * intros (t' & (t & Ev & ->)%(relinked_inv _ _ _ _ _ _ _ Hts) & Hw).
        rewrite relink_waiting in Hw. destruct (decide (v = w)); [by left|right; eauto].
    + rewrite (lk_tree _ _ _ _ L j lj v Ej). split.
      * intros (t & Ev & Hw). eexists. split; [by apply (relinked_lookup _ _ _ _ _ _ _ Hts)|].
        rewrite relink_waiting, decide_False; [done|]. intros ->. congruence.
      * intros (t' & (t & Ev & ->)%(relinked_inv _ _ _ _ _ _ _ Hts) & Hw).
        rewrite relink_waiting in Hw. destruct (decide (v = w)); [congruence|eauto].
  - intros v t' j (t & Ev & ->)%(relinked_inv _ _ _ _ _ _ _ Hts) Hw. rewrite relink_waiting in Hw.
    rewrite relink_address_key, relink_is_kernel, relink_condvar, Hls.
    destruct (decide (v = w)) as [->|Hvw].
    + simplify_eq. rewrite decide_True by done. by exists li.
    + destruct (lk_waiting _ _ _ _ L v t j Ev Hw) as (lj & Ej & Ha & Hk & Hc).
      destruct (decide (j = l)) as [->|]; [|eauto]. exists li. split; [done|].
      destruct Hcase as [((li0 & E & _ & _ & <- & <-) & _)|(E & _)]; [|congruence]. by simplify_eq.
  - intros j lj. rewrite Hls. intros Ej. apply (relinked_dom _ _ _ _ _ _ _ Hts).
    destruct (decide (j = l)); [|by eapply (lk_owner _ _ _ _ L)]. injection Ej as <-. rewrite Eo. by exists tx.
  - intros j lj. rewrite Hls. intros Ej. destruct (decide (j = l)); [|by eapply (lk_info _ _ _ _ L)].
    injection Ej as <-. split; [|rewrite Et; by destruct l1|done|done]. rewrite Et.
    assert (NoDup (l1 ++ l2)) as Hnd.
    { destruct Hcase as [((li0 & E & _ & <- & _) & _)|(_ & -> & _)]; [|constructor].
      apply (lk_info _ _ _ _ L l li0 E). }
    rewrite <-(Permutation_middle l1 l2 w). by constructor.
  - intros y t' (t & Ey & ->)%(relinked_inv _ _ _ _ _ _ _ Hts). rewrite relink_kernel. by apply added_kernel.
  - destruct (lk_slab _ _ _ _ L) as [Hs1 Hs2].
    destruct Hcase as [((li0 & E & _) & _ & ->)|(E & _ & _ & Es)].
    + split; [done|]. intros j Hj. rewrite Hls. destruct (decide (j = l)); [|auto]. specialize (Hs2 j Hj). congruence.
    + rewrite Es in Hs1, Hs2. apply NoDup_cons in Hs1 as [Hs0 Hs1]. split; [done|]. intros j Hj. rewrite Hls.
      rewrite decide_False; [apply Hs2; set_solver|]. intros ->. done.
  - rewrite (relinked_size _ _ _ _ _ _ _ Hts). pose proof (lk_room _ _ _ _ L) as Hroom.
    replace ls' with (<[l := li]> ls); [rewrite map_size_insert|].
    + destruct Hcase as [((li0 & E & _) & _ & ->)|(E & _ & _ & Es)]; rewrite E; [done|]. rewrite Es in Hroom.
      simpl in *. lia.
    + apply map_eq. intros j. rewrite Hls, lookup_insert. destruct (decide (j = l)), (decide (l = j)); by subst.
  - rewrite (relinked_size _ _ _ _ _ _ _ Hts). apply (lk_small _ _ _ _ L).
Qed.
End added.

(** * A lock changes hands *)

(** A thread after lock [l] with [n] kernel waiters went from [x] to [o]. *)
Definition give (x l n : Z) (y : Z) (t : KThread) : KThread :=
  if decide (y = x) then set_held (filter (λ e, e ≠ l) (m_held_lock_info_list t))
                           (set_num_kernel_waiters (m_num_kernel_waiters t - n) t) else t.
Definition receive (o l n : Z) (y : Z) (t : KThread) : KThread :=
  if decide (y = o) then set_held (l :: m_held_lock_info_list t)
                           (set_num_kernel_waiters (m_num_kernel_waiters t + n) t) else t.

Section handed.
Context (pr : Z → Z) (ts : gmap Z KThread) (ls : gmap Z LockInfo) (slab : list Z).
Context (L : locks_ok pr ts ls slab).
Context (l x o : Z) (li : LockInfo).
Context (El : ls !! l = Some li) (Ex : li_owner li = x) (Ho : is_Some (ts !! o)).
Let n : Z := if li_is_kernel_address_key li then Z.of_nat (length (li_tree li)) else 0.
Context (ts' : gmap Z KThread) (ls' : gmap Z LockInfo).
Context (Hts : ∀ y, ts' !! y = receive o l n y ∘ give x l n y <$> ts !! y).
Context (Hls : ∀ l', ls' !! l' = if decide (l' = l) then Some (set_owner o li) else ls !! l').

Lemma handed_fields y t :
  core (receive o l n y (give x l n y t)) = core t
  ∧ m_waiting_lock_info (receive o l n y (give x l n y t)) = m_waiting_lock_info t
  ∧ m_is_kernel_address_key (receive o l n y (give x l n y t)) = m_is_kernel_address_key t
  ∧ m_address_key (receive o l n y (give x l n y t)) = m_address_key t
  ∧ m_condvar_tree (receive o l n y (give x l n y t)) = m_condvar_tree t.
Proof. unfold receive, give. destruct (decide (y = o)), (decide (y = x)); by split_and!. Qed.

Lemma handed_inv y t' : ts' !! y = Some t' →
  ∃ t, ts !! y = Some t ∧ t' = receive o l n y (give x l n y t).
Proof using Hts. rewrite Hts. intros (t & E & ->)%fmap_Some. by exists t. Qed.

Lemma handed_dom : dom ts' = dom ts.
Proof using Hts. apply set_eq. intros y. by rewrite !elem_of_dom, Hts, fmap_is_Some. Qed.

Lemma handed_in_tree v t : ts !! v = Some t → m_waiting_lock_info t = Some l ↔ v ∈ li_tree li.
Proof using L El.
  intros Ev. rewrite (lk_tree _ _ _ _ L l li v El). split; [by exists t|]. intros (t' & E & Hw). congruence.
Qed.

Lemma handed_waits y : waits_on ts' ls' y = if decide (y ∈ li_tree li) then Some o else waits_on ts ls y.
Proof using All.
  unfold waits_on. rewrite Hts. destruct (decide (y ∈ li_tree li)) as [Hy|Hy].
  - apply (lk_tree _ _ _ _ L l li y El) in Hy as (t & Et & Ew). rewrite Et. simpl.
    destruct (handed_fields y t) as (_ & -> & _). rewrite Ew. simpl. by rewrite Hls, decide_True.
  - destruct (ts !! y) as [t|] eqn:Et; [|done]. simpl. destruct (handed_fields y t) as (_ & -> & _).
    destruct (m_waiting_lock_info t) as [j|] eqn:Ej; [|done]. simpl. rewrite Hls, decide_False; [done|].
    intros ->. apply Hy. by apply (handed_in_tree y t).
Qed.

Lemma handed_kernel y t : ts !! y = Some t → ∃ S : gset Z,
  (∀ v, v ∈ S ↔ kernel_waiter ts' ls' y v)
  ∧ m_num_kernel_waiters (receive o l n y (give x l n y t)) = Z.of_nat (size S).
Proof using All.
  intros Ey. destruct (lk_kernel _ _ _ _ L y t Ey) as (S & HS & Hn).
  destruct (lk_info _ _ _ _ L l li El) as [Hnd _ _ _].
  assert (∀ v tv, ts !! v = Some tv → v ∈ li_tree li →
    m_is_kernel_address_key tv = li_is_kernel_address_key li ∧ waits_on ts ls v = Some x) as Htree.
  { intros v tv Ev Hv%(handed_in_tree v tv Ev). destruct (lk_waiting _ _ _ _ L v tv l Ev Hv) as (lj & Ej & _ & Hk & _).
    simplify_eq. split; [done|]. unfold waits_on. rewrite Ev. simpl. rewrite Hv. simpl. by rewrite El. }
  set (T := (if li_is_kernel_address_key li then list_to_set (li_tree li) else ∅) : gset Z).
  assert (n = Z.of_nat (size T)) as En.
  { unfold n, T. destruct (li_is_kernel_address_key li); [|by rewrite size_empty]. by rewrite size_list_to_set. }
  assert (∀ v, v ∈ T ↔ v ∈ li_tree li ∧ li_is_kernel_address_key li = true) as HT.
  { intros v. unfold T. destruct (li_is_kernel_address_key li); set_solver. }
  assert (∀ v, kernel_waiter ts' ls' y v ↔ v ∈ T ∧ o = y ∨ v ∉ T ∧ v ∈ S) as Hv.
  { intros v. rewrite HS, HT. unfold kernel_waiter. rewrite handed_waits, Hts.
    destruct (ts !! v) as [tv|] eqn:Ev; simpl.
    2: { split; [naive_solver|]. intros [[[Hv _] _]|(_ & _ & ? & ? & _)]; [|done].
         apply (lk_tree _ _ _ _ L l li v El) in Hv as (? & ? & _). congruence. }
    destruct (handed_fields v tv) as (_ & _ & Hk & _). destruct (decide (v ∈ li_tree li)) as [Hin|Hin].
    - destruct (Htree v tv Ev Hin) as [Hkv ->]. split.
      + intros ([= <-] & ? & [= <-] & Hk'). left. split_and!; try done. congruence.
      + intros [[[_ Hk'] <-]|[Hno (_ & ? & [= <-] & Hk')]]; [|destruct Hno; split; [done|congruence]].
        split; [done|]. eexists. split; [done|]. congruence.
    - split.
      + intros (Hw & ? & [= <-] & Hk'). right. split; [tauto|]. split; [done|]. eexists. split; [done|]. congruence.
      + intros [[[]]|[_ (Hw & ? & [= <-] & Hk')]]; [done|]. split; [done|]. eexists. split; [done|]. congruence. }
  assert (∀ v, v ∈ T → v ∈ S ↔ x = y) as HTS.
  { intros v [Hin Hk]%HT. rewrite HS. pose proof Hin as (tv & Ev & Hw)%(lk_tree _ _ _ _ L l li v El).
    destruct (Htree v tv Ev Hin) as [Hkv Hx]. unfold kernel_waiter. rewrite Hx.
    split; [naive_solver|]. intros ->. split; [done|]. exists tv. split; [done|congruence]. }
  unfold receive, give. destruct (decide (y = o)) as [Hyo|Hyo], (decide (y = x)) as [Hyx|Hyx]; simpl.
  - exists S. split; [|lia]. intros v. rewrite Hv. destruct (decide (v ∈ T)) as [Hin|]; [|naive_solver].
    rewrite (HTS v Hin). naive_solver.
  - exists (T ∪ S). split.
    + intros v. rewrite Hv, elem_of_union. destruct (decide (v ∈ T)); naive_solver.
    + rewrite size_union; [lia|]. intros v Hin Hs. apply (HTS v Hin) in Hs. congruence.
  - exists (S ∖ T). split.
    + intros v. rewrite Hv, elem_of_difference. naive_solver.
    + rewrite size_difference; [|intros v Hin; by apply (HTS v Hin)].
      assert (size T ≤ size S)%nat; [|lia]. apply subseteq_size. intros v Hin. by apply (HTS v Hin).
  - exists S. split; [|done]. intros v. rewrite Hv. destruct (decide (v ∈ T)) as [Hin|]; [|naive_solver].
    rewrite (HTS v Hin). naive_solver.
Qed.

Lemma handed_held y t j : ts !! y = Some t →
  j ∈ m_held_lock_info_list (receive o l n y (give x l n y t))
  ↔ if decide (j = l) then y = o else j ∈ m_held_lock_info_list t.
Proof using All.
  intros Ey. pose proof (lk_held _ _ _ _ L y t l Ey) as Hl. unfold receive, give.
  destruct (decide (y = o)), (decide (y = x)), (decide (j = l)) as [->|]; simpl;
    rewrite ?elem_of_cons, ?list_elem_of_filter; naive_solver.
Qed.

Lemma handed_held_nodup y t : ts !! y = Some t →
  NoDup (m_held_lock_info_list (receive o l n y (give x l n y t))).
Proof using All.
  intros Ey. pose proof (lk_held _ _ _ _ L y t l Ey) as Hl. pose proof (lk_held_nodup _ _ _ _ L y t Ey).
  unfold receive, give. destruct (decide (y = o)), (decide (y = x)); simpl; rewrite ?NoDup_cons.
  - split; [rewrite list_elem_of_filter; naive_solver|by apply NoDup_filter].
  - split; [rewrite Hl; naive_solver|done].
  - by apply NoDup_filter.
  - done.
Qed.

Lemma locks_ok_handed : locks_ok pr ts' ls' slab.
Proof using All.
  split.
  - intros y t' j (t & Ey & ->)%handed_inv. rewrite (handed_held y t j Ey), Hls.
    destruct (decide (j = l)); [naive_solver|]. by apply (lk_held _ _ _ _ L).
  - intros y t' (t & Ey & ->)%handed_inv. by apply handed_held_nodup.
  - intros j lj v. rewrite Hls. intros Ej.
    assert (∃ lj0, ls !! j = Some lj0 ∧ li_tree lj0 = li_tree lj) as (lj0 & Ej0 & <-).
    { destruct (decide (j = l)) as [->|]; [|by exists lj]. injection Ej as <-. by exists li. }
    rewrite (lk_tree _ _ _ _ L j lj0 v Ej0), Hts. destruct (ts !! v) as [t|]; simpl; [|naive_solver].
    destruct (handed_fields v t) as (_ & Hw & _). split; intros (? & [= <-] & E); eexists; (split; [done|congruence]).
  - intros v t' j (t & Ev & ->)%handed_inv. destruct (handed_fields v t) as (_ & -> & -> & -> & ->).
    intros Hw. destruct (lk_waiting _ _ _ _ L v t j Ev Hw) as (lj & Ej & H1 & H2 & H3). rewrite Hls.
    destruct (decide (j = l)) as [->|]; [|by exists lj]. simplify_eq. by eexists.
  - intros j lj. rewrite Hls. intros Ej. rewrite <-elem_of_dom, handed_dom, elem_of_dom.
    destruct (decide (j = l)); [by injection Ej as <-|by eapply (lk_owner _ _ _ _ L)].
  - intros j lj. rewrite Hls. intros Ej. destruct (decide (j = l)); [|by eapply (lk_info _ _ _ _ L)].
    injection Ej as <-. destruct (lk_info _ _ _ _ L l li El). by split.
  - intros y t' (t & Ey & ->)%handed_inv. by apply handed_kernel.
  - destruct (lk_slab _ _ _ _ L) as [Hs1 Hs2]. split; [done|]. intros j Hj. rewrite Hls.
    destruct (decide (j = l)) as [->|]; [|auto]. specialize (Hs2 l Hj). congruence.
  - replace ls' with (<[l := set_owner o li]> ls).
    + rewrite map_size_insert, El, <-size_dom, handed_dom, size_dom. apply (lk_room _ _ _ _ L).
    + apply map_eq. intros j. rewrite Hls, lookup_insert. destruct (decide (j = l)), (decide (l = j)); by subst.
  - rewrite <-size_dom, handed_dom, size_dom. apply (lk_small _ _ _ _ L).
Qed.
End handed.

(** There is always a free lock info for a thread that does not wait. *)
Lemma locks_room pr ts ls slab w t :
  locks_ok pr ts ls slab → ts !! w = Some t → m_waiting_lock_info t = None → slab ≠ [].
Proof.
  intros L Ew Hw ->. pose proof (lk_room _ _ _ _ L) as Hroom. simpl in Hroom.
  assert (∃ f : Z → Z, ∀ l li, ls !! l = Some li → f l ∈ li_tree li) as [f Hf].
  { exists (λ l, default 0 (li ← ls !! l; head (li_tree li))). intros l li El. rewrite El. simpl.
    pose proof (lo_some _ _ (lk_info _ _ _ _ L l li El)). destruct (li_tree li); [done|]. simpl. set_solver. }
  assert (f <$> elements (dom ls) ⊆+ elements (dom ts ∖ {[w]})) as Hsub%submseteq_length.
  { apply NoDup_submseteq.
    - apply NoDup_fmap_2_strong; [|apply NoDup_elements].
      intros l l' [li El]%elem_of_elements%elem_of_dom [li' El']%elem_of_elements%elem_of_dom Heq.
      pose proof (Hf l li El) as (t1 & E1 & ?)%(lk_tree _ _ _ _ L l li _ El).
      pose proof (Hf l' li' El') as (t2 & E2 & ?)%(lk_tree _ _ _ _ L l' li' _ El'). congruence.
    - intros v (l & -> & [li El]%elem_of_elements%elem_of_dom)%list_elem_of_fmap.
      pose proof (Hf l li El) as (t1 & E1 & E1')%(lk_tree _ _ _ _ L l li _ El).
      apply elem_of_elements, elem_of_difference. split; [apply elem_of_dom; by exists t1|].
      rewrite elem_of_singleton. intros Heq. rewrite Heq in E1. congruence. }
  rewrite length_fmap in Hsub. change (size (dom ls) ≤ size (dom ts ∖ {[w]}))%nat in Hsub.
  rewrite size_difference in Hsub.
  - rewrite size_singleton, !size_dom in Hsub. assert (size ts ≠ 0%nat); [|lia].
    intros H0%map_size_empty_inv. by rewrite H0 in Ew.
  - apply singleton_subseteq_l, elem_of_dom. by exists t.
Qed.
