(* ===== verification/ThreadWaiters.v ===== *)
(** The invariant of the threads' locks, trees and scheduling, and the operations that add and
    remove a waiter as changes of who waits for whom. *)
From stdpp Require Import sorting.
From S2P Require Import Prelude Common Results PriorityQueue PriorityQueueLinks PriorityQueueSpec Thread ThreadLocks.

Implicit Types k : Kernel.

(** * What the operations on locks leave alone *)
Definition same_core (ts ts' : gmap Z KThread) : Prop := ∀ y, core <$> ts' !! y = core <$> ts !! y.

#[global] Instance same_core_preorder : PreOrder same_core.
Proof. split; [by intros ts y|]. intros t1 t2 t3 H1 H2 y. by rewrite H2. Qed.

Lemma same_core_lookup ts ts' y t :
  same_core ts ts' → ts !! y = Some t → ∃ t', ts' !! y = Some t' ∧ core t' = core t.
Proof. intros H E. specialize (H y). rewrite E in H. by apply fmap_Some in H as (t' & ? & ?); exists t'. Qed.
Lemma same_core_inv ts ts' y t' :
  same_core ts ts' → ts' !! y = Some t' → ∃ t, ts !! y = Some t ∧ core t' = core t.
Proof.
  intros H E. specialize (H y). rewrite E in H. symmetry in H.
  apply fmap_Some in H as (t & ? & ?). by exists t.
Qed.
Lemma same_core_dom ts ts' : same_core ts ts' → dom ts' = dom ts.
Proof.
  intros H. apply set_eq. intros y. rewrite !elem_of_dom, <-(fmap_is_Some core (ts' !! y)), H.
  by rewrite fmap_is_Some.
Qed.
Lemma same_core_size ts ts' : same_core ts ts' → size ts' = size ts.
Proof. intros H. by rewrite <-!size_dom, (same_core_dom _ _ H). Qed.

Lemma relinked_core ts ts' w lock x held n :
  (∀ y, ts' !! y = relink w lock x held n y <$> ts !! y) → same_core ts ts'.
Proof. intros H y. rewrite H. destruct (ts !! y); [|done]. simpl. by rewrite relink_core. Qed.

Definition outer k := (priority_queue k, thread_trees k, cur_thread k, m_woken_dummy_threads k,
                       timer_tasks k, schedule_counts k).

(** * The trees of condition variables and address arbiters *)
Definition cv_key (ts : gmap Z KThread) (x : Z) : Z :=
  match ts !! x with Some t => m_condvar_key t | None => 0 end.
Definition cv_le (pr : Z → Z) (ts : gmap Z KThread) (a b : Z) : Prop :=
  cv_key ts a < cv_key ts b ∨ cv_key ts a = cv_key ts b ∧ pr a ≤ pr b.

Record cvs_ok (pr : Z → Z) (ts : gmap Z KThread) (trees : gmap Z (list Z)) : Prop := {
  cv_tree : ∀ c tree x, trees !! c = Some tree →
    x ∈ tree ↔ ∃ t, ts !! x = Some t ∧ m_condvar_tree t = Some c;
  cv_some : ∀ x t c, ts !! x = Some t → m_condvar_tree t = Some c → is_Some (trees !! c);
  cv_nodup : ∀ c tree, trees !! c = Some tree → NoDup tree;
  cv_sorted : ∀ c tree, trees !! c = Some tree → StronglySorted (cv_le pr ts) tree;
}.

Lemma cv_key_core ts ts' y : same_core ts ts' → cv_key ts' y = cv_key ts y.
Proof.
  intros H. unfold cv_key. destruct (ts !! y) as [t|] eqn:E.
  - destruct (same_core_lookup ts ts' y t H E) as (t' & -> & Hc). by apply core_fields in Hc as (_ & _ & _ & _ & _ & -> & _).
  - specialize (H y). rewrite E in H. by apply fmap_None in H as ->.
Qed.

Lemma cvs_ok_core pr ts ts' trees : same_core ts ts' → cvs_ok pr ts trees → cvs_ok pr ts' trees.
Proof.
  intros H [Ht Hs Hn Ho]. split; try done.
  - intros c tree x E. rewrite (Ht c tree x E). split.
    + intros (t & Ex & Ec). destruct (same_core_lookup ts ts' x t H Ex) as (t' & Ex' & Hc). exists t'.
      split; [done|]. by apply core_fields in Hc as (_ & _ & _ & _ & -> & _).
    + intros (t' & Ex' & Ec). destruct (same_core_inv ts ts' x t' H Ex') as (t & Ex & Hc). exists t.
      split; [done|]. by apply core_fields in Hc as (_ & _ & _ & _ & <- & _).
  - intros x t' c Ex' Ec. destruct (same_core_inv ts ts' x t' H Ex') as (t & Ex & Hc).
    apply (Hs x t c Ex). by apply core_fields in Hc as (_ & _ & _ & _ & <- & _).
  - intros c tree E. eapply StronglySorted_ext; [|by eapply Ho]. intros a b _ _. unfold cv_le.
    by rewrite !(cv_key_core ts ts').
Qed.

(** * The scheduler's side *)

(** The data with which a runnable thread is queued. *)
Definition queued k (x : Z) (i : Info) : Prop :=
  ∃ t m, threads k !! x = Some t ∧ members (priority_queue k) !! x = Some m
    ∧ m_thread_state t = ThreadState.Runnable ∧ IsDummyThread m = false ∧ i = info_of m.

Record sched_ok k : Prop := {
  sc_member : ∀ x t, threads k !! x = Some t → ∃ m, members (priority_queue k) !! x = Some m ∧ x ≠ 0
    ∧ (IsDummyThread m = false → info_ok (info_of m) ∧ m_base_priority t ≤ 64);
  sc_queue : ∃ tb M, rep (priority_queue k) tb ∧ placed tb M ∧ ∀ x i, M !! x = Some i ↔ queued k x i;
  sc_parent : ∀ x t, threads k !! x = Some t → m_parent t ≠ 0 → is_Some (schedule_counts k !! m_parent t);
}.

Record kernel_ok k : Prop := {
  ko_locks : locks_ok (prio k) (threads k) (lock_infos k) (lock_slab k);
  ko_cvs : cvs_ok (prio k) (threads k) (thread_trees k);
  ko_sched : sched_ok k;
  ko_prio : ∀ x t, threads k !! x = Some t → 0 ≤ prio k x ≤ 65 ∧ 0 ≤ m_base_priority t ≤ 65;
}.

Lemma GetPriority_ok k x t : sched_ok k → threads k !! x = Some t → GetPriority x k = Some (prio k x).
Proof.
  intros H E. destruct (sc_member k H x t E) as (m & Em & _). unfold GetPriority, prio. by rewrite Em.
Qed.

(** * Removing a waiter *)

Definition waits k : Z → option Z := waits_on (threads k) (lock_infos k).

(** The locks are in order, threads wait as [f] says, and nothing else has changed. *)
Record moved k k' (f : Z → option Z) : Prop := {
  mv_locks : locks_ok (prio k) (threads k') (lock_infos k') (lock_slab k');
  mv_core : same_core (threads k) (threads k');
  mv_waits : ∀ y, waits k' y = f y;
  mv_outer : outer k' = outer k;
}.

Lemma waits_Some pr k w o :
  locks_ok pr (threads k) (lock_infos k) (lock_slab k) → waits k w = Some o →
  ∃ t l li to, threads k !! w = Some t ∧ m_waiting_lock_info t = Some l ∧ lock_infos k !! l = Some li
    ∧ li_owner li = o ∧ threads k !! o = Some to.
Proof.
  intros L E. unfold waits, waits_on in E.
  apply bind_Some in E as (t & Et & (l & El & (li & Eli & [= <-])%bind_Some)%bind_Some).
  destruct (lk_owner _ _ _ _ L l li Eli) as [to Eo]. by exists t, l, li, to.
Qed.

Lemma waits_None pr k w t :
  locks_ok pr (threads k) (lock_infos k) (lock_slab k) → threads k !! w = Some t →
  waits k w = None ↔ m_waiting_lock_info t = None.
Proof.
  intros L Et. unfold waits, waits_on. rewrite Et. simpl. destruct (m_waiting_lock_info t) as [l|] eqn:El; [|done].
  destruct (lk_waiting _ _ _ _ L w t l Et El) as (li & E & _). simpl. by rewrite E.
Qed.

Lemma kernel_bounds pr k x t :
  locks_ok pr (threads k) (lock_infos k) (lock_slab k) → threads k !! x = Some t →
  0 ≤ m_num_kernel_waiters t ≤ Z.of_nat (size (threads k)).
Proof.
  intros L E. destruct (lk_kernel _ _ _ _ L x t E) as (S & HS & ->).
  assert (size S ≤ size (dom (threads k)))%nat as Hs; [|rewrite size_dom in Hs; lia].
  apply subseteq_size. intros w (_ & t' & E' & _)%HS. apply elem_of_dom. by exists t'.
Qed.

Lemma tree_bounds pr k l li :
  locks_ok pr (threads k) (lock_infos k) (lock_slab k) → lock_infos k !! l = Some li →
  0 < li_waiter_count li ≤ Z.of_nat (size (threads k)).
Proof.
  intros L E. destruct (lk_info _ _ _ _ L l li E) as [Hnd Hne -> _].
  split; [destruct (li_tree li); simpl; [done|lia]|].
  rewrite <-(size_list_to_set (C := gset Z)) by done. apply Nat2Z.inj_le. rewrite <-size_dom.
  apply subseteq_size. intros w (t & Et & _)%elem_of_list_to_set%(lk_tree _ _ _ _ L l li w E).
  apply elem_of_dom. by exists t.
Qed.

Lemma set_at_once k x f t : threads k !! x = Some t → on_thread x f k = Some (with_threads (<[x := f t]> (threads k)) k).
Proof. intros E. unfold on_thread. by rewrite E. Qed.
Lemma lock_at_once k l f li : lock_infos k !! l = Some li →
  on_lock l f k = Some (with_locks (<[l := f li]> (lock_infos k)) (lock_slab k) k).
Proof. intros E. unfold on_lock. by rewrite E. Qed.

(** The part of [AddWaiterImpl] and [RemoveWaiterImpl] that counts kernel waiters. *)
Definition recount (x n y : Z) (t : KThread) : KThread :=
  if decide (y = x) then set_num_kernel_waiters n t else t.

Lemma count_part k x t (b : bool) (f : Z → Z) (g : Z → bool) d :
  threads k !! x = Some t →
  (b = true → f (m_num_kernel_waiters t) = m_num_kernel_waiters t + d ∧ g (m_num_kernel_waiters t) = true) →
  ∃ k', (if b then
           t ← threads k !! x;
           k ← on_thread x (set_num_kernel_waiters (f (m_num_kernel_waiters t))) k;
           check (g (m_num_kernel_waiters t));;
           Some (SetSchedulerUpdateNeeded k)
         else Some k) = Some k'
    ∧ (∀ y, threads k' !! y = recount x (m_num_kernel_waiters t + if b then d else 0) y <$> threads k !! y)
    ∧ lock_infos k' = lock_infos k ∧ lock_slab k' = lock_slab k ∧ outer k' = outer k.
Proof.
  intros E H. destruct b.
  - destruct (H eq_refl) as [Hf Hg]. rewrite E. cbn [mbind option_bind]. rewrite (set_at_once k x _ t E).
    cbn [mbind option_bind]. rewrite Hf, Hg. eexists. split; [done|]. split_and!; try done.
    intros y. simpl. rewrite lookup_insert. unfold recount.
    destruct (decide (x = y)), (decide (y = x)); subst; rewrite ?E; try done. by destruct (threads k !! y).
  - exists k. split_and!; try done. intros y. unfold recount.
    destruct (decide (y = x)) as [->|]; [|by destruct (threads k !! y)]. rewrite E. simpl. f_equal.
    rewrite Z.add_0_r. by destruct t.
Qed.

Lemma set_held_relink w lock x h h' n t : set_held h' (relink w lock x h n x t) = relink w lock x h' n x t.
Proof. unfold relink. destruct (decide (x = x)); [|done]. by destruct (decide (x = w)). Qed.
Lemma relink_other w lock x h h' n y t : y ≠ x → relink w lock x h n y t = relink w lock x h' n y t.
Proof. intros. unfold relink. by destruct (decide (y = x)). Qed.

(** The held locks of [x] are changed once more. *)
Lemma relink_held_again (ts ts1 : gmap Z KThread) w lock x h h' n t :
  (∀ y, ts1 !! y = relink w lock x h n y <$> ts !! y) → ts1 !! x = Some t →
  ∀ y, <[x := set_held h' t]> ts1 !! y = relink w lock x h' n y <$> ts !! y.
Proof.
  intros Ht Ex y. rewrite lookup_insert. destruct (decide (x = y)) as [<-|Hne].
  - rewrite Ht in Ex. apply fmap_Some in Ex as (t0 & -> & ->). simpl. by rewrite set_held_relink.
  - rewrite Ht. destruct (ts !! y); [|done]. simpl. f_equal. by apply relink_other.
Qed.

Definition rehold (x : Z) (held : list Z) (n y : Z) (t : KThread) : KThread :=
  if decide (y = x) then set_held held (set_num_kernel_waiters n t) else t.

Lemma rehold_relink (ts ts2 : gmap Z KThread) w x lock held n tw2 :
  (∀ y, ts2 !! y = rehold x held n y <$> ts !! y) → ts2 !! w = Some tw2 →
  ∀ y, <[w := SetWaitingLockInfo lock tw2]> ts2 !! y = relink w lock x held n y <$> ts !! y.
Proof.
  intros Ht Ew y. rewrite lookup_insert. unfold relink. destruct (decide (w = y)) as [->|Hwy].
  - rewrite Ht in Ew. apply fmap_Some in Ew as (t & Ey & ->). rewrite Ey. simpl. by rewrite decide_True.
  - rewrite Ht. destruct (ts !! y) as [t|] eqn:Ey; [|done]. simpl. by rewrite decide_False.
Qed.

Lemma recount_same (ts ts1 : gmap Z KThread) x n tx :
  (∀ y, ts1 !! y = recount x n y <$> ts !! y) → ts !! x = Some tx →
  ∀ y, ts1 !! y = rehold x (m_held_lock_info_list tx) n y <$> ts !! y.
Proof.
  intros Ht Ex y. rewrite Ht. destruct (ts !! y) as [t|] eqn:Ey; [|done]. simpl. unfold recount, rehold.
  destruct (decide (y = x)) as [->|]; [|done]. rewrite Ex in Ey. injection Ey as <-. by destruct tx.
Qed.

Lemma recount_rehold (ts ts1 : gmap Z KThread) x n tx1 held :
  (∀ y, ts1 !! y = recount x n y <$> ts !! y) → ts1 !! x = Some tx1 →
  ∀ y, <[x := set_held held tx1]> ts1 !! y = rehold x held n y <$> ts !! y.
Proof.
  intros Ht Ex y. rewrite lookup_insert. unfold rehold. destruct (decide (x = y)) as [<-|Hne].
  - rewrite Ht in Ex. apply fmap_Some in Ex as (t & -> & ->). simpl. unfold recount.
    by destruct (decide (x = x)).
  - rewrite Ht. destruct (ts !! y); [|done]. simpl. unfold recount. by rewrite !decide_False.
Qed.

Lemma lock_RemoveWaiter_ok k l w li tw :
  lock_infos k !! l = Some li → w ∈ li_tree li → NoDup (li_tree li) → threads k !! w = Some tw →
  li_waiter_count li = Z.of_nat (length (li_tree li)) → li_waiter_count li < 2 ^ 31 →
  let rest := filter (λ e, e ≠ w) (li_tree li) in
  lock_RemoveWaiter l w k = Some (bool_decide (rest = []),
    with_threads (<[w := SetWaitingLockInfo None tw]> (threads k))
      (with_locks (<[l := set_waiters rest (Z.of_nat (length rest)) li]> (lock_infos k)) (lock_slab k) k)).
Proof.
  intros El Hin Hnd Ew Ec Hs rest. unfold lock_RemoveWaiter. rewrite El. cbn [mbind option_bind].
  rewrite (list_erase_ok w _ Hin). cbn [mbind option_bind]. fold rest.
  pose proof (Permutation_length (erase_perm w _ Hnd Hin)) as Hlen. simpl in Hlen. fold rest in Hlen.
  rewrite (wrap_small 32) by (unfold in_width; lia).
  replace (li_waiter_count li - 1) with (Z.of_nat (length rest)) by lia.
  rewrite (lock_at_once k l _ li El). cbn [mbind option_bind].
  rewrite (set_at_once _ w _ tw) by done. cbn [mbind option_bind].
  replace (Z.of_nat (length rest) =? 0) with (bool_decide (rest = [])); [done|].
  by destruct rest.
Qed.

Lemma erase_held_ok k x l t :
  threads k !! x = Some t → l ∈ m_held_lock_info_list t →
  erase_held x l k = Some (with_threads
    (<[x := set_held (filter (λ e, e ≠ l) (m_held_lock_info_list t)) t]> (threads k)) k).
Proof.
  intros E Hl. unfold erase_held. rewrite E. cbn [mbind option_bind]. rewrite (list_erase_ok l _ Hl).
  cbn [mbind option_bind]. by apply set_at_once.
Qed.

Lemma RemoveWaiterImpl_ok k x w :
  locks_ok (prio k) (threads k) (lock_infos k) (lock_slab k) → waits k w = Some x →
  ∃ k', RemoveWaiterImpl x w k = Some k' ∧ moved k k' (λ y, if decide (y = w) then None else waits k y).
Proof.
  intros L Hw. destruct (waits_Some _ _ _ _ L Hw) as (tw & l & li & tx & Ew & El & Eli & Ex & Etx).
  pose proof (removed_own_kernel _ _ _ _ L _ _ _ _ Ew El Eli) as Hk.
  pose proof (removed_in_tree _ _ _ _ L _ _ _ _ Ew El Eli) as Hin.
  pose proof (kernel_bounds _ _ _ _ L Etx) as Hn. pose proof (tree_bounds _ _ _ _ L Eli) as Hc.
  pose proof (lk_small _ _ _ _ L) as Hsmall. destruct (lk_info _ _ _ _ L l li Eli) as [Hnd _ Hcount _].
  assert (m_is_kernel_address_key tw = true → 0 < m_num_kernel_waiters tx) as Hpos.
  { intros Hkt. destruct (lk_kernel _ _ _ _ L x tx Etx) as (S & HS & ->).
    assert (w ∈ S) as HwS by (apply HS; split; [done|by exists tw]).
    assert (size S ≠ 0%nat); [|lia]. intros H0%size_empty_inv. set_solver. }
  unfold RemoveWaiterImpl. rewrite Ew. cbn [mbind option_bind].
  destruct (count_part k x tx (m_is_kernel_address_key tw) (λ n, s32 (n - 1)) (λ n, 0 <? n) (-1) Etx)
    as (k1 & -> & Ht1 & Hl1 & Hs1 & Ho1).
  { intros Hkt. specialize (Hpos Hkt). split; [|lia]. rewrite swrap_small; lia. }
  cbn [mbind option_bind]. rewrite El. cbn [mbind option_bind]. rewrite Hl1, Eli. cbn [mbind option_bind].
  rewrite Ex, Z.eqb_refl. cbn [check mbind option_bind].
  assert (∃ tw1, threads k1 !! w = Some tw1) as [tw1 Ew1] by (rewrite Ht1, Ew; eauto).
  rewrite (lock_RemoveWaiter_ok k1 l w li tw1) by (rewrite ?Hl1; done || lia). cbn [mbind option_bind].
  set (rest := filter (λ e, e ≠ w) (li_tree li)).
  match goal with |- ∃ k', ?c = _ ∧ _ => assert (∃ k', c = Some k'
    ∧ (∀ y, threads k' !! y =
        relink w None x (if decide (rest = []) then filter (λ e, e ≠ l) (m_held_lock_info_list tx)
                         else m_held_lock_info_list tx)
          (m_num_kernel_waiters tx - if li_is_kernel_address_key li then 1 else 0) y <$> threads k !! y)
    ∧ (∀ l', lock_infos k' !! l' = if decide (l' = l) then
         if decide (rest = []) then None else Some (set_waiters rest (Z.of_nat (length rest)) li)
         else lock_infos k !! l')
    ∧ lock_slab k' = (if decide (rest = []) then l :: lock_slab k else lock_slab k)
    ∧ outer k' = outer k) as (k' & E & Ht & Hls & Hsl & Ho) end.
  2: { exists k'. split; [done|]. split; [|by eapply relinked_core| |done].
       - exact (locks_ok_removed _ _ _ _ L w l x tw tx li Ew El Eli Ex Etx _ _ _ Ht Hls Hsl).
       - intros y. exact (removed_waits _ _ _ _ L w l x tw tx li Ew El Eli Ex Etx _ _ _ Ht Hls Hsl y). }
  rewrite Hk in Ht1. change (-1) with (- 1) in Ht1.
  replace (m_num_kernel_waiters tx + (if li_is_kernel_address_key li then -1 else 0))
    with (m_num_kernel_waiters tx - if li_is_kernel_address_key li then 1 else 0) in Ht1
    by (destruct (li_is_kernel_address_key li); lia).
  pose proof (rehold_relink _ _ w x None _ _ tw1 (recount_same _ _ _ _ _ Ht1 Etx) Ew1) as Ht2. rewrite Hl1, Hs1.
  destruct (decide (rest = [])) as [Hr|Hr]; [rewrite bool_decide_eq_true_2 by done|rewrite bool_decide_eq_false_2 by done].
  - assert (<[w := SetWaitingLockInfo None tw1]> (threads k1) !! x = Some (relink w None x
        (m_held_lock_info_list tx) (m_num_kernel_waiters tx - if li_is_kernel_address_key li then 1 else 0) x tx))
      as Ex2 by by rewrite Ht2, Etx.
    erewrite erase_held_ok; [|exact Ex2|].
    2: { rewrite relink_held, decide_True by done. apply (lk_held _ _ _ _ L x tx l Etx). by exists li. }
    cbn [mbind option_bind]. eexists. split; [done|]. split_and!; [| |done|done].
    + intros y. simpl. rewrite relink_held, decide_True by done. by apply (relink_held_again _ _ _ _ _ _ _ _ _ Ht2).
    + intros l'. simpl. rewrite delete_insert_eq, lookup_delete. destruct (decide (l = l')), (decide (l' = l)); by subst.
  - eexists. split; [done|]. split_and!; [done| |done|done].
    intros l'. simpl. rewrite lookup_insert. destruct (decide (l = l')), (decide (l' = l)); by subst.
Qed.

(** * Adding a waiter *)
Lemma find_lock_ok key b held (locks : gmap Z LockInfo) :
  (∀ l, l ∈ held → is_Some (locks !! l)) →
  ∃ o, find_lock key b held locks = Some o
    ∧ ∀ l, o = Some l → l ∈ held ∧ ∃ li, locks !! l = Some li ∧ li_address_key li = key
                                        ∧ li_is_kernel_address_key li = b.
Proof.
  induction held as [|l held IH]; intros H; cbn [find_lock]; [by exists None|].
  destruct (H l) as [li E]; [set_solver|]. rewrite E. cbn [mbind option_bind].
  destruct (_ && _) eqn:Em.
  - apply andb_true_iff in Em as [E1%Z.eqb_eq E2%eqb_prop]. exists (Some l). split; [done|].
    intros l' [= <-]. split; [set_solver|]. by exists li.
  - destruct IH as (o & -> & Ho); [set_solver|]. exists o. split; [done|]. intros l' E'.
    destruct (Ho l' E') as [? ?]. split; [set_solver|done].
Qed.

Lemma lock_AddWaiter_ok k l w li tw :
  lock_infos k !! l = Some li → threads k !! w = Some tw →
  (∀ e, e ∈ w :: li_tree li → GetPriority e k = Some (prio k e)) →
  StronglySorted (λ a b, prio k a ≤ prio k b) (li_tree li) → 0 ≤ li_waiter_count li < 2 ^ 31 →
  ∃ l1 l2, li_tree li = l1 ++ l2 ∧ StronglySorted (λ a b, prio k a ≤ prio k b) (l1 ++ w :: l2)
    ∧ lock_AddWaiter l w k = Some (with_threads (<[w := SetWaitingLockInfo (Some l) tw]> (threads k))
        (with_locks (<[l := set_waiters (l1 ++ w :: l2) (li_waiter_count li + 1) li]> (lock_infos k))
           (lock_slab k) k)).
Proof.
  intros El Ew Hp Hs Hc.
  destruct (tree_insert_ok (lock_less k w) (λ e, prio k w <? prio k e) w (li_tree li))
    as (l1 & l2 & Et & E & H1 & H2).
  { intros e He. unfold lock_less. rewrite !Hp by set_solver. done. }
  exists l1, l2. split; [done|]. split.
  - rewrite Et in Hs. apply StronglySorted_insert; [intros; lia|done| |].
    + eapply Forall_impl; [exact H1|]. simpl. intros; lia.
    + intros e He%H2. lia.
  - unfold lock_AddWaiter. rewrite El. cbn [mbind option_bind]. rewrite E. cbn [mbind option_bind].
    rewrite (wrap_small 32) by (unfold in_width; lia). rewrite (lock_at_once k l _ li El).
    cbn [mbind option_bind]. by rewrite (set_at_once _ w _ tw).
Qed.

Lemma kernel_room pr k x t w tw :
  locks_ok pr (threads k) (lock_infos k) (lock_slab k) → threads k !! x = Some t →
  threads k !! w = Some tw → waits k w = None → m_num_kernel_waiters t < Z.of_nat (size (threads k)).
Proof.
  intros L E Ew Hw. destruct (lk_kernel _ _ _ _ L x t E) as (S & HS & ->).
  apply inj_lt. rewrite <-size_dom. apply subset_size. split.
  - intros v (_ & t' & E' & _)%HS. apply elem_of_dom. by exists t'.
  - intros Hsub. assert (w ∈ S) as (Hw' & _)%HS; [apply Hsub, elem_of_dom; by exists tw|].
    unfold waits in Hw. congruence.
Qed.

Lemma tree_room pr k l li w tw :
  locks_ok pr (threads k) (lock_infos k) (lock_slab k) → lock_infos k !! l = Some li →
  threads k !! w = Some tw → m_waiting_lock_info tw = None →
  li_waiter_count li < Z.of_nat (size (threads k)).
Proof.
  intros L E Ew Hw. destruct (lk_info _ _ _ _ L l li E) as [Hnd Hne -> _].
  rewrite <-(size_list_to_set (C := gset Z)) by done. apply inj_lt. rewrite <-size_dom.
  apply subset_size. split.
  - intros v (t & Et & _)%elem_of_list_to_set%(lk_tree _ _ _ _ L l li v E). apply elem_of_dom. by exists t.
  - intros Hsub. assert (w ∈ li_tree li) as (t & Et & Hl)%(lk_tree _ _ _ _ L l li w E); [|congruence].
    apply (elem_of_list_to_set (C := gset Z)), Hsub, elem_of_dom. by exists tw.
Qed.

Lemma prio_outer k k' : outer k' = outer k → prio k' = prio k.
Proof. intros [= E _ _ _ _ _]. unfold prio. by rewrite E. Qed.
Lemma GetPriority_outer k k' x : outer k' = outer k → GetPriority x k' = GetPriority x k.
Proof. intros [= E _ _ _ _ _]. unfold GetPriority. by rewrite E. Qed.

(** The last step, once the lock info is found or created. *)
Lemma join_lock k k2 x w l li held slab' tx tw tw2 :
  locks_ok (prio k) (threads k) (lock_infos k) (lock_slab k) →
  (∀ y t, threads k !! y = Some t → GetPriority y k = Some (prio k y)) →
  threads k !! x = Some tx → threads k !! w = Some tw → waits k w = None → m_condvar_tree tw = None →
  outer k2 = outer k → lock_infos k2 !! l = Some li → threads k2 !! w = Some tw2 →
  (∀ l', l' ≠ l → lock_infos k2 !! l' = lock_infos k !! l') → lock_slab k2 = slab' →
  (∀ y, <[w := SetWaitingLockInfo (Some l) tw2]> (threads k2) !! y
     = relink w (Some l) x held (m_num_kernel_waiters tx + if m_is_kernel_address_key tw then 1 else 0) y
         <$> threads k !! y) →
  li_owner li = x → li_waiter_count li = Z.of_nat (length (li_tree li)) →
  li_waiter_count li < Z.of_nat (size (threads k)) →
  li_address_key li = m_address_key tw → li_is_kernel_address_key li = m_is_kernel_address_key tw →
  (lock_infos k !! l = Some li ∧ held = m_held_lock_info_list tx ∧ slab' = lock_slab k
   ∨ lock_infos k !! l = None ∧ li_tree li = [] ∧ held = l :: m_held_lock_info_list tx
     ∧ lock_slab k = l :: slab') →
  ∃ k', lock_AddWaiter l w k2 = Some k' ∧ moved k k' (λ y, if decide (y = w) then Some x else waits k y).
Proof.
  intros L Hp Etx Ew Hw Hcv Ho2 El Ew2 Hlo Hs2 Ht2 Ex Hc Hsz Ek Ei Hcase.
  pose proof (proj1 (waits_None _ _ _ _ L Ew) Hw) as Hwl. pose proof (lk_small _ _ _ _ L) as Hsmall.
  assert (∀ e, e ∈ li_tree li → ∃ t, threads k !! e = Some t) as Htree.
  { intros e He. destruct Hcase as [(E & _)|(_ & E & _)]; [|rewrite E in He; by apply elem_of_nil in He].
    apply (lk_tree _ _ _ _ L l li e E) in He as (t & ? & _). by exists t. }
  assert (StronglySorted (λ a b, prio k a ≤ prio k b) (li_tree li)) as Hsort.
  { destruct Hcase as [(E & _)|(_ & -> & _)]; [|constructor]. apply (lk_info _ _ _ _ L l li E). }
  destruct (lock_AddWaiter_ok k2 l w li tw2) as (l1 & l2 & Et & Hs' & E); try done.
  { intros e He. rewrite (GetPriority_outer k k2), (prio_outer k k2) by done.
    apply elem_of_cons in He as [->|He]; [by eapply Hp|]. destruct (Htree e He). by eapply Hp. }
  { by rewrite (prio_outer k k2). }
  { lia. }
  rewrite (prio_outer k k2) in Hs' by done. eexists. split; [exact E|].
  assert (∀ l', (<[l := set_waiters (l1 ++ w :: l2) (li_waiter_count li + 1) li]> (lock_infos k2)) !! l'
    = if decide (l' = l) then Some (set_waiters (l1 ++ w :: l2) (li_waiter_count li + 1) li)
      else lock_infos k !! l') as Hls.
  { intros l'. rewrite lookup_insert. destruct (decide (l = l')), (decide (l' = l)); subst; try done. by apply Hlo. }
  assert (li_waiter_count li + 1 = Z.of_nat (length (l1 ++ w :: l2))) as Hc'.
  { rewrite Hc, Et, !length_app. simpl. lia. }
  assert ((∃ li0, lock_infos k !! l = Some li0 ∧ li_owner li0 = x ∧ li_tree li0 = l1 ++ l2
     ∧ li_address_key li0 = li_address_key li ∧ li_is_kernel_address_key li0 = li_is_kernel_address_key li)
    ∧ held = m_held_lock_info_list tx ∧ slab' = lock_slab k
    ∨ lock_infos k !! l = None ∧ l1 ++ l2 = [] ∧ held = l :: m_held_lock_info_list tx
      ∧ lock_slab k = l :: slab') as Hcase'.
  { destruct Hcase as [(? & ? & ?)|(? & E' & ? & ?)]; [left|right; rewrite <-Et; by split_and!].
    split_and!; try done. by exists li. }
  split.
  - simpl. rewrite Hs2. exact (locks_ok_added _ _ _ _ L w l x tw tx (set_waiters (l1 ++ w :: l2)
      (li_waiter_count li + 1) li) l1 l2 held slab' Ew Hwl Hcv Etx Ex eq_refl Hc' Ek Ei Hs' Hcase' _ _ Ht2 Hls).
  - simpl. by eapply relinked_core.
  - intros y. exact (added_waits _ _ _ _ L w l x tw tx (set_waiters (l1 ++ w :: l2)
      (li_waiter_count li + 1) li) l1 l2 held slab' Ew Hwl Hcv Etx Ex eq_refl Hc' Ek Ei Hs' Hcase' _ _ Ht2 Hls y).
  - exact Ho2.
Qed.

Lemma AddWaiterImpl_ok k x w tx tw :
  locks_ok (prio k) (threads k) (lock_infos k) (lock_slab k) →
  (∀ y t, threads k !! y = Some t → GetPriority y k = Some (prio k y)) →
  threads k !! x = Some tx → threads k !! w = Some tw → waits k w = None → m_condvar_tree tw = None →
  ∃ k', AddWaiterImpl x w k = Some k' ∧ moved k k' (λ y, if decide (y = w) then Some x else waits k y).
Proof.
  intros L Hp Etx Ew Hw Hcv. pose proof (proj1 (waits_None _ _ _ _ L Ew) Hw) as Hwl.
  pose proof (kernel_bounds _ _ _ _ L Etx) as Hn. pose proof (kernel_room _ _ _ _ _ _ L Etx Ew Hw) as Hn'.
  pose proof (lk_small _ _ _ _ L) as Hsmall.
  unfold AddWaiterImpl. rewrite Ew. cbn [mbind option_bind]. rewrite bool_decide_eq_true_2 by done.
  cbn [check mbind option_bind].
  destruct (count_part k x tx (m_is_kernel_address_key tw) (λ n, s32 (n + 1)) (λ n, 0 <=? n) 1 Etx)
    as (k1 & -> & Ht1 & Hl1 & Hs1 & Ho1).
  { intros _. split; [|lia]. rewrite swrap_small; lia. }
  cbn [mbind option_bind]. unfold FindHeldLock.
  assert (∃ tx1, threads k1 !! x = Some tx1 ∧ m_held_lock_info_list tx1 = m_held_lock_info_list tx) as (tx1 & Ex1 & Eh1).
  { rewrite Ht1, Etx. eexists. split; [done|]. unfold recount. by destruct (decide (x = x)). }
  rewrite Ex1. cbn [mbind option_bind]. rewrite Eh1, Hl1.
  destruct (find_lock_ok (m_address_key tw) (m_is_kernel_address_key tw) (m_held_lock_info_list tx) (lock_infos k))
    as (o & -> & Ho).
  { intros l (li & E & _)%(lk_held _ _ _ _ L x tx l Etx). by exists li. }
  cbn [mbind option_bind].
  assert (∃ tw1, threads k1 !! w = Some tw1) as [tw1 Ew1] by (rewrite Ht1, Ew; eauto).
  destruct o as [l|]; cbn [mbind option_bind].
  - destruct (Ho l eq_refl) as (Hin & li & Eli & Ek & Ei).
    destruct (proj1 (lk_held _ _ _ _ L x tx l Etx) Hin) as (li' & E' & Eo).
    rewrite Eli in E'. injection E' as <-.
    destruct (lk_info _ _ _ _ L l li Eli) as [_ _ Hcount _].
    eapply (join_lock k k1 x w l li _ _ tx tw tw1); rewrite ?Hl1; try done.
    + exact (rehold_relink _ _ w x (Some l) _ _ tw1 (recount_same _ _ _ _ _ Ht1 Etx) Ew1).
    + eapply tree_room; done.
    + by left.
  - unfold lock_Create. rewrite Hs1. assert (∃ l slab', lock_slab k = l :: slab') as (l & slab' & Es).
    { pose proof (locks_room _ _ _ _ _ _ L Ew Hwl). destruct (lock_slab k); [done|eauto]. }
    rewrite Es. cbn [mbind option_bind].
    assert (lock_infos k !! l = None) as Ell by (apply (lk_slab _ _ _ _ L); rewrite Es; set_solver).
    unfold AddHeldLock. erewrite lock_at_once by (simpl; by rewrite lookup_insert_eq). cbn [mbind option_bind].
    rewrite (set_at_once _ x _ tx1) by done. cbn [mbind option_bind]. rewrite Eh1.
    assert (∃ tw2, <[x := set_held (l :: m_held_lock_info_list tx) tx1]> (threads k1) !! w = Some tw2) as [tw2 Ew2].
    { rewrite lookup_insert. destruct (decide (x = w)); eauto. }
    eapply (join_lock k _ x w l (MkLock [] (m_address_key tw) x 0 (m_is_kernel_address_key tw)) _ slab' tx tw tw2);
      try done; simpl.
    + by rewrite lookup_insert_eq.
    + intros l' Hl'. by rewrite !lookup_insert_ne, Hl1.
    + apply rehold_relink; [|done]. by apply recount_rehold.
    + lia.
    + right. by split_and!.
Qed.
