(* ===== verification/ThreadInherit.v ===== *)
(** Priority inheritance: a turn of [RestorePriority], its loop, and the operations on waiters
    and base priorities that use it. *)
From stdpp Require Import sorting.
From S2P Require Import Prelude Common Results PriorityQueue PriorityQueueLinks PriorityQueueSpec Thread ThreadLocks ThreadWaiters.

Implicit Types k : Kernel.

(** * Changing the priority of a thread that is in no lock's tree *)
Definition with_priority (p : Z) (m : Member) : Member :=
  {| GetAffinityMask := GetAffinityMask m; GetActiveCore := GetActiveCore m;
     PriorityQueue.GetPriority := p; IsDummyThread := IsDummyThread m;
     m_per_core_priority_queue_entry := m_per_core_priority_queue_entry m |}.
Definition with_member (x : Z) (m : Member) (q : State) : State :=
  {| m_scheduled_queue := m_scheduled_queue q; m_suggested_queue := m_suggested_queue q;
     members := <[x := m]> (members q) |}.

(** The queue's links depend on nothing else of the members. *)
Lemma entries_same q x m' m c r :
  members q !! x = Some m → m_per_core_priority_queue_entry m' = m_per_core_priority_queue_entry m →
  get_entry c r (with_member x m' q) = get_entry c r q.
Proof.
  intros E Ee. destruct r as [kd pr|y]; simpl; [by destruct kd|]. rewrite lookup_insert.
  destruct (decide (x = y)) as [<-|]; [|done]. rewrite E. cbn [mbind option_bind]. by rewrite Ee.
Qed.

Lemma rep_member q tb x m' m :
  members q !! x = Some m → m_per_core_priority_queue_entry m' = m_per_core_priority_queue_entry m →
  rep q tb → rep (with_member x m' q) tb.
Proof.
  intros E Ee [[[Hq Ha Hm] Hring Hval Hnd Hun] Hbits].
  assert (∀ kd, impl kd (with_member x m' q) = impl kd q) as Himpl by by intros [].
  split; [split|]; try done.
  - split; [intros kd; rewrite Himpl; apply Hq|intros kd; rewrite Himpl; apply Ha|].
    intros y my. simpl. rewrite lookup_insert. destruct (decide (x = y)) as [<-|]; [|by apply Hm].
    intros [= <-]. rewrite Ee. by apply (Hm x m).
  - intros kd pr c Hp Hc. eapply path_ext; [| |by apply Hring].
    all: intros; unfold nxt, prv, ent; by rewrite (entries_same _ _ _ m).
  - intros kd pr c y Hp Hc Hy. destruct (Hval kd pr c y Hp Hc Hy) as [? [my Ey]]. split; [done|].
    simpl. rewrite lookup_insert. destruct (decide (x = y)); eauto.
Qed.

Lemma rep_priority q tb x p m :
  members q !! x = Some m → rep q tb → rep (with_member x (with_priority p m) q) tb.
Proof. intros E. by apply rep_member with m. Qed.

Lemma SetPriority_ok k x p m :
  members (priority_queue k) !! x = Some m →
  SetPriority x p k = Some (with_queue (with_member x (with_priority p m) (priority_queue k)) k).
Proof. intros E. unfold SetPriority. by rewrite E. Qed.

Lemma prio_with_member k x p m y :
  prio (with_queue (with_member x (with_priority p m) (priority_queue k)) k) y = if decide (y = x) then p else prio k y.
Proof.
  unfold prio. simpl. rewrite lookup_insert. by destruct (decide (x = y)), (decide (y = x)); subst.
Qed.

(** [k'] is [k] with another priority for [x]; the trees hold the same threads. *)
Record repriced k k' (x p : Z) (m : Member) : Prop := {
  rp_queue : priority_queue k' = with_member x (with_priority p m) (priority_queue k);
  rp_same : threads k' = threads k ∧ lock_infos k' = lock_infos k ∧ lock_slab k' = lock_slab k
            ∧ cur_thread k' = cur_thread k ∧ m_woken_dummy_threads k' = m_woken_dummy_threads k
            ∧ timer_tasks k' = timer_tasks k ∧ schedule_counts k' = schedule_counts k;
  rp_cvs : cvs_ok (prio k') (threads k') (thread_trees k');
}.

Lemma repriced_prio k k' x p m y : repriced k k' x p m → prio k' y = if decide (y = x) then p else prio k y.
Proof.
  intros [Hq _ _]. rewrite <-(prio_with_member k x p m). unfold prio. by rewrite Hq.
Qed.

Lemma cv_le_trans pr ts a b c : cv_le pr ts a b → cv_le pr ts b c → cv_le pr ts a c.
Proof. unfold cv_le. lia. Qed.

(** The insertion of [x] in the tree it has been taken out of. *)
Lemma insert_in_tree_ok k c x tree t :
  thread_trees k !! c = Some tree → threads k !! x = Some t →
  (∀ e, e ∈ x :: tree → is_Some (threads k !! e) ∧ GetPriority e k = Some (prio k e)) →
  StronglySorted (cv_le (prio k) (threads k)) tree →
  ∃ tree', insert_in_tree c x k = Some (with_trees (<[c := tree']> (thread_trees k)) k)
    ∧ tree' ≡ₚ x :: tree ∧ StronglySorted (cv_le (prio k) (threads k)) tree'.
Proof.
  intros Ec Ex Hp Hs. unfold insert_in_tree. rewrite Ec. cbn [mbind option_bind]. rewrite Ex.
  cbn [mbind option_bind]. destruct (Hp x) as [_ ->]; [set_solver|]. cbn [mbind option_bind].
  assert (cv_key (threads k) x = m_condvar_key t) as Hkx by (unfold cv_key; by rewrite Ex).
  destruct (tree_insert_ok (condvar_less k (m_condvar_key t) (prio k x))
    (λ e, (cv_key (threads k) x <? cv_key (threads k) e)
          || ((cv_key (threads k) x =? cv_key (threads k) e) && (prio k x <? prio k e))) x tree)
    as (l1 & l2 & -> & -> & H1 & H2).
  { intros e He. destruct (Hp e) as [[te Ee] Hpe]; [set_solver|]. unfold condvar_less. rewrite Ee.
    cbn [mbind option_bind]. rewrite Hpe. cbn [mbind option_bind]. rewrite Hkx. unfold cv_key. by rewrite Ee. }
  cbn [mbind option_bind]. eexists. split; [done|]. split; [symmetry; apply Permutation_middle|].
  apply StronglySorted_insert; [apply cv_le_trans|done| |].
  - eapply Forall_impl; [exact H1|]. simpl. unfold cv_le. intros e He. lia.
  - intros e He%H2. unfold cv_le. lia.
Qed.

Lemma cv_sorted_prio pr pr' ts tree :
  (∀ y, y ∈ tree → pr' y = pr y) → StronglySorted (cv_le pr ts) tree → StronglySorted (cv_le pr' ts) tree.
Proof. intros H. apply StronglySorted_ext. unfold cv_le. intros a b Ha Hb. by rewrite !H. Qed.

Lemma change_priority_ok k x p m t :
  members (priority_queue k) !! x = Some m → threads k !! x = Some t →
  (∀ y t, threads k !! y = Some t → GetPriority y k = Some (prio k y)) →
  cvs_ok (prio k) (threads k) (thread_trees k) →
  ∃ k', change_priority x p k = Some k' ∧ repriced k k' x p m.
Proof.
  intros Em Et Hp [Ht Hs Hn Ho]. unfold change_priority. rewrite Et. cbn [mbind option_bind].
  destruct (m_condvar_tree t) as [c|] eqn:Ec.
  2: { rewrite (SetPriority_ok k x p m Em). eexists. split; [done|]. split; [done..|]. split; try done.
    intros c tree Etr. simpl. eapply cv_sorted_prio; [|by eapply Ho]. intros y Hy.
    rewrite prio_with_member, decide_False; [done|]. intros ->.
    apply (Ht c tree x Etr) in Hy as (t' & ? & ?). congruence. }
  destruct (Hs x t c Et Ec) as [tree Etr]. assert (x ∈ tree) as Hx by (apply (Ht c tree x Etr); by exists t).
  pose proof (erase_perm x tree (Hn c tree Etr) Hx) as Hperm. set (rest := filter (λ e, e ≠ x) tree) in *.
  unfold erase_from_tree. rewrite Etr. cbn [mbind option_bind]. rewrite (list_erase_ok x tree Hx).
  cbn [mbind option_bind]. fold rest. rewrite (SetPriority_ok _ x p m) by done. cbn [mbind option_bind].
  set (k1 := with_trees (<[c := rest]> (thread_trees k)) k).
  set (k2 := with_queue (with_member x (with_priority p m) (priority_queue k1)) k1).
  assert (∀ y, prio k2 y = if decide (y = x) then p else prio k y) as Hp2 by (intros y; apply (prio_with_member k1 x p m y)).
  assert (x ∉ rest) as Hxr by (unfold rest; rewrite list_elem_of_filter; tauto).
  destruct (insert_in_tree_ok k2 c x rest t) as (tree' & -> & Hperm' & Hs'); [simpl; by rewrite lookup_insert_eq|done| | |].
  { intros e He. rewrite <-Hperm in He. apply (Ht c tree e Etr) in He as (te & Ee & _). split; [by exists te|].
    unfold GetPriority, prio. simpl. rewrite lookup_insert. destruct (decide (x = e)); [done|].
    pose proof (Hp e te Ee) as Hpe. unfold GetPriority in Hpe. by destruct (members (priority_queue k) !! e). }
  { eapply cv_sorted_prio; [|apply StronglySorted_filter; by eapply Ho]. intros y Hy. rewrite Hp2, decide_False; [done|].
    intros ->. done. }
  eexists. split; [done|]. rewrite <-Hperm in Hperm'. split; [done|done|].
  assert (∀ c' tr, <[c := tree']> (<[c := rest]> (thread_trees k)) !! c' = Some tr →
    ∃ tr0, thread_trees k !! c' = Some tr0 ∧ tr ≡ₚ tr0) as Htr.
  { intros c' tr. rewrite insert_insert_eq, lookup_insert. destruct (decide (c = c')) as [<-|]; [|eauto].
    intros [= <-]. eauto. }
  split; simpl.
  - intros c' tr y (tr0 & E0 & Hpm)%Htr. rewrite Hpm. by apply Ht.
  - intros y ty c' Ey Ecy. rewrite insert_insert_eq, lookup_insert. destruct (decide (c = c')); [done|]. by eapply Hs.
  - intros c' tr (tr0 & E0 & Hpm)%Htr. rewrite Hpm. by eapply Hn.
  - intros c' tr. rewrite insert_insert_eq, lookup_insert. destruct (decide (c = c')) as [<-|Hne].
    + by intros [= <-].
    + intros E. eapply cv_sorted_prio; [|by eapply Ho]. intros y Hy.
      change (prio k2 y = prio k y). rewrite Hp2, decide_False; [done|]. intros ->.
      apply (Ht c' tr x E) in Hy as (t' & E' & ?). congruence.
Qed.

(** * Telling the scheduler of a change of priority *)
Lemma prio_same k k' : same_members (priority_queue k) (priority_queue k') → ∀ y, prio k' y = prio k y.
Proof.
  intros H y. specialize (H y). unfold prio.
  destruct (members (priority_queue k) !! y), (members (priority_queue k') !! y); try done. by injection H.
Qed.

Lemma cvs_ok_prio pr pr' ts trees : (∀ y, pr' y = pr y) → cvs_ok pr ts trees → cvs_ok pr' ts trees.
Proof. intros H [? ? ? Ho]. split; try done. intros c tree E. eapply cv_sorted_prio; [|by eapply Ho]. auto. Qed.

(** What the scheduler's part of an operation leaves alone. *)
Definition inner k := (threads k, lock_infos k, lock_slab k, thread_trees k).

Lemma IncrementScheduledCount_ok k x t :
  threads k !! x = Some t → (m_parent t ≠ 0 → is_Some (schedule_counts k !! m_parent t)) →
  ∃ counts, IncrementScheduledCount x k
      = Some (with_scheduler (m_scheduler_update_needed k) (m_woken_dummy_threads k) counts k)
    ∧ ∀ c, is_Some (schedule_counts k !! c) → is_Some (counts !! c).
Proof.
  intros E H. unfold IncrementScheduledCount. rewrite E. cbn [mbind option_bind].
  destruct (Z.eqb_spec (m_parent t) 0) as [|Hne]; [exists (schedule_counts k); split; [by destruct k|done]|].
  destruct (H Hne) as [c ->]. cbn [mbind option_bind]. eexists. split; [done|].
  intros c'. rewrite lookup_insert_is_Some'. by right.
Qed.

(** The members as [m] says, the others as they were: [M] is still what is queued. *)
Lemma queued_same k k' x p m (M : gmap Z Info) :
  same_core (threads k) (threads k') → members (priority_queue k) !! x = Some m →
  same_members (with_member x (with_priority p m) (priority_queue k)) (priority_queue k') →
  (∀ y i, M !! y = Some i ↔ queued k y i) →
  ∀ y i, (if decide (x = y) then (λ _, info_of (with_priority p m)) <$> M !! y else M !! y) = Some i
         ↔ queued k' y i.
Proof.
  intros Hc Em Hm HM y i. pose proof (Hm y) as Hy. simpl in Hy. rewrite lookup_insert in Hy. unfold queued.
  assert (∀ P : Z → Z → Prop, (∃ t', threads k' !! y = Some t' ∧ P (m_thread_state t') 0)
    ↔ ∃ t, threads k !! y = Some t ∧ P (m_thread_state t) 0) as Hst.
  { intros P. split; [intros (t' & (t & Et & Hcc)%(same_core_inv _ _ _ _ Hc) & HP)
      |intros (t & (t' & Et & Hcc)%(same_core_lookup _ _ _ _ Hc) & HP)];
      apply core_fields in Hcc as (_ & Hs & _); eexists; (split; [done|congruence]). }
  destruct (decide (x = y)) as [<-|Hne].
  - apply fmap_Some in Hy as (m' & Em' & Es). injection Es as Ea Ec Ep Ed.
    assert (info_of (with_priority p m) = info_of m') as -> by (unfold info_of; simpl; congruence).
    rewrite fmap_Some. split.
    + intros (i0 & (t & ? & Et & E0 & Hs & Hd & _)%HM & ->). simplify_eq.
      destruct (proj2 (Hst (λ s _, s = ThreadState.Runnable))) as (t' & ? & ?); [by exists t|].
      exists t', m'. split_and!; try done. congruence.
    + intros (t' & ? & Et & E0 & Hs & Hd & ->). simplify_eq.
      destruct (proj1 (Hst (λ s _, s = ThreadState.Runnable))) as (t & ? & ?); [by exists t'|].
      exists (info_of m). split; [|done]. apply HM. exists t, m. split_and!; try done. congruence.
  - rewrite HM. split.
    + intros (t & my & Et & E0 & Hs & Hd & ->). rewrite E0 in Hy. apply fmap_Some in Hy as (m' & Em' & Es).
      injection Es as Ea Ec Ep Ed. destruct (proj2 (Hst (λ s _, s = ThreadState.Runnable))) as (t' & ? & ?); [by exists t|].
      exists t', m'. split_and!; try done; [congruence|]. unfold info_of. congruence.
    + intros (t' & m' & Et & E0 & Hs & Hd & ->). rewrite E0 in Hy. symmetry in Hy.
      apply fmap_Some in Hy as (my & Em' & Es). injection Es as Ea Ec Ep Ed.
      destruct (proj1 (Hst (λ s _, s = ThreadState.Runnable))) as (t & ? & ?); [by exists t'|].
      exists t, my. split_and!; try done; [congruence|]. unfold info_of. congruence.
Qed.

Section priority_changed.
Context (k0 k : Kernel) (x p : Z) (m : Member) (t : KThread).
Context (S0 : sched_ok k0) (Et : threads k0 !! x = Some t) (Em : members (priority_queue k0) !! x = Some m).
Context (Hc : same_core (threads k0) (threads k))
        (Hq : priority_queue k = with_member x (with_priority p m) (priority_queue k0))
        (Hn : schedule_counts k = schedule_counts k0) (Hp : 0 ≤ p ≤ m_base_priority t).

(** The scheduler's state is in order once the queue represents what is queued now. *)
Lemma sched_ok_changed k' tb M' :
  same_core (threads k0) (threads k') → same_members (priority_queue k) (priority_queue k') →
  (∀ c, is_Some (schedule_counts k0 !! c) → is_Some (schedule_counts k' !! c)) →
  rep (priority_queue k') tb → placed tb M' → (∀ y i, M' !! y = Some i ↔ queued k' y i) → sched_ok k'.
Proof using S0 Et Em Hq Hp.
  intros Hc' Hm Hcnt Hrep Hpl HM'. split; [|by exists tb, M'|].
  - intros y ty' Ey'. destruct (same_core_inv _ _ y ty' Hc' Ey') as (ty & Ey & Hcc).
    apply core_fields in Hcc as (Hb & _). destruct (sc_member k0 S0 y ty Ey) as (my & Emy & Hy0 & Hinfo).
    specialize (Hm y). rewrite Hq in Hm. simpl in Hm. rewrite lookup_insert in Hm.
    destruct (decide (x = y)) as [<-|]; [|rewrite Emy in Hm]; apply fmap_Some in Hm as (m' & Em' & Es);
      injection Es as Ea Ec Ep Ed; exists m'; (split; [done|]); (split; [done|]); intros Hd.
    + rewrite Em in Emy. injection Emy as <-. rewrite Et in Ey. injection Ey as <-. destruct Hinfo as [(_ & H2 & H3 & H4) H5]; [congruence|]. rewrite Hb. split; [|done].
      unfold info_ok, info_of, priority_ok. simpl. rewrite <-Ea, <-Ec, <-Ep. split_and!; try done; lia.
    + replace (info_of m') with (info_of my) by (unfold info_of; congruence). rewrite Hb. apply Hinfo. congruence.
  - intros y ty' Ey'. destruct (same_core_inv _ _ y ty' Hc' Ey') as (ty & Ey & Hcc).
    apply core_fields in Hcc as (_ & _ & _ & _ & _ & _ & ->). intros H. by eapply Hcnt, sc_parent.
Qed.

Lemma OnThreadPriorityChanged_ok :
  ∃ k', OnThreadPriorityChanged x (PriorityQueue.GetPriority m) k = Some k' ∧ sched_ok k'
    ∧ same_members (priority_queue k) (priority_queue k') ∧ inner k' = inner k.
Proof using All.
  destruct (sc_queue k0 S0) as (tb & M & Hrep & Hpl & HM).
  pose proof (rep_priority _ tb x p m Em Hrep) as Hrep1. rewrite <-Hq in Hrep1.
  destruct (same_core_lookup _ _ x t Hc Et) as (t1 & Et1 & Hcc).
  pose proof (core_fields _ _ Hcc) as (_ & Hst & _ & _ & _ & _ & Hpar).
  assert (∀ k', same_members (priority_queue k) (priority_queue k') → threads k' = threads k →
    ∀ y i, (if decide (x = y) then (λ _, info_of (with_priority p m)) <$> M !! y else M !! y) = Some i
           ↔ queued k' y i) as HM'.
  { intros k' Hm' Ht'. apply (queued_same k0); [by rewrite Ht'|done|by rewrite <-Hq|done]. }
  assert ((m_thread_state t1 = ThreadState.Runnable → IsDummyThread m = true) → M !! x = None) as HMx.
  { intros Hno. destruct (M !! x) as [i|] eqn:E; [|done]. apply HM in E as (? & ? & ? & ? & ? & Hd & _). simplify_eq.
    rewrite Hno in Hd; [done|congruence]. }
  assert (∀ k', same_members (priority_queue k) (priority_queue k') → threads k' = threads k → M !! x = None →
    ∀ y i, M !! y = Some i ↔ queued k' y i) as HM0.
  { intros k' Hm' Ht' Hx y i. rewrite <-(HM' k' Hm' Ht'). destruct (decide (x = y)) as [<-|]; [|done]. by rewrite Hx. }
  unfold OnThreadPriorityChanged. rewrite Et1. cbn [mbind option_bind].
  destruct (Z.eqb_spec (m_thread_state t1) ThreadState.Runnable) as [Hrun|Hrun].
  2: { exists k. split; [done|]. split; [|by split; [intros y|]]. apply (sched_ok_changed k tb M); try done.
    - by rewrite Hn.
    - apply HM0; [intros y|..]; auto; done. }
  assert (members (priority_queue k) !! x = Some (with_priority p m)) as Emk by (rewrite Hq; simpl; by rewrite lookup_insert_eq).
  destruct (sc_member k0 S0 x t Et) as (m0 & E0 & Hx0 & Hinfo). rewrite Em in E0. injection E0 as <-.
  assert (∃ q tb' M', ChangePriority (PriorityQueue.GetPriority m) (x =? cur_thread k) x (priority_queue k) = Some q
    ∧ same_members (priority_queue k) q ∧ rep q tb' ∧ placed tb' M'
    ∧ ∀ k', same_members (priority_queue k) (priority_queue k') → threads k' = threads k →
        ∀ y i, M' !! y = Some i ↔ queued k' y i) as (q & tb' & M' & -> & Hm' & Hrep' & Hpl' & HM2).
  { destruct (IsDummyThread m) eqn:Ed.
    - exists (priority_queue k), tb, M. split; [|split; [by intros y|]; split; [done|]; split; [done|]].
      + unfold ChangePriority. rewrite Emk. cbn [mbind option_bind]. simpl. by rewrite Ed.
      + intros k' ? ?. apply HM0; try done. by apply HMx.
    - destruct (Hinfo eq_refl) as [(H1 & H2 & H3 & H4) H5].
      assert (M !! x = Some (info_of m)) as HMm by (apply HM; exists t, m; split_and!; try done; congruence).
      destruct (ChangePriority_ok (priority_queue k) tb M x (with_priority p m) Hrep1 Hpl Emk Hx0)
        with (prev := PriorityQueue.GetPriority m) (running := x =? cur_thread k) as (q & -> & Hrep' & Hm'); try done.
      { unfold info_ok, info_of, priority_ok. simpl. split_and!; try done; lia. }
      eexists q, _, (<[x := info_of (with_priority p m)]> M). split; [done|]. split; [done|]. split; [done|].
      split; [by eapply placed_change|]. intros k' ? ? y i. rewrite <-(HM' k') by done. rewrite lookup_insert.
      destruct (decide (x = y)) as [<-|]; [|done]. by rewrite HMm. }
  cbn [mbind option_bind].
  destruct (IncrementScheduledCount_ok (with_queue q k) x t1 Et1) as (counts & -> & Hcnt).
  { intros Hne. rewrite Hpar in Hne |- *. cbn [schedule_counts with_queue]. rewrite Hn. by apply (sc_parent k0 S0 x t). }
  cbn [mbind option_bind]. eexists. split; [done|]. split; [|done].
  eapply sched_ok_changed; [done|done| |done|done|].
  - intros c Hx. apply Hcnt. simpl. by rewrite Hn.
  - by apply HM2.
Qed.
End priority_changed.

(** * The priority a thread should have *)

(** [p] is the least of [x]'s base priority and the priorities of the threads that wait for [x]. *)
Definition due k (x p : Z) : Prop :=
  ∃ t, threads k !! x = Some t ∧ p ≤ m_base_priority t ∧ (∀ w, waits k w = Some x → p ≤ prio k w)
    ∧ (p = m_base_priority t ∨ ∃ w, waits k w = Some x ∧ prio k w = p).
Definition inherits k (x : Z) : Prop := due k x (prio k x).

Lemma inherit_min k held acc :
  (∀ l, l ∈ held → ∃ li, lock_infos k !! l = Some li ∧ lock_ok (prio k) li
     ∧ ∀ w, w ∈ li_tree li → GetPriority w k = Some (prio k w)) →
  ∃ p, inherit acc held k = Some p ∧ p ≤ acc
    ∧ (∀ l li w, l ∈ held → lock_infos k !! l = Some li → w ∈ li_tree li → p ≤ prio k w)
    ∧ (p = acc ∨ ∃ l li w, l ∈ held ∧ lock_infos k !! l = Some li ∧ w ∈ li_tree li ∧ prio k w = p).
Proof.
  revert acc. induction held as [|l held IH]; intros acc Hl; cbn [inherit].
  - exists acc. split_and!; try done; [|by left]. intros ? ? ? H. by apply not_elem_of_nil in H.
  - destruct (Hl l) as (li & El & [_ Hne _ Hs] & Hp); [set_solver|]. unfold GetHighestPriorityWaiter. rewrite El.
    cbn [mbind option_bind]. destruct (li_tree li) as [|w rest] eqn:Et; [done|]. cbn [head mbind option_bind].
    rewrite (Hp w) by set_solver. cbn [mbind option_bind].
    destruct (IH (Z.min acc (prio k w))) as (p & -> & H1 & H2 & H3); [set_solver|].
    apply StronglySorted_inv in Hs as [_ Hs]. rewrite Forall_forall in Hs.
    exists p. split; [done|]. split; [lia|]. split.
    + intros l' li' v [->|Hl']%elem_of_cons E' Hv; [|by eapply H2]. rewrite El in E'. injection E' as <-.
      rewrite Et in Hv. apply elem_of_cons in Hv as [->|Hv%Hs]; lia.
    + destruct H3 as [->|(l' & li' & v & Hl' & E' & Hv & <-)]; [|right; exists l', li', v; set_solver].
      destruct (Z.min_spec acc (prio k w)) as [[_ ->]|[_ ->]]; [by left|]. right. exists l, li, w.
      rewrite Et. set_solver.
Qed.

Lemma waiter_of k x w t :
  locks_ok (prio k) (threads k) (lock_infos k) (lock_slab k) → threads k !! x = Some t →
  waits k w = Some x ↔ ∃ l li, l ∈ m_held_lock_info_list t ∧ lock_infos k !! l = Some li ∧ w ∈ li_tree li.
Proof.
  intros L Et. split.
  - intros Hw. destruct (waits_Some _ _ _ _ L Hw) as (tw & l & li & tx & Ew & El & Eli & Ex & Etx). exists l, li.
    split_and!; [|done|].
    + apply (lk_held _ _ _ _ L x t l Et). by exists li.
    + apply (lk_tree _ _ _ _ L l li w Eli). by exists tw.
  - intros (l & li & Hl & Eli & Hw). apply (lk_held _ _ _ _ L x t l Et) in Hl as (li' & E' & Ho).
    rewrite Eli in E'. injection E' as <-. apply (lk_tree _ _ _ _ L l li w Eli) in Hw as (tw & Ew & El). unfold waits, waits_on. rewrite Ew. simpl.
    rewrite El. simpl. rewrite Eli. simpl. by rewrite Ho.
Qed.

Lemma inherit_ok k x t :
  kernel_ok k → threads k !! x = Some t →
  ∃ p, inherit (m_base_priority t) (m_held_lock_info_list t) k = Some p ∧ due k x p.
Proof.
  intros [L _ S _] Et. destruct (inherit_min k (m_held_lock_info_list t) (m_base_priority t)) as (p & -> & H1 & H2 & H3).
  { intros l (li & El & _)%(lk_held _ _ _ _ L x t l Et). exists li. split; [done|].
    split; [by apply (lk_info _ _ _ _ L l)|]. intros w (tw & Ew & _)%(lk_tree _ _ _ _ L l li w El).
    by eapply GetPriority_ok. }
  exists p. split; [done|]. exists t. split; [done|]. split; [done|]. split.
  - intros w (l & li & Hl & El & Hw)%(waiter_of k x w t L Et). by eapply H2.
  - destruct H3 as [->|(l & li & w & Hl & El & Hw & <-)]; [by left|right]. exists w. split; [|done].
    apply (waiter_of k x w t L Et). by exists l, li.
Qed.

Lemma due_unique k x p q : due k x p → due k x q → p = q.
Proof.
  intros (t & Et & H1 & H2 & H3) (t' & Et' & H1' & H2' & H3'). simplify_eq.
  assert (p ≤ q ∧ q ≤ p); [|lia].
  split; [destruct H3' as [->|(w & Hw & <-)]; auto|destruct H3 as [->|(w & Hw & <-)]; auto].
Qed.

Lemma due_bounds k x p : kernel_ok k → due k x p → 0 ≤ p ≤ 65.
Proof.
  intros K (t & Et & H1 & H2 & H3). pose proof (ko_prio k K x t Et) as [_ Hb].
  destruct H3 as [->|(w & Hw & <-)]; [lia|].
  destruct (waits_Some _ _ _ _ (ko_locks k K) Hw) as (tw & _ & _ & _ & Ew & _). by apply (ko_prio k K w tw Ew).
Qed.

(** * A turn of the loop *)
Lemma GetLockOwner_ok k x t : kernel_ok k → threads k !! x = Some t → GetLockOwner x k = Some (waits k x).
Proof.
  intros [L _ _ _] Et. unfold GetLockOwner, waits, waits_on. rewrite Et. cbn [mbind option_bind].
  destruct (m_waiting_lock_info t) as [l|] eqn:El; [|done]. cbn [mbind option_bind].
  by destruct (lk_waiting _ _ _ _ L x t l Et El) as (li & -> & _).
Qed.

(** [k'] has [p] as the priority of [x] and is otherwise in [k]'s situation. *)
Record restored k k' (x p : Z) : Prop := {
  re_ok : kernel_ok k';
  re_core : same_core (threads k) (threads k');
  re_waits : ∀ y, waits k' y = waits k y;
  re_prio : ∀ y, prio k' y = if decide (y = x) then p else prio k y;
}.

(** The part of a turn that takes [x] out of the lock's tree, if any. *)
Lemma leave_lock k x :
  kernel_ok k → ∃ k1, match waits k x with Some o => RemoveWaiterImpl o x k | None => Some k end = Some k1
    ∧ moved k k1 (λ y, if decide (y = x) then None else waits k y).
Proof.
  intros [L _ _ _]. destruct (waits k x) as [o|] eqn:Ew; [by apply RemoveWaiterImpl_ok|].
  exists k. split; [done|]. split; try done. intros y. destruct (decide (y = x)) as [->|]; done.
Qed.

(** The part that puts it back. *)
Lemma rejoin_lock k x o t :
  locks_ok (prio k) (threads k) (lock_infos k) (lock_slab k) →
  (∀ y t, threads k !! y = Some t → GetPriority y k = Some (prio k y)) →
  threads k !! x = Some t → waits k x = None →
  (∀ o', o = Some o' → is_Some (threads k !! o') ∧ m_condvar_tree t = None) →
  ∃ k', match o with Some o => AddWaiterImpl o x k | None => Some k end = Some k'
    ∧ moved k k' (λ y, if decide (y = x) then o else waits k y).
Proof.
  intros L Hp Et Hw Ho. destruct o as [o|].
  - destruct (Ho o eq_refl) as [[to Eo] Hcv]. by eapply AddWaiterImpl_ok.
  - exists k. split; [done|]. split; try done. intros y. destruct (decide (y = x)) as [->|]; done.
Qed.

Lemma restore_step_ok k x p t :
  kernel_ok k → threads k !! x = Some t → 0 ≤ p ≤ m_base_priority t →
  ∃ k', restore_step x p k = Some (waits k x, k') ∧ restored k k' x p.
Proof.
  intros K Et Hp. pose proof K as [L C S P]. destruct (sc_member k S x t Et) as (m & Em & _).
  unfold restore_step. rewrite (GetLockOwner_ok k x t K Et). cbn [mbind option_bind].
  destruct (leave_lock k x K) as (k1 & -> & [L1 C1 W1 O1]). cbn [mbind option_bind].
  assert (priority_queue k1 = priority_queue k ∧ thread_trees k1 = thread_trees k
    ∧ schedule_counts k1 = schedule_counts k) as (Q1 & T1 & N1) by by injection O1.
  destruct (same_core_lookup _ _ x t C1 Et) as (t1 & Et1 & Hc1). pose proof (prio_outer k k1 O1) as Hpr1.
  assert (∀ y t', threads k1 !! y = Some t' → GetPriority y k1 = Some (prio k1 y)) as Hg1.
  { intros y t' (t0 & E0 & _)%(same_core_inv _ _ y t' C1). rewrite (GetPriority_outer k k1), Hpr1 by done.
    by eapply GetPriority_ok. }
  rewrite (Hg1 x t1 Et1). cbn [mbind option_bind].
  assert (members (priority_queue k1) !! x = Some m) as Em1 by by rewrite Q1.
  destruct (change_priority_ok k1 x p m t1 Em1 Et1 Hg1) as (k2 & -> & R2).
  { rewrite Hpr1, T1. by eapply cvs_ok_core. }
  cbn [mbind option_bind]. pose proof (repriced_prio k1 k2 x p m) as Hpr2. pose proof R2 as [Q2 (T2 & I2 & B2 & _ & _ & _ & N2) V2].
  assert (waits k2 x = None) as Hw2 by (unfold waits; rewrite T2, I2, <-(decide_True (P := x = x) None (waits k x)) by done; apply W1).
  destruct (rejoin_lock k2 x (waits k x) t1) as (k3 & -> & [L3 C3 W3 O3]).
  { rewrite T2, I2, B2. eapply locks_ok_prio; [|by rewrite <-Hpr1 in L1].
    intros w [o Hw]. rewrite Hpr2 by done. rewrite decide_False; [done|]. intros ->.
    change (waits k1 x = Some o) in Hw. rewrite W1, decide_True in Hw; done. }
  { intros y t'. rewrite T2. intros Ey. pose proof (Hg1 y t' Ey) as Hy. unfold GetPriority, prio in *. rewrite Q2.
    simpl. rewrite lookup_insert. by destruct (decide (x = y)). }
  { by rewrite T2. }
  { done. }
  { intros o Ho. destruct (waits_Some _ _ _ _ L Ho) as (t' & l & li & to & Ex & El & Eli & _ & Eo).
    rewrite Et in Ex. injection Ex as <-. rewrite T2.
    destruct (same_core_lookup _ _ o to C1 Eo) as (to1 & Eo1 & _). split; [by exists to1|].
    apply core_fields in Hc1 as (_ & _ & _ & _ & -> & _). by destruct (lk_waiting _ _ _ _ L x t l Et El) as (? & _ & _ & _ & ?). }
  cbn [mbind option_bind].
  assert (same_core (threads k) (threads k3)) as C13.
  { etransitivity; [exact C1|]. rewrite <-T2. exact C3. }
  assert (priority_queue k3 = priority_queue k2 ∧ thread_trees k3 = thread_trees k2
    ∧ schedule_counts k3 = schedule_counts k2) as (Q3 & T3 & N3) by by injection O3.
  rewrite Hpr1. replace (prio k x) with (PriorityQueue.GetPriority m) by (unfold prio; by rewrite Em).
  destruct (OnThreadPriorityChanged_ok k k3 x p m t S Et Em C13) as (k4 & -> & S4 & M4 & I4).
  { by rewrite Q3, Q2, Q1. } { by rewrite N3, N2, N1. } { done. }
  cbn [mbind option_bind]. exists k4. split; [done|].
  assert (threads k4 = threads k3 ∧ lock_infos k4 = lock_infos k3 ∧ lock_slab k4 = lock_slab k3
    ∧ thread_trees k4 = thread_trees k3) as (T4 & Li4 & B4 & Tr4) by by injection I4.
  assert (∀ y, prio k4 y = prio k2 y) as Hpr4.
  { intros y. rewrite (prio_same k3 k4) by done. by rewrite (prio_outer k2 k3). }
  assert (∀ y, prio k4 y = if decide (y = x) then p else prio k y) as Hpr.
  { intros y. by rewrite Hpr4, Hpr2, Hpr1. }
  split; [split|..].
  - rewrite T4, Li4, B4. eapply locks_ok_prio; [|exact L3]. auto.
  - rewrite T4, Tr4, T3. eapply cvs_ok_prio; [exact Hpr4|]. eapply cvs_ok_core; [exact C3|done].
  - done.
  - intros y ty. rewrite T4. intros (t0 & E0 & Hc)%(same_core_inv _ _ y ty C13).
    apply core_fields in Hc as (-> & _). destruct (P y t0 E0) as [? ?]. rewrite Hpr.
    destruct (decide (y = x)) as [->|]; [|done]. rewrite Et in E0. injection E0 as <-. lia.
  - by rewrite T4.
  - intros y. unfold waits. rewrite T4, Li4. change (waits k3 y = waits k y). rewrite W3.
    unfold waits. rewrite T2, I2. change (waits_on (threads k1) (lock_infos k1) y) with (waits k1 y). rewrite W1.
    by destruct (decide (y = x)) as [->|].
  - exact Hpr.
Qed.

(** * The loop *)

(** Every thread but [x] has the priority it should have; what [x] should have is not above
    its priority as a number when priorities rise, and not below when they fall. *)
Definition pending (up : bool) k (x : Z) : Prop :=
  (∀ y, is_Some (threads k !! y) → y ≠ x → inherits k y)
  ∧ ∀ p, due k x p → if up then p ≤ prio k x else prio k x ≤ p.

Lemma due_frame k k' x p y q :
  restored k k' x p → waits k x ≠ Some y → due k' y q ↔ due k y q.
Proof.
  intros [_ Hc Hw Hpr] Hne.
  assert (∀ w, waits k w = Some y → prio k' w = prio k w) as Hp.
  { intros w Ew. rewrite Hpr, decide_False; [done|]. by intros ->. }
  split.
  - intros (t' & (t & Et & (Hb & _)%core_fields)%(same_core_inv _ _ y t' Hc) & H1 & H2 & H3). rewrite Hb in H1, H3.
    exists t. split; [done|]. split; [done|]. split.
    + intros w Ew. rewrite <-Hp by done. apply H2. by rewrite Hw.
    + destruct H3 as [->|(w & Ew & <-)]; [by left|right]. rewrite Hw in Ew. exists w. split; [done|by rewrite Hp].
  - intros (t & (t' & Et & (Hb & _)%core_fields)%(same_core_lookup _ _ y t Hc) & H1 & H2 & H3). rewrite <-Hb in H1, H3.
    exists t'. split; [done|]. split; [done|]. split.
    + intros w Ew. rewrite Hw in Ew. rewrite Hp by done. by apply H2.
    + destruct H3 as [->|(w & Ew & <-)]; [by left|right]. exists w. by rewrite Hw, Hp.
Qed.

(** The direction is kept for the owner of the lock [x] waits for. *)
Lemma owner_pending up k k' x p o :
  kernel_ok k → due k x p → p ≠ prio k x → restored k k' x p → pending up k x → waits k x = Some o →
  ∀ q, due k' o q → if up then q ≤ prio k' o else prio k' o ≤ q.
Proof.
  intros K D Hne [_ Hc Hw Hpr] [Hall Hdir] Ho q (t' & Et' & H1 & H2 & H3).
  destruct (same_core_inv _ _ o t' Hc Et') as (t & Et & (Hb & _)%core_fields). rewrite Hb in H1, H3.
  assert (∀ w, waits k w = Some o → q ≤ if decide (w = x) then p else prio k w) as H2'.
  { intros w Ew. rewrite <-Hpr. apply H2. by rewrite Hw. }
  assert (q = m_base_priority t ∨ ∃ w, waits k w = Some o ∧ (if decide (w = x) then p else prio k w) = q) as H3'.
  { destruct H3 as [->|(w & Ew & <-)]; [by left|right]. exists w. rewrite <-Hw, Hpr. done. }
  specialize (Hdir p D). rewrite Hpr. destruct (decide (o = x)) as [->|Hox].
  - destruct D as (t0 & Et0 & D1 & D2 & D3). rewrite Et in Et0. injection Et0 as <-. specialize (D2 x Ho).
    destruct up; [|lia]. destruct D3 as [->|(w & Ew & <-)]; [lia|].
    specialize (H2' w Ew). destruct (decide (w = x)) as [->|]; lia.
  - destruct (Hall o) as (t0 & Et0 & D1 & D2 & D3); [by exists t|done|]. rewrite Et in Et0. injection Et0 as <-.
    destruct up.
    + destruct D3 as [->|(w & Ew & <-)]; [done|]. specialize (H2' w Ew).
      destruct (decide (w = x)) as [->|]; lia.
    + destruct H3' as [->|(w & Ew & <-)]; [done|]. specialize (D2 w Ew).
      destruct (decide (w = x)) as [->|]; [lia|done].
Qed.

(** After a turn, only the owner may have to change. *)
Lemma step_pending up k k' x p :
  kernel_ok k → due k x p → p ≠ prio k x → restored k k' x p → pending up k x →
  match waits k x with
  | Some o => pending up k' o
  | None => ∀ y, is_Some (threads k' !! y) → inherits k' y
  end.
Proof.
  intros K D Hne R Hpd. pose proof Hpd as [Hall _]. pose proof R as [_ Hc _ Hpr].
  assert (∀ y, is_Some (threads k' !! y) → waits k x ≠ Some y → inherits k' y) as Hrest.
  { intros y [t' Et'] Hy. unfold inherits. rewrite (due_frame k k' x p y _ R Hy), Hpr.
    destruct (decide (y = x)) as [->|]; [done|]. apply Hall; [|done].
    destruct (same_core_inv _ _ y t' Hc Et') as (t & ? & _). by exists t. }
  destruct (waits k x) as [o|] eqn:Eo.
  - split; [intros y Hy Hyo; apply Hrest; congruence|]. by eapply owner_pending.
  - intros y Hy. by apply Hrest.
Qed.

(** How far the priorities of the threads [l] may still go. *)
Definition distance (up : bool) (pr : Z → Z) (y : Z) : nat := Z.to_nat (if up then pr y else 65 - pr y).
Definition room (up : bool) (pr : Z → Z) (l : list Z) : nat := sum_list_with (distance up pr) l.

Lemma sum_list_with_lt (f g : Z → nat) x l :
  x ∈ l → (∀ y, f y ≤ g y)%nat → (f x < g x)%nat → (sum_list_with f l < sum_list_with g l)%nat.
Proof.
  intros Hx Hle Hlt. induction l as [|y l IH]; [by apply not_elem_of_nil in Hx|]. simpl.
  assert (sum_list_with f l ≤ sum_list_with g l)%nat as Hl.
  { clear Hx IH. induction l as [|z l IH]; simpl; [done|]. pose proof (Hle z). lia. }
  apply elem_of_cons in Hx as [->|Hx]; [lia|]. specialize (IH Hx). pose proof (Hle y). lia.
Qed.

Lemma sum_list_with_bound (f : Z → nat) b l : (∀ y, y ∈ l → f y ≤ b)%nat → (sum_list_with f l ≤ b * length l)%nat.
Proof.
  induction l as [|y l IH]; intros H; simpl; [lia|]. pose proof (H y ltac:(set_solver)).
  assert (sum_list_with f l ≤ b * length l)%nat by (apply IH; set_solver). lia.
Qed.

(** The result of the loop: all threads have the priorities they should have. *)
Record all_restored k k' : Prop := {
  ar_ok : kernel_ok k';
  ar_core : same_core (threads k) (threads k');
  ar_waits : ∀ y, waits k' y = waits k y;
  ar_inherits : ∀ y, is_Some (threads k' !! y) → inherits k' y;
}.

Lemma RestorePriority_loop_ok up fuel k x :
  kernel_ok k → is_Some (threads k !! x) → pending up k x →
  (room up (prio k) (elements (dom (threads k))) < fuel)%nat →
  ∃ k', RestorePriority_loop fuel (Some x) k = Some k' ∧ all_restored k k'.
Proof.
  revert k x. induction fuel as [|fuel IH]; intros k x K [t Et] Hpd Hfuel; [lia|]. cbn [RestorePriority_loop].
  rewrite Et. cbn [mbind option_bind]. destruct (inherit_ok k x t K Et) as (p & -> & D). cbn [mbind option_bind].
  rewrite (GetPriority_ok k x t) by (done || apply K). cbn [mbind option_bind].
  destruct (Z.eqb_spec p (prio k x)) as [Heq|Hne].
  { exists k. split; [done|]. split; [done|done|done|]. intros y Hy. destruct (decide (y = x)) as [->|]; [|by apply Hpd].
    unfold inherits. by rewrite <-Heq. }
  pose proof (due_bounds k x p K D) as Hb. pose proof D as (t0 & Et0 & Hbase & _). rewrite Et in Et0. injection Et0 as <-.
  destruct (restore_step_ok k x p t K Et) as (k1 & -> & R); [lia|]. cbn [mbind option_bind].
  pose proof (step_pending up k k1 x p K D Hne R Hpd) as Hpd1. pose proof R as [K1 C1 W1 P1].
  destruct (waits k x) as [o|] eqn:Eo.
  2: { exists k1. split; [by destruct fuel|]. by split. }
  assert (is_Some (threads k1 !! o)) as Eo1.
  { destruct (waits_Some _ _ _ _ (ko_locks k K) Eo) as (_ & _ & _ & to & _ & _ & _ & _ & Eto).
    destruct (same_core_lookup _ _ o to C1 Eto) as (to' & ? & _). by exists to'. }
  destruct (IH k1 o K1 Eo1 Hpd1) as (k2 & E2 & [K2 C2 W2 I2]).
  - rewrite (same_core_dom _ _ C1). eapply Nat.lt_le_trans; [|apply le_S_n, Hfuel].
    pose proof (ko_prio k K x t Et) as [Hx _]. pose proof Hpd as [_ Hdir]. specialize (Hdir p D).
    apply (sum_list_with_lt _ _ x).
    + apply elem_of_elements, elem_of_dom. by exists t.
    + intros y. unfold distance. rewrite P1. destruct (decide (y = x)) as [->|]; [destruct up; lia|done].
    + unfold distance. rewrite P1, decide_True by done. destruct up; lia.
  - exists k2. split; [done|]. split; [done|by transitivity (threads k1)|intros y; by rewrite W2|done].
Qed.

(** Nothing but the priority of [x] is in question. *)
Lemma RestorePriority_ok k x :
  kernel_ok k → is_Some (threads k !! x) → (∀ y, is_Some (threads k !! y) → y ≠ x → inherits k y) →
  ∃ k', RestorePriority x k = Some k' ∧ all_restored k k'.
Proof.
  intros K [t Et] Hall. destruct (inherit_ok k x t K Et) as (p & _ & D).
  apply (RestorePriority_loop_ok (p <=? prio k x)); [done|by exists t| |].
  - split; [done|]. intros q D'. rewrite (due_unique k x q p) by done. destruct (Z.leb_spec p (prio k x)); lia.
  - unfold room. eapply Nat.le_lt_trans; [apply (sum_list_with_bound _ 66)|].
    + intros y [ty Ey]%elem_of_elements%elem_of_dom. pose proof (ko_prio k K y ty Ey). unfold distance.
      destruct (p <=? prio k x); lia.
    + change (length (elements (dom (threads k)))) with (size (dom (threads k))). rewrite size_dom. lia.
Qed.
