(* ===== verification/ThreadHandover.v ===== *)
(** The handing over of a lock to its highest-priority waiter, and what an operation that
    touches neither locks nor trees leaves of the invariant. *)
From stdpp Require Import sorting.
From S2P Require Import Prelude Common Results PriorityQueue PriorityQueueLinks PriorityQueueSpec Thread ThreadLocks ThreadWaiters ThreadInherit.

Implicit Types k : Kernel.

(** * Handing a lock over *)
Lemma kernel_tree_bound pr ts ls slab l li t :
  locks_ok pr ts ls slab → ls !! l = Some li → li_is_kernel_address_key li = true → ts !! li_owner li = Some t →
  Z.of_nat (length (li_tree li)) ≤ m_num_kernel_waiters t.
Proof.
  intros L El Hk Et. destruct (lk_kernel _ _ _ _ L _ t Et) as (S & HS & ->).
  destruct (lk_info _ _ _ _ L l li El) as [Hnd _ _ _]. rewrite <-(size_list_to_set (C := gset Z)) by done.
  apply inj_le, subseteq_size. intros w (tw & Ew & Hw)%elem_of_list_to_set%(lk_tree _ _ _ _ L l li w El).
  destruct (lk_waiting _ _ _ _ L w tw l Ew Hw) as (li' & E' & _ & Hk' & _). rewrite El in E'. injection E' as <-.
  apply HS. split; [|exists tw; by rewrite Hk']. unfold waits_on. rewrite Ew. simpl. rewrite Hw. simpl. by rewrite El.
Qed.

(** The steps of [hand_over] on the threads. *)
Lemma handed_threads (ts : gmap Z KThread) x o l tx to3 n0 n1 m :
  ts !! x = Some tx →
  let ts3 := map_imap (λ y t, Some (relink o None x (filter (λ e, e ≠ l) (m_held_lock_info_list tx))
                                      (n0 - n1 - m) y t)) ts in
  ts3 !! o = Some to3 →
  ∀ y, <[o := set_num_kernel_waiters (m_num_kernel_waiters to3 + m) (set_held (l :: m_held_lock_info_list to3) to3)]> ts3 !! y
    = receive o l m y ∘ give x l m y <$>
        map_imap (λ y t, Some (relink o None x (m_held_lock_info_list tx) (n0 - n1) y t)) ts !! y.
Proof.
  intros Ex ts3 Eo y. rewrite map_lookup_imap. subst ts3. rewrite map_lookup_imap in Eo.
  rewrite lookup_insert, map_lookup_imap. destruct (decide (o = y)) as [<-|Hne].
  - destruct (ts !! o) as [t|] eqn:Et; [|done]. injection Eo as <-. simpl. f_equal. unfold receive, give, relink.
    rewrite !(decide_True (P := o = o)) by done. destruct (decide (o = x)); simpl.
    + done.
    + by destruct t.
  - destruct (ts !! y) as [t|] eqn:Et; [|done]. simpl. f_equal. unfold receive, give, relink.
    rewrite !(decide_False (P := y = o)) by done. destruct (decide (y = x)); [|done]. simpl. by destruct t.
Qed.

(** The locks, as lists of the state, after the lock [l] has gone from [x] to [o], the first of
    its waiters. *)
Section taken_over.
Context (pr : Z → Z) (ts : gmap Z KThread) (ls : gmap Z LockInfo) (slab : list Z).
Context (L : locks_ok pr ts ls slab).
Context (l x o : Z) (tx to : KThread) (li : LockInfo) (rest : list Z).
Context (Eo : ts !! o = Some to) (Ewo : m_waiting_lock_info to = Some l) (El : ls !! l = Some li)
        (Ex : li_owner li = x) (Etx : ts !! x = Some tx) (Etr : li_tree li = o :: rest).
Let e : Z := if li_is_kernel_address_key li then 1 else 0.
Let m : Z := if li_is_kernel_address_key li then Z.of_nat (length rest) else 0.
Let held : list Z := filter (λ e, e ≠ l) (m_held_lock_info_list tx).
Let ts3 : gmap Z KThread := map_imap (λ y t, Some (relink o None x held (m_num_kernel_waiters tx - e - m) y t)) ts.
Let left_li : LockInfo := set_waiters rest (Z.of_nat (length rest)) li.

Lemma first_removed : filter (λ e, e ≠ o) (li_tree li) = rest.
Proof using L El Etr.
  clear -L El Etr. destruct (lk_info _ _ _ _ L l li El) as [Hnd _ _ _].
  rewrite Etr in Hnd |- *. apply NoDup_cons in Hnd as [Hno _]. rewrite filter_cons_False by tauto.
  apply filter_id. set_solver.
Qed.

Lemma taken_last : rest = [] →
  locks_ok pr ts3 (delete l (<[l := left_li]> ls)) (l :: slab)
  ∧ ∀ y, waits_on ts3 (delete l (<[l := left_li]> ls)) y
         = if decide (y = o) then None else if decide (y ∈ rest) then Some o else waits_on ts ls y.
Proof using All.
  intros Hr. pose proof first_removed as Hf.
  assert (∀ y, ts3 !! y = relink o None x (if decide (filter (λ e, e ≠ o) (li_tree li) = []) then
      filter (λ e, e ≠ l) (m_held_lock_info_list tx) else m_held_lock_info_list tx)
    (m_num_kernel_waiters tx - if li_is_kernel_address_key li then 1 else 0) y <$> ts !! y) as Ht.
  { intros y. unfold ts3. rewrite map_lookup_imap, Hf, decide_True by done. destruct (ts !! y); [|done]. simpl.
    f_equal. f_equal. unfold e, m. rewrite Hr. destruct (li_is_kernel_address_key li); simpl; lia. }
  assert (∀ l', delete l (<[l := left_li]> ls) !! l' = if decide (l' = l) then
      if decide (filter (λ e, e ≠ o) (li_tree li) = []) then None
      else Some (set_waiters (filter (λ e, e ≠ o) (li_tree li)) (Z.of_nat (length (filter (λ e, e ≠ o) (li_tree li)))) li)
    else ls !! l') as Hl.
  { intros l'. rewrite Hf, (decide_True (P := rest = [])) by done. rewrite delete_insert_eq, lookup_delete.
    destruct (decide (l = l')), (decide (l' = l)); by subst. }
  assert (l :: slab = if decide (filter (λ e, e ≠ o) (li_tree li) = []) then l :: slab else slab) as Hs
    by by rewrite Hf, decide_True.
  split.
  - exact (locks_ok_removed pr ts ls slab L o l x to tx li Eo Ewo El Ex Etx ts3 _ _ Ht Hl Hs).
  - intros y. rewrite (removed_waits pr ts ls slab L o l x to tx li Eo Ewo El Ex Etx ts3 _ _ Ht Hl Hs).
    destruct (decide (y = o)); [done|]. rewrite decide_False; [done|]. rewrite Hr. apply not_elem_of_nil.
Qed.

Lemma taken_more to3 : rest ≠ [] → ts3 !! o = Some to3 →
  let ts4 := <[o := set_num_kernel_waiters (m_num_kernel_waiters to3 + m) (set_held (l :: m_held_lock_info_list to3) to3)]> ts3 in
  let ls4 := <[l := set_owner o left_li]> (<[l := left_li]> ls) in
  locks_ok pr ts4 ls4 slab
  ∧ ∀ y, waits_on ts4 ls4 y
         = if decide (y = o) then None else if decide (y ∈ rest) then Some o else waits_on ts ls y.
Proof using All.
  intros Hr Eo3 ts4 ls4. pose proof first_removed as Hf.
  set (ts1 := map_imap (λ y t, Some (relink o None x (m_held_lock_info_list tx) (m_num_kernel_waiters tx - e) y t)) ts).
  assert (∀ y, ts1 !! y = relink o None x (if decide (filter (λ e, e ≠ o) (li_tree li) = []) then
      filter (λ e, e ≠ l) (m_held_lock_info_list tx) else m_held_lock_info_list tx)
    (m_num_kernel_waiters tx - if li_is_kernel_address_key li then 1 else 0) y <$> ts !! y) as Ht.
  { intros y. unfold ts1. rewrite map_lookup_imap, Hf, decide_False by done. by destruct (ts !! y). }
  assert (∀ l', <[l := left_li]> ls !! l' = if decide (l' = l) then
      if decide (filter (λ e, e ≠ o) (li_tree li) = []) then None
      else Some (set_waiters (filter (λ e, e ≠ o) (li_tree li)) (Z.of_nat (length (filter (λ e, e ≠ o) (li_tree li)))) li)
    else ls !! l') as Hl.
  { intros l'. rewrite Hf, (decide_False (P := rest = [])) by done. rewrite lookup_insert.
    destruct (decide (l = l')), (decide (l' = l)); by subst. }
  assert (slab = if decide (filter (λ e, e ≠ o) (li_tree li) = []) then l :: slab else slab) as Hs
    by by rewrite Hf, decide_False.
  pose proof (locks_ok_removed pr ts ls slab L o l x to tx li Eo Ewo El Ex Etx ts1 _ _ Ht Hl Hs) as L1.
  pose proof (removed_waits pr ts ls slab L o l x to tx li Eo Ewo El Ex Etx ts1 _ _ Ht Hl Hs) as W1.
  assert (∀ y, ts4 !! y = receive o l m y ∘ give x l m y <$> ts1 !! y) as Ht4 by by apply handed_threads.
  assert (∀ l', ls4 !! l' = if decide (l' = l) then Some (set_owner o left_li) else <[l := left_li]> ls !! l') as Hl4.
  { intros l'. unfold ls4. rewrite !lookup_insert. destruct (decide (l = l')), (decide (l' = l)); by subst. }
  assert (<[l := left_li]> ls !! l = Some left_li) as El1 by by rewrite lookup_insert_eq.
  assert (is_Some (ts1 !! o)) as Eo1 by (rewrite Ht, Eo; eauto).
  split.
  - exact (locks_ok_handed pr ts1 _ slab L1 l x o left_li El1 Ex Eo1 ts4 ls4 Ht4 Hl4).
  - intros y. rewrite (handed_waits pr ts1 _ slab L1 l x o left_li El1 Ex Eo1 ts4 ls4 Ht4 Hl4). simpl.
    rewrite W1. destruct (decide (y = o)) as [->|]; [|done]. rewrite decide_False; [done|].
    destruct (lk_info _ _ _ _ L l li El) as [Hnd _ _ _]. rewrite Etr in Hnd. by apply NoDup_cons in Hnd as [? _].
Qed.
End taken_over.

(** The new owner gets the lock and its kernel waiters. *)
Lemma receive_lock_ok k l o li to (b : bool) :
  lock_infos k !! l = Some li → threads k !! o = Some to →
  (b = true → 0 < m_num_kernel_waiters to + li_waiter_count li < 2 ^ 31) →
  (k ← AddHeldLock o l k;
   if b then
     o' ← threads k !! o;
     li ← lock_infos k !! l;
     let n := s32 (m_num_kernel_waiters o' + li_waiter_count li) in
     k ← on_thread o (set_num_kernel_waiters n) k;
     check (0 <? n);;
     Some k
   else Some k)
  = Some (with_threads (<[o := set_num_kernel_waiters (m_num_kernel_waiters to + if b then li_waiter_count li else 0)
                                 (set_held (l :: m_held_lock_info_list to) to)]> (threads k))
            (with_locks (<[l := set_owner o li]> (lock_infos k)) (lock_slab k) k)).
Proof.
  intros El Eo Hb. unfold AddHeldLock. rewrite (lock_at_once k l _ li El). cbn [mbind option_bind].
  rewrite (set_at_once _ o _ to) by done. cbn [mbind option_bind]. destruct b.
  - simpl. rewrite lookup_insert_eq. cbn [mbind option_bind]. rewrite lookup_insert_eq. cbn [mbind option_bind].
    specialize (Hb eq_refl). cbn [m_num_kernel_waiters set_held li_waiter_count set_owner]. rewrite swrap_small by lia.
    erewrite set_at_once by (simpl; by rewrite lookup_insert_eq). cbn [mbind option_bind].
    rewrite check_bind_Some by lia. simpl. by rewrite insert_insert_eq.
  - f_equal. unfold with_threads, with_locks. simpl. f_equal. rewrite Z.add_0_r. by destruct to.
Qed.

(** The old owner loses the lock and its kernel waiters, and the lock its first waiter. *)
Definition first_leaves (x o l : Z) (held rest : list Z) (n : Z) (li : LockInfo) k k3 : Prop :=
  threads k3 = map_imap (λ y t, Some (relink o None x held n y t)) (threads k)
  ∧ lock_infos k3 = <[l := set_waiters rest (Z.of_nat (length rest)) li]> (lock_infos k)
  ∧ lock_slab k3 = lock_slab k ∧ outer k3 = outer k.

Lemma give_lock_ok k x l li o rest tx to :
  locks_ok (prio k) (threads k) (lock_infos k) (lock_slab k) → lock_infos k !! l = Some li →
  li_owner li = x → li_tree li = o :: rest → threads k !! x = Some tx → threads k !! o = Some to →
  let held := filter (λ e, e ≠ l) (m_held_lock_info_list tx) in
  let n := m_num_kernel_waiters tx - (if li_is_kernel_address_key li then 1 else 0)
           - (if li_is_kernel_address_key li then Z.of_nat (length rest) else 0) in
  ∃ k2 k3, (k ← erase_held x l k;
            li ← lock_infos k !! l;
            let count := li_waiter_count li in
            k ← (if li_is_kernel_address_key li then
                   t ← threads k !! x;
                   let n := s32 (m_num_kernel_waiters t - count) in
                   k ← on_thread x (set_num_kernel_waiters n) k;
                   check (0 <=? n);;
                   Some (SetSchedulerUpdateNeeded k)
                 else Some k);
            Some (li, k)) = Some (li, k2)
    ∧ GetHighestPriorityWaiter l k2 = Some o
    ∧ lock_RemoveWaiter l o k2 = Some (bool_decide (rest = []), k3) ∧ first_leaves x o l held rest n li k k3.
Proof.
  intros L El Ex Etr Etx Eo held n. destruct (lk_info _ _ _ _ L l li El) as [Hnd _ Hcount _].
  pose proof (tree_bounds _ _ _ _ L El) as Hc. pose proof (lk_small _ _ _ _ L) as Hsmall.
  pose proof (kernel_bounds _ _ _ _ L Etx) as Hn.
  pose proof (first_removed _ _ _ _ L l o li rest El Etr) as Hrest.
  rewrite (erase_held_ok k x l tx Etx) by (apply (lk_held _ _ _ _ L x tx l Etx); by exists li).
  cbn [mbind option_bind]. fold held.
  set (k1 := with_threads _ k). change (lock_infos k1) with (lock_infos k). rewrite El. cbn [mbind option_bind]. cbv zeta.
  destruct (count_part k1 x (set_held held tx) (li_is_kernel_address_key li) (λ n, s32 (n - li_waiter_count li))
    (λ n, 0 <=? s32 (n - li_waiter_count li)) (- li_waiter_count li)) as (k2 & E2 & Ht2 & Hl2 & Hs2 & Ho2).
  { simpl. by rewrite lookup_insert_eq. }
  { intros Hk. pose proof (kernel_tree_bound _ _ _ _ l li tx L El Hk) as Hb. rewrite Ex in Hb. specialize (Hb Etx).
    simpl. rewrite swrap_small by lia. lia. }
  cbv beta in E2. rewrite E2. clear E2. cbn [mbind option_bind].
  change (threads k1) with (<[x := set_held held tx]> (threads k)) in Ht2. simpl in Hl2, Hs2. cbn [m_num_kernel_waiters set_held] in Ht2.
  assert (∀ y, threads k2 !! y = rehold x held n y <$> threads k !! y) as Ht2'.
  { intros y. rewrite Ht2. replace (m_num_kernel_waiters tx + _) with n
      by (unfold n; rewrite Hcount, Etr; destruct (li_is_kernel_address_key li); simpl length; lia).
    rewrite lookup_insert. unfold recount, rehold. destruct (decide (x = y)) as [<-|].
    - rewrite Etx. simpl. by destruct (decide (x = x)).
    - destruct (threads k !! y); [|done]. simpl. by rewrite !decide_False. }
  assert (is_Some (threads k2 !! o)) as [to2 Eo2] by (rewrite Ht2', Eo; eauto).
  exists k2. unfold GetHighestPriorityWaiter. rewrite Hl2, El. cbn [mbind option_bind].
  rewrite (lock_RemoveWaiter_ok k2 l o li to2); [|by rewrite Hl2|rewrite Etr; set_solver|done|done|done|lia].
  rewrite Hrest, Etr. eexists. split; [done|]. split; [done|]. split; [done|]. split_and!; simpl; [|by rewrite Hl2|done|done].
  apply map_eq. intros y. rewrite (rehold_relink _ _ _ _ None _ _ _ Ht2' Eo2), map_lookup_imap.
  by destruct (threads k !! y).
Qed.

Lemma hand_over_ok k x l li o rest tx :
  locks_ok (prio k) (threads k) (lock_infos k) (lock_slab k) → lock_infos k !! l = Some li →
  li_owner li = x → li_tree li = o :: rest → threads k !! x = Some tx →
  ∃ k', hand_over x l k = Some (o, bool_decide (rest = []), k')
    ∧ moved k k' (λ y, if decide (y = o) then None else if decide (y ∈ rest) then Some o else waits k y).
Proof.
  intros L El Ex Etr Etx. pose proof (tree_bounds _ _ _ _ L El) as Hc.
  assert (o ∈ li_tree li) as (to & Eo & Ewo)%(lk_tree _ _ _ _ L l li o El) by (rewrite Etr; set_solver).
  destruct (give_lock_ok k x l li o rest tx to L El Ex Etr Etx Eo) as (k2 & k3 & E2 & Eh & Er & Ht3 & Hl3 & Hs3 & Ho3).
  apply bind_Some in E2 as (k1 & E1 & (li1 & El1 & (k2' & E2 & [= -> ->])%bind_Some)%bind_Some). cbv zeta in E2.
  unfold hand_over. rewrite E1. cbn [mbind option_bind]. rewrite El1. cbn [mbind option_bind]. cbv zeta. rewrite E2.
  cbn [mbind option_bind]. rewrite check_bind_Some by lia. rewrite Eh. cbn [mbind option_bind]. rewrite Er. cbn [mbind option_bind].
  assert (same_core (threads k) (threads k3)) as Hcore.
  { eapply relinked_core. intros y. rewrite Ht3, map_lookup_imap. by destruct (threads k !! y). }
  destruct (decide (rest = [])) as [Hr|Hr].
  - rewrite bool_decide_eq_true_2 by done. cbn [mbind option_bind]. eexists. split; [done|].
    destruct (taken_last _ _ _ _ L l x o tx to li rest Eo Ewo El Ex Etx Etr Hr) as [L4 W4].
    rewrite <-Ht3, <-Hl3, <-Hs3 in L4. split; [exact L4|exact Hcore| |exact Ho3]. intros y. rewrite <-W4.
    unfold waits. simpl. by rewrite Ht3, Hl3.
  - rewrite bool_decide_eq_false_2 by done.
    assert (∃ to3, threads k3 !! o = Some to3) as [to3 Eo3] by (rewrite Ht3, map_lookup_imap, Eo; eauto).
    destruct (taken_more _ _ _ _ L l x o tx to li rest Eo Ewo El Ex Etx Etr to3 Hr) as [L4 W4]; [by rewrite <-Ht3|].
    rewrite <-Ht3, <-Hl3, <-Hs3 in L4. rewrite <-Ht3, <-Hl3 in W4.
    set (li3 := set_waiters rest (Z.of_nat (length rest)) li) in *.
    rewrite (receive_lock_ok k3 l o li3 to3).
    + cbn [mbind option_bind]. eexists. split; [done|]. split; [exact L4| |exact W4|exact Ho3].
      etransitivity; [exact Hcore|]. intros y. simpl. rewrite lookup_insert.
      destruct (decide (o = y)) as [<-|]; [by rewrite Eo3|done].
    + by rewrite Hl3, lookup_insert_eq.
    + done.
    + intros Hk. rewrite Hk in L4. set (n := m_num_kernel_waiters to3 + Z.of_nat (length rest)) in *.
      set (ts4 := <[o := set_num_kernel_waiters n (set_held (l :: m_held_lock_info_list to3) to3)]> (threads k3)) in *.
      pose proof (kernel_bounds (prio k) (with_locks (<[l := set_owner o li3]> (lock_infos k3)) (lock_slab k3)
        (with_threads ts4 k3)) o (set_num_kernel_waiters n (set_held (l :: m_held_lock_info_list to3) to3)) L4
        ltac:(simpl; unfold ts4; by rewrite lookup_insert_eq)) as Hb. simpl in Hb.
      pose proof (kernel_tree_bound _ _ _ _ l (set_owner o li3) _ L4 ltac:(by rewrite lookup_insert_eq) Hk
        ltac:(simpl; unfold ts4; by rewrite lookup_insert_eq)) as Hb'. simpl in Hb'.
      pose proof (lk_small _ _ _ _ L4) as Hsm. assert (0 < length rest)%nat by (destruct rest; simpl; [done|lia]).
      fold n. simpl. lia.
Qed.
