(* ===== verification/ThreadState.v ===== *)
(** Changes of one thread that leave the locks as they are: its state and suspension, its wait
    queue and result, its base priority and the tree it waits in. *)
From stdpp Require Import sorting.
From S2P Require Import Prelude Common Results PriorityQueue PriorityQueueLinks PriorityQueueSpec Thread ThreadLocks ThreadWaiters ThreadInherit ThreadHandover.

Implicit Types k : Kernel.

(** The invariant between operations. *)
Record sane k : Prop := {
  sn_ok : kernel_ok k;
  sn_inherits : ∀ x, is_Some (threads k !! x) → inherits k x;
}.

(** * The locks and trees after a change of one thread *)
Definition linkage (t : KThread) :=
  (m_held_lock_info_list t, m_waiting_lock_info t, m_num_kernel_waiters t, m_address_key t, m_is_kernel_address_key t).

Section one_thread.
Context (ts : gmap Z KThread) (x : Z) (t t' : KThread).
Context (Et : ts !! x = Some t) (El : linkage t' = linkage t).

Lemma set_lookup y ty' : <[x := t']> ts !! y = Some ty' → ∃ ty, ts !! y = Some ty ∧ linkage ty' = linkage ty
  ∧ (y = x ∧ ty = t ∧ ty' = t' ∨ y ≠ x ∧ ty' = ty).
Proof using Et El.
  intros [[<- <-]|[Hne E]]%lookup_insert_Some; [exists t|exists ty']; split_and!; try done; [by left|right].
  by split.
Qed.

Lemma set_linkage y : linkage <$> <[x := t']> ts !! y = linkage <$> ts !! y.
Proof using Et El. rewrite lookup_insert. destruct (decide (x = y)) as [<-|]; [|done]. rewrite Et. simpl. by rewrite El. Qed.

Lemma set_waits ls y : waits_on (<[x := t']> ts) ls y = waits_on ts ls y.
Proof using Et El.
  unfold waits_on. rewrite lookup_insert. destruct (decide (x = y)) as [<-|]; [|done]. rewrite Et. simpl.
  by injection El as _ -> _ _ _.
Qed.

Lemma set_size : size (<[x := t']> ts) = size ts.
Proof using Et. clear -Et. by rewrite map_size_insert, Et. Qed.

Lemma set_kernel_waiter ls y w : kernel_waiter (<[x := t']> ts) ls y w ↔ kernel_waiter ts ls y w.
Proof using Et El.
  unfold kernel_waiter. rewrite set_waits. pose proof (set_linkage w) as Hw.
  destruct (<[x := t']> ts !! w) as [a|], (ts !! w) as [b|]; try done.
  injection Hw as _ _ _ _ Hk. split; intros [? (? & [= <-] & ?)]; (split; [done|]); eexists; (split; [done|]); congruence.
Qed.

Lemma locks_ok_set pr ls slab :
  (m_condvar_tree t = None → m_condvar_tree t' = None) → locks_ok pr ts ls slab → locks_ok pr (<[x := t']> ts) ls slab.
Proof using Et El.
  intros Hcv [H1 H2 H3 H4 H5 H6 H7 H8 H9 H10]. split; try done.
  - intros y ty' l (ty & E & Eq & _)%set_lookup. injection Eq as -> _ _ _ _. by apply H1.
  - intros y ty' (ty & E & Eq & _)%set_lookup. injection Eq as -> _ _ _ _. by eapply H2.
  - intros l li w E. rewrite (H3 l li w E). pose proof (set_linkage w) as Hw.
    destruct (<[x := t']> ts !! w) as [a|], (ts !! w) as [b|]; try done.
    injection Hw as _ Hl _ _ _. split; intros (? & [= <-] & ?); eexists; (split; [done|]); congruence.
  - intros w tw' l (tw & E & Eq & Hx)%set_lookup. injection Eq as _ -> _ -> ->. intros Hl.
    destruct (H4 w tw l E Hl) as (li & El' & ? & ? & Htree). exists li. split_and!; try done.
    destruct Hx as [(_ & -> & ->)|[_ ->]]; auto.
  - intros l li E. rewrite lookup_insert. destruct (decide _); [by eexists|by eapply H5].
  - intros y ty' (ty & E & Eq & _)%set_lookup. injection Eq as _ _ -> _ _. destruct (H7 y ty E) as (S & HS & ->).
    exists S. split; [|done]. intros w. by rewrite set_kernel_waiter.
  - by rewrite set_size.
  - by rewrite set_size.
Qed.

Lemma cvs_ok_set pr trees :
  m_condvar_tree t' = m_condvar_tree t → m_condvar_key t' = m_condvar_key t →
  cvs_ok pr ts trees → cvs_ok pr (<[x := t']> ts) trees.
Proof using Et.
  clear El.
  intros Hc Hk [H1 H2 H3 H4].
  assert (∀ y, m_condvar_tree <$> <[x := t']> ts !! y = m_condvar_tree <$> ts !! y) as Hy.
  { intros y. rewrite lookup_insert. destruct (decide (x = y)) as [<-|]; [|done]. rewrite Et. simpl. by rewrite Hc. }
  assert (∀ y, cv_key (<[x := t']> ts) y = cv_key ts y) as Hky.
  { intros y. unfold cv_key. rewrite lookup_insert. destruct (decide (x = y)) as [<-|]; [|done]. by rewrite Et. }
  split; try done.
  - intros c tree y E. rewrite (H1 c tree y E). specialize (Hy y).
    destruct (<[x := t']> ts !! y) as [a|], (ts !! y) as [b|]; try done.
    injection Hy as Hy. split; intros (? & [= <-] & ?); eexists; (split; [done|]); congruence.
  - intros y ty' c E Ec. specialize (Hy y). rewrite E in Hy. symmetry in Hy. apply fmap_Some in Hy as (ty & Ety & Eq).
    eapply H2; [done|congruence].
  - intros c tree E. eapply StronglySorted_ext; [|by eapply H4]. intros a b _ _. unfold cv_le. by rewrite !Hky.
Qed.
End one_thread.

Lemma due_ext k k' x p :
  (∀ y, waits k' y = waits k y) → (∀ y, prio k' y = prio k y) →
  m_base_priority <$> threads k' !! x = m_base_priority <$> threads k !! x → due k x p → due k' x p.
Proof.
  intros Hw Hp Hb (t & Et & H1 & H2 & H3). rewrite Et in Hb. apply fmap_Some in Hb as (t' & Et' & Eq).
  exists t'. rewrite <-Eq. split; [done|]. split; [done|]. split.
  - intros w Ew. rewrite Hp. apply H2. by rewrite <-Hw.
  - destruct H3 as [->|(w & Ew & <-)]; [by left|right]. exists w. by rewrite Hw, Hp.
Qed.

(** * What the scheduler does not hear of *)
Definition quiet (t t' : KThread) : Prop :=
  m_thread_state t' = m_thread_state t ∧ m_parent t' = m_parent t ∧ m_base_priority t' ≤ Z.max 64 (m_base_priority t).

Lemma sched_ok_quiet k x t t' :
  sched_ok k → threads k !! x = Some t → quiet t t' → sched_ok (with_threads (<[x := t']> (threads k)) k).
Proof.
  intros [H1 (tb & M & Hr & Hpl & HM) H3] Et (Hs & Hp & Hb).
  assert (∀ y ty', <[x := t']> (threads k) !! y = Some ty' → ∃ ty, threads k !! y = Some ty
    ∧ m_thread_state ty' = m_thread_state ty ∧ m_parent ty' = m_parent ty
    ∧ m_base_priority ty' ≤ Z.max 64 (m_base_priority ty)) as Hy.
  { intros y ty' [[<- <-]|[Hne E]]%lookup_insert_Some; [by exists t|]. exists ty'. split_and!; try done. lia. }
  split; simpl.
  - intros y ty' (ty & E & _ & _ & Hby)%Hy. destruct (H1 y ty E) as (m & Em & Hy0 & Hi). exists m.
    split_and!; try done. intros Hd. destruct (Hi Hd). split; [done|lia].
  - exists tb, M. split_and!; try done. intros y i. rewrite (HM y i). unfold queued. simpl.
    rewrite lookup_insert. destruct (decide (x = y)) as [<-|]; [|done]. rewrite Et.
    split; intros (? & m & [= <-] & Hq); eexists _, m; (split; [done|]); [by rewrite Hs|by rewrite Hs in Hq].
  - intros y ty' (ty & E & _ & Hpy & _)%Hy. rewrite Hpy. by apply (H3 y ty).
Qed.

(** The part of the state the invariant speaks of. *)
Definition relevant k := (priority_queue k, threads k, lock_infos k, lock_slab k, thread_trees k, schedule_counts k).

Lemma sane_ext k k' : relevant k' = relevant k → sane k → sane k'.
Proof.
  destruct k, k'. intros [= -> -> -> -> -> ->] [[L C [S1 S2 S3] P] I].
  split; [split; [exact L|exact C|by split|exact P]|exact I].
Qed.

Lemma sane_quiet k x t t' :
  sane k → threads k !! x = Some t → linkage t' = linkage t → m_condvar_tree t' = m_condvar_tree t →
  m_condvar_key t' = m_condvar_key t → m_thread_state t' = m_thread_state t → m_parent t' = m_parent t →
  m_base_priority t' = m_base_priority t → sane (with_threads (<[x := t']> (threads k)) k).
Proof.
  intros [[L C S P] I] Et El Hc Hk Hs Hp Hb. split; [split|].
  - simpl. eapply locks_ok_set; try done. by rewrite Hc.
  - by eapply cvs_ok_set.
  - eapply sched_ok_quiet; [done..|]. split_and!; try done. lia.
  - intros y ty. cbn [threads with_threads]. intros [[<- <-]|[Hne E]]%lookup_insert_Some; [rewrite Hb; by apply (P x)|by apply (P y)].
  - intros y Hy. apply (due_ext k); try done.
    + intros z. by eapply set_waits.
    + simpl. rewrite lookup_insert. destruct (decide (x = y)) as [<-|]; [|done]. rewrite Et. simpl. by rewrite Hb.
    + apply I. simpl in Hy. rewrite lookup_insert in Hy. destruct (decide (x = y)) as [<-|]; [by exists t|done].
Qed.

(** * What the scheduler hears of: a new state *)
Section state_changed.
Context (k0 : Kernel) (x : Z) (t t' : KThread) (m : Member).
Context (S0 : sched_ok k0) (Et : threads k0 !! x = Some t) (Em : members (priority_queue k0) !! x = Some m).
Context (Hp : m_parent t' = m_parent t) (Hb : m_base_priority t' = m_base_priority t).

(** The threads that are queued once the new state is stored. *)
Definition requeued (M : gmap Z Info) : gmap Z Info :=
  if (m_thread_state t' =? ThreadState.Runnable) && negb (IsDummyThread m)
  then <[x := info_of m]> M else delete x M.

Lemma requeued_ok M k' :
  (∀ y i, M !! y = Some i ↔ queued k0 y i) → threads k' = <[x := t']> (threads k0) →
  same_members (priority_queue k0) (priority_queue k') → ∀ y i, requeued M !! y = Some i ↔ queued k' y i.
Proof using Et Em.
  clear -Et Em. intros HM Ht Hm y i.
  assert (∀ a b : Member, static a = static b → info_of a = info_of b ∧ IsDummyThread a = IsDummyThread b) as Hst.
  { intros a b Es. injection Es as Ea Ec Ep Ed. unfold info_of. by rewrite Ea, Ec, Ep, Ed. }
  destruct (decide (x = y)) as [<-|Hne].
  - destruct (same_members_lookup _ _ x m Hm Em) as (m' & Em' & [Hi Hd]%Hst). unfold queued. rewrite Ht, lookup_insert_eq.
    unfold requeued. destruct (Z.eqb_spec (m_thread_state t') ThreadState.Runnable) as [Hr|Hr], (IsDummyThread m) eqn:Ed;
      cbn [andb negb]; rewrite ?lookup_insert_eq, ?lookup_delete_eq.
    2: { split.
         - intros [= <-]. exists t', m'. split_and!; try done.
         - intros (? & ? & _ & E & _ & _ & ->). rewrite Em' in E. injection E as <-. by rewrite Hi. }
    all: split; [done|]; intros (? & ? & [= <-] & E & Hr' & Hd' & _); rewrite Em' in E; injection E as <-; congruence.
  - assert (requeued M !! y = M !! y) as ->.
    { unfold requeued. destruct (_ && _); [by rewrite lookup_insert_ne|by rewrite lookup_delete_ne]. }
    rewrite HM. unfold queued. rewrite Ht, lookup_insert_ne by done. specialize (Hm y). split.
    + intros (ty & my & E & E0 & Hs & Hd & ->). rewrite E0 in Hm. apply fmap_Some in Hm as (m' & Em' & [Hi Hd']%Hst).
      exists ty, m'. split_and!; try done. congruence.
    + intros (ty & m' & E & E0 & Hs & Hd & ->). rewrite E0 in Hm. symmetry in Hm.
      apply fmap_Some in Hm as (my & Emy & [Hi Hd']%Hst). exists ty, my. split_and!; try done. congruence.
Qed.

Lemma sched_ok_stored k' tb M' :
  threads k' = <[x := t']> (threads k0) → same_members (priority_queue k0) (priority_queue k') →
  (∀ c, is_Some (schedule_counts k0 !! c) → is_Some (schedule_counts k' !! c)) →
  rep (priority_queue k') tb → placed tb M' → (∀ y i, M' !! y = Some i ↔ queued k' y i) → sched_ok k'.
Proof using S0 Et Hp Hb.
  clear -S0 Et Hp Hb. intros Ht Hm Hcnt Hrep Hpl HM'.
  assert (∀ y ty', threads k' !! y = Some ty' → ∃ ty, threads k0 !! y = Some ty
    ∧ m_parent ty' = m_parent ty ∧ m_base_priority ty' = m_base_priority ty) as Hy.
  { intros y ty'. rewrite Ht. intros [[<- <-]|[Hne E]]%lookup_insert_Some; [by exists t|by exists ty']. }
  split; [|by exists tb, M'|].
  - intros y ty' (ty & E & _ & Hby)%Hy. destruct (sc_member k0 S0 y ty E) as (my & Emy & Hy0 & Hinfo).
    destruct (same_members_lookup _ _ y my Hm Emy) as (m' & Em' & Es). injection Es as Ea Ec Ep Ed.
    exists m'. split; [done|]. split; [done|]. intros Hd. rewrite Hby.
    replace (info_of m') with (info_of my) by (unfold info_of; congruence). apply Hinfo. congruence.
  - intros y ty' (ty & E & Hpy & _)%Hy. rewrite Hpy. intros Hne. by eapply Hcnt, sc_parent.
Qed.

(** What is queued before says whether the old state was runnable. *)
Lemma was_queued (M : gmap Z Info) :
  (∀ y i, M !! y = Some i ↔ queued k0 y i) →
  (m_thread_state t = ThreadState.Runnable → IsDummyThread m = false → M !! x = Some (info_of m))
  ∧ (m_thread_state t ≠ ThreadState.Runnable ∨ IsDummyThread m = true → M !! x = None).
Proof using Et Em.
  clear -Et Em. intros HM. split; [intros Hr Hd; apply HM; by exists t, m|]. intros Ho.
  destruct (M !! x) as [i|] eqn:E; [|done]. apply HM in E as (? & ? & E1 & E2 & ? & ? & _).
  rewrite Et in E1. injection E1 as <-. rewrite Em in E2. injection E2 as <-. destruct Ho; congruence.
Qed.

(** Nothing has to be done when the thread is as runnable as it was. *)
Lemma requeued_same (M : gmap Z Info) :
  (∀ y i, M !! y = Some i ↔ queued k0 y i) →
  (m_thread_state t' = ThreadState.Runnable ↔ m_thread_state t = ThreadState.Runnable) → requeued M = M.
Proof using Et Em.
  intros HM Heq. destruct (was_queued M HM) as [Hin Hout]. clear -Heq Hin Hout. unfold requeued.
  destruct (Z.eqb_spec (m_thread_state t') ThreadState.Runnable) as [Hr|Hr], (IsDummyThread m) eqn:Hd; cbn [andb negb].
  1, 3, 4: apply delete_id, Hout; rewrite <-?Heq; tauto.
  apply insert_id, Hin; tauto.
Qed.

(** The removal from the queue and the push. *)
Lemma requeue_run op tb (M : gmap Z Info) :
  rep (priority_queue k0) tb → placed tb M → (∀ y i, M !! y = Some i ↔ queued k0 y i) →
  op = OpRemove ∧ m_thread_state t = ThreadState.Runnable ∧ m_thread_state t' ≠ ThreadState.Runnable
    ∨ op = OpPushBack ∧ m_thread_state t ≠ ThreadState.Runnable ∧ m_thread_state t' = ThreadState.Runnable →
  ∃ q tb', run op x (priority_queue k0) = Some q ∧ same_members (priority_queue k0) q ∧ rep q tb'
    ∧ placed tb' (requeued M).
Proof using S0 Et Em.
  intros Hrep Hpl HM Hop. destruct (was_queued M HM) as [Hin Hout].
  destruct (sc_member k0 S0 x t Et) as (m0 & E0 & Hx0 & Hinfo). rewrite Em in E0. injection E0 as <-.
  clear S0. destruct (IsDummyThread m) eqn:Hd.
  - exists (priority_queue k0), tb. split_and!; [|by intros y|done|].
    + destruct Hop as [[-> _]|[-> _]]; simpl; [unfold Remove|unfold PushBack]; rewrite Em; simpl; by rewrite Hd.
    + unfold requeued. rewrite Hd, andb_false_r, delete_id by auto. done.
  - destruct (Hinfo eq_refl) as [Hi _].
    assert (called_with op (info_of m) (M !! x)) as Hcall.
    { destruct Hop as [(-> & Hr & _)|(-> & Hr & _)]; simpl; [by apply Hin|by apply Hout; left]. }
    assert (∀ i, M !! x = Some i → info_ok i) as HiM.
    { intros i (? & ? & _ & E2 & _ & _ & ->)%HM. rewrite Em in E2. by injection E2 as <-. }
    destruct (run_ok (priority_queue k0) tb M x m Hrep Hpl Em Hx0 Hi op HiM Hd Hcall) as (q & E & Hrep' & Hm').
    exists q. eexists. split_and!; [done|done|done|].
    replace (requeued M) with (queued_after op (info_of m) x M); [by apply effect_placed|].
    unfold requeued. rewrite Hd. destruct Hop as [(-> & _ & Hr)|(-> & _ & ->)]; simpl; [|done].
    by rewrite (proj2 (Z.eqb_neq _ _) Hr).
Qed.

(** The scheduler's data after the queue has changed. *)
Lemma requeue_finish k (M : gmap Z Info) q tb' (f : Kernel → Kernel) :
  threads k = <[x := t']> (threads k0) → schedule_counts k = schedule_counts k0 →
  (∀ y i, M !! y = Some i ↔ queued k0 y i) → same_members (priority_queue k0) q → rep q tb' →
  placed tb' (requeued M) → (∀ k, relevant (f k) = relevant k) → (∀ k, inner (f k) = inner k) →
  ∃ k', (k ← IncrementScheduledCount x (with_queue q k); Some (f k)) = Some k' ∧ sched_ok k'
    ∧ same_members (priority_queue k0) (priority_queue k') ∧ inner k' = inner k.
Proof using S0 Et Em Hp Hb.
  intros Ht Hn HM Hm' Hrep' Hpl' Hf Hf'.
  destruct (IncrementScheduledCount_ok (with_queue q k) x t') as (counts & -> & Hcnt).
  { simpl. by rewrite Ht, lookup_insert_eq. }
  { intros Hne. cbn [schedule_counts with_queue]. rewrite Hp in *. rewrite Hn. by apply (sc_parent k0 S0 x t). }
  cbn [mbind option_bind]. set (k1 := with_scheduler _ _ counts _). exists (f k1). split; [done|].
  assert (priority_queue (f k1) = priority_queue k1 ∧ threads (f k1) = threads k1
    ∧ schedule_counts (f k1) = schedule_counts k1) as (Hf1 & Hf2 & Hf3).
  { specialize (Hf k1). unfold relevant in Hf. split_and!; congruence. }
  rewrite Hf', Hf1. split; [|by split]. eapply (sched_ok_stored _ tb' (requeued M)).
  - by rewrite Hf2.
  - by rewrite Hf1.
  - intros c Hc. rewrite Hf3. apply Hcnt. simpl. by rewrite Hn.
  - by rewrite Hf1.
  - done.
  - apply requeued_ok; [done|by rewrite Hf2|by rewrite Hf1].
Qed.

Lemma OnThreadStateChanged_ok k :
  threads k = <[x := t']> (threads k0) → priority_queue k = priority_queue k0 →
  schedule_counts k = schedule_counts k0 →
  ∃ k', OnThreadStateChanged x (m_thread_state t) k = Some k' ∧ sched_ok k'
    ∧ same_members (priority_queue k0) (priority_queue k') ∧ inner k' = inner k.
Proof using All.
  intros Ht Hq Hn. destruct (sc_queue k0 S0) as (tb & M & Hrep & Hpl & HM).
  assert ((m_thread_state t' = ThreadState.Runnable ↔ m_thread_state t = ThreadState.Runnable) →
    ∃ k', Some k = Some k' ∧ sched_ok k' ∧ same_members (priority_queue k0) (priority_queue k') ∧ inner k' = inner k) as Hsame.
  { intros Heq. exists k. split; [done|]. split; [|by split; [rewrite Hq|]].
    eapply (sched_ok_stored k tb (requeued M)); [done|by rewrite Hq|by rewrite Hn|by rewrite Hq| |].
    - by rewrite requeued_same.
    - apply requeued_ok; [done|done|by rewrite Hq]. }
  unfold OnThreadStateChanged. rewrite Ht, lookup_insert_eq, Hq, Em. cbn [mbind option_bind].
  destruct (Z.eqb_spec (m_thread_state t') (m_thread_state t)) as [Heq|Hne]; [apply Hsame; by rewrite Heq|].
  destruct (Z.eqb_spec (m_thread_state t) ThreadState.Runnable) as [Hr|Hr].
  - destruct (requeue_run OpRemove tb M) as (q & tb' & E & Hm' & Hrep' & Hpl'); [done..|left; split_and!; congruence|].
    cbn [run] in E. rewrite E. cbn [mbind option_bind].
    eapply requeue_finish; try done; intros; destruct (IsDummyThread m); done.
  - destruct (Z.eqb_spec (m_thread_state t') ThreadState.Runnable) as [Hr'|Hr']; [|by apply Hsame].
    destruct (requeue_run OpPushBack tb M) as (q & tb' & E & Hm' & Hrep' & Hpl'); [done..|right; split_and!; congruence|].
    cbn [run] in E. rewrite E. cbn [mbind option_bind].
    eapply requeue_finish; try done; intros; destruct (IsDummyThread m); done.
Qed.
End state_changed.

(** * Operations on one thread *)

(** Only the record of [x] has changed, and [k'] is in order. *)
Record only k k' (x : Z) (t' : KThread) : Prop := {
  on_sane : sane k';
  on_threads : threads k' = <[x := t']> (threads k);
  on_locks : lock_infos k' = lock_infos k ∧ lock_slab k' = lock_slab k ∧ thread_trees k' = thread_trees k;
  on_waits : ∀ y, waits k' y = waits k y;
  on_prio : ∀ y, prio k' y = prio k y;
}.

Lemma only_trans k1 k2 k3 x t t' : only k1 k2 x t → only k2 k3 x t' → only k1 k3 x t'.
Proof.
  intros [_ Ht (Ha & Hb & Hc) Hw Hp] [Hs Ht' (Ha' & Hb' & Hc') Hw' Hp']. split; [done|..].
  - by rewrite Ht', Ht, insert_insert_eq.
  - by rewrite Ha', Hb', Hc'.
  - intros y. by rewrite Hw'.
  - intros y. by rewrite Hp'.
Qed.

Lemma only_ext k k1 k2 x t : only k k1 x t → relevant k2 = relevant k1 → only k k2 x t.
Proof.
  intros [Hs Ht (Ha & Hb & Hc) Hw Hp] He. pose proof (sane_ext k1 k2 He Hs) as Hs2. unfold relevant in He.
  assert (priority_queue k2 = priority_queue k1 ∧ threads k2 = threads k1 ∧ lock_infos k2 = lock_infos k1
    ∧ lock_slab k2 = lock_slab k1 ∧ thread_trees k2 = thread_trees k1) as (Eq & Et & El & Es & Ec)
    by (split_and!; congruence).
  split; [done|by rewrite Et|by rewrite El, Es, Ec| |].
  - intros y. unfold waits. rewrite Et, El. apply Hw.
  - intros y. unfold prio. rewrite Eq. apply Hp.
Qed.

Lemma only_lookup k k' x t y :
  only k k' x t → threads k' !! y = if decide (y = x) then Some t else threads k !! y.
Proof.
  intros [_ Ht _ _ _]. rewrite Ht, lookup_insert. by destruct (decide (x = y)), (decide (y = x)); subst.
Qed.

(** Neither the locks and trees nor the scheduler care for the change. *)
Lemma on_thread_only k x t f :
  sane k → threads k !! x = Some t → linkage (f t) = linkage t → m_condvar_tree (f t) = m_condvar_tree t →
  m_condvar_key (f t) = m_condvar_key t → m_thread_state (f t) = m_thread_state t →
  m_parent (f t) = m_parent t → m_base_priority (f t) = m_base_priority t →
  ∃ k', on_thread x f k = Some k' ∧ only k k' x (f t).
Proof.
  intros Hk Et El Hc Hck Hs Hp Hb. rewrite (set_at_once k x f t Et). eexists. split; [done|]. split; try done.
  - by apply sane_quiet with t.
  - intros y. by eapply set_waits.
Qed.

(** A new state and suspend flags, of which the scheduler is told. *)
Lemma notified_only k x t s rq al :
  sane k → threads k !! x = Some t →
  ∃ k', OnThreadStateChanged x (m_thread_state t) (with_threads (<[x := set_state s rq al t]> (threads k)) k) = Some k'
    ∧ only k k' x (set_state s rq al t).
Proof.
  intros [[L C S P] I] Et. destruct (sc_member k S x t Et) as (m & Em & _).
  destruct (OnThreadStateChanged_ok k x t (set_state s rq al t) m S Et Em eq_refl eq_refl
    (with_threads (<[x := set_state s rq al t]> (threads k)) k) eq_refl eq_refl eq_refl)
    as (k' & -> & S' & Hm & Hi). exists k'. split; [done|].
  assert (threads k' = <[x := set_state s rq al t]> (threads k) ∧ lock_infos k' = lock_infos k
    ∧ lock_slab k' = lock_slab k ∧ thread_trees k' = thread_trees k) as (Ht & Hl & Hsl & Htr).
  { unfold inner in Hi. simpl in Hi. split_and!; congruence. }
  pose proof (prio_same k k' Hm) as Hp.
  assert (∀ y, waits k' y = waits k y) as Hw.
  { intros y. unfold waits. rewrite Ht, Hl. by apply set_waits with t. }
  split; [split; [split|]|done|done|done|done].
  - rewrite Ht, Hl, Hsl. apply (locks_ok_prio (prio k)); [done|]. by apply locks_ok_set with t.
  - rewrite Ht, Htr. apply (cvs_ok_prio (prio k)); [done|]. by apply cvs_ok_set with t.
  - done.
  - intros y ty. rewrite Ht, Hp. intros [[<- <-]|[Hne E]]%lookup_insert_Some; [exact (P x t Et)|by apply (P y)].
  - intros y Hy. unfold inherits. rewrite Hp. apply (due_ext k); try done.
    + rewrite Ht, lookup_insert. destruct (decide (x = y)) as [<-|]; [|done]. by rewrite Et.
    + apply I. rewrite Ht, lookup_insert in Hy. destruct (decide (x = y)) as [<-|]; [by exists t|done].
Qed.

Lemma store_only k x t s :
  sane k → threads k !! x = Some t →
  ∃ k', (k ← store_state x s k; if negb (s =? m_thread_state t) then OnThreadStateChanged x (m_thread_state t) k else Some k)
        = Some k'
    ∧ only k k' x (set_state s (m_suspend_request_flags t) (m_suspend_allowed_flags t) t).
Proof.
  intros Hk Et. unfold store_state. rewrite (set_at_once k x _ t Et). cbn [mbind option_bind].
  destruct (Z.eqb_spec s (m_thread_state t)) as [->|Hne]; [|by apply notified_only].
  destruct (on_thread_only k x t (λ t, set_state (m_thread_state t) (m_suspend_request_flags t) (m_suspend_allowed_flags t) t))
    as (k' & E & Ho); try done. rewrite (set_at_once k x _ t Et) in E. by exists k'.
Qed.

(** The state that [SetState] stores. *)
Definition next_state (t : KThread) (s : Z) : Z :=
  Z.lor (Z.land (m_thread_state t) (lnotw 16 ThreadState.Mask)) (Z.land s ThreadState.Mask).
Definition suspended_state (t : KThread) : Z :=
  Z.lor (u16 (GetSuspendFlags t)) (Z.land (m_thread_state t) ThreadState.Mask).
Definition in_state (s : Z) (t : KThread) : KThread :=
  set_state s (m_suspend_request_flags t) (m_suspend_allowed_flags t) t.

Lemma SetState_only k x t s :
  sane k → threads k !! x = Some t → ∃ k', SetState x s k = Some k' ∧ only k k' x (in_state (next_state t s) t).
Proof. intros Hk Et. unfold SetState. rewrite Et. cbn [mbind option_bind]. by apply store_only. Qed.

Lemma UpdateState_only k x t :
  sane k → threads k !! x = Some t → ∃ k', UpdateState x k = Some k' ∧ only k k' x (in_state (suspended_state t) t).
Proof. intros Hk Et. unfold UpdateState. rewrite Et. cbn [mbind option_bind]. by apply store_only. Qed.

Lemma Continue_only k x t :
  sane k → threads k !! x = Some t →
  ∃ k', Continue x k = Some k' ∧ only k k' x (in_state (Z.land (m_thread_state t) ThreadState.Mask) t).
Proof.
  intros Hk Et. unfold Continue, store_state. rewrite Et. cbn [mbind option_bind].
  rewrite (set_at_once k x _ t Et). cbn [mbind option_bind]. by apply notified_only.
Qed.

(** A thread that kernel waiters wait for is not suspended. *)
Lemma TrySuspend_only k x t :
  sane k → threads k !! x = Some t → IsSuspendRequested t = true →
  ∃ k', TrySuspend x k = Some k'
    ∧ only k k' x (if 0 <? m_num_kernel_waiters t then t else in_state (suspended_state t) t).
Proof.
  intros Hk Et Hreq. unfold TrySuspend. rewrite Et. cbn [mbind option_bind]. rewrite Hreq. cbn [check mbind option_bind].
  pose proof (kernel_bounds _ _ _ _ (ko_locks k (sn_ok k Hk)) Et) as Hn.
  destruct (Z.ltb_spec 0 (m_num_kernel_waiters t)).
  - exists k. split; [done|]. split; try done. by rewrite insert_id.
  - rewrite check_bind_Some by lia. by apply UpdateState_only.
Qed.

Definition request (flags : Z) (t : KThread) : KThread := set_state (m_thread_state t) flags (m_suspend_allowed_flags t) t.

Lemma RequestSuspend_only k x t type :
  sane k → threads k !! x = Some t → 0 ≤ type →
  let t1 := request (Z.lor (m_suspend_request_flags t) (Z.shiftl 1 (ThreadState.SuspendShift + type))) t in
  ∃ k', RequestSuspend x type k = Some k'
    ∧ only k k' x (if 0 <? m_num_kernel_waiters t then t1 else in_state (suspended_state t1) t1).
Proof.
  intros Hk Et Hty t1. unfold RequestSuspend.
  destruct (on_thread_only k x t (λ t, set_state (m_thread_state t)
        (Z.lor (m_suspend_request_flags t) (Z.shiftl 1 (ThreadState.SuspendShift + type)))
        (m_suspend_allowed_flags t) t)) as (k1 & -> & H1); try done. cbn [mbind option_bind]. fold (request (m_suspend_request_flags t) t).
  destruct (TrySuspend_only k1 x t1) as (k2 & -> & H2); [apply H1|by rewrite (only_lookup _ _ _ _ x H1), decide_True| |].
  - unfold IsSuspendRequested. apply negb_true_iff, Z.eqb_neq. simpl. intros H0%(f_equal (λ z, Z.testbit z (ThreadState.SuspendShift + type))).
    unfold ThreadState.SuspendShift in *. rewrite Z.lor_spec, Z.bits_0, Z.shiftl_spec in H0 by lia. rewrite Z.sub_diag in H0.
    change (Z.testbit 1 0) with true in H0. by rewrite orb_true_r in H0.
  - exists k2. split; [done|]. by eapply only_trans.
Qed.

Lemma Resume_only k x t type :
  sane k → threads k !! x = Some t →
  let t1 := request (Z.land (m_suspend_request_flags t) (lnotw 32 (Z.shiftl 1 (ThreadState.SuspendShift + type)))) t in
  ∃ k', Resume x type k = Some k' ∧ only k k' x (in_state (suspended_state t1) t1).
Proof.
  intros Hk Et t1. unfold Resume.
  destruct (on_thread_only k x t (λ t, set_state (m_thread_state t)
        (Z.land (m_suspend_request_flags t) (lnotw 32 (Z.shiftl 1 (ThreadState.SuspendShift + type))))
        (m_suspend_allowed_flags t) t)) as (k1 & -> & H1); try done. cbn [mbind option_bind].
  destruct (UpdateState_only k1 x t1) as (k2 & -> & H2); [apply H1|by rewrite (only_lookup _ _ _ _ x H1), decide_True|].
  exists k2. split; [done|]. by eapply only_trans.
Qed.
