(* ===== verification/ThreadOps.v ===== *)
(** The operations on waiters and on base priorities keep the invariant: whatever they change,
    every thread gets the priority it should have. *)
From stdpp Require Import sorting.
From S2P Require Import Prelude Common Results PriorityQueue PriorityQueueLinks PriorityQueueSpec Thread ThreadLocks ThreadWaiters ThreadInherit ThreadHandover ThreadState.

Implicit Types k : Kernel.

(** [k'] is in order, and threads wait as [f] says. *)
Record rewired k k' (f : Z → option Z) : Prop := {
  rw_sane : sane k';
  rw_core : same_core (threads k) (threads k');
  rw_waits : ∀ y, waits k' y = f y;
}.

Lemma sched_ok_core k k' :
  sched_ok k → same_core (threads k) (threads k') → priority_queue k' = priority_queue k →
  schedule_counts k' = schedule_counts k → sched_ok k'.
Proof.
  intros [H1 (tb & M & Hr & Hpl & HM) H3] Hc Hq Hn. split.
  - intros y ty' (ty & E & (Hb & _)%core_fields)%(same_core_inv _ _ _ _ Hc). rewrite Hq, Hb. by apply H1.
  - exists tb, M. rewrite Hq. split_and!; try done. intros y i. rewrite (HM y i). unfold queued. rewrite Hq. split.
    + intros (t & m & (t' & E & (_ & Hs & _)%core_fields)%(same_core_lookup _ _ _ _ Hc) & H). exists t', m. by rewrite Hs.
    + intros (t' & m & (t & E & (_ & Hs & _)%core_fields)%(same_core_inv _ _ _ _ Hc) & H). exists t, m. by rewrite <-Hs.
  - intros y ty' (ty & E & Hcc)%(same_core_inv _ _ _ _ Hc). apply core_fields in Hcc as (_ & _ & _ & _ & _ & _ & ->).
    rewrite Hn. by apply (H3 y ty).
Qed.

Lemma moved_prio k k' f : moved k k' f → ∀ y, prio k' y = prio k y.
Proof. intros [_ _ _ Ho] y. by rewrite (prio_outer k k'). Qed.

Lemma moved_ok k k' f : kernel_ok k → moved k k' f → kernel_ok k'.
Proof.
  intros [L C S P] M. pose proof (moved_prio k k' f M) as Hp. destruct M as [L' C' _ Ho].
  assert (priority_queue k' = priority_queue k ∧ thread_trees k' = thread_trees k
    ∧ schedule_counts k' = schedule_counts k) as (Hq & Ht & Hn) by (unfold outer in Ho; split_and!; congruence).
  split.
  - eapply locks_ok_prio; [|exact L']. auto.
  - rewrite Ht. eapply cvs_ok_prio; [exact Hp|]. by eapply cvs_ok_core.
  - by eapply sched_ok_core.
  - intros y ty' (ty & E & (Hb & _)%core_fields)%(same_core_inv _ _ _ _ C'). rewrite Hp, Hb. by apply P.
Qed.

(** A thread for which the same threads wait should have the same priority. *)
Lemma moved_inherits k k' f y :
  moved k k' f → (∀ w, f w = Some y ↔ waits k w = Some y) → inherits k y → inherits k' y.
Proof.
  intros M Hf. pose proof (moved_prio k k' f M) as Hp. destruct M as [_ C' Hw _].
  intros (t & Et & H1 & H2 & H3). destruct (same_core_lookup _ _ y t C' Et) as (t' & Et' & (Hb & _)%core_fields).
  exists t'. rewrite Hb, Hp. split_and!; [done|done| |].
  - intros w. rewrite Hw, Hf, Hp. auto.
  - destruct H3 as [?|(w & Ew & ?)]; [by left|right]. exists w. by rewrite Hw, Hf, Hp.
Qed.

(** What [x] should have after a change of its waiters: [w]'s priority is the only one that may
    have become wrong. *)
Lemma restored_rewired k k1 k' f :
  same_core (threads k) (threads k1) → (∀ y, waits k1 y = f y) → all_restored k1 k' → rewired k k' f.
Proof.
  intros Hc Hw [K' C' W' I']. split; [by split|by transitivity (threads k1)|]. intros y. by rewrite W'.
Qed.

Lemma same_core_is_Some ts ts' y : same_core ts ts' → is_Some (ts' !! y) ↔ is_Some (ts !! y).
Proof. intros H. by rewrite <-!elem_of_dom, (same_core_dom _ _ H). Qed.

(** [RestorePriority] is called unless the priority of [x] is right anyhow. *)
Lemma restore_if_ok k k1 f x (b : bool) :
  sane k → moved k k1 f → is_Some (threads k !! x) →
  (∀ y, y ≠ x → is_Some (threads k !! y) → inherits k1 y) → (b = false → inherits k1 x) →
  ∃ k', (if b then RestorePriority x k1 else Some k1) = Some k' ∧ rewired k k' f.
Proof.
  intros [K I] M Hx Hy Hb. pose proof (moved_ok k k1 f K M) as K1. pose proof M as [_ C1 W1 _].
  assert (∀ y, is_Some (threads k1 !! y) ↔ is_Some (threads k !! y)) as Hd by (intros; by apply same_core_is_Some).
  destruct b.
  - destruct (RestorePriority_ok k1 x K1) as (k' & E & R); [by apply Hd| |exists k'; split; [done|by eapply restored_rewired]].
    intros y Hs Hne. apply Hy; [done|by apply Hd].
  - exists k1. split; [done|]. split; [|done|done]. split; [done|]. intros y Hs%Hd.
    destruct (decide (y = x)) as [->|]; auto.
Qed.

Lemma AddWaiter_rewired k x w tx tw :
  sane k → threads k !! x = Some tx → threads k !! w = Some tw → waits k w = None → m_condvar_tree tw = None →
  ∃ k', AddWaiter x w k = Some k' ∧ rewired k k' (λ y, if decide (y = w) then Some x else waits k y).
Proof.
  intros [K I] Etx Ew Hw Hcv.
  destruct (AddWaiterImpl_ok k x w tx tw) as (k1 & E1 & M); try done.
  { apply K. } { intros y t Ey. eapply GetPriority_ok; [apply K|done]. }
  unfold AddWaiter. rewrite E1. cbn [mbind option_bind]. pose proof (moved_ok _ _ _ K M) as K1.
  pose proof (moved_prio _ _ _ M) as Hp. pose proof M as [_ C1 W1 _].
  destruct (same_core_lookup _ _ x tx C1 Etx) as (tx1 & Ex1 & (Hbx & _)%core_fields).
  destruct (same_core_lookup _ _ w tw C1 Ew) as (tw1 & Ew1 & _).
  rewrite (GetPriority_ok k1 w tw1), (GetPriority_ok k1 x tx1) by (done || apply K1). cbn [mbind option_bind]. rewrite !Hp.
  eapply restore_if_ok; [by split|done|by eexists| |].
  - intros y Hne Hs. eapply moved_inherits; [done| |by apply I]. intros v. cbv beta. destruct (decide (v = w)) as [->|]; [|done].
    rewrite Hw. naive_solver.
  - intros Hlt%Z.ltb_ge. destruct (I x) as (t & Et & H1 & H2 & H3); [by eexists|]. rewrite Etx in Et. injection Et as <-.
    exists tx1. rewrite Hbx, Hp. split_and!; [done|done| |].
    + intros v. rewrite W1, Hp. destruct (decide (v = w)) as [->|]; [done|apply H2].
    + destruct H3 as [?|(v & Ev & Hv)]; [by left|right]. exists v. rewrite W1, Hp, decide_False; [done|].
      intros ->. by rewrite Hw in Ev.
Qed.

Lemma RemoveWaiter_rewired k x w :
  sane k → waits k w = Some x →
  ∃ k', RemoveWaiter x w k = Some k' ∧ rewired k k' (λ y, if decide (y = w) then None else waits k y).
Proof.
  intros [K I] Hw. destruct (waits_Some _ _ _ _ (ko_locks k K) Hw) as (tw & _ & _ & tx & Ew & _ & _ & _ & Etx).
  destruct (RemoveWaiterImpl_ok k x w (ko_locks k K) Hw) as (k1 & E1 & M).
  unfold RemoveWaiter. rewrite E1. cbn [mbind option_bind]. pose proof (moved_ok _ _ _ K M) as K1.
  pose proof (moved_prio _ _ _ M) as Hp. pose proof M as [_ C1 W1 _].
  destruct (same_core_lookup _ _ x tx C1 Etx) as (tx1 & Ex1 & (Hbx & _)%core_fields).
  destruct (same_core_lookup _ _ w tw C1 Ew) as (tw1 & Ew1 & _).
  rewrite (GetPriority_ok k1 w tw1), (GetPriority_ok k1 x tx1) by (done || apply K1). cbn [mbind option_bind].
  rewrite Ex1, !Hp. cbn [mbind option_bind]. rewrite Hbx.
  eapply restore_if_ok; [by split|done|by eexists| |].
  - intros y Hne Hs. eapply moved_inherits; [done| |by apply I]. intros v. cbv beta. destruct (decide (v = w)) as [->|]; [|done].
    rewrite Hw. naive_solver.
  - intros Hb%andb_false_iff. destruct (I x) as (t & Et & H1 & H2 & H3); [by eexists|]. rewrite Etx in Et. injection Et as <-.
    exists tx1. rewrite Hbx, Hp. split_and!; [done|done| |].
    + intros v. rewrite W1, Hp. destruct (decide (v = w)) as [->|]; [done|apply H2].
    + destruct H3 as [?|(v & Ev & Hv)]; [by left|].
      destruct (decide (prio k x = m_base_priority tx)) as [|Hne]; [by left|right]. exists v. rewrite W1, Hp.
      rewrite decide_False; [done|]. intros ->. lia.
Qed.

(** The lock at [key], if [x] holds it. *)
Lemma FindHeldLock_ok k x t key b :
  locks_ok (prio k) (threads k) (lock_infos k) (lock_slab k) → threads k !! x = Some t →
  ∃ o, FindHeldLock x key b k = Some o ∧ ∀ l, o = Some l → l ∈ m_held_lock_info_list t
    ∧ ∃ li, lock_infos k !! l = Some li ∧ li_owner li = x ∧ li_address_key li = key ∧ li_is_kernel_address_key li = b.
Proof.
  intros L Et. unfold FindHeldLock. rewrite Et. cbn [mbind option_bind].
  destruct (find_lock_ok key b (m_held_lock_info_list t) (lock_infos k)) as (o & -> & Ho).
  { intros l (li & E & _)%(lk_held _ _ _ _ L x t l Et). by exists li. }
  exists o. split; [done|]. intros l (Hl & li & E & Hk & Hb)%Ho. split; [done|]. exists li.
  apply (lk_held _ _ _ _ L x t l Et) in Hl as (li' & E' & Ho'). split_and!; congruence.
Qed.

(** A lock that is not held *)
Lemma find_lock_none key b held (locks : gmap Z LockInfo) l li :
  find_lock key b held locks = Some None → l ∈ held → locks !! l = Some li →
  ¬ (li_address_key li = key ∧ li_is_kernel_address_key li = b).
Proof.
  induction held as [|j held IH]; [by intros _ ?%not_elem_of_nil|]. cbn [find_lock].
  destruct (locks !! j) as [lj|] eqn:Ej; [|done]. cbn [mbind option_bind].
  destruct (_ && _) eqn:Em; [done|]. intros E [->|Hl]%elem_of_cons El; [|by apply IH].
  rewrite Ej in El. injection El as <-. intros [<- <-]. by rewrite Z.eqb_refl, eqb_reflx in Em.
Qed.

Lemma RemoveWaiterByKey_None k x key b :
  FindHeldLock x key b k = Some None → RemoveWaiterByKey x key b k = Some (None, false, k).
Proof. intros E. unfold RemoveWaiterByKey. by rewrite E. Qed.

(** The next owner and the threads that go on waiting, for it. *)
Lemma RemoveWaiterByKey_rewired k x t l key b :
  sane k → threads k !! x = Some t → FindHeldLock x key b k = Some (Some l) →
  ∃ li o rest k', lock_infos k !! l = Some li ∧ li_owner li = x ∧ li_tree li = o :: rest
    ∧ RemoveWaiterByKey x key b k = Some (Some o, negb (bool_decide (rest = [])), k')
    ∧ rewired k k' (λ y, if decide (y = o) then None else if decide (y ∈ rest) then Some o else waits k y).
Proof.
  intros [K I] Et Ef. pose proof (ko_locks k K) as L.
  destruct (FindHeldLock_ok k x t key b L Et) as (o' & E' & Ho). rewrite Ef in E'. injection E' as <-.
  destruct (Ho l eq_refl) as (Hl & li & El & Ex & _). destruct (lk_info _ _ _ _ L l li El) as [Hnd Hne _ Hsort].
  destruct (li_tree li) as [|o rest] eqn:Etr; [done|]. exists li, o, rest.
  destruct (hand_over_ok k x l li o rest t L El Ex Etr Et) as (k1 & E1 & M).
  pose proof (moved_ok _ _ _ K M) as K1. pose proof (moved_prio _ _ _ M) as Hp. pose proof M as [_ C1 W1 _].
  destruct (same_core_lookup _ _ x t C1 Et) as (t1 & Et1 & (Hb & _)%core_fields).
  assert (∀ v, v ∈ o :: rest → waits k v = Some x ∧ is_Some (threads k !! v)) as Htree.
  { intros v Hv. rewrite <-Etr in Hv. split.
    - apply (waiter_of k x v t L Et). by exists l, li.
    - apply (lk_tree _ _ _ _ L l li v El) in Hv as (tv & ? & _). by exists tv. }
  destruct (Htree o) as [Ho1 [to Eo]]; [set_solver|].
  destruct (same_core_lookup _ _ o to C1 Eo) as (to1 & Eo1 & (Hbo & _)%core_fields).
  apply StronglySorted_inv in Hsort as [_ Hsort]. rewrite Forall_forall in Hsort.
  unfold RemoveWaiterByKey. rewrite Ef. cbn [mbind option_bind]. rewrite E1. cbn [mbind option_bind].
  rewrite (GetPriority_ok k1 o to1), (GetPriority_ok k1 x t1) by (done || apply K1). cbn [mbind option_bind].
  rewrite Et1, !Hp. cbn [mbind option_bind]. rewrite Hb.
  destruct (restore_if_ok k k1 _ x ((prio k x =? prio k o) && (prio k x <? m_base_priority t)) ltac:(by split) M
    ltac:(by eexists)) as (k' & -> & R).
  - intros y Hxy Hs. destruct (decide (y = o)) as [->|Hyo].
    + destruct (I o Hs) as (to' & Eo' & H1 & H2 & H3). rewrite Eo in Eo'. injection Eo' as <-.
      exists to1. rewrite Hbo, Hp. split_and!; [done|done| |].
      * intros v. rewrite W1, Hp. destruct (decide (v = o)); [done|]. destruct (decide (v ∈ rest)) as [Hv|]; [|apply H2].
        intros _. by apply Hsort.
      * destruct H3 as [?|(v & Ev & Hv)]; [by left|]. destruct (decide (v = o)) as [->|Hvo].
        { rewrite Ho1 in Ev. congruence. }
        right. exists v. rewrite W1, Hp, decide_False by done. split; [|done].
        destruct (decide (v ∈ rest)); [done|]. done.
    + eapply moved_inherits; [done| |by apply I]. intros v. cbv beta. destruct (decide (v = o)) as [->|].
      { rewrite Ho1. naive_solver. }
      destruct (decide (v ∈ rest)) as [Hv|]; [|done]. destruct (Htree v) as [-> _]; [set_solver|]. naive_solver.
  - intros Hno%andb_false_iff. destruct (I x) as (t' & Et' & H1 & H2 & H3); [by eexists|]. rewrite Et in Et'.
    injection Et' as <-. exists t1. rewrite Hb, Hp. split_and!; [done|done| |].
    + intros v. rewrite W1, Hp. destruct (decide (v = o)); [done|]. destruct (decide (v ∈ rest)) as [Hv|]; [|apply H2].
      intros _. apply H2. apply Htree. set_solver.
    + destruct H3 as [?|(v & Ev & Hv)]; [by left|]. destruct (decide (prio k x = m_base_priority t)) as [|Hne']; [by left|].
      assert (prio k x ≤ prio k o) by (by apply H2). right. exists v. rewrite W1, Hp.
      rewrite !decide_False; [done|intros Hr; specialize (Hsort v Hr); lia|intros ->; lia].
  - cbn [mbind option_bind]. exists k'. by split_and!.
Qed.

(** * Base priorities *)
Lemma base_restored k x t v :
  sane k → threads k !! x = Some t → 0 ≤ v ≤ 63 →
  ∃ k1 k', on_thread x (set_base_priority v) k = Some k1 ∧ RestorePriority x k1 = Some k' ∧ sane k'
    ∧ same_core (<[x := set_base_priority v t]> (threads k)) (threads k') ∧ ∀ y, waits k' y = waits k y.
Proof.
  intros [[L C S P] I] Et Hv. rewrite (set_at_once k x _ t Et). eexists.
  set (k1 := with_threads _ k).
  assert (kernel_ok k1) as K1.
  { split.
    - by apply locks_ok_set with t.
    - by apply cvs_ok_set with t.
    - apply sched_ok_quiet with t; try done. split_and!; simpl; [done|done|lia].
    - intros y ty. unfold k1. cbn [threads with_threads]. intros [[<- <-]|[Hne E]]%lookup_insert_Some.
      + split; [exact (proj1 (P x t Et))|simpl; lia].
      + exact (P y ty E). }
  assert (∀ y, waits k1 y = waits k y) as W1 by (intros y; by apply set_waits with t).
  destruct (RestorePriority_ok k1 x K1) as (k' & E & [K' C' W' I']).
  - unfold k1. simpl. rewrite lookup_insert_eq. by eexists.
  - intros y Hy Hne. apply (due_ext k); try done.
    + unfold k1. simpl. by rewrite lookup_insert_ne.
    + apply I. unfold k1 in Hy. simpl in Hy. by rewrite lookup_insert_ne in Hy.
  - exists k'. split; [done|]. split; [done|]. split; [by split|]. split; [done|]. intros y. by rewrite W'.
Qed.

Lemma SetBasePriority_rewired k x t v :
  sane k → threads k !! x = Some t → 0 ≤ v ≤ 63 →
  ∃ k', SetBasePriority x v k = Some k' ∧ sane k'
    ∧ same_core (<[x := set_base_priority v t]> (threads k)) (threads k') ∧ ∀ y, waits k' y = waits k y.
Proof.
  intros Hk Et Hv. unfold SetBasePriority, Svc.HighestThreadPriority, Svc.LowestThreadPriority.
  rewrite check_bind_Some by lia. destruct (base_restored k x t v Hk Et Hv) as (k1 & k' & -> & E & H).
  exists k'. by split.
Qed.

Lemma IncreaseBasePriority_rewired k x t v :
  sane k → threads k !! x = Some t → 0 ≤ v ≤ 63 →
  ∃ k', IncreaseBasePriority x v k = Some k' ∧ sane k'
    ∧ same_core (<[x := set_base_priority (Z.min v (m_base_priority t)) t]> (threads k)) (threads k')
    ∧ ∀ y, waits k' y = waits k y.
Proof.
  intros Hk Et Hv. unfold IncreaseBasePriority, Svc.HighestThreadPriority, Svc.LowestThreadPriority.
  rewrite check_bind_Some by lia. rewrite Et. cbn [mbind option_bind]. destruct (Z.ltb_spec v (m_base_priority t)).
  - rewrite Z.min_l by lia. destruct (base_restored k x t v Hk Et Hv) as (k1 & k' & -> & E & H'). exists k'. by split.
  - rewrite Z.min_r by lia. exists k. split; [done|]. split; [done|]. split; [|done].
    replace (<[_ := _]> (threads k)) with (threads k); [done|]. symmetry. apply insert_id. by destruct t.
Qed.
