(* ===== verification/ThreadWaits.v ===== *)
(** The wait of a thread: its beginning, its end and its cancellation, from every kind of wait
    queue. *)
From stdpp Require Import sorting.
From S2P Require Import Prelude Common Results PriorityQueue PriorityQueueLinks PriorityQueueSpec Thread ThreadLocks ThreadWaiters ThreadInherit ThreadHandover ThreadState ThreadOps.

Implicit Types k : Kernel.

(** * Leaving the tree of a condition variable or address arbiter *)
Lemma cvs_ok_left pr ts trees c tree x t :
  cvs_ok pr ts trees → trees !! c = Some tree → ts !! x = Some t → m_condvar_tree t = Some c →
  cvs_ok pr (<[x := set_condvar None (m_condvar_key t) t]> ts) (<[c := filter (λ e, e ≠ x) tree]> trees).
Proof.
  intros [H1 H2 H3 H4] Ec Et Etc.
  assert (∀ y, cv_key (<[x := set_condvar None (m_condvar_key t) t]> ts) y = cv_key ts y) as Hky.
  { intros y. unfold cv_key. rewrite lookup_insert. destruct (decide (x = y)) as [<-|]; [|done]. by rewrite Et. }
  assert (∀ y c', (∃ ty, <[x := set_condvar None (m_condvar_key t) t]> ts !! y = Some ty ∧ m_condvar_tree ty = Some c')
    ↔ y ≠ x ∧ ∃ ty, ts !! y = Some ty ∧ m_condvar_tree ty = Some c') as Hin.
  { intros y c'. rewrite lookup_insert. destruct (decide (x = y)) as [<-|]; [|naive_solver].
    split; [intros (? & [= <-] & ?); done|tauto]. }
  assert (∀ c' tr, <[c := filter (λ e, e ≠ x) tree]> trees !! c' = Some tr →
    ∃ tr0, trees !! c' = Some tr0 ∧ (∀ y, y ∈ tr ↔ y ≠ x ∧ y ∈ tr0) ∧ (tr = tr0 ∨ tr = filter (λ e, e ≠ x) tr0)) as Htr.
  { intros c' tr [[<- <-]|[Hne E]]%lookup_insert_Some.
    - exists tree. split_and!; [done| |by right]. intros y. by rewrite list_elem_of_filter.
    - exists tr. split_and!; [done| |by left]. intros y. split; [|tauto]. intros Hy. split; [|done]. intros ->.
      apply (H1 c' tr x E) in Hy as (t' & E' & ?). congruence. }
  split.
  - intros c' tr y (tr0 & E0 & Hy & _)%Htr. rewrite Hy, (H1 c' tr0 y E0). by rewrite Hin.
  - intros y ty c' Ey Eyc. assert (y ≠ x ∧ ∃ ty, ts !! y = Some ty ∧ m_condvar_tree ty = Some c') as (_ & ty0 & E0 & Ec0).
    { apply Hin. by exists ty. }
    rewrite lookup_insert. destruct (decide (c = c')); [by eexists|by eapply H2].
  - intros c' tr (tr0 & E0 & _ & [->| ->])%Htr; [by eapply H3|]. by apply NoDup_filter, (H3 c').
  - intros c' tr (tr0 & E0 & _ & Heq)%Htr. eapply StronglySorted_ext with (R := cv_le pr ts).
    { intros a b _ _. unfold cv_le. by rewrite !Hky. }
    destruct Heq as [->| ->]; [by eapply H4|]. by apply StronglySorted_filter, (H4 c').
Qed.

Lemma leave_tree_ok k x t c :
  sane k → threads k !! x = Some t → (∀ c', m_condvar_tree t = Some c' → c' = c) →
  ∃ k', leave_tree c x k = Some k' ∧ sane k'
    ∧ threads k' = <[x := set_condvar None (m_condvar_key t) t]> (threads k) ∧ ∀ y, waits k' y = waits k y.
Proof.
  intros Hk Et Hc. pose proof Hk as [[L C S P] I]. unfold leave_tree. rewrite Et. cbn [mbind option_bind].
  destruct (m_condvar_tree t) as [c'|] eqn:Etc.
  2: { exists k. split_and!; try done. symmetry. apply insert_id. rewrite Et. f_equal. rewrite <-Etc. by destruct t. }
  specialize (Hc c' eq_refl). subst c'. destruct (cv_some _ _ _ C x t c Et Etc) as [tree Ec].
  assert (x ∈ tree) as Hx by (apply (cv_tree _ _ _ C c tree x Ec); by exists t).
  unfold erase_from_tree. rewrite Ec. cbn [mbind option_bind]. rewrite (list_erase_ok x tree Hx). cbn [mbind option_bind].
  unfold ClearConditionVariable. rewrite (set_at_once _ x _ t) by done.
  eexists. split; [done|]. set (t' := set_condvar None (m_condvar_key t) t).
  assert (∀ y, waits_on (<[x := t']> (threads k)) (lock_infos k) y = waits k y) as Hw by (intros y; by apply set_waits with t).
  split; [|by split]. split; [split|].
  - simpl. by apply locks_ok_set with t.
  - simpl. by apply cvs_ok_left.
  - pose proof (sched_ok_quiet k x t t' S Et) as [S1 S2 S3]; [split_and!; simpl; [done|done|lia]|]. by split.
  - intros y ty. cbn [threads with_threads]. intros [[<- <-]|[Hne E]]%lookup_insert_Some; [exact (P x t Et)|exact (P y ty E)].
  - intros y Hy. apply (due_ext k); try done.
    + simpl. rewrite lookup_insert. destruct (decide (x = y)) as [<-|]; [|done]. by rewrite Et.
    + apply I. simpl in Hy. rewrite lookup_insert in Hy. destruct (decide (x = y)) as [<-|]; [by exists t|done].
Qed.

(** * The end of a wait *)
Lemma next_state_land t s : Z.land (next_state t s) ThreadState.Mask = Z.land s ThreadState.Mask.
Proof.
  unfold next_state. rewrite Z.land_lor_distr_l, <-!Z.land_assoc, Z.land_diag.
  change (Z.land (lnotw 16 ThreadState.Mask) ThreadState.Mask) with 0. by rewrite Z.land_0_r, Z.lor_0_l.
Qed.

(** The thread once its wait is over. *)
Definition woken_thread (t : KThread) (result : Z) : KThread :=
  set_wait (m_wait_cancelled t) result None (in_state (next_state t ThreadState.Runnable) t).

(** Result, state and queue, which is the end of every wait. *)
Lemma wake_ok k x t r :
  sane k → threads k !! x = Some t →
  ∃ k', (k ← SetWaitResult x r k; k ← SetState x ThreadState.Runnable k; ClearWaitQueue x k) = Some k'
    ∧ only k k' x (woken_thread t r).
Proof.
  intros Hk Et. unfold SetWaitResult, ClearWaitQueue.
  destruct (on_thread_only k x t (λ t, set_wait (m_wait_cancelled t) r (m_wait_queue t) t)) as (k1 & -> & H1); try done.
  cbn [mbind option_bind]. cbv beta in H1. set (t1 := set_wait (m_wait_cancelled t) r (m_wait_queue t) t) in *.
  destruct (SetState_only k1 x t1 ThreadState.Runnable) as (k2 & -> & H2);
    [apply H1|by rewrite (only_lookup _ _ _ _ x H1), decide_True|]. cbn [mbind option_bind].
  set (t2 := in_state (next_state t1 ThreadState.Runnable) t1) in *.
  destruct (on_thread_only k2 x t2 (λ t, set_wait (m_wait_cancelled t) (m_wait_result t) None t)) as (k3 & -> & H3); try done.
  - apply H2.
  - by rewrite (only_lookup _ _ _ _ x H2), decide_True.
  - exists k3. split; [done|]. eapply only_trans; [exact H1|]. by eapply only_trans.
Qed.

Lemma queue_CancelWait_only k x t q r b :
  sane k → threads k !! x = Some t → ∃ k', queue_CancelWait q x r b k = Some k' ∧ only k k' x (woken_thread t r).
Proof.
  intros Hk Et. destruct (wake_ok k x t r Hk Et) as (k' & E & H).
  apply bind_Some in E as (k1 & E1 & (k2 & E2 & E3)%bind_Some).
  unfold queue_CancelWait. rewrite E1. cbn [mbind option_bind]. rewrite E2. cbn [mbind option_bind]. rewrite E3.
  cbn [mbind option_bind]. eexists. split; [done|]. eapply only_ext; [exact H|]. by destruct (b && _).
Qed.
Lemma queue_EndWait_only k x t q r :
  sane k → threads k !! x = Some t → ∃ k', queue_EndWait q x r k = Some k' ∧ only k k' x (woken_thread t r).
Proof. apply (queue_CancelWait_only k x t q r true). Qed.

(** * Operations on waiting threads *)
Lemma leave_owner_ok k x t :
  sane k → threads k !! x = Some t →
  ∃ k', leave_owner x k = Some k' ∧ rewired k k' (λ y, if decide (y = x) then None else waits k y).
Proof.
  intros Hk Et. unfold leave_owner. rewrite (GetLockOwner_ok k x t) by (done || apply Hk). cbn [mbind option_bind].
  destruct (waits k x) as [o|] eqn:Ew; [by apply RemoveWaiter_rewired|].
  exists k. split; [done|]. split; [done|done|]. intros y. by destruct (decide (y = x)) as [->|].
Qed.

(** The locks and trees that a cancelled wait leaves. *)
Definition leaves_lock (q : KThreadQueue) : bool :=
  match q_class q with WaitForAddress | WaitConditionVariable _ | LightLock => true | _ => false end.
Definition leaves_tree (q : KThreadQueue) : bool :=
  match q_class q with AddressArbiter _ | WaitConditionVariable _ => true | _ => false end.
Definition agrees (q : KThreadQueue) (waiting : bool) (t : KThread) : Prop :=
  match q_class q with
  | WaitForAddress => waiting = true
  | WaitConditionVariable c | AddressArbiter c => ∀ c', m_condvar_tree t = Some c' → c' = c
  | ThreadSleep | LightLock => True
  end.

(** Between leaving and the handler of the base class. *)
Record leaving k k1 (x : Z) (t t1 : KThread) (q : KThreadQueue) : Prop := {
  le_sane : sane k1;
  le_thread : threads k1 !! x = Some t1;
  le_same : m_suspend_request_flags t1 = m_suspend_request_flags t
            ∧ m_condvar_tree t1 = if leaves_tree q then None else m_condvar_tree t;
  le_waits : ∀ y, waits k1 y = if decide (y = x ∧ leaves_lock q = true) then None else waits k y;
  le_others : ∀ y, y ≠ x → core <$> threads k1 !! y = core <$> threads k !! y;
}.

Definition leave (q : KThreadQueue) (x : Z) (k : Kernel) : option Kernel :=
  match q_class q with
  | ThreadSleep => Some k
  | WaitForAddress => owner ← GetLockOwner x k; o ← owner; RemoveWaiter o x k
  | WaitConditionVariable m_tree => k ← leave_owner x k; leave_tree m_tree x k
  | AddressArbiter m_tree => leave_tree m_tree x k
  | LightLock => leave_owner x k
  end.

Lemma core_flags t t' : core t' = core t → m_suspend_request_flags t' = m_suspend_request_flags t.
Proof. intros E. by injection E. Qed.

Lemma left_lock k x t :
  sane k → threads k !! x = Some t →
  ∃ k1 t1, leave_owner x k = Some k1 ∧ core t1 = core t ∧ sane k1 ∧ threads k1 !! x = Some t1
    ∧ (∀ y, waits k1 y = if decide (y = x) then None else waits k y) ∧ same_core (threads k) (threads k1).
Proof.
  intros Hk Et. destruct (leave_owner_ok k x t Hk Et) as (k1 & E & [Hs Hc Hw]).
  destruct (same_core_lookup _ _ x t Hc Et) as (t1 & Et1 & Hct). by exists k1, t1.
Qed.

Lemma leave_owner_leaving k x t q :
  sane k → threads k !! x = Some t → leaves_lock q = true → leaves_tree q = false →
  ∃ k1 t1, leave_owner x k = Some k1 ∧ leaving k k1 x t t1 q.
Proof.
  intros Hk Et Hl Hq. destruct (left_lock k x t Hk Et) as (k1 & t1 & E & Hct & Hs & Et1 & Hw & Hc).
  exists k1, t1. split; [done|]. split; [done|done| | |intros y _; apply Hc].
  - rewrite Hq. split; [by apply core_flags|]. by apply core_fields in Hct as (_ & _ & _ & _ & ? & _).
  - intros y. rewrite Hw. destruct (decide (y = x)); [by rewrite decide_True|]. rewrite decide_False; [done|tauto].
Qed.

Lemma leave_tree_leaving k k1 x t t1 q c :
  sane k1 → threads k1 !! x = Some t1 → core t1 = core t → same_core (threads k) (threads k1) →
  (∀ y, waits k1 y = if decide (y = x ∧ leaves_lock q = true) then None else waits k y) →
  leaves_tree q = true → (∀ c', m_condvar_tree t = Some c' → c' = c) →
  ∃ k2 t2, leave_tree c x k1 = Some k2 ∧ leaving k k2 x t t2 q.
Proof.
  intros Hk Et Hct Hc Hw Hq Hcv. pose proof (core_fields _ _ Hct) as (_ & _ & _ & _ & Htree & _).
  destruct (leave_tree_ok k1 x t1 c Hk Et) as (k2 & E & Hs & Ht & Hw2); [by rewrite Htree|].
  exists k2, (set_condvar None (m_condvar_key t1) t1). split; [done|]. split.
  - done.
  - by rewrite Ht, lookup_insert_eq.
  - rewrite Hq. split; [by apply core_flags in Hct|done].
  - intros y. by rewrite Hw2, Hw.
  - intros y Hne. by rewrite Ht, lookup_insert_ne.
Qed.

Lemma leave_ok k x t q :
  sane k → threads k !! x = Some t → agrees q (bool_decide (is_Some (waits k x))) t →
  ∃ k1 t1, leave q x k = Some k1 ∧ leaving k k1 x t t1 q.
Proof.
  intros Hk Et Ha. unfold leave, agrees in *.
  destruct (q_class q) as [| |c|c|] eqn:Ec.
  - exists k, t. split; [done|]. split; unfold leaves_tree, leaves_lock; rewrite ?Ec; try done.
    intros y. by rewrite decide_False by (by intros [_ ?]).
  - apply bool_decide_eq_true in Ha as [o Ho].
    assert ((owner ← GetLockOwner x k; o ← owner; RemoveWaiter o x k) = leave_owner x k) as ->.
    { unfold leave_owner. rewrite (GetLockOwner_ok k x t) by (done || apply Hk). cbn [mbind option_bind]. by rewrite Ho. }
    apply leave_owner_leaving; try done; unfold leaves_lock, leaves_tree; by rewrite Ec.
  - destruct (left_lock k x t Hk Et) as (k1 & t1 & -> & Hct & Hs & Et1 & Hw & Hc). cbn [mbind option_bind].
    eapply leave_tree_leaving; try done; unfold leaves_lock, leaves_tree; rewrite Ec; [|done].
    intros y. rewrite Hw. destruct (decide (y = x)); [by rewrite decide_True|]. rewrite decide_False; [done|tauto].
  - eapply leave_tree_leaving; try done; unfold leaves_lock, leaves_tree; rewrite Ec; [|done].
    intros y. by rewrite decide_False by (by intros [_ ?]).
  - apply leave_owner_leaving; try done; unfold leaves_lock, leaves_tree; by rewrite Ec.
Qed.

(** After a cancelled wait the thread is runnable, has its result and waits for nothing. *)
Record cancelled k k' (x r : Z) (t : KThread) (q : KThreadQueue) : Prop := {
  ca_sane : sane k';
  ca_thread : ∃ t', threads k' !! x = Some t' ∧ GetState t' = ThreadState.Runnable ∧ m_wait_result t' = r
    ∧ m_wait_queue t' = None ∧ m_suspend_request_flags t' = m_suspend_request_flags t
    ∧ m_condvar_tree t' = if leaves_tree q then None else m_condvar_tree t;
  ca_lock : waits k' x = if leaves_lock q then None else waits k x;
  ca_tree : leaves_tree q = true → ∀ c tree, thread_trees k' !! c = Some tree → x ∉ tree;
  ca_others : ∀ y, y ≠ x → core <$> threads k' !! y = core <$> threads k !! y ∧ waits k' y = waits k y;
}.

Lemma dispatch_CancelWait_ok k x t q r b :
  sane k → threads k !! x = Some t → agrees q (bool_decide (is_Some (waits k x))) t →
  ∃ k', dispatch_CancelWait q x r b k = Some k' ∧ cancelled k k' x r t q.
Proof.
  intros Hk Et Ha. destruct (leave_ok k x t q Hk Et Ha) as (k1 & t1 & E1 & [Hs1 Et1 [Hf1 Hc1] Hw1 Ho1]).
  destruct (queue_CancelWait_only k1 x t1 q r b Hs1 Et1) as (k2 & E2 & H2).
  exists k2. split.
  { unfold dispatch_CancelWait. unfold leave in E1. rewrite E1. exact E2. }
  pose proof (only_lookup _ _ _ _ x H2) as Et2. rewrite decide_True in Et2 by done. pose proof H2 as [Hs2 Ht2 _ Hw2 _].
  split; [done|..].
  - eexists. split; [exact Et2|]. split; [|by split_and!]. unfold GetState. simpl. by rewrite next_state_land.
  - rewrite Hw2, Hw1. destruct (leaves_lock q); [by rewrite decide_True|by rewrite decide_False by (by intros [_ ?])].
  - intros Hq c tree Ec Hx. apply (cv_tree _ _ _ (ko_cvs _ (sn_ok _ Hs2)) c tree x Ec) in Hx as (t' & Et' & Hc').
    rewrite Et2 in Et'. injection Et' as <-. simpl in Hc'. rewrite Hc1, Hq in Hc'. done.
  - intros y Hne. rewrite (only_lookup _ _ _ _ y H2), decide_False, Ho1 by done. split; [done|].
    rewrite Hw2, Hw1. rewrite decide_False; [done|tauto].
Qed.

(** ** BeginWait, EndWait, CancelWait, OnTimer and WaitCancel *)
Lemma BeginWait_only k x t q :
  sane k → threads k !! x = Some t →
  ∃ k', BeginWait x q k = Some k'
    ∧ only k k' x (set_wait (m_wait_cancelled t) (m_wait_result t) (Some q) (in_state (next_state t ThreadState.Waiting) t)).
Proof.
  intros Hk Et. unfold BeginWait. destruct (SetState_only k x t ThreadState.Waiting Hk Et) as (k1 & -> & H1).
  cbn [mbind option_bind]. set (t1 := in_state (next_state t ThreadState.Waiting) t) in *.
  destruct (on_thread_only k1 x t1 (λ t, set_wait (m_wait_cancelled t) (m_wait_result t) (Some q) t)) as (k2 & -> & H2); try done.
  - apply H1.
  - by rewrite (only_lookup _ _ _ _ x H1), decide_True.
  - exists k2. split; [done|]. by eapply only_trans.
Qed.

(** The thread after [EndWait]; a thread that does not wait is left alone. *)
Definition ended_thread (t : KThread) (r : Z) : KThread :=
  if GetState t =? ThreadState.Waiting then
    match m_wait_queue t with
    | Some _ => woken_thread t r
    | None => let t := set_wait (m_wait_cancelled t) r (m_wait_queue t) t in in_state (next_state t ThreadState.Runnable) t
    end
  else t.

Lemma EndWait_only k x t r :
  sane k → threads k !! x = Some t → (∀ q, m_wait_queue t = Some q → q_class q ≠ ThreadSleep) →
  ∃ k', EndWait x r k = Some k' ∧ only k k' x (ended_thread t r).
Proof.
  intros Hk Et Hq. unfold EndWait, ended_thread. rewrite Et. cbn [mbind option_bind].
  destruct (Z.eqb_spec (GetState t) ThreadState.Waiting) as [Hw|Hw].
  2: { exists k. split; [done|]. split; try done. by rewrite insert_id. }
  destruct (m_wait_queue t) as [q|] eqn:Eq.
  - destruct (queue_EndWait_only k x t q r Hk Et) as (k' & E & H). exists k'. split; [|done].
    unfold dispatch_EndWait. specialize (Hq q eq_refl). by destruct (q_class q).
  - unfold SetWaitResult.
    destruct (on_thread_only k x t (λ t, set_wait (m_wait_cancelled t) r (m_wait_queue t) t)) as (k1 & -> & H1); try done.
    cbn [mbind option_bind]. cbv beta in H1. rewrite Eq in H1. set (t1 := set_wait (m_wait_cancelled t) r None t) in *.
    destruct (SetState_only k1 x t1 ThreadState.Runnable) as (k2 & -> & H2);
      [apply H1|by rewrite (only_lookup _ _ _ _ x H1), decide_True|].
    exists k2. split; [done|]. by eapply only_trans.
Qed.

(** A waiting thread has a wait queue of a class that its locks and trees agree with. *)
Definition waits_well k (x : Z) (t : KThread) : Prop :=
  ∃ q, m_wait_queue t = Some q ∧ agrees q (bool_decide (is_Some (waits k x))) t.

Lemma CancelWait_ok k x t r b :
  sane k → threads k !! x = Some t → (GetState t = ThreadState.Waiting → waits_well k x t) →
  ∃ k', CancelWait x r b k = Some k'
    ∧ if GetState t =? ThreadState.Waiting then ∃ q, m_wait_queue t = Some q ∧ cancelled k k' x r t q else k' = k.
Proof.
  intros Hk Et Hw. unfold CancelWait. rewrite Et. cbn [mbind option_bind].
  destruct (Z.eqb_spec (GetState t) ThreadState.Waiting) as [Hs|Hs]; [|by exists k].
  destruct (Hw Hs) as (q & Eq & Ha). rewrite Eq. cbn [mbind option_bind].
  destruct (dispatch_CancelWait_ok k x t q r b Hk Et Ha) as (k' & E & H). exists k'. split; [done|]. by exists q.
Qed.

(** A cancellation that comes too early, or to a wait that cannot be cancelled, is remembered. *)
Lemma WaitCancel_ok k x t :
  sane k → threads k !! x = Some t → (GetState t = ThreadState.Waiting → waits_well k x t) →
  ∃ k', WaitCancel x k = Some k' ∧ sane k'
    ∧ if (GetState t =? ThreadState.Waiting) && m_cancellable t then
        ∃ q, m_wait_queue t = Some q ∧ cancelled k k' x ResultCancelled t q
      else only k k' x (set_wait true (m_wait_result t) (m_wait_queue t) t).
Proof.
  intros Hk Et Hw. unfold WaitCancel. rewrite Et. cbn [mbind option_bind].
  destruct (Z.eqb_spec (GetState t) ThreadState.Waiting) as [Hs|Hs], (m_cancellable t) eqn:Ec; cbn [andb].
  2, 3, 4: destruct (on_thread_only k x t (λ t, set_wait true (m_wait_result t) (m_wait_queue t) t)) as (k' & -> & H);
    try done; exists k'; split; [done|]; split; [apply H|exact H].
  destruct (on_thread_only k x t (λ t, set_wait false (m_wait_result t) (m_wait_queue t) t)) as (k1 & -> & H1); try done.
  cbn [mbind option_bind]. destruct (Hw Hs) as (q & Eq & Ha). rewrite Eq. cbn [mbind option_bind].
  cbv beta in H1. set (t1 := set_wait false _ _ t) in *. pose proof (on_waits _ _ _ _ H1) as Hw1.
  destruct (dispatch_CancelWait_ok k1 x t1 q ResultCancelled true) as (k' & E & [Hs' Ht' Hl' Htr' Ho']).
  - apply H1.
  - by rewrite (only_lookup _ _ _ _ x H1), decide_True.
  - unfold agrees in *. by destruct (q_class q); rewrite ?Hw1.
  - exists k'. split; [done|]. split; [done|]. exists q. split; [done|]. split; [done|done|by rewrite Hl', Hw1|done|].
    intros y Hne. destruct (Ho' y Hne) as [Hc ->]. rewrite Hc, (only_lookup _ _ _ _ y H1), decide_False by done.
    by rewrite Hw1.
Qed.
