(* ===== verification/ThreadSpec.v ===== *)
(** What threads that wait are promised: the invariant over every sequence of operations, the
    priority a thread runs with, the order in which locks are handed over, and the effect of a
    cancelled wait and of a suspension. *)
From stdpp Require Import relations.
From S2P Require Import Prelude Common Results PriorityQueue PriorityQueueLinks PriorityQueueSpec Thread ThreadLocks ThreadWaiters ThreadInherit ThreadHandover ThreadState ThreadOps ThreadWaits.

Implicit Types k : Kernel.

(** * Sequences of operations *)
Inductive ThreadOp :=
  | OpAddWaiter (owner thread : Z)
  | OpRemoveWaiter (owner thread : Z)
  | OpRemoveWaiterByKey (x key : Z) (is_kernel_address_key : bool)
  | OpSetBasePriority (x value : Z)
  | OpIncreaseBasePriority (x value : Z)
  | OpSetState (x state : Z)
  | OpRequestSuspend (x type : Z)
  | OpResume (x type : Z)
  | OpContinueIfHasKernelWaiters (x : Z)
  | OpBeginWait (x : Z) (queue : KThreadQueue)
  | OpEndWait (x result : Z)
  | OpCancelWait (x result : Z) (cancel_timer_task : bool)
  | OpOnTimer (x : Z)
  | OpWaitCancel (x : Z).

Definition perform (op : ThreadOp) (k : Kernel) : option Kernel :=
  match op with
  | OpAddWaiter x w => AddWaiter x w k
  | OpRemoveWaiter x w => RemoveWaiter x w k
  | OpRemoveWaiterByKey x key b => snd <$> RemoveWaiterByKey x key b k
  | OpSetBasePriority x v => SetBasePriority x v k
  | OpIncreaseBasePriority x v => IncreaseBasePriority x v k
  | OpSetState x s => SetState x s k
  | OpRequestSuspend x type => RequestSuspend x type k
  | OpResume x type => Resume x type k
  | OpContinueIfHasKernelWaiters x => ContinueIfHasKernelWaiters x k
  | OpBeginWait x q => BeginWait x q k
  | OpEndWait x r => EndWait x r k
  | OpCancelWait x r b => CancelWait x r b k
  | OpOnTimer x => OnTimer x k
  | OpWaitCancel x => WaitCancel x k
  end.

(** What the callers of an operation see to. *)
Definition allowed (op : ThreadOp) k : Prop :=
  match op with
  | OpAddWaiter x w => is_Some (threads k !! x) ∧ waits k w = None
      ∧ ∃ t, threads k !! w = Some t ∧ m_condvar_tree t = None
  | OpRemoveWaiter x w => waits k w = Some x
  | OpSetBasePriority x v | OpIncreaseBasePriority x v => is_Some (threads k !! x) ∧ 0 ≤ v ≤ 63
  | OpRequestSuspend x type => is_Some (threads k !! x) ∧ 0 ≤ type
  | OpRemoveWaiterByKey x _ _ | OpSetState x _ | OpResume x _ | OpContinueIfHasKernelWaiters x | OpBeginWait x _ =>
      is_Some (threads k !! x)
  | OpEndWait x _ => ∃ t, threads k !! x = Some t ∧ ∀ q, m_wait_queue t = Some q → q_class q ≠ ThreadSleep
  | OpCancelWait x _ _ | OpOnTimer x | OpWaitCancel x =>
      ∃ t, threads k !! x = Some t ∧ (GetState t = ThreadState.Waiting → waits_well k x t)
  end.

Lemma perform_ok op k : sane k → allowed op k → ∃ k', perform op k = Some k' ∧ sane k'.
Proof.
  intros Hk Ha. destruct op; simpl in Ha |- *.
  - destruct Ha as ([tx Ex] & Hw & tw & Ew & Hcv). edestruct AddWaiter_rewired as (k' & -> & [? _ _]); eauto.
  - edestruct RemoveWaiter_rewired as (k' & -> & [? _ _]); eauto.
  - destruct Ha as [t Et]. destruct (FindHeldLock_ok k x t key is_kernel_address_key) as ([l|] & E & _); [apply Hk|done| |].
    + edestruct RemoveWaiterByKey_rewired as (li & o & rest & k' & _ & _ & _ & -> & [? _ _]); eauto.
    + rewrite RemoveWaiterByKey_None by done. by exists k.
  - destruct Ha as [[t Et] Hv]. edestruct SetBasePriority_rewired as (k' & -> & ? & _); eauto.
  - destruct Ha as [[t Et] Hv]. edestruct IncreaseBasePriority_rewired as (k' & -> & ? & _); eauto.
  - destruct Ha as [t Et]. edestruct SetState_only as (k' & -> & [? _ _ _ _]); eauto.
  - destruct Ha as [[t Et] Hv]. edestruct RequestSuspend_only as (k' & -> & [? _ _ _ _]); eauto.
  - destruct Ha as [t Et]. edestruct Resume_only as (k' & -> & [? _ _ _ _]); eauto.
  - destruct Ha as [t Et]. unfold ContinueIfHasKernelWaiters. rewrite Et. cbn [mbind option_bind].
    destruct (_ <? _); [|by exists k]. edestruct Continue_only as (k' & -> & [? _ _ _ _]); eauto.
  - destruct Ha as [t Et]. edestruct BeginWait_only as (k' & -> & [? _ _ _ _]); eauto.
  - destruct Ha as (t & Et & Hq). edestruct EndWait_only as (k' & -> & [? _ _ _ _]); eauto.
  - destruct Ha as (t & Et & Hq). destruct (CancelWait_ok k x t result cancel_timer_task Hk Et Hq) as (k' & -> & H).
    exists k'. split; [done|]. destruct (_ =? _); [by destruct H as (q & _ & [? _ _ _ _])|by subst].
  - destruct Ha as (t & Et & Hq). destruct (CancelWait_ok k x t ResultTimedOut false Hk Et Hq) as (k' & E & H).
    exists k'. split; [done|]. destruct (_ =? _); [by destruct H as (q & _ & [? _ _ _ _])|by subst].
  - destruct Ha as (t & Et & Hq). destruct (WaitCancel_ok k x t Hk Et Hq) as (k' & -> & ? & _). by exists k'.
Qed.

Definition thread_step k k' : Prop := ∃ op, allowed op k ∧ perform op k = Some k'.

Lemma steps_sane k k' : rtc thread_step k k' → sane k → sane k'.
Proof.
  induction 1 as [|k1 k2 k3 (op & Ha & E) _ IH]; intros Hk; [done|]. apply IH.
  destruct (perform_ok op k1 Hk Ha) as (k' & E' & Hs). rewrite E in E'. by injection E' as <-.
Qed.

(** * The priority a thread runs with *)
Definition waits_for k (a b : Z) : Prop := waits k a = Some b.
Definition base_of k (x : Z) (b : Z) : Prop := ∃ t, threads k !! x = Some t ∧ b = m_base_priority t.

Lemma waiter_exists k a b :
  kernel_ok k → waits_for k a b → is_Some (threads k !! a) ∧ is_Some (threads k !! b).
Proof.
  intros K H. destruct (waits_Some _ _ _ _ (ko_locks k K) H) as (ta & _ & _ & tb & Ea & _ & _ & _ & Eb). split; by eexists.
Qed.

Lemma not_above_waiters k a b : sane k → rtc (waits_for k) a b → is_Some (threads k !! b) → prio k b ≤ prio k a.
Proof.
  intros Hk H. induction H as [x|x y z Hxy Hyz IH]; intros Hb; [lia|]. specialize (IH Hb).
  destruct (waiter_exists k x y (sn_ok k Hk) Hxy) as [_ Hy]. destruct (sn_inherits k Hk y Hy) as (t & _ & _ & Hw & _).
  specialize (Hw x Hxy). lia.
Qed.

(** The priority comes from the base priority of a thread that waits, directly or not. *)
Lemma inherited_from k x :
  sane k → is_Some (threads k !! x) → (∀ y, ¬ tc (waits_for k) y y) →
  ∃ y, rtc (waits_for k) y x ∧ base_of k y (prio k x).
Proof.
  intros Hk Hx Hacyclic.
  assert (∀ n (V : gset Z) v, V ⊆ dom (threads k) → (∀ u, u ∈ V → rtc (waits_for k) v u) → v ∈ V →
    (size (dom (threads k)) < size V + n)%nat → ∃ y, rtc (waits_for k) y v ∧ base_of k y (prio k v)) as Hind.
  { induction n as [|n IH]; intros V v HV Hreach Hv Hn.
    { pose proof (subseteq_size V (dom (threads k)) HV). lia. }
    assert (is_Some (threads k !! v)) as Hs by (apply elem_of_dom; by apply HV).
    destruct (sn_inherits k Hk v Hs) as (t & Et & _ & _ & [Hb|(w & Hw & Hp)]); [exists v; split; [done|by exists t]|].
    assert (w ∉ V) as Hnw.
    { intros Hin. apply (Hacyclic w). eapply tc_rtc_r; [by apply tc_once|]. by apply Hreach. }
    destruct (IH ({[w]} ∪ V) w) as (y & Hy & Hb).
    - apply union_subseteq. split; [|done]. apply singleton_subseteq_l, elem_of_dom.
      by destruct (waiter_exists k w v (sn_ok k Hk) Hw).
    - intros u [->%elem_of_singleton|Hu]%elem_of_union; [done|]. eapply rtc_l; [done|by apply Hreach].
    - set_solver.
    - rewrite size_union, size_singleton by set_solver. lia.
    - exists y. split; [by eapply rtc_r|]. by rewrite <-Hp. }
  apply (Hind (S (size (dom (threads k)))) {[x]} x); [|set_solver|set_solver|rewrite size_singleton; lia].
  by apply singleton_subseteq_l, elem_of_dom.
Qed.

(** * Suspension *)
Lemma request_there flags type :
  in_width 32 flags → 0 ≤ type < 12 → Z.testbit flags (ThreadState.SuspendShift + type) = false →
  Z.land (Z.lor flags (Z.shiftl 1 (ThreadState.SuspendShift + type)))
    (lnotw 32 (Z.shiftl 1 (ThreadState.SuspendShift + type))) = flags.
Proof.
  unfold ThreadState.SuspendShift. intros Hw Hty Hbit. set (n := 4 + type) in *.
  apply testbit_ext. intros i Hi. rewrite land_lnotw_testbit; [|lia| |done].
  2: { apply lor_in_width; [done|done|]. apply shiftl_1_in_width. lia. }
  rewrite lor_bit_testbit by lia. case_bool_decide; subst; simpl; [done|]. by rewrite ?orb_false_r.
Qed.

(** The suspend flags are above the state proper. *)
Lemma suspended_state_land t :
  Z.land (m_suspend_allowed_flags t) ThreadState.Mask = 0 →
  Z.land (suspended_state t) ThreadState.Mask = Z.land (m_thread_state t) ThreadState.Mask.
Proof.
  intros H. unfold suspended_state. rewrite Z.land_lor_distr_l, <-Z.land_assoc, Z.land_diag.
  replace (Z.land (u16 (GetSuspendFlags t)) ThreadState.Mask) with 0; [by rewrite Z.lor_0_l|].
  unfold u16, wrap. change ThreadState.Mask with (Z.ones 4) in *. rewrite Z.land_ones in * by lia.
  unfold GetSuspendFlags. rewrite Z.mod_mod_divide by by exists (2 ^ 12).
  by rewrite <-Z.land_ones, (Z.land_comm (m_suspend_allowed_flags t)), <-Z.land_assoc, (Z.land_ones (m_suspend_allowed_flags t)), H, Z.land_0_r by lia.
Qed.

(** A thread with a suspend flag in its state is not runnable. *)
Lemma suspended_not_runnable t type :
  0 ≤ type < 12 → Z.testbit (m_suspend_request_flags t) (ThreadState.SuspendShift + type) = true →
  Z.testbit (m_suspend_allowed_flags t) (ThreadState.SuspendShift + type) = true →
  suspended_state t ≠ ThreadState.Runnable.
Proof.
  unfold ThreadState.SuspendShift. intros Hty H1 H2 H. apply (f_equal (λ z, Z.testbit z (4 + type))) in H.
  unfold suspended_state, GetSuspendFlags in H. rewrite Z.lor_spec in H.
  replace (Z.testbit (u16 _) (4 + type)) with true in H.
  - simpl orb in H. symmetry in H. rewrite (testbit_high 3) in H; [done|by unfold in_width, ThreadState.Runnable|lia].
  - unfold u16, wrap. rewrite Z.mod_pow2_bits_low by lia. by rewrite Z.land_spec, H1, H2.
Qed.

Lemma not_queued k x t i :
  threads k !! x = Some t → m_thread_state t ≠ ThreadState.Runnable → ¬ queued k x i.
Proof. intros Et Hs (t' & m & Et' & _ & Hr & _). congruence. Qed.

(** * The state before any thread waits *)

(** A thread as it is initialized: it holds and waits for nothing, and the scheduler does not
    know it yet. *)
Definition fresh (t : KThread) : Prop :=
  linkage t = ([], None, 0, m_address_key t, m_is_kernel_address_key t) ∧ m_condvar_tree t = None
  ∧ m_thread_state t ≠ ThreadState.Runnable ∧ 0 ≤ m_base_priority t ≤ 63.

Definition boot (ts : gmap Z KThread) (ms : gmap Z Member) (slab : list Z) (current : Z)
    (counts : gmap Z Z) : Kernel :=
  MkKernel (KPriorityQueue_new ms) ts ∅ slab ∅ current false ∅ ∅ counts.

Lemma boot_sane ts ms slab current counts :
  (∀ x t, ts !! x = Some t → fresh t) →
  (∀ x m, ms !! x = Some m → length (m_per_core_priority_queue_entry m) = 4%nat) →
  (∀ x t, ts !! x = Some t → x ≠ 0 ∧ ∃ m, ms !! x = Some m ∧ info_ok (info_of m)
                                       ∧ PriorityQueue.GetPriority m = m_base_priority t) →
  (∀ x t, ts !! x = Some t → m_parent t = 0 ∨ is_Some (counts !! m_parent t)) →
  NoDup slab → (size ts ≤ length slab)%nat → Z.of_nat (size ts) < 2 ^ 31 → sane (boot ts ms slab current counts).
Proof.
  intros Hf He Hm Hpar Hnd Hroom Hsmall. destruct (new_rep ms He) as [Hrep Hpl].
  assert (∀ x t, ts !! x = Some t → m_held_lock_info_list t = [] ∧ m_waiting_lock_info t = None
    ∧ m_num_kernel_waiters t = 0) as Hlink.
  { intros x t Et. destruct (Hf x t Et) as [El _]. by injection El. }
  assert (∀ x, waits (boot ts ms slab current counts) x = None) as Hw.
  { intros x. unfold waits, waits_on. simpl. destruct (ts !! x) as [t|] eqn:Et; [|done]. simpl.
    destruct (Hlink x t Et) as (_ & -> & _). done. }
  assert (∀ x t, ts !! x = Some t → prio (boot ts ms slab current counts) x = m_base_priority t) as Hp.
  { intros x t Et. destruct (Hm x t Et) as (_ & m & Em & _ & <-). unfold prio. simpl. by rewrite Em. }
  split; [split|].
  - split; simpl.
    + intros x t l Et. destruct (Hlink x t Et) as (-> & _). split; [by intros ?%not_elem_of_nil|]. by intros (? & ? & _).
    + intros x t Et. destruct (Hlink x t Et) as (-> & _). constructor.
    + done.
    + intros w t l Et. by destruct (Hlink w t Et) as (_ & -> & _).
    + done.
    + done.
    + intros x t Et. destruct (Hlink x t Et) as (_ & _ & ->). exists ∅. split; [|by rewrite size_empty].
      intros w. split; [set_solver|]. intros [Hx _]. change (waits (boot ts ms slab current counts) w = Some x) in Hx.
      by rewrite Hw in Hx.
    + by split.
    + rewrite map_size_empty. lia.
    + done.
  - split; simpl; try done. intros x t c Et Ec. destruct (Hf x t Et) as (_ & Hc & _). congruence.
  - split.
    + intros x t Et. destruct (Hm x t Et) as (Hx & m & Em & Hi & _). exists m. split_and!; try done.
      intros _. split; [done|]. destruct (Hf x t Et) as (_ & _ & _ & ?). lia.
    + exists empty_table, ∅. split_and!; try done. intros x i. split; [done|].
      intros (t & m & Et & _ & Hs & _). by destruct (Hf x t Et) as (_ & _ & ? & _).
    + intros x t Et Hn'. by destruct (Hpar x t Et) as [|].
  - intros x t Et. rewrite (Hp x t Et). destruct (Hf x t Et) as (_ & _ & _ & ?). lia.
  - intros x [t Et]. exists t. split; [done|]. rewrite (Hp x t Et). split_and!; [done| |by left].
    intros w Hw'. by rewrite Hw in Hw'.
Qed.

(** * Properties *)

(** C7: from a state in order, every sequence of the operations on waiters, priorities, states
    and waits, each called as its callers may, leads to a state in order, in which each of the
    operations returns: no assertion fails, no pointer is null, no lock info is lacking and
    the inheritance of priorities ends, also when threads wait for each other in a circle. In
    order means: threads, locks and waiters agree, waiters are sorted, the counts of waiters
    are right, the scheduler's queue holds the runnable threads with their priorities, and
    every thread has the priority it should have. *)
Theorem threads_stay_sane k0 k :
  sane k0 → rtc thread_step k0 k → sane k ∧ ∀ op, allowed op k → is_Some (perform op k).
Proof.
  intros H0 H. pose proof (steps_sane k0 k H H0) as Hk. split; [done|]. intros op Ha. destruct (perform_ok op k Hk Ha) as (k' & -> & _). by eexists.
Qed.

(** C8: after every sequence of the operations on waiters, priorities, states and waits from a
    state in order, a thread's priority is a number at most the base priority of each thread
    that waits for it, directly or through others (a lower number is a higher priority); and
    unless threads wait for each other in a circle, it is the base priority of one of those
    threads or its own, so it is exactly the highest of them: each operation has restored it
    for every thread whose waiters it changed, through the whole chain of lock owners. *)
Theorem effective_priority k0 k x t :
  sane k0 → rtc thread_step k0 k → threads k !! x = Some t →
  GetPriority x k = Some (prio k x)
  ∧ (∀ y b, rtc (waits_for k) y x → base_of k y b → prio k x ≤ b)
  ∧ ((∀ y, ¬ tc (waits_for k) y y) → ∃ y, rtc (waits_for k) y x ∧ base_of k y (prio k x)).
Proof.
  intros H0 Hsteps Et. pose proof (steps_sane k0 k Hsteps H0) as Hk. split; [eapply GetPriority_ok; [apply Hk|done]|]. split.
  - intros y b Hy (ty & Ey & ->). pose proof (not_above_waiters k y x Hk Hy ltac:(by exists t)).
    destruct (sn_inherits k Hk y) as (ty' & Ey' & Hb & _); [by exists ty|]. rewrite Ey in Ey'. injection Ey' as <-. lia.
  - apply inherited_from; [done|by exists t].
Qed.

(** C9: releasing a lock by its key hands the lock to the waiter with the highest priority and
    returns it: that thread becomes the owner and no longer waits for the lock, all other
    waiters of the lock now wait for it and no other thread's wait changes, [has_waiters]
    says whether there are any, and every priority is right afterwards. It does not wake the
    new owner: no thread's state, wait queue or wait result changes, which is left to the
    caller. When the thread holds no lock with the key, nothing happens and there is no next
    owner. *)
Theorem RemoveWaiterByKey_hands_over k x t key b :
  sane k → threads k !! x = Some t →
  (RemoveWaiterByKey x key b k = Some (None, false, k)
   ∧ ∀ l li, lock_infos k !! l = Some li → li_owner li = x →
       ¬ (li_address_key li = key ∧ li_is_kernel_address_key li = b))
  ∨ ∃ l li o rest k', lock_infos k !! l = Some li ∧ li_owner li = x ∧ li_address_key li = key
    ∧ li_is_kernel_address_key li = b ∧ li_tree li = o :: rest ∧ (∀ w, w ∈ rest → prio k o ≤ prio k w)
    ∧ RemoveWaiterByKey x key b k = Some (Some o, negb (bool_decide (rest = [])), k')
    ∧ sane k' ∧ same_core (threads k) (threads k')
    ∧ ∀ y, waits k' y = if decide (y = o) then None else if decide (y ∈ rest) then Some o else waits k y.
Proof.
  intros Hk Et. pose proof (ko_locks k (sn_ok k Hk)) as L.
  destruct (FindHeldLock_ok k x t key b L Et) as ([l|] & E & Ho).
  - right. destruct (RemoveWaiterByKey_rewired k x t l key b Hk Et E) as (li & o & rest & k' & El & Ex & Etr & Er & [Hs Hc Hw]).
    destruct (Ho l eq_refl) as (_ & li' & El' & _ & Hkey & Hb). rewrite El in El'. injection El' as <-.
    exists l, li, o, rest, k'. split_and!; try done.
    destruct (lk_info _ _ _ _ L l li El) as [_ _ _ Hsort]. rewrite Etr in Hsort.
    apply Sorted.StronglySorted_inv in Hsort as [_ Hsort]. by rewrite Forall_forall in Hsort.
  - left. split; [by apply RemoveWaiterByKey_None|]. intros l li El Ex. unfold FindHeldLock in E. rewrite Et in E.
    cbn [mbind option_bind] in E. eapply find_lock_none; [exact E| |done]. apply (lk_held _ _ _ _ L x t l Et). by exists li.
Qed.

(** C10: cancelling the wait of a thread, by a time-out or otherwise, makes it runnable with the
    given result and without a wait queue, its suspensions as they were; it leaves the owner
    of the lock it waited for and the tree of the condition variable or address arbiter it
    waited on, no other thread is touched but for its priority, and every priority is right
    afterwards. *)
Theorem CancelWait_wakes k x t r cancel_timer_task :
  sane k → threads k !! x = Some t → GetState t = ThreadState.Waiting → waits_well k x t →
  ∃ k' q, CancelWait x r cancel_timer_task k = Some k' ∧ m_wait_queue t = Some q ∧ cancelled k k' x r t q.
Proof.
  intros Hk Et Hs Hw. destruct (CancelWait_ok k x t r cancel_timer_task Hk Et (λ _, Hw)) as (k' & E & H).
  rewrite Hs, Z.eqb_refl in H. destruct H as (q & Eq & H). by exists k', q.
Qed.

(** A request to suspend a thread, followed by the resumption, gives back the thread as it
    was; in between the thread is not in the scheduler's queue, unless kernel waiters wait for
    it, which keep it running, or it does not allow this kind of suspension. *)
Theorem suspend_resume_roundtrip k x t type :
  sane k → threads k !! x = Some t → 0 ≤ type < 12 → in_width 32 (m_suspend_request_flags t) →
  Z.testbit (m_suspend_request_flags t) (ThreadState.SuspendShift + type) = false →
  Z.land (m_suspend_allowed_flags t) ThreadState.Mask = 0 → m_thread_state t = suspended_state t →
  ∃ k1 k2, RequestSuspend x type k = Some k1 ∧ Resume x type k1 = Some k2 ∧ sane k1 ∧ sane k2
    ∧ threads k2 = threads k
    ∧ (m_num_kernel_waiters t = 0 → Z.testbit (m_suspend_allowed_flags t) (ThreadState.SuspendShift + type) = true →
       ∀ i, ¬ queued k1 x i)
    ∧ (0 < m_num_kernel_waiters t → m_thread_state <$> threads k1 !! x = Some (m_thread_state t)).
Proof.
  intros Hk Et Hty Hw Hbit Hal Hst. destruct (RequestSuspend_only k x t type Hk Et) as (k1 & E1 & H1); [lia|].
  set (flags := Z.lor (m_suspend_request_flags t) (Z.shiftl 1 (ThreadState.SuspendShift + type))) in *.
  assert (Z.testbit flags (ThreadState.SuspendShift + type) = true) as Hf.
  { unfold flags, ThreadState.SuspendShift in *. rewrite lor_bit_testbit by lia. by rewrite bool_decide_eq_true_2. }
  set (t1 := if 0 <? m_num_kernel_waiters t then request flags t else in_state (suspended_state (request flags t)) (request flags t)) in *.
  assert (threads k1 !! x = Some t1) as Et1 by by rewrite (only_lookup _ _ _ _ x H1), decide_True.
  destruct (Resume_only k1 x t1 type (on_sane _ _ _ _ H1) Et1) as (k2 & E2 & H2). exists k1, k2.
  pose proof (only_trans _ _ _ _ _ _ H1 H2) as [Hs2 Ht2 _ _ _].
  split_and!; try done; [apply H1| | |].
  - rewrite Ht2. apply insert_id. rewrite Et. f_equal.
    assert (m_suspend_request_flags t1 = flags) as -> by (unfold t1; by destruct (_ <? _)).
    unfold flags. rewrite request_there by done.
    assert (Z.land (m_thread_state t1) ThreadState.Mask = Z.land (m_thread_state t) ThreadState.Mask) as Hm1.
    { unfold t1. destruct (_ <? _); [done|]. by apply (suspended_state_land (request flags t)). }
    replace (suspended_state (request (m_suspend_request_flags t) t1)) with (m_thread_state t).
    + unfold t1. by destruct (_ <? _), t.
    + rewrite Hst. unfold suspended_state, GetSuspendFlags. simpl. rewrite Hm1. unfold t1. by destruct (_ <? _).
  - intros Hn Hal' i. eapply not_queued; [exact Et1|]. unfold t1. rewrite Hn. simpl.
    by apply (suspended_not_runnable (request flags t) type).
  - intros Hn%Z.ltb_lt. rewrite Et1. simpl. unfold t1. by rewrite Hn.
Qed.

(** * Four threads *)
Definition new_thread (base key : Z) : KThread :=
  MkThread base ThreadState.Initialized 0 1008 false false true 0 None key 0 false None 0 [] None 0 0.
Definition four_threads : gmap Z KThread :=
  {[1 := new_thread 44 0; 2 := new_thread 30 4096; 3 := new_thread 20 4096; 4 := new_thread 10 8192]}.
Definition four_members : gmap Z Member :=
  {[1 := thread 44 0 3; 2 := thread 30 0 1; 3 := thread 20 1 2; 4 := thread 10 1 15]}.
Definition kernel0 : Kernel := boot four_threads four_members [101; 102; 103; 104] 1 ∅.

Ltac each_entry H :=
  repeat (apply lookup_insert_Some in H as [[<- <-]|[_ H]]); try apply lookup_singleton_Some in H as [<- <-].
Ltac each_thread H := unfold four_threads, four_members in H; each_entry H.

Lemma kernel0_sane : sane kernel0.
Proof.
  apply boot_sane; try done.
  - intros x t H. each_thread H; split_and!; (done || lia || (simpl; lia)).
  - intros x m H. by each_thread H.
  - intros x t H. each_thread H; split; try done; eexists; (split; [reflexivity|]); split; try done; by apply thread_info_ok.
  - intros x t H. left. by each_thread H.
  - apply (bool_decide_unpack _). reflexivity.
Qed.

(** Thread 1 is runnable and holds the lock that 2 and 3 wait for, 3 the one that 4 waits for. *)
Definition after (op : ThreadOp) (k : Kernel) : Kernel := default k (perform op k).
Definition kernel1 : Kernel := after (OpSetState 1 ThreadState.Runnable) kernel0.
Definition kernel2 : Kernel := after (OpAddWaiter 1 2) kernel1.
Definition kernel3 : Kernel := after (OpAddWaiter 1 3) kernel2.
Definition kernel4 : Kernel := after (OpAddWaiter 3 4) kernel3.
Definition kernel5 : Kernel := after (OpBeginWait 4 (MkQueue WaitForAddress true)) kernel4.

Lemma after_step op k : allowed op k → is_Some (perform op k) → thread_step k (after op k).
Proof. intros Ha [k' E]. exists op. split; [done|]. unfold after. by rewrite E. Qed.

Lemma runnable_sane k x : sane k → is_Some (threads k !! x) → sane (after (OpSetState x ThreadState.Runnable) k).
Proof.
  intros Hk Hx. destruct (perform_ok (OpSetState x ThreadState.Runnable) k Hk Hx) as (k' & E & Hk'). unfold after. by rewrite E.
Qed.

Ltac by_eval := apply (bool_decide_unpack _); vm_compute; exact I.
Ltac by_lookup := eexists; split; [vm_compute; reflexivity|reflexivity].

Lemma kernel_steps :
  thread_step kernel0 kernel1 ∧ thread_step kernel1 kernel2 ∧ thread_step kernel2 kernel3
  ∧ thread_step kernel3 kernel4 ∧ thread_step kernel4 kernel5.
Proof.
  split_and!; apply after_step; try by_eval; repeat split; first [by_eval|by_lookup].
Qed.

Lemma kernel5_reached : rtc thread_step kernel0 kernel4 ∧ rtc thread_step kernel0 kernel5.
Proof.
  destruct kernel_steps as (H1 & H2 & H3 & H4 & H5).
  assert (rtc thread_step kernel0 kernel4) as H by exact (rtc_l _ _ _ _ H1 (rtc_l _ _ _ _ H2 (rtc_l _ _ _ _ H3 (rtc_once _ _ H4)))).
  split; [exact H|exact (rtc_r _ _ _ H H5)].
Qed.

Lemma kernels_sane : sane kernel1 ∧ sane kernel4 ∧ sane kernel5.
Proof.
  split_and!; (eapply steps_sane; [|exact kernel0_sane]); [apply rtc_once, kernel_steps|apply kernel5_reached..].
Qed.

Example priorities_inherited :
  map (λ x, GetPriority x kernel4) [1; 2; 3; 4] = [Some 10; Some 30; Some 10; Some 10].
Proof. vm_compute. reflexivity. Qed.

Lemma threads_stay_sane_witness : sane kernel5 ∧ ∀ op, allowed op kernel5 → is_Some (perform op kernel5).
Proof.
  apply (threads_stay_sane kernel0 kernel5).
  - exact kernel0_sane.
  - exact (proj2 kernel5_reached).
Defined.

Definition thread_of (x : Z) (k : Kernel) : KThread := default (new_thread 0 0) (threads k !! x).

Lemma effective_priority_witness :
  GetPriority 1 kernel4 = Some (prio kernel4 1)
  ∧ (∀ y b, rtc (waits_for kernel4) y 1 → base_of kernel4 y b → prio kernel4 1 ≤ b)
  ∧ ((∀ y, ¬ tc (waits_for kernel4) y y) → ∃ y, rtc (waits_for kernel4) y 1 ∧ base_of kernel4 y (prio kernel4 1)).
Proof.
  apply (effective_priority kernel0 kernel4 1 (thread_of 1 kernel4)).
  - exact kernel0_sane.
  - exact (proj1 kernel5_reached).
  - vm_compute. reflexivity.
Defined.

Lemma RemoveWaiterByKey_hands_over_witness :
  (RemoveWaiterByKey 1 4096 false kernel4 = Some (None, false, kernel4)
   ∧ ∀ l li, lock_infos kernel4 !! l = Some li → li_owner li = 1 →
       ¬ (li_address_key li = 4096 ∧ li_is_kernel_address_key li = false))
  ∨ ∃ l li o rest k', lock_infos kernel4 !! l = Some li ∧ li_owner li = 1 ∧ li_address_key li = 4096
    ∧ li_is_kernel_address_key li = false ∧ li_tree li = o :: rest ∧ (∀ w, w ∈ rest → prio kernel4 o ≤ prio kernel4 w)
    ∧ RemoveWaiterByKey 1 4096 false kernel4 = Some (Some o, negb (bool_decide (rest = [])), k')
    ∧ sane k' ∧ same_core (threads kernel4) (threads k')
    ∧ ∀ y, waits k' y = if decide (y = o) then None else if decide (y ∈ rest) then Some o else waits kernel4 y.
Proof.
  apply (RemoveWaiterByKey_hands_over kernel4 1 (thread_of 1 kernel4) 4096 false);
    [apply kernels_sane|vm_compute; reflexivity].
Defined.

Example lock_handed_over :
  (λ '(o, more, k'), (o, more, map (λ x, GetPriority x k') [1; 2; 3; 4], waits k' 2))
    <$> RemoveWaiterByKey 1 4096 false kernel4
  = Some (Some 3, true, [Some 44; Some 30; Some 10; Some 10], Some 3).
Proof. vm_compute. reflexivity. Qed.

Lemma CancelWait_wakes_witness :
  ∃ k' q, CancelWait 4 ResultTimedOut true kernel5 = Some k' ∧ m_wait_queue (thread_of 4 kernel5) = Some q
    ∧ cancelled kernel5 k' 4 ResultTimedOut (thread_of 4 kernel5) q.
Proof.
  apply (CancelWait_wakes kernel5 4 (thread_of 4 kernel5)); [apply kernels_sane|vm_compute; reflexivity..|].
  exists (MkQueue WaitForAddress true). split; vm_compute; reflexivity.
Defined.

Lemma suspend_resume_roundtrip_witness :
  ∃ k1 k2, RequestSuspend 1 1 kernel4 = Some k1 ∧ Resume 1 1 k1 = Some k2 ∧ sane k1 ∧ sane k2
    ∧ threads k2 = threads kernel4
    ∧ (m_num_kernel_waiters (thread_of 1 kernel4) = 0 →
       Z.testbit (m_suspend_allowed_flags (thread_of 1 kernel4)) (ThreadState.SuspendShift + 1) = true →
       ∀ i, ¬ queued k1 1 i)
    ∧ (0 < m_num_kernel_waiters (thread_of 1 kernel4) →
       m_thread_state <$> threads k1 !! 1 = Some (m_thread_state (thread_of 1 kernel4))).
Proof.
  apply (suspend_resume_roundtrip kernel4 1 (thread_of 1 kernel4) 1); [apply kernels_sane|vm_compute; reflexivity|lia| |vm_compute; reflexivity..].
  by split.
Defined.
