(* ===== verification/Scheduler.v ===== *)
(** The schedulers of the four cores: which thread each should run, the migration of threads
    to idle cores, the rotation of the queues and what a thread that yields gives way to
    (src/src/core/hle/kernel/k_scheduler.cpp and .h, global_scheduler_context.cpp and .h, the
    scheduling fields of k_thread.h and k_process.h).

    The state joins the threads and the queue of Thread.v with one [KScheduler] for each core.
    A pointer to a thread is a number, 0 for the null pointer. What only the schedulers use of
    a thread or of a process is a record of the same number. *)
From S2P Require Import Prelude Common Results PriorityQueue Thread.

Definition HighestCoreMigrationAllowedPriority : Z := 2.

(** * Data *)

(** The fields of a [KThread] that only the schedulers use. *)
Record SchedThread := MkSchedThread {
  m_schedule_count : Z;
  m_last_scheduled_tick : Z;
  m_current_core_id : Z;
  m_cpu_time : Z;
  disable_count : Z;
  m_dummy_thread_runnable : bool
}.

(** The fields of a [KProcess] that the schedulers use, but for its schedule count, which is
    in [schedule_counts]. *)
Record KProcess := MkProcess {
  m_pinned_threads : list Z;
  m_running_threads : list Z;
  m_running_thread_idle_counts : list Z;
  m_running_thread_switch_counts : list Z;
  process_cpu_time : Z
}.

Record KScheduler := MkScheduler {
  needs_scheduling : bool;
  interrupt_task_runnable : bool;
  should_count_idle : bool;
  idle_count : Z;
  highest_priority_thread : Z;
  prev_thread : Z;
  m_core_id : Z;
  m_last_context_switch_time : Z;
  m_idle_thread : Z;
  m_current_thread : Z
}.

(** The constructor. *)
Definition KScheduler_new : KScheduler := MkScheduler true false false 0 0 0 0 0 0 0.
(** [Initialize] *)
Definition KScheduler_Initialize (main_thread idle_thread core_id : Z) (s : KScheduler) : KScheduler :=
  MkScheduler (needs_scheduling s) (interrupt_task_runnable s) (should_count_idle s) (idle_count s)
    (highest_priority_thread s) (prev_thread s) core_id (m_last_context_switch_time s) idle_thread
    main_thread.

(** [readings] counts the readings of the clock; [interrupts] is the set of cores that were
    sent an interrupt. *)
Record Machine := MkMachine {
  m_kernel : Kernel;
  schedulers : list KScheduler;
  sched_threads : gmap Z SchedThread;
  processes : gmap Z KProcess;
  readings : nat;
  interrupts : gset Z
}.

Definition with_kernel (k : Kernel) (m : Machine) : Machine :=
  MkMachine k (schedulers m) (sched_threads m) (processes m) (readings m) (interrupts m).
Definition with_schedulers (ss : list KScheduler) (m : Machine) : Machine :=
  MkMachine (m_kernel m) ss (sched_threads m) (processes m) (readings m) (interrupts m).
Definition with_sched_threads (ts : gmap Z SchedThread) (m : Machine) : Machine :=
  MkMachine (m_kernel m) (schedulers m) ts (processes m) (readings m) (interrupts m).
Definition with_processes (ps : gmap Z KProcess) (m : Machine) : Machine :=
  MkMachine (m_kernel m) (schedulers m) (sched_threads m) ps (readings m) (interrupts m).
Definition with_readings (n : nat) (m : Machine) : Machine :=
  MkMachine (m_kernel m) (schedulers m) (sched_threads m) (processes m) n (interrupts m).
Definition with_interrupts (s : gset Z) (m : Machine) : Machine :=
  MkMachine (m_kernel m) (schedulers m) (sched_threads m) (processes m) (readings m) s.

Definition queue_of (m : Machine) : PriorityQueue.State := priority_queue (m_kernel m).

Definition on_kernel (f : Kernel → option Kernel) (m : Machine) : option Machine :=
  k ← f (m_kernel m); Some (with_kernel k m).
Definition on_scheduler (core : Z) (f : KScheduler → KScheduler) (m : Machine) : option Machine :=
  s ← at_ (schedulers m) core;
  ss ← set_at (schedulers m) core (f s);
  Some (with_schedulers ss m).
Definition on_sched_thread (x : Z) (f : SchedThread → SchedThread) (m : Machine) : option Machine :=
  t ← sched_threads m !! x; Some (with_sched_threads (<[x := f t]> (sched_threads m)) m).
Definition on_process (p : Z) (f : KProcess → option KProcess) (m : Machine) : option Machine :=
  pr ← processes m !! p; pr ← f pr; Some (with_processes (<[p := pr]> (processes m)) m).

Definition set_needs_scheduling (b : bool) (s : KScheduler) : KScheduler :=
  MkScheduler b (interrupt_task_runnable s) (should_count_idle s) (idle_count s)
    (highest_priority_thread s) (prev_thread s) (m_core_id s) (m_last_context_switch_time s)
    (m_idle_thread s) (m_current_thread s).
Definition set_interrupt_task (s : KScheduler) : KScheduler :=
  MkScheduler true true (should_count_idle s) (idle_count s) (highest_priority_thread s)
    (prev_thread s) (m_core_id s) (m_last_context_switch_time s) (m_idle_thread s) (m_current_thread s).
Definition set_idle_count (n : Z) (s : KScheduler) : KScheduler :=
  MkScheduler (needs_scheduling s) (interrupt_task_runnable s) (should_count_idle s) n
    (highest_priority_thread s) (prev_thread s) (m_core_id s) (m_last_context_switch_time s)
    (m_idle_thread s) (m_current_thread s).
Definition set_highest (x : Z) (s : KScheduler) : KScheduler :=
  MkScheduler true (interrupt_task_runnable s) (should_count_idle s) (idle_count s) x
    (prev_thread s) (m_core_id s) (m_last_context_switch_time s) (m_idle_thread s) (m_current_thread s).
Definition set_prev_thread (x : Z) (s : KScheduler) : KScheduler :=
  MkScheduler (needs_scheduling s) (interrupt_task_runnable s) (should_count_idle s) (idle_count s)
    (highest_priority_thread s) x (m_core_id s) (m_last_context_switch_time s) (m_idle_thread s)
    (m_current_thread s).
Definition set_switch_time (tick : Z) (s : KScheduler) : KScheduler :=
  MkScheduler (needs_scheduling s) (interrupt_task_runnable s) (should_count_idle s) (idle_count s)
    (highest_priority_thread s) (prev_thread s) (m_core_id s) tick (m_idle_thread s) (m_current_thread s).
Definition set_current (x : Z) (s : KScheduler) : KScheduler :=
  MkScheduler (needs_scheduling s) (interrupt_task_runnable s) (should_count_idle s) (idle_count s)
    (highest_priority_thread s) (prev_thread s) (m_core_id s) (m_last_context_switch_time s)
    (m_idle_thread s) x.

Definition SetYieldScheduleCount (n : Z) (t : SchedThread) : SchedThread :=
  MkSchedThread n (m_last_scheduled_tick t) (m_current_core_id t) (m_cpu_time t) (disable_count t)
    (m_dummy_thread_runnable t).
Definition SetLastScheduledTick (tick : Z) (t : SchedThread) : SchedThread :=
  MkSchedThread (m_schedule_count t) tick (m_current_core_id t) (m_cpu_time t) (disable_count t)
    (m_dummy_thread_runnable t).
Definition SetCurrentCore (core : Z) (t : SchedThread) : SchedThread :=
  MkSchedThread (m_schedule_count t) (m_last_scheduled_tick t) core (m_cpu_time t) (disable_count t)
    (m_dummy_thread_runnable t).
Definition AddCpuTime (amount : Z) (t : SchedThread) : SchedThread :=
  MkSchedThread (m_schedule_count t) (m_last_scheduled_tick t) (m_current_core_id t)
    (s64 (m_cpu_time t + amount)) (disable_count t) (m_dummy_thread_runnable t).
Definition set_disable_count (n : Z) (t : SchedThread) : SchedThread :=
  MkSchedThread (m_schedule_count t) (m_last_scheduled_tick t) (m_current_core_id t) (m_cpu_time t) n
    (m_dummy_thread_runnable t).
Definition set_dummy_runnable (b : bool) (t : SchedThread) : SchedThread :=
  MkSchedThread (m_schedule_count t) (m_last_scheduled_tick t) (m_current_core_id t) (m_cpu_time t)
    (disable_count t) b.

(** * Processes *)
Definition GetPinnedThread (p core : Z) (m : Machine) : option Z :=
  check ((0 <=? core) && (core <? NumCores));;
  pr ← processes m !! p; at_ (m_pinned_threads pr) core.

Definition SetRunningThread (p core thread idle_count switch_count : Z) (m : Machine) : option Machine :=
  on_process p (λ pr,
    running ← set_at (m_running_threads pr) core thread;
    idle ← set_at (m_running_thread_idle_counts pr) core idle_count;
    switch ← set_at (m_running_thread_switch_counts pr) core switch_count;
    Some (MkProcess (m_pinned_threads pr) running idle switch (process_cpu_time pr))) m.

(** [process->AddCpuTime] *)
Definition process_AddCpuTime (p diff : Z) (m : Machine) : option Machine :=
  on_process p (λ pr, Some (MkProcess (m_pinned_threads pr) (m_running_threads pr)
    (m_running_thread_idle_counts pr) (m_running_thread_switch_counts pr)
    (s64 (process_cpu_time pr + diff)))) m.

Definition SetActiveCore (x core : Z) (k : Kernel) : option Kernel :=
  let q := priority_queue k in
  m ← members q !! x;
  let m := {| GetAffinityMask := GetAffinityMask m; GetActiveCore := core;
              PriorityQueue.GetPriority := PriorityQueue.GetPriority m; IsDummyThread := IsDummyThread m;
              m_per_core_priority_queue_entry := m_per_core_priority_queue_entry m |} in
  Some (with_queue {| m_scheduled_queue := m_scheduled_queue q; m_suggested_queue := m_suggested_queue q;
                      members := <[x := m]> (members q) |} k).

(** [x->SetActiveCore(core); priority_queue.ChangeCore(prev_core, x, to_front)] *)
Definition move_to_core (prev_core core x : Z) (to_front : bool) (k : Kernel) : option Kernel :=
  k ← SetActiveCore x core k;
  q ← ChangeCore prev_core x to_front (priority_queue k);
  Some (with_queue q k).

(** The thread of [tops] at [core], and null for a negative core. *)
Definition top_at (tops : list Z) (core : Z) : option Z :=
  if 0 <=? core then at_ tops core else Some 0.

(** [t != nullptr && t->GetPriority() < HighestCoreMigrationAllowedPriority] *)
Definition too_high_to_migrate (t : Z) (k : Kernel) : option bool :=
  if negb (t =? 0) then p ← GetPriority t k; Some (p <? HighestCoreMigrationAllowedPriority)
  else Some false.

Definition ClearSchedulerUpdateNeeded (k : Kernel) : Kernel :=
  with_scheduler false (m_woken_dummy_threads k) (schedule_counts k) k.

(** Every thread is suggested at most once for a core. *)
Definition suggest_fuel (m : Machine) : nat := S (size (members (queue_of m))).

(** * Changes of the affinity *)
Definition OnThreadAffinityMaskChanged (x old_affinity old_core : Z) (k : Kernel) : option Kernel :=
  t ← threads k !! x;
  if m_thread_state t =? ThreadState.Runnable then
    q ← ChangeAffinityMask old_core old_affinity x (priority_queue k);
    k ← IncrementScheduledCount x (with_queue q k);
    Some (SetSchedulerUpdateNeeded k)
  else Some k.

(** * Migrations on request *)

(** [(core >= 0) ? priority_queue.GetScheduledFront(core) : nullptr] *)
Definition front_or_null (core : Z) (k : Kernel) : option Z :=
  if 0 <=? core then GetScheduledFront core (priority_queue k) else Some 0.

(** The suggestion moves to the front, or to the back, of its priority on [core]. *)
Definition take_suggestion (suggested_core core suggested : Z) (to_front : bool) (m : Machine) : option Machine :=
  m ← on_kernel (move_to_core suggested_core core suggested to_front) m;
  on_kernel (IncrementScheduledCount suggested) m.

(** [a->GetLastScheduledTick() < b->GetLastScheduledTick()] *)
Definition waited_longer (a b : Z) (m : Machine) : option bool :=
  ta ← sched_threads m !! a;
  tb ← sched_threads m !! b;
  Some (m_last_scheduled_tick ta <? m_last_scheduled_tick tb).

(** ** RotateScheduledQueue *)
Definition rotate_front (core priority : Z) (k : Kernel) : option (Z * Z * Kernel) :=
  top_thread ← GetScheduledFront_priority core priority (priority_queue k);
  if negb (top_thread =? 0) then
    '(next_thread, q) ← MoveToScheduledBack top_thread (priority_queue k);
    k ← (if negb (next_thread =? top_thread) then
           k ← IncrementScheduledCount top_thread (with_queue q k);
           IncrementScheduledCount next_thread k
         else Some (with_queue q k));
    Some (top_thread, next_thread, k)
  else Some (top_thread, 0, k).

Fixpoint rotate_same (fuel : nat) (core top_thread next_thread suggested : Z) (m : Machine) : option Machine :=
  match fuel with
  | O => None
  | S fuel =>
      if suggested =? 0 then Some m
      else
        s ← members (queue_of m) !! suggested;
        let suggested_core := GetActiveCore s in
        top_on_suggested_core ← front_or_null suggested_core (m_kernel m);
        let continue m :=
          next ← GetSamePriorityNext core suggested (queue_of m);
          rotate_same fuel core top_thread next_thread next m in
        if negb (top_on_suggested_core =? suggested) then
          prefer_next ← (if negb (top_thread =? next_thread) && negb (next_thread =? 0)
                         then waited_longer next_thread suggested m else Some false);
          if (prefer_next : bool) then Some m
          else
            high ← too_high_to_migrate top_on_suggested_core (m_kernel m);
            if negb high then take_suggestion suggested_core core suggested true m
            else continue m
        else continue m
  end.

Fixpoint rotate_better (fuel : nat) (core best_thread suggested : Z) (m : Machine) : option Machine :=
  match fuel with
  | O => None
  | S fuel =>
      if suggested =? 0 then Some m
      else
        s ← members (queue_of m) !! suggested;
        best ← members (queue_of m) !! best_thread;
        if PriorityQueue.GetPriority best <=? PriorityQueue.GetPriority s then Some m
        else
          let suggested_core := GetActiveCore s in
          top_on_suggested_core ← front_or_null suggested_core (m_kernel m);
          let continue m :=
            next ← GetSuggestedNext core suggested (queue_of m);
            rotate_better fuel core best_thread next m in
          if negb (top_on_suggested_core =? suggested) then
            high ← too_high_to_migrate top_on_suggested_core (m_kernel m);
            if negb high then take_suggestion suggested_core core suggested true m
            else continue m
          else continue m
  end.

(** The best thread of the core other than the calling one. *)
Definition best_on_core (core : Z) (k : Kernel) : option Z :=
  best_thread ← GetScheduledFront core (priority_queue k);
  if best_thread =? cur_thread k then GetScheduledNext core best_thread (priority_queue k)
  else Some best_thread.

Definition RotateScheduledQueue (core priority : Z) (m : Machine) : option Machine :=
  '(top_thread, next_thread, k) ← rotate_front core priority (m_kernel m);
  let m := with_kernel k m in
  suggested ← GetSuggestedFront_priority core priority (queue_of m);
  m ← rotate_same (suggest_fuel m) core top_thread next_thread suggested m;
  best_thread ← best_on_core core (m_kernel m);
  best_is_worse ← (if negb (best_thread =? 0) then p ← GetPriority best_thread (m_kernel m); Some (priority <=? p)
                   else Some false);
  m ← (if (best_is_worse : bool) then
         suggested ← GetSuggestedFront core (queue_of m);
         rotate_better (suggest_fuel m) core best_thread suggested m
       else Some m);
  Some (with_kernel (SetSchedulerUpdateNeeded (m_kernel m)) m).

(** ** PreemptThreads *)
Definition preemption_priorities : list Z := [59; 59; 59; 63].

Fixpoint preempt_loop (core : Z) (priorities : list Z) (m : Machine) : option Machine :=
  match priorities with
  | [] => Some m
  | priority :: priorities => m ← RotateScheduledQueue core priority m; preempt_loop (core + 1) priorities m
  end.
Definition PreemptThreads (m : Machine) : option Machine := preempt_loop 0 preemption_priorities m.

(** ** What a thread that yields does with the lock held *)

(** The current thread yields in vain until its process is scheduled again. *)
Definition record_yield (m : Machine) : option Machine :=
  let cur := cur_thread (m_kernel m) in
  t ← threads (m_kernel m) !! cur;
  count ← schedule_counts (m_kernel m) !! m_parent t;
  on_sched_thread cur (SetYieldScheduleCount count) m.

Definition set_update_needed (m : Machine) : Machine := with_kernel (SetSchedulerUpdateNeeded (m_kernel m)) m.

(** The current thread goes to the back of its queue; the result is the next thread. *)
Definition yield_back (m : Machine) : option (Z * Machine) :=
  let cur := cur_thread (m_kernel m) in
  '(next_thread, q) ← MoveToScheduledBack cur (queue_of m);
  k ← IncrementScheduledCount cur (with_queue q (m_kernel m));
  Some (next_thread, with_kernel k m).

Definition WithoutCoreMigration_locked (m : Machine) : option Machine :=
  let cur := cur_thread (m_kernel m) in
  t ← threads (m_kernel m) !! cur;
  if m_thread_state t =? ThreadState.Runnable then
    '(next_thread, m) ← yield_back m;
    if negb (next_thread =? cur) then Some (set_update_needed m) else record_yield m
  else Some m.

(** The walk over the suggestions: the one that was taken or null, and whether to check again. *)
Fixpoint yield_suggestions (fuel : nat) (core next_thread suggested : Z) (recheck : bool) (m : Machine)
    : option (Z * bool * Machine) :=
  match fuel with
  | O => None
  | S fuel =>
      if suggested =? 0 then Some (suggested, recheck, m)
      else
        let cur := cur_thread (m_kernel m) in
        s ← members (queue_of m) !! suggested;
        c ← members (queue_of m) !! cur;
        let suggested_core := GetActiveCore s in
        running ← (if 0 <=? suggested_core then
                     s ← at_ (schedulers m) suggested_core; Some (highest_priority_thread s)
                   else Some 0);
        let continue recheck :=
          next ← GetSuggestedNext core suggested (queue_of m);
          yield_suggestions fuel core next_thread next recheck m in
        if negb (running =? suggested) then
          prefer_next ← (if PriorityQueue.GetPriority c <? PriorityQueue.GetPriority s then Some true
                         else if (PriorityQueue.GetPriority s =? PriorityQueue.GetPriority c)
                                 && negb (next_thread =? cur) then waited_longer next_thread suggested m
                         else Some false);
          if (prefer_next : bool) then Some (0, recheck, m)
          else
            high ← too_high_to_migrate running (m_kernel m);
            if negb high then
              m ← take_suggestion suggested_core core suggested true m;
              Some (suggested, recheck, m)
            else continue true
        else continue recheck
  end.

Definition WithCoreMigration_locked (m : Machine) : option Machine :=
  let cur := cur_thread (m_kernel m) in
  t ← threads (m_kernel m) !! cur;
  if m_thread_state t =? ThreadState.Runnable then
    c ← members (queue_of m) !! cur;
    let core := GetActiveCore c in
    '(next_thread, m) ← yield_back m;
    suggested ← GetSuggestedFront core (queue_of m);
    '(suggested, recheck, m) ← yield_suggestions (suggest_fuel m) core next_thread suggested false m;
    if negb (suggested =? 0) || negb (next_thread =? cur) then Some (set_update_needed m)
    else if negb recheck then record_yield m
    else Some m
  else Some m.

(** The walk over the suggestions for the core that the current thread has left: the thread at
    which it stopped. *)
Fixpoint any_suggestions (fuel : nat) (core suggested : Z) (m : Machine) : option (Z * Machine) :=
  match fuel with
  | O => None
  | S fuel =>
      if suggested =? 0 then Some (suggested, m)
      else
        s ← members (queue_of m) !! suggested;
        let suggested_core := GetActiveCore s in
        top_on_suggested_core ← front_or_null suggested_core (m_kernel m);
        if negb (top_on_suggested_core =? suggested) then
          high ← too_high_to_migrate top_on_suggested_core (m_kernel m);
          m ← (if negb high then take_suggestion suggested_core core suggested false m else Some m);
          Some (suggested, m)
        else
          next ← GetSuggestedNext core suggested (queue_of m);
          any_suggestions fuel core next m
  end.

Definition ToAnyThread_locked (m : Machine) : option Machine :=
  let cur := cur_thread (m_kernel m) in
  t ← threads (m_kernel m) !! cur;
  if m_thread_state t =? ThreadState.Runnable then
    c ← members (queue_of m) !! cur;
    let core := GetActiveCore c in
    m ← take_suggestion core (-1) cur false m;
    scheduled ← GetScheduledFront core (queue_of m);
    if scheduled =? 0 then
      suggested ← GetSuggestedFront core (queue_of m);
      '(suggested, m) ← any_suggestions (suggest_fuel m) core suggested m;
      if negb (suggested =? cur) then Some (set_update_needed m) else record_yield m
    else Some (set_update_needed m)
  else Some m.

(** * Giving up the scheduler's lock *)

(** Where the calling host thread runs: on a core of the guest, outside of the guest, or for the
    single core in phantom mode. *)
Inductive Host := OnCore (core : Z) | HostThread | Phantom.

(** What the caller does next: it goes on, its core switches to another thread (0 for the idle
    thread), or it blocks until it is woken. *)
Inductive Outcome := Continue | Switch (from to : Z) | Block.

Definition GetDisableDispatchCount (x : Z) (m : Machine) : option Z :=
  t ← sched_threads m !! x; Some (disable_count t).
Definition CanSchedule (m : Machine) : option bool :=
  n ← GetDisableDispatchCount (cur_thread (m_kernel m)) m; Some (n =? 0).
(** On the current thread. *)
Definition DisableDispatch (m : Machine) : option Machine :=
  n ← GetDisableDispatchCount (cur_thread (m_kernel m)) m;
  check (0 <=? n);;
  on_sched_thread (cur_thread (m_kernel m)) (set_disable_count (s32 (n + 1))) m.
Definition EnableDispatch (m : Machine) : option Machine :=
  n ← GetDisableDispatchCount (cur_thread (m_kernel m)) m;
  check (0 <? n);;
  on_sched_thread (cur_thread (m_kernel m)) (set_disable_count (s32 (n - 1))) m.
Definition DisableScheduling : Machine → option Machine := DisableDispatch.

(** The cores of the mask are sent an interrupt. *)
Definition RescheduleCores (core_mask : Z) (m : Machine) : Machine :=
  with_interrupts (interrupts m ∪ list_to_set (filter (λ i, Z.land core_mask (Z.shiftl 1 i) ≠ 0) [0; 1; 2; 3])) m.
Definition RescheduleOtherCores (core cores_needing_scheduling : Z) (m : Machine) : option Machine :=
  s ← at_ (schedulers m) core;
  let core_mask := Z.land cores_needing_scheduling (lnotw 64 (u64 (Z.shiftl 1 (m_core_id s)))) in
  Some (if negb (core_mask =? 0) then RescheduleCores core_mask m else m).

(** Up to the switch to the scheduler's fiber. *)
Definition ScheduleImpl (core : Z) (m : Machine) : option (Outcome * Machine) :=
  m ← on_scheduler core (set_needs_scheduling false) m;
  s ← at_ (schedulers m) core;
  let cur := cur_thread (m_kernel m) in
  let highest := if interrupt_task_runnable s then 0 else highest_priority_thread s in
  Some (if highest =? cur then Continue else Switch cur highest, m).

Definition Schedule (core : Z) (m : Machine) : option (Outcome * Machine) :=
  let cur := cur_thread (m_kernel m) in
  t ← sched_threads m !! cur;
  s ← at_ (schedulers m) core;
  check (disable_count t =? 1);;
  check (m_core_id s =? m_current_core_id t);;
  ScheduleImpl core m.

(** What follows [Schedule] is done at once, or when the thread is scheduled again. *)
Definition RescheduleCurrentCoreImpl (core : Z) (m : Machine) : option (Outcome * Machine) :=
  s ← at_ (schedulers m) core;
  if needs_scheduling s then
    m ← DisableDispatch m;
    '(outcome, m) ← Schedule core m;
    match outcome with
    | Continue => m ← EnableDispatch m; Some (Continue, m)
    | _ => Some (outcome, m)
    end
  else Some (Continue, m).

Definition RescheduleCurrentCore (core : Z) (m : Machine) : option (Outcome * Machine) :=
  n ← GetDisableDispatchCount (cur_thread (m_kernel m)) m;
  check (n =? 1);;
  m ← EnableDispatch m;
  s ← at_ (schedulers m) core;
  if needs_scheduling s then RescheduleCurrentCoreImpl core m else Some (Continue, m).

Definition RescheduleCurrentHLEThread (phantom : bool) (m : Machine) : option (Outcome * Machine) :=
  let cur := cur_thread (m_kernel m) in
  n ← GetDisableDispatchCount cur m;
  check (n =? 1);;
  mm ← members (queue_of m) !! cur;
  st ← sched_threads m !! cur;
  if IsDummyThread mm && negb phantom && negb (m_dummy_thread_runnable st) then Some (Block, m)
  else
    t ← threads (m_kernel m) !! cur;
    check (negb (GetState t =? ThreadState.Waiting));;
    m ← EnableDispatch m;
    Some (Continue, m).

Definition EnableScheduling (host : Host) (cores_needing_scheduling : Z) (m : Machine) : option (Outcome * Machine) :=
  n ← GetDisableDispatchCount (cur_thread (m_kernel m)) m;
  check (1 <=? n);;
  match host with
  | OnCore core =>
      m ← RescheduleOtherCores core cores_needing_scheduling m;
      if 1 <? n then m ← EnableDispatch m; Some (Continue, m) else RescheduleCurrentCore core m
  | HostThread => RescheduleCurrentHLEThread false (RescheduleCores cores_needing_scheduling m)
  | Phantom => RescheduleCurrentHLEThread true (RescheduleCores cores_needing_scheduling m)
  end.

Section scheduler.
(** [GetClockTicks] at its n-th reading. *)
Context (clock : nat → Z).

Definition GetClockTicks (m : Machine) : Z * Machine := (clock (readings m), with_readings (S (readings m)) m).

(** * The thread that a core should run *)

(** The thread that was to run is told that it was. *)
Definition leave_thread (x : Z) (m : Machine) : option Machine :=
  if negb (x =? 0) then
    m ← on_kernel (IncrementScheduledCount x) m;
    let '(tick, m) := GetClockTicks m in
    on_sched_thread x (SetLastScheduledTick tick) m
  else Some m.

(** What is counted of idle cores and running threads. *)
Definition count_idle (core highest_thread : Z) (s : KScheduler) (m : Machine) : option Machine :=
  if should_count_idle s then
    if negb (highest_thread =? 0) then
      t ← threads (m_kernel m) !! highest_thread;
      if negb (m_parent t =? 0) then
        SetRunningThread (m_parent t) (m_core_id s) highest_thread (idle_count s) 0 m
      else Some m
    else on_scheduler core (set_idle_count (u64 (idle_count s + 1))) m
  else Some m.

Definition UpdateHighestPriorityThread (core highest_thread : Z) (m : Machine) : option (Z * Machine) :=
  s ← at_ (schedulers m) core;
  let prev_highest_thread := highest_priority_thread s in
  if negb (prev_highest_thread =? highest_thread) then
    m ← leave_thread prev_highest_thread m;
    m ← count_idle core highest_thread s m;
    m ← on_scheduler core (set_highest highest_thread) m;
    Some (u64 (Z.shiftl 1 (m_core_id s)), m)
  else Some (0, m).

(** The front of the scheduled queue, or a pinned thread of its process; and whether the core
    is idle. *)
Definition choose_top (core : Z) (m : Machine) : option (Z * bool) :=
  top_thread ← GetScheduledFront core (queue_of m);
  if negb (top_thread =? 0) then
    t ← threads (m_kernel m) !! top_thread;
    if negb (m_parent t =? 0) then
      pinned ← GetPinnedThread (m_parent t) core m;
      if negb (pinned =? 0) && negb (pinned =? top_thread) && (m_num_kernel_waiters t =? 0) then
        p ← threads (m_kernel m) !! pinned;
        Some (if m_thread_state p =? ThreadState.Runnable then pinned else 0, false)
      else Some (top_thread, false)
    else Some (top_thread, false)
  else Some (0, true).

(** The loop over the cores: the cores that need scheduling, those that are idle, and the top
    thread of each. *)
Fixpoint choose_loop (cores : list Z) (m : Machine) : option (Z * Z * list Z * Machine) :=
  match cores with
  | [] => Some (0, 0, [], m)
  | core :: cores =>
      '(top, idle) ← choose_top core m;
      '(bit, m) ← UpdateHighestPriorityThread core top m;
      '(mask, idle_cores, tops, m) ← choose_loop cores m;
      Some (Z.lor bit mask, if (idle : bool) then Z.lor (Z.shiftl 1 core) idle_cores else idle_cores, top :: tops, m)
  end.

(** ** Migration to an idle core *)

(** The walk over the suggested threads: the thread at which it stopped, the candidate cores,
    the cores that need scheduling and the top threads. *)
Fixpoint suggest_loop (fuel : nat) (core suggested : Z) (candidates : list Z) (mask : Z) (tops : list Z)
    (m : Machine) : option (Z * list Z * Z * list Z * Machine) :=
  match fuel with
  | O => None
  | S fuel =>
      if suggested =? 0 then Some (suggested, candidates, mask, tops, m)
      else
        s ← members (queue_of m) !! suggested;
        let suggested_core := GetActiveCore s in
        top_thread ← top_at tops suggested_core;
        if negb (top_thread =? suggested) then
          high ← too_high_to_migrate top_thread (m_kernel m);
          if (high : bool) then Some (suggested, candidates, mask, tops, m)
          else
            m ← on_kernel (move_to_core suggested_core core suggested false) m;
            tops ← set_at tops core suggested;
            '(bit, m) ← UpdateHighestPriorityThread core suggested m;
            Some (suggested, candidates, Z.lor mask bit, tops, m)
        else
          check (Z.of_nat (length candidates) <? NumCores);;
          next ← GetSuggestedNext core suggested (queue_of m);
          suggest_loop fuel core next (candidates ++ [suggested_core]) mask tops m
  end.

Fixpoint candidate_loop (core : Z) (candidates : list Z) (mask : Z) (tops : list Z) (m : Machine)
    : option (Z * list Z * Machine) :=
  match candidates with
  | [] => Some (mask, tops, m)
  | candidate_core :: candidates =>
      suggested ← at_ tops candidate_core;
      next_on_candidate_core ← GetScheduledNext candidate_core suggested (queue_of m);
      if negb (next_on_candidate_core =? 0) then
        tops ← set_at tops candidate_core next_on_candidate_core;
        '(bit, m) ← UpdateHighestPriorityThread candidate_core next_on_candidate_core m;
        m ← on_kernel (move_to_core candidate_core core suggested false) m;
        tops ← set_at tops core suggested;
        '(bit', m) ← UpdateHighestPriorityThread core suggested m;
        Some (Z.lor (Z.lor mask bit) bit', tops, m)
      else candidate_loop core candidates mask tops m
  end.

Definition migrate_to (core mask : Z) (tops : list Z) (m : Machine) : option (Z * list Z * Machine) :=
  suggested ← GetSuggestedFront core (queue_of m);
  if negb (suggested =? 0) then
    '(suggested, candidates, mask, tops, m) ← suggest_loop (suggest_fuel m) core suggested [] mask tops m;
    if suggested =? 0 then candidate_loop core candidates mask tops m else Some (mask, tops, m)
  else Some (mask, tops, m).

(** [while (idle_cores != 0)]: every turn clears a bit. *)
Fixpoint idle_loop (fuel : nat) (idle_cores mask : Z) (tops : list Z) (m : Machine)
    : option (Z * list Z * Machine) :=
  match fuel with
  | O => None
  | S fuel =>
      if idle_cores =? 0 then Some (mask, tops, m)
      else
        let core := s32 (countr_zero 64 idle_cores) in
        '(mask, tops, m) ← migrate_to core mask tops m;
        idle_loop fuel (Z.land idle_cores (lnotw 64 (Z.shiftl 1 core))) mask tops m
  end.

(** ** Dummy threads *)
Definition DummyThreadEndWait (x : Z) (m : Machine) : option Machine :=
  mm ← members (queue_of m) !! x;
  check (IsDummyThread mm);;
  on_sched_thread x (set_dummy_runnable true) m.

Fixpoint wakeup_loop (xs : list Z) (m : Machine) : option Machine :=
  match xs with [] => Some m | x :: xs => m ← DummyThreadEndWait x m; wakeup_loop xs m end.

Definition WakeupWaitingDummyThreads (m : Machine) : option Machine :=
  m ← wakeup_loop (elements (m_woken_dummy_threads (m_kernel m))) m;
  Some (with_kernel (with_scheduler (m_scheduler_update_needed (m_kernel m)) ∅
          (schedule_counts (m_kernel m)) (m_kernel m)) m).

Definition RequestDummyThreadWait (x : Z) (m : Machine) : option Machine :=
  mm ← members (queue_of m) !! x;
  check (IsDummyThread mm);;
  on_sched_thread x (set_dummy_runnable false) m.

(** What a dummy thread that holds the lock has to do when it goes to sleep. *)
Definition dummy_wait (m : Machine) : option Machine :=
  let cur := cur_thread (m_kernel m) in
  mm ← members (queue_of m) !! cur;
  t ← threads (m_kernel m) !! cur;
  if IsDummyThread mm && negb (GetState t =? ThreadState.Runnable) then RequestDummyThreadWait cur m
  else Some m.

Definition UpdateHighestPriorityThreadsImpl (m : Machine) : option (Z * Machine) :=
  let m := with_kernel (ClearSchedulerUpdateNeeded (m_kernel m)) m in
  '(mask, idle_cores, tops, m) ← choose_loop [0; 1; 2; 3] m;
  '(mask, _, m) ← idle_loop 65 idle_cores mask tops m;
  m ← WakeupWaitingDummyThreads m;
  m ← dummy_wait m;
  Some (mask, m).

Definition UpdateHighestPriorityThreads (m : Machine) : option (Z * Machine) :=
  if m_scheduler_update_needed (m_kernel m) then UpdateHighestPriorityThreadsImpl m else Some (0, m).

(** What [f] does with the lock held by a thread that did not hold it. *)
Definition with_scheduler_lock (host : Host) (f : Machine → option Machine) (m : Machine) : option (Outcome * Machine) :=
  m ← DisableScheduling m;
  m ← f m;
  '(mask, m) ← UpdateHighestPriorityThreads m;
  EnableScheduling host mask m.

(** ** The three yields of a guest thread *)
Inductive Yield := WithoutCoreMigration | WithCoreMigration | ToAnyThread.

Definition yield_locked (kind : Yield) : Machine → option Machine :=
  match kind with
  | WithoutCoreMigration => WithoutCoreMigration_locked
  | WithCoreMigration => WithCoreMigration_locked
  | ToAnyThread => ToAnyThread_locked
  end.

(** [YieldWithoutCoreMigration], [YieldWithCoreMigration] and [YieldToAnyThread] *)
Definition yield (kind : Yield) (host : Host) (m : Machine) : option (Outcome * Machine) :=
  can ← CanSchedule m;
  check can;;
  let cur := cur_thread (m_kernel m) in
  t ← threads (m_kernel m) !! cur;
  check (negb (m_parent t =? 0));;
  st ← sched_threads m !! cur;
  count ← schedule_counts (m_kernel m) !! m_parent t;
  if m_schedule_count st =? count then Some (Continue, m)
  else with_scheduler_lock host (yield_locked kind) m.

(** * Switching threads *)
Definition ClearPreviousThread (thread : Z) (m : Machine) : Machine :=
  with_schedulers (map (λ s, if prev_thread s =? thread then set_prev_thread 0 s else s) (schedulers m)) m.

Definition SwitchThread (core next_thread : Z) (m : Machine) : option Machine :=
  s ← at_ (schedulers m) core;
  let cur_thread_ := cur_thread (m_kernel m) in
  t ← threads (m_kernel m) !! cur_thread_;
  let next_thread := if next_thread =? 0 then m_idle_thread s else next_thread in
  n ← sched_threads m !! next_thread;
  m ← (if negb (m_current_core_id n =? m_core_id s) then on_sched_thread next_thread (SetCurrentCore (m_core_id s)) m
       else Some m);
  if next_thread =? cur_thread_ then Some m
  else
    mm ← members (queue_of m) !! next_thread;
    check (disable_count n =? 1);;
    check (negb (IsDummyThread mm));;
    let prev_tick := m_last_context_switch_time s in
    let '(cur_tick, m) := GetClockTicks m in
    let tick_diff := s64 (cur_tick - prev_tick) in
    m ← on_sched_thread cur_thread_ (AddCpuTime tick_diff) m;
    m ← (if negb (m_parent t =? 0) then process_AddCpuTime (m_parent t) tick_diff m else Some m);
    m ← on_scheduler core (set_switch_time cur_tick) m;
    c ← members (queue_of m) !! cur_thread_;
    m ← (if negb (m_parent t =? 0) then
           on_scheduler core (set_prev_thread
             (if negb (IsTerminationRequested t) && (GetActiveCore c =? m_core_id s) then cur_thread_ else 0)) m
         else Some m);
    let k := m_kernel m in
    let k := MkKernel (priority_queue k) (threads k) (lock_infos k) (lock_slab k) (thread_trees k) next_thread
               (m_scheduler_update_needed k) (m_woken_dummy_threads k) (timer_tasks k) (schedule_counts k) in
    on_scheduler core (set_current next_thread) (with_kernel k m).
End scheduler.
