(* ===== verification/SchedulerState.v ===== *)
(** The invariant of the schedulers: the threads and the queue are in order, every core runs a
    thread that exists; and what a thread's move to another core does to the queues. *)
From S2P Require Import Prelude Common Results PriorityQueue PriorityQueueLinks PriorityQueueSpec Thread ThreadLocks ThreadWaiters ThreadInherit ThreadHandover ThreadState Scheduler.

Implicit Types (k : Kernel) (m : Machine) (tb : table) (M : gmap Z Info).

(** * The queue represents what is runnable *)
Record in_queue k tb M : Prop := {
  iq_rep : rep (priority_queue k) tb;
  iq_placed : placed tb M;
  iq_queued : ∀ x i, M !! x = Some i ↔ queued k x i;
}.

Lemma in_queue_ext k k' tb M :
  priority_queue k' = priority_queue k → threads k' = threads k → in_queue k tb M → in_queue k' tb M.
Proof. intros Eq Et [H1 H2 H3]. split; [by rewrite Eq|done|]. intros x i. rewrite H3. unfold queued. by rewrite Eq, Et. Qed.

Lemma in_queue_info k tb M x i :
  sched_ok k → in_queue k tb M → M !! x = Some i →
  ∃ t mm, threads k !! x = Some t ∧ members (priority_queue k) !! x = Some mm ∧ x ≠ 0 ∧ i = info_of mm
    ∧ IsDummyThread mm = false ∧ info_ok i.
Proof.
  intros S H (t & mm & Et & Em & _ & Hd & ->)%(iq_queued _ _ _ H).
  destruct (sc_member k S x t Et) as (m' & Em' & Hx & Hi). rewrite Em in Em'. injection Em' as <-.
  exists t, mm. split_and!; try done. by apply Hi.
Qed.

(** The members of a list are the threads that belong there. *)
Lemma elem_order tb M kd c x :
  placed tb M → core_ok c → x ∈ order kd c tb ↔ ∃ i, M !! x = Some i ∧ prio_ok (i_priority i) ∧ in_slot i kd (i_priority i) c = true.
Proof.
  intros HM Hc. unfold order. rewrite elem_from by done. split.
  - intros (p & Hp & (i & E & Hs)%HM); [|done..]. exists i. split; [done|].
    pose proof Hs as Hs'. unfold in_slot in Hs'. apply andb_prop in Hs' as [->%Z.eqb_eq _]. done.
  - intros (i & E & Hp & Hs). exists (i_priority i). split; [done|]. apply HM; eauto.
Qed.

Lemma elem_scheduled tb M c x :
  placed tb M → core_ok c →
  x ∈ order Scheduled c tb ↔ ∃ i, M !! x = Some i ∧ prio_ok (i_priority i) ∧ i_core i = c.
Proof.
  intros HM Hc. rewrite (elem_order tb M) by done. unfold in_slot.
  split; intros (i & E & Hp & Hs); exists i; (split; [done|]); (split; [done|]).
  - rewrite Z.eqb_refl in Hs. by apply Z.eqb_eq in Hs.
  - by rewrite Hs, !Z.eqb_refl.
Qed.

Lemma elem_suggested tb M c x :
  placed tb M → core_ok c →
  x ∈ order Suggested c tb ↔ ∃ i, M !! x = Some i ∧ prio_ok (i_priority i) ∧ Z.testbit (i_affinity i) c = true ∧ i_core i ≠ c.
Proof.
  intros HM Hc. rewrite (elem_order tb M) by done. unfold in_slot.
  split; intros (i & E & Hp & Hs); exists i; (split; [done|]); (split; [done|]).
  - rewrite Z.eqb_refl in Hs. cbn [andb] in Hs. apply andb_prop in Hs as [? Hn%negb_true_iff%Z.eqb_neq]. split; [done|congruence].
  - destruct Hs as [-> Hne]. rewrite Z.eqb_refl. cbn [andb]. apply negb_true_iff, Z.eqb_neq. congruence.
Qed.

Lemma NoDup_order k tb M kd c : in_queue k tb M → core_ok c → NoDup (order kd c tb).
Proof. intros H Hc. eapply NoDup_from; [apply rep_links, H|done|done]. Qed.

(** A thread is scheduled on one core. *)
Lemma scheduled_once tb M c c' x :
  placed tb M → core_ok c → core_ok c' → x ∈ order Scheduled c tb → x ∈ order Scheduled c' tb → c = c'.
Proof.
  intros HM Hc Hc' (i & E & _ & Hi)%(elem_scheduled _ _ _ _ HM) (i' & E' & _ & Hi')%(elem_scheduled _ _ _ _ HM); [|done..].
  congruence.
Qed.

(** ** The front and the next *)
Definition front (c : Z) (tb : table) : Z := default 0 (head (order Scheduled c tb)).

Lemma GetScheduledFront_front k tb M c :
  in_queue k tb M → core_ok c → GetScheduledFront c (priority_queue k) = Some (front c tb).
Proof. intros H Hc. apply (GetFront_ok _ _ _ _ (iq_rep _ _ _ H) Hc). Qed.

Lemma GetNext_order k tb M kd c l1 x l2 :
  in_queue k tb M → core_ok c → order kd c tb = l1 ++ x :: l2 →
  KPriorityQueueImpl.GetNext kd c x (priority_queue k) = Some (default 0 (head l2)).
Proof.
  intros H Hc Eo. eapply next_in_order; [apply (iq_rep _ _ _ H)|done| |done].
  intros p y mm Hp Hy Em. apply (iq_placed _ _ _ H) in Hy as (i & (t & mm' & _ & Em' & _ & _ & ->)%(iq_queued _ _ _ H) & Hs); [|done..].
  rewrite Em in Em'. injection Em' as <-. unfold in_slot in Hs. by apply andb_prop in Hs as [->%Z.eqb_eq _].
Qed.

Lemma order_nonzero k tb M kd c x : sched_ok k → in_queue k tb M → core_ok c → x ∈ order kd c tb → x ≠ 0.
Proof.
  intros S H Hc (i & E & _)%(elem_order _ _ _ _ _ (iq_placed _ _ _ H)); [|done].
  by destruct (in_queue_info k tb M x i S H E) as (t & mm & _ & _ & ? & _).
Qed.

Lemma front_zero k tb M c :
  sched_ok k → in_queue k tb M → core_ok c → front c tb = 0 ↔ order Scheduled c tb = [].
Proof.
  intros S H Hc. unfold front. destruct (order Scheduled c tb) as [|x l] eqn:E; [done|]. simpl. split; [|done].
  intros ->. exfalso. eapply (order_nonzero k tb M Scheduled c 0); try done. rewrite E. set_solver.
Qed.

Lemma front_thread k tb M c :
  sched_ok k → in_queue k tb M → core_ok c → front c tb = 0 ∨ is_Some (threads k !! front c tb).
Proof.
  intros S H Hc. unfold front. destruct (order Scheduled c tb) as [|x l] eqn:E; [by left|right]. simpl.
  assert (x ∈ order Scheduled c tb) as (i & Ei & _)%(elem_order _ _ _ _ _ (iq_placed _ _ _ H)) by (rewrite ?E; set_solver || done); [|done].
  destruct (in_queue_info k tb M x i S H Ei) as (t & mm & Et & _). by exists t.
Qed.

(** * A move to another core *)
Definition with_core (c : Z) (mm : Member) : Member :=
  {| GetAffinityMask := GetAffinityMask mm; GetActiveCore := c;
     PriorityQueue.GetPriority := PriorityQueue.GetPriority mm; IsDummyThread := IsDummyThread mm;
     m_per_core_priority_queue_entry := m_per_core_priority_queue_entry mm |}.
Definition at_core (c : Z) (i : Info) : Info :=
  {| i_priority := i_priority i; i_core := c; i_affinity := i_affinity i |}.

(** Only the queue has changed, and no priority. *)
Record requeued_only k k' : Prop := {
  ro_queue : k' = with_queue (priority_queue k') k;
  ro_prio : ∀ x, prio k' x = prio k x;
}.

Lemma requeued_only_refl k : requeued_only k k.
Proof. split; [by destruct k|done]. Qed.
Lemma requeued_only_trans k1 k2 k3 : requeued_only k1 k2 → requeued_only k2 k3 → requeued_only k1 k3.
Proof. intros [E1 P1] [E2 P2]. split; [|intros x; by rewrite P2]. rewrite E2 at 1. by rewrite E1. Qed.

Lemma sane_requeued k k' : sane k → requeued_only k k' → sched_ok k' → sane k'.
Proof.
  intros [[L C S P] I] [Eq Hp] S'.
  assert (threads k' = threads k ∧ lock_infos k' = lock_infos k ∧ lock_slab k' = lock_slab k
    ∧ thread_trees k' = thread_trees k) as (Et & El & Es & Etr) by by rewrite Eq.
  split; [split|].
  - rewrite Et, El, Es. by apply (locks_ok_prio (prio k)).
  - rewrite Et, Etr. by apply (cvs_ok_prio (prio k)).
  - done.
  - intros x t. rewrite Et, Hp. apply P.
  - intros x. rewrite Et. intros Hx. unfold inherits. rewrite Hp. apply (due_ext k); [|done| |by apply I].
    + intros y. unfold waits. by rewrite Et, El.
    + by rewrite Et.
Qed.

Lemma sched_ok_requeued k k' tb M :
  sched_ok k → requeued_only k k' → in_queue k' tb M →
  (∀ x mm, members (priority_queue k) !! x = Some mm → ∃ mm', members (priority_queue k') !! x = Some mm'
     ∧ IsDummyThread mm' = IsDummyThread mm
     ∧ (IsDummyThread mm = false → info_ok (info_of mm) → info_ok (info_of mm'))) → sched_ok k'.
Proof.
  intros S [Eq Hp] H Hm. assert (threads k' = threads k ∧ schedule_counts k' = schedule_counts k) as [Et Ec] by by rewrite Eq.
  split.
  - intros x t Ex. rewrite Et in Ex. destruct (sc_member k S x t Ex) as (mm & Em & Hx & Hi).
    destruct (Hm x mm Em) as (mm' & Em' & Hd & Hi'). exists mm'. split; [done|]. split; [done|].
    rewrite Hd. intros Hd'. destruct (Hi Hd'). split; auto.
  - exists tb, M. by destruct H.
  - intros x t Ex. rewrite Et in Ex. rewrite Ec. by apply (sc_parent k S x).
Qed.

(** The thread [x] moves from [from] to [c], one of which may be negative. *)
Section move.
Context (k : Kernel) (tb : table) (M : gmap Z Info) (x c : Z) (i : Info) (front : bool).
Context (K : sane k) (H : in_queue k tb M) (Ei : M !! x = Some i) (Hc : c < 4)
        (Hb : 0 ≤ c → Z.testbit (i_affinity i) c = true).

Definition moved_table : table := effect (OpChangeCore (i_core i) front) (at_core c i) x tb.

Lemma move_to_core_ok :
  ∃ k', move_to_core (i_core i) c x front k = Some k' ∧ sane k' ∧ requeued_only k k'
    ∧ in_queue k' moved_table (<[x := at_core c i]> M)
    ∧ ∀ y, static <$> members (priority_queue k') !! y
           = if decide (y = x) then (static ∘ with_core c) <$> members (priority_queue k) !! y
             else static <$> members (priority_queue k) !! y.
Proof using All.
  destruct (in_queue_info k tb M x i (ko_sched _ (sn_ok _ K)) H Ei) as (t & mm & Et & Em & Hx & Hi & Hd & Hok).
  unfold move_to_core, SetActiveCore. rewrite Em. cbn [mbind option_bind]. fold (with_core c mm).
  set (q1 := {| m_scheduled_queue := _ |}). change (priority_queue (with_queue q1 k)) with q1.
  assert (q1 = with_member x (with_core c mm) (priority_queue k)) as Eq1 by done.
  assert (rep q1 tb) as Hr1 by (rewrite Eq1; by eapply rep_member; [..|apply H]).
  assert (members q1 !! x = Some (with_core c mm)) as Em1 by (simpl; by rewrite lookup_insert_eq).
  assert (info_of (with_core c mm) = at_core c i) as Hi1 by by rewrite Hi.
  assert (info_ok (at_core c i)) as Hok1 by (destruct Hok as (? & ? & ? & ?); split_and!; done).
  assert (M !! x = Some {| i_priority := PriorityQueue.GetPriority (with_core c mm); i_core := i_core i;
      i_affinity := GetAffinityMask (with_core c mm) |}) as Ei1 by (rewrite Ei, Hi; done).
  destruct (ChangeCore_ok q1 tb M x (with_core c mm) Hr1 (iq_placed _ _ _ H) Em1 Hx) with (prev := i_core i) (front := front)
    as (q & -> & Hr & Hm); [by rewrite Hi1|done| |done|].
  { rewrite Hi. rewrite Hi in Hok. exact Hok. }
  rewrite Hi1 in Hr. fold moved_table in Hr. cbn [mbind option_bind].
  exists (with_queue q (with_queue q1 k)). set (k' := with_queue q _).
  assert (∀ y, static <$> members q !! y = if decide (y = x) then (static ∘ with_core c) <$> members (priority_queue k) !! y
             else static <$> members (priority_queue k) !! y) as Hst.
  { intros y. rewrite (Hm y). simpl. rewrite lookup_insert. destruct (decide (x = y)) as [<-|].
    - by rewrite decide_True, Em by done.
    - by rewrite decide_False by congruence. }
  assert (requeued_only k k') as HR.
  { split; [done|]. intros y. specialize (Hst y). unfold prio. change (priority_queue k') with q.
    destruct (decide (y = x)); destruct (members (priority_queue k) !! y), (members q !! y); try done;
      injection Hst as _ _ ? _; done. }
  assert (in_queue k' moved_table (<[x := at_core c i]> M)) as HQ.
  { split; [done| |].
    - apply (effect_placed tb M x (OpChangeCore (i_core i) front) (at_core c i)); [apply H|done| |].
      + rewrite Ei. by intros ? [= <-].
      + simpl. by rewrite Ei; destruct i.
    - intros y j. specialize (Hst y). unfold queued. change (priority_queue k') with q. change (threads k') with (threads k).
      rewrite lookup_insert. destruct (decide (x = y)) as [<-|Hne].
      + rewrite decide_True in Hst by done. rewrite Em in Hst. apply fmap_Some in Hst as (m' & Em' & Es).
        pose proof Ei as (t0 & mm0 & Et0 & Em0 & Hrun & _)%(iq_queued _ _ _ H). rewrite Et in Et0. injection Et0 as <-.
        simpl in Es. injection Es as Ea Ec Ep Ed. rewrite Hi.
        split.
        * intros [= <-]. exists t, m'. split_and!; try done; [congruence|]. unfold info_of, at_core. simpl. congruence.
        * intros (? & ? & _ & E & _ & _ & ->). rewrite Em' in E. injection E as <-. unfold info_of, at_core. simpl. congruence.
      + rewrite decide_False in Hst by done. rewrite (iq_queued _ _ _ H). unfold queued.
        destruct (members (priority_queue k) !! y) as [a|], (members q !! y) as [b|]; try done.
        injection Hst as Ea Ec Ep Ed.
        split; intros (ty & ? & Ey & [= <-] & Hs & Hdy & ->); eexists ty, _; split_and!; try done; try congruence;
          unfold info_of; congruence. }
  split; [done|]. split; [|done]. eapply sane_requeued; [done|done|].
  eapply sched_ok_requeued; [apply K|done|done|]. intros y my Emy. specialize (Hst y). change (priority_queue k') with q.
  rewrite Emy in Hst. destruct (decide (y = x)) as [->|]; simpl in Hst; apply fmap_Some in Hst as (m' & Em' & Es);
    injection Es as Ea Ec Ep Ed; exists m'; (split; [done|]); (split; [done|]).
  - rewrite Em in Emy. injection Emy as <-. intros _ _.
    replace (info_of m') with (at_core c i); [done|]. rewrite Hi. unfold info_of, at_core. simpl. congruence.
  - replace (info_of m') with (info_of my); [done|]. unfold info_of. congruence.
Qed.
End move.

(** ** The lists after a move *)
Lemma bind_filter {A B} (P : B → Prop) `{∀ x, Decision (P x)} (f g : A → list B) (l : list A) :
  (∀ a, a ∈ l → g a = filter P (f a)) → l ≫= g = filter P (l ≫= f).
Proof.
  induction l as [|a l IH]; intros H'; [done|].
  rewrite !bind_cons, filter_app, IH, H' by set_solver. done.
Qed.

Lemma order_filter kd c tb tb' P `{∀ x, Decision (P x)} :
  (∀ p, prio_ok p → tb' kd p c = filter P (tb kd p c)) → order kd c tb' = filter P (order kd c tb).
Proof. intros H'. apply bind_filter. intros p Hp%elem_of_seqZ. apply H'. unfold prio_ok. lia. Qed.

Lemma order_ext kd c tb tb' : (∀ p, prio_ok p → tb' kd p c = tb kd p c) → order kd c tb' = order kd c tb.
Proof. intros H'. rewrite (order_filter kd c tb tb' (λ _, True)); [by apply filter_id|]. intros p Hp. by rewrite H', filter_id. Qed.

Lemma singleton_list {A} (l : list A) x : NoDup l → (∀ y, y ∈ l ↔ y = x) → l = [x].
Proof.
  intros Hnd Hl. destruct l as [|y [|z l]].
  - destruct (not_elem_of_nil x). by apply Hl.
  - f_equal. apply Hl. set_solver.
  - apply NoDup_cons in Hnd as [Hy _]. assert (y = x ∧ z = x) as [-> ->] by (split; apply Hl; set_solver). set_solver.
Qed.

Section moved_lists.
Context (tb : table) (M : gmap Z Info) (x c : Z) (i : Info) (front : bool).
Context (HM : placed tb M) (Ei : M !! x = Some i) (Hne : i_core i ≠ c).

Lemma moved_other kd c' : c' ≠ i_core i → c' ≠ c → order kd c' (moved_table tb x c i front) = order kd c' tb.
Proof using Hne.
  intros H1 H2. apply order_ext. intros p Hp. unfold moved_table, effect.
  cbn [i_core at_core]. rewrite (proj2 (Z.eqb_neq (i_core i) c)) by done.
  by rewrite (proj2 (Z.eqb_neq c' (i_core i))), (proj2 (Z.eqb_neq c' c)).
Qed.

Lemma moved_from : order Scheduled (i_core i) (moved_table tb x c i front)
  = filter (λ y, y ≠ x) (order Scheduled (i_core i) tb).
Proof using Hne.
  apply order_filter. intros p Hp. unfold moved_table, effect. cbn [i_core at_core].
  rewrite (proj2 (Z.eqb_neq (i_core i) c)) by done. rewrite Z.eqb_refl. cbn [orb].
  unfold pushed, on_slots, in_slot. cbn [at_core i_core].
  by rewrite (proj2 (Z.eqb_neq (i_core i) c)), andb_false_r by done.
Qed.

Lemma moved_to_idle k :
  core_ok c → prio_ok (i_priority i) → order Scheduled c tb = [] →
  in_queue k (moved_table tb x c i front) (<[x := at_core c i]> M) →
  order Scheduled c (moved_table tb x c i front) = [x].
Proof using HM.
  intros Hc Hp He H. apply singleton_list; [by eapply NoDup_order|]. intros y.
  rewrite (elem_scheduled _ _ _ _ (iq_placed _ _ _ H) Hc). split.
  - intros (j & [[<- _]|[Hxy E]]%lookup_insert_Some & Hj & Hcj); [done|]. exfalso.
    assert (y ∈ order Scheduled c tb) as Hy by (apply (elem_scheduled _ _ _ _ HM Hc); eauto).
    rewrite He in Hy. by apply not_elem_of_nil in Hy.
  - intros ->. exists (at_core c i). by rewrite lookup_insert_eq.
Qed.
End moved_lists.
