(* ===== verification/SchedulerUpdate.v ===== *)
(** [UpdateHighestPriorityThreadsImpl]: the choice of the thread that each core should run, the
    migration of threads to the idle cores, and what the whole does to the schedulers. *)
From S2P Require Import Prelude Common Results PriorityQueue PriorityQueueLinks PriorityQueueSpec Thread ThreadLocks ThreadWaiters ThreadInherit ThreadHandover ThreadState Scheduler SchedulerState.

Implicit Types (k : Kernel) (m : Machine) (tb : table) (M : gmap Z Info).

(** * The invariant *)
Definition scheduler (c : Z) m : KScheduler := default KScheduler_new (at_ (schedulers m) c).
Definition running (c : Z) m : Z := highest_priority_thread (scheduler c m).

Definition arrays_ok (pr : KProcess) : Prop :=
  length (m_pinned_threads pr) = 4%nat ∧ length (m_running_threads pr) = 4%nat
  ∧ length (m_running_thread_idle_counts pr) = 4%nat ∧ length (m_running_thread_switch_counts pr) = 4%nat.

Record machine_ok m : Prop := {
  mo_sane : sane (m_kernel m);
  mo_cores : length (schedulers m) = 4%nat;
  mo_core : ∀ c, core_ok c → m_core_id (scheduler c m) = c
    ∧ (running c m = 0 ∨ is_Some (threads (m_kernel m) !! running c m));
  mo_threads : dom (threads (m_kernel m)) ⊆ dom (sched_threads m);
  mo_process : ∀ x t, threads (m_kernel m) !! x = Some t → m_parent t ≠ 0 →
    ∃ pr, processes m !! m_parent t = Some pr ∧ arrays_ok pr;
  mo_woken : ∀ x, x ∈ m_woken_dummy_threads (m_kernel m) → is_Some (threads (m_kernel m) !! x)
    ∧ ∃ mm, members (queue_of m) !! x = Some mm ∧ IsDummyThread mm = true;
  mo_cur : is_Some (threads (m_kernel m) !! cur_thread (m_kernel m));
}.

Lemma scheduler_at m c : length (schedulers m) = 4%nat → core_ok c → at_ (schedulers m) c = Some (scheduler c m).
Proof.
  intros Hl Hc. unfold scheduler. destruct (at_is_Some (schedulers m) c) as [s ->]; [|done].
  unfold core_ok in Hc. lia.
Qed.

Lemma scheduler_set m c s :
  length (schedulers m) = 4%nat → core_ok c →
  ∃ ss, set_at (schedulers m) c s = Some ss ∧ length ss = 4%nat
    ∧ ∀ c', core_ok c' → scheduler c' (with_schedulers ss m) = if decide (c' = c) then s else scheduler c' m.
Proof.
  intros Hl Hc. unfold core_ok in *. rewrite set_at_ok by lia. eexists. split; [done|].
  split; [by rewrite length_insert|]. intros c' Hc'. unfold scheduler. cbn [schedulers with_schedulers].
  rewrite at_insert by lia. by destruct (decide (c' = c)).
Qed.

Lemma on_scheduler_ok m c f :
  length (schedulers m) = 4%nat → core_ok c →
  ∃ ss, on_scheduler c f m = Some (with_schedulers ss m) ∧ length ss = 4%nat
    ∧ ∀ c', core_ok c' →
        scheduler c' (with_schedulers ss m) = if decide (c' = c) then f (scheduler c m) else scheduler c' m.
Proof.
  intros Hl Hc. unfold on_scheduler. rewrite scheduler_at by done. cbn [mbind option_bind].
  destruct (scheduler_set m c (f (scheduler c m)) Hl Hc) as (ss & -> & H1 & H2). by exists ss.
Qed.

(** * What only tells the schedulers *)

(** What stays when a core is told its thread. *)
Definition fixed m :=
  (threads (m_kernel m), lock_infos (m_kernel m), lock_slab (m_kernel m), thread_trees (m_kernel m),
   cur_thread (m_kernel m), m_scheduler_update_needed (m_kernel m), m_woken_dummy_threads (m_kernel m),
   timer_tasks (m_kernel m), m_pinned_threads <$> processes m, interrupts m).

Record similar m m' : Prop := {
  sm_fixed : fixed m' = fixed m;
  sm_queue : queue_of m' = queue_of m;
  sm_counts : ∀ c, is_Some (schedule_counts (m_kernel m) !! c) → is_Some (schedule_counts (m_kernel m') !! c);
  sm_threads : dom (sched_threads m) ⊆ dom (sched_threads m');
  sm_process : ∀ p pr, processes m !! p = Some pr → arrays_ok pr → ∃ pr', processes m' !! p = Some pr' ∧ arrays_ok pr';
}.

#[global] Instance similar_preorder : PreOrder similar.
Proof.
  split; [intros m; split; eauto; done|]. intros m1 m2 m3 [F1 Q1 C1 T1 P1] [F2 Q2 C2 T2 P2].
  split; [congruence|congruence|auto|set_solver|]. intros p pr E H. destruct (P1 p pr E H) as (pr' & E' & H'). eauto.
Qed.

Lemma fixed_fields m m' : fixed m' = fixed m →
  threads (m_kernel m') = threads (m_kernel m) ∧ cur_thread (m_kernel m') = cur_thread (m_kernel m)
  ∧ m_woken_dummy_threads (m_kernel m') = m_woken_dummy_threads (m_kernel m)
  ∧ m_scheduler_update_needed (m_kernel m') = m_scheduler_update_needed (m_kernel m)
  ∧ m_pinned_threads <$> processes m' = m_pinned_threads <$> processes m.
Proof. unfold fixed. intros [= -> _ _ _ -> -> -> _ -> _]. done. Qed.

Lemma similar_sane m m' : similar m m' → sane (m_kernel m) → sane (m_kernel m').
Proof.
  intros [F Q C _ _] [[L Cv [S1 S2 S3] P] I]. unfold fixed, queue_of in *.
  destruct (m_kernel m) as [q ts ls sl tr cu up wo ti co], (m_kernel m') as [q' ts' ls' sl' tr' cu' up' wo' ti' co'].
  cbn in F, Q, C. injection F as -> -> -> -> -> -> -> -> _ _. subst q'.
  split; [split; [exact L|exact Cv| |exact P]|exact I]. split; [exact S1|exact S2|].
  intros x t Et Hp. apply C. by apply (S3 x t).
Qed.

Lemma similar_in_queue m m' tb M : similar m m' → in_queue (m_kernel m) tb M → in_queue (m_kernel m') tb M.
Proof. intros [F Q _ _ _]. apply in_queue_ext; [exact Q|]. by apply fixed_fields in F as (-> & _). Qed.

Lemma similar_ok m m' :
  machine_ok m → similar m m' → length (schedulers m') = 4%nat →
  (∀ c, core_ok c → m_core_id (scheduler c m') = c
     ∧ (running c m' = 0 ∨ is_Some (threads (m_kernel m) !! running c m'))) → machine_ok m'.
Proof.
  intros [Hs _ _ Ht Hp Hw Hcur] S Hl Hcore. pose proof S as [F Q C T P].
  apply fixed_fields in F as (Et & Ec & Ew & Eu & Epn).
  split; rewrite ?Et, ?Ec, ?Ew, ?Q; try done.
  - by eapply similar_sane.
  - set_solver.
  - intros x t Ex Hne. destruct (Hp x t Ex Hne) as (pr & E & Ha). by apply (P _ pr).
Qed.

(** ** The cores that need scheduling *)

(** A core of the mask needs scheduling; the scheduler of another has not changed. *)
Definition marks (mask : Z) m m' : Prop := ∀ c, core_ok c →
  if Z.testbit mask c then needs_scheduling (scheduler c m') = true else scheduler c m' = scheduler c m.

Lemma marks_refl m m' : schedulers m' = schedulers m → marks 0 m m'.
Proof. intros E c _. rewrite Z.bits_0. unfold scheduler. by rewrite E. Qed.

Lemma marks_trans a b m1 m2 m3 : marks a m1 m2 → marks b m2 m3 → marks (Z.lor a b) m1 m3.
Proof.
  intros H1 H2 c Hc. specialize (H1 c Hc). specialize (H2 c Hc). rewrite Z.lor_spec.
  destruct (Z.testbit a c), (Z.testbit b c); cbn [orb]; congruence.
Qed.

Lemma marks_same a m1 m2 m3 : marks a m1 m2 → schedulers m3 = schedulers m2 → marks a m1 m3.
Proof. intros H E c Hc. specialize (H c Hc). unfold scheduler in *. by rewrite E. Qed.

Lemma marks_before a m1 m2 m3 : marks a m2 m3 → schedulers m1 = schedulers m2 → marks a m1 m3.
Proof. intros H E c Hc. specialize (H c Hc). unfold scheduler in *. by rewrite E. Qed.

(** The core [c] is told to run [h]. *)
Record told m m' (c h bit : Z) : Prop := {
  tl_ok : machine_ok m';
  tl_similar : similar m m';
  tl_marks : marks bit m m';
  tl_running : ∀ c', core_ok c' → running c' m' = if decide (c' = c) then h else running c' m;
}.

Lemma pinned_insert (p : Z) pr pr' (ps : gmap Z KProcess) :
  ps !! p = Some pr → m_pinned_threads pr' = m_pinned_threads pr →
  m_pinned_threads <$> <[p := pr']> ps = m_pinned_threads <$> ps.
Proof.
  intros E Ep. rewrite fmap_insert, Ep. apply insert_id. by rewrite lookup_fmap, E.
Qed.

Lemma SetRunningThread_ok m p pr core x n c' :
  processes m !! p = Some pr → arrays_ok pr → core_ok core →
  ∃ m', SetRunningThread p core x n c' m = Some m' ∧ similar m m' ∧ schedulers m' = schedulers m.
Proof.
  intros E (H1 & H2 & H3 & H4) Hc. unfold core_ok in Hc. unfold SetRunningThread, on_process. rewrite E.
  cbn [mbind option_bind]. rewrite !set_at_ok by lia. cbn [mbind option_bind]. eexists. split; [done|].
  split; [|done]. split; try done.
  - unfold fixed. cbn [m_kernel with_processes processes interrupts]. by rewrite (pinned_insert p pr).
  - intros q qr Eq Hq. cbn [processes with_processes]. rewrite lookup_insert.
    destruct (decide (p = q)); [|eauto]. eexists. split; [done|]. split_and!; simpl; by rewrite ?length_insert.
Qed.

Lemma leave_thread_ok clock m x :
  machine_ok m → (x = 0 ∨ is_Some (threads (m_kernel m) !! x)) →
  ∃ m', leave_thread clock x m = Some m' ∧ similar m m' ∧ schedulers m' = schedulers m.
Proof.
  intros O Hx. unfold leave_thread, on_kernel. destruct (Z.eqb_spec x 0); cbn [negb]; [by exists m|].
  destruct Hx as [|[t Et]]; [done|].
  destruct (IncrementScheduledCount_ok (m_kernel m) x t Et) as (counts & -> & Hc).
  { apply (sc_parent _ (ko_sched _ (sn_ok _ (mo_sane m O))) x t Et). }
  cbn [mbind option_bind]. unfold GetClockTicks, on_sched_thread.
  assert (is_Some (sched_threads m !! x)) as [st Est].
  { apply elem_of_dom, (mo_threads m O), elem_of_dom. by exists t. }
  cbn [sched_threads with_kernel with_readings]. rewrite Est. cbn [mbind option_bind]. eexists. split; [done|].
  split; [|done]. split; try done; [|intros p pr; eauto]. cbn. rewrite dom_insert. set_solver.
Qed.

Lemma on_scheduler_similar m ss : similar m (with_schedulers ss m).
Proof. split; try done. intros p pr; eauto. Qed.

Lemma count_idle_ok m c s h :
  machine_ok m → core_ok c → s = scheduler c m → (h = 0 ∨ is_Some (threads (m_kernel m) !! h)) →
  ∃ m', count_idle c h s m = Some m' ∧ similar m m' ∧ length (schedulers m') = 4%nat
    ∧ ∀ c', core_ok c' → running c' m' = running c' m ∧ m_core_id (scheduler c' m') = c'
        ∧ (c' ≠ c → scheduler c' m' = scheduler c' m).
Proof.
  intros O Hc -> Hh. pose proof (mo_cores m O) as Hl. unfold count_idle.
  assert (∀ m', schedulers m' = schedulers m → length (schedulers m') = 4%nat
    ∧ ∀ c', core_ok c' → running c' m' = running c' m ∧ m_core_id (scheduler c' m') = c'
        ∧ (c' ≠ c → scheduler c' m' = scheduler c' m)) as Hsame.
  { intros m' E. rewrite E. split; [done|]. intros c' Hc'. unfold running, scheduler. rewrite E.
    split_and!; [done|by apply (mo_core m O)|done]. }
  destruct (should_count_idle _); [|by exists m; split_and!; try done; apply Hsame].
  destruct (Z.eqb_spec h 0) as [->|Hne]; cbn [negb].
  - destruct (on_scheduler_ok m c (set_idle_count (u64 (idle_count (scheduler c m) + 1))) Hl Hc) as (ss & -> & Hl' & Hs).
    eexists. split; [done|]. split; [apply on_scheduler_similar|]. split; [done|]. intros c' Hc'. unfold running.
    rewrite Hs by done. destruct (decide (c' = c)) as [->|]; (split_and!; [done|by apply (mo_core m O)|done]).
  - destruct Hh as [|[t Et]]; [done|]. rewrite Et. cbn [mbind option_bind].
    destruct (Z.eqb_spec (m_parent t) 0) as [|Hp]; cbn [negb]; [by exists m; split_and!; try done; apply Hsame|].
    destruct (mo_process m O h t Et Hp) as (pr & Ep & Ha). destruct (mo_core m O c Hc) as [-> _].
    destruct (SetRunningThread_ok m _ pr c h (idle_count (scheduler c m)) 0 Ep Ha Hc) as (m' & -> & S & E).
    exists m'. split; [done|]. split; [done|]. by apply Hsame.
Qed.

Definition core_bit (c : Z) : Z := Z.shiftl 1 c.

Lemma core_bit_testbit c c' : core_ok c → core_ok c' → Z.testbit (core_bit c) c' = bool_decide (c' = c).
Proof. intros Hc Hc'. apply shiftl_1_testbit; [apply Hc|apply Hc']. Qed.

Lemma UpdateHighestPriorityThread_ok clock m c h :
  machine_ok m → core_ok c → (h = 0 ∨ is_Some (threads (m_kernel m) !! h)) →
  ∃ bit m', UpdateHighestPriorityThread clock c h m = Some (bit, m') ∧ told m m' c h bit.
Proof.
  intros O Hc Hh. pose proof (mo_cores m O) as Hl. unfold UpdateHighestPriorityThread.
  rewrite scheduler_at by done. cbn [mbind option_bind]. fold (running c m).
  destruct (Z.eqb_spec (running c m) h) as [Heq|Hne]; cbn [negb].
  { exists 0, m. split; [done|]. split; [done|done|by apply marks_refl|]. intros c' _. by destruct (decide (c' = c)) as [->|]. }
  destruct (mo_core m O c Hc) as [Hid Hrun].
  destruct (leave_thread_ok clock m (running c m) O Hrun) as (m1 & -> & S1 & Es1). cbn [mbind option_bind].
  assert (∀ c', scheduler c' m1 = scheduler c' m) as Hs1 by (intros c'; unfold scheduler; by rewrite Es1).
  assert (machine_ok m1) as O1.
  { apply (similar_ok m); [done|done|by rewrite Es1|]. intros c' Hc'. unfold running. rewrite Hs1. by apply (mo_core m O). }
  pose proof (fixed_fields m m1 (sm_fixed _ _ S1)) as (Et1 & _).
  destruct (count_idle_ok m1 c (scheduler c m) h O1 Hc) as (m2 & -> & S2 & Hl2 & Hs2); [by rewrite Hs1|by rewrite Et1|].
  cbn [mbind option_bind]. destruct (on_scheduler_ok m2 c (set_highest h) Hl2 Hc) as (ss & -> & Hl3 & Hs3).
  cbn [mbind option_bind]. eexists _, _. split; [done|]. set (m3 := with_schedulers ss m2).
  assert (similar m m3) as S3 by (etrans; [exact S1|etrans; [exact S2|apply on_scheduler_similar]]).
  assert (∀ c', core_ok c' → running c' m3 = if decide (c' = c) then h else running c' m) as Hr.
  { intros c' Hc'. unfold running. rewrite Hs3 by done. destruct (decide (c' = c)); [done|].
    destruct (Hs2 c' Hc') as (Hr & _). unfold running in Hr. by rewrite Hr, Hs1. }
  split; [|done| |done].
  - apply (similar_ok m); [done|done|done|]. intros c' Hc'. rewrite Hr by done. split.
    + rewrite Hs3 by done. destruct (decide (c' = c)) as [->|]; simpl; by apply Hs2.
    + destruct (decide (c' = c)); [done|]. by apply (mo_core m O).
  - intros c' Hc'. rewrite Hid. rewrite wrap_small.
    2: { unfold core_ok, in_width in *. rewrite Z.shiftl_1_l. split; [lia|]. apply Z.pow_lt_mono_r; lia. }
    fold (core_bit c). rewrite core_bit_testbit, Hs3 by done. destruct (decide (c' = c)) as [->|Hcc].
    + by rewrite bool_decide_eq_true_2.
    + rewrite bool_decide_eq_false_2 by done. destruct (Hs2 c' Hc') as (_ & _ & Hu). by rewrite Hu.
Qed.

(** * The choice *)

(** No process has a pinned thread. *)
Definition unpinned m : Prop := ∀ p pinned c y,
  (m_pinned_threads <$> processes m) !! p = Some pinned → at_ pinned c = Some y → y = 0.

Lemma similar_unpinned m m' : similar m m' → unpinned m → unpinned m'.
Proof. intros [F _ _ _ _] U p. apply fixed_fields in F as (_ & _ & _ & _ & ->). apply U. Qed.

Lemma GetPinnedThread_ok m p pr c :
  unpinned m → processes m !! p = Some pr → arrays_ok pr → core_ok c → GetPinnedThread p c m = Some 0.
Proof.
  intros U E (Hl & _) Hc. unfold GetPinnedThread. unfold core_ok, NumCores in *. rewrite check_bind_Some by lia.
  rewrite E. cbn [mbind option_bind]. destruct (at_is_Some (m_pinned_threads pr) c) as [y Ey]; [lia|].
  rewrite Ey. f_equal. apply (U p (m_pinned_threads pr) c); [|done]. by rewrite lookup_fmap, E.
Qed.

Lemma choose_top_ok m tb M c :
  machine_ok m → unpinned m → in_queue (m_kernel m) tb M → core_ok c →
  choose_top c m = Some (front c tb, bool_decide (order Scheduled c tb = [])).
Proof.
  intros O U H Hc. pose proof (ko_sched _ (sn_ok _ (mo_sane m O))) as S. unfold choose_top.
  unfold queue_of. rewrite (GetScheduledFront_front _ tb M) by done. cbn [mbind option_bind].
  pose proof (front_zero _ tb M c S H Hc) as Hz.
  destruct (Z.eqb_spec (front c tb) 0) as [E|Hne]; cbn [negb].
  { rewrite bool_decide_eq_true_2 by tauto. by rewrite E. }
  rewrite bool_decide_eq_false_2 by tauto. destruct (front_thread _ tb M c S H Hc) as [|[t Et]]; [done|].
  rewrite Et. cbn [mbind option_bind]. destruct (Z.eqb_spec (m_parent t) 0) as [|Hp]; cbn [negb]; [done|].
  destruct (mo_process m O _ t Et Hp) as (pr & Ep & Ha). by rewrite (GetPinnedThread_ok m _ pr c).
Qed.

Section choice.
Context (clock : nat → Z).

Lemma choose_loop_ok cs m tb M :
  NoDup cs → Forall core_ok cs → machine_ok m → unpinned m → in_queue (m_kernel m) tb M →
  ∃ mask idle m', choose_loop clock cs m = Some (mask, idle, map (λ c, front c tb) cs, m')
    ∧ machine_ok m' ∧ similar m m' ∧ marks mask m m'
    ∧ (∀ c, core_ok c → running c m' = if decide (c ∈ cs) then front c tb else running c m)
    ∧ in_width 4 idle ∧ ∀ c, 0 ≤ c → Z.testbit idle c = bool_decide (c ∈ cs ∧ order Scheduled c tb = []).
Proof.
  intros Hnd. revert m. induction Hnd as [|c cs Hnc Hnd IH]; intros m Hcs O U H.
  { exists 0, 0, m. split; [done|]. split; [done|]. split; [done|]. split; [by apply marks_refl|].
    split; [by intros c Hc|]. split; [by split|].
    intros c _. rewrite Z.bits_0, bool_decide_eq_false_2; [done|]. intros [Hc _]. by apply not_elem_of_nil in Hc. }
  apply Forall_cons in Hcs as [Hc Hcs]. cbn [choose_loop map]. rewrite (choose_top_ok m tb M) by done.
  cbn [mbind option_bind].
  destruct (UpdateHighestPriorityThread_ok clock m c (front c tb) O Hc) as (bit & m1 & -> & [O1 S1 K1 R1]).
  { apply front_thread with M; [apply O|done|done]. }
  cbn [mbind option_bind].
  destruct (IH m1 Hcs O1 (similar_unpinned _ _ S1 U) (similar_in_queue _ _ _ _ S1 H))
    as (mask & idle & m2 & -> & O2 & S2 & K2 & R2 & Hw & Hb).
  cbn [mbind option_bind]. eexists _, _, m2. split; [done|]. split; [done|]. split; [by etrans|].
  split; [by eapply marks_trans|]. split; [|split].
  - intros c' Hc'. rewrite R2, R1 by done. destruct (decide (c' = c)) as [->|].
    + rewrite (decide_True (P := c ∈ c :: cs)) by set_solver. by destruct (decide _).
    + destruct (decide (c' ∈ cs)); [rewrite decide_True by set_solver|rewrite decide_False by set_solver]; done.
  - destruct (bool_decide _); [|done]. apply lor_in_width; [lia| |done]. unfold core_ok, in_width in *.
    rewrite Z.shiftl_1_l. split; [lia|]. apply Z.pow_lt_mono_r; lia.
  - intros c' Hc'. destruct (bool_decide (order Scheduled c tb = [])) eqn:E.
    + apply bool_decide_eq_true in E. rewrite Z.lor_spec, shiftl_1_testbit, Hb by (done || apply Hc).
      destruct (decide (c' = c)) as [->|Hne].
      * rewrite (bool_decide_eq_true_2 (c = c)), (bool_decide_eq_true_2 (c ∈ c :: cs ∧ _)) by set_solver. done.
      * rewrite (bool_decide_eq_false_2 (c' = c)) by done. apply bool_decide_ext. set_solver.
    + apply bool_decide_eq_false in E. rewrite Hb by done. apply bool_decide_ext. set_solver.
Qed.
End choice.
