(* ===== verification/SchedulerMigrate.v ===== *)
(** The migration of threads to the idle cores: what one migration does, the walks that look for
    a thread to migrate, and the loop over the idle cores. *)
From S2P Require Import Prelude Common Results PriorityQueue PriorityQueueLinks PriorityQueueSpec Thread ThreadLocks ThreadWaiters ThreadInherit ThreadHandover ThreadState Scheduler SchedulerState SchedulerUpdate.

Implicit Types (k : Kernel) (m : Machine) (tb : table) (M : gmap Z Info).

(** * What a migration leaves *)

(** All that the queue uses of a thread but for its core. *)
Definition unplaced (mm : Member) : Z * Z * bool :=
  (GetAffinityMask mm, PriorityQueue.GetPriority mm, IsDummyThread mm).

Record migrated m m' : Prop := {
  mg_fixed : fixed m' = fixed m;
  mg_members : ∀ x, unplaced <$> members (queue_of m') !! x = unplaced <$> members (queue_of m) !! x;
  mg_threads : dom (sched_threads m) ⊆ dom (sched_threads m');
}.

#[global] Instance migrated_preorder : PreOrder migrated.
Proof.
  split; [by intros m|]. intros m1 m2 m3 [F1 M1 T1] [F2 M2 T2].
  split; [congruence|intros x; by rewrite M2|set_solver].
Qed.

Lemma similar_migrated m m' : similar m m' → migrated m m'.
Proof. intros [F Q _ T _]. split; [done|by rewrite Q|done]. Qed.

Lemma migrated_unpinned m m' : migrated m m' → unpinned m → unpinned m'.
Proof. intros [F _ _] U p. apply fixed_fields in F as (_ & _ & _ & _ & ->). apply U. Qed.

Lemma migrated_prio m m' x : migrated m m' → prio (m_kernel m') x = prio (m_kernel m) x.
Proof.
  intros [_ H _]. specialize (H x). unfold prio. unfold queue_of in H.
  destruct (members (priority_queue (m_kernel m')) !! x), (members (priority_queue (m_kernel m)) !! x); try done.
  by injection H as _ ? _.
Qed.

(** What the machine says agrees with the queue. *)
Record view m (tops : list Z) tb M : Prop := {
  vw_ok : machine_ok m;
  vw_queue : in_queue (m_kernel m) tb M;
  vw_four : length tops = 4%nat;
  vw_tops : ∀ c, core_ok c → at_ tops c = Some (front c tb);
  vw_running : ∀ c, core_ok c → running c m = front c tb;
}.

Lemma view_sched m tops tb M : view m tops tb M → sched_ok (m_kernel m).
Proof. intros V. apply (ko_sched _ (sn_ok _ (mo_sane _ (vw_ok _ _ _ _ V)))). Qed.

Section move.
Context (m : Machine) (tb : table) (M : gmap Z Info) (x c : Z) (i : Info) (fr : bool).
Context (O : machine_ok m) (H : in_queue (m_kernel m) tb M) (Ei : M !! x = Some i) (Hc : c < 4)
        (Hb : 0 ≤ c → Z.testbit (i_affinity i) c = true).

Lemma move_machine :
  ∃ m', on_kernel (move_to_core (i_core i) c x fr) m = Some m' ∧ machine_ok m' ∧ migrated m m'
    ∧ schedulers m' = schedulers m ∧ in_queue (m_kernel m') (moved_table tb x c i fr) (<[x := at_core c i]> M).
Proof using All.
  destruct (move_to_core_ok (m_kernel m) tb M x c i fr) as (k' & E & K' & R & H' & Hm); try done; [apply O|].
  unfold on_kernel. rewrite E. cbn [mbind option_bind]. exists (with_kernel k' m). split; [done|].
  destruct R as [Eq _]. assert (threads k' = threads (m_kernel m) ∧ cur_thread k' = cur_thread (m_kernel m)
    ∧ m_woken_dummy_threads k' = m_woken_dummy_threads (m_kernel m)) as (Et & Ec & Ew) by by rewrite Eq.
  destruct O as [Ks Hl Hco Ht Hp Hw Hcur]. split; [|split; [|done]].
  - split; cbn [m_kernel with_kernel]; rewrite ?Et, ?Ec, ?Ew; try done.
    intros y Hy. destruct (Hw y Hy) as (Hty & my & Em & Hd). split; [done|]. specialize (Hm y).
    unfold queue_of in *. cbn [m_kernel with_kernel]. rewrite Em in Hm.
    destruct (decide (y = x)); apply fmap_Some in Hm as (m' & E' & Es); injection Es as _ _ _ Ed; exists m'; (split; [done|congruence]).
  - split; [|intros y|done].
    + unfold fixed. cbn [m_kernel with_kernel]. by rewrite Eq.
    + specialize (Hm y). unfold queue_of. cbn [m_kernel with_kernel].
      destruct (decide (y = x)); destruct (members (priority_queue k') !! y), (members (priority_queue (m_kernel m)) !! y);
        try done; simpl in Hm; injection Hm as Ea _ Ep Ed; unfold unplaced; simpl; congruence.
Qed.

(** The fronts after a move to an idle core. *)
Context (Hc0 : core_ok c) (Hne : i_core i ≠ c) (Hp : prio_ok (i_priority i)) (He : order Scheduled c tb = []).

Lemma moved_front k c' :
  in_queue k (moved_table tb x c i fr) (<[x := at_core c i]> M) → core_ok c' →
  front c' (moved_table tb x c i fr)
  = if decide (c' = c) then x
    else if decide (c' = i_core i) then default 0 (head (filter (λ y, y ≠ x) (order Scheduled c' tb)))
    else front c' tb.
Proof using H Ei Hc0 Hne Hp He.
  intros H' Hc'. unfold front. destruct (decide (c' = c)) as [->|Hcc].
  - by erewrite moved_to_idle by (done || apply H).
  - destruct (decide (c' = i_core i)) as [->|Hcf]; [by rewrite moved_from|by rewrite moved_other].
Qed.
End move.

Lemma head_filter_ne (x : Z) l : head l ≠ Some x → head (filter (λ y, y ≠ x) l) = head l.
Proof. destruct l as [|y l]; [done|]. intros Hy. rewrite filter_cons_True; [done|]. intros ->. by destruct Hy. Qed.

(** * Whether an idle core could do better *)

(** [y] is the only thread scheduled on its core. *)
Definition alone (y : Z) tb : Prop := ∃ e, core_ok e ∧ order Scheduled e tb = [y].
(** Some core runs a thread whose priority is too high for a migration. *)
Definition high_running k tb : Prop :=
  ∃ e y, core_ok e ∧ head (order Scheduled e tb) = Some y ∧ prio k y < HighestCoreMigrationAllowedPriority.
Definition served k tb (c : Z) : Prop :=
  order Scheduled c tb ≠ [] ∨ (∀ y, y ∈ order Suggested c tb → alone y tb) ∨ high_running k tb.

Lemma served_ext k k' tb c : (∀ y, prio k' y = prio k y) → served k tb c → served k' tb c.
Proof.
  intros Hp [?|[?|(e & y & He & Hy & Hlt)]]; [by left|by right; left|]. right. right. exists e, y. by rewrite Hp.
Qed.

Section served_move.
Context (k k' : Kernel) (tb : table) (M : gmap Z Info) (x c : Z) (i : Info).
Context (H : in_queue k tb M) (H' : in_queue k' (moved_table tb x c i false) (<[x := at_core c i]> M))
        (Ei : M !! x = Some i) (Hc : core_ok c) (Hne : i_core i ≠ c) (Hp : prio_ok (i_priority i))
        (He : order Scheduled c tb = []) (Hx : ¬ alone x tb) (Hpr : ∀ y, prio k' y = prio k y).

Lemma moved_here : order Scheduled c (moved_table tb x c i false) = [x].
Proof using H H' Hc Hp He. eapply moved_to_idle; [apply H|done..]. Qed.

(** [x] leaves others on its core. *)
Lemma moved_away : core_ok (i_core i) → order Scheduled (i_core i) (moved_table tb x c i false) ≠ [].
Proof using H Ei Hne Hp Hx.
  intros Hf Hemp. rewrite moved_from in Hemp by done. apply Hx. exists (i_core i). split; [done|].
  apply singleton_list; [by eapply NoDup_order|]. intros y. split.
  - intros Hy. destruct (decide (y = x)) as [|Hyx]; [done|].
    assert (y ∈ filter (λ y, y ≠ x) (order Scheduled (i_core i) tb)) as Hin by by apply list_elem_of_filter.
    rewrite Hemp in Hin. by apply not_elem_of_nil in Hin.
  - intros ->. apply (elem_scheduled _ _ _ _ (iq_placed _ _ _ H)); [done|]. by exists i.
Qed.

Lemma moved_busy c' :
  core_ok c' → c' ≠ c → order Scheduled c' (moved_table tb x c i false) ≠ [] ↔ order Scheduled c' tb ≠ [].
Proof using H Ei Hne Hp Hx.
  intros Hc' Hcc. destruct (decide (c' = i_core i)) as [->|]; [|by rewrite moved_other].
  split; [|intros _; by apply moved_away]. intros _ E.
  assert (x ∈ order Scheduled (i_core i) tb) as Hin by (apply (elem_scheduled _ _ _ _ (iq_placed _ _ _ H)); eauto).
  rewrite E in Hin. by apply not_elem_of_nil in Hin.
Qed.

Lemma served_move c' : core_ok c' → served k tb c' → served k' (moved_table tb x c i false) c'.
Proof using All.
  intros Hc' Hs. destruct (decide (c' = c)) as [->|Hcc]; [left; by rewrite moved_here|].
  destruct (decide (order Scheduled c' tb = [])) as [Hemp|Hbusy]; [|left; by apply moved_busy].
  assert (∀ e, core_ok e → x ∈ order Scheduled e tb → e = i_core i) as Hxe.
  { intros e Hce (j & Ej & _ & <-)%(elem_scheduled _ _ _ _ (iq_placed _ _ _ H)); [congruence|done]. }
  destruct Hs as [|[Hal|(e & y & Hce & Hy & Hlt)]]; [done| |].
  - right. left. intros y. rewrite moved_other; [|done| |done].
    + intros (e & Hce & Ey)%Hal. exists e. split; [done|]. rewrite moved_other; [done|done| |].
      * intros ->. apply Hx. exists (i_core i). split; [done|]. rewrite Ey. f_equal.
        assert (x ∈ order Scheduled (i_core i) tb) as Hin by (apply (elem_scheduled _ _ _ _ (iq_placed _ _ _ H)); eauto).
        rewrite Ey in Hin. set_solver.
      * intros ->. by rewrite He in Ey.
    + intros ->. assert (x ∈ order Scheduled (i_core i) tb) as Hin by (apply (elem_scheduled _ _ _ _ (iq_placed _ _ _ H)); eauto).
      rewrite Hemp in Hin. by apply not_elem_of_nil in Hin.
  - right. right. destruct (decide (y = x)) as [->|Hyx].
    + exists c, x. rewrite moved_here, Hpr. done.
    + exists e, y. rewrite Hpr. split_and!; [done| |done].
      assert (e ≠ c) by (intros ->; by rewrite He in Hy).
      destruct (decide (e = i_core i)) as [->|]; [|by rewrite moved_other].
      rewrite moved_from by done. rewrite head_filter_ne; [done|]. rewrite Hy. congruence.
Qed.
End served_move.

(** * One turn of the loop over the idle cores *)

(** What is the front of a core is still that of some core. *)
Definition runs_on tb tb' : Prop :=
  ∀ e, core_ok e → order Scheduled e tb ≠ [] → ∃ e', core_ok e' ∧ front e' tb' = front e tb.

#[global] Instance runs_on_refl : Reflexive runs_on.
Proof. intros tb e He _. by exists e. Qed.

Record turned m tb (mask c : Z) m' tops' tb' M' (mask' : Z) : Prop := {
  tn_view : view m' tops' tb' M';
  tn_migrated : migrated m m';
  tn_marks : ∃ bits, mask' = Z.lor mask bits ∧ marks bits m m';
  tn_busy : ∀ c', core_ok c' → c' ≠ c → order Scheduled c' tb' ≠ [] ↔ order Scheduled c' tb ≠ [];
  tn_keeps : ∀ c', core_ok c' → served (m_kernel m) tb c' → served (m_kernel m') tb' c';
  tn_runs : runs_on tb tb';
}.

Lemma turned_refl m tops tb M mask c : view m tops tb M → turned m tb mask c m tops tb M mask.
Proof.
  intros V. split; try done. exists 0. rewrite Z.lor_0_r. split; [done|by apply marks_refl].
Qed.

(** The lists of tops. *)
Lemma tops_set tops (c x : Z) :
  length tops = 4%nat → core_ok c →
  ∃ tops', set_at tops c x = Some tops' ∧ length tops' = 4%nat
    ∧ ∀ c', core_ok c' → at_ tops' c' = if decide (c' = c) then Some x else at_ tops c'.
Proof.
  intros Hl Hc. unfold core_ok in *. rewrite set_at_ok by lia. eexists. split; [done|].
  split; [by rewrite length_insert|]. intros c' Hc'. by rewrite at_insert by lia.
Qed.

Section turn.
Context (clock : nat → Z) (m : Machine) (tops : list Z) (tb : table) (M : gmap Z Info) (mask c : Z).
Context (V : view m tops tb M) (Hc : core_ok c) (He : order Scheduled c tb = []).

Lemma suggested_info x :
  x ∈ order Suggested c tb → ∃ i t mm, M !! x = Some i ∧ prio_ok (i_priority i) ∧ Z.testbit (i_affinity i) c = true
    ∧ i_core i ≠ c ∧ i_core i < 4 ∧ x ≠ 0 ∧ threads (m_kernel m) !! x = Some t ∧ members (queue_of m) !! x = Some mm ∧ i = info_of mm.
Proof using V Hc He.
  pose proof (vw_queue _ _ _ _ V) as H.
  intros (i & Ei & Hp & Hb & Hne)%(elem_suggested _ _ _ _ (iq_placed _ _ _ H)); [|done].
  destruct (in_queue_info _ _ _ _ _ (view_sched _ _ _ _ V) H Ei) as (t & mm & Et & Em & Hx & Hi & _ & _ & H4 & _).
  exists i, t, mm. by split_and!.
Qed.

(** The core that a scheduled thread leaves runs its next thread already. *)
Section move.
Context (x : Z) (i : Info) (Hx : x ∈ order Suggested c tb) (Ei : M !! x = Some i) (Hna : ¬ alone x tb).

(** The migration of [x], when the front of its core is not [x] or has been replaced. *)
Lemma move_ok m1 tops1 :
  machine_ok m1 → similar m m1 → length tops1 = 4%nat →
  (∀ c', core_ok c' → c' ≠ c → at_ tops1 c' = Some (running c' m1)
     ∧ running c' m1 = if decide (c' = i_core i) then default 0 (head (filter (λ y, y ≠ x) (order Scheduled c' tb))) else front c' tb) →
  ∃ m2 tops2 bit m3 tb' M', on_kernel (move_to_core (i_core i) c x false) m1 = Some m2
    ∧ set_at tops1 c x = Some tops2 ∧ UpdateHighestPriorityThread clock c x m2 = Some (bit, m3)
    ∧ view m3 tops2 tb' M' ∧ migrated m1 m3 ∧ marks bit m1 m3 ∧ served (m_kernel m3) tb' c
    ∧ (∀ c', core_ok c' → c' ≠ c → order Scheduled c' tb' ≠ [] ↔ order Scheduled c' tb ≠ [])
    ∧ (∀ c', core_ok c' → served (m_kernel m) tb c' → served (m_kernel m3) tb' c') ∧ runs_on tb tb'.
Proof using V Hc He Hx Ei Hna.
  intros O1 S1 Hl1 Hf1. pose proof (vw_queue _ _ _ _ V) as H. pose proof (similar_in_queue _ _ _ _ S1 H) as H1.
  destruct (suggested_info x Hx) as (i' & t & mm & Ei' & Hp & Hb & Hne & H4 & Hx0 & Et & Em & Hi).
  rewrite Ei in Ei'. injection Ei' as <-.
  destruct (move_machine m1 tb M x c i false O1 H1 Ei) as (m2 & E2 & O2 & G2 & Es2 & H2); [apply Hc|done|].
  destruct (tops_set tops1 c x Hl1 Hc) as (tops2 & E2t & Hl2 & Ht2).
  destruct (fixed_fields _ _ (sm_fixed _ _ S1)) as (Et1 & _).
  destruct (fixed_fields _ _ (mg_fixed _ _ G2)) as (Et2 & _).
  destruct (UpdateHighestPriorityThread_ok clock m2 c x O2 Hc) as (bit & m3 & E3 & [O3 S3 K3 R3]).
  { right. rewrite Et2, Et1. by exists t. }
  pose proof (similar_in_queue _ _ _ _ S3 H2) as H3.
  assert (∀ y, prio (m_kernel m3) y = prio (m_kernel m) y) as Hpr.
  { intros y. rewrite (migrated_prio m2 m3), (migrated_prio m1 m2), (migrated_prio m m1); [done|by apply similar_migrated|done|by apply similar_migrated]. }
  assert (∀ c', core_ok c' → running c' m2 = running c' m1) as Hr2 by (intros c' _; unfold running, scheduler; by rewrite Es2).
  exists m2, tops2, bit, m3, (moved_table tb x c i false), (<[x := at_core c i]> M).
  split; [done|]. split; [done|]. split; [done|]. split; [split; [done|done|done| |]|].
  - intros c' Hc'. rewrite Ht2, (moved_front m1 tb M x c i false H1 Ei Hc Hne Hp He _ _ H3 Hc') by done.
    destruct (decide (c' = c)) as [->|Hcc]; [done|]. by destruct (Hf1 c' Hc' Hcc) as [-> ->].
  - intros c' Hc'. rewrite R3, (moved_front m1 tb M x c i false H1 Ei Hc Hne Hp He _ _ H3 Hc') by done.
    destruct (decide (c' = c)) as [->|Hcc]; [done|]. rewrite Hr2 by done. by destruct (Hf1 c' Hc' Hcc) as [_ ->].
  - split; [by etrans; [|apply similar_migrated]|]. split; [eapply marks_before; [exact K3|by rewrite Es2]|].
    split; [left; by erewrite moved_here by (done || exact H)|]. split; [intros c' ? ?; by eapply moved_busy|].
    split; [intros c' Hc' Hs; by eapply (served_move (m_kernel m))|].
    intros e Hce Hbusy. assert (e ≠ c) as Hec by by intros ->. destruct (decide (front e tb = x)) as [->|Hex].
    + exists c. split; [done|]. rewrite (moved_front m1 tb M x c i false H1 Ei Hc Hne Hp He _ _ H3 Hc). by rewrite decide_True.
    + exists e. split; [done|]. rewrite (moved_front m1 tb M x c i false H1 Ei Hc Hne Hp He _ _ H3 Hce), decide_False by done.
      destruct (decide (e = i_core i)) as [->|]; [|done]. unfold front in *. rewrite head_filter_ne; [done|].
      destruct (order Scheduled (i_core i) tb); [done|]. simpl in *. congruence.
Qed.
End move.

(** ** The walk over the suggested threads *)
Definition core_of (y : Z) : Z := match M !! y with Some i => i_core i | None => -1 end.
Definition is_front (y : Z) : Prop := core_ok (core_of y) ∧ front (core_of y) tb = y.

Lemma front_not_alone x i :
  M !! x = Some i → x ≠ 0 → (core_ok (i_core i) → front (i_core i) tb ≠ x) → ¬ alone x tb.
Proof using V Hc He.
  intros Ei Hx Hf (e & Hce & Ee). assert (x ∈ order Scheduled e tb) as Hin by (rewrite Ee; set_solver).
  apply (elem_scheduled _ _ _ _ (iq_placed _ _ _ (vw_queue _ _ _ _ V)) Hce) in Hin as (j & Ej & _ & Hj).
  rewrite Ei in Ej. injection Ej as <-. subst e. apply Hf; [done|]. unfold front. by rewrite Ee.
Qed.

(** At most three threads can be the fronts of other cores. *)
Lemma fronts_few pre rest :
  order Suggested c tb = pre ++ rest → (∀ y, y ∈ pre → is_front y) → (length pre < 4)%nat.
Proof using V Hc He.
  intros Eo Hf. pose proof (vw_queue _ _ _ _ V) as H.
  assert (NoDup pre) as Hnd.
  { pose proof (NoDup_order _ _ _ Suggested c H Hc) as Hnd. rewrite Eo in Hnd. by apply NoDup_app in Hnd as [? _]. }
  assert (∀ y, y ∈ pre → core_of y ≠ c) as Hne.
  { intros y Hy. destruct (suggested_info y) as (i & _ & _ & Ei & _ & _ & ? & _); [rewrite Eo; set_solver|].
    unfold core_of. by rewrite Ei. }
  assert (NoDup (c :: map core_of pre)) as Hnd'.
  { constructor.
    - intros (y & Ey & Hy)%list_elem_of_fmap. by apply (Hne y).
    - apply NoDup_fmap_2_strong; [|done]. intros y z Hy Hz E. destruct (Hf y Hy) as [_ Hy'], (Hf z Hz) as [_ Hz']. rewrite E in Hy'. congruence. }
  assert (c :: map core_of pre ⊆ [0; 1; 2; 3]) as Hsub.
  { intros e [->|(y & -> & Hy)%list_elem_of_fmap]%elem_of_cons.
    - destruct (core_cases c Hc) as [->|[->|[->| ->]]]; set_solver.
    - destruct (Hf y Hy) as [Hcy _]. destruct (core_cases _ Hcy) as [->|[->|[->| ->]]]; set_solver. }
  pose proof (submseteq_length _ _ (NoDup_submseteq _ _ Hnd' Hsub)) as Hlen. simpl in Hlen.
  rewrite length_map in Hlen. lia.
Qed.

Lemma suggest_loop_ok fuel pre rest :
  order Suggested c tb = pre ++ rest → (length rest < fuel)%nat → (∀ y, y ∈ pre → is_front y) →
  ∃ s cand mask' tops' m',
    suggest_loop clock fuel c (default 0 (head rest)) (map core_of pre) mask tops m = Some (s, cand, mask', tops', m')
    ∧ (s = 0 ∧ cand = map core_of (order Suggested c tb) ∧ mask' = mask ∧ tops' = tops ∧ m' = m
         ∧ (∀ y, y ∈ order Suggested c tb → is_front y)
       ∨ s ≠ 0 ∧ ∃ tb' M', turned m tb mask c m' tops' tb' M' mask' ∧ served (m_kernel m') tb' c).
Proof using V Hc He.
  revert pre rest. induction fuel as [|fuel IH]; intros pre rest Eo Hlen Hpre; [lia|]. cbn [suggest_loop].
  destruct rest as [|x rest]; simpl default.
  { cbn [Z.eqb]. exists 0, (map core_of pre), mask, tops, m. split; [done|]. left. rewrite app_nil_r in Eo. by rewrite Eo. }
  assert (x ∈ order Suggested c tb) as Hx by (rewrite Eo; set_solver).
  destruct (suggested_info x Hx) as (i & t & mm & Ei & Hp & Hb & Hne & H4 & Hx0 & Et & Em & Hi).
  pose proof (vw_queue _ _ _ _ V) as H. pose proof (view_sched _ _ _ _ V) as S.
  rewrite (proj2 (Z.eqb_neq x 0)) by done. rewrite Em. cbn [mbind option_bind].
  replace (GetActiveCore mm) with (i_core i) by by rewrite Hi.
  assert (∃ top, top_at tops (i_core i) = Some top ∧ (core_ok (i_core i) → top = front (i_core i) tb)
    ∧ (¬ core_ok (i_core i) → top = 0)) as (top & -> & Htop & Htop0).
  { unfold top_at. destruct (Z.leb_spec 0 (i_core i)).
    - assert (core_ok (i_core i)) as Hci by done. exists (front (i_core i) tb).
      split; [by apply (vw_tops _ _ _ _ V)|]. split; [done|]. intros Hn. by destruct Hn.
    - exists 0. split; [done|]. split; [|done]. unfold core_ok. lia. }
  cbn [mbind option_bind]. destruct (Z.eqb_spec top x) as [Heq|Htx]; cbn [negb].
  - (* the front of its core *)
    assert (core_ok (i_core i)) as Hci.
    { destruct (decide (core_ok (i_core i))) as [|Hn]; [done|]. rewrite Htop0 in Heq; congruence. }
    rewrite check_bind_Some by (rewrite length_map; pose proof (fronts_few pre _ Eo Hpre); unfold NumCores; lia).
    unfold GetSuggestedNext, queue_of. rewrite (GetNext_order _ tb M Suggested c pre x rest H Hc Eo). cbn [mbind option_bind].
    assert (core_of x = i_core i) as Hcx by (unfold core_of; by rewrite Ei).
    replace (map core_of pre ++ [i_core i]) with (map core_of (pre ++ [x])) by (rewrite map_app; simpl; by rewrite Hcx).
    apply IH; [by rewrite <-(assoc (++))|simpl in Hlen; lia|].
    intros y [Hy| ->%list_elem_of_singleton]%elem_of_app; [by apply Hpre|]. split; rewrite Hcx; [done|]. by rewrite <-Htop.
  - assert (too_high_to_migrate top (m_kernel m) = Some (negb (top =? 0) && (prio (m_kernel m) top <? HighestCoreMigrationAllowedPriority))) as ->.
    { unfold too_high_to_migrate. destruct (Z.eqb_spec top 0); cbn [negb andb]; [done|].
      destruct (decide (core_ok (i_core i))) as [Hci|Hn]; [|by rewrite Htop0 in n].
      rewrite Htop in * by done. destruct (front_thread _ _ _ _ S H Hci) as [|[tt Ett]]; [done|].
      by rewrite (GetPriority_ok _ _ tt). }
    cbn [mbind option_bind]. destruct (negb (top =? 0) && _) eqn:Ehigh.
    + (* not to be migrated *)
      eexists x, _, mask, tops, m. split; [done|]. right. split; [done|]. exists tb, M. split; [by apply turned_refl|].
      apply andb_prop in Ehigh as [Hne0%negb_true_iff%Z.eqb_neq Hlt%Z.ltb_lt].
      assert (core_ok (i_core i)) as Hci by (destruct (decide (core_ok (i_core i))); [done|]; by rewrite Htop0 in Hne0).
      right. right. exists (i_core i), top. split_and!; [done| |done]. rewrite Htop in Hne0 |- * by done. unfold front in *.
      by destruct (order Scheduled (i_core i) tb).
    + destruct (move_ok x i Hx Ei) with (m1 := m) (tops1 := tops) as (m2 & tops2 & bit & m3 & tb' & M' & E2 & E2t & E3 & V3 & G3 & K3 & Hs & Hbusy & Hk & Hrun);
        [|apply V|done|apply V| |].
      * apply (front_not_alone x i); [done|done|]. intros Hci. by rewrite <-Htop.
      * intros c' Hc' Hcc. rewrite (vw_running _ _ _ _ V c' Hc'), (vw_tops _ _ _ _ V c' Hc'). split; [done|].
        destruct (decide (c' = i_core i)) as [->|]; [|done]. rewrite head_filter_ne; [done|].
        rewrite Htop in Htx by done. unfold front in Htx. destruct (order Scheduled (i_core i) tb); [done|]. simpl in *. congruence.
      * rewrite E2. cbn [mbind option_bind]. rewrite E2t. cbn [mbind option_bind]. rewrite E3. cbn [mbind option_bind].
        eexists x, _, _, tops2, m3. split; [done|]. right. split; [done|]. exists tb', M'. split; [|done].
        split; try done. by exists bit.
Qed.

Lemma is_front_order x :
  is_front x → x ≠ 0 → ∃ l, order Scheduled (core_of x) tb = x :: l.
Proof using V Hc He.
  intros [Hcx Hx] Hx0. unfold front in Hx. destruct (order Scheduled (core_of x) tb) as [|y l]; [done|].
  simpl in Hx. subst y. by exists l.
Qed.

Lemma candidate_loop_ok pre ys :
  order Suggested c tb = pre ++ ys → (∀ y, y ∈ pre ++ ys → is_front y) → (∀ y, y ∈ pre → alone y tb) →
  ∃ mask' tops' m' tb' M', candidate_loop clock c (map core_of ys) mask tops m = Some (mask', tops', m')
    ∧ turned m tb mask c m' tops' tb' M' mask' ∧ served (m_kernel m') tb' c.
Proof using V Hc He.
  revert pre. induction ys as [|x ys IH]; intros pre Eo Hf Hal; cbn [map candidate_loop].
  { exists mask, tops, m, tb, M. split; [done|]. split; [by apply turned_refl|]. right. left. intros y.
    rewrite Eo, app_nil_r. apply Hal. }
  assert (x ∈ order Suggested c tb) as Hx by (rewrite Eo; set_solver).
  destruct (suggested_info x Hx) as (i & t & mm & Ei & Hp & Hb & Hne & H4 & Hx0 & Et & Em & Hi).
  pose proof (vw_queue _ _ _ _ V) as H. pose proof (view_sched _ _ _ _ V) as S.
  assert (is_front x) as Hfx by (apply Hf; set_solver). pose proof Hfx as [Hcx Hfr].
  destruct (is_front_order x Hfx Hx0) as [l El].
  rewrite (vw_tops _ _ _ _ V) by done. cbn [mbind option_bind]. rewrite Hfr. unfold GetScheduledNext, queue_of.
  rewrite (GetNext_order _ tb M Scheduled (core_of x) [] x l H Hcx El). cbn [mbind option_bind].
  assert (core_of x = i_core i) as Ecx by (unfold core_of; by rewrite Ei). rewrite Ecx in *.
  destruct l as [|z l]; simpl default.
  { cbn [Z.eqb negb]. apply (IH (pre ++ [x])); [by rewrite <-(assoc (++))|intros y; rewrite <-(assoc (++)); apply Hf|].
    intros y [?| ->%list_elem_of_singleton]%elem_of_app; [by apply Hal|]. by exists (i_core i). }
  assert (z ∈ order Scheduled (i_core i) tb) as Hz by (rewrite El; set_solver).
  assert (z ≠ 0) as Hz0 by by eapply order_nonzero.
  rewrite (proj2 (Z.eqb_neq z 0)) by done. cbn [negb].
  destruct (tops_set tops (i_core i) z (vw_four _ _ _ _ V) Hcx) as (tops1 & -> & Hl1 & Ht1). cbn [mbind option_bind].
  destruct (UpdateHighestPriorityThread_ok clock m (i_core i) z (vw_ok _ _ _ _ V) Hcx) as (bit & m1 & -> & [O1 S1 K1 R1]).
  { right. apply (elem_scheduled _ _ _ _ (iq_placed _ _ _ H) Hcx) in Hz as (j & Ej & _).
    destruct (in_queue_info _ _ _ _ _ S H Ej) as (tz & _ & Etz & _). by exists tz. }
  cbn [mbind option_bind].
  destruct (move_ok x i Hx Ei) with (m1 := m1) (tops1 := tops1) as (m2 & tops2 & bit' & m3 & tb' & M' & E2 & E2t & E3 & V3 & G3 & K3 & Hs & Hbusy & Hk & Hrun); try done.
  - intros (e & Hce & Ee). assert (x ∈ order Scheduled e tb) as Hin by (rewrite Ee; set_solver).
    apply (elem_scheduled _ _ _ _ (iq_placed _ _ _ H) Hce) in Hin as (j & Ej & _ & Hj).
    rewrite Ei in Ej. injection Ej as <-. subst e. congruence.
  - intros c' Hc' Hcc. rewrite R1, Ht1 by done. destruct (decide (c' = i_core i)) as [->|].
    + split; [done|]. rewrite El, filter_cons_False by tauto. pose proof (NoDup_order _ _ _ Scheduled (i_core i) H Hcx) as Hnd.
      rewrite El in Hnd. apply NoDup_cons in Hnd as [Hxl _]. rewrite filter_cons_True by set_solver. done.
    + split; [|by apply V]. rewrite (vw_running _ _ _ _ V) by done. by apply V.
  - rewrite E2. cbn [mbind option_bind]. rewrite E2t. cbn [mbind option_bind]. rewrite E3. cbn [mbind option_bind].
    eexists _, tops2, m3, tb', M'. split; [done|]. split; [|done]. split; try done.
    + etrans; [by apply similar_migrated|done].
    + exists (Z.lor bit bit'). split; [by rewrite Z.lor_assoc|]. by eapply marks_trans.
Qed.

Lemma migrate_to_ok :
  ∃ mask' tops' m' tb' M', migrate_to clock c mask tops m = Some (mask', tops', m')
    ∧ turned m tb mask c m' tops' tb' M' mask' ∧ served (m_kernel m') tb' c.
Proof using V Hc He.
  pose proof (vw_queue _ _ _ _ V) as H. unfold migrate_to, GetSuggestedFront, queue_of.
  rewrite (GetFront_ok _ _ _ _ (iq_rep _ _ _ H) Hc). cbn [mbind option_bind].
  destruct (order Suggested c tb) as [|x rest] eqn:Eo; simpl default.
  { cbn [Z.eqb negb]. exists mask, tops, m, tb, M. split; [done|]. split; [by apply turned_refl|]. right. left. rewrite Eo.
    intros y Hy. by apply not_elem_of_nil in Hy. }
  assert (x ≠ 0) as Hx0 by (apply (order_nonzero _ tb M Suggested c x (view_sched _ _ _ _ V) H Hc); rewrite Eo; set_solver).
  rewrite (proj2 (Z.eqb_neq x 0)) by done. cbn [negb].
  destruct (suggest_loop_ok (suggest_fuel m) [] (x :: rest) Eo) as (s & cand & mask' & tops' & m' & E & Hcase).
  { unfold suggest_fuel. apply le_n_S. rewrite <-Eo. rewrite <-(size_list_to_set (C := gset Z)) by by eapply NoDup_order.
    rewrite <-size_dom. apply subseteq_size. intros y Hy%elem_of_list_to_set.
    destruct (suggested_info y Hy) as (_ & _ & my & _ & _ & _ & _ & _ & _ & _ & Em & _). apply elem_of_dom. by exists my. }
  { intros y Hy. by apply not_elem_of_nil in Hy. }
  simpl default in E. simpl map in E. rewrite E. cbn [mbind option_bind].
  destruct Hcase as [(-> & -> & -> & -> & -> & Hf)|(Hs & tb' & M' & Htn & Hsv)].
  - cbn [Z.eqb]. apply (candidate_loop_ok []); [done|done|]. intros y Hy. by apply not_elem_of_nil in Hy.
  - rewrite (proj2 (Z.eqb_neq s 0)) by done. by exists mask', tops', m', tb', M'.
Qed.
End turn.

(** * The loop over the idle cores *)
Fixpoint fold_idle (clock : nat → Z) (cs : list Z) (mask : Z) (tops : list Z) (m : Machine) : option (Z * list Z * Machine) :=
  match cs with
  | [] => Some (mask, tops, m)
  | c :: cs => '(mask, tops, m) ← migrate_to clock c mask tops m; fold_idle clock cs mask tops m
  end.

Lemma idle_loop_step clock n idle mask tops m :
  in_width 4 idle → idle ≠ 0 →
  ∃ c rest, cores idle = c :: cores rest ∧ in_width 4 rest
    ∧ idle_loop clock (S n) idle mask tops m
      = ('(mask, tops, m) ← migrate_to clock c mask tops m; idle_loop clock n rest mask tops m).
Proof.
  intros H Hne. exists (countr_zero 64 idle), (Z.land idle (lnotw 64 (Z.shiftl 1 (countr_zero 64 idle)))).
  apply small_cases in H. destruct H as [->|H]; [done|].
  all_cases H; (split; [vm_compute; reflexivity|]); (split; [split; [discriminate|reflexivity]|]); reflexivity.
Qed.

Lemma idle_loop_cores clock fuel idle mask tops m :
  in_width 4 idle → (length (cores idle) < fuel)%nat →
  idle_loop clock fuel idle mask tops m = fold_idle clock (cores idle) mask tops m.
Proof.
  revert idle mask tops m. induction fuel as [|n IH]; intros idle mask tops m Hw Hl; [lia|].
  destruct (decide (idle = 0)) as [->|Hne]; [done|].
  destruct (idle_loop_step clock n idle mask tops m Hw Hne) as (c & rest & Ec & Hr & ->). rewrite Ec in *. cbn [fold_idle length] in *.
  destruct (migrate_to clock c mask tops m) as [[[mask' tops'] m']|]; [|done]. cbn [mbind option_bind]. apply IH; [done|lia].
Qed.

Section idle.
Context (clock : nat → Z).

Lemma fold_idle_ok cs m tops tb M mask :
  NoDup cs → Forall core_ok cs → view m tops tb M → (∀ c, c ∈ cs → order Scheduled c tb = []) →
  ∃ mask' tops' m' tb' M', fold_idle clock cs mask tops m = Some (mask', tops', m')
    ∧ view m' tops' tb' M' ∧ migrated m m' ∧ (∃ bits, mask' = Z.lor mask bits ∧ marks bits m m')
    ∧ (∀ c, c ∈ cs → served (m_kernel m') tb' c)
    ∧ (∀ c, core_ok c → served (m_kernel m) tb c → served (m_kernel m') tb' c)
    ∧ (∀ c, core_ok c → order Scheduled c tb ≠ [] → order Scheduled c tb' ≠ []) ∧ runs_on tb tb'.
Proof.
  intros Hnd. revert m tops tb M mask. induction Hnd as [|c cs Hnc Hnd IH]; intros m tops tb M mask Hcs V He; cbn [fold_idle].
  { exists mask, tops, m, tb, M. split; [done|]. split; [done|]. split; [done|]. split; [|split; [|by split_and!]].
    - exists 0. rewrite Z.lor_0_r. split; [done|by apply marks_refl].
    - intros c Hc. by apply not_elem_of_nil in Hc. }
  apply Forall_cons in Hcs as [Hc Hcs].
  destruct (migrate_to_ok clock m tops tb M mask c V Hc) as (mask1 & tops1 & m1 & tb1 & M1 & -> & [V1 G1 (b1 & -> & K1) B1 S1 W1] & Hs1).
  { apply He. set_solver. }
  cbn [mbind option_bind].
  destruct (IH m1 tops1 tb1 M1 (Z.lor mask b1) Hcs V1) as (mask2 & tops2 & m2 & tb2 & M2 & -> & V2 & G2 & (b2 & -> & K2) & Hs2 & S2 & B2 & W2).
  { intros c' Hc'. assert (core_ok c') as Hok by by (rewrite Forall_forall in Hcs; apply Hcs).
    destruct (decide (order Scheduled c' tb1 = [])) as [|E]; [done|]. exfalso.
    assert (c' ≠ c) as Hcc by by intros ->. apply (proj1 (B1 c' Hok Hcc) E). apply He. set_solver. }
  exists (Z.lor (Z.lor mask b1) b2), tops2, m2, tb2, M2. split; [done|]. split; [done|]. split; [by etrans|]. split; [|split; [|split; [|split]]].
  - exists (Z.lor b1 b2). split; [by rewrite Z.lor_assoc|by eapply marks_trans].
  - intros c' [->|Hc']%elem_of_cons; [by apply S2|by apply Hs2].
  - intros c' Hok Hsv. by apply S2, S1.
  - intros c' Hok Hb. apply B2; [done|]. apply B1; [done| |done]. intros ->. apply Hb, He. set_solver.
  - intros e Hce Hb. assert (e ≠ c) as Hec by (intros ->; apply Hb, He; set_solver).
    destruct (W1 e Hce Hb) as (e1 & Hc1 & E1). destruct (W2 e1 Hc1) as (e2 & Hc2 & E2); [|exists e2; by rewrite E2].
    intros Hemp. apply Hb. apply (front_zero _ _ M e (view_sched _ _ _ _ V) (vw_queue _ _ _ _ V) Hce).
    rewrite <-E1. unfold front. by rewrite Hemp.
Qed.
End idle.

(** * Dummy threads *)
Lemma wakeup_loop_ok xs m :
  (∀ x, x ∈ xs → is_Some (sched_threads m !! x) ∧ ∃ mm, members (queue_of m) !! x = Some mm ∧ IsDummyThread mm = true) →
  ∃ ts, wakeup_loop xs m = Some (with_sched_threads ts m)
    ∧ ∀ y, ts !! y = if decide (y ∈ xs) then set_dummy_runnable true <$> sched_threads m !! y else sched_threads m !! y.
Proof.
  revert m. induction xs as [|x xs IH]; intros m Hx; cbn [wakeup_loop].
  { exists (sched_threads m). split; [by destruct m|]. intros y. rewrite decide_False; [done|]. apply not_elem_of_nil. }
  destruct (Hx x) as ([st Est] & mm & Em & Hd); [set_solver|].
  unfold DummyThreadEndWait. rewrite Em. cbn [mbind option_bind]. rewrite Hd. cbn [check mbind option_bind].
  unfold on_sched_thread. rewrite Est. cbn [mbind option_bind].
  destruct (IH (with_sched_threads (<[x := set_dummy_runnable true st]> (sched_threads m)) m)) as (ts & -> & Hts).
  { intros y Hy. destruct (Hx y) as (Hsy & Hdy); [set_solver|]. split; [|exact Hdy]. cbn. rewrite lookup_insert.
    destruct (decide (x = y)); eauto. }
  cbn [sched_threads with_sched_threads] in Hts. exists ts. split; [done|]. intros y. rewrite Hts, lookup_insert.
  destruct (decide (x = y)) as [<-|Hne].
  - rewrite Est, (decide_True (P := x ∈ x :: xs)) by set_solver. by destruct (decide (x ∈ xs)).
  - destruct (decide (y ∈ xs)); [rewrite decide_True by set_solver|rewrite decide_False by set_solver]; done.
Qed.

Lemma dummy_wait_ok m :
  machine_ok m →
  ∃ ts, dummy_wait m = Some (with_sched_threads ts m) ∧ dom ts = dom (sched_threads m)
    ∧ ∀ x, x ≠ cur_thread (m_kernel m) → ts !! x = sched_threads m !! x.
Proof.
  intros O. destruct (mo_cur m O) as [t Et].
  destruct (sc_member _ (ko_sched _ (sn_ok _ (mo_sane m O))) _ t Et) as (mm & Em & _).
  unfold dummy_wait, RequestDummyThreadWait. unfold queue_of. rewrite Em, Et. cbn [mbind option_bind].
  destruct (IsDummyThread mm) eqn:Ed; cbn [andb].
  2: { exists (sched_threads m). by destruct m. }
  destruct (negb _); [|exists (sched_threads m); by destruct m].
  cbn [check mbind option_bind]. unfold on_sched_thread.
  assert (is_Some (sched_threads m !! cur_thread (m_kernel m))) as [st Est].
  { apply elem_of_dom, (mo_threads m O), elem_of_dom. by exists t. }
  rewrite Est. cbn [mbind option_bind]. eexists. split; [done|]. split.
  - apply set_eq. intros y. rewrite elem_of_dom, elem_of_dom, lookup_insert_is_Some'.
    split; [intros [<-|?]; [by exists st|done]|by right].
  - intros x Hx. by rewrite lookup_insert_ne.
Qed.

Lemma wakeup_ok m :
  machine_ok m →
  ∃ ts, WakeupWaitingDummyThreads m
      = Some (with_kernel (with_scheduler (m_scheduler_update_needed (m_kernel m)) ∅ (schedule_counts (m_kernel m)) (m_kernel m))
                (with_sched_threads ts m))
    ∧ dom ts = dom (sched_threads m)
    ∧ ∀ x, x ∈ m_woken_dummy_threads (m_kernel m) → m_dummy_thread_runnable <$> ts !! x = Some true.
Proof.
  intros O. unfold WakeupWaitingDummyThreads.
  assert (∀ x, x ∈ m_woken_dummy_threads (m_kernel m) → is_Some (sched_threads m !! x)) as Hs.
  { intros x Hx. apply elem_of_dom, (mo_threads m O), elem_of_dom. by apply (mo_woken m O). }
  destruct (wakeup_loop_ok (elements (m_woken_dummy_threads (m_kernel m))) m) as (ts & -> & Hts).
  { intros x Hx%elem_of_elements. split; [by apply Hs|by apply (mo_woken m O)]. }
  cbn [mbind option_bind]. exists ts. split; [done|]. split.
  - apply set_eq. intros y. rewrite !elem_of_dom, Hts. by destruct (decide _); rewrite ?fmap_is_Some.
  - intros x Hx. rewrite Hts, decide_True by by apply elem_of_elements. by destruct (Hs x Hx) as [st ->].
Qed.

(** What the dummy threads are told. *)
Lemma dummies_ok m :
  machine_ok m →
  ∃ m1 m2, WakeupWaitingDummyThreads m = Some m1 ∧ dummy_wait m1 = Some m2 ∧ machine_ok m2
    ∧ m_kernel m2 = with_scheduler (m_scheduler_update_needed (m_kernel m)) ∅ (schedule_counts (m_kernel m)) (m_kernel m)
    ∧ schedulers m2 = schedulers m ∧ processes m2 = processes m
    ∧ ∀ x, x ∈ m_woken_dummy_threads (m_kernel m) → x ≠ cur_thread (m_kernel m) →
        m_dummy_thread_runnable <$> sched_threads m2 !! x = Some true.
Proof.
  intros O. destruct (wakeup_ok m O) as (ts & E1 & Hd & Hw). set (m1 := with_kernel _ _) in E1.
  assert (∀ ts', dom ts' = dom (sched_threads m) → machine_ok (with_sched_threads ts' m1)) as Hok.
  { intros ts' Hd'. destruct O. split; try done; [by apply sane_ext with (m_kernel m)|]. cbn. by rewrite Hd'. }
  assert (machine_ok m1) as O1 by (replace m1 with (with_sched_threads ts m1) by done; by apply Hok).
  destruct (dummy_wait_ok m1 O1) as (ts2 & E2 & Hd2 & Hs2). exists m1, (with_sched_threads ts2 m1).
  split; [done|]. split; [done|]. split; [apply Hok; by rewrite Hd2|]. split; [done|]. split; [done|]. split; [done|].
  intros x Hx Hne. cbn [sched_threads with_sched_threads]. rewrite Hs2 by done. by apply Hw.
Qed.

(** * The whole *)
Lemma choose_ok clock m tb M :
  machine_ok m → unpinned m → in_queue (m_kernel m) tb M →
  ∃ mask idle tops m', choose_loop clock [0; 1; 2; 3] m = Some (mask, idle, tops, m')
    ∧ view m' tops tb M ∧ similar m m' ∧ marks mask m m'
    ∧ in_width 4 idle ∧ ∀ c, core_ok c → c ∈ cores idle ↔ order Scheduled c tb = [].
Proof.
  intros O U H.
  destruct (choose_loop_ok clock [0; 1; 2; 3] m tb M) as (mask & idle & m1 & E & O1 & S1 & K1 & R1 & Hw & Hb); try done.
  { by apply (bool_decide_unpack _). }
  { by repeat constructor. }
  exists mask, idle, (map (λ c, front c tb) [0; 1; 2; 3]), m1. split; [done|].
  assert (∀ c, core_ok c → c ∈ [0; 1; 2; 3]) as Hall.
  { intros c Hc. destruct (core_cases c Hc) as [->|[->|[->| ->]]]; set_solver. }
  split; [|split; [done|split; [done|split; [done|]]]].
  - split; [done|by eapply similar_in_queue|done| |].
    + intros c Hc. by destruct (core_cases c Hc) as [->|[->|[->| ->]]].
    + intros c Hc. rewrite R1, decide_True by auto. done.
  - intros c Hc. rewrite elem_cores, Hb, bool_decide_eq_true by apply Hc. naive_solver.
Qed.

Lemma few_cores idle : (length (cores idle) < 65)%nat.
Proof. unfold cores. pose proof (length_filter (λ c, Z.testbit idle c = true) [0; 1; 2; 3]) as Hl. simpl in Hl. lia. Qed.

Lemma idle_loop_ok clock fuel idle m tops tb M mask :
  view m tops tb M → in_width 4 idle → (length (cores idle) < fuel)%nat →
  (∀ c, core_ok c → c ∈ cores idle ↔ order Scheduled c tb = []) →
  ∃ mask' tops' m' tb' M', idle_loop clock fuel idle mask tops m = Some (mask', tops', m')
    ∧ view m' tops' tb' M' ∧ migrated m m' ∧ (∃ bits, mask' = Z.lor mask bits ∧ marks bits m m')
    ∧ (∀ c, core_ok c → served (m_kernel m') tb' c) ∧ runs_on tb tb'.
Proof.
  intros V Hw Hl Hidle. rewrite idle_loop_cores by done.
  destruct (fold_idle_ok clock (cores idle) m tops tb M mask (NoDup_cores _)) as (mask2 & tops2 & m2 & tb2 & M2 & E & V2 & G2 & K2 & Hs2 & _ & B2 & W2).
  { apply Forall_forall. intros c [Hc _]%elem_cores. done. }
  { done. }
  { intros c Hc. apply Hidle; [|done]. by apply elem_cores in Hc as [? _]. }
  exists mask2, tops2, m2, tb2, M2. split; [done|]. split; [done|]. split; [done|]. split; [done|]. split; [|done].
  intros c Hc. destruct (decide (order Scheduled c tb = [])) as [Ec|Hb]; [apply Hs2; by apply Hidle|].
  left. by apply B2.
Qed.

(** What the update settles. *)
Record settled m mask m' tb tb' M' : Prop := {
  se_ok : machine_ok m';
  se_queue : in_queue (m_kernel m') tb' M';
  se_running : ∀ c, core_ok c → running c m' = front c tb';
  se_served : ∀ c, core_ok c → served (m_kernel m') tb' c;
  se_runs : runs_on tb tb';
  se_marks : marks mask m m';
  se_update : m_scheduler_update_needed (m_kernel m') = false;
  se_threads : threads (m_kernel m') = threads (m_kernel m);
  se_cur : cur_thread (m_kernel m') = cur_thread (m_kernel m);
  se_pinned : m_pinned_threads <$> processes m' = m_pinned_threads <$> processes m;
  se_members : ∀ x, unplaced <$> members (queue_of m') !! x = unplaced <$> members (queue_of m) !! x;
}.

Lemma UpdateHighestPriorityThreadsImpl_ok clock m tb M :
  machine_ok m → unpinned m → in_queue (m_kernel m) tb M →
  ∃ mask m' tb' M', UpdateHighestPriorityThreadsImpl clock m = Some (mask, m') ∧ settled m mask m' tb tb' M'.
Proof.
  intros O U H. unfold UpdateHighestPriorityThreadsImpl.
  set (m0 := with_kernel (ClearSchedulerUpdateNeeded (m_kernel m)) m).
  assert (machine_ok m0) as O0.
  { destruct O. split; try done. by apply sane_ext with (m_kernel m). }
  assert (in_queue (m_kernel m0) tb M) as H0 by (by eapply in_queue_ext; [..|exact H]).
  destruct (choose_ok clock m0 tb M O0 U H0) as (mask1 & idle & tops & m1 & E1 & V1 & S1 & K1 & Hw & Hidle).
  rewrite (bind_eq _ _ _ E1). cbv beta iota.
  destruct (idle_loop_ok clock 65 idle m1 tops tb M mask1 V1 Hw (few_cores idle) Hidle)
    as (mask2 & tops2 & m2 & tb2 & M2 & E2 & V2 & G2 & (bits & -> & K2) & Hs2 & W2).
  rewrite (bind_eq _ _ _ E2). cbv beta iota. destruct V2 as [O2 H2 _ _ R2].
  destruct (dummies_ok m2 O2) as (m3 & m4 & E3 & E4 & O4 & Ek & Es & Ep & _). rewrite (bind_eq _ _ _ E3), (bind_eq _ _ _ E4).
  destruct (fixed_fields _ _ (sm_fixed _ _ S1)) as (Et1 & Ec1 & _ & Eu1 & Ep1).
  destruct (fixed_fields _ _ (mg_fixed _ _ G2)) as (Et2 & Ec2 & _ & Eu2 & Ep2).
  exists (Z.lor mask1 bits), m4, tb2, M2. split; [done|]. split; try done.
  - by eapply in_queue_ext; [..|exact H2]; rewrite Ek.
  - intros c Hc. unfold running, scheduler. rewrite Es. by apply R2.
  - intros c Hc. apply (served_ext (m_kernel m2)); [intros y; by rewrite Ek|]. by apply Hs2.
  - eapply marks_same; [eapply marks_trans; [exact (marks_before _ m m0 m1 K1 eq_refl)|exact K2]|done].
  - rewrite Ek. cbn [m_scheduler_update_needed with_scheduler]. by rewrite Eu2, Eu1.
  - rewrite Ek. cbn [threads with_scheduler]. by rewrite Et2, Et1.
  - rewrite Ek. cbn [cur_thread with_scheduler]. by rewrite Ec2, Ec1.
  - by rewrite Ep, Ep2, Ep1.
  - intros x. unfold queue_of. rewrite Ek. cbn [priority_queue with_scheduler]. fold (queue_of m2). rewrite (mg_members _ _ G2).
    by rewrite (sm_queue _ _ S1).
Qed.
