(* ===== verification/SchedulerYield.v ===== *)
(** The migrations on request: what the walks over the suggestions do, the rotation of a queue
    and what a thread that yields does with the scheduler's lock held. *)
From S2P Require Import Prelude Common Results PriorityQueue PriorityQueueLinks PriorityQueueSpec Thread ThreadLocks ThreadWaiters ThreadInherit ThreadHandover ThreadState Scheduler SchedulerState SchedulerUpdate SchedulerMigrate.

Implicit Types (k : Kernel) (m : Machine) (tb : table) (M : gmap Z Info).

(** * Steps *)

(** The queue agrees with [tb] and [M], and only where threads are queued has changed since [m]. *)
Record moved_on m m' tb' M' : Prop := {
  mn_ok : machine_ok m';
  mn_queue : in_queue (m_kernel m') tb' M';
  mn_migrated : migrated m m';
  mn_same : schedulers m' = schedulers m;
}.

Lemma moved_on_refl m tb M : machine_ok m → in_queue (m_kernel m) tb M → moved_on m m tb M.
Proof. intros O H. by split. Qed.
Lemma moved_on_trans m1 m2 m3 tb2 M2 tb3 M3 :
  moved_on m1 m2 tb2 M2 → moved_on m2 m3 tb3 M3 → moved_on m1 m3 tb3 M3.
Proof. intros [O1 H1 G1 S1] [O2 H2 G2 S2]. split; [done|done|by etrans|congruence]. Qed.

Lemma machine_sched m : machine_ok m → sched_ok (m_kernel m).
Proof. intros O. apply (ko_sched _ (sn_ok _ (mo_sane m O))). Qed.

Lemma increment_ok m x tb M :
  machine_ok m → in_queue (m_kernel m) tb M → is_Some (threads (m_kernel m) !! x) →
  ∃ m', on_kernel (IncrementScheduledCount x) m = Some m' ∧ moved_on m m' tb M.
Proof.
  intros O H [t Et]. unfold on_kernel. destruct (IncrementScheduledCount_ok (m_kernel m) x t Et) as (counts & -> & Hc).
  { apply (sc_parent _ (machine_sched m O) x t Et). }
  cbn [mbind option_bind]. eexists. split; [done|]. set (m' := with_kernel _ m).
  assert (similar m m') as S by (split; try done; intros p pr; eauto).
  split; [|by eapply similar_in_queue|by apply similar_migrated|done].
  apply (similar_ok m); [done|done|apply (mo_cores m O)|apply (mo_core m O)].
Qed.

Lemma take_suggestion_ok m tb M x c i fr :
  machine_ok m → in_queue (m_kernel m) tb M → M !! x = Some i → c < 4 → (0 ≤ c → Z.testbit (i_affinity i) c = true) →
  ∃ m', take_suggestion (i_core i) c x fr m = Some m'
    ∧ moved_on m m' (moved_table tb x c i fr) (<[x := at_core c i]> M).
Proof.
  intros O H Ei Hc Hb. unfold take_suggestion.
  destruct (move_machine m tb M x c i fr O H Ei Hc Hb) as (m1 & -> & O1 & G1 & S1 & H1). cbn [mbind option_bind].
  assert (is_Some (threads (m_kernel m1) !! x)) as Hx.
  { destruct (fixed_fields _ _ (mg_fixed _ _ G1)) as (-> & _).
    destruct (in_queue_info _ _ _ _ _ (machine_sched m O) H Ei) as (t & _ & Et & _). by exists t. }
  destruct (increment_ok m1 x _ _ O1 H1 Hx) as (m2 & -> & K2). exists m2. split; [done|].
  eapply moved_on_trans; [|exact K2]. by split.
Qed.

(** An operation of the queue that leaves the same threads queued. *)
Lemma queue_moved m tb M q tb' :
  machine_ok m → in_queue (m_kernel m) tb M → same_members (queue_of m) q → rep q tb' → placed tb' M →
  moved_on m (with_kernel (with_queue q (m_kernel m)) m) tb' M.
Proof.
  intros O H Hm Hr Hp. set (k' := with_queue q (m_kernel m)).
  assert (requeued_only (m_kernel m) k') as R.
  { split; [done|]. intros y. by apply prio_same. }
  assert (∀ a b : Member, static a = static b → info_of a = info_of b ∧ IsDummyThread a = IsDummyThread b
    ∧ unplaced a = unplaced b) as Hst.
  { intros a b Es. injection Es as Ea Ec Ep Ed. unfold info_of, unplaced. split_and!; congruence. }
  assert (in_queue k' tb' M) as H'.
  { split; [done|done|]. intros y i. rewrite (iq_queued _ _ _ H). unfold queued. cbn [k' threads with_queue priority_queue].
    specialize (Hm y). unfold queue_of in Hm.
    destruct (members (priority_queue (m_kernel m)) !! y) as [a|] eqn:Ea, (members q !! y) as [b|] eqn:Eb; try done.
    injection Hm as Hm1 Hm2 Hm3 Hm4.
    split; intros (t & ? & Et & [= <-] & Hs & Hd & ->); eexists t, _; split_and!; try done; try congruence; unfold info_of; congruence. }
  split; [|done| |done].
  - destruct O as [Ks Hl Hco Ht Hpr Hw Hcur]. split; try done.
    + apply (sane_requeued (m_kernel m)); [done|done|]. eapply sched_ok_requeued; [apply Ks|done|exact H'|].
      intros y a Ea. destruct (same_members_lookup _ _ y a Hm Ea) as (b & Eb & (Hi & Hd & _)%Hst). exists b.
      cbn [k' priority_queue with_queue]. rewrite Hd, Hi. by split_and!.
    + intros y Hy. destruct (Hw y Hy) as (Hty & my & Em & Hd). split; [done|].
      destruct (same_members_lookup _ _ y my Hm Em) as (b & Eb & (_ & Hd' & _)%Hst). exists b. split; [exact Eb|congruence].
  - split; [done| |done]. intros y. specialize (Hm y). unfold queue_of. cbn [m_kernel with_kernel k' priority_queue with_queue].
    unfold queue_of in Hm.
    destruct (members (priority_queue (m_kernel m)) !! y) as [a|], (members q !! y) as [b|]; try done. simpl in *.
    injection Hm as Hm1 Hm2 Hm3 Hm4. unfold unplaced. congruence.
Qed.

(** ** A thread is taken from another core, or nothing happens *)
Definition pulled (P : Z → Info → Prop) m tb M (c : Z) m' : Prop :=
  (∃ x i, M !! x = Some i ∧ prio_ok (i_priority i) ∧ Z.testbit (i_affinity i) c = true ∧ i_core i ≠ c ∧ P x i
     ∧ moved_on m m' (moved_table tb x c i true) (<[x := at_core c i]> M)).

Section walk.
Context (m : Machine) (tb : table) (M : gmap Z Info) (c : Z).
Context (O : machine_ok m) (H : in_queue (m_kernel m) tb M) (Hc : core_ok c).

Lemma suggested_fields x :
  x ∈ order Suggested c tb → ∃ i t mm, M !! x = Some i ∧ prio_ok (i_priority i) ∧ Z.testbit (i_affinity i) c = true
    ∧ i_core i ≠ c ∧ i_core i < 4 ∧ x ≠ 0 ∧ threads (m_kernel m) !! x = Some t ∧ members (queue_of m) !! x = Some mm ∧ i = info_of mm.
Proof using O H Hc.
  intros (i & Ei & Hp & Hb & Hne)%(elem_suggested _ _ _ _ (iq_placed _ _ _ H)); [|done].
  destruct (in_queue_info _ _ _ _ _ (machine_sched m O) H Ei) as (t & mm & Et & Em & Hx & Hi & _ & _ & H4 & _).
  exists i, t, mm. by split_and!.
Qed.

Lemma front_or_null_ok e :
  e < 4 → front_or_null e (m_kernel m) = Some (if decide (core_ok e) then front e tb else 0).
Proof using H.
  intros He. unfold front_or_null. destruct (Z.leb_spec 0 e).
  - rewrite decide_True by (split; lia). by apply GetScheduledFront_front with M.
  - rewrite decide_False; [done|]. unfold core_ok. lia.
Qed.

Lemma high_of e :
  e < 4 → ∃ b, too_high_to_migrate (if decide (core_ok e) then front e tb else 0) (m_kernel m) = Some b.
Proof using O H.
  intros He. unfold too_high_to_migrate. destruct (Z.eqb_spec (if decide (core_ok e) then front e tb else 0) 0) as [|Hne]; cbn [negb]; [eauto|].
  destruct (decide (core_ok e)) as [Hce|]; [|done].
  destruct (front_thread _ _ _ _ (machine_sched m O) H Hce) as [|[t Et]]; [done|].
  rewrite (GetPriority_ok _ _ t) by (done || apply (machine_sched m O)). eauto.
Qed.

Lemma suggest_fuel_ok l : NoDup l → (∀ x, x ∈ l → x ∈ order Suggested c tb) → (length l < suggest_fuel m)%nat.
Proof using O H Hc.
  intros Hnd Hl. unfold suggest_fuel. apply le_n_S. rewrite <-(size_list_to_set (C := gset Z)) by done.
  rewrite <-size_dom. apply subseteq_size. intros y Hy%elem_of_list_to_set.
  destruct (suggested_fields y) as (_ & _ & my & _ & _ & _ & _ & _ & _ & _ & Em & _); [by apply Hl|]. apply elem_of_dom. by exists my.
Qed.
End walk.

(** ** The walks *)
Section walks.
Context (m : Machine) (tb : table) (M : gmap Z Info) (c : Z).
Context (O : machine_ok m) (H : in_queue (m_kernel m) tb M) (Hc : core_ok c).

(** [x] does not run on its core. *)
Definition not_front (x : Z) (i : Info) : Prop := core_ok (i_core i) → front (i_core i) tb ≠ x.

Lemma take_pulled P x i mm :
  x ∈ order Suggested c tb → M !! x = Some i → i = info_of mm → P x i →
  ∃ m', take_suggestion (GetActiveCore mm) c x true m = Some m' ∧ pulled P m tb M c m'.
Proof using O H Hc.
  intros Hx Ei Hi HP. destruct (suggested_fields m tb M c O H Hc x Hx) as (j & _ & _ & Ej & Hp & Hb & Hne & _).
  rewrite Ei in Ej. injection Ej as <-.
  destruct (take_suggestion_ok m tb M x c i true O H Ei) as (m' & E & K); [apply Hc|done|].
  exists m'. split; [by rewrite Hi in E|]. exists x, i. by split_and!.
Qed.

Lemma in_order_of p x : prio_ok p → x ∈ tb Suggested p c → x ∈ order Suggested c tb.
Proof using. intros Hp Hx. unfold order. rewrite elem_from by done. by exists p. Qed.

Lemma rotate_same_ok fuel p top next pre rest :
  prio_ok p → tb Suggested p c = pre ++ rest → (length rest < fuel)%nat →
  (top ≠ next → next ≠ 0 → is_Some (sched_threads m !! next)) →
  ∃ m', rotate_same fuel c top next (default 0 (head rest)) m = Some m' ∧ (m' = m ∨ pulled not_front m tb M c m').
Proof using O H Hc.
  intros Hp. revert pre rest. induction fuel as [|fuel IH]; intros pre rest Eo Hl Hn; [lia|]. cbn [rotate_same].
  destruct rest as [|x rest]; simpl default; [cbn [Z.eqb]; eauto|].
  assert (x ∈ order Suggested c tb) as Hx by (apply (in_order_of p); [done|]; rewrite Eo; set_solver).
  destruct (suggested_fields m tb M c O H Hc x Hx) as (i & t & mm & Ei & _ & Hb & Hne & H4 & Hx0 & Et & Em & Hi).
  rewrite (proj2 (Z.eqb_neq x 0)) by done. rewrite Em. cbn [mbind option_bind]. cbv zeta.
  replace (GetActiveCore mm) with (i_core i) by by rewrite Hi.
  rewrite (front_or_null_ok m tb M H _ H4). cbn [mbind option_bind].
  assert (∃ m', (next0 ← GetSamePriorityNext c x (queue_of m); rotate_same fuel c top next next0 m) = Some m'
    ∧ (m' = m ∨ pulled not_front m tb M c m')) as Hgo.
  { unfold queue_of. rewrite (GetSamePriorityNext_ok _ _ Suggested p c x pre rest (iq_rep _ _ _ H) Hc Hp Eo).
    cbn [mbind option_bind]. apply (IH (pre ++ [x])); [by rewrite <-(assoc (++))|simpl in Hl; lia|done]. }
  destruct (Z.eqb_spec (if decide (core_ok (i_core i)) then front (i_core i) tb else 0) x) as [Heq|Htx]; cbn [negb]; [done|].
  assert (∃ b, (if negb (top =? next) && negb (next =? 0) then waited_longer next x m else Some false) = Some b) as [b ->].
  { destruct (Z.eqb_spec top next), (Z.eqb_spec next 0); cbn [negb andb]; eauto. unfold waited_longer.
    destruct Hn as [a ->]; [done|done|]. assert (is_Some (sched_threads m !! x)) as [a' ->].
    { apply elem_of_dom, (mo_threads m O), elem_of_dom. by exists t. }
    cbn [mbind option_bind]. eauto. }
  cbn [mbind option_bind]. destruct b; [eauto|]. destruct (high_of m tb M O H _ H4) as [b ->]. cbn [mbind option_bind].
  destruct b; cbn [negb]; [done|].
  destruct (take_pulled not_front x i mm Hx Ei Hi) as (m' & E & Hpl).
  { intros Hci. by rewrite decide_True in Htx by done. }
  rewrite Hi. exists m'. split; [exact E|by right].
Qed.

Lemma rotate_better_ok fuel best pre rest :
  order Suggested c tb = pre ++ rest → (length rest < fuel)%nat → is_Some (members (queue_of m) !! best) →
  ∃ m', rotate_better fuel c best (default 0 (head rest)) m = Some m' ∧ (m' = m ∨ pulled not_front m tb M c m').
Proof using O H Hc.
  intros Eo Hl [mb Eb]. revert pre rest Eo Hl. induction fuel as [|fuel IH]; intros pre rest Eo Hl; [lia|]. cbn [rotate_better].
  destruct rest as [|x rest]; simpl default; [cbn [Z.eqb]; eauto|].
  assert (x ∈ order Suggested c tb) as Hx by (rewrite Eo; set_solver).
  destruct (suggested_fields m tb M c O H Hc x Hx) as (i & t & mm & Ei & _ & Hb & Hne & H4 & Hx0 & Et & Em & Hi).
  rewrite (proj2 (Z.eqb_neq x 0)) by done. rewrite Em, Eb. cbn [mbind option_bind]. cbv zeta.
  destruct (_ <=? _); [eauto|].
  replace (GetActiveCore mm) with (i_core i) by by rewrite Hi.
  rewrite (front_or_null_ok m tb M H _ H4). cbn [mbind option_bind].
  assert (∃ m', (next ← GetSuggestedNext c x (queue_of m); rotate_better fuel c best next m) = Some m'
    ∧ (m' = m ∨ pulled not_front m tb M c m')) as Hgo.
  { unfold queue_of, GetSuggestedNext. rewrite (GetNext_order _ tb M Suggested c pre x rest H Hc Eo).
    cbn [mbind option_bind]. apply (IH (pre ++ [x])); [by rewrite <-(assoc (++))|simpl in Hl; lia]. }
  destruct (Z.eqb_spec (if decide (core_ok (i_core i)) then front (i_core i) tb else 0) x) as [Heq|Htx]; cbn [negb]; [done|].
  destruct (high_of m tb M O H _ H4) as [b ->]. cbn [mbind option_bind]. destruct b; cbn [negb]; [done|].
  destruct (take_pulled not_front x i mm Hx Ei Hi) as (m' & E & Hpl).
  { intros Hci. by rewrite decide_True in Htx by done. }
  rewrite Hi. exists m'. split; [exact E|by right].
Qed.

(** The thread at which the walk of a yield stops is null when nothing has moved. *)
Lemma yield_suggestions_ok fuel next recheck pre rest :
  order Suggested c tb = pre ++ rest → (length rest < fuel)%nat → is_Some (sched_threads m !! next) →
  ∃ s recheck' m', yield_suggestions fuel c next (default 0 (head rest)) recheck m = Some (s, recheck', m')
    ∧ (s = 0 ∧ m' = m ∨ s ≠ 0 ∧ pulled (λ _ _, True) m tb M c m').
Proof using O H Hc.
  intros Eo Hl Hn. revert pre rest recheck Eo Hl. induction fuel as [|fuel IH]; intros pre rest recheck Eo Hl; [lia|]. cbn [yield_suggestions].
  destruct rest as [|x rest]; simpl default; [cbn [Z.eqb]; eexists _, _, _; split; [done|by left]|].
  assert (x ∈ order Suggested c tb) as Hx by (rewrite Eo; set_solver).
  destruct (suggested_fields m tb M c O H Hc x Hx) as (i & t & mm & Ei & _ & Hb & Hne & H4 & Hx0 & Et & Em & Hi).
  rewrite (proj2 (Z.eqb_neq x 0)) by done. destruct (mo_cur m O) as [tc Etc].
  destruct (sc_member _ (machine_sched m O) _ tc Etc) as (mc & Emc & _). unfold queue_of in Em |- *.
  rewrite Em, Emc. cbn [mbind option_bind]. cbv zeta.
  replace (GetActiveCore mm) with (i_core i) by by rewrite Hi.
  assert (∃ r, (if 0 <=? i_core i then s ← at_ (schedulers m) (i_core i); Some (highest_priority_thread s) else Some 0) = Some r
    ∧ (r = 0 ∨ is_Some (threads (m_kernel m) !! r))) as (r & -> & Hr).
  { destruct (Z.leb_spec 0 (i_core i)); [|eauto]. rewrite scheduler_at by (apply (mo_cores m O) || done). cbn [mbind option_bind].
    eexists. split; [done|]. by apply (mo_core m O). }
  cbn [mbind option_bind].
  assert (∀ rc, ∃ s recheck' m', (next0 ← GetSuggestedNext c x (queue_of m); yield_suggestions fuel c next next0 rc m) = Some (s, recheck', m')
    ∧ (s = 0 ∧ m' = m ∨ s ≠ 0 ∧ pulled (λ _ _, True) m tb M c m')) as Hgo.
  { intros rc. unfold queue_of, GetSuggestedNext. rewrite (GetNext_order _ tb M Suggested c pre x rest H Hc Eo).
    cbn [mbind option_bind]. apply (IH (pre ++ [x])); [by rewrite <-(assoc (++))|simpl in Hl; lia]. }
  destruct (r =? x); cbn [negb]; [apply Hgo|].
  assert (∃ b, (if PriorityQueue.GetPriority mc <? PriorityQueue.GetPriority mm then Some true
     else if (PriorityQueue.GetPriority mm =? PriorityQueue.GetPriority mc) && negb (next =? cur_thread (m_kernel m))
          then waited_longer next x m else Some false) = Some b) as [b ->].
  { destruct (_ <? _); [eauto|]. destruct (_ && _); [|eauto]. unfold waited_longer. destruct Hn as [a ->].
    assert (is_Some (sched_threads m !! x)) as [a' ->].
    { apply elem_of_dom, (mo_threads m O), elem_of_dom. by exists t. }
    cbn [mbind option_bind]. eauto. }
  cbn [mbind option_bind]. destruct b; [eexists _, _, _; split; [done|by left]|].
  assert (∃ b, too_high_to_migrate r (m_kernel m) = Some b) as [b ->].
  { unfold too_high_to_migrate. destruct (Z.eqb_spec r 0); cbn [negb]; [eauto|]. destruct Hr as [|[tr Er]]; [done|].
    rewrite (GetPriority_ok _ _ tr) by (done || apply (machine_sched m O)). eauto. }
  cbn [mbind option_bind]. destruct b; cbn [negb]; [apply Hgo|].
  destruct (take_pulled (λ _ _, True) x i mm Hx Ei Hi I) as (m' & E & Hpl).
  rewrite Hi. cbn [i_core info_of]. rewrite E. cbn [mbind option_bind]. eexists _, _, m'. split; [done|by right].
Qed.
End walks.

(** * The queue of one priority *)
Lemma info_member m tb M x i :
  machine_ok m → in_queue (m_kernel m) tb M → M !! x = Some i →
  ∃ mm, members (queue_of m) !! x = Some mm ∧ i = info_of mm ∧ IsDummyThread mm = false ∧ x ≠ 0 ∧ info_ok i
    ∧ is_Some (threads (m_kernel m) !! x).
Proof.
  intros O H Ei. destruct (in_queue_info _ _ _ _ _ (machine_sched m O) H Ei) as (t & mm & Et & Em & Hx & Hi & Hd & Hok).
  exists mm. split; [done|]. split; [done|]. split; [done|]. split; [done|]. split; [done|]. by exists t.
Qed.

(** [x] at the back of its queue. *)
Definition rotated_table (x : Z) (i : Info) tb : table :=
  change Scheduled (i_priority i) (i_core i) (λ l, without x l ++ [x]) tb.

Lemma MoveToScheduledBack_ok m tb M x i :
  machine_ok m → in_queue (m_kernel m) tb M → M !! x = Some i → core_ok (i_core i) → prio_ok (i_priority i) →
  ∃ next q, MoveToScheduledBack x (queue_of m) = Some (next, q)
    ∧ head (without x (tb Scheduled (i_priority i) (i_core i)) ++ [x]) = Some next
    ∧ moved_on m (with_kernel (with_queue q (m_kernel m)) m) (rotated_table x i tb) M.
Proof.
  intros O H Ei Hc Hp. destruct (info_member m tb M x i O H Ei) as (mm & Em & Hi & Hd & Hx & Hok & _).
  assert (x ∈ tb Scheduled (i_priority i) (i_core i)) as Hin.
  { apply (iq_placed _ _ _ H); [done|done|]. exists i. split; [done|]. unfold in_slot. by rewrite !Z.eqb_refl. }
  destruct (Impl_MoveToBack_ok (queue_of m) tb Scheduled (i_priority i) (i_core i) x) as (next & Hres & Hf & Hh); try done.
  { apply H. } { apply Hok. }
  rewrite (proj2 (Z.leb_le (i_priority i) 63)) in Hh by (unfold prio_ok in Hp; lia).
  unfold MoveToScheduledBack. rewrite Em. cbn [mbind option_bind]. rewrite Hd.
  replace (PriorityQueue.GetPriority mm) with (i_priority i) by by rewrite Hi.
  replace (GetActiveCore mm) with (i_core i) by by rewrite Hi.
  destruct Hres as (q & E & Hr & Hm). destruct (KPriorityQueueImpl.MoveToBack _ _ _ _ _) as [[f q']|]; [|done].
  cbn in E, Hf. injection E as ->. injection Hf as ->. exists next, q. split; [done|]. split; [done|].
  apply (queue_moved m tb M); try done. unfold rotated_table. rewrite <-(insert_id M x i Ei).
  apply placed_move; [apply H|done|apply Hc|apply Hok|].
  intros l y Hxl. rewrite elem_of_app, list_elem_of_singleton. unfold without. rewrite list_elem_of_filter.
  destruct (decide (y = x)); naive_solver.
Qed.

(** The front of a core is that of its first non-empty list. *)
Lemma head_from kd c tb p x :
  0 ≤ p < 64 → (∀ r, 0 ≤ r < p → tb kd r c = []) → head (tb kd p c) = Some x → head (order kd c tb) = Some x.
Proof.
  intros Hp He Hh. unfold order. rewrite (from_skip kd c tb 0 p) by (done || lia). rewrite from_cons by lia.
  by destruct (tb kd p c).
Qed.

Lemma rotated_order x i tb kd c :
  ¬ (kd = Scheduled ∧ c = i_core i) → order kd c (rotated_table x i tb) = order kd c tb.
Proof.
  intros Hn. apply order_ext. intros p Hp. unfold rotated_table. rewrite change_at by done.
  rewrite decide_False; [done|]. intros (? & _ & ?). tauto.
Qed.

Lemma rotated_at x i tb :
  prio_ok (i_priority i) →
  rotated_table x i tb Scheduled (i_priority i) (i_core i) = without x (tb Scheduled (i_priority i) (i_core i)) ++ [x].
Proof. intros Hp. unfold rotated_table. rewrite change_at by done. by rewrite decide_True. Qed.

(** Nothing changes when the thread is alone in its list. *)
Lemma rotated_alone x i tb kd c :
  NoDup (tb Scheduled (i_priority i) (i_core i)) → x ∈ tb Scheduled (i_priority i) (i_core i) →
  head (without x (tb Scheduled (i_priority i) (i_core i)) ++ [x]) = Some x →
  order kd c (rotated_table x i tb) = order kd c tb.
Proof.
  intros Hnd Hin Hh. apply order_ext. intros p Hp. unfold rotated_table. rewrite change_at by done.
  case_decide as E; [|done]. destruct E as (-> & -> & ->).
  set (l := tb Scheduled (i_priority i) (i_core i)) in *.
  assert (without x l = []) as Hw.
  { destruct (without x l) as [|y w] eqn:Ew; [done|]. simpl in Hh. injection Hh as ->.
    assert (x ∈ without x l) as Hxw by (rewrite Ew; set_solver). unfold without in Hxw. by apply list_elem_of_filter in Hxw as [? _]. }
  rewrite Hw. symmetry. apply singleton_list; [done|]. intros y. split; [|by intros ->]. intros Hy.
  destruct (decide (y = x)) as [|Hne]; [done|].
  assert (y ∈ without x l) as Hyw by (unfold without; by apply list_elem_of_filter). rewrite Hw in Hyw.
  by apply not_elem_of_nil in Hyw.
Qed.

(** * What a pull changes *)
Lemma pulled_scheduled tb M x c i p :
  placed tb M → M !! x = Some i → i_core i ≠ c → core_ok c → prio_ok p →
  moved_table tb x c i true Scheduled p c
  = if p =? i_priority i then x :: tb Scheduled p c else tb Scheduled p c.
Proof.
  intros HM Ei Hne Hc Hp. unfold moved_table, effect. cbn [i_core at_core].
  rewrite (proj2 (Z.eqb_neq (i_core i) c)), Z.eqb_refl, orb_true_r by done.
  assert (x ∉ tb Scheduled p c) as Hx.
  { intros (j & Ej & Hs)%HM; [|done..]. rewrite Ei in Ej. injection Ej as <-. unfold in_slot in Hs.
    apply andb_prop in Hs as [_ ?%Z.eqb_eq]. congruence. }
  unfold pushed, on_slots, in_slot, taken. cbn [i_core i_priority at_core]. rewrite Z.eqb_refl, andb_true_r.
  rewrite without_absent by done. by destruct (p =? i_priority i).
Qed.

(** The fronts of the other cores stay. *)
Definition same_fronts (c : Z) tb tb' : Prop := ∀ e, core_ok e → e ≠ c → front e tb' = front e tb.
(** The threads of [l] are in the lists as before. *)
Definition same_among (l : list Z) (c p : Z) tb tb' : Prop :=
  filter (λ y, y ∈ l) (tb' Scheduled p c) = filter (λ y, y ∈ l) (tb Scheduled p c).

Lemma pulled_effect m tb M c m' p l :
  in_queue (m_kernel m) tb M → core_ok c → prio_ok p → (∀ y, y ∈ l → y ∈ tb Scheduled p c) →
  pulled (not_front tb) m tb M c m' →
  ∃ tb' M', moved_on m m' tb' M' ∧ same_fronts c tb tb' ∧ same_among l c p tb tb'.
Proof.
  intros H Hc Hp Hl (x & i & Ei & Hpi & Hb & Hne & Hnf & K). eexists _, _. split; [exact K|]. split.
  - intros e He Hec. unfold front. destruct (decide (e = i_core i)) as [->|Hei]; [|by rewrite moved_other].
    rewrite moved_from by done. rewrite head_filter_ne; [done|]. specialize (Hnf He). unfold front in Hnf.
    destruct (order Scheduled (i_core i) tb); [done|]. simpl in *. congruence.
  - unfold same_among. rewrite (pulled_scheduled tb M x c i p (iq_placed _ _ _ H) Ei Hne Hc Hp).
    destruct (p =? i_priority i); [|done]. rewrite filter_cons_False; [done|]. intros Hx%Hl.
    apply (iq_placed _ _ _ H) in Hx as (j & Ej & Hs); [|done..]. rewrite Ei in Ej. injection Ej as <-.
    unfold in_slot in Hs. apply andb_prop in Hs as [_ ?%Z.eqb_eq]. congruence.
Qed.

Lemma walked_effect m tb M c m' p l :
  machine_ok m → in_queue (m_kernel m) tb M → core_ok c → prio_ok p → (∀ y, y ∈ l → y ∈ tb Scheduled p c) →
  (m' = m ∨ pulled (not_front tb) m tb M c m') →
  ∃ tb' M', moved_on m m' tb' M' ∧ same_fronts c tb tb' ∧ same_among l c p tb tb'.
Proof.
  intros O H Hc Hp Hl [->|Hpl]; [|by eapply pulled_effect]. exists tb, M. split; [by apply moved_on_refl|]. by split.
Qed.

Lemma set_update_ok m tb M :
  machine_ok m → in_queue (m_kernel m) tb M →
  machine_ok (set_update_needed m) ∧ in_queue (m_kernel (set_update_needed m)) tb M.
Proof.
  intros O H. split; [|by eapply in_queue_ext; [..|exact H]]. destruct O. split; try done.
  by apply sane_ext with (m_kernel m).
Qed.

(** * RotateScheduledQueue *)
Definition rotated {A} (l : list A) : list A := match l with [] => [] | x :: l => l ++ [x] end.

Lemma rotate_front_ok m tb M c p :
  machine_ok m → in_queue (m_kernel m) tb M → core_ok c → prio_ok p →
  ∃ top next k tb', rotate_front c p (m_kernel m) = Some (top, next, k)
    ∧ moved_on m (with_kernel k m) tb' M ∧ tb' Scheduled p c = rotated (tb Scheduled p c)
    ∧ same_fronts c tb tb' ∧ (top ≠ next → next ≠ 0 → is_Some (sched_threads m !! next)).
Proof.
  intros O H Hc Hp. unfold rotate_front, GetScheduledFront_priority.
  rewrite (GetFront_priority_ok _ _ _ _ _ (iq_rep _ _ _ H) Hc Hp). cbn [mbind option_bind].
  destruct (tb Scheduled p c) as [|x l] eqn:El; simpl default.
  { cbn [Z.eqb negb]. exists 0, 0, (m_kernel m), tb. split; [done|]. split; [|by rewrite El].
    replace (with_kernel (m_kernel m) m) with m by by destruct m. by apply moved_on_refl. }
  assert (x ∈ tb Scheduled p c) as Hx by (rewrite El; set_solver).
  pose proof Hx as (i & Ei & Hs)%(iq_placed _ _ _ H); [|done..]. unfold in_slot in Hs.
  apply andb_prop in Hs as [->%Z.eqb_eq ->%Z.eqb_eq].
  destruct (info_member m tb M x i O H Ei) as (mm & Em & Hi & Hd & Hx0 & Hok & Hxt).
  rewrite (proj2 (Z.eqb_neq x 0)) by done. cbn [negb].
  destruct (MoveToScheduledBack_ok m tb M x i O H Ei Hc Hp) as (next & q & E & Hh & K). unfold queue_of in E. rewrite E.
  cbn [mbind option_bind].
  pose proof (ln_nodup _ _ (rep_links _ _ (iq_rep _ _ _ H)) Scheduled _ _ Hp Hc) as Hnd. rewrite El in Hnd, Hh.
  assert (without x (x :: l) = l) as Hw.
  { apply NoDup_cons in Hnd as [Hxl _]. unfold without. rewrite filter_cons_False by tauto. by apply without_absent. }
  rewrite Hw in Hh.
  assert (∃ k, (if negb (next =? x) then k ← IncrementScheduledCount x (with_queue q (m_kernel m)); IncrementScheduledCount next k
                else Some (with_queue q (m_kernel m))) = Some k
    ∧ moved_on m (with_kernel k m) (rotated_table x i tb) M) as (k & -> & Kk).
  { destruct (negb (next =? x)); [|by exists (with_queue q (m_kernel m))].
    set (m1 := with_kernel _ m) in K. destruct K as [O1 H1 G1 S1].
    assert (∀ y, is_Some (threads (m_kernel m) !! y) → ∀ m2 tb2 M2, moved_on m m2 tb2 M2 →
      ∃ k2, IncrementScheduledCount y (m_kernel m2) = Some k2 ∧ moved_on m (with_kernel k2 m2) tb2 M2) as Hinc.
    { intros y Hy m2 tb2 M2 [O2 H2 G2 S2]. destruct (increment_ok m2 y tb2 M2 O2 H2) as (m3 & E3 & K3).
      { by destruct (fixed_fields _ _ (mg_fixed _ _ G2)) as (-> & _). }
      unfold on_kernel in E3. apply bind_Some in E3 as (k2 & Ek2 & [= <-]). exists k2. split; [done|].
      eapply moved_on_trans; [|exact K3]. by split. }
    assert (is_Some (threads (m_kernel m) !! next)) as Hnx.
    { assert (next ∈ x :: l) as Hin by (destruct l; simpl in Hh; injection Hh as <-; set_solver).
      rewrite <-El in Hin. apply (iq_placed _ _ _ H) in Hin as (j & Ej & _); [|done..].
      by destruct (info_member m tb M next j O H Ej) as (_ & _ & _ & _ & _ & _ & ?). }
    destruct (Hinc x Hxt m1 _ _ ltac:(by split)) as (k2 & E2 & K2).
    change (m_kernel m1) with (with_queue q (m_kernel m)) in E2. rewrite E2. cbn [mbind option_bind].
    destruct (Hinc next Hnx _ _ _ K2) as (k3 & E3 & K3). exists k3. split; [exact E3|exact K3]. }
  cbn [mbind option_bind]. exists x, next, k, (rotated_table x i tb). split; [done|]. split; [done|]. split; [|split].
  - rewrite rotated_at, El, Hw by done. done.
  - intros e He Hec. unfold front. rewrite rotated_order; [done|]. by intros [_ ?].
  - intros _ _. apply elem_of_dom, (mo_threads m O), elem_of_dom.
    assert (next ∈ x :: l) as Hin by (destruct l; simpl in Hh; injection Hh as <-; set_solver).
    rewrite <-El in Hin. apply (iq_placed _ _ _ H) in Hin as (j & Ej & _); [|done..].
    by destruct (info_member m tb M next j O H Ej) as (_ & _ & _ & _ & _ & _ & ?).
Qed.

Lemma best_on_core_ok m tb M c :
  machine_ok m → in_queue (m_kernel m) tb M → core_ok c →
  ∃ best, best_on_core c (m_kernel m) = Some best
    ∧ (best = 0 ∨ is_Some (threads (m_kernel m) !! best) ∧ is_Some (members (queue_of m) !! best)).
Proof.
  intros O H Hc. unfold best_on_core. rewrite (GetScheduledFront_front _ tb M) by done. cbn [mbind option_bind].
  assert (∀ y, y ∈ order Scheduled c tb → is_Some (threads (m_kernel m) !! y) ∧ is_Some (members (queue_of m) !! y)) as Hin.
  { intros y (i & Ei & _)%(elem_order _ _ _ _ _ (iq_placed _ _ _ H)); [|done].
    destruct (info_member m tb M y i O H Ei) as (mm & Em & _ & _ & _ & _ & Ht). split; [done|by exists mm]. }
  destruct (order Scheduled c tb) as [|x l] eqn:Eo.
  - assert (front c tb = 0) as -> by (unfold front; by rewrite Eo).
    destruct (Z.eqb_spec 0 (cur_thread (m_kernel m))) as [E|]; [|eauto].
    destruct (mo_cur m O) as [t Et]. rewrite <-E in Et.
    destruct (sc_member _ (machine_sched m O) _ t Et) as (_ & _ & [] & _). done.
  - assert (front c tb = x) as -> by (unfold front; by rewrite Eo).
    destruct (x =? cur_thread (m_kernel m)).
    + unfold GetScheduledNext. rewrite (GetNext_order _ tb M Scheduled c [] x l H Hc Eo). eexists. split; [done|].
      destruct l as [|y l]; [by left|right]. simpl. apply Hin. set_solver.
    + eexists. split; [done|]. right. apply Hin. set_solver.
Qed.

Lemma rotated_elem (l : list Z) y : y ∈ rotated l ↔ y ∈ l.
Proof. destruct l; [done|]. simpl. set_solver. Qed.

Lemma RotateScheduledQueue_ok m tb M c p :
  machine_ok m → in_queue (m_kernel m) tb M → core_ok c → prio_ok p →
  ∃ m0 tb' M', RotateScheduledQueue c p m = Some (set_update_needed m0) ∧ moved_on m m0 tb' M'
    ∧ same_fronts c tb tb'
    ∧ filter (λ y, y ∈ tb Scheduled p c) (tb' Scheduled p c) = rotated (tb Scheduled p c).
Proof.
  intros O H Hc Hp. unfold RotateScheduledQueue.
  destruct (rotate_front_ok m tb M c p O H Hc Hp) as (top & next & k & tb1 & -> & K1 & E1 & F1 & Hn).
  cbn [mbind option_bind]. set (m1 := with_kernel k m) in *. pose proof K1 as [O1 H1 G1 _].
  set (l := tb Scheduled p c) in *.
  unfold GetSuggestedFront_priority. unfold queue_of at 1.
  rewrite (GetFront_priority_ok _ _ _ _ _ (iq_rep _ _ _ H1) Hc Hp). cbn [mbind option_bind].
  destruct (rotate_same_ok m1 tb1 M c O1 H1 Hc (suggest_fuel m1) p top next [] (tb1 Suggested p c) Hp eq_refl) as (m2 & -> & Hp2).
  { apply (suggest_fuel_ok m1 tb1 M c O1 H1 Hc); [by apply (ln_nodup _ _ (rep_links _ _ (iq_rep _ _ _ H1)))|].
    intros y Hy. by apply (in_order_of tb1 c p). }
  { intros Ha Hb. specialize (Hn Ha Hb). apply elem_of_dom. apply elem_of_dom in Hn. by apply (mg_threads _ _ G1). }
  destruct (walked_effect m1 tb1 M c m2 p l O1 H1 Hc Hp) as (tb2 & M2 & K2 & F2 & A2); [|done|].
  { intros y Hy. rewrite E1. by apply rotated_elem. }
  cbn [mbind option_bind]. pose proof K2 as [O2 H2 G2 _].
  destruct (best_on_core_ok m2 tb2 M2 c O2 H2 Hc) as (best & -> & Hbest). cbn [mbind option_bind].
  assert (∃ b, (if negb (best =? 0) then pr ← GetPriority best (m_kernel m2); Some (p <=? pr) else Some false) = Some b
    ∧ (b = true → is_Some (members (queue_of m2) !! best))) as (b & -> & Hb).
  { destruct (Z.eqb_spec best 0); cbn [negb]; [by exists false|]. destruct Hbest as [|([t Et] & Hm)]; [done|].
    rewrite (GetPriority_ok _ _ t) by (done || apply (machine_sched m2 O2)). eauto. }
  cbn [mbind option_bind].
  assert (∃ m3, (if b then suggested ← GetSuggestedFront c (priority_queue (m_kernel m2)); rotate_better (suggest_fuel m2) c best suggested m2
                 else Some m2) = Some m3 ∧ (m3 = m2 ∨ pulled (not_front tb2) m2 tb2 M2 c m3)) as (m3 & -> & Hp3).
  { destruct b; [|eauto]. unfold GetSuggestedFront. rewrite (GetFront_ok _ _ _ _ (iq_rep _ _ _ H2) Hc).
    cbn [mbind option_bind]. apply (rotate_better_ok m2 tb2 M2 c O2 H2 Hc _ best []); [done| |by apply Hb].
    apply (suggest_fuel_ok m2 tb2 M2 c O2 H2 Hc); [by eapply NoDup_order|done]. }
  assert (∀ y, y ∈ l → y ∈ tb2 Scheduled p c) as Hl2.
  { intros y Hy. assert (y ∈ filter (λ z, z ∈ l) (tb2 Scheduled p c)) as Hin.
    { rewrite A2, E1. apply list_elem_of_filter. split; [done|]. by apply rotated_elem. }
    by apply list_elem_of_filter in Hin as [_ ?]. }
  destruct (walked_effect m2 tb2 M2 c m3 p l O2 H2 Hc Hp Hl2 Hp3) as (tb3 & M3 & K3 & F3 & A3).
  cbn [mbind option_bind]. exists m3, tb3, M3. split; [done|]. split; [|split].
  - eapply moved_on_trans; [exact K1|]. by eapply moved_on_trans.
  - intros e He Hec. by rewrite F3, F2, F1.
  - rewrite A3, A2, E1. apply filter_id. intros y Hy. by apply rotated_elem.
Qed.

(** * Yields *)

(** What a yield leaves: an update is requested unless the fronts are as they were. *)
Record yielded m m' tb tb' M' : Prop := {
  yd_ok : machine_ok m';
  yd_queue : in_queue (m_kernel m') tb' M';
  yd_same : schedulers m' = schedulers m;
  yd_threads : threads (m_kernel m') = threads (m_kernel m);
  yd_cur : cur_thread (m_kernel m') = cur_thread (m_kernel m);
  yd_pinned : m_pinned_threads <$> processes m' = m_pinned_threads <$> processes m;
  yd_members : ∀ x, unplaced <$> members (queue_of m') !! x = unplaced <$> members (queue_of m) !! x;
  yd_update : m_scheduler_update_needed (m_kernel m') = true
    ∨ m_scheduler_update_needed (m_kernel m') = m_scheduler_update_needed (m_kernel m)
      ∧ ∀ c, core_ok c → front c tb' = front c tb;
}.

Lemma yielded_needed m m' tb tb' M' : moved_on m m' tb' M' → yielded m (set_update_needed m') tb tb' M'.
Proof.
  intros [O H [F Mm _] S]. destruct (set_update_ok m' tb' M' O H) as [O' H'].
  apply fixed_fields in F as (Et & Ec & _ & _ & Ep). split; try done. by left.
Qed.

Lemma yielded_same m m' tb tb' M' :
  moved_on m m' tb' M' → (∀ c, core_ok c → front c tb' = front c tb) → yielded m m' tb tb' M'.
Proof.
  intros [O H [F Mm _] S] Hf. apply fixed_fields in F as (Et & Ec & _ & Eu & Ep). split; try done. by right.
Qed.

(** The current thread, which is scheduled on its core. *)
Record scheduled_cur m M (i : Info) : Prop := {
  sd_queued : M !! cur_thread (m_kernel m) = Some i;
  sd_core : core_ok (i_core i);
  sd_prio : prio_ok (i_priority i);
  sd_process : ∃ t, threads (m_kernel m) !! cur_thread (m_kernel m) = Some t ∧ m_parent t ≠ 0;
}.

Lemma cur_runnable m tb M i :
  in_queue (m_kernel m) tb M → scheduled_cur m M i →
  ∃ t mm, threads (m_kernel m) !! cur_thread (m_kernel m) = Some t ∧ m_thread_state t = ThreadState.Runnable
    ∧ members (queue_of m) !! cur_thread (m_kernel m) = Some mm ∧ i = info_of mm.
Proof. intros H [Ei _ _ _]. apply (iq_queued _ _ _ H) in Ei as (t & mm & Et & Em & Hs & _ & ->). by exists t, mm. Qed.

Lemma record_yield_ok m m1 tb' M' :
  machine_ok m → moved_on m m1 tb' M' → (∃ t, threads (m_kernel m) !! cur_thread (m_kernel m) = Some t ∧ m_parent t ≠ 0) →
  ∃ m', record_yield m1 = Some m' ∧ moved_on m m' tb' M'.
Proof.
  intros O [O1 H1 G1 S1] (t & Et & Hp). destruct (fixed_fields _ _ (mg_fixed _ _ G1)) as (Et1 & Ec1 & _).
  unfold record_yield. rewrite Et1, Ec1, Et. cbn [mbind option_bind].
  destruct (sc_parent _ (machine_sched m1 O1) (cur_thread (m_kernel m)) t) as [n ->]; [by rewrite Et1|done|].
  cbn [mbind option_bind]. unfold on_sched_thread.
  assert (is_Some (sched_threads m1 !! cur_thread (m_kernel m))) as [st Est].
  { apply elem_of_dom, (mo_threads m1 O1), elem_of_dom. rewrite Et1. by exists t. }
  rewrite Est. cbn [mbind option_bind]. eexists. split; [done|]. set (m2 := with_sched_threads _ m1).
  assert (dom (sched_threads m1) ⊆ dom (sched_threads m2)) as Hd by (cbn; rewrite dom_insert; set_solver).
  split; [|done| |done].
  - destruct O1. split; try done. set_solver.
  - destruct G1. split; try done. set_solver.
Qed.

Lemma yield_back_ok m tb M i :
  machine_ok m → in_queue (m_kernel m) tb M → scheduled_cur m M i →
  ∃ next m', yield_back m = Some (next, m')
    ∧ head (without (cur_thread (m_kernel m)) (tb Scheduled (i_priority i) (i_core i)) ++ [cur_thread (m_kernel m)]) = Some next
    ∧ moved_on m m' (rotated_table (cur_thread (m_kernel m)) i tb) M.
Proof.
  intros O H [Ei Hc Hp (t & Et & _)].
  destruct (MoveToScheduledBack_ok m tb M _ i O H Ei Hc Hp) as (next & q & E & Hh & [O1 H1 G1 S1]).
  unfold yield_back. rewrite E. cbn [mbind option_bind].
  destruct (increment_ok _ (cur_thread (m_kernel m)) _ M O1 H1) as (m2 & E2 & K2); [by exists t|].
  unfold on_kernel in E2. cbn [m_kernel with_kernel] in E2. apply bind_Some in E2 as (k2 & -> & [= <-]).
  cbn [mbind option_bind]. eexists _, _. split; [done|]. split; [done|]. eapply moved_on_trans; [|exact K2]. by split.
Qed.

(** The queue is unchanged when the next thread is the one that yields. *)
Lemma yield_back_same m tb M i :
  machine_ok m → in_queue (m_kernel m) tb M → scheduled_cur m M i →
  head (without (cur_thread (m_kernel m)) (tb Scheduled (i_priority i) (i_core i)) ++ [cur_thread (m_kernel m)]) = Some (cur_thread (m_kernel m)) →
  ∀ c, core_ok c → front c (rotated_table (cur_thread (m_kernel m)) i tb) = front c tb.
Proof.
  intros O H [Ei Hc Hp _] Hh c Hcc. unfold front. rewrite rotated_alone; [done| | |done].
  - by apply (ln_nodup _ _ (rep_links _ _ (iq_rep _ _ _ H))).
  - apply (iq_placed _ _ _ H); [done|done|]. exists i. split; [done|]. unfold in_slot. by rewrite !Z.eqb_refl.
Qed.

Lemma WithoutCoreMigration_ok m tb M i :
  machine_ok m → in_queue (m_kernel m) tb M → scheduled_cur m M i →
  ∃ m', WithoutCoreMigration_locked m = Some m'
    ∧ yielded m m' tb (rotated_table (cur_thread (m_kernel m)) i tb) M.
Proof.
  intros O H Hcur. destruct (cur_runnable m tb M i H Hcur) as (t & mm & Et & Hs & _). unfold WithoutCoreMigration_locked.
  rewrite Et. cbn [mbind option_bind]. rewrite Hs, Z.eqb_refl.
  destruct (yield_back_ok m tb M i O H Hcur) as (next & m1 & -> & Hh & K). cbn [mbind option_bind].
  destruct (Z.eqb_spec next (cur_thread (m_kernel m))) as [->|Hne]; cbn [negb].
  - destruct (record_yield_ok m m1 _ M O K (sd_process _ _ _ Hcur)) as (m2 & -> & K2). exists m2. split; [done|].
    apply yielded_same; [done|]. by eapply yield_back_same.
  - eexists. split; [done|]. by apply yielded_needed.
Qed.

Lemma WithCoreMigration_ok m tb M i :
  machine_ok m → in_queue (m_kernel m) tb M → scheduled_cur m M i →
  ∃ m' tb' M', WithCoreMigration_locked m = Some m' ∧ yielded m m' tb tb' M'.
Proof.
  intros O H Hcur. destruct (cur_runnable m tb M i H Hcur) as (t & mm & Et & Hs & Em & Hi). unfold WithCoreMigration_locked.
  rewrite Et. cbn [mbind option_bind]. rewrite Hs, Z.eqb_refl, Em. cbn [mbind option_bind].
  replace (GetActiveCore mm) with (i_core i) by by rewrite Hi. pose proof (sd_core _ _ _ Hcur) as Hc.
  destruct (yield_back_ok m tb M i O H Hcur) as (next & m1 & -> & Hh & K). cbn [mbind option_bind].
  set (tb1 := rotated_table _ i tb) in K. pose proof K as [O1 H1 G1 S1]. unfold GetSuggestedFront, queue_of.
  rewrite (GetFront_ok _ _ _ _ (iq_rep _ _ _ H1) Hc). cbn [mbind option_bind].
  destruct (fixed_fields _ _ (mg_fixed _ _ G1)) as (Et1 & Ec1 & _).
  destruct (yield_suggestions_ok m1 tb1 M (i_core i) O1 H1 Hc (suggest_fuel m1) next false [] (order Suggested (i_core i) tb1) eq_refl)
    as (s & rc & m2 & -> & Hcase).
  { apply (suggest_fuel_ok m1 tb1 M (i_core i) O1 H1 Hc); [by eapply NoDup_order|done]. }
  { apply elem_of_dom, (mo_threads m1 O1), elem_of_dom. rewrite Et1.
    assert (next = cur_thread (m_kernel m) ∨ next ∈ tb Scheduled (i_priority i) (i_core i)) as [->|Hin].
    { destruct (without _ _) as [|y l] eqn:Ew; simpl in Hh; injection Hh as <-; [by left|right].
      assert (y ∈ without (cur_thread (m_kernel m)) (tb Scheduled (i_priority i) (i_core i))) as Hy by (rewrite Ew; set_solver).
      unfold without in Hy. by apply list_elem_of_filter in Hy as [_ ?]. }
    - by exists t.
    - apply (iq_placed _ _ _ H) in Hin as (j & Ej & _); [|apply Hcur|done].
      by destruct (info_member m tb M next j O H Ej) as (_ & _ & _ & _ & _ & _ & ?). }
  cbn [mbind option_bind]. destruct Hcase as [[-> ->]|[Hs0 (x & j & Ej & _ & _ & _ & _ & K2)]].
  - cbn [Z.eqb negb orb]. destruct (Z.eqb_spec next (cur_thread (m_kernel m))) as [->|Hne]; cbn [negb].
    + destruct rc; cbn [negb].
      * exists m1, tb1, M. split; [done|]. apply yielded_same; [done|]. by eapply yield_back_same.
      * destruct (record_yield_ok m m1 _ M O K (sd_process _ _ _ Hcur)) as (m2 & -> & K2). exists m2, tb1, M. split; [done|].
        apply yielded_same; [done|]. by eapply yield_back_same.
    + eexists _, tb1, M. split; [done|]. by apply yielded_needed.
  - rewrite (proj2 (Z.eqb_neq s 0)) by done. cbn [negb orb]. eexists _, _, _. split; [done|]. apply yielded_needed.
    by eapply moved_on_trans.
Qed.

(** The walk for a core that is left: it stops at a thread of another core that stays there, or
    takes the thread. *)
Lemma any_suggestions_ok m tb M c fuel pre rest :
  machine_ok m → in_queue (m_kernel m) tb M → core_ok c →
  order Suggested c tb = pre ++ rest → (length rest < fuel)%nat →
  ∃ s m', any_suggestions fuel c (default 0 (head rest)) m = Some (s, m')
    ∧ (m' = m ∧ (s = 0 ∨ ∃ i, M !! s = Some i ∧ 0 ≤ i_core i)
       ∨ ∃ i, M !! s = Some i ∧ prio_ok (i_priority i) ∧ i_core i ≠ c
           ∧ moved_on m m' (moved_table tb s c i false) (<[s := at_core c i]> M)).
Proof.
  intros O H Hc. revert pre rest. induction fuel as [|fuel IH]; intros pre rest Eo Hl; [lia|]. cbn [any_suggestions].
  destruct rest as [|x rest]; simpl default; [cbn [Z.eqb]; exists 0, m; split; [done|]; left; split; [done|by left]|].
  assert (x ∈ order Suggested c tb) as Hx by (rewrite Eo; set_solver).
  destruct (suggested_fields m tb M c O H Hc x Hx) as (i & t & mm & Ei & Hp & Hb & Hne & H4 & Hx0 & Et & Em & Hi).
  rewrite (proj2 (Z.eqb_neq x 0)) by done. rewrite Em. cbn [mbind option_bind]. cbv zeta.
  replace (GetActiveCore mm) with (i_core i) by by rewrite Hi.
  rewrite (front_or_null_ok m tb M H _ H4). cbn [mbind option_bind].
  set (top := if decide (core_ok (i_core i)) then front (i_core i) tb else 0).
  destruct (Z.eqb_spec top x) as [Heq|Htx]; cbn [negb].
  - unfold GetSuggestedNext, queue_of. rewrite (GetNext_order _ tb M Suggested c pre x rest H Hc Eo).
    cbn [mbind option_bind]. apply (IH (pre ++ [x])); [by rewrite <-(assoc (++))|simpl in Hl; lia].
  - destruct (high_of m tb M O H _ H4) as [b Eb]. fold top in Eb. rewrite Eb. cbn [mbind option_bind].
    destruct b; cbn [negb].
    + cbn [mbind option_bind]. exists x, m. split; [done|]. left. split; [done|]. right. exists i. split; [done|].
      destruct (Z.le_gt_cases 0 (i_core i)) as [|Hneg]; [done|]. exfalso. unfold top in Eb.
      rewrite decide_False in Eb by (unfold core_ok; lia). by unfold too_high_to_migrate in Eb.
    + destruct (take_suggestion_ok m tb M x c i false O H Ei) as (m' & -> & K); [apply Hc|done|].
      cbn [mbind option_bind]. exists x, m'. split; [done|]. right. by exists i.
Qed.

Lemma filter_only (x : Z) l : x ∈ l → NoDup l → filter (λ y, y ≠ x) l = [] → l = [x].
Proof.
  intros Hx Hnd Hf. apply singleton_list; [done|]. intros y. split; [|by intros ->]. intros Hy.
  destruct (decide (y = x)) as [|Hne]; [done|]. assert (y ∈ filter (λ y, y ≠ x) l) as Hin by by apply list_elem_of_filter.
  rewrite Hf in Hin. by apply not_elem_of_nil in Hin.
Qed.

(** The current thread leaves its core, and comes back when it is the only one for it. *)
Lemma left_and_back k tb M x i :
  in_queue k tb M → M !! x = Some i → core_ok (i_core i) → prio_ok (i_priority i) →
  order Scheduled (i_core i) tb = [x] →
  ∀ k' tb1, tb1 = moved_table tb x (-1) i false → in_queue k tb M →
  in_queue k' (moved_table tb1 x (i_core i) (at_core (-1) i) false) (<[x := i]> M) → placed tb1 (<[x := at_core (-1) i]> M) →
  ∀ c, core_ok c → front c (moved_table tb1 x (i_core i) (at_core (-1) i) false) = front c tb.
Proof.
  intros H Ei Hci Hp Eo k' tb1 -> _ H' HM1 c Hc. unfold core_ok in Hci.
  assert (at_core (i_core i) (at_core (-1) i) = i) as Eback by by destruct i.
  unfold front. destruct (decide (c = i_core i)) as [->|Hne].
  - rewrite (moved_to_idle _ _ x (i_core i) (at_core (-1) i) false HM1 k'); [by rewrite Eo|done|done| |].
    + rewrite moved_from by (cbn [at_core i_core]; lia). rewrite Eo, filter_cons_False by tauto. done.
    + rewrite Eback, insert_insert_eq. exact H'.
  - rewrite moved_other by (cbn [at_core i_core]; unfold core_ok in *; lia).
    by rewrite moved_other by (unfold core_ok in *; lia).
Qed.

Lemma ToAnyThread_ok m tb M i :
  machine_ok m → in_queue (m_kernel m) tb M → scheduled_cur m M i →
  ∃ m' tb' M', ToAnyThread_locked m = Some m' ∧ yielded m m' tb tb' M'.
Proof.
  intros O H Hcur. destruct (cur_runnable m tb M i H Hcur) as (t & mm & Et & Hs & Em & Hi). unfold ToAnyThread_locked.
  rewrite Et. cbn [mbind option_bind]. rewrite Hs, Z.eqb_refl, Em. cbn [mbind option_bind].
  replace (GetActiveCore mm) with (i_core i) by by rewrite Hi. pose proof Hcur as [Ei Hc Hp Hpr].
  set (cur := cur_thread (m_kernel m)) in *.
  destruct (take_suggestion_ok m tb M cur (-1) i false O H Ei) as (m1 & -> & K); [done|done|]. cbn [mbind option_bind].
  set (tb1 := moved_table tb cur (-1) i false) in *. set (M1 := <[cur := at_core (-1) i]> M) in *. pose proof K as [O1 H1 G1 S1].
  assert (i_core i ≠ -1) as Hc1 by (unfold core_ok in Hc; lia).
  unfold queue_of. rewrite (GetScheduledFront_front _ tb1 M1) by done. cbn [mbind option_bind].
  destruct (Z.eqb_spec (front (i_core i) tb1) 0) as [Hz|Hnz].
  2: { eexists _, tb1, M1. split; [done|]. by apply yielded_needed. }
  apply (front_zero _ tb1 M1 _ (machine_sched m1 O1) H1 Hc) in Hz.
  assert (order Scheduled (i_core i) tb = [cur]) as Eo.
  { apply filter_only; [|by eapply NoDup_order|].
    - apply (elem_scheduled _ _ _ _ (iq_placed _ _ _ H)); [done|]. by exists i.
    - rewrite <-Hz. symmetry. by apply moved_from. }
  unfold GetSuggestedFront. rewrite (GetFront_ok _ _ _ _ (iq_rep _ _ _ H1) Hc). cbn [mbind option_bind].
  destruct (any_suggestions_ok m1 tb1 M1 (i_core i) (suggest_fuel m1) [] (order Suggested (i_core i) tb1) O1 H1 Hc eq_refl)
    as (s & m2 & -> & Hcase).
  { apply (suggest_fuel_ok m1 tb1 M1 (i_core i) O1 H1 Hc); [by eapply NoDup_order|done]. }
  cbn [mbind option_bind].
  assert (∃ tb2 M2, moved_on m1 m2 tb2 M2 ∧ (s = cur → ∀ c, core_ok c → front c tb2 = front c tb)) as (tb2 & M2 & K2 & Hf).
  { assert (cur ≠ 0) as Hcur0 by by destruct (info_member m tb M cur i O H Ei) as (_ & _ & _ & _ & ? & _).
    destruct Hcase as [(-> & Hs')|(j & Ej & Hpj & Hnj & K2)].
    - exists tb1, M1. split; [by apply moved_on_refl|]. intros ->. exfalso. destruct Hs' as [|(j & Ej & Hj)]; [done|].
      unfold M1 in Ej. rewrite lookup_insert_eq in Ej. injection Ej as <-. simpl in Hj. lia.
    - eexists _, _. split; [exact K2|]. intros ->. unfold M1 in Ej. rewrite lookup_insert_eq in Ej. injection Ej as <-.
      apply (left_and_back (m_kernel m) tb M cur i H Ei Hc Hp Eo (m_kernel m2) tb1 eq_refl H).
      + destruct K2 as [_ H2 _ _]. unfold M1 in H2. rewrite insert_insert_eq in H2.
        replace (at_core (i_core i) (at_core (-1) i)) with i in H2 by by destruct i. exact H2.
      + apply H1. }
  pose proof (moved_on_trans _ _ _ _ _ _ _ K K2) as K3.
  destruct (Z.eqb_spec s cur) as [->|Hne]; cbn [negb].
  - destruct (record_yield_ok m m2 tb2 M2 O K3 Hpr) as (m3 & -> & K4). exists m3, tb2, M2. split; [done|].
    apply yielded_same; [done|by apply Hf].
  - eexists _, tb2, M2. split; [done|]. by apply yielded_needed.
Qed.
