(* ===== verification/SchedulerSteps.v ===== *)
(** Sequences of operations on the threads, yields, preemptions and updates of the schedulers:
    what every operation on the threads leaves in place, and the invariant. *)
From S2P Require Import Prelude Common Results PriorityQueue PriorityQueueLinks PriorityQueueSpec Thread ThreadLocks ThreadWaiters ThreadInherit ThreadHandover ThreadState ThreadOps ThreadSpec Scheduler SchedulerState SchedulerUpdate SchedulerMigrate SchedulerYield.

Implicit Types (k : Kernel) (m : Machine).

(** * The members of the queue *)
#[global] Instance same_members_preorder : PreOrder same_members.
Proof. split; [by intros q x|]. intros q1 q2 q3. apply same_members_trans. Qed.

Create HintDb members discriminated.
#[export] Hint Constants Opaque : members.

(** A goal about the first and last of a chain of states, from its end. *)
Ltac chain_back tac :=
  steps; repeat (first [reflexivity
                       |match goal with |- context [if ?b then _ else _] => destruct b end
                       |etrans; [|solve [tac]]]).

Lemma set_entry_members core r e q q' : set_entry core r e q = Some q' → same_members q q'.
Proof.
  intros H x. destruct r as [kd p|y]; cbn [set_entry] in H; steps; [by rewrite members_with_impl|]. simpl.
  rewrite lookup_insert. destruct (decide (y = x)) as [<-|]; [|done].
  match goal with E : members q !! y = Some _ |- _ => by rewrite E end.
Qed.
#[export] Hint Resolve set_entry_members : members.
Ltac chain := chain_back ltac:(typeclasses eauto 3 with members).

Lemma SetPrev_members core r p q q' : SetPrev core r p q = Some q' → same_members q q'.
Proof. unfold SetPrev. intros H. chain. Qed.
Lemma SetNext_members core r p q q' : SetNext core r p q = Some q' → same_members q q'.
Proof. unfold SetNext. intros H. chain. Qed.
Lemma with_available_members kd core ws q q' : with_available kd core ws q = Some q' → same_members q q'.
Proof. unfold with_available. intros H. steps. intros y. by rewrite members_with_impl. Qed.
#[export] Hint Resolve SetPrev_members SetNext_members with_available_members : members.

Lemma PerCore_PushBack_members root core x q b q' : KPerCoreQueue.PushBack root core x q = Some (b, q') → same_members q q'.
Proof. unfold KPerCoreQueue.PushBack. intros H. chain. Qed.
Lemma PerCore_PushFront_members root core x q b q' : KPerCoreQueue.PushFront root core x q = Some (b, q') → same_members q q'.
Proof. unfold KPerCoreQueue.PushFront. intros H. chain. Qed.
Lemma PerCore_Remove_members root core x q b q' : KPerCoreQueue.Remove root core x q = Some (b, q') → same_members q q'.
Proof. unfold KPerCoreQueue.Remove. intros H. chain. Qed.
#[export] Hint Resolve PerCore_PushBack_members PerCore_PushFront_members PerCore_Remove_members : members.

Lemma Impl_PushBack_members kd p core x q q' : KPriorityQueueImpl.PushBack kd p core x q = Some q' → same_members q q'.
Proof. unfold KPriorityQueueImpl.PushBack. intros H. chain. Qed.
Lemma Impl_PushFront_members kd p core x q q' : KPriorityQueueImpl.PushFront kd p core x q = Some q' → same_members q q'.
Proof. unfold KPriorityQueueImpl.PushFront. intros H. chain. Qed.
Lemma Impl_Remove_members kd p core x q q' : KPriorityQueueImpl.Remove kd p core x q = Some q' → same_members q q'.
Proof. unfold KPriorityQueueImpl.Remove. intros H. chain. Qed.
#[export] Hint Resolve Impl_PushBack_members Impl_PushFront_members Impl_Remove_members : members.

Lemma affinity_loop_members fuel f affinity q q' :
  (∀ c q q', f c q = Some q' → same_members q q') → affinity_loop fuel f affinity q = Some q' → same_members q q'.
Proof.
  intros Hf. revert affinity q. induction fuel as [|fuel IH]; intros affinity q; cbn [affinity_loop]; intros H; [done|].
  destruct (affinity =? 0); [steps; done|]. destruct (GetNextCore affinity) as [c a].
  apply bind_Some in H as (q1 & E1 & E2). etrans; [by eapply Hf|by eapply IH].
Qed.

Lemma PushBack_at_members p x q q' : PushBack_at p x q = Some q' → same_members q q'.
Proof.
  unfold PushBack_at. intros H. steps.
  all: match goal with E : affinity_loop _ _ _ _ = Some _ |- _ => apply affinity_loop_members in E; [|intros; by eapply Impl_PushBack_members] end.
  all: etrans; [|done]; chain.
Qed.
Lemma PushFront_at_members p x q q' : PushFront_at p x q = Some q' → same_members q q'.
Proof.
  unfold PushFront_at. intros H. steps.
  all: match goal with E : affinity_loop _ _ _ _ = Some _ |- _ => apply affinity_loop_members in E; [|intros; by eapply Impl_PushBack_members] end.
  all: etrans; [|done]; chain.
Qed.
Lemma Remove_at_members p x q q' : Remove_at p x q = Some q' → same_members q q'.
Proof.
  unfold Remove_at. intros H. steps.
  all: match goal with E : affinity_loop _ _ _ _ = Some _ |- _ => apply affinity_loop_members in E; [|intros; by eapply Impl_Remove_members] end.
  all: etrans; [|done]; chain.
Qed.
#[export] Hint Resolve PushBack_at_members PushFront_at_members Remove_at_members : members.

Lemma PushBack_members x q q' : PriorityQueue.PushBack x q = Some q' → same_members q q'.
Proof. unfold PriorityQueue.PushBack. intros H. chain. Qed.
Lemma Remove_members x q q' : PriorityQueue.Remove x q = Some q' → same_members q q'.
Proof. unfold PriorityQueue.Remove. intros H. chain. Qed.
Lemma ChangePriority_members p b x q q' : ChangePriority p b x q = Some q' → same_members q q'.
Proof. unfold ChangePriority. intros H. chain. Qed.

(** * What every operation on the threads leaves in place *)
Record steady k k' : Prop := {
  sy_cur : cur_thread k' = cur_thread k;
  sy_parents : ∀ x, m_parent <$> threads k' !! x = m_parent <$> threads k !! x;
  sy_dummy : ∀ x, IsDummyThread <$> members (priority_queue k') !! x = IsDummyThread <$> members (priority_queue k) !! x;
  sy_woken : ∀ x, x ∈ m_woken_dummy_threads k' → x ∈ m_woken_dummy_threads k
    ∨ is_Some (threads k !! x) ∧ IsDummyThread <$> members (priority_queue k) !! x = Some true;
  sy_told : m_scheduler_update_needed k' = true
    ∨ m_scheduler_update_needed k' = m_scheduler_update_needed k
      ∧ m_scheduled_queue (priority_queue k') = m_scheduled_queue (priority_queue k);
}.

Lemma parents_Some k k' x :
  (∀ x, m_parent <$> threads k' !! x = m_parent <$> threads k !! x) → is_Some (threads k' !! x) ↔ is_Some (threads k !! x).
Proof. intros H. by rewrite <-!(fmap_is_Some m_parent), H. Qed.

#[global] Instance steady_preorder : PreOrder steady.
Proof.
  split; [intros k; split; auto|]. intros k1 k2 k3 [C1 P1 D1 W1 T1] [C2 P2 D2 W2 T2].
  split; [congruence|intros x; by rewrite P2|intros x; by rewrite D2| |].
  - intros x [Hx|[Hx Hd]]%W2; [by apply W1|]. right. split; [by apply (parents_Some k1 k2)|by rewrite <-D1].
  - destruct T2 as [|[-> ->]]; [by left|]. destruct T1 as [|[-> ->]]; [by left|by right].
Qed.

Lemma steady_same k k' :
  priority_queue k' = priority_queue k → threads k' = threads k → cur_thread k' = cur_thread k →
  m_scheduler_update_needed k' = m_scheduler_update_needed k → m_woken_dummy_threads k' = m_woken_dummy_threads k → steady k k'.
Proof. intros Eq Et Ec Eu Ew. split; rewrite ?Eq, ?Et, ?Ec, ?Eu, ?Ew; auto. Qed.

Lemma on_thread_steady x f k k' : (∀ t, m_parent (f t) = m_parent t) → on_thread x f k = Some k' → steady k k'.
Proof.
  intros Hf (t & Et & [= <-])%bind_Some. split; try done; [| |by right].
  - intros y. simpl. rewrite lookup_insert. destruct (decide (x = y)) as [<-|]; [|done]. rewrite Et. simpl. by rewrite Hf.
  - by left.
Qed.

Lemma set_update_steady k : steady k (SetSchedulerUpdateNeeded k).
Proof. split; try done; [by left|by left]. Qed.

Create HintDb steady discriminated.
#[export] Hint Constants Opaque : steady.
#[export] Hint Extern 0 (steady _ ?y) =>
  match goal with H : on_thread _ _ _ = Some y |- _ => refine (on_thread_steady _ _ _ _ _ H); intro; reflexivity end : steady.

Ltac stay :=
  steps;
  repeat (first [reflexivity
                |solve [by apply steady_same]
                |match goal with |- context [if ?b then _ else _] => destruct b end
                |match goal with |- steady _ (with_locks _ _ ?k1) => etrans; [|solve [by apply (steady_same k1)]] end
                |match goal with |- steady _ (SetSchedulerUpdateNeeded _) => etrans; [|apply set_update_steady] end
                |etrans; [|solve [typeclasses eauto 3 with steady]]
                |match goal with
                 | _ : _ = Some ?y |- steady _ ?g => lazymatch g with y => fail | context [y] => etrans; [|solve [by apply (steady_same y)]] end
                 | _ : _ = Some (_, ?y) |- steady _ ?g => lazymatch g with y => fail | context [y] => etrans; [|solve [by apply (steady_same y)]] end
                 end]).

Lemma erase_from_tree_steady c x k k' : erase_from_tree c x k = Some k' → steady k k'.
Proof. unfold erase_from_tree. intros H. stay. Qed.
Lemma insert_in_tree_steady c x k k' : insert_in_tree c x k = Some k' → steady k k'.
Proof. unfold insert_in_tree. intros H. stay. Qed.
Lemma IncrementScheduledCount_steady x k k' : IncrementScheduledCount x k = Some k' → steady k k'.
Proof. unfold IncrementScheduledCount. intros H. stay. Qed.
Lemma on_lock_steady l f k k' : on_lock l f k = Some k' → steady k k'.
Proof. unfold on_lock. intros H. stay. Qed.
Lemma SetPriority_steady x v k k' : SetPriority x v k = Some k' → steady k k'.
Proof.
  unfold SetPriority. intros H. steps. split; try done; [|by left|by right]. intros y. simpl. rewrite lookup_insert.
  destruct (decide (x = y)) as [<-|]; [|done].
  match goal with E : members _ !! x = Some _ |- _ => by rewrite E end.
Qed.
#[export] Hint Resolve erase_from_tree_steady insert_in_tree_steady IncrementScheduledCount_steady on_lock_steady SetPriority_steady : steady.

(** The scheduler is told of every change of its queue. *)
Lemma told_steady k q k1 x :
  same_members (priority_queue k) q → IncrementScheduledCount x (with_queue q k) = Some k1 →
  steady k (SetSchedulerUpdateNeeded k1).
Proof.
  intros Hm H%IncrementScheduledCount_steady. destruct H as [C P D W _]. split; try done; [| |by left].
  - intros y. cbn [SetSchedulerUpdateNeeded priority_queue with_scheduler]. rewrite D. simpl. specialize (Hm y).
    destruct (members q !! y), (members (priority_queue k) !! y); try done. simpl in *. by injection Hm as _ _ _ ->.
  - intros y Hy. destruct (W y Hy) as [?|[? Hd]]; [by left|right]. split; [done|]. simpl in Hd. specialize (Hm y).
    destruct (members q !! y), (members (priority_queue k) !! y); try done. simpl in *. by injection Hm as _ _ _ <-.
Qed.

Lemma OnThreadStateChanged_steady x o k k' : OnThreadStateChanged x o k = Some k' → steady k k'.
Proof.
  unfold OnThreadStateChanged. intros (t & Et & H)%bind_Some. apply bind_Some in H as (mm & Em & H). cbv zeta in H.
  destruct (_ =? o); [stay|]. destruct (o =? _).
  - apply bind_Some in H as (q & Eq%Remove_members & H). apply bind_Some in H as (k1 & E1 & [= <-]).
    pose proof (told_steady k q k1 x Eq E1) as S. destruct (IsDummyThread mm); [|done]. etrans; [exact S|].
    split; try done; [|by left]. intros y. simpl. set_solver.
  - destruct (_ =? _); [|stay].
    apply bind_Some in H as (q & Eq%PushBack_members & H). apply bind_Some in H as (k1 & E1 & [= <-]).
    pose proof (told_steady k q k1 x Eq E1) as S. destruct (IsDummyThread mm) eqn:Ed; [|done].
    destruct S as [C P D W _]. split; try done; [|by left]. intros y. simpl. intros [->%elem_of_singleton|Hy]%elem_of_union.
    + right. rewrite Em. simpl. rewrite Ed. split; [by exists t|done].
    + by apply W.
Qed.
Lemma OnThreadPriorityChanged_steady x o k k' : OnThreadPriorityChanged x o k = Some k' → steady k k'.
Proof.
  unfold OnThreadPriorityChanged. intros (t & Et & H)%bind_Some. destruct (_ =? _); [|stay].
  apply bind_Some in H as (q & Eq%ChangePriority_members & H). apply bind_Some in H as (k1 & E1 & [= <-]).
  by eapply told_steady.
Qed.
#[export] Hint Resolve OnThreadStateChanged_steady OnThreadPriorityChanged_steady : steady.

Lemma SetState_steady x v k k' : SetState x v k = Some k' → steady k k'.
Proof. unfold SetState, store_state. intros H. stay. Qed.
Lemma UpdateState_steady x k k' : UpdateState x k = Some k' → steady k k'.
Proof. unfold UpdateState, store_state. intros H. stay. Qed.
Lemma Continue_steady x k k' : Thread.Continue x k = Some k' → steady k k'.
Proof. unfold Thread.Continue, store_state. intros H. stay. Qed.
#[export] Hint Resolve SetState_steady UpdateState_steady Continue_steady : steady.
Lemma TrySuspend_steady x k k' : TrySuspend x k = Some k' → steady k k'.
Proof. unfold TrySuspend. intros H. stay. Qed.
#[export] Hint Resolve TrySuspend_steady : steady.
Lemma AddHeldLock_steady x l k k' : AddHeldLock x l k = Some k' → steady k k'.
Proof. unfold AddHeldLock. intros H. stay. Qed.
Lemma erase_held_steady x l k k' : erase_held x l k = Some k' → steady k k'.
Proof. unfold erase_held. intros H. stay. Qed.
Lemma lock_AddWaiter_steady l w k k' : lock_AddWaiter l w k = Some k' → steady k k'.
Proof. unfold lock_AddWaiter. intros H. stay. Qed.
Lemma lock_RemoveWaiter_steady l w k b k' : lock_RemoveWaiter l w k = Some (b, k') → steady k k'.
Proof. unfold lock_RemoveWaiter. intros H. stay. Qed.
#[export] Hint Resolve AddHeldLock_steady erase_held_steady lock_AddWaiter_steady lock_RemoveWaiter_steady : steady.
Lemma AddWaiterImpl_steady x w k k' : AddWaiterImpl x w k = Some k' → steady k k'.
Proof. unfold AddWaiterImpl, lock_Create. intros H. stay. Qed.
Lemma RemoveWaiterImpl_steady x w k k' : RemoveWaiterImpl x w k = Some k' → steady k k'.
Proof. unfold RemoveWaiterImpl. intros H. stay. Qed.
Lemma change_priority_steady x v k k' : change_priority x v k = Some k' → steady k k'.
Proof. unfold change_priority. intros H. stay. Qed.
#[export] Hint Resolve AddWaiterImpl_steady RemoveWaiterImpl_steady change_priority_steady : steady.
Lemma restore_step_steady x v k o k' : restore_step x v k = Some (o, k') → steady k k'.
Proof. unfold restore_step. intros H. stay. Qed.
#[export] Hint Resolve restore_step_steady : steady.
Lemma RestorePriority_loop_steady fuel x k k' : RestorePriority_loop fuel x k = Some k' → steady k k'.
Proof.
  revert x k. induction fuel as [|fuel IH]; intros [x|] k; cbn [RestorePriority_loop]; intros H; stay.
Qed.
Lemma RestorePriority_steady x k k' : RestorePriority x k = Some k' → steady k k'.
Proof. apply RestorePriority_loop_steady. Qed.
#[export] Hint Resolve RestorePriority_steady : steady.
Lemma AddWaiter_steady x w k k' : AddWaiter x w k = Some k' → steady k k'.
Proof. unfold AddWaiter. intros H. stay. Qed.
Lemma RemoveWaiter_steady x w k k' : RemoveWaiter x w k = Some k' → steady k k'.
Proof. unfold RemoveWaiter. intros H. stay. Qed.
Lemma hand_over_steady x l k r k' : hand_over x l k = Some (r, k') → steady k k'.
Proof. unfold hand_over. intros H. stay. Qed.
#[export] Hint Resolve AddWaiter_steady RemoveWaiter_steady hand_over_steady : steady.
Lemma queue_EndWait_steady q x r k k' : queue_EndWait q x r k = Some k' → steady k k'.
Proof. unfold queue_EndWait, SetWaitResult, ClearWaitQueue, CancelTask. intros H. stay. Qed.
Lemma queue_CancelWait_steady q x r b k k' : queue_CancelWait q x r b k = Some k' → steady k k'.
Proof. unfold queue_CancelWait, SetWaitResult, ClearWaitQueue, CancelTask. intros H. stay. Qed.
Lemma leave_owner_steady x k k' : leave_owner x k = Some k' → steady k k'.
Proof. unfold leave_owner. intros H. stay. Qed.
Lemma leave_tree_steady c x k k' : leave_tree c x k = Some k' → steady k k'.
Proof. unfold leave_tree, ClearConditionVariable. intros H. stay. Qed.
#[export] Hint Resolve queue_EndWait_steady queue_CancelWait_steady leave_owner_steady leave_tree_steady : steady.
Lemma CancelWait_steady x r b k k' : CancelWait x r b k = Some k' → steady k k'.
Proof. unfold CancelWait, dispatch_CancelWait. intros H. stay. Qed.
#[export] Hint Resolve CancelWait_steady : steady.

Lemma perform_steady op k k' : ThreadSpec.perform op k = Some k' → steady k k'.
Proof.
  destruct op; cbn [ThreadSpec.perform]; intros H.
  - unfold AddWaiter in H. stay.
  - unfold RemoveWaiter in H. stay.
  - apply fmap_Some in H as ([r k1] & H & ->). unfold RemoveWaiterByKey in H. stay.
  - unfold SetBasePriority in H. stay.
  - unfold IncreaseBasePriority in H. stay.
  - stay.
  - unfold RequestSuspend in H. stay.
  - unfold Resume in H. stay.
  - unfold ContinueIfHasKernelWaiters in H. stay.
  - unfold BeginWait in H. stay.
  - unfold EndWait, dispatch_EndWait, SetWaitResult in H. stay.
  - stay.
  - unfold OnTimer in H. stay.
  - unfold WaitCancel, dispatch_CancelWait in H. stay.
Qed.

(** * The invariant *)

(** Each core has the front of its queue, unless an update is due. *)
Definition in_step m : Prop :=
  m_scheduler_update_needed (m_kernel m) = true
  ∨ ∀ c, core_ok c → GetScheduledFront c (queue_of m) = Some (running c m).

Record in_order m : Prop := {
  io_ok : machine_ok m;
  io_unpinned : unpinned m;
  io_step : in_step m;
}.

Lemma in_order_queue m : in_order m → ∃ tb M, in_queue (m_kernel m) tb M.
Proof.
  intros [O _ _]. destruct (sc_queue _ (machine_sched m O)) as (tb & M & H1 & H2 & H3). exists tb, M. by split.
Qed.

Lemma in_step_fronts m tb M :
  in_queue (m_kernel m) tb M →
  in_step m ↔ m_scheduler_update_needed (m_kernel m) = true ∨ ∀ c, core_ok c → running c m = front c tb.
Proof.
  intros H. unfold in_step. assert (∀ c, core_ok c → GetScheduledFront c (queue_of m) = Some (running c m) ↔ running c m = front c tb) as E.
  { intros c Hc. unfold queue_of. rewrite (GetScheduledFront_front _ tb M) by done. split; congruence. }
  split; (intros [?|Hf]; [by left|right; intros c Hc; by apply E, Hf]).
Qed.

(** ** What the queue does not see *)
Record quiet m m' : Prop := {
  qt_kernel : m_kernel m' = m_kernel m;
  qt_cores : length (schedulers m) = 4%nat → length (schedulers m') = 4%nat;
  qt_core : ∀ c, length (schedulers m) = 4%nat → core_ok c →
    m_core_id (scheduler c m') = m_core_id (scheduler c m) ∧ running c m' = running c m
    ∧ interrupt_task_runnable (scheduler c m') = interrupt_task_runnable (scheduler c m);
  qt_threads : dom (sched_threads m') = dom (sched_threads m);
  qt_process : ∀ p pr, processes m !! p = Some pr → arrays_ok pr → ∃ pr', processes m' !! p = Some pr' ∧ arrays_ok pr';
  qt_pinned : m_pinned_threads <$> processes m' = m_pinned_threads <$> processes m;
}.

#[global] Instance quiet_preorder : PreOrder quiet.
Proof.
  split; [intros m; split; eauto|]. intros m1 m2 m3 [K1 L1 C1 T1 P1 N1] [K2 L2 C2 T2 P2 N2].
  split; [congruence|auto| |congruence| |congruence].
  - intros c Hl Hc. destruct (C2 c (L1 Hl) Hc) as (-> & -> & ->). by apply C1.
  - intros p pr E H. destruct (P1 p pr E H) as (pr' & E' & H'). eauto.
Qed.

Lemma quiet_ok m m' : quiet m m' → machine_ok m → machine_ok m'.
Proof.
  intros [K L C T P N] [Hs Hl Hc Ht Hp Hw Hcur]. unfold queue_of in *. split; rewrite ?K; auto.
  - intros c Hcc. unfold queue_of. destruct (C c Hl Hcc) as (-> & -> & _). by apply Hc.
  - by rewrite T.
  - intros x t E Hn. destruct (Hp x t E Hn) as (pr & Ep & Ha). by apply (P _ pr).
  - unfold queue_of. by rewrite K.
Qed.

Lemma quiet_in_order m m' : quiet m m' → in_order m → in_order m'.
Proof.
  intros Q [O U S]. split; [by eapply quiet_ok|intros p; rewrite (qt_pinned _ _ Q); apply U|].
  destruct Q as [K L C T P N], S as [S|S]; [left; by rewrite K|right]. intros c Hc. unfold queue_of. rewrite K.
  destruct (C c (mo_cores m O) Hc) as (_ & -> & _). by apply S.
Qed.

Lemma quiet_schedulers m m' :
  schedulers m' = schedulers m → m_kernel m' = m_kernel m → sched_threads m' = sched_threads m → processes m' = processes m →
  quiet m m'.
Proof. intros Es Ek Et Ep. split; unfold running, scheduler; rewrite ?Es, ?Ek, ?Et, ?Ep; eauto. Qed.

Lemma on_sched_thread_quiet x f m m' : on_sched_thread x f m = Some m' → quiet m m'.
Proof.
  intros (t & Et & [= <-])%bind_Some. split; eauto. cbn. rewrite dom_insert_L. apply elem_of_dom_2 in Et. set_solver.
Qed.

Lemma scheduler_found m c s : length (schedulers m) = 4%nat → at_ (schedulers m) c = Some s → core_ok c ∧ s = scheduler c m.
Proof.
  intros Hl Es. assert (core_ok c) as Hc.
  { unfold at_ in Es. destruct (Z.leb_spec 0 c); [|done]. apply lookup_lt_Some in Es. unfold core_ok. lia. }
  split; [done|]. rewrite scheduler_at in Es by done. by injection Es as <-.
Qed.

Lemma on_scheduler_quiet c f m m' :
  (∀ s, m_core_id (f s) = m_core_id s ∧ highest_priority_thread (f s) = highest_priority_thread s
     ∧ interrupt_task_runnable (f s) = interrupt_task_runnable s) →
  length (schedulers m) = 4%nat → on_scheduler c f m = Some m' →
  quiet m m' ∧ core_ok c ∧ scheduler c m' = f (scheduler c m).
Proof.
  intros Hf Hl Ho. assert (core_ok c) as Hc.
  { unfold on_scheduler in Ho. apply bind_Some in Ho as (s & Es & _). by apply scheduler_found in Es as [? _]. }
  destruct (on_scheduler_ok m c f Hl Hc) as (ss & E & Hl' & Hs). rewrite E in Ho. injection Ho as <-.
  split; [|split; [done|by rewrite Hs, decide_True]]. split; eauto. intros e _ He. unfold running. rewrite Hs by done.
  destruct (decide (e = c)) as [->|]; [|done]. apply Hf.
Qed.

(** ** The operations on the threads *)
Lemma GetScheduledFront_same c q q' :
  m_scheduled_queue q' = m_scheduled_queue q → GetScheduledFront c q' = GetScheduledFront c q.
Proof.
  intros E. unfold GetScheduledFront, KPriorityQueueImpl.GetFront, KPerCoreQueue.GetFront, get_entry, impl. by rewrite E.
Qed.

Lemma thread_in_order m k' : in_order m → steady (m_kernel m) k' → sane k' → in_order (with_kernel k' m).
Proof.
  intros [[Hs Hl Hc Ht Hp Hw Hcur] U St] [C P D W T] Hs'. pose proof (λ x, parents_Some _ _ x P) as HP.
  split; [split; cbn [m_kernel with_kernel]; unfold queue_of; try done| |].
  - intros c Hcc. destruct (Hc c Hcc) as [? [?|?]]; (split; [done|]); [by left|right]. by apply HP.
  - intros x Hx%elem_of_dom%HP%elem_of_dom. by apply Ht.
  - intros x t' Et' Hn. specialize (P x). cbn [m_kernel with_kernel] in Et'. rewrite Et' in P.
    destruct (threads (m_kernel m) !! x) as [t|] eqn:Et; [|done]. injection P as P. rewrite P in *. by apply (Hp x t).
  - intros x Hx. assert (is_Some (threads (m_kernel m) !! x) ∧ IsDummyThread <$> members (queue_of m) !! x = Some true) as [H1 H2].
    { apply W in Hx as [Hx|?]; [|done]. destruct (Hw x Hx) as (? & mm & E & Ed). split; [done|]. rewrite E. simpl. by rewrite Ed. }
    split; [by apply HP|]. cbn [m_kernel with_kernel]. unfold queue_of in H2. rewrite <-D in H2.
    apply fmap_Some in H2 as (mm & E & Ed). by exists mm.
  - rewrite C. by apply HP.
  - exact U.
  - destruct T as [?|[Eu Eq]]; [by left|]. destruct St as [St|St]; [left; cbn; congruence|right]. intros c Hcc.
    unfold queue_of in *. cbn [m_kernel with_kernel]. rewrite (GetScheduledFront_same _ _ _ Eq). exact (St c Hcc).
Qed.

Lemma by_thread_ok m op :
  in_order m → allowed op (m_kernel m) → ∃ k', ThreadSpec.perform op (m_kernel m) = Some k' ∧ in_order (with_kernel k' m).
Proof.
  intros I A. destruct (perform_ok op (m_kernel m) (mo_sane m (io_ok m I)) A) as (k' & E & Hs).
  exists k'. split; [done|]. apply thread_in_order; [done|by eapply perform_steady|done].
Qed.

(** ** Rotation *)
Lemma update_due m m0 tb' M' : in_order m → moved_on m m0 tb' M' → in_order (set_update_needed m0).
Proof.
  intros [O U _] [O' H' [F _ _] _]. apply fixed_fields in F as (_ & _ & _ & _ & Ep).
  split; [by apply (set_update_ok m0 tb' M')| |by left]. intros p. cbn. rewrite Ep. apply U.
Qed.

Lemma rotate_in_order m c p :
  in_order m → core_ok c → prio_ok p → ∃ m', RotateScheduledQueue c p m = Some m' ∧ in_order m'.
Proof.
  intros I Hc Hp. destruct (in_order_queue m I) as (tb & M & H).
  destruct (RotateScheduledQueue_ok m tb M c p (io_ok m I) H Hc Hp) as (m0 & tb' & M' & E & K & _).
  exists (set_update_needed m0). split; [done|]. by eapply update_due.
Qed.

Lemma preempt_loop_in_order ps c m :
  in_order m → Forall prio_ok ps → 0 ≤ c → c + Z.of_nat (length ps) ≤ 4 → ∃ m', preempt_loop c ps m = Some m' ∧ in_order m'.
Proof.
  intros I Hps. revert c m I. induction Hps as [|p ps Hp Hps IH]; intros c m I Hc Hl; cbn [preempt_loop]; [eauto|].
  cbn [length] in Hl. destruct (rotate_in_order m c p I) as (m1 & -> & I1); [unfold core_ok; lia|done|]. cbn [mbind option_bind].
  apply IH; [done|lia..].
Qed.

Lemma PreemptThreads_in_order m : in_order m → ∃ m', PreemptThreads m = Some m' ∧ in_order m'.
Proof. intros I. apply preempt_loop_in_order; [done|by eapply bool_decide_unpack; vm_compute|done..]. Qed.

(** ** The update *)

(** The update, whether it is due or not. *)
Record updated m mask m' tb tb' M' : Prop := {
  up_order : in_order m';
  up_queue : in_queue (m_kernel m') tb' M';
  up_running : ∀ c, core_ok c → running c m' = front c tb';
  up_runs : runs_on tb tb';
  up_marks : marks mask m m';
  up_needed : m_scheduler_update_needed (m_kernel m') = false;
  up_threads : threads (m_kernel m') = threads (m_kernel m);
  up_cur : cur_thread (m_kernel m') = cur_thread (m_kernel m);
  up_members : ∀ x, unplaced <$> members (queue_of m') !! x = unplaced <$> members (queue_of m) !! x;
}.

Lemma UpdateHighestPriorityThreads_ok clock m tb M :
  in_order m → in_queue (m_kernel m) tb M →
  ∃ mask m' tb' M', UpdateHighestPriorityThreads clock m = Some (mask, m') ∧ updated m mask m' tb tb' M'.
Proof.
  intros I H. pose proof I as [O U S]. unfold UpdateHighestPriorityThreads.
  destruct (m_scheduler_update_needed (m_kernel m)) eqn:Eu.
  - destruct (UpdateHighestPriorityThreadsImpl_ok clock m tb M O U H) as (mask & m' & tb' & M' & E & [O' H' R' _ Ru K' Eu' Et' Ec' Ep' Em']).
    exists mask, m', tb', M'. split; [done|]. split; try done. split; [done|intros p; rewrite Ep'; apply U|].
    apply (in_step_fronts m' tb' M' H'). by right.
  - apply (in_step_fronts m tb M H) in S as [S|S]; [congruence|].
    exists 0, m, tb, M. split; [done|]. split; try done. by apply marks_refl.
Qed.
