(* ===== verification/SchedulerDispatch.v ===== *)
(** Giving up the scheduler's lock: what a thread that yields finds when it comes out of it, and
    the switch to another thread. *)
From S2P Require Import Prelude Common Results PriorityQueue PriorityQueueLinks PriorityQueueSpec Thread ThreadLocks ThreadWaiters ThreadInherit ThreadHandover ThreadState ThreadOps ThreadSpec Scheduler SchedulerState SchedulerUpdate SchedulerMigrate SchedulerYield SchedulerSteps.

Implicit Types (k : Kernel) (m : Machine).

(** * What only the dispatch of a thread changes *)
Definition dispatching (t : SchedThread) : Z * Z := (disable_count t, m_current_core_id t).
Definition keeps m m' : Prop := ∀ x, dispatching <$> sched_threads m' !! x = dispatching <$> sched_threads m !! x.

#[global] Instance keeps_preorder : PreOrder keeps.
Proof. split; [by intros m x|]. intros m1 m2 m3 H1 H2 x. by rewrite H2. Qed.

Create HintDb keeps discriminated.
#[export] Hint Constants Opaque : keeps.

Lemma with_kernel_keeps k m : keeps m (with_kernel k m).
Proof. by intros x. Qed.
Lemma on_kernel_keeps f m m' : on_kernel f m = Some m' → keeps m m'.
Proof. intros (k & _ & [= <-])%bind_Some. by intros x. Qed.
Lemma on_scheduler_keeps c f m m' : on_scheduler c f m = Some m' → keeps m m'.
Proof. unfold on_scheduler. intros H. steps. by intros y. Qed.
Lemma on_process_keeps p f m m' : on_process p f m = Some m' → keeps m m'.
Proof. unfold on_process. intros H. steps. by intros y. Qed.
Lemma on_sched_thread_keeps x f m m' :
  (∀ t, dispatching (f t) = dispatching t) → on_sched_thread x f m = Some m' → keeps m m'.
Proof.
  intros Hf (t & Et & [= <-])%bind_Some y. cbn. rewrite lookup_insert. destruct (decide (x = y)) as [<-|]; [|done].
  rewrite Et. simpl. by rewrite Hf.
Qed.
Lemma readings_keeps n m : keeps m (with_readings n m).
Proof. by intros x. Qed.
#[export] Hint Resolve with_kernel_keeps on_kernel_keeps on_scheduler_keeps on_process_keeps readings_keeps : keeps.
#[export] Hint Extern 0 (keeps _ ?y) =>
  match goal with H : on_sched_thread _ _ _ = Some y |- _ => refine (on_sched_thread_keeps _ _ _ _ _ H); intro; reflexivity end : keeps.

Ltac kept := chain_back ltac:(typeclasses eauto 3 with keeps).

Lemma SetRunningThread_keeps p c x n s m m' : SetRunningThread p c x n s m = Some m' → keeps m m'.
Proof. apply on_process_keeps. Qed.
#[export] Hint Resolve SetRunningThread_keeps : keeps.

Section update.
Context (clock : nat → Z).

Lemma leave_thread_keeps x m m' : leave_thread clock x m = Some m' → keeps m m'.
Proof. unfold leave_thread, GetClockTicks. intros H. kept. Qed.
Lemma count_idle_keeps c x s m m' : count_idle c x s m = Some m' → keeps m m'.
Proof. unfold count_idle. intros H. kept. Qed.
#[local] Hint Resolve leave_thread_keeps count_idle_keeps : keeps.
Lemma UpdateHighestPriorityThread_keeps c x m b m' : UpdateHighestPriorityThread clock c x m = Some (b, m') → keeps m m'.
Proof. unfold UpdateHighestPriorityThread. intros H. kept. Qed.
#[local] Hint Resolve UpdateHighestPriorityThread_keeps : keeps.

Lemma choose_loop_keeps cs m a b tops m' : choose_loop clock cs m = Some (a, b, tops, m') → keeps m m'.
Proof.
  revert m a b tops. induction cs as [|c cs IH]; intros m a b tops H; cbn [choose_loop] in H; kept.
Qed.
Lemma suggest_loop_keeps fuel c s cs mask tops m s' cs' mask' tops' m' :
  suggest_loop clock fuel c s cs mask tops m = Some (s', cs', mask', tops', m') → keeps m m'.
Proof.
  revert s cs. induction fuel as [|fuel IH]; intros s cs H; cbn [suggest_loop] in H; kept.
  all: by eapply IH.
Qed.
Lemma candidate_loop_keeps c cs mask tops m mask' tops' m' :
  candidate_loop clock c cs mask tops m = Some (mask', tops', m') → keeps m m'.
Proof.
  induction cs as [|d cs IH]; intros H; cbn [candidate_loop] in H; kept. all: by apply IH.
Qed.
#[local] Hint Resolve choose_loop_keeps suggest_loop_keeps candidate_loop_keeps : keeps.
Lemma migrate_to_keeps c mask tops m mask' tops' m' :
  migrate_to clock c mask tops m = Some (mask', tops', m') → keeps m m'.
Proof. unfold migrate_to. intros H. kept. Qed.
#[local] Hint Resolve migrate_to_keeps : keeps.
Lemma idle_loop_keeps fuel idle mask tops m mask' tops' m' :
  idle_loop clock fuel idle mask tops m = Some (mask', tops', m') → keeps m m'.
Proof.
  revert idle mask tops m. induction fuel as [|fuel IH]; intros idle mask tops m H; cbn [idle_loop] in H; kept.
Qed.
Lemma wakeup_loop_keeps xs m m' : wakeup_loop xs m = Some m' → keeps m m'.
Proof.
  revert m. induction xs as [|x xs IH]; intros m H; cbn [wakeup_loop] in H; unfold DummyThreadEndWait in H; kept.
Qed.
#[local] Hint Resolve idle_loop_keeps wakeup_loop_keeps : keeps.
Lemma Update_keeps mask m m' : UpdateHighestPriorityThreads clock m = Some (mask, m') → keeps m m'.
Proof.
  unfold UpdateHighestPriorityThreads, UpdateHighestPriorityThreadsImpl, WakeupWaitingDummyThreads, dummy_wait, RequestDummyThreadWait.
  intros H. kept.
Qed.
End update.

Lemma take_suggestion_keeps a c x fr m m' : take_suggestion a c x fr m = Some m' → keeps m m'.
Proof. unfold take_suggestion. intros H. kept. Qed.
Lemma record_yield_keeps m m' : record_yield m = Some m' → keeps m m'.
Proof. unfold record_yield. intros H. kept. Qed.
Lemma yield_back_keeps m x m' : yield_back m = Some (x, m') → keeps m m'.
Proof. unfold yield_back. intros H. kept. Qed.
#[export] Hint Resolve take_suggestion_keeps record_yield_keeps yield_back_keeps : keeps.
Lemma yield_suggestions_keeps fuel c next s r m s' r' m' :
  yield_suggestions fuel c next s r m = Some (s', r', m') → keeps m m'.
Proof.
  revert s r. induction fuel as [|fuel IH]; intros s r H; cbn [yield_suggestions] in H; kept. all: by eapply IH.
Qed.
Lemma any_suggestions_keeps fuel c s m s' m' : any_suggestions fuel c s m = Some (s', m') → keeps m m'.
Proof.
  revert s. induction fuel as [|fuel IH]; intros s H; cbn [any_suggestions] in H; kept. all: by eapply IH.
Qed.
#[export] Hint Resolve yield_suggestions_keeps any_suggestions_keeps : keeps.

Lemma yield_locked_keeps kind m m' : yield_locked kind m = Some m' → keeps m m'.
Proof.
  destruct kind; cbn [yield_locked]; unfold WithoutCoreMigration_locked, WithCoreMigration_locked, ToAnyThread_locked, set_update_needed;
    intros H; kept.
Qed.

(** * The end of the lock *)

(** What the core [c] is to run: 0 for the idle thread. *)
Definition chosen (c : Z) m : Z := if interrupt_task_runnable (scheduler c m) then 0 else running c m.

Lemma quiet_chosen c m m' : quiet m m' → length (schedulers m) = 4%nat → core_ok c → chosen c m' = chosen c m.
Proof. intros Q Hl Hc. unfold chosen. by destruct (qt_core _ _ Q c Hl Hc) as (_ & -> & ->). Qed.

Section release.
Context (c : Z) (m : Machine) (st : SchedThread).
Context (Hl : length (schedulers m) = 4%nat) (Hc : core_ok c) (Hid : m_core_id (scheduler c m) = c)
        (Est : sched_threads m !! cur_thread (m_kernel m) = Some st) (Hcur : m_current_core_id st = c).

Lemma Schedule_ok :
  disable_count st = 1 →
  ∃ m', Schedule c m = Some (if decide (chosen c m = cur_thread (m_kernel m)) then Continue
                             else Switch (cur_thread (m_kernel m)) (chosen c m), m')
    ∧ quiet m m' ∧ sched_threads m' = sched_threads m.
Proof using Hl Hc Hid Est Hcur.
  intros Hn. unfold Schedule. rewrite Est, (scheduler_at m c Hl Hc). cbn [mbind option_bind].
  rewrite Hn, Hcur, Hid, !Z.eqb_refl. cbn [check mbind option_bind]. unfold ScheduleImpl.
  destruct (on_scheduler_ok m c (set_needs_scheduling false) Hl Hc) as (ss & E & Hl' & Hs).
  pose proof E as (Q & _ & Es)%on_scheduler_quiet; [|done..]. rewrite E. cbn [mbind option_bind].
  rewrite (scheduler_at (with_schedulers ss m) c Hl' Hc), Es. cbn [mbind option_bind]. eexists. split; [|done]. f_equal. f_equal.
  change (highest_priority_thread (set_needs_scheduling false (scheduler c m))) with (running c m).
  change (interrupt_task_runnable (set_needs_scheduling false (scheduler c m))) with (interrupt_task_runnable (scheduler c m)).
  cbn [m_kernel with_schedulers]. fold (chosen c m). destruct (Z.eqb_spec (chosen c m) (cur_thread (m_kernel m))), (decide _); done.
Qed.

Lemma set_disable_at n :
  on_sched_thread (cur_thread (m_kernel m)) (set_disable_count n) m
  = Some (with_sched_threads (<[cur_thread (m_kernel m) := set_disable_count n st]> (sched_threads m)) m).
Proof using Est. unfold on_sched_thread. by rewrite Est. Qed.
Lemma DisableDispatch_ok n :
  disable_count st = n → 0 ≤ n < 100 →
  DisableDispatch m
  = Some (with_sched_threads (<[cur_thread (m_kernel m) := set_disable_count (n + 1) st]> (sched_threads m)) m).
Proof using Est.
  clear Hl Hid Hcur. intros Hn Hb. unfold DisableDispatch, GetDisableDispatchCount. rewrite Est. cbn [mbind option_bind].
  rewrite Hn, (check_bind_Some (0 <=? n)) by lia. rewrite swrap_small by lia. apply set_disable_at.
Qed.
Lemma EnableDispatch_ok :
  disable_count st = 1 →
  EnableDispatch m
  = Some (with_sched_threads (<[cur_thread (m_kernel m) := set_disable_count 0 st]> (sched_threads m)) m).
Proof using Est.
  intros Hn. unfold EnableDispatch, GetDisableDispatchCount. rewrite Est. cbn [mbind option_bind].
  rewrite Hn. cbn [Z.ltb Z.compare check mbind option_bind]. apply set_disable_at.
Qed.
End release.

Lemma RescheduleOtherCores_ok c mask m :
  length (schedulers m) = 4%nat → core_ok c →
  ∃ s, RescheduleOtherCores c mask m = Some (with_interrupts s m).
Proof.
  intros Hl Hc. unfold RescheduleOtherCores. rewrite (scheduler_at m c Hl Hc). cbn [mbind option_bind].
  destruct (negb _); [by eexists|]. exists (interrupts m). by destruct m.
Qed.

Lemma EnableScheduling_ok c mask m st :
  length (schedulers m) = 4%nat → core_ok c → m_core_id (scheduler c m) = c →
  sched_threads m !! cur_thread (m_kernel m) = Some st → disable_count st = 1 → m_current_core_id st = c →
  (needs_scheduling (scheduler c m) = false → chosen c m = cur_thread (m_kernel m)) →
  ∃ m', EnableScheduling (OnCore c) mask m
        = Some (if decide (chosen c m = cur_thread (m_kernel m)) then Continue
                else Switch (cur_thread (m_kernel m)) (chosen c m), m')
    ∧ quiet m m'.
Proof.
  intros Hl Hc Hid Est Hn Hcur Hruns. unfold EnableScheduling, GetDisableDispatchCount at 1.
  rewrite Est. cbn [mbind option_bind]. rewrite Hn. cbn [Z.leb Z.ltb Z.compare Pos.compare Pos.compare_cont check mbind option_bind].
  destruct (RescheduleOtherCores_ok c mask m Hl Hc) as [sent ->]. cbn [mbind option_bind].
  set (m1 := with_interrupts sent m). assert (quiet m m1) as Q1 by by apply quiet_schedulers.
  unfold RescheduleCurrentCore, GetDisableDispatchCount. change (sched_threads m1) with (sched_threads m).
  change (cur_thread (m_kernel m1)) with (cur_thread (m_kernel m)). rewrite Est. cbn [mbind option_bind].
  rewrite Hn. cbn [Z.eqb Pos.eqb check mbind option_bind].
  pose proof (EnableDispatch_ok m1 st Est Hn) as E2. set (m2 := with_sched_threads _ m1) in E2. rewrite E2. cbn [mbind option_bind].
  assert (quiet m1 m2) as Q2.
  { unfold EnableDispatch in E2. apply bind_Some in E2 as (? & _ & E2). apply check_bind_inv in E2 as [_ E2].
    by eapply on_sched_thread_quiet. }
  change (schedulers m2) with (schedulers m). rewrite (scheduler_at m c Hl Hc). cbn [mbind option_bind].
  destruct (needs_scheduling (scheduler c m)) eqn:En.
  2: { rewrite decide_True by by apply Hruns. exists m2. split; [done|]. by etrans. }
  unfold RescheduleCurrentCoreImpl. change (schedulers m2) with (schedulers m). rewrite (scheduler_at m c Hl Hc).
  cbn [mbind option_bind]. rewrite En.
  set (st2 := set_disable_count 0 st).
  assert (sched_threads m2 !! cur_thread (m_kernel m2) = Some st2) as Est2 by (cbn; by rewrite lookup_insert_eq).
  pose proof (DisableDispatch_ok m2 st2 Est2 0 eq_refl) as E3. rewrite E3 by lia. cbn [mbind option_bind].
  set (st3 := set_disable_count (0 + 1) st2) in *. set (m3 := with_sched_threads _ m2) in *.
  assert (sched_threads m3 !! cur_thread (m_kernel m3) = Some st3) as Est3 by (cbn; by rewrite lookup_insert_eq).
  assert (quiet m2 m3) as Q3.
  { split; eauto. cbn. rewrite !dom_insert_L. set_solver. }
  destruct (Schedule_ok c m3 st3 Hl Hc Hid Est3 Hcur eq_refl) as (m4 & -> & Q4 & Et4). cbn [mbind option_bind].
  change (chosen c m3) with (chosen c m). change (cur_thread (m_kernel m3)) with (cur_thread (m_kernel m)).
  assert (quiet m m4) as Q by (etrans; [exact Q1|]; etrans; [exact Q2|]; by etrans).
  destruct (decide _); [|by exists m4].
  assert (sched_threads m4 !! cur_thread (m_kernel m4) = Some st3) as Est4 by (by rewrite Et4, (qt_kernel _ _ Q4)).
  rewrite (EnableDispatch_ok m4 st3 Est4 eq_refl). cbn [mbind option_bind]. eexists. split; [done|].
  etrans; [exact Q|]. eapply on_sched_thread_quiet. unfold on_sched_thread. rewrite Est4. done.
Qed.

(** * Yields *)

(** The current thread runs on the core [c], and holds no lock of the scheduler. *)
Record can_yield (c : Z) m : Prop := {
  cy_thread : ∃ t, threads (m_kernel m) !! cur_thread (m_kernel m) = Some t
    ∧ m_thread_state t = ThreadState.Runnable ∧ m_parent t ≠ 0;
  cy_member : ∃ mm, members (queue_of m) !! cur_thread (m_kernel m) = Some mm ∧ IsDummyThread mm = false
    ∧ core_ok (GetActiveCore mm) ∧ prio_ok (PriorityQueue.GetPriority mm);
  cy_dispatch : ∃ st, sched_threads m !! cur_thread (m_kernel m) = Some st
    ∧ disable_count st = 0 ∧ m_current_core_id st = c;
  cy_core : core_ok c;
  cy_runs : needs_scheduling (scheduler c m) = false → chosen c m = cur_thread (m_kernel m);
}.

(** Nothing was scheduled in the process since the thread last yielded in vain. *)
Definition in_vain m : bool :=
  match threads (m_kernel m) !! cur_thread (m_kernel m), sched_threads m !! cur_thread (m_kernel m) with
  | Some t, Some st => bool_decide (Some (m_schedule_count st) = schedule_counts (m_kernel m) !! m_parent t)
  | _, _ => false
  end.

Lemma scheduled_cur_ok m tb M c :
  in_queue (m_kernel m) tb M → can_yield c m →
  ∃ mm, members (queue_of m) !! cur_thread (m_kernel m) = Some mm ∧ scheduled_cur m M (info_of mm).
Proof.
  intros H [(t & Et & Es & Ep) (mm & Em & Ed & Hc & Hp) _ _ _]. exists mm. split; [done|]. split; [|done|done|by exists t].
  apply (iq_queued _ _ _ H). by exists t, mm.
Qed.

Lemma yield_locked_ok kind m tb M i :
  machine_ok m → in_queue (m_kernel m) tb M → scheduled_cur m M i →
  ∃ m' tb' M', yield_locked kind m = Some m' ∧ yielded m m' tb tb' M'
    ∧ (kind = WithoutCoreMigration → tb' = rotated_table (cur_thread (m_kernel m)) i tb).
Proof.
  intros O H Hs. destruct kind; cbn [yield_locked].
  - destruct (WithoutCoreMigration_ok m tb M i O H Hs) as (m' & E & Y). by eexists m', _, M.
  - destruct (WithCoreMigration_ok m tb M i O H Hs) as (m' & tb' & M' & E & Y). by exists m', tb', M'.
  - destruct (ToAnyThread_ok m tb M i O H Hs) as (m' & tb' & M' & E & Y). by exists m', tb', M'.
Qed.

Lemma yielded_in_order m m' tb M tb' M' :
  in_order m → in_queue (m_kernel m) tb M → yielded m m' tb tb' M' → in_order m'.
Proof.
  intros [O U S] H [O' H' Es Et Ec Ep Em Eu]. split; [done|intros p; rewrite Ep; apply U|].
  apply (in_step_fronts m' tb' M' H'). destruct Eu as [?|[Eu Ef]]; [by left|].
  apply (in_step_fronts m tb M H) in S as [S|S]; [left; by rewrite Eu|right]. intros c Hc.
  rewrite Ef by done. unfold running, scheduler. rewrite Es. by apply S.
Qed.

(** What a thread on the core [c] finds when it comes out of a yield that was not in vain. *)
Record yield_done kind (c : Z) m outcome m' tb (i : Info) : Prop := {
  yn_order : in_order m';
  yn_cur : cur_thread (m_kernel m') = cur_thread (m_kernel m);
  yn_outcome : outcome = if decide (chosen c m' = cur_thread (m_kernel m)) then Continue
                         else Switch (cur_thread (m_kernel m)) (chosen c m');
  yn_runs : ∃ tb1 tb', (kind = WithoutCoreMigration → tb1 = rotated_table (cur_thread (m_kernel m)) i tb)
    ∧ runs_on tb1 tb' ∧ ∀ e, core_ok e → running e m' = front e tb';
}.

Lemma yield_ok clock kind c m tb M :
  in_order m → in_queue (m_kernel m) tb M → can_yield c m → in_vain m = false →
  ∃ i outcome m', yield clock kind (OnCore c) m = Some (outcome, m') ∧ scheduled_cur m M i
    ∧ yield_done kind c m outcome m' tb i.
Proof.
  intros I H Y V. destruct (scheduled_cur_ok m tb M c H Y) as (mm & Em & Hs). exists (info_of mm).
  destruct Y as [(t & Et & Est & Ept) _ (st & Es & En & Hcid) Hc Hruns]. unfold yield, CanSchedule, GetDisableDispatchCount.
  rewrite Es. cbn [mbind option_bind]. rewrite En. cbn [Z.eqb check mbind option_bind]. rewrite Et. cbn [mbind option_bind].
  rewrite (proj2 (Z.eqb_neq (m_parent t) 0)) by done. cbn [negb check mbind option_bind].
  destruct (sc_parent _ (machine_sched m (io_ok m I)) _ t Et Ept) as [n Ecount]. rewrite Ecount. cbn [mbind option_bind].
  unfold in_vain in V. rewrite Et, Es, Ecount in V. apply bool_decide_eq_false in V.
  rewrite (proj2 (Z.eqb_neq (m_schedule_count st) n)) by congruence. unfold with_scheduler_lock, DisableScheduling.
  pose proof (DisableDispatch_ok m st Es 0 En) as E1. rewrite E1 by lia. cbn [mbind option_bind].
  set (st1 := set_disable_count (0 + 1) st) in *. set (m1 := with_sched_threads _ m) in *.
  assert (quiet m m1) as Q1.
  { eapply on_sched_thread_quiet. unfold on_sched_thread. rewrite Es. done. }
  pose proof (quiet_in_order _ _ Q1 I) as I1.
  assert (scheduled_cur m1 M (info_of mm)) as Hs1 by (destruct Hs; by split).
  destruct (yield_locked_ok kind m1 tb M _ (io_ok _ I1) H Hs1) as (m2 & tb2 & M2 & E2 & Y2 & Htb). rewrite E2. cbn [mbind option_bind].
  pose proof (yielded_in_order _ _ _ _ _ _ I1 H Y2) as I2.
  destruct (UpdateHighestPriorityThreads_ok clock m2 tb2 M2 I2 (yd_queue _ _ _ _ _ Y2)) as (mask & m3 & tb3 & M3 & E3 & U3).
  rewrite E3. cbn [mbind option_bind]. pose proof U3 as [I3 H3 R3 Ru3 K3 _ Et3 Ec3 _].
  assert (cur_thread (m_kernel m3) = cur_thread (m_kernel m)) as Ecur by by rewrite Ec3, (yd_cur _ _ _ _ _ Y2).
  assert (keeps m1 m3) as Kp by (etrans; [by eapply yield_locked_keeps|by eapply Update_keeps]).
  assert (∃ st3, sched_threads m3 !! cur_thread (m_kernel m3) = Some st3 ∧ dispatching st3 = (1, c)) as (st3 & Es3 & Ed3).
  { rewrite Ecur. specialize (Kp (cur_thread (m_kernel m))). change (sched_threads m1) with (<[cur_thread (m_kernel m) := st1]> (sched_threads m)) in Kp.
    rewrite lookup_insert_eq in Kp. apply fmap_Some in Kp as (st3 & Es3 & Ed3). exists st3. split; [done|]. rewrite <-Ed3.
    unfold dispatching, st1. simpl. by rewrite Hcid. }
  injection Ed3 as Ed3 Ec3'. pose proof (mo_cores _ (io_ok _ I3)) as Hl3.
  destruct (EnableScheduling_ok c mask m3 st3 Hl3 Hc (proj1 (mo_core _ (io_ok _ I3) c Hc)) Es3 Ed3 Ec3') as (m4 & E4 & Q4).
  { intros Hn. rewrite Ecur. specialize (K3 c Hc). destruct (Z.testbit mask c); [congruence|].
    assert (scheduler c m3 = scheduler c m) as Esc by (rewrite K3; unfold scheduler; by rewrite (yd_same _ _ _ _ _ Y2)).
    unfold chosen, running. rewrite Esc in Hn |- *. by apply Hruns. }
  rewrite E4, Ecur. eexists _, m4. split; [done|]. split; [done|]. split.
  - by eapply quiet_in_order.
  - by rewrite (qt_kernel _ _ Q4).
  - by rewrite (quiet_chosen c _ _ Q4 Hl3 Hc).
  - exists tb2, tb3. split; [exact Htb|]. split; [done|]. intros e He.
    destruct (qt_core _ _ Q4 e Hl3 He) as (_ & -> & _). by apply R3.
Qed.

Lemma yield_in_vain clock kind c m : in_order m → can_yield c m → in_vain m = true → yield clock kind (OnCore c) m = Some (Continue, m).
Proof.
  intros I [(t & Et & Est & Ept) _ (st & Es & En & Hcid) Hc Hruns] V. unfold yield, CanSchedule, GetDisableDispatchCount.
  rewrite Es. cbn [mbind option_bind]. rewrite En. cbn [Z.eqb check mbind option_bind]. rewrite Et. cbn [mbind option_bind].
  rewrite (proj2 (Z.eqb_neq (m_parent t) 0)) by done. cbn [negb check mbind option_bind].
  unfold in_vain in V. rewrite Et, Es in V. apply bool_decide_eq_true in V. rewrite <-V. cbn [mbind option_bind].
  by rewrite Z.eqb_refl.
Qed.

(** * The switch to another thread *)
Lemma process_AddCpuTime_quiet p d m m' : process_AddCpuTime p d m = Some m' → quiet m m'.
Proof.
  unfold process_AddCpuTime, on_process. intros (pr & Ep & H)%bind_Some. cbn [mbind option_bind] in H. injection H as <-.
  split; eauto.
  - intros q pq Eq Ha. cbn. rewrite lookup_insert. destruct (decide (p = q)) as [<-|]; [|eauto]. eexists. split; [done|].
    rewrite Ep in Eq. injection Eq as <-. exact Ha.
  - apply map_eq. intros q. cbn. rewrite !lookup_fmap, lookup_insert. destruct (decide (p = q)) as [<-|]; [|done]. by rewrite Ep.
Qed.

Lemma perhaps_quiet (b : bool) o m m' :
  (if b then o else Some m) = Some m' → (o = Some m' → quiet m m') → quiet m m'.
Proof. destruct b; [auto|by intros [= <-] _]. Qed.

(** [cur_thread = x] *)
Definition with_current (x : Z) k : Kernel :=
  MkKernel (priority_queue k) (threads k) (lock_infos k) (lock_slab k) (thread_trees k) x
    (m_scheduler_update_needed k) (m_woken_dummy_threads k) (timer_tasks k) (schedule_counts k).

Lemma current_in_order x m : in_order m → is_Some (threads (m_kernel m) !! x) → in_order (with_kernel (with_current x (m_kernel m)) m).
Proof.
  intros [[Hs Hl Hc Ht Hp Hw Hcur] U S] Hx. split; [split; try done|exact U|exact S].
  by apply sane_ext with (m_kernel m).
Qed.

Section switch.
Context (clock : nat → Z).

(** A switch leaves the schedulers what they are to run. *)
Lemma SwitchThread_in_order c next m m' :
  in_order m → SwitchThread clock c next m = Some m' → is_Some (threads (m_kernel m) !! cur_thread (m_kernel m')) →
  in_order m' ∧ m_kernel m' = with_current (cur_thread (m_kernel m')) (m_kernel m)
  ∧ ∀ e, core_ok e → running e m' = running e m.
Proof using clock.
  intros I E Hx. pose proof (mo_cores m (io_ok m I)) as Hl. unfold SwitchThread in E.
  apply bind_Some in E as (s & Es & E). apply bind_Some in E as (t & Et & E). cbv zeta in E.
  set (x := if next =? 0 then m_idle_thread s else next) in E.
  apply bind_Some in E as (n & En & E). apply bind_Some in E as (m1 & E1 & E).
  assert (quiet m m1) as Q1.
  { apply (perhaps_quiet _ _ _ _ E1), on_sched_thread_quiet. }
  destruct (x =? _).
  { injection E as <-. split; [by eapply quiet_in_order|]. split; [rewrite (qt_kernel _ _ Q1); clear; unfold with_current; generalize (m_kernel m); by intros []|].
    intros e He. by destruct (qt_core _ _ Q1 e Hl He) as (_ & ? & _). }
  apply bind_Some in E as (mm & Emm & E). apply check_bind_inv in E as [_ E]. apply check_bind_inv in E as [_ E].
  unfold GetClockTicks in E. apply bind_Some in E as (m3 & E3 & E). apply bind_Some in E as (m4 & E4 & E).
  apply bind_Some in E as (m5 & E5 & E). apply bind_Some in E as (ct & Ect & E). apply bind_Some in E as (m6 & E6 & E).
  assert (quiet m m4) as Q4.
  { etrans; [exact Q1|]. etrans; [by apply (quiet_schedulers m1 (with_readings (S (readings m1)) m1))|].
    etrans; [by eapply on_sched_thread_quiet|]. apply (perhaps_quiet _ _ _ _ E4), process_AddCpuTime_quiet. }
  assert (quiet m m6) as Q6.
  { pose proof (qt_cores _ _ Q4 Hl) as Hl4. apply on_scheduler_quiet in E5 as (Q5 & _ & _); [|done..].
    etrans; [exact Q4|]. etrans; [exact Q5|]. pose proof (qt_cores _ _ Q5 Hl4) as Hl5.
    apply (perhaps_quiet _ _ _ _ E6). by intros (Q6 & _ & _)%on_scheduler_quiet. }
  pose proof (quiet_in_order _ _ Q6 I) as I6. set (m7 := with_kernel _ m6) in E.
  assert (quiet m7 m') as Q7.
  { apply on_scheduler_quiet in E as (Q & _ & _); [done|done|]. apply (qt_cores _ _ Q6 Hl). }
  assert (cur_thread (m_kernel m') = x) as Ecur by by rewrite (qt_kernel _ _ Q7).
  assert (m_kernel m7 = with_current x (m_kernel m)) as Ek by (cbn; by rewrite (qt_kernel _ _ Q6)).
  split; [|split].
  - apply (quiet_in_order _ _ Q7). apply (current_in_order x m6 I6). by rewrite (qt_kernel _ _ Q6), <-Ecur.
  - by rewrite (qt_kernel _ _ Q7), Ek.
  - intros e He. destruct (qt_core _ _ Q7 e) as (_ & -> & _); [apply (qt_cores _ _ Q6 Hl)|done|].
    by destruct (qt_core _ _ Q6 e Hl He) as (_ & ? & _).
Qed.
Lemma charge_ok m m3 x t passed :
  machine_ok m → threads (m_kernel m) !! x = Some t → processes m3 = processes m →
  ∃ m4, (if negb (m_parent t =? 0) then process_AddCpuTime (m_parent t) passed m3 else Some m3) = Some m4
    ∧ schedulers m4 = schedulers m3 ∧ m_kernel m4 = m_kernel m3 ∧ sched_threads m4 = sched_threads m3
    ∧ (m_parent t ≠ 0 → process_cpu_time <$> processes m4 !! m_parent t
         = (λ pr, s64 (process_cpu_time pr + passed)) <$> processes m !! m_parent t).
Proof using clock.
  intros O Et Ep. destruct (Z.eqb_spec (m_parent t) 0) as [|Hp]; cbn [negb]; [by exists m3|].
  destruct (mo_process m O x t Et Hp) as (pr & Epr & _). unfold process_AddCpuTime, on_process. rewrite Ep, Epr.
  cbn [mbind option_bind]. eexists. split; [done|]. split_and!; try done. intros _. cbn. by rewrite lookup_insert_eq.
Qed.

Lemma remember_ok m c (b : bool) x :
  length (schedulers m) = 4%nat → core_ok c →
  ∃ ss, (if b then on_scheduler c (set_prev_thread x) m else Some m) = Some (with_schedulers ss m) ∧ length ss = 4%nat
    ∧ m_last_context_switch_time (scheduler c (with_schedulers ss m)) = m_last_context_switch_time (scheduler c m)
    ∧ (b = true → prev_thread (scheduler c (with_schedulers ss m)) = x).
Proof using clock.
  intros Hl Hc. destruct b; [|exists (schedulers m); by destruct m].
  destruct (on_scheduler_ok m c (set_prev_thread x) Hl Hc) as (ss & -> & Hl' & Hs). exists ss.
  specialize (Hs c Hc). rewrite decide_True in Hs by done. by rewrite Hs.
Qed.

Lemma SwitchThread_runs m c x t mc told n mx :
  in_order m → core_ok c → x ≠ 0 → x ≠ cur_thread (m_kernel m) →
  threads (m_kernel m) !! cur_thread (m_kernel m) = Some t →
  members (queue_of m) !! cur_thread (m_kernel m) = Some mc →
  sched_threads m !! cur_thread (m_kernel m) = Some told →
  is_Some (threads (m_kernel m) !! x) → sched_threads m !! x = Some n → disable_count n = 1 →
  members (queue_of m) !! x = Some mx → IsDummyThread mx = false →
  let now := clock (readings m) in
  let passed := s64 (now - m_last_context_switch_time (scheduler c m)) in
  ∃ m', SwitchThread clock c x m = Some m' ∧ cur_thread (m_kernel m') = x
    ∧ m_current_thread (scheduler c m') = x ∧ m_last_context_switch_time (scheduler c m') = now
    ∧ m_current_core_id <$> sched_threads m' !! x = Some c
    ∧ m_cpu_time <$> sched_threads m' !! cur_thread (m_kernel m) = Some (s64 (m_cpu_time told + passed))
    ∧ (m_parent t ≠ 0 →
         process_cpu_time <$> processes m' !! m_parent t
           = (λ pr, s64 (process_cpu_time pr + passed)) <$> processes m !! m_parent t
         ∧ prev_thread (scheduler c m')
           = if IsTerminationRequested t || negb (GetActiveCore mc =? c) then 0 else cur_thread (m_kernel m)).
Proof using clock.
  intros I Hc Hx0 Hx Et Emc Eold Hex En Hn Emx Hd now passed. set (cur := cur_thread (m_kernel m)) in *.
  pose proof (mo_cores m (io_ok m I)) as Hl. pose proof (proj1 (mo_core m (io_ok m I) c Hc)) as Hid.
  unfold SwitchThread. rewrite (scheduler_at m c Hl Hc). cbn [mbind option_bind]. fold cur. rewrite Et. cbn [mbind option_bind].
  rewrite (proj2 (Z.eqb_neq x 0) Hx0), En. cbn [mbind option_bind]. rewrite Hid.
  set (ts := <[x := SetCurrentCore c n]> (sched_threads m)).
  rewrite (bind_eq _ _ (with_sched_threads ts m)).
  2: { destruct (Z.eqb_spec (m_current_core_id n) c) as [Ec|]; cbn [negb]; [|unfold on_sched_thread; by rewrite En].
       unfold ts. rewrite insert_id; [by destruct m|]. rewrite En. destruct n. simpl in Ec. by subst. }
  cbv beta iota. rewrite (proj2 (Z.eqb_neq x cur) Hx). unfold queue_of. cbn [m_kernel with_sched_threads]. fold (queue_of m).
  rewrite Emx. cbn [mbind option_bind]. rewrite Hn, Hd. cbn [Z.eqb Pos.eqb negb check mbind option_bind].
  cbn [GetClockTicks readings with_sched_threads].
  set (m2 := with_readings _ _). fold now. fold passed.
  set (ts3 := <[cur := AddCpuTime passed told]> ts). set (m3 := with_sched_threads ts3 m2).
  rewrite (bind_eq _ _ m3).
  2: { unfold on_sched_thread, m2, ts. cbn [sched_threads with_sched_threads with_readings]. rewrite lookup_insert_ne by done. by rewrite Eold. }
  cbv beta iota.
  destruct (charge_ok m m3 cur t passed (io_ok m I) Et eq_refl) as (m4 & -> & Es4 & Ek4 & Et4 & Ep4).
  change (m_kernel m3) with (m_kernel m) in Ek4. change (sched_threads m3) with ts3 in Et4.
  change (schedulers m3) with (schedulers m) in Es4.
  cbn [mbind option_bind].
  assert (length (schedulers m4) = 4%nat) as Hl4 by by rewrite Es4.
  destruct (on_scheduler_ok m4 c (set_switch_time now) Hl4 Hc) as (ss5 & -> & Hl5 & Hs5). cbn [mbind option_bind].
  specialize (Hs5 c Hc). rewrite decide_True in Hs5 by done. set (m5 := with_schedulers ss5 m4) in *.
  change (m_kernel m5) with (m_kernel m4). rewrite Ek4. unfold queue_of in Emc. unfold queue_of. rewrite Emc. cbn [mbind option_bind].
  set (prev := if _ && _ then cur else 0).
  destruct (remember_ok m5 c (negb (m_parent t =? 0)) prev Hl5 Hc) as (ss6 & -> & Hl6 & Hs6 & Hp6). rewrite Hs5 in Hs6.
  cbn [mbind option_bind]. set (m6 := with_schedulers ss6 m5) in *. set (m7 := with_kernel _ m6).
  destruct (on_scheduler_ok m7 c (set_current x) Hl6 Hc) as (ss7 & -> & Hl7 & Hs7).
  specialize (Hs7 c Hc). rewrite decide_True in Hs7 by done. change (scheduler c m7) with (scheduler c m6) in Hs7.
  exists (with_schedulers ss7 m7). split; [done|]. split; [done|]. rewrite !Hs7. split; [done|]. split; [exact Hs6|].
  cbn [sched_threads processes with_schedulers with_kernel m7 m6 m5]. rewrite Et4. unfold ts3.
  split; [rewrite lookup_insert_ne by done; unfold ts; by rewrite lookup_insert_eq|].
  split; [by rewrite lookup_insert_eq|]. intros Hp. split; [by apply Ep4|].
  change (prev_thread (set_current x (scheduler c m6))) with (prev_thread (scheduler c m6)). rewrite Hp6 by by rewrite (proj2 (Z.eqb_neq _ _) Hp). unfold prev.
  by destruct (IsTerminationRequested t), (GetActiveCore mc =? c).
Qed.

(** A switch to the thread that runs already only corrects its core. *)
Lemma SwitchThread_same m c :
  in_order m → core_ok c → ∃ m', SwitchThread clock c (cur_thread (m_kernel m)) m = Some m' ∧ cur_thread (m_kernel m') = cur_thread (m_kernel m).
Proof using clock.
  intros I Hc. pose proof (io_ok m I) as O. destruct (mo_cur m O) as [t Et].
  assert (cur_thread (m_kernel m) ≠ 0) as Hx by (by destruct (sc_member _ (machine_sched m O) _ t Et) as (? & _ & ? & _)).
  assert (is_Some (sched_threads m !! cur_thread (m_kernel m))) as [n En] by (apply elem_of_dom, (mo_threads m O), elem_of_dom; by exists t).
  unfold SwitchThread. rewrite (scheduler_at m c (mo_cores m O) Hc). cbn [mbind option_bind]. rewrite Et. cbn [mbind option_bind].
  rewrite (proj2 (Z.eqb_neq _ 0) Hx), En, Z.eqb_refl. cbn [mbind option_bind].
  destruct (negb _); [|by exists m]. unfold on_sched_thread. rewrite En. by eexists.
Qed.

(** The idle thread of the core stands for no thread. *)
Definition switch_target (c next : Z) m : Z := if next =? 0 then m_idle_thread (scheduler c m) else next.

Lemma SwitchThread_target c next m :
  length (schedulers m) = 4%nat → core_ok c → switch_target c next m ≠ 0 →
  SwitchThread clock c next m = SwitchThread clock c (switch_target c next m) m.
Proof using clock.
  intros Hl Hc. unfold switch_target, SwitchThread. rewrite (scheduler_at m c Hl Hc). cbn [mbind option_bind].
  destruct (Z.eqb_spec next 0) as [->|Hn]; intros H.
  - by rewrite (proj2 (Z.eqb_neq (m_idle_thread _) 0) H).
  - by rewrite (proj2 (Z.eqb_neq next 0) Hn).
Qed.

(** The core's current thread may give way to a thread that has disabled the dispatch once and is
    no dummy thread, or to itself. *)
Definition can_switch (c next : Z) m : Prop :=
  let x := switch_target c next m in
  core_ok c ∧ is_Some (threads (m_kernel m) !! x)
  ∧ (x = cur_thread (m_kernel m)
     ∨ ∃ n mx, sched_threads m !! x = Some n ∧ disable_count n = 1
         ∧ members (queue_of m) !! x = Some mx ∧ IsDummyThread mx = false).

Lemma SwitchThread_ok c next m :
  in_order m → can_switch c next m →
  ∃ m', SwitchThread clock c next m = Some m' ∧ cur_thread (m_kernel m') = switch_target c next m ∧ in_order m'.
Proof using clock.
  intros I (Hc & [tx Ex] & H). pose proof (io_ok m I) as O. set (x := switch_target c next m) in *.
  assert (x ≠ 0) as Hx by (by destruct (sc_member _ (machine_sched m O) _ tx Ex) as (? & _ & ? & _)).
  rewrite SwitchThread_target by (done || apply O). fold x.
  assert (∃ m', SwitchThread clock c x m = Some m' ∧ cur_thread (m_kernel m') = x) as (m' & E & Ecur).
  { destruct (decide (x = cur_thread (m_kernel m))) as [->|Hne]; [by apply SwitchThread_same|].
    destruct H as [|(n & mx & En & Hn & Emx & Hd)]; [done|]. destruct (mo_cur m O) as [t Et].
    destruct (sc_member _ (machine_sched m O) _ t Et) as (mc & Emc & _).
    assert (is_Some (sched_threads m !! cur_thread (m_kernel m))) as [told Eold] by (apply elem_of_dom, (mo_threads m O), elem_of_dom; by exists t).
    destruct (SwitchThread_runs m c x t mc told n mx) as (m' & E & Ecur & _); try done. by exists m'. }
  exists m'. split; [done|]. split; [done|]. destruct (SwitchThread_in_order c x m m' I E) as (? & _); [by rewrite Ecur|done].
Qed.
End switch.
