(* ===== verification/SchedulerSpec.v ===== *)
(** What the schedulers promise: the invariant over every sequence of operations, the threads
    that the cores are to run after an update, the use of the idle cores, the rotation of a
    queue, what becomes of a thread that yields and the accounts of a switch. *)
From stdpp Require Import relations.
From S2P Require Import Prelude Common Results PriorityQueue PriorityQueueLinks PriorityQueueSpec Thread ThreadLocks ThreadWaiters ThreadInherit ThreadHandover ThreadState ThreadOps ThreadSpec Scheduler SchedulerState SchedulerUpdate SchedulerMigrate SchedulerYield SchedulerSteps SchedulerDispatch.

Implicit Types (k : Kernel) (m : Machine).


Section spec.
Context (clock : nat → Z).

(** * Sequences of operations *)
Inductive MachineOp :=
  | OpThread (op : ThreadOp)
  | OpDisableDispatch
  | OpEnableDispatch
  | OpRotate (core priority : Z)
  | OpPreempt
  | OpUpdate
  | OpYield (kind : Yield) (core : Z)
  | OpSwitch (core next : Z).

Definition run_op (op : MachineOp) m : option Machine :=
  match op with
  | OpThread op => on_kernel (ThreadSpec.perform op) m
  | OpDisableDispatch => DisableDispatch m
  | OpEnableDispatch => EnableDispatch m
  | OpRotate c p => RotateScheduledQueue c p m
  | OpPreempt => PreemptThreads m
  | OpUpdate => snd <$> UpdateHighestPriorityThreads clock m
  | OpYield kind c => snd <$> yield clock kind (OnCore c) m
  | OpSwitch c next => SwitchThread clock c next m
  end.

(** What the callers see to: an operation on the threads has its own conditions; the current thread
    counts the regions in which its dispatch is disabled, and is in one when it leaves one; it
    yields on the core it runs on; and a switch leads to a thread that has left its fiber, with
    the dispatch disabled once, or back to the current thread. *)
Definition may_run (op : MachineOp) m : Prop :=
  match op with
  | OpThread op => allowed op (m_kernel m)
  | OpRotate c p => core_ok c ∧ prio_ok p
  | OpPreempt | OpUpdate => True
  | OpYield kind c => can_yield c m
  | OpDisableDispatch => ∃ st, sched_threads m !! cur_thread (m_kernel m) = Some st ∧ 0 ≤ disable_count st
  | OpEnableDispatch => ∃ st, sched_threads m !! cur_thread (m_kernel m) = Some st ∧ 0 < disable_count st
  | OpSwitch c next => can_switch c next m
  end.

Definition machine_step m m' : Prop := ∃ op, may_run op m ∧ run_op op m = Some m'.

Lemma count_ok n m st :
  in_order m → sched_threads m !! cur_thread (m_kernel m) = Some st →
  ∃ m', on_sched_thread (cur_thread (m_kernel m)) (set_disable_count n) m = Some m' ∧ in_order m'.
Proof using clock.
  intros I Est. destruct (on_sched_thread (cur_thread (m_kernel m)) (set_disable_count n) m) as [m'|] eqn:E.
  - exists m'. split; [done|]. by eapply quiet_in_order; [eapply on_sched_thread_quiet|].
  - unfold on_sched_thread in E. by rewrite Est in E.
Qed.

Lemma run_op_ok op m : in_order m → may_run op m → ∃ m', run_op op m = Some m' ∧ in_order m'.
Proof using clock.
  intros I. destruct op; cbn [may_run run_op]; intros A.
  - destruct (by_thread_ok m op I A) as (k' & E & I'). exists (with_kernel k' m).
    unfold on_kernel. by rewrite E.
  - destruct A as (st & Est & Hn). unfold DisableDispatch, GetDisableDispatchCount. rewrite Est. cbn [mbind option_bind].
    rewrite check_bind_Some by lia. destruct (count_ok (s32 (disable_count st + 1)) m st I Est) as (m' & -> & ?). by exists m'.
  - destruct A as (st & Est & Hn). unfold EnableDispatch, GetDisableDispatchCount. rewrite Est. cbn [mbind option_bind].
    rewrite check_bind_Some by lia. destruct (count_ok (s32 (disable_count st - 1)) m st I Est) as (m' & -> & ?). by exists m'.
  - destruct A. by apply rotate_in_order.
  - by apply PreemptThreads_in_order.
  - destruct (in_order_queue m I) as (tb & M & H).
    destruct (UpdateHighestPriorityThreads_ok clock m tb M I H) as (mask & m' & tb' & M' & E & U). rewrite E.
    exists m'. split; [done|apply U].
  - destruct (in_order_queue m I) as (tb & M & H). destruct (in_vain m) eqn:V.
    + rewrite (yield_in_vain clock kind core m I A V). by exists m.
    + destruct (yield_ok clock kind core m tb M I H A V) as (i & outcome & m' & E & _ & Y). rewrite E.
      exists m'. split; [done|apply Y].
  - destruct (SwitchThread_ok clock core next m I A) as (m' & E & _ & I'). by exists m'.
Qed.

(** C11: Every sequence of operations on the threads, changes of the dispatch count, rotations,
    preemptions, updates, yields and switches, each called as its callers may (the dispatch
    count is not negative, positive to leave a region; a switch leads back to the current
    thread or to another one that is no dummy and has the dispatch disabled once), leaves the machine in order: the
    kernel well formed and, unless an update is due, every core told to run the front of its
    queue; and each of the operations returns then: no assertion in it is false. *)
Theorem schedulers_stay_in_order m0 m :
  in_order m0 → rtc machine_step m0 m → in_order m ∧ ∀ op, may_run op m → is_Some (run_op op m).
Proof using clock.
  intros I S. assert (in_order m) as I'.
  { induction S as [|m1 m2 m3 (op & A & E) _ IH]; [done|]. apply IH. destruct (run_op_ok op m1 I A) as (m' & E' & I').
    rewrite E in E'. by injection E' as ->. }
  split; [done|]. intros op A. destruct (run_op_ok op m I' A) as (m' & E & _). by exists m'.
Qed.

(** * The update *)

(** C12: After an update each core is to run the first thread of its queue, none when it is empty; the
    cores in the result have been marked, the schedulers of the others are untouched; no thread
    has changed its state, its priority or the cores it may run on. *)
Theorem UpdateHighestPriorityThreads_settles m :
  in_order m →
  ∃ mask m', UpdateHighestPriorityThreads clock m = Some (mask, m') ∧ in_order m'
    ∧ m_scheduler_update_needed (m_kernel m') = false
    ∧ (∀ c, core_ok c → GetScheduledFront c (queue_of m') = Some (running c m'))
    ∧ (∀ c, core_ok c → if Z.testbit mask c then needs_scheduling (scheduler c m') = true
                        else scheduler c m' = scheduler c m)
    ∧ threads (m_kernel m') = threads (m_kernel m) ∧ cur_thread (m_kernel m') = cur_thread (m_kernel m)
    ∧ ∀ x, unplaced <$> members (queue_of m') !! x = unplaced <$> members (queue_of m) !! x.
Proof using clock.
  intros I. destruct (in_order_queue m I) as (tb & M & H).
  destruct (UpdateHighestPriorityThreads_ok clock m tb M I H) as (mask & m' & tb' & M' & E & [I' H' R' _ K' Eu' Et' Ec' Em']).
  exists mask, m'. split_and!; try done. intros c Hc. rewrite R' by done. by apply (GetScheduledFront_front _ tb' M').
Qed.

(** C13: No core idles needlessly: when a core stays idle after an update, each runnable thread that
    may run there is alone on the core that runs it, or some core runs a thread of a priority that
    forbids migrations. *)
Theorem no_core_idles_needlessly m :
  in_order m → m_scheduler_update_needed (m_kernel m) = true →
  ∃ mask m', UpdateHighestPriorityThreads clock m = Some (mask, m')
    ∧ ∀ c x t mm, core_ok c → running c m' = 0 →
        threads (m_kernel m') !! x = Some t → m_thread_state t = ThreadState.Runnable →
        members (queue_of m') !! x = Some mm → IsDummyThread mm = false → prio_ok (PriorityQueue.GetPriority mm) →
        Z.testbit (GetAffinityMask mm) c = true →
        (∃ e, core_ok e ∧ running e m' = x ∧ GetScheduledNext e x (queue_of m') = Some 0)
        ∨ ∃ e p, core_ok e ∧ running e m' ≠ 0 ∧ Thread.GetPriority (running e m') (m_kernel m') = Some p
            ∧ p < HighestCoreMigrationAllowedPriority.
Proof using clock.
  intros I Eu. destruct (in_order_queue m I) as (tb & M & H). destruct I as [O U _].
  destruct (UpdateHighestPriorityThreadsImpl_ok clock m tb M O U H) as (mask & m' & tb' & M' & E & [O' H' R' Sv _ _ _ _ _ _ _]).
  exists mask, m'. unfold UpdateHighestPriorityThreads. rewrite Eu. split; [done|].
  intros c x t mm Hc Hr Et Es Em Hd Hp Hb. pose proof (machine_sched m' O') as S'. rewrite R' in Hr by done.
  apply (front_zero _ tb' M' _ S' H' Hc) in Hr as Hempty. destruct (Sv c Hc) as [?|[Ha|Hh]]; [done|left|right].
  - assert (M' !! x = Some (info_of mm)) as Ei by (apply (iq_queued _ _ _ H'); by exists t, mm).
    destruct (Ha x) as (e & He & Eo).
    { apply (elem_suggested _ _ _ _ (iq_placed _ _ _ H')); [done|]. exists (info_of mm). split_and!; try done. intros Hcore.
      assert (x ∈ order Scheduled c tb') as Hx by (apply (elem_scheduled _ _ _ _ (iq_placed _ _ _ H')); [done|]; by exists (info_of mm)).
      rewrite Hempty in Hx. by apply not_elem_of_nil in Hx. }
    exists e. split; [done|]. split; [rewrite R' by done; unfold front; by rewrite Eo|].
    by apply (GetNext_order _ tb' M' Scheduled e [] x [] H' He).
  - destruct Hh as (e & y & He & Hy & Hlt). exists e, (prio (m_kernel m') y). split; [done|].
    assert (running e m' = y) as -> by (rewrite R' by done; unfold front; by rewrite Hy).
    assert (y ∈ order Scheduled e tb') as Hin by (destruct (order Scheduled e tb'); [done|]; injection Hy as ->; set_solver).
    pose proof (order_nonzero _ _ _ _ _ _ S' H' He Hin) as Hn. split; [done|]. split; [|done].
    pose proof (front_thread _ _ _ _ S' H' He) as Hft. unfold front in Hft. rewrite Hy in Hft.
    destruct Hft as [|[ty Ety]]; [done|]. by apply (GetPriority_ok _ _ ty).
Qed.

(** * Rotation *)

(** C15: The first of the threads of a priority of a core goes behind the others, which keep their
    order among themselves; a thread may come from another core, but the first thread of every
    other core stays; and an update is due. *)
Theorem RotateScheduledQueue_rotates m tb M c p :
  in_order m → in_queue (m_kernel m) tb M → core_ok c → prio_ok p →
  ∃ m' tb' M', RotateScheduledQueue c p m = Some m' ∧ in_order m' ∧ in_queue (m_kernel m') tb' M'
    ∧ filter (λ x, x ∈ tb Scheduled p c) (tb' Scheduled p c) = rotated (tb Scheduled p c)
    ∧ (∀ e, core_ok e → e ≠ c → front e tb' = front e tb)
    ∧ m_scheduler_update_needed (m_kernel m') = true.
Proof using clock.
  intros I H Hc Hp. destruct (RotateScheduledQueue_ok m tb M c p (io_ok m I) H Hc Hp) as (m0 & tb' & M' & E & K & F & R).
  exists (set_update_needed m0), tb', M'. split_and!; try done; [by eapply update_due|].
  destruct K as [O0 H0 _ _]. by apply (set_update_ok m0 tb' M').
Qed.

(** * Yields *)


(** * Switches *)

(** A switch to another thread makes it the current thread of its core, charges the time since
    the last switch to the thread that leaves and to its process, remembers a thread that leaves
    unless it terminates or has been moved to another core, and leaves what the cores are to run. *)
Theorem SwitchThread_accounts m c x t mc told n mx :
  in_order m → core_ok c → x ≠ 0 → x ≠ cur_thread (m_kernel m) →
  threads (m_kernel m) !! cur_thread (m_kernel m) = Some t →
  members (queue_of m) !! cur_thread (m_kernel m) = Some mc →
  sched_threads m !! cur_thread (m_kernel m) = Some told →
  is_Some (threads (m_kernel m) !! x) → sched_threads m !! x = Some n → disable_count n = 1 →
  members (queue_of m) !! x = Some mx → IsDummyThread mx = false →
  let now := clock (readings m) in
  let passed := s64 (now - m_last_context_switch_time (scheduler c m)) in
  ∃ m', SwitchThread clock c x m = Some m' ∧ in_order m'
    ∧ m_kernel m' = with_current x (m_kernel m)
    ∧ m_current_thread (scheduler c m') = x ∧ m_last_context_switch_time (scheduler c m') = now
    ∧ m_current_core_id <$> sched_threads m' !! x = Some c
    ∧ m_cpu_time <$> sched_threads m' !! cur_thread (m_kernel m) = Some (s64 (m_cpu_time told + passed))
    ∧ (m_parent t ≠ 0 →
         process_cpu_time <$> processes m' !! m_parent t
           = (λ pr, s64 (process_cpu_time pr + passed)) <$> processes m !! m_parent t
         ∧ prev_thread (scheduler c m')
           = if IsTerminationRequested t || negb (GetActiveCore mc =? c) then 0 else cur_thread (m_kernel m))
    ∧ ∀ e, core_ok e → running e m' = running e m.
Proof using clock.
  intros I Hc Hx0 Hx Et Emc Eold Hex En Hn Emx Hd now passed.
  destruct (SwitchThread_runs clock m c x t mc told n mx I Hc Hx0 Hx Et Emc Eold Hex En Hn Emx Hd) as (m' & E & E1 & E2 & E3 & E4 & E5 & E6).
  exists m'. destruct (SwitchThread_in_order clock c x m m' I E) as (I' & Ek & Hr); [by rewrite E1|]. rewrite E1 in Ek. by split_and!.
Qed.
End spec.

(** * Four cores and four threads of a process *)
Definition child (base : Z) : KThread :=
  MkThread base ThreadState.Initialized 0 1008 false false true 0 None 0 0 false None 0 [] None 0 1000.
Definition children : gmap Z KThread := {[1 := child 44; 2 := child 44; 3 := child 44; 4 := child 20]}.
(** Thread 1 may run on the core 0, 2 on the cores 0 and 1, 3 on all, 4 on the core 1. *)
Definition child_members : gmap Z Member :=
  {[1 := thread 44 0 1; 2 := thread 44 0 3; 3 := thread 44 0 15; 4 := thread 20 1 2]}.
Definition sleeping : Kernel := boot children child_members [101; 102; 103; 104] 1 {[1000 := 7]}.
Definition kernel_ready : Kernel := foldl (λ k x, after (OpSetState x ThreadState.Runnable) k) sleeping [1; 2; 3; 4].

Ltac each_child H :=
  unfold children, child_members in H; each_entry H.

Lemma sleeping_sane : sane sleeping.
Proof.
  apply boot_sane; try done.
  - intros x t H. each_child H; split_and!; (done || lia || (simpl; lia)).
  - intros x m H. by each_child H.
  - intros x t H. each_child H; split; try done; eexists; (split; [reflexivity|]); split; try done; by apply thread_info_ok.
  - intros x t H. right. by each_child H.
  - apply (bool_decide_unpack _). reflexivity.
Qed.

Lemma ready_sane : sane kernel_ready.
Proof.
  unfold kernel_ready. cbn [foldl]. repeat (apply runnable_sane; [|by_eval]). apply sleeping_sane.
Qed.

Definition machine0 : Machine :=
  MkMachine kernel_ready (map (λ c, KScheduler_Initialize 0 (1001 + c) c KScheduler_new) [0; 1; 2; 3])
    {[1 := MkSchedThread (-1) 0 0 0 0 false; 2 := MkSchedThread (-1) 0 0 0 1 false;
      3 := MkSchedThread (-1) 0 0 0 1 false; 4 := MkSchedThread (-1) 0 1 0 1 false]}
    {[1000 := MkProcess [0; 0; 0; 0] [0; 0; 0; 0] [0; 0; 0; 0] [0; 0; 0; 0] 0]} 0 ∅.

Lemma machine0_ok : machine_ok machine0.
Proof.
  split; [exact ready_sane|done|..|by_eval].
  - intros c Hc. unfold core_ok in Hc. assert (c = 0 ∨ c = 1 ∨ c = 2 ∨ c = 3) as [->|[->|[->| ->]]] by lia; by split; [|left].
  - by_eval.
  - assert (map_Forall (λ _ t, m_parent t = 1000) (threads (m_kernel machine0))) as Hp by by_eval.
    intros x t Et _. rewrite (Hp x t Et). eexists. split; [vm_compute; reflexivity|]. by split_and!.
  - assert (m_woken_dummy_threads (m_kernel machine0) = ∅) as E by by_eval.
    intros x Hx. exfalso. rewrite E in Hx. by apply not_elem_of_empty in Hx.
Qed.

Lemma machine0_in_order : in_order machine0.
Proof.
  split; [exact machine0_ok| |left; by vm_compute].
  intros p pinned c y Ep Ey. rewrite lookup_fmap in Ep. apply fmap_Some in Ep as (pr & Epr & ->).
  cbn [processes machine0] in Epr. each_entry Epr. unfold at_ in Ey. apply check_bind_inv in Ey as [_ Ey].
  apply list_elem_of_lookup_2 in Ey. cbn in Ey. set_solver.
Qed.

Definition ticks (n : nat) : Z := 100 * Z.of_nat n.
Definition after_op (op : MachineOp) m : Machine := default m (run_op ticks op m).
Definition machine1 : Machine := after_op OpUpdate machine0.
Definition machine2 : Machine := after_op (OpYield WithoutCoreMigration 0) machine1.
Definition machine3 : Machine := after_op OpPreempt machine2.
Definition machine4 : Machine := after_op (OpSwitch 0 2) machine3.

Lemma after_op_ok op m : in_order m → may_run op m → machine_step ticks m (after_op op m) ∧ in_order (after_op op m).
Proof.
  intros I A. destruct (run_op_ok ticks op m I A) as (m' & E & I'). unfold after_op. rewrite E.
  split; [|done]. by exists op.
Qed.

(** Thread 3 has moved to the core 2; the core 3 is idle, for nothing else may run there. *)
Example machine1_runs :
  map (λ c, running c machine1) [0; 1; 2; 3] = [1; 4; 3; 0] ∧ map (λ c, running c machine2) [0; 1; 2; 3] = [2; 4; 3; 0].
Proof. split; vm_compute; reflexivity. Qed.

Lemma machine1_step : machine_step ticks machine0 machine1 ∧ in_order machine1.
Proof. by apply after_op_ok; [exact machine0_in_order|]. Qed.

Lemma machine1_can_yield : can_yield 0 machine1.
Proof.
  split; [| | |by_eval|].
  - eexists. split; [vm_compute; reflexivity|]. by split.
  - eexists. split; [vm_compute; reflexivity|]. split; [done|]. by split.
  - eexists. split; [vm_compute; reflexivity|]. by split.
  - assert (needs_scheduling (scheduler 0 machine1) = true) as -> by (vm_compute; reflexivity). done.
Qed.

Lemma machine2_step : machine_step ticks machine1 machine2 ∧ in_order machine2.
Proof. apply after_op_ok; [apply machine1_step|exact machine1_can_yield]. Qed.
Lemma machine3_step : machine_step ticks machine2 machine3 ∧ in_order machine3.
Proof. by apply after_op_ok; [apply machine2_step|]. Qed.

Lemma machine4_step : machine_step ticks machine3 machine4 ∧ in_order machine4.
Proof.
  apply after_op_ok; [apply machine3_step|]. split; [by_eval|]. split; [by_eval|]. right.
  eexists _, _. split; [vm_compute; reflexivity|]. split; [reflexivity|]. split; [vm_compute; reflexivity|reflexivity].
Qed.
Example machine4_runs : cur_thread (m_kernel machine4) = 2 ∧ m_current_thread (scheduler 0 machine4) = 2.
Proof. split; vm_compute; reflexivity. Qed.

Lemma schedulers_stay_in_order_witness :
  in_order machine4 ∧ ∀ op, may_run op machine4 → is_Some (run_op ticks op machine4).
Proof.
  apply (schedulers_stay_in_order ticks machine0 machine4); [exact machine0_in_order|].
  exact (rtc_l _ _ _ _ (proj1 machine1_step) (rtc_l _ _ _ _ (proj1 machine2_step)
    (rtc_l _ _ _ _ (proj1 machine3_step) (rtc_once _ _ (proj1 machine4_step))))).
Defined.

Lemma UpdateHighestPriorityThreads_settles_witness :
  ∃ mask m', UpdateHighestPriorityThreads ticks machine0 = Some (mask, m') ∧ in_order m'
    ∧ m_scheduler_update_needed (m_kernel m') = false
    ∧ (∀ c, core_ok c → GetScheduledFront c (queue_of m') = Some (running c m'))
    ∧ (∀ c, core_ok c → if Z.testbit mask c then needs_scheduling (scheduler c m') = true
                        else scheduler c m' = scheduler c machine0)
    ∧ threads (m_kernel m') = threads (m_kernel machine0) ∧ cur_thread (m_kernel m') = cur_thread (m_kernel machine0)
    ∧ ∀ x, unplaced <$> members (queue_of m') !! x = unplaced <$> members (queue_of machine0) !! x.
Proof. apply (UpdateHighestPriorityThreads_settles ticks machine0). exact machine0_in_order. Defined.

Lemma no_core_idles_needlessly_witness :
  in_order machine0 ∧ ∃ mask m', UpdateHighestPriorityThreads ticks machine0 = Some (mask, m')
    ∧ ∀ c x t mm, core_ok c → running c m' = 0 →
        threads (m_kernel m') !! x = Some t → m_thread_state t = ThreadState.Runnable →
        members (queue_of m') !! x = Some mm → IsDummyThread mm = false → prio_ok (PriorityQueue.GetPriority mm) →
        Z.testbit (GetAffinityMask mm) c = true →
        (∃ e, core_ok e ∧ running e m' = x ∧ GetScheduledNext e x (queue_of m') = Some 0)
        ∨ ∃ e p, core_ok e ∧ running e m' ≠ 0 ∧ Thread.GetPriority (running e m') (m_kernel m') = Some p
            ∧ p < HighestCoreMigrationAllowedPriority.
Proof.
  split; [exact machine0_in_order|].
  apply (no_core_idles_needlessly ticks machine0); [exact machine0_in_order|vm_compute; reflexivity].
Defined.

Lemma RotateScheduledQueue_rotates_witness :
  ∃ tb M, in_queue (m_kernel machine1) tb M
    ∧ ∃ m' tb' M', RotateScheduledQueue 0 44 machine1 = Some m' ∧ in_order m' ∧ in_queue (m_kernel m') tb' M'
        ∧ filter (λ x, x ∈ tb Scheduled 44 0) (tb' Scheduled 44 0) = rotated (tb Scheduled 44 0)
        ∧ (∀ e, core_ok e → e ≠ 0 → front e tb' = front e tb)
        ∧ m_scheduler_update_needed (m_kernel m') = true.
Proof.
  destruct (in_order_queue machine1 (proj2 machine1_step)) as (tb & M & H). exists tb, M. split; [exact H|].
  apply (RotateScheduledQueue_rotates ticks machine1 tb M 0 44); [apply machine1_step|exact H|by_eval|by_eval].
Defined.


Lemma SwitchThread_accounts_witness :
  ∃ t mc told, m_parent t = 1000 ∧ GetActiveCore mc = 0 ∧ m_cpu_time told = 0
  ∧ let now := ticks (readings machine1) in
    let passed := s64 (now - m_last_context_switch_time (scheduler 0 machine1)) in
    ∃ m', SwitchThread ticks 0 2 machine1 = Some m' ∧ in_order m'
    ∧ m_kernel m' = with_current 2 (m_kernel machine1)
    ∧ m_current_thread (scheduler 0 m') = 2 ∧ m_last_context_switch_time (scheduler 0 m') = now
    ∧ m_current_core_id <$> sched_threads m' !! 2 = Some 0
    ∧ m_cpu_time <$> sched_threads m' !! cur_thread (m_kernel machine1) = Some (s64 (m_cpu_time told + passed))
    ∧ (m_parent t ≠ 0 →
         process_cpu_time <$> processes m' !! m_parent t
           = (λ pr, s64 (process_cpu_time pr + passed)) <$> processes machine1 !! m_parent t
         ∧ prev_thread (scheduler 0 m')
           = if IsTerminationRequested t || negb (GetActiveCore mc =? 0) then 0 else cur_thread (m_kernel machine1))
    ∧ ∀ e, core_ok e → running e m' = running e machine1.
Proof.
  assert (∃ t, threads (m_kernel machine1) !! cur_thread (m_kernel machine1) = Some t ∧ m_parent t = 1000) as (t & Et & Hp)
    by (eexists; split; [vm_compute; reflexivity|reflexivity]).
  assert (∃ mc, members (queue_of machine1) !! cur_thread (m_kernel machine1) = Some mc ∧ GetActiveCore mc = 0) as (mc & Em & Hc)
    by (eexists; split; [vm_compute; reflexivity|reflexivity]).
  assert (∃ told, sched_threads machine1 !! cur_thread (m_kernel machine1) = Some told ∧ m_cpu_time told = 0) as (told & Eo & Ho)
    by (eexists; split; [vm_compute; reflexivity|reflexivity]).
  assert (∃ n, sched_threads machine1 !! 2 = Some n ∧ disable_count n = 1) as (n & En & Hn)
    by (eexists; split; [vm_compute; reflexivity|reflexivity]).
  assert (∃ mx, members (queue_of machine1) !! 2 = Some mx ∧ IsDummyThread mx = false) as (mx & Ex & Hx)
    by (eexists; split; [vm_compute; reflexivity|reflexivity]).
  exists t, mc, told. split; [exact Hp|]. split; [exact Hc|]. split; [exact Ho|].
  apply (SwitchThread_accounts ticks machine1 0 2 t mc told n mx); try eassumption; [apply machine1_step|by_eval..].
Defined.
