(* ===== verification/GuestMemory.v ===== *)
(** The 32-bit accesses to a process's memory (src/src/core/memory.cpp) that the kernel makes
    for locks, condition variables and address arbiters.

    A state gives the byte at every mapped address; pages are mapped whole. What an access
    tells the renderer, and the log, are left out. *)
From S2P Require Import Prelude.

Notation Memory := (gmap Z Z).

(** [GetPointerImpl] masks the address. *)
Definition masked (vaddr : Z) : Z := Z.land vaddr 0xffffffffffff.
Definition mapped (vaddr : Z) (m : Memory) : bool := bool_decide (is_Some (m !! masked vaddr)).

(** Whether an access of four bytes finds its one or two pages. *)
Definition accessible (vaddr : Z) (m : Memory) : bool :=
  if negb (4096 <? Z.land vaddr 4095 + 4) then mapped vaddr m
  else mapped vaddr m && mapped (Z.land vaddr (lnotw 64 0xfff) + 0x1000) m.

Definition byte_of (data i : Z) : Z := Z.land (Z.shiftr data (8 * i)) 255.
Definition byte_at (vaddr : Z) (m : Memory) : Z := default 0 (m !! masked vaddr).

Definition Read32 (vaddr : Z) (m : Memory) : Z :=
  if accessible vaddr m then
    Z.lor (Z.lor (byte_at vaddr m) (Z.shiftl (byte_at (vaddr + 1) m) 8))
      (Z.lor (Z.shiftl (byte_at (vaddr + 2) m) 16) (Z.shiftl (byte_at (vaddr + 3) m) 24))
  else 0.

Definition Write32 (vaddr data : Z) (m : Memory) : Memory :=
  if accessible vaddr m then
    <[masked (vaddr + 3) := byte_of data 3]> (<[masked (vaddr + 2) := byte_of data 2]>
      (<[masked (vaddr + 1) := byte_of data 1]> (<[masked vaddr := byte_of data 0]> m)))
  else m.

(** * Properties *)

Lemma masked_eq a b : masked a = masked b ↔ (a - b) mod 2 ^ 48 = 0.
Proof.
  unfold masked. change 0xffffffffffff with (Z.ones 48). rewrite !Z.land_ones by lia.
  pose proof (Z.div_mod a (2 ^ 48)). pose proof (Z.div_mod b (2 ^ 48)). split.
  - intros E. replace (a - b) with ((a / 2 ^ 48 - b / 2 ^ 48) * 2 ^ 48) by lia. by apply Z.mod_mul.
  - intros E. apply Z.mod_divide in E as [q E]; [|done]. replace a with (b + q * 2 ^ 48) by lia. by rewrite Z.mod_add.
Qed.

Lemma masked_apart a i j : 0 ≤ i < 4 → 0 ≤ j < 4 → i ≠ j → masked (a + i) ≠ masked (a + j).
Proof.
  intros Hi Hj Hne E%masked_eq. replace (a + i - (a + j)) with (i - j) in E by lia.
  destruct (Z.lt_ge_cases i j).
  - rewrite <-(Z.mod_add _ 1), Z.mod_small in E by lia. lia.
  - rewrite Z.mod_small in E by lia. lia.
Qed.

Lemma bytes_of_word data :
  in_width 32 data →
  Z.lor (Z.lor (byte_of data 0) (Z.shiftl (byte_of data 1) 8))
    (Z.lor (Z.shiftl (byte_of data 2) 16) (Z.shiftl (byte_of data 3) 24)) = data.
Proof.
  intros Hd. apply testbit_ext. intros i Hi. unfold byte_of.
  rewrite !Z.lor_spec, !Z.shiftl_spec, !Z.land_spec by lia.
  change 255 with (Z.ones 8).
  assert (∀ s k, 0 ≤ s → 0 ≤ k → Z.testbit (Z.shiftr data (8 * k)) (i - s) && Z.testbit (Z.ones 8) (i - s)
    = if decide (s ≤ i < s + 8) then Z.testbit data (i - s + 8 * k) else false) as H.
  { intros s k Hs Hk. destruct (decide (s ≤ i < s + 8)).
    - rewrite Z.ones_spec_low by lia. rewrite Z.shiftr_spec by lia. apply andb_true_r.
    - destruct (decide (i < s)).
      + rewrite (Z.testbit_neg_r (Z.ones 8)) by lia. apply andb_false_r.
      + rewrite Z.ones_spec_high by lia. apply andb_false_r. }
  pose proof (H 0 0) as H0. rewrite Z.sub_0_r in H0. rewrite H0, !H by lia.
  destruct (decide (32 ≤ i)).
  - rewrite (testbit_high 32 data i) by done. by rewrite !decide_False by lia.
  - destruct (decide (i < 8)); [|destruct (decide (i < 16)); [|destruct (decide (i < 24))]].
    + rewrite decide_True, !decide_False, !orb_false_r by lia. f_equal. lia.
    + rewrite decide_False, decide_True, !decide_False, !orb_false_r by lia. simpl. f_equal. lia.
    + rewrite !decide_False, decide_True, decide_False, !orb_false_r by lia. simpl. f_equal. lia.
    + rewrite !decide_False, decide_True by lia. simpl. f_equal. lia.
Qed.

Lemma mapped_insert v w b m : mapped v m = true → mapped v (<[w := b]> m) = true.
Proof. unfold mapped. rewrite !bool_decide_eq_true. intros H. rewrite lookup_insert. by destruct (decide _). Qed.

Lemma accessible_Write32 v w d m : accessible v m = true → accessible v (Write32 w d m) = true.
Proof.
  intros H. unfold Write32. destruct (accessible w m); [|done]. unfold accessible in *.
  destruct (negb _); [by repeat apply mapped_insert|]. apply andb_true_iff in H as [H1 H2].
  apply andb_true_iff. split; by repeat apply mapped_insert.
Qed.

Lemma byte_at_Write32 v i d m : accessible v m = true → 0 ≤ i < 4 → byte_at (v + i) (Write32 v d m) = byte_of d i.
Proof.
  intros H Hi. unfold Write32. rewrite H. unfold byte_at.
  replace (masked v) with (masked (v + 0)) by (by rewrite Z.add_0_r). rewrite !lookup_insert.
  pose proof (masked_apart v) as Hm.
  assert (i = 0 ∨ i = 1 ∨ i = 2 ∨ i = 3) as [->|[->|[->| ->]]] by lia;
    repeat (rewrite decide_False by (apply Hm; lia)); by rewrite decide_True.
Qed.

Lemma Read32_Write32 v d m : accessible v m = true → in_width 32 d → Read32 v (Write32 v d m) = d.
Proof.
  intros H Hd. unfold Read32. rewrite accessible_Write32 by done. rewrite <-(bytes_of_word d Hd) at 5.
  rewrite <-!(byte_at_Write32 v _ d m) by (done || lia). by rewrite Z.add_0_r.
Qed.

(** A write is not seen at other words. *)
Lemma Read32_Write32_other v w d m :
  accessible v m = true → (∀ i j, 0 ≤ i < 4 → 0 ≤ j < 4 → masked (v + i) ≠ masked (w + j)) →
  Read32 v (Write32 w d m) = Read32 v m.
Proof.
  intros H Hd. unfold Read32. rewrite accessible_Write32, H by done.
  assert (∀ i, 0 ≤ i < 4 → byte_at (v + i) (Write32 w d m) = byte_at (v + i) m) as Hb.
  { intros i Hi. unfold Write32. destruct (accessible w m); [|done]. unfold byte_at.
    replace (masked w) with (masked (w + 0)) by (by rewrite Z.add_0_r). rewrite !lookup_insert.
    by repeat (rewrite decide_False by (intros E; symmetry in E; revert E; apply Hd; lia)). }
  pose proof (Hb 0) as Hb0. rewrite Z.add_0_r in Hb0. by rewrite Hb0, !Hb by lia.
Qed.

Lemma Read32_range v m : map_Forall (λ _ b, in_width 8 b) m → in_width 32 (Read32 v m).
Proof.
  intros Hm. unfold Read32. destruct (accessible v m); [|done].
  assert (∀ a, in_width 8 (byte_at a m)) as Hb.
  { intros a. unfold byte_at. destruct (m !! masked a) eqn:E; [by apply (Hm _ _ E)|done]. }
  assert (∀ a s, 0 ≤ s ≤ 24 → in_width 32 (Z.shiftl (byte_at a m) s)) as Hs.
  { intros a s Hs. rewrite Z.shiftl_mul_pow2 by lia. pose proof (Hb a). unfold in_width in *.
    assert (2 ^ s ≤ 2 ^ 24) by (apply Z.pow_le_mono_r; lia). nia. }
  pose proof (Hs v 0) as H0. rewrite Z.shiftl_0_r in H0.
  assert (0 ≤ 32) by lia. apply lor_in_width; [done|apply lor_in_width; [done|apply H0; lia|apply Hs; lia]|].
  apply lor_in_width; [done|apply Hs; lia..].
Qed.
