(* ===== verification/ConditionVariable.v ===== *)
(** Locks and condition variables of guest programs
    (src/src/core/hle/kernel/k_condition_variable.h and .cpp), and a thread's sleep.

    The state is that of one process whose threads call the kernel one after the other: its
    threads and locks, its memory, its handle table and the kernel's objects. A handle leads to
    the object of a thread, which has the thread's number. A call that puts the calling thread
    to sleep ends where it releases the scheduler's lock; what it does once the thread runs
    again is an operation of its own. *)
From S2P Require Import Prelude Common Results AutoObject HandleTable PriorityQueue Thread GuestMemory.

Definition ResultInvalidCurrentMemory : Z := Result.make Result.Kernel 106.
Definition ResultInvalidHandle : Z := Result.make Result.Kernel 114.
Definition HandleWaitMask : Z := Z.shiftl 1 30.
Definition InvalidHandle : Z := 0.

Record System := MkSystem {
  kernel : Kernel;
  memory : Memory;
  handle_table : KHandleTable;
  world : World
}.
Definition with_kernel (k : Kernel) (s : System) : System := MkSystem k (memory s) (handle_table s) (world s).
Definition with_memory (m : Memory) (s : System) : System := MkSystem (kernel s) m (handle_table s) (world s).
Definition with_world (w : World) (s : System) : System := MkSystem (kernel s) (memory s) (handle_table s) w.
(** An operation on the threads alone. *)
Definition on_kernel (f : Kernel → option Kernel) (s : System) : option System :=
  k ← f (kernel s); Some (with_kernel k s).

(** What a call returns at once, or that its thread has gone to sleep. *)
Inductive Outcome := Returns (result : Z) | Sleeps.

(** * User memory *)

(** Both report success whatever the address. *)
Definition ReadFromUser (address : Z) (s : System) : bool * Z := (true, Read32 address (memory s)).
Definition WriteToUser (address p : Z) (s : System) : bool * System :=
  (true, with_memory (Write32 address p (memory s)) s).

(** The exclusive read and write succeed at once or are tried again: one atomic step. *)
Definition UpdateLockAtomic (address if_zero new_orr_mask : Z) (s : System) : Z * System :=
  let expected := Read32 address (memory s) in
  let value := Z.lor expected new_orr_mask in
  let value := if expected =? 0 then if_zero else value in
  (expected, with_memory (Write32 address value (memory s)) s).

(** * Threads *)
Definition cur (s : System) : Z := cur_thread (kernel s).
Definition get_thread (x : Z) (s : System) : option KThread := threads (kernel s) !! x.

Definition SetUserAddressKey (x key value : Z) (k : Kernel) : option Kernel :=
  t ← threads k !! x;
  check (bool_decide (m_waiting_lock_info t = None));;
  on_thread x (set_address_key key value false) k.
Definition SetConditionVariable (x tree address cv_key value : Z) (k : Kernel) : option Kernel :=
  t ← threads k !! x;
  check (bool_decide (m_waiting_lock_info t = None));;
  on_thread x (λ t, set_address_key address value false (set_condvar (Some tree) cv_key t)) k.

(** The owner of a lock by its handle; the reference that was opened is given to the caller. *)
Definition GetThreadByHandle (handle : Z) (s : System) : option (Z * System) :=
  '(obj, w) ← GetObjectWithoutPseudoHandle (KClassTokenGenerator.ClassToken KClassTokenGenerator.KThread)
                handle (handle_table s) (world s);
  Some (obj, with_world w s).

(** [KScopedSchedulerLockAndSleep]: the timer it hands out and what it does at the end. *)
Definition sleep_timer (timeout : Z) : bool := 0 <? timeout.
Definition register_sleep (x timeout : Z) (k : Kernel) : Kernel :=
  if 0 <? timeout then with_timer (<[x := timeout]> (timer_tasks k)) k else k.

(** The value that is written to the lock's word when it goes to the next owner. *)
Definition next_tag (next_owner : option Z) (has_waiters : bool) (k : Kernel) : option Z :=
  match next_owner with
  | Some o =>
      t ← threads k !! o;
      Some (if has_waiters then Z.lor (m_address_key_value t) HandleWaitMask else m_address_key_value t)
  | None => Some 0
  end.

(** * The tree of waiting threads *)

(** [nfind_key]: the first element that does not compare less than the key. *)
Fixpoint nfind_key (less : Z → option bool) (tree : list Z) : option (option Z) :=
  match tree with
  | [] => Some None
  | e :: rest => b ← less e; if (b : bool) then Some (Some e) else nfind_key less rest
  end.
(** [erase(it)] of [x]: the iterator to what comes after it. *)
Fixpoint next_of (x : Z) (tree : list Z) : option Z :=
  match tree with [] => None | e :: rest => if e =? x then head rest else next_of x rest end.

Definition find_waiters (m_tree key : Z) (k : Kernel) : option (option Z) :=
  tree ← thread_trees k !! m_tree; nfind_key (condvar_less k key (-1)) tree.

(** Whether the loop of a signal goes on with the thread at [it]. *)
Definition wakes (key count num_waiters : Z) (it : option Z) (k : Kernel) : option (option Z) :=
  match it with
  | None => Some None
  | Some x =>
      t ← threads k !! x;
      Some (if ((count <=? 0) || (num_waiters <? count)) && (m_condvar_key t =? key) then Some x else None)
  end.

(** * The operations *)
Module KConditionVariable.
Section operations.
Context `{AutoObjectMethods}.

Definition SignalToAddress (addr : Z) (s : System) : option (Z * System) :=
  '(next_owner_thread, has_waiters, k) ← RemoveUserWaiterByKey (cur s) addr (kernel s);
  next_value ← next_tag next_owner_thread has_waiters k;
  let '(written, s) := WriteToUser addr next_value (with_kernel k s) in
  let result := if (written : bool) then ResultSuccess else ResultInvalidCurrentMemory in
  s ← match next_owner_thread with Some o => on_kernel (EndWait o result) s | None => Some s end;
  Some (result, s).

(** The owner is the result as long as the thread waits. *)
Definition WaitForAddress (handle addr value : Z) (s : System) : option (Outcome * option Z * System) :=
  cur_t ← get_thread (cur s) s;
  if IsTerminationRequested cur_t then Some (Returns ResultTerminationRequested, None, s)
  else
    let '(read, test_tag) := ReadFromUser addr s in
    if negb read then Some (Returns ResultInvalidCurrentMemory, None, s)
    else if negb (test_tag =? Z.lor handle HandleWaitMask) then Some (Returns ResultSuccess, None, s)
    else
      '(owner_thread, s) ← GetThreadByHandle handle s;
      if owner_thread =? 0 then Some (Returns ResultInvalidHandle, None, s)
      else
        s ← on_kernel (SetUserAddressKey (cur s) addr value) s;
        s ← on_kernel (AddWaiter owner_thread (cur s)) s;
        s ← on_kernel (BeginWait (cur s) (MkQueue WaitForAddress false)) s;
        Some (Sleeps, Some owner_thread, s).
(** When the thread runs again. *)
Definition WaitForAddress_resume (owner_thread : Z) (s : System) : option (Z * System) :=
  w ← Close owner_thread (world s);
  t ← get_thread (cur s) s;
  Some (m_wait_result t, with_world w s).

Definition SignalImpl (thread : Z) (s : System) : option System :=
  t ← get_thread thread s;
  let address := m_address_key t in
  let own_tag := m_address_key_value t in
  let '(prev_tag, s) := UpdateLockAtomic address own_tag HandleWaitMask s in
  if prev_tag =? InvalidHandle then on_kernel (EndWait thread ResultSuccess) s
  else
    '(owner_thread, s) ← GetThreadByHandle (Z.land prev_tag (lnotw 32 HandleWaitMask)) s;
    if negb (owner_thread =? 0) then
      s ← on_kernel (AddWaiter owner_thread thread) s;
      w ← Close owner_thread (world s);
      Some (with_world w s)
    else on_kernel (EndWait thread ResultInvalidState) s.

(** [fuel]: the tree loses a thread in every turn. *)
Fixpoint Signal_loop (fuel : nat) (m_tree cv_key count num_waiters : Z) (it : option Z) (s : System)
    : option (option Z * System) :=
  target ← wakes cv_key count num_waiters it (kernel s);
  match target with
  | None => Some (it, s)
  | Some x =>
      match fuel with
      | O => None
      | S fuel =>
          tree ← thread_trees (kernel s) !! m_tree;
          let it := next_of x tree in
          s ← on_kernel (erase_from_tree m_tree x) s;
          s ← on_kernel (ClearConditionVariable x) s;
          s ← SignalImpl x s;
          Signal_loop fuel m_tree cv_key count (s32 (num_waiters + 1)) it s
      end
  end.

Definition Signal (m_tree cv_key count : Z) (s : System) : option System :=
  it ← find_waiters m_tree cv_key (kernel s);
  tree ← thread_trees (kernel s) !! m_tree;
  '(it, s) ← Signal_loop (length tree) m_tree cv_key count 0 it s;
  more ← match it with
         | None => Some false
         | Some x => t ← get_thread x s; Some (m_condvar_key t =? cv_key)
         end;
  Some (if negb more then snd (WriteToUser cv_key 0 s) else s).

Definition Wait (m_tree addr key value timeout : Z) (s : System) : option (Outcome * System) :=
  let x := cur s in
  cur_t ← get_thread x s;
  if IsTerminationRequested cur_t then Some (Returns ResultTerminationRequested, s)
  else
    '(next_owner_thread, has_waiters, k) ← RemoveUserWaiterByKey x addr (kernel s);
    next_value ← next_tag next_owner_thread has_waiters k;
    s ← match next_owner_thread with
        | Some o => on_kernel (EndWait o ResultSuccess) (with_kernel k s)
        | None => Some (with_kernel k s)
        end;
    let '(_, s) := WriteToUser key 1 s in
    let '(written, s) := WriteToUser addr next_value s in
    if negb written then Some (Returns ResultInvalidCurrentMemory, s)
    else if timeout =? 0 then Some (Returns ResultTimedOut, s)
    else
      s ← on_kernel (SetConditionVariable x m_tree addr key value) s;
      s ← on_kernel (insert_in_tree m_tree x) s;
      s ← on_kernel (BeginWait x (MkQueue (WaitConditionVariable m_tree) (sleep_timer timeout))) s;
      Some (Sleeps, with_kernel (register_sleep x timeout (kernel s)) s).
End operations.
End KConditionVariable.

(** [KThread::Sleep] *)
Definition Sleep (timeout : Z) (s : System) : option (Outcome * System) :=
  let x := cur s in
  check (0 <? timeout);;
  t ← get_thread x s;
  if IsTerminationRequested t then Some (Returns ResultTerminationRequested, s)
  else
    s ← on_kernel (BeginWait x (MkQueue ThreadSleep (sleep_timer timeout))) s;
    Some (Sleeps, with_kernel (register_sleep x timeout (kernel s)) s).
