(* ===== verification/AddressArbiter.v ===== *)
(** Waiting on the value of a word of user memory (src/src/core/hle/kernel/k_address_arbiter.h
    and .cpp). The words are signed. *)
From S2P Require Import Prelude Common Results AutoObject HandleTable PriorityQueue Thread GuestMemory ConditionVariable.

Module KAddressArbiter.
Inductive SignalType := Type_Signal | Type_SignalAndIncrementIfEqual | Type_SignalAndModifyByWaitingCountIfEqual.
Inductive ArbitrationType := Type_WaitIfLessThan | Type_DecrementAndWaitIfLessThan | Type_WaitIfEqual.

(** The word as a signed value, and the store of one. *)
Definition ReadSigned (address : Z) (s : System) : Z := s32 (Read32 address (memory s)).
Definition WriteSigned (address value : Z) (s : System) : System :=
  with_memory (Write32 address (u32 value) (memory s)) s.

(** Success and the value that was read; both are atomic. *)
Definition DecrementIfLessThan (address value : Z) (s : System) : bool * Z * System :=
  let current_value := ReadSigned address s in
  (true, current_value,
   if current_value <? value then WriteSigned address (s32 (current_value - 1)) s else s).
Definition UpdateIfEqual (address value new_value : Z) (s : System) : bool * Z * System :=
  let current_value := ReadSigned address s in
  (true, current_value, if current_value =? value then WriteSigned address new_value s else s).

Definition SetAddressArbiter (x tree address : Z) (k : Kernel) : option Kernel :=
  t ← threads k !! x;
  check (bool_decide (m_waiting_lock_info t = None));;
  on_thread x (set_condvar (Some tree) address) k.

(** [fuel]: the tree loses a thread in every turn. The result: how many were woken. *)
Fixpoint signal_loop (fuel : nat) (m_tree addr count num_waiters : Z) (it : option Z) (k : Kernel)
    : option (Z * Kernel) :=
  target ← wakes addr count num_waiters it k;
  match target with
  | None => Some (num_waiters, k)
  | Some x =>
      match fuel with
      | O => None
      | S fuel =>
          k ← EndWait x ResultSuccess k;
          t ← threads k !! x;
          check (bool_decide (is_Some (m_condvar_tree t)));;
          k ← ClearConditionVariable x k;
          tree ← thread_trees k !! m_tree;
          let it := next_of x tree in
          k ← erase_from_tree m_tree x k;
          signal_loop fuel m_tree addr count (s32 (num_waiters + 1)) it k
      end
  end.
Definition signal_waiters (m_tree addr count : Z) (it : option Z) (s : System) : option System :=
  tree ← thread_trees (kernel s) !! m_tree;
  '(_, k) ← signal_loop (length tree) m_tree addr count 0 it (kernel s);
  Some (with_kernel k s).

Definition Signal (m_tree addr count : Z) (s : System) : option (Z * System) :=
  it ← find_waiters m_tree addr (kernel s);
  s ← signal_waiters m_tree addr count it s;
  Some (ResultSuccess, s).

Definition SignalAndIncrementIfEqual (m_tree addr value count : Z) (s : System) : option (Z * System) :=
  let '(succeeded, user_value, s) := UpdateIfEqual addr value (s32 (value + 1)) s in
  if negb (succeeded : bool) then Some (ResultInvalidCurrentMemory, s)
  else if negb (user_value =? value) then Some (ResultInvalidState, s)
  else
    it ← find_waiters m_tree addr (kernel s);
    s ← signal_waiters m_tree addr count it s;
    Some (ResultSuccess, s).

(** The inner loop: the waiters after the first, [rest], are counted up to one more than [count]. *)
Fixpoint count_waiters (addr count tmp_num_waiters : Z) (rest : list Z) (k : Kernel) : option Z :=
  match rest with
  | [] => Some tmp_num_waiters
  | e :: rest =>
      t ← threads k !! e;
      if m_condvar_key t =? addr then
        let n := s32 (tmp_num_waiters + 1) in
        if count <=? tmp_num_waiters then Some n else count_waiters addr count n rest k
      else Some tmp_num_waiters
  end.

(** The elements from [x] on. *)
Fixpoint from_element (x : Z) (tree : list Z) : list Z :=
  match tree with [] => [] | e :: rest => if e =? x then tree else from_element x rest end.

Definition modified_value (m_tree addr value count : Z) (it : option Z) (k : Kernel) : option Z :=
  tree ← thread_trees k !! m_tree;
  waiting ← match it with
            | Some x => t ← threads k !! x; Some (m_condvar_key t =? addr)
            | None => Some false
            end;
  if (waiting : bool) then
    if count <=? 0 then Some (s32 (value - 2))
    else
      n ← count_waiters addr count 0 (tail (from_element (default 0 it) tree)) k;
      Some (if n <? count then s32 (value - 1) else value)
  else Some (s32 (value + 1)).

Definition SignalAndModifyByWaitingCountIfEqual (m_tree addr value count : Z) (s : System)
    : option (Z * System) :=
  it ← find_waiters m_tree addr (kernel s);
  new_value ← modified_value m_tree addr value count it (kernel s);
  let '(succeeded, user_value, s) :=
    if negb (value =? new_value) then UpdateIfEqual addr value new_value s
    else (true, ReadSigned addr s, s) in
  if negb (succeeded : bool) then Some (ResultInvalidCurrentMemory, s)
  else if negb (user_value =? value) then Some (ResultInvalidState, s)
  else
    s ← signal_waiters m_tree addr count it s;
    Some (ResultSuccess, s).

(** The end of both waits. *)
Definition begin_sleep (m_tree addr timeout : Z) (s : System) : option (Outcome * System) :=
  let x := cur s in
  s ← on_kernel (SetAddressArbiter x m_tree addr) s;
  s ← on_kernel (insert_in_tree m_tree x) s;
  s ← on_kernel (BeginWait x (MkQueue (AddressArbiter m_tree) (sleep_timer timeout))) s;
  Some (Sleeps, with_kernel (register_sleep x timeout (kernel s)) s).

Definition WaitIfLessThan (m_tree addr value : Z) (decrement : bool) (timeout : Z) (s : System)
    : option (Outcome * System) :=
  t ← get_thread (cur s) s;
  if IsTerminationRequested t then Some (Returns ResultTerminationRequested, s)
  else
    let '(succeeded, user_value, s) :=
      if decrement then DecrementIfLessThan addr value s else (true, ReadSigned addr s, s) in
    if negb (succeeded : bool) then Some (Returns ResultInvalidCurrentMemory, s)
    else if value <=? user_value then Some (Returns ResultInvalidState, s)
    else if timeout =? 0 then Some (Returns ResultTimedOut, s)
    else begin_sleep m_tree addr timeout s.

Definition WaitIfEqual (m_tree addr value timeout : Z) (s : System) : option (Outcome * System) :=
  t ← get_thread (cur s) s;
  if IsTerminationRequested t then Some (Returns ResultTerminationRequested, s)
  else
    let '(succeeded, user_value) := (true, ReadSigned addr s) in
    if negb (succeeded : bool) then Some (Returns ResultInvalidCurrentMemory, s)
    else if negb (value =? user_value) then Some (Returns ResultInvalidState, s)
    else if timeout =? 0 then Some (Returns ResultTimedOut, s)
    else begin_sleep m_tree addr timeout s.

Definition SignalToAddress (m_tree addr : Z) (type : SignalType) (value count : Z) (s : System)
    : option (Z * System) :=
  match type with
  | Type_Signal => Signal m_tree addr count s
  | Type_SignalAndIncrementIfEqual => SignalAndIncrementIfEqual m_tree addr value count s
  | Type_SignalAndModifyByWaitingCountIfEqual => SignalAndModifyByWaitingCountIfEqual m_tree addr value count s
  end.
Definition WaitForAddress (m_tree addr : Z) (type : ArbitrationType) (value timeout : Z) (s : System)
    : option (Outcome * System) :=
  match type with
  | Type_WaitIfLessThan => WaitIfLessThan m_tree addr value false timeout s
  | Type_DecrementAndWaitIfLessThan => WaitIfLessThan m_tree addr value true timeout s
  | Type_WaitIfEqual => WaitIfEqual m_tree addr value timeout s
  end.
End KAddressArbiter.
