(* ===== verification/WaitInvariant.v ===== *)
(** The invariant of waiting threads between the calls of guest programs, and the steps the
    calls are made of. *)
From stdpp Require Import sorting.
From S2P Require Import Prelude Common Results AutoObject HandleTable HandleTableSpec PriorityQueue PriorityQueueLinks PriorityQueueSpec Thread ThreadLocks ThreadWaiters ThreadInherit ThreadHandover ThreadState ThreadOps ThreadWaits GuestMemory ConditionVariable AddressArbiter.

Implicit Types (k : Kernel) (s : System).

(** What comes after an element of the list that stands for a tree. *)
Lemma next_of_split x before after :
  x ∉ before → next_of x (before ++ x :: after) = head after.
Proof.
  induction before as [|e before IH]; intros Hx; cbn [next_of app]; [by rewrite Z.eqb_refl|].
  apply not_elem_of_cons in Hx as [Hne Hx]. rewrite (proj2 (Z.eqb_neq e x)) by done. by apply IH.
Qed.

(** * How threads wait *)
Section waiting.
(** The trees of the process's condition variables and of its address arbiter. *)
Context (cv arb : Z).

(** What a thread that waits for [w] (a lock's owner) waits in is what its queue says; a thread
    that is not waiting is nowhere. *)
Definition waiting_ok (w : option Z) (t : KThread) : Prop :=
  if GetState t =? ThreadState.Waiting then
    ∃ q, m_wait_queue t = Some q ∧
      match q_class q with
      | WaitForAddress | LightLock => is_Some w ∧ m_condvar_tree t = None
      | WaitConditionVariable c =>
          c = cv ∧ (m_condvar_tree t = Some cv ∧ w = None ∨ m_condvar_tree t = None ∧ is_Some w)
      | AddressArbiter c => c = arb ∧ m_condvar_tree t = Some arb ∧ w = None
      | ThreadSleep => m_condvar_tree t = None ∧ w = None
      end
  else m_condvar_tree t = None ∧ w = None.

(** All threads but [o] wait as they should. *)
Definition calm_but (o : option Z) k : Prop :=
  sane k ∧ ∀ x t, o ≠ Some x → threads k !! x = Some t → waiting_ok (waits k x) t.
Definition calm k : Prop := calm_but None k.

Lemma calm_but_weaken o k : calm k → calm_but o k.
Proof. intros [Hs H]. split; [done|]. intros x t _. by apply H. Qed.

Lemma waiting_ok_core w t t' : core t' = core t → waiting_ok w t → waiting_ok w t'.
Proof.
  intros E H. assert (m_thread_state t' = m_thread_state t ∧ m_wait_queue t' = m_wait_queue t
    ∧ m_condvar_tree t' = m_condvar_tree t) as (Es & Eq & Ec) by by injection E.
  unfold waiting_ok, GetState in *. by rewrite Es, Eq, Ec.
Qed.

Lemma waiting_ok_owner w w' t : is_Some w → is_Some w' → waiting_ok w t → waiting_ok w' t.
Proof.
  intros [a ->] [b ->]. unfold waiting_ok. destruct (_ =? _); [|by intros [_ ?]].
  intros (q & Eq & H). exists q. split; [done|]. destruct (q_class q); naive_solver.
Qed.

(** A thread that waits for a lock has a queue that can be ended. *)
Lemma waiting_for_lock w t :
  waiting_ok w t → is_Some w → GetState t = ThreadState.Waiting ∧ m_condvar_tree t = None
    ∧ ∃ q, m_wait_queue t = Some q ∧ q_class q ≠ ThreadSleep.
Proof.
  unfold waiting_ok. intros H [a ->]. destruct (Z.eqb_spec (GetState t) ThreadState.Waiting) as [Hs|]; [|by destruct H].
  destruct H as (q & Eq & H). split; [done|].
  destruct (q_class q) eqn:Ec; try naive_solver; (split; [naive_solver|]; exists q; split; [done|congruence]).
Qed.

Lemma waiting_in_tree w t c :
  waiting_ok w t → m_condvar_tree t = Some c → GetState t = ThreadState.Waiting ∧ w = None
    ∧ ∃ q, m_wait_queue t = Some q ∧ (c = cv ∧ q_class q = WaitConditionVariable cv ∨ c = arb ∧ q_class q = AddressArbiter arb).
Proof.
  unfold waiting_ok. intros H Et. rewrite Et in H.
  destruct (Z.eqb_spec (GetState t) ThreadState.Waiting) as [Hs|]; [|by destruct H].
  destruct H as (q & Eq & H). split; [done|]. destruct (q_class q) eqn:Ec; try naive_solver.
Qed.

Lemma not_waiting w t : waiting_ok w t → GetState t ≠ ThreadState.Waiting → m_condvar_tree t = None ∧ w = None.
Proof. unfold waiting_ok. intros H Hs. by rewrite (proj2 (Z.eqb_neq _ _) Hs) in H. Qed.

(** The waits of a waiting thread agree with its queue. *)
Lemma waiting_waits_well k x t :
  waiting_ok (waits k x) t → GetState t = ThreadState.Waiting → waits_well k x t.
Proof.
  unfold waiting_ok. intros H Hs. rewrite Hs, Z.eqb_refl in H. destruct H as (q & Eq & H). exists q. split; [done|].
  unfold agrees. destruct (q_class q); try done.
  - rewrite bool_decide_eq_true. by destruct H.
  - intros c'. destruct H as (-> & [[-> _]|[-> _]]); [by intros [= <-]|done].
  - intros c'. destruct H as (-> & -> & _). by intros [= <-].
Qed.

(** ** Frames *)
Lemma calm_rewired o k k' f :
  calm_but o k → rewired k k' f → (∀ x, o ≠ Some x → f x = waits k x ∨ is_Some (f x) ∧ is_Some (waits k x)) →
  calm_but o k'.
Proof.
  intros [Hs H] [Hs' Hc Hw] Hf. split; [done|]. intros x t' Hx (t & Et & Ect)%(same_core_inv _ _ _ _ Hc).
  rewrite Hw. specialize (H x t Hx Et). apply (waiting_ok_core _ t); [done|].
  destruct (Hf x Hx) as [->|[H1 H2]]; [done|]. by eapply waiting_ok_owner.
Qed.

Lemma calm_only o k k' x t' :
  calm_but o k → only k k' x t' → (o ≠ Some x → waiting_ok (waits k x) t') → calm_but o k'.
Proof.
  intros [Hs H] Ho Ht. split; [apply Ho|]. intros y ty Hy. rewrite (only_lookup _ _ _ _ y Ho).
  rewrite (on_waits _ _ _ _ Ho). destruct (decide (y = x)) as [->|]; [intros [= <-]; auto|by apply H].
Qed.

(** The thread in question has been dealt with. *)
Lemma calm_settled o k k' x t' :
  calm_but (Some x) k → only k k' x t' → waiting_ok (waits k x) t' → calm_but o k'.
Proof.
  intros [Hs H] Ho Ht. split; [apply Ho|]. intros y ty _. rewrite (only_lookup _ _ _ _ y Ho).
  rewrite (on_waits _ _ _ _ Ho). destruct (decide (y = x)) as [->|Hne]; [by intros [= <-]|].
  apply H. congruence.
Qed.

(** ** The steps of the calls *)
Lemma EndWait_calm k x t r :
  calm_but (Some x) k → threads k !! x = Some t → m_condvar_tree t = None → waits k x = None →
  (∀ q, m_wait_queue t = Some q → q_class q ≠ ThreadSleep) →
  ∃ k', EndWait x r k = Some k' ∧ calm k' ∧ only k k' x (ended_thread t r).
Proof.
  intros Hk Et Hc Hw Hq. destruct (EndWait_only k x t r (proj1 Hk) Et Hq) as (k' & E & Ho).
  exists k'. split; [done|]. split; [|done]. eapply calm_settled; [done..|].
  assert (∀ t0, m_condvar_tree t0 = None → GetState t0 ≠ ThreadState.Waiting → waiting_ok (waits k x) t0) as Hok.
  { intros t0 Ht0 Hs. unfold waiting_ok. by rewrite (proj2 (Z.eqb_neq _ _) Hs), Hw. }
  unfold ended_thread. destruct (Z.eqb_spec (GetState t) ThreadState.Waiting); [|by apply Hok].
  destruct (m_wait_queue t); apply Hok; try done; unfold GetState; simpl; by rewrite next_state_land.
Qed.

(** [w] waits for the user lock at [addr] that [x] holds. *)
Definition waits_at k (x addr w : Z) : Prop :=
  waits k w = Some x ∧ ∃ t, threads k !! w = Some t ∧ m_address_key t = addr ∧ m_is_kernel_address_key t = false.

(** The lock of [x] at [addr] has gone to [o], for which the [rest] of the waiters wait. *)
Record handed k k' (x addr o : Z) (rest : list Z) (t : KThread) : Prop := {
  ha_calm : calm_but (Some o) k';
  ha_thread : threads k' !! o = Some t;
  ha_wait : GetState t = ThreadState.Waiting ∧ m_condvar_tree t = None
    ∧ ∃ q, m_wait_queue t = Some q ∧ q_class q ≠ ThreadSleep;
  ha_core : same_core (threads k) (threads k');
  ha_waits : ∀ y, waits k' y = if decide (y = o) then None else if decide (y ∈ rest) then Some o else waits k y;
  ha_waiters : ∀ w, w ∈ o :: rest → waits_at k x addr w;
  ha_first : ∀ w, w ∈ rest → prio k o ≤ prio k w;
  ha_nodup : NoDup (o :: rest);
}.

Lemma RemoveUserWaiter_calm k x t addr :
  calm k → threads k !! x = Some t →
  (RemoveUserWaiterByKey x addr k = Some (None, false, k) ∧ ∀ w, ¬ waits_at k x addr w)
  ∨ ∃ o to rest k', RemoveUserWaiterByKey x addr k = Some (Some o, negb (bool_decide (rest = [])), k')
    ∧ handed k k' x addr o rest to.
Proof.
  intros Hk Et. pose proof Hk as [Hs H]. pose proof (ko_locks k (sn_ok k Hs)) as L.
  destruct (FindHeldLock_ok k x t addr false L Et) as ([l|] & E & Hl).
  2: { left. split; [by apply RemoveWaiterByKey_None|]. intros w [(l & li & Hl' & El & Hin)%(waiter_of k x w t L Et) (tw & Ew & Ha & Hb)].
       unfold FindHeldLock in E. rewrite Et in E. cbn [mbind option_bind] in E. eapply find_lock_none; [exact E|done..|].
       apply (lk_tree _ _ _ _ L l li w El) in Hin as (tw' & Ew' & Hwl). rewrite Ew in Ew'. injection Ew' as <-.
       destruct (lk_waiting _ _ _ _ L w tw l Ew Hwl) as (li' & El' & ? & ? & _). rewrite El in El'. injection El' as <-.
       split; congruence. }
  right. destruct (RemoveWaiterByKey_rewired k x t l addr false Hs Et E) as (li & o & rest & k' & El & Ex & Etr & Er & R).
  destruct (Hl l eq_refl) as (_ & li' & El' & _ & Hkey & Hb). rewrite El in El'. injection El' as <-.
  assert (∀ v, v ∈ o :: rest → waits_at k x addr v) as Htree.
  { intros v Hv. rewrite <-Etr in Hv. split.
    - apply (waiter_of k x v t L Et). exists l, li. split; [|done]. apply (lk_held _ _ _ _ L x t l Et). by exists li.
    - apply (lk_tree _ _ _ _ L l li v El) in Hv as (tv & Ev & Hwl). exists tv. split; [done|].
      destruct (lk_waiting _ _ _ _ L v tv l Ev Hwl) as (li' & El' & ? & ? & _). rewrite El in El'. injection El' as <-.
      split; congruence. }
  destruct (Htree o ltac:(set_solver)) as [Ho _]. destruct (waits_Some _ _ _ _ L Ho) as (to & _ & _ & _ & Eo & _).
  pose proof R as [Hs' Hc Hw]. destruct (same_core_lookup _ _ o to Hc Eo) as (to' & Eo' & Hct).
  pose proof (waiting_ok_core _ _ _ Hct (H o to ltac:(done) Eo)) as Hok.
  destruct (waiting_for_lock _ _ Hok) as (H1 & H2 & H3); [by rewrite Ho|].
  exists o, to', rest, k'. split; [done|]. split; try done.
  - eapply calm_rewired; [by apply calm_but_weaken|exact R|]. intros y Hy. cbv beta. rewrite decide_False by congruence.
    destruct (decide (y ∈ rest)) as [Hin|]; [right|by left]. destruct (Htree y ltac:(set_solver)) as [-> _]. by split; eexists.
  - destruct (lk_info _ _ _ _ L l li El) as [_ _ _ Hsort]. rewrite Etr in Hsort.
    apply Sorted.StronglySorted_inv in Hsort as [_ Hsort]. by rewrite Forall_forall in Hsort.
  - rewrite <-Etr. apply (lk_info _ _ _ _ L l li El).
Qed.

Lemma AddWaiter_calm k x w tw :
  calm_but (Some w) k → is_Some (threads k !! x) → threads k !! w = Some tw → m_condvar_tree tw = None → waits k w = None →
  ∃ k' tw', AddWaiter x w k = Some k' ∧ calm_but (Some w) k' ∧ threads k' !! w = Some tw' ∧ core tw' = core tw
    ∧ waits k' w = Some x ∧ rewired k k' (λ y, if decide (y = w) then Some x else waits k y).
Proof.
  intros Hk [tx Ex] Ew Hc Hw. destruct (AddWaiter_rewired k x w tx tw (proj1 Hk) Ex Ew Hw Hc) as (k' & E & R).
  pose proof R as [Hs' Hcore Hw']. destruct (same_core_lookup _ _ w tw Hcore Ew) as (tw' & Ew' & Ect).
  exists k', tw'. split_and!; try done; [|by rewrite Hw', decide_True].
  eapply calm_rewired; [done|exact R|]. intros y Hy. cbv beta. rewrite decide_False by congruence. by left.
Qed.

(** The calling thread goes to sleep. *)
Lemma BeginWait_calm k x t q :
  calm_but (Some x) k → threads k !! x = Some t →
  match q_class q with
  | WaitForAddress | LightLock => is_Some (waits k x) ∧ m_condvar_tree t = None
  | WaitConditionVariable c =>
      c = cv ∧ (m_condvar_tree t = Some cv ∧ waits k x = None ∨ m_condvar_tree t = None ∧ is_Some (waits k x))
  | AddressArbiter c => c = arb ∧ m_condvar_tree t = Some arb ∧ waits k x = None
  | ThreadSleep => m_condvar_tree t = None ∧ waits k x = None
  end →
  ∃ k', BeginWait x q k = Some k' ∧ calm k'
    ∧ only k k' x (set_wait (m_wait_cancelled t) (m_wait_result t) (Some q) (in_state (next_state t ThreadState.Waiting) t)).
Proof.
  intros Hk Et Hq. destruct (BeginWait_only k x t q (proj1 Hk) Et) as (k' & E & Ho). exists k'. split; [done|].
  split; [|done]. eapply calm_settled; [done..|]. unfold waiting_ok, GetState. simpl. rewrite next_state_land. simpl.
  by exists q.
Qed.
End waiting.

(** * A thread that waits for no lock *)

(** Its address key and tree are no concern of the locks. *)
Section idle.
Context (pr : Z → Z) (ts : gmap Z KThread) (ls : gmap Z LockInfo) (slab : list Z) (x : Z) (t t' : KThread).
Context (Et : ts !! x = Some t) (Hw : m_waiting_lock_info t = None) (Hw' : m_waiting_lock_info t' = None)
        (Hh : m_held_lock_info_list t' = m_held_lock_info_list t)
        (Hn : m_num_kernel_waiters t' = m_num_kernel_waiters t).

Lemma idle_waits y : waits_on (<[x := t']> ts) ls y = waits_on ts ls y.
Proof using Et Hw Hw'.
  unfold waits_on. rewrite lookup_insert. destruct (decide (x = y)) as [<-|]; [|done]. rewrite Et. simpl.
  by rewrite Hw, Hw'.
Qed.

Lemma idle_kernel_waiter y w : kernel_waiter (<[x := t']> ts) ls y w ↔ kernel_waiter ts ls y w.
Proof using Et Hw Hw'.
  unfold kernel_waiter. rewrite idle_waits, lookup_insert. destruct (decide (x = w)) as [<-|]; [|done].
  split; intros [E _]; unfold waits_on in E; rewrite Et in E; simpl in E; by rewrite Hw in E.
Qed.

Lemma locks_ok_idle : locks_ok pr ts ls slab → locks_ok pr (<[x := t']> ts) ls slab.
Proof using All.
  intros [H1 H2 H3 H4 H5 H6 H7 H8 H9 H10]. split; try done.
  - intros y ty l [[<- <-]|[Hne E]]%lookup_insert_Some; [rewrite Hh; by apply H1|by apply H1].
  - intros y ty [[<- <-]|[Hne E]]%lookup_insert_Some; [rewrite Hh; by eapply H2|by eapply H2].
  - intros l li w E. rewrite (H3 l li w E), lookup_insert. destruct (decide (x = w)) as [<-|]; [|done].
    rewrite Et. split; intros (? & [= <-] & ?); congruence.
  - intros w tw l [[<- <-]|[Hne E]]%lookup_insert_Some; [by rewrite Hw'|by apply (H4 w tw l)].
  - intros l li E. rewrite lookup_insert. destruct (decide _); [by eexists|by eapply H5].
  - intros y ty [[<- <-]|[Hne E]]%lookup_insert_Some.
    + rewrite Hn. destruct (H7 x t Et) as (S & HS & ->). exists S. split; [|done]. intros w. by rewrite idle_kernel_waiter.
    + destruct (H7 y ty E) as (S & HS & ->). exists S. split; [|done]. intros w. by rewrite idle_kernel_waiter.
  - by rewrite map_size_insert, Et.
  - by rewrite map_size_insert, Et.
Qed.
End idle.

(** A change of such a thread that keeps its place in the trees. *)
Lemma rekey_only k x t f :
  sane k → threads k !! x = Some t → m_waiting_lock_info t = None → m_waiting_lock_info (f t) = None →
  m_held_lock_info_list (f t) = m_held_lock_info_list t → m_num_kernel_waiters (f t) = m_num_kernel_waiters t →
  m_condvar_tree (f t) = m_condvar_tree t → m_condvar_key (f t) = m_condvar_key t →
  m_thread_state (f t) = m_thread_state t → m_parent (f t) = m_parent t → m_base_priority (f t) = m_base_priority t →
  ∃ k', on_thread x f k = Some k' ∧ only k k' x (f t).
Proof.
  intros [[L C S P] I] Et Hw Hw' Hh Hn Hc Hck Hs Hp Hb. rewrite (set_at_once k x f t Et). eexists. split; [done|].
  assert (∀ y, waits_on (<[x := f t]> (threads k)) (lock_infos k) y = waits k y) as Hwaits by (intros y; by apply idle_waits with t).
  split; try done. split; [split|].
  - by apply locks_ok_idle with t.
  - by apply cvs_ok_set with t.
  - apply sched_ok_quiet with t; try done. split_and!; try done. lia.
  - intros y ty. cbn [threads with_threads]. intros [[<- <-]|[Hne E]]%lookup_insert_Some; [rewrite Hb; exact (P x t Et)|exact (P y ty E)].
  - intros y Hy. apply (due_ext k); try done.
    + simpl. rewrite lookup_insert. destruct (decide (x = y)) as [<-|]; [|done]. rewrite Et. simpl. by rewrite Hb.
    + apply I. simpl in Hy. rewrite lookup_insert in Hy. destruct (decide (x = y)) as [<-|]; [by exists t|done].
Qed.

(** * Joining and leaving a tree *)
Lemma cvs_ok_joined pr ts trees c tree tree' x t t' key :
  cvs_ok pr ts trees → trees !! c = Some tree → ts !! x = Some t → m_condvar_tree t = None →
  m_condvar_tree t' = Some c → m_condvar_key t' = key → tree' ≡ₚ x :: tree →
  StronglySorted (cv_le pr (<[x := t']> ts)) tree' → cvs_ok pr (<[x := t']> ts) (<[c := tree']> trees).
Proof.
  intros [H1 H2 H3 H4] Ec Et Hc Hc' Hk Hperm Hs.
  assert (∀ c' tr y, trees !! c' = Some tr → y ∈ tr → y ≠ x) as Hx.
  { intros c' tr y E Hy ->. apply (H1 c' tr x E) in Hy as (t0 & E0 & ?). congruence. }
  split.
  - intros c' tr y [[<- <-]|[Hne E]]%lookup_insert_Some.
    + rewrite Hperm, elem_of_cons, (H1 c tree y Ec), lookup_insert. destruct (decide (x = y)) as [<-|]; [|naive_solver].
      split; [intros _; by exists t'|by left].
    + rewrite (H1 c' tr y E), lookup_insert. destruct (decide (x = y)) as [<-|]; [|done].
      split; intros (t0 & E0 & ?); congruence.
  - intros y ty c' [[<- <-]|[Hne E]]%lookup_insert_Some Ety; rewrite lookup_insert;
      (destruct (decide (c = c')); [by eexists|]).
    + congruence.
    + by eapply H2.
  - intros c' tr [[<- <-]|[Hne E]]%lookup_insert_Some; [|by eapply H3]. rewrite Hperm. apply NoDup_cons. split; [|by eapply H3].
    intros Hin. by apply (Hx c tree x Ec).
  - intros c' tr [[<- <-]|[Hne E]]%lookup_insert_Some; [done|]. eapply StronglySorted_ext; [|by eapply H4].
    assert (∀ y, y ∈ tr → cv_key (<[x:=t']> ts) y = cv_key ts y) as Hkey.
    { intros y Hy. pose proof (Hx c' tr y E Hy). unfold cv_key. by rewrite lookup_insert_ne. }
    intros a b Ha Hb. unfold cv_le. by rewrite !Hkey.
Qed.

(** The calling thread joins a tree: it is told its place and inserted. *)
Lemma join_tree_ok k c x t f tree :
  sane k → threads k !! x = Some t → waits k x = None → m_condvar_tree t = None → thread_trees k !! c = Some tree →
  m_waiting_lock_info (f t) = None → m_held_lock_info_list (f t) = m_held_lock_info_list t →
  m_num_kernel_waiters (f t) = m_num_kernel_waiters t → m_condvar_tree (f t) = Some c →
  m_thread_state (f t) = m_thread_state t → m_parent (f t) = m_parent t → m_base_priority (f t) = m_base_priority t →
  ∃ tree' k', (k ← on_thread x f k; insert_in_tree c x k) = Some k' ∧ sane k' ∧ threads k' = <[x := f t]> (threads k)
    ∧ thread_trees k' = <[c := tree']> (thread_trees k) ∧ tree' ≡ₚ x :: tree
    ∧ (∀ y, waits k' y = waits k y) ∧ ∀ y, prio k' y = prio k y.
Proof.
  intros Hk Et Hw Hc Ec Hw' Hh Hn Hc' Hst Hp Hb. pose proof Hk as [[L C S P] I].
  pose proof (proj1 (waits_None _ _ _ _ L Et) Hw) as Hwl.
  rewrite (set_at_once k x f t Et). cbn [mbind option_bind].
  set (k1 := with_threads (<[x := f t]> (threads k)) k).
  assert (∀ y, cv_key (threads k1) y = if decide (y = x) then m_condvar_key (f t) else cv_key (threads k) y) as Hkey.
  { intros y. unfold cv_key, k1. simpl. rewrite lookup_insert. by destruct (decide (x = y)), (decide (y = x)); subst. }
  assert (∀ e, e ∈ tree → e ≠ x) as Hx.
  { intros e He ->. apply (cv_tree _ _ _ C c tree x Ec) in He as (t0 & E0 & ?). congruence. }
  destruct (insert_in_tree_ok k1 c x tree (f t)) as (tree' & E & Hperm & Hs); [done|by unfold k1; simpl; rewrite lookup_insert_eq| | |].
  - intros e He. assert (is_Some (threads k !! e)) as [te Ee].
    { apply elem_of_cons in He as [->|He]; [by exists t|]. apply (cv_tree _ _ _ C c tree e Ec) in He as (te & ? & _). by exists te. }
    split; [unfold k1; simpl; rewrite lookup_insert; destruct (decide _); by eexists|]. exact (GetPriority_ok k e te S Ee).
  - eapply StronglySorted_ext; [|by eapply (cv_sorted _ _ _ C)]. intros a b Ha Hb'. unfold cv_le.
    rewrite !Hkey, !decide_False by (by apply Hx). done.
  - exists tree'. eexists. split; [exact E|].
    assert (∀ y, waits_on (<[x := f t]> (threads k)) (lock_infos k) y = waits k y) as Hwaits by (intros y; by apply idle_waits with t).
    split; [|by split_and!]. split; [split|].
    + by apply locks_ok_idle with t.
    + simpl. by eapply cvs_ok_joined.
    + pose proof (sched_ok_quiet k x t (f t) S Et) as [S1 S2 S3]; [split_and!; [done|done|lia]|]. by split.
    + intros y ty. cbn [threads with_threads with_trees k1]. intros [[<- <-]|[Hne E']]%lookup_insert_Some;
        [rewrite Hb; exact (P x t Et)|exact (P y ty E')].
    + intros y Hy. apply (due_ext k); try done.
      * simpl. rewrite lookup_insert. destruct (decide (x = y)) as [<-|]; [|done]. rewrite Et. simpl. by rewrite Hb.
      * apply I. simpl in Hy. rewrite lookup_insert in Hy. destruct (decide (x = y)) as [<-|]; [by exists t|done].
Qed.

Lemma leave_tree_in k x t c :
  sane k → threads k !! x = Some t → m_condvar_tree t = Some c →
  ∃ tree k', thread_trees k !! c = Some tree ∧ x ∈ tree ∧ leave_tree c x k = Some k' ∧ sane k'
    ∧ threads k' = <[x := set_condvar None (m_condvar_key t) t]> (threads k)
    ∧ thread_trees k' = <[c := filter (λ e, e ≠ x) tree]> (thread_trees k)
    ∧ (∀ y, waits k' y = waits k y) ∧ ∀ y, prio k' y = prio k y.
Proof.
  intros Hk Et Hc. pose proof Hk as [[L C S P] I]. destruct (cv_some _ _ _ C x t c Et Hc) as [tree Ec].
  assert (x ∈ tree) as Hx by (apply (cv_tree _ _ _ C c tree x Ec); by exists t).
  destruct (leave_tree_ok k x t c Hk Et) as (k' & E & Hs & Ht & Hw); [congruence|]. exists tree, k'. split; [done|]. split; [done|].
  split; [done|]. unfold leave_tree, erase_from_tree, ClearConditionVariable in E. rewrite Et in E. cbn [mbind option_bind] in E.
  rewrite Hc, Ec in E. cbn [mbind option_bind] in E. rewrite (list_erase_ok x tree Hx) in E. cbn [mbind option_bind] in E.
  rewrite (set_at_once _ x _ t) in E by done. injection E as <-. by split_and!.
Qed.

Lemma leave_tree_steps k x t c :
  threads k !! x = Some t → is_Some (m_condvar_tree t) →
  (k ← erase_from_tree c x k; ClearConditionVariable x k) = leave_tree c x k
  ∧ (k ← ClearConditionVariable x k; erase_from_tree c x k) = leave_tree c x k.
Proof.
  intros Et [c' Ec]. unfold leave_tree, ClearConditionVariable. rewrite Et. cbn [mbind option_bind]. rewrite Ec.
  split; [done|]. rewrite (set_at_once k x _ t Et). cbn [mbind option_bind]. unfold erase_from_tree. simpl.
  destruct (thread_trees k !! c) as [tree|]; [|done]. simpl. destruct (list_erase x tree) as [tr|]; [|done]. simpl.
  by rewrite (set_at_once _ x _ t).
Qed.
