(* ===== verification/SystemState.v ===== *)
(** A process's threads, memory and handles between the calls that synchronize threads: the
    invariant, and what every operation on the threads leaves in place. *)
From S2P Require Import Prelude Common Results AutoObject HandleTable HandleTableSpec PriorityQueue PriorityQueueLinks PriorityQueueSpec Thread ThreadLocks ThreadWaiters ThreadInherit ThreadHandover ThreadState ThreadOps ThreadWaits GuestMemory ConditionVariable AddressArbiter WaitInvariant.

Implicit Types (k : Kernel) (s : System).

(** * What stays *)

(** The calling thread stays the same, no thread and no tree goes. *)
Record kept k k' : Prop := {
  kp_cur : cur_thread k' = cur_thread k;
  kp_trees : dom (thread_trees k) ⊆ dom (thread_trees k');
  kp_threads : dom (threads k) ⊆ dom (threads k');
}.

#[global] Instance kept_preorder : PreOrder kept.
Proof. split; [by intros k|]. intros k1 k2 k3 [? ? ?] [? ? ?]. split; [congruence|set_solver..]. Qed.

Lemma kept_same k k' :
  cur_thread k' = cur_thread k → thread_trees k' = thread_trees k → threads k' = threads k → kept k k'.
Proof. intros ? E1 E2. split; [done|by rewrite E1|by rewrite E2]. Qed.

Lemma on_thread_kept x f k k' : on_thread x f k = Some k' → kept k k'.
Proof. intros (t & _ & [= <-])%bind_Some. split; [done..|]. simpl. rewrite dom_insert. set_solver. Qed.
Lemma with_trees_kept c tree k : kept k (with_trees (<[c := tree]> (thread_trees k)) k).
Proof. split; [done| |done]. simpl. rewrite dom_insert. set_solver. Qed.

Create HintDb kept discriminated.
#[export] Hint Constants Opaque : kept.
#[export] Hint Resolve on_thread_kept : kept.

Ltac keep :=
  steps;
  repeat (first [reflexivity
                |solve [by apply kept_same]
                |solve [apply with_trees_kept]
                |match goal with |- kept _ (if ?b then _ else _) => destruct b end
                |etrans; [|solve [typeclasses eauto 3 with kept]]
                |match goal with
                 | _ : _ = Some ?y |- kept _ ?g => lazymatch g with y => fail | context [y] => etrans; [|solve [by apply (kept_same y)]] end
                 | _ : _ = Some (_, ?y) |- kept _ ?g => lazymatch g with y => fail | context [y] => etrans; [|solve [by apply (kept_same y)]] end
                 end]).

Lemma erase_from_tree_kept c x k k' : erase_from_tree c x k = Some k' → kept k k'.
Proof. unfold erase_from_tree. intros H. keep. Qed.
Lemma insert_in_tree_kept c x k k' : insert_in_tree c x k = Some k' → kept k k'.
Proof. unfold insert_in_tree. intros H. keep. Qed.
Lemma SetPriority_kept x v k k' : SetPriority x v k = Some k' → kept k k'.
Proof. unfold SetPriority. intros H. keep. Qed.
Lemma IncrementScheduledCount_kept x k k' : IncrementScheduledCount x k = Some k' → kept k k'.
Proof. unfold IncrementScheduledCount. intros H. keep. Qed.
Lemma on_lock_kept l f k k' : on_lock l f k = Some k' → kept k k'.
Proof. unfold on_lock. intros H. keep. Qed.
#[export] Hint Resolve erase_from_tree_kept insert_in_tree_kept SetPriority_kept IncrementScheduledCount_kept on_lock_kept : kept.

Lemma OnThreadStateChanged_kept x o k k' : OnThreadStateChanged x o k = Some k' → kept k k'.
Proof. unfold OnThreadStateChanged. intros H. keep. Qed.
Lemma OnThreadPriorityChanged_kept x o k k' : OnThreadPriorityChanged x o k = Some k' → kept k k'.
Proof. unfold OnThreadPriorityChanged. intros H. keep. Qed.
#[export] Hint Resolve OnThreadStateChanged_kept OnThreadPriorityChanged_kept : kept.
Lemma SetState_kept x v k k' : SetState x v k = Some k' → kept k k'.
Proof. unfold SetState, store_state. intros H. keep. Qed.
Lemma AddHeldLock_kept x l k k' : AddHeldLock x l k = Some k' → kept k k'.
Proof. unfold AddHeldLock. intros H. keep. Qed.
Lemma erase_held_kept x l k k' : erase_held x l k = Some k' → kept k k'.
Proof. unfold erase_held. intros H. keep. Qed.
Lemma lock_AddWaiter_kept l w k k' : lock_AddWaiter l w k = Some k' → kept k k'.
Proof. unfold lock_AddWaiter. intros H. keep. Qed.
Lemma lock_RemoveWaiter_kept l w k b k' : lock_RemoveWaiter l w k = Some (b, k') → kept k k'.
Proof. unfold lock_RemoveWaiter. intros H. keep. Qed.
#[export] Hint Resolve SetState_kept AddHeldLock_kept erase_held_kept lock_AddWaiter_kept lock_RemoveWaiter_kept : kept.

Lemma AddWaiterImpl_kept x w k k' : AddWaiterImpl x w k = Some k' → kept k k'.
Proof. unfold AddWaiterImpl, lock_Create. intros H. keep. Qed.
Lemma RemoveWaiterImpl_kept x w k k' : RemoveWaiterImpl x w k = Some k' → kept k k'.
Proof. unfold RemoveWaiterImpl. intros H. keep. Qed.
Lemma change_priority_kept x v k k' : change_priority x v k = Some k' → kept k k'.
Proof. unfold change_priority. intros H. keep. Qed.
#[export] Hint Resolve AddWaiterImpl_kept RemoveWaiterImpl_kept change_priority_kept : kept.
Lemma restore_step_kept x v k o k' : restore_step x v k = Some (o, k') → kept k k'.
Proof. unfold restore_step. intros H. keep. Qed.
#[export] Hint Resolve restore_step_kept : kept.
Lemma RestorePriority_loop_kept fuel x k k' : RestorePriority_loop fuel x k = Some k' → kept k k'.
Proof.
  revert x k. induction fuel as [|fuel IH]; intros [x|] k; cbn [RestorePriority_loop]; intros H; keep.
Qed.
Lemma RestorePriority_kept x k k' : RestorePriority x k = Some k' → kept k k'.
Proof. apply RestorePriority_loop_kept. Qed.
#[export] Hint Resolve RestorePriority_kept : kept.
Lemma AddWaiter_kept x w k k' : AddWaiter x w k = Some k' → kept k k'.
Proof. unfold AddWaiter. intros H. keep. Qed.
Lemma RemoveWaiter_kept x w k k' : RemoveWaiter x w k = Some k' → kept k k'.
Proof. unfold RemoveWaiter. intros H. keep. Qed.
Lemma hand_over_kept x l k r k' : hand_over x l k = Some (r, k') → kept k k'.
Proof. unfold hand_over. intros H. keep. Qed.
#[export] Hint Resolve AddWaiter_kept RemoveWaiter_kept hand_over_kept : kept.
Lemma RemoveUserWaiterByKey_kept x key k r k' : RemoveUserWaiterByKey x key k = Some (r, k') → kept k k'.
Proof. unfold RemoveUserWaiterByKey, RemoveWaiterByKey. intros H. keep. Qed.
Lemma SetBasePriority_kept x v k k' : SetBasePriority x v k = Some k' → kept k k'.
Proof. unfold SetBasePriority. intros H. keep. Qed.
Lemma queue_EndWait_kept q x r k k' : queue_EndWait q x r k = Some k' → kept k k'.
Proof. unfold queue_EndWait, SetWaitResult, ClearWaitQueue, CancelTask. intros H. keep. Qed.
Lemma queue_CancelWait_kept q x r b k k' : queue_CancelWait q x r b k = Some k' → kept k k'.
Proof. unfold queue_CancelWait, SetWaitResult, ClearWaitQueue, CancelTask. intros H. keep. Qed.
Lemma leave_owner_kept x k k' : leave_owner x k = Some k' → kept k k'.
Proof. unfold leave_owner. intros H. keep. Qed.
Lemma leave_tree_kept c x k k' : leave_tree c x k = Some k' → kept k k'.
Proof. unfold leave_tree, ClearConditionVariable. intros H. keep. Qed.
#[export] Hint Resolve RemoveUserWaiterByKey_kept SetBasePriority_kept queue_EndWait_kept queue_CancelWait_kept
  leave_owner_kept leave_tree_kept : kept.
Lemma EndWait_kept x r k k' : EndWait x r k = Some k' → kept k k'.
Proof. unfold EndWait, dispatch_EndWait, SetWaitResult. intros H. keep. Qed.
Lemma dispatch_CancelWait_kept q x r b k k' : dispatch_CancelWait q x r b k = Some k' → kept k k'.
Proof. unfold dispatch_CancelWait. intros H. keep. Qed.
Lemma BeginWait_kept x q k k' : BeginWait x q k = Some k' → kept k k'.
Proof. unfold BeginWait. intros H. keep. Qed.
#[export] Hint Resolve EndWait_kept dispatch_CancelWait_kept BeginWait_kept : kept.
Lemma CancelWait_kept x r b k k' : CancelWait x r b k = Some k' → kept k k'.
Proof. unfold CancelWait. intros H. keep. Qed.
Lemma WaitCancel_kept x k k' : WaitCancel x k = Some k' → kept k k'.
Proof. unfold WaitCancel. intros H. keep. Qed.
#[export] Hint Resolve CancelWait_kept WaitCancel_kept : kept.

(** * The invariant *)

(** An object with a reference stays, with its class. *)
Definition alive (w w' : World) : Prop :=
  ∀ o obj, objects w !! o = Some obj → 0 < m_ref_count obj →
    ∃ obj', objects w' !! o = Some obj' ∧ 0 < m_ref_count obj' ∧ class_token obj' = class_token obj.

#[global] Instance alive_preorder : PreOrder alive.
Proof.
  split; [by intros w o obj ? ?; exists obj|]. intros w1 w2 w3 H1 H2 o obj Eo Hr.
  destruct (H1 o obj Eo Hr) as (o2 & E2 & Hr2 & Ec2). destruct (H2 o o2 E2 Hr2) as (o3 & ? & ? & ?).
  exists o3. split_and!; congruence.
Qed.

Lemma alive_inc o w : (∀ obj, objects w !! o = Some obj → 0 < m_ref_count obj) → alive w (inc o w).
Proof.
  intros H o' obj Eo Hr. simpl. rewrite lookup_alter. destruct (decide (o = o')) as [->|]; [|by exists obj].
  rewrite Eo. simpl. eexists. split; [done|]. simpl. split; [lia|done].
Qed.

Definition bytes (m : Memory) : Prop := map_Forall (λ _ b, in_width 8 b) m.

(** What the operations on a system change of it. *)
Record follows s s' : Prop := {
  fo_kernel : kept (kernel s) (kernel s');
  fo_table : handle_table s' = handle_table s;
  fo_world : alive (world s) (world s');
  fo_memory : bytes (memory s) → bytes (memory s');
}.

#[global] Instance follows_preorder : PreOrder follows.
Proof.
  split; [by intros s|]. intros s1 s2 s3 [K1 T1 W1 M1] [K2 T2 W2 M2]. split; [by etrans|congruence|by etrans|auto].
Qed.

Lemma follows_kernel k s : kept (kernel s) k → follows s (with_kernel k s).
Proof. by split. Qed.
Lemma follows_world w s : alive (world s) w → follows s (with_world w s).
Proof. by split. Qed.
Lemma byte_of_range d i : in_width 8 (byte_of d i).
Proof.
  unfold byte_of. change 255 with (Z.ones 8). rewrite Z.land_ones by lia. unfold in_width.
  apply Z.mod_pos_bound. lia.
Qed.
Lemma follows_write a d s : follows s (with_memory (Write32 a d (memory s)) s).
Proof.
  split; try done. simpl. intros H. unfold Write32. destruct (accessible _ _); [|done].
  repeat (apply map_Forall_insert_2; [apply byte_of_range|]). exact H.
Qed.

Definition thread_class : Z := KClassTokenGenerator.ClassToken KClassTokenGenerator.KThread.

(** In order but for the way in which the thread [o] waits. *)
Record system_but (cv arb : Z) (o : option Z) s : Prop := {
  so_calm : calm_but cv arb o (kernel s);
  so_trees : cv ≠ arb ∧ is_Some (thread_trees (kernel s) !! cv) ∧ is_Some (thread_trees (kernel s) !! arb);
  so_table : table_ok (handle_table s);
  so_handles : ∀ h o, in_width 32 h → valid_at (handle_table s) h o →
    ∃ obj, objects (world s) !! o = Some obj ∧ 0 < m_ref_count obj
      ∧ (KClassTokenGenerator.IsDerivedFrom (class_token obj) thread_class = true → is_Some (threads (kernel s) !! o));
  so_bytes : bytes (memory s);
}.
Definition system_ok (cv arb : Z) s : Prop := system_but cv arb None s.

Lemma system_follows cv arb b b' s s' :
  system_but cv arb b s → follows s s' → calm_but cv arb b' (kernel s') → system_but cv arb b' s'.
Proof.
  intros [Hc (Hne & Ht1 & Ht2) Ht Hh Hm] [[K1 K2 K3] T W M] Hc'. rewrite <-elem_of_dom in Ht1, Ht2.
  split; [done|rewrite <-!elem_of_dom; set_solver|by rewrite T| |auto].
  intros h o Hw. rewrite T. intros Hv. destruct (Hh h o Hw Hv) as (obj & Eo & Hr & Hd).
  destruct (W o obj Eo Hr) as (obj' & Eo' & Hr' & Ec). exists obj'. split; [done|]. split; [done|].
  rewrite Ec, <-elem_of_dom. intros H%Hd. rewrite <-elem_of_dom in H. set_solver.
Qed.

(** The counts of references leave room for one more. *)
Definition room s : Prop := ∀ o obj, objects (world s) !! o = Some obj → m_ref_count obj + 1 < 2 ^ 32.

Lemma GetObjectImpl_found t h :
  table_ok t → in_width 32 h → ∃ o, GetObjectImpl h t = Some o ∧ (o ≠ 0 → valid_at t h o).
Proof.
  intros Ht Hh. assert (∃ o, GetObjectImpl h t = Some o) as [o E].
  { destruct (Z.eqb_spec (HandlePack.reserved h) 0) as [Hr|Hr].
    - destruct (IsValidHandle_spec t h Ht Hh Hr) as ([] & E & Hv).
      + destruct (proj1 Hv eq_refl) as [o Ho]. exists o. by apply GetObjectImpl_valid.
      + exists 0. unfold GetObjectImpl. rewrite (proj2 (Z.eqb_eq _ _) Hr). cbn [negb]. by rewrite E.
    - exists 0. unfold GetObjectImpl. by rewrite (proj2 (Z.eqb_neq _ _) Hr). }
  exists o. split; [done|]. by apply GetObjectImpl_inv.
Qed.

(** A handle leads to a thread, whose count is one more for it, or to nothing. *)
Lemma GetThreadByHandle_ok cv arb but s h :
  system_but cv arb but s → room s → in_width 32 h →
  (GetThreadByHandle h s = Some (0, s) ∧ ∀ o obj, valid_at (handle_table s) h o → objects (world s) !! o = Some obj →
     KClassTokenGenerator.IsDerivedFrom (class_token obj) thread_class = false)
  ∨ ∃ o, o ≠ 0 ∧ valid_at (handle_table s) h o ∧ is_Some (threads (kernel s) !! o) ∧ live 1 (world s) o
      ∧ GetThreadByHandle h s = Some (o, with_world (inc o (world s)) s) ∧ follows s (with_world (inc o (world s)) s).
Proof.
  intros Hs Hroom Hh. assert (with_world (world s) s = s) as Hid by by destruct s.
  pose proof (so_table _ _ _ _ Hs) as Ht. unfold GetThreadByHandle, GetObjectWithoutPseudoHandle.
  change (KClassTokenGenerator.ClassToken _ =? _) with false. cbv iota. fold thread_class.
  destruct (GetObjectImpl_found _ h Ht Hh) as (o & E & Ho). rewrite E. cbn [mbind option_bind].
  destruct (Z.eqb_spec o 0) as [->|Hne]; cbn [negb].
  { left. unfold Scoped. simpl. rewrite Hid. split; [done|]. intros o obj Hv. pose proof (GetObjectImpl_valid _ _ _ Ht Hh Hv) as E'.
    rewrite E in E'. injection E' as <-. by destruct Hv as (_ & _ & _ & _ & ? & _). }
  pose proof (Ho Hne) as Hv. destruct (so_handles _ _ _ _ Hs h o Hh Hv) as (obj & Eo & Hr & Hd).
  unfold DynamicCast, IsDerivedFrom. rewrite Eo. cbn [mbind option_bind].
  destruct (KClassTokenGenerator.IsDerivedFrom _ _) eqn:Ed.
  - right. exists o. pose proof (Hroom o obj Eo) as Hro. assert (live 1 (world s) o) as Hl by (by exists obj).
    unfold Scoped. rewrite (proj2 (Z.eqb_neq _ _) Hne). cbn [negb]. rewrite (Open_inc 1) by (done || lia).
    split_and!; try done; [by apply Hd|]. apply follows_world, alive_inc. intros obj' Eo'. congruence.
  - left. unfold Scoped. simpl. rewrite Hid. split; [done|]. intros o' obj' Hv' Eo'.
    rewrite (valid_at_fun _ _ _ _ Hv' Hv), Eo in Eo'. by injection Eo' as <-.
Qed.

(** * Cancelled waits *)
Section cancel.
Context (cv arb : Z).

Lemma cancelled_calm k k' x r t q :
  calm cv arb k → threads k !! x = Some t → GetState t = ThreadState.Waiting → m_wait_queue t = Some q →
  cancelled k k' x r t q → calm cv arb k'.
Proof.
  intros [Hs H] Et Hst Hq [Hs' (t' & Et' & Hr & _ & _ & _ & Hc) Hl _ Ho]. split; [done|]. intros y ty _ Ey.
  destruct (decide (y = x)) as [->|Hne].
  - rewrite Et' in Ey. injection Ey as <-. unfold waiting_ok. rewrite Hr. simpl. rewrite Hc, Hl.
    specialize (H x t ltac:(done) Et). unfold waiting_ok in H. rewrite Hst, Z.eqb_refl in H. destruct H as (q' & Hq' & H).
    rewrite Hq in Hq'. injection Hq' as <-. unfold leaves_tree, leaves_lock. destruct (q_class q); naive_solver.
  - destruct (Ho y Hne) as [Hco ->]. rewrite Ey in Hco. symmetry in Hco. apply fmap_Some in Hco as (ty0 & Ey0 & Hct).
    apply (waiting_ok_core cv arb _ ty0); [done|by apply H].
Qed.

Lemma waiting_cancellable k x t :
  calm cv arb k → threads k !! x = Some t → GetState t = ThreadState.Waiting → waits_well k x t.
Proof. intros [_ H] Et Hs. apply (waiting_waits_well cv arb); [by apply H|done]. Qed.

Lemma OnTimer_calm k x t :
  calm cv arb k → threads k !! x = Some t → ∃ k', OnTimer x k = Some k' ∧ calm cv arb k' ∧ kept k k'.
Proof.
  intros Hk Et. destruct (CancelWait_ok k x t ResultTimedOut false (proj1 Hk) Et) as (k' & E & H);
    [by eapply waiting_cancellable|].
  exists k'. split; [done|]. split; [|by eapply CancelWait_kept].
  destruct (Z.eqb_spec (GetState t) ThreadState.Waiting) as [Hs|]; [|by subst].
  destruct H as (q & Hq & H). by eapply cancelled_calm.
Qed.

Lemma WaitCancel_calm k x t :
  calm cv arb k → threads k !! x = Some t → ∃ k', WaitCancel x k = Some k' ∧ calm cv arb k' ∧ kept k k'.
Proof.
  intros Hk Et. destruct (WaitCancel_ok k x t (proj1 Hk) Et) as (k' & E & Hs' & H); [by eapply waiting_cancellable|].
  exists k'. split; [done|]. split; [|by eapply WaitCancel_kept].
  destruct (_ && _) eqn:Eb.
  - apply andb_true_iff in Eb as [Hs%Z.eqb_eq _]. destruct H as (q & Hq & H). by eapply cancelled_calm.
  - eapply calm_only; [exact Hk|exact H|]. intros _. destruct Hk as [_ Hk]. by apply (Hk x t).
Qed.
End cancel.
