(* ===== verification/ConditionVariableOps.v ===== *)
(** What the operations on locks, condition variables and address arbiters do to a system that
    is in order: they return, and leave it in order. *)
From stdpp Require Import sorting.
From S2P Require Import Prelude Common Results AutoObject HandleTable HandleTableSpec PriorityQueue PriorityQueueLinks PriorityQueueSpec Thread ThreadLocks ThreadWaiters ThreadInherit ThreadHandover ThreadState ThreadOps ThreadWaits GuestMemory ConditionVariable AddressArbiter WaitInvariant SystemState.

Implicit Types (k : Kernel) (s : System).

(** * A lock is released *)

(** A thread that has been woken with the result [r]. *)
Definition awake (r : Z) (t : KThread) : Prop :=
  GetState t = ThreadState.Runnable ∧ m_wait_result t = r ∧ m_wait_queue t = None.

(** The lock of [x] at [addr] goes to [o], which is woken and of whose word the tag is made. *)
Record passed_on k k' (x addr r value o : Z) (rest : list Z) : Prop := {
  po_waiters : ∀ w, w ∈ o :: rest → waits_at k x addr w;
  po_first : ∀ w, w ∈ rest → prio k o ≤ prio k w;
  po_nodup : NoDup (o :: rest);
  po_owner : ∃ t t', threads k !! o = Some t ∧ threads k' !! o = Some t' ∧ awake r t'
    ∧ value = if decide (rest = []) then m_address_key_value t else Z.lor (m_address_key_value t) HandleWaitMask;
  po_waits : ∀ y, waits k' y = if decide (y = o) then None else if decide (y ∈ rest) then Some o else waits k y;
  po_others : ∀ y, y ≠ o → core <$> threads k' !! y = core <$> threads k !! y;
}.

Definition released k k' (x addr r value : Z) : Prop :=
  (k' = k ∧ value = 0 ∧ ∀ w, ¬ waits_at k x addr w) ∨ ∃ o rest, passed_on k k' x addr r value o rest.

Section ops.
Context (cv arb : Z).
#[local] Notation calm := (calm cv arb).
#[local] Notation calm_but := (calm_but cv arb).

Lemma ended_awake t r q :
  GetState t = ThreadState.Waiting → m_wait_queue t = Some q → awake r (ended_thread t r).
Proof.
  intros Hs Hq. unfold ended_thread. rewrite Hs, Z.eqb_refl, Hq. split_and!; [|done|done].
  unfold GetState. simpl. by rewrite next_state_land.
Qed.

(** The steps of [SignalToAddress] and [Wait] that concern the threads. *)
Lemma release_ok k x t addr :
  calm k → threads k !! x = Some t →
  ∃ next more k1 value, RemoveUserWaiterByKey x addr k = Some (next, more, k1) ∧ next_tag next more k1 = Some value
    ∧ ∀ r, ∃ k2, match next with Some o => EndWait o r k1 | None => Some k1 end = Some k2
        ∧ calm k2 ∧ kept k k2 ∧ released k k2 x addr r value.
Proof.
  intros Hk Et. destruct (RemoveUserWaiter_calm cv arb k x t addr Hk Et) as [[E Hn]|(o & to & rest & k1 & E & Ha)].
  - exists None, false, k, 0. split; [done|]. split; [done|]. intros r. exists k. split_and!; try done. by left.
  - exists (Some o), (negb (bool_decide (rest = []))), k1. pose proof Ha as [Hc Eo (Hs & Hcv & q & Eq & Hq) Hco Hw Hws Hf Hnd].
    unfold next_tag. rewrite Eo. cbn [mbind option_bind]. eexists. split; [done|]. split; [done|]. intros r.
    assert (waits k1 o = None) as Hwo by by rewrite Hw, decide_True.
    destruct (EndWait_calm cv arb k1 o to r Hc Eo Hcv Hwo) as (k2 & E2 & Hc2 & Ho).
    { intros q' Eq'. congruence. }
    exists k2. split; [done|]. split; [done|].
    split; [etrans; [by eapply RemoveUserWaiterByKey_kept|by eapply EndWait_kept]|]. right. exists o, rest.
    destruct (same_core_inv _ _ _ _ Hco Eo) as (t0 & E0 & Hct). split; try done.
    + exists t0, (ended_thread to r). split; [done|]. split; [by rewrite (only_lookup _ _ _ _ o Ho), decide_True|].
      split; [by eapply ended_awake|]. assert (m_address_key_value to = m_address_key_value t0) as -> by by injection Hct.
      case_bool_decide; [by rewrite decide_True|by rewrite decide_False].
    + intros y. rewrite (on_waits _ _ _ _ Ho). apply Hw.
    + intros y Hy. rewrite (only_lookup _ _ _ _ y Ho), decide_False by done. apply Hco.
Qed.

Lemma SignalToAddress_ok s t addr :
  system_ok cv arb s → get_thread (cur s) s = Some t →
  ∃ k value, KConditionVariable.SignalToAddress addr s
      = Some (ResultSuccess, with_memory (Write32 addr value (memory s)) (with_kernel k s))
    ∧ released (kernel s) k (cur s) addr ResultSuccess value
    ∧ calm k ∧ kept (kernel s) k.
Proof.
  intros Hs Et. destruct (release_ok (kernel s) (cur s) t addr (so_calm _ _ _ _ Hs) Et) as (next & more & k1 & value & E & Ev & H).
  destruct (H ResultSuccess) as (k2 & E2 & Hc & Hk & Hr). exists k2, value. split; [|done].
  unfold KConditionVariable.SignalToAddress. rewrite E. cbn [mbind option_bind]. rewrite Ev. cbn [mbind option_bind].
  unfold WriteToUser. cbv beta iota zeta. unfold on_kernel. simpl.
  destruct next as [o|]; [rewrite E2|injection E2 as ->]; done.
Qed.
End ops.

(** * A thread goes to sleep *)

(** The calling thread as it sleeps with the queue [q]. *)
Definition asleep (q : KThreadQueue) (t : KThread) : Prop :=
  GetState t = ThreadState.Waiting ∧ m_wait_queue t = Some q.

(** [x] sleeps with [q] and waits for [w]; nobody else is concerned. *)
Record put_to_sleep k k' (x : Z) (q : KThreadQueue) (w : option Z) (t' : KThread) : Prop := {
  ps_thread : threads k' !! x = Some t';
  ps_asleep : asleep q t';
  ps_waits : ∀ y, waits k' y = if decide (y = x) then w else waits k y;
  ps_others : ∀ y, y ≠ x → core <$> threads k' !! y = core <$> threads k !! y;
}.

Section sleeping.
Context (cv arb : Z) (k : Kernel) (x : Z) (t : KThread).
Context (Hk : calm cv arb k) (Et : threads k !! x = Some t) (Hrun : GetState t ≠ ThreadState.Waiting).

Lemma running_free : m_condvar_tree t = None ∧ waits k x = None ∧ m_waiting_lock_info t = None.
Proof using All.
  destruct (not_waiting cv arb (waits k x) t) as [H1 H2]; [by apply Hk|done|]. split; [done|]. split; [done|].
  by apply (waits_None _ _ _ _ (ko_locks k (sn_ok k (proj1 Hk))) Et).
Qed.

Lemma fell_asleep k1 k2 q w t1 :
  calm_but cv arb (Some x) k1 → threads k1 !! x = Some t1 → waits k1 x = w →
  match q_class q with
  | WaitForAddress | LightLock => is_Some w ∧ m_condvar_tree t1 = None
  | WaitConditionVariable c =>
      c = cv ∧ (m_condvar_tree t1 = Some cv ∧ w = None ∨ m_condvar_tree t1 = None ∧ is_Some w)
  | AddressArbiter c => c = arb ∧ m_condvar_tree t1 = Some arb ∧ w = None
  | ThreadSleep => m_condvar_tree t1 = None ∧ w = None
  end →
  (∀ y, y ≠ x → waits k1 y = waits k y ∧ core <$> threads k1 !! y = core <$> threads k !! y) →
  ∃ k2, BeginWait x q k1 = Some k2 ∧ calm cv arb k2
    ∧ put_to_sleep k k2 x q w (set_wait (m_wait_cancelled t1) (m_wait_result t1) (Some q) (in_state (next_state t1 ThreadState.Waiting) t1)).
Proof using All.
  intros Hc E1 Hw Hq Hoth. destruct (BeginWait_calm cv arb k1 x t1 q Hc E1) as (k2' & E & Hc2 & Ho); [by rewrite Hw|].
  exists k2'. split; [done|]. split; [done|]. split.
  - by rewrite (only_lookup _ _ _ _ x Ho), decide_True.
  - split; [|done]. unfold GetState. simpl. by rewrite next_state_land.
  - intros y. rewrite (on_waits _ _ _ _ Ho). destruct (decide (y = x)) as [->|Hne]; [done|by apply Hoth].
  - intros y Hne. rewrite (only_lookup _ _ _ _ y Ho), decide_False by done. by apply Hoth.
Qed.

(** ... behind the owner of a lock. *)
Lemma block_on_owner owner addr value :
  is_Some (threads k !! owner) →
  ∃ k1 k2 k3 t', SetUserAddressKey x addr value k = Some k1 ∧ AddWaiter owner x k1 = Some k2
    ∧ BeginWait x (MkQueue WaitForAddress false) k2 = Some k3
    ∧ calm cv arb k3 ∧ kept k k1 ∧ kept k1 k2 ∧ kept k2 k3
    ∧ put_to_sleep k k3 x (MkQueue WaitForAddress false) (Some owner) t'
    ∧ m_address_key t' = addr ∧ m_address_key_value t' = value ∧ m_is_kernel_address_key t' = false.
Proof using All.
  intros Ho. destruct running_free as (Hcv & Hw & Hl). unfold SetUserAddressKey. rewrite Et. cbn [mbind option_bind].
  rewrite check_bind_Some by by rewrite Hl.
  destruct (rekey_only k x t (set_address_key addr value false)) as (k1 & E1 & H1); try done; [apply Hk|].
  set (t1 := set_address_key addr value false t) in *.
  assert (calm_but cv arb (Some x) k1) as Hc1 by (eapply calm_only; [by apply calm_but_weaken|exact H1|done]).
  assert (threads k1 !! x = Some t1) as Et1 by by rewrite (only_lookup _ _ _ _ x H1), decide_True.
  destruct (AddWaiter_calm cv arb k1 owner x t1 Hc1) as (k2 & t2 & E2 & Hc2 & Et2 & Hct & Hw2 & R); [|done|done|by rewrite (on_waits _ _ _ _ H1)|].
  { rewrite (only_lookup _ _ _ _ owner H1). destruct (decide _); [by eexists|done]. }
  destruct (fell_asleep k2 k2 (MkQueue WaitForAddress false) (Some owner) t2 Hc2 Et2 Hw2) as (k3 & E3 & Hc3 & Hps).
  { split; [by eexists|]. by injection Hct as _ _ _ _ _ _ _ _ _ _ _ _ ->. }
  { intros y Hne. destruct R as [_ Hco ->]. rewrite decide_False by done. split; [apply (on_waits _ _ _ _ H1)|].
    by rewrite Hco, (only_lookup _ _ _ _ y H1), decide_False. }
  exists k1, k2, k3. eexists. split; [done|]. split; [done|]. split; [done|]. split; [done|].
  split; [by eapply on_thread_kept|]. split; [by eapply AddWaiter_kept|]. split; [by eapply BeginWait_kept|].
  split; [exact Hps|]. simpl. injection Hct. intros. by split_and!.
Qed.
End sleeping.

Section blocking.
Context (cv arb : Z).

Lemma WaitForAddress_ok s t handle addr value :
  system_ok cv arb s → room s → in_width 32 handle → get_thread (cur s) s = Some t → GetState t ≠ ThreadState.Waiting →
  if IsTerminationRequested t then
    KConditionVariable.WaitForAddress handle addr value s = Some (Returns ResultTerminationRequested, None, s)
  else if negb (Read32 addr (memory s) =? Z.lor handle HandleWaitMask) then
    KConditionVariable.WaitForAddress handle addr value s = Some (Returns ResultSuccess, None, s)
  else
    (KConditionVariable.WaitForAddress handle addr value s = Some (Returns ResultInvalidHandle, None, s)
     ∧ ∀ o obj, valid_at (handle_table s) handle o → objects (world s) !! o = Some obj →
         KClassTokenGenerator.IsDerivedFrom (class_token obj) thread_class = false)
    ∨ ∃ o k t', valid_at (handle_table s) handle o
        ∧ KConditionVariable.WaitForAddress handle addr value s
          = Some (Sleeps, Some o, with_kernel k (with_world (inc o (world s)) s))
        ∧ put_to_sleep (kernel s) k (cur s) (MkQueue WaitForAddress false) (Some o) t'
        ∧ m_address_key t' = addr ∧ m_address_key_value t' = value ∧ m_is_kernel_address_key t' = false
        ∧ system_ok cv arb (with_kernel k (with_world (inc o (world s)) s)).
Proof.
  intros Hs Hroom Hh Et Hrun. unfold KConditionVariable.WaitForAddress. rewrite Et. cbn [mbind option_bind].
  destruct (IsTerminationRequested t); [done|]. unfold ReadFromUser. cbn [negb].
  destruct (negb (_ =? _)); [done|].
  destruct (GetThreadByHandle_ok cv arb None s handle Hs Hroom Hh) as [[E Hn]|(o & Hne & Hv & Ho & Hl & E & Hf)];
    rewrite E; cbn [mbind option_bind]; [by left|right].
  rewrite (proj2 (Z.eqb_neq _ _) Hne).
  destruct (block_on_owner cv arb (kernel s) (cur s) t (so_calm _ _ _ _ Hs) Et Hrun o addr value Ho)
    as (k1 & k2 & k3 & t' & E1 & E2 & E3 & Hc & K1 & K2 & K3 & Hp & Ha & Hb & Hu).
  unfold on_kernel, cur in *. simpl. rewrite E1. simpl. rewrite (kp_cur _ _ K1), E2. simpl.
  rewrite (kp_cur _ _ K2), (kp_cur _ _ K1), E3. simpl. exists o, k3, t'. split_and!; try done.
  eapply system_follows; [exact Hs| |exact Hc]. etrans; [exact Hf|]. apply (follows_kernel k3 (with_world (inc o (world s)) s)).
  simpl. etrans; [exact K1|]. by etrans.
Qed.
End blocking.

(** * A thread is signalled *)
Section signalling.
Context (cv arb : Z) `{AutoObjectMethods}.

(** What becomes of the thread [x], which was [t], when the lock it wants is free, when it
    goes on waiting for the lock's owner and when there is no such owner. *)
Definition relocked s s' (x : Z) (t : KThread) : Prop :=
  let prev := Read32 (m_address_key t) (memory s) in
  let tag := Z.land prev (lnotw 32 HandleWaitMask) in
  ∃ t', threads (kernel s') !! x = Some t' ∧
  if prev =? 0 then awake ResultSuccess t' ∧ waits (kernel s') x = None
  else (∃ o, valid_at (handle_table s) tag o ∧ is_Some (threads (kernel s) !! o) ∧ core t' = core t
             ∧ waits (kernel s') x = Some o)
    ∨ (awake ResultInvalidState t' ∧ waits (kernel s') x = None
       ∧ ∀ o obj, valid_at (handle_table s) tag o → objects (world s) !! o = Some obj →
           KClassTokenGenerator.IsDerivedFrom (class_token obj) thread_class = false).

Record signalled s s' (x : Z) (t : KThread) : Prop := {
  sg_ok : system_ok cv arb s';
  sg_follows : follows s s';
  sg_memory : memory s' = Write32 (m_address_key t)
    (if Read32 (m_address_key t) (memory s) =? 0 then m_address_key_value t
     else Z.lor (Read32 (m_address_key t) (memory s)) HandleWaitMask) (memory s);
  sg_world : world s' = world s;
  sg_thread : relocked s s' x t;
  sg_others : ∀ y, y ≠ x → waits (kernel s') y = waits (kernel s) y
    ∧ core <$> threads (kernel s') !! y = core <$> threads (kernel s) !! y;
}.

Lemma tag_in_width m a : bytes m → in_width 32 (Z.land (Read32 a m) (lnotw 32 HandleWaitMask)).
Proof using. intros Hm. apply land_in_width; [done|by apply Read32_range]. Qed.

(** The thread is no longer in the tree of the condition variable, but it has not been dealt with. *)
Definition removed k (x : Z) (t : KThread) : Prop :=
  threads k !! x = Some t ∧ m_condvar_tree t = None ∧ waits k x = None ∧ GetState t = ThreadState.Waiting
  ∧ ∃ q, m_wait_queue t = Some q ∧ q_class q = WaitConditionVariable cv.

(** The thread is woken. *)
Lemma woken_ok s s1 x t r :
  system_but cv arb (Some x) s → removed (kernel s) x t → follows s s1 → kernel s1 = kernel s →
  ∃ k, on_kernel (EndWait x r) s1 = Some (with_kernel k s1) ∧ system_ok cv arb (with_kernel k s1)
    ∧ follows s (with_kernel k s1)
    ∧ (∃ t', threads k !! x = Some t' ∧ awake r t' ∧ waits k x = None)
    ∧ ∀ y, y ≠ x → waits k y = waits (kernel s) y ∧ core <$> threads k !! y = core <$> threads (kernel s) !! y.
Proof using.
  intros Hs (Et & Hcv & Hw & Hst & q & Hq & Hqc) Hf Hk. unfold on_kernel. rewrite Hk.
  destruct (EndWait_calm cv arb (kernel s) x t r (so_calm _ _ _ _ Hs) Et Hcv Hw) as (k & E & Hc & Ho).
  { intros q' Eq'. rewrite Hq in Eq'. injection Eq' as <-. by rewrite Hqc. }
  rewrite E. exists k. split; [done|]. assert (follows s (with_kernel k s1)) as Hf'.
  { etrans; [exact Hf|]. apply follows_kernel. rewrite Hk. by eapply EndWait_kept. }
  split; [by eapply system_follows|]. split; [done|]. split.
  - exists (ended_thread t r). split; [by rewrite (only_lookup _ _ _ _ x Ho), decide_True|].
    split; [by eapply ended_awake|]. by rewrite (on_waits _ _ _ _ Ho).
  - intros y Hy. rewrite (on_waits _ _ _ _ Ho), (only_lookup _ _ _ _ y Ho), decide_False by done. done.
Qed.

Lemma SignalImpl_ok s x t :
  system_but cv arb (Some x) s → room s → removed (kernel s) x t →
  ∃ s', KConditionVariable.SignalImpl x s = Some s' ∧ signalled s s' x t.
Proof using All.
  intros Hs Hroom Hr. pose proof Hr as (Et & Hcv & Hw & Hst & q & Hq & Hqc).
  unfold KConditionVariable.SignalImpl, get_thread. rewrite Et. cbn [mbind option_bind]. unfold UpdateLockAtomic. cbv beta iota zeta.
  set (prev := Read32 (m_address_key t) (memory s)).
  set (s1 := with_memory _ s). assert (follows s s1) as Hf1 by apply follows_write.
  unfold InvalidHandle. destruct (Z.eqb_spec prev 0) as [Hz|Hz].
  { destruct (woken_ok s s1 x t ResultSuccess Hs Hr Hf1 eq_refl) as (k & -> & Hok & Hf & (t' & E' & Ha & Hw') & Hoth).
    eexists. split; [done|]. split; try done; fold prev.
    - by rewrite (proj2 (Z.eqb_eq _ _) Hz).
    - exists t'. fold prev. by rewrite (proj2 (Z.eqb_eq _ _) Hz). }
  assert (system_but cv arb (Some x) s1) as Hs1 by (eapply system_follows; [exact Hs|exact Hf1|apply Hs]).
  set (tag := Z.land prev (lnotw 32 HandleWaitMask)).
  assert (in_width 32 tag) as Htag by apply tag_in_width, Hs.
  destruct (GetThreadByHandle_ok cv arb (Some x) s1 tag Hs1 Hroom Htag) as [[E Hn]|(o & Hne & Hv & Ho & Hl & E & Hf)];
    rewrite E; cbn [mbind option_bind].
  { simpl negb. cbv iota.
    destruct (woken_ok s s1 x t ResultInvalidState Hs Hr Hf1 eq_refl) as (k & -> & Hok & Hf & (t' & E' & Ha & Hw') & Hoth).
    eexists. split; [done|]. split; try done; fold prev.
    - by rewrite (proj2 (Z.eqb_neq _ _) Hz).
    - exists t'. fold prev. rewrite (proj2 (Z.eqb_neq _ _) Hz). split; [done|]. by right. }
  rewrite (proj2 (Z.eqb_neq _ _) Hne). cbn [negb]. unfold on_kernel. simpl.
  destruct (AddWaiter_calm cv arb (kernel s) o x t (so_calm _ _ _ _ Hs) Ho Et Hcv Hw) as (k2 & t2 & E2 & Hc2 & Et2 & Hct & Hw2 & R).
  rewrite E2. simpl. rewrite Close_inc by done. simpl. eexists. split; [done|].
  set (s2 := with_world _ _). assert (follows s s2) as Hf2.
  { split; [by eapply AddWaiter_kept|done|done|]. apply Hf1. }
  split; fold prev; rewrite ?(proj2 (Z.eqb_neq _ _) Hz); try done.
  - eapply system_follows; [exact Hs|exact Hf2|]. split; [apply Hc2|]. intros y ty _ Ey.
    destruct (decide (y = x)) as [->|Hny]; [|apply Hc2; [congruence|done]]. simpl in Ey. rewrite Et2 in Ey. injection Ey as <-.
    eapply waiting_ok_core; [exact Hct|]. unfold waiting_ok. rewrite Hst, Z.eqb_refl. exists q. split; [done|]. rewrite Hqc.
    split; [done|]. right. split; [done|]. exists o. exact Hw2.
  - exists t2. split; [done|]. fold prev. rewrite (proj2 (Z.eqb_neq _ _) Hz). left. by exists o.
  - intros y Hy. simpl. destruct R as [_ Hco ->]. rewrite decide_False by done. split; [done|apply Hco].
Qed.

(** ** The loop *)

(** A thread that waits in the tree leaves it. *)
Lemma left_tree s x t c :
  system_ok cv arb s → threads (kernel s) !! x = Some t → m_condvar_tree t = Some c →
  ∃ tree k', thread_trees (kernel s) !! c = Some tree ∧ x ∈ tree ∧ leave_tree c x (kernel s) = Some k'
    ∧ system_but cv arb (Some x) (with_kernel k' s) ∧ follows s (with_kernel k' s)
    ∧ threads k' = <[x := set_condvar None (m_condvar_key t) t]> (threads (kernel s))
    ∧ (∀ y, waits k' y = waits (kernel s) y)
    ∧ thread_trees k' = <[c := filter (λ e, e ≠ x) tree]> (thread_trees (kernel s)) ∧ ∀ y, prio k' y = prio (kernel s) y.
Proof using.
  intros Hs Et Ec. pose proof (so_calm _ _ _ _ Hs) as [Hk Hw].
  destruct (leave_tree_in _ x t c Hk Et Ec) as (tree & k' & Etr & Hin & E & Hs' & Ht & Htr & Hw' & Hp').
  exists tree, k'. assert (follows s (with_kernel k' s)) as Hf by (apply follows_kernel; by eapply leave_tree_kept).
  split_and!; try done. eapply system_follows; [exact Hs|exact Hf|]. split; [done|]. intros y ty Hy Ey. simpl in *.
  rewrite Ht, lookup_insert_ne in Ey by congruence. rewrite Hw'. by apply Hw.
Qed.

(** [x] has been dealt with in one turn. *)
Record turned s s' (x : Z) : Prop := {
  tu_ok : system_ok cv arb s';
  tu_follows : follows s s';
  tu_world : world s' = world s;
  tu_thread : ∃ t', threads (kernel s') !! x = Some t' ∧ m_condvar_tree t' = None
    ∧ (awake ResultSuccess t' ∧ waits (kernel s') x = None ∨ awake ResultInvalidState t' ∧ waits (kernel s') x = None
       ∨ GetState t' = ThreadState.Waiting ∧ is_Some (waits (kernel s') x));
  tu_others : ∀ y, y ≠ x → waits (kernel s') y = waits (kernel s) y
    ∧ core <$> threads (kernel s') !! y = core <$> threads (kernel s) !! y;
}.

Lemma Signal_turn s x t :
  system_ok cv arb s → room s → threads (kernel s) !! x = Some t → m_condvar_tree t = Some cv →
  ∃ s1 s2 s', on_kernel (erase_from_tree cv x) s = Some s1 ∧ on_kernel (ClearConditionVariable x) s1 = Some s2
    ∧ KConditionVariable.SignalImpl x s2 = Some s' ∧ turned s s' x.
Proof using All.
  intros Hs Hroom Et Ec. pose proof (so_calm _ _ _ _ Hs) as [_ Hwk].
  destruct (left_tree s x t cv Hs Et Ec) as (tree & k' & _ & _ & E & Hs' & Hf & Ht & Hw & _ & _).
  destruct (leave_tree_steps (kernel s) x t cv Et) as [Hst _]; [by eexists|]. rewrite E in Hst.
  apply bind_Some in Hst as (k1 & E1 & E2).
  destruct (waiting_in_tree cv arb _ t cv (Hwk x t ltac:(done) Et) Ec) as (H1 & H2 & q & Hq & Hqc).
  assert (q_class q = WaitConditionVariable cv) as Hqc'.
  { destruct Hqc as [[_ ?]|[? _]]; [done|]. by destruct (so_trees _ _ _ _ Hs). }
  destruct (SignalImpl_ok (with_kernel k' s) x (set_condvar None (m_condvar_key t) t) Hs' Hroom) as (s' & E3 & S).
  { split; [by simpl; rewrite Ht, lookup_insert_eq|]. split; [done|]. simpl. rewrite Hw. split; [done|]. split; [done|]. by exists q. }
  exists (with_kernel k1 s), (with_kernel k' s), s'. unfold on_kernel. rewrite E1. split; [done|]. simpl. rewrite E2. split; [done|].
  split; [done|]. destruct S as [S1 S2 _ S3 (t' & Et' & S4) S5]. split; [done|by etrans|by rewrite S3| |].
  - exists t'. split; [done|].
    assert (m_condvar_tree t' = None) as Hn.
    { destruct (_ =? _); [|destruct S4 as [(o & _ & _ & Hco & _)|(Ha & _)]].
      - destruct S4 as [[Ha _] Hw']. apply (not_waiting cv arb (waits (kernel s') x)); [by apply S1|by rewrite Ha].
      - by injection Hco.
      - destruct Ha as [Ha _]. apply (not_waiting cv arb (waits (kernel s') x)); [by apply S1|by rewrite Ha]. }
    split; [done|]. destruct (_ =? _); [by left|]. right. destruct S4 as [(o & _ & _ & Hco & Ho)|(Ha & Hn' & _)]; [right|by left].
    split; [|by exists o]. injection Hco. intros. unfold GetState in *. congruence.
  - intros y Hy. destruct (S5 y Hy) as [-> ->]. simpl. by rewrite Hw, Ht, lookup_insert_ne.
Qed.

(** The thread waits at [key] in the tree of the condition variables. *)
Definition waits_in (c key : Z) k (x : Z) : Prop :=
  ∃ t, threads k !! x = Some t ∧ m_condvar_tree t = Some c ∧ m_condvar_key t = key.

(** The threads [ws] have been signalled, the others not touched. *)
Record signalled_all s s' (key : Z) (ws : list Z) : Prop := {
  sa_ok : system_ok cv arb s';
  sa_follows : follows s s';
  sa_world : world s' = world s;
  sa_nodup : NoDup ws;
  sa_waited : ∀ x, x ∈ ws → waits_in cv key (kernel s) x;
  sa_woken : ∀ x, x ∈ ws → ∃ t', threads (kernel s') !! x = Some t' ∧ m_condvar_tree t' = None
    ∧ (awake ResultSuccess t' ∧ waits (kernel s') x = None ∨ awake ResultInvalidState t' ∧ waits (kernel s') x = None
       ∨ GetState t' = ThreadState.Waiting ∧ is_Some (waits (kernel s') x));
  sa_others : ∀ y, y ∉ ws → waits (kernel s') y = waits (kernel s) y
    ∧ core <$> threads (kernel s') !! y = core <$> threads (kernel s) !! y;
}.

Lemma waits_in_core c key k k' y :
  core <$> threads k' !! y = core <$> threads k !! y → waits_in c key k' y → waits_in c key k y.
Proof using.
  intros Hco (t' & E' & Hc & Hk). rewrite E' in Hco. symmetry in Hco. apply fmap_Some in Hco as (t & E & Hct).
  exists t. injection Hct. intros. split_and!; congruence.
Qed.

Lemma signalled_nothing s key : system_ok cv arb s → signalled_all s s key [].
Proof using. intros Hs. split; try done; [constructor|by intros x ?%not_elem_of_nil..]. Qed.

Lemma signalled_one_more s s1 s2 key x ws :
  waits_in cv key (kernel s) x → turned s s1 x → signalled_all s1 s2 key ws → signalled_all s s2 key (x :: ws).
Proof using.
  intros Hx [T1 T2 T3 (t1 & E1 & Hc1 & H1) T5] [A1 A2 A3 A4 A5 A6 A7].
  assert (x ∉ ws) as Hni.
  { intros (t & E & Hc & _)%A5. rewrite E1 in E. injection E as <-. congruence. }
  split; [done|by etrans|by rewrite A3|by constructor| | |].
  - intros y [->|Hy]%elem_of_cons; [done|]. eapply waits_in_core; [|by apply A5]. apply T5. intros ->. done.
  - intros y [->|Hy]%elem_of_cons; [|by apply A6]. destruct (A7 x Hni) as [-> Hco]. rewrite E1 in Hco.
    apply fmap_Some in Hco as (t2 & E2 & Hct). exists t2. split; [done|]. unfold awake, GetState in *. injection Hct. intros.
    split; [congruence|]. destruct H1 as [[(? & ? & ?) ?]|[[(? & ? & ?) ?]|[? ?]]]; [left|right; left|right; right]; split_and!; congruence.
  - intros y [Hne Hy]%not_elem_of_cons. destruct (A7 y Hy) as [-> ->]. by apply T5.
Qed.

(** The tree of [c] without [x]. *)
Lemma tree_without s s' c tree x :
  kernel_ok (kernel s) → kernel_ok (kernel s') → thread_trees (kernel s) !! c = Some tree → is_Some (thread_trees (kernel s') !! c) →
  (∃ t', threads (kernel s') !! x = Some t' ∧ m_condvar_tree t' = None) →
  (∀ y, y ≠ x → core <$> threads (kernel s') !! y = core <$> threads (kernel s) !! y) →
  ∃ tree', thread_trees (kernel s') !! c = Some tree' ∧ tree' ≡ₚ filter (λ e, e ≠ x) tree.
Proof using.
  intros [_ C _ _] [_ C' _ _] E [tree' E'] (t' & Et' & Hc') Hco. exists tree'. split; [done|].
  apply NoDup_Permutation; [by eapply (cv_nodup _ _ _ C')|by apply NoDup_filter; eapply (cv_nodup _ _ _ C)|]. intros y.
  rewrite list_elem_of_filter, (cv_tree _ _ _ C' c tree' y E'), (cv_tree _ _ _ C c tree y E).
  destruct (decide (y = x)) as [->|Hne]; [split; [intros (t & ? & ?); congruence|by intros [? _]]|].
  specialize (Hco y Hne). split.
  - intros (ty' & Ey' & Hy). split; [done|]. rewrite Ey' in Hco. symmetry in Hco. apply fmap_Some in Hco as (ty & Ey & Hct).
    exists ty. split; [done|]. by injection Hct; congruence.
  - intros (_ & ty & Ey & Hy). rewrite Ey in Hco. apply fmap_Some in Hco as (ty' & Ey' & Hct).
    exists ty'. split; [done|]. by injection Hct; congruence.
Qed.

Lemma next_of_elem x tree y : NoDup tree → next_of x tree = Some y → y ∈ filter (λ e, e ≠ x) tree.
Proof using.
  induction tree as [|e tree IH]; [done|]. intros [Hni Hnd]%NoDup_cons. cbn [next_of].
  destruct (Z.eqb_spec e x) as [->|Hne].
  - intros Hy%head_Some_elem_of. rewrite filter_cons_False by (by intros []). apply list_elem_of_filter. split; [|done]. by intros ->.
  - intros Hy. rewrite filter_cons_True by done. right. by apply IH.
Qed.

Lemma Signal_loop_ok fuel s tree key count n it :
  system_ok cv arb s → room s → thread_trees (kernel s) !! cv = Some tree → (length tree ≤ fuel)%nat →
  0 ≤ n → n + Z.of_nat (length tree) < 2 ^ 31 → (∀ x, it = Some x → x ∈ tree) →
  ∃ ws it' s', KConditionVariable.Signal_loop fuel cv key count n it s = Some (it', s') ∧ signalled_all s s' key ws
    ∧ (∀ x, it' = Some x → ∃ t, get_thread x s' = Some t ∧ m_condvar_tree t = Some cv)
    ∧ wakes key count (n + Z.of_nat (length ws)) it' (kernel s') = Some None
    ∧ (0 < count → n ≤ count → n + Z.of_nat (length ws) ≤ count)
    ∧ (ws = [] → it' = it ∧ s' = s) ∧ (∀ x, ws = [x] → it' = next_of x tree)
    ∧ ∃ target, wakes key count n it (kernel s) = Some target ∧ head ws = target.
Proof using All.
  revert s tree n it. induction fuel as [|fuel IH]; intros s tree n it Hs Hroom Etr Hfuel Hn Hsmall Hit.
  - destruct tree; [|simpl in Hfuel; lia]. destruct it as [x|]; [by destruct (not_elem_of_nil x); apply Hit|].
    exists [], None, s. split; [done|]. split; [by apply signalled_nothing|]. split_and!; try done; [simpl; lia|by exists None].
  - pose proof (so_calm _ _ _ _ Hs) as [[[L C S P] I] _].
    assert (∃ target, wakes key count n it (kernel s) = Some target
      ∧ (∀ x, target = Some x → it = Some x ∧ waits_in cv key (kernel s) x ∧ (0 < count → n < count))
      ∧ (∀ x, it = Some x → ∃ t, get_thread x s = Some t ∧ m_condvar_tree t = Some cv)) as (target & Ew & Htg & Hin).
    { destruct it as [x|]; [|by exists None]. pose proof (Hit x eq_refl) as Hx.
      apply (cv_tree _ _ _ C cv tree x Etr) in Hx as (t & Et & Ec). unfold wakes. rewrite Et. cbn [mbind option_bind].
      eexists. split; [done|]. split; [|intros y [= <-]; by exists t].
      intros y. destruct (_ && _) eqn:Eb; [|done]. intros [= <-]. split; [done|]. split; [exists t; split_and!; try done; lia|lia]. }
    cbn [KConditionVariable.Signal_loop]. rewrite Ew. cbn [mbind option_bind]. destruct target as [x|].
    2: { exists [], it, s. split; [done|]. split; [by apply signalled_nothing|]. split; [done|].
         split; [by rewrite Z.add_0_r|]. split; [simpl; lia|]. split; [done|]. split; [done|]. by exists None. }
    destruct (Htg x eq_refl) as (-> & Hw & Hcount). pose proof Hw as (t & Et & Ec & Hkey).
    destruct (Signal_turn s x t Hs Hroom Et Ec) as (s1 & s2 & s3 & E1 & E2 & E3 & T).
    rewrite Etr. cbn [mbind option_bind]. rewrite E1. cbn [mbind option_bind]. rewrite E2. cbn [mbind option_bind].
    rewrite E3. cbn [mbind option_bind].
    pose proof T as [T1 T2 T3 (t3 & Et3 & Hc3 & _) T5].
    destruct (tree_without s s3 cv tree x) as (tree3 & Etr3 & Hperm);
      [apply Hs|apply T1|done|apply (so_trees _ _ _ _ T1)|by exists t3|apply T5|].
    assert (x ∈ tree) as Hx by (apply (cv_tree _ _ _ C cv tree x Etr); by exists t).
    assert (length tree3 < length tree)%nat as Hlen.
    { rewrite Hperm. apply (length_filter_lt _ _ x); [done|]. by intros []. }
    rewrite (swrap_small 32) by lia.
    destruct (IH s3 tree3 (n + 1) (next_of x tree)) as (ws & it' & s' & E & Ha & Hi & Hst & Hcnt & Hno & _ & _);
      [done|intros o obj; rewrite T3; apply Hroom|done|lia|lia|lia| |].
    { intros y Hy. rewrite Hperm. apply next_of_elem; [by eapply (cv_nodup _ _ _ C)|done]. }
    exists (x :: ws), it', s'. split; [exact E|]. split; [by eapply signalled_one_more|]. split; [done|].
    cbn [length]. replace (n + Z.of_nat (Datatypes.S (length ws))) with (n + 1 + Z.of_nat (length ws)) by lia.
    split; [done|]. split; [intros; apply Hcnt; lia|]. split; [done|].
    split; [|by exists (Some x)]. intros y [= <- Hws]. by destruct (Hno Hws).
Qed.
End signalling.

(** * The first waiter *)
Lemma nfind_key_ok less (f : Z → bool) tree :
  (∀ e, e ∈ tree → less e = Some (f e)) →
  ∃ before after, tree = before ++ after ∧ nfind_key less tree = Some (head after)
    ∧ Forall (λ e, f e = false) before ∧ ∀ e, head after = Some e → f e = true.
Proof.
  induction tree as [|e tree IH]; intros Hl; [by exists [], []|]. cbn [nfind_key]. rewrite Hl by set_solver.
  cbn [mbind option_bind]. destruct (f e) eqn:Ef.
  - exists [], (e :: tree). split; [done|]. split; [done|]. split; [constructor|]. by intros ? [= <-].
  - destruct IH as (before & after & -> & -> & Hb & Ha); [set_solver|]. exists (e :: before), after.
    split; [done|]. split; [done|]. by split; [constructor|].
Qed.

(** The threads that wait at [key], in the order of the tree. *)
Definition waiters_at k (tree : list Z) (key : Z) : list Z := filter (λ e, cv_key (threads k) e = key) tree.

Lemma filter_nil_Forall (P : Z → Prop) `{∀ x, Decision (P x)} l : Forall (λ e, ¬ P e) l → filter P l = [].
Proof. induction 1 as [|e l He _ IH]; [done|]. by rewrite filter_cons_False. Qed.

Lemma waiters_at_prefix k after key :
  Forall (λ e, key ≤ cv_key (threads k) e) after → StronglySorted (cv_le (prio k) (threads k)) after →
  ∃ rest, after = waiters_at k after key ++ rest ∧ Forall (λ e, key < cv_key (threads k) e) rest.
Proof.
  unfold waiters_at. induction after as [|e after IH]; [by exists []|].
  intros [He Hf]%Forall_cons [Hs Hh]%StronglySorted_inv. destruct (decide (cv_key (threads k) e = key)) as [Hk|Hk].
  - rewrite filter_cons_True by done. destruct (IH Hf Hs) as (rest & Ea & Hr). exists rest. split; [|done]. simpl. by f_equal.
  - rewrite filter_cons_False by done. rewrite filter_nil_Forall.
    + exists (e :: after). split; [done|]. constructor; [lia|]. eapply Forall_impl; [exact Hh|]. unfold cv_le. simpl. lia.
    + eapply Forall_impl; [exact Hh|]. unfold cv_le. simpl. lia.
Qed.

Lemma find_waiters_ok k c tree key :
  sane k → thread_trees k !! c = Some tree →
  ∃ before after rest, tree = before ++ after ∧ find_waiters c key k = Some (head after)
    ∧ after = waiters_at k tree key ++ rest ∧ Forall (λ e, cv_key (threads k) e < key) before
    ∧ Forall (λ e, key < cv_key (threads k) e) rest.
Proof.
  intros [[L C S P] _] Etr. pose proof (cv_sorted _ _ _ C c tree Etr) as Hsort. unfold find_waiters. rewrite Etr. cbn [mbind option_bind].
  destruct (nfind_key_ok (condvar_less k key (-1)) (λ e, key <=? cv_key (threads k) e) tree) as (before & after & Ea & E & Hb & Ha).
  { intros e He. apply (cv_tree _ _ _ C c tree e Etr) in He as (t & Et & _). unfold condvar_less. rewrite Et. cbn [mbind option_bind].
    rewrite (GetPriority_ok k e t S Et). cbn [mbind option_bind]. f_equal. unfold cv_key. rewrite Et.
    destruct (P e t Et) as [? _]. rewrite (proj2 (Z.ltb_lt (-1) _)) by lia. lia. }
  assert (Forall (λ e, cv_key (threads k) e < key) before) as Hb'.
  { eapply Forall_impl; [exact Hb|]. simpl. lia. }
  assert (StronglySorted (cv_le (prio k) (threads k)) after) as Hs' by (rewrite Ea in Hsort; by eapply StronglySorted_app_1_r).
  assert (Forall (λ e, key ≤ cv_key (threads k) e) after) as Hge.
  { destruct after as [|e after]; [done|]. specialize (Ha e eq_refl). apply StronglySorted_inv in Hs' as [_ Hh].
    constructor; [lia|]. eapply Forall_impl; [exact Hh|]. unfold cv_le. simpl. lia. }
  destruct (waiters_at_prefix k after key Hge Hs') as (rest & Er & Hr). exists before, after, rest.
  split; [done|]. split; [done|]. split; [|done]. rewrite Ea. unfold waiters_at. rewrite filter_app.
  rewrite (filter_nil_Forall _ before); [exact Er|]. eapply Forall_impl; [exact Hb'|]. simpl. lia.
Qed.

(** * Signalling a condition variable *)
Lemma wakes_at k c tree key count it n :
  sane k → thread_trees k !! c = Some tree → (∀ x, it = Some x → x ∈ tree) → wakes key count n it k = Some None →
  it = None ∨ (∃ x, it = Some x ∧ cv_key (threads k) x ≠ key) ∨ 0 < count ≤ n.
Proof.
  intros [[_ C _ _] _] Etr Hit Hw. destruct it as [x|]; [right|by left]. pose proof (Hit x eq_refl) as Hx.
  apply (cv_tree _ _ _ C c tree x Etr) in Hx as (t & Et & _). unfold wakes in Hw. rewrite Et in Hw.
  cbn [mbind option_bind] in Hw. destruct (_ && _) eqn:E in Hw; [done|].
  destruct (decide (m_condvar_key t = key)); [right; lia|left]. exists x. split; [done|]. unfold cv_key. by rewrite Et.
Qed.

Lemma tree_small k c tree : sane k → thread_trees k !! c = Some tree → Z.of_nat (length tree) < 2 ^ 31.
Proof.
  intros [[L C _ _] _] Etr. pose proof (lk_small _ _ _ _ L) as Hs.
  assert (length tree ≤ size (threads k))%nat; [|lia].
  rewrite <-(size_list_to_set (C := gset Z)) by by eapply (cv_nodup _ _ _ C). rewrite <-size_dom. apply subseteq_size.
  intros x Hx%elem_of_list_to_set. apply elem_of_dom. apply (cv_tree _ _ _ C c tree x Etr) in Hx as (t & -> & _). by eexists.
Qed.

Section signal.
Context (cv arb : Z) `{AutoObjectMethods}.

(** The thread at the iterator waits at the key. *)
Definition at_key k (key : Z) (it : option Z) : bool :=
  match it with None => false | Some x => cv_key (threads k) x =? key end.

Lemma cv_key_same k k' x : core <$> threads k' !! x = core <$> threads k !! x → cv_key (threads k') x = cv_key (threads k) x.
Proof using.
  unfold cv_key. destruct (threads k !! x) as [t|], (threads k' !! x) as [t'|]; try done. intros [= Hkey _]. done.
Qed.

Lemma first_of_the_key k c tree key after rest :
  sane k → thread_trees k !! c = Some tree → after = waiters_at k tree key ++ rest →
  Forall (λ e, key < cv_key (threads k) e) rest → at_key k key (head after) = negb (bool_decide (waiters_at k tree key = [])).
Proof using.
  intros Hk Etr -> Hr. destruct (waiters_at k tree key) as [|x l] eqn:El; simpl.
  - destruct rest as [|y rest]; [done|]. apply Forall_cons in Hr as [Hy _]. apply Z.eqb_neq. lia.
  - apply Z.eqb_eq. assert (x ∈ waiters_at k tree key) as Hx by (rewrite El; left). by apply list_elem_of_filter in Hx as [? _].
Qed.

(** With a count of 1 the iterator ends at the second thread that waited at the key, if any. *)
Lemma one_signalled s s1 tree key before after rest ws it :
  sane (kernel s) → thread_trees (kernel s) !! cv = Some tree → tree = before ++ after →
  after = waiters_at (kernel s) tree key ++ rest → Forall (λ e, key < cv_key (threads (kernel s)) e) rest →
  signalled_all cv arb s s1 key ws → head ws = head (waiters_at (kernel s) tree key) → (length ws ≤ 1)%nat →
  (ws = [] → it = head after ∧ s1 = s) → (∀ x, ws = [x] → it = next_of x tree) →
  at_key (kernel s1) key it = bool_decide (1 < length (waiters_at (kernel s) tree key))%nat.
Proof using.
  intros Hk Etr Et Ea Hr Ha Hh Hlen H0 H1. assert (NoDup tree) as Hnd by by eapply (cv_nodup _ _ _ (ko_cvs _ (sn_ok _ Hk))).
  destruct ws as [|x [|]]; [| |simpl in Hlen; lia].
  - destruct (H0 eq_refl) as [-> ->]. rewrite (first_of_the_key _ cv tree key after rest) by done.
    destruct (waiters_at (kernel s) tree key); [done|]. simpl in Hh. done.
  - rewrite (H1 x eq_refl). destruct (waiters_at (kernel s) tree key) as [|x' l] eqn:El; [done|]. injection Hh as <-.
    rewrite Et, Ea in Hnd |- *. simpl app. rewrite next_of_split.
    2: { intros Hx. apply NoDup_app in Hnd as (_ & Hd & _). apply (Hd x Hx). left. }
    apply NoDup_app in Hnd as (_ & _ & [Hx _]%NoDup_cons).
    change (x ∉ l ++ rest) in Hx. destruct (l ++ rest) as [|y r] eqn:Elr; [apply app_nil in Elr as [-> _]; done|]. cbn [hd_error at_key].
    rewrite (cv_key_same (kernel s)).
    2: { apply (sa_others _ _ _ _ _ _ Ha). intros ->%list_elem_of_singleton. apply Hx. left. }
    destruct l as [|z l]; simpl in Elr.
    + subst rest. apply Forall_cons in Hr as [Hy _]. apply Z.eqb_neq. lia.
    + injection Elr as <- _. apply Z.eqb_eq. assert (z ∈ waiters_at (kernel s) tree key) as Hz by (rewrite El; right; left).
      by apply list_elem_of_filter in Hz as [? _].
Qed.

Lemma Signal_ok s tree key count :
  system_ok cv arb s → room s → thread_trees (kernel s) !! cv = Some tree →
  ∃ ws s1 s', KConditionVariable.Signal cv key count s = Some s' ∧ signalled_all cv arb s s1 key ws
    ∧ head ws = head (waiters_at (kernel s) tree key) ∧ (0 < count → Z.of_nat (length ws) ≤ count)
    ∧ (s' = with_memory (Write32 key 0 (memory s1)) s1
       ∨ s' = s1 ∧ count = Z.of_nat (length ws) ∧ ∃ x, waits_in cv key (kernel s1) x)
    ∧ (count = 1 → s' = if decide (1 < length (waiters_at (kernel s) tree key))%nat then s1
                        else with_memory (Write32 key 0 (memory s1)) s1).
Proof using All.
  intros Hs Hroom Etr. pose proof (so_calm _ _ _ _ Hs) as [Hk _].
  destruct (find_waiters_ok (kernel s) cv tree key Hk Etr) as (before & after & rest & Ea & Ef & Er & Hb & Hr).
  unfold KConditionVariable.Signal. rewrite Ef. cbn [mbind option_bind]. rewrite Etr. cbn [mbind option_bind].
  destruct (Signal_loop_ok cv arb (length tree) s tree key count 0 (head after))
    as (ws & it & s1 & -> & Ha & Hit & Hst & Hcnt & Hnone & Hone & target & Ew & Hh);
    [done..|lia|done|by eapply tree_small| |].
  { intros x Hx%head_Some_elem_of. rewrite Ea. set_solver. }
  cbn [mbind option_bind]. rewrite Z.add_0_l in Hst, Hcnt.
  pose proof (sa_ok _ _ _ _ _ _ Ha) as Hs1. destruct (so_trees _ _ _ _ Hs1) as (_ & [tree1 Etr1] & _).
  pose proof (so_calm _ _ _ _ Hs1) as [Hk1 _].
  assert (∀ x, it = Some x → x ∈ tree1) as Hin.
  { intros x Hx. apply (cv_tree _ _ _ (ko_cvs _ (sn_ok _ Hk1)) cv tree1 x Etr1). by apply Hit. }
  assert (head ws = head (waiters_at (kernel s) tree key)) as Hhead.
  { rewrite Hh. rewrite Er in Ew. destruct (waiters_at (kernel s) tree key) as [|x l] eqn:El; simpl in Ew.
    - destruct rest as [|y rest]; [by injection Ew|]. apply Forall_cons in Hr as [Hy _]. simpl in Ew.
      apply bind_Some in Ew as (t & Et & Ew). unfold cv_key in Hy. rewrite Et in Hy.
      rewrite (proj2 (Z.eqb_neq (m_condvar_key t) key)), andb_false_r in Ew by lia. by injection Ew.
    - assert (x ∈ waiters_at (kernel s) tree key) as Hx by (rewrite El; set_solver).
      apply list_elem_of_filter in Hx as [Hx Hxt]. apply (cv_tree _ _ _ (ko_cvs _ (sn_ok _ Hk)) cv tree x Etr) in Hxt as (t & Et & _).
      rewrite Et in Ew. cbn [mbind option_bind] in Ew. unfold cv_key in Hx. rewrite Et in Hx.
      rewrite Hx, Z.eqb_refl, andb_true_r in Ew. injection Ew as <-. by destruct (Z.leb_spec count 0), (Z.ltb_spec 0 count); try lia. }
  rewrite (bind_eq _ _ (at_key (kernel s1) key it)).
  2: { destruct it as [x|]; [|done]. destruct (Hit x eq_refl) as (t & Et & _). rewrite Et. cbn [mbind option_bind at_key].
       unfold cv_key, get_thread in *. by rewrite Et. }
  exists ws, s1. eexists. split; [done|]. split; [done|]. split; [done|]. split; [lia|]. split.
  - destruct (at_key (kernel s1) key it) eqn:Eat; cbn [negb]; [right|by left]. split; [done|].
    destruct it as [x|]; [|done]. cbn [at_key] in Eat. apply Z.eqb_eq in Eat.
    destruct (wakes_at (kernel s1) cv tree1 key count (Some x) _ Hk1 Etr1 Hin Hst) as [?|[(y & [= <-] & Hy)|Hc]]; [done..|].
    split; [lia|]. destruct (Hit x eq_refl) as (t & Et & Ec). exists x, t. unfold get_thread in Et. unfold cv_key in Eat.
    rewrite Et in Eat. by split_and!.
  - intros ->. rewrite (one_signalled s s1 tree key before after rest ws it) by (done || lia).
    case_bool_decide; [by rewrite decide_True|by rewrite decide_False].
Qed.
End signal.

(** * Waiting in a tree *)
Lemma register_calm cv arb x timeout k : calm cv arb k → calm cv arb (register_sleep x timeout k).
Proof.
  intros [Hs H]. unfold register_sleep. destruct (_ <? _); [|by split]. split; [|done].
  by apply (sane_ext k).
Qed.
Lemma register_kept x timeout k : kept k (register_sleep x timeout k).
Proof. unfold register_sleep. destruct (_ <? _); [|done]. by apply kept_same. Qed.
Lemma register_same x timeout k :
  threads (register_sleep x timeout k) = threads k ∧ waits (register_sleep x timeout k) = waits k
  ∧ thread_trees (register_sleep x timeout k) = thread_trees k.
Proof. unfold register_sleep. by destruct (_ <? _). Qed.
Lemma register_timer x timeout k : 0 < timeout → timer_tasks (register_sleep x timeout k) !! x = Some timeout.
Proof. intros H%Z.ltb_lt. unfold register_sleep. rewrite H. apply lookup_insert_eq. Qed.
Lemma put_to_sleep_ext k k1 k2 x q w t :
  threads k2 = threads k1 → waits k2 = waits k1 → put_to_sleep k k1 x q w t → put_to_sleep k k2 x q w t.
Proof. intros Et Ew [H1 H2 H3 H4]. by split; rewrite ?Et, ?Ew. Qed.

(** The class of the queue of a thread that waits in the tree [c]. *)
Definition tree_queue (cv arb c : Z) (q : KThreadQueue) : Prop :=
  q_class q = WaitConditionVariable cv ∧ c = cv ∨ q_class q = AddressArbiter arb ∧ c = arb.

Lemma block_in_tree cv arb k x t c tree q f timeout :
  calm cv arb k → threads k !! x = Some t → GetState t ≠ ThreadState.Waiting →
  thread_trees k !! c = Some tree → tree_queue cv arb c q →
  (∀ t, m_waiting_lock_info (f t) = m_waiting_lock_info t ∧ m_held_lock_info_list (f t) = m_held_lock_info_list t
      ∧ m_num_kernel_waiters (f t) = m_num_kernel_waiters t ∧ m_thread_state (f t) = m_thread_state t
      ∧ m_parent (f t) = m_parent t ∧ m_base_priority (f t) = m_base_priority t ∧ m_condvar_tree (f t) = Some c) →
  ∃ k1 k2 k3 tree' t', on_thread x f k = Some k1 ∧ insert_in_tree c x k1 = Some k2 ∧ BeginWait x q k2 = Some k3
    ∧ kept k k1 ∧ kept k1 k2 ∧ kept k2 k3
    ∧ calm cv arb (register_sleep x timeout k3)
    ∧ put_to_sleep k (register_sleep x timeout k3) x q None t'
    ∧ t' = set_wait (m_wait_cancelled (f t)) (m_wait_result (f t)) (Some q) (in_state (next_state (f t) ThreadState.Waiting) (f t))
    ∧ thread_trees k3 = <[c := tree']> (thread_trees k) ∧ tree' ≡ₚ x :: tree.
Proof.
  intros Hk Et Hrun Etr Hq Hf. destruct (running_free cv arb k x t Hk Et Hrun) as (Hcv & Hw & Hl).
  destruct (Hf t) as (F1 & F2 & F3 & F4 & F5 & F6 & F7).
  destruct (join_tree_ok k c x t f tree (proj1 Hk) Et Hw Hcv Etr) as (tree' & k2 & E12 & Hs2 & Ht2 & Htr2 & Hp & Hw2 & _);
    [congruence|done..|].
  apply bind_Some in E12 as (k1 & E1 & E2).
  destruct (fell_asleep cv arb k x t Hk Et Hrun k2 k2 q None (f t)) as (k3 & E3 & Hc3 & Hps).
  - split; [done|]. intros y ty Hy. rewrite Ht2, lookup_insert_ne, Hw2 by congruence. by apply Hk.
  - by rewrite Ht2, lookup_insert_eq.
  - by rewrite Hw2.
  - destruct Hq as [[-> ->]|[-> ->]]; [|done]. split; [done|by left].
  - intros y Hy. by rewrite Hw2, Ht2, lookup_insert_ne.
  - destruct (BeginWait_only k2 x (f t) q Hs2) as (k3' & E3' & O); [by rewrite Ht2, lookup_insert_eq|].
    rewrite E3 in E3'. injection E3' as <-.
    exists k1, k2, k3, tree'. eexists. split; [done|]. split; [done|]. split; [done|]. split; [by eapply on_thread_kept|].
    split; [by eapply insert_in_tree_kept|]. split; [by eapply BeginWait_kept|]. split; [by apply register_calm|].
    destruct (register_same x timeout k3) as (R1 & R2 & _). split; [by eapply put_to_sleep_ext|].
    split; [done|]. split; [|done]. by destruct (on_locks _ _ _ _ O) as (_ & _ & ->).
Qed.

(** The calling thread goes to sleep without waiting for anything but time. *)
Lemma Sleep_ok cv arb s t timeout :
  system_ok cv arb s → get_thread (cur s) s = Some t → GetState t ≠ ThreadState.Waiting → 0 < timeout →
  if IsTerminationRequested t then Sleep timeout s = Some (Returns ResultTerminationRequested, s)
  else ∃ k t', Sleep timeout s = Some (Sleeps, with_kernel k s) ∧ system_ok cv arb (with_kernel k s)
         ∧ put_to_sleep (kernel s) k (cur s) (MkQueue ThreadSleep true) None t'
         ∧ timer_tasks k !! cur s = Some timeout.
Proof.
  intros Hs Et Hrun Hpos. unfold Sleep. rewrite check_bind_Some by lia. rewrite Et. cbn [mbind option_bind].
  destruct (IsTerminationRequested t); [done|]. unfold sleep_timer. rewrite (proj2 (Z.ltb_lt _ _) Hpos).
  pose proof (so_calm _ _ _ _ Hs) as Hk. destruct (running_free cv arb (kernel s) (cur s) t Hk Et Hrun) as (Hcv & Hw & _).
  destruct (fell_asleep cv arb (kernel s) (cur s) t Hk Et Hrun (kernel s) (kernel s) (MkQueue ThreadSleep true) None t) as (k & E & Hc & Hps);
    [by apply calm_but_weaken|done..|]. unfold on_kernel. rewrite E. simpl. exists (register_sleep (cur s) timeout k). eexists.
  destruct (register_same (cur s) timeout k) as (R1 & R2 & _).
  split; [done|]. split.
  - eapply system_follows; [exact Hs| |by apply register_calm]. apply follows_kernel. etrans; [by eapply BeginWait_kept|]. apply register_kept.
  - split; [by eapply put_to_sleep_ext|]. by apply register_timer.
Qed.

(** * Waiting on a condition variable *)
Lemma released_running cv arb k k' x t addr r value :
  calm cv arb k → threads k !! x = Some t → GetState t ≠ ThreadState.Waiting → released k k' x addr r value →
  ∃ t', threads k' !! x = Some t' ∧ core t' = core t.
Proof.
  intros Hk Et Hrun [(-> & _)|(o & rest & [Hw _ _ _ _ Ho])]; [by exists t|].
  destruct (running_free cv arb k x t Hk Et Hrun) as (_ & Hx & _).
  assert (x ≠ o) as Hne. { intros ->. destruct (Hw o ltac:(set_solver)) as [Hwo _]. congruence. }
  specialize (Ho x Hne). rewrite Et in Ho. by apply fmap_Some in Ho as (t' & ? & ?); exists t'.
Qed.

(** The calling thread sleeps in the tree [c] under [key]. *)
Definition sleeps_in (c key timeout : Z) (q : KThreadQueue) k k' (x : Z) (t' : KThread) : Prop :=
  put_to_sleep k k' x q None t' ∧ m_condvar_tree t' = Some c ∧ m_condvar_key t' = key
  ∧ (0 < timeout → timer_tasks k' !! x = Some timeout).

Lemma Wait_ok cv arb s t addr key value timeout :
  system_ok cv arb s → get_thread (cur s) s = Some t → GetState t ≠ ThreadState.Waiting →
  if IsTerminationRequested t then
    KConditionVariable.Wait cv addr key value timeout s = Some (Returns ResultTerminationRequested, s)
  else ∃ k1 k2 tag outcome s', KConditionVariable.Wait cv addr key value timeout s = Some (outcome, s')
    ∧ released (kernel s) k1 (cur s) addr ResultSuccess tag
    ∧ s' = with_kernel k2 (with_memory (Write32 addr tag (Write32 key 1 (memory s))) s) ∧ system_ok cv arb s'
    ∧ if timeout =? 0 then outcome = Returns ResultTimedOut ∧ k2 = k1
      else outcome = Sleeps ∧ ∃ t', sleeps_in cv key timeout (MkQueue (WaitConditionVariable cv) (0 <? timeout)) k1 k2 (cur s) t'
             ∧ m_address_key t' = addr ∧ m_address_key_value t' = value.
Proof.
  intros Hs Et Hrun. unfold KConditionVariable.Wait. rewrite Et. cbn [mbind option_bind]. destruct (IsTerminationRequested t); [done|].
  pose proof (so_calm _ _ _ _ Hs) as Hk. unfold get_thread in Et.
  destruct (release_ok cv arb (kernel s) (cur s) t addr Hk Et) as (next & more & k0 & tag & E & Ev & Hrel).
  destruct (Hrel ResultSuccess) as (k1 & E1 & Hc1 & Hkept & Hr). rewrite E. cbn [mbind option_bind]. rewrite Ev. cbn [mbind option_bind].
  assert (match next with Some o => on_kernel (EndWait o ResultSuccess) (with_kernel k0 s) | None => Some (with_kernel k0 s) end
    = Some (with_kernel k1 s)) as ->.
  { unfold on_kernel. simpl. destruct next; [by rewrite E1|by injection E1 as ->]. }
  cbn [mbind option_bind]. unfold WriteToUser. cbv beta iota zeta. cbn [negb].
  set (m1 := Write32 addr tag (Write32 key 1 (memory s))).
  assert (follows s (with_memory m1 s)) as Hfm.
  { etrans; [apply (follows_write key 1)|]. apply (follows_write addr tag (with_memory (Write32 key 1 (memory s)) s)). }
  assert (∀ k2, kept k1 k2 → follows s (with_kernel k2 (with_memory m1 s))) as Hfol.
  { intros k2 Hk2. etrans; [exact Hfm|]. apply (follows_kernel k2 (with_memory m1 s)). simpl. by etrans. }
  destruct (Z.eqb_spec timeout 0) as [_|Hto].
  { exists k1, k1, tag. do 2 eexists. split; [done|]. split; [done|]. split; [done|]. split; [|done].
    eapply system_follows; [exact Hs|by apply Hfol|done]. }
  destruct (released_running cv arb (kernel s) k1 (cur s) t addr _ tag Hk Et Hrun Hr) as (t1 & Et1 & Hct).
  assert (GetState t1 ≠ ThreadState.Waiting) as Hrun1 by (unfold GetState in *; injection Hct; intros; congruence).
  assert (is_Some (thread_trees k1 !! cv)) as [tree1 Etr1].
  { apply elem_of_dom, (kp_trees _ _ Hkept), elem_of_dom, (so_trees _ _ _ _ Hs). }
  destruct (running_free cv arb k1 (cur s) t1 Hc1 Et1 Hrun1) as (_ & _ & Hl1).
  destruct (block_in_tree cv arb k1 (cur s) t1 cv tree1 (MkQueue (WaitConditionVariable cv) (0 <? timeout))
    (λ t, set_address_key addr value false (set_condvar (Some cv) key t)) timeout Hc1 Et1 Hrun1 Etr1)
    as (k2 & k3 & k4 & tree' & t' & E2 & E3 & E4 & K2 & K3 & K4 & Hc & Hps & -> & _); [by left|done|].
  unfold on_kernel, SetConditionVariable, sleep_timer. simpl. rewrite Et1. simpl. rewrite check_bind_Some by by rewrite Hl1.
  rewrite E2. simpl. rewrite E3. simpl. rewrite E4. simpl.
  exists k1, (register_sleep (cur s) timeout k4), tag. do 2 eexists. split; [done|]. split; [done|]. split; [done|]. split.
  - eapply system_follows; [exact Hs| |exact Hc]. apply Hfol. etrans; [exact K2|]. etrans; [exact K3|]. etrans; [exact K4|]. apply register_kept.
  - split; [done|]. eexists. split; [split; [exact Hps|split_and!; [done|done|apply register_timer]]|by split].
Qed.
