(* ===== verification/AddressArbiterOps.v ===== *)
(** What the address arbiter does to a system that is in order. *)
From stdpp Require Import sorting.
From S2P Require Import Prelude Common Results AutoObject HandleTable HandleTableSpec PriorityQueue PriorityQueueLinks PriorityQueueSpec Thread ThreadLocks ThreadWaiters ThreadInherit ThreadHandover ThreadState ThreadOps ThreadWaits GuestMemory ConditionVariable AddressArbiter WaitInvariant SystemState ConditionVariableOps.

Implicit Types (k : Kernel) (s : System).

Section arbiter.
Context (cv arb : Z).

(** The threads [ws] have been woken, nothing else has changed. *)
Record woken_all k k' (ws : list Z) : Prop := {
  wa_calm : calm cv arb k';
  wa_kept : kept k k';
  wa_woken : ∀ x, x ∈ ws → ∃ t', threads k' !! x = Some t' ∧ awake ResultSuccess t' ∧ m_condvar_tree t' = None;
  wa_others : ∀ y, y ∉ ws → threads k' !! y = threads k !! y;
  wa_waits : ∀ y, waits k' y = waits k y;
}.

Lemma signal_turn k x t tree :
  cv ≠ arb → calm cv arb k → threads k !! x = Some t → m_condvar_tree t = Some arb → thread_trees k !! arb = Some tree →
  ∃ k1 t1 k2 k3, EndWait x ResultSuccess k = Some k1 ∧ threads k1 !! x = Some t1 ∧ m_condvar_tree t1 = Some arb
    ∧ ClearConditionVariable x k1 = Some k2 ∧ thread_trees k2 !! arb = Some tree
    ∧ erase_from_tree arb x k2 = Some k3 ∧ woken_all k k3 [x] ∧ thread_trees k3 !! arb = Some (filter (λ e, e ≠ x) tree).
Proof.
  intros Hne Hk Et Ec Etr. pose proof Hk as [Hs Hw].
  destruct (waiting_in_tree cv arb _ t arb (Hw x t ltac:(done) Et) Ec) as (Hst & Hwx & q & Hq & Hqc).
  assert (q_class q ≠ ThreadSleep) as Hqs by (destruct Hqc as [[_ ->]|[_ ->]]; done).
  destruct (EndWait_only k x t ResultSuccess Hs Et) as (k1 & E1 & O); [congruence|].
  assert (ended_thread t ResultSuccess = woken_thread t ResultSuccess) as Ht1.
  { unfold ended_thread. by rewrite Hst, Z.eqb_refl, Hq. }
  rewrite Ht1 in O. set (t1 := woken_thread t ResultSuccess) in *.
  assert (threads k1 !! x = Some t1) as Et1 by by rewrite (only_lookup _ _ _ _ x O), decide_True.
  destruct (leave_tree_in k1 x t1 arb (on_sane _ _ _ _ O) Et1 Ec) as (tree' & k3 & Etr' & Hin & E3 & Hs3 & Ht3 & Htr3 & Hw3 & _).
  destruct (on_locks _ _ _ _ O) as (_ & _ & Htk). rewrite Htk, Etr in Etr'. injection Etr' as <-.
  pose proof E3 as Hl. destruct (leave_tree_steps k1 x t1 arb Et1) as [_ Hst2]; [by eexists|]. rewrite E3 in Hst2.
  apply bind_Some in Hst2 as (k2 & E2 & E2'). exists k1, t1, k2, k3. split_and!; try done.
  - pose proof E2 as E. unfold ClearConditionVariable in E. rewrite (set_at_once k1 x _ t1 Et1) in E. injection E as <-. simpl. by rewrite Htk.
  - assert (∀ y, threads k3 !! y = if decide (y = x) then Some (set_condvar None (m_condvar_key t1) t1) else threads k !! y) as Hty.
    { intros y. rewrite Ht3, lookup_insert, (only_lookup _ _ _ _ y O). by destruct (decide (x = y)), (decide (y = x)); subst. }
    assert (awake ResultSuccess t1) as Ha by by (rewrite <-Ht1; eapply ended_awake).
    split.
    + split; [done|]. intros y ty _. rewrite Hty, Hw3, (on_waits _ _ _ _ O). destruct (decide (y = x)) as [->|]; [|by apply Hw].
      intros [= <-]. unfold waiting_ok. destruct Ha as [Ha _]. replace (GetState _) with (GetState t1) by done. by rewrite Ha.
    + etrans; [by eapply EndWait_kept|by eapply leave_tree_kept].
    + intros y ->%list_elem_of_singleton. rewrite Hty, decide_True by done. by eexists.
    + intros y Hy. rewrite Hty, decide_False; [done|]. set_solver.
    + intros y. by rewrite Hw3, (on_waits _ _ _ _ O).
  - rewrite Htr3. by rewrite lookup_insert_eq.
Qed.

(** How many of the waiters a signal wakes once [n] have been woken. *)
Definition how_many (count n : Z) (ws : list Z) : nat :=
  if count <=? 0 then length ws else Z.to_nat (count - n) `min` length ws.

Lemma woken_nothing k : calm cv arb k → woken_all k k [].
Proof. intros Hk. split; try done. by intros x ?%not_elem_of_nil. Qed.

Lemma woken_one_more k k1 k2 x ws :
  x ∉ ws → woken_all k k1 [x] → woken_all k1 k2 ws → woken_all k k2 (x :: ws).
Proof.
  intros Hx [A1 A2 A3 A4 A5] [B1 B2 B3 B4 B5]. split; [done|by etrans| | |].
  - intros y [->|Hy]%elem_of_cons; [|by apply B3]. rewrite B4 by done. apply A3. set_solver.
  - intros y [Hne Hy]%not_elem_of_cons. rewrite B4 by done. apply A4. set_solver.
  - intros y. by rewrite B5.
Qed.

Lemma filter_split (x : Z) before after :
  NoDup (before ++ x :: after) → filter (λ e, e ≠ x) (before ++ x :: after) = before ++ after.
Proof.
  intros (_ & Hd & [Ha _]%NoDup_cons)%NoDup_app. assert (∀ l : list Z, x ∉ l → filter (λ e, e ≠ x) l = l) as Hid.
  { induction l as [|e l IH]; [done|]. intros [? ?]%not_elem_of_cons. rewrite filter_cons_True by done. by rewrite IH. }
  rewrite filter_app, filter_cons_False by (by intros []). rewrite !Hid; [done|done|]. intros Hx. apply (Hd x Hx). left.
Qed.

Lemma wakes_head k key count n ws rest :
  (∀ e, e ∈ ws ++ rest → is_Some (threads k !! e)) → Forall (λ e, cv_key (threads k) e = key) ws →
  Forall (λ e, key < cv_key (threads k) e) rest →
  wakes key count n (head (ws ++ rest)) k
  = Some (match ws with x :: _ => if (count <=? 0) || (n <? count) then Some x else None | [] => None end).
Proof.
  intros He Hws Hrest. unfold wakes, cv_key in *. destruct ws as [|x ws]; simpl.
  - destruct rest as [|y rest]; [done|]. simpl. destruct (He y ltac:(set_solver)) as [t Et]. rewrite Et. cbn [mbind option_bind].
    apply Forall_cons in Hrest as [Hy _]. rewrite Et in Hy. rewrite (proj2 (Z.eqb_neq (m_condvar_key t) key)) by lia. by rewrite andb_false_r.
  - destruct (He x ltac:(set_solver)) as [t Et]. rewrite Et. cbn [mbind option_bind].
    apply Forall_cons in Hws as [Hx _]. rewrite Et in Hx. by rewrite Hx, Z.eqb_refl, andb_true_r.
Qed.

Lemma signal_loop_ok fuel k before ws rest key count n :
  cv ≠ arb → calm cv arb k → thread_trees k !! arb = Some (before ++ ws ++ rest) →
  Forall (λ e, cv_key (threads k) e = key) ws → Forall (λ e, key < cv_key (threads k) e) rest →
  0 ≤ n → n + Z.of_nat (length ws) < 2 ^ 31 → (0 < count → n ≤ count) → (length ws ≤ fuel)%nat →
  ∃ k', KAddressArbiter.signal_loop fuel arb key count n (head (ws ++ rest)) k
      = Some (n + Z.of_nat (how_many count n ws), k')
    ∧ woken_all k k' (take (how_many count n ws) ws)
    ∧ thread_trees k' !! arb = Some (before ++ drop (how_many count n ws) ws ++ rest).
Proof.
  revert fuel k n. induction ws as [|x ws IH]; intros fuel k n Hne Hk Etr Hws Hrest Hn Hsmall Hc Hfuel.
  all: pose proof Hk as [[[_ C _ _] _] _]; pose proof (cv_nodup _ _ _ C arb _ Etr) as Hnd.
  all: assert (∀ e, e ∈ before ++ _ ++ rest → ∃ t, threads k !! e = Some t ∧ m_condvar_tree t = Some arb) as Hex
    by (intros e He; by apply (cv_tree _ _ _ C arb _ e Etr)).
  - assert (how_many count n [] = 0%nat) as -> by (unfold how_many; simpl; destruct (_ <=? _); lia).
    exists k. split; [|split; [by apply woken_nothing|done]].
    assert (wakes key count n (head rest) k = Some None) as Hw.
    { apply (wakes_head k key count n [] rest); [|done|done]. intros e He. destruct (Hex e) as (t & -> & _); [set_solver|by eexists]. }
    rewrite Z.add_0_r. destruct fuel; cbn [KAddressArbiter.signal_loop app]; by rewrite Hw.
  - assert (wakes key count n (head ((x :: ws) ++ rest)) k = Some (if (count <=? 0) || (n <? count) then Some x else None)) as Hw.
    { apply (wakes_head k key count n (x :: ws) rest); [|done|done]. intros e He. destruct (Hex e) as (t & -> & _); [set_solver|by eexists]. }
    destruct fuel as [|fuel]; [simpl in Hfuel; lia|]. cbn [KAddressArbiter.signal_loop]. rewrite Hw. cbn [mbind option_bind].
    destruct ((count <=? 0) || (n <? count)) eqn:Eg.
    2: { assert (how_many count n (x :: ws) = 0%nat) as -> by (unfold how_many; simpl; destruct (Z.leb_spec count 0); simpl in Eg; lia).
         exists k. rewrite Z.add_0_r. split; [done|]. by split; [apply woken_nothing|]. }
    destruct (Hex x ltac:(set_solver)) as (t & Et & Ec).
    destruct (signal_turn k x t _ Hne Hk Et Ec Etr) as (k1 & t1 & k2 & k3 & E1 & Et1 & Ec1 & E2 & Etr2 & E3 & Hwk & Etr3).
    rewrite E1. cbn [mbind option_bind]. rewrite Et1. cbn [mbind option_bind]. rewrite check_bind_Some by (by rewrite Ec1).
    rewrite E2. cbn [mbind option_bind]. rewrite Etr2. cbn [mbind option_bind]. rewrite E3. cbn [mbind option_bind].
    cbn [app] in *. rewrite next_of_split by (apply NoDup_app in Hnd as (_ & Hd & _); intros Hin; apply (Hd x Hin); left).
    rewrite filter_split in Etr3 by done.
    apply NoDup_app in Hnd as (_ & _ & [Hx Hnd]%NoDup_cons). apply Forall_cons in Hws as [_ Hws].
    assert (∀ e, e ∈ ws ++ rest → cv_key (threads k3) e = cv_key (threads k) e) as Hkey.
    { intros e He. unfold cv_key. rewrite (wa_others _ _ _ Hwk); [done|]. set_solver. }
    assert (n + 1 ≤ 2 ^ 31 - 1) by (simpl in Hsmall; lia). rewrite (swrap_small 32) by lia.
    destruct (IH fuel k3 (n + 1)) as (k' & E & Hwk' & Etr'); try done.
    + apply Hwk.
    + rewrite Forall_forall in *. intros e He. rewrite Hkey by set_solver. by apply Hws.
    + rewrite Forall_forall in *. intros e He. rewrite Hkey by set_solver. by apply Hrest.
    + lia.
    + simpl in Hsmall. lia.
    + lia.
    + simpl in Hfuel. lia.
    + assert (how_many count n (x :: ws) = S (how_many count (n + 1) ws)) as ->.
      { unfold how_many. simpl. destruct (Z.leb_spec count 0); simpl in Eg; lia. }
      exists k'. rewrite E. split; [do 2 f_equal; lia|]. split; [|done]. simpl. eapply woken_one_more; [|done|done].
      intros Hin%elem_of_take. destruct Hin as (i & Hi & _). apply list_elem_of_lookup_2 in Hi. set_solver.
Qed.

(** The threads that a signal wakes. *)
Definition first_waiters (count : Z) (ws : list Z) : list Z := take (how_many count 0 ws) ws.

Lemma arb_tree_exists s : system_ok cv arb s → cv ≠ arb ∧ ∃ tree, thread_trees (kernel s) !! arb = Some tree.
Proof. intros Hs. destruct (so_trees _ _ _ _ Hs) as (? & _ & [tree ?]). split; [done|]. by exists tree. Qed.

Lemma signal_waiters_ok s tree key count :
  system_ok cv arb s → thread_trees (kernel s) !! arb = Some tree →
  ∃ it k', find_waiters arb key (kernel s) = Some it
    ∧ KAddressArbiter.signal_waiters arb key count it s = Some (with_kernel k' s)
    ∧ woken_all (kernel s) k' (first_waiters count (waiters_at (kernel s) tree key))
    ∧ system_ok cv arb (with_kernel k' s).
Proof.
  intros Hs Etr. pose proof (so_calm _ _ _ _ Hs) as Hk. destruct (arb_tree_exists s Hs) as [Hne _].
  destruct (find_waiters_ok (kernel s) arb tree key (proj1 Hk) Etr) as (before & after & rest & Ea & Ef & Er & Hb & Hr).
  set (ws := waiters_at (kernel s) tree key) in *.
  pose proof (tree_small _ _ _ (proj1 Hk) Etr) as Hsmall.
  assert (length ws ≤ length tree)%nat as Hlen by (rewrite Ea, Er, !length_app; lia).
  rewrite Er in Ef. exists (head (ws ++ rest)).
  destruct (signal_loop_ok (length tree) (kernel s) before ws rest key count 0) as (k' & E & Hwk & _); try done.
  - rewrite Etr, Ea. by f_equal; f_equal.
  - apply Forall_forall. intros e He. by apply list_elem_of_filter in He as [? _].
  - lia.
  - lia.
  - exists k'. split; [done|]. unfold KAddressArbiter.signal_waiters. rewrite Etr. cbn [mbind option_bind]. rewrite E.
    split; [done|]. split; [done|]. eapply system_follows; [exact Hs| |apply Hwk]. apply follows_kernel, Hwk.
Qed.

(** The value of the word after a signal that counts the waiters. *)
Lemma count_waiters_ok k addr count n ws rest :
  (∀ e, e ∈ ws ++ rest → is_Some (threads k !! e)) → Forall (λ e, cv_key (threads k) e = addr) ws →
  Forall (λ e, addr < cv_key (threads k) e) rest → 0 ≤ n ≤ count → n + Z.of_nat (length ws) < 2 ^ 31 →
  KAddressArbiter.count_waiters addr count n (ws ++ rest) k = Some (Z.min (n + Z.of_nat (length ws)) (count + 1)).
Proof.
  revert n. induction ws as [|e ws IH]; intros n He Hws Hrest Hn Hsmall.
  - replace (Z.min _ _) with n by (simpl; lia). destruct rest as [|e rest]; [done|]. cbn [app KAddressArbiter.count_waiters].
    destruct (He e ltac:(set_solver)) as [t Et]. rewrite Et. cbn [mbind option_bind].
    apply Forall_cons in Hrest as [Hr _]. unfold cv_key in Hr. rewrite Et in Hr. by rewrite (proj2 (Z.eqb_neq (m_condvar_key t) addr)) by lia.
  - cbn [app KAddressArbiter.count_waiters]. destruct (He e ltac:(set_solver)) as [t Et]. rewrite Et. cbn [mbind option_bind].
    apply Forall_cons in Hws as [Hk Hws]. unfold cv_key in Hk. rewrite Et in Hk. rewrite Hk, Z.eqb_refl. simpl in Hsmall.
    rewrite (swrap_small 32) by lia. destruct (Z.leb_spec count n); [f_equal; simpl; lia|].
    rewrite IH by (done || lia || set_solver). f_equal. simpl. lia.
Qed.

Lemma from_element_split x before after : x ∉ before → KAddressArbiter.from_element x (before ++ x :: after) = x :: after.
Proof.
  induction before as [|e before IH]; intros Hx; cbn [KAddressArbiter.from_element app]; [by rewrite Z.eqb_refl|].
  rewrite (proj2 (Z.eqb_neq e x)) by set_solver. apply IH. set_solver.
Qed.

(** By how much a signal of [count] changes the word when [n] threads wait. *)
Definition change_by (count n : Z) : Z :=
  if n =? 0 then 1 else if count <=? 0 then -2 else if n <=? count then -1 else 0.

Lemma modified_value_ok k tree key value count :
  sane k → thread_trees k !! arb = Some tree → - 2 ^ 31 ≤ value < 2 ^ 31 →
  ∃ it, find_waiters arb key k = Some it
    ∧ KAddressArbiter.modified_value arb key value count it k
      = Some (s32 (value + change_by count (Z.of_nat (length (waiters_at k tree key))))).
Proof.
  intros Hk Etr Hv. destruct (find_waiters_ok k arb tree key Hk Etr) as (before & after & rest & Ea & Ef & Er & Hb & Hr).
  pose proof (tree_small _ _ _ Hk Etr) as Hsmall. pose proof Hk as [[_ C _ _] _].
  assert (∀ e, e ∈ tree → is_Some (threads k !! e)) as Hex.
  { intros e He. apply (cv_tree _ _ _ C arb tree e Etr) in He as (t & -> & _). by eexists. }
  assert (Forall (λ e, cv_key (threads k) e = key) (waiters_at k tree key)) as Hws.
  { apply Forall_forall. intros e He. by apply list_elem_of_filter in He as [? _]. }
  assert (length (waiters_at k tree key) ≤ length tree)%nat as Hlen by apply length_filter.
  rewrite Er in Ef, Ea. exists (head (waiters_at k tree key ++ rest)). split; [done|].
  set (ws := waiters_at k tree key) in *. clearbody ws. clear Er.
  unfold KAddressArbiter.modified_value. rewrite Etr. cbn [mbind option_bind]. destruct ws as [|x ws].
  - destruct rest as [|y rest]; [done|]. cbn [app hd_error]. destruct (Hex y ltac:(rewrite Ea; set_solver)) as [t Et]. rewrite Et. cbn [mbind option_bind].
    apply Forall_cons in Hr as [Hy _]. unfold cv_key in Hy. rewrite Et in Hy. by rewrite (proj2 (Z.eqb_neq (m_condvar_key t) key)) by lia.
  - cbn [app hd_error]. destruct (Hex x ltac:(rewrite Ea; set_solver)) as [t Et]. rewrite Et. cbn [mbind option_bind].
    apply Forall_cons in Hws as [Hx Hws]. unfold cv_key in Hx. rewrite Et in Hx. rewrite Hx, Z.eqb_refl.
    unfold change_by. rewrite (proj2 (Z.eqb_neq (Z.of_nat (length (x :: ws))) 0)) by (simpl; lia).
    destruct (Z.leb_spec count 0); [done|]. cbn [default from_option id]. rewrite Ea at 1. cbn [app].
    pose proof (cv_nodup _ _ _ C arb tree Etr) as Hnd. rewrite Ea in Hnd. cbn [app] in Hnd.
    rewrite from_element_split by (apply NoDup_app in Hnd as (_ & Hd & _); intros Hin; apply (Hd x Hin); left).
    cbn [tail]. cbn [length] in Hlen. rewrite (count_waiters_ok k key count 0 ws rest); [|intros e He; apply Hex; rewrite Ea; set_solver|done|done|lia|lia].
    cbn [mbind option_bind]. rewrite Z.add_0_l. f_equal. simpl length.
    destruct (Z.leb_spec (Z.of_nat (S (length ws))) count).
    + by rewrite (proj2 (Z.ltb_lt _ _)) by lia.
    + rewrite (proj2 (Z.ltb_ge _ _)) by lia. rewrite Z.add_0_r. symmetry. by apply (swrap_small 32).
Qed.

(** * Signals *)

(** The word that a signal of the given type writes when [n] threads wait, if it writes. *)
Definition signal_writes (type : KAddressArbiter.SignalType) (value count n : Z) : option Z :=
  match type with
  | KAddressArbiter.Type_Signal => None
  | KAddressArbiter.Type_SignalAndIncrementIfEqual => Some (s32 (value + 1))
  | KAddressArbiter.Type_SignalAndModifyByWaitingCountIfEqual =>
      let new := s32 (value + change_by count n) in if value =? new then None else Some new
  end.
Definition compares (type : KAddressArbiter.SignalType) : bool :=
  match type with KAddressArbiter.Type_Signal => false | _ => true end.
Definition store (addr : Z) (v : option Z) (s : System) : System :=
  match v with Some v => KAddressArbiter.WriteSigned addr v s | None => s end.

Lemma store_follows addr v s : follows s (store addr v s).
Proof. destruct v; [apply follows_write|done]. Qed.
Lemma store_kernel addr v s : kernel (store addr v s) = kernel s.
Proof. by destruct v. Qed.

Lemma arbiter_signal_ok s tree addr type value count :
  system_ok cv arb s → thread_trees (kernel s) !! arb = Some tree → - 2 ^ 31 ≤ value < 2 ^ 31 →
  let ws := waiters_at (kernel s) tree addr in
  let v := signal_writes type value count (Z.of_nat (length ws)) in
  if compares type && negb (KAddressArbiter.ReadSigned addr s =? value) then
    KAddressArbiter.SignalToAddress arb addr type value count s = Some (ResultInvalidState, s)
  else ∃ k', KAddressArbiter.SignalToAddress arb addr type value count s
      = Some (ResultSuccess, with_kernel k' (store addr v s))
    ∧ woken_all (kernel s) k' (first_waiters count ws) ∧ system_ok cv arb (with_kernel k' (store addr v s)).
Proof.
  intros Hs Etr Hv. cbv zeta. set (ws := waiters_at (kernel s) tree addr).
  assert (∀ v, ∃ it k', find_waiters arb addr (kernel (store addr v s)) = Some it
    ∧ KAddressArbiter.signal_waiters arb addr count it (store addr v s) = Some (with_kernel k' (store addr v s))
    ∧ woken_all (kernel s) k' (first_waiters count ws) ∧ system_ok cv arb (with_kernel k' (store addr v s))) as Hsig.
  { intros v. assert (system_ok cv arb (store addr v s)) as Hs'.
    { eapply system_follows; [exact Hs|apply store_follows|]. rewrite store_kernel. apply Hs. }
    destruct (signal_waiters_ok (store addr v s) tree addr count Hs') as (it & k' & E1 & E2 & H); [by rewrite store_kernel|].
    rewrite store_kernel in H. by exists it, k'. }
  destruct type; cbn [compares andb KAddressArbiter.SignalToAddress signal_writes].
  - destruct (Hsig None) as (it & k' & E1 & E2 & H). exists k'. split; [|done]. unfold KAddressArbiter.Signal. simpl in E1, E2.
    rewrite E1. cbn [mbind option_bind]. by rewrite E2.
  - unfold KAddressArbiter.SignalAndIncrementIfEqual, KAddressArbiter.UpdateIfEqual. cbn [negb].
    destruct (Z.eqb_spec (KAddressArbiter.ReadSigned addr s) value); cbn [negb]; [|done].
    destruct (Hsig (Some (s32 (value + 1)))) as (it & k' & E1 & E2 & H). exists k'. split; [|done]. simpl in E1, E2 |- *.
    rewrite E1. cbn [mbind option_bind]. by rewrite E2.
  - unfold KAddressArbiter.SignalAndModifyByWaitingCountIfEqual.
    destruct (modified_value_ok (kernel s) tree addr value count (proj1 (so_calm _ _ _ _ Hs)) Etr Hv) as (it & Ef & Em).
    fold ws in Em. rewrite Ef. cbn [mbind option_bind]. rewrite Em. cbn [mbind option_bind]. set (new := s32 _) in *.
    unfold KAddressArbiter.UpdateIfEqual.
    assert (∀ v, ∃ k', (s0 ← KAddressArbiter.signal_waiters arb addr count it (store addr v s); Some (ResultSuccess, s0))
      = Some (ResultSuccess, with_kernel k' (store addr v s))
      ∧ woken_all (kernel s) k' (first_waiters count ws) ∧ system_ok cv arb (with_kernel k' (store addr v s))) as Hend.
    { intros v. destruct (Hsig v) as (it' & k' & E1 & E2 & H). rewrite store_kernel, Ef in E1. injection E1 as <-.
      exists k'. by rewrite E2. }
    destruct (Z.eqb_spec value new) as [Hn|Hn]; cbn [negb].
    + destruct (Z.eqb_spec (KAddressArbiter.ReadSigned addr s) value); cbn [negb]; [|done]. apply (Hend None).
    + destruct (Z.eqb_spec (KAddressArbiter.ReadSigned addr s) value); cbn [negb]; [|done]. apply (Hend (Some new)).
Qed.

Lemma waiters_sorted k c tree key :
  sane k → thread_trees k !! c = Some tree → StronglySorted (λ a b, prio k a ≤ prio k b) (waiters_at k tree key).
Proof.
  intros [[_ C _ _] _] Etr. pose proof (cv_sorted _ _ _ C c tree Etr) as Hs. unfold waiters_at. clear Etr.
  induction Hs as [|e tree _ IH Hall]; [constructor|]. destruct (decide (cv_key (threads k) e = key)) as [He|He].
  - rewrite filter_cons_True by done. constructor; [done|]. apply Forall_forall. intros y Hy.
    apply list_elem_of_filter in Hy as [Hy Hin]. rewrite Forall_forall in Hall. destruct (Hall y Hin) as [?|[_ ?]]; lia.
  - by rewrite filter_cons_False.
Qed.

(** * Waits *)

(** Whether the word lets the thread wait, and what is written to it if it does. *)
Definition wait_holds (type : KAddressArbiter.ArbitrationType) (word value : Z) : bool :=
  match type with KAddressArbiter.Type_WaitIfEqual => value =? word | _ => word <? value end.
Definition wait_writes (type : KAddressArbiter.ArbitrationType) (word : Z) : option Z :=
  match type with KAddressArbiter.Type_DecrementAndWaitIfLessThan => Some (s32 (word - 1)) | _ => None end.

Lemma begin_sleep_ok s t addr timeout :
  system_ok cv arb s → get_thread (cur s) s = Some t → GetState t ≠ ThreadState.Waiting →
  ∃ k' t', KAddressArbiter.begin_sleep arb addr timeout s = Some (Sleeps, with_kernel k' s)
    ∧ sleeps_in arb addr timeout (MkQueue (AddressArbiter arb) (0 <? timeout)) (kernel s) k' (cur s) t'
    ∧ system_ok cv arb (with_kernel k' s).
Proof.
  intros Hs Et Hrun. pose proof (so_calm _ _ _ _ Hs) as Hk. destruct (arb_tree_exists s Hs) as [_ [tree Etr]].
  destruct (running_free cv arb (kernel s) (cur s) t Hk Et Hrun) as (_ & _ & Hl).
  destruct (block_in_tree cv arb (kernel s) (cur s) t arb tree (MkQueue (AddressArbiter arb) (0 <? timeout))
    (set_condvar (Some arb) addr) timeout Hk Et Hrun Etr)
    as (k2 & k3 & k4 & tree' & t' & E2 & E3 & E4 & K2 & K3 & K4 & Hc & Hps & -> & _ & _); [by right|done|].
  unfold KAddressArbiter.begin_sleep, on_kernel, KAddressArbiter.SetAddressArbiter, sleep_timer. unfold get_thread in Et.
  rewrite Et. cbn [mbind option_bind]. rewrite check_bind_Some by by rewrite Hl. rewrite E2. simpl. rewrite E3. simpl. rewrite E4. simpl.
  exists (register_sleep (cur s) timeout k4). eexists. split; [done|]. split.
  - split; [exact Hps|]. split; [done|]. split; [done|]. apply register_timer.
  - eapply system_follows; [exact Hs| |exact Hc]. apply follows_kernel. etrans; [exact K2|]. etrans; [exact K3|]. etrans; [exact K4|]. apply register_kept.
Qed.

Lemma arbiter_wait_ok s t addr type value timeout :
  system_ok cv arb s → get_thread (cur s) s = Some t → GetState t ≠ ThreadState.Waiting →
  let word := KAddressArbiter.ReadSigned addr s in
  let s1 := store addr (wait_writes type word) s in
  if IsTerminationRequested t then
    KAddressArbiter.WaitForAddress arb addr type value timeout s = Some (Returns ResultTerminationRequested, s)
  else if negb (wait_holds type word value) then
    KAddressArbiter.WaitForAddress arb addr type value timeout s = Some (Returns ResultInvalidState, s)
  else if timeout =? 0 then
    KAddressArbiter.WaitForAddress arb addr type value timeout s = Some (Returns ResultTimedOut, s1) ∧ system_ok cv arb s1
  else ∃ k' t', KAddressArbiter.WaitForAddress arb addr type value timeout s = Some (Sleeps, with_kernel k' s1)
    ∧ sleeps_in arb addr timeout (MkQueue (AddressArbiter arb) (0 <? timeout)) (kernel s) k' (cur s) t'
    ∧ system_ok cv arb (with_kernel k' s1).
Proof.
  intros Hs Et Hrun. cbv zeta. set (word := KAddressArbiter.ReadSigned addr s).
  set (s1 := store addr (wait_writes type word) s).
  assert (system_ok cv arb s1) as Hs1.
  { eapply system_follows; [exact Hs|apply store_follows|]. unfold s1. rewrite store_kernel. apply Hs. }
  assert (get_thread (cur s1) s1 = Some t ∧ cur s1 = cur s ∧ kernel s1 = kernel s) as (Et1 & Hcur & Hk1).
  { unfold s1, get_thread, cur in *. by rewrite store_kernel. }
  destruct (begin_sleep_ok s1 t addr timeout Hs1 Et1 Hrun) as (k' & t' & E & Hsl & Hok). rewrite Hcur, Hk1 in Hsl.
  destruct type; cbn [KAddressArbiter.WaitForAddress];
    unfold KAddressArbiter.WaitIfLessThan, KAddressArbiter.WaitIfEqual, KAddressArbiter.DecrementIfLessThan; rewrite Et;
    cbn [mbind option_bind]; fold word; (destruct (IsTerminationRequested t); [done|]); cbn [negb wait_holds].
  - rewrite <-Z.leb_antisym. destruct (value <=? word); [done|]. destruct (timeout =? 0); [by split|]. by exists k', t'.
  - rewrite <-Z.leb_antisym. destruct (Z.leb_spec value word) as [Hle|Hlt].
    + by rewrite (proj2 (Z.ltb_ge _ _)) by lia.
    + rewrite (proj2 (Z.ltb_lt _ _)) by lia. destruct (timeout =? 0); [by split|]. by exists k', t'.
  - destruct (value =? word); cbn [negb]; [|done]. destruct (timeout =? 0); [by split|]. by exists k', t'.
Qed.
End arbiter.
