(* ===== verification/SyncSpec.v ===== *)
(** What guest programs are promised when they synchronize threads: the invariant over every
    sequence of calls, and the effect of each call. *)
From stdpp Require Import relations sorting.
From S2P Require Import Prelude Common Results AutoObject HandleTable HandleTableSpec PriorityQueue PriorityQueueLinks PriorityQueueSpec Thread ThreadLocks ThreadWaiters ThreadInherit ThreadHandover ThreadState ThreadOps ThreadWaits ThreadSpec GuestMemory ConditionVariable AddressArbiter WaitInvariant SystemState ConditionVariableOps AddressArbiterOps.

Implicit Types (k : Kernel) (s : System).

(** * Sequences of calls *)

(** Another thread runs. *)
Definition run_thread (x : Z) (k : Kernel) : Kernel :=
  MkKernel (priority_queue k) (threads k) (lock_infos k) (lock_slab k) (thread_trees k) x
    (m_scheduler_update_needed k) (m_woken_dummy_threads k) (timer_tasks k) (schedule_counts k).

Inductive Call :=
  | CallRun (x : Z)
  | CallSignalToAddress (addr : Z)
  | CallWaitForAddress (handle addr value : Z)
  | CallWaitForAddress_resume (owner : Z)
  | CallSignal (cv_key count : Z)
  | CallWait (addr key value timeout : Z)
  | CallArbiterSignal (addr : Z) (type : KAddressArbiter.SignalType) (value count : Z)
  | CallArbiterWait (addr : Z) (type : KAddressArbiter.ArbitrationType) (value timeout : Z)
  | CallSleep (timeout : Z)
  | CallOnTimer (x : Z)
  | CallWaitCancel (x : Z).

Section calls.
Context (cv arb : Z) `{AutoObjectMethods}.

Definition call (c : Call) (s : System) : option System :=
  match c with
  | CallRun x => Some (with_kernel (run_thread x (kernel s)) s)
  | CallSignalToAddress addr => snd <$> KConditionVariable.SignalToAddress addr s
  | CallWaitForAddress handle addr value => snd <$> KConditionVariable.WaitForAddress handle addr value s
  | CallWaitForAddress_resume owner => snd <$> KConditionVariable.WaitForAddress_resume owner s
  | CallSignal key count => KConditionVariable.Signal cv key count s
  | CallWait addr key value timeout => snd <$> KConditionVariable.Wait cv addr key value timeout s
  | CallArbiterSignal addr type value count => snd <$> KAddressArbiter.SignalToAddress arb addr type value count s
  | CallArbiterWait addr type value timeout => snd <$> KAddressArbiter.WaitForAddress arb addr type value timeout s
  | CallSleep timeout => snd <$> Sleep timeout s
  | CallOnTimer x => on_kernel (OnTimer x) s
  | CallWaitCancel x => on_kernel (WaitCancel x) s
  end.

(** A thread that does not wait. *)
Definition runs (x : Z) s : Prop := ∃ t, get_thread x s = Some t ∧ GetState t ≠ ThreadState.Waiting.

(** Calls come from the thread that runs; counts of references do not overflow, and the thread
    that was waited for has another reference. *)
Definition may_call (c : Call) s : Prop :=
  match c with
  | CallRun x => runs x s
  | CallSignalToAddress _ | CallWait _ _ _ _ | CallArbiterWait _ _ _ _ => runs (cur s) s
  | CallWaitForAddress handle _ _ => runs (cur s) s ∧ room s ∧ in_width 32 handle
  | CallWaitForAddress_resume owner => runs (cur s) s ∧ ∃ o, objects (world s) !! owner = Some o ∧ 1 < m_ref_count o
  | CallSignal _ _ => room s
  | CallArbiterSignal _ _ value _ => - 2 ^ 31 ≤ value < 2 ^ 31
  | CallSleep timeout => runs (cur s) s ∧ 0 < timeout
  | CallOnTimer x | CallWaitCancel x => is_Some (get_thread x s)
  end.

Lemma run_thread_ok s x : system_ok cv arb s → system_ok cv arb (with_kernel (run_thread x (kernel s)) s).
Proof using.
  intros [[Hsn Hw] Ht Hta Hh Hb]. split; try done. split; [by apply (sane_ext (kernel s))|exact Hw].
Qed.

Lemma on_kernel_ok s f k' :
  system_ok cv arb s → f (kernel s) = Some k' → calm cv arb k' → kept (kernel s) k' →
  ∃ s', on_kernel f s = Some s' ∧ system_ok cv arb s'.
Proof using.
  intros Hs E Hc Hk. unfold on_kernel. rewrite E. eexists. split; [done|].
  eapply system_follows; [exact Hs|by apply follows_kernel|done].
Qed.

Lemma resume_ok s owner t o :
  system_ok cv arb s → get_thread (cur s) s = Some t → objects (world s) !! owner = Some o → 1 < m_ref_count o →
  ∃ s', KConditionVariable.WaitForAddress_resume owner s = Some (m_wait_result t, s') ∧ system_ok cv arb s'.
Proof using All.
  intros Hs Et Eo Hr. unfold KConditionVariable.WaitForAddress_resume, Close, GetReferenceCount. rewrite Eo. simpl.
  rewrite check_bind_Some by lia. rewrite (proj2 (Z.eqb_neq _ _)) by lia. rewrite Et. eexists. split; [done|].
  eapply system_follows; [exact Hs| |apply Hs]. apply follows_world. intros o' obj Eo' Hr'.
  destruct (decide (o' = owner)) as [->|Hne]; [|exists obj; by rewrite set_ref_lookup_ne].
  rewrite Eo in Eo'. injection Eo' as <-. eexists. split; [by apply set_ref_lookup|]. split; [simpl; lia|done].
Qed.

Lemma call_ok c s : system_ok cv arb s → may_call c s → ∃ s', call c s = Some s' ∧ system_ok cv arb s'.
Proof using All.
  intros Hs Hm. pose proof (so_calm _ _ _ _ Hs) as Hk. destruct c; simpl in Hm |- *.
  - eexists. split; [done|by apply run_thread_ok].
  - destruct Hm as (t & Et & _). destruct (SignalToAddress_ok cv arb s t addr Hs Et) as (k & v & -> & _ & Hc & Hkp).
    eexists. split; [done|]. eapply system_follows; [exact Hs| |exact Hc].
    etrans; [by apply (follows_kernel k)|]. apply (follows_write addr v (with_kernel k s)).
  - destruct Hm as ((t & Et & Hrun) & Hroom & Hh).
    pose proof (WaitForAddress_ok cv arb s t handle addr value Hs Hroom Hh Et Hrun) as Hwf.
    destruct (IsTerminationRequested t); [rewrite Hwf; by exists s|]. destruct (negb _); [rewrite Hwf; by exists s|].
    destruct Hwf as [[-> _]|(o & k & t' & _ & -> & _ & _ & _ & _ & Hok)]; [by exists s|]. by eexists.
  - destruct Hm as ((t & Et & _) & o & Eo & Hr). destruct (resume_ok s owner t o Hs Et Eo Hr) as (s' & -> & Hs'). by exists s'.
  - destruct (so_trees _ _ _ _ Hs) as (_ & [tree Etr] & _).
    destruct (Signal_ok cv arb s tree cv_key count Hs Hm Etr) as (ws & s1 & s' & -> & Ha & _ & _ & Hend & _).
    exists s'. split; [done|]. pose proof (sa_ok _ _ _ _ _ _ Ha) as Hs1. destruct Hend as [->|(-> & _)]; [|done].
    eapply system_follows; [exact Hs1|apply follows_write|apply Hs1].
  - destruct Hm as (t & Et & Hrun). pose proof (Wait_ok cv arb s t addr key value timeout Hs Et Hrun) as Hwf.
    destruct (IsTerminationRequested t); [rewrite Hwf; by exists s|].
    destruct Hwf as (k1 & k2 & tag & outcome & s' & -> & _ & _ & Hs' & _). by exists s'.
  - destruct (arb_tree_exists cv arb s Hs) as [_ [tree Etr]].
    pose proof (arbiter_signal_ok cv arb s tree addr type value count Hs Etr Hm) as Hsg. cbv zeta in Hsg.
    destruct (_ && _); [rewrite Hsg; by exists s|]. destruct Hsg as (k' & -> & _ & Hok). by eexists.
  - destruct Hm as (t & Et & Hrun). pose proof (arbiter_wait_ok cv arb s t addr type value timeout Hs Et Hrun) as Hwf.
    cbv zeta in Hwf. destruct (IsTerminationRequested t); [rewrite Hwf; by exists s|].
    destruct (negb _); [rewrite Hwf; by exists s|]. destruct (timeout =? 0).
    + destruct Hwf as [-> Hok]. by eexists.
    + destruct Hwf as (k' & t' & -> & _ & Hok). by eexists.
  - destruct Hm as ((t & Et & Hrun) & Hto). pose proof (Sleep_ok cv arb s t timeout Hs Et Hrun Hto) as Hsl.
    destruct (IsTerminationRequested t); [rewrite Hsl; by exists s|]. destruct Hsl as (k & t' & -> & Hok & _). by eexists.
  - destruct Hm as [t Et]. destruct (OnTimer_calm cv arb (kernel s) x t Hk Et) as (k' & E & Hc & Hkp).
    by eapply on_kernel_ok.
  - destruct Hm as [t Et]. destruct (WaitCancel_calm cv arb (kernel s) x t Hk Et) as (k' & E & Hc & Hkp).
    by eapply on_kernel_ok.
Qed.

Definition call_step s s' : Prop := ∃ c, may_call c s ∧ call c s = Some s'.

(** * Properties *)

(** C26: from a system in order, every sequence of calls that synchronize threads, each from a
    thread that runs, of time-outs, of cancellations and of switches between threads leads to
    a system in order, in which each of the calls returns: no assertion fails, no pointer is
    null, no tree or handle leads nowhere. In order means: what the invariant of threads says,
    and that every waiting thread sits where its queue says (behind a lock's owner, in the tree
    of the condition variables or of the arbiter, or nowhere when it sleeps) and every other
    thread sits nowhere. *)
Theorem sync_calls_in_order s0 s :
  system_ok cv arb s0 → rtc call_step s0 s →
  system_ok cv arb s ∧ ∀ c, may_call c s → is_Some (call c s).
Proof using All.
  intros H0 H1. assert (system_ok cv arb s) as Hs.
  { induction H1 as [|s1 s2 s3 (c & Hm & E) _ IH]; [done|]. apply IH.
    destruct (call_ok c s1 H0 Hm) as (s' & E' & Hs'). rewrite E in E'. by injection E' as ->. }
  split; [done|]. intros c Hm. destruct (call_ok c s Hs Hm) as (s' & -> & _). by eexists.
Qed.

(** [SignalToAddress] hands the lock at the address to the thread that waits for it with
    the highest priority: the word becomes the tag that thread asked for, with the wait mask
    exactly when other threads wait, who now wait for the new owner; the new owner runs with
    success, and no other thread changes. Without a waiter the word becomes 0 and nothing else
    changes. *)
Theorem SignalToAddress_unlocks s t addr :
  system_ok cv arb s → get_thread (cur s) s = Some t →
  ∃ k value, KConditionVariable.SignalToAddress addr s
      = Some (ResultSuccess, with_memory (Write32 addr value (memory s)) (with_kernel k s))
    ∧ released (kernel s) k (cur s) addr ResultSuccess value
    ∧ (accessible addr (memory s) = true → in_width 32 value → Read32 addr (Write32 addr value (memory s)) = value).
Proof using All.
  intros Hs Et. destruct (SignalToAddress_ok cv arb s t addr Hs Et) as (k & value & E & Hr & _).
  exists k, value. split; [done|]. split; [done|]. apply Read32_Write32.
Qed.

(** C28: [WaitForAddress] returns at once when the thread is to terminate, when the word is not
    the owner's handle with the wait mask, or when the handle is not a thread's; otherwise the
    thread sleeps behind the owner that the handle names, with the address and the tag it
    asks for, and the owner has one reference more. Every other thread waits for whom it
    waited, and keeps its state, wait queue, wait result, keys and base priority; what may
    change is that the owner holds the lock, and that it and those it waits for inherit the
    priority of the sleeping thread. *)
Theorem WaitForAddress_blocks s t handle addr value :
  system_ok cv arb s → room s → in_width 32 handle → get_thread (cur s) s = Some t → GetState t ≠ ThreadState.Waiting →
  if IsTerminationRequested t then
    KConditionVariable.WaitForAddress handle addr value s = Some (Returns ResultTerminationRequested, None, s)
  else if negb (Read32 addr (memory s) =? Z.lor handle HandleWaitMask) then
    KConditionVariable.WaitForAddress handle addr value s = Some (Returns ResultSuccess, None, s)
  else
    (KConditionVariable.WaitForAddress handle addr value s = Some (Returns ResultInvalidHandle, None, s)
     ∧ ∀ o obj, valid_at (handle_table s) handle o → objects (world s) !! o = Some obj →
         KClassTokenGenerator.IsDerivedFrom (class_token obj) thread_class = false)
    ∨ ∃ o k t', valid_at (handle_table s) handle o
        ∧ KConditionVariable.WaitForAddress handle addr value s
          = Some (Sleeps, Some o, with_kernel k (with_world (inc o (world s)) s))
        ∧ put_to_sleep (kernel s) k (cur s) (MkQueue WaitForAddress false) (Some o) t'
        ∧ m_address_key t' = addr ∧ m_address_key_value t' = value.
Proof using All.
  intros Hs Hroom Hh Et Hrun. pose proof (WaitForAddress_ok cv arb s t handle addr value Hs Hroom Hh Et Hrun) as Hw.
  destruct (IsTerminationRequested t); [done|]. destruct (negb _); [done|].
  destruct Hw as [Hw|(o & k & t' & H1 & H2 & H3 & H4 & H5 & _ & _)]; [by left|right]. by exists o, k, t'.
Qed.

(** C27: a lock goes from its owner to the thread that waits for it. When a thread waits with
    [WaitForAddress] for the lock of [o], for which nobody else waits, and [o] then runs and
    calls [SignalToAddress], the waiting thread runs with success, waits for nothing, and the
    word holds the tag it asked for. *)
Theorem lock_goes_to_waiter s t handle addr value o obj :
  system_ok cv arb s → room s → in_width 32 handle → get_thread (cur s) s = Some t → GetState t ≠ ThreadState.Waiting →
  IsTerminationRequested t = false → Read32 addr (memory s) = Z.lor handle HandleWaitMask →
  valid_at (handle_table s) handle o → objects (world s) !! o = Some obj →
  KClassTokenGenerator.IsDerivedFrom (class_token obj) thread_class = true →
  (∀ w, ¬ waits_at (kernel s) o addr w) →
  ∃ s1 s2 t', KConditionVariable.WaitForAddress handle addr value s = Some (Sleeps, Some o, s1)
    ∧ KConditionVariable.SignalToAddress addr (with_kernel (run_thread o (kernel s1)) s1) = Some (ResultSuccess, s2)
    ∧ get_thread (cur s) s2 = Some t' ∧ awake ResultSuccess t' ∧ waits (kernel s2) (cur s) = None
    ∧ memory s2 = Write32 addr value (memory s).
Proof using All.
  intros Hs Hroom Hh Et Hrun Hterm Hword Hv Eo Hclass Hnone.
  pose proof (WaitForAddress_ok cv arb s t handle addr value Hs Hroom Hh Et Hrun) as Hw.
  rewrite Hterm, Hword, Z.eqb_refl in Hw. cbn [negb] in Hw.
  destruct Hw as [[_ Hc]|(o' & k & t1 & Hv' & E & [Ps1 [Ps2 Ps3] Ps4 Ps5] & Ha & Hva & Hu & Hok)]; [by rewrite (Hc o obj) in Hclass|].
  rewrite (valid_at_fun _ _ _ _ Hv' Hv) in *. clear o' Hv'. set (s1 := with_kernel k _) in *.
  assert (is_Some (threads k !! o)) as [to Eto].
  { destruct (so_handles _ _ _ _ Hok handle o Hh Hv) as (obj' & Eo' & _ & Hd). apply Hd. simpl in Eo'.
    rewrite lookup_alter_eq, Eo in Eo'. by injection Eo' as <-. }
  destruct (SignalToAddress_ok cv arb _ to addr (run_thread_ok s1 o Hok) Eto) as (k2 & v & E2 & Hr & _).
  assert (waits_at k o addr (cur s)) as Hx.
  { split; [by rewrite Ps4, decide_True|]. by exists t1. }
  assert (∀ w, waits_at k o addr w → w = cur s) as Honly.
  { intros w [Hw1 (tw & Ew & Hw2)]. destruct (decide (w = cur s)) as [|Hne]; [done|]. destruct (Hnone w).
    rewrite Ps4, decide_False in Hw1 by done. split; [done|]. specialize (Ps5 w Hne). rewrite Ew in Ps5. symmetry in Ps5.
    apply fmap_Some in Ps5 as (tw0 & Ew0 & Hct). exists tw0. injection Hct. intros. destruct Hw2. split_and!; congruence. }
  destruct Hr as [(_ & _ & Hn)|(w & rest & [Hws _ Hnd (t0 & t2 & Et0 & Et2 & Haw & Hval) Hw2 _])]; [by destruct (Hn (cur s))|].
  assert (w = cur s) as -> by (apply Honly, Hws; left).
  assert (rest = []) as ->.
  { destruct rest as [|y rest]; [done|]. apply NoDup_cons in Hnd as [Hnd _]. destruct Hnd.
    rewrite <-(Honly y); [left|]. apply Hws. right. left. }
  exists s1. eexists. exists t2. split; [exact E|]. split; [exact E2|]. split; [exact Et2|]. split; [done|]. split; [simpl; by rewrite Hw2, decide_True|]. simpl.
  change (threads k !! cur s = Some t0) in Et0. rewrite Ps1 in Et0. injection Et0 as <-.
  by rewrite Hval, Hva.
Qed.

(** a thread that is signalled asks for its lock again. The word at its address becomes its
    own tag when it was 0, and the thread runs with success; otherwise the word gets the wait
    mask and the thread waits for the thread whose handle the word held, or runs with an
    error when there is no such thread. No other thread changes and no reference is kept. *)
Theorem SignalImpl_relocks s x t :
  system_but cv arb (Some x) s → room s → removed cv (kernel s) x t →
  ∃ s', KConditionVariable.SignalImpl x s = Some s' ∧ signalled cv arb s s' x t.
Proof using All. apply SignalImpl_ok. Qed.

(** C29: [Signal] takes threads that wait at the key out of the tree, beginning with the one that
    has the highest priority, each of which then runs or waits for its lock. Every other
    thread waits for whom it waited, and keeps its state, wait queue, wait result, keys and
    base priority, though the owner of such a lock may inherit a priority, and so may those
    it waits for. There are no more of them than the count says, if it is positive; the word
    at the key is cleared unless as many as the count have been signalled and another thread
    still waits at the key. With a count of 1 it is left alone exactly when more than one
    thread waited at the key before. *)
Theorem Signal_wakes s tree key count :
  system_ok cv arb s → room s → thread_trees (kernel s) !! cv = Some tree →
  ∃ ws s1 s', KConditionVariable.Signal cv key count s = Some s' ∧ signalled_all cv arb s s1 key ws
    ∧ head ws = head (waiters_at (kernel s) tree key) ∧ (0 < count → Z.of_nat (length ws) ≤ count)
    ∧ (s' = with_memory (Write32 key 0 (memory s1)) s1
       ∨ s' = s1 ∧ count = Z.of_nat (length ws) ∧ ∃ x, waits_in cv key (kernel s1) x)
    ∧ (count = 1 → s' = if decide (1 < length (waiters_at (kernel s) tree key))%nat then s1
                        else with_memory (Write32 key 0 (memory s1)) s1).
Proof using All. apply Signal_ok. Qed.

(** [Wait] of a condition variable, unless the thread is to terminate, releases the lock at
    the address as [SignalToAddress] does and marks the word at the key; with a time-out of 0
    it then returns, otherwise the thread sleeps in the tree at the key, with the address and
    the tag for its return, and with a timer when the time-out is positive. *)
Theorem Wait_releases s t addr key value timeout :
  system_ok cv arb s → get_thread (cur s) s = Some t → GetState t ≠ ThreadState.Waiting →
  if IsTerminationRequested t then
    KConditionVariable.Wait cv addr key value timeout s = Some (Returns ResultTerminationRequested, s)
  else ∃ k1 k2 tag outcome s', KConditionVariable.Wait cv addr key value timeout s = Some (outcome, s')
    ∧ released (kernel s) k1 (cur s) addr ResultSuccess tag
    ∧ s' = with_kernel k2 (with_memory (Write32 addr tag (Write32 key 1 (memory s))) s) ∧ system_ok cv arb s'
    ∧ if timeout =? 0 then outcome = Returns ResultTimedOut ∧ k2 = k1
      else outcome = Sleeps ∧ ∃ t', sleeps_in cv key timeout (MkQueue (WaitConditionVariable cv) (0 <? timeout)) k1 k2 (cur s) t'
             ∧ m_address_key t' = addr ∧ m_address_key_value t' = value.
Proof using All. apply Wait_ok. Qed.

(** C30: a signal of the address arbiter wakes, with success, exactly the first [count] of the
    threads that wait at the address, in the order of their priorities, or all of them when
    the count is not positive, and changes no other thread. The two types that compare do so
    only when the word has the given value, and otherwise fail without any change; one adds 1
    to the word, the other adds 1 when nobody waits, -2 when all waiters are woken by a count
    that is not positive, -1 when there are no more waiters than the count, and else nothing. *)
Theorem arbiter_signal_wakes s tree addr type value count :
  system_ok cv arb s → thread_trees (kernel s) !! arb = Some tree → - 2 ^ 31 ≤ value < 2 ^ 31 →
  let ws := waiters_at (kernel s) tree addr in
  let v := signal_writes type value count (Z.of_nat (length ws)) in
  if compares type && negb (KAddressArbiter.ReadSigned addr s =? value) then
    KAddressArbiter.SignalToAddress arb addr type value count s = Some (ResultInvalidState, s)
  else ∃ k', KAddressArbiter.SignalToAddress arb addr type value count s
      = Some (ResultSuccess, with_kernel k' (store addr v s))
    ∧ woken_all cv arb (kernel s) k' (first_waiters count ws)
    ∧ StronglySorted (λ a b, prio (kernel s) a ≤ prio (kernel s) b) ws.
Proof using All.
  intros Hs Etr Hv ws v. pose proof (arbiter_signal_ok cv arb s tree addr type value count Hs Etr Hv) as Hw.
  cbv zeta in Hw. fold ws in Hw. fold v in Hw. destruct (_ && _); [done|]. destruct Hw as (k' & E & Hwk & _).
  exists k'. split; [done|]. split; [done|]. by eapply waiters_sorted, Etr; apply Hs.
Qed.

(** a wait of the address arbiter returns at once when the thread is to terminate or when the
    word, read as signed, is not below (or not equal to) the value; otherwise the type that
    decrements takes 1 from the word, and the thread sleeps in the tree at the address, with a
    timer when the time-out is positive, or returns if the time-out is 0. *)
Theorem arbiter_wait_sleeps s t addr type value timeout :
  system_ok cv arb s → get_thread (cur s) s = Some t → GetState t ≠ ThreadState.Waiting →
  let word := KAddressArbiter.ReadSigned addr s in
  let s1 := store addr (wait_writes type word) s in
  if IsTerminationRequested t then
    KAddressArbiter.WaitForAddress arb addr type value timeout s = Some (Returns ResultTerminationRequested, s)
  else if negb (wait_holds type word value) then
    KAddressArbiter.WaitForAddress arb addr type value timeout s = Some (Returns ResultInvalidState, s)
  else if timeout =? 0 then
    KAddressArbiter.WaitForAddress arb addr type value timeout s = Some (Returns ResultTimedOut, s1)
  else ∃ k' t', KAddressArbiter.WaitForAddress arb addr type value timeout s = Some (Sleeps, with_kernel k' s1)
    ∧ sleeps_in arb addr timeout (MkQueue (AddressArbiter arb) (0 <? timeout)) (kernel s) k' (cur s) t'.
Proof using All.
  intros Hs Et Hrun word s1. pose proof (arbiter_wait_ok cv arb s t addr type value timeout Hs Et Hrun) as Hw.
  cbv zeta in Hw. fold word in Hw. fold s1 in Hw. destruct (IsTerminationRequested t); [done|]. destruct (negb _); [done|].
  destruct (timeout =? 0); [apply Hw|]. destruct Hw as (k' & t' & E & Hsl & _). by exists k', t'.
Qed.
End calls.

(** * A process of four threads *)
Definition cv_tree_id : Z := 900.
Definition arb_tree_id : Z := 901.

(** The four threads of ThreadSpec.v, all of them runnable, the first running. *)
Definition all_runnable : Kernel :=
  foldl (λ k x, after (OpSetState x ThreadState.Runnable) k) kernel0 [1; 2; 3; 4].
Definition process_kernel : Kernel := with_trees {[cv_tree_id := []; arb_tree_id := []]} all_runnable.

(** Handles of the four threads, each with a reference of its own. *)
Definition threads_world : World :=
  {| objects := gset_to_gmap {| m_ref_count := 1; class_token := thread_class |} {[1; 2; 3; 4]};
     registered_objects := {[1; 2; 3; 4]}; registered_in_use_objects := ∅ |}.
Definition add_thread (tw : KHandleTable * World) (x : Z) : KHandleTable * World :=
  match Add x tw.1 tw.2 with Some (_, _, t, w) => (t, w) | None => tw end.
Definition process_table : KHandleTable * World :=
  foldl add_thread (default new_KHandleTable (snd <$> Initialize 4 new_KHandleTable), threads_world) [1; 2; 3; 4].

Definition handle_of (x : Z) : Z := EncodeHandle (4 - x) x.

(** The words at 4096, where thread 1 holds a lock, and at 4100, 4104 and 4108. *)
Definition process_memory : Memory :=
  Write32 4096 (Z.lor (handle_of 1) HandleWaitMask) (gset_to_gmap 0 (list_to_set (seqZ 4096 16))).
Definition process0 : System := MkSystem process_kernel process_memory process_table.1 process_table.2.

Example handles : map (λ x, GetObjectImpl (handle_of x) (handle_table process0)) [1; 2; 3; 4] = [Some 1; Some 2; Some 3; Some 4].
Proof. vm_compute. reflexivity. Qed.

Lemma empty_trees_sane k c d :
  sane k → map_Forall (λ _ t, m_condvar_tree t = None) (threads k) → sane (with_trees {[c := []; d := []]} k).
Proof.
  intros [[L C [S1 S2 S3] P] I] Hn. split; [split|]; try done. simpl. split.
  - intros c' tree x E. assert (tree = []) as -> by (apply lookup_insert_Some in E as [[_ <-]|[_ [_ <-]%lookup_singleton_Some]]; done).
    split; [by intros ?%not_elem_of_nil|]. intros (t & Et & Ec). specialize (Hn x t Et). simpl in Hn. congruence.
  - intros x t c' Et Ec. specialize (Hn x t Et). simpl in Hn. congruence.
  - intros c' tree E. assert (tree = []) as -> by (apply lookup_insert_Some in E as [[_ <-]|[_ [_ <-]%lookup_singleton_Some]]; done). constructor.
  - intros c' tree E. assert (tree = []) as -> by (apply lookup_insert_Some in E as [[_ <-]|[_ [_ <-]%lookup_singleton_Some]]; done). constructor.
Qed.

Definition quiet_thread k (x : Z) (t : KThread) : Prop :=
  GetState t = ThreadState.Runnable ∧ m_condvar_tree t = None ∧ waits k x = None.

Lemma all_runnable_sane : sane all_runnable ∧ map_Forall (quiet_thread all_runnable) (threads all_runnable).
Proof.
  split; [|apply (bool_decide_unpack _); vm_compute; exact I].
  unfold all_runnable. cbn [foldl]. repeat (apply runnable_sane; [|by_eval]). apply kernel0_sane.
Qed.

Lemma add_thread_ok (tw : KHandleTable * World) x :
  (table_ok tw.1 ∧ ∃ m, represents tw.1 m) → x ≠ 0 → live 1 tw.2 x → m_count tw.1 < m_table_size tw.1 →
  table_ok (add_thread tw x).1 ∧ ∃ m, represents (add_thread tw x).1 m.
Proof.
  intros [Ht [m Hr]] Hx Hl Hc. destruct (Add_ok tw.1 tw.2 m x Ht Hr Hx Hl Hc) as (h & t' & w' & E & Ht' & _ & _ & Hr' & _).
  unfold add_thread. rewrite E. split; [done|]. by eexists.
Qed.

Lemma process_table_ok : table_ok process_table.1.
Proof.
  assert (let t0 := default new_KHandleTable (snd <$> Initialize 4 new_KHandleTable) in table_ok t0 ∧ ∃ m, represents t0 m) as H0.
  { destruct (Initialize_ok 4 {| m_entry_infos := m_entry_infos new_KHandleTable;
      m_objects := m_objects new_KHandleTable; m_free_head_index := -1; m_table_size := 4;
      m_max_count := 0; m_next_linear_id := MinLinearId; m_count := 0 |})
      as (t' & E & Hok & Hrep & _); [done..|]. intros t0.
    assert (t0 = t') as ->; [|by split; [|exists ∅]]. vm_compute in E. injection E as <-. vm_compute. reflexivity. }
  refine (proj1 (_ : _ ∧ ∃ m, represents process_table.1 m)). unfold process_table. cbn [foldl].
  do 4 (apply add_thread_ok; [|done|eexists; split; [vm_compute; reflexivity|by split]|vm_compute; reflexivity]).
  exact H0.
Qed.

Lemma process0_ok : system_ok cv_tree_id arb_tree_id process0.
Proof.
  destruct all_runnable_sane as [Hs Hq]. split.
  - split; [apply empty_trees_sane; [done|]|].
    + eapply map_Forall_impl; [exact Hq|]. by intros x t (_ & ? & _).
    + intros x t _ Et. destruct (Hq x t Et) as (H1 & H2 & H3). unfold waiting_ok. rewrite H1. by split.
  - split; [done|]. by split; eexists.
  - exact process_table_ok.
  - intros h o _ (_ & _ & _ & Ho & Hne & _). apply list_elem_of_lookup_2 in Ho.
    assert (Forall (λ o, o = 0 ∨ o ∈ [1; 2; 3; 4]) (m_objects (handle_table process0))) as Hall by by_eval.
    rewrite Forall_forall in Hall. destruct (Hall o Ho) as [?|Hin]; [done|]. clear Ho Hall.
    repeat (apply elem_of_cons in Hin as [->|Hin]); [..|by apply not_elem_of_nil in Hin];
      (eexists; split; [vm_compute; reflexivity|]; split; [done|]; intros _; by_eval).
  - by_eval.
Qed.

(** Thread 2 waits for the lock of thread 1, 3 on a condition variable and 4 on the arbiter;
    thread 1 runs again. *)
Notation process_call := (call (H := ex_methods) cv_tree_id arb_tree_id).
Definition after_call (c : Call) (s : System) : System := default s (process_call c s).
Definition process1 : System := after_call (CallRun 2) process0.
Definition process2 : System := after_call (CallWaitForAddress (handle_of 1) 4096 (handle_of 2)) process1.
Definition process3 : System := after_call (CallRun 3) process2.
Definition process4 : System := after_call (CallWait 4100 4104 (handle_of 3) (-1)) process3.
Definition process5 : System := after_call (CallRun 4) process4.
Definition process6 : System := after_call (CallArbiterWait 4108 KAddressArbiter.Type_WaitIfEqual 0 1000) process5.
Definition process7 : System := after_call (CallRun 1) process6.

Notation process_step := (call_step (H := ex_methods) cv_tree_id arb_tree_id).
Lemma after_call_step c s : may_call c s → is_Some (process_call c s) → process_step s (after_call c s).
Proof. intros Hm [s' E]. exists c. split; [done|]. unfold after_call. by rewrite E. Qed.

Lemma room_eval s : map_Forall (λ _ o, m_ref_count o + 1 < 2 ^ 32) (objects (world s)) → room s.
Proof. done. Qed.

Ltac by_running := eexists; split; [vm_compute; reflexivity|by_eval].

Lemma process_steps :
  process_step process0 process1 ∧ process_step process1 process2 ∧ process_step process2 process3
  ∧ process_step process3 process4 ∧ process_step process4 process5 ∧ process_step process5 process6
  ∧ process_step process6 process7.
Proof.
  split_and!; apply after_call_step; try by_eval; try by_running.
  split; [by_running|]. split; [apply room_eval; by_eval|by split].
Qed.

Lemma process_ok : system_ok cv_tree_id arb_tree_id process1 ∧ system_ok cv_tree_id arb_tree_id process3
  ∧ system_ok cv_tree_id arb_tree_id process5 ∧ system_ok cv_tree_id arb_tree_id process7.
Proof.
  assert (∀ s s', process_step s s' → system_ok cv_tree_id arb_tree_id s → system_ok cv_tree_id arb_tree_id s') as Hs.
  { intros s s' (c & Hm & E) Hok. destruct (call_ok (H := ex_methods) _ _ c s Hok Hm) as (s1 & E1 & H1). rewrite E in E1. by injection E1 as <-. }
  destruct process_steps as (H1 & H2 & H3 & H4 & H5 & H6 & H7). pose proof (Hs _ _ H1 process0_ok) as S1.
  pose proof (Hs _ _ H3 (Hs _ _ H2 S1)) as S3. pose proof (Hs _ _ H5 (Hs _ _ H4 S3)) as S5.
  exact (conj S1 (conj S3 (conj S5 (Hs _ _ H7 (Hs _ _ H6 S5))))).
Qed.

Lemma process1_ok : system_ok cv_tree_id arb_tree_id process1.
Proof. exact (proj1 process_ok). Qed.
Lemma process3_ok : system_ok cv_tree_id arb_tree_id process3.
Proof. exact (proj1 (proj2 process_ok)). Qed.
Lemma process5_ok : system_ok cv_tree_id arb_tree_id process5.
Proof. exact (proj1 (proj2 (proj2 process_ok))). Qed.
Lemma process7_ok : system_ok cv_tree_id arb_tree_id process7.
Proof. exact (proj2 (proj2 (proj2 process_ok))). Qed.

(** The states of the threads, what they wait for, the trees and the words. *)
Example process_waits :
  (map (λ x, GetState <$> get_thread x process7) [1; 2; 3; 4], map (waits (kernel process7)) [1; 2; 3; 4],
   thread_trees (kernel process7) !! cv_tree_id, thread_trees (kernel process7) !! arb_tree_id,
   map (λ a, Read32 a (memory process7)) [4096; 4100; 4104; 4108])
  = ([Some 2; Some 1; Some 1; Some 1], [None; Some 1; None; None], Some [3], Some [4],
     [Z.lor (handle_of 1) HandleWaitMask; 0; 1; 0]).
Proof. vm_compute. reflexivity. Qed.

(** * Witnesses *)
Definition thread_in (x : Z) (s : System) : KThread := default (new_thread 0 0) (get_thread x s).

Lemma sync_calls_in_order_witness :
  system_ok cv_tree_id arb_tree_id process7 ∧ ∀ c, may_call c process7 → is_Some (process_call c process7).
Proof.
  apply (sync_calls_in_order (H := ex_methods) cv_tree_id arb_tree_id process0 process7).
  - exact process0_ok.
  - destruct process_steps as (H1 & H2 & H3 & H4 & H5 & H6 & H7).
    exact (rtc_l _ _ _ _ H1 (rtc_l _ _ _ _ H2 (rtc_l _ _ _ _ H3 (rtc_l _ _ _ _ H4 (rtc_l _ _ _ _ H5 (rtc_l _ _ _ _ H6 (rtc_once _ _ H7))))))).
Defined.

Lemma SignalToAddress_unlocks_witness :
  ∃ k value, KConditionVariable.SignalToAddress 4096 process7
      = Some (ResultSuccess, with_memory (Write32 4096 value (memory process7)) (with_kernel k process7))
    ∧ released (kernel process7) k (cur process7) 4096 ResultSuccess value
    ∧ (accessible 4096 (memory process7) = true → in_width 32 value → Read32 4096 (Write32 4096 value (memory process7)) = value).
Proof.
  apply (SignalToAddress_unlocks (H := ex_methods) cv_tree_id arb_tree_id process7 (thread_in 1 process7) 4096);
    [exact process7_ok|vm_compute; reflexivity].
Defined.

Lemma WaitForAddress_blocks_witness :
  (KConditionVariable.WaitForAddress (handle_of 1) 4096 77 process1 = Some (Returns ResultInvalidHandle, None, process1)
   ∧ ∀ o obj, valid_at (handle_table process1) (handle_of 1) o → objects (world process1) !! o = Some obj →
       KClassTokenGenerator.IsDerivedFrom (class_token obj) thread_class = false)
  ∨ ∃ o k t', valid_at (handle_table process1) (handle_of 1) o
      ∧ KConditionVariable.WaitForAddress (handle_of 1) 4096 77 process1
        = Some (Sleeps, Some o, with_kernel k (with_world (inc o (world process1)) process1))
      ∧ put_to_sleep (kernel process1) k (cur process1) (MkQueue WaitForAddress false) (Some o) t'
      ∧ m_address_key t' = 4096 ∧ m_address_key_value t' = 77.
Proof.
  apply (WaitForAddress_blocks (H := ex_methods) cv_tree_id arb_tree_id process1 (thread_in 2 process1) (handle_of 1) 4096 77);
    [exact process1_ok|apply room_eval; by_eval|by split|vm_compute; reflexivity|by_eval].
Defined.

Lemma nobody_waits k x addr : map_Forall (λ w _, waits k w = None) (threads k) → ∀ w, ¬ waits_at k x addr w.
Proof.
  intros Hall w [Hw _]. destruct (threads k !! w) as [t|] eqn:E; [specialize (Hall w t E); simpl in Hall; congruence|].
  unfold waits, waits_on in Hw. by rewrite E in Hw.
Qed.

Lemma lock_goes_to_waiter_witness :
  ∃ s1 s2 t', KConditionVariable.WaitForAddress (handle_of 1) 4096 77 process1 = Some (Sleeps, Some 1, s1)
    ∧ KConditionVariable.SignalToAddress 4096 (with_kernel (run_thread 1 (kernel s1)) s1) = Some (ResultSuccess, s2)
    ∧ get_thread (cur process1) s2 = Some t' ∧ awake ResultSuccess t' ∧ waits (kernel s2) (cur process1) = None
    ∧ memory s2 = Write32 4096 77 (memory process1).
Proof.
  apply (lock_goes_to_waiter (H := ex_methods) cv_tree_id arb_tree_id process1 (thread_in 2 process1) (handle_of 1) 4096 77 1
    {| m_ref_count := 2; class_token := thread_class |});
    [exact process1_ok|apply room_eval; by_eval|by split|vm_compute; reflexivity|by_eval|vm_compute; reflexivity..| |vm_compute; reflexivity|
     vm_compute; reflexivity|].
  - by_eval.
  - apply nobody_waits. by_eval.
Defined.

(** Thread 3 on its way from the tree to its lock. *)
Definition process8 : System := default process7 (on_kernel (leave_tree cv_tree_id 3) process7).

Lemma process8_ok : system_but cv_tree_id arb_tree_id (Some 3) process8.
Proof.
  destruct (left_tree cv_tree_id arb_tree_id process7 3 (thread_in 3 process7) cv_tree_id)
    as (tree & k & _ & _ & E & Hs & _); [exact process7_ok|vm_compute; reflexivity..|].
  unfold process8, on_kernel. rewrite E. exact Hs.
Qed.

Lemma SignalImpl_relocks_witness :
  ∃ s', KConditionVariable.SignalImpl (H := ex_methods) 3 process8 = Some s'
    ∧ signalled cv_tree_id arb_tree_id process8 s' 3 (thread_in 3 process8).
Proof.
  apply (SignalImpl_relocks (H := ex_methods) cv_tree_id arb_tree_id process8 3 (thread_in 3 process8));
    [exact process8_ok|apply room_eval; by_eval|].
  split; [vm_compute; reflexivity|]. split; [vm_compute; reflexivity|]. split; [vm_compute; reflexivity|]. split; [vm_compute; reflexivity|].
  exists (MkQueue (WaitConditionVariable cv_tree_id) false). split; vm_compute; reflexivity.
Defined.

Lemma Signal_wakes_witness :
  ∃ ws s1 s', KConditionVariable.Signal (H := ex_methods) cv_tree_id 4104 1 process7 = Some s'
    ∧ signalled_all cv_tree_id arb_tree_id process7 s1 4104 ws
    ∧ head ws = head (waiters_at (kernel process7) [3] 4104) ∧ (0 < 1 → Z.of_nat (length ws) ≤ 1)
    ∧ (s' = with_memory (Write32 4104 0 (memory s1)) s1
       ∨ s' = s1 ∧ 1 = Z.of_nat (length ws) ∧ ∃ x, waits_in cv_tree_id 4104 (kernel s1) x)
    ∧ (1 = 1 → s' = if decide (1 < length (waiters_at (kernel process7) [3%Z] 4104%Z))%nat then s1
                    else with_memory (Write32 4104 0 (memory s1)) s1).
Proof.
  apply (Signal_wakes (H := ex_methods) cv_tree_id arb_tree_id process7 [3] 4104 1);
    [exact process7_ok|apply room_eval; by_eval|vm_compute; reflexivity].
Defined.

Lemma Wait_releases_witness :
  ∃ k1 k2 tag outcome s', KConditionVariable.Wait cv_tree_id 4100 4104 5 100 process3 = Some (outcome, s')
    ∧ released (kernel process3) k1 (cur process3) 4100 ResultSuccess tag
    ∧ s' = with_kernel k2 (with_memory (Write32 4100 tag (Write32 4104 1 (memory process3))) process3)
    ∧ system_ok cv_tree_id arb_tree_id s'
    ∧ outcome = Sleeps ∧ ∃ t', sleeps_in cv_tree_id 4104 100 (MkQueue (WaitConditionVariable cv_tree_id) true) k1 k2 (cur process3) t'
        ∧ m_address_key t' = 4100 ∧ m_address_key_value t' = 5.
Proof.
  pose proof (Wait_releases (H := ex_methods) cv_tree_id arb_tree_id process3 (thread_in 3 process3) 4100 4104 5 100) as Hw.
  assert (IsTerminationRequested (thread_in 3 process3) = false) as Ht by (vm_compute; reflexivity). rewrite Ht in Hw.
  change (100 =? 0) with false in Hw. change (0 <? 100) with true in Hw. cbv iota in Hw. apply Hw; [exact process3_ok|vm_compute; reflexivity|by_eval].
Defined.

Lemma arbiter_signal_wakes_witness :
  ∃ k', KAddressArbiter.SignalToAddress arb_tree_id 4108 KAddressArbiter.Type_SignalAndModifyByWaitingCountIfEqual 0 2 process7
      = Some (ResultSuccess, with_kernel k' (store 4108 (Some (-1)) process7))
    ∧ woken_all cv_tree_id arb_tree_id (kernel process7) k' (first_waiters 2 (waiters_at (kernel process7) [4] 4108))
    ∧ StronglySorted (λ a b, prio (kernel process7) a ≤ prio (kernel process7) b) (waiters_at (kernel process7) [4] 4108).
Proof.
  pose proof (arbiter_signal_wakes (H := ex_methods) cv_tree_id arb_tree_id process7 [4] 4108
    KAddressArbiter.Type_SignalAndModifyByWaitingCountIfEqual 0 2) as Hw. cbv zeta in Hw.
  assert (KAddressArbiter.ReadSigned 4108 process7 = 0) as Hr by (vm_compute; reflexivity). rewrite Hr in Hw.
  assert (length (waiters_at (kernel process7) [4] 4108) = 1%nat) as Hl by (vm_compute; reflexivity). rewrite Hl in Hw.
  apply Hw; [exact process7_ok|vm_compute; reflexivity|lia].
Defined.

Lemma arbiter_wait_sleeps_witness :
  ∃ k' t', KAddressArbiter.WaitForAddress arb_tree_id 4108 KAddressArbiter.Type_DecrementAndWaitIfLessThan 1 50 process5
      = Some (Sleeps, with_kernel k' (store 4108 (Some (-1)) process5))
    ∧ sleeps_in arb_tree_id 4108 50 (MkQueue (AddressArbiter arb_tree_id) true) (kernel process5) k' (cur process5) t'.
Proof.
  pose proof (arbiter_wait_sleeps (H := ex_methods) cv_tree_id arb_tree_id process5 (thread_in 4 process5) 4108
    KAddressArbiter.Type_DecrementAndWaitIfLessThan 1 50) as Hw. cbv zeta in Hw.
  assert (KAddressArbiter.ReadSigned 4108 process5 = 0) as Hr by (vm_compute; reflexivity). rewrite Hr in Hw.
  assert (IsTerminationRequested (thread_in 4 process5) = false) as Ht by (vm_compute; reflexivity). rewrite Ht in Hw.
  apply Hw; [exact process5_ok|vm_compute; reflexivity|by_eval].
Defined.

(** Thread 4 waits on the condition variable and will want the lock at 4100 back, which 2 has
    taken since; 3 and then 2 wait too. When all are signalled, 4 waits for 2, which inherits its
    priority and moves in the tree to before 3, where the loop already is: 2 is left waiting,
    and the word at the key is cleared. *)
Definition guest_write (addr value : Z) (s : System) : System := with_memory (Write32 addr value (memory s)) s.
Definition broadcast : System :=
  let s := after_call (CallWait 4100 4104 (handle_of 4) (-1)) (after_call (CallRun 4) process0) in
  let s := guest_write 4100 (handle_of 2) s in
  let s := after_call (CallWait 4108 4104 (handle_of 3) (-1)) (after_call (CallRun 3) s) in
  let s := after_call (CallWait 4096 4104 (handle_of 2) (-1)) (after_call (CallRun 2) s) in
  after_call (CallRun 1) s.
Example broadcast_misses_a_waiter :
  let s := after_call (CallSignal 4104 (-1)) broadcast in
  thread_trees (kernel broadcast) !! cv_tree_id = Some [4; 3; 2] ∧ thread_trees (kernel s) !! cv_tree_id = Some [2]
  ∧ GetState <$> get_thread 2 s = Some ThreadState.Waiting ∧ Read32 4104 (memory s) = 0.
Proof. vm_compute. split_and!; reflexivity. Qed.
