(* ===== verification/RedBlackTree.v ===== *)
(** Intrusive red-black trees: the nodes' links, the rotations and colour changes of insertion and
    removal, the searches and the walks (src/src/common/tree.h), and the container over them
    (src/src/common/intrusive_red_black_tree.h).

    A pointer is a number and [nullptr] is 0. A store holds the entries of the nodes; reading or
    writing through a pointer to no node is [None]. *)
From S2P Require Import Prelude.

Definition nullptr : Z := 0.

Inductive RBColor := RB_BLACK | RB_RED.
#[export] Instance RBColor_eq_dec : EqDecision RBColor.
Proof. solve_decision. Defined.

Record RBEntry := MkEntry { m_rbe_left : Z; m_rbe_right : Z; m_rbe_parent : Z; m_rbe_color : RBColor }.

(** The nodes and [RBHead]. *)
Record Store := MkStore { nodes : gmap Z RBEntry; m_rbh_root : Z }.

Definition Root (h : Store) : Z := m_rbh_root h.
Definition SetRoot (p : Z) (h : Store) : Store := MkStore (nodes h) p.
Definition IsEmpty (h : Store) : bool := Root h =? nullptr.

Definition RB_ENTRY (t : Z) (h : Store) : option RBEntry := nodes h !! t.
Definition SetRBEntry (t : Z) (e : RBEntry) (h : Store) : option Store :=
  _ ← RB_ENTRY t h; Some (MkStore (<[t := e]> (nodes h)) (m_rbh_root h)).

Definition RB_LEFT (t : Z) (h : Store) : option Z := m_rbe_left <$> RB_ENTRY t h.
Definition RB_RIGHT (t : Z) (h : Store) : option Z := m_rbe_right <$> RB_ENTRY t h.
Definition RB_PARENT (t : Z) (h : Store) : option Z := m_rbe_parent <$> RB_ENTRY t h.
Definition RB_COLOR (t : Z) (h : Store) : option RBColor := m_rbe_color <$> RB_ENTRY t h.
Definition RB_IS_BLACK (t : Z) (h : Store) : option bool := (λ c, bool_decide (c = RB_BLACK)) <$> RB_COLOR t h.
Definition RB_IS_RED (t : Z) (h : Store) : option bool := (λ c, bool_decide (c = RB_RED)) <$> RB_COLOR t h.

Definition RB_SET_LEFT (t e : Z) (h : Store) : option Store :=
  n ← RB_ENTRY t h; SetRBEntry t (MkEntry e (m_rbe_right n) (m_rbe_parent n) (m_rbe_color n)) h.
Definition RB_SET_RIGHT (t e : Z) (h : Store) : option Store :=
  n ← RB_ENTRY t h; SetRBEntry t (MkEntry (m_rbe_left n) e (m_rbe_parent n) (m_rbe_color n)) h.
Definition RB_SET_PARENT (t e : Z) (h : Store) : option Store :=
  n ← RB_ENTRY t h; SetRBEntry t (MkEntry (m_rbe_left n) (m_rbe_right n) e (m_rbe_color n)) h.
Definition RB_SET_COLOR (t : Z) (c : RBColor) (h : Store) : option Store :=
  n ← RB_ENTRY t h; SetRBEntry t (MkEntry (m_rbe_left n) (m_rbe_right n) (m_rbe_parent n) c) h.
Definition RB_SET (elm parent : Z) (h : Store) : option Store :=
  SetRBEntry elm (MkEntry nullptr nullptr parent RB_RED) h.
Definition RB_SET_BLACKRED (black red : Z) (h : Store) : option Store :=
  h ← RB_SET_COLOR black RB_BLACK h; RB_SET_COLOR red RB_RED h.

(** [t == nullptr || RB_IS_BLACK(t)] and [t && RB_IS_RED(t)] *)
Definition null_or_black (t : Z) (h : Store) : option bool := if t =? nullptr then Some true else RB_IS_BLACK t h.
Definition nonnull_red (t : Z) (h : Store) : option bool := if t =? nullptr then Some false else RB_IS_RED t h.

(** * Rotations *)

(** From the parent of [elm] to [tmp], which takes its place. *)
Definition replace_child (elm tmp : Z) (h : Store) : option Store :=
  parent ← RB_PARENT tmp h;
  if negb (parent =? nullptr) then
    p ← RB_PARENT elm h;
    l ← RB_LEFT p h;
    if elm =? l then RB_SET_LEFT p tmp h else RB_SET_RIGHT p tmp h
  else Some (SetRoot tmp h).

Definition RB_ROTATE_LEFT (elm : Z) (h : Store) : option Store :=
  tmp ← RB_RIGHT elm h;
  inner ← RB_LEFT tmp h;
  h ← RB_SET_RIGHT elm inner h;
  right ← RB_RIGHT elm h;
  h ← (if negb (right =? nullptr) then inner ← RB_LEFT tmp h; RB_SET_PARENT inner elm h else Some h);
  parent ← RB_PARENT elm h;
  h ← RB_SET_PARENT tmp parent h;
  h ← replace_child elm tmp h;
  h ← RB_SET_LEFT tmp elm h;
  RB_SET_PARENT elm tmp h.

Definition RB_ROTATE_RIGHT (elm : Z) (h : Store) : option Store :=
  tmp ← RB_LEFT elm h;
  inner ← RB_RIGHT tmp h;
  h ← RB_SET_LEFT elm inner h;
  left ← RB_LEFT elm h;
  h ← (if negb (left =? nullptr) then inner ← RB_RIGHT tmp h; RB_SET_PARENT inner elm h else Some h);
  parent ← RB_PARENT elm h;
  h ← RB_SET_PARENT tmp parent h;
  h ← replace_child elm tmp h;
  h ← RB_SET_RIGHT tmp elm h;
  RB_SET_PARENT elm tmp h.

(** * Removal *)

(** The two halves of a turn of [RB_REMOVE_COLOR]: whether the loop goes on, and with which
    [parent] and [elm]. *)
Definition remove_left (parent : Z) (h : Store) : option (bool * Z * Z * Store) :=
  tmp ← RB_RIGHT parent h;
  red ← RB_IS_RED tmp h;
  h ← (if red : bool then h ← RB_SET_BLACKRED tmp parent h; RB_ROTATE_LEFT parent h else Some h);
  tmp ← (if red : bool then RB_RIGHT parent h else Some tmp);
  l ← RB_LEFT tmp h; lb ← null_or_black l h;
  r ← RB_RIGHT tmp h; rb ← null_or_black r h;
  if (lb : bool) && rb then
    h ← RB_SET_COLOR tmp RB_RED h;
    pp ← RB_PARENT parent h;
    Some (true, pp, parent, h)
  else
    h ← (if rb : bool then
           oleft ← RB_LEFT tmp h;
           h ← (if negb (oleft =? nullptr) then RB_SET_COLOR oleft RB_BLACK h else Some h);
           h ← RB_SET_COLOR tmp RB_RED h;
           RB_ROTATE_RIGHT tmp h
         else Some h);
    tmp ← (if rb : bool then RB_RIGHT parent h else Some tmp);
    c ← RB_COLOR parent h;
    h ← RB_SET_COLOR tmp c h;
    h ← RB_SET_COLOR parent RB_BLACK h;
    r ← RB_RIGHT tmp h;
    h ← (if negb (r =? nullptr) then RB_SET_COLOR r RB_BLACK h else Some h);
    h ← RB_ROTATE_LEFT parent h;
    Some (false, parent, Root h, h).

Definition remove_right (parent : Z) (h : Store) : option (bool * Z * Z * Store) :=
  tmp ← RB_LEFT parent h;
  red ← RB_IS_RED tmp h;
  h ← (if red : bool then h ← RB_SET_BLACKRED tmp parent h; RB_ROTATE_RIGHT parent h else Some h);
  tmp ← (if red : bool then RB_LEFT parent h else Some tmp);
  l ← RB_LEFT tmp h; lb ← null_or_black l h;
  r ← RB_RIGHT tmp h; rb ← null_or_black r h;
  if (lb : bool) && rb then
    h ← RB_SET_COLOR tmp RB_RED h;
    pp ← RB_PARENT parent h;
    Some (true, pp, parent, h)
  else
    h ← (if lb : bool then
           oright ← RB_RIGHT tmp h;
           h ← (if negb (oright =? nullptr) then RB_SET_COLOR oright RB_BLACK h else Some h);
           h ← RB_SET_COLOR tmp RB_RED h;
           RB_ROTATE_LEFT tmp h
         else Some h);
    tmp ← (if lb : bool then RB_LEFT parent h else Some tmp);
    c ← RB_COLOR parent h;
    h ← RB_SET_COLOR tmp c h;
    h ← RB_SET_COLOR parent RB_BLACK h;
    l ← RB_LEFT tmp h;
    h ← (if negb (l =? nullptr) then RB_SET_COLOR l RB_BLACK h else Some h);
    h ← RB_ROTATE_RIGHT parent h;
    Some (false, parent, Root h, h).

(** The loop, and the colour after it. *)
Fixpoint RB_REMOVE_COLOR_loop (fuel : nat) (parent elm : Z) (h : Store) : option (Z * Store) :=
  match fuel with
  | O => None
  | S fuel =>
      black ← null_or_black elm h;
      if (black : bool) && negb (elm =? Root h) then
        l ← RB_LEFT parent h;
        '(go, parent, elm, h) ← (if l =? elm then remove_left parent h else remove_right parent h);
        if go : bool then RB_REMOVE_COLOR_loop fuel parent elm h else Some (elm, h)
      else Some (elm, h)
  end.
Definition RB_REMOVE_COLOR (parent elm : Z) (h : Store) : option Store :=
  '(elm, h) ← RB_REMOVE_COLOR_loop (S (size (nodes h))) parent elm h;
  if negb (elm =? nullptr) then RB_SET_COLOR elm RB_BLACK h else Some h.

(** [while ((left = RB_LEFT(elm)) != nullptr) elm = left] *)
Fixpoint go_left (fuel : nat) (elm : Z) (h : Store) : option Z :=
  match fuel with
  | O => None
  | S fuel => l ← RB_LEFT elm h; if negb (l =? nullptr) then go_left fuel l h else Some elm
  end.
Fixpoint go_right (fuel : nat) (elm : Z) (h : Store) : option Z :=
  match fuel with
  | O => None
  | S fuel => r ← RB_RIGHT elm h; if negb (r =? nullptr) then go_right fuel r h else Some elm
  end.
Definition fuel_of (h : Store) : nat := S (size (nodes h)).

(** The child of [elm] takes its place under [parent]. *)
Definition link_child (parent elm child : Z) (h : Store) : option Store :=
  h ← (if negb (child =? nullptr) then RB_SET_PARENT child parent h else Some h);
  if negb (parent =? nullptr) then
    l ← RB_LEFT parent h;
    if l =? elm then RB_SET_LEFT parent child h else RB_SET_RIGHT parent child h
  else Some (SetRoot child h).

(** [elm] gets the entry of [old], and the neighbours of [old] are relinked to it. *)
Definition take_place (old elm : Z) (h : Store) : option Store :=
  e ← RB_ENTRY old h;
  h ← SetRBEntry elm e h;
  p ← RB_PARENT old h;
  h ← (if negb (p =? nullptr) then
         l ← RB_LEFT p h;
         if l =? old then RB_SET_LEFT p elm h else RB_SET_RIGHT p elm h
       else Some (SetRoot elm h));
  l ← RB_LEFT old h;
  h ← RB_SET_PARENT l elm h;
  r ← RB_RIGHT old h;
  if negb (r =? nullptr) then RB_SET_PARENT r elm h else Some h.

(** The removal of a node with two children: its successor takes its place. *)
Definition remove_inner (old : Z) (h : Store) : option Store :=
  right ← RB_RIGHT old h;
  elm ← go_left (fuel_of h) right h;
  child ← RB_RIGHT elm h;
  parent ← RB_PARENT elm h;
  color ← RB_COLOR elm h;
  h ← link_child parent elm child h;
  p ← RB_PARENT elm h;
  let parent := if p =? old then elm else parent in
  h ← take_place old elm h;
  if bool_decide (color = RB_BLACK) then RB_REMOVE_COLOR parent child h else Some h.

Definition remove_outer (elm child : Z) (h : Store) : option Store :=
  parent ← RB_PARENT elm h;
  color ← RB_COLOR elm h;
  h ← link_child parent elm child h;
  if bool_decide (color = RB_BLACK) then RB_REMOVE_COLOR parent child h else Some h.

Definition RB_REMOVE (elm : Z) (h : Store) : option (Z * Store) :=
  l ← RB_LEFT elm h;
  r ← RB_RIGHT elm h;
  h ← (if l =? nullptr then remove_outer elm r h
       else if r =? nullptr then remove_outer elm l h
       else remove_inner elm h);
  Some (elm, h).

(** * Insertion *)

(** The two halves of a turn: the element to go on with. *)
Definition insert_left (elm parent gparent : Z) (h : Store) : option (Z * Store) :=
  tmp ← RB_RIGHT gparent h;
  red ← nonnull_red tmp h;
  if red : bool then
    h ← RB_SET_COLOR tmp RB_BLACK h;
    h ← RB_SET_BLACKRED parent gparent h;
    Some (gparent, h)
  else
    r ← RB_RIGHT parent h;
    h ← (if r =? elm then RB_ROTATE_LEFT parent h else Some h);
    let '(parent, elm) := if r =? elm then (elm, parent) else (parent, elm) in
    h ← RB_SET_BLACKRED parent gparent h;
    h ← RB_ROTATE_RIGHT gparent h;
    Some (elm, h).

Definition insert_right (elm parent gparent : Z) (h : Store) : option (Z * Store) :=
  tmp ← RB_LEFT gparent h;
  red ← nonnull_red tmp h;
  if red : bool then
    h ← RB_SET_COLOR tmp RB_BLACK h;
    h ← RB_SET_BLACKRED parent gparent h;
    Some (gparent, h)
  else
    l ← RB_LEFT parent h;
    h ← (if l =? elm then RB_ROTATE_RIGHT parent h else Some h);
    let '(parent, elm) := if l =? elm then (elm, parent) else (parent, elm) in
    h ← RB_SET_BLACKRED parent gparent h;
    h ← RB_ROTATE_LEFT gparent h;
    Some (elm, h).

Fixpoint RB_INSERT_COLOR_loop (fuel : nat) (elm : Z) (h : Store) : option Store :=
  match fuel with
  | O => None
  | S fuel =>
      parent ← RB_PARENT elm h;
      red ← nonnull_red parent h;
      if red : bool then
        gparent ← RB_PARENT parent h;
        l ← RB_LEFT gparent h;
        '(elm, h) ← (if parent =? l then insert_left elm parent gparent h else insert_right elm parent gparent h);
        RB_INSERT_COLOR_loop fuel elm h
      else Some h
  end.
Definition RB_INSERT_COLOR (elm : Z) (h : Store) : option Store :=
  h ← RB_INSERT_COLOR_loop (fuel_of h) elm h;
  RB_SET_COLOR (Root h) RB_BLACK h.

(** The search of the place: the last node, and how [elm] compares to it; or the node that
    compares equal. *)
Fixpoint insert_search (fuel : nat) (cmp : Z → Z) (parent comp tmp : Z) (h : Store) : option (Z * Z + Z) :=
  match fuel with
  | O => None
  | S fuel =>
      if negb (tmp =? nullptr) then
        let parent := tmp in
        let comp := cmp parent in
        if comp <? 0 then tmp ← RB_LEFT tmp h; insert_search fuel cmp parent comp tmp h
        else if 0 <? comp then tmp ← RB_RIGHT tmp h; insert_search fuel cmp parent comp tmp h
        else Some (inr tmp)
      else Some (inl (parent, comp))
  end.

(** The node that compares equal to [elm], which is then not inserted, or [nullptr]. *)
Definition RB_INSERT (elm : Z) (cmp : Z → Z → Z) (h : Store) : option (Z * Store) :=
  found ← insert_search (fuel_of h) (cmp elm) nullptr 0 (Root h) h;
  match found with
  | inr tmp => Some (tmp, h)
  | inl (parent, comp) =>
      h ← RB_SET elm parent h;
      h ← (if negb (parent =? nullptr) then
             if comp <? 0 then RB_SET_LEFT parent elm h else RB_SET_RIGHT parent elm h
           else Some (SetRoot elm h));
      h ← RB_INSERT_COLOR elm h;
      Some (nullptr, h)
  end.

(** * Searches *)
Fixpoint find_loop (fuel : nat) (cmp : Z → Z) (tmp : Z) (h : Store) : option Z :=
  match fuel with
  | O => None
  | S fuel =>
      if negb (tmp =? nullptr) then
        let comp := cmp tmp in
        if comp <? 0 then tmp ← RB_LEFT tmp h; find_loop fuel cmp tmp h
        else if 0 <? comp then tmp ← RB_RIGHT tmp h; find_loop fuel cmp tmp h
        else Some tmp
      else Some nullptr
  end.
Fixpoint nfind_loop (fuel : nat) (cmp : Z → Z) (tmp res : Z) (h : Store) : option Z :=
  match fuel with
  | O => None
  | S fuel =>
      if negb (tmp =? nullptr) then
        let comp := cmp tmp in
        if comp <? 0 then let res := tmp in tmp ← RB_LEFT tmp h; nfind_loop fuel cmp tmp res h
        else if 0 <? comp then tmp ← RB_RIGHT tmp h; nfind_loop fuel cmp tmp res h
        else Some tmp
      else Some res
  end.
Fixpoint find_existing_loop (fuel : nat) (cmp : Z → Z) (tmp : Z) (h : Store) : option Z :=
  match fuel with
  | O => None
  | S fuel =>
      let comp := cmp tmp in
      if comp <? 0 then tmp ← RB_LEFT tmp h; find_existing_loop fuel cmp tmp h
      else if 0 <? comp then tmp ← RB_RIGHT tmp h; find_existing_loop fuel cmp tmp h
      else Some tmp
  end.

Definition RB_FIND (elm : Z) (cmp : Z → Z → Z) (h : Store) : option Z := find_loop (fuel_of h) (cmp elm) (Root h) h.
Definition RB_NFIND (elm : Z) (cmp : Z → Z → Z) (h : Store) : option Z := nfind_loop (fuel_of h) (cmp elm) (Root h) nullptr h.
Definition RB_FIND_EXISTING (elm : Z) (cmp : Z → Z → Z) (h : Store) : option Z :=
  find_existing_loop (fuel_of h) (cmp elm) (Root h) h.
Definition RB_FIND_KEY {U} (key : U) (cmp : U → Z → Z) (h : Store) : option Z := find_loop (fuel_of h) (cmp key) (Root h) h.
Definition RB_NFIND_KEY {U} (key : U) (cmp : U → Z → Z) (h : Store) : option Z :=
  nfind_loop (fuel_of h) (cmp key) (Root h) nullptr h.
Definition RB_FIND_EXISTING_KEY {U} (key : U) (cmp : U → Z → Z) (h : Store) : option Z :=
  find_existing_loop (fuel_of h) (cmp key) (Root h) h.

(** * Walks *)

(** [while (RB_PARENT(elm) && elm == RB_RIGHT(RB_PARENT(elm))) elm = RB_PARENT(elm)] *)
Fixpoint up_from_right (fuel : nat) (elm : Z) (h : Store) : option Z :=
  match fuel with
  | O => None
  | S fuel =>
      p ← RB_PARENT elm h;
      if negb (p =? nullptr) then
        r ← RB_RIGHT p h; if elm =? r then up_from_right fuel p h else Some elm
      else Some elm
  end.
Fixpoint up_from_left (fuel : nat) (elm : Z) (h : Store) : option Z :=
  match fuel with
  | O => None
  | S fuel =>
      p ← RB_PARENT elm h;
      if negb (p =? nullptr) then
        l ← RB_LEFT p h; if elm =? l then up_from_left fuel p h else Some elm
      else Some elm
  end.

Definition RB_NEXT (elm : Z) (h : Store) : option Z :=
  r ← RB_RIGHT elm h;
  if negb (r =? nullptr) then go_left (fuel_of h) r h
  else
    p ← RB_PARENT elm h;
    from_left ← (if negb (p =? nullptr) then l ← RB_LEFT p h; Some (elm =? l) else Some false);
    if from_left : bool then Some p
    else elm ← up_from_right (fuel_of h) elm h; RB_PARENT elm h.

Definition RB_PREV (elm : Z) (h : Store) : option Z :=
  l ← RB_LEFT elm h;
  if negb (l =? nullptr) then go_right (fuel_of h) l h
  else
    p ← RB_PARENT elm h;
    from_right ← (if negb (p =? nullptr) then r ← RB_RIGHT p h; Some (elm =? r) else Some false);
    if from_right : bool then Some p
    else elm ← up_from_left (fuel_of h) elm h; RB_PARENT elm h.

Fixpoint min_loop (fuel : nat) (tmp parent : Z) (h : Store) : option Z :=
  match fuel with
  | O => None
  | S fuel => if negb (tmp =? nullptr) then l ← RB_LEFT tmp h; min_loop fuel l tmp h else Some parent
  end.
Fixpoint max_loop (fuel : nat) (tmp parent : Z) (h : Store) : option Z :=
  match fuel with
  | O => None
  | S fuel => if negb (tmp =? nullptr) then r ← RB_RIGHT tmp h; max_loop fuel r tmp h else Some parent
  end.
Definition RB_MIN (h : Store) : option Z := min_loop (fuel_of h) (Root h) nullptr h.
Definition RB_MAX (h : Store) : option Z := max_loop (fuel_of h) (Root h) nullptr h.

(** * The container *)
Module IntrusiveRedBlackTree.
Definition begin (h : Store) : option Z := RB_MIN h.
Definition end_ : Z := nullptr.
Definition empty (h : Store) : bool := IsEmpty h.
Definition front (h : Store) : option Z := RB_MIN h.
Definition back (h : Store) : option Z := RB_MAX h.
Definition GetNext (node : Z) (h : Store) : option Z := RB_NEXT node h.
Definition GetPrev (node : Z) (h : Store) : option Z := RB_PREV node h.
(** The iterator is to the node, whether it has been inserted or not. *)
Definition insert (ref : Z) (cmp : Z → Z → Z) (h : Store) : option (Z * Store) :=
  '(_, h) ← RB_INSERT ref cmp h; Some (ref, h).
Definition erase (it : Z) (h : Store) : option (Z * Store) :=
  next ← GetNext it h;
  '(_, h) ← RB_REMOVE it h;
  Some (next, h).
Definition find (ref : Z) (cmp : Z → Z → Z) (h : Store) : option Z := RB_FIND ref cmp h.
Definition nfind (ref : Z) (cmp : Z → Z → Z) (h : Store) : option Z := RB_NFIND ref cmp h.
Definition find_existing (ref : Z) (cmp : Z → Z → Z) (h : Store) : option Z := RB_FIND_EXISTING ref cmp h.
Definition find_key {U} (key : U) (cmp : U → Z → Z) (h : Store) : option Z := RB_FIND_KEY key cmp h.
Definition nfind_key {U} (key : U) (cmp : U → Z → Z) (h : Store) : option Z := RB_NFIND_KEY key cmp h.
Definition find_existing_key {U} (key : U) (cmp : U → Z → Z) (h : Store) : option Z := RB_FIND_EXISTING_KEY key cmp h.
End IntrusiveRedBlackTree.
