(* ===== verification/RedBlackShape.v ===== *)
(** The trees that a store represents: a tree with its links, a position in it as the subtree
    there and the way up from it, and what the primitive steps (reading and writing a link or a
    colour, a rotation) do at a position. *)
From S2P Require Import Prelude RedBlackTree.

Inductive tree := Leaf | Node (c : RBColor) (l : tree) (x : Z) (r : tree).

Definition ptr (t : tree) : Z := match t with Leaf => nullptr | Node _ _ x _ => x end.
Fixpoint inorder (t : tree) : list Z := match t with Leaf => [] | Node _ l x r => inorder l ++ x :: inorder r end.

(** The nodes of the tree have its links, and the root has the parent [p]. *)
Fixpoint tree_at (m : gmap Z RBEntry) (p : Z) (t : tree) : Prop :=
  match t with
  | Leaf => True
  | Node c l x r => m !! x = Some (MkEntry (ptr l) (ptr r) p c) ∧ tree_at m x l ∧ tree_at m x r
  end.

(** ** Positions *)
Inductive Side := SLeft | SRight.
Definition flip (d : Side) : Side := match d with SLeft => SRight | SRight => SLeft end.

(** The node whose child on the side [d] is [a]. *)
Definition node (d : Side) (c : RBColor) (a : tree) (x : Z) (b : tree) : tree :=
  match d with SLeft => Node c a x b | SRight => Node c b x a end.
Definition entry (d : Side) (a b p : Z) (c : RBColor) : RBEntry :=
  match d with SLeft => MkEntry a b p c | SRight => MkEntry b a p c end.

(** A step up: the side the subtree is on, and the colour, the node and the other child. *)
Record frame := MkFrame { f_side : Side; f_color : RBColor; f_key : Z; f_sib : tree }.
Definition top (k : list frame) : Z := match k with [] => nullptr | f :: _ => f_key f end.
Definition under (f : frame) (t : tree) : tree := node (f_side f) (f_color f) t (f_key f) (f_sib f).
Fixpoint plug (k : list frame) (t : tree) : tree := match k with [] => t | f :: k => plug k (under f t) end.

Fixpoint ctx_at (m : gmap Z RBEntry) (root hole : Z) (k : list frame) : Prop :=
  match k with
  | [] => root = hole
  | f :: k =>
      m !! f_key f = Some (entry (f_side f) hole (ptr (f_sib f)) (top k) (f_color f))
      ∧ tree_at m (f_key f) (f_sib f) ∧ ctx_at m root (f_key f) k
  end.
Fixpoint ctx_keys (k : list frame) : list Z :=
  match k with [] => [] | f :: k => f_key f :: inorder (f_sib f) ++ ctx_keys k end.

(** The store has the subtree [t] at the position [k]. *)
Record at_zip (h : Store) (k : list frame) (t : tree) : Prop := {
  az_ctx : ctx_at (nodes h) (Root h) (ptr t) k;
  az_tree : tree_at (nodes h) (top k) t;
  az_nodup : NoDup (ctx_keys k ++ inorder t);
  az_nonnull : nullptr ∉ ctx_keys k ++ inorder t;
}.

Lemma inorder_node d c a x b : inorder (node d c a x b) ≡ₚ x :: inorder b ++ inorder a.
Proof. destruct d; simpl; [|by rewrite Permutation_middle]. rewrite <-Permutation_middle. by rewrite (Permutation_app_comm (inorder a)). Qed.

Lemma ptr_node d c a x b : ptr (node d c a x b) = x.
Proof. by destruct d. Qed.

Lemma tree_at_node m p d c a x b :
  tree_at m p (node d c a x b) ↔ m !! x = Some (entry d (ptr a) (ptr b) p c) ∧ tree_at m x a ∧ tree_at m x b.
Proof. destruct d; simpl; tauto. Qed.

(** A position may be moved one step up. *)
Lemma zip_up h f k t : at_zip h (f :: k) t ↔ at_zip h k (under f t).
Proof.
  unfold under. assert (ctx_keys (f :: k) ++ inorder t ≡ₚ ctx_keys k ++ inorder (under f t)) as Hp.
  { unfold under. rewrite inorder_node. simpl. rewrite <-Permutation_middle. f_equiv.
    rewrite (Permutation_app_comm (inorder (f_sib f))), <-(assoc (++)). f_equiv. }
  unfold under in Hp. split; intros [Hc Ht Hn H0].
  - destruct Hc as (Hf & Hs & Hc). split; [by rewrite ptr_node|by apply tree_at_node|by rewrite <-Hp|by rewrite <-Hp].
  - apply tree_at_node in Ht as (Hf & Ht & Hs). rewrite ptr_node in Hc. split; [done|done|by rewrite Hp|by rewrite Hp].
Qed.

Lemma zip_top h k t : at_zip h k t ↔ at_zip h [] (plug k t).
Proof. revert t. induction k as [|f k IH]; intros t; [done|]. rewrite zip_up. apply IH. Qed.

(** ** What is not written does not change *)
Lemma tree_at_frame m m' p t : tree_at m p t → (∀ x, x ∈ inorder t → m' !! x = m !! x) → tree_at m' p t.
Proof.
  revert p. induction t as [|c l IHl x r IHr]; intros p; [done|]. simpl. intros (Hx & Hl & Hr) Hf.
  split; [rewrite Hf; [done|clear; set_solver]|]. split; [apply IHl|apply IHr]; try done; intros y Hy; apply Hf; clear -Hy; set_solver.
Qed.

Lemma ctx_at_frame m m' root hole k : ctx_at m root hole k → (∀ x, x ∈ ctx_keys k → m' !! x = m !! x) → ctx_at m' root hole k.
Proof.
  revert hole. induction k as [|f k IH]; intros hole; [done|]. simpl. intros (Hx & Hs & Hk) Hf.
  split; [rewrite Hf; [done|by left]|]. split; [eapply tree_at_frame|apply IH]; try done; intros y Hy; apply Hf; clear -Hy; set_solver.
Qed.

Section focus.
Context (h : Store) (k : list frame) (c : RBColor) (l r : tree) (x : Z) (Hz : at_zip h k (Node c l x r)).

Lemma focus_entry : RB_ENTRY x h = Some (MkEntry (ptr l) (ptr r) (top k) c).
Proof using Hz. apply Hz. Qed.
Lemma focus_left : RB_LEFT x h = Some (ptr l).
Proof using Hz. unfold RB_LEFT. by rewrite focus_entry. Qed.
Lemma focus_right : RB_RIGHT x h = Some (ptr r).
Proof using Hz. unfold RB_RIGHT. by rewrite focus_entry. Qed.
Lemma focus_parent : RB_PARENT x h = Some (top k).
Proof using Hz. unfold RB_PARENT. by rewrite focus_entry. Qed.
Lemma focus_color : RB_COLOR x h = Some c.
Proof using Hz. unfold RB_COLOR. by rewrite focus_entry. Qed.
Lemma focus_nonnull : x ≠ nullptr.
Proof using Hz. intros ->. apply (az_nonnull _ _ _ Hz). simpl. clear. set_solver. Qed.
End focus.

(** The nodes of a store stay when entries are written. *)
Definition same_nodes (h h' : Store) : Prop := dom (nodes h') = dom (nodes h).

Lemma SetRBEntry_ok t e e0 h : RB_ENTRY t h = Some e0 → SetRBEntry t e h = Some (MkStore (<[t := e]> (nodes h)) (m_rbh_root h)).
Proof. intros He. unfold SetRBEntry. by rewrite He. Qed.

Lemma same_insert t e e0 h root : RB_ENTRY t h = Some e0 → same_nodes h (MkStore (<[t := e]> (nodes h)) root).
Proof. intros He. unfold same_nodes. simpl. apply dom_insert_lookup_L. by exists e0. Qed.

(** Writing the colour of the node at a position. *)
Lemma set_color_ok h k c c' l x r : at_zip h k (Node c l x r) →
  ∃ h', RB_SET_COLOR x c' h = Some h' ∧ at_zip h' k (Node c' l x r) ∧ same_nodes h h'.
Proof.
  intros Hz. pose proof (focus_entry _ _ _ _ _ _ Hz) as He. unfold RB_SET_COLOR. rewrite He. cbn [mbind option_bind m_rbe_left m_rbe_right m_rbe_parent].
  rewrite (SetRBEntry_ok _ _ _ _ He). eexists. split; [done|]. split; [|by eapply same_insert].
  destruct Hz as [Hc (_ & Hl & Hr) Hn H0]. split; cbn [nodes Root m_rbh_root]; try done.
  - eapply ctx_at_frame; [done|]. intros y Hy. apply lookup_insert_ne. intros ->.
    apply NoDup_app in Hn as (_ & Hn & _). apply (Hn y Hy). simpl. clear. set_solver.
  - apply NoDup_app in Hn as (_ & _ & Hn). simpl in Hn. apply NoDup_app in Hn as (_ & Hn1 & Hn2). apply NoDup_cons in Hn2 as [Hn2 _].
    split; [by rewrite lookup_insert_eq|]. split; (eapply tree_at_frame; [done|]; intros y Hy; apply lookup_insert_ne; intros ->).
    + apply (Hn1 y Hy). by left.
    + done.
Qed.

(** ** Reading on a side *)
Definition RB_CHILD (d : Side) : Z → Store → option Z := match d with SLeft => RB_LEFT | SRight => RB_RIGHT end.
Definition RB_SET_CHILD (d : Side) : Z → Z → Store → option Store := match d with SLeft => RB_SET_LEFT | SRight => RB_SET_RIGHT end.
Definition RB_ROTATE (d : Side) : Z → Store → option Store := match d with SLeft => RB_ROTATE_LEFT | SRight => RB_ROTATE_RIGHT end.

Lemma RB_ROTATE_eq d elm h :
  RB_ROTATE d elm h =
  (tmp ← RB_CHILD (flip d) elm h;
   inner ← RB_CHILD d tmp h;
   h ← RB_SET_CHILD (flip d) elm inner h;
   right ← RB_CHILD (flip d) elm h;
   h ← (if negb (right =? nullptr) then inner ← RB_CHILD d tmp h; RB_SET_PARENT inner elm h else Some h);
   parent ← RB_PARENT elm h;
   h ← RB_SET_PARENT tmp parent h;
   h ← replace_child elm tmp h;
   h ← RB_SET_CHILD d tmp elm h;
   RB_SET_PARENT elm tmp h).
Proof. by destruct d. Qed.

(** A store after an entry has been written. *)
Definition put (x : Z) (e : RBEntry) (h : Store) : Store := MkStore (<[x := e]> (nodes h)) (m_rbh_root h).

Lemma set_child_entry d h x a b p c v : RB_ENTRY x h = Some (entry d a b p c) → RB_SET_CHILD d x v h = Some (put x (entry d v b p c) h).
Proof. intros He. destruct d; cbn [RB_SET_CHILD]; [unfold RB_SET_LEFT|unfold RB_SET_RIGHT]; rewrite He; cbn [mbind option_bind]; by rewrite (SetRBEntry_ok _ _ _ _ He). Qed.
Lemma set_other_entry d h x a b p c v : RB_ENTRY x h = Some (entry d a b p c) → RB_SET_CHILD (flip d) x v h = Some (put x (entry d a v p c) h).
Proof. intros He. destruct d; cbn [RB_SET_CHILD flip]; [unfold RB_SET_RIGHT|unfold RB_SET_LEFT]; rewrite He; cbn [mbind option_bind]; by rewrite (SetRBEntry_ok _ _ _ _ He). Qed.
Lemma set_parent_entry d h x a b p c v : RB_ENTRY x h = Some (entry d a b p c) → RB_SET_PARENT x v h = Some (put x (entry d a b v c) h).
Proof. intros He. unfold RB_SET_PARENT. rewrite He. destruct d; cbn [mbind option_bind]; by rewrite (SetRBEntry_ok _ _ _ _ He). Qed.

Lemma put_here x e h : RB_ENTRY x (put x e h) = Some e.
Proof. apply lookup_insert_eq. Qed.
Lemma put_there x y e h : x ≠ y → RB_ENTRY y (put x e h) = RB_ENTRY y h.
Proof. intros Hn. by apply lookup_insert_ne. Qed.

(** The new parent of a subtree. *)
Definition reparent (t : tree) (p : Z) (h : Store) : Store :=
  match t with Leaf => h | Node c l x r => put x (MkEntry (ptr l) (ptr r) p c) h end.

Lemma reparent_ok h p p' t : tree_at (nodes h) p t → NoDup (inorder t) → tree_at (nodes (reparent t p' h)) p' t.
Proof.
  destruct t as [|c l x r]; [done|]. simpl. intros (Hx & Hl & Hr) Hn. apply NoDup_app in Hn as (_ & Hn1 & Hn2). apply NoDup_cons in Hn2 as [Hn2 _].
  split; [apply lookup_insert_eq|]. split; (eapply tree_at_frame; [done|]; intros y Hy; apply lookup_insert_ne; intros ->).
  - apply (Hn1 y Hy). by left.
  - done.
Qed.

Lemma reparent_there h t p y : y ∉ inorder t → RB_ENTRY y (reparent t p h) = RB_ENTRY y h.
Proof. destruct t as [|c l x r]; [done|]. simpl. intros Hy. apply put_there. intros ->. apply Hy. clear. set_solver. Qed.

Lemma set_parent_ok h p p' t : tree_at (nodes h) p t → t ≠ Leaf → RB_SET_PARENT (ptr t) p' h = Some (reparent t p' h).
Proof. destruct t as [|c l x r]; [done|]. intros (Hx & _) _. by apply (set_parent_entry SLeft h x (ptr l) (ptr r) p c). Qed.

(** The pointer to the subtree at a position. *)
Definition relink (k : list frame) (v : Z) (h : Store) : Store :=
  match k with
  | [] => SetRoot v h
  | f :: k => put (f_key f) (entry (f_side f) v (ptr (f_sib f)) (top k) (f_color f)) h
  end.

Lemma relink_ok h k hole v : ctx_at (nodes h) (Root h) hole k → NoDup (ctx_keys k) → ctx_at (nodes (relink k v h)) (Root (relink k v h)) v k.
Proof.
  destruct k as [|f k]; [done|]. simpl. intros (Hf & Hs & Hk) [Hn1 Hn2]%NoDup_cons. split; [apply lookup_insert_eq|].
  split; [eapply tree_at_frame|eapply ctx_at_frame]; try done; intros y Hy; apply lookup_insert_ne; intros E; apply Hn1; rewrite E; clear -Hy; set_solver.
Qed.

Lemma relink_there h k v y : y ∉ ctx_keys k → RB_ENTRY y (relink k v h) = RB_ENTRY y h.
Proof. destruct k as [|f k]; [done|]. simpl. intros Hy. apply put_there. intros <-. apply Hy. by left. Qed.

Lemma relink_same h k hole v : ctx_at (nodes h) (Root h) hole k → same_nodes h (relink k v h).
Proof. destruct k as [|f k]; [done|]. intros (Hf & _). by eapply same_insert. Qed.

(** The code that relinks the position of [x] to [v]. *)
Lemma relink_runs h k x v : ctx_at (nodes h) (Root h) x k → nullptr ∉ ctx_keys k → x ∉ ctx_keys k → x ≠ nullptr →
  (if negb (top k =? nullptr) then l ← RB_LEFT (top k) h; if l =? x then RB_SET_LEFT (top k) v h else RB_SET_RIGHT (top k) v h
   else Some (SetRoot v h)) = Some (relink k v h).
Proof.
  intros Hc H0 He Hnn. destruct k as [|f k]; cbn [top relink]; [done|].
  assert (f_key f ≠ nullptr) as Hf0 by (intros E; apply H0; rewrite <-E; by left).
  rewrite (proj2 (Z.eqb_neq _ _) Hf0). cbn [negb].
  destruct Hc as (Hf & Hs & Hk). change (RB_ENTRY (f_key f) h = Some (entry (f_side f) x (ptr (f_sib f)) (top k) (f_color f))) in Hf.
  assert (ptr (f_sib f) ≠ x) as Hne.
  { destruct (f_sib f) as [|? ? y ?] eqn:Es; [done|]. simpl. intros ->. apply He. simpl. rewrite Es. simpl. right.
    apply elem_of_app. left. apply elem_of_app. right. by left. }
  unfold RB_LEFT. rewrite Hf. destruct (f_side f) eqn:Ed; cbn.
  - rewrite Z.eqb_refl. rewrite (set_child_entry SLeft _ _ _ _ _ _ _ Hf). done.
  - rewrite (proj2 (Z.eqb_neq _ _)) by done. rewrite (set_child_entry SRight _ _ _ _ _ _ _ Hf). done.
Qed.

Lemma replace_child_ok h k elm tmp :
  ctx_at (nodes h) (Root h) elm k → RB_PARENT elm h = Some (top k) → RB_PARENT tmp h = Some (top k) →
  nullptr ∉ ctx_keys k → elm ∉ ctx_keys k → elm ≠ nullptr → replace_child elm tmp h = Some (relink k tmp h).
Proof.
  intros Hc Hpe Hpt H0 He Hnn. rewrite <-(relink_runs h k elm tmp Hc H0 He Hnn). unfold replace_child.
  rewrite (bind_eq _ _ _ Hpt). destruct (negb (top k =? nullptr)); [|done]. rewrite (bind_eq _ _ _ Hpe).
  destruct (RB_LEFT (top k) h) as [l|]; [|done]. cbn [mbind option_bind]. by rewrite Z.eqb_sym.
Qed.

(** What an entry says, on a side. *)
Lemma child_of d h x a b p c : RB_ENTRY x h = Some (entry d a b p c) → RB_CHILD d x h = Some a.
Proof. intros He. destruct d; cbn [RB_CHILD]; [unfold RB_LEFT|unfold RB_RIGHT]; by rewrite He. Qed.
Lemma other_of d h x a b p c : RB_ENTRY x h = Some (entry d a b p c) → RB_CHILD (flip d) x h = Some b.
Proof. intros He. destruct d; cbn [RB_CHILD flip]; [unfold RB_RIGHT|unfold RB_LEFT]; by rewrite He. Qed.
Lemma parent_of d h x a b p c : RB_ENTRY x h = Some (entry d a b p c) → RB_PARENT x h = Some p.
Proof. intros He. unfold RB_PARENT. rewrite He. by destruct d. Qed.
Lemma color_of d h x a b p c : RB_ENTRY x h = Some (entry d a b p c) → RB_COLOR x h = Some c.
Proof. intros He. unfold RB_COLOR. rewrite He. by destruct d. Qed.

Lemma set_parent_or_null h p p' t : tree_at (nodes h) p t → nullptr ∉ inorder t →
  (if negb (ptr t =? nullptr) then RB_SET_PARENT (ptr t) p' h else Some h) = Some (reparent t p' h).
Proof.
  destruct t as [|c l x r]; [done|]. intros Ht H0. cbn [ptr]. rewrite (proj2 (Z.eqb_neq _ _)) by (intros ->; apply H0; simpl; set_solver).
  by apply (set_parent_ok h p p' (Node c l x r)).
Qed.
