(* ===== verification/RedBlackZip.v ===== *)
(** Reading, colouring and moving about in the tree from a position, on either side; the nodes to
    the left and to the right of a position; and the fuel that is enough for the loops. *)
From S2P Require Import Prelude RedBlackTree RedBlackShape.

(** ** Reading and colouring around a position, whatever the side *)
Lemma flip_flip d : flip (flip d) = d.
Proof. by destruct d. Qed.
Lemma node_flip d c a x b : node (flip d) c a x b = node d c b x a.
Proof. by destruct d. Qed.
Lemma node_is_node c l x r : Node c l x r = node SLeft c l x r.
Proof. done. Qed.

Lemma zip_child d c a x b h k : at_zip h k (node d c a x b) ↔ at_zip h (MkFrame d c x b :: k) a.
Proof. rewrite zip_up. done. Qed.
Lemma zip_other d c a x b h k : at_zip h k (node d c a x b) ↔ at_zip h (MkFrame (flip d) c x a :: k) b.
Proof. rewrite zip_up. unfold under. cbn [f_side f_color f_key f_sib]. by rewrite node_flip. Qed.

Lemma down_child d c a x b h k : at_zip h k (node d c a x b) → at_zip h (MkFrame d c x b :: k) a.
Proof. apply zip_child. Qed.
Lemma up_child d c a x b h k : at_zip h (MkFrame d c x b :: k) a → at_zip h k (node d c a x b).
Proof. apply zip_child. Qed.
Lemma down_other d c a x b h k : at_zip h k (node d c a x b) → at_zip h (MkFrame (flip d) c x a :: k) b.
Proof. apply zip_other. Qed.
Lemma up_other d c a x b h k : at_zip h (MkFrame (flip d) c x a :: k) b → at_zip h k (node d c a x b).
Proof. apply zip_other. Qed.

Lemma zip_entry h k d c a x b : at_zip h k (node d c a x b) → RB_ENTRY x h = Some (entry d (ptr a) (ptr b) (top k) c).
Proof. intros [_ Ht _ _]. by apply tree_at_node in Ht as [Hx _]. Qed.
Lemma zip_nonnull h k d c a x b : at_zip h k (node d c a x b) → x ≠ nullptr.
Proof. destruct d; apply focus_nonnull. Qed.

Definition color (t : tree) : RBColor := match t with Leaf => RB_BLACK | Node c _ _ _ => c end.
Definition recolor (c : RBColor) (t : tree) : tree := match t with Leaf => Leaf | Node _ l x r => Node c l x r end.
Lemma recolor_node c c' d a x b : recolor c (node d c' a x b) = node d c a x b.
Proof. by destruct d. Qed.
Lemma color_node c d a x b : color (node d c a x b) = c.
Proof. by destruct d. Qed.

Lemma zip_ptr_null h k t : at_zip h k t → ptr t = nullptr → t = Leaf.
Proof. destruct t as [|c l x r]; [done|]. intros Hz E. by destruct (focus_nonnull _ _ _ _ _ _ Hz). Qed.

Lemma zip_color h k t : at_zip h k t → t ≠ Leaf → RB_COLOR (ptr t) h = Some (color t).
Proof. destruct t as [|c l x r]; [done|]. intros Hz _. by eapply focus_color. Qed.

Lemma zip_null_or_black h k t : at_zip h k t → null_or_black (ptr t) h = Some (bool_decide (color t = RB_BLACK)).
Proof.
  intros Hz. unfold null_or_black. destruct (Z.eqb_spec (ptr t) nullptr) as [E|E].
  - by rewrite (zip_ptr_null _ _ _ Hz E).
  - unfold RB_IS_BLACK. rewrite (zip_color _ _ _ Hz); [done|]. by intros ->.
Qed.
Lemma zip_nonnull_red h k t : at_zip h k t → nonnull_red (ptr t) h = Some (bool_decide (color t = RB_RED)).
Proof.
  intros Hz. unfold nonnull_red. destruct (Z.eqb_spec (ptr t) nullptr) as [E|E].
  - by rewrite (zip_ptr_null _ _ _ Hz E).
  - unfold RB_IS_RED. rewrite (zip_color _ _ _ Hz); [done|]. by intros ->.
Qed.

Lemma zip_set_color h k t c : at_zip h k t → t ≠ Leaf →
  ∃ h', RB_SET_COLOR (ptr t) c h = Some h' ∧ at_zip h' k (recolor c t) ∧ same_nodes h h'.
Proof. destruct t as [|c0 l x r]; [done|]. intros Hz _. by apply (set_color_ok _ _ c0). Qed.
Lemma node_set_color h k d c c' a x b : at_zip h k (node d c a x b) →
  ∃ h', RB_SET_COLOR x c' h = Some h' ∧ at_zip h' k (node d c' a x b) ∧ same_nodes h h'.
Proof. destruct d; apply set_color_ok. Qed.
(** [if (t) RB_SET_COLOR(t, c)] *)
Lemma zip_color_if h k t c : at_zip h k t →
  ∃ h', (if negb (ptr t =? nullptr) then RB_SET_COLOR (ptr t) c h else Some h) = Some h' ∧ at_zip h' k (recolor c t) ∧ same_nodes h h'.
Proof.
  intros Hz. destruct (Z.eqb_spec (ptr t) nullptr) as [E|E]; cbn [negb].
  - pose proof (zip_ptr_null _ _ _ Hz E) as ->. by exists h.
  - apply (zip_set_color h k t c Hz). by intros ->.
Qed.

(** The parent of a position. *)
Lemma zip_parent h k t : at_zip h k t → t ≠ Leaf → RB_PARENT (ptr t) h = Some (top k).
Proof. destruct t as [|c l x r]; [done|]. intros Hz _. by eapply focus_parent. Qed.

(** The two sides of a node do not begin with the same node. *)
Lemma zip_apart h k d c a x b : at_zip h k (node d c a x b) → a ≠ Leaf → ptr a ≠ ptr b.
Proof.
  intros Hz Ha E. pose proof (az_nodup _ _ _ Hz) as Hn. destruct a as [|ca la y ra]; [done|]. cbn [ptr] in E.
  assert (y ∈ inorder b) as Hy.
  { destruct b as [|cb lb z rb]; simpl in E.
    - subst. exfalso. apply (az_nonnull _ _ _ Hz). rewrite inorder_node. simpl. clear. set_solver.
    - subst. simpl. clear. set_solver. }
  rewrite inorder_node in Hn. apply NoDup_app in Hn as (_ & _ & Hn). apply NoDup_cons in Hn as [_ Hn]. apply NoDup_app in Hn as (_ & Hn & _).
  apply (Hn y Hy). simpl. clear. set_solver.
Qed.

(** ** The nodes to the left and to the right of a position *)
Fixpoint ctx_left (k : list frame) : list Z :=
  match k with
  | [] => []
  | f :: k => ctx_left k ++ match f_side f with SLeft => [] | SRight => inorder (f_sib f) ++ [f_key f] end
  end.
Fixpoint ctx_right (k : list frame) : list Z :=
  match k with
  | [] => []
  | f :: k => match f_side f with SLeft => f_key f :: inorder (f_sib f) | SRight => [] end ++ ctx_right k
  end.

Lemma inorder_plug k t : inorder (plug k t) = ctx_left k ++ inorder t ++ ctx_right k.
Proof.
  revert t. induction k as [|f k IH]; intros t; simpl; [by rewrite app_nil_r|].
  rewrite IH. unfold under. destruct (f_side f); simpl; by rewrite <-?(assoc (++)), ?app_nil_r.
Qed.

Lemma ctx_keys_perm k : ctx_keys k ≡ₚ ctx_left k ++ ctx_right k.
Proof. induction k as [|f k IH]; simpl; [done|]. rewrite IH. destruct (f_side f); simpl; solve_Permutation. Qed.
Lemma plug_keys k t : ctx_keys k ++ inorder t ≡ₚ inorder (plug k t).
Proof. rewrite inorder_plug, ctx_keys_perm. solve_Permutation. Qed.

Lemma inorder_plug_eq k t t' : inorder t = inorder t' → inorder (plug k t) = inorder (plug k t').
Proof. intros E. by rewrite !inorder_plug, E. Qed.

Lemma inorder_rotate d c c' a b g x y : inorder (node d c' (node d c a x b) y g) = inorder (node d c a x (node d c' b y g)).
Proof. destruct d; simpl; by rewrite <-(assoc (++)). Qed.
Lemma inorder_recolor c t : inorder (recolor c t) = inorder t.
Proof. by destruct t. Qed.
Lemma inorder_node_color d c c' a x b : inorder (node d c a x b) = inorder (node d c' a x b).
Proof. by destruct d. Qed.

(** ** Fuel: a position is not deeper than there are nodes *)
Lemma tree_at_dom m p t x : tree_at m p t → x ∈ inorder t → x ∈ dom m.
Proof.
  revert p. induction t as [|c l IHl y r IHr]; intros p; simpl; [set_solver|]. intros (Hy & Hl & Hr) Hx.
  apply elem_of_app in Hx as [Hx|Hx]; [by eapply IHl|]. apply elem_of_cons in Hx as [->|Hx]; [by eapply elem_of_dom_2|by eapply IHr].
Qed.

Lemma length_ctx k : (length k ≤ length (ctx_left k ++ ctx_right k))%nat.
Proof. induction k as [|f k IH]; simpl; [lia|]. rewrite !length_app in *. destruct (f_side f); simpl; rewrite ?length_app; simpl; lia. Qed.

Lemma zip_depth h k t : at_zip h k t → (length (inorder (plug k t)) < fuel_of h)%nat.
Proof.
  intros [Hc Ht Hn H0]%zip_top. simpl in Hn. unfold fuel_of. apply Nat.lt_succ_r. rewrite <-size_dom.
  rewrite <-(size_list_to_set (C := gset Z) (inorder (plug k t))) by done. apply subseteq_size. intros x Hx.
  apply elem_of_list_to_set in Hx. by eapply tree_at_dom.
Qed.

Lemma zip_fuel h k t : at_zip h k t → (length k < fuel_of h)%nat ∧ (length (inorder t) < fuel_of h)%nat.
Proof.
  intros Hz%zip_depth. pose proof (length_ctx k) as Hk. rewrite inorder_plug, !length_app in *. lia.
Qed.

Lemma same_trans h1 h2 h3 : same_nodes h1 h2 → same_nodes h2 h3 → same_nodes h1 h3.
Proof. unfold same_nodes. congruence. Qed.

Lemma zip_root h t : at_zip h [] t → Root h = ptr t.
Proof. by intros []. Qed.
