(* ===== verification/RedBlackRotate.v ===== *)
(** A rotation at a position of the tree. *)
From S2P Require Import Prelude RedBlackTree RedBlackShape.

Lemma same_put x e e0 h h' : same_nodes h h' → RB_ENTRY x h' = Some e0 → same_nodes h (put x e h').
Proof. intros Hs He. unfold same_nodes in *. rewrite <-Hs. by eapply same_insert. Qed.

Lemma reparent_same h h' p p' t : same_nodes h h' → tree_at (nodes h') p t → same_nodes h (reparent t p' h').
Proof. intros Hs Ht. destruct t; [done|]. destruct Ht as [Hx _]. by eapply same_put. Qed.

Lemma rotate_keys d k c c' a b g x y :
  ctx_keys k ++ inorder (node d c a x (node d c' b y g)) ≡ₚ x :: y :: inorder a ++ inorder b ++ inorder g ++ ctx_keys k.
Proof. rewrite !inorder_node. solve_Permutation. Qed.

(** The stores that a rotation goes through. *)
Section rotation.
Context (d : Side) (k : list frame) (c c' : RBColor) (a b g : tree) (x y : Z) (h : Store).
Context (Hz : at_zip h k (node d c a x (node d c' b y g))).

Let h1 := put x (entry d (ptr a) (ptr b) (top k) c) h.
Let h2 := reparent b x h1.
Let h3 := put y (entry d (ptr b) (ptr g) (top k) c') h2.
Let h4 := relink k y h3.
Let h5 := put y (entry d x (ptr g) (top k) c') h4.
Let h6 := put x (entry d (ptr a) (ptr b) y c) h5.

Lemma rotate_parts :
  (ctx_at (nodes h) (Root h) x k ∧ RB_ENTRY x h = Some (entry d (ptr a) y (top k) c) ∧ RB_ENTRY y h = Some (entry d (ptr b) (ptr g) x c'))
  ∧ tree_at (nodes h) x a ∧ tree_at (nodes h) y b ∧ tree_at (nodes h) y g.
Proof using Hz.
  destruct Hz as [Hc Ht _ _]. rewrite ptr_node in Hc. apply tree_at_node in Ht as (Hx & Ha & Ht). rewrite ptr_node in Hx.
  apply tree_at_node in Ht as (Hy & Hb & Hg). tauto.
Qed.

Lemma rotate_apart :
  (x ≠ nullptr ∧ nullptr ∉ ctx_keys k ∧ nullptr ∉ inorder b ∧ NoDup (ctx_keys k) ∧ NoDup (inorder b))
  ∧ (x ≠ y ∧ x ∉ inorder a ∧ x ∉ inorder b ∧ x ∉ inorder g ∧ x ∉ ctx_keys k)
  ∧ (y ∉ inorder a ∧ y ∉ inorder b ∧ y ∉ inorder g ∧ y ∉ ctx_keys k)
  ∧ (∀ z, z ∈ inorder a → z ∉ inorder b ∧ z ∉ ctx_keys k) ∧ (∀ z, z ∈ inorder g → z ∉ inorder b ∧ z ∉ ctx_keys k)
  ∧ (∀ z, z ∈ inorder b → z ∉ ctx_keys k).
Proof using Hz.
  destruct Hz as [_ _ Hn H0]. clear h1 h2 h3 h4 h5 h6 Hz. rewrite (rotate_keys d k c c' a b g x y) in Hn, H0.
  apply NoDup_cons in Hn as [Hxn Hn]. apply NoDup_cons in Hn as [Hyn Hn]. rewrite !NoDup_app in Hn.
  split; [split; [|split; [|split]]; [| | |tauto]; clear -H0; set_solver|]. split; [clear -Hxn; set_solver|].
  split; [clear -Hyn; set_solver|]. clear -Hn. set_solver.
Qed.

Lemma rotate_entries :
  RB_ENTRY x h2 = Some (entry d (ptr a) (ptr b) (top k) c) ∧ RB_ENTRY y h2 = Some (entry d (ptr b) (ptr g) x c')
  ∧ RB_ENTRY x h3 = Some (entry d (ptr a) (ptr b) (top k) c) ∧ RB_ENTRY y h4 = Some (entry d (ptr b) (ptr g) (top k) c')
  ∧ RB_ENTRY x h5 = Some (entry d (ptr a) (ptr b) (top k) c).
Proof using Hz.
  destruct rotate_parts as ((_ & Hx & Hy) & _). destruct rotate_apart as (_ & (Hxy & _ & Hxb & _ & Hxk) & (_ & Hyb & _ & Hyk) & _).
  assert (RB_ENTRY x h2 = Some (entry d (ptr a) (ptr b) (top k) c)) as X2 by (unfold h2; rewrite reparent_there by done; apply put_here).
  assert (RB_ENTRY x h3 = Some (entry d (ptr a) (ptr b) (top k) c)) as X3 by (unfold h3; by rewrite put_there).
  split; [done|]. split; [unfold h2, h1; by rewrite reparent_there, put_there|]. split; [done|].
  split; [unfold h4; rewrite relink_there by done; apply put_here|]. unfold h5, h4. by rewrite put_there, relink_there.
Qed.

(** Away from the two nodes, the middle subtree and the context, nothing changes. *)
Lemma rotate_there3 z : z ≠ x → z ≠ y → z ∉ inorder b → RB_ENTRY z h3 = RB_ENTRY z h.
Proof using. intros. unfold h3, h2, h1. by rewrite put_there, reparent_there, put_there. Qed.
Lemma rotate_there6 z : z ≠ x → z ≠ y → z ∉ ctx_keys k → RB_ENTRY z h6 = RB_ENTRY z h3.
Proof using. intros. unfold h6, h5, h4. by rewrite put_there, put_there, relink_there. Qed.

Lemma rotate_ctx3 : ctx_at (nodes h3) (Root h3) x k.
Proof using Hz.
  destruct rotate_parts as ((Hc & _) & _). destruct rotate_apart as (_ & (_ & _ & _ & _ & Hxk) & (_ & _ & _ & Hyk) & _ & _ & Hdb).
  replace (Root h3) with (Root h) by (unfold h3, h2; by destruct b). eapply ctx_at_frame; [exact Hc|]. intros z Hzk.
  apply rotate_there3; [by intros ->|by intros ->|]. intros Hzb. by apply (Hdb z).
Qed.

Lemma rotate_runs : RB_ROTATE d x h = Some h6.
Proof using Hz.
  destruct rotate_parts as ((Hc & Hx & Hy) & _ & Hb & _). destruct rotate_apart as ((Hx0 & Hk0 & Hb0 & Hnk & _) & (Hxy & _ & _ & _ & Hxk) & _).
  destruct rotate_entries as (X2 & Y2 & X3 & Y4 & X5). assert (RB_ENTRY y h1 = Some (entry d (ptr b) (ptr g) x c')) as Y1 by (unfold h1; by rewrite put_there).
  assert (RB_ENTRY x h1 = Some (entry d (ptr a) (ptr b) (top k) c)) as X1 by apply put_here.
  assert (RB_ENTRY y h3 = Some (entry d (ptr b) (ptr g) (top k) c')) as Y3 by apply put_here.
  assert (tree_at (nodes h1) y b) as B1.
  { eapply tree_at_frame; [exact Hb|]. intros z Hzb. apply lookup_insert_ne. intros <-.
    by destruct rotate_apart as (_ & (_ & _ & ? & _) & _). }
  rewrite RB_ROTATE_eq. rewrite (bind_eq _ _ _ (other_of _ _ _ _ _ _ _ Hx)), (bind_eq _ _ _ (child_of _ _ _ _ _ _ _ Hy)).
  rewrite (bind_eq _ _ _ (set_other_entry _ _ _ _ _ _ _ (ptr b) Hx)). fold h1.
  rewrite (bind_eq _ _ _ (other_of _ _ _ _ _ _ _ X1)), (bind_eq _ _ _ (child_of _ _ _ _ _ _ _ Y1)).
  rewrite (set_parent_or_null h1 y x b B1 Hb0). cbn [mbind option_bind]. fold h2.
  rewrite (bind_eq _ _ _ (parent_of _ _ _ _ _ _ _ X2)), (bind_eq _ _ _ (set_parent_entry _ _ _ _ _ _ _ (top k) Y2)). fold h3.
  rewrite (bind_eq _ _ _ (replace_child_ok h3 k x y rotate_ctx3 (parent_of _ _ _ _ _ _ _ X3) (parent_of _ _ _ _ _ _ _ Y3) Hk0 Hxk Hx0)).
  fold h4. rewrite (bind_eq _ _ _ (set_child_entry _ _ _ _ _ _ _ x Y4)). fold h5. by rewrite (set_parent_entry _ _ _ _ _ _ _ y X5).
Qed.

Lemma rotate_zip : at_zip h6 k (node d c' (node d c a x b) y g).
Proof using Hz.
  destruct rotate_parts as (_ & Ha & Hb & Hg).
  destruct rotate_apart as ((Hx0 & Hk0 & Hb0 & Hnk & Hnb) & (Hxy & Hxa & Hxb & Hxg & Hxk) & (Hya & Hyb & Hyg & Hyk) & Hda & Hdg & Hdb).
  split.
  - rewrite ptr_node. eapply ctx_at_frame; [apply (relink_ok h3 k x y rotate_ctx3 Hnk)|]. intros z Hzk.
    change (RB_ENTRY z h6 = RB_ENTRY z h4). unfold h6, h5. rewrite !put_there; [done|by intros <-|by intros <-].
  - apply tree_at_node. rewrite ptr_node. 
    split; [change (RB_ENTRY y h6 = Some (entry d x (ptr g) (top k) c')); unfold h6, h5; rewrite put_there by done; apply put_here|]. split.
    + apply tree_at_node. split; [apply lookup_insert_eq|]. split.
      * eapply tree_at_frame; [exact Ha|]. intros z Hza. destruct (Hda z Hza) as [? ?].
        change (RB_ENTRY z h6 = RB_ENTRY z h). rewrite rotate_there6, rotate_there3; try done; by intros ->.
      * eapply (tree_at_frame (nodes h2)).
        { apply (reparent_ok h1 y); [|done]. eapply tree_at_frame; [exact Hb|]. intros z Hzb. apply lookup_insert_ne. by intros <-. }
        intros z Hzb. change (RB_ENTRY z h6 = RB_ENTRY z h2). rewrite rotate_there6; [|by intros ->|by intros ->|by apply Hdb].
        apply put_there. by intros <-.
    + eapply tree_at_frame; [exact Hg|]. intros z Hzg. destruct (Hdg z Hzg) as [? ?].
      change (RB_ENTRY z h6 = RB_ENTRY z h). rewrite rotate_there6, rotate_there3; try done; by intros ->.
  - pose proof (az_nodup _ _ _ Hz) as Hn. rewrite (rotate_keys d k c c' a b g x y) in Hn.
    rewrite !inorder_node. eapply NoDup_Permutation_proper; [|exact Hn]. clear. solve_Permutation.
  - pose proof (az_nonnull _ _ _ Hz) as Hn. rewrite !inorder_node in *. clear -Hn. set_solver.
Qed.

Lemma rotate_same : same_nodes h h6.
Proof using Hz.
  destruct rotate_parts as ((Hc & Hx & Hy) & _ & Hb & _). destruct rotate_entries as (X2 & Y2 & X3 & Y4 & X5).
  destruct rotate_apart as (_ & (_ & _ & Hxb & _) & _).
  assert (same_nodes h h2) as S2.
  { apply (reparent_same h h1 y); [by eapply same_put|]. eapply tree_at_frame; [exact Hb|]. intros z Hzb. apply lookup_insert_ne. by intros <-. }
  assert (same_nodes h h3) as S3 by (by eapply same_put).
  assert (same_nodes h h4) as S4 by (unfold same_nodes in *; rewrite <-S3; apply (relink_same _ _ _ _ rotate_ctx3)).
  eapply same_put; [|exact X5]. by eapply same_put.
Qed.

(** A rotation at a position. *)
Lemma rotate_ok : ∃ h', RB_ROTATE d x h = Some h' ∧ at_zip h' k (node d c' (node d c a x b) y g) ∧ same_nodes h h'.
Proof using Hz. exists h6. split; [apply rotate_runs|]. split; [apply rotate_zip|apply rotate_same]. Qed.
End rotation.
