(* ===== verification/RedBlackBalance.v ===== *)
(** The colours of a red-black tree: every path has as many black nodes, and a red node has black
    children; and the positions that accept a subtree of a colour and a black height. *)
From S2P Require Import Prelude RedBlackTree RedBlackShape RedBlackZip.

Inductive rbt : RBColor → nat → tree → Prop :=
  | rbt_leaf : rbt RB_BLACK 0 Leaf
  | rbt_red n l x r : rbt RB_BLACK n l → rbt RB_BLACK n r → rbt RB_RED n (Node RB_RED l x r)
  | rbt_black n cl cr l x r : rbt cl n l → rbt cr n r → rbt RB_BLACK (S n) (Node RB_BLACK l x r).

(** The contexts that a subtree of the colour and the height may be put in, for a tree whose root
    is black. *)
Inductive cok : RBColor → nat → list frame → Prop :=
  | cok_nil n : cok RB_BLACK n []
  | cok_red n d p s k : rbt RB_BLACK n s → cok RB_RED n k → cok RB_BLACK n (MkFrame d RB_RED p s :: k)
  | cok_black n c cs d p s k : rbt cs n s → cok RB_BLACK (S n) k → cok c n (MkFrame d RB_BLACK p s :: k).

(** A red-black tree. *)
Definition is_rb (t : tree) : Prop := ∃ n, rbt RB_BLACK n t.

Lemma rbt_color c n t : rbt c n t → color t = c.
Proof. by destruct 1. Qed.

Lemma rbt_node_red d n a x b : rbt RB_BLACK n a → rbt RB_BLACK n b → rbt RB_RED n (node d RB_RED a x b).
Proof. destruct d; by constructor. Qed.
Lemma rbt_node_black d n ca cb a x b : rbt ca n a → rbt cb n b → rbt RB_BLACK (S n) (node d RB_BLACK a x b).
Proof. destruct d; by econstructor. Qed.

Lemma rbt_red_inv d c n a x b : rbt c n (node d RB_RED a x b) → c = RB_RED ∧ rbt RB_BLACK n a ∧ rbt RB_BLACK n b.
Proof. destruct d; inversion 1; by subst. Qed.
Lemma rbt_black_inv d c n a x b : rbt c n (node d RB_BLACK a x b) →
  c = RB_BLACK ∧ ∃ m ca cb, n = S m ∧ rbt ca m a ∧ rbt cb m b.
Proof. destruct d; inversion 1; subst; eauto 10. Qed.

(** A red subtree, and a black one above the leaves, is a node, on either side. *)
Lemma rbt_red_node d n t : rbt RB_RED n t → ∃ a x b, t = node d RB_RED a x b ∧ rbt RB_BLACK n a ∧ rbt RB_BLACK n b.
Proof. inversion 1; subst. destruct d; simpl; eauto 10. Qed.
Lemma rbt_black_node d n t : rbt RB_BLACK (S n) t → ∃ a x b ca cb, t = node d RB_BLACK a x b ∧ rbt ca n a ∧ rbt cb n b.
Proof. inversion 1; subst. destruct d; simpl; eauto 10. Qed.

Lemma cok_weaken c n k : cok c n k → cok RB_BLACK n k.
Proof. destruct 1; econstructor; eauto. Qed.

Lemma cok_red_inv n k : cok RB_RED n k → ∃ d p s cs k', k = MkFrame d RB_BLACK p s :: k' ∧ rbt cs n s ∧ cok RB_BLACK (S n) k'.
Proof. inversion 1; subst; eauto 10. Qed.

(** A subtree in its place, and back. *)
Lemma plug_rbt k c n t : rbt c n t → cok c n k → is_rb (plug k t).
Proof.
  revert c n t. induction k as [|f k IH]; intros c n t Ht Hk; inversion Hk; subst; simpl.
  - by exists n.
  - eapply IH; [|done]. by apply rbt_node_red.
  - eapply IH; [|done]. by eapply rbt_node_black.
Qed.
Lemma unplug_rbt k t : is_rb (plug k t) → ∃ c n, rbt c n t ∧ cok c n k.
Proof.
  revert t. induction k as [|[d [] p s] k IH]; intros t Ht; simpl in Ht.
  - destruct Ht as [n Ht]. exists RB_BLACK, n. split; [done|constructor].
  - destruct (IH _ Ht) as (c & n & [-> (m & ca & cb & -> & Ha & Hb)]%rbt_black_inv & Hk). exists ca, m. split; [done|]. by econstructor.
  - destruct (IH _ Ht) as (c & n & (-> & Ha & Hb)%rbt_red_inv & Hk). exists RB_BLACK, n. split; [done|]. by constructor.
Qed.

(** Painting the root black. *)
Lemma recolor_rbt c n t : rbt c n t → is_rb (recolor RB_BLACK t).
Proof. destruct 1; eexists; by econstructor. Qed.
