(* ===== verification/RedBlackInsert.v ===== *)
(** Insertion: the turns of [RB_INSERT_COLOR] on either side, its loop, and [RB_INSERT]. *)
From S2P Require Import Prelude RedBlackTree RedBlackShape RedBlackRotate RedBlackZip RedBlackBalance.

(** A turn, on the side of the parent. *)
Definition insert_side (d : Side) (elm parent gparent : Z) (h : Store) : option (Z * Store) :=
  tmp ← RB_CHILD (flip d) gparent h;
  red ← nonnull_red tmp h;
  if red : bool then
    h ← RB_SET_COLOR tmp RB_BLACK h;
    h ← RB_SET_BLACKRED parent gparent h;
    Some (gparent, h)
  else
    r ← RB_CHILD (flip d) parent h;
    h ← (if r =? elm then RB_ROTATE d parent h else Some h);
    let '(parent, elm) := if r =? elm then (elm, parent) else (parent, elm) in
    h ← RB_SET_BLACKRED parent gparent h;
    h ← RB_ROTATE (flip d) gparent h;
    Some (elm, h).

Lemma insert_side_eq d : insert_side d = match d with SLeft => insert_left | SRight => insert_right end.
Proof. by destruct d. Qed.

(** [RB_SET_BLACKRED] of a node and of its parent. *)
Lemma set_blackred_ok h k d e c c' a x b g y : at_zip h k (node d c (node e c' a x b) y g) →
  ∃ h', RB_SET_BLACKRED x y h = Some h' ∧ at_zip h' k (node d RB_RED (node e RB_BLACK a x b) y g) ∧ same_nodes h h'.
Proof.
  intros Hz. unfold RB_SET_BLACKRED. apply zip_child in Hz. destruct (node_set_color _ _ _ _ RB_BLACK _ _ _ Hz) as (h1 & E1 & Hz1 & S1).
  rewrite (bind_eq _ _ _ E1). apply zip_child in Hz1. destruct (node_set_color _ _ _ _ RB_RED _ _ _ Hz1) as (h2 & E2 & Hz2 & S2).
  exists h2. split; [done|]. split; [done|by eapply same_trans].
Qed.

Section turn.
Context (k : list frame) (d : Side) (y : Z) (u : tree).

(** The uncle is red: the two and the grandparent change colours. *)
Lemma insert_turn_red h e a x b p s : at_zip h (MkFrame e RB_RED p s :: MkFrame d RB_BLACK y u :: k) (Node RB_RED a x b) → color u = RB_RED →
  ∃ h', insert_side d x p y h = Some (y, h')
        ∧ at_zip h' k (node d RB_RED (node e RB_BLACK (Node RB_RED a x b) p s) y (recolor RB_BLACK u)) ∧ same_nodes h h'.
Proof using.
  intros Hz Hu. apply zip_child in Hz. apply zip_child in Hz. pose proof (zip_entry _ _ _ _ _ _ _ Hz) as Hy. pose proof Hz as Hzu. apply zip_other in Hzu.
  unfold insert_side. rewrite (bind_eq _ _ _ (other_of _ _ _ _ _ _ _ Hy)), (bind_eq _ _ _ (zip_nonnull_red _ _ _ Hzu)).
  rewrite bool_decide_true by done. destruct (zip_set_color _ _ _ RB_BLACK Hzu) as (h1 & E1 & Hz1 & S1); [by intros ->|].
  rewrite (bind_eq _ _ _ E1). apply zip_other in Hz1. destruct (set_blackred_ok _ _ _ _ _ _ _ _ _ _ _ Hz1) as (h2 & E2 & Hz2 & S2).
  rewrite (bind_eq _ _ _ E2). exists h2. split; [done|]. split; [done|by eapply same_trans].
Qed.

(** The uncle is black: the end of the turn, after the rotation at the parent. *)
Lemma insert_turn_end h x p s t : at_zip h k (node d RB_BLACK (node d RB_RED t p s) y u) →
  ∃ h', (h ← RB_SET_BLACKRED p y h; h ← RB_ROTATE (flip d) y h; Some (x, h)) = Some (x : Z, h' : Store)
        ∧ at_zip h' k (node d RB_BLACK t p (node d RB_RED s y u)) ∧ same_nodes h h'.
Proof using.
  intros Hz. destruct (set_blackred_ok _ _ _ _ _ _ _ _ _ _ _ Hz) as (h1 & E1 & Hz1 & S1). rewrite (bind_eq _ _ _ E1).
  rewrite <-node_flip, <-(node_flip d RB_BLACK) in Hz1. destruct (rotate_ok _ _ _ _ _ _ _ _ _ _ Hz1) as (h2 & E2 & Hz2 & S2).
  rewrite (bind_eq _ _ _ E2). rewrite !node_flip in Hz2. exists h2. split; [done|]. split; [done|by eapply same_trans].
Qed.

Lemma insert_turn_outer h a x b p s : at_zip h (MkFrame d RB_RED p s :: MkFrame d RB_BLACK y u :: k) (Node RB_RED a x b) → color u = RB_BLACK →
  ∃ h', insert_side d x p y h = Some (x, h')
        ∧ at_zip h' k (node d RB_BLACK (Node RB_RED a x b) p (node d RB_RED s y u)) ∧ same_nodes h h'.
Proof using.
  intros Hz Hu. apply zip_child in Hz. pose proof (zip_entry _ _ _ _ _ _ _ Hz) as Hp. pose proof (zip_apart _ _ _ _ _ _ _ Hz) as Hne.
  apply zip_child in Hz. pose proof (zip_entry _ _ _ _ _ _ _ Hz) as Hy. pose proof Hz as Hzu. apply zip_other in Hzu.
  unfold insert_side. rewrite (bind_eq _ _ _ (other_of _ _ _ _ _ _ _ Hy)), (bind_eq _ _ _ (zip_nonnull_red _ _ _ Hzu)).
  rewrite bool_decide_false by (by rewrite Hu). rewrite (bind_eq _ _ _ (other_of _ _ _ _ _ _ _ Hp)).
  rewrite (proj2 (Z.eqb_neq _ _)) by (intros E; by apply Hne). cbn [mbind option_bind]. by apply insert_turn_end.
Qed.

Lemma insert_turn_inner h a x b p s : at_zip h (MkFrame (flip d) RB_RED p s :: MkFrame d RB_BLACK y u :: k) (node d RB_RED a x b) → color u = RB_BLACK →
  ∃ h', insert_side d x p y h = Some (p, h')
        ∧ at_zip h' k (node d RB_BLACK (node d RB_RED s p a) x (node d RB_RED b y u)) ∧ same_nodes h h'.
Proof using.
  intros Hz Hu. apply zip_other in Hz. pose proof (zip_entry _ _ _ _ _ _ _ Hz) as Hp. rewrite ptr_node in Hp.
  apply zip_child in Hz as Hz1. pose proof (zip_entry _ _ _ _ _ _ _ Hz1) as Hy. apply zip_other in Hz1 as Hzu.
  unfold insert_side. rewrite (bind_eq _ _ _ (other_of _ _ _ _ _ _ _ Hy)), (bind_eq _ _ _ (zip_nonnull_red _ _ _ Hzu)).
  rewrite bool_decide_false by (by rewrite Hu). rewrite (bind_eq _ _ _ (other_of _ _ _ _ _ _ _ Hp)).
  rewrite Z.eqb_refl. destruct (rotate_ok _ _ _ _ _ _ _ _ _ _ Hz) as (h2 & E2 & Hz2 & S2). rewrite (bind_eq _ _ _ E2).
  apply zip_child in Hz2. destruct (insert_turn_end h2 p _ _ _ Hz2) as (h3 & E3 & Hz3 & S3).
  rewrite E3. exists h3. split; [done|]. split; [done|by eapply same_trans].
Qed.
End turn.

(** A whole turn: either two levels up, or at a position that accepts a red node. *)
Lemma insert_turn h k n e d p s y u cu t :
  at_zip h (MkFrame e RB_RED p s :: MkFrame d RB_BLACK y u :: k) t → rbt RB_RED n t → rbt RB_BLACK n s → rbt cu n u → cok RB_BLACK (S n) k →
  ∃ h' k' t' m, insert_side d (ptr t) p y h = Some (ptr t', h') ∧ at_zip h' k' t' ∧ same_nodes h h' ∧ rbt RB_RED m t'
    ∧ inorder (plug k' t') = inorder (plug (MkFrame e RB_RED p s :: MkFrame d RB_BLACK y u :: k) t)
    ∧ (k' = k ∧ cok RB_BLACK m k' ∨ length k' = S (length k) ∧ cok RB_RED m k').
Proof.
  intros Hz Ht Hs Hu Hk. pose proof (rbt_color _ _ _ Hu) as Hcu. cbn [plug]. unfold under. cbn [f_side f_color f_key f_sib].
  destruct (rbt_red_node d _ _ Ht) as (a & x & b & -> & Ha & Hb). destruct cu.
  2:{ assert (rbt RB_BLACK (S n) (recolor RB_BLACK u)) as Hu' by (inversion Hu; subst; by econstructor).
    assert (∃ h', insert_side d x p y h = Some (y, h')
        ∧ at_zip h' k (node d RB_RED (node e RB_BLACK (node d RB_RED a x b) p s) y (recolor RB_BLACK u)) ∧ same_nodes h h') as (h' & E & Hz' & Hsame).
    { destruct d; by apply insert_turn_red. }
    exists h', k, (node d RB_RED (node e RB_BLACK (node d RB_RED a x b) p s) y (recolor RB_BLACK u)), (S n). rewrite !ptr_node.
    split; [done|]. split; [done|]. split; [done|]. split.
    { apply rbt_node_red; [|done]. by eapply rbt_node_black. }
    split; [|left; by split]. apply inorder_plug_eq. rewrite (inorder_node_color d _ RB_BLACK). destruct d, e; simpl; by rewrite ?inorder_recolor. }
  assert (e = d ∨ e = flip d) as [->| ->] by (destruct d, e; auto).
  - assert (∃ h', insert_side d x p y h = Some (x, h')
        ∧ at_zip h' k (node d RB_BLACK (node d RB_RED a x b) p (node d RB_RED s y u)) ∧ same_nodes h h') as (h' & E & Hz' & Hsame).
    { destruct d; by apply insert_turn_outer. }
    apply zip_child in Hz'. eexists h', _, (node d RB_RED a x b), n. rewrite !ptr_node. split; [done|]. split; [done|]. split; [done|].
    split; [by apply rbt_node_red|]. split; [|right; split; [done|by apply (cok_black _ _ RB_RED); [apply rbt_node_red|]]].
    cbn [plug]. apply inorder_plug_eq. unfold under. cbn [f_side f_color f_key f_sib]. destruct d; simpl; by repeat (rewrite <-app_assoc; simpl).
  - destruct (insert_turn_inner k d y u h a x b p s Hz Hcu) as (h' & E & Hz' & Hsame).
    apply zip_child in Hz'. eexists h', _, (node d RB_RED s p a), n. rewrite !ptr_node. split; [done|]. split; [done|]. split; [done|].
    split; [by apply rbt_node_red|]. split; [|right; split; [done|by apply (cok_black _ _ RB_RED); [apply rbt_node_red|]]].
    cbn [plug]. apply inorder_plug_eq. unfold under. cbn [f_side f_color f_key f_sib]. destruct d; simpl; by repeat (rewrite <-app_assoc; simpl).
Qed.

(** The side that the loop takes. *)
Lemma insert_side_runs h k e d p s y u t c c' : at_zip h (MkFrame e c p s :: MkFrame d c' y u :: k) t →
  (l ← RB_LEFT y h; if p =? l then insert_left (ptr t) p y h else insert_right (ptr t) p y h) = insert_side d (ptr t) p y h.
Proof.
  intros Hz. apply zip_child in Hz. apply zip_child in Hz. pose proof (zip_entry _ _ _ _ _ _ _ Hz) as Hy. rewrite ptr_node in Hy.
  pose proof (zip_apart _ _ _ _ _ _ _ Hz) as Hne. rewrite ptr_node in Hne. rewrite insert_side_eq. unfold RB_LEFT. rewrite Hy. destruct d; cbn.
  - by rewrite Z.eqb_refl.
  - rewrite (proj2 (Z.eqb_neq _ _)); [done|]. apply Hne. by destruct e.
Qed.

Lemma insert_loop_ok fuel h k n t : (length k < fuel)%nat → at_zip h k t → rbt RB_RED n t → cok RB_BLACK n k ∨ cok RB_RED n k →
  ∃ h' T c m, RB_INSERT_COLOR_loop fuel (ptr t) h = Some h' ∧ at_zip h' [] T ∧ rbt c m T ∧ inorder T = inorder (plug k t) ∧ same_nodes h h'.
Proof.
  revert h k n t. induction fuel as [|fuel IH]; intros h k n t Hf Hz Ht Hk; [lia|].
  assert (t ≠ Leaf) as Hl by (intros ->; inversion Ht). cbn [RB_INSERT_COLOR_loop]. rewrite (bind_eq _ _ _ (zip_parent _ _ _ Hz Hl)).
  destruct k as [|[e c p s] k]; [by exists h, t, RB_RED, n|].
  cbn [top f_key]. apply zip_up in Hz as Hzp. unfold under in Hzp. cbn [f_side f_color f_key f_sib] in Hzp.
  pose proof (zip_nonnull_red _ _ _ Hzp) as Hr. rewrite ptr_node, color_node in Hr. rewrite (bind_eq _ _ _ Hr). destruct c.
  { assert (cok RB_RED n (MkFrame e RB_BLACK p s :: k)) as Hk'.
    { destruct Hk as [Hk|Hk]; [|done]. inversion Hk; subst. eapply cok_black; eassumption. }
    destruct (plug_rbt _ _ _ _ Ht Hk') as [m Hm]. exists h, (plug (MkFrame e RB_BLACK p s :: k) t), RB_BLACK, m.
    rewrite bool_decide_false by done. split; [done|]. split; [exact (proj1 (zip_top _ _ _) Hz)|]. done. }
  rewrite bool_decide_true by done. destruct Hk as [Hk|Hk]; [|by inversion Hk]. inversion Hk as [|? ? ? ? ? Hs Hk'|]; subst.
  destruct (cok_red_inv _ _ Hk') as (d & y & u & cu & k2 & -> & Hu & Hk2).
  pose proof (zip_parent _ _ _ Hzp) as Hpp. rewrite ptr_node in Hpp. rewrite (bind_eq _ _ _ (Hpp ltac:(by destruct e))). cbn [top f_key].
  destruct (insert_turn h k2 n e d p s y u cu t Hz Ht Hs Hu Hk2) as (h1 & k1 & t1 & m1 & E1 & Hz1 & S1 & Ht1 & Hi1 & Hcase).
  pose proof (insert_side_runs h k2 e d p s y u t _ _ Hz) as Hrun. rewrite E1 in Hrun.
  destruct (RB_LEFT y h) as [l|] eqn:El; [|done]. cbn [mbind option_bind] in Hrun |- *. rewrite Hrun. cbn [mbind option_bind].
  destruct (IH h1 k1 m1 t1) as (h' & T & c & m & E & Hz' & HT & Hi & Hsame); [|done|done|tauto|].
  { simpl in Hf. destruct Hcase as [[-> _]|[-> _]]; lia. }
  exists h', T, c, m. split; [done|]. split; [done|]. split; [done|]. split; [by rewrite Hi|by eapply same_trans].
Qed.

Lemma insert_color_ok h k n t : at_zip h k t → rbt RB_RED n t → cok RB_BLACK n k →
  ∃ h' T, RB_INSERT_COLOR (ptr t) h = Some h' ∧ at_zip h' [] T ∧ is_rb T ∧ inorder T = inorder (plug k t) ∧ same_nodes h h'.
Proof.
  intros Hz Ht Hk. destruct (insert_loop_ok (fuel_of h) h k n t) as (h1 & T & c & m & E & Hz1 & HT & Hi & Hsame); [by apply (zip_fuel h k t)|done|done|by left|].
  unfold RB_INSERT_COLOR. rewrite (bind_eq _ _ _ E). assert (Root h1 = ptr T) as -> by (by destruct Hz1).
  destruct (zip_set_color h1 [] T RB_BLACK Hz1) as (h2 & E2 & Hz2 & S2).
  { intros ->. rewrite inorder_plug in Hi. destruct t; [inversion Ht|]. simpl in Hi. by destruct (ctx_left k), (inorder t1). }
  exists h2, (recolor RB_BLACK T). split; [done|]. split; [done|]. split; [by eapply recolor_rbt|].
  split; [by rewrite inorder_recolor|by eapply same_trans].
Qed.

(** ** The search of the place *)

(** How the element compares to the node above a position. *)
Definition comp_at (k : list frame) (comp : Z) : Prop :=
  match k with [] => True | f :: _ => match f_side f with SLeft => comp < 0 | SRight => 0 < comp end end.

(** The place of an element in a list, by a comparison: after the nodes it is greater than. *)
Definition place (cmp : Z → Z) (l1 l2 : list Z) : Prop := (∀ z, z ∈ l1 → 0 < cmp z) ∧ (∀ z, z ∈ l2 → cmp z < 0).

Lemma place_left cmp la x lb l1 l2 : cmp x < 0 → place cmp l1 l2 → la ++ x :: lb = l1 ++ l2 →
  ∃ l2', la = l1 ++ l2' ∧ l2 = l2' ++ x :: lb ∧ place cmp l1 l2'.
Proof.
  intros Hx [H1 H2] [(k & -> & ->)|(k & -> & E)]%app_eq_inv.
  - exists k. split; [done|]. split; [done|]. split; [done|]. intros z Hz. apply H2. clear -Hz. set_solver.
  - destruct k as [|y k]; simpl in E; [exists []; rewrite !app_nil_r in *; subst; split; [done|]; split; [done|]; split; [done|clear; set_solver]|].
    injection E as -> E. assert (0 < cmp y) by (apply H1; clear; set_solver). lia.
Qed.
Lemma place_right cmp la x lb l1 l2 : 0 < cmp x → place cmp l1 l2 → la ++ x :: lb = l1 ++ l2 →
  ∃ l1', lb = l1' ++ l2 ∧ l1 = la ++ x :: l1' ∧ place cmp l1' l2.
Proof.
  intros Hx [H1 H2] [(k & -> & ->)|(k & -> & E)]%app_eq_inv.
  - assert (cmp x < 0) by (apply H2; clear; set_solver). lia.
  - destruct k as [|y k]; simpl in E; [subst l2; assert (cmp x < 0) by (apply H2; clear; set_solver); lia|].
    injection E as -> ->. exists k. split; [done|]. split; [done|]. split; [|done]. intros z Hz. apply H1. clear -Hz. set_solver.
Qed.

Lemma insert_search_place cmp h t : ∀ fuel k comp l1 l2, (length (inorder t) < fuel)%nat → at_zip h k t → inorder t = l1 ++ l2 → place cmp l1 l2 →
  comp_at k comp →
  ∃ k' comp', insert_search fuel cmp (top k) comp (ptr t) h = Some (inl (top k', comp'))
    ∧ at_zip h k' Leaf ∧ plug k' Leaf = plug k t ∧ ctx_left k' = ctx_left k ++ l1 ∧ ctx_right k' = l2 ++ ctx_right k ∧ comp_at k' comp'.
Proof.
  induction t as [|c l IHl x r IHr]; intros fuel k comp l1 l2 Hf Hz Hi Hp Hc; (destruct fuel as [|fuel]; [lia|]).
  - simpl in Hi. symmetry in Hi. apply app_nil in Hi as [-> ->]. exists k, comp. by rewrite app_nil_r.
  - cbn [insert_search ptr]. rewrite (proj2 (Z.eqb_neq _ _)) by (by eapply focus_nonnull). cbn [negb].
    simpl in Hi, Hf. rewrite length_app in Hf. simpl in Hf. assert (cmp x ≠ 0) as Hx0.
    { assert (x ∈ l1 ++ l2) as [Hx|Hx]%elem_of_app by (rewrite <-Hi; clear; set_solver); destruct Hp as [H1 H2]; [apply H1 in Hx|apply H2 in Hx]; lia. }
    destruct (Z.ltb_spec (cmp x) 0) as [Hlt|Hge].
    + destruct (place_left _ _ _ _ _ _ Hlt Hp Hi) as (l2' & Hl & -> & Hp'). rewrite (bind_eq _ _ _ (focus_left _ _ _ _ _ _ Hz)).
      apply (zip_child SLeft) in Hz.
      destruct (IHl fuel (MkFrame SLeft c x r :: k) (cmp x) l1 l2' ltac:(lia) Hz Hl Hp' Hlt) as (k' & comp' & E & Hz' & Hk' & El & Er & Hc').
      exists k', comp'. split; [done|]. split; [done|]. split; [done|]. split; [by rewrite El; simpl; rewrite app_nil_r|]. split; [|done].
      rewrite Er. simpl. by rewrite <-app_assoc.
    + assert (0 < cmp x) as Hgt by lia. rewrite (proj2 (Z.ltb_lt _ _) Hgt). destruct (place_right _ _ _ _ _ _ Hgt Hp Hi) as (l1' & Hr & -> & Hp').
      rewrite (bind_eq _ _ _ (focus_right _ _ _ _ _ _ Hz)). apply (zip_child SRight) in Hz.
      destruct (IHr fuel (MkFrame SRight c x l :: k) (cmp x) l1' l2 ltac:(lia) Hz Hr Hp' ltac:(cbn; lia)) as (k' & comp' & E & Hz' & Hk' & El & Er & Hc').
      exists k', comp'. split; [done|]. split; [done|]. split; [done|]. split; [|by rewrite Er].
      rewrite El. simpl. by rewrite <-!app_assoc.
Qed.

Lemma insert_search_equal cmp h t : ∀ fuel k comp l1 e l2, (length (inorder t) < fuel)%nat → at_zip h k t → inorder t = l1 ++ e :: l2 →
  place cmp l1 l2 → cmp e = 0 → insert_search fuel cmp (top k) comp (ptr t) h = Some (inr e).
Proof.
  induction t as [|c l IHl x r IHr]; intros fuel k comp l1 e l2 Hf Hz Hi Hp He; (destruct fuel as [|fuel]; [lia|]).
  - simpl in Hi. by destruct l1.
  - cbn [insert_search ptr]. rewrite (proj2 (Z.eqb_neq _ _)) by (by eapply focus_nonnull). cbn [negb].
    simpl in Hi, Hf. rewrite length_app in Hf. simpl in Hf. destruct Hp as [H1 H2].
    apply app_eq_inv in Hi as [(m & El & E)|(m & -> & E)].
    + destruct m as [|y m]; simpl in E.
      { injection E as -> ->. by rewrite He. }
      injection E as -> ->. assert (cmp x < 0) as Hlt by (apply H2; clear; set_solver).
      rewrite (proj2 (Z.ltb_lt _ _) Hlt). rewrite (bind_eq _ _ _ (focus_left _ _ _ _ _ _ Hz)). apply (zip_child SLeft) in Hz.
      eapply (IHl fuel (MkFrame SLeft c x r :: k)); [lia|done|done| |done]. split; [done|]. intros z Hz'. apply H2. clear -Hz'. set_solver.
    + destruct m as [|y m]; simpl in E.
      { injection E as -> _. by rewrite He. }
      injection E as -> E. assert (0 < cmp y) as Hlt by (apply H1; clear; set_solver).
      rewrite (proj2 (Z.ltb_ge _ _)), (proj2 (Z.ltb_lt _ _) Hlt) by lia. rewrite (bind_eq _ _ _ (focus_right _ _ _ _ _ _ Hz)).
      apply (zip_child SRight) in Hz. eapply (IHr fuel (MkFrame SRight c y l :: k)); [lia|done|done| |done]. split; [|done].
      intros z Hz'. apply H1. clear -Hz'. set_solver.
Qed.

(** ** The new node *)
(** A live node outside of the tree is linked in at an empty position. *)
Lemma insert_link h k comp elm e0 : at_zip h k Leaf → comp_at k comp → RB_ENTRY elm h = Some e0 → elm ∉ ctx_keys k → elm ≠ nullptr →
  ∃ h', (h1 ← RB_SET elm (top k) h;
         if negb (top k =? nullptr) then if comp <? 0 then RB_SET_LEFT (top k) elm h1 else RB_SET_RIGHT (top k) elm h1
         else Some (SetRoot elm h1)) = Some h'
    ∧ at_zip h' k (Node RB_RED Leaf elm Leaf) ∧ same_nodes h h'.
Proof.
  intros Hz Hc He Hk Hn0. unfold RB_SET. rewrite (SetRBEntry_ok _ _ _ _ He). cbn [mbind option_bind].
  set (h1 := MkStore (<[elm:=MkEntry nullptr nullptr (top k) RB_RED]> (nodes h)) (m_rbh_root h)).
  destruct Hz as [Hctx _ Hn H0]. rewrite app_nil_r in Hn, H0.
  assert (ctx_at (nodes h1) (Root h1) nullptr k) as Hctx1.
  { eapply ctx_at_frame; [exact Hctx|]. intros z Hz. apply lookup_insert_ne. by intros <-. }
  assert (same_nodes h h1) as S1 by (by eapply same_insert).
  exists (relink k elm h1). split.
  - destruct k as [|f k]; [done|]. cbn [top]. rewrite (proj2 (Z.eqb_neq _ _)) by (intros E; apply H0; rewrite <-E; by left). cbn [negb].
    destruct Hctx1 as (Hf & _). unfold comp_at in Hc. cbn [relink]. destruct (f_side f) eqn:Ed.
    + rewrite (proj2 (Z.ltb_lt _ _) Hc). by rewrite (set_child_entry SLeft _ _ _ _ _ _ _ Hf).
    + rewrite (proj2 (Z.ltb_ge _ _)) by lia. by rewrite (set_child_entry SRight _ _ _ _ _ _ _ Hf).
  - split; [split|].
    + by apply (relink_ok h1 k nullptr).
    + split; [|done]. change (RB_ENTRY elm (relink k elm h1) = Some (MkEntry nullptr nullptr (top k) RB_RED)).
      rewrite relink_there by done. apply lookup_insert_eq.
    + simpl. rewrite (comm (++)). simpl. by apply NoDup_cons.
    + simpl. set_solver.
    + unfold same_nodes in *. rewrite <-S1. by apply (relink_same h1 k nullptr).
Qed.

Section insert.
Context (elm : Z) (cmp : Z → Z → Z) (h : Store) (t : tree) (l1 l2 : list Z).
Context (Hz : at_zip h [] t) (Hp : place (cmp elm) l1 l2).

Lemma root_of : Root h = ptr t.
Proof using Hz. by destruct Hz. Qed.

Lemma RB_INSERT_place e0 : is_rb t → inorder t = l1 ++ l2 → RB_ENTRY elm h = Some e0 → elm ∉ inorder t → elm ≠ nullptr →
  ∃ h' T, RB_INSERT elm cmp h = Some (nullptr, h') ∧ at_zip h' [] T ∧ is_rb T ∧ inorder T = l1 ++ elm :: l2 ∧ same_nodes h h'.
Proof using Hz Hp.
  intros Ht Hi He Hn Hn0. unfold RB_INSERT. rewrite root_of.
  destruct (insert_search_place (cmp elm) h t (fuel_of h) [] 0 l1 l2) as (k & comp & E & Hzk & Hk & El & Er & Hc); [by apply (zip_fuel h [] t)|done..|].
  rewrite (bind_eq _ _ _ E). simpl in El, Er, Hk. rewrite app_nil_r in Er. subst.
  destruct (insert_link h k comp elm e0) as (h1 & E1 & Hz1 & S1); [done|done|done| |done|].
  { rewrite ctx_keys_perm, <-Hi. done. }
  destruct (RB_SET elm (top k) h) as [h0|]; [|done]. cbn [mbind option_bind] in E1 |- *. rewrite E1. cbn [mbind option_bind].
  destruct (unplug_rbt k Leaf Ht) as (c & n & H0 & Hck). inversion H0; subst.
  destruct (insert_color_ok h1 k 0 (Node RB_RED Leaf elm Leaf) Hz1) as (h2 & T & E2 & Hz2 & HT & Hi2 & S2); [by repeat constructor|done|].
  cbn [ptr] in E2. rewrite E2. cbn [mbind option_bind]. exists h2, T. split; [done|]. split; [done|]. split; [done|].
  split; [by rewrite Hi2, inorder_plug|by eapply same_trans].
Qed.

Lemma RB_INSERT_equal e : inorder t = l1 ++ e :: l2 → cmp elm e = 0 → RB_INSERT elm cmp h = Some (e, h).
Proof using Hz Hp.
  intros Hi He. unfold RB_INSERT. rewrite root_of.
  by rewrite (bind_eq _ _ _ (insert_search_equal (cmp elm) h t (fuel_of h) [] 0 l1 e l2 (proj2 (zip_fuel h [] t Hz)) Hz Hi Hp He)).
Qed.
End insert.
