(* ===== verification/RedBlackRemove.v ===== *)
(** Removal: the turns of [RB_REMOVE_COLOR] on either side and its loop. *)
From S2P Require Import Prelude RedBlackTree RedBlackShape RedBlackRotate RedBlackZip RedBlackBalance.

(** A turn from the sibling that is black on. *)
Definition remove_rest (d : Side) (parent tmp : Z) (h : Store) : option (bool * Z * Z * Store) :=
  n ← RB_CHILD d tmp h; nb ← null_or_black n h;
  f ← RB_CHILD (flip d) tmp h; fb ← null_or_black f h;
  if (nb : bool) && fb then
    h ← RB_SET_COLOR tmp RB_RED h;
    pp ← RB_PARENT parent h;
    Some (true, pp, parent, h)
  else
    h ← (if fb : bool then
           near ← RB_CHILD d tmp h;
           h ← (if negb (near =? nullptr) then RB_SET_COLOR near RB_BLACK h else Some h);
           h ← RB_SET_COLOR tmp RB_RED h;
           RB_ROTATE (flip d) tmp h
         else Some h);
    tmp ← (if fb : bool then RB_CHILD (flip d) parent h else Some tmp);
    c ← RB_COLOR parent h;
    h ← RB_SET_COLOR tmp c h;
    h ← RB_SET_COLOR parent RB_BLACK h;
    r ← RB_CHILD (flip d) tmp h;
    h ← (if negb (r =? nullptr) then RB_SET_COLOR r RB_BLACK h else Some h);
    h ← RB_ROTATE d parent h;
    Some (false, parent, Root h, h).

(** A turn, on the side of the element. *)
Definition remove_side (d : Side) (parent : Z) (h : Store) : option (bool * Z * Z * Store) :=
  tmp ← RB_CHILD (flip d) parent h;
  red ← RB_IS_RED tmp h;
  h ← (if red : bool then h ← RB_SET_BLACKRED tmp parent h; RB_ROTATE d parent h else Some h);
  tmp ← (if red : bool then RB_CHILD (flip d) parent h else Some tmp);
  remove_rest d parent tmp h.

Lemma remove_side_eq d parent h : remove_side d parent h = match d with SLeft => remove_left parent h | SRight => remove_right parent h end.
Proof.
  destruct d; [done|]. unfold remove_side, remove_right, remove_rest. cbn [RB_CHILD flip].
  destruct (RB_LEFT parent h) as [tmp|]; [|done]. cbn [mbind option_bind]. destruct (RB_IS_RED tmp h) as [red|]; [|done]. cbn [mbind option_bind].
  destruct (if red then _ else _) as [h1|]; [|done]. cbn [mbind option_bind]. destruct (if red then _ else _) as [s|]; [|done]. cbn [mbind option_bind].
  destruct (RB_LEFT s h1) as [l|]; cbn [mbind option_bind]; [|destruct (RB_RIGHT s h1) as [r|]; [|done]; cbn [mbind option_bind]; by destruct (null_or_black r h1)].
  destruct (RB_RIGHT s h1) as [r|]; cbn [mbind option_bind]; [|by destruct (null_or_black l h1)].
  destruct (null_or_black r h1) as [rb|], (null_or_black l h1) as [lb|]; cbn [mbind option_bind]; [|done..]. by rewrite andb_comm.
Qed.

Section turn.
Context (k : list frame) (d : Side) (fc : RBColor) (p : Z) (t : tree).

(** Both nephews are black: the sibling becomes red, and the loop goes up. *)
Lemma remove_rest_black h near sk far : at_zip h k (node d fc t p (node d RB_BLACK near sk far)) → color near = RB_BLACK → color far = RB_BLACK →
  ∃ h', remove_rest d p sk h = Some (true, top k, p, h') ∧ at_zip h' k (node d fc t p (node d RB_RED near sk far)) ∧ same_nodes h h'.
Proof using.
  intros Hz Hn Hf. apply down_other in Hz as Hzs. pose proof (zip_entry _ _ _ _ _ _ _ Hzs) as Hs.
  apply down_child in Hzs as Hzn. apply down_other in Hzs as Hzf. unfold remove_rest.
  rewrite (bind_eq _ _ _ (child_of _ _ _ _ _ _ _ Hs)), (bind_eq _ _ _ (zip_null_or_black _ _ _ Hzn)), (bind_eq _ _ _ (other_of _ _ _ _ _ _ _ Hs)),
    (bind_eq _ _ _ (zip_null_or_black _ _ _ Hzf)). rewrite !bool_decide_true by done. cbn [andb].
  destruct (node_set_color _ _ _ _ RB_RED _ _ _ Hzs) as (h1 & E1 & Hz1 & S1). rewrite (bind_eq _ _ _ E1). apply up_other in Hz1.
  rewrite (bind_eq _ _ _ (parent_of _ _ _ _ _ _ _ (zip_entry _ _ _ _ _ _ _ Hz1))). by exists h1.
Qed.

(** The end of a turn, with a red nephew on the far side. *)
Lemma remove_rest_end h c sk near far : at_zip h k (node d fc t p (node d c near sk far)) →
  ∃ h', (c ← RB_COLOR p h;
         h ← RB_SET_COLOR sk c h;
         h ← RB_SET_COLOR p RB_BLACK h;
         r ← RB_CHILD (flip d) sk h;
         h ← (if negb (r =? nullptr) then RB_SET_COLOR r RB_BLACK h else Some h);
         h ← RB_ROTATE d p h;
         Some (false, p, Root h, h)) = Some (false, p : Z, Root h', h' : Store)
    ∧ at_zip h' k (node d fc (node d RB_BLACK t p near) sk (recolor RB_BLACK far)) ∧ same_nodes h h'.
Proof using.
  intros Hz. rewrite (bind_eq _ _ _ (color_of _ _ _ _ _ _ _ (zip_entry _ _ _ _ _ _ _ Hz))). apply down_other in Hz.
  destruct (node_set_color _ _ _ _ fc _ _ _ Hz) as (h1 & E1 & Hz1 & S1). rewrite (bind_eq _ _ _ E1). apply up_other in Hz1.
  destruct (node_set_color _ _ _ _ RB_BLACK _ _ _ Hz1) as (h2 & E2 & Hz2 & S2). rewrite (bind_eq _ _ _ E2). apply down_other in Hz2.
  rewrite (bind_eq _ _ _ (other_of _ _ _ _ _ _ _ (zip_entry _ _ _ _ _ _ _ Hz2))). apply down_other in Hz2.
  destruct (zip_color_if _ _ _ RB_BLACK Hz2) as (h3 & E3 & Hz3 & S3). rewrite (bind_eq _ _ _ E3). apply up_other in Hz3. apply up_other in Hz3.
  destruct (rotate_ok _ _ _ _ _ _ _ _ _ _ Hz3) as (h4 & E4 & Hz4 & S4). rewrite (bind_eq _ _ _ E4). exists h4. split; [done|]. split; [done|].
  do 3 (eapply same_trans; [eassumption|]). done.
Qed.

(** The nephew on the far side is red. *)
Lemma remove_rest_far h near sk far : at_zip h k (node d fc t p (node d RB_BLACK near sk far)) → color far = RB_RED →
  ∃ h', remove_rest d p sk h = Some (false, p, Root h', h')
    ∧ at_zip h' k (node d fc (node d RB_BLACK t p near) sk (recolor RB_BLACK far)) ∧ same_nodes h h'.
Proof using.
  intros Hz Hf. apply down_other in Hz as Hzs. pose proof (zip_entry _ _ _ _ _ _ _ Hzs) as Hs.
  apply down_child in Hzs as Hzn. apply down_other in Hzs as Hzf. unfold remove_rest.
  rewrite (bind_eq _ _ _ (child_of _ _ _ _ _ _ _ Hs)), (bind_eq _ _ _ (zip_null_or_black _ _ _ Hzn)), (bind_eq _ _ _ (other_of _ _ _ _ _ _ _ Hs)),
    (bind_eq _ _ _ (zip_null_or_black _ _ _ Hzf)). rewrite (bool_decide_false (color far = _)) by (by rewrite Hf). rewrite andb_false_r.
  cbn [mbind option_bind]. by apply (remove_rest_end h RB_BLACK).
Qed.

(** The nephew on the near side is red, and the other is not: a rotation at the sibling first. *)
Lemma remove_rest_near h na nk nb sk far : at_zip h k (node d fc t p (node d RB_BLACK (node d RB_RED na nk nb) sk far)) → color far = RB_BLACK →
  ∃ h', remove_rest d p sk h = Some (false, p, Root h', h')
    ∧ at_zip h' k (node d fc (node d RB_BLACK t p na) nk (node d RB_BLACK nb sk far)) ∧ same_nodes h h'.
Proof using.
  intros Hz Hf. apply down_other in Hz as Hzs. pose proof (zip_entry _ _ _ _ _ _ _ Hzs) as Hs.
  apply down_child in Hzs as Hzn. apply down_other in Hzs as Hzf. unfold remove_rest.
  rewrite (bind_eq _ _ _ (child_of _ _ _ _ _ _ _ Hs)), (bind_eq _ _ _ (zip_null_or_black _ _ _ Hzn)), (bind_eq _ _ _ (other_of _ _ _ _ _ _ _ Hs)),
    (bind_eq _ _ _ (zip_null_or_black _ _ _ Hzf)). rewrite (bool_decide_true (color far = _)) by done. rewrite color_node. cbn [bool_decide andb].
  rewrite bool_decide_false by done. cbn [andb]. rewrite (bind_eq _ _ _ (child_of _ _ _ _ _ _ _ Hs)).
  destruct (zip_color_if _ _ _ RB_BLACK Hzn) as (h1 & E1 & Hz1 & S1). rewrite (bind_eq _ _ _ E1), recolor_node in *. apply up_child in Hz1.
  destruct (node_set_color _ _ _ _ RB_RED _ _ _ Hz1) as (h2 & E2 & Hz2 & S2). rewrite (bind_eq _ _ _ E2).
  rewrite <-node_flip, <-(node_flip d RB_BLACK) in Hz2. destruct (rotate_ok _ _ _ _ _ _ _ _ _ _ Hz2) as (h3 & E3 & Hz3 & S3).
  rewrite (bind_eq _ _ _ E3). rewrite !node_flip in Hz3. apply up_other in Hz3. pose proof (zip_entry _ _ _ _ _ _ _ Hz3) as Hp.
  rewrite (bind_eq _ _ _ (other_of _ _ _ _ _ _ _ Hp)), ptr_node.
  destruct (remove_rest_end h3 RB_BLACK _ _ _ Hz3) as (h4 & E4 & Hz4 & S4). rewrite E4. rewrite recolor_node in Hz4. exists h4.
  split; [done|]. split; [done|]. do 3 (eapply same_trans; [eassumption|]). done.
Qed.

(** A red sibling: after the rotation the sibling is its child, which is black. *)
Lemma remove_side_red h near sk far : at_zip h k (node d RB_BLACK t p (node d RB_RED near sk far)) →
  ∃ h', remove_side d p h = remove_rest d p (ptr near) h' ∧ at_zip h' (MkFrame d RB_BLACK sk far :: k) (node d RB_RED t p near) ∧ same_nodes h h'.
Proof using.
  intros Hz. pose proof (zip_entry _ _ _ _ _ _ _ Hz) as Hp. apply down_other in Hz as Hzs. pose proof (zip_entry _ _ _ _ _ _ _ Hzs) as Hs.
  unfold remove_side. rewrite (bind_eq _ _ _ (other_of _ _ _ _ _ _ _ Hp)), ptr_node. unfold RB_IS_RED. rewrite (color_of _ _ _ _ _ _ _ Hs).
  cbn [fmap option_fmap option_map mbind option_bind]. rewrite bool_decide_true by done. unfold RB_SET_BLACKRED.
  destruct (node_set_color _ _ _ _ RB_BLACK _ _ _ Hzs) as (h1 & E1 & Hz1 & S1). rewrite (bind_eq _ _ _ E1). apply up_other in Hz1.
  destruct (node_set_color _ _ _ _ RB_RED _ _ _ Hz1) as (h2 & E2 & Hz2 & S2). rewrite (bind_eq _ _ _ E2).
  destruct (rotate_ok _ _ _ _ _ _ _ _ _ _ Hz2) as (h3 & E3 & Hz3 & S3). rewrite (bind_eq _ _ _ E3). apply down_child in Hz3.
  rewrite (bind_eq _ _ _ (other_of _ _ _ _ _ _ _ (zip_entry _ _ _ _ _ _ _ Hz3))). exists h3. split; [done|]. split; [done|].
  do 2 (eapply same_trans; [eassumption|]). done.
Qed.
Lemma remove_side_black h near sk far : at_zip h k (node d fc t p (node d RB_BLACK near sk far)) → remove_side d p h = remove_rest d p sk h.
Proof using.
  intros Hz. pose proof (zip_entry _ _ _ _ _ _ _ Hz) as Hp. apply down_other in Hz as Hzs. pose proof (zip_entry _ _ _ _ _ _ _ Hzs) as Hs.
  unfold remove_side. rewrite (bind_eq _ _ _ (other_of _ _ _ _ _ _ _ Hp)), ptr_node. unfold RB_IS_RED. rewrite (color_of _ _ _ _ _ _ _ Hs).
  done.
Qed.
End turn.

(** ** The loop *)

(** A subtree that lacks one black node: as high as its place less one, or red with such children. *)
Definition lacking (n : nat) (t : tree) : Prop :=
  rbt RB_BLACK n t ∨ ∃ a x b ca cb, t = Node RB_RED a x b ∧ rbt ca n a ∧ rbt cb n b.

Lemma lacking_node d n a x b ca cb : rbt ca n a → rbt cb n b → lacking n (node d RB_RED a x b).
Proof. intros Ha Hb. right. destruct d; simpl; eauto 10. Qed.

(** Painting it black makes up for it where it is red, and at the root. *)
Lemma lacking_red n t : lacking n t → color t = RB_RED → rbt RB_BLACK (S n) (recolor RB_BLACK t).
Proof.
  intros [Ht|(a & x & b & ca & cb & -> & Ha & Hb)] Hc; [by rewrite (rbt_color _ _ _ Ht) in Hc|]. by econstructor.
Qed.
Lemma lacking_root n t : lacking n t → is_rb (recolor RB_BLACK t).
Proof. intros [Ht|(a & x & b & ca & cb & -> & Ha & Hb)]; [by eapply recolor_rbt|eexists; by econstructor]. Qed.

(** A turn with a black sibling: one level up, or done. *)
Lemma remove_rest_ok h k d fc p s t n : at_zip h k (node d fc t p s) → rbt RB_BLACK (S n) s → rbt RB_BLACK n t →
  (fc = RB_RED ∧ cok RB_RED (S n) k ∨ fc = RB_BLACK ∧ cok RB_BLACK (S (S n)) k) →
  (∃ h' T m, remove_rest d p (ptr s) h = Some (true, top k, ptr T, h') ∧ at_zip h' k T ∧ lacking m T ∧ cok RB_BLACK (S m) k
     ∧ (fc = RB_RED → color T = RB_RED) ∧ inorder T = inorder (node d fc t p s) ∧ same_nodes h h')
  ∨ (∃ h' T, remove_rest d p (ptr s) h = Some (false, p, Root h', h') ∧ at_zip h' k T ∧ is_rb (plug k T)
     ∧ inorder T = inorder (node d fc t p s) ∧ same_nodes h h').
Proof.
  intros Hz Hs Ht Hk. destruct (rbt_black_node d _ _ Hs) as (near & sk & far & cn & cf & -> & Hn & Hf). rewrite ptr_node.
  pose proof (rbt_color _ _ _ Hn) as Hcn. pose proof (rbt_color _ _ _ Hf) as Hcf. destruct cf; [destruct cn|].
  - left. destruct (remove_rest_black _ _ _ _ _ _ _ _ _ Hz Hcn Hcf) as (h' & E & Hz' & Hsame).
    assert (rbt RB_RED n (node d RB_RED near sk far)) as Hs' by (by apply rbt_node_red).
    exists h', (node d fc t p (node d RB_RED near sk far)). destruct Hk as [[-> Hk]|[-> Hk]]; [exists n|exists (S n)];
      rewrite ptr_node, color_node; (split; [done|]; split; [done|]).
    + split; [by eapply lacking_node|]. split; [by eapply cok_weaken|]. split; [done|]. split; [by destruct d|done].
    + split; [left; by eapply rbt_node_black|]. split; [done|]. split; [done|]. split; [by destruct d|done].
  - right. destruct (rbt_red_node d _ _ Hn) as (na & nk & nb & -> & Hna & Hnb).
    destruct (remove_rest_near _ _ _ _ _ _ _ _ _ _ _ Hz Hcf) as (h' & E & Hz' & Hsame).
    exists h', (node d fc (node d RB_BLACK t p na) nk (node d RB_BLACK nb sk far)). split; [done|]. split; [done|].
    assert (rbt RB_BLACK (S n) (node d RB_BLACK t p na)) as H1 by (by eapply rbt_node_black).
    assert (rbt RB_BLACK (S n) (node d RB_BLACK nb sk far)) as H2 by (by eapply rbt_node_black).
    split; [|split; [|done]].
    + destruct Hk as [[-> Hk]|[-> Hk]]; (eapply plug_rbt; [|exact Hk]); [by apply rbt_node_red|by eapply rbt_node_black].
    + destruct d; simpl; by repeat (rewrite <-app_assoc; simpl).
  - right. destruct (remove_rest_far _ _ _ _ _ _ _ _ _ Hz Hcf) as (h' & E & Hz' & Hsame).
    exists h', (node d fc (node d RB_BLACK t p near) sk (recolor RB_BLACK far)). split; [done|]. split; [done|].
    assert (rbt RB_BLACK (S n) (node d RB_BLACK t p near)) as H1 by (by eapply rbt_node_black).
    assert (rbt RB_BLACK (S n) (recolor RB_BLACK far)) as H2 by (inversion Hf; subst; by econstructor).
    split; [|split; [|done]].
    + destruct Hk as [[-> Hk]|[-> Hk]]; (eapply plug_rbt; [|exact Hk]); [by apply rbt_node_red|by eapply rbt_node_black].
    + destruct d; simpl; rewrite inorder_recolor; by repeat (rewrite <-app_assoc; simpl).
Qed.

(** A whole turn. *)
Lemma remove_turn h k d fc p s t n : at_zip h (MkFrame d fc p s :: k) t → cok RB_BLACK (S n) (MkFrame d fc p s :: k) → rbt RB_BLACK n t →
  (∃ h' k' T m, remove_side d p h = Some (true, top k', ptr T, h') ∧ at_zip h' k' T ∧ lacking m T ∧ cok RB_BLACK (S m) k'
     ∧ (k' = k ∨ color T = RB_RED) ∧ inorder (plug k' T) = inorder (plug (MkFrame d fc p s :: k) t) ∧ same_nodes h h')
  ∨ (∃ h' T, remove_side d p h = Some (false, p, Root h', h') ∧ at_zip h' [] T ∧ is_rb T
     ∧ inorder T = inorder (plug (MkFrame d fc p s :: k) t) ∧ same_nodes h h').
Proof.
  intros Hz Hk Ht. apply up_child in Hz. cbn [plug]. unfold under. cbn [f_side f_color f_key f_sib].
  assert (∃ h1 k1 fc1 s1, remove_side d p h = remove_rest d p (ptr s1) h1 ∧ at_zip h1 k1 (node d fc1 t p s1) ∧ rbt RB_BLACK (S n) s1
    ∧ (fc1 = RB_RED ∧ cok RB_RED (S n) k1 ∨ fc1 = RB_BLACK ∧ cok RB_BLACK (S (S n)) k1) ∧ (k1 = k ∨ fc1 = RB_RED)
    ∧ inorder (plug k1 (node d fc1 t p s1)) = inorder (plug k (node d fc t p s)) ∧ same_nodes h h1)
    as (h1 & k1 & fc1 & s1 & E1 & Hz1 & Hs1 & Hk1 & Hor & Hi1 & S1).
  { inversion Hk as [|? ? ? ? ? Hs Hk'|? ? cs ? ? ? ? Hs Hk']; subst; [|destruct cs].
    - pose proof Hs as Hs'. apply (rbt_black_node d) in Hs' as (near & sk & far & cn & cf & -> & Hn & Hf).
      exists h, k, RB_RED, (node d RB_BLACK near sk far). split; [by erewrite (remove_side_black k d RB_RED), ptr_node|].
      split; [done|]. split; [done|]. split; [by left|]. split; [by left|done].
    - pose proof Hs as Hs'. apply (rbt_black_node d) in Hs' as (near & sk & far & cn & cf & -> & Hn & Hf).
      exists h, k, RB_BLACK, (node d RB_BLACK near sk far). split; [by erewrite (remove_side_black k d RB_BLACK), ptr_node|].
      split; [done|]. split; [done|]. split; [by right|]. split; [by left|done].
    - destruct (rbt_red_node d _ _ Hs) as (near & sk & far & -> & Hn & Hf).
      destruct (remove_side_red _ _ _ _ _ _ _ _ Hz) as (h1 & E1 & Hz1 & S1).
      exists h1, (MkFrame d RB_BLACK sk far :: k), RB_RED, near. split; [done|]. split; [done|]. split; [done|].
      split; [left; split; [done|by eapply cok_black]|]. split; [by right|]. split; [|done]. cbn [plug]. apply inorder_plug_eq.
      unfold under. cbn [f_side f_color f_key f_sib]. destruct d; simpl; by repeat (rewrite <-app_assoc; simpl). }
  rewrite E1. destruct (remove_rest_ok _ _ _ _ _ _ _ _ Hz1 Hs1 Ht Hk1) as [(h' & T & m & E & Hz' & HT & Hc & Hr & Hi & Hsame)|(h' & T & E & Hz' & HT & Hi & Hsame)].
  - left. exists h', k1, T, m. split; [done|]. split; [done|]. split; [done|]. split; [done|]. split; [tauto|].
    split; [by rewrite <-Hi1; apply inorder_plug_eq|by eapply same_trans].
  - right. exists h', (plug k1 T). split; [done|]. split; [exact (proj1 (zip_top _ _ _) Hz')|]. split; [done|].
    split; [by rewrite <-Hi1; apply inorder_plug_eq|by eapply same_trans].
Qed.

(** The side that the loop takes. *)
Lemma remove_side_runs h k d fc p s t n : at_zip h (MkFrame d fc p s :: k) t → rbt RB_BLACK (S n) s ∨ rbt RB_RED (S n) s →
  (l ← RB_LEFT p h; if l =? ptr t then remove_left p h else remove_right p h) = remove_side d p h.
Proof.
  intros Hz Hs. apply up_child in Hz. apply down_other in Hz as Hzs. pose proof (zip_entry _ _ _ _ _ _ _ Hz) as Hp. rewrite remove_side_eq.
  rewrite <-node_flip in Hz. pose proof (zip_apart _ _ _ _ _ _ _ Hz) as Hne. unfold RB_LEFT. rewrite Hp. destruct d; cbn.
  - by rewrite Z.eqb_refl.
  - rewrite (proj2 (Z.eqb_neq _ _)); [done|]. apply Hne. intros ->. destruct Hs as [Hs|Hs]; inversion Hs.
Qed.

Lemma top_not_root h f k t : at_zip h (f :: k) t → ptr t ≠ Root h.
Proof.
  intros [Hc _ Hn H0] E. assert (Root h ∈ ctx_keys (f :: k)) as Hr.
  { clear Hn H0. revert f Hc. generalize (ptr t). clear t E. induction k as [|g k IH]; intros x f Hc; destruct Hc as (_ & _ & Hc).
    - rewrite Hc. by left.
    - right. apply elem_of_app. right. by eapply IH. }
  rewrite <-E in Hr. destruct t as [|c l x r]; cbn [ptr] in Hr; [apply H0; apply elem_of_app; by left|].
  apply NoDup_app in Hn as (_ & Hn & _). apply (Hn x Hr). simpl. clear. set_solver.
Qed.

Lemma remove_loop_ok fuel : ∀ h k t n, (length k < fuel)%nat → at_zip h k t → lacking n t → cok RB_BLACK (S n) k →
  ∃ h' k' T, RB_REMOVE_COLOR_loop fuel (top k) (ptr t) h = Some (ptr T, h') ∧ at_zip h' k' T ∧ is_rb (plug k' (recolor RB_BLACK T))
    ∧ inorder (plug k' T) = inorder (plug k t) ∧ same_nodes h h'.
Proof.
  induction fuel as [|fuel IH]; intros h k t n Hf Hz Ht Hk; [lia|]. cbn [RB_REMOVE_COLOR_loop].
  rewrite (bind_eq _ _ _ (zip_null_or_black _ _ _ Hz)). destruct (color t) eqn:Hc.
  2:{ exists h, k, t. split; [done|]. split; [done|]. split; [|done]. eapply plug_rbt; [by apply lacking_red|done]. }
  rewrite bool_decide_true by done. destruct k as [|f k].
  { rewrite (zip_root _ _ Hz), Z.eqb_refl. cbn [andb negb]. exists h, [], t. split; [done|]. split; [done|].
    split; [by eapply lacking_root|done]. }
  rewrite (proj2 (Z.eqb_neq _ _)) by (by eapply top_not_root). cbn [andb negb]. destruct f as [d fc p s]. cbn [top f_key].
  assert (rbt RB_BLACK n t) as Htb by (destruct Ht as [Ht|(? & ? & ? & ? & ? & -> & _)]; [done|by simpl in Hc]).
  assert (rbt RB_BLACK (S n) s ∨ rbt RB_RED (S n) s) as Hs by (inversion Hk as [|? ? ? ? ? Hs|? ? cs ? ? ? ? Hs]; subst; [by left|destruct cs; tauto]).
  pose proof (remove_side_runs h k d fc p s t n Hz Hs) as Hrun.
  destruct (remove_turn h k d fc p s t n Hz Hk Htb) as [(h1 & k1 & T1 & m & E & Hz1 & HT & Hc1 & Hor & Hi & S1)|(h1 & T & E & Hz1 & HT & Hi & S1)];
    rewrite E in Hrun; (destruct (RB_LEFT p h) as [l|]; [|done]); cbn [mbind option_bind] in Hrun |- *; rewrite Hrun; cbn [mbind option_bind].
  - assert ((length k1 < fuel)%nat ∨ color T1 = RB_RED ∧ fuel ≠ 0%nat) as Hlen.
    { simpl in Hf. destruct Hor as [->|Hr]; [left; lia|right; split; [done|lia]]. }
    destruct Hlen as [Hlen|[Hr Hfu]].
    + destruct (IH h1 k1 T1 m Hlen Hz1 HT Hc1) as (h' & k' & T & E' & Hz' & HT' & Hi' & S'). exists h', k', T.
      split; [done|]. split; [done|]. split; [done|]. split; [by rewrite Hi'|by eapply same_trans].
    + exists h1, k1, T1. destruct fuel as [|fuel]; [done|]. cbn [RB_REMOVE_COLOR_loop]. rewrite (bind_eq _ _ _ (zip_null_or_black _ _ _ Hz1)), Hr.
      split; [done|]. split; [done|]. split; [|done]. eapply plug_rbt; [by apply lacking_red|done].
  - exists h1, [], T. rewrite (zip_root _ _ Hz1). split; [done|]. split; [done|]. split; [|done]. destruct HT as [m HT]. by eapply recolor_rbt.
Qed.

Lemma remove_color_ok h k t n : at_zip h k t → lacking n t → cok RB_BLACK (S n) k →
  ∃ h' T, RB_REMOVE_COLOR (top k) (ptr t) h = Some h' ∧ at_zip h' [] T ∧ is_rb T ∧ inorder T = inorder (plug k t) ∧ same_nodes h h'.
Proof.
  intros Hz Ht Hk. destruct (remove_loop_ok (fuel_of h) h k t n (proj1 (zip_fuel _ _ _ Hz)) Hz Ht Hk) as (h1 & k1 & T & E & Hz1 & HT & Hi & S1).
  unfold RB_REMOVE_COLOR. fold (fuel_of h). rewrite (bind_eq _ _ _ E). destruct (zip_color_if _ _ _ RB_BLACK Hz1) as (h2 & E2 & Hz2 & S2).
  exists h2, (plug k1 (recolor RB_BLACK T)). split; [done|]. split; [exact (proj1 (zip_top _ _ _) Hz2)|]. split; [done|].
  split; [|by eapply same_trans]. rewrite <-Hi. apply inorder_plug_eq, inorder_recolor.
Qed.
