(* ===== verification/RedBlackErase.v ===== *)
(** Removal: a node with at most one child, the successor in the place of a node with two, and
    [RB_REMOVE]. *)
From S2P Require Import Prelude RedBlackTree RedBlackShape RedBlackRotate RedBlackZip RedBlackBalance RedBlackRemove.

(** What the parts of a position have in common: nothing. *)
Lemma zip_disjoint h k d c a x b : at_zip h k (node d c a x b) →
  (nullptr ∉ ctx_keys k ∧ nullptr ∉ inorder a ∧ nullptr ∉ inorder b ∧ x ∉ ctx_keys k ∧ x ∉ inorder a ∧ x ∉ inorder b)
  ∧ NoDup (ctx_keys k) ∧ NoDup (inorder a) ∧ NoDup (inorder b)
  ∧ (∀ z, z ∈ ctx_keys k → z ∉ inorder a ∧ z ∉ inorder b) ∧ (∀ z, z ∈ inorder a → z ∉ inorder b).
Proof.
  intros [_ _ Hn H0]. assert (ctx_keys k ++ inorder (node d c a x b) ≡ₚ x :: ctx_keys k ++ inorder a ++ inorder b) as E.
  { rewrite inorder_node. solve_Permutation. }
  rewrite E in Hn, H0. apply NoDup_cons in Hn as [Hx Hn]. apply NoDup_app in Hn as (Hk & Hd & Hn). apply NoDup_app in Hn as (Ha & Hdab & Hb).
  split; [|split; [done|]; split; [done|]; split; [done|]; split; [|done]].
  - clear -Hx H0. set_solver.
  - intros z Hz. specialize (Hd z Hz). clear -Hd. set_solver.
Qed.

(** ** A node with at most one child *)
Lemma link_child_ok h k d c x t : at_zip h k (node d c Leaf x t) →
  ∃ h', link_child (top k) x (ptr t) h = Some h' ∧ at_zip h' k t ∧ RB_ENTRY x h' = RB_ENTRY x h ∧ same_nodes h h'.
Proof.
  intros Hz. destruct (zip_disjoint _ _ _ _ _ _ _ Hz) as ((H0k & _ & H0t & Hxk & _ & Hxt) & Hnk & _ & Hnt & Hkt & _).
  pose proof (zip_nonnull _ _ _ _ _ _ _ Hz) as Hx0. destruct Hz as [Hc Ht _ _]. rewrite ptr_node in Hc. apply tree_at_node in Ht as (Hx & _ & Ht).
  set (h1 := reparent t (top k) h). assert (ctx_at (nodes h1) (Root h1) x k) as Hc1.
  { replace (Root h1) with (Root h) by (by destruct t). eapply ctx_at_frame; [exact Hc|]. intros z Hz. apply (reparent_there h). by apply Hkt. }
  assert (same_nodes h h1) as S1 by (by eapply reparent_same).
  exists (relink k (ptr t) h1). split.
  { unfold link_child. rewrite (set_parent_or_null h x (top k) t Ht H0t). cbn [mbind option_bind]. fold h1. by apply relink_runs. }
  split; [split|].
  - by apply (relink_ok h1 k x).
  - eapply tree_at_frame; [by apply (reparent_ok h x)|]. intros z Hz. apply (relink_there h1). intros Hzk. by apply (Hkt z Hzk).
  - apply NoDup_app. split; [done|]. split; [|done]. intros z Hz. by apply Hkt.
  - by rewrite elem_of_app; intros [?|?].
  - split; [unfold h1; by rewrite relink_there, reparent_there|]. unfold same_nodes in *. rewrite <-S1. by apply (relink_same h1 k x).
Qed.

(** The place of a black node takes a subtree that lacks one; of a red node, a black subtree. *)
Lemma one_child d c n x t : rbt c n (node d c Leaf x t) → ∃ m,
  n = (if bool_decide (c = RB_BLACK) then S m else m) ∧ (if bool_decide (c = RB_BLACK) then lacking m t else rbt RB_BLACK m t).
Proof.
  destruct c.
  - intros (_ & m & ca & cb & -> & Ha & Hb)%rbt_black_inv. inversion Ha; subst. exists 0%nat. split; [done|].
    rewrite bool_decide_true by done. destruct cb; [by left|]. inversion Hb; subst. right. eauto 10.
  - intros (_ & Ha & Hb)%rbt_red_inv. exists n. by rewrite bool_decide_false.
Qed.

Lemma splice_ok h k d c n x t : at_zip h k (node d c Leaf x t) → rbt c n (node d c Leaf x t) → cok c n k →
  ∃ h', (h ← link_child (top k) x (ptr t) h; if bool_decide (c = RB_BLACK) then RB_REMOVE_COLOR (top k) (ptr t) h else Some h) = Some h'
    ∧ ∃ T, at_zip h' [] T ∧ is_rb T ∧ inorder T = inorder (plug k t) ∧ same_nodes h h'.
Proof.
  intros Hz Hr Hk. destruct (link_child_ok _ _ _ _ _ _ Hz) as (h1 & E1 & Hz1 & _ & S1). rewrite (bind_eq _ _ _ E1).
  destruct (one_child _ _ _ _ _ Hr) as (m & -> & Hm). destruct (bool_decide_reflect (c = RB_BLACK)) as [->|Hc].
  - destruct (remove_color_ok h1 k t m Hz1 Hm Hk) as (h2 & T & E2 & Hz2 & HT & Hi & S2). exists h2. split; [done|]. exists T.
    split; [done|]. split; [done|]. split; [done|by eapply same_trans].
  - exists h1. split; [done|]. exists (plug k t). split; [exact (proj1 (zip_top _ _ _) Hz1)|]. split; [|done].
    eapply plug_rbt; [exact Hm|by eapply cok_weaken].
Qed.

Lemma remove_outer_ok h k d c n x t : at_zip h k (node d c Leaf x t) → rbt c n (node d c Leaf x t) → cok c n k →
  ∃ h' T, remove_outer x (ptr t) h = Some h' ∧ at_zip h' [] T ∧ is_rb T ∧ inorder T = inorder (plug k t) ∧ same_nodes h h'.
Proof.
  intros Hz Hr Hk. pose proof (zip_entry _ _ _ _ _ _ _ Hz) as Hx. unfold remove_outer.
  rewrite (bind_eq _ _ _ (parent_of _ _ _ _ _ _ _ Hx)), (bind_eq _ _ _ (color_of _ _ _ _ _ _ _ Hx)).
  destruct (splice_ok _ _ _ _ _ _ _ Hz Hr Hk) as (h' & E & T & HT). exists h', T. by rewrite E.
Qed.

(** ** Another node in the place of a node *)

Section take_place.
Context (h : Store) (k : list frame) (c : RBColor) (l r : tree) (old elm : Z) (e0 : RBEntry).
Context (Hz : at_zip h k (Node c l old r)) (Hl : l ≠ Leaf) (He0 : RB_ENTRY elm h = Some e0) (He : elm ≠ nullptr)
  (Hek : elm ∉ ctx_keys k) (Het : elm ∉ inorder (Node c l old r)).

Let e := MkEntry (ptr l) (ptr r) (top k) c.
Let h1 := put elm e h.
Let h2 := relink k elm h1.
Let h3 := reparent l elm h2.
Let h4 := reparent r elm h3.

Lemma take_place_apart : elm ≠ old ∧ elm ∉ inorder l ∧ elm ∉ inorder r.
Proof using Het. clear -Het. simpl in Het. set_solver. Qed.

Lemma take_place_stages :
  ctx_at (nodes h1) (Root h1) old k ∧ tree_at (nodes h2) old l ∧ tree_at (nodes h3) old r
  ∧ RB_ENTRY old h1 = Some e ∧ RB_ENTRY old h2 = Some e ∧ RB_ENTRY old h3 = Some e.
Proof using Hz Hek Het.
  destruct take_place_apart as (Heo & Hel & Her). destruct (zip_disjoint _ _ SLeft _ _ _ _ Hz) as ((_ & _ & _ & Hok & Hol & Hor) & _ & _ & _ & Hk & Hlr).
  destruct Hz as [Hc (Ho & Htl & Htr) _ _]. split; [|split; [|split]].
  - eapply ctx_at_frame; [exact Hc|]. intros z Hzk. apply (put_there elm). by intros <-.
  - eapply tree_at_frame; [exact Htl|]. intros z Hzl. change (RB_ENTRY z h2 = RB_ENTRY z h). unfold h2, h1.
    rewrite relink_there by (intros ?; by destruct (Hk z)). apply put_there. by intros <-.
  - eapply tree_at_frame; [exact Htr|]. intros z Hzr. change (RB_ENTRY z h3 = RB_ENTRY z h). unfold h3, h2, h1.
    rewrite reparent_there by (intros ?; by apply (Hlr z)). rewrite relink_there by (intros ?; by destruct (Hk z)). apply put_there. by intros <-.
  - assert (RB_ENTRY old h1 = Some e) as Ho1 by (unfold h1; rewrite put_there by done; exact Ho).
    assert (RB_ENTRY old h2 = Some e) as Ho2 by (unfold h2; by rewrite relink_there).
    split; [done|]. split; [done|]. unfold h3. by rewrite reparent_there.
Qed.

Lemma take_place_runs : take_place old elm h = Some h4.
Proof using Hz Hek Het He0 Hl.
  destruct take_place_stages as (Hc1 & Hl2 & Hr3 & Ho1 & Ho2 & Ho3). destruct (zip_disjoint _ _ SLeft _ _ _ _ Hz) as ((H0k & H0l & H0r & Hok & _) & _).
  unfold take_place. rewrite (bind_eq _ _ _ (focus_entry _ _ _ _ _ _ Hz)), (bind_eq _ _ _ (SetRBEntry_ok _ _ _ _ He0)).
  change (MkStore (<[elm:=_]> (nodes h)) (m_rbh_root h)) with h1.
  rewrite (bind_eq _ _ _ (parent_of SLeft _ _ _ _ _ _ Ho1)), (bind_eq _ _ _ (relink_runs h1 k old elm Hc1 H0k Hok (focus_nonnull _ _ _ _ _ _ Hz))). fold h2.
  rewrite (bind_eq _ _ _ (child_of SLeft _ _ _ _ _ _ Ho2)), (bind_eq _ _ _ (set_parent_ok h2 old elm l Hl2 Hl)). fold h3.
  rewrite (bind_eq _ _ _ (other_of SLeft _ _ _ _ _ _ Ho3)). by apply (set_parent_or_null h3 old elm r).
Qed.

Lemma take_place_zip : at_zip h4 k (Node c l elm r).
Proof using Hz Hl Hek Het He.
  destruct take_place_stages as (Hc1 & Hl2 & Hr3 & _). destruct take_place_apart as (Heo & Hel & Her).
  destruct (zip_disjoint _ _ SLeft _ _ _ _ Hz) as ((H0k & H0l & H0r & _) & Hnk & Hnl & Hnr & Hk & Hlr). split.
  - cbn [ptr]. replace (Root h4) with (Root h2) by (unfold h4, h3; by destruct l, r).
    eapply ctx_at_frame; [apply (relink_ok h1 k old elm Hc1 Hnk)|]. intros z Hzk. destruct (Hk z Hzk).
    change (RB_ENTRY z h4 = RB_ENTRY z h2). unfold h4, h3. by rewrite !reparent_there.
  - split; [|split].
    + change (RB_ENTRY elm h4 = Some e). unfold h4, h3, h2, h1. rewrite !reparent_there, relink_there by done. apply put_here.
    + eapply (tree_at_frame (nodes h3)); [by eapply reparent_ok|]. intros z Hzl. apply (reparent_there h3). by apply Hlr.
    + by apply (reparent_ok h3 old).
  - rewrite (inorder_node SLeft c l elm r). rewrite <-Permutation_middle. apply NoDup_cons. clear -Hek Hel Her Hnk Hnl Hnr Hk Hlr. split; [set_solver|].
    apply NoDup_app. split; [done|]. split; [intros z Hz; destruct (Hk z Hz); set_solver|]. apply NoDup_app. split; [done|]. split; [|done].
    intros z Hzr Hzl. by apply (Hlr z).
  - clear -H0k H0l H0r He. cbn [inorder]. rewrite !elem_of_app, elem_of_cons. intros [?|[?|[?|?]]]; congruence.
Qed.

Lemma take_place_same : same_nodes h h4.
Proof using Hz Hek Het He0.
  destruct take_place_stages as (Hc1 & Hl2 & Hr3 & _). assert (same_nodes h h1) as S1 by (by eapply same_insert).
  assert (same_nodes h h2) as S2 by (unfold same_nodes in *; rewrite <-S1; apply (relink_same h1 k old _ Hc1)).
  apply (reparent_same _ _ old); [|done]. by apply (reparent_same _ _ old).
Qed.

Lemma take_place_ok : ∃ h', take_place old elm h = Some h' ∧ at_zip h' k (Node c l elm r) ∧ same_nodes h h'.
Proof using Hz Hl He0 He Hek Het. exists h4. split; [apply take_place_runs|]. split; [apply take_place_zip|apply take_place_same]. Qed.
End take_place.

(** ** The successor *)

(** The leftmost node of a subtree: its position is on the left all the way down. *)
Lemma leftmost h t : ∀ fuel k, (length (inorder t) < fuel)%nat → at_zip h k t → t ≠ Leaf →
  ∃ sp c e r rest, go_left fuel (ptr t) h = Some e ∧ plug sp (Node c Leaf e r) = t
    ∧ (∀ t', inorder (plug sp t') = inorder t' ++ rest).
Proof.
  induction t as [|c l IHl x r IHr]; intros fuel k Hf Hz Hl; [done|]. destruct fuel as [|fuel]; [lia|].
  simpl in Hf. rewrite length_app in Hf. simpl in Hf. cbn [go_left ptr]. rewrite (bind_eq _ _ _ (focus_left _ _ _ _ _ _ Hz)).
  apply (down_child SLeft) in Hz as Hzl. destruct (Z.eqb_spec (ptr l) nullptr) as [E|E]; cbn [negb].
  - pose proof (zip_ptr_null _ _ _ Hzl E) as ->. exists [], c, x, r, []. split; [done|]. split; [done|]. intros t'. by rewrite app_nil_r.
  - destruct (IHl fuel _ ltac:(lia) Hzl) as (sp & ce & e & re & rest & Hg & Hp & Hi); [by intros ->|].
    exists (sp ++ [MkFrame SLeft c x r]), ce, e, re, (rest ++ x :: inorder r). split; [done|].
    assert (∀ t', plug (sp ++ [MkFrame SLeft c x r]) t' = Node c (plug sp t') x r) as Hpl.
    { clear. induction sp as [|f sp IH]; intros t'; [done|]. apply IH. }
    split; [by rewrite Hpl, Hp|]. intros t'. rewrite Hpl. simpl. rewrite Hi. by rewrite <-app_assoc.
Qed.

Lemma plug_app k1 k2 t : plug (k1 ++ k2) t = plug k2 (plug k1 t).
Proof. revert t. induction k1 as [|f k1 IH]; intros t; [done|]. apply IH. Qed.
Lemma zip_plug h k1 k2 t : at_zip h (k1 ++ k2) t ↔ at_zip h k2 (plug k1 t).
Proof. rewrite zip_top, plug_app. by rewrite <-zip_top. Qed.

Lemma ctx_keys_app k1 k2 : ctx_keys (k1 ++ k2) = ctx_keys k1 ++ ctx_keys k2.
Proof. induction k1 as [|f k1 IH]; simpl; [done|]. by rewrite IH, <-app_assoc. Qed.

(** The keys of a position do not matter for the colours. *)
Lemma cok_key c n sp d fc x y s k : cok c n (sp ++ MkFrame d fc x s :: k) → cok c n (sp ++ MkFrame d fc y s :: k).
Proof.
  revert c n. induction sp as [|f sp IH]; intros c n Hk; simpl in *; inversion Hk; subst; econstructor; eauto.
Qed.

Section inner.
Context (h : Store) (k sp : list frame) (c ce : RBColor) (l re : tree) (old elm : Z) (rest : list Z).
Let r := plug sp (Node ce Leaf elm re).
Let K := sp ++ MkFrame SRight c old l :: k.
Let K' := sp ++ MkFrame SRight c elm l :: k.
Context (Hz : at_zip h k (Node c l old r)) (Hl : l ≠ Leaf) (Hrest : ∀ t', inorder (plug sp t') = inorder t' ++ rest).

Lemma inner_zip : at_zip h K (Node ce Leaf elm re).
Proof using Hz. apply zip_plug. by apply (down_other SLeft). Qed.

(** The parent that the fix-up begins at, with the successor in its place. *)
Lemma inner_parent : (if top K =? old then elm else top K) = top K'.
Proof using Hz.
  pose proof inner_zip as [_ _ Hn _]. apply NoDup_app in Hn as [Hn _]. unfold K, K' in *. clear -Hn.
  destruct sp as [|f sp']; simpl in *; [by rewrite Z.eqb_refl|].
  rewrite (proj2 (Z.eqb_neq _ _)); [done|]. intros <-. apply NoDup_cons in Hn as [Hn _]. apply Hn. rewrite ctx_keys_app. simpl. clear. set_solver.
Qed.

Lemma inner_apart : elm ≠ nullptr ∧ elm ∉ ctx_keys k ∧ elm ∉ inorder (Node c l old (plug sp re)).
Proof using Hz Hrest.
  pose proof inner_zip as [_ _ Hn H0]. assert (ctx_keys K ++ inorder (Node ce Leaf elm re) ≡ₚ elm :: ctx_keys k ++ inorder (Node c l old (plug sp re))) as E.
  { unfold K. rewrite ctx_keys_app. simpl. rewrite <-(plug_keys sp re). solve_Permutation. }
  rewrite E in Hn, H0. apply NoDup_cons in Hn as [Hn _]. clear -Hn H0. set_solver.
Qed.

(** What remains in order: the successor has moved to the place of the node. *)
Lemma inner_order : inorder (plug K' re) = ctx_left k ++ inorder l ++ inorder r ++ ctx_right k.
Proof using Hrest.
  unfold K'. rewrite plug_app. simpl. rewrite inorder_plug. unfold under, r. simpl. rewrite !Hrest. simpl. by repeat (rewrite <-app_assoc; simpl).
Qed.

Lemma inner_ok : go_left (fuel_of h) (ptr r) h = Some elm → is_rb (plug K (Node ce Leaf elm re)) →
  ∃ h' T, remove_inner old h = Some h' ∧ at_zip h' [] T ∧ is_rb T ∧ inorder T = ctx_left k ++ inorder l ++ inorder r ++ ctx_right k ∧ same_nodes h h'.
Proof using Hz Hl Hrest.
  intros Hg Hrb. destruct inner_apart as (Hn0 & Hnk & Hnt). pose proof inner_zip as HzK. pose proof (zip_entry _ _ SLeft _ _ _ _ HzK) as He.
  unfold remove_inner. rewrite (bind_eq _ _ _ (focus_right _ _ _ _ _ _ Hz)), (bind_eq _ _ _ Hg), (bind_eq _ _ _ (other_of SLeft _ _ _ _ _ _ He)),
    (bind_eq _ _ _ (parent_of SLeft _ _ _ _ _ _ He)), (bind_eq _ _ _ (color_of SLeft _ _ _ _ _ _ He)).
  destruct (link_child_ok h K SLeft ce elm re HzK) as (h1 & E1 & Hz1 & He1 & S1). rewrite (bind_eq _ _ _ E1). rewrite He in He1.
  rewrite (bind_eq _ _ _ (parent_of SLeft _ _ _ _ _ _ He1)), inner_parent. unfold K in Hz1. apply zip_plug in Hz1. apply (up_other SLeft) in Hz1.
  destruct (take_place_ok h1 k c l (plug sp re) old elm _ Hz1 Hl He1 Hn0 Hnk Hnt) as (h2 & E2 & Hz2 & S2). rewrite (bind_eq _ _ _ E2).
  apply (down_other SLeft), zip_plug in Hz2. fold K' in Hz2.
  destruct (unplug_rbt _ _ Hrb) as (c0 & n & Hr & Hk). pose proof (rbt_color _ _ _ Hr) as Hc0. simpl in Hc0. subst c0. apply cok_key with (y := elm) in Hk. fold K' in Hk.
  destruct (one_child SLeft ce n elm re Hr) as (m & -> & Hm). rewrite <-inner_order. destruct (bool_decide_reflect (ce = RB_BLACK)) as [->|Hce].
  - destruct (remove_color_ok h2 K' re m Hz2 Hm Hk) as (h3 & T & E3 & Hz3 & HT & Hi & S3). exists h3, T. split; [done|]. split; [done|]. split; [done|].
    split; [done|]. do 2 (eapply same_trans; [eassumption|]). done.
  - exists h2, (plug K' re). split; [done|]. split; [exact (proj1 (zip_top _ _ _) Hz2)|]. split; [|split; [done|by eapply same_trans]].
    eapply plug_rbt; [exact Hm|by eapply cok_weaken].
Qed.
End inner.

(** ** [RB_REMOVE] *)

(** The position of a node of the tree. *)
Lemma find_position x t : x ∈ inorder t → ∃ k c l r, t = plug k (Node c l x r).
Proof.
  induction t as [|c l IHl y r IHr]; simpl; [by intros ?%elem_of_nil|]. intros [Hx|[->|Hx]%elem_of_cons]%elem_of_app.
  - destruct (IHl Hx) as (k & c' & l' & r' & ->). exists (k ++ [MkFrame SLeft c y r]), c', l', r'. by rewrite plug_app.
  - by exists [], c, l, r.
  - destruct (IHr Hx) as (k & c' & l' & r' & ->). exists (k ++ [MkFrame SRight c y l]), c', l', r'. by rewrite plug_app.
Qed.

Lemma RB_REMOVE_position h k c l r x : at_zip h k (Node c l x r) → is_rb (plug k (Node c l x r)) →
  ∃ h' T, RB_REMOVE x h = Some (x, h') ∧ at_zip h' [] T ∧ is_rb T ∧ inorder T = ctx_left k ++ inorder l ++ inorder r ++ ctx_right k ∧ same_nodes h h'.
Proof.
  intros Hz Hrb. unfold RB_REMOVE. rewrite (bind_eq _ _ _ (focus_left _ _ _ _ _ _ Hz)), (bind_eq _ _ _ (focus_right _ _ _ _ _ _ Hz)).
  destruct (unplug_rbt _ _ Hrb) as (c0 & n & Hr & Hk). pose proof (rbt_color _ _ _ Hr) as Hc0. simpl in Hc0. subst c0.
  apply (down_child SLeft) in Hz as Hzl. apply (down_child SRight) in Hz as Hzr.
  destruct (Z.eqb_spec (ptr l) nullptr) as [E|E]; [|destruct (Z.eqb_spec (ptr r) nullptr) as [E'|E']].
  - pose proof (zip_ptr_null _ _ _ Hzl E) as ->. destruct (remove_outer_ok h k SLeft c n x r Hz Hr Hk) as (h' & T & Eo & HzT & HT & Hi & Hs).
    exists h', T. rewrite (bind_eq _ _ _ Eo). rewrite Hi, inorder_plug. done.
  - pose proof (zip_ptr_null _ _ _ Hzr E') as ->. destruct (remove_outer_ok h k SRight c n x l Hz Hr Hk) as (h' & T & Eo & HzT & HT & Hi & Hs).
    exists h', T. rewrite (bind_eq _ _ _ Eo). rewrite Hi, inorder_plug. done.
  - destruct (leftmost h r (fuel_of h) _ (proj2 (zip_fuel _ _ _ Hzr)) Hzr) as (sp & ce & e & re & rest & Hg & <- & Hi); [by intros ->|].
    destruct (inner_ok h k sp c ce l re x e rest Hz) as (h' & T & Ei & HzT & HT & Hord & Hs); [by intros ->|done|done| |].
    { rewrite plug_app. done. }
    exists h', T. by rewrite (bind_eq _ _ _ Ei).
Qed.
