(* ===== verification/RedBlackSearch.v ===== *)
(** The searches and the walks: by a comparison, to the next and the previous node, and to the
    first and the last one, on either side at once. *)
From S2P Require Import Prelude RedBlackTree RedBlackShape RedBlackZip RedBlackInsert.

(** ** Searches, which go the way of the search of a place *)
Lemma searches_found fuel cmp h : ∀ parent comp tmp res e, insert_search fuel cmp parent comp tmp h = Some (inr e) →
  find_loop fuel cmp tmp h = Some e ∧ nfind_loop fuel cmp tmp res h = Some e ∧ find_existing_loop fuel cmp tmp h = Some e.
Proof.
  induction fuel as [|fuel IH]; intros parent comp tmp res e; simpl; [done|]. destruct (negb (tmp =? nullptr)); [|done].
  destruct (cmp tmp <? 0); [|destruct (0 <? cmp tmp)].
  - destruct (RB_LEFT tmp h) as [l|]; [|done]. apply IH.
  - destruct (RB_RIGHT tmp h) as [r|]; [|done]. apply IH.
  - by intros [= ->].
Qed.

Lemma find_none fuel cmp h : ∀ parent comp tmp pl, insert_search fuel cmp parent comp tmp h = Some (inl pl) → find_loop fuel cmp tmp h = Some nullptr.
Proof.
  induction fuel as [|fuel IH]; intros parent comp tmp pl; simpl; [done|]. destruct (negb (tmp =? nullptr)); [|done].
  destruct (cmp tmp <? 0); [|destruct (0 <? cmp tmp)]; [destruct (RB_LEFT tmp h) as [l|]|destruct (RB_RIGHT tmp h) as [r|]|]; try done; apply IH.
Qed.

Lemma nfind_place cmp h t : ∀ fuel k l1 l2, (length (inorder t) < fuel)%nat → at_zip h k t → inorder t = l1 ++ l2 → place cmp l1 l2 →
  nfind_loop fuel cmp (ptr t) (hd nullptr (ctx_right k)) h = Some (hd nullptr (l2 ++ ctx_right k)).
Proof.
  induction t as [|c l IHl x r IHr]; intros fuel k l1 l2 Hf Hz Hi Hp; (destruct fuel as [|fuel]; [lia|]).
  - simpl in Hi. symmetry in Hi. by apply app_nil in Hi as [-> ->].
  - cbn [nfind_loop ptr]. rewrite (proj2 (Z.eqb_neq _ _)) by (by eapply focus_nonnull). cbn [negb].
    simpl in Hi, Hf. rewrite length_app in Hf. simpl in Hf. assert (cmp x ≠ 0) as Hx0.
    { assert (x ∈ l1 ++ l2) as [Hx|Hx]%elem_of_app by (rewrite <-Hi; clear; set_solver); destruct Hp as [H1 H2]; [apply H1 in Hx|apply H2 in Hx]; lia. }
    destruct (Z.ltb_spec (cmp x) 0) as [Hlt|Hge].
    + destruct (place_left _ _ _ _ _ _ Hlt Hp Hi) as (l2' & Hl & -> & Hp'). rewrite (bind_eq _ _ _ (focus_left _ _ _ _ _ _ Hz)).
      apply (down_child SLeft) in Hz. rewrite <-app_assoc. apply (IHl fuel (MkFrame SLeft c x r :: k) l1 l2' ltac:(lia) Hz Hl Hp').
    + assert (0 < cmp x) as Hgt by lia. rewrite (proj2 (Z.ltb_lt _ _) Hgt). destruct (place_right _ _ _ _ _ _ Hgt Hp Hi) as (l1' & Hr & -> & Hp').
      rewrite (bind_eq _ _ _ (focus_right _ _ _ _ _ _ Hz)). apply (down_child SRight) in Hz.
      apply (IHr fuel (MkFrame SRight c x l :: k) l1' l2 ltac:(lia) Hz Hr Hp').
Qed.

(** ** Walks, on a side: forwards on the left, backwards on the right *)
Definition order (d : Side) (t : tree) : list Z := match d with SLeft => inorder t | SRight => rev (inorder t) end.
Definition after (d : Side) (k : list frame) : list Z := match d with SLeft => ctx_right k | SRight => rev (ctx_left k) end.

Lemma order_node d c a x b : order d (node d c a x b) = order d a ++ x :: order d b.
Proof. destruct d; simpl; [done|]. rewrite rev_app_distr. simpl. by rewrite <-app_assoc. Qed.

Lemma after_same d c x s k : after d (MkFrame d c x s :: k) = x :: order d s ++ after d k.
Proof. destruct d; simpl; [done|]. rewrite !rev_app_distr. simpl. done. Qed.
Lemma after_other d c x s k : after d (MkFrame (flip d) c x s :: k) = after d k.
Proof. destruct d; simpl; [done|]. by rewrite app_nil_r. Qed.

Lemma order_plug d k t : ∃ l, order d (plug k t) = l ++ order d t ++ after d k.
Proof.
  destruct d; simpl; rewrite inorder_plug; [by eexists|]. rewrite !rev_app_distr, <-app_assoc. by eexists.
Qed.

Lemma node_cases d t : t = Leaf ∨ ∃ c a x b, t = node d c a x b.
Proof. destruct t as [|c l x r]; [by left|right]. destruct d; [by exists c, l, x, r|by exists c, r, x, l]. Qed.

Definition go_side (d : Side) := match d with SLeft => go_left | SRight => go_right end.
Definition min_side (d : Side) := match d with SLeft => min_loop | SRight => max_loop end.
Definition up_side (d : Side) := match d with SLeft => up_from_right | SRight => up_from_left end.
Definition step_side (d : Side) := match d with SLeft => RB_NEXT | SRight => RB_PREV end.

Lemma length_order d t : length (order d t) = length (inorder t).
Proof. destruct d; simpl; [done|apply length_rev]. Qed.

Lemma go_side_ok d h : ∀ fuel k t, (length (order d t) < fuel)%nat → at_zip h k t → t ≠ Leaf → go_side d fuel (ptr t) h = Some (hd nullptr (order d t)).
Proof.
  induction fuel as [|fuel IH]; intros k t Hf Hz Hl; [lia|]. destruct (node_cases d t) as [->|(c & a & x & b & ->)]; [done|].
  rewrite order_node, length_app in Hf. rewrite ptr_node, order_node. assert (length (order d a) < fuel)%nat as Hlen by (cbn [length] in Hf; lia).
  assert (go_side d (S fuel) x h = (l ← RB_CHILD d x h; if negb (l =? nullptr) then go_side d fuel l h else Some x)) as -> by (by destruct d).
  rewrite (bind_eq _ _ _ (child_of _ _ _ _ _ _ _ (zip_entry _ _ _ _ _ _ _ Hz))). apply down_child in Hz.
  destruct (Z.eqb_spec (ptr a) nullptr) as [E|E]; cbn [negb].
  - pose proof (zip_ptr_null _ _ _ Hz E) as ->. by destruct d.
  - rewrite (IH _ a Hlen Hz) by (by intros ->). assert (order d a ≠ []) as Ha.
    { destruct (node_cases d a) as [->|(c' & a' & x' & b' & ->)]; [done|]. rewrite order_node. by destruct (order d a'). }
    by destruct (order d a).
Qed.

Lemma min_side_ok d h : ∀ fuel k t p, (length (order d t) < fuel)%nat → at_zip h k t → min_side d fuel (ptr t) p h = Some (hd p (order d t)).
Proof.
  induction fuel as [|fuel IH]; intros k t p Hf Hz; [lia|]. destruct (node_cases d t) as [->|(c & a & x & b & ->)]; [by destruct d|].
  rewrite order_node, length_app in Hf. rewrite ptr_node, order_node. assert (length (order d a) < fuel)%nat as Hlen by (cbn [length] in Hf; lia).
  assert (min_side d (S fuel) x p h = (if negb (x =? nullptr) then l ← RB_CHILD d x h; min_side d fuel l x h else Some p)) as -> by (by destruct d).
  rewrite (proj2 (Z.eqb_neq _ _)) by (by eapply zip_nonnull). cbn [negb].
  rewrite (bind_eq _ _ _ (child_of _ _ _ _ _ _ _ (zip_entry _ _ _ _ _ _ _ Hz))). apply down_child in Hz.
  rewrite (IH _ a _ Hlen Hz). by destruct (order d a).
Qed.

(** The walk up, which ends below the next node. *)
Lemma up_side_ok d h : ∀ fuel k t, (length k < fuel)%nat → at_zip h k t → t ≠ Leaf →
  ∃ e, up_side d fuel (ptr t) h = Some e ∧ RB_PARENT e h = Some (hd nullptr (after d k)).
Proof.
  induction fuel as [|fuel IH]; intros k t Hf Hz Hl; [lia|]. pose proof (zip_parent _ _ _ Hz Hl) as Hp.
  assert (up_side d (S fuel) (ptr t) h = (p ← RB_PARENT (ptr t) h; if negb (p =? nullptr) then
    r ← RB_CHILD (flip d) p h; if ptr t =? r then up_side d fuel p h else Some (ptr t) else Some (ptr t))) as -> by (by destruct d).
  rewrite (bind_eq _ _ _ Hp). destruct k as [|[e c p s] k]; [exists (ptr t); by destruct d|]. simpl in Hf. cbn [top f_key] in *.
  assert (e = d ∨ e = flip d) as [->| ->] by (destruct d, e; auto).
  - apply up_child in Hz. rewrite (proj2 (Z.eqb_neq _ _)) by (by eapply zip_nonnull). cbn [negb].
    rewrite (bind_eq _ _ _ (other_of _ _ _ _ _ _ _ (zip_entry _ _ _ _ _ _ _ Hz))).
    rewrite (proj2 (Z.eqb_neq _ _)) by (by eapply zip_apart). exists (ptr t). by rewrite after_same.
  - apply up_other in Hz. rewrite (proj2 (Z.eqb_neq _ _)) by (by eapply zip_nonnull). cbn [negb].
    rewrite (bind_eq _ _ _ (other_of _ _ _ _ _ _ _ (zip_entry _ _ _ _ _ _ _ Hz))), Z.eqb_refl, after_other.
    destruct (IH k (node d c s p t)) as (e & E & He); [lia|done|by destruct d|]. exists e. by rewrite ptr_node in E.
Qed.

(** The next node on a side. *)
Lemma step_side_ok d h k c a x b : at_zip h k (node d c a x b) → step_side d x h = Some (hd nullptr (order d b ++ after d k)).
Proof.
  intros Hz. pose proof (zip_entry _ _ _ _ _ _ _ Hz) as Hx.
  assert (step_side d x h = (r ← RB_CHILD (flip d) x h; if negb (r =? nullptr) then go_side d (fuel_of h) r h else
    p ← RB_PARENT x h; from ← (if negb (p =? nullptr) then l ← RB_CHILD d p h; Some (x =? l) else Some false);
    if from : bool then Some p else e ← up_side d (fuel_of h) x h; RB_PARENT e h)) as -> by (by destruct d).
  rewrite (bind_eq _ _ _ (other_of _ _ _ _ _ _ _ Hx)), (bind_eq _ _ _ (parent_of _ _ _ _ _ _ _ Hx)). apply down_other in Hz as Hzb.
  destruct (Z.eqb_spec (ptr b) nullptr) as [E|E]; cbn [negb].
  - pose proof (zip_ptr_null _ _ _ Hzb E) as ->. replace (order d Leaf) with (@nil Z) by (by destruct d). cbn [app].
    destruct (up_side_ok d h (fuel_of h) k _ (proj1 (zip_fuel _ _ _ Hz)) Hz) as (e & Eu & He); [by destruct d|]. rewrite ptr_node in Eu.
    destruct k as [|[s fc p sib] k]; [cbn [top]; rewrite Z.eqb_refl; cbn [negb mbind option_bind]; by rewrite Eu|].
    cbn [top f_key]. assert (s = d ∨ s = flip d) as [->| ->] by (destruct d, s; auto).
    + apply up_child in Hz. rewrite (proj2 (Z.eqb_neq p _)) by (by eapply zip_nonnull). cbn [negb].
      rewrite (bind_eq _ _ _ (child_of _ _ _ _ _ _ _ (zip_entry _ _ _ _ _ _ _ Hz))), ptr_node. cbn [mbind option_bind]. by rewrite Z.eqb_refl, after_same.
    + rewrite (bind_eq _ _ _ Eu). apply up_other in Hz. rewrite (proj2 (Z.eqb_neq p _)) by (by eapply zip_nonnull). cbn [negb].
      rewrite (bind_eq _ _ _ (child_of _ _ _ _ _ _ _ (zip_entry _ _ _ _ _ _ _ Hz))). cbn [mbind option_bind].
      rewrite (proj2 (Z.eqb_neq x _)); [done|]. rewrite <-node_flip in Hz. apply zip_apart in Hz; [by rewrite ptr_node in Hz|by destruct d].
  - assert (b ≠ Leaf) as Hb by (by intros ->). rewrite (go_side_ok d h (fuel_of h) _ b) by (rewrite ?length_order; first [done|apply (zip_fuel _ _ _ Hzb)|exact Hzb]).
    destruct (order d b) as [|y l] eqn:Eo; [|done]. destruct (node_cases d b) as [->|(c' & a' & x' & b' & ->)]; [done|].
    rewrite order_node in Eo. by destruct (order d a').
Qed.
