(* ===== verification/RedBlackSpec.v ===== *)
(** What the red-black tree promises: the trees that insertion and removal make are ordered,
    balanced and well linked, and they are the lists that the clients of the tree see. *)
From stdpp Require Import sorting.
From S2P Require Import Prelude RedBlackTree RedBlackShape RedBlackZip RedBlackBalance RedBlackInsert RedBlackErase RedBlackSearch ThreadLocks.

(** ** Ordered lists *)

(** A three-way comparison of the elements of [D]. It may never say that two are equal, and then an
    element follows those that it is not less than. *)
Class Comparator (D : Z → Prop) (cmp : Z → Z → Z) : Prop := {
  cmp_flip x y : D x → D y → cmp x y < 0 → 0 < cmp y x;
  cmp_follows e x y : D e → D x → D y → 0 < cmp y x → 0 ≤ cmp e y → 0 < cmp e x;
}.

(** The element goes before the first that it compares less than. *)
Fixpoint insert_in (c : Z → Z) (e : Z) (xs : list Z) : list Z :=
  match xs with [] => [e] | x :: rest => if c x <? 0 then e :: xs else x :: insert_in c e rest end.
(** From the first element on that is not less than the key. *)
Fixpoint lower (c : Z → Z) (xs : list Z) : list Z :=
  match xs with [] => [] | x :: rest => if 0 <? c x then lower c rest else xs end.
(** The element that compares equal, or [nullptr]. *)
Definition find_in (c : Z → Z) (xs : list Z) : Z :=
  match lower c xs with x :: _ => if c x =? 0 then x else nullptr | [] => nullptr end.

Lemma insert_in_place c e l1 l2 : place c l1 l2 → insert_in c e (l1 ++ l2) = l1 ++ e :: l2.
Proof.
  intros [H1 H2]. induction l1 as [|x l1 IH]; simpl.
  - destruct l2 as [|y l2]; simpl; [done|]. by rewrite (proj2 (Z.ltb_lt _ _)) by (apply H2; by left).
  - rewrite (proj2 (Z.ltb_ge _ _)) by (assert (0 < c x) by (apply H1; by left); lia). rewrite IH; [done|]. intros z Hz. apply H1. by right.
Qed.

Lemma lower_after c l1 l2 : (∀ z, z ∈ l1 → 0 < c z) → (∀ x, head l2 = Some x → c x ≤ 0) → lower c (l1 ++ l2) = l2.
Proof.
  intros H1 H2. induction l1 as [|x l1 IH]; simpl.
  - destruct l2 as [|y l2]; simpl; [done|]. by rewrite (proj2 (Z.ltb_ge _ _)) by (by apply H2).
  - rewrite (proj2 (Z.ltb_lt _ _)) by (apply H1; by left). apply IH. intros z Hz. apply H1. by right.
Qed.

(** A comparison with a key that goes down along the list. *)
Definition descends (c : Z → Z) (xs : list Z) : Prop := StronglySorted (λ x y, 0 ≤ c y → 0 < c x) xs.

(** It splits the list: with an element that is equal, or without. *)
Lemma descends_place c xs : descends c xs →
  (∃ l1 l2, xs = l1 ++ l2 ∧ place c l1 l2 ∧ lower c xs = l2)
  ∨ (∃ l1 e l2, xs = l1 ++ e :: l2 ∧ place c l1 l2 ∧ c e = 0 ∧ lower c xs = e :: l2).
Proof.
  induction xs as [|x xs IH]; intros Hs; [left; exists [], []; split; [done|]; split; [split; intros z Hz; by apply elem_of_nil in Hz|done]|].
  apply StronglySorted_inv in Hs as [Hs Hx]. rewrite Forall_forall in Hx. destruct (Z.lt_trichotomy (c x) 0) as [Hlt|[He|Hgt]].
  - left. exists [], (x :: xs). split; [done|]. split; [|simpl; by rewrite (proj2 (Z.ltb_ge _ _)) by lia].
    split; [intros z Hz; by apply elem_of_nil in Hz|]. intros z [->|Hz]%elem_of_cons; [done|]. apply Z.nle_gt. intros Hcz. specialize (Hx z Hz Hcz). lia.
  - right. exists [], x, xs. split; [done|]. split; [|split; [done|simpl; by rewrite (proj2 (Z.ltb_ge _ _)) by lia]].
    split; [intros z Hz; by apply elem_of_nil in Hz|]. intros z Hz. apply Z.nle_gt. intros Hcz. specialize (Hx z Hz Hcz). lia.
  - assert (∀ l1 : list Z, (∀ z, z ∈ l1 → 0 < c z) → ∀ z, z ∈ x :: l1 → 0 < c z) as Hcons by (intros l1 H1 z [->|Hz]%elem_of_cons; [done|by apply H1]).
    simpl. rewrite (proj2 (Z.ltb_lt _ _) Hgt). destruct (IH Hs) as [(l1 & l2 & -> & [H1 H2] & Hl)|(l1 & e & l2 & -> & [H1 H2] & He & Hl)].
    + left. exists (x :: l1), l2. split; [done|]. split; [|done]. split; [by apply Hcons|done].
    + right. exists (x :: l1), e, l2. split; [done|]. split; [|done]. split; [by apply Hcons|done].
Qed.

Lemma filter_ne (x : Z) (xs : list Z) : x ∉ xs → filter (λ e, e ≠ x) xs = xs.
Proof.
  induction xs as [|y xs IH]; [done|]. intros Hx. apply not_elem_of_cons in Hx as [Hne Hx]. rewrite filter_cons_True by done. by rewrite IH.
Qed.
Lemma filter_middle (x : Z) (l1 l2 : list Z) : NoDup (l1 ++ x :: l2) → filter (λ e, e ≠ x) (l1 ++ x :: l2) = l1 ++ l2.
Proof.
  intros (_ & H1 & [H2 _]%NoDup_cons)%NoDup_app. rewrite filter_app, filter_cons_False by (by intros Hf; apply Hf).
  rewrite !filter_ne; [done|done|]. intros Hx. apply (H1 x Hx). by left.
Qed.
Lemma NoDup_middle {A} (x : A) l1 l2 k1 k2 : NoDup (l1 ++ x :: l2) → l1 ++ x :: l2 = k1 ++ x :: k2 → l2 = k2.
Proof.
  revert k1. induction l1 as [|y l1 IH]; intros [|z k1] Hn E; simpl in *; injection E.
  - done.
  - intros -> <-. apply NoDup_cons in Hn as [Hn _]. destruct Hn. apply elem_of_app. right. by left.
  - intros _ ->. apply NoDup_cons in Hn as [Hn _]. destruct Hn. apply elem_of_app. right. by left.
  - intros E' ->. apply NoDup_cons in Hn as [_ Hn]. by eapply IH.
Qed.

(** ** The tree as a list *)
Section comparator.
Context (D : Z → Prop) (cmp : Z → Z → Z) `{!Comparator D cmp}.

(** A store whose nodes are linked as a red-black tree, with the elements in this order. *)
Record tree_of (h : Store) (xs : list Z) : Prop := {
  to_tree : ∃ t, at_zip h [] t ∧ is_rb t ∧ inorder t = xs;
  to_order : StronglySorted (λ x y, 0 < cmp y x) xs;
  to_dom : Forall D xs;
}.

Lemma tree_of_descends h xs e : tree_of h xs → D e → descends (cmp e) xs.
Proof using Comparator0.
  intros [_ Ho Hd] He. unfold descends. induction Ho as [|x xs Hs IH Hx]; [constructor|]. apply Forall_cons in Hd as [Hdx Hd].
  constructor; [by apply IH|]. rewrite Forall_forall in Hx, Hd |- *. intros y Hy Hey. apply (cmp_follows e x y); auto.
Qed.

Lemma StronglySorted_put e l1 l2 : D e → Forall D (l1 ++ l2) → StronglySorted (λ x y, 0 < cmp y x) (l1 ++ l2) → place (cmp e) l1 l2 →
  StronglySorted (λ x y, 0 < cmp y x) (l1 ++ e :: l2).
Proof using Comparator0.
  intros He Hd Hs [H1 H2]. induction l1 as [|x l1 IH]; simpl in *.
  - constructor; [done|]. rewrite Forall_forall in *. intros y Hy. apply cmp_flip; auto.
  - apply StronglySorted_inv in Hs as [Hs Hx]. apply Forall_cons in Hd as [Hdx Hd]. constructor.
    + apply IH; [done|done|]. intros z Hz. apply H1. by right.
    + rewrite Forall_app in Hx |- *. destruct Hx as [Hx1 Hx2]. split; [done|]. constructor; [apply H1; by left|done].
Qed.

Lemma insert_step h xs elm : tree_of h xs → D elm → elm ∈ dom (nodes h) → elm ∉ xs → elm ≠ nullptr →
  ∃ h', RB_INSERT elm cmp h = Some (find_in (cmp elm) xs, h') ∧ dom (nodes h') = dom (nodes h)
    ∧ tree_of h' (if find_in (cmp elm) xs =? nullptr then insert_in (cmp elm) elm xs else xs)
    ∧ (find_in (cmp elm) xs ≠ nullptr → h' = h).
Proof using Comparator0.
  intros Ht He Hin Hn Hn0. pose proof (tree_of_descends h xs elm Ht He) as Hdes. destruct Ht as [(t & Hz & Hrb & <-) Ho Hd].
  apply elem_of_dom in Hin as [e0 Hin]. unfold find_in.
  destruct (descends_place _ _ Hdes) as [(l1 & l2 & Hi & Hp & Hl)|(l1 & e & l2 & Hi & Hp & Hce & Hl)]; rewrite Hl.
  - assert (match l2 with [] => nullptr | x :: _ => if cmp elm x =? 0 then x else nullptr end = nullptr) as ->.
    { destruct l2 as [|x l2]; [done|]. rewrite (proj2 (Z.eqb_neq _ _)); [done|]. destruct Hp as [_ Hp]. assert (cmp elm x < 0) by (apply Hp; by left). lia. }
    rewrite Z.eqb_refl. destruct (RB_INSERT_place elm cmp h t l1 l2 Hz Hp e0) as (h' & T & E & HzT & HT & HiT & Hsame); try done.
    exists h'. split; [done|]. split; [done|]. split; [|done]. rewrite Hi in *. rewrite (insert_in_place _ _ _ _ Hp). split.
    + by exists T.
    + by apply StronglySorted_put.
    + rewrite Forall_app in *. destruct Hd. split; [done|by constructor].
  - rewrite Hce. cbn [Z.eqb]. exists h. split; [by apply (RB_INSERT_equal elm cmp h t l1 l2 Hz Hp e)|]. split; [done|]. split; [|done].
    rewrite (proj2 (Z.eqb_neq e nullptr)); [by split; [exists t|..]|].
    intros ->. apply (az_nonnull _ _ _ Hz). simpl. rewrite Hi. apply elem_of_app. right. by left.
Qed.

Lemma remove_step h xs x : tree_of h xs → x ∈ xs →
  ∃ h', RB_REMOVE x h = Some (x, h') ∧ tree_of h' (filter (λ e, e ≠ x) xs) ∧ dom (nodes h') = dom (nodes h).
Proof using.
  intros [(t & Hz & Hrb & <-) Ho Hd] Hx. destruct (find_position x t Hx) as (k & c & l & r & ->).
  pose proof (az_nodup _ _ _ Hz) as Hn. simpl in Hn. pose proof (proj2 (zip_top _ _ _) Hz) as Hzk.
  destruct (RB_REMOVE_position h k c l r x Hzk Hrb) as (h' & T & E & HzT & HT & Hi & Hsame).
  assert (filter (λ e, e ≠ x) (inorder (plug k (Node c l x r))) = inorder T) as Hf.
  { rewrite inorder_plug in Hn |- *. rewrite Hi. simpl in Hn |- *. rewrite <-app_assoc in Hn |- *. simpl in Hn |- *. rewrite app_assoc in Hn |- *.
    rewrite (filter_middle _ _ _ Hn). by rewrite <-app_assoc. }
  exists h'. split; [done|]. split; [|done]. split; [exists T; by rewrite Hf|..].
  - by apply StronglySorted_filter.
  - rewrite Forall_forall in *. intros y [_ Hy]%list_elem_of_filter. by apply Hd.
Qed.

(** ** Walks *)
Lemma step_in_order d h t l1 x l2 : at_zip h [] t → order d t = l1 ++ x :: l2 → step_side d x h = Some (hd nullptr l2).
Proof using.
  intros Hz Hi. assert (NoDup (order d t)) as Hn.
  { pose proof (az_nodup _ _ _ Hz) as Hn. simpl in Hn. destruct d; simpl; [done|]. by rewrite <-Permutation_rev. }
  assert (x ∈ inorder t) as Hx.
  { assert (x ∈ order d t) as Hx by (rewrite Hi; apply elem_of_app; right; by left). destruct d; [done|].
    simpl in Hx. by rewrite <-Permutation_rev in Hx. }
  destruct (find_position x t Hx) as (k & c & l & r & ->). apply zip_top in Hz.
  assert (∃ a b, Node c l x r = node d c a x b) as (a & b & E) by (destruct d; [by exists l, r|by exists r, l]). rewrite E in *.
  rewrite (step_side_ok _ _ _ _ _ _ _ Hz). destruct (order_plug d k (node d c a x b)) as [lo Ho]. rewrite order_node, <-app_assoc in Ho. simpl in Ho.
  rewrite app_assoc in Ho. rewrite Ho in Hn, Hi. by rewrite (NoDup_middle _ _ _ _ _ Hn Hi).
Qed.

(** [for (it = ...; it != end(); ++it)], and the same with [--it]. *)
Fixpoint walk (step : Z → Store → option Z) (fuel : nat) (it : Z) (h : Store) : option (list Z) :=
  match fuel with
  | O => None
  | S fuel => if it =? IntrusiveRedBlackTree.end_ then Some [] else next ← step it h; rest ← walk step fuel next h; Some (it :: rest)
  end.

Lemma walk_in_order d h t : at_zip h [] t → ∀ l2 fuel l1, (length l2 < fuel)%nat → order d t = l1 ++ l2 →
  walk (step_side d) fuel (hd nullptr l2) h = Some l2.
Proof using.
  intros Hz. induction l2 as [|x l2 IH]; intros fuel l1 Hf Hi; (destruct fuel as [|fuel]; [simpl in Hf; lia|]); [done|]. cbn [walk hd].
  assert (x ≠ nullptr) as Hx0.
  { intros ->. apply (az_nonnull _ _ _ Hz). simpl. assert (nullptr ∈ order d t) as Hx by (rewrite Hi; apply elem_of_app; right; by left).
    destruct d; [done|]. simpl in Hx. by rewrite <-Permutation_rev in Hx. }
  unfold IntrusiveRedBlackTree.end_. rewrite (proj2 (Z.eqb_neq _ _) Hx0). rewrite (bind_eq _ _ _ (step_in_order d h t l1 x l2 Hz Hi)).
  simpl in Hf. rewrite (bind_eq _ _ _ (IH fuel (l1 ++ [x]) ltac:(lia) ltac:(by rewrite <-app_assoc))). done.
Qed.
End comparator.

(** ** Height *)
Fixpoint height (t : tree) : nat := match t with Leaf => 0 | Node _ l _ r => S (max (height l) (height r)) end.

Lemma rbt_height c n t : rbt c n t → (height t ≤ 2 * n + (if bool_decide (c = RB_RED) then 1 else 0))%nat.
Proof.
  induction 1 as [|n l x r Hl IHl Hr IHr|n cl cr l x r Hl IHl Hr IHr]; simpl in *; [done|lia|].
  destruct (bool_decide (cl = _)), (bool_decide (cr = _)); lia.
Qed.
Lemma height_size t : (height t ≤ length (inorder t))%nat.
Proof. induction t as [|c l IHl x r IHr]; simpl; [done|]. rewrite length_app. simpl. lia. Qed.
Lemma rbt_size c n t : rbt c n t → (2 ^ n ≤ S (length (inorder t)))%nat.
Proof.
  induction 1 as [|n l x r Hl IHl Hr IHr|n cl cr l x r Hl IHl Hr IHr]; simpl in *; [done|rewrite length_app; simpl; lia|rewrite length_app; simpl; lia].
Qed.

(** A search that goes down the tree is done within its height. *)
Lemma find_loop_height cmp h t : ∀ fuel k, (height t < fuel)%nat → at_zip h k t → is_Some (find_loop fuel cmp (ptr t) h).
Proof.
  induction t as [|c l IHl x r IHr]; intros fuel k Hf Hz; (destruct fuel as [|fuel]; [simpl in Hf; lia|]); [by eexists|].
  cbn [find_loop ptr]. rewrite (proj2 (Z.eqb_neq _ _)) by (by eapply focus_nonnull). cbn [negb]. simpl in Hf.
  destruct (cmp x <? 0); [|destruct (0 <? cmp x); [|by eexists]].
  - rewrite (bind_eq _ _ _ (focus_left _ _ _ _ _ _ Hz)). apply (down_child SLeft) in Hz. eapply IHl; [lia|done].
  - rewrite (bind_eq _ _ _ (focus_right _ _ _ _ _ _ Hz)). apply (down_child SRight) in Hz. eapply IHr; [lia|done].
Qed.
Lemma find_loop_more cmp h r : ∀ fuel fuel' tmp, find_loop fuel cmp tmp h = Some r → (fuel ≤ fuel')%nat → find_loop fuel' cmp tmp h = Some r.
Proof.
  induction fuel as [|fuel IH]; intros fuel' tmp E Hf; [done|]. destruct fuel' as [|fuel']; [lia|]. simpl in *.
  destruct (negb (tmp =? nullptr)); [|done]. destruct (cmp tmp <? 0); [|destruct (0 <? cmp tmp); [|done]].
  - destruct (RB_LEFT tmp h) as [l|]; [|done]. simpl in *. apply IH; [done|lia].
  - destruct (RB_RIGHT tmp h) as [l|]; [|done]. simpl in *. apply IH; [done|lia].
Qed.

(** ** Sequences of operations *)
Inductive Op := OpInsert (elm : Z) | OpErase (x : Z).
Definition run_op (cmp : Z → Z → Z) (h : Store) (o : Op) : option Store :=
  match o with
  | OpInsert e => '(_, h) ← IntrusiveRedBlackTree.insert e cmp h; Some h
  | OpErase x => '(_, h) ← IntrusiveRedBlackTree.erase x h; Some h
  end.
Fixpoint run_ops (cmp : Z → Z → Z) (os : list Op) (h : Store) : option Store :=
  match os with [] => Some h | o :: os => h ← run_op cmp h o; run_ops cmp os h end.

(** What they do to the list, and when they may be called. *)
Definition list_op (cmp : Z → Z → Z) (xs : list Z) (o : Op) : list Z :=
  match o with
  | OpInsert e => if find_in (cmp e) xs =? nullptr then insert_in (cmp e) e xs else xs
  | OpErase x => filter (λ e, e ≠ x) xs
  end.
Definition allowed (D : Z → Prop) (live : gset Z) (xs : list Z) (o : Op) : Prop :=
  match o with OpInsert e => D e ∧ e ∈ live ∧ e ≠ nullptr ∧ e ∉ xs | OpErase x => x ∈ xs end.
Fixpoint all_allowed (D : Z → Prop) (cmp : Z → Z → Z) (live : gset Z) (os : list Op) (xs : list Z) : Prop :=
  match os with [] => True | o :: os => allowed D live xs o ∧ all_allowed D cmp live os (list_op cmp xs o) end.

#[export] Instance allowed_dec D live xs o `{∀ x, Decision (D x)} : Decision (allowed D live xs o).
Proof. destruct o; simpl; apply _. Defined.
#[export] Instance all_allowed_dec D cmp live os xs `{∀ x, Decision (D x)} : Decision (all_allowed D cmp live os xs).
Proof. revert xs. induction os as [|o os IH]; intros xs; simpl; apply _. Defined.

Lemma tree_of_empty D cmp h : Root h = nullptr → tree_of D cmp h [].
Proof.
  intros Hr. split; [|constructor|constructor]. exists Leaf. split; [|split; [by exists 0%nat; constructor|done]].
  split; [done|done|constructor|apply not_elem_of_nil].
Qed.

Section client.
Context (D : Z → Prop) (cmp : Z → Z → Z) `{!Comparator D cmp}.

Lemma erase_step h l1 x l2 : tree_of D cmp h (l1 ++ x :: l2) →
  ∃ h', IntrusiveRedBlackTree.erase x h = Some (hd nullptr l2, h') ∧ tree_of D cmp h' (l1 ++ l2) ∧ dom (nodes h') = dom (nodes h).
Proof using.
  intros Ht. pose proof Ht as [(t & Hz & _ & Hi) _ _]. unfold IntrusiveRedBlackTree.erase, IntrusiveRedBlackTree.GetNext.
  change (RB_NEXT x h) with (step_side SLeft x h). rewrite (bind_eq _ _ _ (step_in_order SLeft h t l1 x l2 Hz Hi)).
  destruct (remove_step D cmp h _ x Ht) as (h' & E & Ht' & Hd); [apply elem_of_app; right; by left|]. rewrite (bind_eq _ _ _ E).
  exists h'. split; [done|]. split; [|done]. rewrite filter_middle in Ht'; [done|]. pose proof (az_nodup _ _ _ Hz) as Hn. simpl in Hn. by rewrite <-Hi.
Qed.

Lemma op_step h xs o : tree_of D cmp h xs → allowed D (dom (nodes h)) xs o →
  ∃ h', run_op cmp h o = Some h' ∧ tree_of D cmp h' (list_op cmp xs o) ∧ dom (nodes h') = dom (nodes h).
Proof using Comparator0.
  intros Ht Ho. destruct o as [e|x]; simpl in *.
  - destruct Ho as (He & Hl & Hn0 & Hn). destruct (insert_step D cmp h xs e Ht He Hl Hn Hn0) as (h' & E & Hd & Ht' & _).
    exists h'. unfold IntrusiveRedBlackTree.insert. by rewrite E.
  - pose proof Ho as (l1 & l2 & ->)%list_elem_of_split. destruct (erase_step _ _ _ _ Ht) as (h' & E & Ht' & Hd). exists h'. rewrite E.
    split; [done|]. split; [|done]. rewrite filter_middle; [done|]. destruct Ht as [(t & Hz & _ & <-) _ _]. pose proof (az_nodup _ _ _ Hz) as Hn. done.
Qed.

Lemma run_ops_tree os : ∀ h xs, tree_of D cmp h xs → all_allowed D cmp (dom (nodes h)) os xs →
  ∃ h', run_ops cmp os h = Some h' ∧ tree_of D cmp h' (foldl (list_op cmp) xs os) ∧ dom (nodes h') = dom (nodes h).
Proof using Comparator0.
  induction os as [|o os IH]; intros h xs Ht Hos; simpl in *; [by exists h|].
  destruct Hos as [Ho Hos]. destruct (op_step h xs o Ht Ho) as (h1 & E & Ht1 & Hd). rewrite (bind_eq _ _ _ E).
  rewrite <-Hd in Hos |- *. by apply IH.
Qed.

(** C16: From the empty tree, any sequence of insertions (of live nodes that are not in the tree) and of erasures (of nodes that
    are) runs to its end, and leaves nodes that are linked as a red-black tree: every child has its parent, the root is
    black, no red node has a red child, every path has as many black nodes, and the elements are in the order of the
    comparison; they are those of the same operations on a list. *)
Theorem operations_keep_the_tree h os : Root h = nullptr → all_allowed D cmp (dom (nodes h)) os [] →
  ∃ h' t, run_ops cmp os h = Some h' ∧ at_zip h' [] t ∧ is_rb t ∧ inorder t = foldl (list_op cmp) [] os
    ∧ StronglySorted (λ x y, 0 < cmp y x) (inorder t).
Proof using Comparator0.
  intros Hr%(tree_of_empty D cmp) Hos. destruct (run_ops_tree os h [] Hr Hos) as (h' & E & [(t & Hz & Hrb & <-) Ho _] & _).
  by exists h', t.
Qed.

(** C18: [RB_INSERT] returns the element that compares equal, and then changes nothing; or [nullptr], and the element has been
    put before the first that it compares less than. The tree stays a red-black tree. *)
Theorem RB_INSERT_correct h xs elm : tree_of D cmp h xs → D elm → elm ∈ dom (nodes h) → elm ∉ xs → elm ≠ nullptr →
  ∃ h', RB_INSERT elm cmp h = Some (find_in (cmp elm) xs, h') ∧ dom (nodes h') = dom (nodes h)
    ∧ if find_in (cmp elm) xs =? nullptr then tree_of D cmp h' (insert_in (cmp elm) elm xs) else h' = h.
Proof using Comparator0.
  intros Ht He Hl Hn Hn0. destruct (insert_step D cmp h xs elm Ht He Hl Hn Hn0) as (h' & E & Hd & Ht' & Hs). exists h'.
  split; [done|]. split; [done|]. destruct (Z.eqb_spec (find_in (cmp elm) xs) nullptr); [done|]. by apply Hs.
Qed.

(** C17: [erase] takes the node out, wherever it is and whatever its children, and returns the node after it. The tree stays a
    red-black tree, with the others in their order. *)
Theorem erase_correct h l1 x l2 : tree_of D cmp h (l1 ++ x :: l2) →
  ∃ h', IntrusiveRedBlackTree.erase x h = Some (hd IntrusiveRedBlackTree.end_ l2, h') ∧ RB_REMOVE x h = Some (x, h')
    ∧ tree_of D cmp h' (l1 ++ l2) ∧ dom (nodes h') = dom (nodes h).
Proof using.
  intros Ht. destruct (erase_step h l1 x l2 Ht) as (h' & E & Ht' & Hd). exists h'. split; [done|]. split; [|done].
  unfold IntrusiveRedBlackTree.erase in E. destruct (IntrusiveRedBlackTree.GetNext x h) as [n|]; [|done]. cbn [mbind option_bind] in E.
  destruct (remove_step D cmp h _ x Ht) as (h2 & E2 & _); [apply elem_of_app; right; by left|]. rewrite E2 in E |- *. cbn [mbind option_bind] in E. congruence.
Qed.

Lemma searches_ok h t c : at_zip h [] t → descends c (inorder t) →
  find_loop (fuel_of h) c (Root h) h = Some (find_in c (inorder t))
  ∧ nfind_loop (fuel_of h) c (Root h) nullptr h = Some (hd nullptr (lower c (inorder t)))
  ∧ (find_in c (inorder t) ≠ nullptr → find_existing_loop (fuel_of h) c (Root h) h = Some (find_in c (inorder t))).
Proof using.
  intros Hz Hd. rewrite (zip_root _ _ Hz). pose proof (proj2 (zip_fuel _ _ _ Hz)) as Hf. unfold find_in.
  destruct (descends_place _ _ Hd) as [(l1 & l2 & Hi & Hp & Hl)|(l1 & e & l2 & Hi & Hp & He & Hl)]; rewrite Hl.
  - destruct (insert_search_place c h t (fuel_of h) [] 0 l1 l2) as (k & comp & E & _); [done..|].
    assert (match l2 with [] => nullptr | x :: _ => if c x =? 0 then x else nullptr end = nullptr) as ->.
    { destruct l2 as [|x l2]; [done|]. rewrite (proj2 (Z.eqb_neq _ _)); [done|]. destruct Hp as [_ Hp]. assert (c x < 0) by (apply Hp; by left). lia. }
    split; [by eapply find_none|]. split; [|done]. pose proof (nfind_place c h t (fuel_of h) [] l1 l2 Hf Hz Hi Hp) as Hn.
    simpl in Hn. by rewrite app_nil_r in Hn.
  - rewrite He. cbn [Z.eqb hd]. pose proof (insert_search_equal c h t (fuel_of h) [] 0 l1 e l2 Hf Hz Hi Hp He) as E.
    destruct (searches_found _ _ _ _ _ _ nullptr _ E) as (E1 & E2 & E3). done.
Qed.

(** C20: The searches by a key that goes down along the elements find what a search of the list finds: the element that
    compares equal, or the first that is not less; and the searches by an element are such. *)
Theorem searches_correct {U} h xs (key : U) (kcmp : U → Z → Z) : tree_of D cmp h xs → descends (kcmp key) xs →
  RB_FIND_KEY key kcmp h = Some (find_in (kcmp key) xs)
  ∧ RB_NFIND_KEY key kcmp h = Some (hd nullptr (lower (kcmp key) xs))
  ∧ (find_in (kcmp key) xs ≠ nullptr → RB_FIND_EXISTING_KEY key kcmp h = Some (find_in (kcmp key) xs))
  ∧ (∀ e, D e → RB_FIND e cmp h = Some (find_in (cmp e) xs) ∧ RB_NFIND e cmp h = Some (hd nullptr (lower (cmp e) xs))).
Proof using Comparator0.
  intros Ht Hd. pose proof (λ e, tree_of_descends D cmp h xs e Ht) as Hde. destruct Ht as [(t & Hz & _ & <-) _ _].
  destruct (searches_ok h t _ Hz Hd) as (E1 & E2 & E3). split; [done|]. split; [done|]. split; [done|]. intros e He.
  destruct (searches_ok h t (cmp e) Hz (Hde e He)) as (F1 & F2 & _). done.
Qed.

(** From [begin] the iterator goes through all the elements in order, to [end]; from the last one back to the first. *)
Theorem walks_in_order h xs : tree_of D cmp h xs →
  (it ← IntrusiveRedBlackTree.begin h; walk IntrusiveRedBlackTree.GetNext (fuel_of h) it h) = Some xs
  ∧ (it ← IntrusiveRedBlackTree.back h; walk IntrusiveRedBlackTree.GetPrev (fuel_of h) it h) = Some (rev xs)
  ∧ IntrusiveRedBlackTree.empty h = bool_decide (xs = []).
Proof using.
  intros [(t & Hz & _ & <-) _ _]. pose proof (proj2 (zip_fuel _ _ _ Hz)) as Hf.
  assert (∀ d, min_side d (fuel_of h) (Root h) nullptr h = Some (hd nullptr (order d t))) as Hm.
  { intros d. rewrite (zip_root _ _ Hz). eapply min_side_ok; [by rewrite length_order|done]. }
  assert (∀ d, walk (step_side d) (fuel_of h) (hd nullptr (order d t)) h = Some (order d t)) as Hw.
  { intros d. eapply (walk_in_order d h t Hz _ _ []); [by rewrite length_order|done]. }
  split; [|split].
  - unfold IntrusiveRedBlackTree.begin, RB_MIN. rewrite (bind_eq _ _ _ (Hm SLeft)). exact (Hw SLeft).
  - unfold IntrusiveRedBlackTree.back, RB_MAX. rewrite (bind_eq _ _ _ (Hm SRight)). exact (Hw SRight).
  - unfold IntrusiveRedBlackTree.empty, IsEmpty. rewrite (zip_root _ _ Hz). destruct t as [|c l x r]; [done|].
    rewrite bool_decide_false by (by destruct (inorder l) eqn:El; simpl; rewrite El). apply Z.eqb_neq. by eapply focus_nonnull.
Qed.

(** C21: A red-black tree of [n] elements is at most [2 lg (n + 1)] high, and a search takes no more turns than that and one. *)
Theorem searches_are_short h xs (c : Z → Z) fuel : tree_of D cmp h xs → ((length xs + 1) ^ 2 < 2 ^ fuel)%nat →
  ∃ r, find_loop fuel c (Root h) h = Some r ∧ find_loop (fuel_of h) c (Root h) h = Some r.
Proof using.
  intros [(t & Hz & [n Hrb] & <-) _ _] Hlen. pose proof (rbt_height _ _ _ Hrb) as Hh. rewrite bool_decide_false in Hh by done.
  pose proof (rbt_size _ _ _ Hrb) as Hs. assert (height t < fuel)%nat as Hf.
  { apply (Nat.pow_lt_mono_r_iff 2); [lia|]. eapply Nat.le_lt_trans; [|exact Hlen]. etrans; [apply Nat.pow_le_mono_r; [lia|exact Hh]|].
    rewrite Nat.add_0_r, Nat.mul_comm, Nat.pow_mul_r. apply Nat.pow_le_mono_l. lia. }
  rewrite (zip_root _ _ Hz). destruct (find_loop_height c h t _ [] Hf Hz) as [r Hr].
  exists r. split; [done|]. destruct (find_loop_height c h t (S (height t)) [] ltac:(lia) Hz) as [r' Hr'].
  rewrite (find_loop_more _ _ _ _ _ _ Hr' Hf) in Hr. injection Hr as ->. eapply find_loop_more; [exact Hr'|].
  pose proof (proj2 (zip_fuel _ _ _ Hz)). pose proof (height_size t). lia.
Qed.
End client.

(** ** A tree of numbers *)
Definition demo_cmp (x y : Z) : Z := x - y.
#[export] Instance demo_Comparator : Comparator (λ _, True) demo_cmp.
Proof. split; unfold demo_cmp; intros; lia. Qed.

Definition demo_nodes : gmap Z RBEntry := list_to_map ((λ x, (x, MkEntry nullptr nullptr nullptr RB_BLACK)) <$> [1; 2; 3; 4; 5; 6; 7; 8]).
Definition demo_ops : list Op := [OpInsert 1; OpInsert 2; OpInsert 3; OpInsert 4; OpInsert 5; OpInsert 6; OpErase 4; OpErase 1].
Definition demo_store : Store := default (MkStore demo_nodes nullptr) (run_ops demo_cmp demo_ops (MkStore demo_nodes nullptr)).

Lemma demo_allowed : all_allowed (λ _, True) demo_cmp (dom demo_nodes) demo_ops [].
Proof. by apply (bool_decide_unpack _); vm_compute. Qed.

Lemma demo_tree : tree_of (λ _, True) demo_cmp demo_store [2; 3; 5; 6].
Proof.
  destruct (run_ops_tree _ demo_cmp demo_ops (MkStore demo_nodes nullptr) []) as (h' & E & Ht & _); [by apply tree_of_empty|apply demo_allowed|].
  unfold demo_store. rewrite E. exact Ht.
Qed.

Lemma operations_keep_the_tree_witness :
  Root (MkStore demo_nodes nullptr) = nullptr ∧ ∃ h' t, run_ops demo_cmp demo_ops (MkStore demo_nodes nullptr) = Some h' ∧ at_zip h' [] t ∧ is_rb t
    ∧ inorder t = [2; 3; 5; 6] ∧ StronglySorted (λ x y, 0 < demo_cmp y x) (inorder t).
Proof.
  split; [reflexivity|]. apply (operations_keep_the_tree (λ _, True) demo_cmp (MkStore demo_nodes nullptr) demo_ops); [reflexivity|apply demo_allowed].
Defined.

Lemma RB_INSERT_correct_witness :
  (∃ h', RB_INSERT 4 demo_cmp demo_store = Some (nullptr, h') ∧ dom (nodes h') = dom (nodes demo_store)
     ∧ tree_of (λ _, True) demo_cmp h' [2; 3; 4; 5; 6])
  ∧ find_in (demo_cmp 4) [2; 3; 5; 6] = nullptr.
Proof.
  split; [|reflexivity]. apply (RB_INSERT_correct (λ _, True) demo_cmp demo_store [2; 3; 5; 6] 4);
    [apply demo_tree|done|by apply (bool_decide_unpack _); vm_compute|by apply (bool_decide_unpack _); vm_compute|done].
Defined.

Lemma erase_correct_witness :
  ∃ h', IntrusiveRedBlackTree.erase 3 demo_store = Some (5, h') ∧ RB_REMOVE 3 demo_store = Some (3, h')
    ∧ tree_of (λ _, True) demo_cmp h' [2; 5; 6] ∧ dom (nodes h') = dom (nodes demo_store).
Proof. exact (erase_correct (λ _, True) demo_cmp demo_store [2] 3 [5; 6] demo_tree). Defined.

Lemma searches_correct_witness :
  descends (demo_cmp 4) [2; 3; 5; 6] ∧ RB_FIND_KEY 4 demo_cmp demo_store = Some nullptr ∧ RB_NFIND_KEY 4 demo_cmp demo_store = Some 5.
Proof.
  assert (descends (demo_cmp 4) [2; 3; 5; 6]) as Hd by (apply (tree_of_descends (λ _, True) demo_cmp _ _ 4 demo_tree); done).
  destruct (searches_correct (λ _, True) demo_cmp demo_store [2; 3; 5; 6] 4 demo_cmp demo_tree Hd) as (E1 & E2 & _).
  split; [exact Hd|]. split; [exact E1|exact E2].
Defined.

Lemma walks_in_order_witness :
  (it ← IntrusiveRedBlackTree.begin demo_store; walk IntrusiveRedBlackTree.GetNext (fuel_of demo_store) it demo_store) = Some [2; 3; 5; 6].
Proof. exact (proj1 (walks_in_order (λ _, True) demo_cmp demo_store [2; 3; 5; 6] demo_tree)). Defined.

Lemma searches_are_short_witness :
  ((length [2; 3; 5; 6] + 1) ^ 2 < 2 ^ 5)%nat ∧ ∃ r, find_loop 5 (demo_cmp 5) (Root demo_store) demo_store = Some r.
Proof.
  split; [simpl; lia|]. destruct (searches_are_short (λ _, True) demo_cmp demo_store [2; 3; 5; 6] (demo_cmp 5) 5 demo_tree) as (r & E & _); [simpl; lia|].
  by exists r.
Defined.

(** [insert] returns an iterator to the node even where an equal element keeps it out of the tree. *)
Definition demo_cmp_mod (x y : Z) : Z := x mod 4 - y mod 4.
Example insert_returns_foreign_node :
  ('(it1, h1) ← IntrusiveRedBlackTree.insert 1 demo_cmp_mod (MkStore demo_nodes nullptr);
   '(it5, h2) ← IntrusiveRedBlackTree.insert 5 demo_cmp_mod h1;
   found ← IntrusiveRedBlackTree.find 5 demo_cmp_mod h2;
   elements ← walk IntrusiveRedBlackTree.GetNext (fuel_of h2) (Root h2) h2;
   Some (it1, it5, found, elements)) = Some (1, 5, 1, [1]).
Proof. vm_compute. reflexivity. Qed.
