(* ===== verification/RedBlackThreads.v ===== *)
(** The trees of waiting threads are red-black trees: what the threads' component does to an ordered
    list is what the intrusive tree does to its nodes, with the comparison of condition variables
    (src/src/core/hle/kernel/k_thread.h). *)
From stdpp Require Import sorting.
From S2P Require Import Prelude RedBlackTree RedBlackShape RedBlackSpec Thread ConditionVariable WaitInvariant SyncSpec.

(** ** The comparison *)

(** [ConditionVariableComparator::Compare] of a key and a priority with a thread; of no thread, 0. *)
Definition Compare_key (k : Kernel) (key : Z * Z) (y : Z) : Z :=
  match condvar_less k (fst key) (snd key) y with Some b => if b then -1 else 1 | None => 0 end.
(** Of two threads. *)
Definition Compare (k : Kernel) (x y : Z) : Z :=
  match threads k !! x, GetPriority x k with
  | Some t, Some p => Compare_key k (m_condvar_key t, p) y
  | _, _ => 0
  end.

Definition comparable (k : Kernel) (x : Z) : Prop := is_Some (threads k !! x) ∧ is_Some (GetPriority x k).

Lemma condvar_less_eq k a p y : comparable k y → ∃ t q, threads k !! y = Some t ∧ GetPriority y k = Some q
  ∧ condvar_less k a p y = Some ((a <? m_condvar_key t) || ((a =? m_condvar_key t) && (p <? q))).
Proof. intros [[t Ht] [q Hq]]. exists t, q. unfold condvar_less. by rewrite Ht, Hq. Qed.

Lemma Compare_key_follows k a p x y : comparable k x → comparable k y → 0 < Compare k y x → 0 ≤ Compare_key k (a, p) y → 0 < Compare_key k (a, p) x.
Proof.
  intros Hx Hy. destruct (condvar_less_eq k a p x Hx) as (tx & px & Ex & Gx & Lx). destruct (condvar_less_eq k a p y Hy) as (ty & py & Ey & Gy & Ly).
  unfold Compare, Compare_key. rewrite Ey, Gy. cbn [fst snd]. rewrite Lx, Ly.
  destruct (condvar_less_eq k (m_condvar_key ty) py x Hx) as (t & q & E & G & ->). rewrite Ex in E. rewrite Gx in G. simplify_eq.
  repeat (case_match; [|]); try lia.
Qed.

Lemma Compare_of k x t p y : threads k !! x = Some t → GetPriority x k = Some p → Compare k x y = Compare_key k (m_condvar_key t, p) y.
Proof. intros Ht Hp. unfold Compare. by rewrite Ht, Hp. Qed.

#[export] Instance Compare_Comparator k : Comparator (comparable k) (Compare k).
Proof.
  split.
  - intros x y Hx Hy. destruct (condvar_less_eq k 0 0 x Hx) as (tx & px & Ex & Gx & _). destruct (condvar_less_eq k 0 0 y Hy) as (ty & py & Ey & Gy & _).
    rewrite (Compare_of _ _ _ _ _ Ex Gx), (Compare_of _ _ _ _ _ Ey Gy). unfold Compare_key. cbn [fst snd].
    destruct (condvar_less_eq k (m_condvar_key ty) py x Hx) as (t & q & E & G & ->). destruct (condvar_less_eq k (m_condvar_key tx) px y Hy) as (t' & q' & E' & G' & ->).
    simplify_eq. repeat (case_match; [|]); lia.
  - intros e x y [[te He] [pe Ge]] Hx Hy. rewrite !(Compare_of _ _ _ _ _ He Ge). by apply Compare_key_follows.
Qed.

(** It never says that a thread is equal to a key. *)
Lemma Compare_key_ne k key y : comparable k y →
  ∃ b, condvar_less k (fst key) (snd key) y = Some b ∧ Compare_key k key y = (if b : bool then -1 else 1).
Proof.
  intros Hy. destruct (condvar_less_eq k (fst key) (snd key) y Hy) as (t & q & _ & _ & E). unfold Compare_key. rewrite E. by eexists.
Qed.

Lemma find_in_nothing k key tree : Forall (comparable k) tree → find_in (Compare_key k key) tree = nullptr.
Proof.
  unfold find_in. induction 1 as [|y tree Hy _ IH]; [done|]. simpl. destruct (Compare_key_ne k key y Hy) as (b & _ & E). rewrite E.
  destruct b; simpl; [by rewrite E|exact IH].
Qed.

Lemma tree_insert_in k key x tree : Forall (comparable k) tree →
  tree_insert (condvar_less k (fst key) (snd key)) x tree = Some (insert_in (Compare_key k key) x tree).
Proof.
  induction 1 as [|y tree Hy _ IH]; [done|]. simpl. destruct (Compare_key_ne k key y Hy) as (b & -> & ->). destruct b; simpl; [done|]. by rewrite IH.
Qed.

Lemma nfind_key_lower k key tree : Forall (comparable k) tree →
  nfind_key (condvar_less k (fst key) (snd key)) tree = Some (head (lower (Compare_key k key) tree)).
Proof.
  induction 1 as [|y tree Hy _ IH]; [done|]. simpl. destruct (Compare_key_ne k key y Hy) as (b & -> & ->). by destruct b.
Qed.

Lemma hd_head (l : list Z) : hd nullptr l = default nullptr (head l).
Proof. by destruct l. Qed.

(** The threads' lists and the nodes' tree. *)
Section tree.
Context (c : Z) (tree : list Z) (k : Kernel) (h : Store).
Context (Hc : thread_trees k !! c = Some tree) (Ht : tree_of (comparable k) (Compare k) h tree).

Lemma insert_in_tree_implemented x : comparable k x → x ∈ dom (nodes h) → x ∉ tree → x ≠ nullptr →
  ∃ k' h' tree', insert_in_tree c x k = Some k' ∧ thread_trees k' !! c = Some tree'
    ∧ IntrusiveRedBlackTree.insert x (Compare k) h = Some (x, h') ∧ tree_of (comparable k) (Compare k) h' tree'.
Proof using Hc Ht.
  intros Hx Hin Hn Hn0. pose proof (to_dom _ _ _ _ Ht) as Hd. pose proof Hx as [[t Et] [p Ep]].
  destruct (insert_step _ _ _ _ _ Ht Hx Hin Hn Hn0) as (h' & E & _ & Ht' & _).
  assert (Compare k x = Compare_key k (m_condvar_key t, p)) as Ec by (unfold Compare; by rewrite Et, Ep).
  rewrite Ec, (find_in_nothing _ _ _ Hd) in Ht', E. rewrite Z.eqb_refl in Ht'.
  eexists _, h', _. split; [|split; [|split; [|exact Ht']]].
  - unfold insert_in_tree. rewrite (bind_eq _ _ _ Hc), (bind_eq _ _ _ Et), (bind_eq _ _ _ Ep).
    by rewrite (bind_eq _ _ _ (tree_insert_in k (m_condvar_key t, p) x tree Hd)).
  - simpl. apply lookup_insert_eq.
  - unfold IntrusiveRedBlackTree.insert. by rewrite E.
Qed.

Lemma erase_from_tree_implemented x : x ∈ tree →
  ∃ k' h' tree', erase_from_tree c x k = Some k' ∧ thread_trees k' !! c = Some tree'
    ∧ IntrusiveRedBlackTree.erase x h = Some (default nullptr (next_of x tree), h') ∧ tree_of (comparable k) (Compare k) h' tree'.
Proof using Hc Ht.
  intros Hx. assert (NoDup tree) as Hn by (destruct Ht as [(t & Hz & _ & <-) _ _]; exact (az_nodup _ _ _ Hz)).
  pose proof Hx as (l1 & l2 & E)%list_elem_of_split. assert (x ∉ l1) as Hx1.
  { rewrite E in Hn. apply NoDup_app in Hn as (_ & Hn & _). intros Hl. apply (Hn x Hl). by left. }
  destruct (erase_step (comparable k) (Compare k) h l1 x l2) as (h' & Er & Ht' & _); [by rewrite <-E|].
  eexists _, h', _. split; [|split; [|split; [|exact Ht']]].
  - unfold erase_from_tree, list_erase. rewrite (bind_eq _ _ _ Hc). rewrite bool_decide_true by done. simpl. rewrite E at 1.
    rewrite E in Hn. by rewrite (filter_middle _ _ _ Hn).
  - simpl. apply lookup_insert_eq.
  - by rewrite Er, hd_head, E, next_of_split.
Qed.

Lemma find_waiters_implemented key : ∃ r, find_waiters c key k = Some r
  ∧ IntrusiveRedBlackTree.nfind_key (key, -1) (Compare_key k) h = Some (default nullptr r).
Proof using Hc Ht.
  pose proof (to_dom _ _ _ _ Ht) as Hd. exists (head (lower (Compare_key k (key, -1)) tree)). split.
  - unfold find_waiters. rewrite (bind_eq _ _ _ Hc). exact (nfind_key_lower k (key, -1) tree Hd).
  - destruct Ht as [(t & Hz & _ & <-) Ho _]. rewrite <-hd_head. apply (searches_ok h t _ Hz).
    clear -Ho Hd. unfold descends. induction Ho as [|x xs Hs IH Hx]; [constructor|]. apply Forall_cons in Hd as [Hdx Hd].
    constructor; [by apply IH|]. rewrite Forall_forall in Hx, Hd |- *. intros y Hy Hey. apply (Compare_key_follows k key (-1) x y); auto.
Qed.
End tree.

(** C19: The trees of the waiting threads, which the operations on condition variables and address arbiters treat as lists, are
    what [IntrusiveRedBlackTree] makes of the threads' nodes with [ConditionVariableComparator]: an insertion, an
    erasure with the iterator it returns, and the search for the first waiter on a key do the same on both. *)
Theorem thread_trees_implemented c tree k h : thread_trees k !! c = Some tree → tree_of (comparable k) (Compare k) h tree →
  (∀ x, comparable k x → x ∈ dom (nodes h) → x ∉ tree → x ≠ nullptr →
     ∃ k' h' tree', insert_in_tree c x k = Some k' ∧ thread_trees k' !! c = Some tree'
       ∧ IntrusiveRedBlackTree.insert x (Compare k) h = Some (x, h') ∧ tree_of (comparable k) (Compare k) h' tree')
  ∧ (∀ x, x ∈ tree →
     ∃ k' h' tree', erase_from_tree c x k = Some k' ∧ thread_trees k' !! c = Some tree'
       ∧ IntrusiveRedBlackTree.erase x h = Some (default nullptr (next_of x tree), h') ∧ tree_of (comparable k) (Compare k) h' tree')
  ∧ (∀ key, ∃ r, find_waiters c key k = Some r
       ∧ IntrusiveRedBlackTree.nfind_key (key, -1) (Compare_key k) h = Some (default nullptr r)).
Proof.
  intros Hc Ht. split; [|split].
  - intros x. by apply insert_in_tree_implemented.
  - intros x. by apply erase_from_tree_implemented.
  - intros key. by eapply find_waiters_implemented.
Qed.

(** The tree of three waiters, made by inserting them. *)
#[export] Instance comparable_dec k x : Decision (comparable k x).
Proof. unfold comparable. apply _. Defined.

Definition waiters_ops : list Op := [OpInsert 2; OpInsert 3; OpInsert 4].
Definition waiters_store : Store :=
  default (MkStore demo_nodes nullptr) (run_ops (Compare (kernel broadcast)) waiters_ops (MkStore demo_nodes nullptr)).

Lemma waiters_tree : tree_of (comparable (kernel broadcast)) (Compare (kernel broadcast)) waiters_store [4; 3; 2].
Proof.
  destruct (run_ops_tree (comparable (kernel broadcast)) (Compare (kernel broadcast)) waiters_ops (MkStore demo_nodes nullptr) []) as (h' & E & Ht & _).
  - by apply tree_of_empty.
  - by apply (bool_decide_unpack _); vm_compute.
  - unfold waiters_store. rewrite E. replace [4; 3; 2] with (foldl (list_op (Compare (kernel broadcast))) [] waiters_ops) by (vm_compute; reflexivity). exact Ht.
Qed.

Lemma thread_trees_implemented_witness :
  thread_trees (kernel broadcast) !! cv_tree_id = Some [4; 3; 2]
  ∧ ∃ k' h' tree', erase_from_tree cv_tree_id 4 (kernel broadcast) = Some k' ∧ thread_trees k' !! cv_tree_id = Some tree'
      ∧ IntrusiveRedBlackTree.erase 4 waiters_store = Some (3, h') ∧ tree_of (comparable (kernel broadcast)) (Compare (kernel broadcast)) h' tree'.
Proof.
  assert (thread_trees (kernel broadcast) !! cv_tree_id = Some [4; 3; 2]) as Hc by (vm_compute; reflexivity). split; [exact Hc|].
  destruct (thread_trees_implemented cv_tree_id [4; 3; 2] (kernel broadcast) waiters_store Hc waiters_tree) as (_ & He & _).
  apply (He 4). by left.
Defined.
