(* ===== verification/Capabilities.v ===== *)
(** The capabilities of a process (src/src/core/hle/kernel/k_capabilities.h and
    k_capabilities.cpp): what the descriptors in a program's header let it do, with the
    descriptors of src/src/core/hle/kernel/svc_types.h and svc_version.h they use and the
    virtual cores of src/src/core/hardware_properties.h.

    A descriptor is a 32-bit word; a bit set is the number of its bits. The page table is a
    class of operations. *)
From S2P Require Import Prelude Common Results MemoryBlock MemoryRegion.

Definition ResultInvalidArgument : Z := Result.make Result.Kernel 14.
Definition ResultInvalidSize : Z := Result.make Result.Kernel 101.
Definition ResultInvalidAddress : Z := Result.make Result.Kernel 102.
Definition ResultInvalidCoreId : Z := Result.make Result.Kernel 113.
Definition ResultInvalidCombination : Z := Result.make Result.Kernel 116.
Definition ResultOutOfRange : Z := Result.make Result.Kernel 119.
Definition ResultNotFound : Z := Result.make Result.Kernel 121.
Definition ResultReservedUsed : Z := Result.make Result.Kernel 126.

(** * Virtual cores *)
Module Hardware.
Definition NumVirtualCores : Z := 64.
Definition VirtualToPhysicalCoreMap : list Z := [0; 1; 2; 3] ++ replicate 59 0 ++ [3].

(** [for (i = first; i < first + n; i++) mask |= 1 << i] *)
Fixpoint or_bits (n : nat) (i mask : Z) : option Z :=
  match n with
  | O => Some mask
  | S n => b ← shl 64 1 i; or_bits n (i + 1) (Z.lor mask b)
  end.

Definition VirtualCoreMask : Z := default 0 (or_bits (Z.to_nat NumVirtualCores) 0 0).

Fixpoint Convert_loop (fuel : nat) (v_core_mask p_core_mask : Z) : option Z :=
  if v_core_mask =? 0 then Some p_core_mask
  else match fuel with
  | O => None
  | S fuel =>
      let next := countr_zero 64 v_core_mask in
      bit ← shl 64 1 next;
      core ← at_ VirtualToPhysicalCoreMap next;
      pbit ← shl 64 1 core;
      Convert_loop fuel (Z.land v_core_mask (lnotw 64 bit)) (Z.lor p_core_mask pbit)
  end.
Definition ConvertVirtualCoreMaskToPhysical (v_core_mask : Z) : option Z := Convert_loop 64 v_core_mask 0.
End Hardware.

(** * Kernel versions *)
Module SvcVersion.
Definition ConvertToSvcMajorVersion (sdk : Z) : Z := u32 (sdk + 4).
Definition ConvertToSvcMinorVersion (sdk : Z) : Z := sdk.
Definition SupportedKernelMajorVersion : Z := ConvertToSvcMajorVersion 22.
Definition SupportedKernelMinorVersion : Z := ConvertToSvcMinorVersion 2.
End SvcVersion.

(** * Descriptors *)
Module CapabilityType.
Definition CorePriority : Z := Z.shiftl 1 3 - 1.
Definition SyscallMask : Z := Z.shiftl 1 4 - 1.
Definition MapRange : Z := Z.shiftl 1 6 - 1.
Definition MapIoPage : Z := Z.shiftl 1 7 - 1.
Definition MapRegion : Z := Z.shiftl 1 10 - 1.
Definition InterruptPair : Z := Z.shiftl 1 11 - 1.
Definition ProgramType : Z := Z.shiftl 1 13 - 1.
Definition KernelVersion : Z := Z.shiftl 1 14 - 1.
Definition HandleTable : Z := Z.shiftl 1 15 - 1.
Definition DebugFlags : Z := Z.shiftl 1 16 - 1.
Definition Invalid : Z := 0.
Definition Padding : Z := lnotw 32 0.
End CapabilityType.

Definition GetCapabilityType (value : Z) : Z := u32 (Z.land (lnotw 32 value) (u32 (value + 1)) - 1).
Definition GetCapabilityFlag (type : Z) : Z := u32 (type + 1).
Definition CapabilityFlag (type : Z) : Z := u32 (type + 1).

Local Abbreviation field := (BitField.ExtractValue 32).
Module CorePriority.
Definition lowest_thread_priority : Z → Z := field 4 6.
Definition highest_thread_priority : Z → Z := field 10 6.
Definition minimum_core_id : Z → Z := field 16 8.
Definition maximum_core_id : Z → Z := field 24 8.
End CorePriority.
Module SyscallMask.
Definition mask_bits : Z := 24.
Definition mask : Z → Z := field 5 mask_bits.
Definition index : Z → Z := field 29 3.
End SyscallMask.
Definition PhysicalMapAllowedMask : Z := Z.shiftl 1 36 - 1.
Module MapRange.
Definition address : Z → Z := field 7 24.
Definition read_only : Z → Z := field 31 1.
End MapRange.
Module MapRangeSize.
Definition pages : Z → Z := field 7 20.
Definition reserved : Z → Z := field 27 4.
Definition normal : Z → Z := field 31 1.
End MapRangeSize.
Module MapIoPage.
Definition address : Z → Z := field 8 24.
End MapIoPage.
Module RegionType.
Definition NoMapping : Z := 0.
Definition KernelTraceBuffer : Z := 1.
Definition OnMemoryBootImage : Z := 2.
Definition DTB : Z := 3.
End RegionType.
Module MapRegion.
Definition region0 : Z → Z := field 11 6.
Definition read_only0 : Z → Z := field 17 1.
Definition region1 : Z → Z := field 18 6.
Definition read_only1 : Z → Z := field 24 1.
Definition region2 : Z → Z := field 25 6.
Definition read_only2 : Z → Z := field 31 1.
End MapRegion.
Module InterruptPair.
Definition interrupt_id0 : Z → Z := field 12 10.
Definition interrupt_id1 : Z → Z := field 22 10.
End InterruptPair.
Module ProgramType.
Definition type : Z → Z := field 14 3.
Definition reserved : Z → Z := field 17 15.
End ProgramType.
Module KernelVersion.
Definition set_minor_version : Z → Z → Z := BitField.Assign 32 15 4.
Definition major_version : Z → Z := field 19 13.
Definition minor_version : Z → Z := field 15 4.
Definition set_major_version : Z → Z → Z := BitField.Assign 32 19 13.
End KernelVersion.
Module HandleTableSize.
Definition size : Z → Z := field 16 10.
Definition reserved : Z → Z := field 26 6.
End HandleTableSize.
Module DebugFlags.
Definition allow_debug : Z → Z := field 17 1.
Definition force_debug : Z → Z := field 18 1.
Definition set_allow_debug : Z → Z → Z := BitField.Assign 32 17 1.
Definition set_force_debug : Z → Z → Z := BitField.Assign 32 18 1.
End DebugFlags.

Definition InitializeOnceFlags : Z :=
  Z.lor (CapabilityFlag CapabilityType.CorePriority)
    (Z.lor (CapabilityFlag CapabilityType.ProgramType)
      (Z.lor (CapabilityFlag CapabilityType.KernelVersion)
        (Z.lor (CapabilityFlag CapabilityType.HandleTable) (CapabilityFlag CapabilityType.DebugFlags)))).
Definition PaddingInterruptId : Z := 0x3FF.
Definition InterruptIdCount : Z := 0x400.
Definition NumSupervisorCalls : Z := 0xC0.

(** ** Regions that a program may ask for *)
Definition IsKTraceEnabled : bool := false.
Definition KMemoryRegionAttr_UserReadOnly : Z := 0x20000000.
Definition KMemoryRegionType_DramReservedBase : KMemoryRegionTypeValue := DeriveSparse KMemoryRegionType_Dram 0 3 1.
Definition KMemoryRegionType_KernelTraceBuffer : KMemoryRegionTypeValue :=
  SetAttribute (SetAttribute (DeriveSparse KMemoryRegionType_DramReservedBase 0 3 0) KMemoryRegionAttr_LinearMapped)
    KMemoryRegionAttr_UserReadOnly.
Definition KMemoryRegionType_OnMemoryBootImage : KMemoryRegionTypeValue := DeriveSparse KMemoryRegionType_DramReservedBase 0 3 1.
Definition KMemoryRegionType_DTB : KMemoryRegionTypeValue := DeriveSparse KMemoryRegionType_DramReservedBase 0 3 2.

(** The static assertions of the source. *)
Example region_values :
  map m_value [KMemoryRegionType_KernelTraceBuffer; KMemoryRegionType_OnMemoryBootImage; KMemoryRegionType_DTB]
  = [Z.lor 0xD6 (Z.lor KMemoryRegionAttr_LinearMapped KMemoryRegionAttr_UserReadOnly); 0x156; 0x256].
Proof. reflexivity. Qed.

(** * The capabilities of a process *)
Record KCapabilities := MkCapabilities {
  m_svc_access_flags : Z;
  m_irq_access_flags : Z;
  m_core_mask : Z;
  m_phys_core_mask : Z;
  m_priority_mask : Z;
  m_debug_capabilities : Z;
  m_handle_table_size : Z;
  m_intended_kernel_version : Z;
  m_program_type : Z
}.

Definition KCapabilities_new : KCapabilities := MkCapabilities 0 0 0 0 0 0 0 0 0.

Definition GetCoreMask := m_core_mask.
Definition GetPhysicalCoreMask := m_phys_core_mask.
Definition GetPriorityMask := m_priority_mask.
Definition GetHandleTableSize := m_handle_table_size.
Definition GetSvcPermissions := m_svc_access_flags.
Definition IsPermittedSvc (id : Z) (c : KCapabilities) : bool :=
  (id <? NumSupervisorCalls) && Z.testbit (m_svc_access_flags c) id.
Definition IsPermittedInterrupt (id : Z) (c : KCapabilities) : bool :=
  (id <? InterruptIdCount) && Z.testbit (m_irq_access_flags c) id.
Definition IsPermittedDebug (c : KCapabilities) : bool := negb (DebugFlags.allow_debug (m_debug_capabilities c) =? 0).
Definition CanForceDebug (c : KCapabilities) : bool := negb (DebugFlags.force_debug (m_debug_capabilities c) =? 0).
Definition GetIntendedKernelMajorVersion (c : KCapabilities) : Z := KernelVersion.major_version (m_intended_kernel_version c).
Definition GetIntendedKernelMinorVersion (c : KCapabilities) : Z := KernelVersion.minor_version (m_intended_kernel_version c).

Definition with_svc (s : Z) (c : KCapabilities) : KCapabilities :=
  MkCapabilities s (m_irq_access_flags c) (m_core_mask c) (m_phys_core_mask c) (m_priority_mask c) (m_debug_capabilities c)
    (m_handle_table_size c) (m_intended_kernel_version c) (m_program_type c).
Definition with_masks (core phys prio : Z) (c : KCapabilities) : KCapabilities :=
  MkCapabilities (m_svc_access_flags c) (m_irq_access_flags c) core phys prio (m_debug_capabilities c)
    (m_handle_table_size c) (m_intended_kernel_version c) (m_program_type c).
Definition with_debug (d : Z) (c : KCapabilities) : KCapabilities :=
  MkCapabilities (m_svc_access_flags c) (m_irq_access_flags c) (m_core_mask c) (m_phys_core_mask c) (m_priority_mask c) d
    (m_handle_table_size c) (m_intended_kernel_version c) (m_program_type c).
Definition with_handle_table_size (n : Z) (c : KCapabilities) : KCapabilities :=
  MkCapabilities (m_svc_access_flags c) (m_irq_access_flags c) (m_core_mask c) (m_phys_core_mask c) (m_priority_mask c)
    (m_debug_capabilities c) n (m_intended_kernel_version c) (m_program_type c).
Definition with_version (v : Z) (c : KCapabilities) : KCapabilities :=
  MkCapabilities (m_svc_access_flags c) (m_irq_access_flags c) (m_core_mask c) (m_phys_core_mask c) (m_priority_mask c)
    (m_debug_capabilities c) (m_handle_table_size c) v (m_program_type c).
Definition with_program_type (t : Z) (c : KCapabilities) : KCapabilities :=
  MkCapabilities (m_svc_access_flags c) (m_irq_access_flags c) (m_core_mask c) (m_phys_core_mask c) (m_priority_mask c)
    (m_debug_capabilities c) (m_handle_table_size c) (m_intended_kernel_version c) t.

Definition SetSvcAllowed (id : Z) (c : KCapabilities) : bool * KCapabilities :=
  if id <? NumSupervisorCalls then (true, with_svc (Z.setbit (m_svc_access_flags c) id) c) else (false, c).

(** No descriptor calls it. *)
Definition SetInterruptPermitted (id : Z) (c : KCapabilities) : bool * KCapabilities :=
  if id <? InterruptIdCount then
    (true, MkCapabilities (m_svc_access_flags c) (Z.setbit (m_irq_access_flags c) id) (m_core_mask c) (m_phys_core_mask c)
             (m_priority_mask c) (m_debug_capabilities c) (m_handle_table_size c) (m_intended_kernel_version c) (m_program_type c))
  else (false, c).

(** ** The descriptors that do not map *)
Definition SetCorePriorityCapability (cap : Z) (c : KCapabilities) : option (Z * KCapabilities) :=
  if negb (m_core_mask c =? 0) then Some (ResultInvalidArgument, c)
  else if negb (m_priority_mask c =? 0) then Some (ResultInvalidArgument, c)
  else
    let min_core := CorePriority.minimum_core_id cap in
    let max_core := CorePriority.maximum_core_id cap in
    let max_prio := CorePriority.lowest_thread_priority cap in
    let min_prio := CorePriority.highest_thread_priority cap in
    if negb (min_core <=? max_core) then Some (ResultInvalidCombination, c)
    else if negb (min_prio <=? max_prio) then Some (ResultInvalidCombination, c)
    else if negb (max_core <? Hardware.NumVirtualCores) then Some (ResultInvalidCoreId, c)
    else
      check (max_prio <? 64);;
      core ← Hardware.or_bits (Z.to_nat (max_core + 1 - min_core)) min_core (m_core_mask c);
      check (Z.land core Hardware.VirtualCoreMask =? core);;
      phys ← Hardware.ConvertVirtualCoreMaskToPhysical core;
      prio ← Hardware.or_bits (Z.to_nat (max_prio + 1 - min_prio)) min_prio (m_priority_mask c);
      let c := with_masks core phys prio c in
      if negb (negb (core =? 0)) then Some (ResultInvalidArgument, c)
      else if negb (negb (prio =? 0)) then Some (ResultInvalidArgument, c)
      else if negb (Z.land prio 0xF =? 0) then Some (ResultInvalidArgument, c)
      else Some (ResultSuccess, c).

Fixpoint SetSyscallMask_loop (n : nat) (i mask index : Z) (c : KCapabilities) : Z * KCapabilities :=
  match n with
  | O => (ResultSuccess, c)
  | S n =>
      let svc_id := u32 (SyscallMask.mask_bits * index + i) in
      if negb (Z.land mask (u32 (Z.shiftl 1 i)) =? 0) then
        let '(ok, c) := SetSvcAllowed svc_id c in
        if negb ok then (ResultOutOfRange, c) else SetSyscallMask_loop n (i + 1) mask index c
      else SetSyscallMask_loop n (i + 1) mask index c
  end.

(** The result, [set_svc] and the capabilities. *)
Definition SetSyscallMaskCapability (cap set_svc : Z) (c : KCapabilities) : Z * Z * KCapabilities :=
  let mask := SyscallMask.mask cap in
  let index := SyscallMask.index cap in
  let index_flag := u32 (Z.shiftl 1 index) in
  if negb (Z.land set_svc index_flag =? 0) then (ResultInvalidCombination, set_svc, c)
  else
    let '(r, c) := SetSyscallMask_loop (Z.to_nat SyscallMask.mask_bits) 0 mask index c in
    (r, Z.lor set_svc index_flag, c).

(** The loop over the two interrupts only logs those that are not [PaddingInterruptId]. *)
Definition SetInterruptPairCapability (cap : Z) (c : KCapabilities) : Z * KCapabilities := (ResultSuccess, c).

Definition SetProgramTypeCapability (cap : Z) (c : KCapabilities) : Z * KCapabilities :=
  if negb (ProgramType.reserved cap =? 0) then (ResultReservedUsed, c)
  else (ResultSuccess, with_program_type (ProgramType.type cap) c).

Definition SetKernelVersionCapability (cap : Z) (c : KCapabilities) : Z * KCapabilities :=
  if negb (KernelVersion.major_version (m_intended_kernel_version c) =? 0) then (ResultInvalidArgument, c)
  else
    let c := with_version cap c in
    if negb (negb (KernelVersion.major_version (m_intended_kernel_version c) =? 0)) then (ResultInvalidArgument, c)
    else (ResultSuccess, c).

Definition SetHandleTableCapability (cap : Z) (c : KCapabilities) : Z * KCapabilities :=
  if negb (HandleTableSize.reserved cap =? 0) then (ResultReservedUsed, c)
  else (ResultSuccess, with_handle_table_size (HandleTableSize.size cap) c).

Definition SetDebugFlagsCapability (cap : Z) (c : KCapabilities) : Z * KCapabilities :=
  let debug_capabilities := DebugFlags.set_allow_debug (m_debug_capabilities c) (DebugFlags.allow_debug cap) in
  let debug_capabilities := DebugFlags.set_force_debug debug_capabilities (DebugFlags.force_debug cap) in
  (ResultSuccess, with_debug debug_capabilities c).

(** ** Regions *)
Definition MemoryRegions : list Z :=
  map m_value [KMemoryRegionType_None; KMemoryRegionType_KernelTraceBuffer; KMemoryRegionType_OnMemoryBootImage;
    KMemoryRegionType_DTB].

Fixpoint ProcessMapRegion_loop {S} (f : Z → Z → S → Z * S) (l : list (Z * Z)) (s : S) : option (Z * S) :=
  match l with
  | [] => Some (ResultSuccess, s)
  | (type, ro) :: l =>
      let perm := if negb (ro =? 0) then KMemoryPermission.UserRead else KMemoryPermission.UserReadWrite in
      if type =? RegionType.NoMapping then ProcessMapRegion_loop f l s
      else if (type =? RegionType.KernelTraceBuffer) && negb IsKTraceEnabled then ProcessMapRegion_loop f l s
      else if (type =? RegionType.KernelTraceBuffer) || (type =? RegionType.OnMemoryBootImage) || (type =? RegionType.DTB) then
        region ← at_ MemoryRegions type;
        let '(r, s) := f region perm s in
        if Result.IsError r then Some (r, s) else ProcessMapRegion_loop f l s
      else Some (ResultNotFound, s)
  end.
Definition ProcessMapRegionCapability {S} (cap : Z) (f : Z → Z → S → Z * S) (s : S) : option (Z * S) :=
  ProcessMapRegion_loop f
    [(MapRegion.region0 cap, MapRegion.read_only0 cap); (MapRegion.region1 cap, MapRegion.read_only1 cap);
     (MapRegion.region2 cap, MapRegion.read_only2 cap)] s.

Definition CheckMapRegion (tree : region_tree) (cap : Z) : option Z :=
  r ← ProcessMapRegionCapability cap
        (λ region_type _ s, (match FindFirstDerived tree region_type with Some _ => ResultSuccess | None => ResultOutOfRange end, s)) tt;
  Some (fst r).

Fixpoint CheckCapabilities (tree : region_tree) (caps : list Z) : option Z :=
  match caps with
  | [] => Some ResultSuccess
  | cap :: caps =>
      if GetCapabilityType cap =? CapabilityType.MapRegion then
        r ← CheckMapRegion tree cap;
        if Result.IsError r then Some r else CheckCapabilities tree caps
      else CheckCapabilities tree caps
  end.

(** ** The descriptors that map *)

(** The operations of the process's page table. *)
Class PageTable (T : Type) := {
  MapStatic : Z → Z → Z → T → Z * T;
  MapIo : Z → Z → Z → T → Z * T;
  MapRegion_ : Z → Z → T → Z * T
}.

Section page_table.
Context {T : Type} `{PageTable T}.

Definition MapRange_ (cap size_cap : Z) (t : T) : Z * T :=
  let phys_addr := u64 (MapRange.address cap * PageSize) in
  if negb (MapRangeSize.reserved size_cap =? 0) then (ResultOutOfRange, t)
  else
    let num_pages := MapRangeSize.pages size_cap in
    let size := u64 (num_pages * PageSize) in
    if negb (negb (num_pages =? 0)) then (ResultInvalidSize, t)
    else if negb (phys_addr <? u64 (phys_addr + size)) then (ResultInvalidAddress, t)
    else if negb (Z.land (u64 (phys_addr + size - 1)) (lnotw 64 PhysicalMapAllowedMask) =? 0) then (ResultInvalidAddress, t)
    else
      let perm := if negb (MapRange.read_only cap =? 0) then KMemoryPermission.UserRead else KMemoryPermission.UserReadWrite in
      if negb (MapRangeSize.normal size_cap =? 0) then MapStatic phys_addr size perm t else MapIo phys_addr size perm t.

Definition MapIoPage_ (cap : Z) (t : T) : Z * T :=
  let phys_addr := u64 (MapIoPage.address cap * PageSize) in
  let num_pages := 1 in
  let size := u64 (num_pages * PageSize) in
  if negb (phys_addr <? u64 (phys_addr + size)) then (ResultInvalidAddress, t)
  else if negb (Z.land (u64 (phys_addr + size - 1)) (lnotw 64 PhysicalMapAllowedMask) =? 0) then (ResultInvalidAddress, t)
  else MapIo phys_addr size KMemoryPermission.UserReadWrite t.

Definition MapRegionCapability (cap : Z) (t : T) : option (Z * T) := ProcessMapRegionCapability cap MapRegion_ t.

(** * Parsing *)
Record Parse := MkParse { set_flags : Z; set_svc : Z; parsed : KCapabilities; table : T }.

Definition on_parsed (p : Parse) (r : Z * KCapabilities) : Z * Parse :=
  (fst r, MkParse (set_flags p) (set_svc p) (snd r) (table p)).
Definition on_table (p : Parse) (r : Z * T) : Z * Parse :=
  (fst r, MkParse (set_flags p) (set_svc p) (parsed p) (snd r)).

Definition SetCapability (cap : Z) (p : Parse) : option (Z * Parse) :=
  let type := GetCapabilityType cap in
  if negb (negb (type =? CapabilityType.Invalid)) then Some (ResultInvalidArgument, p)
  else if type =? CapabilityType.Padding then Some (ResultSuccess, p)
  else
    let flag := GetCapabilityFlag type in
    if negb (Z.land (Z.land (set_flags p) InitializeOnceFlags) flag =? 0) then Some (ResultInvalidCombination, p)
    else
      let p := MkParse (Z.lor (set_flags p) flag) (set_svc p) (parsed p) (table p) in
      if type =? CapabilityType.CorePriority then on_parsed p <$> SetCorePriorityCapability cap (parsed p)
      else if type =? CapabilityType.SyscallMask then
        let '(r, svc, c) := SetSyscallMaskCapability cap (set_svc p) (parsed p) in
        Some (r, MkParse (set_flags p) svc c (table p))
      else if type =? CapabilityType.MapIoPage then Some (on_table p (MapIoPage_ cap (table p)))
      else if type =? CapabilityType.MapRegion then on_table p <$> MapRegionCapability cap (table p)
      else if type =? CapabilityType.InterruptPair then Some (on_parsed p (SetInterruptPairCapability cap (parsed p)))
      else if type =? CapabilityType.ProgramType then Some (on_parsed p (SetProgramTypeCapability cap (parsed p)))
      else if type =? CapabilityType.KernelVersion then Some (on_parsed p (SetKernelVersionCapability cap (parsed p)))
      else if type =? CapabilityType.HandleTable then Some (on_parsed p (SetHandleTableCapability cap (parsed p)))
      else if type =? CapabilityType.DebugFlags then Some (on_parsed p (SetDebugFlagsCapability cap (parsed p)))
      else Some (ResultInvalidArgument, p).

Fixpoint SetCapabilities_loop (caps : list Z) (p : Parse) : option (Z * Parse) :=
  match caps with
  | [] => Some (ResultSuccess, p)
  | cap :: caps =>
      if GetCapabilityType cap =? CapabilityType.MapRange then
        match caps with
        | [] => Some (ResultInvalidCombination, p)
        | size_cap :: caps =>
            if negb (GetCapabilityType size_cap =? CapabilityType.MapRange) then Some (ResultInvalidCombination, p)
            else
              let '(r, p) := on_table p (MapRange_ cap size_cap (table p)) in
              if Result.IsError r then Some (r, p) else SetCapabilities_loop caps p
        end
      else
        '(r, p) ← SetCapability cap p;
        if Result.IsError r then Some (r, p) else SetCapabilities_loop caps p
  end.
Definition SetCapabilities (caps : list Z) (c : KCapabilities) (t : T) : option (Z * Parse) :=
  SetCapabilities_loop caps (MkParse 0 0 c t).

Definition InitializeForKip (kern_caps : list Z) (c : KCapabilities) (t : T) : option (Z * Parse) :=
  phys ← Hardware.ConvertVirtualCoreMaskToPhysical Hardware.VirtualCoreMask;
  let version := KernelVersion.set_major_version 0 SvcVersion.SupportedKernelMajorVersion in
  let version := KernelVersion.set_minor_version version SvcVersion.SupportedKernelMinorVersion in
  SetCapabilities kern_caps (MkCapabilities 0 0 Hardware.VirtualCoreMask phys (lnotw 64 0xF) 0 0 version 0) t.

(** [m_phys_core_mask] is not reset. *)
Definition InitializeForUser (user_caps : list Z) (c : KCapabilities) (t : T) : option (Z * Parse) :=
  SetCapabilities user_caps (MkCapabilities 0 0 0 (m_phys_core_mask c) 0 0 0 0 0) t.
End page_table.
Arguments Parse : clear implicits.
Arguments MkParse {T}.
