(* ===== verification/CapabilitiesSpec.v ===== *)
(** What the capabilities of a process are after its descriptors have been read: exactly what
    the descriptors say, one descriptor at most of those that may not be repeated, and no
    request of the page table outside of the physical addresses that may be mapped. *)
From S2P Require Import Prelude Common Results MemoryBlock MemoryRegion Capabilities.

(** * Types of descriptors *)

(** The low [k] bits are ones and the next one is not. *)
Definition low_ones (k v : Z) : Prop := (∀ i, 0 ≤ i < k → Z.testbit v i = true) ∧ Z.testbit v k = false.

Lemma low_ones_exists v : in_width 32 v → ∃ k, 0 ≤ k ≤ 32 ∧ low_ones k v.
Proof.
  intros Hv. destruct (Z.eq_dec (lnotw 32 v) 0) as [E|Hne].
  - exists 32. split; [lia|]. assert (v = 2 ^ 32 - 1) as -> by (unfold lnotw in E; lia). split; [|done].
    intros i Hi. replace (2 ^ 32 - 1) with (Z.ones 32) by done. by apply Z.ones_spec_low.
  - destruct (countr_zero_spec 32 (lnotw 32 v)) as (Hr & Ht & Hl); [apply lnotw_range; done|done|].
    exists (countr_zero 32 (lnotw 32 v)). split; [lia|]. split.
    + intros i Hi. specialize (Hl i Hi). rewrite lnotw_testbit in Hl by (done || lia). by destruct (Z.testbit v i).
    + rewrite lnotw_testbit in Ht by (done || lia). by destruct (Z.testbit v _).
Qed.

Lemma low_ones_split k v : 0 ≤ k → 0 ≤ v → low_ones k v → v = 2 ^ (k + 1) * (v / 2 ^ (k + 1)) + (2 ^ k - 1).
Proof.
  intros Hk Hv [H1 H0]. rewrite (Z.div_mod v (2 ^ (k + 1))) at 1 by lia. f_equal. apply testbit_ext. intros i Hi.
  replace (2 ^ k - 1) with (Z.ones k) by (rewrite Z.ones_equiv; lia). rewrite Z.testbit_mod_pow2, Z.testbit_ones_nonneg by lia.
  destruct (Z.ltb_spec i k) as [Hlt|Hge].
  - rewrite H1 by lia. by rewrite (proj2 (Z.ltb_lt _ _)) by lia.
  - destruct (Z.ltb_spec i (k + 1)) as [Hlt'|]; [|done]. assert (i = k) as -> by lia. by rewrite H0.
Qed.

Lemma type_of_low_ones k v : 0 ≤ k ≤ 32 → in_width 32 v → low_ones k v → GetCapabilityType v = 2 ^ k - 1.
Proof.
  intros Hk Hv Hl. unfold GetCapabilityType. pose proof (low_ones_split k v ltac:(lia) (proj1 Hv) Hl) as E.
  destruct (Z.eq_dec k 32) as [->|Hk32].
  { assert (v = 2 ^ 32 - 1) as ->; [|done]. rewrite Z.div_small in E; [lia|]. destruct Hv. split; [lia|]. change (2 ^ (32 + 1)) with (2 ^ 32 * 2). lia. }
  set (a := v / 2 ^ (k + 1)) in *. assert (v + 1 = 2 ^ (k + 1) * a + 2 ^ k) as E1 by lia.
  pose proof (Z.pow_add_r 2 k 1 ltac:(lia) ltac:(lia)) as Hp. rewrite Z.pow_1_r in Hp.
  assert (0 ≤ a) as Ha by (apply Z.div_pos; [apply Hv|lia]).
  assert (v + 1 < 2 ^ 32) as Hv1.
  { destruct (Z.eq_dec (v + 1) (2 ^ 32)) as [Ev|]; [|destruct Hv; lia]. destruct Hl as [_ H0].
    assert (v = Z.ones 32) as -> by (rewrite Z.ones_equiv; lia). by rewrite Z.ones_spec_low in H0 by lia. }
  rewrite (wrap_small 32 (v + 1)) by (destruct Hv; split; lia).
  assert (Z.land (lnotw 32 v) (v + 1) = 2 ^ k) as ->; [|apply wrap_small; split; [lia|]; pose proof (Z.pow_lt_mono_r 2 k 32 ltac:(lia) ltac:(lia) ltac:(lia)); lia].
  apply testbit_ext. intros i Hi. rewrite Z.land_spec, Z.pow2_bits_eqb by lia.
  destruct (Z_lt_le_dec i 32) as [Hi32|Hi32].
  - rewrite lnotw_testbit by (done || lia). destruct Hl as [H1 H0]. destruct (Z.lt_total i k) as [Hlt|[->|Hgt]].
    + rewrite H1 by lia. by rewrite (proj2 (Z.eqb_neq _ _)) by lia.
    + rewrite H0, Z.eqb_refl. simpl. rewrite E1, Hp. replace (2 ^ k * 2 * a + 2 ^ k) with ((2 * a + 1) * 2 ^ k) by lia.
      rewrite Z.mul_pow2_bits by lia. rewrite Z.sub_diag. apply Z.testbit_odd_0.
    + rewrite (proj2 (Z.eqb_neq _ _)) by lia.
      assert (Z.testbit v i = Z.testbit (v + 1) i) as ->; [|by destruct (Z.testbit (v + 1) i)].
      rewrite <-(Z.sub_add (k + 1) i), <-!Z.shiftr_spec, !Z.shiftr_div_pow2 by lia. f_equal.
      fold a. rewrite E1. rewrite Z.mul_comm, Z.div_add_l, Z.div_small by lia. lia.
  - rewrite (testbit_high 32 (v + 1)) by (done || (destruct Hv; split; lia)). rewrite andb_false_r.
    by rewrite (proj2 (Z.eqb_neq _ _)) by lia.
Qed.

(** The type of a descriptor is the number of its low ones: it is [2 ^ k - 1] exactly when the
    low [k] bits are ones and the next one is not; [Invalid] is no ones, [Padding] all ones. *)
Theorem GetCapabilityType_correct v k :
  in_width 32 v → 0 ≤ k ≤ 32 → GetCapabilityType v = 2 ^ k - 1 ↔ low_ones k v.
Proof.
  intros Hv Hk. split; [|by apply type_of_low_ones]. intros Ht. destruct (low_ones_exists v Hv) as (k' & Hk' & Hl).
  rewrite (type_of_low_ones k' v Hk' Hv Hl) in Ht. assert (k' = k) as ->; [|done].
  apply (Z.pow_inj_r 2); lia.
Qed.

Lemma GetCapabilityType_shape v : in_width 32 v → ∃ k, 0 ≤ k ≤ 32 ∧ GetCapabilityType v = 2 ^ k - 1.
Proof. intros Hv. destruct (low_ones_exists v Hv) as (k & Hk & Hl). exists k. split; [done|]. by apply type_of_low_ones. Qed.

(** * Masks of cores and priorities *)
Definition bit_range (lo hi : Z) : Z := Z.shiftl (Z.ones (hi + 1 - lo)) lo.

Lemma bit_range_testbit lo hi i : 0 ≤ lo ≤ hi + 1 → 0 ≤ i → Z.testbit (bit_range lo hi) i = bool_decide (lo ≤ i ≤ hi).
Proof.
  intros Hl Hi. unfold bit_range. rewrite Z.shiftl_spec by lia. destruct (Z_lt_le_dec i lo).
  - rewrite Z.testbit_neg_r by lia. symmetry. apply bool_decide_eq_false. lia.
  - rewrite Z.testbit_ones_nonneg by lia. apply eq_true_iff_eq. rewrite Z.ltb_lt, bool_decide_eq_true. lia.
Qed.

Lemma bit_range_width lo hi : 0 ≤ lo ≤ hi → hi < 64 → in_width 64 (bit_range lo hi).
Proof.
  intros Hl Hh. apply in_width_bits; [lia| |].
  - unfold bit_range. apply Z.shiftl_nonneg. rewrite Z.ones_equiv. pose proof (pow2_pos (hi + 1 - lo)). lia.
  - intros i Hi. rewrite bit_range_testbit by lia. apply bool_decide_eq_false. lia.
Qed.

Lemma shl_bit n : 0 ≤ n < 64 → shl 64 1 n = Some (Z.shiftl 1 n).
Proof. intros Hn. unfold shl. rewrite check_bind_Some by lia. by rewrite wrap_small by (apply shiftl_1_in_width; lia). Qed.

Lemma or_bits_ok n i mask : 0 ≤ i → i + Z.of_nat n ≤ 64 →
  Hardware.or_bits n i mask = Some (Z.lor mask (bit_range i (i + Z.of_nat n - 1))).
Proof.
  revert i mask. induction n as [|n IH]; intros i mask Hi Hn; cbn [Hardware.or_bits].
  - f_equal. apply testbit_ext. intros j Hj. rewrite Z.lor_spec, bit_range_testbit by lia.
    rewrite bool_decide_eq_false_2 by lia. by rewrite orb_false_r.
  - rewrite shl_bit by lia. cbn [mbind option_bind]. rewrite IH by lia. f_equal. apply testbit_ext. intros j Hj.
    rewrite !Z.lor_spec, !bit_range_testbit by lia.
    rewrite shiftl_1_testbit by lia. rewrite <-orb_assoc. f_equal.
    apply eq_true_iff_eq. rewrite orb_true_iff, !bool_decide_eq_true. lia.
Qed.

Lemma VirtualCoreMask_eq : Hardware.VirtualCoreMask = Z.ones 64.
Proof. vm_compute. reflexivity. Qed.

(** The physical cores of a set of virtual ones. *)
Definition physical_of (v p : Z) : Prop :=
  ∀ j, Z.testbit p j = true ↔ ∃ i : nat, Z.testbit v (Z.of_nat i) = true ∧ Hardware.VirtualToPhysicalCoreMap !! i = Some j.

Lemma core_map_range (i : nat) core : Hardware.VirtualToPhysicalCoreMap !! i = Some core → 0 ≤ core < 4.
Proof.
  intros H. assert (Forall (λ c, 0 ≤ c < 4) Hardware.VirtualToPhysicalCoreMap) as HF by (repeat constructor; lia).
  rewrite Forall_lookup in HF. by eapply HF.
Qed.

Lemma land_clear_testbit v n i : in_width 64 v → 0 ≤ n < 64 → 0 ≤ i →
  Z.testbit (Z.land v (lnotw 64 (Z.shiftl 1 n))) i = Z.testbit v i && negb (bool_decide (i = n)).
Proof.
  intros Hv Hn Hi. rewrite Z.land_spec. destruct (Z_lt_le_dec i 64).
  - rewrite lnotw_testbit by (lia || (apply shiftl_1_in_width; lia)). by rewrite shiftl_1_testbit by lia.
  - by rewrite (testbit_high 64 v i) by done.
Qed.

(** Every turn clears the lowest bit, so that 64 of them are enough. *)
Lemma Convert_loop_ok fuel v p :
  in_width 64 v → 0 ≤ p → (∀ i, 0 ≤ i < 64 - Z.of_nat fuel → Z.testbit v i = false) →
  ∃ p', Hardware.Convert_loop fuel v p = Some p' ∧ 0 ≤ p' ∧
    ∀ j, Z.testbit p' j = true ↔ Z.testbit p j = true
      ∨ ∃ i : nat, Z.testbit v (Z.of_nat i) = true ∧ Hardware.VirtualToPhysicalCoreMap !! i = Some j.
Proof.
  revert v p. induction fuel as [|fuel IH]; intros v p Hv Hp Hlow; cbn [Hardware.Convert_loop];
    (destruct (Z.eqb_spec v 0) as [->|Hne];
     [exists p; split; [done|]; split; [done|]; intros j; split; [by left|]; intros [?|(i & Hi & _)]; [done|by rewrite Z.bits_0 in Hi]|]).
  - exfalso. apply Hne, eq_0_bits. intros i Hi. destruct (Z_lt_le_dec i 64); [apply Hlow; lia|by apply (testbit_high 64)].
  - destruct (countr_zero_spec 64 v Hv Hne) as (Hr & Ht & Hl). set (next := countr_zero 64 v) in *.
    rewrite (shl_bit next) by lia. cbn [mbind option_bind].
    destruct (at_is_Some Hardware.VirtualToPhysicalCoreMap next) as [core Hcore]; [done|]. rewrite Hcore. cbn [mbind option_bind].
    assert (Hardware.VirtualToPhysicalCoreMap !! Z.to_nat next = Some core) as Hc.
    { unfold at_ in Hcore. by rewrite check_bind_Some in Hcore by lia. }
    pose proof (core_map_range _ _ Hc) as Hcr. rewrite (shl_bit core) by lia. cbn [mbind option_bind].
    destruct (IH (Z.land v (lnotw 64 (Z.shiftl 1 next))) (Z.lor p (Z.shiftl 1 core))) as (p' & Hp' & Hp0 & Hspec).
    + apply land_in_width; [lia|done].
    + apply Z.lor_nonneg. split; [done|]. apply Z.shiftl_nonneg. lia.
    + intros i Hi. rewrite land_clear_testbit by (done || lia). destruct (decide (i = next)) as [->|Hin].
      * by rewrite bool_decide_eq_true_2, andb_false_r.
      * destruct (Z_lt_le_dec i next) as [Hlt|Hge]; [by rewrite Hl by lia|].
        destruct (Z_lt_le_dec i (64 - Z.of_nat (S fuel))); [by rewrite Hlow by lia|].
        exfalso. assert (next < 64 - Z.of_nat (S fuel)) as Hnl by lia. by rewrite Hlow in Ht by lia.
    + exists p'. split; [done|]. split; [done|]. intros j. rewrite Hspec, Z.lor_spec, orb_true_iff. split.
      * intros [[?|Hj]|(i & Hi & Hm)]; [by left| |].
        -- right. exists (Z.to_nat next). rewrite Z2Nat.id by lia. split; [done|].
           destruct (Z_lt_le_dec j 0); [by rewrite Z.testbit_neg_r in Hj by lia|]. rewrite shiftl_1_testbit in Hj by lia.
           apply bool_decide_eq_true in Hj as ->. done.
        -- right. exists i. rewrite land_clear_testbit in Hi by (done || lia). apply andb_true_iff in Hi as [Hi _]. done.
      * intros [?|(i & Hi & Hm)]; [by left; left|]. destruct (decide (Z.of_nat i = next)) as [Ei|Hne'].
        -- left; right. rewrite <-Ei, Nat2Z.id in Hc. rewrite Hc in Hm. injection Hm as <-. rewrite shiftl_1_testbit by lia. by apply bool_decide_eq_true.
        -- right. exists i. split; [|done]. rewrite land_clear_testbit by (done || lia). rewrite Hi. by rewrite bool_decide_eq_false_2.
Qed.

Lemma Convert_ok v : in_width 64 v → ∃ p, Hardware.ConvertVirtualCoreMaskToPhysical v = Some p ∧ physical_of v p.
Proof.
  intros Hv. destruct (Convert_loop_ok 64 v 0 Hv ltac:(lia)) as (p & Hp & _ & Hspec); [intros i Hi; lia|].
  exists p. split; [done|]. intros j. rewrite Hspec, Z.bits_0. split; [by intros [?|?]|by right].
Qed.

(** * The effect of a descriptor *)
Lemma field_range p b cap : 0 ≤ p → 0 < b → p + b ≤ 32 → in_width 32 cap → 0 ≤ BitField.ExtractValue 32 p b cap < 2 ^ b.
Proof. intros ??? [Hc _]. by apply BitField.ExtractValue_range. Qed.

Definition core_bits (cap : Z) : Z := bit_range (CorePriority.minimum_core_id cap) (CorePriority.maximum_core_id cap).
Definition priority_bits (cap : Z) : Z :=
  bit_range (CorePriority.highest_thread_priority cap) (CorePriority.lowest_thread_priority cap).
Definition phys_bits (cap : Z) : Z := default 0 (Hardware.ConvertVirtualCoreMaskToPhysical (core_bits cap)).

(** What the code takes as cores and priorities. *)
Definition good_masks (cap : Z) : Prop :=
  CorePriority.minimum_core_id cap ≤ CorePriority.maximum_core_id cap < 64
  ∧ 4 ≤ CorePriority.highest_thread_priority cap ≤ CorePriority.lowest_thread_priority cap.

Lemma SetCorePriorityCapability_ok cap c :
  in_width 32 cap →
  ∃ r c', SetCorePriorityCapability cap c = Some (r, c')
    ∧ (Result.IsError r = false → m_core_mask c = 0 ∧ m_priority_mask c = 0 ∧ good_masks cap
         ∧ c' = with_masks (core_bits cap) (phys_bits cap) (priority_bits cap) c).
Proof.
  intros Hcap. unfold SetCorePriorityCapability.
  pose proof (field_range 16 8 cap ltac:(lia) ltac:(lia) ltac:(lia) Hcap) as H1.
  pose proof (field_range 24 8 cap ltac:(lia) ltac:(lia) ltac:(lia) Hcap) as H2.
  pose proof (field_range 4 6 cap ltac:(lia) ltac:(lia) ltac:(lia) Hcap) as H3.
  pose proof (field_range 10 6 cap ltac:(lia) ltac:(lia) ltac:(lia) Hcap) as H4.
  destruct (Z.eqb_spec (m_core_mask c) 0) as [Ec|]; [|by eexists _, _]. destruct (Z.eqb_spec (m_priority_mask c) 0) as [Ep|]; [|by eexists _, _].
  cbn [negb]. fold (CorePriority.minimum_core_id cap) in H1. fold (CorePriority.maximum_core_id cap) in H2.
  fold (CorePriority.lowest_thread_priority cap) in H3. fold (CorePriority.highest_thread_priority cap) in H4.
  destruct (Z.leb_spec (CorePriority.minimum_core_id cap) (CorePriority.maximum_core_id cap)) as [Hc|]; [|by eexists _, _].
  destruct (Z.leb_spec (CorePriority.highest_thread_priority cap) (CorePriority.lowest_thread_priority cap)) as [Hp|]; [|by eexists _, _].
  unfold Hardware.NumVirtualCores. destruct (Z.ltb_spec (CorePriority.maximum_core_id cap) 64) as [Hm|]; [|by eexists _, _]. cbn [negb].
  rewrite check_bind_Some by lia. rewrite Ec, Ep, !or_bits_ok by lia. cbn [mbind option_bind].
  rewrite !Z.lor_0_l, !Z2Nat.id by lia. replace (_ + (_ + 1 - _) - 1) with (CorePriority.maximum_core_id cap) by lia.
  replace (CorePriority.highest_thread_priority cap + (CorePriority.lowest_thread_priority cap + 1 - CorePriority.highest_thread_priority cap) - 1)
    with (CorePriority.lowest_thread_priority cap) by lia.
  fold (core_bits cap) (priority_bits cap). assert (in_width 64 (core_bits cap)) as Hw by (apply bit_range_width; lia).
  rewrite check_bind_Some.
  2: { apply Z.eqb_eq. rewrite VirtualCoreMask_eq, Z.land_ones by lia. by apply Z.mod_small. }
  destruct (Convert_ok _ Hw) as (phys & Ephys & _). rewrite Ephys. cbn [mbind option_bind].
  assert (core_bits cap ≠ 0) as Hcne.
  { apply (bit_ne_0 _ (CorePriority.minimum_core_id cap)). unfold core_bits. rewrite bit_range_testbit by lia. apply bool_decide_eq_true. lia. }
  assert (priority_bits cap ≠ 0) as Hpne.
  { apply (bit_ne_0 _ (CorePriority.highest_thread_priority cap)). unfold priority_bits. rewrite bit_range_testbit by lia. apply bool_decide_eq_true. lia. }
  rewrite (proj2 (Z.eqb_neq (core_bits cap) 0)), (proj2 (Z.eqb_neq (priority_bits cap) 0)) by done. cbn [negb].
  destruct (Z.eqb_spec (Z.land (priority_bits cap) 0xF) 0) as [Hz|]; [|by eexists _, _]. cbn [negb]. eexists _, _. split; [done|].
  intros _. split; [done|]. split; [done|]. split; [|by unfold phys_bits; rewrite Ephys]. split; [lia|]. split; [|done].
  destruct (Z_lt_le_dec (CorePriority.highest_thread_priority cap) 4) as [Hlt|]; [|done]. exfalso.
  assert (Z.testbit (Z.land (priority_bits cap) 0xF) (CorePriority.highest_thread_priority cap) = true) as Ht.
  { rewrite Z.land_spec. unfold priority_bits. rewrite bit_range_testbit by lia. rewrite bool_decide_eq_true_2 by lia.
    change 0xF with (Z.ones 4). by rewrite Z.ones_spec_low by lia. }
  by rewrite Hz, Z.bits_0 in Ht.
Qed.

Lemma SetSyscallMask_loop_ok n i mask index c :
  0 ≤ i → i + Z.of_nat n = 24 → 0 ≤ index < 8 → in_width 24 mask →
  ∃ s, SetSyscallMask_loop n i mask index c = (ResultSuccess, with_svc s c)
    ∧ ∀ id, 0 ≤ id → Z.testbit s id = Z.testbit (m_svc_access_flags c) id
        || (bool_decide (24 * index + i ≤ id < 24 * index + 24) && Z.testbit mask (id - 24 * index)).
Proof.
  revert i c. induction n as [|n IH]; intros i c Hi Hn Hx Hm; cbn [SetSyscallMask_loop].
  - exists (m_svc_access_flags c). split; [by destruct c|]. intros id Hid. rewrite bool_decide_eq_false_2 by lia. by rewrite orb_false_r.
  - assert ((Z.land mask (u32 (Z.shiftl 1 i)) =? 0) = negb (Z.testbit mask i)) as ->.
    { rewrite wrap_small by (apply shiftl_1_in_width; lia). apply land_mask_0. lia. }
    rewrite negb_involutive. unfold SyscallMask.mask_bits, SetSvcAllowed, NumSupervisorCalls.
    rewrite wrap_small by (unfold in_width; lia). destruct (Z.testbit mask i) eqn:Eb.
    + rewrite (proj2 (Z.ltb_lt _ _)) by lia. cbn [negb].
      destruct (IH (i + 1) (with_svc (Z.setbit (m_svc_access_flags c) (24 * index + i)) c)) as (s & -> & Hs); try lia; [done|].
      exists s. split; [done|]. intros id Hid. rewrite Hs by done. cbn [m_svc_access_flags with_svc]. rewrite Z.setbit_eqb by lia.
      destruct (Z.eqb_spec (24 * index + i) id) as [<-|Hne].
      * rewrite (bool_decide_eq_true_2 (24 * index + i ≤ 24 * index + i < _)) by lia.
        replace (24 * index + i - 24 * index) with i by lia. rewrite Eb. simpl. by rewrite orb_true_r.
      * simpl. f_equal. f_equal. apply bool_decide_ext. lia.
    + destruct (IH (i + 1) c) as (s & -> & Hs); try lia; [done|]. exists s. split; [done|]. intros id Hid. rewrite Hs by done. f_equal.
      destruct (decide (id = 24 * index + i)) as [->|Hne].
      * replace (24 * index + i - 24 * index) with i by lia. by rewrite Eb, !andb_false_r.
      * f_equal. apply bool_decide_ext. lia.
Qed.

(** The system calls of a descriptor. *)
Definition svc_bits (cap : Z) : Z := Z.shiftl (SyscallMask.mask cap) (24 * SyscallMask.index cap).

Lemma SetSyscallMaskCapability_ok cap svc c :
  in_width 32 cap →
  ∃ r c', SetSyscallMaskCapability cap svc c = (r, if Result.IsError r then svc else Z.lor svc (Z.shiftl 1 (SyscallMask.index cap)), c')
    ∧ (Result.IsError r = false → Z.testbit svc (SyscallMask.index cap) = false
         ∧ c' = with_svc (Z.lor (m_svc_access_flags c) (svc_bits cap)) c).
Proof.
  intros Hcap. unfold SetSyscallMaskCapability.
  pose proof (field_range 5 24 cap ltac:(lia) ltac:(lia) ltac:(lia) Hcap) as H1. change (0 ≤ SyscallMask.mask cap < 2 ^ 24) in H1.
  pose proof (field_range 29 3 cap ltac:(lia) ltac:(lia) ltac:(lia) Hcap) as H2. fold (SyscallMask.index cap) in H2.
  rewrite wrap_small by (apply shiftl_1_in_width; lia). rewrite land_mask_0 by lia.
  destruct (Z.testbit svc (SyscallMask.index cap)); cbn [negb]; [by exists ResultInvalidCombination, c|].
  destruct (SetSyscallMask_loop_ok (Z.to_nat SyscallMask.mask_bits) 0 (SyscallMask.mask cap) (SyscallMask.index cap) c)
    as (s & -> & Hs); [done..|]. exists ResultSuccess, (with_svc s c). split; [done|]. intros _. split; [done|]. f_equal.
  apply testbit_ext. intros id Hid. rewrite Hs, Z.lor_spec by done. f_equal. unfold svc_bits. rewrite Z.shiftl_spec by lia.
  destruct (decide (24 * SyscallMask.index cap + 0 ≤ id < 24 * SyscallMask.index cap + 24)) as [Hr|Hr].
  - by rewrite bool_decide_eq_true_2 by done.
  - rewrite bool_decide_eq_false_2 by done. simpl. symmetry.
    destruct (Z_lt_le_dec (id - 24 * SyscallMask.index cap) 0); [by apply Z.testbit_neg_r|]. apply (testbit_high 24); [done|lia].
Qed.

(** The capabilities after a descriptor that is taken. *)
Definition grant (c : KCapabilities) (cap : Z) : KCapabilities :=
  let type := GetCapabilityType cap in
  if type =? CapabilityType.CorePriority then with_masks (core_bits cap) (phys_bits cap) (priority_bits cap) c
  else if type =? CapabilityType.SyscallMask then with_svc (Z.lor (m_svc_access_flags c) (svc_bits cap)) c
  else if type =? CapabilityType.ProgramType then with_program_type (ProgramType.type cap) c
  else if type =? CapabilityType.KernelVersion then with_version cap c
  else if type =? CapabilityType.HandleTable then with_handle_table_size (HandleTableSize.size cap) c
  else if type =? CapabilityType.DebugFlags then
    with_debug (DebugFlags.set_force_debug (DebugFlags.set_allow_debug (m_debug_capabilities c) (DebugFlags.allow_debug cap))
                  (DebugFlags.force_debug cap)) c
  else c.

(** What the code demands of a descriptor by itself. *)
Definition good_descriptor (cap : Z) : Prop :=
  let type := GetCapabilityType cap in
  (type = CapabilityType.CorePriority → good_masks cap)
  ∧ (type = CapabilityType.ProgramType → ProgramType.reserved cap = 0)
  ∧ (type = CapabilityType.KernelVersion → KernelVersion.major_version cap ≠ 0)
  ∧ (type = CapabilityType.HandleTable → HandleTableSize.reserved cap = 0)
  ∧ type ∈ [CapabilityType.CorePriority; CapabilityType.SyscallMask; CapabilityType.MapRange; CapabilityType.MapIoPage;
            CapabilityType.MapRegion; CapabilityType.InterruptPair; CapabilityType.ProgramType; CapabilityType.KernelVersion;
            CapabilityType.HandleTable; CapabilityType.DebugFlags; CapabilityType.Padding].

(** * Requests of the page table *)
Definition valid_range (a size : Z) : Prop := 0 ≤ a ∧ 0 < size ∧ a mod PageSize = 0 ∧ size mod PageSize = 0 ∧ a + size ≤ 2 ^ 36.
Definition valid_perm (perm : Z) : Prop := perm = KMemoryPermission.UserRead ∨ perm = KMemoryPermission.UserReadWrite.

(** A property of the page table that its operations keep, when they are asked for ranges within
    36 bits and for the regions of the boot image and the device tree. *)
Record kept_by_maps {T} `{PageTable T} (P : T → Prop) : Prop := {
  kb_static : ∀ a size perm t, valid_range a size → valid_perm perm → P t → P (MapStatic a size perm t).2;
  kb_io : ∀ a size perm t, valid_range a size → valid_perm perm → P t → P (MapIo a size perm t).2;
  kb_region : ∀ region perm t, region ∈ [m_value KMemoryRegionType_OnMemoryBootImage; m_value KMemoryRegionType_DTB] →
    valid_perm perm → P t → P (MapRegion_ region perm t).2;
}.

Lemma ProcessMapRegion_ok {S} (P : S → Prop) f l s :
  (∀ region perm s, region ∈ [m_value KMemoryRegionType_OnMemoryBootImage; m_value KMemoryRegionType_DTB] →
    valid_perm perm → P s → P (f region perm s).2) →
  P s → ∃ r s', ProcessMapRegion_loop f l s = Some (r, s') ∧ P s'.
Proof.
  intros Hf. revert s. induction l as [|[type ro] l IH]; intros s Hs; cbn [ProcessMapRegion_loop]; [by eexists _, _|].
  destruct (Z.eqb_spec type RegionType.NoMapping); [by apply IH|].
  destruct (Z.eqb_spec type RegionType.KernelTraceBuffer) as [->|]; cbn [andb orb negb IsKTraceEnabled]; [by apply IH|].
  set (perm := if negb (ro =? 0) then _ else _). assert (valid_perm perm) as Hperm by (unfold perm; destruct (negb _); [by left|by right]).
  assert (∀ region, region ∈ [m_value KMemoryRegionType_OnMemoryBootImage; m_value KMemoryRegionType_DTB] →
    ∃ r s', (let '(r, s) := f region perm s in if Result.IsError r then Some (r, s) else ProcessMapRegion_loop f l s) = Some (r, s') ∧ P s') as Hgo.
  { intros region Hr. specialize (Hf region perm s Hr Hperm Hs). destruct (f region perm s) as [r s']. destruct (Result.IsError r); [by eexists _, _|by apply IH]. }
  destruct (Z.eqb_spec type RegionType.OnMemoryBootImage) as [->|]; cbn [orb].
  - apply (Hgo (m_value KMemoryRegionType_OnMemoryBootImage)). by left.
  - destruct (Z.eqb_spec type RegionType.DTB) as [->|]; [|by eexists _, _]. apply (Hgo (m_value KMemoryRegionType_DTB)). right; by left.
Qed.

Lemma above_mask x : in_width 64 x → Z.land x (lnotw 64 PhysicalMapAllowedMask) = 0 → x < 2 ^ 36.
Proof.
  intros Hx Hz. destruct (Z_lt_le_dec x (2 ^ 36)) as [|Hge]; [done|]. exfalso.
  assert (0 < x) as Hpos by lia. pose proof (Z.log2_le_pow2 x 36 Hpos) as [Hl _]. specialize (Hl Hge).
  pose proof (Z.log2_lt_pow2 x 64 Hpos) as [Hu _]. destruct Hx as [_ Hx]. specialize (Hu Hx).
  assert (Z.testbit (Z.land x (lnotw 64 PhysicalMapAllowedMask)) (Z.log2 x) = true) as Ht; [|by rewrite Hz, Z.bits_0 in Ht].
  rewrite Z.land_spec, Z.bit_log2, lnotw_testbit by (done || lia). change PhysicalMapAllowedMask with (Z.ones 36).
  by rewrite Z.ones_spec_high by lia.
Qed.

Section parsing.
Context {T : Type} `{PageTable T} (P : T → Prop) (HP : kept_by_maps P).
Implicit Types (p : Parse T) (t : T).

Lemma pages_valid a n :
  0 ≤ a < 2 ^ 24 → 0 < n < 2 ^ 20 → u64 (a * PageSize) <? u64 (u64 (a * PageSize) + u64 (n * PageSize)) = true →
  Z.land (u64 (u64 (a * PageSize) + u64 (n * PageSize) - 1)) (lnotw 64 PhysicalMapAllowedMask) = 0 →
  valid_range (u64 (a * PageSize)) (u64 (n * PageSize)).
Proof using Type.
  intros Ha Hn _ Hz. unfold PageSize in *. rewrite (wrap_small 64 (a * 4096)), (wrap_small 64 (n * 4096)) in * by (unfold in_width; lia).
  rewrite wrap_small in Hz by (unfold in_width; lia). apply above_mask in Hz; [|unfold in_width; lia].
  unfold valid_range, PageSize. rewrite !Z.mod_mul by done. lia.
Qed.

Lemma MapRange_keeps cap size_cap t : in_width 32 cap → in_width 32 size_cap → P t → P (MapRange_ cap size_cap t).2.
Proof using HP.
  intros Hc Hs Ht. unfold MapRange_.
  pose proof (field_range 7 24 cap ltac:(lia) ltac:(lia) ltac:(lia) Hc) as H1. fold (MapRange.address cap) in H1.
  pose proof (field_range 7 20 size_cap ltac:(lia) ltac:(lia) ltac:(lia) Hs) as H2. fold (MapRangeSize.pages size_cap) in H2.
  destruct (negb (MapRangeSize.reserved size_cap =? 0)); [done|]. destruct (Z.eqb_spec (MapRangeSize.pages size_cap) 0); [done|]. cbn [negb].
  destruct (_ <? _) eqn:E1; [|done]. cbn [negb]. destruct (Z.land _ _ =? 0) eqn:E2; [|done]. apply Z.eqb_eq in E2. cbn [negb].
  pose proof (pages_valid _ (MapRangeSize.pages size_cap) H1 ltac:(lia) E1 E2) as Hv.
  assert (valid_perm (if negb (MapRange.read_only cap =? 0) then KMemoryPermission.UserRead else KMemoryPermission.UserReadWrite)) as Hp
    by (destruct (negb _); [by left|by right]).
  destruct (negb (MapRangeSize.normal _ =? 0)); [by apply (kb_static P HP)|by apply (kb_io P HP)].
Qed.

Lemma MapIoPage_keeps cap t : in_width 32 cap → P t → P (MapIoPage_ cap t).2.
Proof using HP.
  intros Hc Ht. unfold MapIoPage_.
  pose proof (field_range 8 24 cap ltac:(lia) ltac:(lia) ltac:(lia) Hc) as H1. fold (MapIoPage.address cap) in H1.
  destruct (_ <? _) eqn:E1; [|done]. cbn [negb]. destruct (Z.land _ _ =? 0) eqn:E2; [|done]. apply Z.eqb_eq in E2. cbn [negb].
  apply (kb_io P HP); [|by right|done]. apply (pages_valid _ 1 H1 ltac:(lia) E1 E2).
Qed.

(** ** One descriptor *)
Record taken p cap p' : Prop := {
  tk_good : good_descriptor cap;
  tk_parsed : parsed p' = grant (parsed p) cap;
  tk_core : GetCapabilityType cap = CapabilityType.CorePriority → m_core_mask (parsed p) = 0;
  tk_flags : ∀ k, 0 ≤ k < 32 → Z.testbit (set_flags p') k
    = Z.testbit (set_flags p) k || bool_decide (GetCapabilityType cap = 2 ^ k - 1 ∧ GetCapabilityType cap ≠ CapabilityType.MapRange);
  tk_once : ∀ k, 0 ≤ k < 32 → GetCapabilityType cap = 2 ^ k - 1 → Z.testbit InitializeOnceFlags k = true →
    Z.testbit (set_flags p) k = false;
  tk_svc : ∀ i, 0 ≤ i → Z.testbit (set_svc p') i
    = Z.testbit (set_svc p) i || bool_decide (GetCapabilityType cap = CapabilityType.SyscallMask ∧ SyscallMask.index cap = i);
  tk_index : GetCapabilityType cap = CapabilityType.SyscallMask → Z.testbit (set_svc p) (SyscallMask.index cap) = false;
}.

Lemma pow2_type_inj k k' : 0 ≤ k → 0 ≤ k' → 2 ^ k - 1 = 2 ^ k' - 1 → k = k'.
Proof using Type. intros ?? E. apply (Z.pow_inj_r 2); lia. Qed.

(** A descriptor is taken when its part of the state is. *)
Lemma taken_intro p cap k c' t' svc' :
  0 < k < 32 → GetCapabilityType cap = 2 ^ k - 1 → 2 ^ k - 1 ≠ CapabilityType.MapRange →
  Z.land (Z.land (set_flags p) InitializeOnceFlags) (GetCapabilityFlag (2 ^ k - 1)) = 0 →
  good_descriptor cap → c' = grant (parsed p) cap →
  (2 ^ k - 1 = CapabilityType.CorePriority → m_core_mask (parsed p) = 0) →
  (if bool_decide (2 ^ k - 1 = CapabilityType.SyscallMask)
   then Z.testbit (set_svc p) (SyscallMask.index cap) = false ∧ 0 ≤ SyscallMask.index cap
        ∧ svc' = Z.lor (set_svc p) (Z.shiftl 1 (SyscallMask.index cap)) else svc' = set_svc p) →
  taken p cap (MkParse (Z.lor (set_flags p) (GetCapabilityFlag (2 ^ k - 1))) svc' c' t').
Proof using Type.
  intros Hk Ht Hr Hz Hg -> Hc Hs.
  assert (GetCapabilityFlag (2 ^ k - 1) = Z.shiftl 1 k) as Ef.
  { unfold GetCapabilityFlag. rewrite Z.shiftl_1_l, wrap_small; [lia|]. pose proof (Z.pow_lt_mono_r 2 k 32 ltac:(lia) ltac:(lia) ltac:(lia)). unfold in_width. lia. }
  rewrite Ef in *. apply Z.eqb_eq in Hz. rewrite land_mask_0, negb_true_iff, Z.land_spec in Hz by lia.
  split; cbn [set_flags set_svc parsed]; rewrite ?Ht; try done.
  - intros k' Hk'. rewrite Z.lor_spec, shiftl_1_testbit by lia. f_equal. apply bool_decide_ext. split; [by intros ->|].
    intros [E _]. symmetry. apply (pow2_type_inj k k'); lia.
  - intros k' Hk' E Ho. apply pow2_type_inj in E as <-; [|lia..]. by rewrite Ho, andb_true_r in Hz.
  - intros i Hi. destruct (bool_decide_reflect (2 ^ k - 1 = CapabilityType.SyscallMask)) as [E|E].
    + destruct Hs as (_ & Hi0 & ->). rewrite Z.lor_spec, shiftl_1_testbit by lia. f_equal. apply bool_decide_ext. split; [by intros ->|by intros [_ ->]].
    + rewrite Hs. rewrite bool_decide_eq_false_2 by tauto. by rewrite orb_false_r.
  - intros E. rewrite bool_decide_eq_true_2 in Hs by exact E. apply Hs.
Qed.

Lemma taken_padding p cap : GetCapabilityType cap = CapabilityType.Padding → taken p cap p.
Proof using Type.
  intros E. assert (∀ k, 0 ≤ k < 32 → CapabilityType.Padding ≠ 2 ^ k - 1) as Hne.
  { intros k Hk. change CapabilityType.Padding with (2 ^ 32 - 1). intros E'. apply pow2_type_inj in E'; lia. }
  split; rewrite ?E; try done.
  - unfold good_descriptor. rewrite E. split_and!; try done. rewrite !elem_of_cons. tauto.
  - unfold grant. by rewrite E.
  - intros k Hk. rewrite bool_decide_eq_false_2; [by rewrite orb_false_r|]. intros [E' _]. by apply (Hne k).
  - intros k Hk E'. exfalso. by apply (Hne k).
  - intros i Hi. rewrite bool_decide_eq_false_2; [by rewrite orb_false_r|]. by intros [E' _].
Qed.

(** A part of the state changes and the rest stays. *)
Ltac descriptor E := unfold good_descriptor; rewrite E; split_and!; try done; rewrite !elem_of_cons; tauto.
Ltac taken_here Htk E :=
  eexists _, _; split; [done|]; split; [done|]; intros _; apply Htk; [descriptor E|by unfold grant; rewrite E|by rewrite E|done].

Lemma SetCapability_ok cap p :
  in_width 32 cap → GetCapabilityType cap ≠ CapabilityType.MapRange → P (table p) →
  ∃ r p', SetCapability cap p = Some (r, p') ∧ P (table p') ∧ (Result.IsError r = false → taken p cap p').
Proof using HP.
  intros Hcap Hnr Hp. unfold SetCapability. destruct (GetCapabilityType_shape cap Hcap) as (k & Hk & Ek).
  destruct (Z.eqb_spec (GetCapabilityType cap) CapabilityType.Invalid) as [|Hni]; [by eexists _, _|]. cbn [negb].
  destruct (Z.eqb_spec (GetCapabilityType cap) CapabilityType.Padding) as [Epad|Hnp].
  { exists ResultSuccess, p. split; [done|]. split; [done|]. intros _. by apply taken_padding. }
  assert (0 < k < 32) as Hk'.
  { destruct (Z.eq_dec k 0) as [->|]; [done|]. destruct (Z.eq_dec k 32) as [->|]; [done|]. lia. }
  destruct (Z.eqb_spec (Z.land (Z.land (set_flags p) InitializeOnceFlags) (GetCapabilityFlag (GetCapabilityType cap))) 0) as [Hz|];
    [|by eexists _, _]. cbn [negb].
  assert (∀ c' t' svc', good_descriptor cap → c' = grant (parsed p) cap →
    (GetCapabilityType cap = CapabilityType.CorePriority → m_core_mask (parsed p) = 0) →
    (if bool_decide (GetCapabilityType cap = CapabilityType.SyscallMask)
     then Z.testbit (set_svc p) (SyscallMask.index cap) = false ∧ 0 ≤ SyscallMask.index cap
          ∧ svc' = Z.lor (set_svc p) (Z.shiftl 1 (SyscallMask.index cap)) else svc' = set_svc p) →
    taken p cap (MkParse (Z.lor (set_flags p) (GetCapabilityFlag (GetCapabilityType cap))) svc' c' t')) as Htk.
  { intros c' t' svc' Hg Hc' Hcore Hs. rewrite Ek in Hz, Hcore, Hs, Hnr |- *. by apply (taken_intro p cap k). }
  clear Hz Ek. cbn [parsed table set_svc set_flags].
  destruct (Z.eqb_spec (GetCapabilityType cap) CapabilityType.CorePriority) as [E|_].
  { destruct (SetCorePriorityCapability_ok cap (parsed p) Hcap) as (r & c' & -> & Hr). eexists _, _. split; [done|]. split; [done|].
    intros (Hc & _ & Hm & ->)%Hr. apply Htk; [descriptor E|by unfold grant; rewrite E|done|by rewrite E]. }
  destruct (Z.eqb_spec (GetCapabilityType cap) CapabilityType.SyscallMask) as [E|Hnsvc].
  { destruct (SetSyscallMaskCapability_ok cap (set_svc p) (parsed p) Hcap) as (r & c' & -> & Hr). eexists _, _. split; [done|]. split; [done|].
    intros He. rewrite He. destruct (Hr He) as [Hs ->]. apply Htk; [descriptor E|by unfold grant; rewrite E|by rewrite E|].
    rewrite bool_decide_eq_true_2 by done. split; [done|]. split; [|done].
    apply (field_range 29 3 cap ltac:(lia) ltac:(lia) ltac:(lia) Hcap). }
  rewrite bool_decide_eq_false_2 in Htk by done.
  destruct (Z.eqb_spec (GetCapabilityType cap) CapabilityType.MapIoPage) as [E|_].
  { eexists _, _. split; [done|]. split; [by apply MapIoPage_keeps|]. intros _. apply Htk; [descriptor E|by unfold grant; rewrite E|by rewrite E|done]. }
  destruct (Z.eqb_spec (GetCapabilityType cap) CapabilityType.MapRegion) as [E|_].
  { destruct (ProcessMapRegion_ok P MapRegion_ [(MapRegion.region0 cap, MapRegion.read_only0 cap); (MapRegion.region1 cap, MapRegion.read_only1 cap);
      (MapRegion.region2 cap, MapRegion.read_only2 cap)] (table p) (kb_region P HP) Hp) as (r & t' & Hm & Ht').
    unfold MapRegionCapability, ProcessMapRegionCapability. cbn [table]. rewrite Hm. eexists _, _. split; [done|]. split; [done|].
    intros _. apply Htk; [descriptor E|by unfold grant; rewrite E|by rewrite E|done]. }
  destruct (Z.eqb_spec (GetCapabilityType cap) CapabilityType.InterruptPair) as [E|_].
  { taken_here Htk E. }
  destruct (Z.eqb_spec (GetCapabilityType cap) CapabilityType.ProgramType) as [E|_].
  { unfold SetProgramTypeCapability. destruct (Z.eqb_spec (ProgramType.reserved cap) 0) as [Hres|]; [|by eexists _, _]. cbn [negb].
    taken_here Htk E. }
  destruct (Z.eqb_spec (GetCapabilityType cap) CapabilityType.KernelVersion) as [E|_].
  { unfold SetKernelVersionCapability. cbn [parsed]. destruct (_ =? 0); [|by eexists _, _]. cbn [negb with_version m_intended_kernel_version].
    destruct (Z.eqb_spec (KernelVersion.major_version cap) 0) as [|Hmaj]; [by eexists _, _|]. cbn [negb].
    taken_here Htk E. }
  destruct (Z.eqb_spec (GetCapabilityType cap) CapabilityType.HandleTable) as [E|_].
  { unfold SetHandleTableCapability. destruct (Z.eqb_spec (HandleTableSize.reserved cap) 0) as [Hres|]; [|by eexists _, _]. cbn [negb].
    taken_here Htk E. }
  destruct (Z.eqb_spec (GetCapabilityType cap) CapabilityType.DebugFlags) as [E|_]; [|by eexists _, _].
  taken_here Htk E.
Qed.

(** ** All descriptors *)
Definition of_type (type : Z) (caps : list Z) : list Z := filter (λ cap, GetCapabilityType cap = type) caps.

Lemma of_type_cons type cap caps :
  of_type type (cap :: caps) = if decide (GetCapabilityType cap = type) then cap :: of_type type caps else of_type type caps.
Proof using Type. done. Qed.

Record all_taken p caps p' : Prop := {
  at_good : Forall good_descriptor caps;
  at_parsed : parsed p' = foldl grant (parsed p) caps;
  at_core : ∀ cap, of_type CapabilityType.CorePriority caps = [cap] → m_core_mask (parsed p) = 0;
  at_once : ∀ k, 0 ≤ k < 32 → Z.testbit InitializeOnceFlags k = true →
    (length (of_type (2 ^ k - 1) caps) ≤ if Z.testbit (set_flags p) k then 0 else 1)%nat;
  at_index : NoDup (map SyscallMask.index (of_type CapabilityType.SyscallMask caps))
    ∧ ∀ cap, cap ∈ of_type CapabilityType.SyscallMask caps → Z.testbit (set_svc p) (SyscallMask.index cap) = false;
}.

Lemma all_taken_nil p : all_taken p [] p.
Proof using Type. split; try done; [intros; cbn; lia|]. split; [constructor|]. intros cap Hc. by apply not_elem_of_nil in Hc. Qed.

(** The types that may come once are not that of a range. *)
Lemma once_not_range k : Z.testbit InitializeOnceFlags k = true → 2 ^ k - 1 ≠ CapabilityType.MapRange.
Proof using Type.
  intros Ho E. change CapabilityType.MapRange with (2 ^ 6 - 1) in E. destruct (Z_lt_le_dec k 0); [by rewrite Z.testbit_neg_r in Ho|].
  apply pow2_type_inj in E as ->; [|lia..]. done.
Qed.

Lemma all_taken_range p t' cap caps p' :
  GetCapabilityType cap = CapabilityType.MapRange → all_taken (MkParse (set_flags p) (set_svc p) (parsed p) t') caps p' →
  all_taken p (cap :: caps) p'.
Proof using Type.
  intros E [Hg Hp Hc Ho Hi]. cbn [set_flags set_svc parsed] in *.
  assert (∀ ty, ty ≠ CapabilityType.MapRange → of_type ty (cap :: caps) = of_type ty caps) as Hof.
  { intros ty Hty. rewrite of_type_cons, decide_False; [done|]. congruence. }
  split; rewrite ?Hof by done; try done.
  - constructor; [|done]. descriptor E.
  - rewrite Hp. cbn [foldl]. f_equal. unfold grant. by rewrite E.
  - intros k Hk Hk'. rewrite Hof by (by apply once_not_range). by apply Ho.
Qed.

Lemma grant_core c cap : GetCapabilityType cap ≠ CapabilityType.CorePriority → m_core_mask (grant c cap) = m_core_mask c.
Proof using Type.
  intros Hn. unfold grant. rewrite (proj2 (Z.eqb_neq _ _) Hn). repeat (destruct (_ =? _); [done|]). done.
Qed.

Lemma all_taken_cons p cap p1 caps p' :
  GetCapabilityType cap ≠ CapabilityType.MapRange → in_width 32 cap → taken p cap p1 → all_taken p1 caps p' → all_taken p (cap :: caps) p'.
Proof using Type.
  intros Hnr Hw [Hg Hp Hc Hf Ho Hs Hi] [Hg' Hp' Hc' Ho' [Hi1 Hi2]].
  pose proof (field_range 29 3 cap ltac:(lia) ltac:(lia) ltac:(lia) Hw) as Hx. change (0 ≤ SyscallMask.index cap < 8) in Hx. split.
  - by constructor.
  - rewrite Hp', Hp. done.
  - intros cap' Hcap. rewrite of_type_cons in Hcap. destruct (decide _) as [E|E]; [by apply Hc|].
    apply Hc' in Hcap. by rewrite Hp, grant_core in Hcap.
  - intros k Hk Hk'. specialize (Ho' k Hk Hk'). rewrite Hf in Ho' by done. rewrite of_type_cons.
    destruct (decide _) as [E|E].
    + rewrite (Ho k Hk E Hk') in *. rewrite bool_decide_eq_true_2 in Ho' by done. cbn [orb length] in *. lia.
    + rewrite bool_decide_eq_false_2, orb_false_r in Ho' by tauto. done.
  - rewrite of_type_cons. destruct (decide _) as [E|E].
    + assert (∀ cap', cap' ∈ of_type CapabilityType.SyscallMask caps → SyscallMask.index cap' ≠ SyscallMask.index cap
        ∧ Z.testbit (set_svc p) (SyscallMask.index cap') = false) as Hrest.
      { intros cap' Hin. specialize (Hi2 cap' Hin). destruct (Z_lt_le_dec (SyscallMask.index cap') 0).
        { split; [lia|by apply Z.testbit_neg_r]. }
        rewrite Hs in Hi2 by done. apply orb_false_iff in Hi2 as [Hi2 Hb]. apply bool_decide_eq_false in Hb. split; [|done]. intros Ei. by apply Hb. }
      split.
      * cbn [map]. constructor; [|done]. intros Hin. apply list_elem_of_fmap in Hin as (cap' & Ei & Hin). by destruct (Hrest cap' Hin) as [[]].
      * intros cap' [->|Hin]%elem_of_cons; [by apply Hi|by apply Hrest].
    + split; [done|]. intros cap' Hin. specialize (Hi2 cap' Hin). destruct (Z_lt_le_dec (SyscallMask.index cap') 0); [by apply Z.testbit_neg_r|].
      rewrite Hs in Hi2 by done. by apply orb_false_iff in Hi2 as [Hi2 _].
Qed.

Lemma SetCapabilities_loop_ok caps p :
  Forall (in_width 32) caps → P (table p) →
  ∃ r p', SetCapabilities_loop caps p = Some (r, p') ∧ P (table p') ∧ (Result.IsError r = false → all_taken p caps p').
Proof using HP.
  remember (length caps) as n eqn:En. revert caps En p. induction (lt_wf n) as [n _ IH]. intros caps -> p Hw Hp.
  destruct caps as [|cap caps]; cbn [SetCapabilities_loop].
  { exists ResultSuccess, p. split; [done|]. split; [done|]. intros _. apply all_taken_nil. }
  apply Forall_cons in Hw as [Hcap Hw]. destruct (Z.eqb_spec (GetCapabilityType cap) CapabilityType.MapRange) as [E|E].
  - destruct caps as [|size_cap caps]; [by eexists _, _|]. apply Forall_cons in Hw as [Hsize Hw].
    destruct (Z.eqb_spec (GetCapabilityType size_cap) CapabilityType.MapRange) as [E'|]; [|by eexists _, _]. cbn [negb].
    pose proof (MapRange_keeps cap size_cap (table p) Hcap Hsize Hp) as Hk. unfold on_table.
    destruct (MapRange_ cap size_cap (table p)) as [r t']. cbn [fst snd] in *. destruct (Result.IsError r) eqn:Er; [eexists _, _; split; [done|]; split; [done|congruence]|].
    destruct (IH (length caps) ltac:(simpl; lia) caps eq_refl (MkParse (set_flags p) (set_svc p) (parsed p) t') Hw Hk) as (r' & p' & -> & Hp' & Hr).
    exists r', p'. split; [done|]. split; [done|]. intros He. apply (all_taken_range p t'); [done|]. apply (all_taken_range _ t'); [done|]. by apply Hr.
  - destruct (SetCapability_ok cap p Hcap E Hp) as (r & p1 & -> & Hp1 & Hr). cbn [mbind option_bind].
    destruct (Result.IsError r) eqn:Er; [eexists _, _; split; [done|]; split; [done|congruence]|].
    destruct (IH (length caps) ltac:(simpl; lia) caps eq_refl p1 Hw Hp1) as (r' & p' & -> & Hp' & Hr').
    exists r', p'. split; [done|]. split; [done|]. intros He. eapply all_taken_cons; [done|done|by apply Hr|by apply Hr'].
Qed.
End parsing.

(** ** Ranges come in pairs *)

(** Each descriptor of a range is followed by that of its size, which has pages and no reserved bit. *)
Fixpoint paired (caps : list Z) : Prop :=
  match caps with
  | [] => True
  | cap :: caps =>
      if GetCapabilityType cap =? CapabilityType.MapRange then
        match caps with
        | [] => False
        | size_cap :: caps =>
            GetCapabilityType size_cap = CapabilityType.MapRange ∧ MapRangeSize.reserved size_cap = 0
            ∧ MapRangeSize.pages size_cap ≠ 0 ∧ paired caps
        end
      else paired caps
  end.

Lemma MapRange_good {T} `{PageTable T} cap size_cap t :
  Result.IsError (fst (MapRange_ cap size_cap t)) = false → MapRangeSize.reserved size_cap = 0 ∧ MapRangeSize.pages size_cap ≠ 0.
Proof.
  unfold MapRange_. destruct (Z.eqb_spec (MapRangeSize.reserved size_cap) 0); [|done]. cbn [negb].
  by destruct (Z.eqb_spec (MapRangeSize.pages size_cap) 0).
Qed.

Lemma SetCapabilities_loop_paired {T} `{PageTable T} caps p r p' :
  SetCapabilities_loop caps p = Some (r, p') → Result.IsError r = false → paired caps.
Proof.
  remember (length caps) as n eqn:En. revert caps En p. induction (lt_wf n) as [n _ IH]. intros caps -> p E Hr.
  destruct caps as [|cap caps]; [done|]. cbn [SetCapabilities_loop] in E. cbn [paired].
  destruct (GetCapabilityType cap =? CapabilityType.MapRange).
  - destruct caps as [|size_cap caps]; [by injection E as <- _|].
    destruct (Z.eqb_spec (GetCapabilityType size_cap) CapabilityType.MapRange) as [Es|]; [|by injection E as <- _]. cbn [negb] in E.
    pose proof (MapRange_good cap size_cap (table p)) as Hg. unfold on_table in E. destruct (MapRange_ cap size_cap (table p)) as [r1 t1].
    cbn [fst snd] in *. destruct (Result.IsError r1) eqn:Er; [injection E as <- _; congruence|].
    destruct (Hg eq_refl). split_and!; try done. by eapply (IH (length caps)); [simpl; lia|..].
  - apply bind_Some in E as ([r1 p1] & _ & E). destruct (Result.IsError r1) eqn:Er; [injection E as <- _; congruence|].
    by eapply (IH (length caps)); [simpl; lia|..].
Qed.

(** * What the parsed capabilities are *)

(** [f] of the descriptor of the type, [d] when there is none. *)
Definition sole {A} (type : Z) (caps : list Z) (d : A) (f : Z → A) : option A :=
  match of_type type caps with
  | [] => Some d
  | [cap] => Some (f cap)
  | _ => None
  end.

Lemma fold_sole {A} (π : KCapabilities → A) (Q : KCapabilities → Prop) type f caps c :
  (∀ c cap, GetCapabilityType cap ≠ type → π (grant c cap) = π c) →
  (∀ c cap, Q c → in_width 32 cap → GetCapabilityType cap = type → π (grant c cap) = f cap) →
  (∀ c cap, Q c → Q (grant c cap)) → Q c → Forall (in_width 32) caps → (length (of_type type caps) ≤ 1)%nat →
  sole type caps (π c) f = Some (π (foldl grant c caps)).
Proof.
  intros Hne He HQ. revert c. induction caps as [|cap caps IH]; intros c Hc Hw Hl; [done|].
  apply Forall_cons in Hw as [Hcap Hw]. specialize (IH (grant c cap) (HQ c cap Hc) Hw). cbn [foldl]. unfold sole in *.
  rewrite of_type_cons in *. destruct (decide _) as [E|E].
  - cbn [length] in Hl. destruct (of_type type caps) as [|]; [|simpl in Hl; lia]. rewrite <-(He c cap) by done. apply IH. simpl. lia.
  - rewrite <-(Hne c cap) by done. by apply IH.
Qed.

(** A field that only the descriptors of one type change. *)
Ltac field_of :=
  intros; unfold grant;
  repeat (match goal with |- context [if ?a =? ?b then _ else _] => destruct (Z.eqb_spec a b); [first [done|congruence]|] end); done.
Ltac field_set := intros ? ? _ _ E; unfold grant; by rewrite E.

Lemma fold_svc caps c id :
  0 ≤ id →
  Z.testbit (m_svc_access_flags (foldl grant c caps)) id = true
  ↔ Z.testbit (m_svc_access_flags c) id = true ∨ ∃ cap, cap ∈ of_type CapabilityType.SyscallMask caps ∧ Z.testbit (svc_bits cap) id = true.
Proof.
  intros Hid. revert c. induction caps as [|cap caps IH]; intros c; cbn [foldl].
  { split; [by left|]. intros [?|(cap & Hin & _)]; [done|by apply not_elem_of_nil in Hin]. }
  rewrite IH, of_type_cons. destruct (decide _) as [E|E].
  - assert (m_svc_access_flags (grant c cap) = Z.lor (m_svc_access_flags c) (svc_bits cap)) as -> by (unfold grant; by rewrite E).
    rewrite Z.lor_spec, orb_true_iff. setoid_rewrite elem_of_cons. naive_solver.
  - assert (m_svc_access_flags (grant c cap) = m_svc_access_flags c) as -> by field_of. done.
Qed.

Lemma fold_irq caps c : m_irq_access_flags (foldl grant c caps) = m_irq_access_flags c.
Proof.
  revert c. induction caps as [|cap caps IH]; intros c; [done|]. cbn [foldl]. rewrite IH. field_of.
Qed.

(** [c'] is what the descriptors say, starting from [c]. *)
Record granted (caps : list Z) (c c' : KCapabilities) : Prop := {
  gr_good : Forall good_descriptor caps;
  gr_svc : ∀ id, 0 ≤ id → IsPermittedSvc id c' = true
    ↔ Z.testbit (m_svc_access_flags c) id = true ∧ id < 192
      ∨ ∃ cap i, cap ∈ of_type CapabilityType.SyscallMask caps ∧ 0 ≤ i < 24 ∧ Z.testbit (SyscallMask.mask cap) i = true
          ∧ id = 24 * SyscallMask.index cap + i;
  gr_index : NoDup (map SyscallMask.index (of_type CapabilityType.SyscallMask caps));
  gr_irq : m_irq_access_flags c' = m_irq_access_flags c;
  gr_core : sole CapabilityType.CorePriority caps (m_core_mask c) core_bits = Some (m_core_mask c');
  gr_phys : sole CapabilityType.CorePriority caps (m_phys_core_mask c) phys_bits = Some (m_phys_core_mask c');
  gr_phys_of : ∀ cap, cap ∈ of_type CapabilityType.CorePriority caps → m_core_mask c = 0 ∧ physical_of (core_bits cap) (phys_bits cap);
  gr_priority : sole CapabilityType.CorePriority caps (m_priority_mask c) priority_bits = Some (m_priority_mask c');
  gr_size : sole CapabilityType.HandleTable caps (m_handle_table_size c) HandleTableSize.size = Some (m_handle_table_size c');
  gr_version : sole CapabilityType.KernelVersion caps (m_intended_kernel_version c) id = Some (m_intended_kernel_version c');
  gr_program : sole CapabilityType.ProgramType caps (m_program_type c) ProgramType.type = Some (m_program_type c');
  gr_allow : sole CapabilityType.DebugFlags caps (IsPermittedDebug c) (λ cap, negb (DebugFlags.allow_debug cap =? 0)) = Some (IsPermittedDebug c');
  gr_force : sole CapabilityType.DebugFlags caps (CanForceDebug c) (λ cap, negb (DebugFlags.force_debug cap =? 0)) = Some (CanForceDebug c');
}.

Lemma svc_bits_testbit cap id : in_width 32 cap → 0 ≤ id →
  Z.testbit (svc_bits cap) id = true
  ↔ ∃ i, 0 ≤ i < 24 ∧ Z.testbit (SyscallMask.mask cap) i = true ∧ id = 24 * SyscallMask.index cap + i.
Proof.
  intros Hw Hid. unfold svc_bits. rewrite Z.shiftl_spec by done.
  pose proof (field_range 5 24 cap ltac:(lia) ltac:(lia) ltac:(lia) Hw) as H1. change (0 ≤ SyscallMask.mask cap < 2 ^ 24) in H1. split.
  - intros Ht. exists (id - 24 * SyscallMask.index cap). split; [|split; [done|lia]].
    destruct (Z_lt_le_dec (id - 24 * SyscallMask.index cap) 0); [by rewrite Z.testbit_neg_r in Ht|].
    destruct (Z_lt_le_dec (id - 24 * SyscallMask.index cap) 24); [lia|]. by rewrite (testbit_high 24) in Ht.
  - intros (i & Hi & Ht & ->). by replace (24 * SyscallMask.index cap + i - 24 * SyscallMask.index cap) with i by lia.
Qed.

Lemma good_phys cap : in_width 32 cap → good_masks cap → physical_of (core_bits cap) (phys_bits cap).
Proof.
  intros Hw [[H1 H2] _].
  pose proof (field_range 16 8 cap ltac:(lia) ltac:(lia) ltac:(lia) Hw) as H3. change (0 ≤ CorePriority.minimum_core_id cap < 2 ^ 8) in H3.
  unfold phys_bits. destruct (Convert_ok (core_bits cap)) as (p & -> & Hp); [apply bit_range_width; lia|done].
Qed.

Lemma debug_bits c cap : in_width 32 (m_debug_capabilities c) → in_width 32 cap → GetCapabilityType cap = CapabilityType.DebugFlags →
  DebugFlags.allow_debug (m_debug_capabilities (grant c cap)) = DebugFlags.allow_debug cap
  ∧ DebugFlags.force_debug (m_debug_capabilities (grant c cap)) = DebugFlags.force_debug cap.
Proof.
  intros Hd Hw E. unfold grant. rewrite E. cbn [m_debug_capabilities with_debug].
  pose proof (field_range 17 1 cap ltac:(lia) ltac:(lia) ltac:(lia) Hw) as H1. pose proof (field_range 18 1 cap ltac:(lia) ltac:(lia) ltac:(lia) Hw) as H2.
  change (m_debug_capabilities _) with (DebugFlags.set_force_debug (DebugFlags.set_allow_debug (m_debug_capabilities c) (DebugFlags.allow_debug cap)) (DebugFlags.force_debug cap)).
  unfold DebugFlags.set_force_debug, DebugFlags.set_allow_debug, DebugFlags.allow_debug, DebugFlags.force_debug in *. split.
  - rewrite BitField.ExtractValue_Assign_ne; try lia; [|by apply BitField.Assign_range]. by apply BitField.ExtractValue_Assign.
  - apply BitField.ExtractValue_Assign; try lia; [by apply BitField.Assign_range|done].
Qed.

Lemma debug_width c cap : in_width 32 (m_debug_capabilities c) → in_width 32 (m_debug_capabilities (grant c cap)).
Proof.
  intros Hd. unfold grant. repeat (destruct (_ =? _); [try done|]); [|done]. cbn [m_debug_capabilities with_debug].
  unfold DebugFlags.set_force_debug, DebugFlags.set_allow_debug. by repeat (apply BitField.Assign_range; [lia..|]).
Qed.

Lemma granted_intro {T} (p p' : Parse T) caps :
  set_flags p = 0 → in_width 32 (m_debug_capabilities (parsed p)) → Forall (in_width 32) caps → all_taken p caps p' →
  granted caps (parsed p) (parsed p').
Proof.
  intros Hf Hd Hw [Hg Hp Hc Ho [Hi _]].
  assert (∀ k, 0 ≤ k < 32 → Z.testbit InitializeOnceFlags k = true → (length (of_type (2 ^ k - 1) caps) ≤ 1)%nat) as Hone.
  { intros k Hk Hk'. specialize (Ho k Hk Hk'). by rewrite Hf, Z.bits_0 in Ho. }
  rewrite Forall_forall in Hw.
  assert (∀ cap ty, cap ∈ of_type ty caps → GetCapabilityType cap = ty ∧ in_width 32 cap ∧ good_descriptor cap) as Hin.
  { intros cap ty Hc'. apply list_elem_of_filter in Hc' as [E Hc']. rewrite Forall_forall in Hg. by split_and!; [|apply Hw|apply Hg]. }
  rewrite <-Forall_forall in Hw. rewrite Hp. split; try done.
  - intros id Hid. unfold IsPermittedSvc, NumSupervisorCalls. rewrite andb_true_iff, Z.ltb_lt, fold_svc by done. split.
    + intros [Hlt [H|(cap & Hc' & Ht)]]; [by left|right]. apply svc_bits_testbit in Ht as (i & Hi' & Ht & ->); [|by apply (Hin _ _ Hc')|done].
      by exists cap, i.
    + intros [[H Hlt]|(cap & i & Hc' & Hi' & Ht & ->)]; [by split; [|left]|]. destruct (Hin _ _ Hc') as (_ & Hwc & _).
      pose proof (field_range 29 3 cap ltac:(lia) ltac:(lia) ltac:(lia) Hwc) as Hx. change (0 ≤ SyscallMask.index cap < 8) in Hx.
      split; [lia|]. right. exists cap. split; [done|]. apply svc_bits_testbit; [done..|]. by exists i.
  - apply fold_irq.
  - apply (fold_sole _ (λ _, True)); try done; [field_of|field_set|by apply (Hone 3)].
  - apply (fold_sole _ (λ _, True)); try done; [field_of|field_set|by apply (Hone 3)].
  - intros cap Hc'. destruct (Hin _ _ Hc') as (E & Hwc & Hgc). split; [|apply good_phys; [done|by apply Hgc]].
    apply (Hc cap). specialize (Hone 3 ltac:(lia) eq_refl). change (2 ^ 3 - 1) with CapabilityType.CorePriority in Hone.
    destruct (of_type CapabilityType.CorePriority caps) as [|x [|]]; [by apply not_elem_of_nil in Hc'| |simpl in Hone; lia].
    by apply list_elem_of_singleton in Hc' as ->.
  - apply (fold_sole _ (λ _, True)); try done; [field_of|field_set|by apply (Hone 3)].
  - apply (fold_sole _ (λ _, True)); try done; [field_of|field_set|by apply (Hone 15)].
  - apply (fold_sole _ (λ _, True)); try done; [field_of|field_set|by apply (Hone 14)].
  - apply (fold_sole _ (λ _, True)); try done; [field_of|field_set|by apply (Hone 13)].
  - apply (fold_sole _ (λ c, in_width 32 (m_debug_capabilities c))); try done;
      [unfold IsPermittedDebug; intros; f_equal; f_equal; f_equal; field_of| |intros; by apply debug_width|by apply (Hone 16)].
    intros c' cap Hc' Hwc E. unfold IsPermittedDebug. by rewrite (proj1 (debug_bits c' cap Hc' Hwc E)).
  - apply (fold_sole _ (λ c, in_width 32 (m_debug_capabilities c))); try done;
      [unfold CanForceDebug; intros; f_equal; f_equal; f_equal; field_of| |intros; by apply debug_width|by apply (Hone 16)].
    intros c' cap Hc' Hwc E. unfold CanForceDebug. by rewrite (proj2 (debug_bits c' cap Hc' Hwc E)).
Qed.

(** * The properties *)

(** C31: Reading the descriptors of a user program always returns, and when it succeeds the
    capabilities are exactly what the descriptors say: a system call is permitted if and only if
    one of the masks has it, the cores, priorities, sizes and flags are those of the one
    descriptor of their type (or the initial ones), no interrupt is permitted and no mask comes
    twice. Every descriptor is of a known type, a kernel version is not 0, ranges come in
    pairs, and the reserved bits of program types, handle tables and the sizes of ranges are 0;
    those of debug flags are not looked at. *)
Theorem InitializeForUser_correct {T} `{PageTable T} caps c t :
  Forall (in_width 32) caps →
  ∃ r p, InitializeForUser caps c t = Some (r, p)
    ∧ (Result.IsError r = false →
        granted caps (MkCapabilities 0 0 0 (m_phys_core_mask c) 0 0 0 0 0) (parsed p) ∧ paired caps).
Proof.
  intros Hw. unfold InitializeForUser, SetCapabilities. set (c0 := MkCapabilities _ _ _ _ _ _ _ _ _).
  destruct (SetCapabilities_loop_ok (λ _, True) ltac:(by split) caps (MkParse 0 0 c0 t) Hw I) as (r & p & Hr & _ & Hok).
  exists r, p. split; [done|]. intros He. split; [|by eapply SetCapabilities_loop_paired].
  by apply (granted_intro (MkParse 0 0 c0 t) p caps eq_refl); [|done|apply Hok].
Qed.

(** An initial process may use every core and the priorities from 4 on: its descriptors are read
    likewise, but none of them may be of cores and priorities or of a kernel version. *)
Theorem InitializeForKip_correct {T} `{PageTable T} caps c t :
  Forall (in_width 32) caps →
  ∃ r p, InitializeForKip caps c t = Some (r, p)
    ∧ (Result.IsError r = false →
        of_type CapabilityType.CorePriority caps = []
        ∧ (∀ i, 0 ≤ i < 64 → Z.testbit (m_core_mask (parsed p)) i = true ∧ Z.testbit (m_priority_mask (parsed p)) i = (4 <=? i))
        ∧ (∀ i, 0 ≤ i → Z.testbit (m_phys_core_mask (parsed p)) i = (i <? 4))
        ∧ ∀ id, 0 ≤ id → IsPermittedSvc id (parsed p) = true ↔ ∃ cap i, cap ∈ of_type CapabilityType.SyscallMask caps
            ∧ 0 ≤ i < 24 ∧ Z.testbit (SyscallMask.mask cap) i = true ∧ id = 24 * SyscallMask.index cap + i).
Proof.
  intros Hw. unfold InitializeForKip, SetCapabilities.
  assert (Hardware.ConvertVirtualCoreMaskToPhysical Hardware.VirtualCoreMask = Some 15) as -> by (vm_compute; reflexivity).
  cbn [mbind option_bind]. set (c0 := MkCapabilities _ _ _ _ _ _ _ _ _).
  destruct (SetCapabilities_loop_ok (λ _, True) ltac:(by split) caps (MkParse 0 0 c0 t) Hw I) as (r & p & Hr & _ & Hok).
  exists r, p. split; [done|]. intros He. specialize (Hok He).
  pose proof (granted_intro (MkParse 0 0 c0 t) p caps eq_refl ltac:(done) Hw Hok) as [_ Hsvc _ _ Hcore Hphys Hno Hprio _ _ _ _ _].
  assert (of_type CapabilityType.CorePriority caps = []) as Hnil.
  { destruct (of_type CapabilityType.CorePriority caps) as [|cap l]; [done|]. destruct (Hno cap ltac:(by left)) as [Hz _].
    by vm_compute in Hz. }
  unfold sole in Hcore, Hphys, Hprio. rewrite Hnil in Hcore, Hphys, Hprio. injection Hcore as <-. injection Hphys as <-. injection Hprio as <-.
  cbn [parsed m_core_mask m_phys_core_mask m_priority_mask c0]. split; [done|]. split.
  - intros i Hi. rewrite VirtualCoreMask_eq, Z.ones_spec_low by lia. split; [done|].
    rewrite lnotw_testbit by (done || lia). change 0xF with (Z.ones 4). rewrite Z.testbit_ones_nonneg by lia.
    destruct (Z.ltb_spec i 4), (Z.leb_spec 4 i); (done || lia).
  - split; [intros i Hi; change 15 with (Z.ones 4); by rewrite Z.testbit_ones_nonneg by lia|].
    intros id Hid. rewrite Hsvc by done. cbn [parsed c0 m_svc_access_flags]. rewrite Z.bits_0. split; [by intros [[? _]|?]|by right].
Qed.

(** C32: Whatever a program's descriptors are and however its reading ends, the page table is only
    asked for page-aligned, non-empty ranges within 36 bits of physical address, readable or
    readable and writable by the user, and for the regions of the boot image and the device
    tree. *)
Theorem descriptors_map_within_36_bits {T} `{PageTable T} (P : T → Prop) caps c t :
  kept_by_maps P → Forall (in_width 32) caps → P t →
  (∃ r p, InitializeForUser caps c t = Some (r, p) ∧ P (table p)) ∧ (∃ r p, InitializeForKip caps c t = Some (r, p) ∧ P (table p)).
Proof.
  intros HP Hw Ht. unfold InitializeForUser, InitializeForKip, SetCapabilities.
  assert (Hardware.ConvertVirtualCoreMaskToPhysical Hardware.VirtualCoreMask = Some 15) as -> by (vm_compute; reflexivity).
  cbn [mbind option_bind]. split.
  - set (c0 := MkCapabilities _ _ _ _ _ _ _ _ _).
    destruct (SetCapabilities_loop_ok P HP caps (MkParse 0 0 c0 t) Hw Ht) as (r & p & Hr & Hp & _). by exists r, p.
  - set (c0 := MkCapabilities _ _ _ _ _ _ _ _ _).
    destruct (SetCapabilities_loop_ok P HP caps (MkParse 0 0 c0 t) Hw Ht) as (r & p & Hr & Hp & _). by exists r, p.
Qed.

(** ** The check against the memory layout *)

(** The region is not asked for, or the layout has it. *)
Definition region_found (tree : region_tree) (type : Z) : Prop :=
  type = RegionType.NoMapping ∨ type = RegionType.KernelTraceBuffer
  ∨ type = RegionType.OnMemoryBootImage ∧ is_Some (FindFirstDerived tree (m_value KMemoryRegionType_OnMemoryBootImage))
  ∨ type = RegionType.DTB ∧ is_Some (FindFirstDerived tree (m_value KMemoryRegionType_DTB)).

Lemma check_regions_ok tree l :
  ∃ r, ProcessMapRegion_loop (λ region_type _ s, (match FindFirstDerived tree region_type with Some _ => ResultSuccess | None => ResultOutOfRange end, s)) l tt
       = Some (r, tt) ∧ (Result.IsError r = false ↔ Forall (λ x, region_found tree x.1) l).
Proof.
  induction l as [|[type ro] l (r & IH & Hr)]; cbn [ProcessMapRegion_loop].
  { exists ResultSuccess. split; [done|]. by split; [constructor|]. }
  setoid_rewrite Forall_cons. unfold region_found at 1. cbn [fst].
  destruct (Z.eqb_spec type RegionType.NoMapping) as [->|H0]; [rewrite IH; exists r; split; [done|]; rewrite Hr; tauto|].
  destruct (Z.eqb_spec type RegionType.KernelTraceBuffer) as [->|H1]; cbn [andb orb negb IsKTraceEnabled]; [rewrite IH; exists r; split; [done|]; rewrite Hr; tauto|].
  destruct (Z.eqb_spec type RegionType.OnMemoryBootImage) as [->|H2]; cbn [orb].
  { change (at_ MemoryRegions RegionType.OnMemoryBootImage) with (Some (m_value KMemoryRegionType_OnMemoryBootImage)). cbn [mbind option_bind].
    destruct (FindFirstDerived _ _); cbn; [rewrite IH; exists r; split; [done|]; rewrite Hr; naive_solver|].
    exists ResultOutOfRange. split; [done|]. split; [done|]. intros [[|[|[[_ [? ?]]|[? _]]]] _]; done. }
  destruct (Z.eqb_spec type RegionType.DTB) as [->|H3]; [|exists ResultNotFound; split; [done|]; split; [done|tauto]].
  change (at_ MemoryRegions RegionType.DTB) with (Some (m_value KMemoryRegionType_DTB)). cbn [mbind option_bind].
  destruct (FindFirstDerived _ _); cbn; [rewrite IH; exists r; split; [done|]; rewrite Hr; naive_solver|].
  exists ResultOutOfRange. split; [done|]. split; [done|]. intros [[|[|[[? _]|[_ [? ?]]]]] _]; done.
Qed.

(** The check of a program's descriptors succeeds exactly when the layout has every region that
    they ask for, and they ask for no region of another kind. *)
Theorem CheckCapabilities_correct tree caps :
  ∃ r, CheckCapabilities tree caps = Some r
    ∧ (Result.IsError r = false ↔ ∀ cap, cap ∈ of_type CapabilityType.MapRegion caps →
        region_found tree (MapRegion.region0 cap) ∧ region_found tree (MapRegion.region1 cap) ∧ region_found tree (MapRegion.region2 cap)).
Proof.
  induction caps as [|cap caps (r & IH & Hr)]; cbn [CheckCapabilities].
  { exists ResultSuccess. split; [done|]. split; [|done]. intros _ cap Hc. by apply not_elem_of_nil in Hc. }
  rewrite of_type_cons. destruct (Z.eqb_spec (GetCapabilityType cap) CapabilityType.MapRegion) as [E|E].
  - rewrite decide_True by done. unfold CheckMapRegion, ProcessMapRegionCapability.
    destruct (check_regions_ok tree [(MapRegion.region0 cap, MapRegion.read_only0 cap); (MapRegion.region1 cap, MapRegion.read_only1 cap);
      (MapRegion.region2 cap, MapRegion.read_only2 cap)]) as (r' & -> & Hr'). cbn [mbind option_bind fst].
    rewrite !Forall_cons in Hr'. cbn [fst] in Hr'. setoid_rewrite elem_of_cons. destruct (Result.IsError r') eqn:Er.
    + exists r'. split; [done|]. rewrite Er. split; [done|]. intros Hall. destruct (Hall cap ltac:(by left)) as (H0 & H1 & H2).
      apply Hr'. by split_and!.
    + exists r. split; [done|]. rewrite Hr. destruct Hr' as [Hr' _]. destruct (Hr' eq_refl) as (H0 & H1 & H2 & _).
      split; [intros Hall c [->|Hc]; [done|by apply Hall]|]. intros Hall c Hc. apply Hall. by right.
  - rewrite decide_False by done. rewrite IH. by exists r.
Qed.

(** * The theorems at concrete descriptors *)

(** A page table that takes every request and remembers the ranges. *)
Definition Requests : Type := list (Z * Z).
#[export] Instance requests_page_table : PageTable Requests := {
  MapStatic a size _ l := (ResultSuccess, (a, size) :: l);
  MapIo a size _ l := (ResultSuccess, (a, size) :: l);
  MapRegion_ _ _ l := (ResultSuccess, l)
}.

(** Cores 0 to 2, priorities 28 to 59; the calls 1 and 24; 512 handles; two pages at 0x70000000. *)
Definition example_caps : list Z :=
  [7 + 59 * 2 ^ 4 + 28 * 2 ^ 10 + 2 * 2 ^ 24; 15 + 2 * 2 ^ 5; 15 + 1 * 2 ^ 5 + 1 * 2 ^ 29; 0x7FFF + 512 * 2 ^ 16;
   63 + 0x70000 * 2 ^ 7; 63 + 2 * 2 ^ 7; 2 ^ 32 - 1].

Lemma example_caps_width : Forall (in_width 32) example_caps.
Proof. unfold example_caps, in_width. repeat (constructor; [lia|]). constructor. Qed.

Lemma GetCapabilityType_correct_witness : low_ones 4 (15 + 2 * 2 ^ 5).
Proof. apply (proj1 (GetCapabilityType_correct (15 + 2 * 2 ^ 5) 4 ltac:(unfold in_width; lia) ltac:(lia))). vm_compute. reflexivity. Defined.

Lemma InitializeForUser_correct_witness :
  match InitializeForUser example_caps KCapabilities_new ([] : Requests) with
  | Some (r, p) => r = ResultSuccess ∧ granted example_caps KCapabilities_new (parsed p) ∧ paired example_caps
      ∧ IsPermittedSvc 24 (parsed p) = true ∧ IsPermittedSvc 25 (parsed p) = false ∧ m_core_mask (parsed p) = 7
  | None => False
  end.
Proof.
  destruct (InitializeForUser_correct example_caps KCapabilities_new ([] : Requests) example_caps_width) as (r & p & E & H).
  rewrite E. vm_compute in E. injection E as <- <-. split; [reflexivity|].
  split; [exact (proj1 (H eq_refl))|]. split; [exact (proj2 (H eq_refl))|]. split_and!; reflexivity.
Defined.

(** All the reserved bits of debug flags are taken; one of a program type is not. *)
Example reserved_debug_bits :
  fst <$> InitializeForUser [Z.shiftl 0x1FFF 19 + 0xFFFF] KCapabilities_new ([] : Requests) = Some ResultSuccess
  ∧ fst <$> InitializeForUser [Z.shiftl 1 17 + 0x1FFF] KCapabilities_new ([] : Requests) = Some ResultReservedUsed.
Proof. split; vm_compute; reflexivity. Qed.

Lemma InitializeForKip_correct_witness :
  match InitializeForKip (tail example_caps) KCapabilities_new ([] : Requests) with
  | Some (r, p) => r = ResultSuccess ∧ ∀ i, 0 ≤ i → Z.testbit (m_phys_core_mask (parsed p)) i = (i <? 4)
  | None => False
  end.
Proof.
  destruct (InitializeForKip_correct (tail example_caps) KCapabilities_new ([] : Requests) (Forall_inv_tail example_caps_width)) as (r & p & E & H).
  rewrite E. vm_compute in E. injection E as <- <-. split; [reflexivity|]. apply (H eq_refl).
Defined.

Lemma descriptors_map_within_36_bits_witness :
  ∃ r p, InitializeForUser example_caps KCapabilities_new ([] : Requests) = Some (r, p)
    ∧ Forall (λ q, valid_range q.1 q.2) (table p) ∧ table p = [(0x70000000, 0x2000)].
Proof.
  destruct (descriptors_map_within_36_bits (T := Requests) (Forall (λ q, valid_range q.1 q.2)) example_caps KCapabilities_new [])
    as [(r & p & E & H) _]; [split; intros; cbn; [by constructor..|done]|exact example_caps_width|constructor|].
  exists r, p. split; [exact E|]. split; [exact H|]. vm_compute in E. injection E as <- <-. reflexivity.
Defined.
