(* ===== verification/AddressSpace.v ===== *)
(** Flat address spaces: a map from virtual to physical addresses as a sorted vector of blocks,
    and the allocator of virtual addresses built on it (src/src/common/address_space.h and .inc).

    A block begins at its virtual address and ends where the next one begins. Iterators are
    indices; an iterator that leaves the vector is dereferenced with the result [None]. *)
From S2P Require Import Prelude.

(** * Blocks and vectors *)
Record Block {Extra : Type} := MkBlock { virt : Z; phys : Z; extra_info : Extra }.
Arguments Block : clear implicits.
Arguments MkBlock {Extra}.

(** [std::lower_bound] by [operator<(VaType)]. *)
Fixpoint lower_bound {Extra} (bs : list (Block Extra)) (va : Z) : nat :=
  match bs with
  | [] => O
  | b :: bs => if virt b <? va then S (lower_bound bs va) else O
  end.
(** [std::vector::insert] and [std::vector::erase] *)
Definition vec_insert {A} (i : nat) (xs l : list A) : list A := take i l ++ xs ++ drop i l.
Definition vec_erase {A} (i j : nat) (l : list A) : option (list A) :=
  check (bool_decide (i ≤ j ≤ length l)%nat);; Some (take i l ++ drop j l).

Record AddressSpace {Extra : Type} := MkSpace {
  blocks : list (Block Extra);
  va_limit : Z;
  (** The calls of the callback so far, when there is a callback. *)
  unmap_callback : option (list (Z * Z))
}.
Arguments AddressSpace : clear implicits.
Arguments MkSpace {Extra}.

Section map.
Context {Extra : Type} (no_extra : Extra).
(** The width of [VaType] and of [PaType], and the template's parameters. *)
Context (VaBits PaBits UnmappedVa UnmappedPa AddressSpaceBits : Z) (PaContigSplit : bool).

Definition Block_new : Block Extra := MkBlock UnmappedVa UnmappedPa no_extra.
Definition Mapped (b : Block Extra) : bool := negb (phys b =? UnmappedPa).
Definition Unmapped (b : Block Extra) : bool := phys b =? UnmappedPa.

Definition VaMaximum : Z := 2 ^ (AddressSpaceBits - 1) + (2 ^ (AddressSpaceBits - 1) - 1).

(** The constructor. *)
Definition FlatAddressSpaceMap (va_limit_ : Z) (callback : bool) : option (AddressSpace Extra) :=
  check (va_limit_ <=? VaMaximum);;
  Some (MkSpace [Block_new] va_limit_ (if callback then Some [] else None)).

(** [if (unmap_callback) unmap_callback(virt, size)] *)
Definition call_back (va size : Z) (m : AddressSpace Extra) : AddressSpace Extra :=
  MkSpace (blocks m) (va_limit m) (option_map (λ l, l ++ [(va, size)]) (unmap_callback m)).
Definition with_blocks (bs : list (Block Extra)) (m : AddressSpace Extra) : AddressSpace Extra :=
  MkSpace bs (va_limit m) (unmap_callback m).

Definition va_wrap : Z → Z := wrap VaBits.

(** The physical address where the tail of a block that is cut at [virt_end] begins. *)
Definition tail_phys (b : Block Extra) (virt_end : Z) : Z :=
  if negb PaContigSplit then phys b
  else if Unmapped b then phys b
  else wrap PaBits (phys b + virt_end - virt b).

(** ** MapLocked *)

(** [while (std::prev(it)->virt >= va) it--] *)
Fixpoint walk_to_successor (va : Z) (it : nat) (bs : list (Block Extra)) : option nat :=
  match it with
  | O => None
  | S i => b ← bs !! i; if va <=? virt b then walk_to_successor va i bs else Some (S i)
  end.

(** From the search of the start on. *)
Definition map_start (va pa virt_end : Z) (extra : Extra) (block_end_successor : nat) (bs : list (Block Extra))
    : option (list (Block Extra)) :=
  block_start_successor ← walk_to_successor va block_end_successor bs;
  s ← bs !! block_start_successor;
  check (virt s <=? virt_end);;
  if virt s =? virt_end then Some (vec_insert block_start_successor [MkBlock va pa extra] bs)
  else
    bs ← (if negb (S block_start_successor =? block_end_successor)%nat
          then vec_erase (S block_start_successor) block_end_successor bs else Some bs);
    Some (<[block_start_successor := MkBlock va pa extra]> bs).

Definition map_blocks (va pa size : Z) (extra : Extra) (bs : list (Block Extra)) : option (list (Block Extra)) :=
  let virt_end := va_wrap (va + size) in
  check (virt_end <=? VaMaximum);;
  let block_end_successor := lower_bound bs virt_end in
  check (negb (block_end_successor =? 0)%nat);;
  let pred := Nat.pred block_end_successor in
  p ← bs !! pred;
  let overlapped := negb (pred =? 0)%nat && (va <=? virt p) in
  match bs !! block_end_successor with
  | Some s =>
      if negb (virt s =? virt_end) then
        if overlapped then
          map_start va pa virt_end extra pred (<[pred := MkBlock virt_end (tail_phys p virt_end) (extra_info p)]> bs)
        else Some (vec_insert block_end_successor
                     [MkBlock va pa extra; MkBlock virt_end (tail_phys p virt_end) (extra_info p)] bs)
      else map_start va pa virt_end extra block_end_successor bs
  | None =>
      if overlapped then
        map_start va pa virt_end extra pred (<[pred := MkBlock virt_end (phys p) (extra_info p)]> bs)
      else Some (vec_insert block_end_successor [MkBlock va pa extra; MkBlock virt_end UnmappedPa no_extra] bs)
  end.

Definition MapLocked (va pa size : Z) (extra : Extra) (m : AddressSpace Extra) : option (AddressSpace Extra) :=
  bs ← map_blocks va pa size extra (blocks m);
  Some (call_back va size (with_blocks bs m)).

(** ** UnmapLocked *)

(** [while (it->virt >= va) it--] *)
Fixpoint walk_to_predecessor (va : Z) (it : nat) (bs : list (Block Extra)) : option nat :=
  b ← bs !! it;
  if va <=? virt b then match it with O => None | S i => walk_to_predecessor va i bs end else Some it.

Definition erase_blocks_with_end_unmapped (va : Z) (unmappedEnd : nat) (bs : list (Block Extra))
    : option (list (Block Extra)) :=
  block_start_predecessor ← walk_to_predecessor va unmappedEnd bs;
  let block_start_successor := S block_start_predecessor in
  p ← bs !! block_start_predecessor;
  e ← bs !! unmappedEnd;
  let '(eraseEnd, bs) :=
    if Unmapped p then (S unmappedEnd, bs)
    else (unmappedEnd, <[unmappedEnd := MkBlock va (phys e) (extra_info e)]> bs) in
  check (negb match bs !! eraseEnd with
              | Some b => (eraseEnd =? block_start_successor)%nat || (Unmapped p && Unmapped b)
              | None => false
              end);;
  vec_erase block_start_successor eraseEnd bs.

(** From the search of the start on. *)
Definition unmap_start (va virt_end : Z) (block_end_predecessor block_end_successor : nat) (bs : list (Block Extra))
    : option (list (Block Extra)) :=
  block_start_predecessor ← walk_to_predecessor va block_end_successor bs;
  let block_start_successor := S block_start_predecessor in
  p ← bs !! block_start_predecessor;
  s ← bs !! block_start_successor;
  check (virt s <=? virt_end);;
  if virt s =? virt_end then
    Some (if Mapped p then vec_insert block_start_successor [MkBlock va UnmappedPa no_extra] bs else bs)
  else if Unmapped p then vec_erase block_start_successor block_end_predecessor bs
  else
    bs ← (if negb (S block_start_successor =? block_end_successor)%nat
          then vec_erase (S block_start_successor) block_end_successor bs else Some bs);
    Some (<[block_start_successor := MkBlock va UnmappedPa (extra_info s)]> bs).

Definition unmap_blocks (va size limit : Z) (bs : list (Block Extra)) : option (list (Block Extra)) :=
  let virt_end := va_wrap (va + size) in
  check (virt_end <=? limit);;
  let block_end_successor := lower_bound bs virt_end in
  check (negb (block_end_successor =? 0)%nat);;
  let block_end_predecessor := Nat.pred block_end_successor in
  p ← bs !! block_end_predecessor;
  if Unmapped p then
    if va <? virt p then erase_blocks_with_end_unmapped va block_end_predecessor bs else Some bs
  else
    s ← bs !! block_end_successor;
    if (virt s =? virt_end) && Unmapped s then erase_blocks_with_end_unmapped va block_end_successor bs
    else if negb (virt s =? virt_end) then
      let tail := if PaContigSplit then wrap PaBits (phys p + virt_end - virt p) else phys p in
      if va <=? virt p then
        bs ← Some (<[block_end_predecessor := MkBlock virt_end tail (extra_info p)]> bs);
        check (negb (block_end_predecessor =? 0)%nat);;
        unmap_start va virt_end (Nat.pred block_end_predecessor) block_end_predecessor bs
      else Some (vec_insert block_end_successor
                   [MkBlock va UnmappedPa no_extra; MkBlock virt_end tail (extra_info p)] bs)
    else unmap_start va virt_end block_end_predecessor block_end_successor bs.

Definition UnmapLocked (va size : Z) (m : AddressSpace Extra) : option (AddressSpace Extra) :=
  bs ← unmap_blocks va size (va_limit m) (blocks m);
  Some (call_back va size (with_blocks bs m)).

(** [Map] and [Unmap] take the lock. *)
Definition Map := MapLocked.
Definition Unmap := UnmapLocked.
End map.

(** * FlatAllocator *)

(** A map to [bool], [true] being mapped, without a callback. *)
Record Allocator := MkAllocator {
  space : AddressSpace unit;
  virt_start : Z;
  current_linear_alloc_end : Z
}.

Section allocator.
Context (VaBits UnmappedVa AddressSpaceBits : Z).

Definition alloc_map (va size : Z) (m : AddressSpace unit) : option (AddressSpace unit) :=
  MapLocked tt VaBits 1 0 AddressSpaceBits false va 1 size tt m.
Definition alloc_unmap (va size : Z) (m : AddressSpace unit) : option (AddressSpace unit) :=
  UnmapLocked tt VaBits 1 0 false va size m.
Definition is_mapped (b : Block unit) : bool := Mapped 0 b.

Definition FlatAllocator (virt_start_ va_limit_ : Z) : option Allocator :=
  m ← FlatAddressSpaceMap tt UnmappedVa 0 AddressSpaceBits va_limit_ false;
  Some (MkAllocator m virt_start_ virt_start_).

(** The walk over what is in front of the linear end: the vector after the predecessor. *)
Fixpoint skip_fixed (size limit : Z) (p : Block unit) (bs : list (Block unit)) : Z :=
  match bs with
  | [] => UnmappedVa
  | s :: bs =>
      if (wrap VaBits (virt s - virt p) <? size) || is_mapped p then virt p
      else
        match bs with
        | [] =>
            let alloc_end := wrap VaBits (virt s + size) in
            if (virt s <=? alloc_end) && (alloc_end <=? limit) then virt s else UnmappedVa
        | _ => skip_fixed size limit s bs
        end
  end.

(** The linear pass: the start of the allocation, or [UnmappedVa]. *)
Definition linear_start (size : Z) (a : Allocator) : option Z :=
  let bs := blocks (space a) in
  let cur := current_linear_alloc_end a in
  let alloc_end := wrap VaBits (cur + size) in
  if (cur <=? alloc_end) && (alloc_end <=? va_limit (space a)) then
    let alloc_end_successor := lower_bound bs alloc_end in
    check (negb (alloc_end_successor =? 0)%nat);;
    p ← bs !! Nat.pred alloc_end_successor;
    Some (if virt p <=? cur then cur else skip_fixed size (va_limit (space a)) p (drop alloc_end_successor bs))
  else Some UnmappedVa.

(** The search for a gap: the first unmapped block that is large enough and is not the last. *)
Fixpoint find_gap (size : Z) (p : Block unit) (bs : list (Block unit)) : option Z :=
  match bs with
  | [] => None
  | s :: bs =>
      if (wrap VaBits (virt s - virt p) <? size) || is_mapped p then find_gap size s bs else Some (virt p)
  end.

(** The result is 0 when the space is full. *)
Definition Allocate (size : Z) (a : Allocator) : option (Z * Allocator) :=
  linear ← linear_start size a;
  if negb (linear =? UnmappedVa) then
    let a := MkAllocator (space a) (virt_start a) (wrap VaBits (linear + size)) in
    m ← alloc_map linear size (space a);
    Some (linear, MkAllocator m (virt_start a) (current_linear_alloc_end a))
  else
    check (negb (length (blocks (space a)) <=? 2)%nat);;
    match blocks (space a) with
    | _ :: p :: bs =>
        match find_gap size p bs with
        | Some gap => m ← alloc_map gap size (space a); Some (gap, MkAllocator m (virt_start a) (current_linear_alloc_end a))
        | None => Some (0, a)
        end
    | _ => None
    end.

Definition AllocateFixed (va size : Z) (a : Allocator) : option Allocator :=
  m ← alloc_map va size (space a); Some (MkAllocator m (virt_start a) (current_linear_alloc_end a)).

Definition Free (va size : Z) (a : Allocator) : option Allocator :=
  m ← alloc_unmap va size (space a); Some (MkAllocator m (virt_start a) (current_linear_alloc_end a)).
End allocator.
