(* ===== verification/AddressSpaceSpec.v ===== *)
(** What a flat address space promises: mapping and unmapping change exactly the addresses of
    their range, with the exceptions of the code ([trips] and [leaves]). *)
From S2P Require Import Prelude AddressSpace.

(** * Lists *)

(** Every element is related to the next one. *)
Fixpoint linked {A} (R : A → A → Prop) (l : list A) : Prop :=
  match l with
  | a :: ((b :: _) as l') => R a b ∧ linked R l'
  | _ => True
  end.

Lemma linked_cons {A} (R : A → A → Prop) a l :
  linked R (a :: l) ↔ (∀ b, head l = Some b → R a b) ∧ linked R l.
Proof. destruct l as [|b l]; simpl; [naive_solver|]. split; [intros [? ?]; naive_solver|]. naive_solver. Qed.

Lemma linked_app {A} (R : A → A → Prop) l1 l2 :
  linked R (l1 ++ l2) ↔ linked R l1 ∧ linked R l2 ∧ ∀ a b, last l1 = Some a → head l2 = Some b → R a b.
Proof.
  induction l1 as [|a l1 IH]; [simpl; naive_solver|]. cbn [app]. rewrite !linked_cons, IH.
  destruct l1 as [|b l1]; simpl; [naive_solver|]. change (last (a :: b :: l1)) with (last (b :: l1)). naive_solver.
Qed.

Lemma last_cases {A} (l : list A) : l = [] ∨ ∃ l' y, l = l' ++ [y].
Proof. destruct l as [|y l' _] using rev_ind; [by left|right; eauto]. Qed.

Lemma last_middle {A} (l1 : list A) x l2 : last (l1 ++ x :: l2) = Some (default x (last l2)).
Proof. rewrite last_app, last_cons. by destruct (last l2). Qed.

Lemma set_middle {A} n (l1 : list A) x y l2 : n = length l1 → <[n := y]> (l1 ++ x :: l2) = l1 ++ y :: l2.
Proof. intros ->. rewrite <-(Nat.add_0_r (length l1)). by rewrite insert_app_r. Qed.

Lemma insert_here {A} n (xs l1 l2 : list A) : n = length l1 → vec_insert n xs (l1 ++ l2) = l1 ++ xs ++ l2.
Proof. intros ->. unfold vec_insert. by rewrite take_app_length, drop_app_length. Qed.

Lemma erase_here {A} i j (l1 l2 l3 : list A) :
  i = length l1 → j = (length l1 + length l2)%nat → vec_erase i j (l1 ++ l2 ++ l3) = Some (l1 ++ l3).
Proof.
  intros -> ->. unfold vec_erase. rewrite bool_decide_eq_true_2 by (rewrite !length_app; lia). cbn [check mbind option_bind].
  rewrite take_app_length, (assoc (++)), <-length_app. by rewrite drop_app_length.
Qed.

(** * Vectors in three parts *)
Section blocks.
Context {Extra : Type}.
Implicit Types (bs lo mid hi : list (Block Extra)) (b p : Block Extra).

Definition below (va : Z) bs : Prop := Forall (λ b, virt b < va) bs.
Definition from_on (va : Z) bs : Prop := Forall (λ b, va ≤ virt b) bs.

Lemma lower_bound_ok va l1 l2 : below va l1 → from_on va l2 → lower_bound (l1 ++ l2) va = length l1.
Proof.
  intros H1 H2. induction H1 as [|b l1 Hb _ IH]; simpl.
  - destruct H2 as [|b l2 Hb]; simpl; [done|]. by rewrite (proj2 (Z.ltb_ge _ _)) by lia.
  - rewrite (proj2 (Z.ltb_lt _ _)) by done. by rewrite IH.
Qed.

Lemma split_at va bs : linked (λ a b, virt a < virt b) bs → ∃ l1 l2, bs = l1 ++ l2 ∧ below va l1 ∧ from_on va l2.
Proof.
  induction bs as [|b bs IH]; intros Hs; [by exists [], []; split_and!; constructor|].
  apply linked_cons in Hs as [Hb Hs]. destruct (Z_lt_le_dec (virt b) va) as [Hlt|Hge].
  - destruct (IH Hs) as (l1 & l2 & -> & H1 & H2). exists (b :: l1), l2. split; [done|]. by split; [constructor|].
  - exists [], (b :: bs). split; [done|]. split; [constructor|]. constructor; [done|].
    clear IH. revert b Hb Hge. induction bs as [|c bs IH]; intros b Hb Hge; [constructor|].
    apply linked_cons in Hs as [Hc Hs]. assert (virt b < virt c) by by apply Hb. constructor; [lia|].
    apply (IH Hs c Hc). lia.
Qed.

Lemma linked_below l (y : Block Extra) : linked (λ a b, virt a < virt b) (l ++ [y]) → below (virt y) l.
Proof.
  induction l as [|a l IH]; [constructor|]. cbn [app]. rewrite linked_cons. intros [Ha Hl]. specialize (IH Hl). constructor; [|done].
  destruct l as [|b l]; [by apply Ha|]. specialize (Ha b eq_refl). apply Forall_inv in IH. cbv beta in IH. lia.
Qed.

Lemma successor_step va i bs :
  walk_to_successor va (S i) bs = (b ← bs !! i; if va <=? virt b then walk_to_successor va i bs else Some (S i)).
Proof. done. Qed.
Lemma predecessor_step va i bs :
  walk_to_predecessor va (S i) bs = (b ← bs !! S i; if va <=? virt b then walk_to_predecessor va i bs else Some (S i)).
Proof. done. Qed.

Lemma walk_successor va lo p mid hi :
  virt p < va → from_on va mid →
  walk_to_successor va (S (length lo + length mid)) (lo ++ p :: mid ++ hi) = Some (S (length lo)).
Proof.
  intros Hp Hm. revert hi. induction mid as [|b mid IH] using rev_ind; intros hi.
  - rewrite Nat.add_0_r. cbn [walk_to_successor]. rewrite list_lookup_middle by done. cbn [mbind option_bind].
    by rewrite (proj2 (Z.leb_gt _ _)).
  - apply Forall_app in Hm as [Hm Hb]. apply Forall_inv in Hb.
    replace (S (length lo + length (mid ++ [b]))) with (S (S (length lo + length mid))) by (rewrite length_app; simpl; lia).
    rewrite successor_step.
    replace (lo ++ p :: (mid ++ [b]) ++ hi) with ((lo ++ p :: mid) ++ b :: hi) by (rewrite <-!(assoc (++)); done).
    rewrite list_lookup_middle by (rewrite length_app; simpl; lia). cbn [mbind option_bind].
    rewrite (proj2 (Z.leb_le _ _)) by done. rewrite <-(IH Hm (b :: hi)). by rewrite <-!(assoc (++)).
Qed.

Lemma walk_predecessor va lo p mid hi :
  virt p < va → from_on va mid →
  walk_to_predecessor va (length lo + length mid) (lo ++ p :: mid ++ hi) = Some (length lo).
Proof.
  intros Hp Hm. revert hi. induction mid as [|b mid IH] using rev_ind; intros hi.
  - rewrite Nat.add_0_r. destruct (length lo) as [|n] eqn:En; cbn [walk_to_predecessor];
      rewrite <-En, list_lookup_middle by done; cbn [mbind option_bind]; by rewrite (proj2 (Z.leb_gt _ _)).
  - apply Forall_app in Hm as [Hm Hb]. apply Forall_inv in Hb.
    replace (length lo + length (mid ++ [b]))%nat with (S (length lo + length mid)) by (rewrite length_app; simpl; lia).
    rewrite predecessor_step.
    replace (lo ++ p :: (mid ++ [b]) ++ hi) with ((lo ++ p :: mid) ++ b :: hi) by (rewrite <-!(assoc (++)); done).
    rewrite list_lookup_middle by (rewrite length_app; simpl; lia). cbn [mbind option_bind].
    rewrite (proj2 (Z.leb_le _ _)) by done. rewrite <-(IH Hm (b :: hi)). by rewrite <-!(assoc (++)).
Qed.
End blocks.

(** * Translation *)
Section translation.
Context {Extra : Type} (PaBits UnmappedPa : Z) (PaContigSplit : bool).
Implicit Types (bs lo mid hi xs rest : list (Block Extra)) (b p q t h : Block Extra).
Local Abbreviation Unmapped := (AddressSpace.Unmapped UnmappedPa).
Local Abbreviation tail_phys := (AddressSpace.tail_phys PaBits UnmappedPa PaContigSplit).

(** The physical address of [va] in the block. *)
Definition phys_at b (va : Z) : Z :=
  if Unmapped b then UnmappedPa
  else if PaContigSplit then wrap PaBits (phys b + va - virt b) else phys b.

(** The last block that begins at [va] or before. *)
Definition block_at bs (va : Z) : option (Block Extra) := last (filter (λ b, virt b ≤ va) bs).
Definition translate bs (va : Z) : Z := match block_at bs va with Some b => phys_at b va | None => UnmappedPa end.

Lemma block_at_app l1 l2 va :
  block_at (l1 ++ l2) va = match block_at l2 va with Some b => Some b | None => block_at l1 va end.
Proof. unfold block_at. by rewrite filter_app, last_app. Qed.

Lemma block_at_none l va e : va < e → from_on e l → block_at l va = None.
Proof.
  intros Hv Hf. unfold block_at. replace (filter (λ b, virt b ≤ va) l) with ([] : list (Block Extra)); [done|].
  symmetry. induction Hf as [|b l Hb _ IH]; [done|]. rewrite filter_cons_False by (cbv beta in *; lia). done.
Qed.

Lemma block_at_last l va : below (va + 1) l → block_at l va = last l.
Proof.
  intros Hb. unfold block_at. f_equal. apply filter_id. intros b Hin.
  unfold below in Hb. rewrite Forall_forall in Hb. specialize (Hb b Hin). lia.
Qed.

Lemma below_weaken u v bs : u ≤ v → below u bs → below v bs.
Proof. intros Hv H. eapply Forall_impl; [exact H|]. intros b. cbv beta. lia. Qed.
Lemma from_on_weaken u v bs : v ≤ u → from_on u bs → from_on v bs.
Proof. intros Hv H. eapply Forall_impl; [exact H|]. intros b. cbv beta. lia. Qed.

Lemma block_at_head p l va : virt p ≤ va → block_at (p :: l) va = Some (default p (block_at l va)).
Proof.
  intros Hp. change (p :: l) with ([p] ++ l). rewrite block_at_app. destruct (block_at l va); [done|].
  unfold block_at. by rewrite filter_cons_True by done.
Qed.

(** ** The tail of a block *)

(** What follows a range that ends at [e], when [p] is the block in which it ended and [q] the
    last block before its new end: the next block when it begins there, the rest of [p], or what
    is left when [q] is unmapped and takes in the rest of [p] or the next block. *)
Inductive seam p q (e : Z) hi : list (Block Extra) → Prop :=
  | seam_next h hi' : hi = h :: hi' → virt h = e → seam p q e hi hi
  | seam_tail t : virt t = e → phys t = tail_phys p e → from_on (e + 1) hi → seam p q e hi (t :: hi)
  | seam_behind : Unmapped p = true → Unmapped q = true → seam p q e hi hi
  | seam_over h hi' : hi = h :: hi' → virt h = e → Unmapped h = true → Unmapped q = true → seam p q e hi hi'.

(** The tail of a mapped block is mapped. *)
Definition tail_mapped p (e : Z) : Prop := Unmapped p = false → tail_phys p e ≠ UnmappedPa.

Lemma tail_unmapped p t e : tail_mapped p e → phys t = tail_phys p e → Unmapped t = Unmapped p.
Proof.
  intros Hm Ht. unfold tail_mapped in Hm. unfold AddressSpace.Unmapped in *. rewrite Ht.
  destruct (Z.eqb_spec (phys p) UnmappedPa) as [Ep|Ep].
  - unfold AddressSpace.tail_phys, AddressSpace.Unmapped. rewrite Ep, Z.eqb_refl. destruct PaContigSplit; simpl; apply Z.eqb_refl.
  - apply Z.eqb_neq. by apply Hm.
Qed.

Lemma phys_at_tail p t e va :
  tail_mapped p e → virt t = e → phys t = tail_phys p e → phys_at t va = phys_at p va.
Proof.
  intros Hm Hv Ht. unfold phys_at. rewrite (tail_unmapped p t e Hm Ht).
  destruct (Unmapped p) eqn:Eu; [done|]. rewrite Ht, Hv. unfold AddressSpace.tail_phys. rewrite Eu.
  destruct PaContigSplit; simpl; [|done]. unfold wrap.
  replace ((phys p + e - virt p) mod 2 ^ PaBits + va - e) with ((phys p + e - virt p) mod 2 ^ PaBits + (va - e)) by lia.
  rewrite Zplus_mod_idemp_l. f_equal. lia.
Qed.

(** ** The translation after a range has changed *)

(** The vector around the range from [v] to [e]: [p] is the last block that begins before it,
    [mid] are those that begin in it and [hi] those behind it. *)
Record parts (v e : Z) bs lo p mid hi : Prop := {
  pt_eq : bs = lo ++ p :: mid ++ hi;
  pt_lo : below v lo;
  pt_p : virt p < v;
  pt_mid : from_on v mid;
  pt_in : below e mid;
  pt_hi : from_on e hi;
}.
(** The block in which the range ends. *)
Definition end_block p mid : Block Extra := default p (last mid).

Lemma translate_new v e bs lo p mid hi xs rest va :
  parts v e bs lo p mid hi → v < e → tail_mapped (end_block p mid) e → seam (end_block p mid) (end_block p xs) e hi rest →
  from_on v xs → below e xs →
  translate (lo ++ p :: xs ++ rest) va
  = if decide (v ≤ va < e) then phys_at (default p (block_at xs va)) va else translate bs va.
Proof.
  intros [-> Hlo Hp Hmid Hin Hhi] Hve Hm Hseam Hx1 Hx2. unfold translate.
  replace (lo ++ p :: xs ++ rest) with ((lo ++ p :: xs) ++ rest) by by rewrite <-(assoc (++)).
  replace (lo ++ p :: mid ++ hi) with ((lo ++ p :: mid) ++ hi) by by rewrite <-(assoc (++)).
  assert (from_on e rest) as Ht.
  { destruct Hseam as [|t <-| |h hi' ->]; [done|constructor; [lia|done]|done|]. by apply Forall_cons in Hhi as [_ ?]. }
  assert (∀ l, from_on v l → va < v → block_at (lo ++ p :: l) va = block_at (lo ++ [p]) va) as Hbefore.
  { intros l Hl Hva. replace (lo ++ p :: l) with ((lo ++ [p]) ++ l) by by rewrite <-(assoc (++)).
    by rewrite block_at_app, (block_at_none l va v). }
  assert (∀ l, v ≤ va → block_at (lo ++ p :: l) va = Some (default p (block_at l va))) as Hlast.
  { intros l Hva. replace (lo ++ p :: l) with ((lo ++ [p]) ++ l) by by rewrite <-(assoc (++)). rewrite block_at_app.
    destruct (block_at l va); [done|]. rewrite block_at_last, last_snoc; [done|]. apply Forall_app.
    split; [eapply below_weaken; [|done]; lia|]. constructor; [lia|constructor]. }
  rewrite (block_at_app (lo ++ p :: xs)), (block_at_app (lo ++ p :: mid)).
  destruct (decide (v ≤ va < e)) as [Hva|Hva].
  - rewrite (block_at_none rest va e) by (done || lia). by rewrite (Hlast xs) by lia.
  - destruct (Z_lt_le_dec va v) as [Hlt|Hge].
    + rewrite (block_at_none hi va e), (block_at_none rest va e) by (done || lia). by rewrite (Hbefore xs), (Hbefore mid).
    + assert (∀ l, below e l → block_at (lo ++ p :: l) va = Some (end_block p l)) as Hend.
      { intros l Hl. rewrite Hlast by done. by rewrite block_at_last by (eapply below_weaken; [|done]; lia). }
      rewrite (Hend xs), (Hend mid) by done. destruct Hseam as [h hi' -> Hh|t Hv Ht' Hb|Hu Hq|h hi' -> Hh Hu Hq].
      * rewrite (block_at_head h hi' va) by lia. done.
      * rewrite block_at_head by lia. destruct (block_at hi va); [done|]. simpl. by apply (phys_at_tail (end_block p mid) t e).
      * destruct (block_at hi va); [done|]. unfold phys_at. by rewrite Hu, Hq.
      * rewrite (block_at_head h hi' va) by lia. destruct (block_at hi' va); [done|]. simpl. unfold phys_at. by rewrite Hu, Hq.
Qed.

Lemma range_lookups v e bs lo p mid hi :
  parts v e bs lo p mid hi → v ≤ e →
  lower_bound bs e = S (length lo + length mid) ∧ bs !! (length lo + length mid)%nat = Some (end_block p mid)
  ∧ bs !! S (length lo + length mid) = head hi.
Proof.
  intros [E Hlo Hp Hmid Hin Hhi] He. assert (bs = (lo ++ p :: mid) ++ hi) as -> by (by rewrite E, <-(assoc (++))).
  assert (length (lo ++ p :: mid) = S (length lo + length mid)) as El by (rewrite length_app; simpl; lia). split_and!.
  - rewrite lower_bound_ok; [done| |done]. apply Forall_app. split; [eapply below_weaken; [|done]; lia|]. by constructor; [lia|].
  - rewrite lookup_app_l by lia. unfold end_block. rewrite <-last_middle with (l1 := lo), last_lookup. f_equal. by rewrite El.
  - rewrite lookup_app_r by lia. rewrite head_lookup. f_equal. lia.
Qed.

(** ** Well-formed vectors *)
Context (UnmappedVa VaLast : Z).

(** Blocks are in order, and no unmapped block follows another. *)
Definition step (a b : Block Extra) : Prop := virt a < virt b ∧ Unmapped a && Unmapped b = false.

Record space_ok bs : Prop := {
  sp_first : ∃ b rest, bs = b :: rest ∧ virt b = UnmappedVa ∧ Unmapped b = true;
  sp_linked : linked step bs;
  sp_last : ∃ b, last bs = Some b ∧ Unmapped b = true;
  sp_range : below (VaLast + 1) bs;
}.

Lemma linked_virt bs : linked step bs → linked (λ a b, virt a < virt b) bs.
Proof.
  induction bs as [|b bs IH]; [done|]. rewrite !linked_cons. intros [Hb Hl]. split; [|by apply IH]. intros c Hc. by apply Hb.
Qed.

Lemma parts_exist v e bs : space_ok bs → UnmappedVa < v → v ≤ e → ∃ lo p mid hi, parts v e bs lo p mid hi.
Proof.
  intros [(f & rest & Hbs & Hf & _) Hl _ _] Hv He. apply linked_virt in Hl.
  destruct (split_at v bs Hl) as (l1 & l2 & E & H1 & H2). pose proof Hl as Hl'. rewrite E in Hl'. apply linked_app in Hl' as (_ & Hl2 & _).
  destruct (split_at e l2 Hl2) as (mid & hi & -> & H3 & H4). destruct (last_cases l1) as [->|(lo & p & ->)].
  { exfalso. destruct mid as [|m mid]; [destruct hi as [|h hi]|].
    - by rewrite E in Hbs.
    - rewrite E in Hbs. injection Hbs as -> _. apply Forall_inv in H4. lia.
    - rewrite E in Hbs. injection Hbs as -> _. apply Forall_app in H2 as [H2 _]. apply Forall_inv in H2. cbv beta in H2. lia. }
  apply Forall_app in H1 as [H1 Hp]. apply Forall_app in H2 as [H2 _]. exists lo, p, mid, hi. split; try done.
  - by rewrite E, <-(assoc (++)).
  - by apply Forall_inv in Hp.
Qed.

Lemma end_block_last p mid lo : last (lo ++ p :: mid) = Some (end_block p mid).
Proof. apply last_middle. Qed.

Lemma end_block_below v e bs lo p mid hi : parts v e bs lo p mid hi → v ≤ e → virt (end_block p mid) < e.
Proof.
  intros [_ _ Hp _ Hin _] He. unfold end_block. destruct (last_cases mid) as [->|(l & y & ->)]; [simpl; lia|].
  rewrite last_snoc. simpl. apply Forall_app in Hin as [_ Hy]. by apply Forall_inv in Hy.
Qed.

(** The first block behind the range, when it begins later. *)
Lemma after_gap v e bs lo p mid h hi :
  space_ok bs → parts v e bs lo p mid (h :: hi) → virt h ≠ e → from_on (e + 1) (h :: hi).
Proof.
  intros [_ Hl _ _] [E _ _ _ _ Hhi] Hne. apply Forall_cons in Hhi as [Hh Hhi]. cbv beta in Hh. constructor; [lia|].
  apply linked_virt in Hl. rewrite E in Hl. apply linked_app in Hl as (_ & Hl & _). apply linked_cons in Hl as [_ Hl].
  apply linked_app in Hl as (_ & Hl & _). pose proof Hl as [Hb Hl']%linked_cons.
  destruct (split_at (e + 1) hi Hl') as (l1 & l2 & E2 & H1 & H2). destruct l1 as [|b l1]; [by rewrite E2|].
  exfalso. apply Forall_inv in H1. specialize (Hb b). rewrite E2 in Hb. specialize (Hb eq_refl). cbv beta in *. lia.
Qed.

(** A vector whose range has been rewritten is well formed when its seams are. *)
Lemma new_ok v e bs lo p mid hi xs rest :
  space_ok bs → parts v e bs lo p mid hi → v < e ≤ VaLast → tail_mapped (end_block p mid) e →
  seam (end_block p mid) (end_block p xs) e hi rest →
  (xs = [] ∨ ∃ x, xs = [x] ∧ virt x = v ∧ Unmapped p && Unmapped x = false) →
  (∀ b, head rest = Some b → Unmapped (end_block p xs) && Unmapped b = false) →
  space_ok (lo ++ p :: xs ++ rest).
Proof.
  intros [Hf Hl Hlast Hr] [E Hlo Hp Hmid Hin Hhi] He Hm Hseam Hxs Hjoin. subst bs.
  replace (lo ++ p :: mid ++ hi) with ((lo ++ p :: mid) ++ hi) in Hl, Hlast by by rewrite <-(assoc (++)).
  pose proof Hl as (Hl1 & Hl2 & Hl3)%linked_app.
  replace (lo ++ p :: mid) with ((lo ++ [p]) ++ mid) in Hl1 by by rewrite <-(assoc (++)). apply linked_app in Hl1 as (Hl1 & _ & _).
  specialize (λ b, Hl3 _ b (end_block_last p mid lo)).
  assert (linked step rest ∧ from_on e rest ∧ below (VaLast + 1) hi) as (Hl4 & Hge & Hr').
  { unfold below in Hr. rewrite Forall_app, Forall_cons, Forall_app in Hr. destruct Hr as (_ & _ & _ & Hr).
    destruct Hseam as [|t Hv Ht Hb| |h hi' ->]; split_and!; try done.
    - apply linked_cons. split; [|done]. intros b Hb'. split; [|rewrite (tail_unmapped _ _ _ Hm Ht); by apply Hl3].
      destruct hi as [|h hi']; [done|]. injection Hb' as ->. apply Forall_inv in Hb. cbv beta in Hb. lia.
    - constructor; [lia|done].
    - by apply linked_cons in Hl2 as [_ ?].
    - by apply Forall_cons in Hhi as [_ ?]. }
  assert (∀ b, head rest = Some b → e ≤ virt b) as Hhead.
  { intros b Hb. destruct rest; [done|]. injection Hb as ->. by apply Forall_inv in Hge. }
  split.
  - destruct Hf as (f & r & Ef & Hf). destruct lo as [|a lo]; injection Ef as <- _; by eexists _, _.
  - replace (lo ++ p :: xs ++ rest) with ((lo ++ [p]) ++ xs ++ rest) by by rewrite <-(assoc (++)).
    apply linked_app. destruct Hxs as [->|(x & -> & Hv & Hx)]; split_and!; try done.
    + intros a b Ha Hb. rewrite last_snoc in Ha. injection Ha as <-. split; [|by apply Hjoin]. specialize (Hhead b Hb). lia.
    + apply linked_cons. split; [|done]. intros b Hb. split; [|by apply Hjoin]. specialize (Hhead b Hb). lia.
    + intros a b Ha [= <-]. rewrite last_snoc in Ha. injection Ha as <-. split; [lia|done].
  - destruct Hlast as (b & Eb & Hb). replace (lo ++ p :: xs ++ rest) with ((lo ++ p :: xs) ++ rest) by by rewrite <-(assoc (++)).
    rewrite last_app in Eb |- *. rewrite end_block_last in Eb |- *.
    destruct Hseam as [h hi' -> _|t Hv Ht _|Hu Hq|h hi' -> _ _ Hq].
    + destruct (last (h :: hi')) eqn:E; [|by apply last_None in E]. by exists b.
    + rewrite last_cons. destruct (last hi); [by exists b|]. injection Eb as <-. exists t.
      split; [done|]. by rewrite (tail_unmapped _ _ _ Hm Ht).
    + destruct (last hi); [by exists b|by eexists].
    + rewrite last_cons in Eb. destruct (last hi'); [by exists b|by eexists].
  - unfold below in *. rewrite Forall_app, Forall_cons, !Forall_app in *. destruct Hr as (Hr1 & Hr2 & _ & _).
    split_and!; try done.
    + destruct Hxs as [->|(x & -> & Hv & _)]; repeat constructor. lia.
    + destruct Hseam as [|t Hv _ _| |h hi' ->]; [done|constructor; [lia|done]|done|]. by apply Forall_cons in Hr' as [_ ?].
Qed.
End translation.

(** * MapLocked *)
Section map.
Context {Extra : Type} (no_extra : Extra).
Context (VaBits PaBits UnmappedVa UnmappedPa AddressSpaceBits : Z) (PaContigSplit : bool).
Context (Hbits : 0 < AddressSpaceBits ≤ VaBits) (Hfirst : 0 ≤ UnmappedVa).
Implicit Types (bs lo mid hi xs rest : list (Block Extra)) (b p q t h : Block Extra).
Local Abbreviation VaLast := (VaMaximum AddressSpaceBits).
Local Abbreviation space_ok := (space_ok (Extra := Extra) UnmappedPa UnmappedVa VaLast).
Local Abbreviation Unmapped := (AddressSpace.Unmapped UnmappedPa).
Local Abbreviation tail_phys := (AddressSpace.tail_phys PaBits UnmappedPa PaContigSplit).
Local Abbreviation tail_mapped := (tail_mapped (Extra := Extra) PaBits UnmappedPa PaContigSplit).
Local Abbreviation seam := (seam (Extra := Extra) PaBits UnmappedPa PaContigSplit).
Local Abbreviation translate := (translate (Extra := Extra) PaBits UnmappedPa PaContigSplit).
Local Abbreviation map_blocks := (AddressSpace.map_blocks no_extra VaBits PaBits UnmappedPa AddressSpaceBits PaContigSplit).

Lemma VaLast_eq : VaLast = 2 ^ AddressSpaceBits - 1.
Proof using Hbits.
  unfold VaMaximum. replace (2 ^ AddressSpaceBits) with (2 ^ (1 + (AddressSpaceBits - 1))) by (f_equal; lia).
  rewrite Z.pow_add_r by lia. lia.
Qed.

Lemma end_small v size : UnmappedVa < v → 0 < size → v + size ≤ VaLast → va_wrap VaBits (v + size) = v + size.
Proof using Hbits Hfirst.
  intros Hv Hs He. unfold va_wrap. apply wrap_small. unfold in_width. rewrite VaLast_eq in He.
  pose proof (Z.pow_le_mono_r 2 AddressSpaceBits VaBits ltac:(lia) ltac:(lia)). lia.
Qed.

Lemma map_start_ok v pa e extra lo p mid h hi :
  virt p < v → from_on v mid → below e mid → virt h = e →
  map_start v pa e extra (S (length lo + length mid)) (lo ++ p :: mid ++ h :: hi)
  = Some (lo ++ p :: MkBlock v pa extra :: h :: hi).
Proof using Type.
  intros Hp Hm Hin Hh. unfold map_start. rewrite walk_successor by done. cbn [mbind option_bind].
  replace (lo ++ p :: mid ++ h :: hi) with ((lo ++ [p]) ++ mid ++ h :: hi) by by rewrite <-(assoc (++)).
  assert (S (length lo) = length (lo ++ [p])) as Elo by (rewrite length_app; simpl; lia).
  destruct mid as [|m mid].
  - cbn [app]. rewrite list_lookup_middle by done. cbn [mbind option_bind]. rewrite Hh, Z.leb_refl, Z.eqb_refl.
    cbn [check mbind option_bind]. rewrite insert_here by done. by rewrite <-(assoc (++)).
  - cbn [app]. rewrite list_lookup_middle by done. cbn [mbind option_bind].
    apply Forall_inv in Hin as Hm'. cbv beta in Hm'. rewrite (proj2 (Z.leb_le _ _)), (proj2 (Z.eqb_neq _ _)) by lia.
    cbn [check mbind option_bind].
    replace ((lo ++ [p]) ++ m :: mid ++ h :: hi) with ((lo ++ [p; m]) ++ mid ++ h :: hi) by (rewrite <-!(assoc (++)); done).
    rewrite (bind_eq _ _ ((lo ++ [p; m]) ++ h :: hi)).
    2: { destruct (Nat.eqb_spec (S (S (length lo))) (S (length lo + length (m :: mid)))) as [Heq|Hne]; cbn [negb].
         - destruct mid as [|m2 mid]; [done|]. simpl in Heq. lia.
         - apply erase_here; rewrite length_app; simpl; lia. }
    cbv beta iota. replace ((lo ++ [p; m]) ++ h :: hi) with ((lo ++ [p]) ++ m :: h :: hi) by (rewrite <-!(assoc (++)); done).
    rewrite set_middle by done. by rewrite <-(assoc (++)).
Qed.

(** A tail takes the place of the last block of the range, or is inserted when there is none. *)
Lemma map_reuse v pa e extra lo p m u hi t :
  virt p < v → from_on v m → below e m → virt t = e →
  map_start v pa e extra (length lo + length (m ++ [u])) (<[(length lo + length (m ++ [u]))%nat := t]> (lo ++ p :: (m ++ [u]) ++ hi))
  = Some (lo ++ p :: [MkBlock v pa extra] ++ t :: hi).
Proof using Type.
  intros Hp Hm Hin Ht. rewrite length_app. cbn [length]. rewrite Nat.add_assoc, Nat.add_1_r.
  replace (lo ++ p :: (m ++ [u]) ++ hi) with ((lo ++ p :: m) ++ u :: hi) by (rewrite <-!(assoc (++)), <-app_comm_cons; done).
  rewrite set_middle by (rewrite length_app; simpl; lia). rewrite <-(assoc (++)). cbn [app]. by apply map_start_ok.
Qed.

Lemma split_insert v pa extra lo p hi t :
  vec_insert (S (length lo + 0)) [MkBlock v pa extra; t] (lo ++ p :: hi) = lo ++ p :: [MkBlock v pa extra] ++ t :: hi.
Proof using Type.
  replace (lo ++ p :: hi) with ((lo ++ [p]) ++ hi) by by rewrite <-(assoc (++)).
  rewrite insert_here by (rewrite length_app; simpl; lia). by rewrite <-(assoc (++)).
Qed.

Lemma overlapped_iff v lo p mid :
  virt p < v → from_on v mid → (negb (length lo + length mid =? 0)%nat && (v <=? virt (end_block p mid))) = negb (bool_decide (mid = [])).
Proof using Type.
  intros Hp Hmid. unfold end_block. destruct (last_cases mid) as [->|(m & u & ->)].
  - simpl. rewrite (proj2 (Z.leb_gt _ _)) by done. by rewrite andb_false_r.
  - rewrite last_snoc. simpl. apply Forall_app in Hmid as [_ Hu]. apply Forall_inv in Hu.
    rewrite (proj2 (Z.leb_le _ _)) by done. rewrite length_app. simpl. rewrite Nat.add_assoc, Nat.add_1_r. by destruct m.
Qed.

Lemma map_blocks_ok v pa size extra bs lo p mid hi :
  space_ok bs → UnmappedVa < v → 0 < size → v + size ≤ VaLast → parts v (v + size) bs lo p mid hi →
  ∃ rest, map_blocks v pa size extra bs = Some (lo ++ p :: [MkBlock v pa extra] ++ rest)
    ∧ ∀ q, seam (end_block p mid) q (v + size) hi rest.
Proof using Hbits Hfirst.
  intros Hok Hv Hs He P. unfold AddressSpace.map_blocks. rewrite (end_small v size Hv Hs He).
  rewrite check_bind_Some by lia. set (e := v + size) in *.
  destruct (range_lookups _ _ _ _ _ _ _ P ltac:(lia)) as (-> & Epe & Ehi).
  cbn [Nat.eqb negb check mbind option_bind Nat.pred]. rewrite Epe. cbn [mbind option_bind].
  pose proof P as [E Hlo Hp Hmid Hin Hhi]. rewrite Ehi, overlapped_iff by done.
  destruct hi as [|h hi']; cbn [head hd_error]; cbv iota.
  - (* the last block is unmapped *)
    assert (Unmapped (end_block p mid) = true) as Hu.
    { destruct (sp_last _ _ _ _ Hok) as (b & Eb & Hb). rewrite E, app_nil_r, end_block_last in Eb. by injection Eb as <-. }
    assert (phys (end_block p mid) = UnmappedPa) as Hph by by apply Z.eqb_eq.
    assert (tail_phys (end_block p mid) e = UnmappedPa) as Htp by (unfold AddressSpace.tail_phys; rewrite Hu; by destruct PaContigSplit).
    destruct (last_cases mid) as [->|(m & u & ->)].
    + rewrite E. cbn [app]. rewrite split_insert. eexists. split; [done|]. intros q. apply seam_tail; [done|by rewrite Htp|constructor].
    + rewrite bool_decide_eq_false_2 by (by destruct m). cbn [negb]. apply Forall_app in Hmid as [Hmid _]. apply Forall_app in Hin as [Hin _].
      rewrite E, map_reuse by done. eexists. split; [done|]. intros q. apply seam_tail; [done|by rewrite Htp|constructor].
  - destruct (Z.eqb_spec (virt h) e) as [Heq|Hne]; cbn [negb].
    + exists (h :: hi'). split; [|intros q; by eapply seam_next]. rewrite E. by apply map_start_ok.
    + pose proof (after_gap _ _ _ _ _ _ _ _ _ _ _ Hok P Hne) as Hgt.
      destruct (last_cases mid) as [->|(m & u & ->)].
      * rewrite E. cbn [app]. rewrite split_insert. eexists. split; [done|]. intros q. by apply seam_tail.
      * rewrite bool_decide_eq_false_2 by (by destruct m). cbn [negb]. apply Forall_app in Hmid as [Hmid _]. apply Forall_app in Hin as [Hin _].
        rewrite E, map_reuse by done. eexists. split; [done|]. intros q. by apply seam_tail.
Qed.

(** * UnmapLocked *)
Local Abbreviation unmap_blocks := (AddressSpace.unmap_blocks no_extra VaBits PaBits UnmappedPa PaContigSplit).
Local Abbreviation erase_end := (AddressSpace.erase_blocks_with_end_unmapped UnmappedPa).
Local Abbreviation unmap_start := (AddressSpace.unmap_start no_extra UnmappedPa).

Lemma Mapped_negb b : Mapped UnmappedPa b = negb (Unmapped b).
Proof using Type. done. Qed.

(** What [unmap_start] leaves between the block before the range and the block that begins at
    its end. *)
Definition unmapped_head (v : Z) p mid : list (Block Extra) :=
  match mid with
  | [] => if Unmapped p then [] else [MkBlock v UnmappedPa no_extra]
  | m :: _ => if Unmapped p then [end_block p mid] else [MkBlock v UnmappedPa (extra_info m)]
  end.

Lemma unmap_start_ok v e lo p mid h hi :
  virt p < v → from_on v mid → below e mid → virt h = e → v ≤ e →
  unmap_start v e (length lo + length mid) (S (length lo + length mid)) (lo ++ p :: mid ++ h :: hi)
  = Some (lo ++ p :: unmapped_head v p mid ++ h :: hi).
Proof using Type.
  intros Hp Hm Hin Hh Hve. unfold AddressSpace.unmap_start.
  assert (walk_to_predecessor v (S (length lo + length mid)) (lo ++ p :: mid ++ h :: hi) = Some (length lo)) as ->.
  { rewrite <-(walk_predecessor v lo p (mid ++ [h]) hi), length_app, <-(assoc (++)); [f_equal; simpl; lia|done|].
    apply Forall_app. split; [done|]. constructor; [lia|constructor]. }
  cbn [mbind option_bind]. rewrite (list_lookup_middle lo (mid ++ h :: hi) p (length lo)) by done. cbn [mbind option_bind].
  replace (lo ++ p :: mid ++ h :: hi) with ((lo ++ [p]) ++ mid ++ h :: hi) by by rewrite <-(assoc (++)).
  assert (S (length lo) = length (lo ++ [p])) as Elo by (rewrite length_app; simpl; lia).
  destruct mid as [|m mid].
  - cbn [app]. rewrite list_lookup_middle by done. cbn [mbind option_bind]. rewrite Hh, Z.leb_refl, Z.eqb_refl.
    cbn [check mbind option_bind]. rewrite Mapped_negb. unfold unmapped_head. destruct (Unmapped p); cbn [negb].
    + by rewrite <-(assoc (++)).
    + rewrite insert_here by done. by rewrite <-(assoc (++)).
  - cbn [app]. rewrite list_lookup_middle by done. cbn [mbind option_bind].
    apply Forall_inv in Hin as Hm'. cbv beta in Hm'. rewrite (proj2 (Z.leb_le _ _)), (proj2 (Z.eqb_neq _ _)) by lia.
    cbn [check mbind option_bind]. unfold unmapped_head. destruct (Unmapped p).
    + destruct (last_cases (m :: mid)) as [|(l & u & Hl)]; [done|]. unfold end_block. rewrite Hl, last_snoc.
      change ((lo ++ [p]) ++ m :: mid ++ h :: hi) with ((lo ++ [p]) ++ (m :: mid) ++ h :: hi). rewrite Hl, length_app.
      replace ((lo ++ [p]) ++ (l ++ [u]) ++ h :: hi) with ((lo ++ [p]) ++ l ++ u :: h :: hi) by (rewrite <-!(assoc (++)); done).
      rewrite (erase_here _ _ (lo ++ [p]) l) by (rewrite ?length_app; simpl; lia). by rewrite <-(assoc (++)).
    + replace ((lo ++ [p]) ++ m :: mid ++ h :: hi) with ((lo ++ [p; m]) ++ mid ++ h :: hi) by (rewrite <-!(assoc (++)); done).
      rewrite (bind_eq _ _ ((lo ++ [p; m]) ++ h :: hi)).
      2: { destruct (Nat.eqb_spec (S (S (length lo))) (S (length lo + length (m :: mid)))) as [Heq|Hne]; cbn [negb].
           - destruct mid as [|m2 mid]; [done|]. simpl in Heq. lia.
           - apply erase_here; rewrite length_app; simpl; lia. }
      cbv beta iota. replace ((lo ++ [p; m]) ++ h :: hi) with ((lo ++ [p]) ++ m :: h :: hi) by (rewrite <-!(assoc (++)); done).
      rewrite set_middle by done. by rewrite <-(assoc (++)).
Qed.

(** The erasure up to an unmapped block [u]: its assertion is false when the block before the
    range is mapped and [u] follows it. *)
Lemma erase_end_ok v lo p mid u hi :
  virt p < v → from_on v (mid ++ [u]) → Unmapped u = true → (∀ b, head hi = Some b → Unmapped u && Unmapped b = false) →
  erase_end v (S (length lo + length mid)) (lo ++ p :: mid ++ u :: hi)
  = if Unmapped p then Some (lo ++ p :: hi)
    else match mid with [] => None | _ => Some (lo ++ p :: MkBlock v (phys u) (extra_info u) :: hi) end.
Proof using Type.
  intros Hp Hm Hu Hnext. unfold AddressSpace.erase_blocks_with_end_unmapped.
  replace (lo ++ p :: mid ++ u :: hi) with (lo ++ p :: (mid ++ [u]) ++ hi) by by rewrite <-(assoc (++)).
  replace (S (length lo + length mid)) with (length lo + length (mid ++ [u]))%nat by (rewrite length_app; simpl; lia).
  rewrite walk_predecessor by done. cbn [mbind option_bind].
  rewrite (list_lookup_middle lo ((mid ++ [u]) ++ hi) p (length lo)) by done. cbn [mbind option_bind].
  replace (lo ++ p :: (mid ++ [u]) ++ hi) with ((lo ++ p :: mid) ++ u :: hi) by (rewrite <-!(assoc (++)); done).
  assert (length lo + length (mid ++ [u]) = length (lo ++ p :: mid))%nat as El by (rewrite !length_app; simpl; lia).
  rewrite list_lookup_middle by done. cbn [mbind option_bind]. rewrite El.
  destruct (Unmapped p) eqn:Ep.
  - assert (((lo ++ p :: mid) ++ u :: hi) !! S (length (lo ++ p :: mid)) = head hi) as ->.
    { rewrite lookup_app_r by lia. replace (S (length (lo ++ p :: mid)) - length (lo ++ p :: mid))%nat with 1%nat by lia.
      simpl. by rewrite head_lookup. }
    rewrite check_bind_Some.
    2: { destruct (head hi) as [b|] eqn:Eb; [|done]. specialize (Hnext b eq_refl). rewrite Hu in Hnext. cbn [andb] in *.
         rewrite Hnext, orb_false_r. rewrite (proj2 (Nat.eqb_neq _ _)); [done|]. rewrite length_app. simpl. lia. }
    replace ((lo ++ p :: mid) ++ u :: hi) with ((lo ++ [p]) ++ (mid ++ [u]) ++ hi) by (rewrite <-!(assoc (++)); done).
    rewrite erase_here by (rewrite ?length_app; simpl; lia). by rewrite <-(assoc (++)).
  - rewrite set_middle by done. rewrite list_lookup_middle by done. rewrite andb_false_l, orb_false_r.
    destruct mid as [|m mid].
    + rewrite (proj2 (Nat.eqb_eq _ _)); [done|]. rewrite length_app. simpl. lia.
    + rewrite (proj2 (Nat.eqb_neq _ _)) by (rewrite length_app; simpl; lia). cbn [negb check mbind option_bind].
      replace ((lo ++ p :: m :: mid) ++ MkBlock v (phys u) (extra_info u) :: hi)
        with ((lo ++ [p]) ++ (m :: mid) ++ MkBlock v (phys u) (extra_info u) :: hi) by (rewrite <-!(assoc (++)); done).
      rewrite erase_here by (rewrite ?length_app; simpl; lia). by rewrite <-(assoc (++)).
Qed.

(** The assertion of [erase_blocks_with_end_unmapped] is false: what is unmapped is the end of the
    mapped block [p], next to an unmapped block. *)
Definition trips (v e : Z) p mid hi : bool :=
  negb (Unmapped p)
  && match mid with
     | [] => match hi with h :: _ => (virt h =? e) && Unmapped h | [] => false end
     | [u] => Unmapped u && (v <? virt u)
     | _ => false
     end.

(** A block of the range stays: the block before the range is unmapped, the range ends in a
    mapped block and another mapped block comes behind it. *)
Definition leaves (e : Z) p mid hi : bool :=
  Unmapped p && negb (Unmapped (end_block p mid))
  && match hi with
     | h :: _ => if virt h =? e then negb (Unmapped h) && (1 <=? length mid)%nat else (2 <=? length mid)%nat
     | [] => false
     end.

(** What replaces the range. *)
Record unmapped_range (v e : Z) p mid hi xs rest : Prop := {
  ur_seam : seam (end_block p mid) (end_block p xs) e hi rest;
  ur_new : if leaves e p mid hi then Unmapped p = true ∧ ∃ b, b ∈ mid ∧ xs = [b]
           else (xs = [] ∧ Unmapped p = true ∨ ∃ x, xs = [x] ∧ virt x = v ∧ Unmapped x = true ∧ Unmapped p = false)
             ∧ ∀ b, head rest = Some b → Unmapped b = false;
}.

(** The outcome: the new vector, or the assertion. *)
Definition unmaps (v e : Z) lo p mid hi (r : option (list (Block Extra))) : Prop :=
  match r with
  | Some bs => trips v e p mid hi = false ∧ ∃ xs rest, bs = lo ++ p :: xs ++ rest ∧ unmapped_range v e p mid hi xs rest
  | None => trips v e p mid hi = true
  end.

Lemma erase_range v e p mid hi u (hi' m : list (Block Extra)) :
  (* [u] is the last block of the range or begins at its end *)
  Unmapped u = true → (∀ b, head hi' = Some b → Unmapped b = false) →
  leaves e p mid hi = false → (∀ q, Unmapped q = true → seam (end_block p mid) q e hi hi') →
  (trips v e p mid hi = negb (Unmapped p) && bool_decide (m = [])) → ∀ lo : list (Block Extra),
  unmaps v e lo p mid hi
    (if Unmapped p then Some (lo ++ p :: hi')
     else match m with [] => None | _ => Some (lo ++ p :: MkBlock v (phys u) (extra_info u) :: hi') end).
Proof using Type.
  intros Hu Hnext Hl Hseam Htr lo. unfold unmaps. rewrite Htr. destruct (Unmapped p) eqn:Ep; cbn [negb andb].
  - split; [done|]. exists [], hi'. split; [done|]. split; [by apply Hseam|]. rewrite Hl. split; [by left|done].
  - destruct m as [|m0 m]; [done|]. split; [done|]. exists [MkBlock v (phys u) (extra_info u)], hi'. split; [done|].
    split; [by apply Hseam|]. rewrite Hl. split; [|done]. right. eexists. by split_and!.
Qed.

Lemma start_range v e p mid hi h (hi' m : list (Block Extra)) :
  Unmapped (end_block p mid) = false → Unmapped h = false → trips v e p mid hi = false →
  (∀ q, seam (end_block p mid) q e hi (h :: hi')) → (∀ b, b ∈ m → b ∈ mid) →
  leaves e p mid hi = Unmapped p && negb (bool_decide (m = [])) →
  unmapped_range v e p mid hi (unmapped_head v p m) (h :: hi').
Proof using Type.
  intros Hpe Hh Ht Hseam Hm Hl. split; [apply Hseam|]. rewrite Hl. unfold unmapped_head.
  assert (∀ x : Extra, Unmapped (MkBlock v UnmappedPa x) = true) as Hx by (intros x; apply Z.eqb_refl).
  destruct (Unmapped p) eqn:Ep; cbn [andb].
  - destruct m as [|m0 m]; cbn [negb bool_decide].
    + rewrite bool_decide_eq_true_2 by done. split; [by left|]. by intros b [= <-].
    + rewrite bool_decide_eq_false_2 by done. split; [done|]. exists (end_block p (m0 :: m)). split; [|done].
      apply Hm. unfold end_block. destruct (last_cases (m0 :: m)) as [|(l & y & ->)]; [done|]. rewrite last_snoc. clear Hbits Hfirst. set_solver.
  - split; [|by intros b [= <-]]. right. destruct m; (eexists; split; [done|]; split_and!; [done|apply Hx|done]).
Qed.

Lemma next_mapped bs lo b hi : space_ok bs → bs = lo ++ b :: hi → Unmapped b = true → ∀ c, head hi = Some c → Unmapped c = false.
Proof using Type.
  intros [_ Hl _ _] -> Hb c Hc. apply linked_app in Hl as (_ & Hl & _). apply linked_cons in Hl as [Hs _].
  destruct (Hs c Hc) as [_ Hs']. by rewrite Hb in Hs'.
Qed.

Lemma tail_of_mapped p e : Unmapped p = false → (if PaContigSplit then wrap PaBits (phys p + e - virt p) else phys p) = tail_phys p e.
Proof using Type. intros Hp. unfold AddressSpace.tail_phys. rewrite Hp. by destruct PaContigSplit. Qed.

Lemma end_block_snoc p mid u : end_block p (mid ++ [u]) = u.
Proof using Type. unfold end_block. by rewrite last_snoc. Qed.

(** An unmapped block that ends the range and begins at its start or before is the only one. *)
Lemma unmapped_end_single v e bs lo p mid hi :
  space_ok bs → parts v e bs lo p mid hi → Unmapped (end_block p mid) = true → virt (end_block p mid) ≤ v →
  (mid = [] ∧ Unmapped p = true) ∨ ∃ u, mid = [u] ∧ virt u = v ∧ Unmapped u = true ∧ Unmapped p = false.
Proof using Type.
  intros Hok [E Hlo Hp Hmid Hin Hhi] Hu Hv. destruct (last_cases mid) as [->|(m & u & ->)]; [by left|right].
  rewrite end_block_snoc in Hu, Hv. apply Forall_app in Hmid as [Hmid Huv]. apply Forall_inv in Huv. cbv beta in Huv.
  pose proof (sp_linked _ _ _ _ Hok) as Hl. rewrite E in Hl. apply linked_app in Hl as (_ & Hl & _).
  assert (m = []) as ->.
  { destruct m as [|m0 m]; [done|]. exfalso. apply Forall_inv in Hmid. cbv beta in Hmid.
    assert (below (virt u) (p :: m0 :: m)) as Hb.
    { apply linked_below. apply linked_virt in Hl. change (linked (λ a b : Block Extra, virt a < virt b) ((p :: (m0 :: m) ++ [u]) ++ hi)) in Hl.
      by apply linked_app in Hl as (Hl & _ & _). }
    apply Forall_inv_tail, Forall_inv in Hb. cbv beta in Hb. lia. }
  exists u. split_and!; [done|lia|done|]. apply linked_cons in Hl as [Hl _]. destruct (Hl u eq_refl) as [_ Hl'].
  by rewrite Hu, andb_true_r in Hl'.
Qed.

(** The range ends in an unmapped block. *)
Lemma unmap_unmapped_ok v e bs lo p mid hi :
  space_ok bs → v < e → parts v e bs lo p mid hi → Unmapped (end_block p mid) = true →
  unmaps v e lo p mid hi (if v <? virt (end_block p mid) then erase_end v (length lo + length mid) bs else Some bs).
Proof using Type.
  intros Hok He P Eu. pose proof P as [E Hlo Hp Hmid Hin Hhi]. 
  assert (∀ b, head hi = Some b → Unmapped b = false) as Hnext.
  { intros b Hb. rewrite E in Hok. replace (lo ++ p :: mid ++ hi) with ((lo ++ p :: mid) ++ hi) in Hok by by rewrite <-(assoc (++)).
    pose proof (sp_linked _ _ _ _ Hok) as (_ & _ & Hl)%linked_app.
    destruct (Hl _ b (end_block_last p mid lo) Hb) as [_ Hl']. by rewrite Eu in Hl'. }
  assert (leaves e p mid hi = false) as Hleaves by (unfold leaves; by rewrite Eu, andb_false_r).
  destruct (Z.ltb_spec v (virt (end_block p mid))) as [Hlt|Hge].
  - destruct (last_cases mid) as [->|(m & u & ->)]; [change (v < virt p) in Hlt; lia|]. rewrite end_block_snoc in Eu, Hlt.
    rewrite E, length_app. cbn [length]. rewrite Nat.add_assoc, Nat.add_1_r.
    replace (lo ++ p :: (m ++ [u]) ++ hi) with (lo ++ p :: m ++ u :: hi) by (rewrite <-!(assoc (++)); done).
    rewrite erase_end_ok; [|done|done|done|by intros b Hb; rewrite (Hnext b Hb), andb_false_r].
    apply (erase_range v e p (m ++ [u]) hi u hi m); try done.
    + intros q Hq. rewrite end_block_snoc. by apply seam_behind.
    + unfold trips. f_equal. destruct m as [|m0 [|m1 m]]; simpl; [rewrite Eu; by rewrite (proj2 (Z.ltb_lt _ _))|done..].
  - destruct (unmapped_end_single v e bs lo p mid hi Hok P Eu Hge) as [[-> Hpu]|(u & -> & Huv & Huu & Hpu)].
    + split; [unfold trips; by rewrite Hpu|]. exists [], hi. split; [done|]. split; [by apply seam_behind|]. rewrite Hleaves. split; [by left|done].
    + split; [unfold trips; rewrite (proj2 (Z.ltb_ge _ _)) by lia; by rewrite !andb_false_r|]. exists [u], hi. split; [done|].
      split; [by apply seam_behind|]. rewrite Hleaves. split; [|done]. right. by exists u.
Qed.

Lemma trips_mapped v e p mid hi :
  Unmapped (end_block p mid) = false → (∀ h, head hi = Some h → (virt h =? e) && Unmapped h = false) → trips v e p mid hi = false.
Proof using Type.
  intros Hu Hh. unfold trips. destruct mid as [|u [|]]; [|change (Unmapped u = false) in Hu; rewrite Hu; by rewrite andb_false_r|by rewrite andb_false_r].
  destruct hi as [|h hi]; [by rewrite andb_false_r|]. by rewrite (Hh h eq_refl), andb_false_r.
Qed.

(** The range ends in a mapped block and another begins at its end. *)
Lemma unmap_next_ok v e bs lo p mid h hi :
  space_ok bs → v < e → parts v e bs lo p mid (h :: hi) → Unmapped (end_block p mid) = false → virt h = e →
  unmaps v e lo p mid (h :: hi)
    (if Unmapped h then erase_end v (S (length lo + length mid)) bs
     else unmap_start v e (length lo + length mid) (S (length lo + length mid)) bs).
Proof using Type.
  intros Hok He P Eu Heq. pose proof P as [E Hlo Hp Hmid Hin Hhi]. destruct (Unmapped h) eqn:Euh.
  - assert (∀ b, head hi = Some b → Unmapped b = false) as Hnext.
    { apply (next_mapped bs (lo ++ p :: mid) h hi); [done|by rewrite E, <-(assoc (++))|done]. }
    rewrite E, erase_end_ok; [|done| |done|by intros b Hb; rewrite (Hnext b Hb), andb_false_r].
    + apply (erase_range v e p mid (h :: hi) h hi mid); try done.
      * unfold leaves. rewrite Heq, Z.eqb_refl, Euh. by rewrite !andb_false_r.
      * intros q Hq. by eapply seam_over.
      * unfold trips. f_equal. rewrite Heq, Z.eqb_refl, Euh. destruct mid as [|u [|]]; [done| |done].
        change (Unmapped u = false) in Eu. by rewrite Eu.
    + apply Forall_app. split; [done|]. constructor; [lia|constructor].
  - rewrite E, unmap_start_ok by (done || lia).
    assert (trips v e p mid (h :: hi) = false) as Htr by (apply trips_mapped; [done|intros b [= <-]; by rewrite Euh, andb_false_r]).
    split; [done|]. exists (unmapped_head v p mid), (h :: hi). split; [done|].
    apply (start_range v e p mid (h :: hi) h hi mid); try done; [intros q; by eapply seam_next|].
    unfold leaves. rewrite Heq, Z.eqb_refl, Eu, Euh. cbn [negb andb]. rewrite andb_true_r. f_equal. by destruct mid.
Qed.

(** The range ends inside a mapped block, whose tail stays. *)
Lemma unmap_tail_ok v e bs lo p mid h hi :
  space_ok bs → v < e → parts v e bs lo p mid (h :: hi) → Unmapped (end_block p mid) = false → virt h ≠ e →
  tail_mapped (end_block p mid) e → ∀ t, t = MkBlock e (tail_phys (end_block p mid) e) (extra_info (end_block p mid)) →
  unmaps v e lo p mid (h :: hi)
    (if v <=? virt (end_block p mid) then
       check (negb (length lo + length mid =? 0)%nat);;
       unmap_start v e (Nat.pred (length lo + length mid)) (length lo + length mid) (<[(length lo + length mid)%nat := t]> bs)
     else Some (vec_insert (S (length lo + length mid)) [MkBlock v UnmappedPa no_extra; t] bs)).
Proof using Type.
  intros Hok He P Eu Hne Htm t Et. pose proof P as [E Hlo Hp Hmid Hin Hhi].
  assert (virt t = e ∧ phys t = tail_phys (end_block p mid) e) as [Hvt Hpt] by by rewrite Et.
  assert (trips v e p mid (h :: hi) = false) as Htr.
  { apply trips_mapped; [done|]. intros b [= <-]. by rewrite (proj2 (Z.eqb_neq _ _)). }
  pose proof (after_gap _ _ _ _ _ _ _ _ _ _ _ Hok P Hne) as Hgt.
  assert (Unmapped t = false) as Eut by (rewrite (tail_unmapped PaBits UnmappedPa PaContigSplit _ t e Htm Hpt); done).
  assert (∀ q, seam (end_block p mid) q e (h :: hi) (t :: h :: hi)) as Hseam by (intros q; by apply seam_tail).
  destruct (last_cases mid) as [->|(m & u & ->)].
  - change (Unmapped p = false) in Eu. change (end_block p []) with p. rewrite (proj2 (Z.leb_gt v (virt p))) by done.
    rewrite E. cbn [length app]. rewrite Nat.add_0_r.
    replace (lo ++ p :: h :: hi) with ((lo ++ [p]) ++ h :: hi) by by rewrite <-(assoc (++)).
    rewrite insert_here by (rewrite length_app; simpl; lia). split; [done|].
    exists [MkBlock v UnmappedPa no_extra], (t :: h :: hi). split; [by rewrite <-(assoc (++))|].
    pose proof (start_range v e p [] (h :: hi) t (h :: hi) [] Eu Eut Htr Hseam) as Hr.
    unfold unmapped_head in Hr. rewrite Eu in Hr. apply Hr; [done|]. unfold leaves. by rewrite Eu.
  - rewrite end_block_snoc in *.
    apply Forall_app in Hmid as [Hmid Hu]. apply Forall_inv in Hu. cbv beta in Hu. apply Forall_app in Hin as [Hin _].
    rewrite (proj2 (Z.leb_le v (virt u))) by done. rewrite length_app. cbn [length].
    rewrite Nat.add_assoc, Nat.add_1_r. cbn [Nat.eqb negb check mbind option_bind Nat.pred]. rewrite E.
    replace (lo ++ p :: (m ++ [u]) ++ h :: hi) with ((lo ++ p :: m) ++ u :: h :: hi) by (rewrite <-!(assoc (++)); done).
    rewrite set_middle by (rewrite length_app; simpl; lia).
    replace ((lo ++ p :: m) ++ t :: h :: hi) with (lo ++ p :: m ++ t :: h :: hi) by by rewrite <-(assoc (++)).
    rewrite unmap_start_ok by (done || lia). split; [done|]. exists (unmapped_head v p m), (t :: h :: hi). split; [done|].
    apply (start_range v e p (m ++ [u]) (h :: hi) t (h :: hi) m); try done; [by rewrite end_block_snoc| |clear Hbits Hfirst; set_solver|].
    + by rewrite end_block_snoc.
    + unfold leaves. rewrite end_block_snoc, Eu, (proj2 (Z.eqb_neq _ _)) by done. cbn [negb andb]. rewrite andb_true_r. f_equal.
      rewrite length_app. destruct m as [|m0 m]; [done|]. simpl. by rewrite Nat.add_1_r.
Qed.

Lemma unmap_blocks_ok v size limit bs lo p mid hi :
  space_ok bs → UnmappedVa < v → 0 < size → v + size ≤ limit → limit ≤ VaLast → parts v (v + size) bs lo p mid hi →
  tail_mapped (end_block p mid) (v + size) → unmaps v (v + size) lo p mid hi (unmap_blocks v size limit bs).
Proof using Hbits Hfirst.
  intros Hok Hv Hs He Hlim P Htm. unfold AddressSpace.unmap_blocks. rewrite (end_small v size Hv Hs ltac:(lia)).
  rewrite check_bind_Some by lia. set (e := v + size) in *.
  destruct (range_lookups _ _ _ _ _ _ _ P ltac:(lia)) as (-> & Epe & Ehi).
  cbn [Nat.eqb negb check mbind option_bind Nat.pred]. rewrite Epe. cbn [mbind option_bind].
  destruct (Unmapped (end_block p mid)) eqn:Eu; [apply unmap_unmapped_ok; done || lia|].
  (* the range ends in a mapped block, so another one follows *)
  destruct hi as [|h hi].
  { exfalso. destruct (sp_last _ _ _ _ Hok) as (b & Eb & Hb). rewrite (pt_eq _ _ _ _ _ _ _ P), app_nil_r, end_block_last in Eb.
    injection Eb as <-. congruence. }
  rewrite Ehi. cbn [head hd_error mbind option_bind]. destruct (Z.eqb_spec (virt h) e) as [Heq|Hne]; cbn [andb negb].
  - apply unmap_next_ok; done || lia.
  - rewrite (tail_of_mapped _ e Eu). cbn [mbind option_bind]. by apply (unmap_tail_ok v e bs lo p mid h hi); try done; lia.
Qed.

(** * What mapping and unmapping do *)

(** No block that is cut at [e] has a mapped address that looks unmapped there. *)
Definition splittable bs (e : Z) : Prop := ∀ b, b ∈ bs → tail_mapped b e.

Lemma splittable_end v e bs lo p mid hi : parts v e bs lo p mid hi → splittable bs e → tail_mapped (end_block p mid) e.
Proof using Type.
  intros [-> _ _ _ _ _] Hs. apply Hs. unfold end_block. clear Hbits Hfirst.
  destruct (last_cases mid) as [->|(l & y & ->)]; rewrite ?last_snoc; simpl; set_solver.
Qed.

Lemma phys_at_unmapped b va : Unmapped b = true → phys_at PaBits UnmappedPa PaContigSplit b va = UnmappedPa.
Proof using Type. intros Hb. unfold phys_at. by rewrite Hb. Qed.

Lemma block_at_singleton b va : block_at [b] va = if decide (virt b ≤ va) then Some b else None.
Proof using Type. unfold block_at. cbn [filter list_filter]. by destruct (decide (virt b ≤ va)). Qed.

(** The vector, its callback and its translation after a range has been mapped. *)
Lemma map_shape v pa size extra (m : AddressSpace Extra) lo p mid hi :
  space_ok (blocks m) → UnmappedVa < v → 0 < size → v + size ≤ VaLast → pa ≠ UnmappedPa → parts v (v + size) (blocks m) lo p mid hi →
  tail_mapped (end_block p mid) (v + size) →
  ∃ rest m', MapLocked no_extra VaBits PaBits UnmappedPa AddressSpaceBits PaContigSplit v pa size extra m = Some m'
    ∧ blocks m' = lo ++ p :: [MkBlock v pa extra] ++ rest ∧ va_limit m' = va_limit m
    ∧ unmap_callback m' = option_map (λ l, l ++ [(v, size)]) (unmap_callback m)
    ∧ seam (end_block p mid) (MkBlock v pa extra) (v + size) hi rest ∧ space_ok (blocks m')
    ∧ ∀ va, translate (blocks m') va
        = if decide (v ≤ va < v + size) then (if PaContigSplit then wrap PaBits (pa + va - v) else pa)
          else translate (blocks m) va.
Proof using Hbits Hfirst.
  intros Hok Hv Hs He Hpa P Htm. unfold MapLocked.
  destruct (map_blocks_ok v pa size extra _ lo p mid hi Hok Hv Hs He P) as (rest & -> & Hseam). cbn [mbind option_bind].
  set (x := MkBlock v pa extra) in *. assert (Unmapped x = false) as Hx by by apply Z.eqb_neq. specialize (Hseam x).
  exists rest. eexists. split; [done|]. cbn [blocks va_limit unmap_callback call_back with_blocks].
  split; [done|]. split; [done|]. split; [done|]. split; [done|]. split.
  - apply (new_ok PaBits UnmappedPa PaContigSplit UnmappedVa VaLast v (v + size) (blocks m) lo p mid hi [x] rest); try done; [lia| |].
    + right. exists x. split_and!; [done|done|]. by rewrite Hx, andb_false_r.
    + intros b _. unfold end_block. simpl. by rewrite Hx.
  - intros va. rewrite (translate_new PaBits UnmappedPa PaContigSplit v (v + size) (blocks m) lo p mid hi [x] rest);
      [|done|lia|done|done|by repeat constructor|repeat constructor; simpl; lia].
    destruct (decide _) as [Hva|]; [|done]. rewrite block_at_singleton, decide_True by (simpl; lia). unfold phys_at. simpl. by rewrite Hx.
Qed.

(** Likewise after a range has been unmapped, when the assertion holds and nothing is left. *)
Lemma unmap_shape v size (m : AddressSpace Extra) lo p mid hi xs rest :
  space_ok (blocks m) → 0 < size → v + size ≤ VaLast →
  tail_mapped (end_block p mid) (v + size) → parts v (v + size) (blocks m) lo p mid hi →
  unmapped_range v (v + size) p mid hi xs rest → leaves (v + size) p mid hi = false →
  space_ok (lo ++ p :: xs ++ rest)
  ∧ ∀ va, translate (lo ++ p :: xs ++ rest) va = if decide (v ≤ va < v + size) then UnmappedPa else translate (blocks m) va.
Proof using Hbits Hfirst.
  intros Hok Hs He Htm P [Hseam Hnew] Hleaves. rewrite Hleaves in Hnew. destruct Hnew as [Hxs Hnext]. split.
  - apply (new_ok PaBits UnmappedPa PaContigSplit UnmappedVa VaLast v (v + size) (blocks m) lo p mid hi xs rest); try done; [lia| |].
    + destruct Hxs as [[-> _]|(x & -> & Hx & Hu & Hp)]; [by left|right]. exists x. split_and!; [done|done|]. by rewrite Hp.
    + intros b Hb. by rewrite (Hnext b Hb), andb_false_r.
  - intros va. rewrite (translate_new PaBits UnmappedPa PaContigSplit v (v + size) (blocks m) lo p mid hi xs rest); try done; [|lia|..].
    + destruct (decide _) as [Hva|]; [|done]. destruct Hxs as [[-> Hp]|(x & -> & Hx & Hu & Hp)].
      * by apply phys_at_unmapped.
      * rewrite block_at_singleton, decide_True by lia. by apply phys_at_unmapped.
    + destruct Hxs as [[-> _]|(x & -> & <- & _)]; by repeat constructor.
    + destruct Hxs as [[-> _]|(x & -> & <- & _)]; repeat constructor. lia.
Qed.

(** C23: Mapping a range leaves the vector in order, gives its addresses consecutive physical
    addresses (one and the same without [PaContigSplit]) and changes no other; the callback is
    told of the range. *)
Theorem MapLocked_correct v pa size extra (m : AddressSpace Extra) :
  space_ok (blocks m) → UnmappedVa < v → 0 < size → v + size ≤ VaLast → pa ≠ UnmappedPa → splittable (blocks m) (v + size) →
  ∃ m', MapLocked no_extra VaBits PaBits UnmappedPa AddressSpaceBits PaContigSplit v pa size extra m = Some m'
    ∧ space_ok (blocks m') ∧ va_limit m' = va_limit m
    ∧ unmap_callback m' = option_map (λ l, l ++ [(v, size)]) (unmap_callback m)
    ∧ ∀ va, translate (blocks m') va
        = if decide (v ≤ va < v + size) then (if PaContigSplit then wrap PaBits (pa + va - v) else pa)
          else translate (blocks m) va.
Proof using Hbits Hfirst.
  intros Hok Hv Hs He Hpa Hsp. destruct (parts_exist _ _ _ v (v + size) _ Hok Hv ltac:(lia)) as (lo & p & mid & hi & P).
  pose proof (splittable_end _ _ _ _ _ _ _ P Hsp) as Htm.
  destruct (map_shape v pa size extra m lo p mid hi) as (rest & m' & Hm & _ & Hl & Hc & _ & Hok' & Ht); [done..|].
  by exists m'.
Qed.

(** C24: Unmapping a range either finds its assertion false ([trips]: only when the range takes the
    end of a mapped block that begins before it, up to the unmapped block behind it or into that
    block), or changes no address outside of the range, and either unmaps it and
    leaves the vector in order, or leaves one of its blocks ([leaves]). *)
Theorem UnmapLocked_correct v size (m : AddressSpace Extra) lo p mid hi :
  space_ok (blocks m) → UnmappedVa < v → 0 < size → v + size ≤ va_limit m → va_limit m ≤ VaLast →
  splittable (blocks m) (v + size) → parts v (v + size) (blocks m) lo p mid hi →
  match UnmapLocked no_extra VaBits PaBits UnmappedPa PaContigSplit v size m with
  | None => trips v (v + size) p mid hi = true
  | Some m' =>
      trips v (v + size) p mid hi = false
      ∧ va_limit m' = va_limit m ∧ unmap_callback m' = option_map (λ l, l ++ [(v, size)]) (unmap_callback m)
      ∧ (∀ va, ¬ v ≤ va < v + size → translate (blocks m') va = translate (blocks m) va)
      ∧ if leaves (v + size) p mid hi then
          ∃ b, b ∈ mid ∧ ∀ va, v ≤ va < v + size →
            translate (blocks m') va
            = if decide (virt b ≤ va) then phys_at PaBits UnmappedPa PaContigSplit b va else UnmappedPa
        else space_ok (blocks m') ∧ ∀ va, v ≤ va < v + size → translate (blocks m') va = UnmappedPa
  end.
Proof using Hbits Hfirst.
  intros Hok Hv Hs He Hlim Hsp P. pose proof (splittable_end _ _ _ _ _ _ _ P Hsp) as Htm. unfold UnmapLocked.
  pose proof (unmap_blocks_ok v size (va_limit m) _ lo p mid hi Hok Hv Hs He Hlim P Htm) as Hres.
  destruct (AddressSpace.unmap_blocks _ _ _ _ _ _ _ _ _) as [bs|]; [|done]. cbn [mbind option_bind].
  destruct Hres as (Htr & xs & rest & -> & Hr).
  cbn [blocks va_limit unmap_callback call_back with_blocks]. split; [done|]. split; [done|]. split; [done|].
  destruct (leaves (v + size) p mid hi) eqn:El.
  - destruct Hr as [Hseam Hnew]. rewrite El in Hnew. destruct Hnew as (Hp & b & Hb & ->).
    assert (v ≤ virt b < v + size) as Hvb.
    { destruct P as [_ _ _ Hmid Hin _]. unfold from_on, below in *. rewrite Forall_forall in Hmid, Hin. by split; [apply Hmid|apply Hin]. }
    assert (∀ va, translate (lo ++ p :: [b] ++ rest) va
      = if decide (v ≤ va < v + size) then phys_at PaBits UnmappedPa PaContigSplit (default p (block_at [b] va)) va
        else translate (blocks m) va) as Ht.
    { intros va. apply (translate_new PaBits UnmappedPa PaContigSplit v (v + size) (blocks m) lo p mid hi [b] rest va P); try done; [lia|..];
        repeat constructor; lia. }
    split; [intros va Hva; by rewrite Ht, decide_False|]. exists b. split; [done|]. intros va Hva. rewrite Ht, decide_True by done.
    rewrite block_at_singleton. destruct (decide _); [done|]. by apply phys_at_unmapped.
  - destruct (unmap_shape v size m lo p mid hi xs rest) as [Hok' Ht]; try done; [lia|].
    split; [intros va Hva; by rewrite Ht, decide_False|]. split; [done|]. intros va Hva. by rewrite Ht, decide_True.
Qed.
End map.

(** * The theorems at a concrete space *)
Definition one_mapped (phys_ : Z) : list (Block unit) := [MkBlock 0 0 tt; MkBlock 16 phys_ tt; MkBlock 32 0 tt].

Lemma one_mapped_ok phys_ : phys_ ≠ 0 → space_ok 0 0 (VaMaximum 32) (one_mapped phys_).
Proof.
  intros Hp. unfold one_mapped. split; [by eexists _, _| |by eexists|repeat constructor].
  cbn. unfold step, Unmapped. cbn. by rewrite (proj2 (Z.eqb_neq _ _) Hp).
Qed.

(** Within 32 bits, the tail of the range that begins at 16 is mapped. *)
Lemma one_mapped_splittable e : 0 ≤ e < 2 ^ 31 → splittable 32 0 true (one_mapped 64) e.
Proof.
  intros He b Hb Hu. unfold one_mapped in Hb. rewrite !elem_of_cons in Hb. destruct Hb as [->|[->|[->|Hb]]]; [done| |done|by apply not_elem_of_nil in Hb].
  unfold tail_phys. cbn. rewrite wrap_small; [lia|]. unfold in_width. lia.
Qed.

Lemma MapLocked_correct_witness :
  ∃ m', MapLocked tt 32 32 0 32 true 24 256 16 tt (MkSpace (one_mapped 64) 100 (Some [])) = Some m'
    ∧ unmap_callback m' = Some [(24, 16)] ∧ translate 32 0 true (blocks m') 30 = 262 ∧ translate 32 0 true (blocks m') 20 = 68.
Proof.
  destruct (MapLocked_correct tt 32 32 0 0 32 true ltac:(lia) ltac:(lia) 24 256 16 tt (MkSpace (one_mapped 64) 100 (Some [])))
    as (m' & Hm & _ & _ & Hc & Ht); [by apply one_mapped_ok|lia|lia|done|done|apply one_mapped_splittable; lia|].
  exists m'. split; [exact Hm|]. split; [exact Hc|]. split; rewrite Ht; reflexivity.
Defined.

Lemma UnmapLocked_correct_witness :
  match UnmapLocked tt 32 32 0 true 16 8 (MkSpace (one_mapped 64) 100 None) with
  | Some m' => translate 32 0 true (blocks m') 40 = 0 ∧ translate 32 0 true (blocks m') 30 = 78 ∧ translate 32 0 true (blocks m') 20 = 0
  | None => False
  end.
Proof.
  pose proof (UnmapLocked_correct tt 32 32 0 0 32 true ltac:(lia) ltac:(lia) 16 8 (MkSpace (one_mapped 64) 100 None)
    [] (MkBlock 0 0 tt) [MkBlock 16 64 tt] [MkBlock 32 0 tt]) as H.
  specialize (H (one_mapped_ok 64 ltac:(lia)) ltac:(lia) ltac:(lia) ltac:(done) ltac:(done) (one_mapped_splittable (16 + 8) ltac:(lia))).
  specialize (H ltac:(split; [done|repeat constructor; done..])).
  destruct (UnmapLocked _ _ _ _ _ _ _ _) as [m'|]; [|discriminate H]. destruct H as (_ & _ & _ & Hout & _ & Hin).
  split; [rewrite Hout by lia; reflexivity|]. split; [rewrite Hout by lia; reflexivity|apply Hin; lia].
Defined.

(** Unmapping the end of a mapped block in front of free space. *)
Example partial_unmap_asserts : UnmapLocked tt 32 32 0 true 24 8 (MkSpace (one_mapped 64) 100 None) = None.
Proof. reflexivity. Qed.
