(* ===== verification/FlatAllocatorSpec.v ===== *)
(** What the allocator of a flat address space promises: it hands out free addresses and gives
    back what is freed, with the exceptions of the code. *)
From S2P Require Import Prelude AddressSpace AddressSpaceSpec.

(** * FlatAllocator *)
Section allocator.
Context (VaBits UnmappedVa AddressSpaceBits : Z).
Context (Hbits : 0 < AddressSpaceBits ≤ VaBits) (Hfirst : 0 ≤ UnmappedVa).
Implicit Types (bs lo mid hi xs rest : list (Block unit)) (b p q h : Block unit) (a : Allocator).
Local Abbreviation VaLast := (VaMaximum AddressSpaceBits).
Local Abbreviation space_ok := (space_ok (Extra := unit) 0 UnmappedVa VaLast).
Local Abbreviation translate := (translate (Extra := unit) 1 0 false).
Local Abbreviation seam := (seam (Extra := unit) 1 0 false).
Local Abbreviation Allocate := (AddressSpace.Allocate VaBits UnmappedVa AddressSpaceBits).
Local Abbreviation AllocateFixed := (AddressSpace.AllocateFixed VaBits AddressSpaceBits).
Local Abbreviation Free := (AddressSpace.Free VaBits).

(** The address belongs to an allocation. *)
Definition used bs (va : Z) : Prop := translate bs va ≠ 0.

Lemma is_mapped_negb b : is_mapped b = negb (Unmapped 0 b).
Proof using Type. done. Qed.

Lemma tail_mapped_alloc b (e : Z) : tail_mapped 1 0 false b e.
Proof using Type. intros Hb. unfold AddressSpace.tail_phys. simpl. by apply Z.eqb_neq. Qed.

Lemma phys_at_mapped b va : is_mapped b = true → phys_at 1 0 false b va ≠ 0.
Proof using Type. rewrite is_mapped_negb, negb_true_iff. intros Hb. unfold phys_at. rewrite Hb. by apply Z.eqb_neq. Qed.

(** An allocator that has no fixed allocation: nothing begins behind the linear end, and
    nothing but the first block in front of the start. *)
Record tidy a : Prop := {
  td_ok : space_ok (blocks (space a));
  td_limit : va_limit (space a) ≤ VaLast;
  td_cur : UnmappedVa < current_linear_alloc_end a ≤ va_limit (space a);
  td_start : UnmappedVa < virt_start a ≤ current_linear_alloc_end a;
  td_below : below (current_linear_alloc_end a + 1) (blocks (space a));
  td_above : Forall (λ b, virt b = UnmappedVa ∨ virt_start a ≤ virt b) (blocks (space a));
}.

Lemma FlatAllocator_tidy start limit :
  UnmappedVa < start → start ≤ limit → limit ≤ VaLast →
  ∃ a, FlatAllocator UnmappedVa AddressSpaceBits start limit = Some a ∧ tidy a ∧ virt_start a = start ∧ va_limit (space a) = limit.
Proof using Hbits Hfirst.
  intros Hs Hl Hm. unfold FlatAllocator, FlatAddressSpaceMap. rewrite check_bind_Some by lia. cbn [mbind option_bind].
  eexists. split; [done|]. split; [|done]. split; cbn [blocks va_limit space current_linear_alloc_end virt_start]; try lia.
  - split; [by eexists _, _|done|by eexists|]. constructor; [|constructor]. unfold Block_new. simpl. lia.
  - constructor; [|constructor]. unfold Block_new. simpl. lia.
  - constructor; [by left|constructor].
Qed.

(** ** The linear pass *)
Lemma linear_start_tidy size a :
  tidy a → 0 < size < 2 ^ VaBits →
  linear_start VaBits UnmappedVa size a
  = Some (if current_linear_alloc_end a + size <=? va_limit (space a) then current_linear_alloc_end a else UnmappedVa).
Proof using Hbits Hfirst.
  intros [Hok Hlim Hcur Hst0 Hbel Habv] Hs. unfold linear_start. rewrite (VaLast_eq VaBits AddressSpaceBits Hbits) in Hlim.
  pose proof (Z.pow_le_mono_r 2 AddressSpaceBits VaBits ltac:(lia) ltac:(lia)) as Hp.
  destruct (Z.leb_spec (current_linear_alloc_end a + size) (va_limit (space a))) as [Hfit|Hno].
  - rewrite wrap_small by (unfold in_width; lia). rewrite (proj2 (Z.leb_le _ _)), (proj2 (Z.leb_le _ _)) by lia. cbn [andb].
    destruct Hok as [(f & r & Ef & _) _ _ _].
    assert (lower_bound (blocks (space a)) (current_linear_alloc_end a + size) = length (blocks (space a))) as ->.
    { rewrite <-(app_nil_r (blocks (space a))) at 1. rewrite lower_bound_ok; [done| |constructor]. eapply below_weaken; [|done]. lia. }
    rewrite check_bind_Some by (by rewrite Ef). rewrite <-last_lookup.
    destruct (last (blocks (space a))) as [b|] eqn:El; [|by rewrite Ef in El; apply last_None in El].
    cbn [mbind option_bind]. unfold below in Hbel. rewrite Forall_forall in Hbel.
    rewrite (proj2 (Z.leb_le _ _)); [done|]. specialize (Hbel b ltac:(by apply last_Some_elem_of)). cbv beta in Hbel. lia.
  - destruct (Z_lt_le_dec (current_linear_alloc_end a + size) (2 ^ VaBits)) as [Hw|Hw].
    + rewrite wrap_small by (unfold in_width; lia). by rewrite (proj2 (Z.leb_gt _ (va_limit (space a)))), andb_false_r.
    + assert (wrap VaBits (current_linear_alloc_end a + size) = current_linear_alloc_end a + size - 2 ^ VaBits) as ->.
      { unfold wrap. symmetry. apply Z.mod_unique with 1; lia. }
      by rewrite (proj2 (Z.leb_gt (current_linear_alloc_end a) _)) by lia.
Qed.

(** ** The search for a gap *)
Lemma linked_from p bs : linked (step 0) (p :: bs) → from_on (virt p + 1) bs.
Proof using Type.
  revert p. induction bs as [|s bs IH]; intros p Hl; [constructor|]. pose proof Hl as [Hs Hl']%linked_cons.
  destruct (Hs s eq_refl) as [Hlt _]. constructor; [lia|]. eapply from_on_weaken; [|by apply IH]. lia.
Qed.

Lemma translate_head p bs v : linked (step 0) (p :: bs) → virt p ≤ v → (∀ s, head bs = Some s → v < virt s) →
  translate (p :: bs) v = phys_at 1 0 false p v.
Proof using Type.
  intros Hl Hp Hs. unfold translate. rewrite block_at_head by done.
  destruct bs as [|s bs]; [done|]. rewrite (block_at_none (s :: bs) v (v + 1)); [done|lia|].
  specialize (Hs s eq_refl). constructor; [lia|]. apply linked_cons in Hl as [_ Hl].
  eapply from_on_weaken; [|by apply linked_from]. lia.
Qed.

Lemma used_before_next size p s bs v :
  linked (step 0) (p :: s :: bs) → (virt s - virt p < size ∨ is_mapped p = true) → virt p ≤ v < virt s →
  ∃ x, v ≤ x < v + Z.max 1 size ∧ used (p :: s :: bs) x.
Proof using Type.
  intros Hl Hc Hv. destruct (is_mapped p) eqn:Em.
  - exists v. split; [lia|]. unfold used. rewrite translate_head; [by apply phys_at_mapped|done|lia|]. intros s' [= <-]. lia.
  - destruct Hc as [Hc|]; [|done]. pose proof Hl as [Hs Hl']%linked_cons. destruct (Hs s eq_refl) as [_ Hm].
    rewrite is_mapped_negb in Em. apply negb_false_iff in Em. rewrite Em in Hm. cbn [andb] in Hm. exists (virt s). split; [lia|].
    unfold used. replace (translate (p :: s :: bs) (virt s)) with (translate (s :: bs) (virt s)).
    + rewrite translate_head; [apply phys_at_mapped; by rewrite is_mapped_negb, Hm|done|lia|].
      intros s' Hs'. apply linked_cons in Hl' as [Hn _]. destruct (Hn s' Hs') as [? _]. lia.
    + unfold translate. by rewrite !block_at_head by (simpl; lia).
Qed.

Lemma find_gap_ok size p bs :
  linked (step 0) (p :: bs) → below (VaLast + 1) (p :: bs) → 0 ≤ virt p → 0 < size →
  match find_gap VaBits size p bs with
  | Some va => (∃ l b s l', p :: bs = l ++ b :: s :: l' ∧ virt b = va ∧ Unmapped 0 b = true ∧ va + size ≤ virt s)
      ∧ ∀ v, virt p ≤ v < va → ∃ x, v ≤ x < v + size ∧ used (p :: bs) x
  | None => ∀ v z, last (p :: bs) = Some z → virt p ≤ v → v + size ≤ virt z → ∃ x, v ≤ x < v + size ∧ used (p :: bs) x
  end.
Proof using Hbits Hfirst.
  revert p. induction bs as [|s bs IH]; intros p Hl Hr Hp Hs; cbn [find_gap].
  { intros v z [= <-] H1 H2. lia. }
  pose proof Hl as [Hstep Hl']%linked_cons. destruct (Hstep s eq_refl) as [Hlt Hmap].
  pose proof Hr as [_ Hr']%Forall_cons. pose proof Hr' as Hrs%Forall_inv. cbv beta in Hrs.
  rewrite (VaLast_eq VaBits AddressSpaceBits Hbits) in Hrs.
  pose proof (Z.pow_le_mono_r 2 AddressSpaceBits VaBits ltac:(lia) ltac:(lia)) as Hpow.
  rewrite wrap_small by (unfold in_width; lia). specialize (IH s Hl' Hr' ltac:(lia) Hs).
  destruct ((virt s - virt p <? size) || is_mapped p) eqn:Ec.
  - assert (∀ v, virt p ≤ v → (virt s ≤ v → ∃ x, v ≤ x < v + size ∧ used (s :: bs) x) →
      ∃ x, v ≤ x < v + size ∧ used (p :: s :: bs) x) as Hstep'.
    { intros v Hv Hlater. destruct (Z_lt_le_dec v (virt s)) as [Hvs|Hvs].
      - destruct (used_before_next size p s bs v Hl) as (x & Hx & Hu); [|lia|exists x; split; [lia|done]].
        apply orb_true_iff in Ec as [Ec|Ec]; [left; lia|by right].
      - destruct (Hlater Hvs) as (x & Hx & Hu). exists x. split; [done|]. unfold used, translate in *.
        rewrite block_at_head in Hu by lia. by rewrite !block_at_head by (simpl; lia). }
    destruct (find_gap VaBits size s bs) as [va|].
    + destruct IH as [(l & b & s' & l' & Eb & Hrest) Hmin]. split; [exists (p :: l), b, s', l'; by rewrite Eb|].
      intros v Hv. apply Hstep'; [lia|]. intros Hvs. apply Hmin. lia.
    + intros v z Hz Hv He. apply Hstep'; [done|]. intros Hvs. by apply (IH v z).
  - apply orb_false_iff in Ec as [Ec1 Ec2]. rewrite is_mapped_negb in Ec2. apply negb_false_iff in Ec2.
    split; [|lia]. exists [], p, s, bs. split; [done|]. split; [done|]. split; [done|]. lia.
Qed.

(** ** Allocations *)
Lemma alloc_map_ok v size (m : AddressSpace unit) lo p mid hi :
  space_ok (blocks m) → UnmappedVa < v → 0 < size → v + size ≤ VaLast → parts v (v + size) (blocks m) lo p mid hi →
  ∃ rest m', alloc_map VaBits AddressSpaceBits v size m = Some m' ∧ blocks m' = lo ++ p :: [MkBlock v 1 tt] ++ rest
    ∧ va_limit m' = va_limit m ∧ seam (end_block p mid) (MkBlock v 1 tt) (v + size) hi rest ∧ space_ok (blocks m')
    ∧ ∀ va, translate (blocks m') va = if decide (v ≤ va < v + size) then 1 else translate (blocks m) va.
Proof using Hbits Hfirst.
  intros Hok Hv Hs He P.
  destruct (map_shape tt VaBits 1 UnmappedVa 0 AddressSpaceBits false Hbits Hfirst v 1 size tt m lo p mid hi)
    as (rest & m' & Hm & Hb & Hl & _ & Hrest); try done; [apply tail_mapped_alloc|]. by exists rest, m'.
Qed.

Lemma seam_head p q e hi rest : seam p q e hi rest → Unmapped 0 q = false → ∃ h r, rest = h :: r ∧ virt h = e.
Proof using Type. intros [h hi' -> Hh|t Ht _ _|_ Hq|h hi' _ _ _ Hq] Hm; [by eexists _, _..|congruence|congruence]. Qed.

Lemma seam_Forall (Q : Z → Prop) p q e hi rest :
  seam p q e hi rest → Q e → Forall (λ b, Q (virt b)) hi → Forall (λ b, Q (virt b)) rest.
Proof using Type.
  intros [h hi' -> Hh|t <- _ _|_ Hq|h hi' -> _ _ Hq] He Hq'; [done|by constructor|done|]. by apply Forall_cons in Hq' as [_ ?].
Qed.

(** One mapped block holds the allocation. *)
Definition allocated bs (va size : Z) : Prop :=
  ∃ i b h, bs !! i = Some b ∧ bs !! S i = Some h ∧ virt b = va ∧ is_mapped b = true ∧ virt h = va + size.

Lemma allocated_here lo b h hi (va size : Z) :
  virt b = va → is_mapped b = true → virt h = va + size → allocated (lo ++ b :: h :: hi) va size.
Proof using Type.
  intros Hb Hm Hh. exists (length lo), b, h. rewrite list_lookup_middle by done. split_and!; try done.
  rewrite lookup_app_r by lia. by replace (S (length lo) - length lo)%nat with 1%nat by lia.
Qed.

Lemma allocated_suffix l bs va size : allocated bs va size → allocated (l ++ bs) va size.
Proof using Type.
  intros (i & b & h & Hb & Hh & Hrest). exists (length l + i)%nat, b, h.
  replace (S (length l + i)) with (length l + S i)%nat by lia. rewrite !lookup_app_r by lia.
  rewrite !Nat.add_sub_swap, !Nat.sub_diag by lia. done.
Qed.

Lemma allocated_prefix l bs va size : allocated bs va size → allocated (bs ++ l) va size.
Proof using Type. intros (i & b & h & Hb & Hh & Hrest). exists i, b, h. split; [by apply lookup_app_l_Some|]. split; [by apply lookup_app_l_Some|done]. Qed.

(** Where an allocation lies that does not meet the range. *)
Lemma allocated_cases v e bs lo p mid hi va size :
  parts v e bs lo p mid hi → v < e → 0 < size → va + size ≤ v ∨ e ≤ va → allocated bs va size →
  allocated (lo ++ [p]) va size ∨ (is_mapped p = true ∧ virt p = va ∧ v = va + size) ∨ allocated hi va size.
Proof using Type.
  intros [-> Hlo Hp Hmid Hin Hhi] He Hs Hapart (i & b & h & Hb & Hh & Hva & Hm & Hvh).
  destruct (Nat.lt_total i (length lo)) as [Hi|[->|Hi]].
  - left. exists i, b, h. rewrite lookup_app_l in Hb by done. split_and!; try done; [by apply lookup_app_l_Some|].
    destruct (decide (S i < length lo)%nat) as [Hi'|Hi'].
    + rewrite lookup_app_l in Hh by done. by apply lookup_app_l_Some.
    + assert (S i = length lo) as Ei by lia. rewrite Ei in Hh |- *. by rewrite list_lookup_middle in Hh |- * by done.
  - right; left. rewrite list_lookup_middle in Hb by done. injection Hb as ->. split_and!; [done..|].
    rewrite lookup_app_r in Hh by lia. replace (S (length lo) - length lo)%nat with 1%nat in Hh by lia. simpl in Hh.
    rewrite <-head_lookup in Hh. enough (v ≤ virt h) by lia. destruct mid as [|m mid].
    + destruct hi as [|h' hi]; [done|]. injection Hh as ->. apply Forall_inv in Hhi. cbv beta in Hhi. lia.
    + injection Hh as ->. by apply Forall_inv in Hmid.
  - right; right. replace (lo ++ p :: mid ++ hi) with ((lo ++ [p]) ++ mid ++ hi) in Hb, Hh by by rewrite <-(assoc (++)).
    assert (length (lo ++ [p]) = S (length lo)) as El by (rewrite length_app; simpl; lia).
    rewrite lookup_app_r in Hb, Hh by lia. rewrite El in Hb, Hh.
    replace (S i - S (length lo))%nat with (S (i - S (length lo))) in Hh by lia. set (j := (i - S (length lo))%nat) in *.
    destruct (decide (j < length mid)%nat) as [Hj|Hj].
    + exfalso. rewrite lookup_app_l in Hb by done. unfold from_on, below in *. rewrite Forall_lookup in Hmid, Hin.
      pose proof (Hmid _ _ Hb). pose proof (Hin _ _ Hb). cbv beta in *. lia.
    + rewrite lookup_app_r in Hb, Hh by lia. exists (j - length mid)%nat, b, h.
      replace (S j - length mid)%nat with (S (j - length mid)) in Hh by lia. done.
Qed.

Lemma allocation_kept v e bs lo p mid hi xs rest q va size :
  parts v e bs lo p mid hi → v < e → seam (end_block p mid) q e hi rest →
  (is_mapped p = true → ∃ x, xs = [x] ∧ virt x = v) →
  0 < size → va + size ≤ v ∨ e ≤ va → allocated bs va size → allocated (lo ++ p :: xs ++ rest) va size.
Proof using Type.
  intros P He Hseam Hxs Hs Hapart Ha. destruct (allocated_cases _ _ _ _ _ _ _ _ _ P He Hs Hapart Ha) as [Hlo|[(Hm & Hp & Hv)|Hhi]].
  - replace (lo ++ p :: xs ++ rest) with ((lo ++ [p]) ++ xs ++ rest) by by rewrite <-(assoc (++)). by apply allocated_prefix.
  - destruct (Hxs Hm) as (x & -> & Hx). apply allocated_here; [done|done|lia].
  - replace (lo ++ p :: xs ++ rest) with ((lo ++ p :: xs) ++ rest) by by rewrite <-(assoc (++)). apply allocated_suffix.
    destruct Hseam as [h hi' -> Hh|t Ht _ _|_ Hq|h hi' -> _ Hu Hq]; [done|by apply (allocated_suffix [t])|done|].
    destruct Hhi as (i & b & h' & Hb & Hh' & Hva & Hm & Hvh). destruct i as [|i]; [|by exists i, b, h'].
    injection Hb as ->. rewrite is_mapped_negb, Hu in Hm. done.
Qed.

Lemma map_new v size (m : AddressSpace unit) :
  space_ok (blocks m) → UnmappedVa < v → 0 < size → v + size ≤ VaLast →
  ∃ m', alloc_map VaBits AddressSpaceBits v size m = Some m' ∧ va_limit m' = va_limit m ∧ space_ok (blocks m')
    ∧ (∀ va, translate (blocks m') va = if decide (v ≤ va < v + size) then 1 else translate (blocks m) va)
    ∧ allocated (blocks m') v size
    ∧ (∀ va' size', 0 < size' → va' + size' ≤ v ∨ v + size ≤ va' → allocated (blocks m) va' size' → allocated (blocks m') va' size')
    ∧ (∀ Q : Z → Prop, Q v → Q (v + size) → Forall (λ b, Q (virt b)) (blocks m) → Forall (λ b, Q (virt b)) (blocks m')).
Proof using Hbits Hfirst.
  intros Hok Hv Hs He. destruct (parts_exist _ _ _ v (v + size) _ Hok Hv ltac:(lia)) as (lo & p & mid & hi & P).
  destruct (alloc_map_ok v size m lo p mid hi Hok Hv Hs He P) as (rest & m' & Hm & Hb & Hl & Hseam & Hok' & Ht).
  exists m'. split_and!; try done; rewrite Hb.
  - destruct (seam_head _ _ _ _ _ Hseam eq_refl) as (h & r & -> & Hh). replace (lo ++ p :: [MkBlock v 1 tt] ++ h :: r)
      with ((lo ++ [p]) ++ MkBlock v 1 tt :: h :: r) by (rewrite <-!(assoc (++)); done). by apply allocated_here.
  - intros va' size' Hs' Hapart. apply (allocation_kept v (v + size) _ _ _ mid hi _ _ (MkBlock v 1 tt)); try done; [lia|]. by eexists.
  - intros Q Hqv Hqe. rewrite (pt_eq _ _ _ _ _ _ _ P), !Forall_app, !Forall_cons, !Forall_app.
    intros (H1 & H2 & _ & H3). split_and!; try done; [by repeat constructor|]. by eapply seam_Forall.
Qed.

Lemma translate_in l b s l' x : linked (step 0) (l ++ b :: s :: l') → virt b ≤ x < virt s →
  translate (l ++ b :: s :: l') x = phys_at 1 0 false b x.
Proof using Type.
  intros (_ & Hl & _)%linked_app Hx. rewrite <-(translate_head b (s :: l') x Hl); [|lia|intros s' [= <-]; lia].
  unfold translate. rewrite block_at_app. by rewrite block_at_head by lia.
Qed.

Lemma translate_end bs b k x : below (k + 1) bs → last bs = Some b → k ≤ x → translate bs x = phys_at 1 0 false b x.
Proof using Type.
  intros Hb Hl Hx. unfold translate. rewrite block_at_last; [by rewrite Hl|]. eapply below_weaken; [|done]. lia.
Qed.

(** What an allocation at [va] does. *)
Record allocates (size : Z) a (va : Z) a' : Prop := {
  al_range : virt_start a ≤ va ∧ va + size ≤ va_limit (space a);
  al_start : virt_start a' = virt_start a ∧ va_limit (space a') = va_limit (space a);
  al_free : ∀ x, va ≤ x < va + size → ¬ used (blocks (space a)) x;
  al_tidy : tidy a';
  al_translate : ∀ x, translate (blocks (space a')) x = if decide (va ≤ x < va + size) then 1 else translate (blocks (space a)) x;
  al_allocated : allocated (blocks (space a')) va size;
  al_kept : ∀ va' size', 0 < size' → va' + size' ≤ va ∨ va + size ≤ va' →
    allocated (blocks (space a)) va' size' → allocated (blocks (space a')) va' size';
}.

Lemma allocates_at size a va cur :
  tidy a → 0 < size → virt_start a ≤ va → va + size ≤ cur → current_linear_alloc_end a ≤ cur ≤ va_limit (space a) →
  (∀ x, va ≤ x < va + size → translate (blocks (space a)) x = 0) →
  ∃ m, alloc_map VaBits AddressSpaceBits va size (space a) = Some m ∧ allocates size a va (MkAllocator m (virt_start a) cur).
Proof using Hbits Hfirst.
  intros [Hok Hlim Hcur Hst0 Hbel Habv] Hs Hva He Hc Hfree.
  destruct (map_new va size (space a)) as (m & Hm & Hl & Hok' & Ht & Hal & Hkept & Hq); try done; [lia..|].
  exists m. split; [done|]. split; cbn [space]; try done; [lia| |].
  - intros x Hx Hu. by apply Hu, Hfree.
  - split; cbn [space current_linear_alloc_end virt_start]; [done|lia..| |].
    + apply (Hq (λ x, x < cur + 1)); [lia..|]. eapply (below_weaken (Extra := unit)); [|done]. lia.
    + apply (Hq (λ x, x = UnmappedVa ∨ virt_start a ≤ x)); [lia..|done].
Qed.

(** No free range of this size starts in the second block or behind it and ends at the start of the
    last block or before. *)
Definition full size a : Prop :=
  ∀ b z v, blocks (space a) !! 1%nat = Some b → last (blocks (space a)) = Some z → virt b ≤ v → v + size ≤ virt z →
  ∃ x, v ≤ x < v + size ∧ used (blocks (space a)) x.

(** The first place for a range of this size from the second block on. *)
Definition first_gap size a (va : Z) : Prop :=
  ∃ b, blocks (space a) !! 1%nat = Some b ∧ virt b ≤ va
    ∧ ∀ v, virt b ≤ v < va → ∃ x, v ≤ x < v + size ∧ used (blocks (space a)) x.

(** Which place an allocation takes: that behind the linear end when the range fits there. *)
Definition chosen_place size a (va : Z) a' : Prop :=
  if current_linear_alloc_end a + size <=? va_limit (space a)
  then va = current_linear_alloc_end a ∧ current_linear_alloc_end a' = va + size
  else first_gap size a va ∧ current_linear_alloc_end a' = current_linear_alloc_end a.

Definition allocate_spec size a (r : option (Z * Allocator)) : Prop :=
  match r with
  | Some (va, a') =>
      (va = 0 ∧ a' = a ∧ va_limit (space a) < current_linear_alloc_end a + size ∧ full size a)
      ∨ (va ≠ 0 ∧ allocates size a va a' ∧ chosen_place size a va a')
  | None => va_limit (space a) < current_linear_alloc_end a + size ∧ ∀ x, ¬ used (blocks (space a)) x
  end.

Lemma few_blocks bs : space_ok bs → (length bs ≤ 2)%nat → ∀ x, ¬ used bs x.
Proof using Type.
  intros [(f & r & -> & _ & Hf) Hl (z & Hz & Hu) _] Hlen x Hx. destruct r as [|p [|]]; [| |simpl in Hlen; lia].
  - apply Hx. unfold translate. rewrite block_at_singleton. destruct (decide _); [by apply phys_at_unmapped|done].
  - injection Hz as ->. apply linked_cons in Hl as [Hl _]. destruct (Hl z eq_refl) as [_ Hm]. by rewrite Hf, Hu in Hm.
Qed.

Lemma Allocate_outcome size a :
  tidy a → 0 < size < 2 ^ VaBits →
  allocate_spec size a (Allocate size a).
Proof using Hbits Hfirst.
  intros Htidy Hs. pose proof Htidy as [Hok Hlim Hcur Hst0 Hbel Habv]. unfold AddressSpace.Allocate. rewrite linear_start_tidy by done.
  unfold allocate_spec, chosen_place.
  cbn [mbind option_bind]. destruct (Z.leb_spec (current_linear_alloc_end a + size) (va_limit (space a))) as [Hfit|Hno].
  - rewrite (proj2 (Z.eqb_neq _ _)) by lia. cbn [negb space virt_start current_linear_alloc_end].
    destruct (sp_last _ _ _ _ Hok) as (z & Hz & Hu). rewrite (VaLast_eq VaBits AddressSpaceBits Hbits) in Hlim.
    pose proof (Z.pow_le_mono_r 2 AddressSpaceBits VaBits ltac:(lia) ltac:(lia)) as Hpow.
    rewrite wrap_small by (unfold in_width; lia).
    destruct (allocates_at size a (current_linear_alloc_end a) (current_linear_alloc_end a + size)) as (m & -> & Hal); try done; try lia.
    { intros x Hx. rewrite (translate_end _ z (current_linear_alloc_end a)); [|done..|lia]. by apply phys_at_unmapped. }
    cbn [mbind option_bind]. right. split; [lia|]. by split.
  - rewrite Z.eqb_refl. cbn [negb]. destruct (Nat.leb_spec (length (blocks (space a))) 2) as [Hlen|Hlen].
    { split; [done|]. by apply few_blocks. }
    cbn [negb check mbind option_bind]. pose proof Hok as [(f & r & Ef & Hf & _) Hl _ Hr].
    destruct (blocks (space a)) as [|f' [|p bs]] eqn:Eb; [simpl in Hlen; lia..|]. injection Ef as -> _.
    pose proof Hl as [Hfp Hl']%linked_cons. destruct (Hfp p eq_refl) as [Hlt _].
    pose proof (find_gap_ok size p bs Hl' (Forall_inv_tail Hr) ltac:(lia) ltac:(lia)) as Hgap. destruct (find_gap VaBits size p bs) as [va|].
    + destruct Hgap as [(l & b & s & l' & E & Hb & Hu & He) Hmin].
      assert (virt p ≤ va → first_gap size a va) as Hfirst_gap.
      { intros Hpva. exists p. rewrite Eb. split; [done|]. split; [done|]. intros v Hv. destruct (Hmin v Hv) as (x & Hx & Hux).
        exists x. split; [done|]. unfold used, translate in *. rewrite block_at_head in Hux by lia. by rewrite !block_at_head by lia. }
      clear Hmin. rewrite E in *.
      assert (virt p ≤ va) as Hpva.
      { destruct l as [|p' l]; injection E as -> ->; [lia|]. apply linked_from, Forall_app in Hl' as [_ Hv].
        apply Forall_inv in Hv. cbv beta in Hv. lia. }
      assert (virt s ≤ current_linear_alloc_end a) as Hsc.
      { unfold below in Hbel. rewrite Forall_forall in Hbel. enough (virt s < current_linear_alloc_end a + 1) by lia. apply Hbel. clear. set_solver. }
      assert (virt_start a ≤ va) as Hsva.
      { rewrite Forall_forall in Habv. destruct (Habv b ltac:(clear; set_solver)); [|lia]. lia. }
      destruct (allocates_at size a va (current_linear_alloc_end a)) as (m & -> & Hal); [done|lia..| |].
      { intros x Hx. rewrite Eb. change (f :: l ++ b :: s :: l') with ((f :: l) ++ b :: s :: l').
        rewrite translate_in; [|done|lia]. by apply phys_at_unmapped. }
      cbn [mbind option_bind]. right. split; [lia|]. split; [done|]. split; [by apply Hfirst_gap|done].
    + left. split_and!; [done..|]. unfold full. rewrite Eb. intros b z v [= <-] Hz Hv He. change (f :: p :: bs) with ([f] ++ p :: bs) in Hz.
      rewrite last_app in Hz. destruct (last (p :: bs)) as [z'|] eqn:El; [|by apply last_None in El]. injection Hz as ->.
      destruct (Hgap v z eq_refl Hv He) as (x & Hx & Hux). exists x. split; [done|]. unfold used, translate in *.
      rewrite block_at_head in Hux by lia. by rewrite !block_at_head by lia.
Qed.


(** ** Freeing *)
Lemma allocated_parts bs (va size : Z) :
  space_ok bs → UnmappedVa < va → allocated bs va size →
  ∃ lo p b h hi, parts va (va + size) bs lo p [b] (h :: hi) ∧ virt b = va ∧ is_mapped b = true ∧ virt h = va + size.
Proof using Type.
  intros Hok Hva (i & b & h & Hb & Hh & Hvb & Hm & Hvh). pose proof Hok as [(f & r & Ef & Hf & _) Hl _ _].
  destruct i as [|i]; [rewrite Ef in Hb; injection Hb as ->; lia|].
  destruct (lookup_lt_is_Some_2 bs i) as [p Hp]; [apply lookup_lt_Some in Hb; lia|].
  assert (bs = take i bs ++ p :: [b] ++ h :: drop (S (S (S i))) bs) as E.
  { rewrite <-(take_drop i bs) at 1. by rewrite (drop_S _ _ _ Hp), (drop_S _ _ _ Hb), (drop_S _ _ _ Hh). }
  exists (take i bs), p, b, h, (drop (S (S (S i))) bs). split; [|done]. rewrite E in Hl.
  pose proof Hl as (_ & Hl2 & _)%linked_app. pose proof Hl2 as [Hpb Hl3]%linked_cons. pose proof Hl3 as [Hbh Hl4]%linked_cons.
  destruct (Hpb b eq_refl) as [? _]. destruct (Hbh h eq_refl) as [? _]. split; [done| |lia|repeat constructor; lia..|].
  - apply (below_weaken (virt p)); [lia|]. apply linked_below. apply linked_virt in Hl.
    replace (take i bs ++ p :: [b] ++ h :: drop (S (S (S i))) bs) with ((take i bs ++ [p]) ++ [b] ++ h :: drop (S (S (S i))) bs) in Hl
      by by rewrite <-(assoc (++)). by apply linked_app in Hl as (? & _).
  - constructor; [lia|]. apply linked_from in Hl4. eapply from_on_weaken; [|done]. lia.
Qed.

Lemma used_around bs (va size : Z) lo p b h hi :
  space_ok bs → parts va (va + size) bs lo p [b] (h :: hi) → virt b = va → virt h = va + size →
  (used bs (va - 1) ↔ is_mapped p = true) ∧ (used bs (va + size) ↔ is_mapped h = true).
Proof using Type.
  intros Hok [E _ Hp _ _ _] Hb Hh. pose proof (sp_linked _ _ _ _ Hok) as Hl. rewrite E in *.
  assert (∀ q x, translate (lo ++ p :: [b] ++ h :: hi) x = phys_at 1 0 false q x →
    (used (lo ++ p :: [b] ++ h :: hi) x ↔ is_mapped q = true)) as Hq.
  { intros q x Hx. unfold used. rewrite Hx. split; [|by apply phys_at_mapped]. rewrite is_mapped_negb.
    destruct (Unmapped 0 q) eqn:Eq; [|done]. by rewrite phys_at_unmapped. }
  split; apply Hq.
  - apply translate_in; [done|lia].
  - replace (lo ++ p :: [b] ++ h :: hi) with ((lo ++ [p; b]) ++ h :: hi) in Hl |- * by (rewrite <-!(assoc (++)); done).
    apply linked_app in Hl as (_ & Hl & _). unfold translate at 1. rewrite block_at_app.
    rewrite <-(translate_head h hi (va + size) Hl) by (lia || (intros s Hs; apply linked_cons in Hl as [Hl _]; destruct (Hl s Hs); lia)).
    unfold translate. by rewrite block_at_head by lia.
Qed.

(** The predecessor of the range is free and its successor is not: what [Free] does not undo. *)
Definition stuck bs (va size : Z) : Prop := ¬ used bs (va - 1) ∧ used bs (va + size).

(** What freeing [va] does to an allocator. *)
Record frees (size : Z) a (va : Z) a' : Prop := {
  fr_cur : current_linear_alloc_end a' = current_linear_alloc_end a;
  fr_start : virt_start a' = virt_start a;
  fr_limit : va_limit (space a') = va_limit (space a);
  fr_tidy : tidy a';
  fr_stuck : stuck (blocks (space a)) va size → blocks (space a') = blocks (space a);
  fr_translate : ¬ stuck (blocks (space a)) va size →
    ∀ x, translate (blocks (space a')) x = if decide (va ≤ x < va + size) then 0 else translate (blocks (space a)) x;
  fr_kept : ∀ va' size', 0 < size' → va' + size' ≤ va ∨ va + size ≤ va' →
    allocated (blocks (space a)) va' size' → allocated (blocks (space a')) va' size';
}.

Lemma stuck_leaves bs (va size : Z) lo p b h hi :
  space_ok bs → parts va (va + size) bs lo p [b] (h :: hi) → virt b = va → is_mapped b = true → virt h = va + size →
  leaves 0 (va + size) p [b] (h :: hi) = true ↔ stuck bs va size.
Proof using Type.
  intros Hok P Hb Hm Hh. destruct (used_around _ _ _ _ _ _ _ _ Hok P Hb Hh) as [H1 H2]. unfold stuck, leaves. rewrite H1, H2.
  change (end_block p [b]) with b. rewrite Hh, Z.eqb_refl, <-!is_mapped_negb, Hm. rewrite !is_mapped_negb. cbn [length Nat.leb].
  destruct (Unmapped 0 p), (Unmapped 0 h); clear; simpl; intuition congruence.
Qed.

Lemma stuck_same q e h hi (rest : list (Block unit)) :
  seam q q e (h :: hi) rest → Unmapped 0 q = false → virt h = e → rest = h :: hi.
Proof using Type.
  intros Hs Hq Hh. remember (h :: hi) as hs eqn:E. destruct Hs as [|t _ _ Hb|Hu|]; [done| |congruence..].
  exfalso. rewrite E in Hb. apply Forall_inv in Hb. cbv beta in Hb. lia.
Qed.

Lemma Free_ok size a va :
  tidy a → UnmappedVa < va → 0 < size → allocated (blocks (space a)) va size → ∃ a', Free va size a = Some a' ∧ frees size a va a'.
Proof using Hbits Hfirst.
  intros Htidy Hva Hs Hal. pose proof Htidy as [Hok Hlim Hcur Hst0 Hbel Habv].
  destruct (allocated_parts _ va size Hok Hva Hal) as (lo & p & b & h & hi & P & Hb & Hm & Hh).
  pose proof (pt_eq _ _ _ _ _ _ _ P) as E. assert (Unmapped 0 b = false) as Hub by (by apply negb_true_iff; rewrite <-is_mapped_negb).
  assert (virt_start a ≤ va) as Hsva.
  { rewrite Forall_forall in Habv. destruct (Habv b) as [H|H]; [rewrite E; clear; set_solver|lia..]. }
  assert (virt h ≤ current_linear_alloc_end a) as Hhc.
  { unfold below in Hbel. rewrite Forall_forall in Hbel. enough (virt h < current_linear_alloc_end a + 1) by lia.
    apply Hbel. rewrite E. clear. set_solver. }
  pose proof (stuck_leaves _ va size lo p b h hi Hok P Hb Hm Hh) as Hst.
  pose proof (unmap_blocks_ok tt VaBits 1 UnmappedVa 0 AddressSpaceBits false Hbits Hfirst va size (va_limit (space a)) _ lo p [b] (h :: hi)
    Hok Hva Hs ltac:(lia) Hlim P (tail_mapped_alloc _ _)) as Hres.
  unfold AddressSpace.Free, alloc_unmap, UnmapLocked. destruct (AddressSpace.unmap_blocks _ _ _ _ _ _ _ _ _) as [bs|];
    [|exfalso; unfold unmaps, trips in Hres; by rewrite Hub, andb_false_r in Hres].
  cbn [mbind option_bind]. eexists. split; [done|]. destruct Hres as (_ & xs & rest & -> & Hr).
  destruct (leaves 0 (va + size) p [b] (h :: hi)) eqn:El.
  - destruct Hr as [Hseam Hnew]. rewrite El in Hnew. destruct Hnew as (_ & b' & ->%list_elem_of_singleton & ->).
    rewrite (stuck_same _ _ _ _ _ Hseam Hub Hh). rewrite <-E. split; cbn [space current_linear_alloc_end blocks va_limit call_back with_blocks]; try done.
    + by intros Hn; exfalso; apply Hn, Hst.
  - destruct (unmap_shape VaBits 1 UnmappedVa 0 AddressSpaceBits false Hbits Hfirst va size (space a) lo p [b] (h :: hi) xs rest)
      as [Hok' Ht]; try done; [lia|apply tail_mapped_alloc|]. destruct Hr as [Hseam Hnew]. rewrite El in Hnew. destruct Hnew as [Hxs _].
    split; cbn [space current_linear_alloc_end blocks va_limit call_back with_blocks]; try done.
    + assert (∀ Q : Z → Prop, Q va → Q (va + size) → Forall (λ b, Q (virt b)) (blocks (space a)) →
        Forall (λ b, Q (virt b)) (lo ++ p :: xs ++ rest)) as Hq.
      { intros Q Hqv Hqe. rewrite E, !Forall_app, !Forall_cons, !Forall_app. intros (H1 & H2 & _ & H3).
        split_and!; [done..| |by eapply seam_Forall]. destruct Hxs as [[-> _]|(x & -> & <- & _)]; by repeat constructor. }
      split; cbn [space current_linear_alloc_end virt_start blocks va_limit call_back with_blocks]; [done..| |].
      * apply (Hq (λ x, x < current_linear_alloc_end a + 1)); [lia..|done].
      * apply (Hq (λ x, x = UnmappedVa ∨ virt_start a ≤ x)); [| |done]; right; lia.
    + intros Hn%Hst. congruence.
    + intros va' size' Hs' Hapart. eapply allocation_kept; [done|lia|done| |done..]. rewrite is_mapped_negb. intros Hp.
      destruct Hxs as [[_ Hp']|(x & -> & Hx & _)]; [by rewrite Hp' in Hp|by exists x].
Qed.

(** Freeing an allocated range never finds its assertion false and keeps every other
    allocation; it frees the range and no other address, except when the address before the
    range is free and the one behind it is not: then nothing changes and the range is lost. *)
Theorem Free_gives_back size a va :
  tidy a → UnmappedVa < va → 0 < size → allocated (blocks (space a)) va size →
  ∃ a', Free va size a = Some a' ∧ tidy a'
    ∧ (stuck (blocks (space a)) va size ∧ blocks (space a') = blocks (space a)
       ∨ ¬ stuck (blocks (space a)) va size
         ∧ ∀ x, translate (blocks (space a')) x = if decide (va ≤ x < va + size) then 0 else translate (blocks (space a)) x)
    ∧ ∀ va' size', 0 < size' → va' + size' ≤ va ∨ va + size ≤ va' →
        allocated (blocks (space a)) va' size' → allocated (blocks (space a')) va' size'.
Proof using Hbits Hfirst.
  intros Htidy Hva Hs Hal. destruct (Free_ok size a va Htidy Hva Hs Hal) as (a' & Hf & [_ _ _ Htidy' Hst Ht Hk]).
  exists a'. split_and!; [done..| |done]. unfold stuck in *.
  destruct (decide (translate (blocks (space a)) (va - 1) = 0)) as [Hp|Hp], (decide (translate (blocks (space a)) (va + size) = 0)) as [Hh|Hh];
    [right|left|right..]; unfold used in *; (split; [tauto|]); first [apply Hst|apply Ht]; tauto.
Qed.

(** ** Sequences of allocations *)
Definition meets (x y : Z * Z) : Prop := x.1 < y.1 + y.2 ∧ y.1 < x.1 + x.2.

Lemma meets_sym x y : ¬ meets x y → ¬ meets y x.
Proof using Type. unfold meets. lia. Qed.

(** A step of an allocator, with the allocations that have not been freed. *)
Inductive alloc_step : Allocator * list (Z * Z) → Allocator * list (Z * Z) → Prop :=
  | step_allocate size va a a' live : 0 < size < 2 ^ VaBits → Allocate size a = Some (va, a') → va ≠ 0 →
      alloc_step (a, live) (a', (va, size) :: live)
  | step_full size a a' live : 0 < size < 2 ^ VaBits → Allocate size a = Some (0, a') → alloc_step (a, live) (a', live)
  | step_free va size a a' live live' : live ≡ₚ (va, size) :: live' → Free va size a = Some a' →
      alloc_step (a, live) (a', live').

Record held (start limit : Z) a (live : list (Z * Z)) : Prop := {
  hd_tidy : tidy a;
  hd_range : virt_start a = start ∧ va_limit (space a) = limit;
  hd_live : Forall (λ r, start ≤ r.1 ∧ 0 < r.2 ∧ allocated (blocks (space a)) r.1 r.2) live;
  hd_apart : ForallOrdPairs (λ x y, ¬ meets x y) live;
}.

Lemma allocated_used bs (va size x : Z) : space_ok bs → allocated bs va size → va ≤ x < va + size → used bs x.
Proof using Type.
  intros [_ Hl _ _] (i & b & h & Hb & Hh & Hvb & Hm & Hvh) Hx.
  assert (bs = take i bs ++ b :: h :: drop (S (S i)) bs) as E.
  { rewrite <-(take_drop i bs) at 1. by rewrite (drop_S _ _ _ Hb), (drop_S _ _ _ Hh). }
  rewrite E in Hl |- *. unfold used. rewrite translate_in by (done || lia). by apply phys_at_mapped.
Qed.

Lemma ordpairs_permutation {A} (R : A → A → Prop) l1 l2 :
  (∀ x y, R x y → R y x) → l1 ≡ₚ l2 → ForallOrdPairs R l1 → ForallOrdPairs R l2.
Proof using Type.
  intros Hsym Hp. induction Hp as [|x l1 l2 Hp IH|x y l|l1 l2 l3 _ IH1 _ IH2]; intros H; [done| | |by apply IH2, IH1].
  - inversion H as [|? ? Hx Hl]; subst. constructor; [by rewrite <-Hp|by apply IH].
  - inversion H as [|? ? Hx Hl]; subst. inversion Hl as [|? ? Hy Hl']; subst. inversion Hx as [|? ? Hxy Hx']; subst.
    constructor; [constructor; [by apply Hsym|done]|]. by constructor.
Qed.

Lemma live_kept a a' (va size start : Z) live :
  (∀ va' size', 0 < size' → va' + size' ≤ va ∨ va + size ≤ va' → allocated (blocks (space a)) va' size' → allocated (blocks (space a')) va' size') →
  Forall (λ r, ¬ meets (va, size) r) live →
  Forall (λ r, start ≤ r.1 ∧ 0 < r.2 ∧ allocated (blocks (space a)) r.1 r.2) live →
  Forall (λ r, start ≤ r.1 ∧ 0 < r.2 ∧ allocated (blocks (space a')) r.1 r.2) live.
Proof using Type.
  intros Hk Hnew Hlive. rewrite Forall_forall in Hlive, Hnew |- *. intros [va' size'] Hin. destruct (Hlive _ Hin) as (? & Hs' & ?).
  split_and!; [done..|]. apply Hk; [done| |done]. specialize (Hnew _ Hin). unfold meets in Hnew. cbn [fst snd] in *. lia.
Qed.

Lemma held_step start limit s s' : alloc_step s s' → held start limit s.1 s.2 → held start limit s'.1 s'.2.
Proof using Hbits Hfirst.
  intros Hstep [Htidy [Hst Hli] Hlive Hap]. pose proof (td_start _ Htidy) as Hst0.
  destruct Hstep as [size va a a' live Hs Ha Hva|size a a' live Hs Ha|va size a a' live live' Hp Hf]; cbn [fst snd] in *.
  - pose proof (Allocate_outcome size a Htidy Hs) as Hok. rewrite Ha in Hok.
    destruct Hok as [(? & _)|(_ & [Hr [Hst' Hli'] Hfree Htidy' Ht Hal Hk] & _)]; [done|].
    assert (Forall (λ r, ¬ meets (va, size) r) live) as Hnew.
    { eapply Forall_impl; [exact Hlive|]. intros [va' size'] (Hva' & Hs' & Hal') [Hm1 Hm2]. cbn [fst snd] in *.
      apply (Hfree (Z.max va va')); [lia|]. apply (allocated_used _ va' size'); [apply Htidy|done|lia]. }
    split; [done|lia| |by constructor]. constructor; [by cbn; split_and!; try lia|]. by apply (live_kept a a' va size).
  - pose proof (Allocate_outcome size a Htidy Hs) as Hok. rewrite Ha in Hok. destruct Hok as [(_ & -> & _)|(? & _)]; [by split|done].
  - rewrite Hp in Hlive. apply Forall_cons in Hlive as [(Hva & Hs & Hal) Hlive]. cbn [fst snd] in *.
    destruct (Free_ok size a va Htidy ltac:(lia) Hs Hal) as (a'' & Hf' & [_ Hst' Hli' Htidy' _ _ Hk]). rewrite Hf in Hf'. injection Hf' as <-.
    apply (ordpairs_permutation _ _ _ meets_sym Hp) in Hap. inversion Hap as [|? ? Hnew Hap']; subst.
    split; [done|by split| |done]. by apply (live_kept a a' va size).
Qed.

Lemma allocated_end a (va size : Z) : tidy a → allocated (blocks (space a)) va size → va + size ≤ va_limit (space a).
Proof using Type.
  intros [_ _ Hcur _ Hbel _] (i & b & h & _ & Hh & _ & _ & Hvh). unfold below in Hbel. rewrite Forall_lookup in Hbel.
  specialize (Hbel _ _ Hh). cbv beta in Hbel. lia.
Qed.

(** C22: In every sequence of allocations and frees of what has been allocated, the live allocations
    are inside of the limits and never meet, each stays allocated until it is freed, and
    freeing it never finds an assertion false. *)
Theorem allocations_apart start limit a0 a live :
  FlatAllocator UnmappedVa AddressSpaceBits start limit = Some a0 → UnmappedVa < start → start ≤ limit → limit ≤ VaLast →
  rtc alloc_step (a0, []) (a, live) →
  ForallOrdPairs (λ x y, ¬ meets x y) live
  ∧ Forall (λ r, start ≤ r.1 ∧ r.1 + r.2 ≤ limit ∧ (∀ x, r.1 ≤ x < r.1 + r.2 → used (blocks (space a)) x)
      ∧ is_Some (Free r.1 r.2 a)) live.
Proof using Hbits Hfirst.
  intros Ha0 Hs Hl Hm Hsteps. destruct (FlatAllocator_tidy start limit Hs Hl Hm) as (a0' & Ha0' & Htidy0 & Hst0 & Hli0).
  rewrite Ha0 in Ha0'. injection Ha0' as <-.
  assert (held start limit a live) as [Htidy [Hst Hli] Hlive Hap].
  { change (held start limit (a, live).1 (a, live).2).
    assert (held start limit (a0, [] : list (Z * Z)).1 (a0, [] : list (Z * Z)).2) as H0 by (by split; cbn; [|split|constructor|constructor]).
    revert H0. induction Hsteps as [|? ? ? Hstep _ IH]; [done|]. intros H0. apply IH. by eapply held_step. }
  split; [done|]. eapply Forall_impl; [exact Hlive|]. intros [va size] (Hva & Hs' & Hal). cbn [fst snd] in *. split; [done|].
  split; [rewrite <-Hli; by apply allocated_end|]. split.
  - intros x Hx. apply (allocated_used _ va size); [apply Htidy|done|done].
  - destruct (Free_ok size a va Htidy ltac:(lia) Hs' Hal) as (a' & -> & _). by eexists.
Qed.

(** ** Fixed allocations *)
Lemma seam_from p q e hi rest : seam p q e hi rest → from_on e hi → from_on e rest.
Proof using Type.
  intros [h hi' -> Hh|t Ht _ _|_ Hq|h hi' -> _ _ Hq] Hm; [done|constructor; [lia|done]|done|]. by apply Forall_cons in Hm as [_ ?].
Qed.

(** The next allocation after a fixed one that holds the linear end is inside of the fixed one:
    the linear pass does not look at whether the block at the linear end is mapped. *)
Theorem AllocateFixed_then_Allocate va size size' a :
  tidy a → UnmappedVa < va ≤ current_linear_alloc_end a → 0 < size' → current_linear_alloc_end a + size' ≤ va + size →
  va + size ≤ va_limit (space a) →
  ∃ a1 a2, AllocateFixed va size a = Some a1 ∧ (∀ x, va ≤ x < va + size → used (blocks (space a1)) x)
    ∧ Allocate size' a1 = Some (current_linear_alloc_end a, a2).
Proof using Hbits Hfirst.
  intros Htidy Hva Hs' He Hl. pose proof Htidy as [Hok Hlim Hcur Hst0 Hbel Habv]. assert (0 < size) as Hs by lia. set (cur := current_linear_alloc_end a) in *.
  destruct (parts_exist _ _ _ va (va + size) _ Hok (proj1 Hva) ltac:(lia)) as (lo & p & mid & hi & P).
  destruct (alloc_map_ok va size (space a) lo p mid hi Hok ltac:(lia) Hs ltac:(lia) P) as (rest & m & Hm & Hb & Hlm & Hseam & Hok' & Ht).
  pose proof (seam_from _ _ _ _ _ Hseam (pt_hi _ _ _ _ _ _ _ P)) as Hrest. pose proof P as [_ Hlo Hp _ _ _].
  unfold AddressSpace.AllocateFixed. rewrite Hm. cbn [mbind option_bind].
  destruct (map_new cur size' m) as (m2 & Hm2 & _); [by rewrite ?Hb in *|lia|lia|lia|].
  pose proof (Z.pow_le_mono_r 2 AddressSpaceBits VaBits ltac:(lia) ltac:(lia)) as Hpow.
  rewrite (VaLast_eq VaBits AddressSpaceBits Hbits) in Hlim.
  assert (wrap VaBits (cur + size') = cur + size') as Hw by (apply wrap_small; unfold in_width; lia).
  eexists _, _. split; [done|]. split.
  - intros x Hx. unfold used. cbn [space]. by rewrite Ht, decide_True.
  - unfold AddressSpace.Allocate, linear_start. cbn [space current_linear_alloc_end virt_start]. fold cur. rewrite Hw, Hlm, Hb.
    rewrite (proj2 (Z.leb_le _ _)), (proj2 (Z.leb_le _ _)) by lia. cbn [andb].
    replace (lo ++ p :: [MkBlock va 1 tt] ++ rest) with ((lo ++ [p; MkBlock va 1 tt]) ++ rest) by (rewrite <-!(assoc (++)); done).
    rewrite lower_bound_ok; [| |by eapply from_on_weaken; [|done]; lia].
    2: { apply Forall_app. split; [eapply below_weaken; [|done]; lia|]. repeat constructor; simpl; lia. }
    assert (length (lo ++ [p; MkBlock va 1 tt]) = S (length (lo ++ [p]))) as -> by (rewrite !length_app; simpl; lia).
    cbn [Nat.eqb negb check mbind option_bind Nat.pred].
    replace ((lo ++ [p; MkBlock va 1 tt]) ++ rest) with ((lo ++ [p]) ++ MkBlock va 1 tt :: rest) by (rewrite <-!(assoc (++)); done).
    rewrite (list_lookup_middle (lo ++ [p]) rest (MkBlock va 1 tt) _ eq_refl). cbn [mbind option_bind virt]. rewrite (proj2 (Z.leb_le va cur)) by lia.
    cbn [mbind option_bind]. rewrite (proj2 (Z.eqb_neq cur UnmappedVa)) by lia. cbn [negb]. by rewrite Hm2.
Qed.
End allocator.

(** * The theorems at concrete allocators *)
Definition one_allocated : Allocator := MkAllocator (MkSpace (one_mapped 1) 100 None) 16 32.

Lemma one_allocated_tidy : tidy 0 32 one_allocated.
Proof.
  split; [by apply one_mapped_ok|done|done|done|by repeat constructor|]. constructor; [by left|]. by repeat (constructor; [by right|]).
Qed.

Lemma one_allocated_held : allocated (blocks (space one_allocated)) 16 16.
Proof. by exists 1%nat, (MkBlock 16 1 tt), (MkBlock 32 0 tt). Qed.


Lemma Free_gives_back_witness :
  ∃ a', Free 32 16 16 one_allocated = Some a' ∧ tidy 0 32 a' ∧ ∀ x, 16 ≤ x < 32 → translate 1 0 false (blocks (space a')) x = 0.
Proof.
  destruct (Free_gives_back 32 0 32 ltac:(lia) ltac:(lia) 16 one_allocated 16 one_allocated_tidy ltac:(lia) ltac:(lia) one_allocated_held)
    as (a' & Hf & Ht & [[[_ Hst] _]|[_ Htr]] & _).
  - exfalso. apply Hst. reflexivity.
  - exists a'. split; [exact Hf|]. split; [exact Ht|]. intros x Hx. rewrite Htr. by rewrite decide_True by lia.
Defined.

Definition two_allocated : Allocator :=
  MkAllocator (MkSpace [MkBlock 0 0 tt; MkBlock 16 1 tt; MkBlock 32 1 tt; MkBlock 40 0 tt] 100 None) 16 40.

Lemma allocations_apart_witness :
  FlatAllocator 0 32 16 100 = Some (MkAllocator (MkSpace [Block_new tt 0 0] 100 None) 16 16)
  ∧ rtc (alloc_step 32 0 32) (MkAllocator (MkSpace [Block_new tt 0 0] 100 None) 16 16, []) (two_allocated, [(32, 8); (16, 16)])
  ∧ Forall (λ r, 16 ≤ r.1 ∧ r.1 + r.2 ≤ 100 ∧ (∀ x, r.1 ≤ x < r.1 + r.2 → used (blocks (space two_allocated)) x) ∧ is_Some (Free 32 r.1 r.2 two_allocated))
      [(32, 8); (16, 16)].
Proof.
  assert (FlatAllocator 0 32 16 100 = Some (MkAllocator (MkSpace [Block_new tt 0 0] 100 None) 16 16)) as H0 by reflexivity.
  assert (rtc (alloc_step 32 0 32) (MkAllocator (MkSpace [Block_new tt 0 0] 100 None) 16 16, []) (two_allocated, [(32, 8); (16, 16)])) as Hs.
  { apply rtc_l with (one_allocated, [(16, 16)]); [apply step_allocate; [lia|vm_compute; reflexivity|lia]|].
    apply rtc_once. apply step_allocate; [lia|vm_compute; reflexivity|lia]. }
  split; [exact H0|]. split; [exact Hs|].
  apply (allocations_apart 32 0 32 ltac:(lia) ltac:(lia) 16 100 _ two_allocated [(32, 8); (16, 16)] H0 ltac:(lia) ltac:(lia) ltac:(done) Hs).
Defined.

Lemma AllocateFixed_then_Allocate_witness :
  ∃ a1 a2, AllocateFixed 32 32 24 32 one_allocated = Some a1 ∧ used (blocks (space a1)) 32 ∧ Allocate 32 0 32 4 a1 = Some (32, a2).
Proof.
  destruct (AllocateFixed_then_Allocate 32 0 32 ltac:(lia) ltac:(lia) 24 32 4 one_allocated one_allocated_tidy) as (a1 & a2 & H1 & H2 & H3);
    [split; done|lia|done|done|]. exists a1, a2. split; [exact H1|]. split; [apply H2; lia|exact H3].
Defined.

(** A range between a free one and an allocated one is not freed. *)
Example leak :
  (a ← FlatAllocator 0 32 1 100; r1 ← Allocate 32 0 32 2 a; r2 ← Allocate 32 0 32 2 (snd r1); f ← Free 32 1 2 (snd r2);
   Some (bool_decide (translate 1 0 false (blocks (space f)) 1 = 1))) = Some true.
Proof. reflexivity. Qed.

(** The walk over fixed allocations stops at a block that is too small: what it finds overlaps. *)
Example skip_fixed_overlaps :
  (a ← FlatAllocator 0 32 1 100; a ← AllocateFixed 32 32 5 10 a; r ← Allocate 32 0 32 6 a;
   Some (fst r, bool_decide (translate 1 0 false (blocks (space a)) 5 = 1))) = Some (5, true).
Proof. reflexivity. Qed.

(** Freeing the first of the allocations merges its block into the first one of the map, which the
    search skips: 80 of the 100 addresses are free, and no 60 of them are found. *)
Example front_not_searched :
  (a ← FlatAllocator 0 32 1 100; r ← Allocate 32 0 32 40 a; r ← Allocate 32 0 32 40 (snd r); r ← Allocate 32 0 32 19 (snd r);
   a ← Free 32 41 40 (snd r); a ← Free 32 1 40 a; r ← Allocate 32 0 32 60 a;
   Some (fst r, forallb (λ x, bool_decide (translate 1 0 false (blocks (space a)) (Z.of_nat x) = 0)) (seq 1 80)))
  = Some (0, true).
Proof. vm_compute. reflexivity. Qed.

(** With the linear space used up and all of it freed, there is no gap to look at. *)
Example freed_all_asserts :
  (a ← FlatAllocator 0 32 1 100; r ← Allocate 32 0 32 99 a; Free 32 1 99 (snd r) ≫= λ a, Allocate 32 0 32 4 a) = None.
Proof. reflexivity. Qed.
