(* ===== verification/CheatVm.v ===== *)
(** The cheat virtual machine of src/src/core/memory/dmnt_cheat_vm.h and dmnt_cheat_vm.cpp,
    with the types of dmnt_cheat_types.h. A field that the source casts to an enumeration
    keeps its raw value, since the decoder does not check it. *)
From S2P Require Import Prelude.

(** * Opcodes (dmnt_cheat_vm.h) *)
Module CheatVmOpcodeType.
Definition StoreStatic : Z := 0.
Definition BeginConditionalBlock : Z := 1.
Definition EndConditionalBlock : Z := 2.
Definition ControlLoop : Z := 3.
Definition LoadRegisterStatic : Z := 4.
Definition LoadRegisterMemory : Z := 5.
Definition StoreStaticToAddress : Z := 6.
Definition PerformArithmeticStatic : Z := 7.
Definition BeginKeypressConditionalBlock : Z := 8.
Definition PerformArithmeticRegister : Z := 9.
Definition StoreRegisterToAddress : Z := 10.
Definition ExtendedWidth : Z := 12.
Definition BeginRegisterConditionalBlock : Z := 0xC0.
Definition SaveRestoreRegister : Z := 0xC1.
Definition SaveRestoreRegisterMask : Z := 0xC2.
Definition ReadWriteStaticRegister : Z := 0xC3.
Definition DoubleExtendedWidth : Z := 0xF0.
Definition PauseProcess : Z := 0xFF0.
Definition ResumeProcess : Z := 0xFF1.
Definition DebugLog : Z := 0xFFF.
End CheatVmOpcodeType.

Module MemoryAccessType.
Definition MainNso : Z := 0.
Definition Heap : Z := 1.
Definition Alias : Z := 2.
Definition Aslr : Z := 3.
End MemoryAccessType.

Module ConditionalComparisonType.
Definition GT : Z := 1.
Definition GE : Z := 2.
Definition LT : Z := 3.
Definition LE : Z := 4.
Definition EQ : Z := 5.
Definition NE : Z := 6.
End ConditionalComparisonType.

Module RegisterArithmeticType.
Definition Addition : Z := 0.
Definition Subtraction : Z := 1.
Definition Multiplication : Z := 2.
Definition LeftShift : Z := 3.
Definition RightShift : Z := 4.
Definition LogicalAnd : Z := 5.
Definition LogicalOr : Z := 6.
Definition LogicalNot : Z := 7.
Definition LogicalXor : Z := 8.
Definition None_ : Z := 9.
End RegisterArithmeticType.

Module StoreRegisterOffsetType.
Definition None_ : Z := 0.
Definition Reg : Z := 1.
Definition Imm : Z := 2.
Definition MemReg : Z := 3.
Definition MemImm : Z := 4.
Definition MemImmReg : Z := 5.
End StoreRegisterOffsetType.

Module CompareRegisterValueType.
Definition MemoryRelAddr : Z := 0.
Definition MemoryOfsReg : Z := 1.
Definition RegisterRelAddr : Z := 2.
Definition RegisterOfsReg : Z := 3.
Definition StaticValue : Z := 4.
Definition OtherRegister : Z := 5.
End CompareRegisterValueType.

Module SaveRestoreRegisterOpType.
Definition Restore : Z := 0.
Definition Save : Z := 1.
Definition ClearSaved : Z := 2.
Definition ClearRegs : Z := 3.
End SaveRestoreRegisterOpType.

Module DebugLogValueType.
Definition MemoryRelAddr : Z := 0.
Definition MemoryOfsReg : Z := 1.
Definition RegisterRelAddr : Z := 2.
Definition RegisterOfsReg : Z := 3.
Definition RegisterValue : Z := 4.
End DebugLogValueType.

(** [union VmInt]: eight bytes, of which the member of the opcode's width is written and
    read. *)
Abbreviation VmInt := Z (only parsing).

Inductive Opcode :=
  | StoreStaticOpcode (bit_width mem_type offset_register rel_address : Z) (value : VmInt)
  | BeginConditionalOpcode (bit_width mem_type cond_type rel_address : Z) (value : VmInt)
  | EndConditionalOpcode (is_else : bool)
  | ControlLoopOpcode (start_loop : bool) (reg_index num_iters : Z)
  | LoadRegisterStaticOpcode (reg_index value : Z)
  | LoadRegisterMemoryOpcode (bit_width mem_type reg_index : Z) (load_from_reg : bool)
      (rel_address : Z)
  | StoreStaticToAddressOpcode (bit_width reg_index : Z) (increment_reg add_offset_reg : bool)
      (offset_reg_index value : Z)
  | PerformArithmeticStaticOpcode (bit_width reg_index math_type value : Z)
  | BeginKeypressConditionalOpcode (key_mask : Z)
  | PerformArithmeticRegisterOpcode (bit_width math_type dst_reg_index src_reg_1_index
      src_reg_2_index : Z) (has_immediate : bool) (value : VmInt)
  | StoreRegisterToAddressOpcode (bit_width str_reg_index addr_reg_index : Z)
      (increment_reg : bool) (ofs_type mem_type ofs_reg_index rel_address : Z)
  | BeginRegisterConditionalOpcode (bit_width cond_type val_reg_index comp_type mem_type
      addr_reg_index other_reg_index ofs_reg_index rel_address : Z) (value : VmInt)
  | SaveRestoreRegisterOpcode (dst_index src_index op_type : Z)
  | SaveRestoreRegisterMaskOpcode (op_type : Z) (should_operate : list bool)
  | ReadWriteStaticRegisterOpcode (static_idx idx : Z)
  | PauseProcessOpcode
  | ResumeProcessOpcode
  | DebugLogOpcode (bit_width log_id val_type mem_type addr_reg_index val_reg_index
      ofs_reg_index rel_address : Z)
  | UnrecognizedInstruction (opcode : Z).

Record CheatVmOpcode := { begin_conditional_block : bool; opcode : Opcode }.

(** * The machine *)
Definition MaximumProgramOpcodeCount : Z := 0x400.
Definition NumRegisters : Z := 0x10.
Definition NumReadableStaticRegisters : Z := 0x80.
Definition NumWritableStaticRegisters : Z := 0x80.
Definition NumStaticRegisters : Z := NumReadableStaticRegisters + NumWritableStaticRegisters.

Record DmntCheatVm := {
  num_opcodes : Z;
  instruction_ptr : Z;
  condition_depth : Z;
  decode_success : bool;
  program : list Z;
  registers : list Z;
  saved_values : list Z;
  static_registers : list Z;
  loop_tops : list Z;
}.

Definition GetProgramSize (vm : DmntCheatVm) : Z := num_opcodes vm.

Definition zeros (n : Z) : list Z := replicate (Z.to_nat n) 0.

Definition new_DmntCheatVm : DmntCheatVm :=
  {| num_opcodes := 0; instruction_ptr := 0; condition_depth := 0; decode_success := false;
     program := zeros MaximumProgramOpcodeCount; registers := zeros NumRegisters;
     saved_values := zeros NumRegisters; static_registers := zeros NumStaticRegisters;
     loop_tops := zeros NumRegisters |}.

(** Assignments to one member. *)
Definition with_flow (ip depth : Z) (success : bool) (vm : DmntCheatVm) : DmntCheatVm :=
  {| num_opcodes := num_opcodes vm; instruction_ptr := ip; condition_depth := depth;
     decode_success := success; program := program vm; registers := registers vm;
     saved_values := saved_values vm; static_registers := static_registers vm;
     loop_tops := loop_tops vm |}.
Definition with_depth (depth : Z) (vm : DmntCheatVm) : DmntCheatVm :=
  with_flow (instruction_ptr vm) depth (decode_success vm) vm.
Definition with_ip (ip : Z) (vm : DmntCheatVm) : DmntCheatVm :=
  with_flow ip (condition_depth vm) (decode_success vm) vm.
Definition with_arrays (regs saved statics tops : list Z) (vm : DmntCheatVm) : DmntCheatVm :=
  {| num_opcodes := num_opcodes vm; instruction_ptr := instruction_ptr vm;
     condition_depth := condition_depth vm; decode_success := decode_success vm;
     program := program vm; registers := regs; saved_values := saved;
     static_registers := statics; loop_tops := tops |}.

(** * Decoding *)

(** The local state of [DecodeNextOpcode]: [instruction_ptr] and [valid]. [None] is a read
    outside the program array. *)
Definition decoder (A : Type) : Type := Z * bool → option (A * (Z * bool)).
Definition dret {A} (x : A) : decoder A := λ st, Some (x, st).
Definition dbind {A B} (m : decoder A) (f : A → decoder B) : decoder B :=
  λ st, '(x, st) ← m st; f x st.

Declare Scope decoder_scope.
Delimit Scope decoder_scope with decoder.
Notation "'let*' x := m 'in' k" := (dbind m (λ x, k))
  (at level 200, x binder, m at level 100, k at level 200) : decoder_scope.

Section decode.
Context (vm : DmntCheatVm).

Definition GetNextDword : decoder Z := λ '(ip, valid),
  if num_opcodes vm <=? ip then Some (0, (ip, false))
  else
    dword ← at_ (program vm) ip;
    Some (dword, (ip + 1, valid)).

Definition dword64 (high low : Z) : Z := Z.lor (Z.shiftl high 32) low.

Local Open Scope decoder_scope.

Definition GetNextVmInt (bit_width : Z) : decoder VmInt :=
  let* first_dword := GetNextDword in
  if bit_width =? 1 then dret (u8 first_dword)
  else if bit_width =? 2 then dret (u16 first_dword)
  else if bit_width =? 4 then dret first_dword
  else if bit_width =? 8 then
    let* low := GetNextDword in dret (dword64 first_dword low)
  else dret 0.

(** [(first_dword >> sh) & 0xF] *)
Definition nibble (first_dword sh : Z) : Z := Z.land (Z.shiftr first_dword sh) 0xF.

Definition opcode_type_of (first_dword : Z) : Z :=
  let opcode_type := nibble first_dword 28 in
  let opcode_type :=
    if CheatVmOpcodeType.ExtendedWidth <=? opcode_type then
      Z.lor (Z.shiftl opcode_type 4) (nibble first_dword 24)
    else opcode_type in
  if CheatVmOpcodeType.DoubleExtendedWidth <=? opcode_type then
    Z.lor (Z.shiftl opcode_type 4) (nibble first_dword 20)
  else opcode_type.

Definition is_condition_start (opcode_type : Z) : bool :=
  (opcode_type =? CheatVmOpcodeType.BeginConditionalBlock)
  || (opcode_type =? CheatVmOpcodeType.BeginKeypressConditionalBlock)
  || (opcode_type =? CheatVmOpcodeType.BeginRegisterConditionalBlock).

(** 0TMR00AA AAAAAAAA YYYYYYYY (YYYYYYYY) *)
Definition decode_StoreStatic (first_dword : Z) : decoder Opcode :=
  let* second_dword := GetNextDword in
  let bit_width := nibble first_dword 24 in
  let* value := GetNextVmInt bit_width in
  dret (StoreStaticOpcode bit_width (nibble first_dword 20) (nibble first_dword 16)
          (dword64 (Z.land first_dword 0xFF) second_dword) value).

(** 1TMC00AA AAAAAAAA YYYYYYYY (YYYYYYYY) *)
Definition decode_BeginConditionalBlock (first_dword : Z) : decoder Opcode :=
  let* second_dword := GetNextDword in
  let bit_width := nibble first_dword 24 in
  let* value := GetNextVmInt bit_width in
  dret (BeginConditionalOpcode bit_width (nibble first_dword 20) (nibble first_dword 16)
          (dword64 (Z.land first_dword 0xFF) second_dword) value).

Definition decode_EndConditionalBlock (first_dword : Z) : decoder Opcode :=
  dret (EndConditionalOpcode (nibble first_dword 24 =? 1)).

Definition decode_ControlLoop (first_dword : Z) : decoder Opcode :=
  let start_loop := nibble first_dword 24 =? 0 in
  let reg_index := nibble first_dword 20 in
  if start_loop then
    let* num_iters := GetNextDword in dret (ControlLoopOpcode start_loop reg_index num_iters)
  else dret (ControlLoopOpcode start_loop reg_index 0).

(** The two operands of [|] are read in the order they are written; the language leaves
    the order open. *)
Definition decode_LoadRegisterStatic (first_dword : Z) : decoder Opcode :=
  let* high := GetNextDword in
  let* low := GetNextDword in
  dret (LoadRegisterStaticOpcode (nibble first_dword 16) (dword64 high low)).

Definition decode_LoadRegisterMemory (first_dword : Z) : decoder Opcode :=
  let* second_dword := GetNextDword in
  dret (LoadRegisterMemoryOpcode (nibble first_dword 24) (nibble first_dword 20)
          (nibble first_dword 16) (negb (nibble first_dword 12 =? 0))
          (dword64 (Z.land first_dword 0xFF) second_dword)).

Definition decode_StoreStaticToAddress (first_dword : Z) : decoder Opcode :=
  let* high := GetNextDword in
  let* low := GetNextDword in
  dret (StoreStaticToAddressOpcode (nibble first_dword 24) (nibble first_dword 16)
          (negb (nibble first_dword 12 =? 0)) (negb (nibble first_dword 8 =? 0))
          (nibble first_dword 4) (dword64 high low)).

Definition decode_PerformArithmeticStatic (first_dword : Z) : decoder Opcode :=
  let* value := GetNextDword in
  dret (PerformArithmeticStaticOpcode (nibble first_dword 24) (nibble first_dword 16)
          (nibble first_dword 12) value).

Definition decode_BeginKeypressConditionalBlock (first_dword : Z) : decoder Opcode :=
  dret (BeginKeypressConditionalOpcode (Z.land first_dword 0x0FFFFFFF)).

Definition decode_PerformArithmeticRegister (first_dword : Z) : decoder Opcode :=
  let bit_width := nibble first_dword 24 in
  let has_immediate := negb (nibble first_dword 8 =? 0) in
  if has_immediate then
    let* value := GetNextVmInt bit_width in
    dret (PerformArithmeticRegisterOpcode bit_width (nibble first_dword 20)
            (nibble first_dword 16) (nibble first_dword 12) 0 has_immediate value)
  else
    dret (PerformArithmeticRegisterOpcode bit_width (nibble first_dword 20)
            (nibble first_dword 16) (nibble first_dword 12) (nibble first_dword 4)
            has_immediate 0).

(** ATSRIOxa (aaaaaaaa) *)
Definition decode_StoreRegisterToAddress (first_dword : Z) : decoder Opcode :=
  let str_register := StoreRegisterToAddressOpcode (nibble first_dword 24)
    (nibble first_dword 20) (nibble first_dword 16) (negb (nibble first_dword 12 =? 0)) in
  let ofs_type := nibble first_dword 8 in
  let ofs_reg_index := nibble first_dword 4 in
  let rel_address low := dword64 (Z.land first_dword 0xF) low in
  if (ofs_type =? StoreRegisterOffsetType.None_) || (ofs_type =? StoreRegisterOffsetType.Reg) then
    dret (str_register ofs_type MemoryAccessType.MainNso ofs_reg_index 0)
  else if ofs_type =? StoreRegisterOffsetType.Imm then
    let* low := GetNextDword in
    dret (str_register ofs_type MemoryAccessType.MainNso ofs_reg_index (rel_address low))
  else if ofs_type =? StoreRegisterOffsetType.MemReg then
    dret (str_register ofs_type (nibble first_dword 4) ofs_reg_index 0)
  else if (ofs_type =? StoreRegisterOffsetType.MemImm)
          || (ofs_type =? StoreRegisterOffsetType.MemImmReg) then
    let* low := GetNextDword in
    dret (str_register ofs_type (nibble first_dword 4) ofs_reg_index (rel_address low))
  else dret (str_register StoreRegisterOffsetType.None_ MemoryAccessType.MainNso ofs_reg_index 0).

(** C0TcSX## and the forms of the operand *)
Definition decode_BeginRegisterConditionalBlock (first_dword : Z) : decoder Opcode :=
  let bit_width := nibble first_dword 20 in
  let comp_type := nibble first_dword 8 in
  let begin_reg_cond := BeginRegisterConditionalOpcode bit_width (nibble first_dword 16)
    (nibble first_dword 12) comp_type in
  let rel_address low := dword64 (Z.land first_dword 0xF) low in
  if comp_type =? CompareRegisterValueType.StaticValue then
    let* value := GetNextVmInt bit_width in
    dret (begin_reg_cond MemoryAccessType.MainNso 0 0 0 0 value)
  else if comp_type =? CompareRegisterValueType.OtherRegister then
    dret (begin_reg_cond MemoryAccessType.MainNso 0 (nibble first_dword 4) 0 0 0)
  else if comp_type =? CompareRegisterValueType.MemoryRelAddr then
    let* low := GetNextDword in
    dret (begin_reg_cond (nibble first_dword 4) 0 0 0 (rel_address low) 0)
  else if comp_type =? CompareRegisterValueType.MemoryOfsReg then
    dret (begin_reg_cond (nibble first_dword 4) 0 0 (Z.land first_dword 0xF) 0 0)
  else if comp_type =? CompareRegisterValueType.RegisterRelAddr then
    let* low := GetNextDword in
    dret (begin_reg_cond MemoryAccessType.MainNso (nibble first_dword 4) 0 0 (rel_address low) 0)
  else if comp_type =? CompareRegisterValueType.RegisterOfsReg then
    dret (begin_reg_cond MemoryAccessType.MainNso (nibble first_dword 4) 0
            (Z.land first_dword 0xF) 0 0)
  else dret (begin_reg_cond MemoryAccessType.MainNso 0 0 0 0 0).

Definition decode_SaveRestoreRegister (first_dword : Z) : decoder Opcode :=
  dret (SaveRestoreRegisterOpcode (nibble first_dword 16) (nibble first_dword 8)
          (nibble first_dword 4)).

Definition decode_SaveRestoreRegisterMask (first_dword : Z) : decoder Opcode :=
  dret (SaveRestoreRegisterMaskOpcode (nibble first_dword 20)
          (map (λ i, negb (Z.land first_dword (Z.shiftl 1 (Z.of_nat i)) =? 0))
             (seq 0 (Z.to_nat NumRegisters)))).

Definition decode_ReadWriteStaticRegister (first_dword : Z) : decoder Opcode :=
  dret (ReadWriteStaticRegisterOpcode (Z.land (Z.shiftr first_dword 4) 0xFF)
          (Z.land first_dword 0xF)).

Definition decode_DebugLog (first_dword : Z) : decoder Opcode :=
  let val_type := nibble first_dword 8 in
  let debug_log := DebugLogOpcode (nibble first_dword 16) (nibble first_dword 12) val_type in
  let rel_address low := dword64 (Z.land first_dword 0xF) low in
  if val_type =? DebugLogValueType.RegisterValue then
    dret (debug_log MemoryAccessType.MainNso 0 (nibble first_dword 4) 0 0)
  else if val_type =? DebugLogValueType.MemoryRelAddr then
    let* low := GetNextDword in
    dret (debug_log (nibble first_dword 4) 0 0 0 (rel_address low))
  else if val_type =? DebugLogValueType.MemoryOfsReg then
    dret (debug_log (nibble first_dword 4) 0 0 (Z.land first_dword 0xF) 0)
  else if val_type =? DebugLogValueType.RegisterRelAddr then
    let* low := GetNextDword in
    dret (debug_log MemoryAccessType.MainNso (nibble first_dword 4) 0 0 (rel_address low))
  else if val_type =? DebugLogValueType.RegisterOfsReg then
    dret (debug_log MemoryAccessType.MainNso (nibble first_dword 4) 0 (Z.land first_dword 0xF) 0)
  else dret (debug_log MemoryAccessType.MainNso 0 0 0 0).

(** An instruction that cannot be decoded: [valid = false]. *)
Definition decode_Unrecognized (opcode_type : Z) : decoder Opcode := λ '(ip, _),
  Some (UnrecognizedInstruction opcode_type, (ip, false)).

Definition decode_opcode (opcode_type first_dword : Z) : decoder Opcode :=
  if opcode_type =? CheatVmOpcodeType.StoreStatic then decode_StoreStatic first_dword
  else if opcode_type =? CheatVmOpcodeType.BeginConditionalBlock then
    decode_BeginConditionalBlock first_dword
  else if opcode_type =? CheatVmOpcodeType.EndConditionalBlock then
    decode_EndConditionalBlock first_dword
  else if opcode_type =? CheatVmOpcodeType.ControlLoop then decode_ControlLoop first_dword
  else if opcode_type =? CheatVmOpcodeType.LoadRegisterStatic then
    decode_LoadRegisterStatic first_dword
  else if opcode_type =? CheatVmOpcodeType.LoadRegisterMemory then
    decode_LoadRegisterMemory first_dword
  else if opcode_type =? CheatVmOpcodeType.StoreStaticToAddress then
    decode_StoreStaticToAddress first_dword
  else if opcode_type =? CheatVmOpcodeType.PerformArithmeticStatic then
    decode_PerformArithmeticStatic first_dword
  else if opcode_type =? CheatVmOpcodeType.BeginKeypressConditionalBlock then
    decode_BeginKeypressConditionalBlock first_dword
  else if opcode_type =? CheatVmOpcodeType.PerformArithmeticRegister then
    decode_PerformArithmeticRegister first_dword
  else if opcode_type =? CheatVmOpcodeType.StoreRegisterToAddress then
    decode_StoreRegisterToAddress first_dword
  else if opcode_type =? CheatVmOpcodeType.BeginRegisterConditionalBlock then
    decode_BeginRegisterConditionalBlock first_dword
  else if opcode_type =? CheatVmOpcodeType.SaveRestoreRegister then
    decode_SaveRestoreRegister first_dword
  else if opcode_type =? CheatVmOpcodeType.SaveRestoreRegisterMask then
    decode_SaveRestoreRegisterMask first_dword
  else if opcode_type =? CheatVmOpcodeType.ReadWriteStaticRegister then
    decode_ReadWriteStaticRegister first_dword
  else if opcode_type =? CheatVmOpcodeType.PauseProcess then dret PauseProcessOpcode
  else if opcode_type =? CheatVmOpcodeType.ResumeProcess then dret ResumeProcessOpcode
  else if opcode_type =? CheatVmOpcodeType.DebugLog then decode_DebugLog first_dword
  else decode_Unrecognized opcode_type.
End decode.

(** The opcode is written to [out] (the [Some]) exactly when it is valid, which is also the
    answer. *)
Definition DecodeNextOpcode (vm : DmntCheatVm) : option (option CheatVmOpcode * DmntCheatVm) :=
  '(first_dword, (ip, valid)) ← GetNextDword vm (instruction_ptr vm, decode_success vm);
  if negb valid then
    Some (None, with_flow ip (condition_depth vm) (decode_success vm && valid) vm)
  else
    let opcode_type := opcode_type_of first_dword in
    '(op, (ip, valid)) ← decode_opcode vm opcode_type first_dword (ip, valid);
    Some (if (valid : bool) then
            Some {| begin_conditional_block := is_condition_start opcode_type; opcode := op |}
          else None,
          with_flow ip (condition_depth vm) (decode_success vm && valid) vm).

(** * Control flow *)

(** Every successful decode moves the instruction pointer, so one more turn than the
    program has words is enough. *)
Fixpoint SkipConditionalBlock_loop (fuel : nat) (is_if : bool) (desired_depth : Z)
    (vm : DmntCheatVm) : option DmntCheatVm :=
  match fuel with
  | O => None
  | S fuel =>
      if desired_depth <? condition_depth vm then
        '(out, vm) ← DecodeNextOpcode vm;
        match out with
        | None => Some vm
        | Some skip_opcode =>
            if begin_conditional_block skip_opcode then
              SkipConditionalBlock_loop fuel is_if desired_depth
                (with_depth (u64 (condition_depth vm + 1)) vm)
            else
              match opcode skip_opcode with
              | EndConditionalOpcode is_else =>
                  if negb is_else then
                    SkipConditionalBlock_loop fuel is_if desired_depth
                      (with_depth (u64 (condition_depth vm - 1)) vm)
                  else if is_if && (u64 (condition_depth vm - 1) =? desired_depth) then Some vm
                  else SkipConditionalBlock_loop fuel is_if desired_depth vm
              | _ => SkipConditionalBlock_loop fuel is_if desired_depth vm
              end
        end
      else Some vm
  end.

Definition SkipConditionalBlock (is_if : bool) (vm : DmntCheatVm) : option DmntCheatVm :=
  if 0 <? condition_depth vm then
    let desired_depth := condition_depth vm - 1 in
    SkipConditionalBlock_loop (Z.to_nat (num_opcodes vm) + 2) is_if desired_depth vm
  else None.

Definition GetVmInt (value : VmInt) (bit_width : Z) : Z :=
  if bit_width =? 1 then u8 value
  else if bit_width =? 2 then u16 value
  else if bit_width =? 4 then u32 value
  else if bit_width =? 8 then value
  else 0.

Record MemoryRegionExtents := { base : Z; size_ : Z }.
Record CheatProcessMetadata := {
  process_id : Z;
  title_id : Z;
  main_nso_extents : MemoryRegionExtents;
  heap_extents : MemoryRegionExtents;
  alias_extents : MemoryRegionExtents;
  aslr_extents : MemoryRegionExtents;
  main_nso_build_id : list Z;
}.

Definition GetCheatProcessAddress (metadata : CheatProcessMetadata) (mem_type rel_address : Z) : Z :=
  if mem_type =? MemoryAccessType.Heap then u64 (base (heap_extents metadata) + rel_address)
  else if mem_type =? MemoryAccessType.Alias then u64 (base (alias_extents metadata) + rel_address)
  else if mem_type =? MemoryAccessType.Aslr then u64 (base (aslr_extents metadata) + rel_address)
  else u64 (base (main_nso_extents metadata) + rel_address).

Definition ResetState (vm : DmntCheatVm) : DmntCheatVm :=
  {| num_opcodes := num_opcodes vm; instruction_ptr := 0; condition_depth := 0;
     decode_success := true; program := program vm; registers := zeros NumRegisters;
     saved_values := zeros NumRegisters; static_registers := static_registers vm;
     loop_tops := zeros NumRegisters |}.

(** * LoadProgram *)
Record CheatDefinition := { readable_name : list Z; def_num_opcodes : Z; opcodes : list Z }.
Record CheatEntry := { enabled : bool; cheat_id : Z; definition : CheatDefinition }.

Definition with_program (n : Z) (prog : list Z) (vm : DmntCheatVm) : DmntCheatVm :=
  {| num_opcodes := n; instruction_ptr := instruction_ptr vm;
     condition_depth := condition_depth vm; decode_success := decode_success vm;
     program := prog; registers := registers vm; saved_values := saved_values vm;
     static_registers := static_registers vm; loop_tops := loop_tops vm |}.

(** [program[num_opcodes++] = definition.opcodes[n]] for the [count] indices from [n]. *)
Fixpoint copy_opcodes (count : nat) (n : Z) (d : CheatDefinition) (vm : DmntCheatVm)
    : option DmntCheatVm :=
  match count with
  | O => Some vm
  | S count =>
      word ← at_ (opcodes d) n;
      prog ← set_at (program vm) (num_opcodes vm) word;
      copy_opcodes count (n + 1) d (with_program (num_opcodes vm + 1) prog vm)
  end.

Fixpoint LoadProgram_loop (entries : list CheatEntry) (vm : DmntCheatVm)
    : option (bool * DmntCheatVm) :=
  match entries with
  | [] => Some (true, vm)
  | entry :: entries =>
      if enabled entry then
        if MaximumProgramOpcodeCount <? def_num_opcodes (definition entry) + num_opcodes vm then
          Some (false, with_program 0 (program vm) vm)
        else
          vm ← copy_opcodes (Z.to_nat (def_num_opcodes (definition entry))) 0 (definition entry) vm;
          LoadProgram_loop entries vm
      else LoadProgram_loop entries vm
  end.

Definition LoadProgram (entries : list CheatEntry) (vm : DmntCheatVm)
    : option (bool * DmntCheatVm) :=
  LoadProgram_loop entries (with_program 0 (program vm) vm).

(** * Execution *)

(** The virtual interface [Callbacks] over a state [W] of the outside world. A read gives
    the bytes at the address as a little-endian number; what an implementation does with an
    invalid address is its own affair. *)
Class Callbacks (W : Type) := {
  MemoryReadUnsafe : W → Z → Z → Z * W;
  MemoryWriteUnsafe : W → Z → Z → Z → W;
  HidKeysDown : W → Z * W;
  PauseProcess : W → W;
  ResumeProcess : W → W;
  DebugLog : W → Z → Z → W;
}.

(** [registers[i]] and [registers[i] = v]. *)
Definition reg (vm : DmntCheatVm) (i : Z) : option Z := at_ (registers vm) i.
Definition set_reg (i v : Z) (vm : DmntCheatVm) : option DmntCheatVm :=
  regs ← set_at (registers vm) i v;
  Some (with_arrays regs (saved_values vm) (static_registers vm) (loop_tops vm) vm).
Definition set_saved (i v : Z) (vm : DmntCheatVm) : option DmntCheatVm :=
  saved ← set_at (saved_values vm) i v;
  Some (with_arrays (registers vm) saved (static_registers vm) (loop_tops vm) vm).
Definition set_static (i v : Z) (vm : DmntCheatVm) : option DmntCheatVm :=
  statics ← set_at (static_registers vm) i v;
  Some (with_arrays (registers vm) (saved_values vm) statics (loop_tops vm) vm).
Definition set_loop_top (i v : Z) (vm : DmntCheatVm) : option DmntCheatVm :=
  tops ← set_at (loop_tops vm) i v;
  Some (with_arrays (registers vm) (saved_values vm) (static_registers vm) tops vm).

(** [case 1: case 2: case 4: case 8:] *)
Definition valid_width (bit_width : Z) : bool :=
  (bit_width =? 1) || (bit_width =? 2) || (bit_width =? 4) || (bit_width =? 8).

(** The casts that apply a bit width; another width leaves the value alone. *)
Definition apply_width (bit_width value : Z) : Z :=
  if bit_width =? 1 then u8 value
  else if bit_width =? 2 then u16 value
  else if bit_width =? 4 then u32 value
  else if bit_width =? 8 then u64 value
  else value.

(** The masked read of a register; another width gives the initial 0. *)
Definition masked (bit_width value : Z) : Z :=
  if bit_width =? 1 then u8 (Z.land value 0xFF)
  else if bit_width =? 2 then u16 (Z.land value 0xFFFF)
  else if bit_width =? 4 then u32 (Z.land value 0xFFFFFFFF)
  else if bit_width =? 8 then u64 (Z.land value 0xFFFFFFFFFFFFFFFF)
  else 0.

Definition condition_met (cond_type src_value cond_value : Z) : bool :=
  if cond_type =? ConditionalComparisonType.GT then cond_value <? src_value
  else if cond_type =? ConditionalComparisonType.GE then cond_value <=? src_value
  else if cond_type =? ConditionalComparisonType.LT then src_value <? cond_value
  else if cond_type =? ConditionalComparisonType.LE then src_value <=? cond_value
  else if cond_type =? ConditionalComparisonType.EQ then src_value =? cond_value
  else if cond_type =? ConditionalComparisonType.NE then negb (src_value =? cond_value)
  else false.

Definition skip_unless (cond_met : bool) (vm : DmntCheatVm) : option DmntCheatVm :=
  if negb cond_met then SkipConditionalBlock true vm else Some vm.

Section execute.
Context {W : Type} `{Callbacks W}.

(** [MemoryReadUnsafe(address, &data, bit_width)]: the low [bit_width] bytes of the 64-bit
    object [data] are overwritten (little-endian host). *)
Definition read_into (data address bit_width : Z) (w : W) : Z * W :=
  if valid_width bit_width then
    let '(v, w) := MemoryReadUnsafe w address bit_width in
    let mask := 2 ^ (8 * bit_width) - 1 in
    (Z.lor (Z.land data (lnotw 64 mask)) (Z.land v mask), w)
  else (data, w).

Definition write_from (value address bit_width : Z) (w : W) : W :=
  if valid_width bit_width then MemoryWriteUnsafe w address value bit_width else w.

Context (metadata : CheatProcessMetadata) (kDown : Z).

Definition exec_StoreStatic (bit_width mem_type offset_register rel_address : Z) (value : VmInt)
    (vm : DmntCheatVm) (w : W) : option (DmntCheatVm * W) :=
  offset ← reg vm offset_register;
  let dst_address := GetCheatProcessAddress metadata mem_type (u64 (rel_address + offset)) in
  let dst_value := GetVmInt value bit_width in
  Some (vm, write_from dst_value dst_address bit_width w).

Definition exec_BeginConditional (bit_width mem_type cond_type rel_address : Z) (value : VmInt)
    (vm : DmntCheatVm) (w : W) : option (DmntCheatVm * W) :=
  let src_address := GetCheatProcessAddress metadata mem_type rel_address in
  let '(src_value, w) := read_into 0 src_address bit_width w in
  let cond_value := GetVmInt value bit_width in
  vm ← skip_unless (condition_met cond_type src_value cond_value) vm;
  Some (vm, w).

Definition exec_EndConditional (is_else : bool) (vm : DmntCheatVm) (w : W)
    : option (DmntCheatVm * W) :=
  if is_else then vm ← SkipConditionalBlock false vm; Some (vm, w)
  else if 0 <? condition_depth vm then Some (with_depth (condition_depth vm - 1) vm, w)
  else Some (vm, w).

Definition exec_ControlLoop (start_loop : bool) (reg_index num_iters : Z) (vm : DmntCheatVm)
    (w : W) : option (DmntCheatVm * W) :=
  if start_loop then
    vm ← set_reg reg_index num_iters vm;
    vm ← set_loop_top reg_index (instruction_ptr vm) vm;
    Some (vm, w)
  else
    r ← reg vm reg_index;
    let r := u64 (r - 1) in
    vm ← set_reg reg_index r vm;
    if negb (r =? 0) then
      top ← at_ (loop_tops vm) reg_index;
      Some (with_ip top vm, w)
    else Some (vm, w).

Definition exec_LoadRegisterStatic (reg_index value : Z) (vm : DmntCheatVm) (w : W)
    : option (DmntCheatVm * W) :=
  vm ← set_reg reg_index value vm;
  Some (vm, w).

Definition exec_LoadRegisterMemory (bit_width mem_type reg_index : Z) (load_from_reg : bool)
    (rel_address : Z) (vm : DmntCheatVm) (w : W) : option (DmntCheatVm * W) :=
  r ← reg vm reg_index;
  let src_address :=
    if load_from_reg then u64 (r + rel_address)
    else GetCheatProcessAddress metadata mem_type rel_address in
  let '(r, w) := read_into r src_address bit_width w in
  vm ← set_reg reg_index r vm;
  Some (vm, w).

Definition exec_StoreStaticToAddress (bit_width reg_index : Z) (increment_reg add_offset_reg : bool)
    (offset_reg_index value : Z) (vm : DmntCheatVm) (w : W) : option (DmntCheatVm * W) :=
  r ← reg vm reg_index;
  dst_address ← (if add_offset_reg then
                   offset ← reg vm offset_reg_index; Some (u64 (r + offset))
                 else Some r);
  let w := write_from value dst_address bit_width w in
  if increment_reg then
    vm ← set_reg reg_index (u64 (r + bit_width)) vm;
    Some (vm, w)
  else Some (vm, w).

Definition exec_PerformArithmeticStatic (bit_width reg_index math_type value : Z)
    (vm : DmntCheatVm) (w : W) : option (DmntCheatVm * W) :=
  r ← reg vm reg_index;
  r ← (if math_type =? RegisterArithmeticType.Addition then Some (u64 (r + value))
       else if math_type =? RegisterArithmeticType.Subtraction then Some (u64 (r - value))
       else if math_type =? RegisterArithmeticType.Multiplication then Some (u64 (r * value))
       else if math_type =? RegisterArithmeticType.LeftShift then shl 64 r value
       else if math_type =? RegisterArithmeticType.RightShift then shr 64 r value
       else Some r);
  vm ← set_reg reg_index (apply_width bit_width r) vm;
  Some (vm, w).

Definition exec_BeginKeypressConditional (key_mask : Z) (vm : DmntCheatVm) (w : W)
    : option (DmntCheatVm * W) :=
  vm ← skip_unless (Z.land key_mask kDown =? key_mask) vm;
  Some (vm, w).

Definition register_math (math_type operand_1_value operand_2_value : Z) : option Z :=
  if math_type =? RegisterArithmeticType.Addition then Some (u64 (operand_1_value + operand_2_value))
  else if math_type =? RegisterArithmeticType.Subtraction then
    Some (u64 (operand_1_value - operand_2_value))
  else if math_type =? RegisterArithmeticType.Multiplication then
    Some (u64 (operand_1_value * operand_2_value))
  else if math_type =? RegisterArithmeticType.LeftShift then shl 64 operand_1_value operand_2_value
  else if math_type =? RegisterArithmeticType.RightShift then shr 64 operand_1_value operand_2_value
  else if math_type =? RegisterArithmeticType.LogicalAnd then
    Some (Z.land operand_1_value operand_2_value)
  else if math_type =? RegisterArithmeticType.LogicalOr then
    Some (Z.lor operand_1_value operand_2_value)
  else if math_type =? RegisterArithmeticType.LogicalNot then Some (lnotw 64 operand_1_value)
  else if math_type =? RegisterArithmeticType.LogicalXor then
    Some (Z.lxor operand_1_value operand_2_value)
  else if math_type =? RegisterArithmeticType.None_ then Some operand_1_value
  else Some 0.

Definition exec_PerformArithmeticRegister (bit_width math_type dst_reg_index src_reg_1_index
    src_reg_2_index : Z) (has_immediate : bool) (value : VmInt) (vm : DmntCheatVm) (w : W)
    : option (DmntCheatVm * W) :=
  operand_1_value ← reg vm src_reg_1_index;
  operand_2_value ← (if has_immediate then Some (GetVmInt value bit_width)
                     else reg vm src_reg_2_index);
  res_val ← register_math math_type operand_1_value operand_2_value;
  vm ← set_reg dst_reg_index (apply_width bit_width res_val) vm;
  Some (vm, w).

Definition exec_StoreRegisterToAddress (bit_width str_reg_index addr_reg_index : Z)
    (increment_reg : bool) (ofs_type mem_type ofs_reg_index rel_address : Z)
    (vm : DmntCheatVm) (w : W) : option (DmntCheatVm * W) :=
  dst_value ← reg vm str_reg_index;
  addr ← reg vm addr_reg_index;
  dst_address ←
    (if ofs_type =? StoreRegisterOffsetType.Reg then
       ofs ← reg vm ofs_reg_index; Some (u64 (addr + ofs))
     else if ofs_type =? StoreRegisterOffsetType.Imm then Some (u64 (addr + rel_address))
     else if ofs_type =? StoreRegisterOffsetType.MemReg then
       Some (GetCheatProcessAddress metadata mem_type addr)
     else if ofs_type =? StoreRegisterOffsetType.MemImm then
       Some (GetCheatProcessAddress metadata mem_type rel_address)
     else if ofs_type =? StoreRegisterOffsetType.MemImmReg then
       Some (GetCheatProcessAddress metadata mem_type (u64 (addr + rel_address)))
     else Some addr);
  let w := write_from dst_value dst_address bit_width w in
  if increment_reg then
    vm ← set_reg addr_reg_index (u64 (addr + bit_width)) vm;
    Some (vm, w)
  else Some (vm, w).

(** The address of a memory operand, the same for a conditional block and for the log:
    the two enumerations agree on these four kinds. *)
Definition operand_address (val_type mem_type addr_reg_index ofs_reg_index rel_address : Z)
    (vm : DmntCheatVm) : option Z :=
  if val_type =? CompareRegisterValueType.MemoryRelAddr then
    Some (GetCheatProcessAddress metadata mem_type rel_address)
  else if val_type =? CompareRegisterValueType.MemoryOfsReg then
    ofs ← reg vm ofs_reg_index;
    Some (GetCheatProcessAddress metadata mem_type ofs)
  else if val_type =? CompareRegisterValueType.RegisterRelAddr then
    addr ← reg vm addr_reg_index;
    Some (u64 (addr + rel_address))
  else if val_type =? CompareRegisterValueType.RegisterOfsReg then
    addr ← reg vm addr_reg_index;
    ofs ← reg vm ofs_reg_index;
    Some (u64 (addr + ofs))
  else Some 0.

Definition exec_BeginRegisterConditional (bit_width cond_type val_reg_index comp_type mem_type
    addr_reg_index other_reg_index ofs_reg_index rel_address : Z) (value : VmInt)
    (vm : DmntCheatVm) (w : W) : option (DmntCheatVm * W) :=
  val ← reg vm val_reg_index;
  let src_value := masked bit_width val in
  '(cond_value, w) ←
    (if comp_type =? CompareRegisterValueType.StaticValue then Some (GetVmInt value bit_width, w)
     else if comp_type =? CompareRegisterValueType.OtherRegister then
       other ← reg vm other_reg_index; Some (masked bit_width other, w)
     else
       cond_address ← operand_address comp_type mem_type addr_reg_index ofs_reg_index rel_address vm;
       Some (read_into 0 cond_address bit_width w));
  vm ← skip_unless (condition_met cond_type src_value cond_value) vm;
  Some (vm, w).

Definition exec_SaveRestoreRegister (dst_index src_index op_type : Z) (vm : DmntCheatVm) (w : W)
    : option (DmntCheatVm * W) :=
  vm ← (if op_type =? SaveRestoreRegisterOpType.ClearRegs then set_reg dst_index 0 vm
        else if op_type =? SaveRestoreRegisterOpType.ClearSaved then set_saved dst_index 0 vm
        else if op_type =? SaveRestoreRegisterOpType.Save then
          r ← reg vm src_index; set_saved dst_index r vm
        else
          s ← at_ (saved_values vm) src_index; set_reg dst_index s vm);
  Some (vm, w).

(** The loop over the sixteen registers: [dst[i]] is cleared or taken from [src[i]]. The
    source and destination arrays differ, so the iterations are independent. *)
Definition mask_loop (op_type : Z) (should_operate : list bool) (src dst : list Z) : list Z :=
  zip_with (λ (operate : bool) '(s, d),
      if operate then
        if (op_type =? SaveRestoreRegisterOpType.ClearSaved)
           || (op_type =? SaveRestoreRegisterOpType.ClearRegs) then 0 else s
      else d)
    should_operate (zip src dst).

Definition exec_SaveRestoreRegisterMask (op_type : Z) (should_operate : list bool)
    (vm : DmntCheatVm) (w : W) : option (DmntCheatVm * W) :=
  if (op_type =? SaveRestoreRegisterOpType.ClearSaved)
     || (op_type =? SaveRestoreRegisterOpType.Save) then
    let saved := mask_loop op_type should_operate (registers vm) (saved_values vm) in
    Some (with_arrays (registers vm) saved (static_registers vm) (loop_tops vm) vm, w)
  else
    let regs := mask_loop op_type should_operate (saved_values vm) (registers vm) in
    Some (with_arrays regs (saved_values vm) (static_registers vm) (loop_tops vm) vm, w).

Definition exec_ReadWriteStaticRegister (static_idx idx : Z) (vm : DmntCheatVm) (w : W)
    : option (DmntCheatVm * W) :=
  vm ← (if static_idx <? NumReadableStaticRegisters then
          s ← at_ (static_registers vm) static_idx; set_reg idx s vm
        else
          r ← reg vm idx; set_static static_idx r vm);
  Some (vm, w).

Definition exec_DebugLog (bit_width log_id val_type mem_type addr_reg_index val_reg_index
    ofs_reg_index rel_address : Z) (vm : DmntCheatVm) (w : W) : option (DmntCheatVm * W) :=
  '(log_value, w) ←
    (if val_type =? DebugLogValueType.RegisterValue then
       val ← reg vm val_reg_index; Some (masked bit_width val, w)
     else
       val_address ← operand_address val_type mem_type addr_reg_index ofs_reg_index rel_address vm;
       Some (read_into 0 val_address bit_width w));
  Some (vm, DebugLog w (u8 log_id) log_value).

Definition exec_opcode (op : Opcode) (vm : DmntCheatVm) (w : W) : option (DmntCheatVm * W) :=
  match op with
  | StoreStaticOpcode bw mt r a v => exec_StoreStatic bw mt r a v vm w
  | BeginConditionalOpcode bw mt ct a v => exec_BeginConditional bw mt ct a v vm w
  | EndConditionalOpcode is_else => exec_EndConditional is_else vm w
  | ControlLoopOpcode start r n => exec_ControlLoop start r n vm w
  | LoadRegisterStaticOpcode r v => exec_LoadRegisterStatic r v vm w
  | LoadRegisterMemoryOpcode bw mt r from a => exec_LoadRegisterMemory bw mt r from a vm w
  | StoreStaticToAddressOpcode bw r inc add o v => exec_StoreStaticToAddress bw r inc add o v vm w
  | PerformArithmeticStaticOpcode bw r mt v => exec_PerformArithmeticStatic bw r mt v vm w
  | BeginKeypressConditionalOpcode m => exec_BeginKeypressConditional m vm w
  | PerformArithmeticRegisterOpcode bw mt d s1 s2 imm v =>
      exec_PerformArithmeticRegister bw mt d s1 s2 imm v vm w
  | StoreRegisterToAddressOpcode bw s a inc ot mt o rel =>
      exec_StoreRegisterToAddress bw s a inc ot mt o rel vm w
  | BeginRegisterConditionalOpcode bw ct v cmp mt a oth o rel val =>
      exec_BeginRegisterConditional bw ct v cmp mt a oth o rel val vm w
  | SaveRestoreRegisterOpcode d s op => exec_SaveRestoreRegister d s op vm w
  | SaveRestoreRegisterMaskOpcode op m => exec_SaveRestoreRegisterMask op m vm w
  | ReadWriteStaticRegisterOpcode s i => exec_ReadWriteStaticRegister s i vm w
  | PauseProcessOpcode => Some (vm, PauseProcess w)
  | ResumeProcessOpcode => Some (vm, ResumeProcess w)
  | DebugLogOpcode bw id vt mt a v o rel => exec_DebugLog bw id vt mt a v o rel vm w
  | UnrecognizedInstruction _ => Some (vm, w)
  end.

(** One turn of the [while] loop: the program has ended, or goes on. *)
Inductive Turn := Halts (vm : DmntCheatVm) | Continues (vm : DmntCheatVm) (w : W).

Definition Execute_turn (vm : DmntCheatVm) (w : W) : option Turn :=
  '(out, vm) ← DecodeNextOpcode vm;
  match out with
  | None => Some (Halts vm)
  | Some cur_opcode =>
      let vm := if begin_conditional_block cur_opcode
                then with_depth (u64 (condition_depth vm + 1)) vm else vm in
      '(vm, w) ← exec_opcode (opcode cur_opcode) vm w;
      Some (Continues vm w)
  end.

(** How a run of at most [fuel] turns ends. A cheat's loops need not terminate. *)
Inductive Run := Finished (vm : DmntCheatVm) (w : W) | OutOfFuel (vm : DmntCheatVm) (w : W)
  | Undefined.

Fixpoint Execute_loop (fuel : nat) (vm : DmntCheatVm) (w : W) : Run :=
  match fuel with
  | O => OutOfFuel vm w
  | S fuel =>
      match Execute_turn vm w with
      | None => Undefined
      | Some (Halts vm) => Finished vm w
      | Some (Continues vm w) => Execute_loop fuel vm w
      end
  end.
End execute.

(** [CommandLog] calls only produce log text and are left out. *)
Definition Execute {W} `{Callbacks W} (fuel : nat) (metadata : CheatProcessMetadata)
    (vm : DmntCheatVm) (w : W) : Run :=
  let '(kDown, w) := HidKeysDown w in
  Execute_loop metadata kDown fuel (ResetState vm) w.
