(* ===== verification/CheatVmSpec.v ===== *)
(** Properties of the cheat machine: its invariant, the exact points where its behaviour is
    undefined, the matching of conditional blocks, termination without loops, and the
    loading and encoding of programs. *)
From S2P Require Import Prelude CheatVm.

(** * The invariant *)
Record vm_ok (vm : DmntCheatVm) : Prop := {
  ok_num : 0 ≤ num_opcodes vm ≤ MaximumProgramOpcodeCount;
  ok_program : Z.of_nat (length (program vm)) = MaximumProgramOpcodeCount;
  ok_words : Forall (in_width 32) (program vm);
  ok_ip : 0 ≤ instruction_ptr vm ≤ num_opcodes vm;
  ok_depth : in_width 64 (condition_depth vm);
  ok_registers : length (registers vm) = 16%nat ∧ Forall (in_width 64) (registers vm);
  ok_saved : length (saved_values vm) = 16%nat ∧ Forall (in_width 64) (saved_values vm);
  ok_static : length (static_registers vm) = 256%nat ∧ Forall (in_width 64) (static_registers vm);
  ok_tops : length (loop_tops vm) = 16%nat
            ∧ Forall (λ t, 0 ≤ t ≤ num_opcodes vm) (loop_tops vm);
}.

Definition reg_index_ok (i : Z) : Prop := 0 ≤ i < 16.

(** What every decoded opcode satisfies. *)
Definition opcode_ok (op : Opcode) : Prop :=
  match op with
  | StoreStaticOpcode _ _ r a v => reg_index_ok r ∧ in_width 64 v
  | BeginConditionalOpcode _ _ _ a v => in_width 64 v
  | ControlLoopOpcode _ r n => reg_index_ok r ∧ in_width 64 n
  | LoadRegisterStaticOpcode r v => reg_index_ok r ∧ in_width 64 v
  | LoadRegisterMemoryOpcode _ _ r _ _ => reg_index_ok r
  | StoreStaticToAddressOpcode _ r _ _ o _ => reg_index_ok r ∧ reg_index_ok o
  | PerformArithmeticStaticOpcode _ r _ v => reg_index_ok r ∧ 0 ≤ v
  | PerformArithmeticRegisterOpcode _ _ d s1 s2 _ v =>
      reg_index_ok d ∧ reg_index_ok s1 ∧ reg_index_ok s2 ∧ in_width 64 v
  | StoreRegisterToAddressOpcode _ s a _ _ _ o _ =>
      reg_index_ok s ∧ reg_index_ok a ∧ reg_index_ok o
  | BeginRegisterConditionalOpcode _ _ v _ _ a oth o _ _ =>
      reg_index_ok v ∧ reg_index_ok a ∧ reg_index_ok oth ∧ reg_index_ok o
  | SaveRestoreRegisterOpcode d s _ => reg_index_ok d ∧ reg_index_ok s
  | SaveRestoreRegisterMaskOpcode _ m => length m = 16%nat
  | ReadWriteStaticRegisterOpcode s i => 0 ≤ s < 256 ∧ reg_index_ok i
  | DebugLogOpcode _ _ _ _ a v o _ => reg_index_ok a ∧ reg_index_ok v ∧ reg_index_ok o
  | EndConditionalOpcode _ | BeginKeypressConditionalOpcode _ | PauseProcessOpcode
  | ResumeProcessOpcode | UnrecognizedInstruction _ => True
  end.

(** * The decoder *)
Lemma nibble_range w sh : 0 ≤ nibble w sh < 16.
Proof.
  unfold nibble. change 0xF with (Z.ones 4). rewrite Z.land_ones by lia.
  by apply Z.mod_pos_bound.
Qed.

Lemma land_mask_range w k : 0 ≤ k → 0 ≤ Z.land w (Z.ones k) < 2 ^ k.
Proof. intros. rewrite Z.land_ones by lia. apply Z.mod_pos_bound. lia. Qed.

Lemma dword64_range high low : in_width 32 high → in_width 32 low → in_width 64 (dword64 high low).
Proof.
  intros [H0 H1] [L0 L1]. unfold dword64. apply lor_in_width; [lia| |unfold in_width; lia].
  rewrite Z.shiftl_mul_pow2 by lia. unfold in_width. lia.
Qed.

Section decoder_rules.
Context (vm : DmntCheatVm) (Hok : vm_ok vm).

(** [m] neither fails nor leaves the program, moves at least [n] words on when its result is
    valid, and its results satisfy [P]. *)
Definition decodes_to {A} (m : decoder A) (n : Z) (P : A → Prop) : Prop :=
  ∀ ip valid, 0 ≤ ip ≤ num_opcodes vm →
  ∃ x ip' valid', m (ip, valid) = Some (x, (ip', valid'))
    ∧ ip ≤ ip' ≤ num_opcodes vm ∧ P x
    ∧ (valid' = true → valid = true ∧ ip + n ≤ ip').

Lemma decodes_ret {A} (x : A) (P : A → Prop) : P x → decodes_to (dret x) 0 P.
Proof. intros HP ip valid Hip. exists x, ip, valid. split_and!; try done; try lia. intros ->; split; [done|lia]. Qed.

Lemma decodes_bind {A B} (m : decoder A) (f : A → decoder B) n k P Q :
  decodes_to m n P → 0 ≤ k → (∀ x, P x → decodes_to (f x) k Q) → decodes_to (dbind m f) k Q.
Proof.
  intros Hm Hn Hf ip valid Hip. destruct (Hm ip valid Hip) as (x & ip1 & v1 & E & Hip1 & HP & Hv).
  destruct (Hf x HP ip1 v1) as (y & ip2 & v2 & E2 & Hip2 & HQ & Hv2); [lia|].
  exists y, ip2, v2. unfold dbind. rewrite E. cbn [mbind option_bind]. rewrite E2.
  split_and!; try done; try lia. intros [-> ?]%Hv2. destruct (Hv eq_refl). split; [done|lia].
Qed.

Lemma decodes_dword : decodes_to (GetNextDword vm) 1 (in_width 32).
Proof using Hok.
  intros ip valid Hip. unfold GetNextDword. destruct (Z.leb_spec (num_opcodes vm) ip).
  - exists 0, ip, false. by split_and!; try lia.
  - pose proof (ok_num _ Hok). pose proof (ok_program _ Hok) as Hp.
    destruct (lookup_lt_is_Some_2 (program vm) (Z.to_nat ip)) as [x Hx]; [lia|].
    rewrite (at_ok _ _ x) by (done || lia). exists x, (ip + 1), valid.
    split_and!; try done; try lia. by apply (Forall_lookup_1 _ _ _ _ (ok_words _ Hok) Hx).
Qed.

Lemma decodes_vmint bw : decodes_to (GetNextVmInt vm bw) 0 (in_width 64).
Proof using Hok.
  unfold GetNextVmInt. eapply decodes_bind; [apply decodes_dword|lia|]. intros x Hx.
  assert (in_width 64 x) by (unfold in_width in *; lia).
  assert (∀ w, 0 ≤ w ≤ 64 → in_width 64 (wrap w x)).
  { intros w Hw. destruct (wrap_range w x) as [? ?]; [lia|].
    assert (2 ^ w ≤ 2 ^ 64) by (apply Z.pow_le_mono_r; lia). unfold in_width. lia. }
  repeat case_match; try (apply decodes_ret; auto with lia; unfold in_width; lia).
  eapply decodes_bind; [apply decodes_dword|lia|]. intros y Hy.
  apply decodes_ret. by apply dword64_range.
Qed.

Ltac decode_step :=
  lazymatch goal with
  | |- decodes_to (dbind (GetNextDword _) _) _ _ =>
      eapply decodes_bind; [apply decodes_dword|lia|intros ? ?]
  | |- decodes_to (dbind (GetNextVmInt _ _) _) _ _ =>
      eapply decodes_bind; [apply decodes_vmint|lia|intros ? ?]
  | |- decodes_to (dret _) _ _ => apply decodes_ret; cbn [opcode_ok]
  | |- decodes_to (if ?b then _ else _) _ _ => destruct b
  end.

Lemma decodes_opcode t first :
  in_width 32 first →
  decodes_to (decode_opcode vm t first) 0 opcode_ok.
Proof using Hok.
  intros Hf. pose proof (nibble_range first) as Hn.
  assert (reg_index_ok (Z.land first 0xF)) as HF by (exact (land_mask_range first 4 ltac:(lia))).
  assert (0 ≤ Z.land (Z.shiftr first 4) 0xFF < 256) as HFF by (exact (land_mask_range _ 8 ltac:(lia))).
  assert (reg_index_ok 0) as H0 by (unfold reg_index_ok; lia).
  assert (in_width 64 0) as Hz by (unfold in_width; lia).
  assert (∀ x, in_width 32 x → in_width 64 x) as Hw by (unfold in_width; intros; lia).
  unfold decode_opcode.
  repeat (case_match; [clear dependent t|]);
    unfold decode_StoreStatic, decode_BeginConditionalBlock, decode_EndConditionalBlock,
      decode_ControlLoop, decode_LoadRegisterStatic, decode_LoadRegisterMemory,
      decode_StoreStaticToAddress, decode_PerformArithmeticStatic,
      decode_BeginKeypressConditionalBlock, decode_PerformArithmeticRegister,
      decode_StoreRegisterToAddress, decode_BeginRegisterConditionalBlock,
      decode_SaveRestoreRegister, decode_SaveRestoreRegisterMask,
      decode_ReadWriteStaticRegister, decode_DebugLog;
    repeat decode_step; split_and?; auto using dword64_range;
    try (apply Hn); try lia; try (match goal with H : in_width 32 ?x |- 0 ≤ ?x => apply H end).
  clear Hf Hn HF HFF H0 Hz Hw. intros ip valid Hip. exists (UnrecognizedInstruction t), ip, false.
  split; [reflexivity|]. split; [lia|]. split; [exact I|discriminate].
Qed.

(** The opcodes that open a conditional block. *)
Definition is_begin (op : Opcode) : bool :=
  match op with
  | BeginConditionalOpcode _ _ _ _ _ | BeginKeypressConditionalOpcode _
  | BeginRegisterConditionalOpcode _ _ _ _ _ _ _ _ _ _ => true
  | _ => false
  end.

Lemma decodes_begin t first :
  decodes_to (decode_opcode vm t first) 0 (λ op, is_begin op = is_condition_start t).
Proof using Hok.
  unfold decode_opcode.
  repeat (case_match; [match goal with H : (t =? _) = true |- _ => apply Z.eqb_eq in H; subst t end|]);
    unfold decode_StoreStatic, decode_BeginConditionalBlock, decode_EndConditionalBlock,
      decode_ControlLoop, decode_LoadRegisterStatic, decode_LoadRegisterMemory,
      decode_StoreStaticToAddress, decode_PerformArithmeticStatic,
      decode_BeginKeypressConditionalBlock, decode_PerformArithmeticRegister,
      decode_StoreRegisterToAddress, decode_BeginRegisterConditionalBlock,
      decode_SaveRestoreRegister, decode_SaveRestoreRegisterMask,
      decode_ReadWriteStaticRegister, decode_DebugLog;
    repeat decode_step; try reflexivity.
  intros ip valid Hip. exists (UnrecognizedInstruction t), ip, false.
  split; [reflexivity|]. split; [lia|]. split; [|discriminate].
  unfold is_condition_start. cbn [is_begin].
  repeat match goal with H : (t =? ?c) = false |- context [t =? ?c] => rewrite H end. reflexivity.
Qed.
End decoder_rules.

(** ** DecodeNextOpcode *)

(** A decode changes the flow only. *)
Lemma with_flow_ok vm ip d b :
  vm_ok vm → 0 ≤ ip ≤ num_opcodes vm → in_width 64 d → vm_ok (with_flow ip d b vm).
Proof. intros [] ? ?. by constructor. Qed.

Definition same_but_flow (vm vm' : DmntCheatVm) : Prop :=
  vm' = with_flow (instruction_ptr vm') (condition_depth vm') (decode_success vm') vm.

Lemma DecodeNextOpcode_ok vm :
  vm_ok vm →
  ∃ out vm', DecodeNextOpcode vm = Some (out, vm') ∧ vm_ok vm'
    ∧ vm' = with_flow (instruction_ptr vm') (condition_depth vm) (decode_success vm') vm
    ∧ instruction_ptr vm ≤ instruction_ptr vm'
    ∧ match out with
      | Some op => decode_success vm = true ∧ decode_success vm' = true
                   ∧ instruction_ptr vm < instruction_ptr vm' ∧ opcode_ok (opcode op)
                   ∧ begin_conditional_block op = is_begin (opcode op)
      | None => decode_success vm' = false
      end.
Proof.
  intros Hok. pose proof (ok_ip _ Hok). unfold DecodeNextOpcode.
  destruct (decodes_dword vm Hok (instruction_ptr vm) (decode_success vm))
    as (first & ip & valid & E & Hip & Hf & Hv); [apply Hok|].
  rewrite E. cbn [mbind option_bind].
  destruct valid; cbn [negb].
  - destruct (Hv eq_refl) as [Hs Hlt].
    destruct (decodes_opcode vm Hok (opcode_type_of first) first Hf ip true)
      as (op & ip' & valid' & E' & Hip' & Hop & Hv'); [lia|].
    destruct (decodes_begin vm Hok (opcode_type_of first) first ip true)
      as (op2 & ip2 & valid2 & E2 & _ & Hbegin & _); [lia|].
    rewrite E' in E2. injection E2 as <- <- <-.
    rewrite E'. cbn [mbind option_bind]. do 2 eexists. split; [reflexivity|].
    cbn [with_flow instruction_ptr decode_success]. rewrite Hs.
    split_and!; try done; try lia.
    + apply with_flow_ok; [done|lia|apply Hok].
    + destruct valid'; [|done]. split_and!; try done; lia.
  - do 2 eexists. split; [reflexivity|]. cbn [with_flow instruction_ptr decode_success].
    rewrite andb_false_r. split_and!; try done; try lia.
    apply with_flow_ok; [done|lia|apply Hok].
Qed.

(** * Opcodes in the program *)
(** The opcode [op] lies in the program from word [ip] to word [ip']. *)
Definition decodes_at (vm : DmntCheatVm) (ip : Z) (op : CheatVmOpcode) (ip' : Z) : Prop :=
  DecodeNextOpcode (with_flow ip 0 true vm) = Some (Some op, with_flow ip' 0 true vm).

(** Decoding reads the program and its length only. *)
Lemma decodes_at_program vm vm' ip op ip' :
  num_opcodes vm = num_opcodes vm' → program vm = program vm' →
  decodes_at vm ip op ip' ↔ decodes_at vm' ip op ip'.
Proof.
  intros Hn Hp. unfold decodes_at, DecodeNextOpcode.
  cbn [with_flow instruction_ptr condition_depth decode_success].
  assert (GetNextDword (with_flow ip 0 true vm) = GetNextDword (with_flow ip 0 true vm')) as EG.
  { unfold GetNextDword. cbn [with_flow num_opcodes program]. by rewrite Hn, Hp. }
  assert (∀ t first, decode_opcode (with_flow ip 0 true vm) t first
                     = decode_opcode (with_flow ip 0 true vm') t first) as ED.
  { intros t first. unfold decode_opcode, decode_StoreStatic, decode_BeginConditionalBlock,
      decode_ControlLoop, decode_LoadRegisterStatic, decode_LoadRegisterMemory,
      decode_StoreStaticToAddress, decode_PerformArithmeticStatic,
      decode_PerformArithmeticRegister, decode_StoreRegisterToAddress,
      decode_BeginRegisterConditionalBlock, decode_DebugLog, GetNextVmInt.
    by rewrite !EG. }
  rewrite EG. destruct (GetNextDword (with_flow ip 0 true vm') (ip, true)) as [[first [ip1 v1]]|];
    cbn [mbind option_bind]; [|done].
  destruct v1; cbn [negb]; [|done]. rewrite ED.
  destruct (decode_opcode (with_flow ip 0 true vm') _ first (ip1, true)) as [[op1 [ip2 v2]]|];
    cbn [mbind option_bind]; [|done].
  destruct v2; [|done]. split; intros E; injection E as -> ->; reflexivity.
Qed.

Lemma DecodeNextOpcode_at vm op vm1 :
  DecodeNextOpcode vm = Some (Some op, vm1) → decode_success vm = true →
  decodes_at vm (instruction_ptr vm) op (instruction_ptr vm1).
Proof.
  unfold decodes_at, DecodeNextOpcode. intros E Hs. rewrite Hs in E. revert E.
  cbn [with_flow instruction_ptr condition_depth decode_success].
  change (GetNextDword (with_flow (instruction_ptr vm) 0 true vm)) with (GetNextDword vm).
  destruct (GetNextDword vm _) as [[first [ip1 v1]]|]; cbn [mbind option_bind]; [|done].
  destruct v1; cbn [negb]; [|done].
  change (decode_opcode (with_flow (instruction_ptr vm) 0 true vm)) with (decode_opcode vm).
  destruct (decode_opcode vm _ first (ip1, true)) as [[op1 [ip2 v2]]|]; cbn [mbind option_bind]; [|done].
  destruct v2; [|done]. intros E. injection E as <- <-. reflexivity.
Qed.

(** From one opcode of the program to the next. *)
Definition next_at (vm : DmntCheatVm) (ip ip' : Z) : Prop := ∃ op, decodes_at vm ip op ip'.

Lemma next_at_program vm vm' ip ip' :
  num_opcodes vm = num_opcodes vm' → program vm = program vm' →
  rtc (next_at vm) ip ip' → rtc (next_at vm') ip ip'.
Proof.
  intros Hn Hp. apply rtc_subrel. intros i j [op Hop]. exists op. by apply (decodes_at_program vm vm').
Qed.

(** The machine has come from opcode to opcode, as long as decoding succeeds. *)
Definition walked (vm vm' : DmntCheatVm) : Prop :=
  decode_success vm' = true →
  decode_success vm = true ∧ rtc (next_at vm) (instruction_ptr vm) (instruction_ptr vm').

Lemma walked_same vm vm' :
  instruction_ptr vm' = instruction_ptr vm → decode_success vm' = decode_success vm → walked vm vm'.
Proof. intros E1 E2 H. rewrite E1. split; [congruence|apply rtc_refl]. Qed.

Lemma walked_on vm1 vm2 vm3 :
  num_opcodes vm2 = num_opcodes vm1 → program vm2 = program vm1 → walked vm1 vm2 → walked vm2 vm3 → walked vm1 vm3.
Proof.
  intros Hn Hp H12 H23 Hs. destruct (H23 Hs) as [Hs2 R2]. destruct (H12 Hs2) as [Hs1 R1].
  split; [done|]. etrans; [exact R1|]. by apply (next_at_program vm2 vm1).
Qed.

Lemma DecodeNextOpcode_walked vm op vm1 : DecodeNextOpcode vm = Some (Some op, vm1) → decode_success vm = true → walked vm vm1.
Proof. intros E Hs _. split; [done|]. apply rtc_once. exists op. by apply DecodeNextOpcode_at. Qed.

(** * Skipping *)
Lemma SkipConditionalBlock_loop_ok fuel is_if desired vm :
  vm_ok vm → num_opcodes vm - instruction_ptr vm + 2 ≤ Z.of_nat fuel →
  ∃ vm', SkipConditionalBlock_loop fuel is_if desired vm = Some vm' ∧ vm_ok vm'
    ∧ vm' = with_flow (instruction_ptr vm') (condition_depth vm') (decode_success vm') vm
    ∧ instruction_ptr vm ≤ instruction_ptr vm' ∧ walked vm vm'.
Proof.
  revert vm. induction fuel as [|fuel IH]; intros vm Hok Hf.
  { pose proof (ok_ip _ Hok). lia. }
  cbn [SkipConditionalBlock_loop]. destruct (Z.ltb_spec desired (condition_depth vm)).
  2: { exists vm. split_and!; [done|done|by destruct vm|lia|by apply walked_same]. }
  destruct (DecodeNextOpcode_ok vm Hok) as (out & vm1 & E & Hok1 & E1 & Hip & Hout).
  rewrite E. cbn [mbind option_bind].
  destruct out as [op|].
  2: { exists vm1. split_and!; [done|done| |done|by intros ?; congruence]. rewrite E1 at 1.
       f_equal. by rewrite E1. }
  destruct Hout as (Hs & _ & Hlt & _ & _). pose proof (DecodeNextOpcode_walked vm op vm1 E Hs) as Hw1.
  assert (num_opcodes vm1 = num_opcodes vm) as Hn by (by rewrite E1).
  assert (∀ d, in_width 64 d → ∃ vm',
    SkipConditionalBlock_loop fuel is_if desired (with_depth d vm1) = Some vm' ∧ vm_ok vm'
    ∧ vm' = with_flow (instruction_ptr vm') (condition_depth vm') (decode_success vm') vm
    ∧ instruction_ptr vm ≤ instruction_ptr vm' ∧ walked vm vm') as Hgo.
  { intros d Hd. destruct (IH (with_depth d vm1)) as (vm' & E2 & Hok2 & E3 & Hip2 & Hw2).
    - apply with_flow_ok; [done|apply Hok1|done].
    - simpl. lia.
    - exists vm'. split_and!; [done|done| |simpl in Hip2; lia|].
      2: { apply (walked_on vm vm1); [done|by rewrite E1|done|exact Hw2]. }
      rewrite E3. unfold with_depth. rewrite E1. reflexivity. }
  assert (vm1 = with_depth (condition_depth vm1) vm1) as Hsame by (by destruct vm1).
  destruct (begin_conditional_block op); [apply Hgo, wrap_range; lia|].
  destruct (opcode op); try (rewrite Hsame; apply Hgo, Hok1).
  destruct is_else; cbn [negb]; [|apply Hgo, wrap_range; lia].
  destruct (is_if && _); [|rewrite Hsame; apply Hgo, Hok1].
  exists vm1. split_and!; [done|done| |done|done]. rewrite E1 at 1. f_equal. by rewrite E1.
Qed.

Lemma SkipConditionalBlock_ok is_if vm :
  vm_ok vm → 0 < condition_depth vm →
  ∃ vm', SkipConditionalBlock is_if vm = Some vm' ∧ vm_ok vm'
    ∧ vm' = with_flow (instruction_ptr vm') (condition_depth vm') (decode_success vm') vm
    ∧ instruction_ptr vm ≤ instruction_ptr vm' ∧ walked vm vm'.
Proof.
  intros Hok Hd. unfold SkipConditionalBlock. rewrite (proj2 (Z.ltb_lt _ _)) by done.
  pose proof (ok_ip _ Hok). apply SkipConditionalBlock_loop_ok; [done|lia].
Qed.

(** * Matching of conditional blocks *)

(** The opcodes [ops] lie in the program from word [ip] to word [ip']. *)
Inductive listing (vm : DmntCheatVm) : Z → list CheatVmOpcode → Z → Prop :=
  | listing_nil ip : listing vm ip [] ip
  | listing_cons ip op ip1 ops ip2 :
      decodes_at vm ip op ip1 → listing vm ip1 ops ip2 → listing vm ip (op :: ops) ip2.

(** [stays_inside is_if k ops]: how deep below the current block [ops] ends when it starts
    [k] blocks deep in it, provided it never leaves the block (nor, when [is_if], reaches
    its [else]). *)
Fixpoint stays_inside (is_if : bool) (k : nat) (ops : list CheatVmOpcode) : option nat :=
  match ops with
  | [] => Some k
  | op :: ops =>
      if begin_conditional_block op then stays_inside is_if (S k) ops
      else match opcode op with
           | EndConditionalOpcode false =>
               match k with O => None | S k => stays_inside is_if k ops end
           | EndConditionalOpcode true =>
               match k with
               | O => if is_if then None else stays_inside is_if k ops
               | S _ => stays_inside is_if k ops
               end
           | _ => stays_inside is_if k ops
           end
  end.

Lemma decodes_at_depth vm ip op ip' d :
  decodes_at vm ip op ip' →
  DecodeNextOpcode (with_flow ip d true vm) = Some (Some op, with_flow ip' d true vm).
Proof.
  unfold decodes_at, DecodeNextOpcode. cbn [with_flow instruction_ptr condition_depth decode_success].
  change (GetNextDword (with_flow ip 0 true vm)) with (GetNextDword vm).
  change (GetNextDword (with_flow ip d true vm)) with (GetNextDword vm).
  destruct (GetNextDword vm (ip, true)) as [[first [ip1 v1]]|]; cbn [mbind option_bind]; [|done].
  destruct v1; cbn [negb]; [|done].
  change (decode_opcode (with_flow ip 0 true vm)) with (decode_opcode vm).
  change (decode_opcode (with_flow ip d true vm)) with (decode_opcode vm).
  destruct (decode_opcode vm _ first (ip1, true)) as [[op1 [ip2 v2]]|]; cbn [mbind option_bind]; [|done].
  destruct v2; [|done]. intros E. injection E as <- <-. reflexivity.
Qed.

Lemma decodes_at_opcode vm ip op ip' :
  decodes_at vm ip op ip' → (r ← DecodeNextOpcode (with_flow ip 0 true vm); r.1) = Some op.
Proof. unfold decodes_at. by intros ->. Qed.

Lemma decodes_at_lt vm ip op ip' :
  vm_ok vm → 0 ≤ ip ≤ num_opcodes vm → decodes_at vm ip op ip' →
  ip < ip' ≤ num_opcodes vm ∧ begin_conditional_block op = is_begin (opcode op) ∧ opcode_ok (opcode op).
Proof.
  intros Hok Hip E. destruct (DecodeNextOpcode_ok (with_flow ip 0 true vm))
    as (out & vm' & E' & Hok' & _ & _ & Hout); [apply with_flow_ok; [done|done|unfold in_width; lia]|].
  rewrite E in E'. injection E' as <- <-. destruct Hout as (_ & _ & Hlt & Hop & Hb).
  pose proof (ok_ip _ Hok'). simpl in *. split_and!; [lia|lia|done|done].
Qed.

Lemma listing_length vm ip ops ip' :
  vm_ok vm → 0 ≤ ip ≤ num_opcodes vm → listing vm ip ops ip' →
  ip + Z.of_nat (length ops) ≤ ip' ≤ num_opcodes vm.
Proof.
  intros Hok Hip Hl. induction Hl as [ip|ip op ip1 ops ip2 E Hl IH]; simpl; [lia|].
  destruct (decodes_at_lt vm ip op ip1) as (? & _); [done..|]. specialize (IH ltac:(lia)). lia.
Qed.

(** The code at an address does not depend on the flow. *)
Lemma listing_flow vm i d b ip ops ip' :
  listing vm ip ops ip' → listing (with_flow i d b vm) ip ops ip'.
Proof. induction 1 as [ip|ip op ip1 ops ip2 E Hl IH]; econstructor; [exact E|exact IH]. Qed.

Lemma skip_loop_inside vm is_if desired body ip ip' k k' fuel :
  vm_ok vm → 0 ≤ ip ≤ num_opcodes vm → 0 ≤ desired →
  listing vm ip body ip' → stays_inside is_if k body = Some k' →
  desired + 1 + Z.of_nat k + Z.of_nat (length body) < 2 ^ 64 →
  (length body ≤ fuel)%nat →
  SkipConditionalBlock_loop fuel is_if desired (with_flow ip (desired + 1 + Z.of_nat k) true vm)
  = SkipConditionalBlock_loop (fuel - length body) is_if desired
      (with_flow ip' (desired + 1 + Z.of_nat k') true vm).
Proof.
  intros Hok Hip Hdes Hl. revert k fuel.
  induction Hl as [ip|ip op ip1 ops ip2 E Hl IH]; intros k fuel Hin Hd Hf.
  { injection Hin as <-. by rewrite Nat.sub_0_r. }
  destruct (decodes_at_lt vm ip op ip1) as (Hlt & _); [done..|].
  destruct fuel as [|fuel]; [simpl in Hf; lia|].
  cbn [length] in Hd, Hf. cbn [length Nat.sub]. cbn [SkipConditionalBlock_loop].
  change (condition_depth (with_flow ip (desired + 1 + Z.of_nat k) true vm))
    with (desired + 1 + Z.of_nat k).
  rewrite (proj2 (Z.ltb_lt _ _)) by lia. rewrite (decodes_at_depth _ _ _ _ _ E).
  cbn [mbind option_bind stays_inside] in *.
  set (d := desired + 1 + Z.of_nat k) in *.
  change (condition_depth (with_flow ip1 d true vm)) with d.
  assert (∀ d', with_depth d' (with_flow ip1 d true vm) = with_flow ip1 d' true vm) as Hwd by done.
  rewrite !Hwd.
  destruct (begin_conditional_block op).
  { rewrite wrap_small by (unfold in_width; lia).
    replace (d + 1) with (desired + 1 + Z.of_nat (S k)) by lia. apply IH; [lia|done|lia|lia]. }
  destruct (opcode op); try (apply IH; [lia|done|lia|lia]).
  destruct is_else; cbn [negb].
  - destruct k as [|k].
    + destruct is_if; [done|]. cbn [andb]. apply IH; [lia|done|lia|lia].
    + rewrite wrap_small by (unfold in_width; lia).
      rewrite (proj2 (Z.eqb_neq _ _)) by lia. rewrite andb_false_r. apply IH; [lia|done|lia|lia].
  - destruct k as [|k]; [done|]. rewrite wrap_small by (unfold in_width; lia).
    replace (d - 1) with (desired + 1 + Z.of_nat k) by lia. apply IH; [lia|done|lia|lia].
Qed.

(** A skip ends just after the [end] (or, from an [if], the [else]) of its own block,
    however many blocks are nested in between. *)
Lemma SkipConditionalBlock_matches vm is_if body e is_else ip1 ip2 :
  vm_ok vm → decode_success vm = true → 0 < condition_depth vm →
  condition_depth vm + Z.of_nat (length body) < 2 ^ 64 →
  listing vm (instruction_ptr vm) body ip1 → stays_inside is_if 0 body = Some 0%nat →
  decodes_at vm ip1 e ip2 → opcode e = EndConditionalOpcode is_else →
  (is_else = true → is_if = true) →
  SkipConditionalBlock is_if vm
  = Some (with_flow ip2 (if is_else then condition_depth vm else condition_depth vm - 1) true vm).
Proof.
  intros Hok Hs Hd Hlen Hl Hin He Hop Hif. pose proof (ok_ip _ Hok) as Hip.
  pose proof (listing_length vm _ body ip1 Hok Hip Hl) as Hn.
  destruct (decodes_at_lt vm ip1 e ip2) as (Hlt & Hb & _); [done|lia|done|].
  unfold SkipConditionalBlock. rewrite (proj2 (Z.ltb_lt _ _)) by done. cbv zeta.
  set (d := condition_depth vm - 1).
  assert (vm = with_flow (instruction_ptr vm) (d + 1 + Z.of_nat 0) true vm) as Evm.
  { destruct vm; unfold with_flow; simpl in *. subst. f_equal. lia. }
  rewrite Evm at 2.
  rewrite (skip_loop_inside vm is_if d body _ ip1 0 0) by (done || lia).
  destruct (Z.to_nat (num_opcodes vm) + 2 - length body)%nat as [|[|fuel]] eqn:Ef; [lia|lia|].
  cbn [SkipConditionalBlock_loop].
  change (condition_depth (with_flow ip1 (d + 1 + Z.of_nat 0) true vm)) with (d + 1 + Z.of_nat 0).
  rewrite (proj2 (Z.ltb_lt d (d + 1 + _))) by lia. rewrite (decodes_at_depth _ _ _ _ _ He).
  cbn [mbind option_bind]. rewrite Hb, Hop. cbn [is_begin].
  change (condition_depth (with_flow ip2 (d + 1 + Z.of_nat 0) true vm)) with (d + 1 + Z.of_nat 0).
  rewrite wrap_small by (pose proof (ok_depth _ Hok); unfold in_width in *; lia).
  destruct is_else; cbn [negb].
  - rewrite (Hif eq_refl), (proj2 (Z.eqb_eq _ _)) by lia. cbn [andb]. do 2 f_equal. lia.
  - cbn [with_depth with_flow condition_depth].
    rewrite (proj2 (Z.ltb_ge _ _)) by lia. unfold with_depth, with_flow; cbn. do 2 f_equal. lia.
Qed.

(** * Execution keeps the invariant *)
Lemma reg_ok vm i :
  vm_ok vm → reg_index_ok i → ∃ v, reg vm i = Some v ∧ in_width 64 v.
Proof.
  intros Hok Hi. destruct (ok_registers _ Hok) as [Hl Hf]. unfold reg_index_ok in Hi.
  destruct (lookup_lt_is_Some_2 (registers vm) (Z.to_nat i)) as [v Hv]; [lia|].
  exists v. split; [by apply at_ok; [lia|]|]. by apply (Forall_lookup_1 _ _ _ _ Hf Hv).
Qed.

Lemma saved_ok vm i :
  vm_ok vm → reg_index_ok i → ∃ v, at_ (saved_values vm) i = Some v ∧ in_width 64 v.
Proof.
  intros Hok Hi. destruct (ok_saved _ Hok) as [Hl Hf]. unfold reg_index_ok in Hi.
  destruct (lookup_lt_is_Some_2 (saved_values vm) (Z.to_nat i)) as [v Hv]; [lia|].
  exists v. split; [by apply at_ok; [lia|]|]. by apply (Forall_lookup_1 _ _ _ _ Hf Hv).
Qed.

Lemma top_ok vm i :
  vm_ok vm → reg_index_ok i → ∃ v, at_ (loop_tops vm) i = Some v ∧ 0 ≤ v ≤ num_opcodes vm.
Proof.
  intros Hok Hi. destruct (ok_tops _ Hok) as [Hl Hf]. unfold reg_index_ok in Hi.
  destruct (lookup_lt_is_Some_2 (loop_tops vm) (Z.to_nat i)) as [v Hv]; [lia|].
  exists v. split; [by apply at_ok; [lia|]|]. by apply (Forall_lookup_1 _ _ _ _ Hf Hv).
Qed.

Lemma static_ok vm i :
  vm_ok vm → 0 ≤ i < 256 → ∃ v, at_ (static_registers vm) i = Some v ∧ in_width 64 v.
Proof.
  intros Hok Hi. destruct (ok_static _ Hok) as [Hl Hf].
  destruct (lookup_lt_is_Some_2 (static_registers vm) (Z.to_nat i)) as [v Hv]; [lia|].
  exists v. split; [by apply at_ok; [lia|]|]. by apply (Forall_lookup_1 _ _ _ _ Hf Hv).
Qed.

(** What an opcode may change: the flow and the arrays, never the program; the instruction
    pointer leaves the order of the opcodes, or goes back, only at the end of a loop. *)
Record exec_frame (back : bool) (vm vm' : DmntCheatVm) : Prop := {
  frame_num : num_opcodes vm' = num_opcodes vm;
  frame_program : program vm' = program vm;
  frame_ip : back = false → instruction_ptr vm ≤ instruction_ptr vm';
  frame_walk : back = false → walked vm vm';
}.

Lemma exec_frame_same back vm vm' :
  num_opcodes vm' = num_opcodes vm → program vm' = program vm →
  instruction_ptr vm' = instruction_ptr vm → decode_success vm' = decode_success vm → exec_frame back vm vm'.
Proof. intros Hn Hp Hi Hs. constructor; [done|done|lia|]. intros _. by apply walked_same. Qed.
Lemma exec_frame_refl back vm : exec_frame back vm vm.
Proof. by apply exec_frame_same. Qed.
Lemma exec_frame_trans vm1 vm2 vm3 back : exec_frame back vm1 vm2 → exec_frame back vm2 vm3 → exec_frame back vm1 vm3.
Proof.
  intros [N1 P1 I1 W1] [N2 P2 I2 W2]. constructor; [congruence|congruence|intros Hb; specialize (I1 Hb); specialize (I2 Hb); lia|].
  intros Hb. apply (walked_on vm1 vm2); auto.
Qed.

Lemma with_arrays_ok back vm regs saved statics tops :
  vm_ok vm →
  length regs = 16%nat ∧ Forall (in_width 64) regs →
  length saved = 16%nat ∧ Forall (in_width 64) saved →
  length statics = 256%nat ∧ Forall (in_width 64) statics →
  length tops = 16%nat ∧ Forall (λ t, 0 ≤ t ≤ num_opcodes vm) tops →
  vm_ok (with_arrays regs saved statics tops vm)
  ∧ exec_frame back vm (with_arrays regs saved statics tops vm).
Proof. intros [] ????. split; [by constructor|by apply exec_frame_same]. Qed.

Lemma insert_ok {P : Z → Prop} l n i v :
  length l = n ∧ Forall P l → P v →
  length (<[i := v]> l) = n ∧ Forall P (<[i := v]> l).
Proof. intros [<- Hf] Hv. split; [apply length_insert|by apply Forall_insert]. Qed.

Lemma set_reg_ok back vm i v :
  vm_ok vm → reg_index_ok i → in_width 64 v →
  ∃ vm', set_reg i v vm = Some vm' ∧ vm_ok vm' ∧ exec_frame back vm vm'
         ∧ instruction_ptr vm' = instruction_ptr vm.
Proof.
  intros Hok Hi Hv. unfold set_reg, reg_index_ok in *.
  rewrite set_at_ok by (rewrite (proj1 (ok_registers _ Hok)); lia).
  eexists. split; [reflexivity|].
  destruct (with_arrays_ok back vm (<[Z.to_nat i := v]> (registers vm)) (saved_values vm)
    (static_registers vm) (loop_tops vm) Hok) as [? ?]; try apply Hok; [|done].
  apply insert_ok; [apply Hok|done].
Qed.

Lemma set_saved_ok back vm i v :
  vm_ok vm → reg_index_ok i → in_width 64 v →
  ∃ vm', set_saved i v vm = Some vm' ∧ vm_ok vm' ∧ exec_frame back vm vm'.
Proof.
  intros Hok Hi Hv. unfold set_saved, reg_index_ok in *.
  rewrite set_at_ok by (rewrite (proj1 (ok_saved _ Hok)); lia).
  eexists. split; [reflexivity|]. apply with_arrays_ok; try apply Hok; try done.
  apply insert_ok; [apply Hok|done].
Qed.

Lemma set_static_ok back vm i v :
  vm_ok vm → 0 ≤ i < 256 → in_width 64 v →
  ∃ vm', set_static i v vm = Some vm' ∧ vm_ok vm' ∧ exec_frame back vm vm'.
Proof.
  intros Hok Hi Hv. unfold set_static.
  rewrite set_at_ok by (rewrite (proj1 (ok_static _ Hok)); lia).
  eexists. split; [reflexivity|]. apply with_arrays_ok; try apply Hok; try done.
  apply insert_ok; [apply Hok|done].
Qed.

Lemma set_loop_top_ok back vm i v :
  vm_ok vm → reg_index_ok i → 0 ≤ v ≤ num_opcodes vm →
  ∃ vm', set_loop_top i v vm = Some vm' ∧ vm_ok vm' ∧ exec_frame back vm vm'.
Proof.
  intros Hok Hi Hv. unfold set_loop_top, reg_index_ok in *.
  rewrite set_at_ok by (rewrite (proj1 (ok_tops _ Hok)); lia).
  eexists. split; [reflexivity|]. apply with_arrays_ok; try apply Hok; try done.
  apply (insert_ok (P := λ t, 0 ≤ t ≤ num_opcodes vm)); [apply Hok|done].
Qed.

(** ** Values stay 64-bit words *)
Lemma wrap_in_width64 w x : 0 ≤ w ≤ 64 → in_width 64 (wrap w x).
Proof.
  intros Hw. destruct (wrap_range w x) as [? ?]; [lia|].
  assert (2 ^ w ≤ 2 ^ 64) by (apply Z.pow_le_mono_r; lia). unfold in_width. lia.
Qed.

Lemma apply_width_ok bw v : in_width 64 v → in_width 64 (apply_width bw v).
Proof. intros. unfold apply_width. repeat case_match; try done; apply wrap_in_width64; lia. Qed.

Lemma GetVmInt_ok v bw : in_width 64 v → in_width 64 (GetVmInt v bw).
Proof.
  intros. unfold GetVmInt. repeat case_match; try done; try (apply wrap_in_width64; lia).
Qed.

Lemma read_into_ok {W} `{Callbacks W} data address bw (w : W) :
  in_width 64 data → in_width 64 (fst (read_into data address bw w)).
Proof.
  intros Hd. unfold read_into. destruct (valid_width bw) eqn:Hb; [|done].
  destruct (MemoryReadUnsafe w address bw) as [v w']. cbn [fst].
  apply lor_in_width; [lia|by apply land_in_width|].
  assert (0 ≤ 8 * bw ≤ 64) as Hbw.
  { unfold valid_width in Hb. rewrite !orb_true_iff, !Z.eqb_eq in Hb. lia. }
  replace (2 ^ (8 * bw) - 1) with (Z.ones (8 * bw)) by (rewrite Z.ones_equiv; lia).
  rewrite Z.land_ones by lia. apply (wrap_in_width64 (8 * bw)). lia.
Qed.

Lemma shl_ok x n :
  in_width 64 x → 0 ≤ n →
  if 64 <=? n then shl 64 x n = None else ∃ v, shl 64 x n = Some v ∧ in_width 64 v.
Proof.
  intros Hx Hn. unfold shl. rewrite (proj2 (Z.leb_le 0 n)) by done.
  destruct (Z.leb_spec 64 n); [by rewrite (proj2 (Z.ltb_ge _ _))|].
  rewrite (proj2 (Z.ltb_lt _ _)) by done. eexists. split; [reflexivity|].
  apply wrap_in_width64. lia.
Qed.

Lemma shr_ok x n :
  in_width 64 x → 0 ≤ n →
  if 64 <=? n then shr 64 x n = None else ∃ v, shr 64 x n = Some v ∧ in_width 64 v.
Proof.
  intros Hx Hn. unfold shr. rewrite (proj2 (Z.leb_le 0 n)) by done.
  destruct (Z.leb_spec 64 n); [by rewrite (proj2 (Z.ltb_ge _ _))|].
  rewrite (proj2 (Z.ltb_lt _ _)) by done. eexists. split; [reflexivity|].
  by apply shiftr_in_width.
Qed.

(** * Where the behaviour is undefined *)

(** The opcodes whose execution the language leaves undefined in state [vm]: a shift by 64
    or more, and an [else] outside any conditional block (it skips with no block to leave,
    which the source declares unreachable). *)
Definition hazard (op : Opcode) (vm : DmntCheatVm) : bool :=
  let is_shift math_type := (math_type =? RegisterArithmeticType.LeftShift)
                            || (math_type =? RegisterArithmeticType.RightShift) in
  match op with
  | EndConditionalOpcode true => condition_depth vm =? 0
  | PerformArithmeticStaticOpcode _ _ math_type value => is_shift math_type && (64 <=? value)
  | PerformArithmeticRegisterOpcode bit_width math_type _ _ src2 has_immediate value =>
      is_shift math_type
      && (64 <=? (if has_immediate then GetVmInt value bit_width
                  else default 0 (reg vm src2)))
  | _ => false
  end.

(** The end of a loop, the only opcode that jumps back. *)
Definition is_loop_end (op : Opcode) : bool :=
  match op with ControlLoopOpcode false _ _ => true | _ => false end.

Section exec.
Context {W : Type} `{Callbacks W} (metadata : CheatProcessMetadata) (kDown : Z).

Definition exec_result_ok (back : bool) (vm : DmntCheatVm) (r : option (DmntCheatVm * W)) : Prop :=
  ∃ vm' w', r = Some (vm', w') ∧ vm_ok vm' ∧ exec_frame back vm vm'.

Lemma exec_same back vm w : vm_ok vm → exec_result_ok back vm (Some (vm, w)).
Proof. intros Hok. exists vm, w. split_and!; [done|done|apply exec_frame_refl]. Qed.

Lemma exec_set_reg back vm i v w :
  vm_ok vm → reg_index_ok i → in_width 64 v →
  exec_result_ok back vm (vm' ← set_reg i v vm; Some (vm', w)).
Proof.
  intros Hok Hi Hv. destruct (set_reg_ok back vm i v) as (vm' & -> & Hok' & Hf & _); [done..|].
  by exists vm', w.
Qed.

Lemma exec_skip back vm b w :
  vm_ok vm → 0 < condition_depth vm →
  exec_result_ok back vm (vm' ← skip_unless b vm; Some (vm', w)).
Proof.
  intros Hok Hd. unfold skip_unless. destruct b; cbn [negb]; [by apply exec_same|].
  destruct (SkipConditionalBlock_ok true vm) as (vm' & -> & Hok' & E & Hip & Hw); [done..|].
  exists vm', w. split_and!; [done|done|]. constructor; [by rewrite E|by rewrite E|done|done].
Qed.

Lemma operand_address_ok vt mt a o rel vm :
  vm_ok vm → reg_index_ok a → reg_index_ok o →
  ∃ address, operand_address metadata vt mt a o rel vm = Some address.
Proof.
  intros Hok Ha Ho. unfold operand_address.
  destruct (reg_ok vm a) as (va & Ea & _), (reg_ok vm o) as (vo & Eo & _); [done..|].
  repeat case_match; rewrite ?Ea, ?Eo; cbn [mbind option_bind]; by eexists.
Qed.

Lemma register_math_ok mt a b :
  in_width 64 a → in_width 64 b →
  if ((mt =? RegisterArithmeticType.LeftShift) || (mt =? RegisterArithmeticType.RightShift))
     && (64 <=? b)
  then register_math mt a b = None
  else ∃ v, register_math mt a b = Some v ∧ in_width 64 v.
Proof.
  intros Ha Hb. pose proof (shl_ok a b Ha (proj1 Hb)). pose proof (shr_ok a b Ha (proj1 Hb)).
  assert (∀ x, in_width 64 (u64 x)) as Hw by (intros; apply wrap_range; lia).
  unfold register_math.
  repeat (match goal with |- context [mt =? ?c] => destruct (Z.eqb_spec mt c) as [->|?] end;
          [cbn; try done; try (eexists; split; [reflexivity|]; auto with width)|]).
  cbn. eexists. split; [reflexivity|]. unfold in_width; lia.
Qed.

Lemma mask_loop_ok op m src dst :
  length m = 16%nat →
  length src = 16%nat ∧ Forall (in_width 64) src →
  length dst = 16%nat ∧ Forall (in_width 64) dst →
  length (mask_loop op m src dst) = 16%nat ∧ Forall (in_width 64) (mask_loop op m src dst).
Proof.
  intros Hm [Hs Fs] [Hd Fd]. unfold mask_loop. split.
  - rewrite length_zip_with, length_zip_with. lia.
  - apply Forall_lookup. intros i x Hx.
    apply lookup_zip_with_Some in Hx as (b & [s d] & -> & _ & Hsd).
    apply lookup_zip_with_Some in Hsd as (s' & d' & [= -> ->] & Hs' & Hd').
    pose proof (Forall_lookup_1 _ _ _ _ Fs Hs'). pose proof (Forall_lookup_1 _ _ _ _ Fd Hd').
    repeat case_match; try done; unfold in_width; lia.
Qed.

(** Every opcode the decoder can produce, in a state that satisfies the invariant: it is
    undefined exactly when it is a hazard, and otherwise keeps the invariant. *)
Lemma exec_opcode_ok op vm w :
  vm_ok vm → opcode_ok op → (is_begin op = true → 0 < condition_depth vm) →
  if hazard op vm then exec_opcode metadata kDown op vm w = None
  else exec_result_ok (is_loop_end op) vm (exec_opcode metadata kDown op vm w).
Proof.
  intros Hok Hop Hbegin. pose proof (ok_depth _ Hok) as Hdepth.
  assert (∀ x, in_width 64 (u64 x)) as Hw by (intros; apply wrap_range; lia).
  assert (in_width 64 0) as H0 by (unfold in_width; lia).
  destruct op; cbn [exec_opcode hazard is_loop_end opcode_ok is_begin] in *.
  - unfold exec_StoreStatic. destruct Hop as [Hr _].
    destruct (reg_ok vm offset_register) as (v & -> & _); [done..|]. by apply exec_same.
  - unfold exec_BeginConditional. destruct (read_into 0 _ _ _) as [src w'].
    apply exec_skip; [done|auto].
  - unfold exec_EndConditional. destruct is_else.
    + destruct (Z.eqb_spec (condition_depth vm) 0) as [E|Hne].
      { unfold SkipConditionalBlock. by rewrite (proj2 (Z.ltb_ge _ _)) by lia. }
      destruct (SkipConditionalBlock_ok false vm) as (vm' & -> & Hok' & E & Hip & Hwk);
        [done|unfold in_width in *; lia|].
      exists vm', w. split_and!; [done|done|]. constructor; [by rewrite E|by rewrite E|done|done].
    + destruct (Z.ltb_spec 0 (condition_depth vm)); [|by apply exec_same].
      eexists _, w. split_and!; [done| |by apply exec_frame_same].
      apply with_flow_ok; [done|apply Hok|unfold in_width in *; lia].
  - unfold exec_ControlLoop. destruct Hop as [Hr Hn]. destruct start_loop.
    + destruct (set_reg_ok false vm reg_index num_iters) as (vm1 & -> & Hok1 & Hf1 & Hip1); [done..|].
      cbn [mbind option_bind].
      destruct (set_loop_top_ok false vm1 reg_index (instruction_ptr vm1)) as (vm2 & -> & Hok2 & Hf2);
        [done|done|apply Hok1|].
      exists vm2, w. split_and!; [done|done|]. cbn [negb]. by eapply exec_frame_trans.
    + destruct (reg_ok vm reg_index) as (v & -> & Hv); [done..|]. cbn [mbind option_bind].
      destruct (set_reg_ok true vm reg_index (u64 (v - 1))) as (vm1 & -> & Hok1 & Hf1 & _); [done|done|auto|].
      cbn [mbind option_bind]. destruct (negb _); [|by exists vm1, w].
      destruct (top_ok vm1 reg_index) as (top & -> & Ht); [done..|]. cbn [mbind option_bind].
      eexists _, w. split_and!; [done|apply with_flow_ok; [done|done|apply Hok1]|].
      destruct Hf1. by constructor.
  - destruct Hop. by apply exec_set_reg.
  - unfold exec_LoadRegisterMemory.
    destruct (reg_ok vm reg_index) as (v & -> & Hv); [done..|]. cbn [mbind option_bind].
    set (address := if load_from_reg then _ else _).
    pose proof (read_into_ok v address bit_width w Hv) as Hread.
    destruct (read_into v address bit_width w) as [v' w']. by apply exec_set_reg.
  - unfold exec_StoreStaticToAddress. destruct Hop as [Hr Ho].
    destruct (reg_ok vm reg_index) as (v & Ev & Hv), (reg_ok vm offset_reg_index) as (vo & Eo & _); [done..|].
    rewrite Ev. cbn [mbind option_bind]. destruct add_offset_reg; rewrite ?Eo; cbn [mbind option_bind];
      (destruct increment_reg; [apply exec_set_reg; auto|by apply exec_same]).
  - unfold exec_PerformArithmeticStatic. destruct Hop as [Hr Hv].
    destruct (reg_ok vm reg_index) as (v & -> & Hv'); [done..|]. cbn [mbind option_bind].
    pose proof (shl_ok v value Hv' Hv). pose proof (shr_ok v value Hv' Hv).
    repeat (match goal with |- context [math_type =? ?c] => destruct (Z.eqb_spec math_type c) as [->|?] end;
      [cbn; try (apply exec_set_reg; auto using apply_width_ok)|]).
    + destruct (64 <=? value); cbn; [by match goal with H : shl _ _ _ = None |- _ => rewrite H end|].
      destruct H1 as (x & -> & Hx). cbn. apply exec_set_reg; auto using apply_width_ok.
    + destruct (64 <=? value); cbn; [by match goal with H : shr _ _ _ = None |- _ => rewrite H end|].
      destruct H2 as (x & -> & Hx). cbn. apply exec_set_reg; auto using apply_width_ok.
    + cbn. apply exec_set_reg; auto using apply_width_ok.
  - unfold exec_BeginKeypressConditional. apply exec_skip; [done|auto].
  - unfold exec_PerformArithmeticRegister. destruct Hop as (Hd & Hs1 & Hs2 & Hv).
    destruct (reg_ok vm src_reg_1_index) as (v1 & Ev1 & Hv1), (reg_ok vm src_reg_2_index) as (v2 & Ev2 & Hv2); [done..|].
    rewrite Ev1, Ev2. cbn [mbind option_bind default from_option id].
    set (b := if has_immediate then GetVmInt value bit_width else v2).
    assert ((if has_immediate then Some (GetVmInt value bit_width) else Some v2) = Some b) as ->
      by (unfold b; by destruct has_immediate).
    assert (in_width 64 b) as Hb by (unfold b; destruct has_immediate; auto using GetVmInt_ok).
    cbn [mbind option_bind]. pose proof (register_math_ok math_type v1 b Hv1 Hb) as Hm.
    destruct (_ && (64 <=? b)); [by rewrite Hm|].
    destruct Hm as (x & -> & Hx). cbn [mbind option_bind].
    apply exec_set_reg; auto using apply_width_ok.
  - unfold exec_StoreRegisterToAddress. destruct Hop as (Hs & Ha & Ho).
    destruct (reg_ok vm str_reg_index) as (vs & Es & _), (reg_ok vm addr_reg_index) as (va & Ea & Hva),
      (reg_ok vm ofs_reg_index) as (vo & Eo & _); [done..|].
    rewrite Es. cbn [mbind option_bind]. rewrite Ea. cbn [mbind option_bind]. rewrite Eo.
    repeat case_match; cbn [mbind option_bind]; try (by apply exec_same); apply exec_set_reg; auto.
  - unfold exec_BeginRegisterConditional. destruct Hop as (Hv & Ha & Hoth & Ho).
    destruct (reg_ok vm val_reg_index) as (v & Ev & _), (reg_ok vm other_reg_index) as (vo & Eo & _); [done..|].
    destruct (operand_address_ok comp_type mem_type addr_reg_index ofs_reg_index rel_address vm)
      as (address & Ead); [done..|].
    rewrite Ev. cbn [mbind option_bind]. rewrite Eo, Ead.
    cbn [mbind option_bind]. destruct (_ =? _); [apply exec_skip; auto|].
    destruct (_ =? _); [apply exec_skip; auto|]. cbn [mbind option_bind].
    destruct (read_into 0 address bit_width w) as [c w']. apply exec_skip; auto.
  - unfold exec_SaveRestoreRegister. destruct Hop as [Hd Hs].
    destruct (reg_ok vm src_index) as (r & Er & Hr), (saved_ok vm src_index) as (s & Es & Hs'); [done..|].
    rewrite Er, Es.
    cbn [mbind option_bind].
    destruct (_ =? _); [by apply exec_set_reg|].
    destruct (_ =? _); [|destruct (_ =? _); [|by apply exec_set_reg]].
    + destruct (set_saved_ok false vm dst_index 0) as (vm' & -> & Hok' & Hf); [done..|]. by exists vm', w.
    + destruct (set_saved_ok false vm dst_index r) as (vm' & -> & Hok' & Hf); [done..|]. by exists vm', w.
  - unfold exec_SaveRestoreRegisterMask.
    destruct (_ || _); (eexists _, w; split; [reflexivity|]; apply with_arrays_ok; try apply Hok; try done;
      apply mask_loop_ok; [done|apply Hok|apply Hok]).
  - unfold exec_ReadWriteStaticRegister. destruct Hop as [Hs Hi].
    destruct (static_ok vm static_idx) as (s & Es & Hs'), (reg_ok vm idx) as (r & Er & Hr); [done..|].
    rewrite Er, Es.
    cbn [mbind option_bind]. destruct (_ <? _); [by apply exec_set_reg|].
    destruct (set_static_ok false vm static_idx r) as (vm' & -> & Hok' & Hf); [done..|]. by exists vm', w.
  - by apply exec_same.
  - by apply exec_same.
  - unfold exec_DebugLog. destruct Hop as (Ha & Hv & Ho).
    destruct (reg_ok vm val_reg_index) as (v & Ev & _); [done..|].
    destruct (operand_address_ok val_type mem_type addr_reg_index ofs_reg_index rel_address vm)
      as (address & Ead); [done..|].
    rewrite Ev, Ead.
    cbn [mbind option_bind]. destruct (_ =? _); [by apply exec_same|].
    destruct (read_into 0 address bit_width w) as [c w']. by apply exec_same.
  - by apply exec_same.
Qed.
End exec.

Lemma ResetState_ok vm : vm_ok vm → vm_ok (ResetState vm).
Proof.
  intros [Hn Hp Hw _ _ _ _ Hs _]. pose proof Hn.
  constructor; cbn [ResetState num_opcodes program instruction_ptr condition_depth registers
                    saved_values static_registers loop_tops]; try done; try lia;
    try (unfold in_width; lia).
  all: split; [reflexivity|apply Forall_replicate; unfold in_width; lia].
Qed.

(** * A concrete machine, for the witnesses *)

(** Memory is all zero, the keys are fixed, and writes are recorded. *)
#[local] Instance recording : Callbacks (Z * list (Z * Z * Z)) := {|
  MemoryReadUnsafe w address size := (0, w);
  MemoryWriteUnsafe w address value size := (w.1, (address, value, size) :: w.2);
  HidKeysDown w := (w.1, w);
  PauseProcess w := w;
  ResumeProcess w := w;
  DebugLog w log_id value := w;
|}.

Definition no_extents : CheatProcessMetadata :=
  let none := {| base := 0; size_ := 0 |} in
  {| process_id := 0; title_id := 0; main_nso_extents := none; heap_extents := none;
     alias_extents := none; aslr_extents := none; main_nso_build_id := [] |}.

Definition loaded (words : list Z) : DmntCheatVm :=
  ResetState (with_program (Z.of_nat (length words))
    (words ++ zeros (MaximumProgramOpcodeCount - Z.of_nat (length words))) new_DmntCheatVm).

Lemma loaded_ok words :
  Z.of_nat (length words) ≤ MaximumProgramOpcodeCount → Forall (in_width 32) words →
  vm_ok (loaded words).
Proof.
  intros Hn Hw. unfold loaded. apply ResetState_ok.
  constructor; cbn [with_program num_opcodes program instruction_ptr condition_depth registers
                    saved_values static_registers loop_tops new_DmntCheatVm].
  - unfold MaximumProgramOpcodeCount in *. lia.
  - unfold zeros. rewrite length_app, length_replicate. unfold MaximumProgramOpcodeCount in *. lia.
  - apply Forall_app; split; [done|]. apply Forall_replicate. done.
  - lia.
  - done.
  - split; [reflexivity|]. apply Forall_replicate. done.
  - split; [reflexivity|]. apply Forall_replicate. done.
  - split; [reflexivity|]. apply Forall_replicate. done.
  - split; [reflexivity|]. apply Forall_replicate. lia.
Qed.

(** If a key is held, 99 is stored at 0x1000, else 7. *)
Definition sample_words : list Z :=
  [0x80000002; 0x04000000; 0x1000; 99; 0x21000000; 0x04000000; 0x1000; 7; 0x20000000].
Definition sample : DmntCheatVm := loaded sample_words.

Definition plain (op : Opcode) : CheatVmOpcode := {| begin_conditional_block := false; opcode := op |}.

Lemma sample_ok : vm_ok sample.
Proof. apply loaded_ok; [done|]. repeat constructor; done. Qed.

(** * Properties *)
Section properties.
Context {W : Type} `{Callbacks W} (metadata : CheatProcessMetadata) (kDown : Z).

(** One turn of the machine, from any state that satisfies the invariant (every array
    of its size and every register a 64-bit word, the instruction pointer and the loop tops
    within the program). If no opcode decodes, the run halts. If one does, the turn is
    undefined exactly when the opcode is a shift by 64 or more or an [else] outside a
    block; no array is read or written out of its bounds, and the invariant is kept. *)
Theorem Execute_turn_defined vm w :
  vm_ok vm → condition_depth vm < 2 ^ 64 - 1 →
  match DecodeNextOpcode vm with
  | None => False
  | Some (None, vm1) => Execute_turn metadata kDown vm w = Some (Halts vm1) ∧ vm_ok vm1
  | Some (Some op, vm1) =>
      if hazard (opcode op) vm then Execute_turn metadata kDown vm w = None
      else ∃ vm' w', Execute_turn metadata kDown vm w = Some (Continues vm' w') ∧ vm_ok vm'
  end.
Proof.
  intros Hok Hd. unfold Execute_turn.
  destruct (DecodeNextOpcode_ok vm Hok) as (out & vm1 & E & Hok1 & E1 & Hip & Hout).
  rewrite E. cbn [mbind option_bind]. destruct out as [op|]; [|by split].
  destruct Hout as (_ & _ & _ & Hop & Hb). pose proof (ok_depth _ Hok) as Hd0.
  set (vm2 := if begin_conditional_block op then with_depth (u64 (condition_depth vm1 + 1)) vm1 else vm1).
  assert (condition_depth vm1 = condition_depth vm ∧ registers vm1 = registers vm) as [Ed1 Er1]
    by (rewrite E1; by split).
  assert (vm_ok vm2 ∧ (is_begin (opcode op) = true → 0 < condition_depth vm2)
          ∧ hazard (opcode op) vm2 = hazard (opcode op) vm) as (Hok2 & Hbegin & Hhaz).
  { unfold vm2. rewrite Hb. destruct (is_begin (opcode op)) eqn:Eb.
    - rewrite Ed1, wrap_small by (unfold in_width in *; lia). split_and!.
      + apply with_flow_ok; [done|apply Hok1|unfold in_width in *; lia].
      + intros _. simpl. unfold in_width in *. lia.
      + destruct (opcode op); try done.
    - split_and!; [done|done|].
      destruct (opcode op); cbn [hazard]; unfold reg; rewrite ?Ed1, ?Er1; done. }
  pose proof (exec_opcode_ok metadata kDown (opcode op) vm2 w Hok2 Hop Hbegin) as He.
  rewrite Hhaz in He. destruct (hazard (opcode op) vm); [by rewrite He|].
  destruct He as (vm' & w' & -> & Hok' & _). by exists vm', w'.
Qed.
(** The condition a begin opcode tests, with the outside world after its reads. *)
Definition block_condition (op : Opcode) (vm : DmntCheatVm) (w : W) : option (bool * W) :=
  match op with
  | BeginConditionalOpcode bit_width mem_type cond_type rel_address value =>
      let '(src, w) := read_into 0 (GetCheatProcessAddress metadata mem_type rel_address) bit_width w in
      Some (condition_met cond_type src (GetVmInt value bit_width), w)
  | BeginKeypressConditionalOpcode key_mask => Some (Z.land key_mask kDown =? key_mask, w)
  | BeginRegisterConditionalOpcode bit_width cond_type v comp_type mem_type a oth o rel value =>
      val ← reg vm v;
      '(other, w) ←
        (if comp_type =? CompareRegisterValueType.StaticValue then Some (GetVmInt value bit_width, w)
         else if comp_type =? CompareRegisterValueType.OtherRegister then
           x ← reg vm oth; Some (masked bit_width x, w)
         else
           address ← operand_address metadata comp_type mem_type a o rel vm;
           Some (read_into 0 address bit_width w));
      Some (condition_met cond_type (masked bit_width val) other, w)
  | _ => None
  end.

Lemma exec_begin op vm w b w' :
  is_begin op = true → block_condition op vm w = Some (b, w') →
  exec_opcode metadata kDown op vm w = (vm' ← skip_unless b vm; Some (vm', w')).
Proof.
  destruct op; try done; intros _ E; cbn [block_condition exec_opcode] in *.
  - unfold exec_BeginConditional. destruct (read_into _ _ _ _) as [src w1]. by injection E as <- <-.
  - by injection E as <- <-.
  - unfold exec_BeginRegisterConditional. destruct (reg vm val_reg_index); [|done].
    cbn [mbind option_bind] in *.
    destruct (if comp_type =? _ then _ else _) as [[c w1]|]; [|done].
    cbn [mbind option_bind] in *. by injection E as <- <-.
Qed.

(** C38: a conditional block. The begin opcode at the instruction pointer is followed by
    [body], which stays inside the block, and by the block's [end] or [else]. If the
    condition holds the machine enters the body one block deeper; if not, it goes on just
    after the [end], at the old depth, or just after the [else], inside the block. *)
Theorem conditional_block_correct vm w op body e is_else ip ip1 ip2 b w' :
  vm_ok vm → decode_success vm = true →
  condition_depth vm + 1 + Z.of_nat (length body) < 2 ^ 64 →
  decodes_at vm (instruction_ptr vm) op ip → is_begin (opcode op) = true →
  listing vm ip body ip1 → stays_inside true 0 body = Some 0%nat →
  decodes_at vm ip1 e ip2 → opcode e = EndConditionalOpcode is_else →
  block_condition (opcode op) vm w = Some (b, w') →
  Execute_turn metadata kDown vm w
  = Some (Continues
      (if b then with_flow ip (condition_depth vm + 1) true vm
       else with_flow ip2 (if is_else then condition_depth vm + 1 else condition_depth vm) true vm) w').
Proof.
  intros Hok Hs Hd Hop Hbegin Hl Hin He Hend Hcond.
  pose proof (ok_ip _ Hok) as Hip. pose proof (ok_depth _ Hok) as Hd0.
  destruct (decodes_at_lt vm _ op ip Hok Hip Hop) as (Hlt & Hflag & _).
  assert (vm = with_flow (instruction_ptr vm) (condition_depth vm) true vm) as Evm
    by (destruct vm; unfold with_flow; simpl in *; by subst).
  unfold Execute_turn. rewrite Evm at 1. rewrite (decodes_at_depth _ _ _ _ _ Hop).
  cbn [mbind option_bind]. rewrite Hflag, Hbegin.
  change (condition_depth (with_flow ip (condition_depth vm) true vm)) with (condition_depth vm).
  rewrite wrap_small by (unfold in_width in *; lia).
  change (with_depth (condition_depth vm + 1) (with_flow ip (condition_depth vm) true vm))
    with (with_flow ip (condition_depth vm + 1) true vm).
  set (vm2 := with_flow ip (condition_depth vm + 1) true vm).
  rewrite (exec_begin (opcode op) vm2 w b w'); [|done|].
  2: { rewrite <-Hcond. by destruct (opcode op). }
  unfold skip_unless. destruct b; cbn [negb mbind option_bind]; [done|].
  rewrite (SkipConditionalBlock_matches vm2 true body e is_else ip1 ip2).
  - cbn [mbind option_bind]. do 2 f_equal. unfold vm2, with_flow; cbn. f_equal. destruct is_else; lia.
  - apply with_flow_ok; [done|lia|unfold in_width in *; lia].
  - done.
  - unfold in_width in *. simpl. lia.
  - simpl. lia.
  - by apply listing_flow.
  - done.
  - exact He.
  - done.
  - done.
Qed.

(** An [else] that is reached by execution ends the taken branch: the machine goes on
    after the [end] of the block, past the other branch and any blocks nested in it, and is
    out of the block. *)
Theorem else_skips_to_end vm w op body e ip ip1 ip2 :
  vm_ok vm → decode_success vm = true → 0 < condition_depth vm →
  condition_depth vm + Z.of_nat (length body) < 2 ^ 64 →
  decodes_at vm (instruction_ptr vm) op ip → opcode op = EndConditionalOpcode true →
  listing vm ip body ip1 → stays_inside false 0 body = Some 0%nat →
  decodes_at vm ip1 e ip2 → opcode e = EndConditionalOpcode false →
  Execute_turn metadata kDown vm w
  = Some (Continues (with_flow ip2 (condition_depth vm - 1) true vm) w).
Proof.
  intros Hok Hs Hd0 Hd Hop Helse Hl Hin He Hend.
  pose proof (ok_ip _ Hok) as Hip. pose proof (ok_depth _ Hok) as Hdw.
  destruct (decodes_at_lt vm _ op ip Hok Hip Hop) as (Hlt & Hflag & _).
  assert (vm = with_flow (instruction_ptr vm) (condition_depth vm) true vm) as Evm
    by (destruct vm; unfold with_flow; simpl in *; by subst).
  unfold Execute_turn. rewrite Evm at 1. rewrite (decodes_at_depth _ _ _ _ _ Hop).
  cbn [mbind option_bind]. rewrite Hflag, Helse. cbn [is_begin exec_opcode exec_EndConditional].
  set (vm2 := with_flow ip (condition_depth vm) true vm).
  unfold exec_EndConditional.
  rewrite (SkipConditionalBlock_matches vm2 false body e false ip1 ip2);
    [done|apply with_flow_ok; [done|lia|done]|done|done|done|by apply listing_flow|done|exact He|done|done].
Qed.

(** ** Termination *)

(** No opcode is the end of a loop, when the program is decoded one opcode after the other from its
    first word; the words inside of an opcode do not count. *)
Definition no_loop_end (vm : DmntCheatVm) : Prop :=
  ∀ ip op ip', rtc (next_at vm) 0 ip → decodes_at vm ip op ip' → is_loop_end (opcode op) = false.

(** A test of it. *)
Fixpoint loop_free (fuel : nat) (vm : DmntCheatVm) (ip : Z) : bool :=
  match fuel with
  | O => false
  | S fuel =>
      match DecodeNextOpcode (with_flow ip 0 true vm) with
      | Some (Some op, vm') => negb (is_loop_end (opcode op)) && loop_free fuel vm (instruction_ptr vm')
      | _ => true
      end
  end.

Lemma loop_free_ok fuel vm : loop_free fuel vm 0 = true → no_loop_end vm.
Proof.
  intros Hf ip op ip' R. assert (∃ fuel, loop_free fuel vm ip = true) as [n Hn].
  { clear op ip'. revert fuel Hf. induction R as [i|i j k [op E] _ IH]; intros fuel Hf; [by exists fuel|].
    destruct fuel as [|fuel]; [done|]. cbn [loop_free] in Hf. unfold decodes_at in E. rewrite E in Hf.
    apply andb_true_iff in Hf as [_ Hf]. by apply (IH fuel). }
  destruct n as [|n]; [done|]. cbn [loop_free] in Hn. unfold decodes_at. intros E. rewrite E in Hn.
  apply andb_true_iff in Hn as [Hn _]. by apply negb_true_iff.
Qed.

Lemma exec_opcode_Some op vm w vm' w' :
  vm_ok vm → opcode_ok op → exec_opcode metadata kDown op vm w = Some (vm', w') →
  vm_ok vm' ∧ exec_frame (is_loop_end op) vm vm'.
Proof.
  intros Hok Hop E.
  destruct (decide (is_begin op = true ∧ condition_depth vm ≤ 0)) as [[Hb Hd]|Hd].
  - assert (∀ b w1, (v ← skip_unless b vm; Some (v, w1)) = Some (vm', w') → vm' = vm) as Hskip.
    { intros b w1. unfold skip_unless, SkipConditionalBlock. rewrite (proj2 (Z.ltb_ge _ _)) by lia.
      destruct b; cbn; [|done]. by intros [= -> _]. }
    assert (vm' = vm) as ->; [|split; [done|apply exec_frame_refl]].
    destruct op; try done; cbn [exec_opcode] in E.
    + unfold exec_BeginConditional in E. destruct (read_into _ _ _ _). by apply Hskip in E.
    + by apply Hskip in E.
    + unfold exec_BeginRegisterConditional in E. destruct (reg vm val_reg_index); [|done].
      cbn [mbind option_bind] in E. destruct (if comp_type =? _ then _ else _) as [[c w1]|]; [|done].
      by apply Hskip in E.
  - pose proof (ok_depth _ Hok) as [Hd0 _].
    pose proof (exec_opcode_ok metadata kDown op vm w Hok Hop) as He.
    destruct (hazard op vm).
    + rewrite He in E; [done|]. intros Hb. destruct (Z.lt_ge_cases 0 (condition_depth vm)); [done|]. tauto.
    + destruct He as (vm2 & w2 & E2 & Hok2 & Hf2).
      * intros Hb. destruct (Z.lt_ge_cases 0 (condition_depth vm)); [done|]. tauto.
      * rewrite E in E2. by injection E2 as -> ->.
Qed.

(** Every turn of such a program goes forward from one of its opcodes to another. *)
Lemma Execute_loop_finishes fuel vm w :
  vm_ok vm → no_loop_end vm → (decode_success vm = true → rtc (next_at vm) 0 (instruction_ptr vm)) →
  num_opcodes vm - instruction_ptr vm < Z.of_nat fuel →
  match Execute_loop metadata kDown fuel vm w with OutOfFuel _ _ => False | _ => True end.
Proof.
  revert vm w. induction fuel as [|fuel IH]; intros vm w Hok Hno Hwalk Hf;
    pose proof (ok_ip _ Hok) as Hip0; [lia|].
  cbn [Execute_loop]. unfold Execute_turn.
  destruct (DecodeNextOpcode_ok vm Hok) as (out & vm1 & E & Hok1 & E1 & Hip & Hout).
  rewrite E. cbn [mbind option_bind]. destruct out as [op|]; [|done].
  destruct Hout as (Hs & Hs1 & Hlt & Hop & Hb). specialize (Hwalk Hs).
  pose proof (DecodeNextOpcode_at vm op vm1 E Hs) as Hat.
  assert (is_loop_end (opcode op) = false) as Hend by by apply (Hno _ _ _ Hwalk Hat).
  set (vm2 := if begin_conditional_block op then with_depth (u64 (condition_depth vm1 + 1)) vm1 else vm1).
  assert (vm_ok vm2 ∧ instruction_ptr vm2 = instruction_ptr vm1
          ∧ num_opcodes vm2 = num_opcodes vm ∧ program vm2 = program vm) as (Hok2 & Hip2 & Hn2 & Hp2).
  { unfold vm2. destruct (begin_conditional_block op); rewrite E1; split_and!; try done;
      rewrite <-E1; [apply with_flow_ok; [done|apply Hok1|apply wrap_range; lia]|done]. }
  destruct (exec_opcode metadata kDown (opcode op) vm2 w) as [[vm3 w3]|] eqn:Eexec; [|done].
  cbn [mbind option_bind].
  destruct (exec_opcode_Some (opcode op) vm2 w vm3 w3) as [Hok3 [Hn3 Hp3 Hi3 Hw3]]; [done..|].
  specialize (Hi3 Hend). specialize (Hw3 Hend).
  assert (num_opcodes vm = num_opcodes vm3 ∧ program vm = program vm3) as [Hn Hp] by (split; congruence).
  apply IH; [done| | |lia].
  - intros ip op' ip' R Hat'. apply (Hno ip op' ip'); [by apply (next_at_program vm3 vm)|].
    by apply (decodes_at_program vm3 vm).
  - intros Hs3. destruct (Hw3 Hs3) as [_ R]. apply (next_at_program vm vm3); [done|done|].
    etrans; [exact Hwalk|]. eapply rtc_l; [by exists op|]. rewrite <-Hip2.
    by apply (next_at_program vm2 vm).
Qed.

End properties.

(** C39: a program none of whose opcodes, decoded one after the other from its first word, is the
    end of a loop finishes (or meets undefined behaviour): as many turns as it has words, and
    one more, are enough, whatever memory and keys hold. The values and addresses inside of the
    opcodes may look like the end of a loop, for the machine never gets into the middle of
    an opcode. *)
Theorem Execute_terminates {W} `{Callbacks W} fuel metadata vm (w : W) :
  vm_ok vm → no_loop_end vm → num_opcodes vm < Z.of_nat fuel →
  match Execute fuel metadata vm w with OutOfFuel _ _ => False | _ => True end.
Proof.
  intros Hok Hno Hf. unfold Execute. destruct (HidKeysDown w) as [keys w1].
  apply Execute_loop_finishes; [by apply ResetState_ok| |intros _; apply rtc_refl|simpl; lia].
  intros ip op ip' R Hat. apply (Hno ip op ip'); [by apply (next_at_program (ResetState vm) vm)|].
  by apply (decodes_at_program (ResetState vm) vm).
Qed.

(** * Loading a program *)
Definition entry_ok (e : CheatEntry) : Prop :=
  0 ≤ def_num_opcodes (definition e) ≤ Z.of_nat (length (opcodes (definition e))).

(** The words an entry contributes. *)
Definition entry_words (e : CheatEntry) : list Z :=
  if enabled e then take (Z.to_nat (def_num_opcodes (definition e))) (opcodes (definition e)) else [].

Lemma with_program_same vm : with_program (num_opcodes vm) (program vm) vm = vm.
Proof. by destruct vm. Qed.

Lemma copy_opcodes_spec count k d vm m :
  num_opcodes vm = Z.of_nat m → (m + count ≤ length (program vm))%nat →
  (k + count ≤ length (opcodes d))%nat →
  copy_opcodes count (Z.of_nat k) d vm
  = Some (with_program (Z.of_nat (m + count))
            (take m (program vm) ++ take count (drop k (opcodes d)) ++ drop (m + count) (program vm)) vm).
Proof.
  revert k vm m. induction count as [|count IH]; intros k vm m Hm Hp Ho; cbn [copy_opcodes].
  { rewrite take_0, Nat.add_0_r. cbn [app]. rewrite take_drop, <-Hm. by rewrite with_program_same. }
  rewrite at_lookup. destruct (lookup_lt_is_Some_2 (opcodes d) k) as [x Hx]; [lia|].
  rewrite Hx. cbn [mbind option_bind]. rewrite Hm, set_at_insert by lia. cbn [mbind option_bind].
  replace (Z.of_nat k + 1) with (Z.of_nat (S k)) by lia.
  rewrite (IH (S k) _ (S m)); cbn [with_program num_opcodes program]; rewrite ?length_insert; try lia.
  f_equal. unfold with_program; cbn. f_equal; [lia|].
  rewrite (drop_S (opcodes d) x k) by done. cbn [take].
  rewrite (take_S_r _ m x) by (apply list_lookup_insert_eq; lia).
  rewrite take_insert_ge, drop_insert_lt by lia.
  rewrite <-app_assoc. cbn [app]. by rewrite Nat.add_succ_r.
Qed.

Lemma LoadProgram_loop_spec entries vm m :
  Forall entry_ok entries → Z.of_nat (length (program vm)) = MaximumProgramOpcodeCount →
  num_opcodes vm = Z.of_nat m → (m ≤ length (program vm))%nat →
  let words := entries ≫= entry_words in
  ∃ prog, length prog = length (program vm) ∧
    LoadProgram_loop entries vm
    = Some (if Z.of_nat (m + length words) <=? MaximumProgramOpcodeCount then
              (true, with_program (Z.of_nat (m + length words)) prog vm)
            else (false, with_program 0 prog vm))
    ∧ (Z.of_nat (m + length words) ≤ MaximumProgramOpcodeCount →
       take (m + length words) prog = take m (program vm) ++ words).
Proof.
  intros Hf. revert vm m. induction Hf as [|e entries He Hf IH]; intros vm m Hl Hm Hle words.
  { exists (program vm). unfold words. cbn [mbind list_bind LoadProgram_loop length].
    rewrite Nat.add_0_r, app_nil_r. rewrite (proj2 (Z.leb_le _ _)) by lia.
    split_and!; [done| |done]. by rewrite <-Hm, with_program_same. }
  unfold words. cbn [LoadProgram_loop]. rewrite bind_cons.
  assert (entry_words e = if enabled e then take (Z.to_nat (def_num_opcodes (definition e)))
            (opcodes (definition e)) else []) as -> by done.
  destruct (enabled e); [|by apply IH].
  destruct He as [H0 H1]. set (d := definition e) in *.
  set (k := Z.to_nat (def_num_opcodes d)).
  assert (length (take k (opcodes d)) = k) as Hk by (rewrite length_take; lia).
  set (rest := entries ≫= entry_words).
  rewrite length_app, Hk.
  destruct (Z.ltb_spec MaximumProgramOpcodeCount (def_num_opcodes d + num_opcodes vm)) as [Hbig|Hfit].
  { exists (program vm). rewrite (proj2 (Z.leb_gt _ _)) by lia. split_and!; [done|done|lia]. }
  pose proof (copy_opcodes_spec k 0 d vm m) as Ec. change (Z.of_nat 0) with 0 in Ec.
  rewrite Ec by lia. clear Ec. cbn [mbind option_bind].
  set (prog1 := take m (program vm) ++ _).
  assert (length prog1 = length (program vm)) as Hl1.
  { unfold prog1. rewrite !length_app, !length_take, !length_drop. lia. }
  destruct (IH (with_program (Z.of_nat (m + k)) prog1 vm) (m + k)%nat) as (prog & Hlp & E & Ht);
    cbn [with_program program num_opcodes]; [lia|done|lia|].
  exists prog. fold rest in E, Ht. rewrite E. rewrite <-Nat.add_assoc. split_and!.
  - cbn in Hlp. lia.
  - by rewrite Nat.add_assoc.
  - intros Hfit2. rewrite Nat.add_assoc in *. rewrite Ht by done. cbn [with_program program].
    rewrite app_assoc. f_equal. unfold prog1. rewrite drop_0, app_assoc.
    rewrite take_app_length'; [done|]. rewrite length_app, !length_take. lia.
Qed.

(** Loading concatenates the words of the enabled cheats, in order, at the start of the
    program and counts them; if they do not all fit in [MaximumProgramOpcodeCount] words
    the answer is [false] and the program is empty. Nothing else of the machine changes. *)
Theorem LoadProgram_correct entries vm :
  Forall entry_ok entries → Z.of_nat (length (program vm)) = MaximumProgramOpcodeCount →
  let words := entries ≫= entry_words in
  ∃ prog, length prog = length (program vm) ∧
    if Z.of_nat (length words) <=? MaximumProgramOpcodeCount then
      LoadProgram entries vm = Some (true, with_program (Z.of_nat (length words)) prog vm)
      ∧ take (length words) prog = words
    else LoadProgram entries vm = Some (false, with_program 0 prog vm).
Proof.
  intros Hf Hl words. unfold LoadProgram.
  destruct (LoadProgram_loop_spec entries (with_program 0 (program vm) vm) 0) as (prog & Hlp & E & Ht);
    [done|done|done|lia|].
  exists prog. split; [done|]. rewrite E. cbn [Nat.add]. fold words. fold words in Ht.
  destruct (Z.leb_spec (Z.of_nat (length words)) MaximumProgramOpcodeCount) as [Hle|]; [|done].
  split; [done|]. exact (Ht Hle).
Qed.

(** * Witnesses *)
Lemma Execute_turn_defined_witness :
  ∃ vm' w', Execute_turn no_extents 2 sample (2, []) = Some (Continues vm' w') ∧ vm_ok vm'.
Proof. exact (Execute_turn_defined no_extents 2 sample (2, []) sample_ok eq_refl). Defined.

Lemma conditional_block_correct_witness :
  Execute_turn no_extents 0 sample (0, []) = Some (Continues (with_flow 5 1 true sample) (0, [])).
Proof.
  refine (conditional_block_correct no_extents 0 sample (0, [])
    {| begin_conditional_block := true; opcode := BeginKeypressConditionalOpcode 2 |}
    [plain (StoreStaticOpcode 4 0 0 0x1000 99)] (plain (EndConditionalOpcode true)) true 1 4 5 false (0, [])
    sample_ok eq_refl eq_refl _ eq_refl _ eq_refl _ eq_refl eq_refl); [reflexivity| |reflexivity].
  econstructor; [reflexivity|constructor].
Defined.

Lemma else_skips_to_end_witness :
  Execute_turn no_extents 2 (with_flow 4 1 true sample) (2, [])
  = Some (Continues (with_flow 9 0 true sample) (2, [])).
Proof.
  refine (else_skips_to_end no_extents 2 (with_flow 4 1 true sample) (2, [])
    (plain (EndConditionalOpcode true)) [plain (StoreStaticOpcode 4 0 0 0x1000 7)]
    (plain (EndConditionalOpcode false)) 5 8 9 _ eq_refl eq_refl eq_refl _ eq_refl _ eq_refl _ eq_refl).
  - apply with_flow_ok; [exact sample_ok|split; discriminate|split; done].
  - reflexivity.
  - econstructor; [reflexivity|constructor].
  - reflexivity.
Defined.

(** A store of the float 1.0, whose word by itself is the end of a loop. *)
Definition store_one : DmntCheatVm := loaded [0x04000000; 0x1000; 0x3F800000].

Example word_of_a_loop_end :
  (r ← DecodeNextOpcode (with_flow 2 0 true store_one); is_loop_end ∘ opcode <$> r.1) = Some true.
Proof. vm_compute. reflexivity. Qed.

Lemma Execute_terminates_witness :
  match Execute 4 no_extents store_one (2, []) with OutOfFuel _ _ => False | _ => True end.
Proof.
  apply (Execute_terminates 4 no_extents store_one (2, [])).
  - apply loaded_ok; [done|]. repeat constructor; done.
  - apply (loop_free_ok 10). vm_compute. reflexivity.
  - reflexivity.
Defined.

Lemma LoadProgram_correct_witness :
  ∃ prog, length prog = 1024%nat ∧
    LoadProgram [{| enabled := true; cheat_id := 1; definition :=
                    {| readable_name := []; def_num_opcodes := 2; opcodes := [5; 6; 7] |} |}]
      new_DmntCheatVm
    = Some (true, with_program 2 prog new_DmntCheatVm) ∧ take 2 prog = [5; 6].
Proof.
  refine (LoadProgram_correct [{| enabled := true; cheat_id := 1; definition :=
                    {| readable_name := []; def_num_opcodes := 2; opcodes := [5; 6; 7] |} |}]
      new_DmntCheatVm _ eq_refl).
  repeat constructor; simpl; lia.
Defined.
