(* ===== verification/CheatEncoding.v ===== *)
(** The instruction formats of the cheat machine as an assembler, and the proof that the
    decoder of dmnt_cheat_vm.cpp inverts it, the register of a loop apart. The layouts are those of
    the comments in [DecodeNextOpcode]; where a comment is silent or cannot be meant (an [else], the
    instruction that resumes the process, the offset types that carry a relative address) the layout
    is the one of the code, and says so. *)
From S2P Require Import Prelude CheatVm CheatVmSpec.


Definition digit (n : Z) : Prop := 0 ≤ n < 16.



Section digits.
Context (n7 n6 n5 n4 n3 n2 n1 n0 : Z).
Context (H7 : digit n7) (H6 : digit n6) (H5 : digit n5) (H4 : digit n4)
        (H3 : digit n3) (H2 : digit n2) (H1 : digit n1) (H0 : digit n0).




End digits.


(** * The assembler *)

(** Each format is that of the comment at its case of [DecodeNextOpcode], loops included: their
    register is in bits 16 to 19 ([300R0000 VVVVVVVV], [310R0000]). Of the code alone are: the
    digit 1 that makes an end of a block an [else]; [FF1] for the resume instruction, whose comment
    repeats the [FF0] of the pause; and the relative address of a register store, which the comment
    gives to the offset types 2 and 3 and the code reads for 2, 4 and 5. *)
Definition digit_of_bool (b : bool) : Z := if b then 1 else 0.









(** * Decoding what was encoded *)


Section roundtrip.
Context (vm : DmntCheatVm).







Lemma rel_digit rel : in_width 36 rel → digit (rel / 2 ^ 32).
Proof. intros [H0 H1]. split; [apply Z.div_pos; lia|apply Z.div_lt_upper_bound; lia]. Qed.

Lemma digit_of_bool_ok b : digit (digit_of_bool b).
Proof. destruct b; unfold digit; simpl; lia. Qed.

End roundtrip.

Lemma zero_digit : digit (0 / 2 ^ 32).
Proof. split; done. Qed.

#[local] Hint Resolve digit_of_bool_ok rel_digit zero_digit : cheat.
#[local] Hint Extern 1 (digit _) => unfold digit in *; lia : cheat.









Section decode_encode.
Context (vm : DmntCheatVm) (ip d : Z).






















End decode_encode.




(** * Properties *)


